(* ===== verification/_CoqProject ===== *)
-Q . S2P
Prelude.v
Errno.v
Bitmap.v
IdAllocator.v
RingBuffer.v
KFifo.v
Memblock.v
OrdMap.v
BTree.v
RbTree.v
RbShape.v
RbFix.v
RbSearch.v
RbEdit.v
RbOps.v
RbTheorems.v
MapleTree.v
Vma.v
MmTxn.v
MmPlan.v
MmSyscall.v
Page.v
Zone.v
Pcp.v
Buddy.v
PageEntry.v
Paging.v
PageWalk.v
PagingMap.v
PagingUnmap.v
PagingShare.v
Vmalloc.v
VmallocWindow.v
VmallocTheorems.v
VmallocExample.v
Conc.v
Locks.v
CondVar.v
RwLock.v
Semaphore.v
Barrier.v
Once.v
Sched.v
FsPath.v
FsMount.v
FsTable.v
FsDesc.v
FsRun.v
FsTrace.v
FsFiles.v
FsMmap.v
Utf8.v
Block.v
BlockTheorems.v
Fat32.v
Fat32Chains.v
Fat32Dirs.v
Fat32Format.v
Fat32Example.v
Initramfs.v
InitramfsTheorems.v
InitramfsFormat.v
FsBoot.v
FsBootTheorems.v
FsBootExample.v
Elf.v
ExecStack.v
ExecLoad.v
ExecPages.v
ExecStage.v
ExecRun.v
ExecTheorems.v
ExecExample.v
ExecVma.v
ExecRemap.v
ExecArgs.v
ExecCall.v
ExecCallSteps.v
ExecCallTheorems.v
ExecCallExample.v
