(* ===== verification/Prelude.v ===== *)
(** * january_os: a verification of the kernel's core

    january_os is a kernel in Rust (src/kernel) with a UEFI boot loader, user programs and
    tools.  This library models the parts of the kernel that carry its own logic and whose
    behaviour does not depend on device registers: the containers of [libs], the memory
    managers of [mm], the synchronisation primitives of [sync], the scheduler of [task], and of
    [fs] and [drivers] the way from a path to the bytes on a disk.

    ** Parts of the program and the files that model them

    - kernel/src/libs/bitmap: [Bitmap].  Word-wise scans are proved equal to bit-wise ones.
    - kernel/src/libs/id_allocator: [IdAllocator], a client of [Bitmap]; refinement of the set
      of allocated ids.
    - kernel/src/libs/ring_buffer and kfifo: [RingBuffer], [KFifo]; refinement of a bounded
      queue.
    - kernel/src/libs/btree: [BTree]; its contract is the class [OrdMap] of OrdMap.v.  The
      instance covers trees of at most two levels, where removal is right; insertion and
      lookup are proved for every height.
    - kernel/src/libs/rbtree: [RbTree], the red-black tree as nodes in a heap, linked by raw
      pointers in both directions; a second instance of [OrdMap].  [RbShape] relates heaps to
      trees and treats left and right as one, [RbFix] has the balance and its repair,
      [RbSearch] the searches and walks, [RbEdit] insertion and removal of nodes, [RbOps] and
      [RbTheorems] the public operations.
    - kernel/src/libs/mptree: [MapleTree], the interval tree, proved against the class.
    - kernel/src/mm/virt/vma.rs: [Vma], the areas and counters of an address space over the
      interval tree.
    - kernel/src/mm/syscall: [MmTxn] (the plans of [munmap] and [mprotect], their application
      and their undoing, with the reference counts of mapped files), [MmPlan] (what the plans
      compute and do, the interface [PageTable], whose instance is a flat table), [MmSyscall]
      (the four system calls).
    - kernel/src/mm/phys/memblock.rs: [Memblock], the allocator used while booting.
    - kernel/src/mm/phys/page.rs, zone.rs, pcp.rs, buddy.rs: [Page] (descriptors and
      intrusive lists in one heap), [Zone] (free lists and counters), [Pcp] (caches of single
      pages per CPU), [Buddy] (split, merge, boot).  The four share the state [Mem] and the
      invariant [phys_ok] of Zone.v, which ties lists, flags and counters to one map of
      blocks.
    - kernel/src/mm/arch/x86_64/paging.rs: [PageEntry] (entries, indices, the words of a
      table in memory), [Paging] (the operations, on the state of the page allocators since
      tables are pages), [PageWalk] (tables as a tree, what replacing an entry does to the
      walk), [PagingMap], [PagingUnmap] and [PagingShare] (mapping, unmapping, the kernel
      half that all address spaces share).
    - kernel/src/mm/alloc/vmalloc.rs: [Vmalloc], areas of the kernel over the ordered map of
      the red-black tree, the interval tree and the page tables; [VmallocWindow] (single pages
      of the window, filling and clearing an area), [VmallocTheorems] (the two trees and the
      calls), [VmallocExample].
    - kernel/src/sync: [Locks] (spin lock, mutex, their interrupt-disabling wrappers),
      [CondVar], [RwLock], [Semaphore] (with permits and the bounded semaphore), [Barrier]
      (with the latch), [Once].  Conc.v holds what they share: a machine that interleaves
      CPUs, one atomic access per step, with rule induction over its runs.  [Locks] states
      what a lock promises as the class [GuardedLock], of which the spin lock and the mutex
      are instances; the wrappers and the condition variable are clients.
    - kernel/src/task/sched with task/thread/task.rs and processor.rs: [Sched], the run
      queues, the choice of the next task, stealing, deferred requeueing and the decision
      that [schedule] takes.
    - kernel/src/errno.rs: [Errno].
    - kernel/src/fs/vfs: [FsPath] (both normalisations of paths), [FsMount] (the mount table
      and lookup across mounts); what a file system offers is the class [Vfs].
    - kernel/src/fs/runtime/manager.rs: [FsTable] (the descriptors of processes, pipes, files
      behind mappings, every call on them), [FsDesc] and [FsRun] (counting descriptors, what
      each call keeps), [FsTrace] (sequences of calls), [FsFiles], [FsMmap] (the counts of
      mapped files, which [MmTxn] keeps for itself, are those of the table).
    - kernel/src/drivers/block: [Block] (devices as records of reads, partitions, devices on
      files, both kinds of partition tables), [BlockTheorems].
    - kernel/src/fs/backing/fat: [Fat32] (the file system, an instance of [Vfs] over a block
      device), [Fat32Chains], [Fat32Dirs], [Fat32Format] (the on-disk format of directories,
      written out as an encoder with arbitrary dates, checksums and attribute bits, deleted
      records and volume labels), [Fat32Example].  [Utf8] holds the encodings of the standard
      library it uses.
    - kernel/src/fs/backing/initramfs.rs: [Initramfs] (the boot archive and its use as a file
      system), [InitramfsTheorems], [InitramfsFormat] (the archive format as an encoder,
      with arbitrary owners, times and devices, and tools/mkinitramfs, which writes it).
    - the rest of manager.rs: [FsBoot] (start-up, discovery of partitions, mounting and
      remounting; ext4 and procfs are parameters), [FsBootTheorems], [FsBootExample].
    - kernel/src/task/proc/exec.rs with task/syscall/exec.rs and exec_args.rs: [Elf] (files to
      load plans), [ExecStack] (the first stack, its layout [abi_stack], and the functions of
      userland/runtime that read arguments),
      [ExecLoad] (mapping and filling the pages of a plan, and the way back), [ExecVma] (the
      areas of the new program), [ExecArgs] (the arguments in the caller's memory), [ExecCall]
      (the call [execve]).  Their proofs: [ExecPages], [ExecStage], [ExecRun] and
      [ExecTheorems] for loading, [ExecRemap] for the pages of the old program, [ExecCallSteps]
      and [ExecCallTheorems] for the call; [ExecExample] and [ExecCallExample] run them.

    ** How code becomes definitions

    A struct is a Record with the code's fields, an enum an Inductive type, a method a
    function of the same name.  Machine integers are [Z] with the wrap-around of a release
    build written out ([add64], [sub32], ...; [saturating_add64] and the checked operations
    where the code uses them).  Code that can panic or loop returns [exec] (below): [Ret],
    [Panic] or [OutOfFuel]; the page allocators run in a state monad over it.  Loops are
    Fixpoints: structural on the data where the code consumes it, otherwise on fuel.

    Fuel is always enough, and the theorems say so by stating [Ret]: a loop over a region
    array gets its capacity (Memblock), a descent in the B-tree the height of the tree, a
    search in the interval tree the number of its intervals, a walk in the red-black tree one
    more than the heap has nodes, splitting and merging the
    number of orders, the scan that builds the free lists the number of pages, the search
    for a descriptor number one more than the table holds (where a number is free at all),
    a chain of clusters the bound the code itself counts down.

    Memory that a program or the kernel on its behalf reads or writes is reached through the
    page table; at an address that is not mapped the model has [Panic], since the fault handler
    is not modelled, and the theorems show that it does not happen.  Those on loading assume an
    address space whose user half has tables of its own and no large pages ([own_space]), as
    mapping leaves it; those on the areas of the kernel assume the same of the vmalloc window.

    Locks are taken around the operations of the memory managers; each such operation is one
    step of its model.  So is each operation of the scheduler, where it is a simplification: the
    run queues have locks, but a call of [schedule] holds none of them from beginning to end,
    and interleavings inside one call are not covered.  In [sync] the steps are single atomic
    accesses and the schedules are arbitrary; atomics are sequentially consistent there, and
    [compare_exchange_weak] may fail for no reason.

    ** What the theorems show

    - Page allocators: an allocation hands out one free block, aligned, with reference count
      one and cleared flags, and nothing else changes hands; a release merges with free
      buddies as far as possible and restores the blocks an allocation split, unless it is a
      single page and goes to the cache of its CPU; shared pages
      are kept; building the free lists partitions the range; the counters agree with the
      blocks.
    - Page tables: [map_page] and [unmap_page] change the mapping of exactly the one page,
      whatever tables they add, split, copy or give back on the way, also when memory runs
      out, and keep the tree of tables and the allocator consistent (unmapping: in tables of
      the address space's own; a copied kernel table that becomes empty is replaced by the
      shared one, which an Example shows); taking over the kernel
      half makes both address spaces agree on it, with the references counted.
    - Areas of the kernel: an allocation maps a new range of new, zeroed frames, or the
      frames of a device, behind a guard page and apart from all others, or changes nothing;
      releasing it unmaps exactly its pages and gives the frames back.  This is for the
      kernel's own address space, with one call at a time; the copies of a mapping in other
      address spaces are modelled, and not part of the theorems.
    - Boot allocator: adding is union and removing difference on addresses, the two searches
      find the highest and the lowest fit, the free regions are memory minus reserved.
    - Address spaces: counters equal what the areas add up to in every reachable state, also
      after the heap's areas were removed; the break, stack growth and permission bits behave as
      documented.
    - Memory system calls: [mmap], [munmap] and [mprotect] change what exactly the pages of
      their range map, in the areas and in the page table ([munmap] and [mprotect] for exactly
      the arguments that are in order), keep the counters and the references to mapped files
      exact, and undo what they did when they fail, but for the two cases the theorems name (a
      fixed file mapping with a bad descriptor; the page table of the range when [mprotect] runs
      out of memory).
    - Containers: refinement of ordered maps, interval maps, queues and sets of ids, with
      atomic failure where the code promises it.  The red-black tree follows no bad pointer,
      stays balanced, searches in logarithmic time, leaks no node and touches no other.
    - Synchronisation: mutual exclusion and the owner's view of the lock words, restored
      interrupt flags, readers against writers, conservation of permits, a barrier that holds
      back until all have arrived and then lets all pass, no lost notification, exactly one
      initialisation.
    - Scheduler: every reachable state has each task at most once in the queues and no queued
      task running; the choice of [pick_next]; [schedule] loses no task; a waiting task is
      dispatched after as many calls as there are tasks before it, at most.
    - Paths and mounts: the two normalisations, each with its own loops, agree with the relation
      [leads], which follows the components of a path one by one; a lookup starts in the file
      system mounted deepest on the path.
    - Descriptors and pipes: over every sequence of calls (in which both ends of a new pipe
      get different numbers) the counters of a pipe are the descriptors that name it, what is read from a pipe is what was written, in order, and
      each end sees whether the other is there; calls change the descriptors they name only;
      what the search for a number needs to end.
    - Partitions: whatever a table says, partitions stay inside the device and apart from its
      first block; a change of one byte in a table with checksums is always noticed.
    - FAT32: reads are slices of the file's bytes, chains end (cycles as errors), clusters
      stay inside the volume and apart, names are UTF-8, and directories written in the
      format, whatever its unread fields hold, are listed as they were written.
    - Boot archive: every byte string is either refused or read as a set of directories in
      which listing and lookup agree, and an archive written in the format is read back, those of
      the repository's own packer among them.
    - Loading programs: an accepted ELF file has a plan that is safe to carry out and that
      describes the file; carrying it out maps and fills everything or, after any failure,
      leaves every address as it was; the new program finds its arguments, its environment and
      the auxiliary vector at the initial stack pointer, in the layout of the System V ABI, and
      the runtime's functions read each argument back.  [execve] over all of this either enters
      the file's program, with the file's bytes under the protection of the recorded areas and
      the caller's arguments on the stack, or gives the caller back unchanged, where the
      recorded mappings are still the live ones, but for the case the theorem names (no memory for the page tables on the way back, which an Example shows
      to happen).
    - The whole way down: after a partition is mounted, a process that opens and reads a file
      on it receives the bytes that the partition's clusters hold.

    The Examples named after a defect run the definitions on an input where the code does not
    do what it means to; they are the evidence of the findings recorded with this library.

    ** What is not modelled

    Device drivers, interrupt controllers, processor start-up, page-table registers, context
    switches and the boot loader are hardware access.  Not modelled yet, but within reach: the
    radix tree, the LRU cache, the slab allocator, page faults, signals and waiting, [fork],
    procfs and polling.  ext4 is a library the sources only wrap.
    Of the modelled parts these are left out: the diagnostic output, writes to block devices,
    finding the boot disk among the drivers, [argc_argv] of the user runtime (it reads a
    register inside a compiled function), [force_unlock] and the unchecked accessors of the
    locks, [ResettableBarrier], reference counting and cloning of address spaces, the
    interrupts that flush other CPUs' translation caches (which flush an operation asks for is
    part of its result), and statistics. *)

From stdpp Require Export base numbers list list_numbers gmap.
From Stdlib Require Export ZArith Lia.

#[global] Open Scope Z_scope.

(** ** Outcomes of kernel code

    A computation returns ([Ret]), panics ([Panic]: an index out of bounds, an
    [unwrap] of [None], a division by zero) or is cut off by the fuel a loop was
    given ([OutOfFuel]).  Theorems that a routine produces a result always say
    [= Ret _]. *)
Inductive exec (A : Type) : Type :=
| Ret (a : A)
| Panic
| OutOfFuel.
Arguments Ret {A} a.
Arguments Panic {A}.
Arguments OutOfFuel {A}.

#[export] Instance exec_ret : MRet exec := fun A a => Ret a.
#[export] Instance exec_bind : MBind exec := fun A B f m =>
  match m with
  | Ret a => f a
  | Panic => Panic
  | OutOfFuel => OutOfFuel
  end.

(** One step of a computation whose head has become [Ret]. *)
Ltac mstep := cbn [mbind exec_bind mret exec_ret].

(** Rust's [Result]. *)
Inductive Result (T E : Type) : Type :=
| Ok (t : T)
| Err (e : E).
Arguments Ok {T E} t.
Arguments Err {T E} e.

Definition is_ok {T E} (r : Result T E) : bool :=
  match r with Ok _ => true | Err _ => false end.

(** ** Machine integers: [u64] and [usize] are 64 bits wide, and the kernel is
    built in release mode, where [+], [-], [*] wrap around. *)
Abbreviation u64_size := 18446744073709551616.
Abbreviation U64_MAX := 18446744073709551615.

Definition in_u64 (x : Z) : Prop := 0 <= x < u64_size.

Definition add64 (a b : Z) : Z := (a + b) mod u64_size.
Definition sub64 (a b : Z) : Z := (a - b) mod u64_size.
Definition mul64 (a b : Z) : Z := (a * b) mod u64_size.
Definition shl64 (a n : Z) : Z := Z.shiftl a n mod u64_size.
(** [!a] of a 64-bit word. *)
Definition not64 (a : Z) : Z := Z.lxor a U64_MAX.
Definition checked_add64 (a b : Z) : option Z :=
  if a + b <? u64_size then Some (a + b) else None.
Definition saturating_sub64 (a b : Z) : Z := Z.max 0 (a - b).
Definition saturating_add64 (a b : Z) : Z := Z.min U64_MAX (a + b).
Definition saturating_mul64 (a b : Z) : Z := Z.min U64_MAX (a * b).

(** [u32] and [i32]: the arithmetic of 32-bit counters and atomics. *)
Definition add32 (a b : Z) : Z := (a + b) mod 4294967296.
Definition sub32 (a b : Z) : Z := (a - b) mod 4294967296.
Definition saturating_add32 (a b : Z) : Z := Z.min 4294967295 (a + b).
Definition saturating_sub32 (a b : Z) : Z := Z.max 0 (a - b).
(** Two's complement at 32 bits, also the cast [as i32]. *)
Definition wrap_i32 (a : Z) : Z := (a + 2147483648) mod 4294967296 - 2147483648.

Lemma wrap_i32_small a : -2147483648 <= a < 2147483648 -> wrap_i32 a = a.
Proof. intros. unfold wrap_i32. rewrite Z.mod_small; lia. Qed.

Lemma add64_small a b : 0 <= a + b < u64_size -> add64 a b = a + b.
Proof. intros; unfold add64; now rewrite Z.mod_small. Qed.
Lemma sub64_small a b : 0 <= a - b < u64_size -> sub64 a b = a - b.
Proof. intros; unfold sub64; now rewrite Z.mod_small. Qed.
Lemma mul64_small a b : 0 <= a * b < u64_size -> mul64 a b = a * b.
Proof. intros; unfold mul64; now rewrite Z.mod_small. Qed.

(** [wsimpl] removes the wrap-around of an operation whose exact result fits. *)
Ltac wsimpl :=
  repeat match goal with
  | |- context [add64 ?a ?b] => rewrite (add64_small a b) by (unfold in_u64 in *; lia)
  | |- context [sub64 ?a ?b] => rewrite (sub64_small a b) by (unfold in_u64 in *; lia)
  | |- context [mul64 ?a ?b] => rewrite (mul64_small a b) by (unfold in_u64 in *; lia)
  end.

(** The same for the cast to [i32]. *)
Ltac i32_simpl :=
  repeat match goal with
  | |- context [wrap_i32 ?a] => rewrite (wrap_i32_small a) by lia
  | H : context [wrap_i32 ?a] |- _ => rewrite (wrap_i32_small a) in H by lia
  end.

Ltac wsimpl_in H :=
  repeat match type of H with
  | context [add64 ?a ?b] => rewrite (add64_small a b) in H by (unfold in_u64 in *; lia)
  | context [sub64 ?a ?b] => rewrite (sub64_small a b) in H by (unfold in_u64 in *; lia)
  | context [mul64 ?a ?b] => rewrite (mul64_small a b) in H by (unfold in_u64 in *; lia)
  end.

(** Boolean comparisons of the code become propositions. *)
Ltac bsplit :=
  repeat match goal with
  | |- context [Z.eqb ?a ?b] => destruct (Z.eqb_spec a b)
  | |- context [Z.ltb ?a ?b] => destruct (Z.ltb_spec a b)
  | |- context [Z.leb ?a ?b] => destruct (Z.leb_spec a b)
  end; simpl; try lia.

(** ** Vectors and arrays indexed by [usize] *)
Definition vec_get {A} (l : list A) (i : Z) : exec A :=
  if decide (0 <= i) then
    match l !! Z.to_nat i with Some x => Ret x | None => Panic end
  else Panic.

Definition vec_set {A} (l : list A) (i : Z) (x : A) : exec (list A) :=
  if decide (0 <= i < Z.of_nat (length l)) then Ret (<[Z.to_nat i := x]> l) else Panic.

Lemma vec_get_Some {A} (l : list A) i x :
  0 <= i -> l !! Z.to_nat i = Some x -> vec_get l i = Ret x.
Proof. intros Hi Hx. unfold vec_get. rewrite decide_True by lia. now rewrite Hx. Qed.

Lemma vec_get_in_bounds {A} (l : list A) i :
  0 <= i < Z.of_nat (length l) ->
  exists x, l !! Z.to_nat i = Some x /\ vec_get l i = Ret x.
Proof.
  intros Hi. destruct (lookup_lt_is_Some_2 l (Z.to_nat i)) as [x Hx]; [lia|].
  exists x. split; [done|]. apply vec_get_Some; [lia|done].
Qed.

Lemma vec_set_in_bounds {A} (l : list A) i x :
  0 <= i < Z.of_nat (length l) -> vec_set l i x = Ret (<[Z.to_nat i := x]> l).
Proof. intros Hi. unfold vec_set. now rewrite decide_True. Qed.

(** The indices of [for i in a..b]. *)
Definition zrange (a b : Z) : list Z := seqZ a (b - a).

Lemma zrange_empty a b : b <= a -> zrange a b = [].
Proof. intros. unfold zrange. apply seqZ_nil. lia. Qed.
Lemma zrange_cons a b : a < b -> zrange a b = a :: zrange (a + 1) b.
Proof.
  intros. unfold zrange. rewrite seqZ_cons by lia.
  f_equal. f_equal; lia.
Qed.
Lemma zrange_snoc a b : a < b -> zrange a b = zrange a (b - 1) ++ [b - 1].
Proof.
  intros. unfold zrange. replace (b - a) with ((b - 1 - a) + 1) by lia.
  rewrite seqZ_app by lia. f_equal. simpl. rewrite seqZ_cons by lia.
  rewrite seqZ_nil by lia. f_equal. lia.
Qed.
Lemma elem_of_zrange a b i : i ∈ zrange a b <-> a <= i < b.
Proof. unfold zrange. rewrite elem_of_seqZ. lia. Qed.
Lemma zrange_app a b c : a <= b <= c -> zrange a c = zrange a b ++ zrange b c.
Proof.
  intros. unfold zrange. replace (c - a) with ((b - a) + (c - b)) by lia.
  rewrite seqZ_app by lia. f_equal. f_equal. lia.
Qed.
Lemma length_zrange a b : length (zrange a b) = Z.to_nat (b - a).
Proof. unfold zrange. apply length_seqZ. Qed.

(** Induction along a [for] loop that counts upwards. *)
Lemma zrange_ind (P : Z -> Prop) (b : Z) :
  (forall a, b <= a -> P a) ->
  (forall a, a < b -> P (a + 1) -> P a) ->
  forall a, P a.
Proof.
  intros Hbase Hstep a.
  remember (Z.to_nat (b - a)) as n eqn:Hn. revert a Hn.
  induction n as [|n IH]; intros a Hn.
  - apply Hbase. lia.
  - apply Hstep; [lia|]. apply IH. lia.
Qed.

(** ** Bits of 64-bit words *)
Lemma u64_size_pow2 : u64_size = 2 ^ 64.
Proof. reflexivity. Qed.

Lemma in_u64_testbit x j : in_u64 x -> 64 <= j -> Z.testbit x j = false.
Proof.
  intros Hx Hj. rewrite <- (Z.mod_small x (2 ^ 64)) by (unfold in_u64 in *; lia).
  apply Z.mod_pow2_bits_high. lia.
Qed.

Lemma in_u64_of_testbit x :
  0 <= x -> (forall j, 64 <= j -> Z.testbit x j = false) -> in_u64 x.
Proof.
  intros H0 Hb. unfold in_u64.
  enough (x = x mod 2 ^ 64) as -> by (apply (Z.mod_pos_bound x (2 ^ 64)); lia).
  apply Z.bits_inj'. intros n Hn.
  destruct (Z.lt_ge_cases n 64).
  - now rewrite Z.mod_pow2_bits_low.
  - rewrite Z.mod_pow2_bits_high by lia. now apply Hb.
Qed.

Lemma testbit_U64_MAX j : 0 <= j < 64 -> Z.testbit U64_MAX j = true.
Proof. intros. change U64_MAX with (Z.ones 64). now apply Z.ones_spec_low. Qed.

Lemma testbit_not64 a j : 0 <= j < 64 -> Z.testbit (not64 a) j = negb (Z.testbit a j).
Proof.
  intros. unfold not64. rewrite Z.lxor_spec, testbit_U64_MAX by done.
  now destruct (Z.testbit a j).
Qed.

Lemma in_u64_lor a b : in_u64 a -> in_u64 b -> in_u64 (Z.lor a b).
Proof.
  intros Ha Hb. apply in_u64_of_testbit.
  - apply Z.lor_nonneg. unfold in_u64 in *. lia.
  - intros j Hj. now rewrite Z.lor_spec, !in_u64_testbit.
Qed.

Lemma in_u64_land a b : in_u64 a -> 0 <= b -> in_u64 (Z.land a b).
Proof.
  intros Ha Hb. apply in_u64_of_testbit.
  - apply Z.land_nonneg. unfold in_u64 in *. lia.
  - intros j Hj. now rewrite Z.land_spec, (in_u64_testbit a).
Qed.

Lemma in_u64_not64 a : in_u64 a -> in_u64 (not64 a).
Proof.
  intros Ha. unfold not64. apply in_u64_of_testbit.
  - apply Z.lxor_nonneg. unfold in_u64 in *. lia.
  - intros j Hj. rewrite Z.lxor_spec, (in_u64_testbit a) by done.
    now rewrite (in_u64_testbit U64_MAX).
Qed.

Lemma shl64_1 k : 0 <= k < 64 -> shl64 1 k = 2 ^ k.
Proof.
  intros. unfold shl64. rewrite Z.shiftl_1_l. apply Z.mod_small.
  split; [lia|]. rewrite u64_size_pow2. apply Z.pow_lt_mono_r; lia.
Qed.

Lemma pow2_in_u64 k : 0 <= k < 64 -> in_u64 (2 ^ k).
Proof.
  intros. split; [lia|]. rewrite u64_size_pow2. apply Z.pow_lt_mono_r; lia.
Qed.

(** A word of 64 bits is zero exactly when all its bits are. *)
Lemma word_eq_0_bits w : in_u64 w -> (forall j, 0 <= j < 64 -> Z.testbit w j = false) -> w = 0.
Proof.
  intros Hw Hb. apply Z.bits_inj'. intros n Hn. rewrite Z.bits_0.
  destruct (Z.lt_ge_cases n 64); [apply Hb; lia|now apply in_u64_testbit].
Qed.

Create HintDb word.
#[export] Hint Resolve in_u64_lor in_u64_land in_u64_not64 pow2_in_u64 : word.

(** ** Counting the indices below [n] that satisfy a test *)
Fixpoint count_true (f : Z -> bool) (n : nat) : Z :=
  match n with
  | O => 0
  | S n' => Z.b2z (f 0) + count_true (fun i => f (i + 1)) n'
  end.

Lemma count_true_ext f g n :
  (forall i, 0 <= i < Z.of_nat n -> f i = g i) -> count_true f n = count_true g n.
Proof.
  revert f g. induction n as [|n IH]; intros f g H; simpl; [done|].
  rewrite H by lia. f_equal. apply IH. intros i Hi. apply H. lia.
Qed.

Lemma count_true_add f m n :
  count_true f (m + n) = count_true f m + count_true (fun i => f (i + Z.of_nat m)) n.
Proof.
  revert f. induction m as [|m IH]; intros f; simpl.
  - apply count_true_ext. intros i _. f_equal. lia.
  - rewrite IH, Z.add_assoc. f_equal. apply count_true_ext. intros i _. f_equal. lia.
Qed.

Lemma count_true_none f n :
  (forall i, 0 <= i < Z.of_nat n -> f i = false) -> count_true f n = 0.
Proof.
  revert f. induction n as [|n IH]; intros f H; simpl; [done|].
  rewrite H, IH by (try intros; try apply H; lia). done.
Qed.

Lemma count_true_bounds f n : 0 <= count_true f n <= Z.of_nat n.
Proof.
  revert f. induction n as [|n IH]; intros f; simpl; [lia|].
  specialize (IH (fun i => f (i + 1))). destruct (f 0); simpl; lia.
Qed.

Lemma count_true_filter f lo n :
  count_true (fun i => f (i + lo)) n =
  Z.of_nat (length (filter (fun i => f i = true) (seqZ lo (Z.of_nat n)))).
Proof.
  revert lo. induction n as [|n IH]; intros lo; [done|].
  rewrite seqZ_cons by lia. cbn [count_true]. rewrite filter_cons. rewrite Z.add_0_l.
  replace (Z.pred (Z.of_nat (S n))) with (Z.of_nat n) by lia.
  transitivity (Z.b2z (f lo) +
    Z.of_nat (length (filter (fun i => f i = true) (seqZ (Z.succ lo) (Z.of_nat n))))).
  - f_equal. rewrite <- IH. apply count_true_ext. intros i _. f_equal. lia.
  - destruct (f lo); simpl; lia.
Qed.

(** Masking with [!(2^k - 1)] rounds down to a multiple of [2^k]. *)
Lemma land_not_mask a k :
  in_u64 a -> 0 <= k < 64 -> Z.land a (not64 (2 ^ k - 1)) = 2 ^ k * (a / 2 ^ k).
Proof.
  intros Ha Hk. rewrite Z.sub_1_r, <- Z.ones_equiv.
  rewrite <- Z.shiftr_div_pow2, Z.mul_comm, <- Z.shiftl_mul_pow2 by lia.
  apply Z.bits_inj'. intros j Hj. rewrite Z.land_spec. destruct (Z.lt_ge_cases j 64).
  - rewrite testbit_not64, Z.testbit_ones by lia. rewrite Z.shiftl_spec by lia.
    bsplit; rewrite ?andb_false_r, ?andb_true_r.
    + now rewrite Z.testbit_neg_r by lia.
    + rewrite Z.shiftr_spec by lia. f_equal. lia.
  - rewrite (in_u64_testbit a) by done. rewrite Z.shiftl_spec, Z.shiftr_spec by lia.
    symmetry. replace (j - k + k) with j by lia. now apply in_u64_testbit.
Qed.

(** Replacing an amount [x] of a wrapped total by [y]. *)
Lemma total_replace s x y : add64 (sub64 (s mod u64_size) x) y = (s - x + y) mod u64_size.
Proof.
  unfold add64, sub64. rewrite Zplus_mod_idemp_l.
  replace (s mod u64_size - x + y) with (s mod u64_size + (y - x)) by lia.
  rewrite Zplus_mod_idemp_l. f_equal. lia.
Qed.
Lemma total_replace2 s a b y :
  add64 (sub64 (s mod u64_size) (add64 a b)) y = (s - (a + b) + y) mod u64_size.
Proof.
  rewrite total_replace. unfold add64.
  replace (s - (a + b) mod u64_size + y) with (s + y - (a + b) mod u64_size) by lia.
  rewrite Zminus_mod_idemp_r. f_equal. lia.
Qed.
Lemma total_add s y : add64 (s mod u64_size) y = (s + y) mod u64_size.
Proof. unfold add64. now rewrite Zplus_mod_idemp_l. Qed.
Lemma total_sub s x : sub64 (s mod u64_size) x = (s - x) mod u64_size.
Proof. unfold sub64. now rewrite Zminus_mod_idemp_l. Qed.

Lemma len_snoc {A} (l : list A) x : Z.of_nat (length (l ++ [x])) = Z.of_nat (length l) + 1.
Proof. rewrite length_app. simpl. lia. Qed.

(** Reading and writing the element of a split list. *)
Lemma vec_get_middle {A} (l1 : list A) x l2 i :
  i = Z.of_nat (length l1) -> vec_get (l1 ++ x :: l2) i = Ret x.
Proof. intros ->. apply vec_get_Some; [lia|]. rewrite Nat2Z.id. now apply list_lookup_middle. Qed.

Lemma vec_get_next {A} (l1 : list A) x y l2 i :
  i = Z.of_nat (length l1) + 1 -> vec_get (l1 ++ x :: y :: l2) i = Ret y.
Proof.
  intros ->. rewrite (cons_middle x l1 (y :: l2)), app_assoc. apply vec_get_middle.
  rewrite length_app. simpl. lia.
Qed.

Lemma vec_set_middle {A} (l1 : list A) x y l2 i :
  i = Z.of_nat (length l1) -> vec_set (l1 ++ x :: l2) i y = Ret (l1 ++ y :: l2).
Proof.
  intros ->. rewrite vec_set_in_bounds by (rewrite length_app; simpl; lia).
  rewrite Nat2Z.id. f_equal. now rewrite <- (Nat.add_0_r (length l1)), insert_app_r.
Qed.

(** Appends associated to the right, with their heads exposed. *)
Ltac list_norm := repeat first [rewrite <- app_assoc | progress cbn [app]].
Ltac list_norm_in H := repeat first [rewrite <- app_assoc in H | progress cbn [app] in H].

(** Arithmetic on the lengths of appended lists. *)
Ltac len_lia := repeat first [rewrite !length_app | progress cbn [length]]; lia.

(** ** [Vec] operations at positions found by an iterator *)
Definition vec_at {A} (l : list A) (i : nat) : exec A :=
  match l !! i with Some x => Ret x | None => Panic end.
Definition vec_put {A} (l : list A) (i : nat) (x : A) : exec (list A) :=
  if decide (i < length l)%nat then Ret (<[i := x]> l) else Panic.
Definition vec_insert {A} (l : list A) (i : nat) (x : A) : exec (list A) :=
  if decide (i <= length l)%nat then Ret (take i l ++ x :: drop i l) else Panic.
Definition vec_remove {A} (l : list A) (i : nat) : exec (A * list A) :=
  match l !! i with Some x => Ret (x, delete i l) | None => Panic end.
(** [pop().unwrap()] *)
Definition vec_pop {A} (l : list A) : exec (A * list A) :=
  match last l with Some x => Ret (x, take (length l - 1) l) | None => Panic end.
Definition split_off {A} (l : list A) (at_ : nat) : exec (list A * list A) :=
  if decide (at_ <= length l)%nat then Ret (take at_ l, drop at_ l) else Panic.

(** [iter().position(p)] *)
Fixpoint position {A} (p : A -> bool) (l : list A) : option nat :=
  match l with
  | [] => None
  | x :: l' => if p x then Some O else S <$> position p l'
  end.

Lemma vec_at_middle {A} (l1 : list A) x l2 i : i = length l1 -> vec_at (l1 ++ x :: l2) i = Ret x.
Proof. intros ->. unfold vec_at. now rewrite list_lookup_middle. Qed.
Lemma vec_put_middle {A} (l1 : list A) x y l2 i :
  i = length l1 -> vec_put (l1 ++ x :: l2) i y = Ret (l1 ++ y :: l2).
Proof.
  intros ->. unfold vec_put. rewrite decide_True by (rewrite length_app; simpl; lia).
  f_equal. now rewrite <- (Nat.add_0_r (length l1)), insert_app_r.
Qed.
Lemma vec_insert_middle {A} (l1 l2 : list A) y i :
  i = length l1 -> vec_insert (l1 ++ l2) i y = Ret (l1 ++ y :: l2).
Proof.
  intros ->. unfold vec_insert. rewrite decide_True by (rewrite length_app; lia).
  now rewrite take_app_length, drop_app_length.
Qed.
Lemma vec_remove_middle {A} (l1 : list A) x l2 i :
  i = length l1 -> vec_remove (l1 ++ x :: l2) i = Ret (x, l1 ++ l2).
Proof. intros ->. unfold vec_remove. rewrite list_lookup_middle by done. now rewrite delete_middle. Qed.
Lemma vec_pop_snoc {A} (l : list A) x : vec_pop (l ++ [x]) = Ret (x, l).
Proof.
  unfold vec_pop. rewrite last_snoc, length_app, Nat.add_sub. now rewrite take_app_length.
Qed.
Lemma split_off_app {A} (l1 l2 : list A) n : n = length l1 -> split_off (l1 ++ l2) n = Ret (l1, l2).
Proof.
  intros ->. unfold split_off. rewrite decide_True by (rewrite length_app; lia).
  now rewrite take_app_length, drop_app_length.
Qed.

(** [position] splits the list at the first element that satisfies the test. *)
Lemma position_spec {A} (p : A -> bool) (l : list A) :
  match position p l with
  | Some i => exists l1 x l2, l = l1 ++ x :: l2 /\ i = length l1 /\ p x = true /\
                              Forall (fun y => p y = false) l1
  | None => Forall (fun y => p y = false) l
  end.
Proof.
  induction l as [|x l IH]; simpl; [constructor|]. destruct (p x) eqn:Hp.
  - exists [], x, l. repeat split; [done|constructor].
  - destruct (position p l) as [i|]; simpl; [|by constructor].
    destruct IH as (l1 & y & l2 & -> & -> & Hy & Hl). exists (x :: l1), y, l2. repeat split; auto.
Qed.

Lemma filter_all {A} (P : A -> Prop) `{!forall x, Decision (P x)} l : Forall P l -> filter P l = l.
Proof. induction 1 as [|x l Hx _ IH]; [done|]. rewrite filter_cons_True by done. by rewrite IH. Qed.
Lemma filter_none {A} (P : A -> Prop) `{!forall x, Decision (P x)} l : Forall (fun x => ~ P x) l -> filter P l = [].
Proof. induction 1 as [|x l Hx _ IH]; [done|]. by rewrite filter_cons_False. Qed.
Lemma filter_ext_in {A} (P Q : A -> Prop) `{forall i, Decision (P i), forall i, Decision (Q i)} (l : list A) :
  (forall i, i ∈ l -> P i <-> Q i) -> filter P l = filter Q l.
Proof.
  induction l as [|i l IH]; intros H'; [done|]. rewrite !filter_cons, IH by set_solver. pose proof (H' i ltac:(by left)).
  by destruct (decide (P i)), (decide (Q i)); try tauto.
Qed.
Lemma head_app_ne {A} (l1 l2 : list A) : l1 <> [] -> head (l1 ++ l2) = head l1.
Proof. by destruct l1. Qed.
Lemma last_app_ne {A} (l1 l2 : list A) : l2 <> [] -> last (l1 ++ l2) = last l2.
Proof. intros H. destruct l2 as [|x l2 _] using rev_ind; [done|]. by rewrite app_assoc, !last_snoc. Qed.
Lemma filter_length_lt {A} (P Q : A -> Prop) `{!forall x, Decision (P x)} `{!forall x, Decision (Q x)} l r :
  (forall x, Q x -> P x) -> r ∈ l -> P r -> ~ Q r -> (length (filter Q l) < length (filter P l))%nat.
Proof.
  intros HQP Hin HP HQ. assert (Hle : forall l', (length (filter Q l') <= length (filter P l'))%nat).
  { intros l'. induction l' as [|y l' IH]; [done|]. rewrite !filter_cons.
    destruct (decide (Q y)), (decide (P y)); simpl; try lia. naive_solver. }
  induction l as [|y l IH]; [by apply elem_of_nil in Hin|]. rewrite !filter_cons.
  apply elem_of_cons in Hin as [->|Hin].
  - rewrite decide_False by done. rewrite decide_True by done. specialize (Hle l). simpl. lia.
  - specialize (IH Hin). destruct (decide (Q y)), (decide (P y)); simpl; try lia. naive_solver.
Qed.
