(* ===== verification/Bitmap.v ===== *)
(** * The bitmap of kernel/src/libs/bitmap/mod.rs

    [Bitmap] is a vector of 64-bit words with a bit count.  The file gives every
    method of the source, the well-formedness invariant (enough words, every word
    64 bits wide, no bit set past [nbits]) and the functional behaviour of the
    methods against the view [bit_at] of the bitmap as a function from indices. *)

From S2P Require Import Prelude.

Abbreviation word_bits := 64.

(** ** Bit operations of [usize] *)
Fixpoint pos_count_ones (p : positive) : Z :=
  match p with
  | xI q => 1 + pos_count_ones q
  | xO q => pos_count_ones q
  | xH => 1
  end.

Definition word_count_ones (w : Z) : Z :=
  match w with Zpos p => pos_count_ones p | _ => 0 end.

Fixpoint pos_trailing_zeros (p : positive) : Z :=
  match p with xO q => 1 + pos_trailing_zeros q | _ => 0 end.

Definition word_trailing_zeros (w : Z) : Z :=
  match w with Zpos p => pos_trailing_zeros p | _ => word_bits end.

(** ** The structure and its methods *)
Record Bitmap := mkBitmap { bits : list Z; nbits : Z }.

Definition new (n : Z) : Bitmap :=
  let words := if n =? 0 then 0 else sub64 (add64 n word_bits) 1 / word_bits in
  mkBitmap (replicate (Z.to_nat words) 0) n.

Definition is_empty (b : Bitmap) : bool := nbits b =? 0.

Definition clear_all (b : Bitmap) : Bitmap :=
  mkBitmap ((fun _ => 0) <$> bits b) (nbits b).

Definition mask_tail_bits (b : Bitmap) : Bitmap :=
  if nbits b =? 0 then b
  else
    let used := nbits b mod word_bits in
    if used =? 0 then b
    else
      let mask := sub64 (shl64 1 used) 1 in
      match last (bits b) with
      | Some w =>
          mkBitmap (<[Nat.pred (length (bits b)) := Z.land w mask]> (bits b)) (nbits b)
      | None => b
      end.

Definition set_all (b : Bitmap) : Bitmap :=
  mask_tail_bits (mkBitmap ((fun _ => U64_MAX) <$> bits b) (nbits b)).

Definition word_mask (b : Bitmap) (bit : Z) : option (Z * Z) :=
  if nbits b <=? bit then None
  else Some (bit / word_bits, shl64 1 (bit mod word_bits)).

Definition set (b : Bitmap) (bit : Z) : exec (bool * Bitmap) :=
  match word_mask b bit with
  | None => Ret (false, b)
  | Some (word, mask) =>
      w ← vec_get (bits b) word;
      bs ← vec_set (bits b) word (Z.lor w mask);
      Ret (true, mkBitmap bs (nbits b))
  end.

Definition clear (b : Bitmap) (bit : Z) : exec (bool * Bitmap) :=
  match word_mask b bit with
  | None => Ret (false, b)
  | Some (word, mask) =>
      w ← vec_get (bits b) word;
      bs ← vec_set (bits b) word (Z.land w (not64 mask));
      Ret (true, mkBitmap bs (nbits b))
  end.

Definition test (b : Bitmap) (bit : Z) : exec bool :=
  match word_mask b bit with
  | None => Ret false
  | Some (word, mask) =>
      w ← vec_get (bits b) word;
      Ret (negb (Z.land w mask =? 0))
  end.

(** [for (word_index, &word) in self.bits.iter().enumerate()], skipping the words
    equal to [skip] and counting the trailing zeros of [view word]. *)
Fixpoint scan_words (skip : Z) (view : Z -> Z) (limit : Z) (ws : list Z) (word_index : Z)
  : option Z :=
  match ws with
  | [] => None
  | word :: ws' =>
      if word =? skip then scan_words skip view limit ws' (word_index + 1)
      else
        let offset := word_trailing_zeros (view word) in
        let bit := add64 (mul64 word_index word_bits) offset in
        if bit <? limit then Some bit
        else scan_words skip view limit ws' (word_index + 1)
  end.

Definition find_first_set (b : Bitmap) : option Z :=
  scan_words 0 (fun w => w) (nbits b) (bits b) 0.

Definition find_first_zero (b : Bitmap) : option Z :=
  scan_words U64_MAX not64 (nbits b) (bits b) 0.

Definition count_ones (b : Bitmap) : Z :=
  foldr (fun w acc => word_count_ones w + acc) 0 (bits b).

Definition count_zeros (b : Bitmap) : Z := saturating_sub64 (nbits b) (count_ones b).

Definition valid_range (b : Bitmap) (start len : Z) : bool :=
  if (len =? 0) || (nbits b <=? start) then false
  else match checked_add64 start len with
       | Some e => e <=? nbits b
       | None => false
       end.

Fixpoint update_bits (b : Bitmap) (idxs : list Z) (value : bool) : exec Bitmap :=
  match idxs with
  | [] => Ret b
  | bit :: idxs' =>
      '(_, b') ← (if value then set b bit else clear b bit);
      update_bits b' idxs' value
  end.

Definition update_range (b : Bitmap) (start len : Z) (value : bool) : exec (bool * Bitmap) :=
  if negb (valid_range b start len) then Ret (false, b)
  else b' ← update_bits b (zrange start (add64 start len)) value; Ret (true, b').

Definition set_range (b : Bitmap) (start len : Z) : exec (bool * Bitmap) :=
  update_range b start len true.

Definition clear_range (b : Bitmap) (start len : Z) : exec (bool * Bitmap) :=
  update_range b start len false.

(** The first index of [idxs] whose bit is [want], as the scanning loops compute it. *)
Fixpoint first_with (b : Bitmap) (idxs : list Z) (want : bool) : exec (option Z) :=
  match idxs with
  | [] => Ret None
  | bit :: idxs' =>
      t ← test b bit;
      if Bool.eqb t want then Ret (Some bit) else first_with b idxs' want
  end.

Definition test_all_set (b : Bitmap) (start len : Z) : exec bool :=
  if negb (valid_range b start len) then Ret false
  else r ← first_with b (zrange start (add64 start len)) false;
       Ret (match r with Some _ => false | None => true end).

Definition test_all_clear (b : Bitmap) (start len : Z) : exec bool :=
  if negb (valid_range b start len) then Ret false
  else r ← first_with b (zrange start (add64 start len)) true;
       Ret (match r with Some _ => false | None => true end).

Definition find_next_set (b : Bitmap) (from : Z) : exec (option Z) :=
  if nbits b <=? from then Ret None else first_with b (zrange from (nbits b)) true.

Definition find_next_zero (b : Bitmap) (from : Z) : exec (option Z) :=
  if nbits b <=? from then Ret None else first_with b (zrange from (nbits b)) false.

(** The loop of [find_contiguous_zeros_from], with its two mutable locals. *)
Fixpoint run_loop (b : Bitmap) (idxs : list Z) (len run run_start : Z) : exec (option Z) :=
  match idxs with
  | [] => Ret None
  | bit :: idxs' =>
      t ← test b bit;
      if negb t then
        let run_start := if run =? 0 then bit else run_start in
        let run := add64 run 1 in
        if run =? len then Ret (Some run_start)
        else run_loop b idxs' len run run_start
      else run_loop b idxs' len 0 run_start
  end.

Definition find_contiguous_zeros_from (b : Bitmap) (from len : Z) : exec (option Z) :=
  if (len =? 0) || (nbits b =? 0) || (nbits b <=? from) then Ret None
  else run_loop b (zrange from (nbits b)) len 0 from.

Definition find_contiguous_zeros (b : Bitmap) (len : Z) : exec (option Z) :=
  find_contiguous_zeros_from b 0 len.

(** ** The view of a bitmap and its invariant *)
Definition word_at (b : Bitmap) (k : Z) : Z := default 0 (bits b !! Z.to_nat k).

Definition bit_at (b : Bitmap) (i : Z) : bool :=
  Z.testbit (word_at b (i / word_bits)) (i mod word_bits).

Record wf (b : Bitmap) : Prop := {
  wf_nbits : 0 <= nbits b <= u64_size - word_bits;
  wf_len : Z.of_nat (length (bits b)) = (nbits b + 63) / word_bits;
  wf_words : Forall in_u64 (bits b);
  wf_tail : forall i, nbits b <= i -> bit_at b i = false
}.

Lemma word_at_in_u64 b k : Forall in_u64 (bits b) -> in_u64 (word_at b k).
Proof.
  intros Hw. unfold word_at. destruct (bits b !! Z.to_nat k) as [w|] eqn:E; simpl.
  - eapply Forall_lookup_1 in Hw; eauto.
  - unfold in_u64; lia.
Qed.

Lemma index_split i : 0 <= i ->
  0 <= i / word_bits /\ 0 <= i mod word_bits < 64 /\ i = 64 * (i / word_bits) + i mod word_bits.
Proof. intros. pose proof (Z.div_mod i 64). pose proof (Z.mod_pos_bound i 64).
  pose proof (Z.div_pos i 64). lia. Qed.

Lemma word_index_in_bounds b bit :
  wf b -> 0 <= bit < nbits b -> 0 <= bit / word_bits < Z.of_nat (length (bits b)).
Proof.
  intros Hwf Hb. rewrite (wf_len b Hwf). split; [apply Z.div_pos; lia|].
  apply Z.lt_le_trans with ((bit + 64) / 64).
  - replace (bit + 64) with (bit + 1 * 64) by lia. rewrite Z.div_add by lia. lia.
  - apply Z.div_le_mono; lia.
Qed.

Lemma vec_get_word b bit :
  wf b -> 0 <= bit < nbits b ->
  vec_get (bits b) (bit / word_bits) = Ret (word_at b (bit / word_bits)).
Proof.
  intros Hwf Hb. destruct (vec_get_in_bounds (bits b) (bit / word_bits)) as (x & Hx & ->).
  - now apply word_index_in_bounds.
  - unfold word_at. now rewrite Hx.
Qed.

Lemma land_pow2_eqb w k : 0 <= k -> negb (Z.land w (2 ^ k) =? 0) = Z.testbit w k.
Proof.
  intros Hk. destruct (Z.eqb_spec (Z.land w (2 ^ k)) 0) as [E|E]; simpl.
  - apply (f_equal (fun z => Z.testbit z k)) in E.
    rewrite Z.land_spec, Z.pow2_bits_true, Z.bits_0, andb_true_r in E by done. now rewrite E.
  - destruct (Z.testbit w k) eqn:T; [done|]. exfalso. apply E.
    apply Z.bits_inj'. intros n Hn. rewrite Z.land_spec, Z.bits_0, Z.pow2_bits_eqb by done.
    destruct (Z.eqb_spec k n); [subst; now rewrite T|apply andb_false_r].
Qed.

Lemma test_ret b bit : wf b -> 0 <= bit -> test b bit = Ret (bit_at b bit).
Proof.
  intros Hwf Hb. unfold test, word_mask. destruct (Z.leb_spec (nbits b) bit).
  - now rewrite (wf_tail b Hwf).
  - rewrite vec_get_word by (auto; lia). simpl.
    destruct (index_split bit Hb) as (_ & Hm & _).
    rewrite shl64_1 by lia. rewrite land_pow2_eqb by lia. done.
Qed.

(** Replacing the word of [bit] changes the view inside that word only. *)
Definition with_word (b : Bitmap) (k w : Z) : Bitmap :=
  mkBitmap (<[Z.to_nat k := w]> (bits b)) (nbits b).

Lemma word_at_with_word b k w j :
  0 <= k < Z.of_nat (length (bits b)) -> 0 <= j ->
  word_at (with_word b k w) j = if j =? k then w else word_at b j.
Proof.
  intros Hk Hj. unfold word_at, with_word; simpl. destruct (Z.eqb_spec j k).
  - subst. rewrite list_lookup_insert_eq; [done|lia].
  - rewrite list_lookup_insert_ne; [done|lia].
Qed.

Lemma bit_at_with_word b k w i :
  0 <= k < Z.of_nat (length (bits b)) -> 0 <= i ->
  bit_at (with_word b k w) i =
  if i / word_bits =? k then Z.testbit w (i mod word_bits) else bit_at b i.
Proof.
  intros Hk Hi. unfold bit_at. rewrite word_at_with_word by (auto; apply Z.div_pos; lia).
  now destruct (_ =? _).
Qed.

(** The shared argument of [set] and [clear]: the word of [bit] is replaced by one
    that differs from it at most at [bit], where it holds [v]. *)
Lemma with_word_update b bit w v :
  wf b -> 0 <= bit < nbits b -> in_u64 w ->
  (forall j, 0 <= j < 64 ->
     Z.testbit w j = if j =? bit mod word_bits then v
                     else Z.testbit (word_at b (bit / word_bits)) j) ->
  let b' := with_word b (bit / word_bits) w in
  wf b' /\ forall i, 0 <= i -> bit_at b' i = if i =? bit then v else bit_at b i.
Proof.
  intros Hwf Hb Hw Hbits b'.
  pose proof (word_index_in_bounds b bit Hwf Hb) as Hk.
  destruct (index_split bit) as (Hq & Hm & Hbe); [lia|].
  assert (Hview : forall i, 0 <= i -> bit_at b' i = if i =? bit then v else bit_at b i).
  { intros i Hi. unfold b'. rewrite bit_at_with_word by done.
    destruct (index_split i Hi) as (Hiq & Him & Hie).
    destruct (Z.eqb_spec (i / word_bits) (bit / word_bits)) as [E|E].
    - rewrite Hbits by lia. unfold bit_at. rewrite <- E.
      destruct (Z.eqb_spec (i mod word_bits) (bit mod word_bits)),
        (Z.eqb_spec i bit); try done; lia.
    - destruct (Z.eqb_spec i bit); [congruence|done]. }
  split; [|done]. destruct Hwf as [Hn Hlen Hws Htail]. split; simpl.
  - done.
  - now rewrite length_insert.
  - now apply Forall_insert.
  - intros i Hi. destruct (Z.lt_ge_cases i 0); [lia|]. rewrite Hview by lia.
    destruct (Z.eqb_spec i bit); [lia|]. now apply Htail.
Qed.

Lemma vec_set_word b bit w :
  wf b -> 0 <= bit < nbits b ->
  vec_set (bits b) (bit / word_bits) w = Ret (bits (with_word b (bit / word_bits) w)).
Proof. intros. rewrite vec_set_in_bounds; [done|]. now apply word_index_in_bounds. Qed.

(** What [set] and [clear] do to a well-formed bitmap. *)
Definition updates (b : Bitmap) (bit : Z) (v : bool) (b' : Bitmap) : Prop :=
  wf b' /\ nbits b' = nbits b /\
  forall i, 0 <= i -> bit_at b' i = if (i =? bit) && (bit <? nbits b) then v else bit_at b i.

Lemma set_updates b bit :
  wf b -> 0 <= bit ->
  exists b', set b bit = Ret (bit <? nbits b, b') /\ updates b bit true b'.
Proof.
  intros Hwf Hb. unfold set, word_mask, updates.
  destruct (Z.leb_spec (nbits b) bit), (Z.ltb_spec bit (nbits b)); try lia.
  { exists b. repeat split; try apply Hwf. intros i Hi. now rewrite andb_false_r. }
  rewrite vec_get_word by (auto; lia). mstep.
  rewrite vec_set_word by (auto; lia). mstep. eexists; split; [reflexivity|].
  destruct (index_split bit Hb) as (_ & Hm & _).
  destruct (with_word_update b bit (Z.lor (word_at b (bit / 64)) (shl64 1 (bit mod 64))) true)
    as [Hwf' Hv]; try done.
  - rewrite shl64_1 by lia. 
    apply in_u64_lor; [apply word_at_in_u64, (wf_words b Hwf)|auto with word].
  - intros j Hj. rewrite Z.lor_spec, shl64_1, Z.pow2_bits_eqb, (Z.eqb_sym (_ mod _)) by lia.
    destruct (j =? bit mod 64); [apply orb_true_r|apply orb_false_r].
  - split; [done|]. split; [done|]. intros i Hi. rewrite andb_true_r. now apply Hv.
Qed.

Lemma clear_updates b bit :
  wf b -> 0 <= bit ->
  exists b', clear b bit = Ret (bit <? nbits b, b') /\ updates b bit false b'.
Proof.
  intros Hwf Hb. unfold clear, word_mask, updates.
  destruct (Z.leb_spec (nbits b) bit), (Z.ltb_spec bit (nbits b)); try lia.
  { exists b. repeat split; try apply Hwf. intros i Hi. now rewrite andb_false_r. }
  rewrite vec_get_word by (auto; lia). mstep.
  rewrite vec_set_word by (auto; lia). mstep. eexists; split; [reflexivity|].
  destruct (index_split bit Hb) as (_ & Hm & _).
  destruct (with_word_update b bit
    (Z.land (word_at b (bit / 64)) (not64 (shl64 1 (bit mod 64)))) false) as [Hwf' Hv]; try done.
  - rewrite shl64_1 by lia. apply in_u64_land; [apply word_at_in_u64, (wf_words b Hwf)|].
    apply in_u64_not64, pow2_in_u64. lia.
  - intros j Hj. rewrite Z.land_spec, testbit_not64, shl64_1, Z.pow2_bits_eqb,
      (Z.eqb_sym (_ mod _)) by lia.
    destruct (j =? bit mod 64); [apply andb_false_r|apply andb_true_r].
  - split; [done|]. split; [done|]. intros i Hi. rewrite andb_true_r. now apply Hv.
Qed.

(** ** Scans

    [first_result b want lo hi r]: [r] is the least index of [lo..hi] whose bit is
    [want], and [None] when there is none. *)
Definition first_result (b : Bitmap) (want : bool) (lo hi : Z) (r : option Z) : Prop :=
  match r with
  | None => forall i, lo <= i < hi -> bit_at b i = negb want
  | Some i => lo <= i < hi /\ bit_at b i = want /\
              forall j, lo <= j < i -> bit_at b j = negb want
  end.

Lemma first_result_extend b want lo mid hi r :
  lo <= mid -> (forall i, lo <= i < mid -> i < hi -> bit_at b i = negb want) ->
  first_result b want mid hi r -> first_result b want lo hi r.
Proof.
  intros Hle Hlow. destruct r as [i|]; simpl.
  - intros (Hi & Hb & Hj). repeat split; auto; try lia. intros j Hj'.
    destruct (Z.lt_ge_cases j mid); [apply Hlow|apply Hj]; lia.
  - intros Hall i Hi. destruct (Z.lt_ge_cases i mid); [apply Hlow|apply Hall]; lia.
Qed.

Lemma first_result_unique b want lo hi r r' :
  first_result b want lo hi r -> first_result b want lo hi r' -> r = r'.
Proof.
  destruct r as [i|], r' as [j|]; simpl; try done.
  - intros (Hi & Hb & Hlow) (Hj & Hb' & Hlow').
    destruct (Ztrichotomy i j) as [H|[->|H]]; [|done|].
    + rewrite Hlow' in Hb by lia. destruct want; done.
    + rewrite Hlow in Hb' by lia. destruct want; done.
  - intros (Hi & Hb & _) Hall. rewrite Hall in Hb by lia. destruct want; done.
  - intros Hall (Hi & Hb & _). rewrite Hall in Hb by lia. destruct want; done.
Qed.

Lemma first_with_ret b want hi lo :
  wf b -> 0 <= lo ->
  exists r, first_with b (zrange lo hi) want = Ret r /\ first_result b want lo hi r.
Proof.
  intros Hwf. revert lo. refine (zrange_ind _ hi _ _).
  - intros lo Hle _. exists None. rewrite zrange_empty by lia. split; [done|]. simpl. lia.
  - intros lo Hlt IH Hlo. rewrite zrange_cons by lia. cbn [first_with].
    rewrite test_ret by (auto; lia). mstep.
    destruct (Bool.eqb (bit_at b lo) want) eqn:E.
    + apply Bool.eqb_prop in E. exists (Some lo). repeat split; auto; lia.
    + destruct IH as (r & -> & Hr); [lia|]. exists r. split; [done|].
      eapply first_result_extend; [| |exact Hr]; [lia|]. intros i Hi _.
      replace i with lo by lia. destruct (bit_at b lo), want; done.
Qed.

Lemma valid_range_iff b start len :
  wf b -> 0 <= start -> 0 <= len ->
  valid_range b start len = true <-> 0 < len /\ start + len <= nbits b.
Proof.
  intros [Hn _ _ _] Hs Hl. unfold valid_range, checked_add64.
  destruct (Z.eqb_spec len 0), (Z.leb_spec (nbits b) start); simpl; try (split; [done|lia]).
  destruct (Z.ltb_spec (start + len) u64_size); [rewrite Z.leb_le|]; lia.
Qed.

(** [set_range] and [clear_range] rewrite exactly the bits of the range. *)
Lemma update_bits_ret value hi lo b :
  wf b -> 0 <= lo -> hi <= nbits b ->
  exists b', update_bits b (zrange lo hi) value = Ret b' /\ wf b' /\ nbits b' = nbits b /\
  forall i, 0 <= i ->
    bit_at b' i = if (lo <=? i) && (i <? hi) then value else bit_at b i.
Proof.
  intros Hwf Hlo Hhi. revert lo b Hwf Hlo Hhi.
  refine (zrange_ind _ hi _ _).
  - intros lo Hle b Hwf Hlo Hhi. rewrite zrange_empty by lia. exists b.
    repeat split; try apply Hwf. intros i Hi. bsplit; done.
  - intros lo Hlt IH b Hwf Hlo Hhi. rewrite zrange_cons by lia. cbn [update_bits].
    assert (exists b1, (if value then set b lo else clear b lo) = Ret (lo <? nbits b, b1)
                       /\ updates b lo value b1) as (b1 & -> & Hwf1 & Hn1 & Hv1).
    { destruct value; [apply set_updates|apply clear_updates]; done. }
    mstep. destruct (IH b1) as (b' & -> & Hwf' & Hn' & Hv'); [done|lia..|].
    exists b'. split; [done|]. split; [done|]. split; [congruence|].
    intros i Hi. rewrite Hv', Hv1 by done. bsplit; try done.
Qed.

Lemma update_range_ret b start len value :
  wf b -> 0 <= start -> 0 <= len ->
  exists b', update_range b start len value = Ret (valid_range b start len, b') /\
  wf b' /\ nbits b' = nbits b /\
  forall i, 0 <= i -> bit_at b' i =
    if valid_range b start len && (start <=? i) && (i <? start + len) then value else bit_at b i.
Proof.
  intros Hwf Hs Hl. unfold update_range.
  destruct (valid_range b start len) eqn:Hv; cbn [negb].
  - apply valid_range_iff in Hv; try done. pose proof (wf_nbits b Hwf).
    rewrite add64_small by lia.
    destruct (update_bits_ret value (start + len) start b) as (b' & -> & H');
      [done|lia..|]. exists b'. split; [done|]. exact H'.
  - exists b. repeat split; apply Hwf.
Qed.

(** A window of [len] clear bits starting at [s], inside the bitmap. *)
Definition clear_window (b : Bitmap) (s len : Z) : Prop :=
  s + len <= nbits b /\ forall i, s <= i < s + len -> bit_at b i = false.

(** The loop of [find_contiguous_zeros_from]: [run] is the number of clear bits
    just before the next index, and no window of [len] bits has been passed. *)
Lemma run_loop_ret b from len lo run run_start :
  wf b -> 0 < len < u64_size -> 0 <= from <= lo -> lo <= nbits b ->
  0 <= run < len -> from <= lo - run ->
  (run <> 0 -> run_start = lo - run) ->
  (forall i, lo - run <= i < lo -> bit_at b i = false) ->
  (forall s, from <= s < lo - run -> exists i, s <= i < s + len /\ i < lo /\ bit_at b i = true) ->
  (run_loop b (zrange lo (nbits b)) len run run_start = Ret None /\
   forall s, from <= s -> ~ clear_window b s len)
  \/ exists s, run_loop b (zrange lo (nbits b)) len run run_start = Ret (Some s) /\
     from <= s /\ clear_window b s len /\ forall s', from <= s' < s -> ~ clear_window b s' len.
Proof.
  intros Hwf Hlen Hfrom. revert lo Hfrom run run_start.
  refine (zrange_ind _ (nbits b) _ _).
  - intros lo Hge Hfrom run rs Hle Hrun Hfr Hrs Hclr Hno. left.
    rewrite zrange_empty by lia. split; [done|]. intros s Hs [Hin Hw].
    destruct (Hno s) as (i & Hi & _ & Hb); [lia|]. rewrite Hw in Hb by lia. done.
  - intros lo Hlt IH Hfrom run rs Hle Hrun Hfr Hrs Hclr Hno.
    pose proof (wf_nbits b Hwf). rewrite zrange_cons by lia. cbn [run_loop].
    rewrite test_ret by (auto; lia). mstep. destruct (bit_at b lo) eqn:Hb; cbn [negb].
    + apply IH; try lia. intros s Hs.
      destruct (Z.lt_ge_cases s (lo - run)) as [Hs1|Hs1].
      * destruct (Hno s) as (i & Hi); [lia|]. exists i. split; [|split]; try apply Hi. lia.
      * exists lo. split; [lia|]. split; [lia|done].
    + rewrite add64_small by lia. destruct (Z.eqb_spec (run + 1) len) as [E|E].
      * right. exists (lo - run). split.
        { f_equal. f_equal. destruct (Z.eqb_spec run 0); lia. }
        split; [lia|]. split.
        { split; [lia|]. intros i Hi. destruct (Z.eq_dec i lo); [now subst|]. apply Hclr. lia. }
        intros s' Hs' [Hin Hw]. destruct (Hno s') as (i & Hi & _ & Hbi); [lia|].
        rewrite Hw in Hbi by lia. done.
      * apply IH; try lia.
        { intros _. destruct (Z.eqb_spec run 0); lia. }
        { intros i Hi. destruct (Z.eq_dec i lo); [now subst|]. apply Hclr. lia. }
        intros s Hs. destruct (Hno s) as (i & Hi); [lia|]. exists i.
        split; [|split]; try apply Hi. lia.
Qed.

(** ** Word scans agree with bit scans *)
Lemma pos_trailing_zeros_spec p :
  0 <= pos_trailing_zeros p /\ Z.testbit (Zpos p) (pos_trailing_zeros p) = true /\
  forall j, 0 <= j < pos_trailing_zeros p -> Z.testbit (Zpos p) j = false.
Proof.
  induction p as [p _|p (H0 & Ht & Hf)|]; simpl pos_trailing_zeros.
  - repeat split; [lia|lia].
  - rewrite Pos2Z.inj_xO. split; [lia|]. split.
    + rewrite Z.add_1_l, Z.double_bits_succ. done.
    + intros j Hj. destruct (Z.eq_dec j 0) as [->|]; [apply Z.testbit_even_0|].
      replace j with (Z.succ (Z.pred j)) by lia. rewrite Z.double_bits_succ. apply Hf. lia.
  - repeat split; [lia|lia].
Qed.

Lemma word_trailing_zeros_spec w :
  in_u64 w -> w <> 0 ->
  0 <= word_trailing_zeros w < 64 /\ Z.testbit w (word_trailing_zeros w) = true /\
  forall j, 0 <= j < word_trailing_zeros w -> Z.testbit w j = false.
Proof.
  intros Hw Hne. destruct w as [|p|p]; [done| |unfold in_u64 in Hw; lia].
  destruct (pos_trailing_zeros_spec p) as (H0 & Ht & Hf). repeat split; auto.
  destruct (Z.lt_ge_cases (pos_trailing_zeros p) 64); [done|].
  rewrite (in_u64_testbit (Zpos p)) in Ht; done.
Qed.

(** A view of words under which the bits equal to [want] are the set ones. *)
Definition view_ok (skip : Z) (view : Z -> Z) (want : bool) : Prop :=
  forall w, in_u64 w -> in_u64 (view w) /\ (view w = 0 -> w = skip) /\ view skip = 0 /\
  forall j, 0 <= j < 64 -> Z.testbit (view w) j = Bool.eqb (Z.testbit w j) want.

Lemma view_id_ok : view_ok 0 (fun w => w) true.
Proof. intros w Hw. repeat split; try done; try apply Hw. intros j _. now destruct Z.testbit. Qed.

Lemma view_not_ok : view_ok U64_MAX not64 false.
Proof.
  intros w Hw. split; [now apply in_u64_not64|]. split; [|split; [done|]].
  - intros E. apply (f_equal (fun z => Z.lxor z U64_MAX)) in E. unfold not64 in E.
    rewrite Z.lxor_assoc, Z.lxor_nilpotent, Z.lxor_0_r in E. done.
  - intros j Hj. rewrite testbit_not64 by done. now destruct Z.testbit.
Qed.

Lemma bit_at_in_word b k j : 0 <= k -> 0 <= j < 64 -> bit_at b (64 * k + j) = Z.testbit (word_at b k) j.
Proof.
  intros Hk Hj. unfold bit_at. replace (64 * k + j) with (j + k * 64) by lia.
  rewrite Z.div_add, Z.mod_add, Z.div_small, Z.mod_small by lia. done.
Qed.

Lemma word_at_middle b pre w ws :
  wf b -> bits b = pre ++ w :: ws ->
  word_at b (Z.of_nat (length pre)) = w /\ in_u64 w /\ 64 * Z.of_nat (length pre) < nbits b.
Proof.
  intros Hwf E. pose proof (wf_words b Hwf) as Hws. pose proof (wf_len b Hwf) as Hl.
  rewrite E in Hws, Hl. rewrite length_app in Hl. simpl in Hl.
  unfold word_at. rewrite E, Nat2Z.id, list_lookup_middle by done.
  split; [done|]. split; [decompose_Forall_hyps; done|].
  pose proof (Z.div_mod (nbits b + 63) 64). pose proof (Z.mod_pos_bound (nbits b + 63) 64). lia.
Qed.

(** The bits of the word [w] at index [k] below its [o]-th are not [want] when the
    view of [w] has no bit there. *)
Lemma word_view_low b k w skip view want o :
  view_ok skip view want -> in_u64 w -> word_at b k = w -> 0 <= k -> o <= 64 ->
  (forall j, 0 <= j < o -> Z.testbit (view w) j = false) ->
  forall i, 64 * k <= i < 64 * k + o -> bit_at b i = negb want.
Proof.
  intros Hview Hw Hwk Hk Ho Hlow i Hi.
  replace i with (64 * k + (i - 64 * k)) by lia.
  specialize (Hlow (i - 64 * k) ltac:(lia)).
  destruct (Hview w Hw) as (_ & _ & _ & Hbits). rewrite Hbits in Hlow by lia.
  rewrite bit_at_in_word, Hwk by lia. destruct (Z.testbit w _), want; done.
Qed.

Lemma scan_words_spec b skip view want ws pre :
  wf b -> view_ok skip view want -> bits b = pre ++ ws ->
  let k := Z.of_nat (length pre) in
  first_result b want (64 * k) (nbits b) (scan_words skip view (nbits b) ws k).
Proof.
  intros Hwf Hview. revert pre. induction ws as [|w ws IH]; intros pre E k.
  { intros i Hi. exfalso.
    pose proof (word_index_in_bounds b i Hwf ltac:(lia)) as Hb.
    rewrite E, length_app in Hb. simpl in Hb.
    pose proof (Z.div_mod i 64). pose proof (Z.mod_pos_bound i 64). lia. }
  destruct (word_at_middle b pre w ws Hwf E) as (Hwk & Hw & Hkn).
  fold k in Hwk, Hkn. pose proof (wf_nbits b Hwf) as Hn.
  specialize (IH (pre ++ [w])). rewrite <- app_assoc in IH. specialize (IH E).
  rewrite length_app in IH. cbn [length] in IH.
  replace (Z.of_nat (length pre + 1)) with (k + 1) in IH by lia.
  pose proof (word_view_low b k w skip view want) as Hlow.
  destruct (Hview w Hw) as (Hvw & Hz & Hskip & Hbits).
  cbn [scan_words]. destruct (Z.eqb_spec w skip) as [->|Hne].
  - eapply first_result_extend; [| |exact IH]; [lia|]. intros i Hi _.
    apply (Hlow 64); try done; [lia| |lia]. intros j _. now rewrite Hskip, Z.bits_0.
  - destruct (word_trailing_zeros_spec (view w) Hvw) as (Ho & Hot & Hof); [tauto|].
    set (o := word_trailing_zeros (view w)) in *.
    rewrite mul64_small, add64_small by lia. rewrite (Z.mul_comm k).
    destruct (Z.ltb_spec (64 * k + o) (nbits b)).
    + repeat split; try lia.
      * rewrite Hbits in Hot by lia. apply Bool.eqb_prop in Hot.
        rewrite bit_at_in_word, Hwk by lia. done.
      * apply (Hlow o); try done; lia.
    + eapply first_result_extend; [| |exact IH]; [lia|]. intros i Hi Hin.
      apply (Hlow o); try done; lia.
Qed.

Lemma scan_words_first_with b skip view want :
  wf b -> view_ok skip view want ->
  first_with b (zrange 0 (nbits b)) want = Ret (scan_words skip view (nbits b) (bits b) 0).
Proof.
  intros Hwf Hv. destruct (first_with_ret b want (nbits b) 0 Hwf) as (r & -> & Hr); [lia|].
  f_equal. eapply first_result_unique; [exact Hr|].
  exact (scan_words_spec b skip view want (bits b) [] Hwf Hv eq_refl).
Qed.

(** ** Population count *)
Lemma pos_count_ones_spec p n :
  Zpos p < 2 ^ Z.of_nat n -> pos_count_ones p = count_true (Z.testbit (Zpos p)) n.
Proof.
  revert n. induction p as [p IH|p IH|]; intros n Hn; destruct n as [|n]; try lia;
    cbn [pos_count_ones count_true].
  - assert (Zpos p < 2 ^ Z.of_nat n) as Hp by (rewrite Nat2Z.inj_succ, Z.pow_succ_r in Hn; lia).
    rewrite (IH n Hp). change (Z.b2z (Z.testbit (Z.pos p~1) 0)) with 1. f_equal.
    apply count_true_ext. intros i Hi. rewrite Z.add_1_r, (Pos2Z.inj_xI p).
    rewrite Z.testbit_odd_succ by lia. done.
  - assert (Zpos p < 2 ^ Z.of_nat n) as Hp by (rewrite Nat2Z.inj_succ, Z.pow_succ_r in Hn; lia).
    rewrite (IH n Hp). change (Z.b2z (Z.testbit (Z.pos p~0) 0)) with 0. rewrite Z.add_0_l.
    apply count_true_ext. intros i Hi. rewrite Z.add_1_r, (Pos2Z.inj_xO p).
    rewrite Z.testbit_even_succ by lia. done.
  - rewrite count_true_none; [done|]. intros i Hi. apply (Z.pow2_bits_false 0). lia.
Qed.

Lemma word_count_ones_spec w : in_u64 w -> word_count_ones w = count_true (Z.testbit w) 64.
Proof.
  intros Hw. destruct w as [|p|p]; [|now apply pos_count_ones_spec, Hw|unfold in_u64 in Hw; lia].
  rewrite count_true_none; [done|]. intros. apply Z.bits_0.
Qed.

Lemma count_ones_words b pre ws :
  wf b -> bits b = pre ++ ws ->
  foldr (fun w acc => word_count_ones w + acc) 0 ws =
  count_true (fun i => bit_at b (i + 64 * Z.of_nat (length pre))) (64 * length ws).
Proof.
  intros Hwf. revert pre. induction ws as [|w ws IH]; intros pre E; [done|]. cbn [foldr length].
  destruct (word_at_middle b pre w ws Hwf E) as (Hwk & Hw & _).
  replace (64 * S (length ws))%nat with (64 + 64 * length ws)%nat by lia.
  rewrite count_true_add, (IH (pre ++ [w])) by (now rewrite <- app_assoc).
  rewrite word_count_ones_spec by done. f_equal; apply count_true_ext; intros i Hi.
  - rewrite Z.add_comm, bit_at_in_word, Hwk by lia. done.
  - f_equal. rewrite length_app. simpl. lia.
Qed.

Lemma count_ones_count_true b :
  wf b -> count_ones b = count_true (bit_at b) (Z.to_nat (nbits b)).
Proof.
  intros Hwf. unfold count_ones. rewrite (count_ones_words b [] (bits b)) by done.
  pose proof (wf_nbits b Hwf). pose proof (wf_len b Hwf).
  pose proof (Z.div_mod (nbits b + 63) 64). pose proof (Z.mod_pos_bound (nbits b + 63) 64).
  replace (64 * length (bits b))%nat
    with (Z.to_nat (nbits b) + (64 * length (bits b) - Z.to_nat (nbits b)))%nat by lia.
  rewrite count_true_add. cbn [length].
  rewrite (count_true_none _ (64 * length (bits b) - Z.to_nat (nbits b))), Z.add_0_r.
  - apply count_true_ext. intros. f_equal. lia.
  - intros i Hi. apply (wf_tail b Hwf). lia.
Qed.

(** ** Whole-bitmap operations *)
Lemma bit_at_replicate n w k i :
  bit_at (mkBitmap (replicate n w) k) i = true -> Z.testbit w (i mod word_bits) = true.
Proof.
  unfold bit_at, word_at. simpl. destruct (replicate n w !! _) as [x|] eqn:E; simpl.
  - apply lookup_replicate in E as [-> _]. done.
  - now rewrite Z.bits_0.
Qed.

Lemma bit_at_zeros n k i : bit_at (mkBitmap (replicate n 0) k) i = false.
Proof.
  destruct (bit_at _ i) eqn:E; [|done]. apply bit_at_replicate in E. now rewrite Z.bits_0 in E.
Qed.

Lemma new_wf n : 0 <= n < u64_size - 64 -> wf (new n).
Proof.
  intros Hn. split; simpl.
  - lia.
  - rewrite length_replicate. destruct (Z.eqb_spec n 0) as [->|]; [done|].
    rewrite add64_small, sub64_small by lia.
    replace (n + 64 - 1) with (n + 63) by lia. pose proof (Z.div_pos (n + 63) 64). lia.
  - apply Forall_replicate. unfold in_u64; lia.
  - intros i _. apply bit_at_zeros.
Qed.

Lemma new_empty n i : bit_at (new n) i = false.
Proof. apply bit_at_zeros. Qed.

Lemma const_fmap_replicate {A B} (l : list A) (x : B) : (fun _ => x) <$> l = replicate (length l) x.
Proof. induction l as [|a l IH]; [done|]. rewrite fmap_cons. cbn. now f_equal. Qed.

(** New words of the same number and width keep the invariant when no bit is set
    past [nbits]. *)
Lemma wf_of_view b w :
  wf b -> length w = length (bits b) -> Forall in_u64 w ->
  (forall i, 0 <= i -> nbits b <= i -> bit_at (mkBitmap w (nbits b)) i = false) ->
  wf (mkBitmap w (nbits b)).
Proof.
  intros [Hn Hl Hw Ht] Hlw Hww Hv. split; simpl; try done.
  - now rewrite Hlw.
  - intros i Hi. apply Hv; lia.
Qed.

Lemma clear_all_wf b : wf b -> wf (clear_all b) /\ forall i, bit_at (clear_all b) i = false.
Proof.
  intros Hwf. unfold clear_all. rewrite const_fmap_replicate. split; [|intros; apply bit_at_zeros].
  apply wf_of_view; [done|apply length_replicate| |intros; apply bit_at_zeros].
  apply Forall_replicate. unfold in_u64; lia.
Qed.

Lemma bit_at_ones b i :
  0 <= i < 64 * Z.of_nat (length (bits b)) ->
  bit_at (mkBitmap (replicate (length (bits b)) U64_MAX) (nbits b)) i = true.
Proof.
  intros Hi. destruct (index_split i) as (Hq & Hm & He); [lia|].
  unfold bit_at, word_at. simpl. rewrite lookup_replicate_2 by lia. now apply testbit_U64_MAX.
Qed.

Lemma bit_at_ge b i : 0 <= i -> 64 * Z.of_nat (length (bits b)) <= i -> bit_at b i = false.
Proof.
  intros H0 Hi. destruct (index_split i) as (Hq & Hm & He); [lia|].
  unfold bit_at, word_at. rewrite lookup_ge_None_2 by lia. apply Z.bits_0.
Qed.

Lemma words_of_nbits b :
  wf b ->
  let L := Z.of_nat (length (bits b)) in
  let used := nbits b mod 64 in
  0 <= used < 64 /\ nbits b = 64 * (nbits b / 64) + used /\
  (used = 0 -> nbits b = 64 * L) /\ (used <> 0 -> nbits b / 64 = L - 1).
Proof.
  intros Hwf L used. pose proof (wf_len b Hwf). pose proof (wf_nbits b Hwf).
  pose proof (Z.div_mod (nbits b) 64). pose proof (Z.mod_pos_bound (nbits b) 64).
  pose proof (Z.div_mod (nbits b + 63) 64). pose proof (Z.mod_pos_bound (nbits b + 63) 64). lia.
Qed.

(** [mask_tail_bits] on a vector of full words leaves exactly the first [nbits] set. *)
Lemma mask_ones b :
  wf b ->
  let ones := mkBitmap (replicate (length (bits b)) U64_MAX) (nbits b) in
  exists w, mask_tail_bits ones = mkBitmap w (nbits b) /\ length w = length (bits b) /\
    Forall in_u64 w /\
    forall i, 0 <= i -> bit_at (mkBitmap w (nbits b)) i = (i <? nbits b).
Proof.
  intros Hwf ones. destruct (words_of_nbits b Hwf) as (Hu & Hdm & Hz & Hnz).
  set (L := Z.of_nat (length (bits b))) in *. set (used := nbits b mod 64) in *.
  assert (Hones : Forall in_u64 (bits ones)) by (apply Forall_replicate; unfold in_u64; lia).
  assert (Hlen : length (bits ones) = length (bits b)) by apply length_replicate.
  pose proof (wf_nbits b Hwf) as Hn. unfold mask_tail_bits. change (nbits ones) with (nbits b).
  assert (used = 0 -> exists w, ones = mkBitmap w (nbits b) /\ length w = length (bits b) /\
    Forall in_u64 w /\ forall i, 0 <= i -> bit_at (mkBitmap w (nbits b)) i = (i <? nbits b)) as Hfull.
  { intros E. exists (bits ones). repeat split; [done|done|]. intros i Hi. destruct (Z.ltb_spec i (nbits b)).
    - apply bit_at_ones. fold L. lia.
    - apply bit_at_ge; simpl; rewrite ?length_replicate; lia. }
  destruct (Z.eqb_spec (nbits b) 0) as [E|E]; [apply Hfull; unfold used; now rewrite E|].
  fold used. destruct (Z.eqb_spec used 0) as [Eu|Eu]; [now apply Hfull|].
  rewrite last_lookup, Hlen. simpl bits. rewrite lookup_replicate_2 by lia.
  rewrite shl64_1, sub64_small by (pose proof (pow2_in_u64 used); unfold in_u64 in *; lia).
  eexists. split; [reflexivity|]. split; [now rewrite length_insert, length_replicate|].
  rewrite Z.sub_1_r, <- Z.ones_equiv. split.
  { apply Forall_insert; [done|]. apply in_u64_land; [unfold in_u64; lia|].
    rewrite Z.ones_equiv. lia. }
  intros i Hi. replace (Nat.pred (length (bits b))) with (Z.to_nat (nbits b / 64)) by lia.
  change (mkBitmap (<[_ := ?w]> _) _) with (with_word ones (nbits b / 64) w).
  rewrite bit_at_with_word by (rewrite ?Hlen; lia). destruct (index_split i Hi) as (Hq & Hm & He).
  destruct (Z.eqb_spec (i / 64) (nbits b / 64)) as [Ei|Ei].
  - rewrite Z.land_spec, testbit_U64_MAX, Z.testbit_ones by lia. simpl. bsplit; try done.
  - destruct (Z.ltb_spec i (nbits b)); [apply bit_at_ones; fold L; lia|].
    apply bit_at_ge; rewrite ?Hlen; lia.
Qed.

Lemma set_all_wf b :
  wf b -> wf (set_all b) /\ forall i, 0 <= i -> bit_at (set_all b) i = (i <? nbits b).
Proof.
  intros Hwf. unfold set_all. rewrite const_fmap_replicate.
  destruct (mask_ones b Hwf) as (w & -> & Hlw & Hww & Hv). split; [|exact Hv].
  apply wf_of_view; auto. intros i H0 Hi. rewrite Hv by done. now apply Z.ltb_ge.
Qed.

(** ** Properties *)

(** On a well-formed bitmap [set] and [clear] never panic, report whether the
    index is below [nbits], keep the bitmap well-formed, and a later [test] sees the
    new value at that index and the old value everywhere else. *)
Theorem set_clear_then_test (b : Bitmap) (bit : Z) (v : bool) :
  wf b -> 0 <= bit ->
  exists b', (if v then set b bit else clear b bit) = Ret (bit <? nbits b, b') /\ wf b' /\
    forall i, 0 <= i ->
      test b' i = (if (i =? bit) && (bit <? nbits b) then Ret v else test b i).
Proof.
  intros Hwf Hb.
  assert (exists b', (if v then set b bit else clear b bit) = Ret (bit <? nbits b, b')
                     /\ updates b bit v b') as (b' & He & Hwf' & Hn & Hv)
    by (destruct v; [apply set_updates|apply clear_updates]; done).
  exists b'. split; [done|]. split; [done|]. intros i Hi.
  rewrite !test_ret, Hv by done. now destruct (_ && _).
Qed.

Lemma set_clear_then_test_witness :
  exists b', set (new 100) 70 = Ret (true, b') /\ wf b' /\
    forall i, 0 <= i ->
      test b' i = (if (i =? 70) && (70 <? nbits (new 100)) then Ret true else test (new 100) i).
Proof. apply (set_clear_then_test (new 100) 70 true); [apply new_wf; lia|lia]. Defined.

(** The word-wise scans are equivalent to the bit-wise ones: [find_first_zero]
    and [find_first_set], which skip whole words and use [trailing_zeros], return
    what [find_next_zero(0)] and [find_next_set(0)] find by testing every bit. *)
Theorem word_scan_equals_bit_scan (b : Bitmap) :
  wf b ->
  find_next_zero b 0 = Ret (find_first_zero b) /\ find_next_set b 0 = Ret (find_first_set b).
Proof.
  intros Hwf. unfold find_next_zero, find_next_set, find_first_zero, find_first_set.
  pose proof (scan_words_first_with b U64_MAX not64 false Hwf view_not_ok) as Hz.
  pose proof (scan_words_first_with b 0 (fun w => w) true Hwf view_id_ok) as Hs.
  rewrite Hz, Hs. destruct (Z.leb_spec (nbits b) 0); [|done].
  rewrite zrange_empty in Hz, Hs by done. injection Hz as <-. injection Hs as <-. done.
Qed.

Lemma word_scan_equals_bit_scan_witness :
  find_next_zero (set_all (new 130)) 0 = Ret (find_first_zero (set_all (new 130))) /\
  find_next_set (set_all (new 130)) 0 = Ret (find_first_set (set_all (new 130))).
Proof. apply (word_scan_equals_bit_scan (set_all (new 130))). apply set_all_wf, new_wf. lia. Defined.

(** [find_contiguous_zeros_from] returns the lowest start at or after [from] of a
    window of [len] clear bits, and [None] only when there is no such window. *)
Theorem find_contiguous_zeros_first_fit (b : Bitmap) (from len : Z) :
  wf b -> 0 <= from -> 0 < len < u64_size ->
  exists r, find_contiguous_zeros_from b from len = Ret r /\
  match r with
  | Some s => from <= s /\ clear_window b s len /\
              forall s', from <= s' < s -> ~ clear_window b s' len
  | None => forall s, from <= s -> ~ clear_window b s len
  end.
Proof.
  intros Hwf Hf Hlen. unfold find_contiguous_zeros_from.
  destruct (Z.eqb_spec len 0); [lia|]. destruct (Z.leb_spec (nbits b) from); simpl.
  { rewrite orb_true_r. exists None. split; [done|]. intros s Hs [Hin _]. lia. }
  destruct (Z.eqb_spec (nbits b) 0); [lia|]. simpl.
  destruct (run_loop_ret b from len from 0 from) as [[-> H']|(s & -> & H')]; try done; try lia.
  - exists None. done.
  - exists (Some s). done.
Qed.

Lemma find_contiguous_zeros_first_fit_witness :
  exists r, find_contiguous_zeros_from (new 100) 3 20 = Ret r /\
  match r with
  | Some s => 3 <= s /\ clear_window (new 100) s 20 /\
              forall s', 3 <= s' < s -> ~ clear_window (new 100) s' 20
  | None => forall s, 3 <= s -> ~ clear_window (new 100) s 20
  end.
Proof. apply (find_contiguous_zeros_first_fit (new 100) 3 20); [apply new_wf; lia|lia|lia]. Defined.

(** [count_ones], a sum of word population counts, is the number of indices below
    [nbits] whose bit is set, and [count_zeros] is the number of the others. *)
Theorem count_ones_counts_set_bits (b : Bitmap) :
  wf b ->
  count_ones b = Z.of_nat (length (filter (fun i => bit_at b i = true) (zrange 0 (nbits b)))) /\
  count_zeros b = nbits b - count_ones b /\ 0 <= count_ones b <= nbits b.
Proof.
  intros Hwf. pose proof (wf_nbits b Hwf). rewrite count_ones_count_true by done.
  pose proof (count_true_bounds (bit_at b) (Z.to_nat (nbits b))) as Hb. split; [|split].
  - unfold zrange. rewrite Z.sub_0_r. rewrite <- (Z2Nat.id (nbits b)) at 2 by lia.
    rewrite <- count_true_filter. apply count_true_ext. intros. f_equal. lia.
  - unfold count_zeros, saturating_sub64. rewrite count_ones_count_true by done. lia.
  - lia.
Qed.

Lemma count_ones_counts_set_bits_witness :
  count_ones (set_all (new 70)) =
    Z.of_nat (length (filter (fun i => bit_at (set_all (new 70)) i = true)
                             (zrange 0 (nbits (set_all (new 70)))))) /\
  count_zeros (set_all (new 70)) = nbits (set_all (new 70)) - count_ones (set_all (new 70)) /\
  0 <= count_ones (set_all (new 70)) <= nbits (set_all (new 70)).
Proof. apply (count_ones_counts_set_bits (set_all (new 70))). apply set_all_wf, new_wf. lia. Defined.
