(* ===== verification/IdAllocator.v ===== *)
(** * The id allocator of kernel/src/libs/id_allocator/mod.rs

    An allocator of the ids [base .. base + count) on top of [Bitmap].  Its abstract
    state is the set of allocated ids ([allocated_id]); each operation is shown to
    implement its effect on that set. *)

From S2P Require Import Prelude Bitmap.

Inductive IdAllocError :=
| InvalidRange | Exhausted | OutOfRange | AlreadyAllocated | NotAllocated.

#[export] Instance IdAllocError_eq_dec : EqDecision IdAllocError.
Proof. solve_decision. Defined.

Record IdAllocator := mkIdAllocator { base : Z; bitmap : Bitmap }.

Definition new (base count : Z) : Result IdAllocator IdAllocError :=
  if count =? 0 then Err InvalidRange
  else Ok (mkIdAllocator base (Bitmap.new count)).

Definition capacity (a : IdAllocator) : Z := nbits (bitmap a).
Definition allocated (a : IdAllocator) : Z := count_ones (bitmap a).
Definition available (a : IdAllocator) : Z := saturating_sub64 (capacity a) (allocated a).

Definition index_of (a : IdAllocator) (id : Z) : Result Z IdAllocError :=
  if id <? base a then Err OutOfRange
  else
    let index := sub64 id (base a) in
    if capacity a <=? index then Err OutOfRange else Ok index.

Definition alloc (a : IdAllocator) : exec (Result Z IdAllocError * IdAllocator) :=
  match find_first_zero (bitmap a) with
  | None => Ret (Err Exhausted, a)
  | Some index =>
      '(_, bm) ← Bitmap.set (bitmap a) index;
      Ret (Ok (add64 (base a) index), mkIdAllocator (base a) bm)
  end.

Definition alloc_specific (a : IdAllocator) (id : Z)
  : exec (Result unit IdAllocError * IdAllocator) :=
  match index_of a id with
  | Err e => Ret (Err e, a)
  | Ok index =>
      t ← Bitmap.test (bitmap a) index;
      if (t : bool) then Ret (Err AlreadyAllocated, a)
      else
        '(_, bm) ← Bitmap.set (bitmap a) index;
        Ret (Ok tt, mkIdAllocator (base a) bm)
  end.

Definition free (a : IdAllocator) (id : Z)
  : exec (Result unit IdAllocError * IdAllocator) :=
  match index_of a id with
  | Err e => Ret (Err e, a)
  | Ok index =>
      t ← Bitmap.test (bitmap a) index;
      if negb t then Ret (Err NotAllocated, a)
      else
        '(_, bm) ← Bitmap.clear (bitmap a) index;
        Ret (Ok tt, mkIdAllocator (base a) bm)
  end.

(** The search loop of [alloc_range]: the start of the first run of [count] clear
    bits, marked before returning. *)
Fixpoint alloc_range_loop (a : IdAllocator) (idxs : list Z) (count run start : Z)
  : exec (Result Z IdAllocError * IdAllocator) :=
  match idxs with
  | [] => Ret (Err Exhausted, a)
  | index :: idxs' =>
      t ← Bitmap.test (bitmap a) index;
      if negb t then
        let start := if run =? 0 then index else start in
        let run := add64 run 1 in
        if run =? count then
          bm ← update_bits (bitmap a) (zrange start (add64 start count)) true;
          Ret (Ok (add64 (base a) start), mkIdAllocator (base a) bm)
        else alloc_range_loop a idxs' count run start
      else alloc_range_loop a idxs' count 0 start
  end.

Definition alloc_range (a : IdAllocator) (count : Z)
  : exec (Result Z IdAllocError * IdAllocator) :=
  if (count =? 0) || (capacity a <? count) then Ret (Err InvalidRange, a)
  else alloc_range_loop a (zrange 0 (capacity a)) count 0 0.

Definition free_range (a : IdAllocator) (start_id count : Z)
  : exec (Result unit IdAllocError * IdAllocator) :=
  if count =? 0 then Ret (Err InvalidRange, a)
  else match index_of a start_id with
  | Err e => Ret (Err e, a)
  | Ok start =>
      match checked_add64 start count with
      | Some end_ =>
          if end_ <=? capacity a then
            r ← first_with (bitmap a) (zrange start end_) false;
            match r with
            | Some _ => Ret (Err NotAllocated, a)
            | None =>
                bm ← update_bits (bitmap a) (zrange start end_) false;
                Ret (Ok tt, mkIdAllocator (base a) bm)
            end
          else Ret (Err OutOfRange, a)
      | None => Ret (Err OutOfRange, a)
      end
  end.

Definition first_allocated (a : IdAllocator) : option Z :=
  match find_first_set (bitmap a) with
  | Some index => Some (add64 (base a) index)
  | None => None
  end.

Definition first_free (a : IdAllocator) : option Z :=
  match find_first_zero (bitmap a) with
  | Some index => Some (add64 (base a) index)
  | None => None
  end.

Definition is_allocated (a : IdAllocator) (id : Z) : exec bool :=
  match index_of a id with
  | Err _ => Ret false
  | Ok index => Bitmap.test (bitmap a) index
  end.

Definition clear (a : IdAllocator) : IdAllocator :=
  mkIdAllocator (base a) (clear_all (bitmap a)).

(** ** Abstract state: the set of allocated ids *)
Definition all_ids (a : IdAllocator) : gset Z :=
  list_to_set (zrange (base a) (base a + capacity a)).

Definition ids (a : IdAllocator) : gset Z :=
  filter (fun id => bit_at (bitmap a) (id - base a) = true) (all_ids a).

Record wf_ids (a : IdAllocator) : Prop := {
  wf_bitmap : wf (bitmap a);
  wf_base : 0 <= base a /\ base a + capacity a <= u64_size
}.

(** [a'] manages the same id range as [a] with the allocated set [s]. *)
Definition becomes (a a' : IdAllocator) (s : gset Z) : Prop :=
  wf_ids a' /\ base a' = base a /\ capacity a' = capacity a /\ ids a' = s.

Lemma elem_of_all_ids a id : id ∈ all_ids a <-> base a <= id < base a + capacity a.
Proof. unfold all_ids. rewrite elem_of_list_to_set, elem_of_zrange. done. Qed.

Lemma elem_of_ids a id :
  id ∈ ids a <-> base a <= id < base a + capacity a /\ bit_at (bitmap a) (id - base a) = true.
Proof. unfold ids. rewrite elem_of_filter, elem_of_all_ids. tauto. Qed.

Lemma capacity_bounds a : wf_ids a -> 0 <= capacity a < u64_size.
Proof. intros [Hwf _]. pose proof (wf_nbits _ Hwf). unfold capacity. lia. Qed.

Lemma becomes_self a : wf_ids a -> becomes a a (ids a).
Proof. intros. repeat split; try done; apply H. Qed.

Lemma index_of_spec a id :
  wf_ids a -> in_u64 id ->
  index_of a id = if decide (id ∈ all_ids a) then Ok (id - base a) else Err OutOfRange.
Proof.
  intros [Hwf [H0 H1]] Hid. unfold index_of, in_u64 in *.
  destruct (decide (id ∈ all_ids a)) as [Hin|Hin]; rewrite elem_of_all_ids in Hin.
  - destruct (Z.ltb_spec id (base a)); [lia|]. rewrite sub64_small by lia.
    destruct (Z.leb_spec (capacity a) (id - base a)); [lia|done].
  - destruct (Z.ltb_spec id (base a)); [done|]. rewrite sub64_small by lia.
    destruct (Z.leb_spec (capacity a) (id - base a)); [done|lia].
Qed.

(** Rewriting the bits of [lo .. hi) to [v] adds or removes those ids. *)
Lemma becomes_update a bm lo hi v :
  wf_ids a -> wf bm -> nbits bm = nbits (bitmap a) ->
  0 <= lo -> hi <= capacity a ->
  (forall i, 0 <= i -> bit_at bm i = if (lo <=? i) && (i <? hi) then v else bit_at (bitmap a) i) ->
  let range : gset Z := list_to_set (zrange (base a + lo) (base a + hi)) in
  becomes a (mkIdAllocator (base a) bm) (if v then range ∪ ids a else ids a ∖ range).
Proof.
  intros [Hwf [H0 H1]] Hbm Hn Hlo Hhi Hbits range. unfold capacity in *.
  split; [|split; [done|split; [unfold capacity; done|]]].
  - split; [done|]. unfold capacity; simpl. lia.
  - apply set_eq. intros id. rewrite elem_of_ids. unfold capacity; simpl. rewrite Hn.
    assert (Hr : id ∈ range <-> base a + lo <= id < base a + hi)
      by (unfold range; rewrite elem_of_list_to_set, elem_of_zrange; done).
    destruct (decide (base a <= id < base a + nbits (bitmap a))) as [Hid|Hid].
    + rewrite Hbits by lia.
      destruct v; rewrite ?elem_of_union, ?elem_of_difference, Hr, elem_of_ids; unfold capacity;
        bsplit; intuition (try done; try lia).
    + destruct v; rewrite ?elem_of_union, ?elem_of_difference, Hr, elem_of_ids; unfold capacity; lia.
Qed.

Lemma bit_of_free_id a id :
  wf_ids a -> id ∈ all_ids a ->
  Bitmap.test (bitmap a) (id - base a) = Ret (bool_decide (id ∈ ids a)).
Proof.
  intros Hwf Hin. pose proof (proj1 (elem_of_all_ids a id) Hin).
  rewrite test_ret by (try apply Hwf; lia). f_equal.
  destruct (bit_at (bitmap a) (id - base a)) eqn:E; symmetry.
  - apply bool_decide_eq_true_2, elem_of_ids. done.
  - apply bool_decide_eq_false_2. rewrite elem_of_ids. intros [_ Hb]. congruence.
Qed.

(** Setting or clearing one bit adds or removes one id. *)
Lemma update_one_id a id (v : bool) :
  wf_ids a -> id ∈ all_ids a ->
  exists bm, (if v then Bitmap.set (bitmap a) (id - base a)
              else Bitmap.clear (bitmap a) (id - base a)) = Ret (true, bm) /\
  becomes a (mkIdAllocator (base a) bm) (if v then {[id]} ∪ ids a else ids a ∖ {[id]}).
Proof.
  intros Hwf Hin. apply elem_of_all_ids in Hin. unfold capacity in Hin.
  assert (exists bm, (if v then Bitmap.set (bitmap a) (id - base a)
              else Bitmap.clear (bitmap a) (id - base a)) = Ret (id - base a <? nbits (bitmap a), bm)
              /\ updates (bitmap a) (id - base a) v bm) as (bm & He & Hwbm & Hn & Hv)
    by (destruct v; [apply set_updates|apply clear_updates]; try apply Hwf; lia).
  exists bm. split; [rewrite He; bsplit; done|].
  assert ({[id]} = list_to_set (zrange (base a + (id - base a)) (base a + (id - base a + 1)))
          :> gset Z) as Hs.
  { apply set_eq. intros x. rewrite elem_of_singleton, elem_of_list_to_set, elem_of_zrange. lia. }
  rewrite Hs. apply becomes_update; try done; try (unfold capacity; lia).
  intros i Hi. rewrite Hv by done. bsplit; done.
Qed.

(** The search loop is the bitmap's first-fit loop followed by the marking loop. *)
Lemma alloc_range_loop_run a idxs count run start :
  alloc_range_loop a idxs count run start =
  (r ← run_loop (bitmap a) idxs count run start;
   match r with
   | Some s =>
       bm ← update_bits (bitmap a) (zrange s (add64 s count)) true;
       Ret (Ok (add64 (base a) s), mkIdAllocator (base a) bm)
   | None => Ret (Err Exhausted, a)
   end).
Proof.
  revert run start. induction idxs as [|i idxs IH]; intros run start; [done|].
  cbn [alloc_range_loop run_loop]. destruct (Bitmap.test (bitmap a) i) as [t| |]; try done. mstep.
  destruct t; cbn [negb]; [apply IH|]. destruct (_ =? count); [done|]. apply IH.
Qed.

Definition id_range (lo n : Z) : gset Z := list_to_set (zrange lo (lo + n)).

Lemma elem_of_id_range lo n id : id ∈ id_range lo n <-> lo <= id < lo + n.
Proof. unfold id_range. rewrite elem_of_list_to_set, elem_of_zrange. done. Qed.

(** Windows of clear bits are ranges of free ids. *)
Lemma clear_window_ids a s count :
  wf_ids a -> 0 <= s ->
  clear_window (bitmap a) s count <->
  s + count <= capacity a /\ id_range (base a + s) count ## ids a.
Proof.
  intros Hwf Hs. unfold clear_window, capacity. split; intros [Hin Hw]; (split; [done|]).
  - intros id Hr. apply elem_of_id_range in Hr. rewrite elem_of_ids. intros [_ Hb].
    rewrite Hw in Hb by lia. done.
  - intros i Hi. destruct (bit_at (bitmap a) i) eqn:E; [|done]. exfalso.
    apply (Hw (base a + i)); [apply elem_of_id_range; lia|].
    apply elem_of_ids. unfold capacity. split; [lia|]. now replace (base a + i - base a) with i by lia.
Qed.

(** Marking or releasing a whole range of ids. *)
Lemma update_id_range a s count v :
  wf_ids a -> 0 <= s -> 0 <= count -> s + count <= capacity a ->
  exists bm, update_bits (bitmap a) (zrange s (s + count)) v = Ret bm /\
  becomes a (mkIdAllocator (base a) bm)
    (if v then id_range (base a + s) count ∪ ids a else ids a ∖ id_range (base a + s) count).
Proof.
  intros Hwf Hs Hc Hin. pose proof (wf_bitmap a Hwf) as Hwb.
  destruct (update_bits_ret v (s + count) s (bitmap a)) as (bm & He & Hwbm & Hn & Hbits);
    [done|done|done|].
  exists bm. split; [done|].
  pose proof (becomes_update a bm s (s + count) v Hwf Hwbm Hn Hs Hin Hbits) as Hbec.
  cbv zeta in Hbec. rewrite Z.add_assoc in Hbec. exact Hbec.
Qed.

Lemma free_range_ok a id count :
  wf_ids a -> 0 < count -> base a <= id -> id + count <= base a + capacity a ->
  id_range id count ⊆ ids a ->
  exists a', free_range a id count = Ret (Ok tt, a') /\ becomes a a' (ids a ∖ id_range id count).
Proof.
  intros Hwf Hc Hb Hin Hsub. pose proof (wf_base a Hwf). pose proof (capacity_bounds a Hwf). pose proof (wf_bitmap a Hwf) as Hwb.
  unfold free_range. destruct (Z.eqb_spec count 0); [lia|].
  rewrite index_of_spec by (try done; unfold in_u64; lia).
  rewrite decide_True by (apply elem_of_all_ids; lia). unfold checked_add64. destruct (Z.ltb_spec (id - base a + count) u64_size); [|lia].
  destruct (Z.leb_spec (id - base a + count) (capacity a)); [|lia].
  destruct (first_with_ret (bitmap a) false (id - base a + count) (id - base a))
    as (r & -> & Hr); [done|lia|]. mstep. destruct r as [i|]; simpl in Hr.
  { exfalso. destruct Hr as (Hi & Hbi & _).
    assert (base a + i ∈ ids a) as He by (apply Hsub, elem_of_id_range; lia).
    apply elem_of_ids in He as [_ He]. replace (base a + i - base a) with i in He by lia. congruence. }
  destruct (update_id_range a (id - base a) count false) as (bm & -> & Hbec); [done|lia..|].
  mstep. eexists. split; [done|]. now replace (base a + (id - base a)) with id in Hbec by lia.
Qed.

Lemma new_wf_ids b count :
  0 <= b -> 0 < count < u64_size - 64 -> b + count <= u64_size ->
  wf_ids (mkIdAllocator b (Bitmap.new count)) /\ ids (mkIdAllocator b (Bitmap.new count)) = ∅.
Proof.
  intros Hb Hc Hs. split.
  - split; [apply new_wf; lia|]. unfold capacity; simpl. lia.
  - apply set_eq. intros id. rewrite elem_of_ids. simpl. rewrite new_empty. set_solver.
Qed.

(** ** Properties *)

(** [alloc] refines "take the smallest free id": it never panics; it fails with
    [Exhausted] exactly when every id is allocated, changing nothing; otherwise it
    returns the least id of the range that was free and adds it to the allocated set. *)
Theorem alloc_takes_least_free_id (a : IdAllocator) :
  wf_ids a ->
  (alloc a = Ret (Err Exhausted, a) /\ ids a = all_ids a) \/
  exists id a', alloc a = Ret (Ok id, a') /\ id ∈ all_ids a ∖ ids a /\
    (forall id', id' ∈ all_ids a ∖ ids a -> id <= id') /\
    becomes a a' ({[id]} ∪ ids a).
Proof.
  intros Hwf. unfold alloc, find_first_zero.
  pose proof (scan_words_spec (bitmap a) U64_MAX not64 false (bits (bitmap a)) []
                (wf_bitmap a Hwf) view_not_ok eq_refl) as Hs.
  change (64 * Z.of_nat (length (@nil Z))) with 0 in Hs.
  change (Z.of_nat (length (@nil Z))) with 0 in Hs. cbv zeta in Hs.
  pose proof (wf_base a Hwf) as Hb. unfold capacity in Hb.
  destruct (scan_words _ _ _ _ _) as [i|]; simpl in Hs.
  - destruct Hs as (Hi & Hbit & Hlow). right. exists (base a + i).
    assert (base a + i ∈ all_ids a) as Hin by (apply elem_of_all_ids; unfold capacity; lia).
    destruct (update_one_id a (base a + i) true Hwf Hin) as (bm & He & Hbec).
    replace (base a + i - base a) with i in He by lia.
    exists (mkIdAllocator (base a) bm). rewrite He. mstep.
    rewrite add64_small by lia. split; [done|]. split; [|split; [|done]].
    + rewrite elem_of_difference, elem_of_ids. split; [done|]. intros [_ Hx].
      replace (base a + i - base a) with i in Hx by lia. congruence.
    + intros id'. rewrite elem_of_difference, elem_of_all_ids, elem_of_ids. intros [Hr Hn].
      destruct (Z.le_gt_cases (base a + i) id'); [done|]. exfalso. apply Hn.
      split; [done|]. apply Hlow. lia.
  - left. split; [done|]. apply set_eq. intros id. rewrite elem_of_ids, elem_of_all_ids.
    unfold capacity. split; [tauto|]. intros H. split; [done|]. apply Hs. lia.
Qed.

Lemma alloc_takes_least_free_id_witness :
  let a := mkIdAllocator 3 (Bitmap.new 8) in
  (alloc a = Ret (Err Exhausted, a) /\ ids a = all_ids a) \/
  exists id a', alloc a = Ret (Ok id, a') /\ id ∈ all_ids a ∖ ids a /\
    (forall id', id' ∈ all_ids a ∖ ids a -> id <= id') /\
    becomes a a' ({[id]} ∪ ids a).
Proof. apply (alloc_takes_least_free_id (mkIdAllocator 3 (Bitmap.new 8))). apply new_wf_ids; lia. Defined.

(** [alloc_specific] and [free] on every branch: an id outside the range gives
    [OutOfRange], an id already allocated (resp. not allocated) gives
    [AlreadyAllocated] (resp. [NotAllocated]), all leaving the allocator as it was;
    otherwise exactly that id is added (resp. removed). *)
Theorem alloc_specific_and_free_refine (a : IdAllocator) (id : Z) :
  wf_ids a -> in_u64 id ->
  (exists a', alloc_specific a id =
     Ret (if decide (id ∈ all_ids a)
          then if decide (id ∈ ids a) then Err AlreadyAllocated else Ok tt
          else Err OutOfRange, a') /\
     becomes a a' (if decide (id ∈ all_ids a) then {[id]} ∪ ids a else ids a)) /\
  (exists a', free a id =
     Ret (if decide (id ∈ all_ids a)
          then if decide (id ∈ ids a) then Ok tt else Err NotAllocated
          else Err OutOfRange, a') /\
     becomes a a' (ids a ∖ {[id]})).
Proof.
  intros Hwf Hid. unfold alloc_specific, free. rewrite index_of_spec by done.
  pose proof (becomes_self a Hwf) as Hself.
  destruct (decide (id ∈ all_ids a)) as [Hin|Hin].
  - rewrite bit_of_free_id by done. mstep.
    destruct (update_one_id a id true Hwf Hin) as (bm & He & Hbec).
    destruct (update_one_id a id false Hwf Hin) as (bm' & He' & Hbec').
    destruct (decide (id ∈ ids a)) as [Hal|Hal].
    + rewrite bool_decide_eq_true_2 by done. simpl negb. cbv iota. rewrite He'. mstep. split.
      * exists a. split; [done|]. replace ({[id]} ∪ ids a) with (ids a) by set_solver. done.
      * eexists. split; [done|]. done.
    + rewrite bool_decide_eq_false_2 by done. simpl negb. cbv iota. rewrite He. mstep. split.
      * eexists. split; [done|]. done.
      * exists a. split; [done|]. replace (ids a ∖ {[id]}) with (ids a) by set_solver. done.
  - assert (id ∉ ids a) by (rewrite elem_of_ids; rewrite elem_of_all_ids in Hin; tauto).
    split; exists a; (split; [done|]); [done|].
    replace (ids a ∖ {[id]}) with (ids a) by set_solver. done.
Qed.

Lemma alloc_specific_and_free_refine_witness :
  let a := mkIdAllocator 3 (Bitmap.new 8) in
  (exists a', alloc_specific a 5 =
     Ret (if decide (5 ∈ all_ids a)
          then if decide (5 ∈ ids a) then Err AlreadyAllocated else Ok tt
          else Err OutOfRange, a') /\
     becomes a a' (if decide (5 ∈ all_ids a) then {[5]} ∪ ids a else ids a)) /\
  (exists a', free a 5 =
     Ret (if decide (5 ∈ all_ids a)
          then if decide (5 ∈ ids a) then Ok tt else Err NotAllocated
          else Err OutOfRange, a') /\
     becomes a a' (ids a ∖ {[5]})).
Proof.
  apply (alloc_specific_and_free_refine (mkIdAllocator 3 (Bitmap.new 8)) 5);
    [apply new_wf_ids; lia|unfold in_u64; lia].
Defined.

(** [alloc_range] is first fit over the ids and [free_range] undoes it: when some
    range of [count] consecutive ids is free, [alloc_range] returns the lowest one
    and marks exactly its ids; otherwise it reports [Exhausted] and changes nothing;
    and releasing a range it returned gives back the allocated set it started from. *)
Theorem alloc_range_first_fit_roundtrip (a : IdAllocator) (count : Z) :
  wf_ids a -> 0 < count <= capacity a ->
  (alloc_range a count = Ret (Err Exhausted, a) /\
   forall s, base a <= s -> s + count <= base a + capacity a -> ~ id_range s count ## ids a) \/
  exists id a', alloc_range a count = Ret (Ok id, a') /\
    base a <= id /\ id + count <= base a + capacity a /\ id_range id count ## ids a /\
    (forall s, base a <= s < id -> ~ id_range s count ## ids a) /\
    becomes a a' (id_range id count ∪ ids a) /\
    exists a'', free_range a' id count = Ret (Ok tt, a'') /\ becomes a' a'' (ids a).
Proof.
  intros Hwf Hc. pose proof (wf_base a Hwf) as Hb. pose proof (capacity_bounds a Hwf).
  unfold alloc_range. destruct (Z.eqb_spec count 0); [lia|].
  destruct (Z.ltb_spec (capacity a) count); [lia|]. cbn [orb].
  rewrite alloc_range_loop_run. 
  change (zrange 0 (capacity a)) with (zrange 0 (nbits (bitmap a))).
  destruct (run_loop_ret (bitmap a) 0 count 0 0 0 (wf_bitmap a Hwf))
    as [[-> Hno]|(s & -> & Hs & Hw & Hlow)]; try lia; [unfold capacity in *; lia| |].
  - left. mstep. split; [done|]. intros s Hs Hin Hd. apply (Hno (s - base a)); [lia|].
    apply clear_window_ids; try done; [lia|]. split; [lia|].
    now replace (base a + (s - base a)) with s by lia.
  - right. apply (clear_window_ids a s count Hwf Hs) in Hw as [Hin Hd]. mstep.
    rewrite (add64_small s), (add64_small (base a)) by lia.
    destruct (update_id_range a s count true) as (bm & -> & Hbec); [done|lia..|]. mstep.
    exists (base a + s), (mkIdAllocator (base a) bm).
    split; [done|]. split; [lia|]. split; [lia|]. split; [done|]. split.
    { intros s' Hs' Hd'. apply (Hlow (s' - base a)); [lia|].
      apply clear_window_ids; try done; [lia|]. split; [lia|].
      now replace (base a + (s' - base a)) with s' by lia. }
    split; [done|]. destruct Hbec as (Hwf' & Hbase & Hcap & Hids).
    destruct (free_range_ok (mkIdAllocator (base a) bm) (base a + s) count)
      as (a'' & He & Hbec''); [done|lia|lia|lia|rewrite Hids; set_solver|].
    exists a''. split; [done|]. rewrite Hids in Hbec''.
    now replace ((id_range (base a + s) count ∪ ids a) ∖ id_range (base a + s) count)
      with (ids a) in Hbec'' by set_solver.
Qed.

Lemma alloc_range_first_fit_roundtrip_witness :
  let a := mkIdAllocator 3 (Bitmap.new 8) in
  (alloc_range a 4 = Ret (Err Exhausted, a) /\
   forall s, base a <= s -> s + 4 <= base a + capacity a -> ~ id_range s 4 ## ids a) \/
  exists id a', alloc_range a 4 = Ret (Ok id, a') /\
    base a <= id /\ id + 4 <= base a + capacity a /\ id_range id 4 ## ids a /\
    (forall s, base a <= s < id -> ~ id_range s 4 ## ids a) /\
    becomes a a' (id_range id 4 ∪ ids a) /\
    exists a'', free_range a' id 4 = Ret (Ok tt, a'') /\ becomes a' a'' (ids a).
Proof.
  apply (alloc_range_first_fit_roundtrip (mkIdAllocator 3 (Bitmap.new 8)) 4);
    [apply new_wf_ids; lia|unfold capacity; simpl; lia].
Defined.
