(* ===== verification/RingBuffer.v ===== *)
(** * The ring buffer of kernel/src/libs/ring_buffer/mod.rs

    A fixed vector of optional slots with a read index, a write index and a length.
    [repr r q] says that the buffer [r] holds the queue [q]; every operation is shown
    to refine the corresponding operation on lists, and a run of any sequence of
    operations produces the outputs of a bounded queue. *)

From S2P Require Import Prelude.

Inductive RingBufferError := CapacityZero | Full.

#[export] Instance RingBufferError_eq_dec : EqDecision RingBufferError.
Proof. solve_decision. Defined.

Record RingBuffer (T : Type) := mkRing {
  slots : list (option T);
  read_index : Z;
  write_index : Z;
  len : Z
}.
Arguments mkRing {T}.
Arguments slots {T}.
Arguments read_index {T}.
Arguments write_index {T}.
Arguments len {T}.

Section RingBuffer.
Context {T : Type}.
Implicit Types (r : RingBuffer T) (q : list T).

Definition with_capacity (capacity : Z) : Result (RingBuffer T) RingBufferError :=
  if capacity =? 0 then Err CapacityZero
  else Ok (mkRing (replicate (Z.to_nat capacity) None) 0 0 0).

Definition capacity r : Z := Z.of_nat (length (slots r)).
Definition is_empty r : bool := len r =? 0.
Definition is_full r : bool := len r =? capacity r.
Definition available_read r : Z := len r.
Definition available_write r : Z := saturating_sub64 (capacity r) (len r).
Definition is_half_full r : bool := capacity r <=? mul64 (len r) 2.

(** [a % b] panics when [b] is zero. *)
Definition rem (a b : Z) : exec Z := if b =? 0 then Panic else Ret (a mod b).

Definition push r (value : T) : exec (Result unit RingBufferError * RingBuffer T) :=
  if is_full r then Ret (Err Full, r)
  else
    s ← vec_set (slots r) (write_index r) (Some value);
    w ← rem (add64 (write_index r) 1) (capacity r);
    Ret (Ok tt, mkRing s (read_index r) w (add64 (len r) 1)).

Definition pop r : exec (option T * RingBuffer T) :=
  if is_empty r then Ret (None, r)
  else
    value ← vec_get (slots r) (read_index r);
    s ← vec_set (slots r) (read_index r) None;
    rd ← rem (add64 (read_index r) 1) (capacity r);
    Ret (value, mkRing s rd (write_index r) (sub64 (len r) 1)).

(** [while self.pop().is_some() {}] *)
Fixpoint pop_all (fuel : nat) r : exec (RingBuffer T) :=
  match fuel with
  | O => OutOfFuel
  | S fuel' =>
      '(v, r') ← pop r;
      match v with
      | Some _ => pop_all fuel' r'
      | None => Ret r'
      end
  end.

Definition clear r : exec (RingBuffer T) :=
  r' ← pop_all (S (Z.to_nat (len r))) r;
  Ret (mkRing (slots r') 0 0 (len r')).

Definition peek r : exec (option T) :=
  if is_empty r then Ret None else vec_get (slots r) (read_index r).

(** [peek_mut] followed by the caller's write [f] through the reference. *)
Definition peek_mut r (f : T -> T) : exec (RingBuffer T) :=
  if is_empty r then Ret r
  else
    v ← vec_get (slots r) (read_index r);
    s ← vec_set (slots r) (read_index r) (f <$> v);
    Ret (mkRing s (read_index r) (write_index r) (len r)).

Definition pop_back r : exec (option T * RingBuffer T) :=
  if is_empty r then Ret (None, r)
  else
    w ← rem (sub64 (add64 (write_index r) (capacity r)) 1) (capacity r);
    value ← vec_get (slots r) w;
    s ← vec_set (slots r) w None;
    Ret (value, mkRing s (read_index r) w (sub64 (len r) 1)).

Definition push_overwrite r (value : T) : exec (option T * RingBuffer T) :=
  if is_full r then
    '(dropped, r1) ← pop r;
    '(_, r2) ← push r1 value;
    Ret (dropped, r2)
  else
    '(_, r1) ← push r value;
    Ret (None, r1).

(** The sub-slice [&s[a..b]] panics unless [a <= b <= s.len()]. *)
Definition sub_slice {A} (s : list A) (a b : Z) : exec (list A) :=
  if decide (0 <= a <= b /\ b <= Z.of_nat (length s))
  then Ret (take (Z.to_nat (b - a)) (drop (Z.to_nat a) s)) else Panic.

Definition as_slices r : exec (list (option T) * list (option T)) :=
  let cap := capacity r in
  if len r =? 0 then Ret ([], [])
  else
    let first_len := Z.min (len r) (sub64 cap (read_index r)) in
    let second_len := sub64 (len r) first_len in
    first ← sub_slice (slots r) (read_index r) (add64 (read_index r) first_len);
    second ← (if second_len =? 0 then Ret [] else sub_slice (slots r) 0 second_len);
    Ret (first, second).

Fixpoint write_slice r (source : list T) (written : Z) : exec (Z * RingBuffer T) :=
  match source with
  | [] => Ret (written, r)
  | item :: source' =>
      '(res, r') ← push r item;
      match res with
      | Err _ => Ret (written, r')
      | Ok _ => write_slice r' source' (written + 1)
      end
  end.

(** [output] is overwritten from its first element on. *)
Fixpoint read_slice r (output : list T) (read : Z) : exec (Z * list T * RingBuffer T) :=
  match output with
  | [] => Ret (read, [], r)
  | slot :: output' =>
      '(v, r') ← pop r;
      match v with
      | None => Ret (read, slot :: output', r')
      | Some value =>
          '(n, out, r'') ← read_slice r' output' (read + 1);
          Ret (n, value :: out, r'')
      end
  end.

(** ** Representation *)
Definition slot_at r (j : Z) : option (option T) := slots r !! Z.to_nat j.

(** The slot of the [i]-th element of the queue. *)
Definition pos r (i : Z) : Z := (read_index r + i) mod capacity r.

Record repr r q : Prop := {
  repr_cap : 0 < capacity r < 9223372036854775808;
  repr_len : len r = Z.of_nat (length q) /\ len r <= capacity r;
  repr_read : 0 <= read_index r < capacity r;
  repr_write : write_index r = pos r (len r);
  repr_slot : forall i, 0 <= i < capacity r -> slot_at r (pos r i) = Some (q !! Z.to_nat i)
}.

Lemma pos_range r i : 0 < capacity r -> 0 <= pos r i < capacity r.
Proof. intros. apply Z.mod_pos_bound. lia. Qed.

Lemma pos_split r i :
  0 <= read_index r < capacity r -> 0 <= i <= capacity r ->
  pos r i = if read_index r + i <? capacity r then read_index r + i
            else read_index r + i - capacity r.
Proof.
  intros Hr Hi. unfold pos. bsplit; [apply Z.mod_small; lia|].
  destruct (Z.eq_dec (read_index r + i) (2 * capacity r)); [lia|].
  symmetry. apply Z.mod_unique_pos with 1; lia.
Qed.

Lemma pos_inj r i j :
  0 <= read_index r < capacity r -> 0 <= i < capacity r -> 0 <= j < capacity r ->
  pos r i = pos r j -> i = j.
Proof. intros Hr Hi Hj. rewrite !pos_split by lia. bsplit. Qed.

Lemma slot_at_ret r j x : 0 <= j -> slot_at r j = Some x -> vec_get (slots r) j = Ret x.
Proof. intros. now apply vec_get_Some. Qed.

Lemma rem_ret a b : b <> 0 -> rem a b = Ret (a mod b).
Proof. intros. unfold rem. destruct (Z.eqb_spec b 0); done. Qed.

Lemma is_empty_spec r q : repr r q -> is_empty r = bool_decide (q = []).
Proof.
  intros [_ [Hl _] _ _ _]. unfold is_empty. destruct q; simpl in Hl.
  - rewrite bool_decide_eq_true_2 by done. apply Z.eqb_eq. lia.
  - rewrite bool_decide_eq_false_2 by done. apply Z.eqb_neq. lia.
Qed.

Lemma repr_full r q : repr r q -> is_full r = true <-> Z.of_nat (length q) = capacity r.
Proof. intros [_ [Hl _] _ _ _]. unfold is_full. rewrite Z.eqb_eq. lia. Qed.

Lemma push_full r q v : repr r q -> is_full r = true -> push r v = Ret (Err Full, r).
Proof. intros _ Hf. unfold push. now rewrite Hf. Qed.

(** A buffer of the same capacity represents [q'] when its indices and slots do. *)
Lemma repr_update r s' rd' w' l' q' :
  0 < capacity r < 9223372036854775808 -> length s' = length (slots r) ->
  0 <= rd' < capacity r -> l' = Z.of_nat (length q') -> l' <= capacity r ->
  w' = (rd' + l') mod capacity r ->
  (forall i, 0 <= i < capacity r ->
     s' !! Z.to_nat ((rd' + i) mod capacity r) = Some (q' !! Z.to_nat i)) ->
  repr (mkRing s' rd' w' l') q' /\ capacity (mkRing s' rd' w' l') = capacity r.
Proof.
  intros Hc Hs Hrd Hl Hle Hw Hslot.
  assert (capacity (mkRing s' rd' w' l') = capacity r) as Hc' by (unfold capacity; simpl; now rewrite Hs).
  split; [|done]. split; unfold slot_at, pos; rewrite ?Hc'; cbn; auto.
Qed.

Lemma push_ok r q v :
  repr r q -> is_full r = false ->
  exists r', push r v = Ret (Ok tt, r') /\ repr r' (q ++ [v]) /\ capacity r' = capacity r.
Proof.
  intros [Hcap [Hl Hle] Hrd Hw Hslot] Hf. unfold push. rewrite Hf.
  unfold is_full in Hf. apply Z.eqb_neq in Hf.
  pose proof (pos_range r (len r) ltac:(lia)) as Hpw. rewrite Hw.
  rewrite vec_set_in_bounds by (unfold capacity in *; lia). mstep.
  rewrite rem_ret by lia. mstep. wsimpl. eexists. split; [done|].
  apply repr_update; rewrite ?length_insert, ?length_app; simpl; try done; try lia.
  - unfold pos. rewrite Z.add_mod_idemp_l by lia. f_equal. lia.
  - intros i Hi. fold (pos r i). pose proof (pos_range r i ltac:(lia)) as Hpi.
    destruct (Z.eq_dec i (len r)) as [->|Hne].
    + rewrite list_lookup_insert_eq by (unfold capacity in *; lia).
      rewrite Hl, Nat2Z.id. now rewrite list_lookup_middle.
    + rewrite list_lookup_insert_ne by (intros E; apply Hne, (pos_inj r); lia).
      specialize (Hslot i Hi). unfold slot_at in Hslot. rewrite Hslot. f_equal.
      destruct (Z.lt_ge_cases i (len r)); [symmetry; apply lookup_app_l; lia|].
      rewrite !lookup_ge_None_2; rewrite ?length_app; simpl; try done; lia.
Qed.

Lemma pop_empty r : repr r [] -> pop r = Ret (None, r).
Proof. intros Hr. unfold pop. now rewrite (is_empty_spec r []). Qed.

Lemma pop_ok r x q :
  repr r (x :: q) ->
  exists r', pop r = Ret (Some x, r') /\ repr r' q /\ capacity r' = capacity r.
Proof.
  intros Hr. unfold pop. rewrite (is_empty_spec r (x :: q)), bool_decide_eq_false_2 by done.
  destruct Hr as [Hcap [Hl Hle] Hrd Hw Hslot]. simpl in Hl.
  assert (pos r 0 = read_index r) as H0 by (rewrite pos_split by lia; bsplit; lia).
  pose proof (Hslot 0 ltac:(lia)) as Hx. rewrite H0 in Hx.
  rewrite (slot_at_ret r (read_index r) (Some x)) by (done || lia). mstep.
  rewrite vec_set_in_bounds by (unfold capacity in *; lia). mstep.
  rewrite rem_ret by lia. mstep. wsimpl. eexists. split; [done|].
  apply repr_update; rewrite ?length_insert; simpl; try done; try lia.
  - apply Z.mod_pos_bound. lia.
  - rewrite Hw. unfold pos. rewrite Z.add_mod_idemp_l by lia. f_equal. lia.
  - intros i Hi. rewrite Z.add_mod_idemp_l by lia.
    destruct (Z.eq_dec i (capacity r - 1)) as [->|Hne].
    + replace ((_ + 1 + _) mod _) with (read_index r)
        by (apply Z.mod_unique_pos with 1; lia).
      rewrite list_lookup_insert_eq by (unfold capacity in *; lia).
      rewrite lookup_ge_None_2 by lia. done.
    + replace ((_ + 1 + _) mod _) with (pos r (i + 1)) by (unfold pos; f_equal; lia).
      rewrite list_lookup_insert_ne.
      * specialize (Hslot (i + 1) ltac:(lia)). unfold slot_at in Hslot. rewrite Hslot.
        replace (Z.to_nat (i + 1)) with (S (Z.to_nat i)) by lia. done.
      * pose proof (pos_range r (i + 1) ltac:(lia)). intros E.
        assert (i + 1 = 0); [|lia]. apply (pos_inj r); lia.
Qed.

Lemma pop_back_ok r q x :
  repr r (q ++ [x]) ->
  exists r', pop_back r = Ret (Some x, r') /\ repr r' q /\ capacity r' = capacity r.
Proof.
  intros Hr. unfold pop_back. rewrite (is_empty_spec r (q ++ [x])), bool_decide_eq_false_2
    by (done || now destruct q).
  destruct Hr as [Hcap [Hl Hle] Hrd Hw Hslot]. rewrite length_app in Hl. simpl in Hl.
  pose proof (pos_range r (len r) ltac:(lia)) as Hpw. rewrite rem_ret by lia. mstep.
  assert ((sub64 (add64 (write_index r) (capacity r)) 1) mod capacity r = pos r (len r - 1)) as ->.
  { wsimpl. rewrite Hw. rewrite (pos_split r (len r)), (pos_split r (len r - 1)) by lia.
    bsplit; symmetry; first [apply Z.mod_unique_pos with 1; lia | apply Z.mod_unique_pos with 0; lia]. }
  pose proof (pos_range r (len r - 1) ltac:(lia)) as Hpl.
  pose proof (Hslot (len r - 1) ltac:(lia)) as Hx.
  replace (Z.to_nat (len r - 1)) with (length q) in Hx by lia.
  rewrite list_lookup_middle in Hx by done.
  rewrite (slot_at_ret r (pos r (len r - 1)) (Some x)) by (done || lia). mstep.
  rewrite vec_set_in_bounds by (unfold capacity in *; lia). mstep. wsimpl.
  eexists. split; [done|].
  apply repr_update; rewrite ?length_insert; simpl; try done; try lia.
  intros i Hi. fold (pos r i). pose proof (pos_range r i ltac:(lia)) as Hpi.
  destruct (Z.eq_dec i (len r - 1)) as [->|Hne].
  - rewrite list_lookup_insert_eq by (unfold capacity in *; lia). rewrite lookup_ge_None_2 by lia. done.
  - rewrite list_lookup_insert_ne by (intros E; apply Hne, (pos_inj r); lia).
    specialize (Hslot i Hi). unfold slot_at in Hslot. rewrite Hslot. f_equal.
    destruct (Z.lt_ge_cases i (len r - 1)); [apply lookup_app_l; lia|].
    rewrite !lookup_ge_None_2; rewrite ?length_app; simpl; try done; lia.
Qed.

Lemma pop_back_empty r : repr r [] -> pop_back r = Ret (None, r).
Proof. intros Hr. unfold pop_back. now rewrite (is_empty_spec r []). Qed.

Lemma peek_ok r q : repr r q -> peek r = Ret (head q).
Proof.
  intros Hr. unfold peek. rewrite (is_empty_spec r q Hr). destruct q as [|x q]; [done|].
  rewrite bool_decide_eq_false_2 by done. destruct Hr as [Hcap [Hl Hle] Hrd Hw Hslot].
  assert (pos r 0 = read_index r) as H0 by (rewrite pos_split by lia; bsplit; lia).
  pose proof (Hslot 0 ltac:(lia)) as Hx. rewrite H0 in Hx.
  now apply slot_at_ret; [lia|].
Qed.

Lemma pop_all_ok fuel r q :
  repr r q -> (length q < fuel)%nat ->
  exists r', pop_all fuel r = Ret r' /\ repr r' [] /\ capacity r' = capacity r.
Proof.
  revert r q. induction fuel as [|fuel IH]; intros r q Hr Hf; [lia|]. cbn [pop_all].
  destruct q as [|x q].
  - rewrite pop_empty by done. mstep. eauto.
  - destruct (pop_ok r x q Hr) as (r1 & -> & Hr1 & Hc1). mstep.
    destruct (IH r1 q Hr1) as (r' & -> & Hr' & Hc'); [simpl in Hf; lia|].
    exists r'. split; [done|]. split; [done|congruence].
Qed.

Lemma clear_ok r q :
  repr r q -> exists r', clear r = Ret r' /\ repr r' [] /\ capacity r' = capacity r /\
                         read_index r' = 0 /\ write_index r' = 0.
Proof.
  intros Hr. unfold clear. pose proof (repr_len r q Hr).
  destruct (pop_all_ok (S (Z.to_nat (len r))) r q Hr) as (r1 & -> & Hr1 & Hc1); [lia|]. mstep.
  eexists. split; [done|]. destruct Hr1 as [Hcap [Hl Hle] Hrd Hw Hslot].
  destruct (repr_update r1 (slots r1) 0 0 (len r1) []) as [Hr2 Hc2]; try done; try lia.
  - rewrite Hl. simpl. symmetry. apply Z.mod_0_l. lia.
  - intros i Hi. rewrite Z.add_0_l, Z.mod_small by lia.
    specialize (Hslot ((i - read_index r1) mod capacity r1) 
      (Z.mod_pos_bound (i - read_index r1) (capacity r1) ltac:(lia))).
    unfold slot_at, pos in Hslot. rewrite Z.add_mod_idemp_r in Hslot by lia.
    replace (read_index r1 + (i - read_index r1)) with i in Hslot by lia.
    rewrite Z.mod_small in Hslot by lia. now rewrite Hslot.
Qed.

Lemma push_overwrite_ok r q v :
  repr r q ->
  exists r', push_overwrite r v =
    Ret (if is_full r then head q else None, r') /\
    repr r' ((if is_full r then tail q else q) ++ [v]) /\ capacity r' = capacity r.
Proof.
  intros Hr. unfold push_overwrite. destruct (is_full r) eqn:Hf.
  - pose proof (proj1 (repr_full r q Hr) Hf) as Hlen. pose proof (repr_cap r q Hr).
    destruct q as [|x q]; [simpl in Hlen; lia|].
    destruct (pop_ok r x q Hr) as (r1 & -> & Hr1 & Hc1). mstep.
    destruct (push_ok r1 q v Hr1) as (r2 & -> & Hr2 & Hc2).
    { destruct (is_full r1) eqn:E; [|done]. apply (repr_full r1 q Hr1) in E. simpl in Hlen. lia. }
    mstep. exists r2. simpl. split; [done|]. split; [done|congruence].
  - destruct (push_ok r q v Hr Hf) as (r1 & -> & Hr1 & Hc1). mstep. eauto.
Qed.

(** ** Slices *)
Lemma write_slice_ok source r q n :
  repr r q ->
  let k := Nat.min (length source) (Z.to_nat (capacity r) - length q) in
  exists r', write_slice r source n = Ret (n + Z.of_nat k, r') /\
    repr r' (q ++ take k source) /\ capacity r' = capacity r.
Proof.
  revert r q n. induction source as [|x source IH]; intros r q n Hr k.
  - exists r. simpl. rewrite Z.add_0_r, app_nil_r. done.
  - cbn [write_slice]. pose proof (repr_len r q Hr) as [Hl Hle]. destruct (is_full r) eqn:Hf.
    + rewrite (push_full r q) by done. mstep. apply (repr_full r q Hr) in Hf.
      assert (k = 0%nat) as -> by (unfold k; lia). exists r.
      simpl. rewrite Z.add_0_r, app_nil_r. done.
    + destruct (push_ok r q x Hr Hf) as (r1 & -> & Hr1 & Hc1). mstep.
      assert (Z.of_nat (length q) <> capacity r) by (rewrite <- (repr_full r q Hr); congruence).
      destruct (IH r1 (q ++ [x]) (n + 1) Hr1) as (r' & -> & Hr' & Hc').
      rewrite length_app, Hc1 in *. cbn [length] in *.
      assert (k = S (Nat.min (length source) (Z.to_nat (capacity r) - (length q + 1)))) as -> by (unfold k; lia).
      exists r'. split; [do 2 f_equal; lia|]. split; [|congruence].
      rewrite <- app_assoc in Hr'. exact Hr'.
Qed.

Lemma read_slice_ok output r q n :
  repr r q ->
  let k := Nat.min (length output) (length q) in
  exists r', read_slice r output n = Ret (n + Z.of_nat k, take k q ++ drop k output, r') /\
    repr r' (drop k q) /\ capacity r' = capacity r.
Proof.
  revert r q n. induction output as [|o output IH]; intros r q n Hr k.
  - exists r. simpl. rewrite Z.add_0_r, drop_0. done.
  - cbn [read_slice]. destruct q as [|x q].
    + rewrite pop_empty by done. mstep. exists r. simpl. rewrite Z.add_0_r. done.
    + destruct (pop_ok r x q Hr) as (r1 & -> & Hr1 & Hc1). mstep.
      destruct (IH r1 q (n + 1) Hr1) as (r' & -> & Hr' & Hc'). mstep.
      exists r'. split; [|split; [exact Hr'|congruence]]. unfold k. cbn [length Nat.min take drop app].
      do 3 f_equal. lia.
Qed.

(** A window of slots that does not wrap holds the matching window of the queue. *)
Lemma slots_window r q i n :
  repr r q -> 0 <= i -> 0 <= n -> i + n <= len r ->
  (read_index r + i + n <= capacity r \/ capacity r <= read_index r + i) ->
  take (Z.to_nat n) (drop (Z.to_nat (pos r i)) (slots r)) =
  Some <$> take (Z.to_nat n) (drop (Z.to_nat i) q).
Proof.
  intros [Hcap [Hl Hle] Hrd Hw Hslot] Hi Hn Hin Hnw. apply list_eq. intros j.
  rewrite list_lookup_fmap. destruct (decide (j < Z.to_nat n)%nat) as [Hj|Hj].
  - rewrite !lookup_take_lt, !lookup_drop by done.
    specialize (Hslot (i + Z.of_nat j) ltac:(lia)). unfold slot_at in Hslot.
    assert (pos r (i + Z.of_nat j) = pos r i + Z.of_nat j) as E
      by (rewrite !pos_split by lia; bsplit).
    rewrite E in Hslot. pose proof (pos_range r i ltac:(lia)).
    replace (Z.to_nat (pos r i + Z.of_nat j)) with (Z.to_nat (pos r i) + j)%nat in Hslot by lia.
    replace (Z.to_nat (i + Z.of_nat j)) with (Z.to_nat i + j)%nat in Hslot by lia.
    rewrite Hslot. destruct (lookup_lt_is_Some_2 q (Z.to_nat i + j)) as [x ->]; [lia|]. done.
  - rewrite !lookup_take_ge by lia. done.
Qed.

Lemma sub_slice_ret {A} (s : list A) a b :
  0 <= a <= b -> b <= Z.of_nat (length s) ->
  sub_slice s a b = Ret (take (Z.to_nat (b - a)) (drop (Z.to_nat a) s)).
Proof. intros. unfold sub_slice. now rewrite decide_True. Qed.

Lemma as_slices_ok r q :
  repr r q -> exists a b, as_slices r = Ret (a, b) /\ a ++ b = Some <$> q.
Proof.
  intros Hr. pose proof Hr as [Hcap [Hl Hle] Hrd Hw Hslot]. unfold as_slices.
  destruct (Z.eqb_spec (len r) 0) as [E|E].
  { exists [], []. destruct q; [done|simpl in Hl; lia]. }
  assert (pos r 0 = read_index r) as H0 by (rewrite pos_split by lia; bsplit; lia).
  cbv zeta. wsimpl. remember (Z.min (len r) (capacity r - read_index r)) as n eqn:Hn.
  rewrite (sub_slice_ret _ (read_index r)) by (unfold capacity in *; lia). mstep.
  replace (read_index r + n - read_index r) with n by lia.
  pose proof (slots_window r q 0 n Hr ltac:(lia) ltac:(lia) ltac:(lia) ltac:(lia)) as Hf.
  rewrite H0, drop_0 in Hf. rewrite Hf.
  destruct (Z.eqb_spec (len r - n) 0) as [E2|E2].
  - eexists _, _. split; [mstep; reflexivity|]. rewrite app_nil_r, take_ge by lia. done.
  - rewrite sub_slice_ret by (unfold capacity in *; lia).
    eexists _, _. split; [mstep; reflexivity|].
    assert (pos r n = 0) as Hp by (rewrite pos_split by lia; bsplit; lia).
    pose proof (slots_window r q n (len r - n) Hr ltac:(lia) ltac:(lia) ltac:(lia) ltac:(lia)) as Hs.
    rewrite Hp in Hs. rewrite Z.sub_0_r, Hs, <- fmap_app. f_equal.
    rewrite (take_ge (drop _ _)) by (rewrite length_drop; lia). apply take_drop.
Qed.

(** ** The bounded queue a ring buffer implements *)
Inductive op :=
| OpPush (v : T) | OpPop | OpPopBack | OpPushOverwrite (v : T) | OpPeek | OpClear | OpLen.

Inductive output :=
| OutPush (res : Result unit RingBufferError)
| OutValue (v : option T)
| OutUnit
| OutLen (n : Z).

(** One operation on the ring buffer. *)
Definition ring_step r (o : op) : exec (output * RingBuffer T) :=
  match o with
  | OpPush v => '(res, r') ← push r v; Ret (OutPush res, r')
  | OpPop => '(v, r') ← pop r; Ret (OutValue v, r')
  | OpPopBack => '(v, r') ← pop_back r; Ret (OutValue v, r')
  | OpPushOverwrite v => '(d, r') ← push_overwrite r v; Ret (OutValue d, r')
  | OpPeek => v ← peek r; Ret (OutValue v, r)
  | OpClear => r' ← clear r; Ret (OutUnit, r')
  | OpLen => Ret (OutLen (len r), r)
  end.

(** The same operation on a queue of at most [cap] elements. *)
Definition queue_step (cap : Z) q (o : op) : output * list T :=
  let full := Z.of_nat (length q) =? cap in
  match o with
  | OpPush v => if full then (OutPush (Err Full), q) else (OutPush (Ok tt), q ++ [v])
  | OpPop => (OutValue (head q), tail q)
  | OpPopBack => (OutValue (last q), take (pred (length q)) q)
  | OpPushOverwrite v =>
      if full then (OutValue (head q), tail q ++ [v]) else (OutValue None, q ++ [v])
  | OpPeek => (OutValue (head q), q)
  | OpClear => (OutUnit, [])
  | OpLen => (OutLen (Z.of_nat (length q)), q)
  end.

Fixpoint ring_run r (os : list op) : exec (list output * RingBuffer T) :=
  match os with
  | [] => Ret ([], r)
  | o :: os' =>
      '(x, r') ← ring_step r o;
      '(xs, r'') ← ring_run r' os';
      Ret (x :: xs, r'')
  end.

Fixpoint queue_run (cap : Z) q (os : list op) : list output * list T :=
  match os with
  | [] => ([], q)
  | o :: os' =>
      let '(x, q') := queue_step cap q o in
      let '(xs, q'') := queue_run cap q' os' in
      (x :: xs, q'')
  end.

Lemma ring_step_refines r q o :
  repr r q ->
  exists r', ring_step r o = Ret ((queue_step (capacity r) q o).1, r') /\
    repr r' (queue_step (capacity r) q o).2 /\ capacity r' = capacity r.
Proof.
  intros Hr. pose proof (repr_len r q Hr) as [Hl _].
  assert (is_full r = (Z.of_nat (length q) =? capacity r)) as Hfull
    by (unfold is_full; now rewrite Hl).
  destruct o as [v| | |v| | |]; cbn [ring_step queue_step].
  - rewrite <- Hfull. destruct (is_full r) eqn:Hf.
    + rewrite (push_full r q) by done. mstep. eauto.
    + destruct (push_ok r q v Hr Hf) as (r' & -> & Hr'). mstep. eauto.
  - destruct q as [|x q]; [rewrite pop_empty by done; mstep; eauto|].
    destruct (pop_ok r x q Hr) as (r' & -> & Hr'). mstep. eauto.
  - destruct q as [|x q] using rev_ind; [rewrite pop_back_empty by done; mstep; eauto|].
    destruct (pop_back_ok r q x Hr) as (r' & -> & Hr'). mstep. exists r'.
    rewrite last_snoc, length_app. simpl. rewrite Nat.add_1_r. simpl.
    rewrite take_app_length. done.
  - destruct (push_overwrite_ok r q v Hr) as (r' & -> & Hr'). mstep. rewrite <- Hfull.
    exists r'. destruct (is_full r); done.
  - rewrite (peek_ok r q) by done. mstep. eauto.
  - destruct (clear_ok r q Hr) as (r' & -> & Hr' & Hc & _). mstep. eauto.
  - rewrite Hl. mstep. eauto.
Qed.

Lemma ring_run_refines os r q :
  repr r q ->
  exists r', ring_run r os = Ret ((queue_run (capacity r) q os).1, r') /\
    repr r' (queue_run (capacity r) q os).2 /\ capacity r' = capacity r.
Proof.
  revert r q. induction os as [|o os IH]; intros r q Hr; cbn [ring_run queue_run]; [eauto|].
  destruct (ring_step_refines r q o Hr) as (r1 & -> & Hr1 & Hc1). mstep.
  destruct (queue_step (capacity r) q o) as [x q1]. cbn [fst snd] in *.
  destruct (IH r1 q1 Hr1) as (r2 & -> & Hr2 & Hc2). mstep. rewrite Hc1 in *.
  destruct (queue_run (capacity r) q1 os) as [xs q2]. cbn [fst snd] in *. eauto.
Qed.

Lemma with_capacity_repr cap :
  0 < cap < 9223372036854775808 ->
  exists r, with_capacity cap = Ok r /\ repr r [] /\ capacity r = cap.
Proof.
  intros Hc. unfold with_capacity. destruct (Z.eqb_spec cap 0); [lia|].
  eexists. split; [done|]. unfold capacity; simpl. rewrite length_replicate, Z2Nat.id by lia.
  split; [|done]. split; unfold slot_at, pos, capacity; simpl; rewrite ?length_replicate; try lia.
  - rewrite Z.mod_0_l; lia.
  - intros i Hi. rewrite Z2Nat.id in * by lia. rewrite Z.mod_small by lia.
    rewrite lookup_replicate_2 by lia. done.
Qed.

(** ** Properties *)

(** Trace refinement: a ring buffer created with capacity [cap] answers any
    sequence of push, pop, pop_back, push_overwrite, peek, clear and len exactly as a
    bounded queue of [cap] elements does, without ever panicking or looping, and ends
    in a state that holds the queue the specification ends with. *)
Theorem ring_buffer_refines_bounded_queue (cap : Z) (os : list op) :
  0 < cap < 9223372036854775808 ->
  exists r r', with_capacity cap = Ok r /\
    ring_run r os = Ret ((queue_run cap [] os).1, r') /\
    repr r' (queue_run cap [] os).2.
Proof.
  intros Hc. destruct (with_capacity_repr cap Hc) as (r & He & Hr & Hcap).
  destruct (ring_run_refines os r [] Hr) as (r' & Hrun & Hr' & _). rewrite Hcap in *. eauto.
Qed.

(** [write_slice] appends the longest prefix of its source that fits and
    [read_slice] moves the oldest elements out in order: after writing [source] to a
    buffer holding [q], reading into an output of any length returns the first
    elements of [q] followed by the written prefix, and leaves the rest; [as_slices]
    shows the held elements in order. *)
Theorem slices_are_fifo (r : RingBuffer T) (q source out : list T) :
  repr r q ->
  let n := Nat.min (length source) (Z.to_nat (capacity r) - length q) in
  let q' := q ++ take n source in
  let k := Nat.min (length out) (length q') in
  exists r1 r2 a b,
    write_slice r source 0 = Ret (Z.of_nat n, r1) /\ repr r1 q' /\
    as_slices r1 = Ret (a, b) /\ a ++ b = Some <$> q' /\
    read_slice r1 out 0 = Ret (Z.of_nat k, take k q' ++ drop k out, r2) /\
    repr r2 (drop k q').
Proof.
  intros Hr n q' k. destruct (write_slice_ok source r q 0 Hr) as (r1 & Hw & Hr1 & Hc1).
  fold n q' in Hw, Hr1. destruct (as_slices_ok r1 q' Hr1) as (a & b & Has & Hab).
  destruct (read_slice_ok out r1 q' 0 Hr1) as (r2 & Hrd & Hr2 & _). fold k in Hrd, Hr2.
  exists r1, r2, a, b. done.
Qed.
End RingBuffer.
Arguments op : clear implicits.
Arguments output : clear implicits.

Lemma ring_buffer_refines_bounded_queue_witness :
  exists r r', with_capacity 2 = Ok r /\
    ring_run r [OpPush 7; OpPush 8; OpPushOverwrite 9; OpPopBack; OpPeek] =
      Ret ((queue_run 2 [] [OpPush 7; OpPush 8; OpPushOverwrite 9; OpPopBack; OpPeek]).1, r') /\
    repr r' (queue_run 2 [] [OpPush 7; OpPush 8; OpPushOverwrite 9; OpPopBack; OpPeek]).2.
Proof. apply ring_buffer_refines_bounded_queue. lia. Defined.

(** The outputs of that run, evaluated. *)
Example ring_run_example :
  (queue_run 2 [] [OpPush 7; OpPush 8; OpPushOverwrite 9; OpPopBack; OpPeek]).1 =
  [OutPush (Ok tt); OutPush (Ok tt); OutValue (Some 7); OutValue (Some 9); OutValue (Some 8)].
Proof. reflexivity. Qed.

Definition small_ring : RingBuffer Z := mkRing [None; None; None] 0 0 0.

Lemma small_ring_repr : repr small_ring [].
Proof.
  destruct (with_capacity_repr (T := Z) 3) as (r & He & Hr & _); [lia|]. now injection He as <-.
Qed.

Lemma slices_are_fifo_witness :
  let q' := take (Nat.min 4 (3 - 0)) [1; 2; 3; 4] in
  exists r1 r2 a b,
    write_slice small_ring [1; 2; 3; 4] 0 = Ret (3, r1) /\ repr r1 q' /\
    as_slices r1 = Ret (a, b) /\ a ++ b = Some <$> q' /\
    read_slice r1 [0; 0] 0 = Ret (2, take 2 q' ++ drop 2 [0; 0], r2) /\
    repr r2 (drop 2 q').
Proof. apply (slices_are_fifo small_ring [] [1; 2; 3; 4] [0; 0]). apply small_ring_repr. Defined.
