(* ===== verification/KFifo.v ===== *)
(** * The kernel FIFO of kernel/src/libs/kfifo/mod.rs

    [KFifo] wraps a [RingBuffer] and translates its errors.  The wrapper functions
    delegate as the source does; the round trip of a block of items through a fresh
    FIFO is proved from the ring buffer's refinement lemmas. *)

From S2P Require Import Prelude RingBuffer.

Inductive KfifoError := KfifoCapacityZero | KfifoFull.

Definition from_ring_error (e : RingBufferError) : KfifoError :=
  match e with
  | CapacityZero => KfifoCapacityZero
  | Full => KfifoFull
  end.

Definition map_err {A E E'} (f : E -> E') (r : Result A E) : Result A E' :=
  match r with Ok a => Ok a | Err e => Err (f e) end.

Record KFifo (T : Type) := mkKFifo { inner : RingBuffer T }.
Arguments mkKFifo {T}.
Arguments inner {T}.

Section KFifo.
Context {T : Type}.
Implicit Types (f : KFifo T).

Definition with_capacity (capacity : Z) : Result (KFifo T) KfifoError :=
  match map_err from_ring_error (RingBuffer.with_capacity capacity) with
  | Ok r => Ok (mkKFifo r)
  | Err e => Err e
  end.

Definition capacity f : Z := RingBuffer.capacity (inner f).
Definition len f : Z := RingBuffer.len (inner f).
Definition is_empty f : bool := RingBuffer.is_empty (inner f).
Definition is_full f : bool := RingBuffer.is_full (inner f).
Definition avail f : Z := available_read (inner f).
Definition unused f : Z := available_write (inner f).

Definition clear f : exec (KFifo T) :=
  r ← RingBuffer.clear (inner f); Ret (mkKFifo r).
Definition reset f : exec (KFifo T) := clear f.

Definition push f (value : T) : exec (Result unit KfifoError * KFifo T) :=
  '(res, r) ← RingBuffer.push (inner f) value;
  Ret (map_err from_ring_error res, mkKFifo r).

Definition pop f : exec (option T * KFifo T) :=
  '(v, r) ← RingBuffer.pop (inner f); Ret (v, mkKFifo r).

Definition push_overwrite f (value : T) : exec (option T * KFifo T) :=
  '(v, r) ← RingBuffer.push_overwrite (inner f) value; Ret (v, mkKFifo r).

Definition peek f : exec (option T) := RingBuffer.peek (inner f).

Definition peek_mut f (g : T -> T) : exec (KFifo T) :=
  r ← RingBuffer.peek_mut (inner f) g; Ret (mkKFifo r).

Definition pop_back f : exec (option T * KFifo T) :=
  '(v, r) ← RingBuffer.pop_back (inner f); Ret (v, mkKFifo r).

Definition in_slice f (source : list T) : exec (Z * KFifo T) :=
  '(n, r) ← write_slice (inner f) source 0; Ret (n, mkKFifo r).

Definition out_slice f (output : list T) : exec (Z * list T * KFifo T) :=
  '(n, out, r) ← read_slice (inner f) output 0; Ret (n, out, mkKFifo r).

(** ** Properties *)

(** A block of items that fits goes through a fresh FIFO unchanged: [in_slice]
    accepts all of it, a further [push] on a FIFO filled to capacity is refused with
    [Full] and changes nothing, and [out_slice] returns exactly the block, in order,
    leaving the FIFO empty; a zero capacity is refused. *)
Theorem kfifo_block_roundtrip (cap : Z) (xs out : list T) :
  0 < cap < 9223372036854775808 -> Z.of_nat (length xs) <= cap -> length out = length xs ->
  exists f f1 f2, with_capacity cap = Ok f /\
    in_slice f xs = Ret (Z.of_nat (length xs), f1) /\
    (Z.of_nat (length xs) = cap -> forall v, push f1 v = Ret (Err KfifoFull, f1)) /\
    out_slice f1 out = Ret (Z.of_nat (length xs), xs, f2) /\ is_empty f2 = true /\
    with_capacity 0 = Err KfifoCapacityZero.
Proof.
  intros Hc Hfit Hout. destruct (with_capacity_repr (T := T) cap Hc) as (r & He & Hr & Hcap).
  unfold with_capacity, in_slice, out_slice, push. rewrite He. cbn [map_err].
  destruct (write_slice_ok xs r [] 0 Hr) as (r1 & Hw & Hr1 & Hc1).
  rewrite Hcap in Hw, Hr1. cbn [length] in Hw, Hr1.
  replace (Nat.min (length xs) (Z.to_nat cap - 0)) with (length xs) in * by lia.
  rewrite app_nil_l, take_ge in Hr1 by done.
  destruct (read_slice_ok out r1 xs 0 Hr1) as (r2 & Hrd & Hr2 & _).
  rewrite Hout, Nat.min_id in Hrd, Hr2. rewrite take_ge, drop_ge, app_nil_r in Hrd by lia.
  rewrite drop_ge in Hr2 by done.
  exists (mkKFifo r), (mkKFifo r1), (mkKFifo r2). cbn [inner]. rewrite Hw, Hrd. mstep.
  split; [done|]. split; [done|]. split; [|split; [done|split; [|done]]].
  - intros Hfull v. rewrite (push_full r1 xs) by (done || apply (repr_full r1 xs Hr1); lia). done.
  - unfold is_empty. cbn [inner]. now rewrite (is_empty_spec r2 []).
Qed.
End KFifo.

Lemma kfifo_block_roundtrip_witness :
  exists f f1 f2, with_capacity 3 = Ok f /\
    in_slice f [1; 2; 3] = Ret (3, f1) /\
    (3 = 3 -> forall v, push f1 v = Ret (Err KfifoFull, f1)) /\
    out_slice f1 [0; 0; 0] = Ret (3, [1; 2; 3], f2) /\ is_empty f2 = true /\
    with_capacity (T := Z) 0 = Err KfifoCapacityZero.
Proof. apply (kfifo_block_roundtrip 3 [1; 2; 3] [0; 0; 0]); [lia|simpl; lia|done]. Defined.
