(* ===== verification/Memblock.v ===== *)
(** * The early memory allocator of kernel/src/mm/phys/memblock.rs

    Two arrays of regions, [memory] and [reserved], each with a count and a running
    total.  The array code (shifting loops, in-place merging, hole punching) is
    modelled as it is written; it is then shown to refine list functions on the
    active regions, from which the address-level theorems follow. *)

From S2P Require Import Prelude.

(** The variants of [KernelError] that memblock returns. *)
Inductive KernelError := Failed | NoMemory | InvalidAddress.

#[export] Instance KernelError_eq_dec : EqDecision KernelError.
Proof. solve_decision. Defined.

Definition MEMBLOCK_REGIONS_MAX : Z := 128.
Definition MEMBLOCK_RESERVED_MAX : Z := 128.

Inductive MemblockFlags := NONE | HOTPLUG | MIRROR | NOMAP | DRIVER_MANAGED.

Record MemblockRegion := mkRegion { rbase : Z; rsize : Z; rflags : MemblockFlags }.

Definition empty_region : MemblockRegion := mkRegion 0 0 NONE.
Definition region_is_empty (r : MemblockRegion) : bool := rsize r =? 0.
Definition region_end (r : MemblockRegion) : Z := add64 (rbase r) (rsize r).
Definition overlaps (r other : MemblockRegion) : bool :=
  (rbase r <? region_end other) && (rbase other <? region_end r).
Definition adjacent (r other : MemblockRegion) : bool :=
  (region_end r =? rbase other) || (region_end other =? rbase r).

(** The debugging name of the list is left out. *)
Record MemblockType := mkType {
  cnt : Z;
  tmax : Z;
  total_size : Z;
  regions : list MemblockRegion
}.

Definition new_type (max : Z) : MemblockType :=
  mkType 0 max 0 (replicate (Z.to_nat MEMBLOCK_REGIONS_MAX) empty_region).

Record Memblock := mkMemblock {
  bottom_up : bool;
  current_limit : Z;
  memory : MemblockType;
  reserved : MemblockType
}.

(** ** Adding a range *)
Inductive scan_result := ScanMerge | ScanInsert (insert_idx : Z).

(** The search loop of [memblock_add_range]. *)
Fixpoint add_scan (t : MemblockType) (base end_ : Z) (idxs : list Z) : exec scan_result :=
  match idxs with
  | [] => Ret (ScanInsert (cnt t))
  | i :: idxs' =>
      region ← vec_get (regions t) i;
      if (rbase region <=? end_) && (base <=? region_end region) then Ret ScanMerge
      else if base <? rbase region then Ret (ScanInsert i)
      else add_scan t base end_ idxs'
  end.

(** [for i in idxs { regions[i + 1] = regions[i] }] *)
Fixpoint shift_up (rs : list MemblockRegion) (idxs : list Z) : exec (list MemblockRegion) :=
  match idxs with
  | [] => Ret rs
  | i :: idxs' =>
      r ← vec_get rs i;
      rs' ← vec_set rs (i + 1) r;
      shift_up rs' idxs'
  end.

(** [for j in idxs { regions[j] = regions[j + 1] }] *)
Fixpoint shift_down (rs : list MemblockRegion) (idxs : list Z) : exec (list MemblockRegion) :=
  match idxs with
  | [] => Ret rs
  | j :: idxs' =>
      r ← vec_get rs (j + 1);
      rs' ← vec_set rs j r;
      shift_down rs' idxs'
  end.

(** The loop of [memblock_merge_adjacent]; it ends because [cnt - i] decreases. *)
Fixpoint merge_adjacent_loop (fuel : nat) (t : MemblockType) (i : Z) : exec MemblockType :=
  match fuel with
  | O => OutOfFuel
  | S fuel' =>
      if i + 1 <? cnt t then
        cur ← vec_get (regions t) i;
        next ← vec_get (regions t) (i + 1);
        let current_end := region_end cur in
        if rbase next <=? current_end then
          let new_end := Z.max current_end (region_end next) in
          let old_size := add64 (rsize cur) (rsize next) in
          let cur' := mkRegion (rbase cur) (sub64 new_end (rbase cur)) (rflags cur) in
          rs ← vec_set (regions t) i cur';
          rs' ← shift_down rs (zrange (i + 1) (cnt t - 1));
          merge_adjacent_loop fuel'
            (mkType (cnt t - 1) (tmax t)
               (add64 (sub64 (total_size t) old_size) (rsize cur')) rs') i
        else merge_adjacent_loop fuel' t (i + 1)
      else Ret t
  end.

Definition memblock_merge_adjacent (t : MemblockType) (start_idx : Z) : exec MemblockType :=
  merge_adjacent_loop (S (Z.to_nat (cnt t))) t start_idx.

Fixpoint merge_regions_loop (t : MemblockType) (base end_ : Z) (idxs : list Z)
  : exec (Result unit KernelError * MemblockType) :=
  match idxs with
  | [] => Ret (Err Failed, t)
  | i :: idxs' =>
      region ← vec_get (regions t) i;
      if (rbase region <=? end_) && (base <=? region_end region) then
        let new_base := Z.min (rbase region) base in
        let new_end := Z.max (region_end region) end_ in
        let old_size := rsize region in
        let region' := mkRegion new_base (sub64 new_end new_base) (rflags region) in
        rs ← vec_set (regions t) i region';
        t' ← memblock_merge_adjacent
               (mkType (cnt t) (tmax t)
                  (add64 (sub64 (total_size t) old_size) (rsize region')) rs) i;
        Ret (Ok tt, t')
      else merge_regions_loop t base end_ idxs'
  end.

Definition memblock_merge_regions (t : MemblockType) (base size : Z)
  : exec (Result unit KernelError * MemblockType) :=
  merge_regions_loop t base (add64 base size) (zrange 0 (cnt t)).

Definition memblock_add_range (t : MemblockType) (base size : Z) (flags : MemblockFlags)
  : exec (Result unit KernelError * MemblockType) :=
  if size =? 0 then Ret (Ok tt, t)
  else match checked_add64 base size with
  | None => Ret (Err InvalidAddress, t)
  | Some end_ =>
      s ← add_scan t base end_ (zrange 0 (cnt t));
      match s with
      | ScanMerge => memblock_merge_regions t base size
      | ScanInsert insert_idx =>
          if tmax t <=? cnt t then Ret (Err NoMemory, t)
          else
            rs ← shift_up (regions t) (reverse (zrange insert_idx (cnt t)));
            rs' ← vec_set rs insert_idx (mkRegion base size flags);
            Ret (Ok tt, mkType (cnt t + 1) (tmax t) (add64 (total_size t) size) rs')
      end
  end.

(** ** Removing a range *)
Fixpoint remove_loop (fuel : nat) (t : MemblockType) (base size end_ i : Z)
  : exec (Result unit KernelError * MemblockType) :=
  match fuel with
  | O => OutOfFuel
  | S fuel' =>
      if i <? cnt t then
        region ← vec_get (regions t) i;
        if (end_ <=? rbase region) || (region_end region <=? base) then
          remove_loop fuel' t base size end_ (i + 1)
        else
          let reg_base := rbase region in
          let reg_end := region_end region in
          if (base <=? reg_base) && (reg_end <=? end_) then
            rs ← shift_down (regions t) (zrange i (cnt t - 1));
            remove_loop fuel'
              (mkType (cnt t - 1) (tmax t) (sub64 (total_size t) (rsize region)) rs)
              base size end_ i
          else if (reg_base <? base) && (end_ <? reg_end) then
            if tmax t <=? cnt t then Ret (Err NoMemory, t)
            else
              rs ← vec_set (regions t) i (mkRegion reg_base (sub64 base reg_base) (rflags region));
              rs' ← shift_up rs (reverse (zrange (i + 1) (cnt t)));
              rs'' ← vec_set rs' (i + 1) (mkRegion end_ (sub64 reg_end end_) (rflags region));
              remove_loop fuel'
                (mkType (cnt t + 1) (tmax t) (sub64 (total_size t) size) rs'')
                base size end_ (i + 2)
          else if base <=? reg_base then
            let removed := sub64 end_ reg_base in
            rs ← vec_set (regions t) i
                   (mkRegion end_ (sub64 (rsize region) removed) (rflags region));
            remove_loop fuel'
              (mkType (cnt t) (tmax t) (sub64 (total_size t) removed) rs)
              base size end_ (i + 1)
          else
            let removed := sub64 reg_end base in
            rs ← vec_set (regions t) i
                   (mkRegion reg_base (sub64 (rsize region) removed) (rflags region));
            remove_loop fuel'
              (mkType (cnt t) (tmax t) (sub64 (total_size t) removed) rs)
              base size end_ (i + 1)
      else Ret (Ok tt, t)
  end.

(** Every iteration decreases [cnt - i], so [cnt + 1] steps are enough. *)
Definition memblock_remove_range (t : MemblockType) (base size : Z)
  : exec (Result unit KernelError * MemblockType) :=
  if size =? 0 then Ret (Ok tt, t)
  else remove_loop (S (Z.to_nat (cnt t))) t base size (add64 base size) 0.

(** ** Searching for free memory *)
Definition align_up (addr align : Z) : Z :=
  Z.land (sub64 (add64 addr align) 1) (not64 (sub64 align 1)).
Definition align_down (addr align : Z) : Z := Z.land addr (not64 (sub64 align 1)).

Inductive conflict_result := NoConflict | MoveTo (candidate : Z) | GiveUp.

(** The inner loop of [find_free_area_top_down]. *)
Fixpoint conflict_top_down (res : MemblockType) (size align candidate : Z) (idxs : list Z)
  : exec conflict_result :=
  match idxs with
  | [] => Ret NoConflict
  | i :: idxs' =>
      r ← vec_get (regions res) i;
      if region_is_empty r then conflict_top_down res size align candidate idxs'
      else if (candidate <? region_end r) && (rbase r <? add64 candidate size) then
        if 0 <? rbase r
        then Ret (MoveTo (align_down (saturating_sub64 (rbase r) size) align))
        else Ret GiveUp
      else conflict_top_down res size align candidate idxs'
  end.

Fixpoint top_down_loop (fuel : nat) (mb : Memblock) (size align start candidate : Z)
  : exec (option Z) :=
  match fuel with
  | O => OutOfFuel
  | S fuel' =>
      if start <=? candidate then
        c ← conflict_top_down (reserved mb) size align candidate (zrange 0 (cnt (reserved mb)));
        match c with
        | NoConflict => Ret (Some candidate)
        | GiveUp => Ret None
        | MoveTo candidate' =>
            if candidate' =? 0 then Ret None
            else top_down_loop fuel' mb size align start candidate'
        end
      else Ret None
  end.

(** Each move leaves one more reserved region above the candidate. *)
Definition find_free_area_top_down (mb : Memblock) (size align start end_ : Z)
  : exec (option Z) :=
  top_down_loop (S (S (Z.to_nat (cnt (reserved mb))))) mb size align start
    (align_down (saturating_sub64 end_ size) align).

(** The inner loop of [find_free_area_bottom_up]. *)
Fixpoint conflict_bottom_up (res : MemblockType) (size align candidate : Z) (idxs : list Z)
  : exec conflict_result :=
  match idxs with
  | [] => Ret NoConflict
  | i :: idxs' =>
      r ← vec_get (regions res) i;
      if region_is_empty r then conflict_bottom_up res size align candidate idxs'
      else if (candidate <? region_end r) && (rbase r <? add64 candidate size) then
        Ret (MoveTo (align_up (region_end r) align))
      else conflict_bottom_up res size align candidate idxs'
  end.

Fixpoint bottom_up_loop (fuel : nat) (mb : Memblock) (size align end_ candidate : Z)
  : exec (option Z) :=
  match fuel with
  | O => OutOfFuel
  | S fuel' =>
      if add64 candidate size <=? end_ then
        c ← conflict_bottom_up (reserved mb) size align candidate (zrange 0 (cnt (reserved mb)));
        match c with
        | MoveTo candidate' => bottom_up_loop fuel' mb size align end_ candidate'
        | _ => Ret (Some candidate)
        end
      else Ret None
  end.

Definition find_free_area_bottom_up (mb : Memblock) (size align start end_ : Z)
  : exec (option Z) :=
  bottom_up_loop (S (S (Z.to_nat (cnt (reserved mb))))) mb size align end_ (align_up start align).

Definition with_reserved (mb : Memblock) (t : MemblockType) : Memblock :=
  mkMemblock (bottom_up mb) (current_limit mb) (memory mb) t.

(** The loop over the memory regions shared by [memblock_find_in_range_top_down] and
    [memblock_find_in_range_bottom_up], which differ in the order of the indices and
    in the search inside a region. *)
Fixpoint find_in_range_loop
    (find : Memblock -> Z -> Z -> Z -> Z -> exec (option Z))
    (mb : Memblock) (size align start end_ : Z) (idxs : list Z) : exec (Z * Memblock) :=
  match idxs with
  | [] => Ret (0, mb)
  | i :: idxs' =>
      mem_region ← vec_get (regions (memory mb)) i;
      if region_is_empty mem_region then find_in_range_loop find mb size align start end_ idxs'
      else
        let region_start := Z.max (rbase mem_region) start in
        let region_end_ := Z.min (region_end mem_region) end_ in
        if region_end_ <=? region_start then
          find_in_range_loop find mb size align start end_ idxs'
        else
          r ← find mb size align region_start region_end_;
          match r with
          | None => find_in_range_loop find mb size align start end_ idxs'
          | Some addr =>
              '(res, t) ← memblock_add_range (reserved mb) addr size NONE;
              if is_ok res then Ret (addr, with_reserved mb t)
              else find_in_range_loop find (with_reserved mb t) size align start end_ idxs'
          end
  end.

Definition memblock_find_in_range_top_down (mb : Memblock) (size align start end_ : Z)
  : exec (Z * Memblock) :=
  find_in_range_loop find_free_area_top_down mb size align start end_
    (reverse (zrange 0 (cnt (memory mb)))).

Definition memblock_find_in_range_bottom_up (mb : Memblock) (size align start end_ : Z)
  : exec (Z * Memblock) :=
  find_in_range_loop find_free_area_bottom_up mb size align start end_
    (zrange 0 (cnt (memory mb))).

(** ** The public interface *)
Definition memblock_init (mb : Memblock) : Memblock :=
  mkMemblock false U64_MAX
    (mkType 0 (tmax (memory mb)) 0 (regions (memory mb)))
    (mkType 0 (tmax (reserved mb)) 0 (regions (reserved mb))).

(** The static [MEMBLOCK] before [memblock_init]. *)
Definition MEMBLOCK : Memblock :=
  mkMemblock false U64_MAX (new_type MEMBLOCK_REGIONS_MAX) (new_type MEMBLOCK_RESERVED_MAX).

Definition memblock_add (mb : Memblock) (base size : Z)
  : exec (Result unit KernelError * Memblock) :=
  '(res, t) ← memblock_add_range (memory mb) base size NONE;
  Ret (res, mkMemblock (bottom_up mb) (current_limit mb) t (reserved mb)).

Definition memblock_reserve (mb : Memblock) (base size : Z)
  : exec (Result unit KernelError * Memblock) :=
  '(res, t) ← memblock_add_range (reserved mb) base size NONE;
  Ret (res, with_reserved mb t).

Definition memblock_free (mb : Memblock) (base size : Z)
  : exec (Result unit KernelError * Memblock) :=
  '(res, t) ← memblock_remove_range (reserved mb) base size;
  Ret (res, with_reserved mb t).

Definition memblock_alloc_range (mb : Memblock) (size align start end_ : Z)
  : exec (Z * Memblock) :=
  if size =? 0 then Ret (0, mb)
  else
    let align := if align =? 0 then 1 else align in
    if bottom_up mb
    then memblock_find_in_range_bottom_up mb size align start end_
    else memblock_find_in_range_top_down mb size align start end_.

Definition memblock_alloc (mb : Memblock) (size align : Z) : exec (Z * Memblock) :=
  memblock_alloc_range mb size align 0 (current_limit mb).

Definition memblock_set_bottom_up (mb : Memblock) (enable : bool) : Memblock :=
  mkMemblock enable (current_limit mb) (memory mb) (reserved mb).

Definition memblock_set_current_limit (mb : Memblock) (limit : Z) : Memblock :=
  mkMemblock (bottom_up mb) limit (memory mb) (reserved mb).

Definition memblock_phys_mem_size (mb : Memblock) : Z := total_size (memory mb).
Definition memblock_reserved_size (mb : Memblock) : Z := total_size (reserved mb).
Definition memblock_free_size (mb : Memblock) : Z :=
  saturating_sub64 (memblock_phys_mem_size mb) (memblock_reserved_size mb).

Definition memblock_end_of_phys_mem (mb : Memblock) : exec Z :=
  if cnt (memory mb) =? 0 then Ret 0
  else r ← vec_get (regions (memory mb)) (cnt (memory mb) - 1); Ret (region_end r).

Definition memblock_memory_region (mb : Memblock) (index : Z) : exec (option MemblockRegion) :=
  if index <? cnt (memory mb)
  then r ← vec_get (regions (memory mb)) index; Ret (Some r) else Ret None.

Definition memblock_reserved_region (mb : Memblock) (index : Z) : exec (option MemblockRegion) :=
  if index <? cnt (reserved mb)
  then r ← vec_get (regions (reserved mb)) index; Ret (Some r) else Ret None.

(** [memblock_for_each_free_region]: the callback threads a state of its own and
    answers whether to go on; the loops also report whether they ran to their end. *)
Section ForEach.
Context {S : Type} (callback : S -> Z -> Z -> bool * S).

Fixpoint free_regions_inner (res : MemblockType) (mem_end current : Z) (st : S) (idxs : list Z)
  : exec (bool * S * Z) :=
  match idxs with
  | [] => Ret (true, st, current)
  | j :: idxs' =>
      r ← vec_get (regions res) j;
      if region_is_empty r then free_regions_inner res mem_end current st idxs'
      else if mem_end <=? rbase r then Ret (true, st, current)
      else if region_end r <=? current then free_regions_inner res mem_end current st idxs'
      else
        let '(go, st') :=
          if current <? rbase r
          then callback st current (sub64 (Z.min (rbase r) mem_end) current) else (true, st) in
        if go
        then free_regions_inner res mem_end (Z.max current (region_end r)) st' idxs'
        else Ret (false, st', current)
  end.

Fixpoint free_regions_outer (mb : Memblock) (st : S) (idxs : list Z) : exec S :=
  match idxs with
  | [] => Ret st
  | i :: idxs' =>
      mem_region ← vec_get (regions (memory mb)) i;
      if region_is_empty mem_region then free_regions_outer mb st idxs'
      else
        let mem_end := region_end mem_region in
        '(go, st1, current) ←
          free_regions_inner (reserved mb) mem_end (rbase mem_region) st
            (zrange 0 (cnt (reserved mb)));
        if (go : bool) then
          let '(go', st2) :=
            if current <? mem_end
            then callback st1 current (sub64 mem_end current) else (true, st1) in
          if go' then free_regions_outer mb st2 idxs' else Ret st2
        else Ret st1
  end.

Definition memblock_for_each_free_region (mb : Memblock) (st : S) : exec S :=
  free_regions_outer mb st (zrange 0 (cnt (memory mb))).
End ForEach.

(** ** Regions as address intervals *)
Definition rend (r : MemblockRegion) : Z := rbase r + rsize r.

Definition region_ok (r : MemblockRegion) : Prop :=
  0 <= rbase r /\ 0 < rsize r /\ rend r < u64_size.

(** Sorted, non-empty regions with a gap before each, the first above [lo]. *)
Fixpoint separated (lo : Z) (l : list MemblockRegion) : Prop :=
  match l with
  | [] => True
  | r :: l' => lo < rbase r /\ region_ok r /\ separated (rend r) l'
  end.

Definition covers (l : list MemblockRegion) (a : Z) : Prop :=
  Exists (fun r => rbase r <= a < rend r) l.

Definition sum_sizes (l : list MemblockRegion) : Z :=
  foldr (fun r acc => rsize r + acc) 0 l.

Lemma region_end_ok r : region_ok r -> region_end r = rend r.
Proof. unfold region_ok, region_end, rend. intros. wsimpl. lia. Qed.

Lemma region_is_empty_ok r : region_ok r -> region_is_empty r = false.
Proof. unfold region_ok, region_is_empty. intros. apply Z.eqb_neq. lia. Qed.

Lemma covers_cons r l a : covers (r :: l) a <-> rbase r <= a < rend r \/ covers l a.
Proof. apply Exists_cons. Qed.
Lemma covers_app l1 l2 a : covers (l1 ++ l2) a <-> covers l1 a \/ covers l2 a.
Proof. apply Exists_app. Qed.
Lemma covers_nil a : covers [] a <-> False.
Proof. apply Exists_nil. Qed.

Lemma separated_ok lo l : separated lo l -> Forall region_ok l.
Proof. revert lo. induction l as [|r l IH]; intros lo; simpl; [done|]. intros (_ & Hr & Hl).
  constructor; eauto. Qed.

Lemma separated_weaken lo lo' l : lo' <= lo -> separated lo l -> separated lo' l.
Proof. destruct l; simpl; [done|]. intros. intuition lia. Qed.

Lemma separated_above lo l r : separated lo l -> r ∈ l -> lo < rbase r /\ region_ok r.
Proof.
  revert lo. induction l as [|s l IH]; intros lo Hs Hr; [by apply elem_of_nil in Hr|].
  destruct Hs as (Hlo & Hok & Hs). apply elem_of_cons in Hr as [->|Hr]; [done|].
  destruct (IH _ Hs Hr) as [H1 H2]. unfold region_ok, rend in *. split; [lia|done].
Qed.

Lemma separated_app lo l1 r l2 :
  separated lo (l1 ++ r :: l2) <->
  separated lo (l1 ++ [r]) /\ separated (rend r) l2.
Proof.
  revert lo. induction l1 as [|s l1 IH]; intros lo; simpl; [tauto|].
  rewrite IH. tauto.
Qed.

Lemma sum_sizes_app l1 l2 : sum_sizes (l1 ++ l2) = sum_sizes l1 + sum_sizes l2.
Proof. induction l1 as [|r l1 IH]; simpl; [done|]. unfold sum_sizes in *. simpl. lia. Qed.

(** Separated regions never add up to more than the address space. *)
Lemma separated_sum lo l : -1 <= lo < u64_size -> separated lo l -> 0 <= sum_sizes l < u64_size - lo.
Proof.
  revert lo. induction l as [|r l IH]; intros lo Hlo; simpl.
  - unfold sum_sizes; simpl. lia.
  - intros (H1 & H2 & H3). unfold region_ok in H2. apply IH in H3; [|unfold rend in *; lia].
    unfold sum_sizes, rend in *. simpl. lia.
Qed.

(** ** The array and its active prefix *)
Record arr (t : MemblockType) (l junk : list MemblockRegion) : Prop := {
  arr_regions : regions t = l ++ junk;
  arr_cnt : cnt t = Z.of_nat (length l);
  arr_total : total_size t = sum_sizes l mod u64_size
}.

(** [t] holds the regions [l]; its array has room for [tmax] regions. *)
Definition holds (t : MemblockType) (l : list MemblockRegion) : Prop :=
  exists junk, arr t l junk /\ Z.of_nat (length l) <= tmax t <= Z.of_nat (length (l ++ junk)).

Lemma zrange_reverse_snoc a n :
  reverse (zrange a (a + Z.of_nat (S n))) = (a + Z.of_nat n) :: reverse (zrange a (a + Z.of_nat n)).
Proof.
  rewrite zrange_snoc by lia. rewrite reverse_app. simpl.
  replace (a + Z.of_nat (S n) - 1) with (a + Z.of_nat n) by lia. done.
Qed.

Lemma shift_up_ok l1 l2 j junk :
  let a := Z.of_nat (length l1) in
  shift_up (l1 ++ l2 ++ j :: junk) (reverse (zrange a (a + Z.of_nat (length l2)))) =
  Ret (l1 ++ default j (head l2) :: l2 ++ junk).
Proof.
  intros a. revert j junk. induction l2 as [|y l2 IH] using rev_ind; intros j junk.
  - simpl. rewrite Z.add_0_r, zrange_empty by lia. done.
  - rewrite length_app, Nat.add_1_r, zrange_reverse_snoc. cbn [shift_up].
    rewrite <- app_assoc. rewrite app_assoc. simpl app.
    rewrite vec_get_middle by (rewrite length_app; lia). mstep.
    replace ((l1 ++ l2) ++ y :: j :: junk) with ((l1 ++ l2 ++ [y]) ++ j :: junk)
      by (rewrite <- !app_assoc; done).
    rewrite vec_set_middle by (rewrite !length_app; simpl; lia). mstep.
    replace ((l1 ++ l2 ++ [y]) ++ y :: junk) with (l1 ++ l2 ++ y :: y :: junk)
      by (rewrite <- !app_assoc; done).
    rewrite IH. f_equal. f_equal. rewrite <- app_assoc. destruct l2; done.
Qed.

Lemma shift_down_ok l1 y l2 junk :
  let a := Z.of_nat (length l1) in
  exists j, shift_down (l1 ++ y :: l2 ++ junk) (zrange a (a + Z.of_nat (length l2))) =
            Ret (l1 ++ l2 ++ j :: junk).
Proof.
  revert l1 y. induction l2 as [|z l2 IH]; intros l1 y a.
  - exists y. simpl. rewrite Z.add_0_r, zrange_empty by lia. done.
  - rewrite zrange_cons by (simpl; lia). cbn [shift_down].
    replace (l1 ++ y :: (z :: l2) ++ junk) with ((l1 ++ [y]) ++ z :: l2 ++ junk)
      by (rewrite <- app_assoc; done).
    rewrite vec_get_middle by (rewrite length_app; simpl; lia). mstep.
    rewrite <- app_assoc. simpl app. rewrite vec_set_middle by done. mstep.
    destruct (IH (l1 ++ [z]) z) as [j Hj]. exists j.
    rewrite length_app, Nat2Z.inj_add in Hj. cbn [length] in *.
    replace (a + Z.of_nat (S (length l2))) with (a + Z.of_nat 1 + Z.of_nat (length l2)) by lia.
    change (a + 1) with (a + Z.of_nat 1). rewrite <- !app_assoc in Hj. exact Hj.
Qed.

(** ** Merging with the following regions *)
Definition join (r s : MemblockRegion) : MemblockRegion :=
  mkRegion (rbase r) (Z.max (rend r) (rend s) - rbase r) (rflags r).

Fixpoint absorb (r : MemblockRegion) (l : list MemblockRegion) : list MemblockRegion :=
  match l with
  | [] => [r]
  | s :: l' => if rbase s <=? rend r then absorb (join r s) l' else r :: absorb s l'
  end.

Lemma rend_join r s : rend (join r s) = Z.max (rend r) (rend s).
Proof. unfold rend at 1, join. simpl. lia. Qed.

Lemma join_ok r s : region_ok r -> region_ok s -> region_ok (join r s).
Proof.
  intros Hr Hs. unfold region_ok. rewrite rend_join. unfold join, region_ok, rend in *. simpl. lia.
Qed.

Lemma merge_adjacent_ok fuel t l1 r l2 junk :
  arr t (l1 ++ r :: l2) junk -> Forall region_ok (r :: l2) -> (length l2 < fuel)%nat ->
  exists t' junk', merge_adjacent_loop fuel t (Z.of_nat (length l1)) = Ret t' /\
    arr t' (l1 ++ absorb r l2) junk' /\ tmax t' = tmax t /\
    length (regions t') = length (regions t).
Proof.
  revert t l1 r l2 junk. induction fuel as [|fuel IH]; intros t l1 r l2 junk Ht Hok Hf; [lia|].
  destruct Ht as [Hreg Hcnt Htot]. cbn [merge_adjacent_loop]. rewrite length_app in Hcnt.
  apply Forall_cons in Hok as [Hr Hl2]. destruct l2 as [|s l2].
  { destruct (Z.ltb_spec (Z.of_nat (length l1) + 1) (cnt t)); [simpl in Hcnt; lia|].
    exists t, junk. split; [done|]. split; [|done]. split; cbn [absorb]; try done.
    now rewrite Hcnt, length_app. }
  apply Forall_cons in Hl2 as [Hs Hl2]. cbn [length] in Hcnt, Hf.
  destruct (Z.ltb_spec (Z.of_nat (length l1) + 1) (cnt t)); [|lia].
  rewrite Hreg, <- app_assoc. cbn [app].
  rewrite (vec_get_middle l1 r _ (Z.of_nat (length l1))) by done. mstep.
  replace (l1 ++ r :: s :: l2 ++ junk) with ((l1 ++ [r]) ++ s :: l2 ++ junk)
    by (rewrite <- app_assoc; done).
  rewrite vec_get_middle by (rewrite length_app; simpl; lia). mstep.
  rewrite <- app_assoc. cbn [app]. rewrite !region_end_ok by done. cbn [absorb].
  destruct (Z.leb_spec (rbase s) (rend r)) as [Hm|Hm].
  - rewrite vec_set_middle by done. mstep.
    assert (sub64 (Z.max (rend r) (rend s)) (rbase r) = Z.max (rend r) (rend s) - rbase r) as ->
      by (unfold region_ok, rend in *; wsimpl; done).
    fold (join r s). destruct (shift_down_ok (l1 ++ [join r s]) s l2 junk) as [j Hj].
    rewrite <- !app_assoc in Hj. cbn [app] in Hj.
    replace (zrange (Z.of_nat (length l1) + 1) (cnt t - 1)) with
      (zrange (Z.of_nat (length (l1 ++ [join r s])))
              (Z.of_nat (length (l1 ++ [join r s])) + Z.of_nat (length l2)))
      by (rewrite length_app; simpl; f_equal; lia).
    rewrite Hj. mstep.
    destruct (IH (mkType (cnt t - 1) (tmax t)
        (add64 (sub64 (total_size t) (add64 (rsize r) (rsize s))) (rsize (join r s)))
        (l1 ++ join r s :: l2 ++ j :: junk)) l1 (join r s) l2 (j :: junk))
      as (t' & junk' & He & Ha & Hx & Hlen); [|by constructor; [apply join_ok|]|lia|].
    + split; cbn [regions cnt total_size].
      * now rewrite <- app_assoc.
      * rewrite length_app. simpl. lia.
      * rewrite Htot, total_replace2, !sum_sizes_app. f_equal. unfold sum_sizes; simpl. lia.
    + exists t', junk'. split; [done|]. split; [done|]. split; [done|].
      rewrite Hlen. cbn [regions]. rewrite !length_app. simpl. rewrite !length_app. simpl. lia.
  - destruct (IH t (l1 ++ [r]) s l2 junk) as (t' & junk' & He & Ha & Hx & Hlen);
      [|by constructor|lia|].
    + split; [rewrite Hreg; list_norm; done|list_norm; rewrite length_app; simpl; lia|].
      list_norm. done.
    + exists t', junk'. rewrite length_app, Nat2Z.inj_add in He. cbn in He.
      rewrite <- app_assoc in Ha. rewrite Hlen, Hreg, <- app_assoc. done.
Qed.

Lemma absorb_spec lo m r l :
  region_ok r -> lo < rbase r -> separated m l -> rbase r <= m ->
  separated lo (absorb r l) /\ forall a, covers (absorb r l) a <-> covers (r :: l) a.
Proof.
  revert lo m r. induction l as [|s l IH]; intros lo m r Hr Hlo Hs Hm; [simpl; tauto|].
  destruct Hs as (Hms & Hok & Hs). cbn [absorb]. destruct (Z.leb_spec (rbase s) (rend r)).
  - destruct (IH lo (rend s) (join r s)) as [H1 H2]; try done.
    + now apply join_ok.
    + unfold join, region_ok, rend in *. simpl. lia.
    + split; [done|]. intros a. rewrite H2, !covers_cons, rend_join.
      change (rbase (join r s)) with (rbase r). unfold region_ok, rend in *.
      split; [intros [?|?]|intros [?|[?|?]]]; tauto || lia.
  - destruct (IH (rend r) (rend s) s) as [H1 H2]; try done.
    + unfold region_ok, rend in *. lia.
    + split; [done|]. intros a. rewrite covers_cons, H2, !covers_cons. tauto.
Qed.

Lemma absorb_length r l : (length (absorb r l) <= S (length l))%nat.
Proof.
  revert r. induction l as [|s l IH]; intros r; simpl; [lia|].
  destruct (_ <=? _); simpl; [specialize (IH (join r s))|specialize (IH s)]; lia.
Qed.

(** ** Adding a range, on lists *)
Definition touches (b e : Z) (r : MemblockRegion) : bool := (rbase r <=? e) && (b <=? rend r).

Definition hull (b e : Z) (r : MemblockRegion) : MemblockRegion :=
  mkRegion (Z.min (rbase r) b) (Z.max (rend r) e - Z.min (rbase r) b) (rflags r).

Fixpoint add_list (l : list MemblockRegion) (b e : Z) (fl : MemblockFlags) : list MemblockRegion :=
  match l with
  | [] => [mkRegion b (e - b) fl]
  | r :: l' =>
      if touches b e r then absorb (hull b e r) l'
      else if b <? rbase r then mkRegion b (e - b) fl :: r :: l'
      else r :: add_list l' b e fl
  end.

Lemma hull_ok b e r :
  region_ok r -> 0 <= b < e -> e < u64_size ->
  region_ok (hull b e r) /\ rend (hull b e r) = Z.max (rend r) e.
Proof. intros. unfold region_ok, hull, rend in *. simpl. lia. Qed.

Lemma add_list_spec lo l b e fl :
  separated lo l -> lo < b -> 0 <= b < e -> e < u64_size ->
  separated lo (add_list l b e fl) /\
  forall a, covers (add_list l b e fl) a <-> covers l a \/ b <= a < e.
Proof.
  intros Hs Hlo Hb He.
  assert (Hnew : region_ok (mkRegion b (e - b) fl) /\ rend (mkRegion b (e - b) fl) = e)
    by (unfold region_ok, rend; simpl; lia).
  revert lo Hs Hlo. induction l as [|r l IH]; intros lo Hs Hlo; cbn [add_list].
  - split; [simpl; tauto|]. intros a. rewrite covers_cons, covers_nil. destruct Hnew as [_ ->].
    simpl. tauto.
  - destruct Hs as (Hr & Hok & Hs). unfold touches.
    destruct (Z.leb_spec (rbase r) e), (Z.leb_spec b (rend r)); simpl.
    1: { destruct (hull_ok b e r Hok Hb He) as [Hh Hre].
      destruct (absorb_spec lo (rend r) (hull b e r) l) as [Hsep Hcov]; try done.
      + unfold hull; simpl. lia.
      + unfold hull, region_ok, rend in *; simpl. lia.
      + split; [done|]. intros a. rewrite Hcov, !covers_cons, Hre. unfold hull; cbn [rbase].
        unfold region_ok, rend in *. split; [intros [?|?]|intros [[?|?]|?]]; tauto || lia. }
    all: destruct (Z.ltb_spec b (rbase r)); try (unfold region_ok, rend in *; lia).
    2: split; [simpl; destruct Hnew as [? ->]; split; [done|split; [done|split; [lia|done]]]|];
      intros a; rewrite covers_cons; destruct Hnew as [_ ->]; cbn [rbase]; tauto.
    destruct (IH (rend r) Hs ltac:(lia)) as [Hsep Hcov]. split; [simpl; tauto|].
    intros a. rewrite !covers_cons, Hcov. tauto.
Qed.

(** What the search loop of [memblock_add_range] decides, on lists. *)
Fixpoint scan_list (l : list MemblockRegion) (b e k : Z) : scan_result :=
  match l with
  | [] => ScanInsert k
  | r :: l' =>
      if touches b e r then ScanMerge
      else if b <? rbase r then ScanInsert k
      else scan_list l' b e (k + 1)
  end.

Lemma add_scan_ok t l1 l2 junk b e :
  arr t (l1 ++ l2) junk -> Forall region_ok l2 ->
  add_scan t b e (zrange (Z.of_nat (length l1)) (cnt t)) =
  Ret (scan_list l2 b e (Z.of_nat (length l1))).
Proof.
  intros [Hreg Hcnt _] Hok. revert l1 Hreg Hcnt. induction Hok as [|r l2 Hr Hok IH];
    intros l1 Hreg Hcnt; rewrite length_app in Hcnt.
  - rewrite zrange_empty by (simpl in Hcnt; lia). cbn. f_equal. f_equal. simpl in Hcnt. lia.
  - cbn [length] in Hcnt. rewrite zrange_cons by lia. cbn [add_scan scan_list].
    rewrite Hreg, <- app_assoc. cbn [app]. rewrite vec_get_middle by done. mstep.
    rewrite region_end_ok by done. fold (touches b e r). destruct (touches b e r); [done|].
    destruct (b <? rbase r); [done|].
    rewrite <- (len_snoc l1 r). apply IH; list_norm; [rewrite Hreg; list_norm; done|].
    rewrite length_app. simpl. lia.
Qed.

Lemma scan_list_split l b e fl k :
  match scan_list l b e k with
  | ScanMerge => exists l1 r l2, l = l1 ++ r :: l2 /\ Forall (fun s => touches b e s = false) l1 /\
      touches b e r = true /\ add_list l b e fl = l1 ++ absorb (hull b e r) l2
  | ScanInsert i => exists l1 l2, l = l1 ++ l2 /\ i = k + Z.of_nat (length l1) /\
      add_list l b e fl = l1 ++ mkRegion b (e - b) fl :: l2
  end.
Proof.
  revert k. induction l as [|r l IH]; intros k; cbn [scan_list add_list].
  - exists [], []. split; [done|]. split; [simpl; lia|done].
  - destruct (touches b e r) eqn:Ht; [exists [], r, l; done|].
    destruct (b <? rbase r); [exists [], (r :: l); split; [done|split; [simpl; lia|done]]|].
    specialize (IH (k + 1)). destruct (scan_list l b e (k + 1)).
    + destruct IH as (l1 & s & l2 & -> & H1 & H2 & ->). exists (r :: l1), s, l2.
      repeat split; auto.
    + destruct IH as (l1 & l2 & -> & -> & ->). exists (r :: l1), l2.
      repeat split; auto. simpl. lia.
Qed.

Lemma merge_regions_loop_ok t l1 l2 r l3 junk b e :
  arr t (l1 ++ l2 ++ r :: l3) junk -> Forall region_ok (l2 ++ r :: l3) ->
  0 <= b < e -> e < u64_size ->
  Forall (fun s => touches b e s = false) l2 -> touches b e r = true ->
  exists t' junk', merge_regions_loop t b e (zrange (Z.of_nat (length l1)) (cnt t)) = Ret (Ok tt, t') /\
    arr t' (l1 ++ l2 ++ absorb (hull b e r) l3) junk' /\ tmax t' = tmax t /\
    length (regions t') = length (regions t).
Proof.
  intros [Hreg Hcnt Htot] Hok Hb He Hno Hyes. revert l1 Hreg Hcnt Htot.
  induction l2 as [|s l2 IH]; intros l1 Hreg Hcnt Htot; rewrite length_app in Hcnt.
  - cbn [app] in *. cbn [length] in Hcnt. rewrite zrange_cons by lia. cbn [merge_regions_loop].
    apply Forall_cons in Hok as [Hr Hok].
    rewrite Hreg, <- app_assoc. cbn [app].
    rewrite (vec_get_middle l1 r _ (Z.of_nat (length l1))) by done. mstep.
    rewrite region_end_ok by done. fold (touches b e r). rewrite Hyes.
    assert (sub64 (Z.max (rend r) e) (Z.min (rbase r) b) = Z.max (rend r) e - Z.min (rbase r) b) as ->
      by (unfold region_ok, rend in *; wsimpl; done).
    fold (hull b e r). rewrite vec_set_middle by done. mstep. unfold memblock_merge_adjacent.
    destruct (merge_adjacent_ok (S (Z.to_nat (cnt t)))
      (mkType (cnt t) (tmax t) (add64 (sub64 (total_size t) (rsize r)) (rsize (hull b e r)))
         (l1 ++ hull b e r :: l3 ++ junk)) l1 (hull b e r) l3 junk)
      as (t' & junk' & Hm & Ha & Hx & Hlen).
    + split; cbn [regions cnt total_size]; list_norm; try done.
      * rewrite length_app. simpl. lia.
      * rewrite Htot, total_replace, !sum_sizes_app. f_equal. unfold sum_sizes; simpl. lia.
    + constructor; [|done]. now apply hull_ok.
    + lia.
    + cbn [cnt]. rewrite Hm. mstep. exists t', junk'. repeat split; try apply Ha; try done.
      rewrite Hlen. cbn [regions]. rewrite !length_app. done.
  - apply Forall_cons in Hno as [Hs Hno]. cbn [app] in *. apply Forall_cons in Hok as [Hsok Hok].
    cbn [length] in Hcnt. rewrite zrange_cons by lia. cbn [merge_regions_loop].
    assert (vec_get (regions t) (Z.of_nat (length l1)) = Ret s) as ->
      by (rewrite Hreg; list_norm; now apply vec_get_middle). mstep.
    rewrite region_end_ok by done. fold (touches b e s). rewrite Hs.
    destruct (IH Hok Hno (l1 ++ [s])) as (t' & junk' & He' & Ha & Hrest);
      [rewrite Hreg; list_norm; done|list_norm; rewrite length_app; simpl; lia|list_norm; done|].
    exists t', junk'. rewrite len_snoc in He'. list_norm_in Ha. done.
Qed.

Lemma holds_intro t t' l' junk' :
  arr t' l' junk' -> tmax t' = tmax t -> length (regions t') = length (regions t) ->
  Z.of_nat (length l') <= tmax t <= Z.of_nat (length (regions t)) -> holds t' l'.
Proof.
  intros Ha Hx Hlen Hle. exists junk'. split; [done|]. rewrite <- (arr_regions _ _ _ Ha). lia.
Qed.

(** [memblock_add_range] refines [add_list], and fails only when the array is full. *)
Lemma memblock_add_range_ok t l b size fl :
  holds t l -> separated (-1) l -> 0 <= b -> 0 < size -> b + size < u64_size ->
  (exists t', memblock_add_range t b size fl = Ret (Ok tt, t') /\
     holds t' (add_list l b (b + size) fl) /\ tmax t' = tmax t) \/
  (memblock_add_range t b size fl = Ret (Err NoMemory, t) /\ Z.of_nat (length l) = tmax t).
Proof.
  intros (junk & Ha & Hle) Hs Hb Hsz He. unfold memblock_add_range.
  destruct (Z.eqb_spec size 0); [lia|]. unfold checked_add64.
  destruct (Z.ltb_spec (b + size) u64_size); [|lia].
  pose proof (separated_ok _ _ Hs) as Hok. pose proof Ha as [Hreg Hcnt Htot].
  pose proof (add_scan_ok t [] l junk b (b + size) Ha Hok) as Hscan.
  change (Z.of_nat (length (@nil MemblockRegion))) with 0 in Hscan. rewrite Hscan. mstep.
  pose proof (scan_list_split l b (b + size) fl 0) as Hsplit.
  destruct (scan_list l b (b + size) 0) as [|i].
  - destruct Hsplit as (l1 & r & l2 & Hl & Hno & Hyes & Hadd). left. rewrite Hadd. rewrite Hl in Hok, Ha, Hle.
    unfold memblock_merge_regions. rewrite add64_small by lia.
    destruct (merge_regions_loop_ok t [] l1 r l2 junk b (b + size)) as (t' & junk' & Hm & Ha' & Hx & Hlen);
      [done|done|lia|lia|done|done|]. exists t'. split; [exact Hm|]. split; [|done].
    apply (holds_intro t t' _ junk' Ha' Hx Hlen). rewrite Hreg, Hl. cbn [app] in *.
    rewrite length_app in *. pose proof (absorb_length (hull b (b + size) r) l2). simpl in *. lia.
  - destruct Hsplit as (l1 & l2 & Hl & -> & Hadd). rewrite Hcnt.
    destruct (Z.leb_spec (tmax t) (Z.of_nat (length l))) as [|Hroom]; [right; split; [done|lia]|].
    left. rewrite Hadd, Hreg, Hl. destruct junk as [|j junk]; [rewrite app_nil_r in Hle; lia|].
    rewrite length_app, Z.add_0_l. list_norm.
    pose proof (shift_up_ok l1 l2 j junk) as Hsh. cbv zeta in Hsh. rewrite <- Nat2Z.inj_add in Hsh.
    rewrite Hsh. mstep. rewrite vec_set_middle by done. mstep. eexists. split; [done|].
    split; [|done]. exists junk. replace (b + size - b) with size by lia.
    rewrite Hl in Hle, Hcnt, Htot, Hroom. rewrite !length_app in Hroom.
    rewrite !length_app in Hcnt. repeat rewrite length_app in Hle. cbn [length] in Hle, Hcnt.
    split; [|list_norm; rewrite !length_app; cbn [length tmax]; rewrite ?length_app; lia].
    split; cbn [regions cnt total_size]; list_norm; try done.
    + rewrite length_app. simpl. lia.
    + rewrite Htot, total_add, !sum_sizes_app. f_equal. unfold sum_sizes; simpl. lia.
Qed.

(** ** Removing a range, on lists *)
Definition cut (b e : Z) (r : MemblockRegion) : list MemblockRegion :=
  if (e <=? rbase r) || (rend r <=? b) then [r]
  else (if rbase r <? b then [mkRegion (rbase r) (b - rbase r) (rflags r)] else []) ++
       (if e <? rend r then [mkRegion e (rend r - e) (rflags r)] else []).

Definition remove_list (l : list MemblockRegion) (b e : Z) : list MemblockRegion :=
  l ≫= cut b e.

Lemma cut_spec lo b e r l :
  lo < rbase r -> region_ok r -> b < e -> separated (rend r) l ->
  separated lo (cut b e r ++ l) /\
  forall a, covers (cut b e r) a <-> rbase r <= a < rend r /\ ~ b <= a < e.
Proof.
  intros Hlo Hok Hbe Hl. unfold cut.
  destruct (Z.leb_spec e (rbase r)), (Z.leb_spec (rend r) b); simpl;
    try (unfold region_ok in Hok; lia);
    try (split; [done|]; intros a; rewrite covers_cons, covers_nil; lia).
  assert (Hl' : forall x, x <= rend r -> separated x l)
    by (intros x Hx; now apply separated_weaken with (rend r)).
  destruct (Z.ltb_spec (rbase r) b), (Z.ltb_spec e (rend r)); simpl;
    (split; [unfold region_ok, rend in *; simpl; intuition (try lia; auto with lia)
            |intros a; rewrite ?covers_cons, ?covers_nil; unfold rend in *; simpl; lia]).
Qed.

Lemma remove_list_spec lo l b e :
  separated lo l -> b < e ->
  separated lo (remove_list l b e) /\
  forall a, covers (remove_list l b e) a <-> covers l a /\ ~ b <= a < e.
Proof.
  intros Hs Hbe. revert lo Hs. induction l as [|r l IH]; intros lo Hs.
  - split; [done|]. intros a. change (remove_list [] b e) with (@nil MemblockRegion).
    rewrite covers_nil. tauto.
  - destruct Hs as (Hlo & Hok & Hs). destruct (IH _ Hs) as [H1 H2].
    unfold remove_list in *. cbn [mbind list_bind].
    destruct (cut_spec lo b e r _ Hlo Hok Hbe H1) as [H3 H4]. split; [done|].
    intros a. rewrite covers_app, covers_cons, H2, H4. tauto.
Qed.

(** A region that has the range strictly inside makes [cut] a hole; no other region of
    a separated list is then touched. *)
Definition pierces (b e : Z) (r : MemblockRegion) : Prop := rbase r < b /\ e < rend r.

(** One iteration of the removal loop replaces the region it looks at by its pieces. *)
Lemma remove_step fuel t l1 r l2 junk b size :
  arr t (l1 ++ r :: l2) junk -> region_ok r ->
  0 <= b -> 0 < size -> b + size < u64_size ->
  Z.of_nat (length (l1 ++ r :: l2)) <= tmax t <= Z.of_nat (length (regions t)) ->
  let e := b + size in
  let i := Z.of_nat (length l1) in
  (exists t1 junk1,
     remove_loop (S fuel) t b size e i =
       remove_loop fuel t1 b size e (Z.of_nat (length (l1 ++ cut b e r))) /\
     arr t1 (l1 ++ cut b e r ++ l2) junk1 /\ tmax t1 = tmax t /\
     length (regions t1) = length (regions t) /\
     Z.of_nat (length (l1 ++ cut b e r ++ l2)) <= tmax t /\
     (t1 = t \/ b < rend r)) \/
  (remove_loop (S fuel) t b size e i = Ret (Err NoMemory, t) /\ cnt t = tmax t /\ pierces b e r).
Proof.
  intros [Hreg Hcnt Htot] Hok Hb Hsz He Hmax e i. cbn [remove_loop].
  rewrite length_app in Hcnt, Hmax. cbn [length] in Hcnt, Hmax.
  destruct (Z.ltb_spec i (cnt t)); [|lia].
  assert (vec_get (regions t) i = Ret r) as -> by (rewrite Hreg; list_norm; now apply vec_get_middle).
  mstep. rewrite region_end_ok by done. list_norm_in Hreg.
  assert (Hset : forall x, vec_set (regions t) i x = Ret (l1 ++ x :: l2 ++ junk))
    by (intros x; rewrite Hreg; now apply vec_set_middle).
  assert (Hlen : length (regions t) = (length l1 + S (length l2 + length junk))%nat)
    by (rewrite Hreg, length_app; simpl; now rewrite length_app).
  rewrite sum_sizes_app in Htot. unfold sum_sizes in Htot; cbn [foldr] in Htot; fold sum_sizes in Htot.
  fold (sum_sizes l1) (sum_sizes l2) in Htot. rewrite !Hset.
  unfold cut. destruct ((e <=? rbase r) || (rend r <=? b)) eqn:Hdis.
  { left. exists t, junk. rewrite len_snoc. repeat split; list_norm; try done.
    - rewrite Hcnt, length_app. done.
    - rewrite Htot, sum_sizes_app. done.
    - rewrite length_app. simpl. lia.
    - now left. }
  apply orb_false_elim in Hdis as [Ho1%Z.leb_gt Ho2%Z.leb_gt].
  destruct (Z.leb_spec b (rbase r)) as [H1|H1], (Z.leb_spec (rend r) e) as [H2|H2]; cbn [andb];
    destruct (Z.ltb_spec (rbase r) b) as [H3|H3], (Z.ltb_spec e (rend r)) as [H4|H4]; try lia; cbn [andb app].
  - (* the whole region goes *)
    left. destruct (shift_down_ok l1 r l2 junk) as [j Hj].
    replace (zrange i (cnt t - 1)) with (zrange i (i + Z.of_nat (length l2))) by (f_equal; lia).
    rewrite Hreg. fold i in Hj. rewrite Hj. mstep. eexists _, (j :: junk). rewrite app_nil_r.
    split; [done|]. repeat split; cbn [regions cnt total_size tmax]; list_norm; try done.
    + rewrite length_app. lia.
    + rewrite Htot, total_sub, sum_sizes_app. f_equal. lia.
    + len_lia.
    + rewrite length_app. lia.
    + now right.
  - (* the front goes *)
    left. mstep. eexists _, junk. rewrite len_snoc. split; [done|].
    assert (sub64 e (rbase r) = e - rbase r) as -> by (unfold region_ok, rend, e in *; wsimpl; done).
    assert (sub64 (rsize r) (e - rbase r) = rend r - e) as ->
      by (unfold region_ok, rend, e in *; wsimpl; lia).
    repeat split; cbn [regions cnt total_size tmax]; list_norm; try done.
    + rewrite length_app. simpl. lia.
    + rewrite Htot, total_sub, sum_sizes_app. f_equal. unfold sum_sizes, rend; simpl. lia.
    + rewrite Hlen. len_lia.
    + rewrite length_app. simpl. lia.
    + now right.
  - (* the back goes *)
    left. mstep. eexists _, junk. rewrite len_snoc. split; [done|].
    assert (sub64 (rend r) b = rend r - b) as -> by (unfold region_ok, rend, e in *; wsimpl; done).
    assert (sub64 (rsize r) (rend r - b) = b - rbase r) as ->
      by (unfold region_ok, rend, e in *; wsimpl; lia).
    repeat split; cbn [regions cnt total_size tmax]; list_norm; try done.
    + rewrite length_app. simpl. lia.
    + rewrite Htot, total_sub, sum_sizes_app. f_equal. unfold sum_sizes, rend; simpl. lia.
    + rewrite Hlen. len_lia.
    + rewrite length_app. simpl. lia.
    + now right.
  - (* a hole *)
    destruct (Z.leb_spec (tmax t) (cnt t)); [right; split; [done|]; unfold pierces; lia|].
    left. mstep. destruct junk as [|j junk]; [simpl in Hlen; lia|].
    assert (sub64 b (rbase r) = b - rbase r) as -> by (unfold region_ok, rend, e in *; wsimpl; done).
    assert (sub64 (rend r) e = rend r - e) as -> by (unfold region_ok, rend, e in *; wsimpl; done).
    set (front := mkRegion (rbase r) (b - rbase r) (rflags r)).
    set (back := mkRegion e (rend r - e) (rflags r)).
    pose proof (shift_up_ok (l1 ++ [front]) l2 j junk) as Hsh. cbv zeta in Hsh. rewrite len_snoc in Hsh.
    fold i in Hsh. replace (i + 1 + Z.of_nat (length l2)) with (cnt t) in Hsh by lia.
    list_norm_in Hsh. rewrite Hsh. mstep.
    replace (l1 ++ front :: default j (head l2) :: l2 ++ junk) with
      ((l1 ++ [front]) ++ default j (head l2) :: l2 ++ junk) by (list_norm; done).
    rewrite vec_set_middle by (rewrite len_snoc; done). mstep. eexists _, junk.
    replace (Z.of_nat (length (l1 ++ [front; back]))) with (i + 2) by (rewrite length_app; simpl; lia).
    split; [done|]. repeat split; cbn [regions cnt total_size tmax]; list_norm; try done.
    + rewrite length_app. simpl. lia.
    + rewrite Htot, total_sub, sum_sizes_app. f_equal.
      unfold sum_sizes, front, back, rend, e; simpl. lia.
    + rewrite Hlen. len_lia.
    + rewrite length_app. simpl. lia.
    + now right.
Qed.

Lemma remove_loop_ok fuel t l1 l2 junk lo b size :
  arr t (l1 ++ l2) junk -> separated lo l2 -> (length l2 < fuel)%nat ->
  0 <= b -> 0 < size -> b + size < u64_size ->
  Z.of_nat (length (l1 ++ l2)) <= tmax t <= Z.of_nat (length (regions t)) ->
  (exists t', remove_loop fuel t b size (b + size) (Z.of_nat (length l1)) = Ret (Ok tt, t') /\
     holds t' (l1 ++ remove_list l2 b (b + size)) /\ tmax t' = tmax t) \/
  (remove_loop fuel t b size (b + size) (Z.of_nat (length l1)) = Ret (Err NoMemory, t) /\
     cnt t = tmax t /\ Exists (pierces b (b + size)) l2).
Proof.
  intros Ha Hs Hf Hb Hsz He Hmax. revert t l1 l2 junk lo Ha Hs Hf Hmax.
  induction fuel as [|fuel IH]; intros t l1 l2 junk lo Ha Hs Hf Hmax; [lia|].
  destruct l2 as [|r l2].
  - left. exists t. pose proof Ha as [Hreg Hcnt _]. cbn [remove_loop].
    rewrite app_nil_r in *. destruct (Z.ltb_spec (Z.of_nat (length l1)) (cnt t)); [lia|].
    split; [done|]. split; [|done].
    exists junk. split; [done|]. rewrite <- Hreg. lia.
  - destruct Hs as (Hlo & Hok & Hs).
    destruct (remove_step fuel t l1 r l2 junk b size)
      as [(t1 & junk1 & -> & Ha1 & Hx1 & Hl1 & Hm1 & Heq)|(-> & Hfull & Hp)]; try done.
    + destruct (IH t1 (l1 ++ cut b (b + size) r) l2 junk1 (rend r))
        as [(t' & -> & H2 & H3)|(-> & H2 & H3)]; [list_norm; done|done|simpl in Hf; lia| | |].
      * list_norm. lia.
      * left. exists t'. split; [done|]. list_norm_in H2. split; [exact H2|congruence].
      * right. destruct Heq as [->|Hbr]; [split; [done|split; [done|now apply Exists_cons_tl]]|].
        exfalso. apply Exists_exists in H3 as (s & Hin & Hps).
        apply (separated_above _ _ s Hs) in Hin as [? _]. unfold pierces in Hps. lia.
    + right. split; [done|]. split; [done|]. now apply Exists_cons_hd.
Qed.

(** ** Searching, against the reserved list *)
Definition clear_of (lr : list MemblockRegion) (size c : Z) : Prop :=
  Forall (fun s => c + size <= rbase s \/ rend s <= c) lr.

Definition clashes (size c : Z) (r : MemblockRegion) : Prop := c < rend r /\ rbase r < c + size.

Lemma align_down_pow2 a k : in_u64 a -> 0 <= k < 64 -> align_down a (2 ^ k) = 2 ^ k * (a / 2 ^ k).
Proof.
  intros Ha Hk. unfold align_down. pose proof (pow2_in_u64 k Hk).
  rewrite sub64_small by (unfold in_u64 in *; lia). now apply land_not_mask.
Qed.

(** The largest multiple of [2^k] that is not above [a]. *)
Lemma align_down_spec a k :
  in_u64 a -> 0 <= k < 64 ->
  let c := align_down a (2 ^ k) in
  (2 ^ k | c) /\ 0 <= c <= a /\ forall x, (2 ^ k | x) -> x <= a -> x <= c.
Proof.
  intros Ha Hk. cbv zeta. rewrite align_down_pow2 by done.
  assert (Hp : 0 < 2 ^ k) by lia. unfold in_u64 in Ha.
  pose proof (Z.mul_div_le a (2 ^ k) Hp). pose proof (Z.div_pos a (2 ^ k)).
  repeat split; [apply Z.divide_factor_l|nia|lia|].
  intros x [q ->] Hx. rewrite (Z.mul_comm q). apply Z.mul_le_mono_nonneg_l; [lia|].
  apply Z.div_le_lower_bound; lia.
Qed.

(** The smallest multiple of [2^k] that is not below [a]. *)
Lemma align_up_spec a k :
  0 <= a -> 0 <= k < 64 -> a + 2 ^ k <= u64_size ->
  let c := align_up a (2 ^ k) in
  (2 ^ k | c) /\ a <= c < a + 2 ^ k /\ forall x, (2 ^ k | x) -> a <= x -> c <= x.
Proof.
  intros Ha Hk Hu. cbv zeta. unfold align_up. pose proof (pow2_in_u64 k Hk).
  assert (Hp : 0 < 2 ^ k) by lia.
  assert (sub64 (add64 a (2 ^ k)) 1 = a + 2 ^ k - 1) as ->.
  { unfold sub64, add64. rewrite Zminus_mod_idemp_l. apply Z.mod_small. lia. }
  rewrite sub64_small by (unfold in_u64 in *; lia).
  rewrite land_not_mask by (unfold in_u64; lia).
  pose proof (Z.div_mod (a + 2 ^ k - 1) (2 ^ k)). pose proof (Z.mod_pos_bound (a + 2 ^ k - 1) (2 ^ k) Hp).
  repeat split; [apply Z.divide_factor_l|lia|lia|].
  intros x [q ->] Hx. rewrite (Z.mul_comm q). apply Z.mul_le_mono_nonneg_l; [lia|].
  enough ((a + 2 ^ k - 1) / 2 ^ k < q + 1) by lia. apply Z.div_lt_upper_bound; nia.
Qed.

(** The inner loops stop at the first clash. *)
Lemma conflict_top_down_ok t l1 l2 junk size align c :
  arr t (l1 ++ l2) junk -> Forall region_ok l2 -> in_u64 c -> in_u64 (c + size) ->
  conflict_top_down t size align c (zrange (Z.of_nat (length l1)) (cnt t)) = Ret NoConflict /\
    clear_of l2 size c \/
  exists r, r ∈ l2 /\ clashes size c r /\
    conflict_top_down t size align c (zrange (Z.of_nat (length l1)) (cnt t)) =
    Ret (if 0 <? rbase r then MoveTo (align_down (saturating_sub64 (rbase r) size) align) else GiveUp).
Proof.
  intros [Hreg Hcnt _] Hok Hc Hcs. unfold in_u64 in *. revert l1 Hreg Hcnt.
  induction Hok as [|r l2 Hr Hok IH]; intros l1 Hreg Hcnt; rewrite length_app in Hcnt.
  - left. rewrite zrange_empty by (simpl in Hcnt; lia). split; [done|constructor].
  - cbn [length] in Hcnt. rewrite zrange_cons by lia. cbn [conflict_top_down].
    assert (vec_get (regions t) (Z.of_nat (length l1)) = Ret r) as ->
      by (rewrite Hreg; list_norm; now apply vec_get_middle). mstep.
    rewrite region_is_empty_ok, region_end_ok, add64_small by (done || lia).
    destruct (Z.ltb_spec c (rend r)), (Z.ltb_spec (rbase r) (c + size)); cbn [andb].
    1: right; exists r; split; [left|]; split; [done|]; now destruct (0 <? rbase r).
    all: rewrite <- (len_snoc l1 r); destruct (IH (l1 ++ [r])) as [[-> Hcl]|(s & Hin & Hs & ->)];
      [rewrite Hreg; list_norm; done|list_norm; len_lia| |];
      [left; split; [done|constructor; [lia|done]]|right; exists s; split; [by right|done]].
Qed.

Lemma conflict_bottom_up_ok t l1 l2 junk size align c :
  arr t (l1 ++ l2) junk -> Forall region_ok l2 -> in_u64 c -> in_u64 (c + size) ->
  conflict_bottom_up t size align c (zrange (Z.of_nat (length l1)) (cnt t)) = Ret NoConflict /\
    clear_of l2 size c \/
  exists r, r ∈ l2 /\ clashes size c r /\
    conflict_bottom_up t size align c (zrange (Z.of_nat (length l1)) (cnt t)) =
    Ret (MoveTo (align_up (rend r) align)).
Proof.
  intros [Hreg Hcnt _] Hok Hc Hcs. unfold in_u64 in *. revert l1 Hreg Hcnt.
  induction Hok as [|r l2 Hr Hok IH]; intros l1 Hreg Hcnt; rewrite length_app in Hcnt.
  - left. rewrite zrange_empty by (simpl in Hcnt; lia). split; [done|constructor].
  - cbn [length] in Hcnt. rewrite zrange_cons by lia. cbn [conflict_bottom_up].
    assert (vec_get (regions t) (Z.of_nat (length l1)) = Ret r) as ->
      by (rewrite Hreg; list_norm; now apply vec_get_middle). mstep.
    rewrite region_is_empty_ok, region_end_ok, add64_small by (done || lia).
    destruct (Z.ltb_spec c (rend r)), (Z.ltb_spec (rbase r) (c + size)); cbn [andb].
    1: right; exists r; split; [left|]; done.
    all: rewrite <- (len_snoc l1 r); destruct (IH (l1 ++ [r])) as [[-> Hcl]|(s & Hin & Hs & ->)];
      [rewrite Hreg; list_norm; done|list_norm; len_lia| |];
      [left; split; [done|constructor; [lia|done]]|right; exists s; split; [by right|done]].
Qed.

Section Search.
Context (mb : Memblock) (lr junk : list MemblockRegion) (size k : Z).
Context (Harr : arr (reserved mb) lr junk) (Hok : Forall region_ok lr).
Context (Hsize : 0 < size) (Hk : 0 <= k < 64).

(** The addresses a search over [start, end_) may return. *)
Definition fits_between (start end_ c : Z) : Prop :=
  0 < c /\ (2 ^ k | c) /\ start <= c /\ c + size <= end_ /\ clear_of lr size c.

Lemma top_down_loop_ok fuel start end_ c :
  0 <= start -> in_u64 c -> in_u64 (c + size) -> (2 ^ k | c) ->
  (forall x, fits_between start end_ x -> x <= c) ->
  (length (filter (fun r => (rbase r < c + size)%Z) lr) < fuel)%nat ->
  exists o, top_down_loop fuel mb size (2 ^ k) start c = Ret o /\
    match o with
    | Some x => start <= x <= c /\ (2 ^ k | x) /\ clear_of lr size x /\ (x = 0 -> c = 0) /\
                forall y, fits_between start end_ y -> y <= x
    | None => forall y, ~ fits_between start end_ y
    end.
Proof.
  intros Hst. revert c. induction fuel as [|fuel IH]; intros c Hc Hcs Hdiv Hmax Hf; [lia|].
  cbn [top_down_loop]. destruct (Z.leb_spec start c) as [Hsc|Hsc].
  2: { exists None. split; [done|]. intros y Hy. pose proof (Hmax y Hy). unfold fits_between in Hy. lia. }
  destruct (conflict_top_down_ok (reserved mb) [] lr junk size (2 ^ k) c Harr Hok Hc Hcs)
    as [[He Hcl]|(r & Hin & Hclash & He)]; cbn [length] in He; change (Z.of_nat 0) with 0 in He;
    rewrite He; mstep.
  { exists (Some c). repeat split; try done; lia. }
  pose proof (proj1 (Forall_forall _ _) Hok r Hin) as Hr. unfold region_ok, clashes in *.
  assert (Hbelow : forall y, fits_between start end_ y -> y + size <= rbase r).
  { intros y Hy. pose proof (Hmax y Hy). destruct Hy as (_ & _ & _ & _ & Hy).
    pose proof (proj1 (Forall_forall _ _) Hy r Hin). simpl in *. lia. }
  destruct (Z.ltb_spec 0 (rbase r)) as [Hpos|Hpos].
  2: { exists None. split; [done|]. intros y Hy. pose proof (Hbelow y Hy). unfold fits_between in Hy. lia. }
  unfold saturating_sub64, rend, in_u64 in *.
  destruct (align_down_spec (Z.max 0 (rbase r - size)) k) as (Hd & Hb & Hgr); [unfold in_u64; lia|done|].
  set (c' := align_down _ _) in *. destruct (Z.eqb_spec c' 0) as [Hz|Hz].
  - exists None. split; [done|]. intros y Hy. pose proof (Hbelow y Hy). destruct Hy as (Hy0 & Hyd & _).
    specialize (Hgr y Hyd). lia.
  - destruct (IH c') as (o & Ho & Hspec); try done; try lia.
    + intros y Hy. pose proof (Hbelow y Hy). destruct Hy as (Hy0 & Hyd & _). apply Hgr; [done|lia].
    + eapply Nat.lt_le_trans; [|apply Nat.lt_succ_r, Hf].
      apply filter_length_lt with r; [intros; lia|done|lia|lia].
    + exists o. split; [done|]. destruct o as [x|]; [|done]. destruct Hspec as (? & ? & ? & Hx & ?).
      repeat split; try done; try lia.
Qed.

Lemma find_free_area_top_down_ok start end_ :
  0 <= start -> in_u64 end_ -> in_u64 size ->
  exists o, find_free_area_top_down mb size (2 ^ k) start end_ = Ret o /\
    match o with
    | Some x => start <= x /\ (2 ^ k | x) /\ clear_of lr size x /\
                (0 < x -> x + size <= end_) /\ in_u64 (x + size) /\
                forall y, fits_between start end_ y -> y <= x
    | None => forall y, ~ fits_between start end_ y
    end.
Proof.
  intros Hst He Hs. unfold find_free_area_top_down, saturating_sub64, in_u64 in *.
  destruct (align_down_spec (Z.max 0 (end_ - size)) k) as (Hd & Hb & Hgr); [unfold in_u64; lia|done|].
  set (c := align_down _ _) in *.
  destruct (top_down_loop_ok (S (S (Z.to_nat (cnt (reserved mb))))) start end_ c)
    as (o & Ho & Hspec); try done; unfold in_u64; try lia.
  - intros y (Hy0 & Hyd & _ & Hye & _). apply Hgr; [done|lia].
  - rewrite (arr_cnt _ _ _ Harr). pose proof (length_filter (fun r => rbase r < c + size) lr). lia.
  - exists o. split; [done|]. destruct o as [x|]; [|done].
    destruct Hspec as (? & ? & ? & ? & ?). repeat split; try done; lia.
Qed.

Lemma bottom_up_loop_ok fuel start end_ m c :
  Forall (fun r => rend r <= m) lr -> in_u64 end_ ->
  0 <= c <= m + 2 ^ k -> m + 2 ^ k + size < u64_size -> (2 ^ k | c) ->
  (forall x, fits_between start end_ x -> c <= x) -> start <= c ->
  (length (filter (fun r => (c < rend r)%Z) lr) < fuel)%nat ->
  exists o, bottom_up_loop fuel mb size (2 ^ k) end_ c = Ret o /\
    match o with
    | Some x => start <= x /\ x + size <= end_ /\ (2 ^ k | x) /\ clear_of lr size x /\
                forall y, fits_between start end_ y -> x <= y
    | None => forall y, ~ fits_between start end_ y
    end.
Proof.
  intros Hm Hend. revert c. induction fuel as [|fuel IH]; intros c Hc Hmk Hdiv Hmin Hst Hf; [lia|].
  cbn [bottom_up_loop]. rewrite add64_small by lia. destruct (Z.leb_spec (c + size) end_) as [Hce|Hce].
  2: { exists None. split; [done|]. intros y Hy. pose proof (Hmin y Hy). unfold fits_between in Hy. lia. }
  destruct (conflict_bottom_up_ok (reserved mb) [] lr junk size (2 ^ k) c Harr Hok)
    as [[He Hcl]|(r & Hin & Hclash & He)]; try (unfold in_u64; lia);
    cbn [length] in He; change (Z.of_nat 0) with 0 in He; rewrite He; mstep.
  { exists (Some c). repeat split; done. }
  pose proof (proj1 (Forall_forall _ _) Hok r Hin) as Hr. unfold region_ok, clashes in *.
  pose proof (proj1 (Forall_forall _ _) Hm r Hin) as Hrm. cbv beta in Hrm.
  assert (Habove : forall y, fits_between start end_ y -> rend r <= y).
  { intros y Hy. pose proof (Hmin y Hy). destruct Hy as (_ & _ & _ & _ & Hy).
    pose proof (proj1 (Forall_forall _ _) Hy r Hin). simpl in *. lia. }
  destruct (align_up_spec (rend r) k) as (Hd & Hb & Hgr); [lia|done|lia|].
  set (c' := align_up _ _) in *. apply IH; try done; try lia.
  - intros y Hy. apply Hgr; [apply Hy|now apply Habove].
  - eapply Nat.lt_le_trans; [|apply Nat.lt_succ_r, Hf].
    apply filter_length_lt with r; [intros; lia|done|lia|lia].
Qed.

Lemma find_free_area_bottom_up_ok start end_ m :
  Forall (fun r => rend r <= m) lr -> in_u64 end_ -> 0 <= start <= m ->
  m + 2 ^ k + size < u64_size ->
  exists o, find_free_area_bottom_up mb size (2 ^ k) start end_ = Ret o /\
    match o with
    | Some x => start <= x /\ x + size <= end_ /\ (2 ^ k | x) /\ clear_of lr size x /\
                forall y, fits_between start end_ y -> x <= y
    | None => forall y, ~ fits_between start end_ y
    end.
Proof.
  intros Hm Hend Hst Hmk. unfold find_free_area_bottom_up.
  destruct (align_up_spec start k) as (Hd & Hb & Hgr); [lia|done|lia|].
  apply (bottom_up_loop_ok _ start end_ m); try done; try lia.
  - intros y (_ & Hyd & Hys & _). now apply Hgr.
  - rewrite (arr_cnt _ _ _ Harr).
    pose proof (length_filter (fun r => align_up start (2 ^ k) < rend r) lr). lia.
Qed.
End Search.

(** ** The search over all memory regions *)
Lemma arr_get_all t l1 l2 junk :
  arr t (l1 ++ l2) junk ->
  Forall2 (fun i r => vec_get (regions t) i = Ret r) (zrange (Z.of_nat (length l1)) (cnt t)) l2.
Proof.
  intros [Hreg Hcnt _]. revert l1 Hreg Hcnt. induction l2 as [|r l2 IH]; intros l1 Hreg Hcnt.
  - rewrite zrange_empty; [constructor|]. rewrite app_nil_r in Hcnt. lia.
  - rewrite length_app in Hcnt. cbn [length] in Hcnt. rewrite zrange_cons by lia. constructor.
    + rewrite Hreg. list_norm. now apply vec_get_middle.
    + rewrite <- (len_snoc l1 r). apply IH; list_norm; [rewrite Hreg; list_norm; done|]. len_lia.
Qed.

Section FindInRange.
Context (find : Memblock -> Z -> Z -> Z -> Z -> exec (option Z)).
Context (mb : Memblock) (lr : list MemblockRegion) (size align start end_ : Z).
Context (Hres : holds (reserved mb) lr) (Hsep : separated (-1) lr) (Hsize : 0 < size).

(** What the loop body finds in one memory region. *)
Definition attempt (r : MemblockRegion) (o : option Z) : Prop :=
  let lo := Z.max (rbase r) start in
  let hi := Z.min (rend r) end_ in
  if hi <=? lo then o = None else find mb size align lo hi = Ret o.

Definition full : Prop := Z.of_nat (length lr) = tmax (reserved mb).

Lemma find_in_range_loop_ok idxs ls :
  Forall2 (fun i r => vec_get (regions (memory mb)) i = Ret r) idxs ls ->
  Forall region_ok ls ->
  Forall (fun r => exists o, attempt r o /\ forall x, o = Some x -> 0 <= x /\ x + size < u64_size) ls ->
  (find_in_range_loop find mb size align start end_ idxs = Ret (0, mb) /\
   Forall (fun r => attempt r None \/ full) ls) \/
  (exists ls1 r ls2 x t', ls = ls1 ++ r :: ls2 /\ Forall (fun s => attempt s None \/ full) ls1 /\
     attempt r (Some x) /\ 0 <= x /\ x + size < u64_size /\
     find_in_range_loop find mb size align start end_ idxs = Ret (x, with_reserved mb t') /\
     holds t' (add_list lr x (x + size) NONE) /\ tmax t' = tmax (reserved mb)).
Proof.
  intros H2. induction H2 as [|i r idxs ls Hget H2 IH]; intros Hok Hatt; [left; split; [done|constructor]|].
  apply Forall_cons in Hok as [Hr Hok]. apply Forall_cons in Hatt as [(o & Ho & Hx) Hatt].
  cbn [find_in_range_loop]. rewrite Hget. mstep. rewrite region_is_empty_ok, region_end_ok by done.
  specialize (IH Hok Hatt).
  assert (Hnext : forall X, X = find_in_range_loop find mb size align start end_ idxs ->
    attempt r None \/ full ->
    (X = Ret (0, mb) /\ Forall (fun r => attempt r None \/ full) (r :: ls)) \/
    (exists ls1 s ls2 x t', r :: ls = ls1 ++ s :: ls2 /\ Forall (fun s => attempt s None \/ full) ls1 /\
     attempt s (Some x) /\ 0 <= x /\ x + size < u64_size /\ X = Ret (x, with_reserved mb t') /\
     holds t' (add_list lr x (x + size) NONE) /\ tmax t' = tmax (reserved mb))).
  { intros X -> Hn. destruct IH as [[-> Hall]|(ls1 & s & ls2 & x & t' & -> & Hall & Hrest)].
    - left. split; [done|]. by constructor.
    - right. exists (r :: ls1), s, ls2, x, t'. split; [done|]. split; [by constructor|done]. }
  unfold attempt in Ho. destruct (_ <=? _) eqn:Hlt; [subst o; apply Hnext; [done|]; left; unfold attempt; now rewrite Hlt|].
  rewrite Ho. mstep. destruct o as [x|]; [|apply Hnext; [done|]; left; unfold attempt; now rewrite Hlt].
  destruct (Hx x eq_refl) as [Hx0 Hxs].
  destruct (memblock_add_range_ok (reserved mb) lr x size NONE Hres Hsep Hx0 Hsize Hxs)
    as [(t' & -> & Hh & Ht)|(-> & Hfull)]; mstep; cbn [is_ok].
  - right. exists [], r, ls, x, t'. repeat split; try done. unfold attempt. now rewrite Hlt.
  - apply Hnext; [|now right]. destruct mb; done.
Qed.
End FindInRange.

(** ** The allocator's contract

    [mb] holds the memory regions [lm] and the reserved regions [lr]. *)
Record represents (mb : Memblock) (lm lr : list MemblockRegion) : Prop := {
  rep_memory : holds (memory mb) lm;
  rep_memory_sep : separated (-1) lm;
  rep_reserved : holds (reserved mb) lr;
  rep_reserved_sep : separated (-1) lr
}.

(** [c] can be handed out for [size] bytes aligned to [2^k] inside [start, end_): the
    block lies in one memory region and clear of all the reserved ones. *)
Definition fits (lm lr : list MemblockRegion) (size k start end_ c : Z) : Prop :=
  Exists (fun r => fits_between lr size k (Z.max (rbase r) start) (Z.min (rend r) end_) c) lm.

Lemma reserve_represents mb lm lr t' x size fl :
  represents mb lm lr -> 0 <= x -> 0 < size -> x + size < u64_size ->
  holds t' (add_list lr x (x + size) fl) ->
  represents (with_reserved mb t') lm (add_list lr x (x + size) fl) /\
  forall a, covers (add_list lr x (x + size) fl) a <-> covers lr a \/ x <= a < x + size.
Proof.
  intros [] Hx Hs Hu Ht. destruct (add_list_spec (-1) lr x (x + size) fl) as [H1 H2]; try done; try lia.
Qed.

Lemma attempt_top_down mb lm lr size k start end_ r :
  represents mb lm lr -> r ∈ lm -> 0 < size -> in_u64 size -> 0 <= k < 64 -> 0 <= start -> in_u64 end_ ->
  exists o, attempt find_free_area_top_down mb size (2 ^ k) start end_ r o /\
    match o with
    | Some x => (0 <= x /\ x + size < u64_size) /\ Z.max (rbase r) start <= x /\
        (0 < x -> fits_between lr size k (Z.max (rbase r) start) (Z.min (rend r) end_) x) /\
        forall y, fits_between lr size k (Z.max (rbase r) start) (Z.min (rend r) end_) y -> y <= x
    | None => forall y, ~ fits_between lr size k (Z.max (rbase r) start) (Z.min (rend r) end_) y
    end.
Proof.
  intros [Hm Hms (junk & Ha & _) Hrs] Hin Hs Hsu Hk Hst He. unfold attempt.
  destruct (separated_above _ _ r Hms Hin) as [_ Hr]. unfold region_ok in Hr.
  destruct (Z.leb_spec (Z.min (rend r) end_) (Z.max (rbase r) start)).
  - exists None. split; [done|]. intros y Hy. unfold fits_between in Hy. lia.
  - destruct (find_free_area_top_down_ok mb lr junk size k Ha (separated_ok _ _ Hrs) Hs Hk
      (Z.max (rbase r) start) (Z.min (rend r) end_)) as (o & Ho & Hspec);
      [lia|unfold in_u64 in *; lia|done|].
    exists o. split; [done|]. destruct o as [x|]; [|done].
    destruct Hspec as (? & ? & ? & ? & ? & ?). unfold in_u64 in *.
    repeat split; try done; try lia.
Qed.

Lemma attempt_det find mb size align start end_ r o o' :
  attempt find mb size align start end_ r o -> attempt find mb size align start end_ r o' -> o = o'.
Proof. unfold attempt. destruct (_ <=? _); congruence. Qed.

Lemma separated_split_above lo l1 r l2 s :
  separated lo (l1 ++ r :: l2) -> s ∈ l1 -> rend s < rbase r.
Proof.
  revert lo. induction l1 as [|y l1 IH]; intros lo Hs Hin; [by apply elem_of_nil in Hin|].
  simpl in Hs. destruct Hs as (_ & _ & Hs). apply elem_of_cons in Hin as [->|Hin]; [|eauto].
  apply (separated_above _ _ r Hs). apply elem_of_app. right. left.
Qed.

(** The outcome of a search through the memory regions in the order [ls], while the
    reserved array has room: the first region in which the inner search succeeds. *)
Lemma find_outcome find mb lm lr size k start end_ idxs ls (P : MemblockRegion -> Z -> Prop) :
  let fb r := fits_between lr size k (Z.max (rbase r) start) (Z.min (rend r) end_) in
  represents mb lm lr -> cnt (reserved mb) < tmax (reserved mb) -> 0 < size ->
  Forall2 (fun i r => vec_get (regions (memory mb)) i = Ret r) idxs ls ->
  (forall r, r ∈ ls -> r ∈ lm) ->
  (forall r, r ∈ lm -> exists o, attempt find mb size (2 ^ k) start end_ r o /\
     match o with
     | Some x => (0 <= x /\ x + size < u64_size) /\ P r x
     | None => forall y, ~ fb r y
     end) ->
  (find_in_range_loop find mb size (2 ^ k) start end_ idxs = Ret (0, mb) /\
   forall r y, r ∈ ls -> ~ fb r y) \/
  (exists ls1 r ls2 x mb' lr', ls = ls1 ++ r :: ls2 /\ (forall s y, s ∈ ls1 -> ~ fb s y) /\ P r x /\ 0 <= x /\
     find_in_range_loop find mb size (2 ^ k) start end_ idxs = Ret (x, mb') /\ memory mb' = memory mb /\
     represents mb' lm lr' /\ forall a, covers lr' a <-> covers lr a \/ x <= a < x + size).
Proof.
  intros fb Hrep Hroom Hs Hidx Hsub Hatt. pose proof Hrep as [_ Hms Hres Hrs].
  assert (Hnofull : ~ full mb lr).
  { destruct Hres as (jr & Har & _). unfold full. rewrite <- (arr_cnt _ _ _ Har). lia. }
  assert (Hnone : forall s, s ∈ lm -> attempt find mb size (2 ^ k) start end_ s None \/ full mb lr ->
    forall c, ~ fb s c).
  { intros s Hin [Hn|Hf]; [|done]. destruct (Hatt s Hin) as (o & Ho & Hspec).
    now rewrite (attempt_det _ _ _ _ _ _ _ _ _ Ho Hn) in Hspec. }
  destruct (find_in_range_loop_ok find mb lr size (2 ^ k) start end_ Hres Hrs Hs idxs ls Hidx)
    as [[-> Hall]|(ls1 & r & ls2 & x & t' & -> & Hall & Hx & Hx0 & Hxs & -> & Hh & Ht)].
  - apply Forall_forall. intros r Hr. apply (separated_above _ _ r Hms), Hsub, Hr.
  - apply Forall_forall. intros r Hr. destruct (Hatt r (Hsub r Hr)) as (o & Ho & Hspec).
    exists o. split; [done|]. intros x ->. apply Hspec.
  - left. split; [done|]. intros r y Hr. apply Hnone; [auto|]. now apply (proj1 (Forall_forall _ _) Hall).
  - right. exists ls1, r, ls2, x. destruct (Hatt r) as (o & Ho & Hspec); [apply Hsub, elem_of_app; right; left|].
    rewrite (attempt_det _ _ _ _ _ _ _ _ _ Ho Hx) in Hspec.
    destruct (reserve_represents mb lm lr t' x size NONE Hrep) as [H1 H2]; try done.
    exists (with_reserved mb t'), (add_list lr x (x + size) NONE).
    split; [done|]. split; [|split; [apply Hspec|done]].
    intros s y Hin. apply Hnone; [apply Hsub, elem_of_app; by left|].
    now apply (proj1 (Forall_forall _ _) Hall).
Qed.

Lemma memblock_init_represents mb :
  0 <= tmax (memory mb) <= Z.of_nat (length (regions (memory mb))) ->
  0 <= tmax (reserved mb) <= Z.of_nat (length (regions (reserved mb))) ->
  represents (memblock_init mb) [] [].
Proof.
  intros H1 H2. split; try done; [exists (regions (memory mb))|exists (regions (reserved mb))];
    (split; [done|simpl; lia]).
Qed.

(** The running total never wraps: separated regions fit into the address space. *)
Lemma holds_total t l : holds t l -> separated (-1) l -> total_size t = sum_sizes l.
Proof.
  intros (junk & Ha & _) Hs. rewrite (arr_total _ _ _ Ha). apply Z.mod_small.
  destruct l as [|r l]; [unfold sum_sizes; simpl; lia|]. destruct Hs as (H1 & H2 & H3).
  apply separated_sum in H3; unfold region_ok, rend, sum_sizes in *; simpl; lia.
Qed.

(** Adding a range to a list of regions never panics.  An empty range changes nothing,
    a range that leaves the address space is refused, and otherwise the regions stay
    sorted, disjoint and merged, cover exactly the union of the old addresses and the
    new range, and [total_size] is the exact sum of their sizes; [NoMemory] means that
    the array is full, and leaves it untouched. *)
Theorem memblock_add_range_is_union t l base size flags :
  holds t l -> separated (-1) l -> in_u64 base -> in_u64 size ->
  (exists t' l', memblock_add_range t base size flags = Ret (Ok tt, t') /\
     holds t' l' /\ separated (-1) l' /\ tmax t' = tmax t /\
     (forall a, covers l' a <-> covers l a \/ base <= a < base + size) /\
     total_size t' = sum_sizes l') \/
  (memblock_add_range t base size flags = Ret (Err NoMemory, t) /\ cnt t = tmax t) \/
  (memblock_add_range t base size flags = Ret (Err InvalidAddress, t) /\ u64_size <= base + size).
Proof.
  intros Hh Hs Hb Hsz. unfold in_u64 in *.
  destruct (Z.eq_dec size 0) as [->|Hne].
  { left. exists t, l. repeat split; auto using holds_total. intros [?|?]; [done|lia]. }
  destruct (Z.le_gt_cases u64_size (base + size)).
  { right; right. split; [|done]. unfold memblock_add_range, checked_add64.
    destruct (Z.eqb_spec size 0); [done|]. destruct (Z.ltb_spec (base + size) u64_size); [lia|done]. }
  destruct (memblock_add_range_ok t l base size flags) as [(t' & -> & Hh' & Hx)|(-> & Hfull)]; try lia; try done.
  - left. destruct (add_list_spec (-1) l base (base + size) flags) as [H1 H2]; try done; try lia.
    exists t', (add_list l base (base + size) flags). repeat split; auto using holds_total; apply H2.
  - right; left. split; [done|]. destruct Hh as (junk & Ha & _). rewrite <- Hfull. apply Ha.
Qed.

(** A small list of regions for the witnesses. *)
Definition ex_regions : list MemblockRegion :=
  [mkRegion 4096 4096 NONE; mkRegion 20480 4096 NONE].
Definition ex_type : MemblockType :=
  mkType 2 4 8192 (ex_regions ++ [empty_region; empty_region]).

Lemma ex_type_holds : holds ex_type ex_regions.
Proof. exists [empty_region; empty_region]. split; [split; reflexivity|]. simpl. lia. Qed.

Lemma ex_regions_separated : separated (-1) ex_regions.
Proof. unfold region_ok, rend. simpl. unfold region_ok, rend. simpl. lia. Qed.

Lemma memblock_add_range_is_union_witness :
  exists t' l', memblock_add_range ex_type 8192 4096 NONE = Ret (Ok tt, t') /\
    cnt t' = 2 /\ (forall a, covers l' a <-> covers ex_regions a \/ 8192 <= a < 8192 + 4096) /\
    total_size t' = sum_sizes l'.
Proof.
  destruct (memblock_add_range_is_union ex_type ex_regions 8192 4096 NONE
    ex_type_holds ex_regions_separated ltac:(unfold in_u64; lia) ltac:(unfold in_u64; lia))
    as [(t' & l' & H1 & _ & _ & _ & H2 & H3)|[[H _]|[H _]]].
  - exists t', l'. vm_compute in H1. injection H1 as <-. repeat split; try apply H2; done.
  - vm_compute in H. discriminate.
  - vm_compute in H. discriminate.
Defined.

Lemma memblock_remove_range_ok t l b size :
  holds t l -> separated (-1) l -> 0 <= b -> 0 < size -> b + size < u64_size ->
  (exists t', memblock_remove_range t b size = Ret (Ok tt, t') /\
     holds t' (remove_list l b (b + size)) /\ tmax t' = tmax t) \/
  (memblock_remove_range t b size = Ret (Err NoMemory, t) /\
     cnt t = tmax t /\ Exists (pierces b (b + size)) l).
Proof.
  intros (junk & Ha & Hle) Hs Hb Hsz He. unfold memblock_remove_range.
  destruct (Z.eqb_spec size 0); [lia|]. rewrite add64_small by lia.
  rewrite <- (arr_regions _ _ _ Ha) in Hle.
  apply (remove_loop_ok _ t [] l junk (-1)); try done. rewrite (arr_cnt _ _ _ Ha). lia.
Qed.

(** Removing a range never panics and ends: the regions left are sorted and disjoint
    and cover exactly the old addresses outside the range, with [total_size] their exact
    sum.  [NoMemory] is returned only when the range lies strictly inside one region of
    a full array, which is then left unchanged. *)
Theorem memblock_remove_range_is_difference t l base size :
  holds t l -> separated (-1) l -> 0 <= base -> 0 <= size -> base + size < u64_size ->
  (exists t' l', memblock_remove_range t base size = Ret (Ok tt, t') /\
     holds t' l' /\ separated (-1) l' /\ tmax t' = tmax t /\
     (forall a, covers l' a <-> covers l a /\ ~ base <= a < base + size) /\
     total_size t' = sum_sizes l') \/
  (memblock_remove_range t base size = Ret (Err NoMemory, t) /\ cnt t = tmax t /\
     Exists (fun r => rbase r < base /\ base + size < rend r) l).
Proof.
  intros Hh Hs Hb Hsz He. destruct (Z.eq_dec size 0) as [->|Hne].
  { left. exists t, l. repeat split; auto using holds_total; try tauto. lia. }
  destruct (memblock_remove_range_ok t l base size) as [(t' & -> & Hh' & Hx)|(-> & Hfull & Hp)];
    try done; try lia; [left|now right].
  destruct (remove_list_spec (-1) l base (base + size)) as [H1 H2]; [done|lia|].
  exists t', (remove_list l base (base + size)). repeat split; auto using holds_total; apply H2; tauto.
Qed.

Lemma memblock_remove_range_is_difference_witness :
  exists t' l', memblock_remove_range ex_type 5000 16000 = Ret (Ok tt, t') /\
    cnt t' = 2 /\ (forall a, covers l' a <-> covers ex_regions a /\ ~ 5000 <= a < 5000 + 16000) /\
    total_size t' = sum_sizes l'.
Proof.
  destruct (memblock_remove_range_is_difference ex_type ex_regions 5000 16000
    ex_type_holds ex_regions_separated ltac:(lia) ltac:(lia) ltac:(lia))
    as [(t' & l' & H1 & _ & _ & _ & H2 & H3)|[H _]].
  - exists t', l'. vm_compute in H1. injection H1 as <-. repeat split; try apply H2; done.
  - vm_compute in H. discriminate.
Defined.

(** Top-down allocation ends without a panic and leaves the memory list alone.  While
    the reserved array has room, it answers 0 only if no non-zero address fits; any other
    answer is the highest address that fits: aligned, inside one memory region and the
    requested window, clear of everything reserved before, and reserved afterwards,
    with nothing else reserved. *)
Theorem memblock_alloc_range_top_down_highest_fit mb lm lr size k start end_ :
  represents mb lm lr -> bottom_up mb = false -> cnt (reserved mb) < tmax (reserved mb) ->
  0 < size -> in_u64 size -> 0 <= k < 64 -> 0 <= start -> in_u64 end_ ->
  exists addr mb', memblock_alloc_range mb size (2 ^ k) start end_ = Ret (addr, mb') /\
    memory mb' = memory mb /\
    (addr = 0 -> forall c, ~ fits lm lr size k start end_ c) /\
    (addr <> 0 -> fits lm lr size k start end_ addr /\
       (forall c, fits lm lr size k start end_ c -> c <= addr) /\
       exists lr', represents mb' lm lr' /\
         forall a, covers lr' a <-> covers lr a \/ addr <= a < addr + size).
Proof.
  intros Hrep Hbu Hroom Hs Hsu Hk Hst He. pose proof Hrep as [(jm & Ham & _) Hms Hres Hrs].
  unfold memblock_alloc_range, memblock_find_in_range_top_down. rewrite Hbu.
  destruct (Z.eqb_spec size 0); [lia|]. destruct (Z.eqb_spec (2 ^ k) 0); [lia|].
  destruct (find_outcome find_free_area_top_down mb lm lr size k start end_
    (reverse (zrange 0 (cnt (memory mb)))) (reverse lm) (fun r x => Z.max (rbase r) start <= x /\
      (0 < x -> fits_between lr size k (Z.max (rbase r) start) (Z.min (rend r) end_) x) /\
      forall y, fits_between lr size k (Z.max (rbase r) start) (Z.min (rend r) end_) y -> y <= x))
    as [[-> Hall]|(ls1 & r & ls2 & x & mb' & lr' & Hsplit & Hall & (Hlow & Hfit & Hgr) & Hx0 & -> & Hmem & Hrep' & Hcov)];
    try done.
  - apply Forall2_reverse, (arr_get_all _ [] lm jm Ham).
  - intros r Hr. now apply elem_of_reverse.
  - intros r Hr. now apply (attempt_top_down mb lm lr).
  - exists 0, mb. split; [done|]. split; [done|]. split; [|done]. intros _ c Hc.
    apply Exists_exists in Hc as (r & Hin & Hc). apply (Hall r c); [now apply elem_of_reverse|done].
  - assert (Hlm : lm = reverse ls2 ++ r :: reverse ls1).
    { rewrite <- (reverse_involutive lm), Hsplit, reverse_app, reverse_cons. list_norm. done. }
    assert (Hmax : forall c, fits lm lr size k start end_ c -> c <= x).
    { intros c Hc. rewrite Hlm in Hc, Hms. apply Exists_app in Hc as [Hc|Hc].
      - apply Exists_exists in Hc as (s & Hs' & Hc).
        pose proof (separated_split_above _ _ _ _ s Hms Hs'). unfold fits_between in Hc. lia.
      - apply Exists_cons in Hc as [Hc|Hc]; [now apply Hgr|]. exfalso.
        apply Exists_exists in Hc as (s & Hs' & Hc). rewrite elem_of_reverse in Hs'.
        exact (Hall s c Hs' Hc). }
    exists x, mb'. split; [done|]. split; [done|]. split.
    + intros -> c Hc. pose proof (Hmax c Hc). apply Exists_exists in Hc as (s & _ & Hc).
      unfold fits_between in Hc. lia.
    + intros Hne. split; [|split; [done|by exists lr']]. rewrite Hlm. apply Exists_app. right.
      apply Exists_cons_hd, Hfit. lia.
Qed.

(** 64 KiB of memory at 4096, of which [ex_regions] is reserved. *)
Definition ex_memblock : Memblock :=
  mkMemblock false U64_MAX
    (mkType 1 4 65536 (mkRegion 4096 65536 NONE :: replicate 3 empty_region)) ex_type.

Lemma ex_memblock_represents : represents ex_memblock [mkRegion 4096 65536 NONE] ex_regions.
Proof.
  split; [|unfold region_ok, rend; simpl; unfold region_ok, rend; simpl; lia
          |apply ex_type_holds|apply ex_regions_separated].
  exists (replicate 3 empty_region). split; [split; reflexivity|]. simpl. lia.
Qed.

Lemma memblock_alloc_range_top_down_highest_fit_witness :
  exists mb', memblock_alloc_range ex_memblock 8192 (2 ^ 12) 0 30000 = Ret (12288, mb') /\
    fits [mkRegion 4096 65536 NONE] ex_regions 8192 12 0 30000 12288 /\
    forall c, fits [mkRegion 4096 65536 NONE] ex_regions 8192 12 0 30000 c -> c <= 12288.
Proof.
  destruct (memblock_alloc_range_top_down_highest_fit ex_memblock [mkRegion 4096 65536 NONE] ex_regions
    8192 12 0 30000 ex_memblock_represents eq_refl ltac:(simpl; lia) ltac:(lia)
    ltac:(unfold in_u64; lia) ltac:(lia) ltac:(lia) ltac:(unfold in_u64; lia))
    as (addr & mb' & Hrun & _ & _ & Hok).
  exists mb'. vm_compute in Hrun. injection Hrun as <- <-.
  destruct (Hok ltac:(lia)) as (H1 & H2 & _). split; [vm_compute; reflexivity|]. split; assumption.
Defined.

Lemma attempt_bottom_up mb lm lr size k start end_ m r :
  represents mb lm lr -> r ∈ lm -> 0 < size -> 0 <= k < 64 -> 0 <= start -> in_u64 end_ ->
  Forall (fun r => rend r <= m) lr -> Forall (fun r => rend r <= m) lm ->
  m + 2 ^ k + size < u64_size ->
  exists o, attempt find_free_area_bottom_up mb size (2 ^ k) start end_ r o /\
    match o with
    | Some x => (0 <= x /\ x + size < u64_size) /\ x + size <= rend r /\
        (0 < x -> fits_between lr size k (Z.max (rbase r) start) (Z.min (rend r) end_) x) /\
        forall y, fits_between lr size k (Z.max (rbase r) start) (Z.min (rend r) end_) y -> x <= y
    | None => forall y, ~ fits_between lr size k (Z.max (rbase r) start) (Z.min (rend r) end_) y
    end.
Proof.
  intros [Hm Hms (junk & Ha & _) Hrs] Hin Hs Hk Hst He Hbr Hbm Hmk. unfold attempt.
  destruct (separated_above _ _ r Hms Hin) as [_ Hr]. unfold region_ok in Hr.
  pose proof (proj1 (Forall_forall _ _) Hbm r Hin) as Hrm. cbv beta in Hrm.
  destruct (Z.leb_spec (Z.min (rend r) end_) (Z.max (rbase r) start)).
  - exists None. split; [done|]. intros y Hy. unfold fits_between in Hy. lia.
  - destruct (find_free_area_bottom_up_ok mb lr junk size k Ha (separated_ok _ _ Hrs) Hs Hk
      (Z.max (rbase r) start) (Z.min (rend r) end_) m) as (o & Ho & Hspec);
      [done|unfold in_u64 in *; lia|lia|lia|].
    exists o. split; [done|]. destruct o as [x|]; [|done].
    destruct Hspec as (? & ? & ? & ? & ?). repeat split; try done; try lia.
Qed.

(** Bottom-up allocation ends without a panic and leaves the memory list alone.  While
    the reserved array has room and no address is so high that rounding it up and
    adding the size would leave the 64-bit space, a non-zero answer is the lowest address
    that fits, reserved afterwards with nothing else; the answer 0 means that nothing
    fits, or that the block at physical address 0 itself was free and is now reserved. *)
Theorem memblock_alloc_range_bottom_up_lowest_fit mb lm lr size k start end_ m :
  represents mb lm lr -> bottom_up mb = true -> cnt (reserved mb) < tmax (reserved mb) ->
  0 < size -> 0 <= k < 64 -> 0 <= start -> in_u64 end_ ->
  Forall (fun r => rend r <= m) lr -> Forall (fun r => rend r <= m) lm ->
  m + 2 ^ k + size < u64_size ->
  exists addr mb', memblock_alloc_range mb size (2 ^ k) start end_ = Ret (addr, mb') /\
    memory mb' = memory mb /\
    (addr = 0 -> (mb' = mb /\ forall c, ~ fits lm lr size k start end_ c) \/
       exists lr', represents mb' lm lr' /\
         forall a, covers lr' a <-> covers lr a \/ 0 <= a < size) /\
    (addr <> 0 -> fits lm lr size k start end_ addr /\
       (forall c, fits lm lr size k start end_ c -> addr <= c) /\
       exists lr', represents mb' lm lr' /\
         forall a, covers lr' a <-> covers lr a \/ addr <= a < addr + size).
Proof.
  intros Hrep Hbu Hroom Hs Hk Hst He Hbr Hbm Hmk. pose proof Hrep as [(jm & Ham & _) Hms Hres Hrs].
  unfold memblock_alloc_range, memblock_find_in_range_bottom_up. rewrite Hbu.
  destruct (Z.eqb_spec size 0); [lia|]. destruct (Z.eqb_spec (2 ^ k) 0); [lia|].
  destruct (find_outcome find_free_area_bottom_up mb lm lr size k start end_
    (zrange 0 (cnt (memory mb))) lm (fun r x => x + size <= rend r /\
      (0 < x -> fits_between lr size k (Z.max (rbase r) start) (Z.min (rend r) end_) x) /\
      forall y, fits_between lr size k (Z.max (rbase r) start) (Z.min (rend r) end_) y -> x <= y))
    as [[-> Hall]|(ls1 & r & ls2 & x & mb' & lr' & Hlm & Hall & (Hhi & Hfit & Hgr) & Hx0 & -> & Hmem & Hrep' & Hcov)];
    try done.
  - apply (arr_get_all _ [] lm jm Ham).
  - intros r Hr. now apply (attempt_bottom_up mb lm lr _ _ _ _ m).
  - exists 0, mb. split; [done|]. split; [done|]. split; [|done]. intros _. left. split; [done|]. intros c Hc.
    apply Exists_exists in Hc as (r & Hin & Hc). now apply (Hall r c).
  - exists x, mb'. split; [done|]. split; [done|]. split.
    + intros ->. right. by exists lr'.
    + intros Hne. split; [rewrite Hlm; apply Exists_app; right; apply Exists_cons_hd, Hfit; lia|].
      split; [|by exists lr']. intros c Hc. rewrite Hlm in Hc, Hms. apply Exists_app in Hc as [Hc|Hc].
      * exfalso. apply Exists_exists in Hc as (s & Hs' & Hc). exact (Hall s c Hs' Hc).
      * apply Exists_cons in Hc as [Hc|Hc]; [now apply Hgr|].
        apply Exists_exists in Hc as (s & Hs' & Hc). apply separated_app in Hms as [_ Hms].
        apply (separated_above _ _ s Hms) in Hs'. unfold fits_between in Hc. lia.
Qed.

Lemma memblock_alloc_range_bottom_up_lowest_fit_witness :
  exists mb', memblock_alloc_range (memblock_set_bottom_up ex_memblock true) 8192 (2 ^ 12) 0 30000
      = Ret (8192, mb') /\
    fits [mkRegion 4096 65536 NONE] ex_regions 8192 12 0 30000 8192 /\
    forall c, fits [mkRegion 4096 65536 NONE] ex_regions 8192 12 0 30000 c -> 8192 <= c.
Proof.
  assert (Hrep : represents (memblock_set_bottom_up ex_memblock true) [mkRegion 4096 65536 NONE] ex_regions)
    by (destruct ex_memblock_represents; split; assumption).
  destruct (memblock_alloc_range_bottom_up_lowest_fit _ [mkRegion 4096 65536 NONE] ex_regions
    8192 12 0 30000 100000 Hrep eq_refl ltac:(simpl; lia) ltac:(lia) ltac:(lia) ltac:(lia)
    ltac:(unfold in_u64; lia) ltac:(repeat constructor; unfold rend; simpl; lia)
    ltac:(repeat constructor; unfold rend; simpl; lia) ltac:(lia))
    as (addr & mb' & Hrun & _ & _ & Hok).
  exists mb'. vm_compute in Hrun. injection Hrun as <- <-.
  destruct (Hok ltac:(lia)) as (H1 & H2 & _). split; [vm_compute; reflexivity|]. split; assumption.
Defined.

(** ** Enumerating the free memory *)
Definition record_region (st : list (Z * Z)) (base size : Z) : bool * list (Z * Z) :=
  (true, st ++ [(base, size)]).

Definition spans (out : list (Z * Z)) (a : Z) : Prop :=
  Exists (fun p => p.1 <= a < p.1 + p.2) out.

Lemma spans_app o1 o2 a : spans (o1 ++ o2) a <-> spans o1 a \/ spans o2 a.
Proof. apply Exists_app. Qed.
Lemma spans_single b s a : spans [(b, s)] a <-> b <= a < b + s.
Proof. unfold spans. rewrite Exists_cons, Exists_nil. simpl. tauto. Qed.
Lemma spans_nil a : spans [] a <-> False.
Proof. apply Exists_nil. Qed.

Lemma covers_above lo l a : separated lo l -> covers l a -> lo < a.
Proof.
  intros Hs Hc. apply Exists_exists in Hc as (r & Hin & Hr).
  apply (separated_above _ _ r Hs) in Hin. lia.
Qed.

(** The free pieces of a memory region from [c] to [e], and where the walk stops. *)
Fixpoint gaps (l : list MemblockRegion) (e c : Z) : list (Z * Z) * Z :=
  match l with
  | [] => ([], c)
  | r :: l' =>
      if e <=? rbase r then ([], c)
      else if rend r <=? c then gaps l' e c
      else ((if c <? rbase r then [(c, rbase r - c)] else []) ++ (gaps l' e (rend r)).1,
            (gaps l' e (rend r)).2)
  end.

Lemma free_regions_inner_ok t l1 l2 junk mem_end c st :
  arr t (l1 ++ l2) junk -> Forall region_ok l2 -> in_u64 mem_end -> in_u64 c ->
  free_regions_inner record_region t mem_end c st (zrange (Z.of_nat (length l1)) (cnt t)) =
  Ret (true, st ++ (gaps l2 mem_end c).1, (gaps l2 mem_end c).2).
Proof.
  intros [Hreg Hcnt _] Hok He. revert l1 c st Hreg Hcnt. unfold in_u64 in *.
  induction Hok as [|r l2 Hr Hok IH]; intros l1 c st Hreg Hcnt Hc; rewrite length_app in Hcnt.
  - rewrite zrange_empty by (simpl in Hcnt; lia). simpl. now rewrite app_nil_r.
  - cbn [length] in Hcnt. rewrite zrange_cons by lia. cbn [free_regions_inner gaps].
    assert (vec_get (regions t) (Z.of_nat (length l1)) = Ret r) as ->
      by (rewrite Hreg; list_norm; now apply vec_get_middle). mstep.
    rewrite region_is_empty_ok, region_end_ok by done. unfold region_ok in Hr.
    assert (Hnext : forall c st, 0 <= c < u64_size ->
      free_regions_inner record_region t mem_end c st (zrange (Z.of_nat (length l1) + 1) (cnt t)) =
      Ret (true, st ++ (gaps l2 mem_end c).1, (gaps l2 mem_end c).2)).
    { intros c' st' Hc'. rewrite <- (len_snoc l1 r).
      apply IH; [rewrite Hreg; list_norm; done|list_norm; len_lia|done]. }
    destruct (Z.leb_spec mem_end (rbase r)); [simpl; now rewrite app_nil_r|].
    destruct (Z.leb_spec (rend r) c); [now apply Hnext|]. rewrite Z.max_r by lia.
    destruct (Z.ltb_spec c (rbase r)); cbn [record_region app fst snd].
    + rewrite Hnext by (unfold rend in *; lia). rewrite Z.min_l, sub64_small by lia. list_norm. done.
    + now rewrite Hnext by (unfold rend in *; lia).
Qed.

Lemma gaps_spec lo l e c :
  separated lo l ->
  c <= (gaps l e c).2 /\ Forall (fun p => 0 < p.2) (gaps l e c).1 /\
  (forall a, spans (gaps l e c).1 a <-> c <= a < Z.min (gaps l e c).2 e /\ ~ covers l a) /\
  (forall a, (gaps l e c).2 <= a < e -> ~ covers l a).
Proof.
  revert lo c. induction l as [|r l IH]; intros lo c Hs; cbn [gaps].
  - simpl. split; [lia|]. split; [constructor|]. split; intros a; rewrite ?spans_nil, ?covers_nil; lia.
  - destruct Hs as (Hlo & Hr & Hs). unfold region_ok in Hr.
    pose proof (fun a => covers_above _ _ a Hs) as Habove.
    destruct (Z.leb_spec e (rbase r)).
    { simpl. split; [lia|]. split; [constructor|].
      split; intros a; rewrite ?spans_nil, covers_cons; [lia|]. intros ? [?|Hc]; [lia|].
      apply Habove in Hc. unfold rend in *. lia. }
    destruct (Z.leb_spec (rend r) c).
    { destruct (IH (rend r) c Hs) as (H1 & H2 & H3 & H4). split; [done|]. split; [done|].
      split; intros a; rewrite covers_cons; [rewrite H3|intros Ha; specialize (H4 a Ha)];
        intuition lia. }
    destruct (IH (rend r) (rend r) Hs) as (H1 & H2 & H3 & H4). cbn [fst snd].
    split; [lia|]. split; [apply Forall_app; split; [|done]; destruct (Z.ltb_spec c (rbase r));
      repeat constructor; simpl; lia|].
    assert (Hfront : forall a, spans (if c <? rbase r then [(c, rbase r - c)] else []) a <-> c <= a < rbase r)
      by (intros a; destruct (Z.ltb_spec c (rbase r)); rewrite ?spans_single, ?spans_nil; lia).
    split; intros a; rewrite covers_cons.
    + specialize (Habove a). rewrite spans_app, Hfront, H3. unfold rend in *.
      destruct (Z.lt_ge_cases a (rbase r + rsize r)); intuition lia.
    + intros Ha. specialize (H4 a Ha). intuition lia.
Qed.

Lemma free_regions_outer_ok mb lm lr idxs st :
  represents mb lm lr ->
  Forall2 (fun i r => vec_get (regions (memory mb)) i = Ret r) idxs lm ->
  exists out, free_regions_outer record_region mb st idxs = Ret (st ++ out) /\
    Forall (fun p => 0 < p.2) out /\ forall a, spans out a <-> covers lm a /\ ~ covers lr a.
Proof.
  intros [_ Hms (junk & Har & _) Hrs] Hidx. apply separated_ok in Hms.
  revert st. induction Hidx as [|i r idxs lm Hget Hidx IH]; intros st.
  - exists []. rewrite app_nil_r. split; [done|]. split; [constructor|]. intros a.
    rewrite spans_nil, covers_nil. tauto.
  - apply Forall_cons in Hms as [Hr Hms]. specialize (IH Hms). cbn [free_regions_outer]. rewrite Hget. mstep.
    rewrite region_is_empty_ok, region_end_ok by done. unfold region_ok in Hr.
    pose proof (free_regions_inner_ok (reserved mb) [] lr junk (rend r) (rbase r) st Har
      (separated_ok _ _ Hrs) ltac:(unfold in_u64, rend in *; lia) ltac:(unfold in_u64, rend in *; lia)) as Hin.
    cbn [length] in Hin. change (Z.of_nat 0) with 0 in Hin. rewrite Hin. mstep.
    destruct (gaps_spec (-1) lr (rend r) (rbase r) Hrs) as (H1 & H2 & H3 & H4).
    destruct (gaps lr (rend r) (rbase r)) as [g c]. cbn [fst snd] in *.
    set (last := if c <? rend r then [(c, rend r - c)] else []).
    assert (Hlast : forall a, spans last a <-> c <= a < rend r)
      by (intros a; unfold last; destruct (Z.ltb_spec c (rend r)); rewrite ?spans_single, ?spans_nil; lia).
    destruct (IH (st ++ g ++ last)) as (out & Hout & Hpos & Hsp). exists (g ++ last ++ out).
    split; [|split].
    + unfold last in *. destruct (Z.ltb_spec c (rend r)); cbn [record_region];
        list_norm_in Hout; list_norm; [rewrite sub64_small by (unfold rend in *; lia)|]; rewrite ?app_nil_r in *; done.
    + apply Forall_app; split; [done|]. apply Forall_app; split; [|done]. unfold last.
      destruct (Z.ltb_spec c (rend r)); repeat constructor. simpl. lia.
    + intros a. rewrite !spans_app, Hlast, H3, Hsp, covers_cons. specialize (H4 a).
      destruct (Z.lt_ge_cases a c); intuition lia.
Qed.

(** Enumerating the free memory with a callback that records every call yields
    non-empty ranges that together cover exactly the addresses of memory that are not
    reserved: boot code that hands these ranges to the page allocator gives away all
    free memory and nothing else. *)
Theorem for_each_free_region_is_memory_minus_reserved mb lm lr :
  represents mb lm lr ->
  exists out, memblock_for_each_free_region record_region mb [] = Ret out /\
    Forall (fun p => 0 < p.2) out /\
    forall a, spans out a <-> covers lm a /\ ~ covers lr a.
Proof.
  intros Hrep. pose proof Hrep as [(jm & Ham & _) _ _ _].
  exact (free_regions_outer_ok mb lm lr _ [] Hrep (arr_get_all _ [] lm jm Ham)).
Qed.

Lemma for_each_free_region_is_memory_minus_reserved_witness :
  memblock_for_each_free_region record_region ex_memblock [] =
    Ret [(8192, 12288); (24576, 45056)] /\
  forall a, spans [(8192, 12288); (24576, 45056)] a <->
    covers [mkRegion 4096 65536 NONE] a /\ ~ covers ex_regions a.
Proof.
  destruct (for_each_free_region_is_memory_minus_reserved _ _ _ ex_memblock_represents)
    as (out & H1 & _ & H2). vm_compute in H1. injection H1 as <-.
  split; [reflexivity|exact H2].
Defined.

(** A request larger than the memory below the window's end: the candidate saturates to
    0, and the block [0, size), which no memory region contains, is reserved. *)
Example oversized_request_reserves_address_zero :
  let mb := mkMemblock false U64_MAX (mkType 1 4 4096 (mkRegion 0 4096 NONE :: replicate 3 empty_region))
              (new_type MEMBLOCK_RESERVED_MAX) in
  exists mb', memblock_alloc mb 65536 16 = Ret (0, mb') /\
    cnt (reserved mb') = 1 /\ total_size (reserved mb') = 65536.
Proof. eexists. split; [vm_compute; reflexivity|]. split; reflexivity. Qed.

(** A range whose end wraps around is refused when it is added, but answered with [Ok]
    when it is freed, without releasing anything. *)
Example wrapped_free_is_not_refused :
  let t := mkType 1 4 65536 (mkRegion 4096 65536 NONE :: replicate 3 empty_region) in
  memblock_remove_range t (U64_MAX - 4095) 16384 = Ret (Ok tt, t) /\
  memblock_add_range t (U64_MAX - 4095) 16384 NONE = Ret (Err InvalidAddress, t).
Proof. split; reflexivity. Qed.
