(* ===== verification/OrdMap.v ===== *)
(** * Ordered maps: the interface between the B-tree and the interval tree

    The contract of kernel/src/libs/btree, as its client kernel/src/libs/mptree uses it:
    a map from [usize] keys to values, seen through the sorted list of its entries.
    [OrdMapOps] are the operations, [OrdMap] their laws.  BTree.v provides the
    instance; MapleTree.v and Vma.v are proved against the class. *)

From S2P Require Import Prelude.

Section Assoc.
Context {V : Type}.

(** ** Sorted association lists *)
Definition below (k : Z) (l : list (Z * V)) : Prop := Forall (fun p => p.1 < k) l.
Definition above (k : Z) (l : list (Z * V)) : Prop := Forall (fun p => k < p.1) l.

Fixpoint sorted (l : list (Z * V)) : Prop :=
  match l with
  | [] => True
  | p :: l' => above p.1 l' /\ sorted l'
  end.

Fixpoint al_lookup (k : Z) (l : list (Z * V)) : option V :=
  match l with
  | [] => None
  | (k', v) :: l' => if k =? k' then Some v else al_lookup k l'
  end.

Fixpoint al_insert (k : Z) (v : V) (l : list (Z * V)) : list (Z * V) :=
  match l with
  | [] => [(k, v)]
  | (k', v') :: l' =>
      if k <? k' then (k, v) :: (k', v') :: l' else (k', v') :: al_insert k v l'
  end.

Definition al_remove (k : Z) (l : list (Z * V)) : list (Z * V) :=
  filter (fun p => p.1 <> k) l.

Definition al_update (k : Z) (f : V -> V) (l : list (Z * V)) : list (Z * V) :=
  map (fun p => if p.1 =? k then (p.1, f p.2) else p) l.

Lemma sorted_app l1 l2 :
  sorted (l1 ++ l2) <-> sorted l1 /\ sorted l2 /\ Forall (fun p => above p.1 l2) l1.
Proof.
  induction l1 as [|p l1 IH]; simpl.
  - split; [intros; repeat split; [done|constructor]|tauto].
  - rewrite IH, Forall_cons. unfold above. rewrite Forall_app. tauto.
Qed.

Lemma sorted_middle l1 p l2 :
  sorted (l1 ++ p :: l2) <-> sorted l1 /\ sorted l2 /\ below p.1 l1 /\ above p.1 l2.
Proof.
  rewrite sorted_app. simpl. split.
  - intros (H1 & (H2 & H3) & H4). repeat split; try done.
    eapply Forall_impl; [exact H4|]. intros x Hx. now apply Forall_cons in Hx as [? _].
  - intros (H1 & H2 & H3 & H4). repeat split; try done.
    eapply Forall_impl; [exact H3|]. intros x Hx. simpl in Hx. constructor; [done|].
    eapply Forall_impl; [exact H4|]. simpl. intros. lia.
Qed.

Lemma below_trans k k' l : k <= k' -> below k l -> below k' l.
Proof. intros Hk H. eapply Forall_impl; [exact H|]. simpl. intros. lia. Qed.
Lemma above_trans k k' l : k' <= k -> above k l -> above k' l.
Proof. intros Hk H. eapply Forall_impl; [exact H|]. simpl. intros. lia. Qed.

Lemma al_lookup_below k l1 l2 : below k l1 -> al_lookup k (l1 ++ l2) = al_lookup k l2.
Proof.
  induction 1 as [|[k' v'] l1 Hp _ IH]; simpl; [done|]. simpl in Hp.
  destruct (Z.eqb_spec k k'); [lia|done].
Qed.
Lemma al_lookup_above k l1 l2 : above k l2 -> al_lookup k (l1 ++ l2) = al_lookup k l1.
Proof.
  intros H. induction l1 as [|[k' v'] l1 IH]; simpl; [|by rewrite IH].
  induction H as [|[k' v'] l2 Hp _ IH]; simpl; [done|]. simpl in Hp.
  destruct (Z.eqb_spec k k'); [lia|done].
Qed.
Lemma al_lookup_here k v l1 l2 : below k l1 -> al_lookup k (l1 ++ (k, v) :: l2) = Some v.
Proof. intros. rewrite al_lookup_below by done. simpl. now rewrite Z.eqb_refl. Qed.

Lemma al_lookup_None k l : al_lookup k l = None <-> Forall (fun p => p.1 <> k) l.
Proof.
  induction l as [|[k' v'] l IH]; simpl; [split; [constructor|done]|].
  rewrite Forall_cons. simpl. destruct (Z.eqb_spec k k'); split; try done.
  - intros [? _]. congruence.
  - intros ?. split; [congruence|tauto].
  - tauto.
Qed.

Lemma al_lookup_elem k v l : sorted l -> (k, v) ∈ l <-> al_lookup k l = Some v.
Proof.
  induction l as [|[k' v'] l IH]; simpl; [split; [inversion 1|done]|]. intros [Ha Hs].
  rewrite elem_of_cons. destruct (Z.eqb_spec k k') as [->|Hne].
  - split; [|intros [= ->]; by left]. intros [[= ->]|Hin]; [done|].
    eapply Forall_forall in Ha; [|exact Hin]. simpl in Ha. lia.
  - rewrite <- IH by done. split; [intros [[=]|?]; [lia|done]|tauto].
Qed.

Lemma al_insert_below k v l1 l2 : below k l1 -> al_insert k v (l1 ++ l2) = l1 ++ al_insert k v l2.
Proof.
  induction 1 as [|[k' v'] l1 Hp _ IH]; simpl; [done|]. simpl in Hp.
  destruct (Z.ltb_spec k k'); [lia|]. now rewrite IH.
Qed.
Lemma al_insert_above k v l1 l2 : above k l2 -> al_insert k v (l1 ++ l2) = al_insert k v l1 ++ l2.
Proof.
  intros H. induction l1 as [|[k' v'] l1 IH]; simpl; [|destruct (k <? k'); [done|by rewrite IH]].
  destruct H as [|[k' v'] l2 Hp _]; [done|]. simpl in *. destruct (Z.ltb_spec k k'); [done|lia].
Qed.

Lemma al_remove_app k l1 l2 : al_remove k (l1 ++ l2) = al_remove k l1 ++ al_remove k l2.
Proof. apply filter_app. Qed.
Lemma al_remove_absent k l : Forall (fun p => p.1 <> k) l -> al_remove k l = l.
Proof.
  induction 1 as [|p l Hp _ IH]; [done|]. unfold al_remove in *. rewrite filter_cons_True by done.
  now rewrite IH.
Qed.
Lemma below_absent k l : below k l -> Forall (fun p => p.1 <> k) l.
Proof. intros H. eapply Forall_impl; [exact H|]. simpl. intros. lia. Qed.
Lemma above_absent k l : above k l -> Forall (fun p => p.1 <> k) l.
Proof. intros H. eapply Forall_impl; [exact H|]. simpl. intros. lia. Qed.
Lemma al_remove_here k v l1 l2 :
  below k l1 -> above k l2 -> al_remove k (l1 ++ (k, v) :: l2) = l1 ++ l2.
Proof.
  intros H1 H2. rewrite al_remove_app, al_remove_absent by now apply below_absent.
  unfold al_remove. rewrite filter_cons_False by (simpl; lia).
  fold (al_remove k l2). now rewrite al_remove_absent by now apply above_absent.
Qed.

Lemma al_remove_sorted k l : sorted l -> sorted (al_remove k l).
Proof.
  induction l as [|p l IH]; [done|]. intros [Ha Hs]. unfold al_remove in *. rewrite filter_cons.
  destruct (decide _); [|auto]. split; [|auto]. apply Forall_forall. intros x Hx.
  apply list_elem_of_filter in Hx as [_ Hx]. eapply Forall_forall in Ha; eauto.
Qed.

Lemma al_remove_elem k l p : p ∈ al_remove k l <-> p.1 <> k /\ p ∈ l.
Proof. unfold al_remove. by rewrite list_elem_of_filter. Qed.
Lemma al_insert_elem k v l p : p ∈ al_insert k v l <-> p = (k, v) \/ p ∈ l.
Proof.
  induction l as [|[k' v'] l IH]; simpl; [rewrite list_elem_of_singleton; split; [by left|intros [?|H]; [done|inversion H]]|].
  destruct (k <? k'); rewrite !elem_of_cons; [tauto|]. rewrite IH. tauto.
Qed.

Lemma al_insert_sorted k v l : sorted l -> al_lookup k l = None -> sorted (al_insert k v l).
Proof.
  induction l as [|[k' v'] l IH]; simpl; [intros; split; [constructor|done]|].
  intros [Ha Hs]. destruct (Z.eqb_spec k k'); [done|]. intros Hn. destruct (Z.ltb_spec k k').
  - repeat split; try done. constructor; [done|]. eapply above_trans; [|exact Ha]. simpl. lia.
  - split; [|auto]. apply Forall_forall. intros p Hp. apply al_insert_elem in Hp as [->|Hp]; [simpl; lia|].
    eapply Forall_forall in Ha; eauto.
Qed.

Lemma al_lookup_insert k key v l :
  al_lookup key l = None ->
  al_lookup k (al_insert key v l) = if k =? key then Some v else al_lookup k l.
Proof.
  induction l as [|[k' v'] l IH]; simpl; [done|]. destruct (Z.eqb_spec key k'); [done|]. intros Hn.
  destruct (Z.ltb_spec key k'); simpl; [done|]. rewrite IH by done.
  destruct (Z.eqb_spec k k'), (Z.eqb_spec k key); congruence.
Qed.

Lemma al_lookup_remove k key l :
  al_lookup k (al_remove key l) = if k =? key then None else al_lookup k l.
Proof.
  unfold al_remove. induction l as [|[k' v'] l IH]; simpl; [by destruct (k =? key)|].
  rewrite filter_cons. simpl. destruct (decide (k' <> key)); simpl; rewrite IH;
    destruct (Z.eqb_spec k key), (Z.eqb_spec k k'); congruence || lia.
Qed.

Lemma length_al_insert k v l : length (al_insert k v l) = S (length l).
Proof. induction l as [|[k' v'] l IH]; simpl; [done|]. destruct (k <? k'); simpl; by rewrite ?IH. Qed.

Lemma length_al_remove k l : (length (al_remove k l) <= length l)%nat.
Proof. apply length_filter. Qed.

Lemma length_al_remove_sorted k l :
  sorted l -> (length l <= S (length (al_remove k l)))%nat.
Proof.
  intros Hs. destruct (al_lookup k l) as [v|] eqn:Hl.
  - apply al_lookup_elem, list_elem_of_split in Hl as (l1 & l2 & ->); [|done].
    apply sorted_middle in Hs as (_ & _ & Hb & Ha). simpl in *. rewrite al_remove_here by done.
    rewrite !length_app. simpl. lia.
  - rewrite al_remove_absent by (by apply al_lookup_None). lia.
Qed.

Lemma al_update_keys k f l : (al_update k f l).*1 = l.*1.
Proof. unfold al_update. induction l as [|p l IH]; [done|]. simpl. f_equal; [|done]. by destruct (p.1 =? k). Qed.
Lemma al_update_app k f l1 l2 : al_update k f (l1 ++ l2) = al_update k f l1 ++ al_update k f l2.
Proof. apply map_app. Qed.
Lemma al_update_absent k f l : Forall (fun p => p.1 <> k) l -> al_update k f l = l.
Proof.
  induction 1 as [|p l Hp _ IH]; [done|]. simpl. destruct (Z.eqb_spec p.1 k); [done|]. by f_equal.
Qed.
Lemma al_update_here key (f : V -> V) l1 v l2 :
  sorted (l1 ++ (key, v) :: l2) -> al_update key f (l1 ++ (key, v) :: l2) = l1 ++ (key, f v) :: l2.
Proof.
  intros (_ & _ & Hb & Ha)%sorted_middle. rewrite al_update_app. cbn [al_update map fst snd].
  rewrite Z.eqb_refl. fold (al_update key f l2). rewrite !al_update_absent; auto using below_absent, above_absent.
Qed.
End Assoc.

Create HintDb ordmap.
#[export] Hint Resolve al_insert_sorted al_remove_sorted below_absent above_absent : ordmap.

(** ** The interface *)
Class OrdMapOps (M : Type) (V : Type) := {
  om_new : M;
  om_len : M -> Z;
  om_insert : M -> Z -> V -> exec (option V * M);
  om_remove : M -> Z -> exec (option V * M);
  om_get : M -> Z -> exec (option V);
  (** [get_mut] followed by the client's update of the value in place. *)
  om_update : M -> Z -> (V -> V) -> exec (option V * M);
  om_iter : M -> exec (list (Z * V));
  om_first : M -> exec (option (Z * V));
  om_last : M -> exec (option (Z * V))
}.

(** [om_rep m l]: [m] holds the entries [l].  The laws hold for maps of at most [om_cap]
    entries; an insertion needs a key that is not there yet. *)
Class OrdMap (M : Type) (V : Type) `{OrdMapOps M V} := {
  om_rep : M -> list (Z * V) -> Prop;
  om_cap : nat;
  om_rep_sorted m l : om_rep m l -> sorted l;
  om_new_ok : om_rep om_new [];
  om_len_ok m l : om_rep m l -> om_len m = Z.of_nat (length l);
  om_insert_ok m l k v : om_rep m l -> (length l < om_cap)%nat -> al_lookup k l = None ->
    exists m', om_insert m k v = Ret (None, m') /\ om_rep m' (al_insert k v l);
  om_remove_ok m l k : om_rep m l ->
    exists m', om_remove m k = Ret (al_lookup k l, m') /\ om_rep m' (al_remove k l);
  om_get_ok m l k : om_rep m l -> om_get m k = Ret (al_lookup k l);
  om_update_ok m l k f : om_rep m l ->
    exists m', om_update m k f = Ret (al_lookup k l, m') /\ om_rep m' (al_update k f l);
  om_iter_ok m l : om_rep m l -> om_iter m = Ret l;
  om_first_ok m l : om_rep m l -> om_first m = Ret (head l);
  om_last_ok m l : om_rep m l -> om_last m = Ret (last l)
}.
