(* ===== verification/BTree.v ===== *)
(** * The B-tree of kernel/src/libs/btree/tree.rs, with [usize] keys

    Nodes keep the code's parallel vectors [keys], [values] and [children].  The
    recursive routines descend one level per call, so the height of the tree bounds
    their recursion and is the fuel they are given.  The node invariant [wf] and the
    in-order contents [elements] give the operations their meaning. *)

From S2P Require Import Prelude OrdMap.

Definition B : nat := 16.
Definition MIN_KEYS : nat := Nat.div B 2 - 1.
Definition MAX_KEYS : nat := B - 1.

#[warnings="-register-all"]
Inductive BTreeNode (V : Type) : Type :=
| mkNode (is_leaf : bool) (keys : list Z) (values : list V) (children : list (BTreeNode V)).
Arguments mkNode {V} is_leaf keys values children.

Record BTree (V : Type) := mkBTree { root : BTreeNode V; len : Z }.
Arguments mkBTree {V} root len.
Arguments root {V} b.
Arguments len {V} b.

Section BTree.
Context {V : Type}.
Implicit Types (n : BTreeNode V) (t : BTree V).

Definition is_leaf n : bool := match n with mkNode l _ _ _ => l end.
Definition keys n : list Z := match n with mkNode _ k _ _ => k end.
Definition values n : list V := match n with mkNode _ _ v _ => v end.
Definition children n : list (BTreeNode V) := match n with mkNode _ _ _ c => c end.

Definition new_leaf : BTreeNode V := mkNode true [] [] [].
Definition new_internal : BTreeNode V := mkNode false [] [] [].
Definition is_full n : bool := (MAX_KEYS <=? length (keys n))%nat.
Definition is_underflow n : bool := (length (keys n) <? MIN_KEYS)%nat.

Definition new : BTree V := mkBTree new_leaf 0.
Definition is_empty t : bool := len t =? 0.

(** [keys.iter().position(|k| k > key).unwrap_or(keys.len())] *)
Definition child_index (ks : list Z) (key : Z) : nat :=
  default (length ks) (position (fun k => key <? k) ks).

Fixpoint height n : nat :=
  match n with mkNode _ _ _ cs => S (foldr (fun c acc => Nat.max (height c) acc) O cs) end.

(** ** Insertion *)
Definition split_child_static (parent : BTreeNode V) (child_idx : nat) : exec (BTreeNode V) :=
  let mid := MIN_KEYS in
  child ← vec_at (children parent) child_idx;
  '(ck, nk) ← split_off (keys child) (mid + 1)%nat;
  '(cv, nv) ← split_off (values child) (mid + 1)%nat;
  '(mid_key, ck') ← vec_pop ck;
  '(mid_value, cv') ← vec_pop cv;
  '(cc, nc) ← (if is_leaf child then Ret (children child, [])
               else split_off (children child) (mid + 1)%nat);
  pk ← vec_insert (keys parent) child_idx mid_key;
  pv ← vec_insert (values parent) child_idx mid_value;
  pc ← vec_put (children parent) child_idx (mkNode (is_leaf child) ck' cv' cc);
  pc' ← vec_insert pc (child_idx + 1)%nat (mkNode (is_leaf child) nk nv nc);
  Ret (mkNode (is_leaf parent) pk pv pc').

Fixpoint insert_non_full_static (fuel : nat) n (key : Z) (value : V)
  : exec (option V * BTreeNode V) :=
  match fuel with
  | O => OutOfFuel
  | S fuel' =>
      match position (fun k => k =? key) (keys n) with
      | Some pos =>
          old_value ← vec_at (values n) pos;
          vs ← vec_put (values n) pos value;
          Ret (Some old_value, mkNode (is_leaf n) (keys n) vs (children n))
      | None =>
          if is_leaf n then
            let pos := child_index (keys n) key in
            ks ← vec_insert (keys n) pos key;
            vs ← vec_insert (values n) pos value;
            Ret (None, mkNode (is_leaf n) ks vs (children n))
          else
            let child_idx := child_index (keys n) key in
            child ← vec_at (children n) child_idx;
            '(n, child_idx) ←
              (if is_full child then
                 n' ← split_child_static n child_idx;
                 k ← vec_at (keys n') child_idx;
                 Ret (n', if k <? key then (child_idx + 1)%nat else child_idx)
               else Ret (n, child_idx));
            child ← vec_at (children n) child_idx;
            '(old, child') ← insert_non_full_static fuel' child key value;
            cs ← vec_put (children n) child_idx child';
            Ret (old, mkNode (is_leaf n) (keys n) (values n) cs)
      end
  end.

Definition insert t (key : Z) (value : V) : exec (option V * BTree V) :=
  r ← (if is_full (root t)
       then split_child_static (mkNode false [] [] [root t]) 0
       else Ret (root t));
  '(old_value, r') ← insert_non_full_static (height r) r key value;
  Ret (old_value, mkBTree r' (match old_value with Some _ => len t | None => add64 (len t) 1 end)).

(** ** Lookup *)
Fixpoint get_in_node (fuel : nat) n (key : Z) : exec (option V) :=
  match fuel with
  | O => OutOfFuel
  | S fuel' =>
      match position (fun k => k =? key) (keys n) with
      | Some pos => v ← vec_at (values n) pos; Ret (Some v)
      | None =>
          if is_leaf n then Ret None
          else child ← vec_at (children n) (child_index (keys n) key); get_in_node fuel' child key
      end
  end.

Definition get t (key : Z) : exec (option V) := get_in_node (height (root t)) (root t) key.

Definition contains_key t (key : Z) : exec bool :=
  v ← get t key; Ret (match v with Some _ => true | None => false end).

(** [get_mut], with the update [f] the caller makes through the reference. *)
Fixpoint get_mut_in_node (fuel : nat) n (key : Z) (f : V -> V) : exec (option V * BTreeNode V) :=
  match fuel with
  | O => OutOfFuel
  | S fuel' =>
      match position (fun k => k =? key) (keys n) with
      | Some pos =>
          v ← vec_at (values n) pos;
          vs ← vec_put (values n) pos (f v);
          Ret (Some v, mkNode (is_leaf n) (keys n) vs (children n))
      | None =>
          if is_leaf n then Ret (None, n)
          else
            let child_idx := child_index (keys n) key in
            child ← vec_at (children n) child_idx;
            '(v, child') ← get_mut_in_node fuel' child key f;
            cs ← vec_put (children n) child_idx child';
            Ret (v, mkNode (is_leaf n) (keys n) (values n) cs)
      end
  end.

Definition get_mut t (key : Z) (f : V -> V) : exec (option V * BTree V) :=
  '(v, r) ← get_mut_in_node (height (root t)) (root t) key f; Ret (v, mkBTree r (len t)).

Definition clear t : BTree V := mkBTree new_leaf 0.

Fixpoint first_in_node (fuel : nat) n : exec (option (Z * V)) :=
  match fuel with
  | O => OutOfFuel
  | S fuel' =>
      if is_leaf n then
        match keys n with
        | [] => Ret None
        | _ => k ← vec_at (keys n) 0; v ← vec_at (values n) 0; Ret (Some (k, v))
        end
      else child ← vec_at (children n) 0; first_in_node fuel' child
  end.

Fixpoint last_in_node (fuel : nat) n : exec (option (Z * V)) :=
  match fuel with
  | O => OutOfFuel
  | S fuel' =>
      if is_leaf n then
        match keys n with
        | [] => Ret None
        | _ => let idx := (length (keys n) - 1)%nat in
               k ← vec_at (keys n) idx; v ← vec_at (values n) idx; Ret (Some (k, v))
        end
      else child ← vec_at (children n) (length (children n) - 1); last_in_node fuel' child
  end.

Definition first t : exec (option (Z * V)) :=
  if is_empty t then Ret None else first_in_node (height (root t)) (root t).
Definition last_ t : exec (option (Z * V)) :=
  if is_empty t then Ret None else last_in_node (height (root t)) (root t).

(** ** Removal *)
Fixpoint remove_max_static (fuel : nat) n : exec ((Z * V) * BTreeNode V) :=
  match fuel with
  | O => OutOfFuel
  | S fuel' =>
      if is_leaf n then
        '(k, ks) ← vec_pop (keys n);
        '(v, vs) ← vec_pop (values n);
        Ret ((k, v), mkNode (is_leaf n) ks vs (children n))
      else
        let last_idx := (length (children n) - 1)%nat in
        child ← vec_at (children n) last_idx;
        '(kv, child') ← remove_max_static fuel' child;
        cs ← vec_put (children n) last_idx child';
        Ret (kv, mkNode (is_leaf n) (keys n) (values n) cs)
  end.

Fixpoint remove_min_static (fuel : nat) n : exec ((Z * V) * BTreeNode V) :=
  match fuel with
  | O => OutOfFuel
  | S fuel' =>
      if is_leaf n then
        '(k, ks) ← vec_remove (keys n) 0;
        '(v, vs) ← vec_remove (values n) 0;
        Ret ((k, v), mkNode (is_leaf n) ks vs (children n))
      else
        child ← vec_at (children n) 0;
        '(kv, child') ← remove_min_static fuel' child;
        cs ← vec_put (children n) 0 child';
        Ret (kv, mkNode (is_leaf n) (keys n) (values n) cs)
  end.

Definition borrow_from_left_static (parent : BTreeNode V) (child_idx : nat) : exec (BTreeNode V) :=
  left_sibling ← vec_at (children parent) (child_idx - 1);
  child ← vec_at (children parent) child_idx;
  '(borrowed_key, lk) ← vec_pop (keys left_sibling);
  '(borrowed_value, lv) ← vec_pop (values left_sibling);
  '(lc, cc) ← (if negb (is_leaf child) then
                 '(borrowed_child, lc) ← vec_pop (children left_sibling);
                 Ret (lc, borrowed_child :: children child)
               else Ret (children left_sibling, children child));
  separator_key ← vec_at (keys parent) (child_idx - 1);
  pk ← vec_put (keys parent) (child_idx - 1) borrowed_key;
  separator_value ← vec_at (values parent) (child_idx - 1);
  pv ← vec_put (values parent) (child_idx - 1) borrowed_value;
  pc ← vec_put (children parent) (child_idx - 1) (mkNode (is_leaf left_sibling) lk lv lc);
  pc' ← vec_put pc child_idx
          (mkNode (is_leaf child) (separator_key :: keys child) (separator_value :: values child) cc);
  Ret (mkNode (is_leaf parent) pk pv pc').

Definition borrow_from_right_static (parent : BTreeNode V) (child_idx : nat) : exec (BTreeNode V) :=
  child ← vec_at (children parent) child_idx;
  right_sibling ← vec_at (children parent) (child_idx + 1);
  '(borrowed_key, rk) ← vec_remove (keys right_sibling) 0;
  '(borrowed_value, rv) ← vec_remove (values right_sibling) 0;
  '(rc, cc) ← (if negb (is_leaf child) then
                 '(borrowed_child, rc) ← vec_remove (children right_sibling) 0;
                 Ret (rc, children child ++ [borrowed_child])
               else Ret (children right_sibling, children child));
  separator_key ← vec_at (keys parent) child_idx;
  pk ← vec_put (keys parent) child_idx borrowed_key;
  separator_value ← vec_at (values parent) child_idx;
  pv ← vec_put (values parent) child_idx borrowed_value;
  pc ← vec_put (children parent) child_idx
         (mkNode (is_leaf child) (keys child ++ [separator_key]) (values child ++ [separator_value]) cc);
  pc' ← vec_put pc (child_idx + 1) (mkNode (is_leaf right_sibling) rk rv rc);
  Ret (mkNode (is_leaf parent) pk pv pc').

Definition merge_children_static (parent : BTreeNode V) (left_idx : nat) : exec (BTreeNode V) :=
  '(separator_key, pk) ← vec_remove (keys parent) left_idx;
  '(separator_value, pv) ← vec_remove (values parent) left_idx;
  '(right_child, pc) ← vec_remove (children parent) (left_idx + 1);
  left_child ← vec_at pc left_idx;
  let left' := mkNode (is_leaf left_child)
                 ((keys left_child ++ [separator_key]) ++ keys right_child)
                 ((values left_child ++ [separator_value]) ++ values right_child)
                 (if negb (is_leaf left_child) then children left_child ++ children right_child
                  else children left_child) in
  pc' ← vec_put pc left_idx left';
  Ret (mkNode (is_leaf parent) pk pv pc').

(** [parent.children[i].keys.len() > MIN_KEYS] *)
Definition rich_child (parent : BTreeNode V) (i : nat) : exec bool :=
  c ← vec_at (children parent) i; Ret (MIN_KEYS <? length (keys c))%nat.

Definition fix_child_static (parent : BTreeNode V) (child_idx : nat) : exec (BTreeNode V) :=
  left_rich ← (if (0 <? child_idx)%nat then rich_child parent (child_idx - 1) else Ret false);
  if (left_rich : bool) then borrow_from_left_static parent child_idx
  else
    right_rich ← (if (child_idx <? length (children parent) - 1)%nat
                  then rich_child parent (child_idx + 1) else Ret false);
    if (right_rich : bool) then borrow_from_right_static parent child_idx
    else if (0 <? child_idx)%nat then merge_children_static parent (child_idx - 1)
    else merge_children_static parent child_idx.

Fixpoint remove_from_node_static (fuel : nat) n (key : Z) : exec (option V * BTreeNode V) :=
  match fuel with
  | O => OutOfFuel
  | S fuel' =>
      match position (fun k => k =? key) (keys n) with
      | Some pos =>
          if is_leaf n then
            '(_, ks) ← vec_remove (keys n) pos;
            '(v, vs) ← vec_remove (values n) pos;
            Ret (Some v, mkNode (is_leaf n) ks vs (children n))
          else
            left_rich ← rich_child n pos;
            if (left_rich : bool) then
              child ← vec_at (children n) pos;
              '((pred_key, pred_value), child') ← remove_max_static fuel' child;
              cs ← vec_put (children n) pos child';
              ks ← vec_put (keys n) pos pred_key;
              old_value ← vec_at (values n) pos;
              vs ← vec_put (values n) pos pred_value;
              Ret (Some old_value, mkNode (is_leaf n) ks vs cs)
            else
              right_rich ← rich_child n (pos + 1);
              if (right_rich : bool) then
                child ← vec_at (children n) (pos + 1);
                '((succ_key, succ_value), child') ← remove_min_static fuel' child;
                cs ← vec_put (children n) (pos + 1) child';
                ks ← vec_put (keys n) pos succ_key;
                old_value ← vec_at (values n) pos;
                vs ← vec_put (values n) pos succ_value;
                Ret (Some old_value, mkNode (is_leaf n) ks vs cs)
              else
                n' ← merge_children_static n pos;
                child ← vec_at (children n') pos;
                '(r, child') ← remove_from_node_static fuel' child key;
                cs ← vec_put (children n') pos child';
                Ret (r, mkNode (is_leaf n') (keys n') (values n') cs)
      | None =>
          if is_leaf n then Ret (None, n)
          else
            let child_idx := child_index (keys n) key in
            child ← vec_at (children n) child_idx;
            n' ← (if (length (keys child) <=? MIN_KEYS)%nat then fix_child_static n child_idx
                  else Ret n);
            let child_idx := child_index (keys n') key in
            child ← vec_at (children n') child_idx;
            '(r, child') ← remove_from_node_static fuel' child key;
            cs ← vec_put (children n') child_idx child';
            Ret (r, mkNode (is_leaf n') (keys n') (values n') cs)
      end
  end.

(** The early return of [?] leaves the root as the descent has changed it. *)
Definition remove t (key : Z) : exec (option V * BTree V) :=
  '(result, r) ← remove_from_node_static (height (root t)) (root t) key;
  match result with
  | None => Ret (None, mkBTree r (len t))
  | Some v =>
      let r' := match keys r with
                | [] => if negb (is_leaf r)
                        then match last (children r) with Some child => child | None => r end
                        else r
                | _ => r
                end in
      Ret (Some v, mkBTree r' (sub64 (len t) 1))
  end.

Definition pop_first t : exec (option (Z * V) * BTree V) :=
  f ← first t;
  match f with
  | None => Ret (None, t)
  | Some (key, _) =>
      '(v, t') ← remove t key;
      Ret (match v with Some v => Some (key, v) | None => None end, t')
  end.

Definition pop_last t : exec (option (Z * V) * BTree V) :=
  f ← last_ t;
  match f with
  | None => Ret (None, t)
  | Some (key, _) =>
      '(v, t') ← remove t key;
      Ret (match v with Some v => Some (key, v) | None => None end, t')
  end.

(** ** Iteration: a stack of nodes with the next position in each, the top first *)
Inductive iter_event := Yield (kv : Z * V) | Continue.

Definition iter_step (node : BTreeNode V) (idx : nat) (stack : list (BTreeNode V * nat))
  : exec (iter_event * list (BTreeNode V * nat)) :=
  if is_leaf node then
    if (idx <? length (keys node))%nat then
      k ← vec_at (keys node) idx; v ← vec_at (values node) idx;
      Ret (Yield (k, v), (node, S idx) :: stack)
    else Ret (Continue, stack)
  else
    let child_count := length (children node) in
    let key_count := length (keys node) in
    if (idx <? child_count + key_count)%nat then
      if Nat.even idx then
        let child_idx := (idx / 2)%nat in
        if (child_idx <? child_count)%nat then
          child ← vec_at (children node) child_idx;
          Ret (Continue, (child, O) :: (node, S idx) :: stack)
        else Ret (Continue, (node, S idx) :: stack)
      else
        let key_idx := (idx / 2)%nat in
        if (key_idx <? key_count)%nat then
          k ← vec_at (keys node) key_idx; v ← vec_at (values node) key_idx;
          Ret (Yield (k, v), (node, S idx) :: stack)
        else Ret (Continue, (node, S idx) :: stack)
    else Ret (Continue, stack).

(** The iterations of [next] until the stack is empty, collecting what it yields. *)
Fixpoint collect (fuel : nat) (stack : list (BTreeNode V * nat)) : exec (list (Z * V)) :=
  match stack with
  | [] => Ret []
  | (node, idx) :: stack' =>
      match fuel with
      | O => OutOfFuel
      | S fuel' =>
          '(ev, stack'') ← iter_step node idx stack';
          rest ← collect fuel' stack'';
          Ret (match ev with Yield kv => kv :: rest | Continue => rest end)
      end
  end.

(** An upper bound on the iterations a node takes. *)
Fixpoint steps n : nat :=
  match n with
  | mkNode _ ks _ cs => S (length ks + length cs + foldr (fun c acc => steps c + acc) O cs)%nat
  end.

Definition iter t : exec (list (Z * V)) := collect (steps (root t)) [(root t, O)].

(** [for key in to_remove { self.remove(&key); }] *)
Fixpoint remove_all t (ks : list Z) : exec (BTree V) :=
  match ks with
  | [] => Ret t
  | key :: ks' => '(_, t') ← remove t key; remove_all t' ks'
  end.

Definition retain (f : Z -> V -> bool) t : exec (BTree V) :=
  kvs ← iter t;
  remove_all t (map fst (filter (fun kv => f kv.1 kv.2 = false) kvs)).

(** ** Contents *)
Fixpoint interleave (es : list (list (Z * V))) (kvs : list (Z * V)) : list (Z * V) :=
  match es with
  | [] => []
  | e :: es' =>
      e ++ match kvs with
           | [] => interleave es' []
           | kv :: kvs' => kv :: interleave es' kvs'
           end
  end.

(** What follows the first child. *)
Definition after (es : list (list (Z * V))) (kvs : list (Z * V)) : list (Z * V) :=
  match kvs with [] => interleave es [] | kv :: kvs' => kv :: interleave es kvs' end.

(** What precedes a child: as many children as keys. *)
Fixpoint before (es : list (list (Z * V))) (kvs : list (Z * V)) : list (Z * V) :=
  match es, kvs with
  | e :: es', kv :: kvs' => e ++ kv :: before es' kvs'
  | _, _ => []
  end.

Fixpoint elements n : list (Z * V) :=
  match n with
  | mkNode leaf ks vs cs =>
      if leaf then zip ks vs else interleave (map elements cs) (zip ks vs)
  end.

(** ** The node invariant: [h] levels of children below, at least [m] keys *)
Fixpoint wf (h m : nat) n : Prop :=
  exists kvs, keys n = kvs.*1 /\ values n = kvs.*2 /\ (m <= length kvs <= MAX_KEYS)%nat /\
    match h with
    | O => is_leaf n = true /\ children n = []
    | S h' => is_leaf n = false /\ length (children n) = S (length kvs) /\
              Forall (wf h' MIN_KEYS) (children n)
    end.

Definition leaf (kvs : list (Z * V)) : BTreeNode V := mkNode true (kvs.*1) (kvs.*2) [].
Definition inner (kvs : list (Z * V)) (cs : list (BTreeNode V)) : BTreeNode V :=
  mkNode false (kvs.*1) (kvs.*2) cs.

Lemma zip_fst_snd_eq (kvs : list (Z * V)) : zip (kvs.*1) (kvs.*2) = kvs.
Proof. induction kvs as [|[k v] kvs IH]; [done|]. exact (f_equal (cons (k, v)) IH). Qed.

Lemma elements_leaf kvs : elements (leaf kvs) = kvs.
Proof. apply zip_fst_snd_eq. Qed.
Lemma elements_inner kvs cs : elements (inner kvs cs) = interleave (map elements cs) kvs.
Proof. unfold inner. cbn [elements]. by rewrite zip_fst_snd_eq. Qed.

Lemma wf_leaf m n :
  wf 0 m n <-> exists kvs, n = leaf kvs /\ (m <= length kvs <= MAX_KEYS)%nat.
Proof.
  split.
  - intros (kvs & Hk & Hv & Hm & Hl & Hc). exists kvs. destruct n; simpl in *; by subst.
  - intros (kvs & -> & Hm). by exists kvs.
Qed.
Lemma wf_inner h m n :
  wf (S h) m n <-> exists kvs cs, n = inner kvs cs /\ (m <= length kvs <= MAX_KEYS)%nat /\
    length cs = S (length kvs) /\ Forall (wf h MIN_KEYS) cs.
Proof.
  split.
  - intros (kvs & Hk & Hv & Hm & Hl & Hc & Hf). exists kvs, (children n).
    destruct n; simpl in *; by subst.
  - intros (kvs & cs & -> & Hm & Hc & Hf). by exists kvs.
Qed.

Lemma wf_length h m n : wf h m n -> (m <= length (keys n) <= MAX_KEYS)%nat.
Proof. destruct h; intros (kvs & -> & _ & Hm & _); by rewrite length_fmap. Qed.

Lemma height_wf h m n : wf h m n -> height n = S h.
Proof.
  revert m n. induction h as [|h IH]; intros m n Hwf.
  - apply wf_leaf in Hwf as (kvs & -> & _). done.
  - apply wf_inner in Hwf as (kvs & cs & -> & _ & Hlen & Hf). simpl. f_equal.
    destruct Hf as [|c cs Hc Hf]; [done|]. clear Hlen. simpl. rewrite (IH _ _ Hc).
    induction Hf as [|c' cs Hc' _ IHf]; simpl; [lia|]. rewrite (IH _ _ Hc'). lia.
Qed.

Lemma interleave_split es1 e es2 kvs1 kvs2 :
  length es1 = length kvs1 ->
  interleave (es1 ++ e :: es2) (kvs1 ++ kvs2) = before es1 kvs1 ++ e ++ after es2 kvs2.
Proof.
  revert kvs1. induction es1 as [|e1 es1 IH]; intros [|kv kvs1] Hl; simplify_eq/=; [done|].
  rewrite IH by done. by rewrite <- app_assoc.
Qed.

Lemma before_snoc es1 e kvs1 kv :
  length es1 = length kvs1 -> before (es1 ++ [e]) (kvs1 ++ [kv]) = before es1 kvs1 ++ e ++ [kv].
Proof.
  revert kvs1. induction es1 as [|e1 es1 IH]; intros [|kv1 kvs1] Hl; simplify_eq/=; [done|].
  rewrite IH by done. rewrite <- !app_assoc. done.
Qed.

Lemma after_cons e es kv kvs : after (e :: es) (kv :: kvs) = kv :: e ++ after es kvs.
Proof. done. Qed.

(** An inner node around one of its children. *)
Lemma elements_split kvs1 kvs2 cs1 c cs2 :
  length cs1 = length kvs1 ->
  elements (inner (kvs1 ++ kvs2) (cs1 ++ c :: cs2)) =
  before (map elements cs1) kvs1 ++ elements c ++ after (map elements cs2) kvs2.
Proof.
  intros Hl. rewrite elements_inner, map_app. apply interleave_split. by rewrite length_map.
Qed.

(** The keys before a child are below any key above the separators, and dually. *)
Lemma before_below k es kvs rest :
  length es = length kvs -> sorted (before es kvs ++ rest) -> below k kvs -> below k (before es kvs).
Proof.
  intros Hl Hs Hb. destruct kvs as [|kv kvs _] using rev_ind; [destruct es; [constructor|done]|].
  destruct es as [|e es _] using rev_ind; [rewrite length_app in Hl; simpl in Hl; lia|].
  rewrite !length_app in Hl. rewrite before_snoc in * by (simpl in Hl; lia).
  apply Forall_app in Hb as [_ Hb]. apply Forall_cons in Hb as [Hb _].
  rewrite app_assoc in *. rewrite <- (app_assoc _ _ rest) in Hs. apply sorted_middle in Hs as (_ & _ & Hs & _).
  apply Forall_app. split; [|by constructor]. eapply below_trans; [|exact Hs]. lia.
Qed.

Lemma after_above k es kvs rest :
  length es = length kvs -> sorted (rest ++ after es kvs) -> above k kvs -> above k (after es kvs).
Proof.
  intros Hl Hs Ha. destruct kvs as [|kv kvs]; [destruct es; [constructor|done]|].
  apply Forall_cons in Ha as [Ha _]. simpl in *. apply sorted_middle in Hs as (_ & _ & _ & Hs).
  constructor; [done|]. eapply above_trans; [|exact Hs]. lia.
Qed.

(** ** Positions of a key in a node *)
Lemma position_eq_spec (kvs : list (Z * V)) key :
  match position (fun k => k =? key) (kvs.*1) with
  | Some i => exists a v b, kvs = a ++ (key, v) :: b /\ i = length a
  | None => Forall (fun p => p.1 <> key) kvs
  end.
Proof.
  pose proof (position_spec (fun k => k =? key) (kvs.*1)) as H.
  destruct (position _ _) as [i|].
  - destruct H as (l1 & x & l2 & Hl & -> & Hx%Z.eqb_eq & _). subst x.
    apply fmap_app_inv in Hl as (a & b' & -> & Hb & ->).
    destruct b' as [|[k v] b]; simpl in Hb; [done|]. injection Hb as -> ->.
    exists a, v, b. by rewrite length_fmap.
  - apply Forall_fmap in H. eapply Forall_impl; [exact H|]. simpl. intros p Hp%Z.eqb_neq. done.
Qed.

Lemma child_index_spec (kvs : list (Z * V)) key :
  sorted kvs -> Forall (fun p => p.1 <> key) kvs ->
  exists a b, kvs = a ++ b /\ child_index (kvs.*1) key = length a /\ below key a /\ above key b.
Proof.
  intros Hs Hne. unfold child_index. pose proof (position_spec (fun k => key <? k) (kvs.*1)) as H.
  destruct (position _ _) as [i|]; simpl.
  - destruct H as (l1 & x & l2 & Hl & -> & Hx%Z.ltb_lt & Hl1).
    apply fmap_app_inv in Hl as (a & b' & -> & Hb & ->).
    destruct b' as [|[k v] b]; simpl in Hb; [done|]. injection Hb as -> ->.
    exists a, ((k, v) :: b). rewrite length_fmap. split; [done|]. split; [done|].
    apply sorted_middle in Hs as (_ & _ & _ & Ha). apply Forall_app in Hne as [Hne _].
    apply Forall_fmap in Hl1. split.
    + eapply Forall_impl; [exact (proj2 (Forall_and _ _) (conj Hne Hl1))|]. simpl. intros p [? ?%Z.ltb_ge]. lia.
    + constructor; [done|]. eapply above_trans; [|exact Ha]. simpl. lia.
  - exists kvs, []. rewrite app_nil_r, length_fmap. split; [done|]. split; [done|]. split; [|constructor].
    apply Forall_fmap in H. eapply Forall_impl; [exact (proj2 (Forall_and _ _) (conj Hne H))|].
    simpl. intros p [? ?%Z.ltb_ge]. lia.
Qed.

Lemma sorted_interleave_kvs es kvs :
  length es = S (length kvs) -> sorted (interleave es kvs) -> sorted kvs.
Proof.
  revert es. induction kvs as [|kv kvs IH]; intros [|e es] Hl Hs; simplify_eq/=; [done|].
  apply sorted_middle in Hs as (_ & Hs & _ & Ha). split; [|by apply (IH es)].
  clear IH Hs. revert es Hl Ha. induction kvs as [|kv' kvs IH]; intros [|e' es] Hl Ha; simplify_eq/=; [constructor|].
  apply Forall_app in Ha as [_ Ha]. apply Forall_cons in Ha as [? Ha]. constructor; [done|].
  by apply (IH es).
Qed.

(** ** Descending to the child that may hold a key *)
Record descent (kvs : list (Z * V)) (cs : list (BTreeNode V)) (key : Z)
    (a b : list (Z * V)) (cs1 : list (BTreeNode V)) (c : BTreeNode V) (cs2 : list (BTreeNode V)) : Prop := {
  de_kvs : kvs = a ++ b;
  de_cs : cs = cs1 ++ c :: cs2;
  de_left : length cs1 = length a;
  de_right : length cs2 = length b;
  de_index : child_index (kvs.*1) key = length cs1;
  de_below : below key (before (map elements cs1) a);
  de_above : above key (after (map elements cs2) b);
  de_sorted : sorted (elements c)
}.

Lemma descend kvs cs key :
  length cs = S (length kvs) -> sorted (elements (inner kvs cs)) ->
  Forall (fun p => p.1 <> key) kvs ->
  exists a b cs1 c cs2, descent kvs cs key a b cs1 c cs2.
Proof.
  intros Hl Hs Hne. rewrite elements_inner in Hs.
  pose proof Hs as Hk. apply sorted_interleave_kvs in Hk; [|by rewrite length_map].
  destruct (child_index_spec kvs key Hk Hne) as (a & b & -> & Hi & Ha & Hb).
  rewrite length_app in Hl. destruct (lookup_lt_is_Some_2 cs (length a)) as [c Hc]; [lia|].
  pose proof (length_take_le cs (length a) ltac:(lia)) as Ht.
  exists a, b, (take (length a) cs), c, (drop (S (length a)) cs).
  pose proof (take_drop_middle cs (length a) c Hc) as Hcs.
  rewrite <- Hcs in Hs. rewrite <- elements_inner, elements_split in Hs by done.
  assert (Hr : length (drop (S (length a)) cs) = length b) by (rewrite length_drop; lia).
  split; try done.
  - by rewrite Ht.
  - eapply before_below; [by rewrite length_map|exact Hs|done].
  - rewrite app_assoc in Hs. eapply after_above; [by rewrite length_map|exact Hs|done].
  - by apply sorted_app in Hs as (_ & (Hs & _)%sorted_app & _).
Qed.

Lemma descent_elements kvs cs key a b cs1 c cs2 :
  descent kvs cs key a b cs1 c cs2 ->
  elements (inner kvs cs) =
  before (map elements cs1) a ++ elements c ++ after (map elements cs2) b.
Proof. intros []. subst. by apply elements_split. Qed.

Lemma descent_lookup kvs cs key a b cs1 c cs2 :
  descent kvs cs key a b cs1 c cs2 ->
  al_lookup key (elements (inner kvs cs)) = al_lookup key (elements c).
Proof.
  intros Hd. rewrite (descent_elements _ _ _ _ _ _ _ _ Hd). destruct Hd.
  rewrite al_lookup_below by done. by apply al_lookup_above.
Qed.

(** A key of the node itself sits between two children. *)
Lemma elements_at_key kvs1 key v kvs2 cs :
  length cs = S (length (kvs1 ++ (key, v) :: kvs2)) -> sorted (elements (inner (kvs1 ++ (key, v) :: kvs2) cs)) ->
  exists cs1 c1 c2 cs2, cs = cs1 ++ c1 :: c2 :: cs2 /\ length cs1 = length kvs1 /\ length cs2 = length kvs2 /\
    forall k' v', elements (inner (kvs1 ++ (k', v') :: kvs2) cs) =
      (before (map elements cs1) kvs1 ++ elements c1) ++ (k', v') :: elements c2 ++ after (map elements cs2) kvs2.
Proof.
  intros Hl Hs. rewrite length_app in Hl. simpl in Hl.
  destruct (lookup_lt_is_Some_2 cs (length kvs1)) as [c1 Hc1]; [lia|].
  destruct (lookup_lt_is_Some_2 cs (S (length kvs1))) as [c2 Hc2]; [lia|].
  exists (take (length kvs1) cs), c1, c2, (drop (S (S (length kvs1))) cs).
  assert (Hcs : cs = take (length kvs1) cs ++ c1 :: c2 :: drop (S (S (length kvs1))) cs).
  { rewrite <- (take_drop_middle cs _ c1 Hc1) at 1. f_equal. f_equal.
    rewrite <- (drop_S cs c2) by done. done. }
  split; [done|]. split; [rewrite length_take; lia|]. split; [rewrite length_drop; lia|].
  intros k' v'. rewrite Hcs at 1. rewrite elements_split by (rewrite length_take; lia).
  cbn [map]. rewrite after_cons, <- !app_assoc. done.
Qed.

Lemma leaf_lookup_split a key (v : V) b : sorted (a ++ (key, v) :: b) -> al_lookup key (a ++ (key, v) :: b) = Some v.
Proof. intros (_ & _ & Hb & _)%sorted_middle. by apply al_lookup_here. Qed.

(** [get] is the lookup in the contents. *)
Lemma get_in_node_ok h m n key :
  wf h m n -> sorted (elements n) ->
  get_in_node (S h) n key = Ret (al_lookup key (elements n)).
Proof.
  revert m n. induction h as [|h IH]; intros m n Hwf Hs; cbn [get_in_node].
  - apply wf_leaf in Hwf as (kvs & -> & _). rewrite elements_leaf in *. cbn [leaf keys values is_leaf].
    pose proof (position_eq_spec kvs key) as Hp. destruct (position _ _) as [i|].
    + destruct Hp as (a & v & b & -> & ->). rewrite fmap_app. cbn [fmap list_fmap snd].
      rewrite vec_at_middle by (by rewrite length_fmap). mstep. by rewrite leaf_lookup_split.
    + f_equal. symmetry. by apply al_lookup_None.
  - apply wf_inner in Hwf as (kvs & cs & -> & _ & Hlen & Hf). cbn [inner keys values is_leaf children].
    pose proof (position_eq_spec kvs key) as Hp. destruct (position _ _) as [i|].
    + destruct Hp as (a & v & b & -> & ->). rewrite fmap_app. cbn [fmap list_fmap snd].
      rewrite vec_at_middle by (by rewrite length_fmap). mstep.
      destruct (elements_at_key a key v b cs Hlen Hs) as (cs1 & c1 & c2 & cs2 & -> & _ & _ & He).
      rewrite He in *. by rewrite leaf_lookup_split.
    + destruct (descend kvs cs key Hlen Hs Hp) as (a & b & cs1 & c & cs2 & Hd).
      rewrite (descent_lookup _ _ _ _ _ _ _ _ Hd). destruct Hd. subst cs. rewrite de_index0.
      rewrite vec_at_middle by done. mstep. apply (IH MIN_KEYS); [|done].
      apply Forall_app in Hf as [_ Hf]. by apply Forall_cons in Hf as [? _].
Qed.

(** ** Splitting a full child *)
Definition node (lf : bool) (kvs : list (Z * V)) (cs : list (BTreeNode V)) : BTreeNode V :=
  mkNode lf (kvs.*1) (kvs.*2) cs.

Lemma full_split (kvs : list (Z * V)) :
  length kvs = MAX_KEYS ->
  exists ka kv kb, kvs = ka ++ kv :: kb /\ length ka = MIN_KEYS /\ length kb = MIN_KEYS.
Proof.
  intros Hk. destruct (lookup_lt_is_Some_2 kvs MIN_KEYS) as [kv Hkv].
  { rewrite Hk. unfold MAX_KEYS, MIN_KEYS, B. simpl. lia. }
  exists (take MIN_KEYS kvs), kv, (drop (S MIN_KEYS) kvs). rewrite take_drop_middle by done.
  rewrite length_take, length_drop, Hk. done.
Qed.

(** The two halves of a full node and the entry between them. *)
Lemma wf_full_split h m c :
  wf h m c -> length (keys c) = MAX_KEYS ->
  exists lf ka kv kb ca cb, c = node lf (ka ++ kv :: kb) (ca ++ cb) /\
    length ka = MIN_KEYS /\ length kb = MIN_KEYS /\
    (if lf then ca = [] /\ cb = [] else length ca = S MIN_KEYS) /\
    wf h MIN_KEYS (node lf ka ca) /\ wf h MIN_KEYS (node lf kb cb) /\
    elements c = elements (node lf ka ca) ++ kv :: elements (node lf kb cb).
Proof.
  intros Hwf Hfull. assert (Hbound : (MIN_KEYS <= MIN_KEYS <= MAX_KEYS)%nat) by (unfold MAX_KEYS, MIN_KEYS, B; simpl; lia).
  destruct h as [|h].
  - apply wf_leaf in Hwf as (kvs & -> & _). cbn [leaf keys] in Hfull. rewrite length_fmap in Hfull.
    destruct (full_split kvs Hfull) as (ka & kv & kb & -> & Ha & Hb).
    exists true, ka, kv, kb, [], []. repeat split; try done.
    + apply wf_leaf. exists ka. by rewrite Ha.
    + apply wf_leaf. exists kb. by rewrite Hb.
    + change (node true ka []) with (leaf ka). change (node true kb []) with (leaf kb). by rewrite !elements_leaf.
  - apply wf_inner in Hwf as (kvs & cs & -> & _ & Hlen & Hf). cbn [inner keys] in Hfull. rewrite length_fmap in Hfull.
    destruct (full_split kvs Hfull) as (ka & kv & kb & -> & Ha & Hb). rewrite Hfull in Hlen.
    exists false, ka, kv, kb, (take (S MIN_KEYS) cs), (drop (S MIN_KEYS) cs).
    rewrite take_drop. split; [done|]. split; [done|]. split; [done|].
    assert (Hta : length (take (S MIN_KEYS) cs) = S MIN_KEYS) by (rewrite length_take, Hlen; done).
    split; [done|]. split; [|split].
    + apply wf_inner. exists ka, (take (S MIN_KEYS) cs). rewrite Ha. split; [done|]. split; [done|]. split; [done|].
      by apply Forall_take.
    + apply wf_inner. exists kb, (drop (S MIN_KEYS) cs). rewrite Hb. split; [done|]. split; [done|].
      split; [rewrite length_drop, Hlen; done|by apply Forall_drop].
    + rewrite <- (take_drop (S MIN_KEYS) cs) at 1. destruct (take (S MIN_KEYS) cs) as [|c ca _] eqn:Hca using rev_ind; [done|].
      rewrite length_app in Hta. simpl in Hta. change (node false) with inner.
      rewrite <- app_assoc. cbn [app]. rewrite elements_split by lia.
      rewrite <- (app_nil_r ka) at 2. rewrite elements_split by lia. cbn [map after interleave].
      rewrite app_nil_r, <- !app_assoc. do 2 f_equal. destruct (drop (S MIN_KEYS) cs) as [|d cb] eqn:Hcb.
      * apply (f_equal length) in Hcb. rewrite length_drop, Hlen in Hcb. done.
      * cbn [map after]. by rewrite elements_inner.
Qed.

Lemma split_child_ok h m kvs1 kvs2 cs1 c cs2 :
  length cs1 = length kvs1 -> wf h m c -> length (keys c) = MAX_KEYS ->
  exists c1 kv c2,
    split_child_static (inner (kvs1 ++ kvs2) (cs1 ++ c :: cs2)) (length cs1) =
      Ret (inner (kvs1 ++ kv :: kvs2) (cs1 ++ c1 :: c2 :: cs2)) /\
    wf h MIN_KEYS c1 /\ wf h MIN_KEYS c2 /\ length (keys c1) = MIN_KEYS /\ length (keys c2) = MIN_KEYS /\
    elements c = elements c1 ++ kv :: elements c2.
Proof.
  intros Hl Hwf Hfull.
  destruct (wf_full_split h m c Hwf Hfull) as (lf & ka & [k v] & kb & ca & cb & -> & Ha & Hb & Hlf & Hw1 & Hw2 & He).
  exists (node lf ka ca), (k, v), (node lf kb cb). cbn [keys node]. rewrite !length_fmap.
  split; [|done]. unfold split_child_static. cbn [children inner keys values is_leaf]. rewrite vec_at_middle by done. mstep.
  cbn [node keys values is_leaf children]. rewrite !(fmap_app _ ka). cbn [fmap list_fmap fst snd].
  rewrite !(cons_middle _ (ka.*1)), !(cons_middle _ (ka.*2)), !(app_assoc (ka.*1)), !(app_assoc (ka.*2)).
  rewrite (split_off_app (ka.*1 ++ [k])), (split_off_app (ka.*2 ++ [v]))
    by (rewrite length_app, length_fmap, Ha; done). mstep.
  rewrite !vec_pop_snoc. mstep.
  assert ((if lf then Ret (ca ++ cb, []) else split_off (ca ++ cb) (MIN_KEYS + 1)) = Ret (ca, cb)) as ->.
  { destruct lf; [by destruct Hlf as [-> ->]|]. apply split_off_app. rewrite Hlf. lia. }
  mstep. rewrite !fmap_app, !vec_insert_middle by (by rewrite length_fmap). mstep.
  rewrite vec_put_middle by done. mstep. rewrite (cons_middle _ cs1), (app_assoc cs1).
  rewrite vec_insert_middle by (rewrite length_app; done). mstep. rewrite <- (app_assoc cs1).
  unfold inner. by rewrite !fmap_app.
Qed.

Lemma Forall_interleave_kvs (P : Z * V -> Prop) es kvs :
  length es = S (length kvs) -> Forall P (interleave es kvs) -> Forall P kvs.
Proof.
  revert es. induction kvs as [|kv kvs IH]; intros [|e es] Hl HF; simplify_eq/=; [constructor|].
  apply Forall_app in HF as [_ HF]. apply Forall_cons in HF as [? HF]. constructor; [done|]. by apply (IH es).
Qed.

Lemma absent_in_node kvs cs key :
  length cs = S (length kvs) -> al_lookup key (elements (inner kvs cs)) = None ->
  Forall (fun p => p.1 <> key) kvs.
Proof.
  intros Hl Ha. apply al_lookup_None in Ha. rewrite elements_inner in Ha.
  eapply Forall_interleave_kvs; [|exact Ha]. by rewrite length_map.
Qed.

Lemma position_absent kvs key :
  Forall (fun p : Z * V => p.1 <> key) kvs -> position (fun k => k =? key) (kvs.*1) = None.
Proof.
  induction 1 as [|[k v] kvs Hk _ IH]; [done|]. cbn. destruct (Z.eqb_spec k key); [done|].
  change (S <$> position (fun k => k =? key) (kvs.*1) = None). by rewrite IH.
Qed.

(** The insertion continues in child [c], between the separators [a] and [b]. *)
Lemma insert_at_child h m a b cs1 c cs2 key v c' :
  length cs1 = length a -> length cs2 = length b -> (m <= length (a ++ b) <= MAX_KEYS)%nat ->
  Forall (wf h MIN_KEYS) cs1 -> Forall (wf h MIN_KEYS) cs2 ->
  below key (before (map elements cs1) a) -> above key (after (map elements cs2) b) ->
  wf h MIN_KEYS c' -> elements c' = al_insert key v (elements c) ->
  let n := inner (a ++ b) (cs1 ++ c :: cs2) in
  let n' := inner (a ++ b) (cs1 ++ c' :: cs2) in
  vec_at (children n) (length cs1) = Ret c /\
  vec_put (children n) (length cs1) c' = Ret (children n') /\
  wf (S h) m n' /\ elements n' = al_insert key v (elements n).
Proof.
  intros H1 H2 Hm Hf1 Hf2 Hb Ha Hwf He n n'. cbn [n n' children inner].
  split; [by apply vec_at_middle|]. split; [by apply vec_put_middle|]. split.
  - apply wf_inner. exists (a ++ b), (cs1 ++ c' :: cs2). repeat split; try apply Hm.
    + rewrite !length_app. simpl. lia.
    + apply Forall_app. split; [done|]. by constructor.
  - unfold n, n'. rewrite !elements_split, He by done.
    rewrite al_insert_below by done. by rewrite al_insert_above.
Qed.

(** Splitting a child does not change the contents of its parent. *)
Lemma elements_split_child a b cs1 c c1 kv c2 cs2 :
  length cs1 = length a -> elements c = elements c1 ++ kv :: elements c2 ->
  elements (inner (a ++ kv :: b) (cs1 ++ c1 :: c2 :: cs2)) = elements (inner (a ++ b) (cs1 ++ c :: cs2)).
Proof.
  intros Hl He. rewrite !elements_split, He by done. cbn [map]. rewrite after_cons. list_norm. done.
Qed.

Lemma before_snoc_below key es e a kv :
  length es = length a -> below key (before es a) -> below kv.1 e -> kv.1 < key ->
  below key (before (es ++ [e]) (a ++ [kv])).
Proof.
  intros Hl Hb He Hk. rewrite before_snoc by done. apply Forall_app; split; [done|].
  apply Forall_app; split; [|by constructor]. eapply below_trans; [|exact He]. lia.
Qed.

Lemma after_cons_above key e es kv b :
  above key (after es b) -> above kv.1 e -> key < kv.1 -> above key (after (e :: es) (kv :: b)).
Proof.
  intros Hb He Hk. rewrite after_cons. constructor; [done|]. apply Forall_app; split; [|done].
  eapply above_trans; [|exact He]. lia.
Qed.

Lemma MIN_lt_MAX : (MIN_KEYS < MAX_KEYS)%nat.
Proof. unfold MIN_KEYS, MAX_KEYS, B. simpl. lia. Qed.

(** A key absent from a split child is absent from both halves, whose keys lie on their
    side of the middle entry. *)
Lemma halves key l1 (kv : Z * V) l2 :
  sorted (l1 ++ kv :: l2) -> al_lookup key (l1 ++ kv :: l2) = None ->
  (sorted l1 /\ below kv.1 l1 /\ al_lookup key l1 = None) /\ kv.1 <> key /\
  (sorted l2 /\ above kv.1 l2 /\ al_lookup key l2 = None).
Proof.
  intros (H1 & H2 & H3 & H4)%sorted_middle (Ha1 & Hkv)%al_lookup_None%Forall_app.
  apply Forall_cons in Hkv as [Hkv Ha2]. rewrite !al_lookup_None. auto.
Qed.

Lemma insert_leaf_ok m kvs key v :
  (m <= length kvs)%nat -> (length kvs < MAX_KEYS)%nat -> sorted kvs -> al_lookup key kvs = None ->
  exists a b, kvs = a ++ b /\ child_index (kvs.*1) key = length a /\
    wf 0 m (leaf (a ++ (key, v) :: b)) /\ elements (leaf (a ++ (key, v) :: b)) = al_insert key v kvs.
Proof.
  intros Hm Hroom Hs Habs%al_lookup_None.
  destruct (child_index_spec kvs key Hs Habs) as (a & b & -> & Hi & Hb & Ha).
  exists a, b. split; [done|]. split; [done|]. split.
  - apply wf_leaf. eexists. split; [done|]. rewrite length_app in *. simpl. lia.
  - rewrite elements_leaf, al_insert_below by done. f_equal.
    destruct Ha as [|[k' v'] b Hp _]; [done|]. simpl in *. by destruct (Z.ltb_spec key k'); [|lia].
Qed.

Lemma insert_non_full_ok fuel h m n key v :
  (h < fuel)%nat -> wf h m n -> (length (keys n) < MAX_KEYS)%nat -> sorted (elements n) ->
  al_lookup key (elements n) = None ->
  exists n', insert_non_full_static fuel n key v = Ret (None, n') /\ wf h m n' /\
    elements n' = al_insert key v (elements n).
Proof.
  revert h m n. induction fuel as [|fuel IH]; intros h m n Hfuel Hwf Hroom Hs Habs; [lia|].
  cbn [insert_non_full_static]. destruct h as [|h].
  - apply wf_leaf in Hwf as (kvs & -> & Hm). rewrite elements_leaf in *.
    cbn [leaf keys values is_leaf children] in *. rewrite length_fmap in Hroom.
    rewrite position_absent by (by apply al_lookup_None).
    destruct (insert_leaf_ok m kvs key v) as (a & b & -> & -> & Hw & He); [lia|done..|].
    rewrite !fmap_app, !vec_insert_middle by (by rewrite length_fmap). mstep.
    exists (leaf (a ++ (key, v) :: b)). unfold leaf at 1. by rewrite !fmap_app.
  - apply wf_inner in Hwf as (kvs & cs & -> & Hm & Hlen & Hf).
    pose proof (absent_in_node _ _ _ Hlen Habs) as Hne.
    cbn [inner keys values is_leaf children] in *. rewrite length_fmap in Hroom. rewrite position_absent by done.
    destruct (descend kvs cs key Hlen Hs Hne) as (a & b & cs1 & c & cs2 & Hd).
    rewrite (descent_lookup _ _ _ _ _ _ _ _ Hd) in Habs. destruct Hd. subst kvs cs. rewrite de_index0.
    apply Forall_app in Hf as [Hf1 Hf2]. apply Forall_cons in Hf2 as [Hwc Hf2].
    rewrite vec_at_middle by done. mstep. unfold is_full. pose proof MIN_lt_MAX as Hmm. rewrite length_app in Hroom, Hm.
    destruct (Nat.leb_spec MAX_KEYS (length (keys c))) as [Hfull|Hnf].
    + assert (Hcm : length (keys c) = MAX_KEYS) by (pose proof (wf_length _ _ _ Hwc); lia).
      destruct (split_child_ok h MIN_KEYS a b cs1 c cs2 de_left0 Hwc Hcm) as (c1 & [k w] & c2 & Hsp & Hw1 & Hw2 & Hl1 & Hl2 & He).
      fold (inner (a ++ b) (cs1 ++ c :: cs2)). rewrite Hsp. mstep. cbn [inner keys]. rewrite fmap_app.
      cbn [fmap list_fmap fst]. rewrite vec_at_middle by (by rewrite length_fmap). mstep.
      rewrite <- (elements_split_child a b cs1 c c1 (k, w) c2 cs2 de_left0 He). rewrite He in *.
      destruct (halves key _ _ _ de_sorted0 Habs) as ((Hs1 & Hb1 & Hn1) & Hkk & (Hs2 & Ha2 & Hn2)). cbn [fst] in *.
      destruct (Z.ltb_spec k key) as [Hk|Hk].
      * destruct (IH h MIN_KEYS c2) as (c' & Hrun & Hwf' & He'); [lia|done|lia|done|done|].
        destruct (insert_at_child h m (a ++ [(k, w)]) b (cs1 ++ [c1]) c2 cs2 key v c') as (Hat & Hput & Hw & He2);
          [len_lia|done|len_lia|by apply Forall_app; split; [done|constructor]|done| |done..|].
        { rewrite map_app. apply before_snoc_below; rewrite ?length_map; done. }
        rewrite length_app in Hat, Hput. list_norm_in Hat. list_norm_in Hput. list_norm_in Hw. list_norm_in He2.
        cbn [children inner length] in *. rewrite Hat. mstep. rewrite Hrun. mstep. rewrite Hput. mstep.
        eexists. split; [done|]. cbn [is_leaf keys values]. split; [exact Hw|exact He2].
      * destruct (IH h MIN_KEYS c1) as (c' & Hrun & Hwf' & He'); [lia|done|lia|done|done|].
        destruct (insert_at_child h m a ((k, w) :: b) cs1 c1 (c2 :: cs2) key v c') as (Hat & Hput & Hw & He2);
          [done|simpl; lia|len_lia|done|by constructor|done| |done..|].
        { cbn [map]. apply after_cons_above; [done|done|simpl; lia]. }
        cbn [children inner] in *. rewrite Hat. mstep. rewrite Hrun. mstep. rewrite Hput. mstep.
        eexists. split; [done|]. cbn [is_leaf keys values]. split; [exact Hw|exact He2].
    + mstep. destruct (IH h MIN_KEYS c) as (c' & Hrun & Hwf' & He'); [lia|done|lia|done|done|].
      destruct (insert_at_child h m a b cs1 c cs2 key v c') as (Hat & Hput & Hw & He); try done; [len_lia|].
      cbn [children inner] in *. rewrite Hat. mstep. rewrite Hrun. mstep. rewrite Hput. mstep.
      eexists. split; [done|]. split; [exact Hw|exact He].
Qed.

(** ** Removal in a tree of at most two levels: a root above leaves *)
Lemma remove_leaf_ok fuel e key :
  sorted e ->
  remove_from_node_static (S fuel) (leaf e) key = Ret (al_lookup key e, leaf (al_remove key e)).
Proof.
  intros Hs. cbn [remove_from_node_static leaf keys values is_leaf children].
  pose proof (position_eq_spec e key) as Hp. destruct (position _ _) as [i|].
  - destruct Hp as (a & v & b & -> & ->). rewrite leaf_lookup_split by done.
    rewrite !fmap_app. cbn [fmap list_fmap fst snd]. rewrite !vec_remove_middle by (by rewrite length_fmap). mstep.
    apply sorted_middle in Hs as (_ & _ & Hb & Ha). rewrite al_remove_here by done.
    unfold leaf. by rewrite !fmap_app.
  - rewrite (proj2 (al_lookup_None _ _) Hp). by rewrite al_remove_absent.
Qed.

Lemma remove_max_leaf_ok fuel e x :
  remove_max_static (S fuel) (leaf (e ++ [x])) = Ret (x, leaf e).
Proof.
  destruct x as [k v]. cbn [remove_max_static leaf keys values is_leaf children].
  rewrite !fmap_app. cbn [fmap list_fmap fst snd]. rewrite !vec_pop_snoc. mstep. done.
Qed.

Lemma remove_min_leaf_ok fuel x e :
  remove_min_static (S fuel) (leaf (x :: e)) = Ret (x, leaf e).
Proof. by destruct x as [k v]. Qed.

(** The shape of the trees this section is about. *)
Definition two_level (kvs : list (Z * V)) (es : list (list (Z * V))) : BTreeNode V := inner kvs (map leaf es).

Lemma elements_two_level kvs es : elements (two_level kvs es) = interleave es kvs.
Proof.
  unfold two_level. rewrite elements_inner, map_map. f_equal. rewrite <- (map_id es) at 2.
  apply map_ext. apply elements_leaf.
Qed.

Definition leaf_ok (e : list (Z * V)) : Prop := (MIN_KEYS <= length e <= MAX_KEYS)%nat.

Lemma wf_two_level m n :
  wf 1 m n <-> exists kvs es, n = two_level kvs es /\ (m <= length kvs <= MAX_KEYS)%nat /\
    length es = S (length kvs) /\ Forall leaf_ok es.
Proof.
  rewrite wf_inner. split.
  - intros (kvs & cs & -> & Hm & Hl & Hf).
    assert (exists es, cs = map leaf es /\ Forall leaf_ok es) as (es & -> & Hes).
    { clear Hl. induction Hf as [|c cs Hc _ (es & -> & IH)]; [by exists []|].
      apply wf_leaf in Hc as (e & -> & He). exists (e :: es). split; [done|by constructor]. }
    exists kvs, es. rewrite length_map in Hl. done.
  - intros (kvs & es & -> & Hm & Hl & Hf). exists kvs, (map leaf es). rewrite length_map.
    split; [done|]. split; [done|]. split; [done|]. clear Hl.
    induction Hf as [|e es He _ IH]; [constructor|]. constructor; [|done]. apply wf_leaf. by exists e.
Qed.

Lemma position_at (a : list (Z * V)) key v b :
  Forall (fun p => p.1 <> key) a -> position (fun k => k =? key) ((a ++ (key, v) :: b).*1) = Some (length a).
Proof.
  induction 1 as [|[k w] a Hk _ IH]; [cbn; by rewrite Z.eqb_refl|].
  change ((if k =? key then Some O else S <$> position (fun k => k =? key) ((a ++ (key, v) :: b).*1)) = Some (S (length a))).
  rewrite IH. simpl in Hk. by destruct (Z.eqb_spec k key).
Qed.

Lemma child_index_at (a b : list (Z * V)) key :
  below key a -> above key b -> child_index ((a ++ b).*1) key = length a.
Proof.
  intros Ha Hb. unfold child_index. rewrite fmap_app.
  assert (Hpos : position (fun k => key <? k) (a.*1 ++ b.*1) = match b with [] => None | _ => Some (length a) end).
  { induction Ha as [|[k v] a Hk _ IH]; cbn [fmap list_fmap app fst] in *.
    - destruct Hb as [|[k v] b Hk _]; [done|]. cbn. simpl in Hk. by destruct (Z.ltb_spec key k); [|lia].
    - cbn. simpl in Hk. destruct (Z.ltb_spec key k); [lia|]. rewrite IH. by destruct b. }
  rewrite Hpos. destruct b; simpl; [|done]. rewrite length_app, length_fmap. simpl. lia.
Qed.

(** Where a key that is not a separator belongs. *)
Record spot (kvs : list (Z * V)) (es : list (list (Z * V))) (key : Z)
    (a b : list (Z * V)) (es1 : list (list (Z * V))) (e : list (Z * V)) (es2 : list (list (Z * V))) : Prop := {
  sp_kvs : kvs = a ++ b;
  sp_es : es = es1 ++ e :: es2;
  sp_left : length es1 = length a;
  sp_right : length es2 = length b;
  sp_a : below key a;
  sp_b : above key b
}.

Lemma spot_index kvs es key a b es1 e es2 :
  spot kvs es key a b es1 e es2 -> child_index (kvs.*1) key = length (map leaf es1).
Proof. intros []. subst. rewrite length_map, sp_left0. by apply child_index_at. Qed.

Lemma spot_find kvs es key :
  length es = S (length kvs) -> sorted (interleave es kvs) -> Forall (fun p => p.1 <> key) kvs ->
  exists a b es1 e es2, spot kvs es key a b es1 e es2.
Proof.
  intros Hl Hs Hne. apply sorted_interleave_kvs in Hs; [|done].
  destruct (child_index_spec kvs key Hs Hne) as (a & b & -> & Hi & Ha & Hb).
  rewrite length_app in Hl. destruct (lookup_lt_is_Some_2 es (length a)) as [e He]; [lia|].
  exists a, b, (take (length a) es), e, (drop (S (length a)) es).
  split; try done; [by rewrite take_drop_middle|rewrite length_take; lia|rewrite length_drop; lia].
Qed.

Lemma spot_remove kvs es key a b es1 e es2 :
  spot kvs es key a b es1 e es2 -> sorted (interleave es kvs) ->
  sorted e /\ al_lookup key (interleave es kvs) = al_lookup key e /\
  interleave (es1 ++ al_remove key e :: es2) kvs = al_remove key (interleave es kvs).
Proof.
  intros [] Hs. subst. rewrite !interleave_split in * by done.
  assert (Hb : below key (before es1 a)) by (eapply before_below; [done|exact Hs|done]).
  assert (Ha : above key (after es2 b)).
  { rewrite app_assoc in Hs. eapply after_above; [done|exact Hs|done]. }
  apply sorted_app in Hs as (_ & (Hse & _)%sorted_app & _). split; [done|]. split.
  - rewrite al_lookup_below by done. by apply al_lookup_above.
  - rewrite !al_remove_app, (al_remove_absent _ (before es1 a)), (al_remove_absent _ (after es2 b)); auto with ordmap.
Qed.

(** Removal continues in the leaf at the spot. *)
Lemma remove_at_spot fuel kvs es key a b es1 e es2 :
  spot kvs es key a b es1 e es2 -> sorted (interleave es kvs) ->
  let n' := two_level kvs (es1 ++ al_remove key e :: es2) in
  exists c c', vec_at (map leaf es) (child_index (kvs.*1) key) = Ret c /\
    remove_from_node_static (S fuel) c key = Ret (al_lookup key (interleave es kvs), c') /\
    vec_put (map leaf es) (child_index (kvs.*1) key) c' = Ret (map leaf (es1 ++ al_remove key e :: es2)) /\
    elements n' = al_remove key (interleave es kvs).
Proof.
  intros Hsp Hs n'. destruct (spot_remove _ _ _ _ _ _ _ _ Hsp Hs) as (Hse & Hlk & Hrm).
  exists (leaf e), (leaf (al_remove key e)). rewrite (spot_index _ _ _ _ _ _ _ _ Hsp).
  destruct Hsp. subst. rewrite !map_app. cbn [map].
  rewrite vec_at_middle, vec_put_middle by done. repeat split.
  - rewrite remove_leaf_ok by done. by rewrite Hlk.
  - unfold n'. by rewrite elements_two_level.
Qed.

(** ** Rebalancing the leaves under the root *)
(** The element after position [length l1]. *)
Lemma vec_at_next {A} (l1 : list A) x y l2 i : i = S (length l1) -> vec_at (l1 ++ x :: y :: l2) i = Ret y.
Proof. intros ->. rewrite (cons_middle x), app_assoc. apply vec_at_middle. len_lia. Qed.
Lemma vec_put_next {A} (l1 : list A) x y z l2 i :
  i = S (length l1) -> vec_put (l1 ++ x :: y :: l2) i z = Ret (l1 ++ x :: z :: l2).
Proof.
  intros ->. rewrite (cons_middle x l1 (y :: l2)), app_assoc, vec_put_middle by len_lia.
  by rewrite <- app_assoc.
Qed.
Lemma vec_remove_next {A} (l1 : list A) x y l2 i :
  i = S (length l1) -> vec_remove (l1 ++ x :: y :: l2) i = Ret (y, l1 ++ x :: l2).
Proof.
  intros ->. rewrite (cons_middle x l1 (y :: l2)), app_assoc, vec_remove_middle by len_lia.
  by rewrite <- app_assoc.
Qed.

(** Runs the vector operations of a routine on lists split at their positions. *)
Local Ltac vside := rewrite ?length_fmap, ?length_map; lia.
Local Ltac vec_steps :=
  repeat first
    [ progress mstep
    | progress cbn [leaf keys values is_leaf children negb map fmap list_fmap fst snd]
    | rewrite !fmap_app
    | rewrite vec_pop_snoc
    | rewrite vec_at_middle by vside
    | rewrite vec_at_next by vside
    | rewrite vec_put_middle by vside
    | rewrite vec_put_next by vside
    | rewrite vec_remove_middle by vside
    | rewrite vec_remove_next by vside ].

Lemma borrow_left_ok a s b es1 l x e es2 :
  length es1 = length a ->
  borrow_from_left_static (two_level (a ++ s :: b) (es1 ++ (l ++ [x]) :: e :: es2)) (S (length es1)) =
  Ret (two_level (a ++ x :: b) (es1 ++ l :: (s :: e) :: es2)).
Proof.
  intros Hl. destruct x as [xk xv], s as [sk sv]. unfold borrow_from_left_static, two_level, inner.
  replace (S (length es1) - 1)%nat with (length es1) by lia. by vec_steps.
Qed.

Lemma borrow_right_ok a s b es1 e x r es2 :
  length es1 = length a ->
  borrow_from_right_static (two_level (a ++ s :: b) (es1 ++ e :: (x :: r) :: es2)) (length es1) =
  Ret (two_level (a ++ x :: b) (es1 ++ (e ++ [s]) :: r :: es2)).
Proof.
  intros Hl. destruct x as [xk xv], s as [sk sv]. unfold borrow_from_right_static, two_level, inner.
  replace (length es1 + 1)%nat with (S (length es1)) by lia. vec_steps.
  cbn [vec_remove lookup list_lookup delete list_delete]. vec_steps.
  unfold leaf. by rewrite !fmap_app.
Qed.

Lemma merge_ok a s b es1 l r es2 :
  length es1 = length a ->
  merge_children_static (two_level (a ++ s :: b) (es1 ++ l :: r :: es2)) (length es1) =
  Ret (two_level (a ++ b) (es1 ++ (l ++ s :: r) :: es2)).
Proof.
  intros Hl. destruct s as [sk sv]. unfold merge_children_static, two_level, inner.
  replace (length es1 + 1)%nat with (S (length es1)) by lia. vec_steps.
  unfold leaf. rewrite !fmap_app, <- !app_assoc. done.
Qed.

Lemma rich_child_ok kvs es1 e es2 i :
  i = length es1 -> rich_child (two_level kvs (es1 ++ e :: es2)) i = Ret (MIN_KEYS <? length e)%nat.
Proof. intros ->. unfold rich_child, two_level, inner. vec_steps. by rewrite length_fmap. Qed.

(** The contents around two neighbouring leaves. *)
Lemma interleave_pair a s b es1 l r es2 :
  length es1 = length a ->
  interleave (es1 ++ l :: r :: es2) (a ++ s :: b) = before es1 a ++ (l ++ s :: r) ++ after es2 b.
Proof. intros Hl. rewrite interleave_split by done. rewrite after_cons. list_norm. done. Qed.

Lemma sorted_pair_keys a s b es1 l r es2 :
  length es1 = length a -> sorted (interleave (es1 ++ l :: r :: es2) (a ++ s :: b)) ->
  below s.1 l /\ above s.1 r.
Proof.
  intros Hl Hs. rewrite interleave_pair in Hs by done.
  apply sorted_app in Hs as (_ & (Hs & _)%sorted_app & _). by apply sorted_middle in Hs as (_ & _ & Hb & Ha).
Qed.

(** Rebalancing puts the key's leaf above the minimum and changes no contents. *)
Definition fixed (kvs : list (Z * V)) es (key : Z) kvs' es' : Prop :=
  exists a' b' es1' e' es2', spot kvs' es' key a' b' es1' e' es2' /\ Forall leaf_ok es' /\
    (MIN_KEYS < length e')%nat /\ interleave es' kvs' = interleave es kvs /\ (length kvs' <= length kvs)%nat.

Lemma Forall_pair {A} (P : A -> Prop) l1 x y l2 :
  Forall P (l1 ++ x :: y :: l2) <-> Forall P l1 /\ P x /\ P y /\ Forall P l2.
Proof. rewrite Forall_app, !Forall_cons. tauto. Qed.

Lemma double_MIN : (MIN_KEYS + S MIN_KEYS <= MAX_KEYS)%nat.
Proof. unfold MIN_KEYS, MAX_KEYS, B. simpl. lia. Qed.

Section Fix.
Context (key : Z) (a : list (Z * V)) (s : Z * V) (b : list (Z * V)).
Context (es1 : list (list (Z * V))) (l r : list (Z * V)) (es2 : list (list (Z * V))).
Context (Hl1 : length es1 = length a) (Hl2 : length es2 = length b).
Context (Hs : sorted (interleave (es1 ++ l :: r :: es2) (a ++ s :: b))).
Context (Hok : Forall leaf_ok (es1 ++ l :: r :: es2)) (Ha : below key a) (Hb : above key b).

Local Ltac fix_done :=
  apply Forall_pair in Hok as (Hok1 & Hokl & Hokr & Hok2); unfold leaf_ok in *;
  pose proof double_MIN; repeat rewrite length_app in *; cbn [length] in *;
  rewrite ?Forall_pair, ?Forall_app, ?Forall_cons; rewrite ?length_app; cbn [length];
  repeat split; auto; try lia.

Lemma fixed_borrow_left l' x :
  l = l' ++ [x] -> (MIN_KEYS < length l)%nat -> (length r <= MIN_KEYS)%nat -> s.1 < key ->
  fixed (a ++ s :: b) (es1 ++ l :: r :: es2) key (a ++ x :: b) (es1 ++ l' :: (s :: r) :: es2).
Proof.
  intros -> Hrich Hlow Hk. destruct (sorted_pair_keys _ _ _ _ _ _ _ Hl1 Hs) as [Hx _].
  apply Forall_app in Hx as [_ Hx]. apply Forall_cons in Hx as [Hx _].
  exists (a ++ [x]), b, (es1 ++ [l']), (s :: r), es2. split; [|split; [|split; [|split]]].
  - split; list_norm; try done; [len_lia|]. apply Forall_app; split; [done|]. constructor; [lia|done].
  - fix_done.
  - fix_done.
  - rewrite !interleave_pair by done. list_norm. done.
  - rewrite !length_app. simpl. lia.
Qed.

Lemma fixed_borrow_right x r' :
  r = x :: r' -> (MIN_KEYS < length r)%nat -> (length l <= MIN_KEYS)%nat -> key < s.1 ->
  fixed (a ++ s :: b) (es1 ++ l :: r :: es2) key (a ++ x :: b) (es1 ++ (l ++ [s]) :: r' :: es2).
Proof.
  intros -> Hrich Hlow Hk. destruct (sorted_pair_keys _ _ _ _ _ _ _ Hl1 Hs) as [_ Hx].
  apply Forall_cons in Hx as [Hx _].
  exists a, (x :: b), es1, (l ++ [s]), (r' :: es2). split; [|split; [|split; [|split]]].
  - split; try done; [simpl; lia|]. constructor; [lia|done].
  - fix_done.
  - fix_done.
  - rewrite !interleave_pair by done. list_norm. done.
  - rewrite !length_app. simpl. lia.
Qed.

Lemma fixed_merge :
  (length l <= MIN_KEYS)%nat -> (length r <= MIN_KEYS)%nat ->
  fixed (a ++ s :: b) (es1 ++ l :: r :: es2) key (a ++ b) (es1 ++ (l ++ s :: r) :: es2).
Proof.
  intros Hll Hlr. exists a, b, es1, (l ++ s :: r), es2. split; [|split; [|split; [|split]]].
  - done.
  - fix_done.
  - fix_done.
  - rewrite interleave_pair, interleave_split by done. done.
  - rewrite !length_app. simpl. lia.
Qed.
End Fix.

Lemma fix_right_ok a b es1 e es2 key :
  length es1 = length a -> length es2 = length b -> below key a -> above key b ->
  sorted (interleave (es1 ++ e :: es2) (a ++ b)) -> Forall leaf_ok (es1 ++ e :: es2) ->
  (length e <= MIN_KEYS)%nat ->
  let n := two_level (a ++ b) (es1 ++ e :: es2) in
  (right_rich ← (if (length es1 <? length (children n) - 1)%nat
                 then rich_child n (length es1 + 1) else Ret false); Ret right_rich) =
    Ret (match es2 with r :: _ => (MIN_KEYS <? length r)%nat | [] => false end) /\
  match es2, b with
  | r :: es3, s :: b' =>
      if (MIN_KEYS <? length r)%nat then
        exists kvs' es', borrow_from_right_static n (length es1) = Ret (two_level kvs' es') /\
          fixed (a ++ b) (es1 ++ e :: es2) key kvs' es'
      else
        exists kvs' es', merge_children_static n (length es1) = Ret (two_level kvs' es') /\
          fixed (a ++ b) (es1 ++ e :: es2) key kvs' es'
  | _, _ => True
  end.
Proof.
  intros Hl1 Hl2 Ha Hb Hs Hok Hlow n.
  assert (Hcs : length (children n) = S (length es1 + length es2)).
  { unfold n, two_level, inner. cbn [children]. rewrite length_map. len_lia. }
  rewrite Hcs. destruct es2 as [|r es3].
  { destruct (Nat.ltb_spec (length es1) (S (length es1 + length (@nil (list (Z * V)))) - 1)); [simpl in *; lia|].
    done. }
  destruct b as [|sp b']; [done|]. cbn [length] in Hl2.
  destruct (Nat.ltb_spec (length es1) (S (length es1 + length (r :: es3)) - 1)); [|simpl in *; lia].
  apply Forall_cons in Hb as [Hsp Hb].
  assert (rich_child n (length es1 + 1) = Ret (MIN_KEYS <? length r)%nat) as ->.
  { unfold n. rewrite (cons_middle e es1), app_assoc. apply rich_child_ok. len_lia. }
  split; [done|]. destruct (Nat.ltb_spec MIN_KEYS (length r)).
  - destruct r as [|x r']; [simpl in *; lia|]. eexists _, _. split; [unfold n; by apply borrow_right_ok|].
    apply fixed_borrow_right; try done. lia.
  - eexists _, _. split; [unfold n; by apply merge_ok|]. apply fixed_merge; try done. lia.
Qed.

Lemma fix_child_ok kvs es key a b es1 e es2 :
  spot kvs es key a b es1 e es2 -> sorted (interleave es kvs) -> Forall leaf_ok es ->
  (length e <= MIN_KEYS)%nat -> (MIN_KEYS < length (interleave es kvs))%nat ->
  exists kvs' es', fix_child_static (two_level kvs es) (length es1) = Ret (two_level kvs' es') /\
    fixed kvs es key kvs' es'.
Proof.
  intros [] Hs Hok Hlow Hbig. subst kvs es. unfold fix_child_static.
  destruct (fix_right_ok a b es1 e es2 key) as [Hrr Hright]; try done.
  set (n := two_level (a ++ b) (es1 ++ e :: es2)) in *.
  set (rr := if (length es1 <? length (children n) - 1)%nat then rich_child n (length es1 + 1) else Ret false) in *.
  assert (Hrr' : rr = Ret (match es2 with r :: _ => (MIN_KEYS <? length r)%nat | [] => false end))
    by (destruct rr; exact Hrr).
  destruct a as [|s a0 _] using rev_ind.
  - apply nil_length_inv in sp_left0. subst es1. cbn [Nat.ltb Nat.leb length]. mstep. fold rr. rewrite Hrr'. mstep.
    destruct es2 as [|r es3], b as [|s' b']; try done.
    + simpl in Hbig. rewrite app_nil_r in Hbig. lia.
    + destruct (MIN_KEYS <? length r)%nat; exact Hright.
  - destruct es1 as [|l es0 _] using rev_ind; [rewrite length_app in sp_left0; simpl in sp_left0; lia|].
    rewrite !length_app in sp_left0. cbn [length] in sp_left0.
    apply Forall_app in sp_a0 as [Ha0 [Hsk _]%Forall_cons].
    replace (length (es0 ++ [l])) with (S (length es0)) in * by len_lia.
    cbn [Nat.ltb Nat.leb]. replace (S (length es0) - 1)%nat with (length es0) by lia.
    assert (Hn : n = two_level (a0 ++ s :: b) (es0 ++ l :: e :: es2)) by (unfold n; list_norm; done).
    list_norm_in Hs. list_norm_in Hok. list_norm.
    assert (rich_child n (length es0) = Ret (MIN_KEYS <? length l)%nat) as -> by (rewrite Hn; by apply rich_child_ok).
    mstep. destruct (Nat.ltb_spec MIN_KEYS (length l)) as [Hrich|Hpoor].
    + destruct l as [|x l' _] using rev_ind; [simpl in Hrich; lia|]. rewrite Hn.
      eexists _, _. split; [apply borrow_left_ok; lia|]. apply fixed_borrow_left; try done; lia.
    + fold rr. rewrite Hrr'. mstep.
      assert (Hmerge : exists kvs' es', merge_children_static n (length es0) = Ret (two_level kvs' es') /\
        fixed (a0 ++ s :: b) (es0 ++ l :: e :: es2) key kvs' es').
      { rewrite Hn. eexists _, _. split; [apply merge_ok; lia|]. apply fixed_merge; try done; lia. }
      destruct es2 as [|r es3], b as [|s' b']; try done.
      destruct (MIN_KEYS <? length r)%nat; [|exact Hmerge].
      list_norm_in Hright. exact Hright.
Qed.

(** A leaf above the minimum may lose an entry. *)
Lemma leaf_ok_remove key e : sorted e -> (MIN_KEYS < length e <= MAX_KEYS)%nat -> leaf_ok (al_remove key e).
Proof.
  intros Hs Hm. unfold leaf_ok. pose proof (length_al_remove key e). pose proof (length_al_remove_sorted key e Hs). lia.
Qed.

Lemma spot_wf kvs es key a b es1 e es2 :
  spot kvs es key a b es1 e es2 -> sorted (interleave es kvs) -> Forall leaf_ok es ->
  (length kvs <= MAX_KEYS)%nat -> (MIN_KEYS < length e)%nat ->
  wf 1 0 (two_level kvs (es1 ++ al_remove key e :: es2)).
Proof.
  intros Hsp Hs Hok Hk He. destruct (spot_remove _ _ _ _ _ _ _ _ Hsp Hs) as (Hse & _). destruct Hsp. subst.
  apply Forall_app in Hok as [H1 [H2 H3]%Forall_cons]. apply wf_two_level. eexists _, _. split; [done|].
  split; [lia|]. split; [rewrite !length_app in *; simpl; lia|].
  apply Forall_app. split; [done|]. constructor; [|done]. apply leaf_ok_remove; [done|]. unfold leaf_ok in H2. lia.
Qed.

(** The leaf step of a removal, after rebalancing. *)
Lemma remove_in_spot fuel kvs es key a b es1 e es2 :
  spot kvs es key a b es1 e es2 -> sorted (interleave es kvs) -> Forall leaf_ok es ->
  (length kvs <= MAX_KEYS)%nat -> (MIN_KEYS < length e)%nat ->
  exists n', (let n := two_level kvs es in
      let child_idx := child_index (keys n) key in
      child ← vec_at (children n) child_idx;
      '(r, child') ← remove_from_node_static (S fuel) child key;
      cs ← vec_put (children n) child_idx child';
      Ret (r, mkNode (is_leaf n) (keys n) (values n) cs)) = Ret (al_lookup key (interleave es kvs), n') /\
    wf 1 0 n' /\ elements n' = al_remove key (interleave es kvs).
Proof.
  intros Hsp Hs Hok Hk He.
  destruct (remove_at_spot fuel _ _ _ _ _ _ _ _ Hsp Hs) as (c & c' & Hat & Hrm & Hput & Hel).
  unfold two_level at 1, inner. cbn [children keys values is_leaf]. cbv zeta.
  rewrite Hat. mstep. rewrite Hrm. mstep. rewrite Hput. mstep.
  eexists. split; [done|]. split; [|exact Hel]. by apply (spot_wf kvs es key a b es1 e es2).
Qed.

Lemma two_level_wf a x b es1 l r es2 :
  length es1 = length a -> length es2 = length b -> (length a + S (length b) <= MAX_KEYS)%nat ->
  Forall leaf_ok es1 -> leaf_ok l -> leaf_ok r -> Forall leaf_ok es2 ->
  wf 1 0 (two_level (a ++ x :: b) (es1 ++ l :: r :: es2)).
Proof.
  intros. apply wf_two_level. eexists _, _. split; [done|].
  split; [len_lia|]. split; [len_lia|]. by apply Forall_pair.
Qed.

(** The key is a separator between two leaves. *)
Lemma remove_separator_ok fuel a key v b es :
  length es = S (length (a ++ (key, v) :: b)) -> (length (a ++ (key, v) :: b) <= MAX_KEYS)%nat ->
  Forall leaf_ok es -> sorted (interleave es (a ++ (key, v) :: b)) ->
  exists n', remove_from_node_static (S (S fuel)) (two_level (a ++ (key, v) :: b) es) key =
      Ret (al_lookup key (interleave es (a ++ (key, v) :: b)), n') /\
    wf 1 0 n' /\ elements n' = al_remove key (interleave es (a ++ (key, v) :: b)).
Proof.
  intros Hl Hk Hok Hs.
  assert (Hes : exists es1 l r es2, es = es1 ++ l :: r :: es2 /\ length es1 = length a /\ length es2 = length b).
  { rewrite length_app in Hl. simpl in Hl. destruct (lookup_lt_is_Some_2 es (length a)) as [l Hll]; [lia|].
    destruct (lookup_lt_is_Some_2 es (S (length a))) as [r Hrr]; [lia|].
    exists (take (length a) es), l, r, (drop (S (S (length a))) es).
    rewrite <- (drop_S es r), take_drop_middle, length_take, length_drop by done. repeat split; lia. }
  destruct Hes as (es1 & l & r & es2 & -> & Hl1 & Hl2).
  pose proof Hs as Hsort. rewrite interleave_pair in Hsort by done.
  assert (Habs : below key (before es1 a ++ l) /\ above key (r ++ after es2 b)).
  { list_norm_in Hsort. rewrite app_assoc in Hsort. by apply sorted_middle in Hsort as (_ & _ & ? & ?). }
  assert (Hrm : al_remove key (interleave (es1 ++ l :: r :: es2) (a ++ (key, v) :: b)) =
                before es1 a ++ l ++ r ++ after es2 b).
  { rewrite interleave_pair by done. list_norm. rewrite app_assoc.
    rewrite al_remove_here by apply Habs. by rewrite <- app_assoc. }
  assert (Hlk : al_lookup key (interleave (es1 ++ l :: r :: es2) (a ++ (key, v) :: b)) = Some v).
  { rewrite interleave_pair by done. list_norm. rewrite app_assoc. apply al_lookup_here, Habs. }
  rewrite Hrm, Hlk. pose proof Hok as (Hok1 & Hokl & Hokr & Hok2)%Forall_pair.
  assert (Hpos : position (fun k => k =? key) ((a ++ (key, v) :: b).*1) = Some (length es1)).
  { apply sorted_interleave_kvs, sorted_middle in Hs as (_ & _ & Hba & _); [|done].
    rewrite Hl1. apply position_at. auto with ordmap. }
  set (f1 := S fuel). cbn [remove_from_node_static]. set (n := two_level _ _).
  change (keys n) with ((a ++ (key, v) :: b).*1). rewrite Hpos. cbn [n two_level inner is_leaf]. fold n.
  assert (rich_child n (length es1) = Ret (MIN_KEYS <? length l)%nat) as -> by (by apply rich_child_ok).
  mstep. destruct (Nat.ltb_spec MIN_KEYS (length l)) as [Hrich|Hpoor].
  { destruct l as [|[xk xv] l' _] using rev_ind; [simpl in Hrich; lia|].
    assert (vec_at (children n) (length es1) = Ret (leaf (l' ++ [(xk, xv)]))) as ->
      by (unfold n, two_level, inner; cbn [children]; rewrite map_app; apply vec_at_middle; by rewrite length_map).
    mstep. unfold f1. rewrite remove_max_leaf_ok. mstep. unfold n, two_level, inner. vec_steps.
    exists (two_level (a ++ (xk, xv) :: b) (es1 ++ l' :: r :: es2)). split; [unfold two_level, inner; by vec_steps|].
    split; [|rewrite elements_two_level, interleave_pair by done; list_norm; done].
    rewrite length_app in Hk. apply two_level_wf; try done; unfold leaf_ok in *; rewrite ?length_app in *; simpl in *; lia. }
  assert (rich_child n (length es1 + 1) = Ret (MIN_KEYS <? length r)%nat) as ->.
  { unfold n. rewrite (cons_middle l es1), app_assoc. apply rich_child_ok. len_lia. }
  mstep. destruct (Nat.ltb_spec MIN_KEYS (length r)) as [Hrich|Hpoor2].
  { destruct r as [|[xk xv] r']; [simpl in Hrich; lia|].
    replace (length es1 + 1)%nat with (S (length es1)) by lia.
    assert (vec_at (children n) (S (length es1)) = Ret (leaf ((xk, xv) :: r'))) as ->
      by (unfold n, two_level, inner; cbn [children]; rewrite map_app; apply vec_at_next; by rewrite length_map).
    mstep. unfold f1. rewrite remove_min_leaf_ok. mstep. unfold n, two_level, inner. vec_steps.
    exists (two_level (a ++ (xk, xv) :: b) (es1 ++ l :: r' :: es2)). split; [unfold two_level, inner; by vec_steps|].
    split; [|rewrite elements_two_level, interleave_pair by done; list_norm; done].
    rewrite length_app in Hk. apply two_level_wf; try done; unfold leaf_ok in *; rewrite ?length_app in *; simpl in *; lia. }
  unfold n. rewrite merge_ok by done. mstep.
  assert (Hm : sorted (l ++ (key, v) :: r)) by (by apply sorted_app in Hsort as (_ & (? & _)%sorted_app & _)).
  pose proof Hm as (_ & _ & Hbl & Har)%sorted_middle.
  set (n2 := two_level (a ++ b) _).
  assert (vec_at (children n2) (length es1) = Ret (leaf (l ++ (key, v) :: r))) as ->
    by (unfold n2, two_level, inner; cbn [children]; rewrite map_app; apply vec_at_middle; by rewrite length_map).
  mstep. unfold f1. rewrite remove_leaf_ok by done. mstep. unfold n2, two_level, inner.
  rewrite leaf_lookup_split, al_remove_here by done.
  exists (two_level (a ++ b) (es1 ++ (l ++ r) :: es2)). split; [unfold two_level, inner; by vec_steps|]. split.
  - apply wf_two_level. eexists _, _. rewrite length_app in *. cbn [length] in *. split; [done|]. pose proof double_MIN.
    split; [lia|]. split; [len_lia|]. apply Forall_app; split; [done|]. constructor; [|done].
    unfold leaf_ok in *. rewrite length_app. lia.
  - rewrite elements_two_level, interleave_split by done. by rewrite <- app_assoc.
Qed.

Lemma remove_two_level_ok fuel kvs es key :
  length es = S (length kvs) -> (length kvs <= MAX_KEYS)%nat -> Forall leaf_ok es ->
  sorted (interleave es kvs) -> (MIN_KEYS < length (interleave es kvs))%nat ->
  exists n', remove_from_node_static (S (S fuel)) (two_level kvs es) key =
      Ret (al_lookup key (interleave es kvs), n') /\
    wf 1 0 n' /\ elements n' = al_remove key (interleave es kvs).
Proof.
  intros Hl Hk Hok Hs Hbig. pose proof (position_eq_spec kvs key) as Hp.
  destruct (position (fun k => k =? key) (kvs.*1)) as [i|] eqn:Hpos.
  - destruct Hp as (a & v & b & -> & _). by apply remove_separator_ok.
  - destruct (spot_find kvs es key Hl Hs Hp) as (a & b & es1 & e & es2 & Hsp).
    set (f1 := S fuel). cbn [remove_from_node_static]. change (keys (two_level kvs es)) with (kvs.*1). rewrite Hpos.
    change (is_leaf (two_level kvs es)) with false. cbv iota.
    pose proof (spot_index _ _ _ _ _ _ _ _ Hsp) as Hidx. rewrite length_map in Hidx.
    assert (Hat : vec_at (children (two_level kvs es)) (length es1) = Ret (leaf e)).
    { destruct Hsp. subst es. unfold two_level, inner. cbn [children]. rewrite map_app. apply vec_at_middle.
      by rewrite length_map. }
    rewrite Hidx, Hat. mstep. change (keys (leaf e)) with (e.*1). rewrite length_fmap.
    destruct (Nat.leb_spec (length e) MIN_KEYS) as [Hlow|Hhigh].
    + destruct (fix_child_ok _ _ _ _ _ _ _ _ Hsp Hs Hok Hlow Hbig) as (kvs' & es' & -> & Hfix). mstep.
      destruct Hfix as (a' & b' & es1' & e' & es2' & Hsp' & Hok' & He' & Hsame & Hk').
      rewrite <- Hsame in *. apply (remove_in_spot fuel kvs' es' key a' b' es1' e' es2'); try done. lia.
    + mstep. by apply (remove_in_spot fuel kvs es key a b es1 e es2).
Qed.

(** ** Iteration *)
Definition entries n : list (Z * V) := zip (keys n) (values n).

(** What the iterator has still to yield from a node on its stack. *)
Definition remaining (p : BTreeNode V * nat) : list (Z * V) :=
  let '(n, idx) := p in
  let i := (idx / 2)%nat in
  if is_leaf n then drop idx (entries n)
  else if Nat.even idx then interleave (map elements (drop i (children n))) (drop i (entries n))
  else after (map elements (drop (S i) (children n))) (drop i (entries n)).

Definition sum_steps (cs : list (BTreeNode V)) : nat := foldr (fun c acc => steps c + acc)%nat O cs.

Definition budget (p : BTreeNode V * nat) : nat :=
  let '(n, idx) := p in
  S (length (keys n) + length (children n) - idx + sum_steps (drop (Nat.div (idx + 1) 2) (children n))).

Definition total_budget (st : list (BTreeNode V * nat)) : nat := foldr (fun p acc => budget p + acc)%nat O st.

Definition visiting (p : BTreeNode V * nat) : Prop :=
  (exists h m, wf h m p.1) /\ (p.2 <= length (keys p.1) + length (children p.1))%nat.

Definition outputs (ev : iter_event) (st : list (BTreeNode V * nat)) : list (Z * V) :=
  match ev with Yield kv => [kv] | Continue => [] end ++ concat (map remaining st).

Lemma entries_node kvs lf cs : entries (node lf kvs cs) = kvs.
Proof. apply zip_fst_snd_eq. Qed.

Lemma steps_eq n : steps n = S (length (keys n) + length (children n) + sum_steps (children n)).
Proof. by destruct n. Qed.

Lemma half_even i : (Nat.div (i * 2) 2 = i /\ Nat.div (i * 2 + 1) 2 = i /\ Nat.div (S (i * 2) + 1) 2 = S i)%nat.
Proof.
  split; [by apply Nat.div_mul|]. replace (S (i * 2) + 1)%nat with (S i * 2)%nat by lia.
  split; [|by apply Nat.div_mul]. rewrite Nat.div_add_l by lia. simpl. lia.
Qed.

Lemma visiting_start h m n : wf h m n -> visiting (n, O) /\ remaining (n, O) = elements n /\ budget (n, O) = steps n.
Proof.
  intros Hwf. split; [split; [by exists h, m|simpl; lia]|]. split.
  - destruct h as [|h]; [apply wf_leaf in Hwf as (kvs & -> & _)|apply wf_inner in Hwf as (kvs & cs & -> & _)]; done.
  - unfold budget. rewrite steps_eq. change ((0 + 1) / 2)%nat with O. by rewrite Nat.sub_0_r.
Qed.

Lemma iter_step_leaf kvs idx st :
  (idx <= length kvs)%nat ->
  exists ev st', iter_step (leaf kvs) idx st = Ret (ev, st') /\
    outputs ev st' = remaining (leaf kvs, idx) ++ concat (map remaining st) /\
    total_budget ((leaf kvs, idx) :: st) = S (total_budget st') /\
    (st' = st \/ st' = (leaf kvs, S idx) :: st /\ (S idx <= length kvs)%nat).
Proof.
  intros Hi. unfold iter_step. cbn [leaf is_leaf keys values]. rewrite length_fmap.
  assert (He : entries (leaf kvs) = kvs) by apply zip_fst_snd_eq.
  destruct (Nat.ltb_spec idx (length kvs)) as [Hlt|Hge].
  - destruct (lookup_lt_is_Some_2 kvs idx Hlt) as [[k v] Hkv].
    unfold vec_at. rewrite !list_lookup_fmap, Hkv. mstep. eexists (Yield (k, v)), _. split; [done|].
    split; [|split; [|by right]].
    + unfold outputs. cbn [map concat app remaining]. fold (leaf kvs). change (is_leaf (leaf kvs)) with true. cbv iota.
      rewrite He. by rewrite (drop_S _ _ _ Hkv).
    + cbn [total_budget foldr budget]. fold (leaf kvs). cbn [leaf keys children length]. rewrite length_fmap, !drop_nil. unfold total_budget. cbn [sum_steps foldr]. lia.
  - exists Continue, st. split; [done|]. split; [|split; [|by left]].
    + unfold outputs. cbn [remaining]. change (is_leaf (leaf kvs)) with true. cbv iota. rewrite He, drop_ge by done. done.
    + cbn [total_budget foldr budget leaf keys children length]. rewrite length_fmap, drop_nil. unfold total_budget. cbn [sum_steps foldr]. lia.
Qed.

Lemma sum_steps_drop cs i c : cs !! i = Some c -> sum_steps (drop i cs) = (steps c + sum_steps (drop (S i) cs))%nat.
Proof. intros Hc. by rewrite (drop_S _ _ _ Hc). Qed.

Lemma iter_step_child kvs cs i c st :
  length cs = S (length kvs) -> cs !! i = Some c -> visiting (c, O) ->
  remaining (c, O) = elements c -> budget (c, O) = steps c ->
  let n := inner kvs cs in
  iter_step n (i * 2) st = Ret (Continue, (c, O) :: (n, S (i * 2)) :: st) /\
  remaining (n, (i * 2)%nat) = remaining (c, O) ++ remaining (n, S (i * 2)) /\
  budget (n, (i * 2)%nat) = S (budget (c, O) + budget (n, S (i * 2))).
Proof.
  intros Hl Hc Hv Hr Hbud n. pose proof (lookup_lt_Some _ _ _ Hc) as Hlt.
  destruct (half_even i) as (H1 & H2 & H3).
  assert (Hev : Nat.even (i * 2) = true) by (apply Nat.even_spec; exists i; lia).
  assert (Hod : Nat.even (S (i * 2)) = false) by (rewrite Nat.even_succ, <- Nat.negb_even, Hev; done).
  assert (Hh : Nat.div (S (i * 2)) 2 = i) by (rewrite <- Nat.add_1_r; exact H2).
  assert (He : entries n = kvs) by apply zip_fst_snd_eq.
  split; [|split].
  - unfold iter_step, n, inner. cbn [is_leaf children keys]. rewrite length_fmap.
    destruct (Nat.ltb_spec (i * 2) (length cs + length kvs)); [|lia]. rewrite Hev, H1.
    destruct (Nat.ltb_spec i (length cs)); [|lia]. unfold vec_at. by rewrite Hc.
  - rewrite Hr. unfold remaining. change (is_leaf n) with false. cbv iota.
    rewrite Hev, Hod, H1, Hh, He. change (children n) with cs. by rewrite (drop_S _ _ _ Hc).
  - rewrite Hbud. unfold budget. rewrite H2, H3. change (children n) with cs. change (keys n) with (kvs.*1).
    rewrite (sum_steps_drop cs i c Hc), length_fmap. lia.
Qed.

Lemma iter_step_key kvs cs i kv st :
  length cs = S (length kvs) -> kvs !! i = Some kv ->
  let n := inner kvs cs in
  iter_step n (S (i * 2)) st = Ret (Yield kv, (n, (S i * 2)%nat) :: st) /\
  remaining (n, S (i * 2)) = kv :: remaining (n, (S i * 2)%nat) /\
  budget (n, S (i * 2)) = S (budget (n, (S i * 2)%nat)).
Proof.
  intros Hl Hkv n. pose proof (lookup_lt_Some _ _ _ Hkv) as Hlt. destruct kv as [k v].
  destruct (half_even i) as (H1 & H2 & H3). destruct (half_even (S i)) as (H4 & H5 & H6).
  assert (Hev : Nat.even (S i * 2) = true) by (apply Nat.even_spec; exists (S i); lia).
  assert (Hod : Nat.even (S (i * 2)) = false).
  { rewrite Nat.even_succ, <- Nat.negb_even.
    assert (Nat.even (i * 2) = true) as -> by (apply Nat.even_spec; exists i; lia). done. }
  assert (Hh : Nat.div (S (i * 2)) 2 = i) by (rewrite <- Nat.add_1_r; exact H2).
  assert (He : entries n = kvs) by apply zip_fst_snd_eq.
  assert (Hnext : S (S (i * 2)) = (S i * 2)%nat) by lia.
  split; [|split].
  - unfold iter_step, n, inner. cbn [is_leaf children keys values]. rewrite length_fmap.
    destruct (Nat.ltb_spec (S (i * 2)) (length cs + length kvs)); [|lia]. rewrite Hod, Hh.
    destruct (Nat.ltb_spec i (length kvs)); [|lia]. unfold vec_at. rewrite !list_lookup_fmap, Hkv. mstep.
    by rewrite Hnext.
  - unfold remaining. change (is_leaf n) with false. cbv iota. rewrite Hev, Hod, Hh, H4, He.
    by rewrite (drop_S _ _ _ Hkv).
  - unfold budget. rewrite H3, H5. change (children n) with cs. change (keys n) with (kvs.*1).
    rewrite length_fmap. lia.
Qed.

Lemma iter_step_ok n idx st :
  visiting (n, idx) ->
  exists ev st', iter_step n idx st = Ret (ev, st') /\
    outputs ev st' = remaining (n, idx) ++ concat (map remaining st) /\
    total_budget ((n, idx) :: st) = S (total_budget st') /\
    (Forall visiting st -> Forall visiting st').
Proof.
  intros [(h & m & Hwf) Hidx]. cbn [fst snd] in *. destruct h as [|h].
  { pose proof Hwf as Hw. apply wf_leaf in Hwf as (kvs & -> & _). cbn [leaf keys children] in Hidx. rewrite length_fmap in Hidx.
    destruct (iter_step_leaf kvs idx st) as (ev & st' & H1 & H2 & H3 & H4); [simpl in Hidx; lia|].
    exists ev, st'. repeat split; try done. intros Hst. destruct H4 as [->|[-> Hlt]]; [done|].
    constructor; [|done]. split; [by exists O, m|]. cbn [leaf keys fst snd]. rewrite length_fmap. lia. }
  pose proof Hwf as Hw. apply wf_inner in Hwf as (kvs & cs & -> & _ & Hl & Hf).
  cbn [inner keys children] in Hidx. rewrite length_fmap in Hidx.
  assert (Hv : forall j, (j <= length kvs + length cs)%nat -> visiting (inner kvs cs, j)).
  { intros j Hj. split; [by exists (S h), m|]. cbn [inner keys children fst snd]. rewrite length_fmap. lia. }
  destruct (Nat.even idx) eqn:Hev.
  - apply Nat.even_spec in Hev as [i ->]. rewrite (Nat.mul_comm 2 i) in *.
    destruct (lookup_lt_is_Some_2 cs i) as [c Hc]; [lia|].
    destruct (visiting_start h MIN_KEYS c) as (Hvc & Hrc & Hbc); [by apply (Forall_lookup_1 _ _ _ _ Hf Hc)|].
    destruct (iter_step_child kvs cs i c st Hl Hc Hvc Hrc Hbc) as (H1 & H2 & H3). eexists _, _. split; [exact H1|].
    split; [unfold outputs; cbn [map concat app]; rewrite H2; by rewrite <- app_assoc|].
    split; [unfold total_budget; cbn [foldr]; lia|].
    intros Hst. constructor; [done|]. constructor; [apply Hv; lia|done].
  - assert (Nat.odd idx = true) as [i ->]%Nat.odd_spec by (by rewrite <- Nat.negb_even, Hev).
    replace (2 * i + 1)%nat with (S (i * 2)) in * by lia.
    destruct (decide (i < length kvs)%nat) as [Hlt|Hge].
    + destruct (lookup_lt_is_Some_2 kvs i Hlt) as [kv Hkv].
      destruct (iter_step_key kvs cs i kv st Hl Hkv) as (H1 & H2 & H3). eexists _, _. split; [exact H1|].
      split; [unfold outputs; cbn [map concat app]; by rewrite H2|].
      split; [unfold total_budget; cbn [foldr]; lia|]. intros Hst. constructor; [apply Hv; lia|done].
    + exists Continue, st. assert (Hi : i = length kvs) by lia. subst i. clear Hv.
      assert (Hh : Nat.div (S (length kvs * 2)) 2 = length kvs) by (rewrite <- Nat.add_1_r; apply half_even).
      split; [|split; [|split; [|done]]].
      * unfold iter_step. cbn [inner is_leaf children keys]. rewrite length_fmap.
        destruct (Nat.ltb_spec (S (length kvs * 2)) (length cs + length kvs)); [lia|done].
      * unfold outputs, remaining. change (is_leaf (inner kvs cs)) with false. cbv iota. rewrite Hev, Hh.
        change (entries (inner kvs cs)) with (zip kvs.*1 kvs.*2). rewrite zip_fst_snd_eq, !drop_ge by (simpl; lia). done.
      * unfold total_budget. cbn [foldr budget]. destruct (half_even (length kvs)) as (_ & _ & H3). rewrite H3.
        cbn [inner keys children]. rewrite length_fmap, (drop_ge cs) by lia. cbn [sum_steps foldr]. lia.
Qed.

Lemma collect_ok fuel st :
  Forall visiting st -> (total_budget st <= fuel)%nat -> collect fuel st = Ret (concat (map remaining st)).
Proof.
  revert st. induction fuel as [|fuel IH]; intros [|[n idx] st] Hv Hb; try done.
  { cbn [total_budget foldr budget] in Hb. lia. }
  apply Forall_cons in Hv as [Hn Hst]. cbn [collect].
  destruct (iter_step_ok n idx st Hn) as (ev & st' & -> & Hout & Hbud & Hv'). mstep.
  rewrite IH by (auto; lia). mstep. f_equal. cbn [map concat]. rewrite <- Hout. by destruct ev.
Qed.

Lemma iter_ok h m t : wf h m (root t) -> iter t = Ret (elements (root t)).
Proof.
  intros Hwf. destruct (visiting_start h m _ Hwf) as (Hv & Hr & Hb). unfold iter.
  rewrite collect_ok; [|by constructor|cbn [total_budget foldr]; lia].
  cbn [map concat]. by rewrite Hr, app_nil_r.
Qed.

(** ** Updates in place *)

Lemma get_mut_in_node_ok fuel h m n key f :
  (h < fuel)%nat -> wf h m n -> sorted (elements n) ->
  exists n', get_mut_in_node fuel n key f = Ret (al_lookup key (elements n), n') /\
    wf h m n' /\ elements n' = al_update key f (elements n).
Proof.
  revert h m n. induction fuel as [|fuel IH]; intros h m n Hfuel Hwf Hs; [lia|].
  cbn [get_mut_in_node]. destruct h as [|h].
  - apply wf_leaf in Hwf as (kvs & -> & Hm). rewrite elements_leaf in *. cbn [leaf keys values is_leaf children].
    pose proof (position_eq_spec kvs key) as Hp. destruct (position _ _) as [i|].
    + destruct Hp as (a & v & b & -> & ->). rewrite leaf_lookup_split, al_update_here by done.
      exists (leaf (a ++ (key, f v) :: b)). split; [vec_steps; unfold leaf; by rewrite !fmap_app|].
      rewrite elements_leaf. split; [|done]. apply wf_leaf. eexists. split; [done|]. rewrite length_app in *. done.
    + rewrite (proj2 (al_lookup_None _ _) Hp), al_update_absent by done. exists (leaf kvs).
      rewrite elements_leaf. split; [done|]. split; [|done]. apply wf_leaf. by exists kvs.
  - apply wf_inner in Hwf as (kvs & cs & -> & Hm & Hlen & Hf). cbn [inner keys values is_leaf children].
    pose proof (position_eq_spec kvs key) as Hp. destruct (position _ _) as [i|].
    + destruct Hp as (a & v & b & -> & ->). rewrite length_app in Hlen.
      destruct (elements_at_key a key v b cs) as (cs1 & c1 & c2 & cs2 & -> & _ & _ & He);
        [by rewrite length_app|done|].
      exists (inner (a ++ (key, f v) :: b) (cs1 ++ c1 :: c2 :: cs2)). rewrite !He in *.
      rewrite leaf_lookup_split, al_update_here by done.
      split; [vec_steps; unfold inner; by rewrite !fmap_app|]. split; [|done].
      apply wf_inner. eexists _, _. split; [done|]. rewrite !length_app in *. cbn [length] in *.
      split_and!; try done; lia.
    + destruct (descend kvs cs key Hlen Hs Hp) as (a & b & cs1 & c & cs2 & Hd).
      rewrite (descent_lookup _ _ _ _ _ _ _ _ Hd), (descent_elements _ _ _ _ _ _ _ _ Hd).
      destruct Hd. subst kvs cs. rewrite de_index0. apply Forall_app in Hf as [Hf1 [Hc Hf2]%Forall_cons].
      destruct (IH h MIN_KEYS c) as (c' & Hrun & Hw & He'); [lia|done|done|].
      rewrite vec_at_middle by done. mstep. rewrite Hrun. mstep. rewrite vec_put_middle by done. mstep.
      exists (inner (a ++ b) (cs1 ++ c' :: cs2)). split; [done|]. split.
      * apply wf_inner. eexists _, _. split; [done|]. rewrite !length_app in *. cbn [length] in *. split_and!; try done; try lia.
        apply Forall_app. split; [done|by constructor].
      * rewrite elements_split, He', !al_update_app by done. rewrite (al_update_absent _ _ (before _ _)),
          (al_update_absent _ _ (after _ _)); auto with ordmap.
Qed.

(** ** The whole tree *)
Record tree_ok (h : nat) t (l : list (Z * V)) : Prop := {
  ok_wf : wf h 0 (root t);
  ok_elements : elements (root t) = l;
  ok_sorted : sorted l;
  ok_len : len t = Z.of_nat (length l)
}.

Lemma tree_ok_new : tree_ok 0 new [].
Proof. split; try done. apply wf_leaf. exists []. split; [done|]. simpl. lia. Qed.

Lemma btree_insert_ok h t l key v :
  tree_ok h t l -> Z.of_nat (length l) + 1 < u64_size -> al_lookup key l = None ->
  exists h' t', insert t key v = Ret (None, t') /\ tree_ok h' t' (al_insert key v l) /\
    (if is_full (root t) then h' = S h else h' = h).
Proof.
  intros [Hwf <- Hs Hlen] Hbig Habs. unfold insert.
  assert (Hfin : forall h' r, wf h' 0 r -> (length (keys r) < MAX_KEYS)%nat -> elements r = elements (root t) ->
    exists t', ('(old_value, r') ← insert_non_full_static (height r) r key v;
      Ret (old_value, mkBTree r' (match old_value with Some _ => len t | None => add64 (len t) 1 end))) = Ret (None, t') /\
      tree_ok h' t' (al_insert key v (elements (root t)))).
  { intros h' r Hr Hroom He. rewrite (height_wf _ _ _ Hr).
    destruct (insert_non_full_ok (S h') h' 0 r key v) as (n' & -> & Hw & He'); try rewrite He; try done; [lia|].
    mstep. eexists. split; [done|]. split; cbn [root len]; rewrite ?He', ?He; try done; auto with ordmap.
    rewrite length_al_insert, Hlen, add64_small by lia. lia. }
  unfold is_full. destruct (Nat.leb_spec MAX_KEYS (length (keys (root t)))) as [Hfull|Hnf].
  - pose proof (wf_length _ _ _ Hwf) as Hlk. pose proof MIN_lt_MAX.
    destruct (split_child_ok h 0 [] [] [] (root t) []) as (c1 & kv & c2 & Hsp & Hw1 & Hw2 & Hl1 & Hl2 & He); [done|done|lia|].
    cbn [app length] in Hsp. change (mkNode false [] [] [root t]) with (inner [] [root t]). rewrite Hsp. mstep.
    destruct (Hfin (S h) (inner [kv] [c1; c2])) as (t' & Hrun & Hok).
    + apply wf_inner. exists [kv], [c1; c2]. split_and!; try done; simpl; try lia. repeat constructor; done.
    + unfold MAX_KEYS, B. simpl. lia.
    + rewrite elements_inner, He. cbn [map interleave]. by rewrite app_nil_r.
    + by exists (S h), t'.
  - mstep. destruct (Hfin h (root t)) as (t' & Hrun & Hok); try done. by exists h, t'.
Qed.

(** ** Maps of at most 127 entries: a leaf, or a root above leaves *)
Definition BTREE_CAP : nat := 127.

Lemma interleave_length es kvs :
  length es = S (length kvs) -> Forall leaf_ok es ->
  (MIN_KEYS * S (length kvs) + length kvs <= length (interleave es kvs))%nat.
Proof.
  revert es. induction kvs as [|kv kvs IH]; intros [|e es] Hl Hok; try done;
    apply Forall_cons in Hok as [He Hok]; unfold leaf_ok in He; change MIN_KEYS with 7%nat in *.
  - destruct es; [|done]. simpl. rewrite length_app. simpl. lia.
  - cbn [interleave]. rewrite length_app. cbn [length] in *. specialize (IH es ltac:(lia) Hok). lia.
Qed.

Definition small_ok t (l : list (Z * V)) : Prop :=
  tree_ok 0 t l \/ (tree_ok 1 t l /\ (MIN_KEYS < length l)%nat).

Lemma small_tree t l : small_ok t l -> exists h, tree_ok h t l.
Proof. intros [?|[? _]]; eauto. Qed.

Lemma small_bound t l : small_ok t l -> Z.of_nat (length l) < 1000.
Proof.
  intros [[Hw <- _ _]|[[Hw <- _ _] _]].
  - apply wf_leaf in Hw as (kvs & -> & Hm). rewrite elements_leaf. unfold MAX_KEYS, B in Hm. lia.
  - apply wf_two_level in Hw as (kvs & es & -> & Hm & Hl & Hok). rewrite elements_two_level.
    assert (Hub : (length (interleave es kvs) <= MAX_KEYS * length es + length kvs)%nat).
    { clear Hm. revert es Hl Hok. induction kvs as [|kv kvs IH]; intros [|e es] Hl Hok; try done;
        apply Forall_cons in Hok as [He Hok]; unfold leaf_ok in He; change MAX_KEYS with 15%nat in *;
        cbn [interleave]; rewrite length_app; cbn [length] in *.
      - destruct es; [|done]. simpl. lia.
      - specialize (IH es ltac:(lia) Hok). lia. }
    unfold MAX_KEYS, B in *. lia.
Qed.

Lemma small_insert t l key v :
  small_ok t l -> (length l < BTREE_CAP)%nat -> al_lookup key l = None ->
  exists t', insert t key v = Ret (None, t') /\ small_ok t' (al_insert key v l).
Proof.
  intros Hsm Hcap Habs. pose proof (small_bound _ _ Hsm) as Hbd. pose proof (length_al_insert key v l) as Hlen.
  destruct Hsm as [Hok|[Hok Hbig]].
  - destruct (btree_insert_ok 0 t l key v Hok) as (h' & t' & Hrun & Hok' & Hh); [lia|done|].
    exists t'. split; [done|]. unfold is_full in Hh. destruct (Nat.leb_spec MAX_KEYS (length (keys (root t)))); subst h'; [right|by left].
    split; [done|]. rewrite Hlen. destruct Hok as [Hw He _ _]. apply wf_leaf in Hw as (kvs & Hr & Hm).
    rewrite Hr, ?elements_leaf in *. cbn [leaf keys] in *. rewrite length_fmap in *. subst l. pose proof MIN_lt_MAX. lia.
  - destruct (btree_insert_ok 1 t l key v Hok) as (h' & t' & Hrun & Hok' & Hh); [lia|done|].
    exists t'. split; [done|]. right. split; [|lia]. unfold is_full in Hh.
    destruct (Nat.leb_spec MAX_KEYS (length (keys (root t)))) as [Hfull|]; subst h'; [exfalso|done].
    destruct Hok as [Hw He _ _]. apply wf_two_level in Hw as (kvs & es & Hr & Hm & Hl & Hoks).
    rewrite Hr in He, Hfull. rewrite elements_two_level in He. cbn [two_level inner keys] in Hfull. rewrite length_fmap in Hfull.
    pose proof (interleave_length es kvs Hl Hoks). rewrite He in *. unfold BTREE_CAP, MIN_KEYS, MAX_KEYS, B in *. simpl in *. lia.
Qed.

Lemma small_remove t l key :
  small_ok t l ->
  exists t', remove t key = Ret (al_lookup key l, t') /\ small_ok t' (al_remove key l).
Proof.
  intros Hsm. pose proof (small_bound _ _ Hsm) as Hbd. unfold remove.
  assert (Hlen : forall v, al_lookup key l = Some v -> sorted l ->
    sub64 (Z.of_nat (length l)) 1 = Z.of_nat (length (al_remove key l))).
  { intros v Hv Hs. apply al_lookup_elem, list_elem_of_split in Hv as (l1 & l2 & ->); [|done].
    apply sorted_middle in Hs as (_ & _ & Hb & Ha). simpl in Hb, Ha. rewrite al_remove_here by done.
    rewrite !length_app in *. cbn [length] in *. rewrite sub64_small by lia. lia. }
  destruct Hsm as [[Hw He Hs Hl]|[[Hw He Hs Hl] Hbig]]; rewrite (height_wf _ _ _ Hw).
  - apply wf_leaf in Hw as (kvs & Hr & Hm). rewrite Hr, elements_leaf in *. subst kvs.
    rewrite remove_leaf_ok by done. mstep.
    assert (Hwf : wf 0 0 (leaf (al_remove key l))).
    { apply wf_leaf. eexists. split; [done|]. pose proof (length_al_remove key l). lia. }
    destruct (al_lookup key l) as [v|] eqn:Hv.
    + eexists. split; [done|]. left. rewrite Hl, (Hlen v) by done.
      set (r := leaf (al_remove key l)). change (negb (is_leaf r)) with false.
      destruct (keys r); split; cbn [root len]; auto with ordmap; apply elements_leaf.
    + eexists. split; [done|]. left. rewrite al_remove_absent in * by (by apply al_lookup_None).
      split; cbn [root len]; auto using elements_leaf.
  - apply wf_two_level in Hw as (kvs & es & Hr & Hm & Hles & Hoks). rewrite Hr, elements_two_level in *.
    rewrite <- He in Hs, Hbig. destruct (remove_two_level_ok 0 kvs es key) as (n' & -> & Hw' & He'); try done; [lia|].
    rewrite He in *. mstep. destruct (al_lookup key l) as [v|] eqn:Hv.
    + eexists. split; [done|]. rewrite Hl, (Hlen v) by done. apply wf_two_level in Hw' as (kvs' & es' & -> & Hm' & Hl' & Hok').
      rewrite elements_two_level in He'. destruct kvs' as [|kv kvs'].
      * destruct es' as [|e' [|]]; try done. left. apply Forall_cons in Hok' as [Hle _]. cbn.
        cbn in He'. rewrite app_nil_r in He'. subst e'.
        split; cbn [root len]; auto using elements_leaf with ordmap. apply wf_leaf. eexists. split; [done|].
        unfold leaf_ok in Hle. lia.
      * right. pose proof (interleave_length es' (kv :: kvs') Hl' Hok') as Hbig'. rewrite He' in Hbig'.
        split; [|unfold MIN_KEYS in *; simpl in *; lia]. cbn [two_level inner keys fmap list_fmap].
        split; cbn [root len]; auto with ordmap; [|by rewrite <- He', <- elements_two_level].
        apply wf_two_level. by exists (kv :: kvs'), es'.
    + eexists. split; [done|]. right. rewrite al_remove_absent in * by (by apply al_lookup_None). done.
Qed.

Lemma get_ok h t l key : tree_ok h t l -> get t key = Ret (al_lookup key l).
Proof.
  intros [Hw He Hs _]. unfold get. rewrite (height_wf _ _ _ Hw), <- He.
  apply (get_in_node_ok h 0); [done|by rewrite He].
Qed.

Lemma get_mut_ok h t l key f :
  tree_ok h t l ->
  exists t', get_mut t key f = Ret (al_lookup key l, t') /\ tree_ok h t' (al_update key f l).
Proof.
  intros [Hw He Hs Hl]. unfold get_mut. rewrite (height_wf _ _ _ Hw).
  destruct (get_mut_in_node_ok (S h) h 0 (root t) key f) as (n' & -> & Hw' & He'); [lia|done|by rewrite He|].
  mstep. rewrite He in *. eexists. split; [done|]. split; cbn [root len]; try done.
  - clear -Hs. induction l as [|p l IH]; [done|]. destruct Hs as [Ha Hs]. cbn [al_update map sorted]. split; [|by apply IH].
    replace (if p.1 =? key then (p.1, f p.2) else p).1 with p.1 by (by destruct (p.1 =? key)).
    apply Forall_forall. intros q Hq. apply list_elem_of_fmap in Hq as (q' & -> & Hq').
    eapply Forall_forall in Ha; [|exact Hq']. by destruct (q'.1 =? key).
  - unfold al_update. by rewrite length_map.
Qed.


Lemma first_leaf_ok fuel e : first_in_node (S fuel) (leaf e) = Ret (head e).
Proof. by destruct e as [|[k v] e]. Qed.
Lemma last_leaf_ok fuel e : last_in_node (S fuel) (leaf e) = Ret (last e).
Proof.
  cbn [last_in_node leaf is_leaf keys values]. destruct e as [|[k v] e _] using rev_ind; [done|].
  rewrite !fmap_app, length_app. cbn [fmap list_fmap fst snd length].
  replace (length e.*1 + 1 - 1)%nat with (length e.*1) by lia. rewrite !vec_at_middle by (by rewrite ?length_fmap).
  rewrite last_snoc. destruct (e.*1 ++ [k]) eqn:He; [by destruct (e.*1)|]. by mstep.
Qed.

Lemma small_first t l : small_ok t l -> first t = Ret (head l).
Proof.
  intros Hsm. unfold first, is_empty. destruct Hsm as [[Hw He Hs Hl]|[[Hw He Hs Hl] Hbig]];
    rewrite (height_wf _ _ _ Hw), Hl.
  - apply wf_leaf in Hw as (kvs & Hr & _). rewrite Hr, elements_leaf in He. subst kvs. rewrite Hr.
    destruct l; [done|]. by rewrite first_leaf_ok.
  - apply wf_two_level in Hw as (kvs & es & Hr & _ & Hles & Hok). rewrite Hr, elements_two_level in He. rewrite Hr.
    destruct (Z.eqb_spec (Z.of_nat (length l)) 0); [lia|]. destruct es as [|e es]; [done|].
    apply Forall_cons in Hok as [Hle _]. unfold leaf_ok in Hle. change MIN_KEYS with 7%nat in Hle.
    set (f1 := 1%nat). cbn [first_in_node]. unfold two_level, inner. cbn [is_leaf children map]. unfold vec_at. cbn [lookup list_lookup]. mstep.
    unfold f1. rewrite first_leaf_ok, <- He. cbn [interleave]. rewrite head_app_ne; [done|]. by destruct e; [simpl in Hle; lia|].
Qed.

Lemma small_last t l : small_ok t l -> last_ t = Ret (last l).
Proof.
  intros Hsm. unfold last_, is_empty. destruct Hsm as [[Hw He Hs Hl]|[[Hw He Hs Hl] Hbig]];
    rewrite (height_wf _ _ _ Hw), Hl.
  - apply wf_leaf in Hw as (kvs & Hr & _). rewrite Hr, elements_leaf in He. subst kvs. rewrite Hr.
    destruct l as [|p l]; [done|]. by rewrite last_leaf_ok.
  - apply wf_two_level in Hw as (kvs & es & Hr & _ & Hles & Hok). rewrite Hr, elements_two_level in He. rewrite Hr.
    destruct (Z.eqb_spec (Z.of_nat (length l)) 0); [lia|]. destruct es as [|e es _] using rev_ind; [done|].
    apply Forall_app in Hok as [_ [Hle _]%Forall_cons]. unfold leaf_ok in Hle. change MIN_KEYS with 7%nat in Hle.
    set (f1 := 1%nat). cbn [last_in_node]. unfold two_level, inner. cbn [is_leaf children].
    rewrite map_app, length_app, length_map. cbn [map length]. replace (length es + 1 - 1)%nat with (length es) by lia.
    rewrite vec_at_middle by (by rewrite length_map). mstep. unfold f1. rewrite last_leaf_ok, <- He.
    rewrite length_app in Hles. rewrite <- (app_nil_r kvs), interleave_split by (simpl in Hles; lia).
    cbn [after interleave]. rewrite app_nil_r, last_app_ne; [done|]. by destruct e; [simpl in Hle; lia|].
Qed.
End BTree.

(** The B-tree as an ordered map of at most [BTREE_CAP] entries. *)
#[export] Instance btree_ops V : OrdMapOps (BTree V) V := {
  om_new := new; om_len := len; om_insert := insert; om_remove := remove; om_get := get;
  om_update := get_mut; om_iter := iter; om_first := first; om_last := last_
}.

#[export] Instance btree_ordmap V : OrdMap (BTree V) V.
Proof.
  refine {| om_rep := small_ok; om_cap := BTREE_CAP |}.
  - intros m l [h Hok]%small_tree. apply Hok.
  - left. apply tree_ok_new.
  - intros m l [h Hok]%small_tree. apply Hok.
  - intros. by apply small_insert.
  - intros. by apply small_remove.
  - intros m l k [h Hok]%small_tree. by apply (get_ok h).
  - intros m l k f [Hok|[Hok Hbig]]; destruct (get_mut_ok _ _ _ k f Hok) as (t' & Hrun & Hok'); exists t';
      (split; [done|]); [by left|]. right. split; [done|]. unfold al_update. by rewrite length_map.
  - intros m l [h Hok]%small_tree. cbn. rewrite (iter_ok h 0) by apply Hok. f_equal. apply Hok.
  - intros. by apply small_first.
  - intros. by apply small_last.
Defined.

(** ** Sequences of operations *)
Inductive map_op (V : Type) :=
| OpInsert (k : Z) (v : V)
| OpRemove (k : Z)
| OpGet (k : Z)
| OpIter
| OpFirst
| OpLast.
Arguments OpInsert {V} k v.
Arguments OpRemove {V} k.
Arguments OpGet {V} k.
Arguments OpIter {V}.
Arguments OpFirst {V}.
Arguments OpLast {V}.

Inductive map_answer (V : Type) :=
| AValue (v : option V)
| AEntry (kv : option (Z * V))
| AEntries (l : list (Z * V)).
Arguments AValue {V} v.
Arguments AEntry {V} kv.
Arguments AEntries {V} l.

Section Trace.
Context {V : Type}.

Definition run_op (t : BTree V) (op : map_op V) : exec (map_answer V * BTree V) :=
  match op with
  | OpInsert k v => '(r, t') ← insert t k v; Ret (AValue r, t')
  | OpRemove k => '(r, t') ← remove t k; Ret (AValue r, t')
  | OpGet k => r ← get t k; Ret (AValue r, t)
  | OpIter => r ← iter t; Ret (AEntries r, t)
  | OpFirst => r ← first t; Ret (AEntry r, t)
  | OpLast => r ← last_ t; Ret (AEntry r, t)
  end.

Fixpoint run_ops (t : BTree V) (ops : list (map_op V)) : exec (list (map_answer V)) :=
  match ops with
  | [] => Ret []
  | op :: ops' => '(a, t') ← run_op t op; rest ← run_ops t' ops'; Ret (a :: rest)
  end.

(** The same on the sorted list of entries. *)
Definition spec_op (l : list (Z * V)) (op : map_op V) : map_answer V * list (Z * V) :=
  match op with
  | OpInsert k v => (AValue (al_lookup k l), al_insert k v l)
  | OpRemove k => (AValue (al_lookup k l), al_remove k l)
  | OpGet k => (AValue (al_lookup k l), l)
  | OpIter => (AEntries l, l)
  | OpFirst => (AEntry (head l), l)
  | OpLast => (AEntry (last l), l)
  end.

Fixpoint spec_ops (l : list (Z * V)) (ops : list (map_op V)) : list (map_answer V) :=
  match ops with
  | [] => []
  | op :: ops' => (spec_op l op).1 :: spec_ops (spec_op l op).2 ops'
  end.

(** Insertions are of new keys, into a map below the capacity. *)
Fixpoint admissible (l : list (Z * V)) (ops : list (map_op V)) : bool :=
  match ops with
  | [] => true
  | op :: ops' =>
      match op with
      | OpInsert k _ => match al_lookup k l with None => true | Some _ => false end &&
                        (length l <? BTREE_CAP)%nat
      | _ => true
      end && admissible (spec_op l op).2 ops'
  end.

Lemma run_op_ok t l op :
  small_ok t l -> admissible l [op] = true ->
  exists t', run_op t op = Ret ((spec_op l op).1, t') /\ small_ok t' (spec_op l op).2.
Proof.
  intros Hok Hadm. destruct op as [k v|k|k| | |]; cbn [run_op spec_op fst snd].
  - cbn [admissible] in Hadm. destruct (al_lookup k l) eqn:Hk; [done|]. rewrite andb_true_r in Hadm. cbn [andb] in Hadm. apply Nat.ltb_lt in Hadm.
    destruct (small_insert t l k v Hok Hadm Hk) as (t' & -> & Hok'). by exists t'.
  - destruct (small_remove t l k Hok) as (t' & -> & Hok'). by exists t'.
  - destruct (small_tree t l Hok) as [h Ht]. rewrite (get_ok h t l k Ht). by exists t.
  - destruct (small_tree t l Hok) as [h Ht]. rewrite (iter_ok h 0) by apply Ht. mstep. rewrite (ok_elements _ _ _ Ht). by exists t.
  - rewrite (small_first t l Hok). by exists t.
  - rewrite (small_last t l Hok). by exists t.
Qed.

(** C32. The B-tree is an ordered map as long as it holds at most 127 entries: any sequence
    of insertions of new keys, removals (of present or absent keys), lookups, iterations
    and first/last queries on a new tree runs without a panic and gives exactly the
    answers of the sorted list of entries. *)
Theorem btree_refines_ordered_map (ops : list (map_op V)) :
  admissible [] ops = true -> run_ops new ops = Ret (spec_ops [] ops).
Proof.
  enough (forall t l, small_ok t l -> admissible l ops = true -> run_ops t ops = Ret (spec_ops l ops)) as H
    by (apply H; left; apply tree_ok_new).
  induction ops as [|op ops IH]; intros t l Hok Hadm; [done|].
  cbn [admissible] in Hadm. apply andb_prop in Hadm as [Hop Hadm]. cbn [run_ops spec_ops].
  destruct (run_op_ok t l op Hok) as (t' & -> & Hok'); [cbn [admissible]; by rewrite Hop|].
  mstep. by rewrite (IH _ _ Hok' Hadm).
Qed.

(** Insertion of a new key into a tree of any height never panics: every other key keeps
    its value, the new key gets the new one, iteration yields all entries in ascending
    order, and the node invariants (fill between 7 and 15 keys, uniform depth) hold
    again. *)
Theorem insert_new_key_any_height (h : nat) (t : BTree V) l key v :
  tree_ok h t l -> Z.of_nat (length l) + 1 < u64_size -> al_lookup key l = None ->
  exists h' t', insert t key v = Ret (None, t') /\ tree_ok h' t' (al_insert key v l) /\
    iter t' = Ret (al_insert key v l) /\ sorted (al_insert key v l) /\
    forall k, get t' k = Ret (if k =? key then Some v else al_lookup k l).
Proof.
  intros Hok Hbig Habs. destruct (btree_insert_ok h t l key v Hok Hbig Habs) as (h' & t' & Hrun & Hok' & _).
  exists h', t'. split; [done|]. split; [done|]. split; [|split; [apply Hok'|]].
  - rewrite (iter_ok h' 0) by apply Hok'. f_equal. apply Hok'.
  - intros k. rewrite (get_ok h' t' _ k Hok'). f_equal. by apply al_lookup_insert.
Qed.
End Trace.

(** Sixteen insertions split the root; then a separator and an absent key are removed. *)
Definition ex_ops : list (map_op Z) :=
  map (fun k => OpInsert k (k * k)) (zrange 0 16) ++
  [OpRemove 7; OpRemove 99; OpGet 8; OpFirst; OpLast; OpIter].

Lemma btree_refines_ordered_map_witness :
  admissible [] ex_ops = true /\ run_ops new ex_ops = Ret (spec_ops [] ex_ops) /\
  length (spec_ops [] ex_ops) = 22%nat.
Proof.
  split; [vm_compute; reflexivity|]. split; [|vm_compute; reflexivity].
  apply (btree_refines_ordered_map ex_ops). vm_compute. reflexivity.
Defined.

Lemma insert_new_key_any_height_witness :
  exists h' t', insert (@new Z) 5 50 = Ret (None, t') /\ tree_ok h' t' [(5, 50)] /\ get t' 5 = Ret (Some 50).
Proof.
  destruct (insert_new_key_any_height 0 (@new Z) [] 5 50 tree_ok_new ltac:(simpl; lia) eq_refl)
    as (h' & t' & H1 & H2 & _ & _ & H3).
  exists h', t'. split; [exact H1|]. split; [exact H2|exact (H3 5)].
Defined.

(** [insert] of keys in a row, and removals of the first key of the root. *)
Fixpoint insert_all (t : BTree Z) (ks : list Z) : exec (BTree Z) :=
  match ks with
  | [] => Ret t
  | k :: ks' => '(_, t') ← insert t k k; insert_all t' ks'
  end.

Fixpoint remove_root_keys (n : nat) (t : BTree Z) : exec (BTree Z) :=
  match n with
  | O => Ret t
  | S n' => k ← vec_at (keys (root t)) 0; '(_, t') ← remove t k; remove_root_keys n' t'
  end.

(** The middle key of a full child that is split on the way down is not recognised: it
    is inserted a second time instead of being replaced. *)
Example insert_duplicates_middle_key :
  (t ← insert_all new (zrange 0 23);
   before ← get t 15;
   '(old, t') ← insert t 15 99;
   l ← iter t';
   Ret (before, old, len t', filter (fun kv => kv.1 = 15) l)) =
  Ret (Some 15, None, 24, [(15, 99); (15, 15)]).
Proof. vm_compute. reflexivity. Qed.

(** [remove_max_static] takes the predecessor out of a leaf without refilling it: in a
    tree of three levels, the ninth removal of a separator of the root finds the leaf
    empty and panics. *)
Example remove_panics_on_three_levels :
  (t ← insert_all new (zrange 0 200);
   t8 ← remove_root_keys 8 t;
   Ret (height (root t), len t8)) = Ret (3%nat, 192) /\
  (t ← insert_all new (zrange 0 200); remove_root_keys 9 t) = Panic.
Proof. split; vm_compute; reflexivity. Qed.
