(* ===== verification/RbTree.v ===== *)
(** * Red-black tree: kernel/src/libs/rbtree/tree.rs

    An ordered map whose nodes are boxed and linked by raw pointers to their children and to
    their parent.  The state [Rb] of a tree is its two fields and the heap its nodes live in,
    which may hold other nodes as well.  A pointer is [None] when null; reading or writing
    through a null or dangling pointer is [Panic].  Keys are [u64], values arbitrary; a
    [&mut V] is the pointer to the node that holds the value.  Loops run on fuel: one more
    than the heap has nodes. *)

From S2P Require Import Prelude OrdMap.
#[local] Open Scope Z_scope.

(** ** Data *)
Inductive Color := Red | Black.
#[export] Instance Color_eq_dec : EqDecision Color.
Proof. solve_decision. Defined.

Definition ptr : Type := option positive.
Definition is_null (p : ptr) : bool := match p with None => true | Some _ => false end.
Definition same (p q : ptr) : bool := bool_decide (p = q).
Definition is_color (c d : Color) : bool := bool_decide (c = d).

Record RbNode (V : Type) := mkRbNode {
  key : Z; value : V; left : ptr; right : ptr; parent : ptr; ncolor : Color
}.
Arguments mkRbNode {V}.
Arguments key {V}.
Arguments value {V}.
Arguments left {V}.
Arguments right {V}.
Arguments parent {V}.
Arguments ncolor {V}.

(** [RbTree] with the heap of its nodes. *)
Record Rb (V : Type) := mkRb { heap : gmap positive (RbNode V); root : ptr; len : Z }.
Arguments mkRb {V}.
Arguments heap {V}.
Arguments root {V}.
Arguments len {V}.

(** Bounds of a range ([core::ops::Bound]). *)
Inductive Bound := Included (k : Z) | Excluded (k : Z) | Unbounded.

(** ** Computations on a tree *)
Definition RbST (V A : Type) : Type := Rb V -> exec (A * Rb V).
#[export] Instance rbst_ret V : MRet (RbST V) := fun A a s => Ret (a, s).
#[export] Instance rbst_bind V : MBind (RbST V) := fun A B f c s =>
  match c s with Ret (a, s') => f a s' | Panic => Panic | OutOfFuel => OutOfFuel end.

Section Model.
Context {V : Type}.
Implicit Types s : Rb V.

#[local] Abbreviation ST := (RbST V).

Definition stop {A} : ST A := fun _ => OutOfFuel.
Definition fuelled {A} (c : nat -> ST A) : ST A := fun s => c (S (size (heap s))) s.
Definition get_root : ST ptr := fun s => Ret (root s, s).
Definition set_root (p : ptr) : ST unit := fun s => Ret (tt, mkRb (heap s) p (len s)).
Definition set_len (f : Z -> Z) : ST unit := fun s => Ret (tt, mkRb (heap s) (root s) (f (len s))).
Definition put_heap (h : gmap positive (RbNode V)) (s : Rb V) : Rb V := mkRb h (root s) (len s).

Definition load (p : ptr) : ST (RbNode V) := fun s =>
  match p with
  | Some x => match heap s !! x with Some n => Ret (n, s) | None => Panic end
  | None => Panic
  end.
Definition store (p : ptr) (f : RbNode V -> RbNode V) : ST unit := fun s =>
  match p with
  | Some x => match heap s !! x with
              | Some n => Ret (tt, put_heap (<[x := f n]> (heap s)) s)
              | None => Panic
              end
  | None => Panic
  end.
Definition with_left (q : ptr) (n : RbNode V) := mkRbNode (key n) (value n) q (right n) (parent n) (ncolor n).
Definition with_right (q : ptr) (n : RbNode V) := mkRbNode (key n) (value n) (left n) q (parent n) (ncolor n).
Definition with_parent (q : ptr) (n : RbNode V) := mkRbNode (key n) (value n) (left n) (right n) q (ncolor n).
Definition with_color (c : Color) (n : RbNode V) := mkRbNode (key n) (value n) (left n) (right n) (parent n) c.
Definition with_value (v : V) (n : RbNode V) := mkRbNode (key n) v (left n) (right n) (parent n) (ncolor n).

(** [Box::into_raw(Box::new(..))] and [Box::from_raw]. *)
Definition node_new (k : Z) (v : V) : ST ptr := fun s =>
  let x := fresh (dom (heap s)) in
  Ret (Some x, put_heap (<[x := mkRbNode k v None None None Red]> (heap s)) s).
Definition box_from_raw (p : ptr) : ST (RbNode V) := fun s =>
  match p with
  | Some x => match heap s !! x with
              | Some n => Ret (n, put_heap (base.delete x (heap s)) s)
              | None => Panic
              end
  | None => Panic
  end.

(** ** Helpers on raw pointers *)
Definition color (p : ptr) : ST Color :=
  if is_null p then mret Black else n ← load p; mret (ncolor n).
Definition set_color (p : ptr) (c : Color) : ST unit :=
  if is_null p then mret tt else store p (with_color c).

Fixpoint tree_minimum_loop (fuel : nat) (p : ptr) : ST ptr :=
  match fuel with
  | O => stop
  | S fuel =>
      if is_null p then mret p else
      n ← load p;
      if is_null (left n) then mret p else tree_minimum_loop fuel (left n)
  end.
Definition tree_minimum (p : ptr) : ST ptr := fuelled (fun fuel => tree_minimum_loop fuel p).

Fixpoint tree_maximum_loop (fuel : nat) (p : ptr) : ST ptr :=
  match fuel with
  | O => stop
  | S fuel =>
      if is_null p then mret p else
      n ← load p;
      if is_null (right n) then mret p else tree_maximum_loop fuel (right n)
  end.
Definition tree_maximum (p : ptr) : ST ptr := fuelled (fun fuel => tree_maximum_loop fuel p).

Fixpoint successor_loop (fuel : nat) (x y : ptr) : ST ptr :=
  match fuel with
  | O => stop
  | S fuel =>
      if is_null y then mret y else
      n ← load y;
      if same x (right n) then successor_loop fuel y (parent n) else mret y
  end.
Definition successor (p : ptr) : ST ptr :=
  if is_null p then mret None else
  n ← load p;
  if negb (is_null (right n)) then tree_minimum (right n)
  else fuelled (fun fuel => successor_loop fuel p (parent n)).

Fixpoint predecessor_loop (fuel : nat) (x y : ptr) : ST ptr :=
  match fuel with
  | O => stop
  | S fuel =>
      if is_null y then mret y else
      n ← load y;
      if same x (left n) then predecessor_loop fuel y (parent n) else mret y
  end.
Definition predecessor (p : ptr) : ST ptr :=
  if is_null p then mret None else
  n ← load p;
  if negb (is_null (left n)) then tree_maximum (left n)
  else fuelled (fun fuel => predecessor_loop fuel p (parent n)).

Fixpoint free_subtree_loop (fuel : nat) (p : ptr) : ST unit :=
  match fuel with
  | O => stop
  | S fuel =>
      if is_null p then mret tt else
      n ← load p;
      free_subtree_loop fuel (left n);;
      n' ← load p;
      free_subtree_loop fuel (right n');;
      box_from_raw p;;
      mret tt
  end.
Definition free_subtree (p : ptr) : ST unit := fuelled (fun fuel => free_subtree_loop fuel p).

(** ** Rotations and repair *)
Definition rotate_left (x : ptr) : ST unit :=
  nx ← load x;
  let y := right nx in
  ny ← load y;
  store x (with_right (left ny));;
  (if negb (is_null (left ny)) then store (left ny) (with_parent x) else mret tt);;
  nx ← load x;
  store y (with_parent (parent nx));;
  (if is_null (parent nx) then set_root y
   else np ← load (parent nx);
        if same x (left np) then store (parent nx) (with_left y) else store (parent nx) (with_right y));;
  store y (with_left x);;
  store x (with_parent y).

Definition rotate_right (x : ptr) : ST unit :=
  nx ← load x;
  let y := left nx in
  ny ← load y;
  store x (with_left (right ny));;
  (if negb (is_null (right ny)) then store (right ny) (with_parent x) else mret tt);;
  nx ← load x;
  store y (with_parent (parent nx));;
  (if is_null (parent nx) then set_root y
   else np ← load (parent nx);
        if same x (right np) then store (parent nx) (with_right y) else store (parent nx) (with_left y));;
  store y (with_right x);;
  store x (with_parent y).

Definition transplant (u v : ptr) : ST unit :=
  nu ← load u;
  (if is_null (parent nu) then set_root v
   else np ← load (parent nu);
        if same u (left np) then store (parent nu) (with_left v) else store (parent nu) (with_right v));;
  nu ← load u;
  if negb (is_null v) then store v (with_parent (parent nu)) else mret tt.

Fixpoint rb_insert_fixup_loop (fuel : nat) (z : ptr) : ST unit :=
  match fuel with
  | O => stop
  | S fuel =>
      nz ← load z;
      let p := parent nz in
      cp ← color p;
      if is_null p || negb (is_color cp Red) then mret tt else
      np ← load p;
      let gp := parent np in
      ng ← load gp;
      if same p (left ng) then
        let uncle := right ng in
        cu ← color uncle;
        if is_color cu Red then
          set_color p Black;; set_color uncle Black;; set_color gp Red;;
          rb_insert_fixup_loop fuel gp
        else
          np ← load p;
          z ← (if same z (right np) then rotate_left p;; mret p else mret z);
          nz ← load z;
          let p := parent nz in
          np ← load p;
          let gp := parent np in
          set_color p Black;; set_color gp Red;; rotate_right gp;;
          rb_insert_fixup_loop fuel z
      else
        let uncle := left ng in
        cu ← color uncle;
        if is_color cu Red then
          set_color p Black;; set_color uncle Black;; set_color gp Red;;
          rb_insert_fixup_loop fuel gp
        else
          np ← load p;
          z ← (if same z (left np) then rotate_right p;; mret p else mret z);
          nz ← load z;
          let p := parent nz in
          np ← load p;
          let gp := parent np in
          set_color p Black;; set_color gp Red;; rotate_left gp;;
          rb_insert_fixup_loop fuel z
  end.
Definition rb_insert_fixup (z : ptr) : ST unit :=
  fuelled (fun fuel => rb_insert_fixup_loop fuel z);;
  r ← get_root;
  set_color r Black.

(** One pass of the loop returns the next [x] and [x_parent]. *)
Fixpoint rb_delete_fixup_loop (fuel : nat) (x x_parent : ptr) : ST ptr :=
  match fuel with
  | O => stop
  | S fuel =>
      r ← get_root;
      cx ← color x;
      if same x r || negb (is_color cx Black) then mret x else
      p ← (if negb (is_null x) then nx ← load x; mret (parent nx) else mret x_parent);
      if is_null p then mret x else
      np ← load p;
      if same x (left np) then
        let w := right np in
        cw ← color w;
        w ← (if is_color cw Red then
               set_color w Black;; set_color p Red;; rotate_left p;; np ← load p; mret (right np)
             else mret w);
        nw ← load w;
        cl ← color (left nw);
        cr ← color (right nw);
        if is_color cl Black && is_color cr Black then
          set_color w Red;;
          np ← load p;
          rb_delete_fixup_loop fuel p (parent np)
        else
          w ← (if is_color cr Black then
                 set_color (left nw) Black;; set_color w Red;; rotate_right w;; np ← load p; mret (right np)
               else mret w);
          cp ← color p;
          set_color w cp;;
          set_color p Black;;
          nw ← load w;
          set_color (right nw) Black;;
          rotate_left p;;
          r ← get_root;
          rb_delete_fixup_loop fuel r None
      else
        let w := left np in
        cw ← color w;
        w ← (if is_color cw Red then
               set_color w Black;; set_color p Red;; rotate_right p;; np ← load p; mret (left np)
             else mret w);
        nw ← load w;
        cr ← color (right nw);
        cl ← color (left nw);
        if is_color cr Black && is_color cl Black then
          set_color w Red;;
          np ← load p;
          rb_delete_fixup_loop fuel p (parent np)
        else
          w ← (if is_color cl Black then
                 set_color (right nw) Black;; set_color w Red;; rotate_left w;; np ← load p; mret (left np)
               else mret w);
          cp ← color p;
          set_color w cp;;
          set_color p Black;;
          nw ← load w;
          set_color (left nw) Black;;
          rotate_right p;;
          r ← get_root;
          rb_delete_fixup_loop fuel r None
  end.
Definition rb_delete_fixup (x x_parent : ptr) : ST unit :=
  x ← fuelled (fun fuel => rb_delete_fixup_loop fuel x x_parent);
  set_color x Black.

(** ** Searching *)
Section Search.
Variable k : Z.
Fixpoint find_node_loop (fuel : nat) (cur : ptr) : ST ptr :=
  match fuel with
  | O => stop
  | S fuel =>
      if is_null cur then mret None else
      n ← load cur;
      if k <? key n then find_node_loop fuel (left n)
      else if key n <? k then find_node_loop fuel (right n)
      else mret cur
  end.
Definition find_node : ST ptr := r ← get_root; fuelled (fun fuel => find_node_loop fuel r).

(** The four searches for a neighbour remember the best node so far in [result]. *)
Fixpoint floor_node_loop (fuel : nat) (result cur : ptr) : ST ptr :=
  match fuel with
  | O => stop
  | S fuel =>
      if is_null cur then mret result else
      n ← load cur;
      if key n <=? k then floor_node_loop fuel cur (right n) else floor_node_loop fuel result (left n)
  end.
Definition floor_node : ST ptr := r ← get_root; fuelled (fun fuel => floor_node_loop fuel None r).

Fixpoint lower_bound_node_loop (fuel : nat) (result cur : ptr) : ST ptr :=
  match fuel with
  | O => stop
  | S fuel =>
      if is_null cur then mret result else
      n ← load cur;
      if k <=? key n then lower_bound_node_loop fuel cur (left n) else lower_bound_node_loop fuel result (right n)
  end.
Definition lower_bound_node : ST ptr :=
  r ← get_root; fuelled (fun fuel => lower_bound_node_loop fuel None r).

Fixpoint upper_bound_node_loop (fuel : nat) (result cur : ptr) : ST ptr :=
  match fuel with
  | O => stop
  | S fuel =>
      if is_null cur then mret result else
      n ← load cur;
      if k <? key n then upper_bound_node_loop fuel cur (left n) else upper_bound_node_loop fuel result (right n)
  end.
Definition upper_bound_node : ST ptr :=
  r ← get_root; fuelled (fun fuel => upper_bound_node_loop fuel None r).

Fixpoint lower_than_node_loop (fuel : nat) (result cur : ptr) : ST ptr :=
  match fuel with
  | O => stop
  | S fuel =>
      if is_null cur then mret result else
      n ← load cur;
      if key n <? k then lower_than_node_loop fuel cur (right n) else lower_than_node_loop fuel result (left n)
  end.
Definition lower_than_node : ST ptr :=
  r ← get_root; fuelled (fun fuel => lower_than_node_loop fuel None r).

(** The descent of [internal_insert]. *)
Fixpoint insert_place_loop (fuel : nat) (parent_ptr cur : ptr) : ST ptr :=
  match fuel with
  | O => stop
  | S fuel =>
      if is_null cur then mret parent_ptr else
      n ← load cur;
      if k <? key n then insert_place_loop fuel cur (left n) else insert_place_loop fuel cur (right n)
  end.
End Search.

(** ** Insertion and removal of nodes *)
Definition internal_insert (node : ptr) : ST unit :=
  r ← get_root;
  nn ← load node;
  parent_ptr ← fuelled (fun fuel => insert_place_loop (key nn) fuel None r);
  store node (with_parent parent_ptr);;
  store node (with_left None);;
  store node (with_right None);;
  store node (with_color Red);;
  (if is_null parent_ptr then set_root node
   else np ← load parent_ptr;
        if key nn <? key np then store parent_ptr (with_left node) else store parent_ptr (with_right node));;
  set_len (fun n => add64 n 1);;
  rb_insert_fixup node.

Definition internal_delete (z : ptr) : ST (RbNode V) :=
  nz ← load z;
  '(need_fixup, x, x_parent) ←
    (if is_null (left nz) then
       transplant z (right nz);;
       mret (ncolor nz, right nz, parent nz)
     else if is_null (right nz) then
       transplant z (left nz);;
       mret (ncolor nz, left nz, parent nz)
     else
       y ← tree_minimum (right nz);
       ny ← load y;
       (if same (parent ny) z then mret tt
        else
          transplant y (right ny);;
          nz ← load z;
          store y (with_right (right nz));;
          store (right nz) (with_parent y));;
       transplant z y;;
       nz ← load z;
       store y (with_left (left nz));;
       store (left nz) (with_parent y);;
       store y (with_color (ncolor nz));;
       mret (ncolor ny, right ny, if same (parent ny) z then y else parent ny));
  set_len (fun n => sub64 n 1);;
  r ← get_root;
  (if is_color need_fixup Black && negb (is_null r) then rb_delete_fixup x x_parent else mret tt);;
  store z (with_left None);;
  store z (with_right None);;
  store z (with_parent None);;
  box_from_raw z.

(** ** Queries *)
Definition entry_of (p : ptr) : ST (option (Z * V)) :=
  if is_null p then mret None else n ← load p; mret (Some (key n, value n)).

Definition contains_key (k : Z) : ST bool := p ← find_node k; mret (negb (is_null p)).
Definition get (k : Z) : ST (option V) :=
  p ← find_node k;
  if is_null p then mret None else n ← load p; mret (Some (value n)).
(** [get_mut] and the caller's update through the reference; the answer is the old value. *)
Definition get_mut (k : Z) (f : V -> V) : ST (option V) :=
  p ← find_node k;
  if is_null p then mret None else
  n ← load p; store p (with_value (f (value n)));; mret (Some (value n)).
Definition get_key_value (k : Z) : ST (option (Z * V)) := p ← find_node k; entry_of p.
Definition first_key_value : ST (option (Z * V)) := r ← get_root; p ← tree_minimum r; entry_of p.
Definition last_key_value : ST (option (Z * V)) := r ← get_root; p ← tree_maximum r; entry_of p.
Definition lower_bound (k : Z) : ST (option (Z * V)) := p ← lower_bound_node k; entry_of p.
Definition upper_bound (k : Z) : ST (option (Z * V)) := p ← upper_bound_node k; entry_of p.
Definition floor (k : Z) : ST (option (Z * V)) := p ← floor_node k; entry_of p.
Definition lower_than (k : Z) : ST (option (Z * V)) := p ← lower_than_node k; entry_of p.

(** ** Changes *)
Definition insert (k : Z) (v : V) : ST (option V) :=
  existing ← find_node k;
  if negb (is_null existing) then
    n ← load existing;
    store existing (with_value v);;
    mret (Some (value n))
  else
    node ← node_new k v;
    internal_insert node;;
    mret None.

Definition remove (k : Z) : ST (option V) :=
  node ← find_node k;
  if is_null node then mret None else
  boxed ← internal_delete node; mret (Some (value boxed)).
Definition remove_entry (k : Z) : ST (option (Z * V)) :=
  node ← find_node k;
  if is_null node then mret None else
  boxed ← internal_delete node; mret (Some (key boxed, value boxed)).
Definition clear : ST unit :=
  r ← get_root; free_subtree r;; set_root None;; set_len (fun _ => 0).
Definition pop_first : ST (option (Z * V)) :=
  r ← get_root; node ← tree_minimum r;
  if is_null node then mret None else
  boxed ← internal_delete node; mret (Some (key boxed, value boxed)).
Definition pop_last : ST (option (Z * V)) :=
  r ← get_root; node ← tree_maximum r;
  if is_null node then mret None else
  boxed ← internal_delete node; mret (Some (key boxed, value boxed)).

(** [retain]: the closure sees the keys in order and may change the values and its own state
    [St]; the rejected nodes are removed afterwards. *)
Section Retain.
Context {St : Type}.
Variable f : St -> Z -> V -> bool * V * St.
Fixpoint retain_scan (fuel : nat) (st : St) (node : ptr) : ST (list ptr * St) :=
  match fuel with
  | O => stop
  | S fuel =>
      if is_null node then mret ([], st) else
      next ← successor node;
      n ← load node;
      let '(keep, v, st') := f st (key n) (value n) in
      store node (with_value v);;
      '(rest, st'') ← retain_scan fuel st' next;
      mret (if keep then rest else node :: rest, st'')
  end.
Fixpoint delete_all (ps : list ptr) : ST unit :=
  match ps with
  | [] => mret tt
  | p :: ps' => internal_delete p;; delete_all ps'
  end.
Definition retain (st : St) : ST St :=
  r ← get_root; node ← tree_minimum r;
  '(nodes_to_remove, st') ← fuelled (fun fuel => retain_scan fuel st node);
  delete_all nodes_to_remove;;
  mret st'.
End Retain.

(** ** Iteration *)
(** [RbIter::next]: the entry and the new [current]. *)
Definition iter_next (current : ptr) : ST (option (Z * V) * ptr) :=
  if is_null current then mret (None, current) else
  n ← load current;
  next ← successor current;
  mret (Some (key n, value n), next).
Fixpoint iter_collect (fuel : nat) (current : ptr) : ST (list (Z * V)) :=
  match fuel with
  | O => stop
  | S fuel =>
      '(e, next) ← iter_next current;
      match e with
      | None => mret []
      | Some kv => rest ← iter_collect fuel next; mret (kv :: rest)
      end
  end.
Definition iter : ST (list (Z * V)) :=
  r ← get_root; current ← tree_minimum r; fuelled (fun fuel => iter_collect fuel current).

Definition past_end (e : Bound) (k : Z) : bool :=
  match e with Included e => e <? k | Excluded e => e <=? k | Unbounded => false end.
(** [RbRangeIter::next]. *)
Definition range_next (end_bound : Bound) (current : ptr) : ST (option (Z * V) * ptr) :=
  if is_null current then mret (None, current) else
  n ← load current;
  if past_end end_bound (key n) then mret (None, current) else
  next ← successor current;
  mret (Some (key n, value n), next).
Fixpoint range_collect (fuel : nat) (end_bound : Bound) (current : ptr) : ST (list (Z * V)) :=
  match fuel with
  | O => stop
  | S fuel =>
      '(e, next) ← range_next end_bound current;
      match e with
      | None => mret []
      | Some kv => rest ← range_collect fuel end_bound next; mret (kv :: rest)
      end
  end.
Definition range_start (start_bound : Bound) : ST ptr :=
  match start_bound with
  | Included k => lower_bound_node k
  | Excluded k => upper_bound_node k
  | Unbounded => r ← get_root; tree_minimum r
  end.
Definition range (start_bound end_bound : Bound) : ST (list (Z * V)) :=
  current ← range_start start_bound; fuelled (fun fuel => range_collect fuel end_bound current).

(** ** Entries *)
Inductive Entry := Occupied (node : ptr) | Vacant (k : Z).
Definition entry (k : Z) : ST Entry :=
  node ← find_node k; mret (if is_null node then Vacant k else Occupied node).
Definition vacant_insert (k : Z) (v : V) : ST ptr := node ← node_new k v; internal_insert node;; mret node.
Definition or_insert (e : Entry) (default : V) : ST ptr :=
  match e with Occupied node => mret node | Vacant k => vacant_insert k default end.
Definition or_insert_with (e : Entry) (f : unit -> V) : ST ptr :=
  match e with Occupied node => mret node | Vacant k => vacant_insert k (f tt) end.
Definition and_modify (e : Entry) (f : V -> V) : ST Entry :=
  match e with
  | Occupied node => n ← load node; store node (with_value (f (value n)));; mret (Occupied node)
  | Vacant k => mret (Vacant k)
  end.
Definition occupied_insert (node : ptr) (v : V) : ST V := n ← load node; store node (with_value v);; mret (value n).
Definition occupied_remove (node : ptr) : ST V := boxed ← internal_delete node; mret (value boxed).

(** ** Whole trees *)
Definition new (h : gmap positive (RbNode V)) : Rb V := mkRb h None 0.
Definition is_empty : ST bool := fun s => Ret (len s =? 0, s).

(** [append] empties [other], which lives in the same heap, into [s]. *)
Fixpoint append_loop (fuel : nat) (s other : Rb V) : exec (Rb V * Rb V) :=
  match fuel with
  | O => OutOfFuel
  | S fuel =>
      '(e, other) ← pop_first (put_heap (heap s) other);
      match e with
      | None => Ret (put_heap (heap other) s, other)
      | Some (k, v) => '(_, s) ← insert k v (put_heap (heap other) s); append_loop fuel s other
      end
  end.
Definition append (s other : Rb V) : exec (Rb V * Rb V) := append_loop (S (size (heap s))) s other.

(** [clone]: the iterator holds a pointer into [s] while the new tree grows in the heap. *)
Fixpoint clone_loop (fuel : nat) (current : ptr) (s new_tree : Rb V) : exec (Rb V * Rb V) :=
  match fuel with
  | O => OutOfFuel
  | S fuel =>
      '((e, next), _) ← iter_next current (put_heap (heap new_tree) s);
      match e with
      | None => Ret (put_heap (heap new_tree) s, new_tree)
      | Some (k, v) => '(_, new_tree) ← insert k v new_tree; clone_loop fuel next s new_tree
      end
  end.
Definition clone (s : Rb V) : exec (Rb V * Rb V) :=
  '(current, s) ← (r ← get_root; tree_minimum r) s;
  clone_loop (S (size (heap s))) current s (new (heap s)).
End Model.
