(* ===== verification/RbShape.v ===== *)
(** * Red-black tree: trees in the heap

    What the heap of [RbTree] holds is described by a tree [rbtree] that carries the address
    of every node.  [is_tree s T]: the pointers of [s], those to the parents included, are
    those of [T], no node occurs twice, and the root is right.  A place in a tree is a
    context [ctx], a stack of frames from the place up to the root, and [plug] fills it.

    [does T c a T'] is the specification of a piece of code: on every state that holds [T] it
    returns [a] in a state that holds [T'], made of the same nodes, and leaves the rest of
    the heap alone.  The rules below give it for loads, recolouring, the two rotations and
    [transplant]; left and right are treated together through a direction. *)

From S2P Require Import Prelude OrdMap RbTree.
#[local] Open Scope Z_scope.

(** ** Trees with addresses *)
Inductive dir := L | R.
Definition opp (d : dir) : dir := match d with L => R | R => L end.

Inductive rbtree (V : Type) : Type :=
| E
| T (x : positive) (c : Color) (a : rbtree V) (k : Z) (v : V) (b : rbtree V).
Arguments E {V}.
Arguments T {V}.

(** [N d x c t k v u]: the subtree at side [d] is [t], the other one [u]. *)
Definition N {V} (d : dir) (x : positive) (c : Color) (t : rbtree V) (k : Z) (v : V) (u : rbtree V) : rbtree V :=
  match d with L => T x c t k v u | R => T x c u k v t end.

Record frame (V : Type) := Fr { fd : dir; fx : positive; fc : Color; fk : Z; fv : V; fs : rbtree V }.
Arguments Fr {V}.
Arguments fd {V}.
Arguments fx {V}.
Arguments fc {V}.
Arguments fk {V}.
Arguments fv {V}.
Arguments fs {V}.

(** A node in the list of all: its address, key and value. *)
Abbreviation item V := (positive * (Z * V))%type.

Section Shape.
Context {V : Type}.
Implicit Types (t u : rbtree V) (s : Rb V) (h : gmap positive (RbNode V)).

Definition ctx : Type := list (frame V).
Definition fill (f : frame V) t : rbtree V := N (fd f) (fx f) (fc f) t (fk f) (fv f) (fs f).
Fixpoint plug (c : ctx) t : rbtree V :=
  match c with [] => t | f :: c' => plug c' (fill f t) end.

Definition tptr t : ptr := match t with E => None | T x _ _ _ _ _ => Some x end.
Definition cptr (c : ctx) : ptr := match c with [] => None | f :: _ => Some (fx f) end.
Definition tcolor t : Color := match t with E => Black | T _ c _ _ _ _ => c end.
Definition paint (c : Color) t : rbtree V := match t with E => E | T x _ a k v b => T x c a k v b end.

Fixpoint locs t : list positive :=
  match t with E => [] | T x _ a _ _ b => x :: locs a ++ locs b end.
Definition clocs (c : ctx) : list positive := flat_map (fun f => fx f :: locs (fs f)) c.

Fixpoint entries t : list (Z * V) :=
  match t with E => [] | T _ _ a k v b => entries a ++ (k, v) :: entries b end.

(** The nodes in the order of their keys. *)
Definition ikey (i : item V) : Z := i.2.1.
Fixpoint inorder t : list (item V) :=
  match t with E => [] | T x _ a k v b => inorder a ++ (x, (k, v)) :: inorder b end.

(** The node that holds the root of a subtree below [p]. *)
Definition cell (c : Color) t (k : Z) (v : V) u (p : ptr) : RbNode V := mkRbNode k v (tptr t) (tptr u) p c.
Definition ncell (d : dir) (c : Color) t (k : Z) (v : V) u (p : ptr) : RbNode V :=
  match d with L => cell c t k v u p | R => cell c u k v t p end.

Fixpoint rep h t (p : ptr) : Prop :=
  match t with
  | E => True
  | T x c a k v b => h !! x = Some (cell c a k v b p) /\ rep h a (Some x) /\ rep h b (Some x)
  end.

(** The frames of a context around a subtree whose root is [q]. *)
Definition fcell (f : frame V) (q p : ptr) : RbNode V :=
  match fd f with
  | L => mkRbNode (fk f) (fv f) q (tptr (fs f)) p (fc f)
  | R => mkRbNode (fk f) (fv f) (tptr (fs f)) q p (fc f)
  end.
Fixpoint crep h (c : ctx) (q : ptr) : Prop :=
  match c with
  | [] => True
  | f :: c' => h !! fx f = Some (fcell f q (cptr c')) /\ rep h (fs f) (Some (fx f)) /\ crep h c' (Some (fx f))
  end.
Fixpoint top (c : ctx) (q : ptr) : ptr := match c with [] => q | f :: c' => top c' (Some (fx f)) end.

Definition is_tree s t : Prop := rep (heap s) t None /\ NoDup (locs t) /\ root s = tptr t.

(** ** Directions *)
Lemma N_opp d x c t k v u : N (opp d) x c u k v t = N d x c t k v u.
Proof. by destruct d. Qed.
Lemma T_N x c t k v u : T x c t k v u = N L x c t k v u.
Proof. done. Qed.
Lemma plug_N d x col t k v u (c : ctx) : plug c (N d x col t k v u) = plug (Fr d x col k v u :: c) t.
Proof. done. Qed.
Lemma plug_N_opp d x col t k v u (c : ctx) : plug c (N d x col t k v u) = plug (Fr (opp d) x col k v t :: c) u.
Proof. by destruct d. Qed.
Lemma plug_app (c1 c2 : ctx) t : plug (c1 ++ c2) t = plug c2 (plug c1 t).
Proof. revert t. induction c1 as [|f c1 IH]; intros t; simpl; [done|apply IH]. Qed.

Lemma locs_N d x c t k v u : locs (N d x c t k v u) ≡ₚ x :: locs t ++ locs u.
Proof. destruct d; simpl; [done|]. by rewrite (Permutation_app_comm (locs u)). Qed.
Lemma locs_plug (c : ctx) t : locs (plug c t) ≡ₚ locs t ++ clocs c.
Proof.
  revert t. induction c as [|f c IH]; intros t; simpl; [by rewrite app_nil_r|].
  rewrite IH. unfold fill. rewrite locs_N. simpl. by rewrite <-app_assoc, Permutation_middle.
Qed.
Lemma locs_paint c t : locs (paint c t) = locs t.
Proof. by destruct t. Qed.
Lemma tptr_paint c t : tptr (paint c t) = tptr t.
Proof. by destruct t. Qed.
Lemma tptr_N d x c t k v u : tptr (N d x c t k v u) = Some x.
Proof. by destruct d. Qed.
Lemma tptr_elem t x : tptr t = Some x -> x ∈ locs t.
Proof. destruct t; simpl; [done|]. intros [= ->]. by left. Qed.
Lemma tptr_None t : tptr t = None -> t = E.
Proof. by destruct t. Qed.

Lemma rep_N h d x c t k v u p :
  rep h (N d x c t k v u) p <->
  h !! x = Some (ncell d c t k v u p) /\ rep h t (Some x) /\ rep h u (Some x).
Proof. destruct d; simpl; tauto. Qed.
Lemma fcell_ncell d x c k v u t p : fcell (Fr d x c k v u) (tptr t) p = ncell d c t k v u p.
Proof. by destruct d. Qed.

Lemma rep_plug h (c : ctx) t : rep h (plug c t) None <-> rep h t (cptr c) /\ crep h c (tptr t).
Proof.
  revert t. induction c as [|[d x col k v u] c IH]; intros t; simpl; [tauto|].
  rewrite IH. unfold fill. simpl. rewrite rep_N, tptr_N, fcell_ncell. tauto.
Qed.
Lemma tptr_plug (c : ctx) t : tptr (plug c t) = top c (tptr t).
Proof.
  revert t. induction c as [|f c IH]; intros t; simpl; [done|]. rewrite IH. unfold fill. by rewrite tptr_N.
Qed.

(** A place in the tree: its subtree, its context, and that they are apart. *)
Lemma is_tree_plug s (c : ctx) t :
  is_tree s (plug c t) <->
  (rep (heap s) t (cptr c) /\ crep (heap s) c (tptr t)) /\ NoDup (locs t ++ clocs c) /\ root s = top c (tptr t).
Proof. unfold is_tree. by rewrite rep_plug, locs_plug, tptr_plug. Qed.

(** ** Untouched parts *)
Lemma rep_same h h' t p : (forall x, x ∈ locs t -> h' !! x = h !! x) -> rep h t p -> rep h' t p.
Proof.
  revert p. induction t as [|x c a IHa k v b IHb]; intros p Hs; simpl; [done|]. intros (H & Ha & Hb).
  split; [by rewrite Hs by (by left)|]. split; [apply IHa|apply IHb]; try done; intros y Hy; apply Hs; set_solver.
Qed.
Lemma crep_same h h' (c : ctx) q : (forall x, x ∈ clocs c -> h' !! x = h !! x) -> crep h c q -> crep h' c q.
Proof.
  revert q. induction c as [|f c IH]; intros q Hs; simpl; [done|]. intros (H & Hf & Hc). simpl in Hs.
  split; [by rewrite Hs by (by left)|].
  split; [eapply rep_same; [|done]|apply IH; [|done]]; intros y Hy; apply Hs; set_solver.
Qed.
Lemma rep_insert h x n t p : x ∉ locs t -> rep h t p -> rep (<[x := n]> h) t p.
Proof. intros Hx. apply rep_same. intros y Hy. apply lookup_insert_ne. set_solver. Qed.
Lemma crep_insert h x n (c : ctx) q : x ∉ clocs c -> crep h c q -> crep (<[x := n]> h) c q.
Proof. intros Hx. apply crep_same. intros y Hy. apply lookup_insert_ne. set_solver. Qed.

Lemma rep_dom h t p : rep h t p -> forall x, x ∈ locs t -> is_Some (h !! x).
Proof.
  revert p. induction t as [|x c a IHa k v b IHb]; intros p; simpl; [set_solver|].
  intros (H & Ha & Hb) y Hy. apply elem_of_cons in Hy as [->|Hy]; [by eexists|].
  apply elem_of_app in Hy as [Hy|Hy]; eauto.
Qed.
Lemma tree_fits s t : is_tree s t -> (length (locs t) <= size (heap s))%nat.
Proof.
  intros (Hrep & Hnd & _). rewrite <-size_dom, <-(size_list_to_set (C := gset positive) (locs t)) by done.
  apply subseteq_size. intros x Hx. apply elem_of_list_to_set in Hx. apply elem_of_dom. by eapply rep_dom.
Qed.

(** ** Specifications *)
Definition evolves s t s' t' : Prop :=
  is_tree s' t' /\ locs t' ≡ₚ locs t /\ len s' = len s /\
  forall x, x ∉ locs t -> heap s' !! x = heap s !! x.
Definition does {A} t (c : RbST V A) (a : A) t' : Prop :=
  forall s, is_tree s t -> exists s', c s = Ret (a, s') /\ evolves s t s' t'.

Lemma evolves_refl s t : is_tree s t -> evolves s t s t.
Proof. done. Qed.
Lemma evolves_trans s t s' t' s'' t'' : evolves s t s' t' -> evolves s' t' s'' t'' -> evolves s t s'' t''.
Proof.
  intros (_ & Hl & Hn & Hf) (Hi & Hl' & Hn' & Hf'). split; [done|].
  split; [by rewrite Hl'|]. split; [congruence|]. intros x Hx. rewrite Hf'; [by apply Hf|]. by rewrite Hl.
Qed.

Lemma rep_determined h h' t p : rep h t p -> rep h' t p -> forall x, x ∈ locs t -> h' !! x = h !! x.
Proof.
  revert p. induction t as [|y c a IHa k v b IHb]; intros p; simpl; [set_solver|].
  intros (H & Ha & Hb) (H' & Ha' & Hb') x Hx. apply elem_of_cons in Hx as [->|Hx]; [congruence|].
  apply elem_of_app in Hx as [Hx|Hx]; eauto.
Qed.
(** Code that ends with the tree it began with has changed nothing. *)
Lemma does_same {A} t (c : RbST V A) a s : does t c a t -> is_tree s t -> c s = Ret (a, s).
Proof.
  intros Hd Hs. destruct (Hd s Hs) as (s' & -> & (Hr' & _ & Hroot') & _ & Hl & Hf). destruct Hs as (Hr & _ & Hroot).
  do 2 f_equal. destruct s as [h r l], s' as [h' r' l']. simpl in *. f_equal; [|congruence|done].
  apply map_eq. intros x. destruct (decide (x ∈ locs t)) as [Hx|Hx]; [by eapply rep_determined|by apply Hf].
Qed.

Lemma does_ret {A} t (a : A) : does t (mret a) a t.
Proof. intros s Hs. by exists s. Qed.
Lemma does_bind {A B} t (c : RbST V A) a t' (f : A -> RbST V B) b t'' :
  does t c a t' -> does t' (f a) b t'' -> does t (c ≫= f) b t''.
Proof.
  intros Hc Hf s Hs. destruct (Hc s Hs) as (s1 & E1 & Ev1).
  destruct (Hf s1 (proj1 Ev1)) as (s2 & E2 & Ev2).
  exists s2. split; [|by eapply evolves_trans]. unfold mbind, rbst_bind. by rewrite E1.
Qed.
Lemma does_nodup {A} t (c : RbST V A) a t' : (NoDup (locs t) -> does t c a t') -> does t c a t'.
Proof. intros H s Hs. apply H; [apply Hs|done]. Qed.
Lemma does_fuelled {A} t (c : nat -> RbST V A) a t' :
  (forall fuel, (length (locs t) < fuel)%nat -> does t (c fuel) a t') -> does t (fuelled c) a t'.
Proof. intros H s Hs. apply H; [|done]. pose proof (tree_fits s t Hs). lia. Qed.
Lemma does_get_root t : does t get_root (tptr t) t.
Proof. intros s Hs. exists s. split; [|done]. unfold get_root. by rewrite (proj2 (proj2 Hs)). Qed.

Lemma does_load (c : ctx) d x col t k v u :
  does (plug c (N d x col t k v u)) (load (Some x)) (ncell d col t k v u (cptr c)) (plug c (N d x col t k v u)).
Proof.
  intros s Hs. exists s. split; [|done]. apply is_tree_plug in Hs as ((Hr & _) & _). apply rep_N in Hr as (Hx & _).
  unfold load. by rewrite Hx.
Qed.
Lemma does_color (c : ctx) t : does (plug c t) (color (tptr t)) (tcolor t) (plug c t).
Proof.
  destruct t as [|x col a k v b]; [apply does_ret|]. eapply does_bind; [apply (does_load c L)|apply does_ret].
Qed.
Lemma does_store (c : ctx) x col a k v b col' v' f :
  (forall p, f (cell col a k v b p) = cell col' a k v' b p) ->
  does (plug c (T x col a k v b)) (store (Some x) f) tt (plug c (T x col' a k v' b)).
Proof.
  intros Hfx s Hs. pose proof Hs as ((Hr & Hc) & Hnd & Hroot)%is_tree_plug.
  destruct Hr as (Hx & Ha & Hb). cbn [store]. rewrite Hx, Hfx. eexists. split; [done|].
  cbn [locs app] in Hnd. apply NoDup_cons in Hnd as [Hni Hnd]. rewrite !elem_of_app in Hni.
  split; [|split; [by rewrite !locs_plug|split; [done|]]].
  - apply is_tree_plug. cbn [heap put_heap root len rep cptr locs app tptr]. split; [|split; [by apply NoDup_cons; rewrite !elem_of_app|done]].
    split; [split; [by rewrite lookup_insert_eq|split]|]; (apply rep_insert || apply crep_insert); tauto.
  - intros y Hy. rewrite locs_plug in Hy. apply lookup_insert_ne. set_solver.
Qed.
Lemma does_set_color (c : ctx) t col : does (plug c t) (set_color (tptr t) col) tt (plug c (paint col t)).
Proof. destruct t as [|x col' a k v b]; [apply does_ret|]. by apply does_store. Qed.
Lemma does_set_value (c : ctx) x col a k v b v' :
  does (plug c (T x col a k v b)) (store (Some x) (with_value v')) tt (plug c (T x col a k v' b)).
Proof. by apply does_store. Qed.

(** ** Rotations *)
Definition child (d : dir) (n : RbNode V) : ptr := match d with L => left n | R => right n end.
Definition with_child (d : dir) (q : ptr) (n : RbNode V) : RbNode V :=
  match d with L => with_left q n | R => with_right q n end.

(** Both rotations at once; [link] lets the parent of [x] point to [y] instead. *)
Definition link (d : dir) (p x y : ptr) : RbST V unit :=
  if is_null p then set_root y
  else np ← load p;
       if same x (child d np) then store p (with_child d y) else store p (with_child (opp d) y).
Definition reparent (q p : ptr) : RbST V unit :=
  if negb (is_null q) then store q (with_parent p) else mret tt.
Definition rotate (d : dir) (x : ptr) : RbST V unit :=
  nx ← load x;
  let y := child (opp d) nx in
  ny ← load y;
  store x (with_child (opp d) (child d ny));;
  reparent (child d ny) x;;
  nx ← load x;
  store y (with_parent (parent nx));;
  link d (parent nx) x y;;
  store y (with_child d x);;
  store x (with_parent y).

Lemma rotate_left_dir : rotate_left = rotate L.
Proof. done. Qed.
Lemma rotate_right_dir : rotate_right = rotate R.
Proof. done. Qed.

Lemma child_ncell d c t k v u p : child d (ncell d c t k v u p) = tptr t.
Proof. by destruct d. Qed.
Lemma child_ncell_opp d c t k v u p : child (opp d) (ncell d c t k v u p) = tptr u.
Proof. by destruct d. Qed.
Lemma parent_ncell d c t k v u p : parent (ncell d c t k v u p) = p.
Proof. by destruct d. Qed.
Lemma ncolor_ncell d c t k v u p : ncolor (ncell d c t k v u p) = c.
Proof. by destruct d. Qed.
Lemma key_ncell d c t k v u p : key (ncell d c t k v u p) = k.
Proof. by destruct d. Qed.
Lemma value_ncell d c t k v u p : value (ncell d c t k v u p) = v.
Proof. by destruct d. Qed.

Lemma rb_bind {A B} (c : RbST V A) (f : A -> RbST V B) s a s' : c s = Ret (a, s') -> (c ≫= f) s = f a s'.
Proof. intros H. unfold mbind, rbst_bind. by rewrite H. Qed.
Lemma load_eq s x n : heap s !! x = Some n -> load (Some x) s = Ret (n, s).
Proof. intros H. unfold load. by rewrite H. Qed.
Lemma store_eq s x n f :
  heap s !! x = Some n -> store (Some x) f s = Ret (tt, mkRb (<[x := f n]> (heap s)) (root s) (len s)).
Proof. intros H. unfold store. by rewrite H. Qed.

Lemma reparent_ok s t p q : rep (heap s) t p -> NoDup (locs t) ->
  exists s', reparent (tptr t) q s = Ret (tt, s') /\ rep (heap s') t q /\ root s' = root s /\ len s' = len s /\
    forall x, x ∉ locs t -> heap s' !! x = heap s !! x.
Proof.
  destruct t as [|x c a k v b]; [intros; by exists s|]. intros (Hx & Ha & Hb) [Hni _]%NoDup_cons.
  rewrite elem_of_app in Hni. cbn [reparent tptr is_null negb]. rewrite (store_eq _ _ _ _ Hx). eexists. split; [done|].
  cbn [heap root len rep]. split; [|split; [done|split; [done|]]].
  - split; [by rewrite lookup_insert_eq|]. split; apply rep_insert; tauto.
  - intros y Hy. apply lookup_insert_ne. intros ->. apply Hy. by left.
Qed.

Lemma relink_ok d s (c : ctx) x y : crep (heap s) c (Some x) -> NoDup (x :: clocs c) -> root s = top c (Some x) ->
  exists s', link d (cptr c) (Some x) y s = Ret (tt, s') /\ crep (heap s') c y /\ root s' = top c y /\ len s' = len s /\
    forall z, z ∉ clocs c -> heap s' !! z = heap s !! z.
Proof.
  destruct c as [|[df p cf kf vf u] c]; [intros _ _ Hr; by exists (mkRb (heap s) y (len s))|].
  intros (Hp & Hu & Hc) Hnd Hr. simpl in Hp, Hu, Hc, Hr, Hnd. cbn [link cptr is_null fx].
  erewrite rb_bind by (apply load_eq, Hp).
  assert (tptr u <> Some x) as Hne. { intros Hx%tptr_elem. apply NoDup_cons in Hnd as [Hni _]. set_solver. }
  assert ((p ∉ locs u) /\ (p ∉ clocs c)) as [Hpu Hpc]. { apply NoDup_cons in Hnd as [_ [Hni _]%NoDup_cons]. rewrite elem_of_app in Hni. tauto. }
  exists (mkRb (<[p := fcell (Fr df p cf kf vf u) y (cptr c)]> (heap s)) (root s) (len s)). split; [|split].
  - unfold same. destruct d, df; cbn [fcell child left right fd fs opp]; case_bool_decide; try congruence;
      rewrite (store_eq _ _ _ _ Hp); done.
  - cbn [heap crep fx fs]. split; [by rewrite lookup_insert_eq|]. split; [by apply rep_insert|by apply crep_insert].
  - split; [done|]. split; [done|]. intros z Hz. apply lookup_insert_ne. simpl in Hz. set_solver.
Qed.

(** Where the nodes of a rotated subtree are. *)
Lemma apart_rotate d x cx a kx vx y cy b ky vy g (c : ctx) :
  NoDup (locs (N d x cx a kx vx (N (opp d) y cy g ky vy b)) ++ clocs c) ->
  x <> y /\ ((x ∉ locs a) /\ (x ∉ locs b) /\ (x ∉ locs g) /\ (x ∉ clocs c)) /\ ((y ∉ locs a) /\ (y ∉ locs b) /\ (y ∉ locs g) /\ (y ∉ clocs c)) /\
  NoDup (locs b) /\ NoDup (x :: clocs c) /\
  (forall z, z ∈ locs b -> (z ∉ locs a) /\ (z ∉ locs g) /\ (z ∉ clocs c)) /\
  (forall z, z ∈ clocs c -> (z ∉ locs a) /\ (z ∉ locs b) /\ (z ∉ locs g)).
Proof.
  intros H. assert (NoDup (x :: y :: locs b ++ locs a ++ locs g ++ clocs c)) as Hnd.
  { revert H. rewrite locs_N, locs_N. apply NoDup_Permutation_proper. solve_Permutation. }
  clear H. apply NoDup_cons in Hnd as [Hx [Hy Hnd]%NoDup_cons].
  assert (NoDup (clocs c)) as Hc by (by apply NoDup_app in Hnd as (_ & _ & (_ & _ & (_ & _ & ?)%NoDup_app)%NoDup_app)).
  apply NoDup_app in Hnd as (Hb & Hd & (_ & Hd' & (_ & Hd'' & _)%NoDup_app)%NoDup_app).
  split; [set_solver|]. split; [set_solver|]. split; [set_solver|]. split; [done|].
  split; [constructor; [set_solver|done]|]. split; intros z Hz.
  - specialize (Hd z Hz). set_solver.
  - split; [|split]; intros Hz'; [apply (Hd' z Hz')|apply (Hd z Hz')|apply (Hd'' z Hz')]; rewrite ?elem_of_app; auto.
Qed.

Lemma does_rotate d (c : ctx) x cx a kx vx y cy b ky vy g :
  does (plug c (N d x cx a kx vx (N d y cy b ky vy g))) (rotate d (Some x)) tt
       (plug c (N d y cy (N d x cx a kx vx b) ky vy g)).
Proof.
  intros s Hs. pose proof Hs as ((Hr & Hc) & Hnd & Hroot)%is_tree_plug. rewrite !tptr_N in *.
  apply rep_N in Hr as (Hx & Ha & (Hy & Hb & Hg)%rep_N).
  pose proof Hnd as Hap. rewrite <-(N_opp d y) in Hap.
  apply apart_rotate in Hap as (Hxy & (Hxa & Hxb & Hxg & Hxc) & (Hya & Hyb & Hyg & Hyc) & Hndb & Hndc & Hbd & Hcd).
  unfold rotate. erewrite rb_bind by (by apply load_eq). rewrite child_ncell_opp, tptr_N. cbv zeta.
  erewrite rb_bind by (by apply load_eq). rewrite child_ncell.
  erewrite rb_bind by (by apply store_eq).
  set (s1 := mkRb (<[x := with_child (opp d) (tptr b) (ncell d cx a kx vx (N d y cy b ky vy g) (cptr c))]> (heap s)) (root s) (len s)).
  destruct (reparent_ok s1 b (Some y) (Some x)) as (s2 & E2 & Hb2 & Hr2 & Hl2 & Hf2); [by apply rep_insert|done|].
  erewrite rb_bind by exact E2. assert (heap s2 !! x = heap s1 !! x) as Hx2 by (by apply Hf2).
  assert (heap s2 !! y = Some (ncell d cy b ky vy g (Some x))) as Hy2.
  { rewrite Hf2 by done. cbn [s1 heap]. by rewrite lookup_insert_ne. }
  cbn [s1 heap] in Hx2. rewrite lookup_insert_eq in Hx2. erewrite rb_bind by (by apply load_eq).
  replace (parent (with_child _ _ _)) with (cptr c) by (by destruct d).
  erewrite rb_bind by (by apply store_eq).
  destruct (relink_ok d (mkRb (<[y := with_parent (cptr c) (ncell d cy b ky vy g (Some x))]> (heap s2)) (root s2) (len s2)) c x (Some y))
    as (s4 & E4 & Hc4 & Hr4 & Hl4 & Hf4); [|done|by cbn [root]; rewrite Hr2|].
  { apply crep_insert; [done|]. eapply crep_same; [|exact Hc]. intros z Hz. rewrite Hf2 by (by apply Hcd). cbn [s1 heap].
    apply lookup_insert_ne. by intros ->. }
  erewrite rb_bind by exact E4. cbn [heap] in Hf4.
  assert (heap s4 !! y = Some (with_parent (cptr c) (ncell d cy b ky vy g (Some x)))) as Hy4.
  { rewrite Hf4 by done. by rewrite lookup_insert_eq. }
  assert (heap s4 !! x = Some (with_child (opp d) (tptr b) (ncell d cx a kx vx (N d y cy b ky vy g) (cptr c)))) as Hx4.
  { rewrite Hf4 by done. by rewrite lookup_insert_ne. }
  erewrite rb_bind by (by apply store_eq). erewrite store_eq by (cbn [heap]; by rewrite lookup_insert_ne).
  eexists. split; [done|]. cbn [heap root len].
  assert (forall z, z <> x -> z <> y -> z ∉ locs b -> z ∉ clocs c -> heap s4 !! z = heap s !! z) as Hrest.
  { intros z H1 H2 H3 H4. rewrite Hf4, lookup_insert_ne, Hf2 by done. by apply lookup_insert_ne. }
  cbn [s1 root len] in Hr2, Hl2, Hr4, Hl4.
  split; [|split; [|split; [cbn [len]; congruence|]]].
  - apply is_tree_plug. rewrite !tptr_N. cbn [heap root]. split; [split; [|by do 2 (apply crep_insert; [done|])]|split].
    + apply rep_N. split; [|split; [apply rep_N; split; [|split]|]].
      * rewrite lookup_insert_ne, lookup_insert_eq by done. by destruct d.
      * rewrite lookup_insert_eq. by destruct d; cbn; rewrite ?tptr_N.
      * do 2 (apply rep_insert; [done|]). eapply rep_same; [|exact Ha]. intros z Hz. apply Hrest; set_solver.
      * do 2 (apply rep_insert; [done|]). eapply rep_same; [|exact Hb2]. intros z Hz.
        rewrite Hf4 by (by apply Hbd). apply lookup_insert_ne. by intros ->.
      * do 2 (apply rep_insert; [done|]). eapply rep_same; [|exact Hg]. intros z Hz. apply Hrest; set_solver.
    + revert Hnd. apply NoDup_Permutation_proper. rewrite !locs_N. solve_Permutation.
    + congruence.
  - rewrite !locs_plug, !locs_N. solve_Permutation.
  - intros z Hz. rewrite locs_plug, !locs_N in Hz. cbn [heap]. rewrite !lookup_insert_ne by set_solver. apply Hrest; set_solver.
Qed.
End Shape.
