(* ===== verification/RbFix.v ===== *)
(** * Red-black tree: the balance and its repair

    [balanced]: the root is black, no red node has a red child, and every path down has the
    same number of black nodes.  [ctx_ok c n] says the same of the part of a tree around a
    place that awaits a subtree of black height [n].  The two repair loops are proved on
    places: after an insertion the place holds a red node whose parent may be red, after a
    removal a subtree that is one black node short. *)

From S2P Require Import Prelude OrdMap RbTree RbShape.
#[local] Open Scope Z_scope.

Section Fix.
Context {V : Type}.
Implicit Types (t u : rbtree V) (s : Rb V) (c : @ctx V).

Fixpoint rb t (n : nat) : Prop :=
  match t with
  | E => n = O
  | T _ Red a _ _ b => tcolor a = Black /\ tcolor b = Black /\ rb a n /\ rb b n
  | T _ Black a _ _ b => match n with O => False | S m => rb a m /\ rb b m end
  end.
Definition balanced t : Prop := tcolor t = Black /\ exists n, rb t n.

Definition black_parent c : Prop := match c with f :: _ => fc f = Black | [] => False end.
Fixpoint ctx_ok c (n : nat) : Prop :=
  match c with
  | [] => True
  | f :: c' =>
      rb (fs f) n /\
      match fc f with
      | Red => tcolor (fs f) = Black /\ black_parent c' /\ ctx_ok c' n
      | Black => ctx_ok c' (S n)
      end
  end.

Lemma rb_N d x col t k v u n :
  rb (N d x col t k v u) n <->
  match col with
  | Red => tcolor t = Black /\ tcolor u = Black /\ rb t n /\ rb u n
  | Black => match n with O => False | S m => rb t m /\ rb u m end
  end.
Proof. destruct d, col, n; simpl; tauto. Qed.
Lemma tcolor_N d x col t k v u : tcolor (N d x col t k v u) = col.
Proof. by destruct d. Qed.
Lemma paint_N d x col t k v u col' : paint col' (N d x col t k v u) = N d x col' t k v u.
Proof. by destruct d. Qed.

(** ** Places in balanced trees *)
Lemma balanced_plug c t n :
  rb t n -> ctx_ok c n -> (tcolor t = Red -> black_parent c) -> balanced (plug c t).
Proof.
  revert t n. induction c as [|f c IH]; intros t n Ht Hc Hcol; simpl.
  - split; [|by exists n]. destruct (tcolor t); [by destruct Hcol|done].
  - destruct Hc as [Hs Hc]. destruct f as [d x col k v u]; unfold fill; simpl in *. destruct col.
    + destruct Hc as (Hu & Hb & Hc). apply (IH _ n); [|done|done].
      apply rb_N. split; [|done]. destruct (tcolor t) eqn:Et; [by destruct Hcol|done].
    + apply (IH _ (S n)); [by apply rb_N|done|]. by rewrite tcolor_N.
Qed.
Lemma plug_balanced c t :
  balanced (plug c t) -> exists n, rb t n /\ ctx_ok c n /\ (tcolor t = Red -> black_parent c).
Proof.
  revert t. induction c as [|f c IH]; intros t H; simpl in *.
  - destruct H as (Hcol & n & Hn). exists n. split; [done|]. split; [done|]. by rewrite Hcol.
  - destruct (IH _ H) as (n & Hn & Hc & Hcol). destruct f as [d x col k v u]; unfold fill in *; simpl in *.
    apply rb_N in Hn. rewrite tcolor_N in Hcol. destruct col.
    + destruct Hn as (Ht & Hu & Hrt & Hru). exists n. split; [done|]. split; [|by rewrite Ht]. by split; [|auto].
    + destruct n as [|m]; [done|]. exists m. split; [apply Hn|]. split; [|done]. by split; [apply Hn|].
Qed.
Lemma balanced_paint t n : rb t n -> exists m, rb (paint Black t) m.
Proof.
  destruct t as [|x [] a k v b]; [by exists n|intros (_ & _ & Ha & Hb); by exists (S n)|by exists n].
Qed.

Lemma does_color_N c d x col t k v u :
  does (plug c (N d x col t k v u)) (color (Some x)) col (plug c (N d x col t k v u)).
Proof. pose proof (does_color c (N d x col t k v u)) as H. by rewrite tptr_N, tcolor_N in H. Qed.
Lemma does_set_color_N c d x col col' t k v u :
  does (plug c (N d x col t k v u)) (set_color (Some x) col') tt (plug c (N d x col' t k v u)).
Proof. pose proof (does_set_color c (N d x col t k v u) col') as H. by rewrite tptr_N, paint_N in H. Qed.

(** ** The nodes of a place in order *)
Lemma inorder_N_eq d x col col' t t' k v u u' :
  inorder t = inorder t' -> inorder u = inorder u' -> inorder (N d x col t k v u) = inorder (N d x col' t' k v u').
Proof. intros H1 H2. destruct d; simpl; congruence. Qed.
Lemma inorder_plug_eq c t t' : inorder t = inorder t' -> inorder (plug c t) = inorder (plug c t').
Proof. revert t t'. induction c as [|f c IH]; intros t t' H; simpl; [done|]. by apply IH, inorder_N_eq. Qed.
Lemma inorder_paint col t : inorder (paint col t) = inorder t.
Proof. by destruct t. Qed.
Lemma inorder_rotate d x cx cx' (a : rbtree V) kx vx y cy cy' b ky vy g :
  inorder (N d y cy (N d x cx a kx vx b) ky vy g) = inorder (N d x cx' a kx vx (N d y cy' b ky vy g)).
Proof. destruct d; simpl; by rewrite <-?app_assoc; simpl; rewrite ?app_comm_cons, <-?app_assoc. Qed.

(** Code that leaves some tree with the same nodes in the same order that satisfies [P]. *)
Definition mends {A} t (m : RbST V A) (a : A) (P : rbtree V -> Prop) : Prop :=
  forall s, is_tree s t -> exists s' t', m s = Ret (a, s') /\ evolves s t s' t' /\ inorder t' = inorder t /\ P t'.

Lemma mends_does {A} t (m : RbST V A) a t' (P : rbtree V -> Prop) :
  does t m a t' -> inorder t' = inorder t -> P t' -> mends t m a P.
Proof. intros Hd He HP s Hs. destruct (Hd s Hs) as (s' & E & Ev). by exists s', t'. Qed.
Lemma mends_bind {A B} t (m : RbST V A) a t' (f : A -> RbST V B) b P :
  does t m a t' -> inorder t' = inorder t -> mends t' (f a) b P -> mends t (m ≫= f) b P.
Proof.
  intros Hm He Hf s Hs. destruct (Hm s Hs) as (s1 & E1 & Ev1). destruct (Hf s1 (proj1 Ev1)) as (s2 & t2 & E2 & Ev2 & He2 & HP).
  exists s2, t2. split; [by rewrite (rb_bind _ _ _ _ _ E1)|]. split; [by eapply evolves_trans|]. split; [congruence|done].
Qed.
Lemma mends_then {A B} t (m : RbST V A) a P (f : A -> RbST V B) b Q :
  mends t m a P -> (forall t', P t' -> mends t' (f a) b Q) -> mends t (m ≫= f) b Q.
Proof.
  intros Hm Hf s Hs. destruct (Hm s Hs) as (s1 & t1 & E1 & Ev1 & He1 & HP1).
  destruct (Hf t1 HP1 s1 (proj1 Ev1)) as (s2 & t2 & E2 & Ev2 & He2 & HP).
  exists s2, t2. split; [by rewrite (rb_bind _ _ _ _ _ E1)|]. split; [by eapply evolves_trans|]. split; [congruence|done].
Qed.
Lemma mends_nodup {A} t (m : RbST V A) a P : (NoDup (locs t) -> mends t m a P) -> mends t m a P.
Proof. intros H s Hs. apply H; [apply Hs|done]. Qed.
Lemma mends_fuelled {A} t (m : nat -> RbST V A) a P :
  (forall fuel, (length (locs t) < fuel)%nat -> mends t (m fuel) a P) -> mends t (fuelled m) a P.
Proof. intros H s Hs. apply H; [|done]. pose proof (tree_fits s t Hs). lia. Qed.

(** ** Repair after an insertion *)
(** The two halves of the loop's body at once. *)
Definition fix_side (d : dir) (rec : ptr -> RbST V unit) (z p gp : ptr) (ng : RbNode V) : RbST V unit :=
  let uncle := child (opp d) ng in
  cu ← color uncle;
  if is_color cu Red then
    set_color p Black;; set_color uncle Black;; set_color gp Red;;
    rec gp
  else
    np ← load p;
    z ← (if same z (child (opp d) np) then rotate d p;; mret p else mret z);
    nz ← load z;
    let p := parent nz in
    np ← load p;
    let gp := parent np in
    set_color p Black;; set_color gp Red;; rotate (opp d) gp;;
    rec z.

Lemma rb_insert_fixup_step fuel (z : ptr) :
  @rb_insert_fixup_loop V (S fuel) z =
  (nz ← load z;
   let p := parent nz in
   cp ← color p;
   if is_null p || negb (is_color cp Red) then mret tt else
   np ← load p;
   let gp := parent np in
   ng ← load gp;
   if same p (left ng) then fix_side L (rb_insert_fixup_loop fuel) z p gp ng
   else fix_side R (rb_insert_fixup_loop fuel) z p gp ng).
Proof. done. Qed.

Lemma insert_fixup_stop fuel c t : (0 < fuel)%nat -> t <> E -> (c = [] \/ black_parent c) ->
  does (plug c t) (rb_insert_fixup_loop fuel (tptr t)) tt (plug c t).
Proof.
  intros Hf Ht Hc. destruct fuel as [|fuel]; [lia|]. destruct t as [|x col a k v b]; [done|]. rewrite rb_insert_fixup_step.
  eapply does_bind; [apply (does_load c L)|]. rewrite parent_ncell. cbv zeta.
  destruct c as [|[d y cy ky vy u] c]; [apply does_ret|].
  destruct Hc as [|Hc]; [done|]. simpl in Hc. subst cy.
  eapply does_bind; [apply (does_color_N c)|]. apply does_ret.
Qed.

Lemma dir_cases (d d' : dir) : d' = d \/ d' = opp d.
Proof. destruct d, d'; auto. Qed.
Lemma T_dir d x col (a : rbtree V) k v b : exists a' b', T x col a k v b = N d x col a' k v b'.
Proof. destruct d; by eexists _, _. Qed.
Lemma same_true (p : ptr) : same p p = true.
Proof. unfold same. by case_bool_decide. Qed.
Lemma same_false (p q : ptr) : p <> q -> same p q = false.
Proof. unfold same. by case_bool_decide. Qed.
(** Siblings have different roots, unless both are empty. *)
Lemma siblings_differ c d x col t k v u :
  NoDup (locs (plug c (N d x col t k v u))) -> t <> E -> tptr t <> tptr u.
Proof.
  rewrite locs_plug, locs_N. intros [Hnd _]%NoDup_app Ht Heq. apply NoDup_cons in Hnd as [_ (_ & Hd & _)%NoDup_app].
  destruct t as [|y cy a ky vy b]; [done|]. symmetry in Heq. apply tptr_elem in Heq. apply (Hd y); [by left|done].
Qed.

(** Work on one of the two subtrees of a place. *)
Lemma on_kid {A} c d x col t k v u (m : RbST V A) a t' :
  does (plug (Fr d x col k v u :: c) t) m a (plug (Fr d x col k v u :: c) t') ->
  does (plug c (N d x col t k v u)) m a (plug c (N d x col t' k v u)).
Proof. done. Qed.
Lemma on_sib {A} c d x col t k v u (m : RbST V A) a u' :
  does (plug (Fr (opp d) x col k v t :: c) u) m a (plug (Fr (opp d) x col k v t :: c) u') ->
  does (plug c (N d x col t k v u)) m a (plug c (N d x col t k v u')).
Proof. by rewrite !plug_N_opp. Qed.
Lemma does_rotate_opp d c x cx a kx vx y cy b ky vy g :
  does (plug c (N d x cx (N d y cy a ky vy b) kx vx g)) (rotate (opp d) (Some x)) tt
       (plug c (N d y cy a ky vy (N d x cx b kx vx g))).
Proof. pose proof (does_rotate (opp d) c x cx g kx vx y cy b ky vy a) as H. by rewrite !N_opp in H. Qed.

Definition mended (t : rbtree V) : Prop := exists n, rb (paint Black t) n.

Lemma balanced_mended t : balanced t -> mended t.
Proof. intros (_ & n & Hn). by eapply balanced_paint. Qed.

(** The grandparent is black with a black sibling subtree of [p]; the outer rotation. *)
Lemma fix_outer d (rec : ptr -> RbST V unit) c g kg vg p kp vp u w z n :
  z <> E -> rb z n -> rb w n -> rb u n -> tcolor w = Black -> tcolor u = Black -> ctx_ok c (S n) ->
  (forall c' t, t <> E -> black_parent c' -> does (plug c' t) (rec (tptr t)) tt (plug c' t)) ->
  mends (plug c (N d g Black (N d p Red z kp vp w) kg vg u))
    (set_color (Some p) Black;; set_color (Some g) Red;; rotate (opp d) (Some g);; rec (tptr z)) tt mended.
Proof.
  intros Hz Hrz Hrw Hru Hcw Hcu Hc Hrec.
  eapply mends_bind; [eapply on_kid, does_set_color_N|by apply inorder_plug_eq, inorder_N_eq; [apply inorder_N_eq|]|].
  eapply mends_bind; [eapply does_set_color_N|by apply inorder_plug_eq, inorder_N_eq|].
  eapply mends_bind; [apply does_rotate_opp|by apply inorder_plug_eq; destruct d; simpl; rewrite <-?app_assoc|].
  eapply mends_does; [apply on_kid, Hrec; done|done|].
  apply balanced_mended, (balanced_plug _ _ (S n)); [|done|by rewrite tcolor_N]. rewrite rb_N. split; [done|]. by apply rb_N.
Qed.

Lemma fix_side_ok d dz (rec : ptr -> RbST V unit) c g kg vg p kp vp u w x a k v b n :
  rb (T x Red a k v b) n -> rb w n -> rb u n -> tcolor w = Black -> ctx_ok c (S n) ->
  (forall t, rb t (S n) -> tcolor t = Red -> mends (plug c t) (rec (tptr t)) tt mended) ->
  (forall c' t, t <> E -> black_parent c' -> does (plug c' t) (rec (tptr t)) tt (plug c' t)) ->
  mends (plug c (N d g Black (N dz p Red (T x Red a k v b) kp vp w) kg vg u))
    (fix_side d rec (Some x) (Some p) (Some g)
       (ncell d Black (N dz p Red (T x Red a k v b) kp vp w) kg vg u (cptr c))) tt mended.
Proof.
  intros Hz Hw Hu Hcw Hc Hup Hrec. unfold fix_side. rewrite child_ncell_opp. cbv zeta.
  eapply mends_bind; [apply on_sib, does_color|done|].
  destruct (tcolor u) eqn:Hcu.
  - unfold is_color. rewrite bool_decide_true by done.
    eapply mends_bind; [eapply on_kid, does_set_color_N|by apply inorder_plug_eq, inorder_N_eq; [apply inorder_N_eq|]|].
    eapply mends_bind; [apply on_sib, does_set_color|by apply inorder_plug_eq, inorder_N_eq, inorder_paint|].
    eapply mends_bind; [eapply does_set_color_N|by apply inorder_plug_eq, inorder_N_eq|].
    match goal with |- mends (plug c ?t) _ _ _ => pose proof (Hup t) as H end. rewrite tptr_N in H. apply H; [|apply tcolor_N].
    destruct u as [|y [] ua yk yv ub]; [done| |done]. apply rb_N. rewrite tcolor_N. split; [done|]. split; [done|].
    split; [apply rb_N; done|]. apply Hu.
  - unfold is_color. rewrite bool_decide_false by done. apply mends_nodup. intros Hnd.
    eapply mends_bind; [eapply on_kid, does_load|done|].
    destruct (dir_cases d dz) as [->| ->].
    + rewrite child_ncell_opp, same_false by (apply (siblings_differ (Fr d g Black kg vg u :: c)  d p Red _ kp vp w Hnd); done).
      eapply mends_bind; [apply does_ret|done|].
      eapply mends_bind; [eapply on_kid, on_kid, (does_load _ L)|done|]. rewrite parent_ncell. cbv zeta. cbn [cptr fx].
      eapply mends_bind; [eapply on_kid, does_load|done|]. rewrite parent_ncell. cbn [cptr fx].
      by apply (fix_outer d rec c g kg vg p kp vp u w (T x Red a k v b) n).
    + rewrite child_ncell, same_true, N_opp. destruct (T_dir d x Red a k v b) as (a' & b' & Hab). rewrite Hab in *.
      apply rb_N in Hz as (Hca & Hcb & Ha & Hb).
      eapply mends_bind; [eapply does_bind; [eapply on_kid, does_rotate|apply does_ret]| |].
      { apply inorder_plug_eq, inorder_N_eq; [apply inorder_rotate|done]. }
      eapply mends_bind; [eapply on_kid, on_kid, does_load|done|]. rewrite parent_ncell. cbv zeta. cbn [cptr fx].
      eapply mends_bind; [eapply on_kid, does_load|done|]. rewrite parent_ncell. cbn [cptr fx].
      pose proof (fix_outer d rec c g kg vg x k v u b' (N d p Red w kp vp a') n) as H. rewrite tptr_N in H.
      apply H; try done; [by destruct d|]. by apply rb_N.
Qed.

(** Each pass that goes on moves two levels up. *)
Lemma insert_fixup_loop_ok fuel : forall c x a k v b n,
  (length c < fuel)%nat -> rb (T x Red a k v b) n -> ctx_ok c n ->
  mends (plug c (T x Red a k v b)) (rb_insert_fixup_loop fuel (Some x)) tt mended.
Proof.
  induction fuel as [|fuel IH]; intros c x a k v b n Hf Hz Hc; [lia|].
  destruct c as [|[dz p [] kp vp w] c].
  - eapply mends_does; [apply (insert_fixup_stop (S fuel) [] (T x Red a k v b)); auto; lia|done|]. by eapply balanced_paint.
  - destruct Hc as (Hw & Hcw & Hb & Hc). destruct c as [|[d g cg kg vg u] c]; [done|]. simpl in Hb, Hw, Hcw, Hf. subst cg.
    destruct Hc as [Hu Hc]. simpl in Hu, Hc. rewrite rb_insert_fixup_step.
    eapply mends_bind; [apply (does_load _ L)|done|]. rewrite parent_ncell. cbv zeta. cbn [cptr fx].
    eapply mends_bind; [apply (does_color_N (Fr d g Black kg vg u :: c) dz)|done|]. cbn [is_null orb]. unfold is_color. rewrite bool_decide_true by done. cbn [negb].
    eapply mends_bind; [apply (does_load (Fr d g Black kg vg u :: c) dz)|done|]. rewrite parent_ncell. cbn [cptr fx].
    eapply mends_bind; [apply (does_load c d)|done|]. apply mends_nodup. intros Hnd.
    assert (forall d', d' = d -> mends (plug c (N d g Black (N dz p Red (T x Red a k v b) kp vp w) kg vg u))
      (fix_side d' (rb_insert_fixup_loop fuel) (Some x) (Some p) (Some g)
         (ncell d Black (N dz p Red (T x Red a k v b) kp vp w) kg vg u (cptr c))) tt mended) as Hside.
    { intros d' ->. apply (fix_side_ok d dz _ c g kg vg p kp vp u w x a k v b n); try done.
      - intros t Ht Hct. destruct t as [|y [] ta ky vy tb]; [done| |done]. apply (IH c y ta ky vy tb (S n)); [lia|done|done].
      - intros c' t Ht Hbp. apply insert_fixup_stop; auto. lia. }
    destruct d.
    + cbn [ncell cell left]. rewrite tptr_N, same_true. by apply Hside.
    + cbn [ncell cell left]. rewrite same_false; [by apply Hside|].
      pose proof (siblings_differ c R g Black _ kg vg u Hnd) as H. rewrite tptr_N in H. apply H. by destruct dz.
  - eapply mends_does; [apply (insert_fixup_stop (S fuel) _ (T x Red a k v b)); auto; [lia|by right]|done|].
    apply balanced_mended. by apply (balanced_plug _ _ n).
Qed.

Lemma length_ctx c t : (length c <= length (locs (plug c t)))%nat.
Proof.
  rewrite locs_plug, length_app. enough (length c <= length (clocs c))%nat by lia. unfold clocs.
  induction c as [|f c IH]; simpl; [lia|]. rewrite length_app. lia.
Qed.

Lemma insert_fixup_ok c x a k v b n :
  rb (T x Red a k v b) n -> ctx_ok c n ->
  mends (plug c (T x Red a k v b)) (rb_insert_fixup (Some x)) tt balanced.
Proof.
  intros Hz Hc. eapply mends_then.
  - apply mends_fuelled. intros fuel Hf. eapply insert_fixup_loop_ok; [|done|done].
    pose proof (length_ctx c (T x Red a k v b)). lia.
  - intros t (m & Hm). eapply mends_bind; [apply does_get_root|done|].
    eapply mends_does; [apply (does_set_color [])|apply inorder_paint|]. split; [by destruct t|by exists m].
Qed.

(** ** Repair after a removal *)
(** The loop ends at [x]; painting [x] black balances the tree. *)
Definition done_at (x : ptr) (t : rbtree V) : Prop :=
  exists c u, t = plug c u /\ x = tptr u /\ balanced (plug c (paint Black u)).
Definition yields t (m : RbST V ptr) : Prop :=
  forall s, is_tree s t -> exists x s' t', m s = Ret (x, s') /\ evolves s t s' t' /\ inorder t' = inorder t /\ done_at x t'.

Lemma yields_bind {A} t (m : RbST V A) a t' (f : A -> RbST V ptr) :
  does t m a t' -> inorder t' = inorder t -> yields t' (f a) -> yields t (m ≫= f).
Proof.
  intros Hm He Hf s Hs. destruct (Hm s Hs) as (s1 & E1 & Ev1). destruct (Hf s1 (proj1 Ev1)) as (x & s2 & t2 & E2 & Ev2 & He2 & HP).
  exists x, s2, t2. split; [by rewrite (rb_bind _ _ _ _ _ E1)|]. split; [by eapply evolves_trans|]. split; [congruence|done].
Qed.
Lemma yields_nodup t (m : RbST V ptr) : (NoDup (locs t) -> yields t m) -> yields t m.
Proof. intros H s Hs. apply H; [apply Hs|done]. Qed.
Lemma yields_does t (m : RbST V ptr) x : does t m x t -> done_at x t -> yields t m.
Proof. intros Hd HP s Hs. destruct (Hd s Hs) as (s' & E & Ev). by exists x, s', t. Qed.

(** The two halves of the loop's body at once, from the sibling [w] on and before. *)
Definition del_final (d : dir) (rec : ptr -> ptr -> RbST V ptr) (p w : ptr) : RbST V ptr :=
  cp ← color p;
  set_color w cp;;
  set_color p Black;;
  nw ← load w;
  set_color (child (opp d) nw) Black;;
  rotate d p;;
  r ← get_root;
  rec r None.
Definition del_rest (d : dir) (rec : ptr -> ptr -> RbST V ptr) (p w : ptr) : RbST V ptr :=
  nw ← load w;
  cn ← color (child d nw);
  cf ← color (child (opp d) nw);
  if is_color cn Black && is_color cf Black then
    set_color w Red;;
    np ← load p;
    rec p (parent np)
  else
    w ← (if is_color cf Black then
           set_color (child d nw) Black;; set_color w Red;; rotate (opp d) w;; np ← load p; mret (child (opp d) np)
         else mret w);
    del_final d rec p w.
Definition del_side (d : dir) (rec : ptr -> ptr -> RbST V ptr) (p : ptr) (np : RbNode V) : RbST V ptr :=
  let w := child (opp d) np in
  cw ← color w;
  w ← (if is_color cw Red then
         set_color w Black;; set_color p Red;; rotate d p;; np ← load p; mret (child (opp d) np)
       else mret w);
  del_rest d rec p w.

Lemma rb_delete_fixup_step fuel (x x_parent : ptr) :
  @rb_delete_fixup_loop V (S fuel) x x_parent =
  (r ← get_root;
   cx ← color x;
   if same x r || negb (is_color cx Black) then mret x else
   p ← (if negb (is_null x) then nx ← load x; mret (parent nx) else mret x_parent);
   if is_null p then mret x else
   np ← load p;
   if same x (left np) then del_side L (rb_delete_fixup_loop fuel) p np
   else del_side R (rb_delete_fixup_loop fuel) p np).
Proof. done. Qed.

(** What is above [p], which is [col] and whose subtrees should have black height [S n]. *)
Definition above_ok c (col : Color) (n : nat) : Prop :=
  match col with Red => black_parent c /\ ctx_ok c (S n) | Black => ctx_ok c (S (S n)) end.
(** A subtree that is one black node short, or red where it should be black. *)
Definition short c t (n : nat) : Prop :=
  match tcolor t with
  | Black => rb t n /\ ctx_ok c (S n)
  | Red => rb (paint Black t) n /\ ctx_ok c n
  end.

Section Pass.
Variables (d : dir) (rec : ptr -> ptr -> RbST V ptr) (c : @ctx V).
Hypothesis Hroot : forall t, balanced t -> yields t (rec (tptr t) None).

Lemma del_final_ok p col t kp vp w cw nr kw vw fr n :
  rb t n -> rb nr n -> rb (paint Black fr) (S n) -> fr <> E -> above_ok c col n ->
  yields (plug c (N d p col t kp vp (N d w cw nr kw vw fr))) (del_final d rec (Some p) (Some w)).
Proof.
  intros Ht Hn Hf HfE Hab. unfold del_final.
  eapply yields_bind; [apply does_color_N|done|].
  eapply yields_bind; [eapply on_sib, does_set_color_N|by apply inorder_plug_eq, inorder_N_eq, inorder_N_eq|].
  eapply yields_bind; [apply does_set_color_N|by apply inorder_plug_eq, inorder_N_eq|].
  eapply yields_bind; [eapply on_sib, does_load|done|]. rewrite child_ncell_opp.
  eapply yields_bind; [eapply on_sib, on_sib, does_set_color| |].
  { apply inorder_plug_eq, inorder_N_eq; [done|]. apply inorder_N_eq; [done|apply inorder_paint]. }
  eapply yields_bind; [apply does_rotate|by apply inorder_plug_eq, inorder_rotate|].
  eapply yields_bind; [apply does_get_root|done|]. apply Hroot.
  destruct col; [destruct Hab as [Hb Hab]; apply (balanced_plug _ _ (S n))|apply (balanced_plug _ _ (S (S n)))]; rewrite ?tcolor_N; try done;
    rewrite rb_N, rb_N, ?tcolor_N; [|done]. split; [done|]. split; [by destruct fr|done].
Qed.

Lemma del_rest_ok p col t kp vp w nr kw vw fr n :
  (forall t n, short c t n -> t <> E -> tcolor t = col -> yields (plug c t) (rec (tptr t) (cptr c))) ->
  tcolor t = Black -> rb t n -> rb nr n -> rb fr n -> above_ok c col n ->
  yields (plug c (N d p col t kp vp (N d w Black nr kw vw fr))) (del_rest d rec (Some p) (Some w)).
Proof.
  intros Hup Hct Ht Hn Hf Hab. unfold del_rest.
  eapply yields_bind; [eapply on_sib, does_load|done|]. rewrite child_ncell, child_ncell_opp.
  eapply yields_bind; [eapply on_sib, on_kid, does_color|done|].
  eapply yields_bind; [eapply on_sib, on_sib, does_color|done|]. unfold is_color.
  destruct (tcolor fr) eqn:Hcf; [|destruct (tcolor nr) eqn:Hcn].
  - rewrite (bool_decide_false (Red = Black)), andb_false_r by done.
    eapply yields_bind; [apply does_ret|done|].
    apply (del_final_ok p col t kp vp w Black nr kw vw fr n); try done; destruct fr as [|y [] a k v b]; try done.
    by destruct Hf as (_ & _ & Ha & Hb).
  - rewrite (bool_decide_false (Red = Black)), (bool_decide_true (Black = Black)) by done. cbn [andb].
    destruct nr as [|y cy na0 ky vy nb0]; [done|]. simpl in Hcn. subst cy.
    destruct (T_dir d y Red na0 ky vy nb0) as (na & nb & Hab'). rewrite Hab' in *. apply rb_N in Hn as (Hca & Hcb & Hna & Hnb).
    rewrite tptr_N. eapply yields_bind.
    { eapply does_bind; [eapply on_sib, on_kid, does_set_color_N|].
      eapply does_bind; [eapply on_sib, does_set_color_N|].
      eapply does_bind; [eapply on_sib, does_rotate_opp|].
      eapply does_bind; [apply does_load|]. rewrite child_ncell_opp, tptr_N. apply does_ret. }
    { apply inorder_plug_eq, inorder_N_eq; [done|]. destruct d; simpl; by rewrite <-?app_assoc. }
    apply (del_final_ok p col t kp vp y Black na ky vy _ n); try done; [|by destruct d]. rewrite paint_N. apply rb_N. done.
  - rewrite !(bool_decide_true (Black = Black)) by done. cbn [andb].
    eapply yields_bind; [eapply on_sib, does_set_color_N|by apply inorder_plug_eq, inorder_N_eq, inorder_N_eq|].
    eapply yields_bind; [apply does_load|done|]. rewrite parent_ncell.
    match goal with |- yields (plug c ?t') _ => pose proof (Hup t' (S n)) as H end. rewrite tptr_N in H. apply H; [|by destruct d|apply tcolor_N].
    unfold short. rewrite tcolor_N. destruct col.
    + rewrite paint_N, rb_N, rb_N. split; [|apply Hab]. done.
    + rewrite rb_N, rb_N. done.
Qed.
End Pass.

(** A red sibling is rotated up first; [p] is then red below it. *)
Lemma del_side_ok d (rec : ptr -> ptr -> RbST V ptr) c p col t kp vp w n :
  (forall t, balanced t -> yields t (rec (tptr t) None)) ->
  (forall t n, short c t n -> t <> E -> yields (plug c t) (rec (tptr t) (cptr c))) ->
  (forall c' t, t <> E -> tcolor t = Red -> balanced (plug c' (paint Black t)) -> yields (plug c' t) (rec (tptr t) (cptr c'))) ->
  tcolor t = Black -> rb t n -> ctx_ok (Fr d p col kp vp w :: c) (S n) ->
  yields (plug c (N d p col t kp vp w)) (del_side d rec (Some p) (ncell d col t kp vp w (cptr c))).
Proof.
  intros Hroot Hup Hred Hct Ht [Hw Hc]. simpl in Hw, Hc. destruct w as [|y cy a0 ky vy b0]; [done|].
  destruct (T_dir d y cy a0 ky vy b0) as (nr & fr & HN). rewrite HN in *. unfold del_side. rewrite child_ncell_opp, tptr_N. cbv zeta.
  eapply yields_bind; [eapply on_sib, does_color_N|done|]. unfold is_color. apply rb_N in Hw. rewrite tcolor_N in Hc. destruct cy.
  - destruct col; [by destruct Hc|]. destruct Hw as (Hcn & Hcf & Hn & Hf). rewrite bool_decide_true by done.
    eapply yields_bind.
    { eapply does_bind; [eapply on_sib, does_set_color_N|].
      eapply does_bind; [apply does_set_color_N|].
      eapply does_bind; [apply does_rotate|].
      eapply does_bind; [apply on_kid, does_load|]. rewrite child_ncell_opp. apply does_ret. }
    { apply inorder_plug_eq, inorder_rotate. }
    destruct nr as [|z [] a1 kz vz b1]; [done..|]. destruct (T_dir d z Black a1 kz vz b1) as (a & b & HN'). rewrite HN' in *.
    rewrite tptr_N. apply rb_N in Hn as [Ha Hb].
    apply (del_rest_ok d rec (Fr d y Black ky vy fr :: c) Hroot) with (n := n); try done.
    intros u m Hs Hu Hcu. unfold short in Hs. rewrite Hcu in Hs.
    apply (Hred (Fr d y Black ky vy fr :: c)); [done|done|]. apply (balanced_plug _ _ m); [apply Hs|apply Hs|]. by destruct u.
  - rewrite bool_decide_false by done. eapply yields_bind; [apply does_ret|done|].
    apply (del_rest_ok d rec c Hroot) with (n := n); try apply Hw; try done; [intros; by eapply Hup|].
    destruct col; [by destruct Hc as (_ & ? & ?)|done].
Qed.

Lemma delete_fixup_stop fuel c t xp : (0 < fuel)%nat -> (c = [] \/ tcolor t = Red) ->
  does (plug c t) (rb_delete_fixup_loop fuel (tptr t) xp) (tptr t) (plug c t).
Proof.
  intros Hf H. destruct fuel as [|fuel]; [lia|]. rewrite rb_delete_fixup_step.
  eapply does_bind; [apply does_get_root|]. eapply does_bind; [apply does_color|].
  destruct H as [->| ->]; [cbn [plug]; rewrite same_true|unfold is_color; rewrite bool_decide_false, orb_true_r by done]; apply does_ret.
Qed.
Lemma balanced_done t : balanced t -> done_at (tptr t) t.
Proof. intros (Hc & n & Hn). exists [], t. split; [done|]. split; [done|]. split; [by destruct t|by eapply balanced_paint]. Qed.

Lemma root_differs c t : NoDup (locs (plug c t)) -> c <> [] -> tptr (plug c t) <> tptr t.
Proof.
  rewrite locs_plug, tptr_plug. intros (_ & Hd & _)%NoDup_app Hc.
  assert (exists y, y ∈ clocs c /\ top c (tptr t) = Some y) as (y & Hy & ->).
  { destruct c as [|f c]; [done|]. clear. simpl. revert f. induction c as [|g c IH]; intros f; simpl; [eexists; split; [by left|done]|].
    destruct (IH g) as (y & Hy & Ht). exists y. split; [set_solver|done]. }
  intros Heq. symmetry in Heq. apply tptr_elem in Heq. by apply (Hd y).
Qed.

Lemma delete_fixup_loop_ok fuel : forall c t xp n,
  (length c < fuel)%nat -> short c t n -> (t = E -> xp = cptr c) ->
  yields (plug c t) (rb_delete_fixup_loop fuel (tptr t) xp).
Proof.
  induction fuel as [|fuel IH]; intros c t xp n Hf Hs Hxp; [lia|].
  unfold short in Hs. destruct (tcolor t) eqn:Hct.
  - eapply yields_does; [apply delete_fixup_stop; auto; lia|]. exists c, t. split; [done|]. split; [done|].
    apply (balanced_plug _ _ n); [apply Hs|apply Hs|]. by destruct t.
  - destruct Hs as [Ht Hc]. destruct c as [|[d p col kp vp w] c].
    { eapply yields_does; [apply delete_fixup_stop; auto; lia|]. apply balanced_done. split; [done|by exists n]. }
    rewrite rb_delete_fixup_step. eapply yields_bind; [apply does_get_root|done|]. eapply yields_bind; [apply does_color|done|].
    apply yields_nodup. intros Hnd. rewrite same_false by (apply not_eq_sym; by apply root_differs).
    rewrite Hct. unfold is_color. rewrite bool_decide_true by done. cbn [orb negb].
    eapply (yields_bind _ _ (Some p)); [|done|].
    { destruct t as [|x cx a k v b]; [rewrite Hxp by done; apply does_ret|]. cbn [tptr is_null negb].
      eapply does_bind; [apply (does_load _ L)|]. rewrite parent_ncell. apply does_ret. }
    cbn [is_null]. eapply yields_bind; [apply (does_load c d)|done|].
    assert (w <> E) as HwE by (by destruct Hc as [Hw _], w).
    assert (forall d', d' = d -> yields (plug c (N d p col t kp vp w))
      (del_side d' (rb_delete_fixup_loop fuel) (Some p) (ncell d col t kp vp w (cptr c)))) as Hside.
    { intros d' ->. simpl in Hf. apply (del_side_ok d _ c p col t kp vp w n); try done.
      - intros u Hu. eapply yields_does; [apply (delete_fixup_stop fuel []); auto; lia|by apply balanced_done].
      - intros u m Hsu HuE. by apply (IH c u (cptr c) m); [lia|done|].
      - intros c' u HuE Hcu Hb. eapply yields_does; [apply delete_fixup_stop; auto; lia|]. by exists c', u. }
    destruct d; cbn [ncell cell left].
    + rewrite same_true. by apply Hside.
    + rewrite same_false; [by apply Hside|]. simpl in Hnd. unfold fill in Hnd. simpl in Hnd.
      apply not_eq_sym, (siblings_differ c L p col w kp vp t Hnd HwE).
Qed.

Lemma delete_fixup_ok c t xp n :
  short c t n -> (t = E -> xp = cptr c) ->
  mends (plug c t) (rb_delete_fixup (tptr t) xp) tt balanced.
Proof.
  intros Hs Hxp s Hst.
  destruct (delete_fixup_loop_ok (S (size (heap s))) c t xp n) with (s := s) as (x & s1 & t1 & E1 & Ev1 & He1 & (c1 & u & -> & -> & Hb)); try done.
  { pose proof (length_ctx c t). pose proof (tree_fits s _ Hst). lia. }
  destruct (does_set_color c1 u Black s1 (proj1 Ev1)) as (s2 & E2 & Ev2).
  exists s2, (plug c1 (paint Black u)). split; [unfold rb_delete_fixup; by erewrite rb_bind by exact E1|].
  split; [by eapply evolves_trans|]. split; [|done]. rewrite <-He1. apply inorder_plug_eq, inorder_paint.
Qed.
End Fix.
