(* ===== verification/RbSearch.v ===== *)
(** * Red-black tree: finding nodes and walking in order

    The nodes of a tree in the order of their keys ([inorder]) are the reference: the
    searches return the nodes that filtering this list picks, and [successor] and
    [predecessor] return its neighbours.  The searches need no more steps than the tree is
    high. *)

From S2P Require Import Prelude OrdMap RbTree RbShape RbFix.
#[local] Open Scope Z_scope.

Section Search.
Context {V : Type}.
Implicit Types (t u : rbtree V) (s : Rb V) (c : @ctx V).

Fixpoint cpre c : list (item V) :=
  match c with
  | [] => []
  | f :: c' => match fd f with L => cpre c' | R => cpre c' ++ inorder (fs f) ++ [(fx f, (fk f, fv f))] end
  end.
Fixpoint cpost c : list (item V) :=
  match c with
  | [] => []
  | f :: c' => match fd f with L => (fx f, (fk f, fv f)) :: inorder (fs f) ++ cpost c' | R => cpost c' end
  end.
Fixpoint height t : nat := match t with E => O | T _ _ a _ _ b => S (Nat.max (height a) (height b)) end.

Lemma inorder_entries t : entries t = (inorder t).*2.
Proof. induction t as [|x col a IHa k v b IHb]; simpl; [done|]. by rewrite IHa, IHb, fmap_app. Qed.
Lemma inorder_locs t : locs t ≡ₚ (inorder t).*1.
Proof.
  induction t as [|x col a IHa k v b IHb]; simpl; [done|]. rewrite IHa, IHb, fmap_app. simpl. by rewrite Permutation_middle.
Qed.
Lemma inorder_plug c t : inorder (plug c t) = cpre c ++ inorder t ++ cpost c.
Proof.
  revert t. induction c as [|[d x col k v u] c IH]; intros t; simpl; [by rewrite app_nil_r|]. rewrite IH. unfold fill.
  destruct d; simpl; by rewrite <-!app_assoc.
Qed.
Lemma entries_plug c t : entries (plug c t) = (cpre c).*2 ++ entries t ++ (cpost c).*2.
Proof. by rewrite !inorder_entries, inorder_plug, !fmap_app. Qed.
Lemma height_locs t : (height t <= length (locs t))%nat.
Proof. induction t as [|x col a IHa k v b IHb]; simpl; [lia|]. rewrite length_app. lia. Qed.
Lemma height_plug c t : (height t <= length (locs (plug c t)))%nat.
Proof. rewrite locs_plug, length_app. pose proof (height_locs t). lia. Qed.

Lemma cpre_app c1 c2 : cpre (c1 ++ c2) = cpre c2 ++ cpre c1.
Proof. induction c1 as [|f c1 IH]; simpl; [by rewrite app_nil_r|]. rewrite IH. destruct (fd f); by rewrite <-?app_assoc. Qed.
Lemma cpost_app c1 c2 : cpost (c1 ++ c2) = cpost c1 ++ cpost c2.
Proof. induction c1 as [|f c1 IH]; simpl; [done|]. rewrite IH. destruct (fd f); simpl; by rewrite <-?app_assoc. Qed.

(** Every node is at a place. *)
Lemma inorder_place t : forall l1 x k v l2, inorder t = l1 ++ (x, (k, v)) :: l2 ->
  exists c col a b, t = plug c (T x col a k v b) /\ l1 = cpre c ++ inorder a /\ l2 = inorder b ++ cpost c.
Proof.
  induction t as [|y cy a IHa ky vy b IHb]; simpl; intros l1 x k v l2 H; [by destruct l1|].
  apply app_eq_inv in H as [(l & Ha & H)|(l & -> & H)]; (destruct l as [|i l]; simpl in H; [simplify_eq/=|injection H as <- H]).
  - exists [], cy, a, b. simpl. by rewrite Ha, !app_nil_r.
  - destruct (IHa l1 x k v l Ha) as (c & col & a' & b' & -> & -> & ->).
    exists (c ++ [Fr L y cy ky vy b]), col, a', b'. rewrite plug_app, cpre_app, cpost_app. simpl. subst l2.
    rewrite app_nil_r, <-?app_assoc. done.
  - exists [], cy, a, b. simpl. by rewrite !app_nil_r.
  - destruct (IHb l x k v l2 H) as (c & col & a' & b' & -> & -> & ->).
    exists (c ++ [Fr R y cy ky vy a]), col, a', b'. rewrite plug_app, cpre_app, cpost_app. simpl.
    rewrite <-?app_assoc. simpl. by rewrite app_nil_r.
Qed.
Lemma elem_place t x k v : (x, (k, v)) ∈ inorder t -> exists c col a b, t = plug c (T x col a k v b).
Proof.
  intros (l1 & l2 & H)%list_elem_of_split. destruct (inorder_place _ _ _ _ _ _ H) as (c & col & a & b & -> & _). by exists c, col, a, b.
Qed.

Lemma does_entry_of t x k v : (x, (k, v)) ∈ inorder t -> does t (entry_of (Some x)) (Some (k, v)) t.
Proof.
  intros (c & col & a & b & ->)%elem_place. eapply does_bind; [apply (does_load c L)|]. apply does_ret.
Qed.

(** ** Searching *)
Lemma below_items k t : below k (entries t) <-> Forall (fun i => ikey i < k) (inorder t).
Proof. rewrite inorder_entries. unfold below. by rewrite Forall_fmap. Qed.
Lemma above_items k t : above k (entries t) <-> Forall (fun i => k < ikey i) (inorder t).
Proof. rewrite inorder_entries. unfold above. by rewrite Forall_fmap. Qed.

Lemma find_node_loop_ok k fuel : forall c t, (height t < fuel)%nat -> sorted (entries t) ->
  does (plug c t) (find_node_loop k fuel (tptr t)) (fst <$> head (filter (fun i => ikey i = k) (inorder t))) (plug c t).
Proof.
  induction fuel as [|fuel IH]; intros c t Hh Hs; [lia|]. destruct t as [|x col a ky v b]; [apply does_ret|]. simpl in Hh, Hs.
  apply sorted_middle in Hs as (Ha & Hb & Hba & Hab). simpl in Hba, Hab.
  cbn [find_node_loop tptr is_null inorder]. eapply does_bind; [apply (does_load c L)|]. cbn [ncell cell key left right].
  rewrite filter_app, filter_cons. change (ikey (x, (ky, v))) with ky.
  rewrite below_items in Hba. rewrite above_items in Hab.
  destruct (Z.ltb_spec k ky); [|destruct (Z.ltb_spec ky k)].
  - rewrite decide_False, (filter_none _ (inorder b)), app_nil_r by (lia || by eapply Forall_impl; [exact Hab|]; simpl; lia).
    apply (IH (Fr L x col ky v b :: c)); [lia|done].
  - rewrite decide_False, (filter_none _ (inorder a)) by (lia || by eapply Forall_impl; [exact Hba|]; simpl; lia).
    apply (IH (Fr R x col ky v a :: c)); [lia|done].
  - assert (ky = k) as -> by lia. rewrite decide_True, (filter_none _ (inorder a)) by (done || by eapply Forall_impl; [exact Hba|]; simpl; lia).
    apply does_ret.
Qed.

(** The four searches for a neighbour, in both directions. *)
Section Seek.
Variables (d : dir) (P : Z -> bool).
Fixpoint seek_loop (fuel : nat) (result cur : ptr) : RbST V ptr :=
  match fuel with
  | O => stop
  | S fuel =>
      if is_null cur then mret result else
      n ← load cur;
      if P (key n) then seek_loop fuel cur (child d n) else seek_loop fuel result (child (opp d) n)
  end.
End Seek.
Lemma lower_bound_seek k : lower_bound_node_loop k = seek_loop L (fun x => k <=? x).
Proof. reflexivity. Qed.
Lemma upper_bound_seek k : upper_bound_node_loop k = seek_loop L (fun x => k <? x).
Proof. reflexivity. Qed.
Lemma floor_seek k : floor_node_loop k = seek_loop R (fun x => x <=? k).
Proof. reflexivity. Qed.
Lemma lower_than_seek k : lower_than_node_loop k = seek_loop R (fun x => x <? k).
Proof. reflexivity. Qed.

Definition pick {A} (d : dir) (l : list A) : option A := match d with L => head l | R => last l end.
Definition closed (d : dir) (P : Z -> bool) : Prop :=
  forall x y, match d with L => x <= y | R => y <= x end -> P x = true -> P y = true.

Lemma seek_loop_ok d P fuel : closed d P -> forall c t r, (height t < fuel)%nat -> sorted (entries t) ->
  does (plug c t) (seek_loop d P fuel r (tptr t))
    (match pick d (filter (fun i => P (ikey i) = true) (inorder t)) with Some i => Some i.1 | None => r end) (plug c t).
Proof.
  intros HP. induction fuel as [|fuel IH]; intros c t r Hh Hs; [lia|].
  destruct t as [|x col a ky v b]; [by destruct d; apply does_ret|]. simpl in Hh, Hs.
  apply sorted_middle in Hs as (Ha & Hb & Hba%below_items & Hab%above_items). simpl in Hba, Hab.
  cbn [seek_loop tptr is_null inorder]. eapply does_bind; [apply (does_load c L)|].
  rewrite filter_app, filter_cons. change (ikey (x, (ky, v))) with ky. cbn [ncell cell key]. unfold closed in HP.
  destruct (P ky) eqn:Ek.
  - rewrite decide_True by done. destruct d; cbn [child left right cell].
    + specialize (IH (Fr L x col ky v b :: c) a (Some x) ltac:(lia) Ha). destruct (filter _ (inorder a)); exact IH.
    + specialize (IH (Fr R x col ky v a :: c) b (Some x) ltac:(lia) Hb). cbn [pick] in IH |- *. rewrite last_app_cons, last_cons.
      destruct (last (filter _ (inorder b))); exact IH.
  - rewrite decide_False by done. destruct d; cbn [child opp left right cell].
    + rewrite (filter_none _ (inorder a)).
      * apply (IH (Fr R x col ky v a :: c) b r ltac:(lia) Hb).
      * eapply Forall_impl; [exact Hba|]. simpl. intros i Hi Hp. rewrite (HP (ikey i) ky) in Ek; [done|lia|done].
    + rewrite (filter_none _ (inorder b)), app_nil_r.
      * apply (IH (Fr L x col ky v b :: c) a r ltac:(lia) Ha).
      * eapply Forall_impl; [exact Hab|]. simpl. intros i Hi Hp. rewrite (HP (ikey i) ky) in Ek; [done|lia|done].
Qed.

(** ** The ends of a tree *)
Section Extreme.
Variable d : dir.
Fixpoint extreme_loop (fuel : nat) (p : ptr) : RbST V ptr :=
  match fuel with
  | O => stop
  | S fuel =>
      if is_null p then mret p else
      n ← load p;
      if is_null (child d n) then mret p else extreme_loop fuel (child d n)
  end.
End Extreme.
Lemma tree_minimum_extreme : tree_minimum_loop = extreme_loop L.
Proof. reflexivity. Qed.
Lemma tree_maximum_extreme : tree_maximum_loop = extreme_loop R.
Proof. reflexivity. Qed.

Lemma extreme_loop_ok d fuel : forall c t, (height t < fuel)%nat ->
  does (plug c t) (extreme_loop d fuel (tptr t)) (fst <$> pick d (inorder t)) (plug c t).
Proof.
  induction fuel as [|fuel IH]; intros c t Hh; [lia|].
  destruct t as [|x col a ky v b]; [destruct d; apply does_ret|]. simpl in Hh.
  cbn [extreme_loop tptr is_null inorder]. eapply does_bind; [apply (does_load c L)|].
  destruct d; cbn [child ncell cell left right pick].
  - destruct a as [|y cy a' ky' vy b']; [apply does_ret|]. specialize (IH (Fr L x col ky v b :: c) (T y cy a' ky' vy b') ltac:(lia)).
    cbn [pick inorder] in IH |- *. destruct (inorder a'); exact IH.
  - destruct b as [|y cy a' ky' vy b']; [cbn [inorder]; rewrite last_snoc; apply does_ret|].
    specialize (IH (Fr R x col ky v a :: c) (T y cy a' ky' vy b') ltac:(lia)).
    cbn [pick inorder] in IH |- *. rewrite last_app_cons, last_cons.
    destruct (last (_ ++ _)) eqn:El; [exact IH|]. by apply last_None, app_nil in El as [_ [=]].
Qed.
Lemma tree_minimum_ok c t : does (plug c t) (tree_minimum (tptr t)) (fst <$> head (inorder t)) (plug c t).
Proof.
  apply does_fuelled. intros fuel Hf. rewrite tree_minimum_extreme. apply (extreme_loop_ok L). pose proof (height_plug c t). lia.
Qed.
Lemma tree_maximum_ok c t : does (plug c t) (tree_maximum (tptr t)) (fst <$> last (inorder t)) (plug c t).
Proof.
  apply does_fuelled. intros fuel Hf. rewrite tree_maximum_extreme. apply (extreme_loop_ok R). pose proof (height_plug c t). lia.
Qed.

(** ** Neighbours in order *)
Section Climb.
Variable d : dir.
Fixpoint climb_loop (fuel : nat) (x y : ptr) : RbST V ptr :=
  match fuel with
  | O => stop
  | S fuel =>
      if is_null y then mret y else
      n ← load y;
      if same x (child d n) then climb_loop fuel y (parent n) else mret y
  end.
End Climb.
Lemma successor_climb : successor_loop = climb_loop R.
Proof. reflexivity. Qed.
Lemma predecessor_climb : predecessor_loop = climb_loop L.
Proof. reflexivity. Qed.

(** The first node above a place on the other side. *)
Definition over (d : dir) c : list (item V) := match d with L => cpre c | R => cpost c end.
Lemma climb_loop_ok d fuel : forall c t, (length c < fuel)%nat -> t <> E ->
  does (plug c t) (climb_loop d fuel (tptr t) (cptr c)) (fst <$> pick (opp d) (over d c)) (plug c t).
Proof.
  induction fuel as [|fuel IH]; intros c t Hf Ht; [lia|]. destruct c as [|[d' x col k v u] c]; [destruct d; apply does_ret|].
  simpl in Hf. cbn [climb_loop cptr is_null fx]. apply does_nodup. intros Hnd.
  eapply does_bind; [apply (does_load c d')|]. rewrite parent_ncell.
  destruct (dir_cases d d') as [->| ->].
  - rewrite child_ncell, same_true. pose proof (IH c (fill (Fr d x col k v u) t) ltac:(lia)) as H. unfold fill in H. simpl in H.
    rewrite tptr_N in H. destruct d; apply H; by destruct t.
  - pose proof (siblings_differ c (opp d) x col t k v u Hnd Ht) as Hne.
    destruct d; cbn [opp child ncell cell left right pick over cpre cpost fd fs fx fk fv]; rewrite same_false by done.
    + rewrite app_assoc, last_snoc. apply does_ret.
    + apply does_ret.
Qed.

Lemma successor_ok c x col a k v b :
  does (plug c (T x col a k v b)) (successor (Some x)) (fst <$> head (inorder b ++ cpost c)) (plug c (T x col a k v b)).
Proof.
  unfold successor. cbn [is_null]. eapply does_bind; [apply (does_load c L)|]. cbn [ncell cell right parent].
  destruct b as [|y cy a' ky vy b']; cbn [tptr is_null negb].
  - apply does_fuelled. intros fuel Hf. rewrite successor_climb. apply (climb_loop_ok R fuel c (T x col a k v E)); [|done].
    pose proof (length_ctx c (N L x col a k v E)). lia.
  - pose proof (tree_minimum_ok (Fr R x col k v a :: c) (T y cy a' ky vy b')) as H.
    rewrite head_app_ne by (cbn [inorder]; by destruct (inorder a')). exact H.
Qed.
Lemma predecessor_ok c x col a k v b :
  does (plug c (T x col a k v b)) (predecessor (Some x)) (fst <$> last (cpre c ++ inorder a)) (plug c (T x col a k v b)).
Proof.
  unfold predecessor. cbn [is_null]. eapply does_bind; [apply (does_load c L)|]. cbn [ncell cell left parent].
  destruct a as [|y cy a' ky vy b']; cbn [tptr is_null negb].
  - rewrite app_nil_r. apply does_fuelled. intros fuel Hf. rewrite predecessor_climb. apply (climb_loop_ok L fuel c (T x col E k v b)); [|done].
    pose proof (length_ctx c (N L x col E k v b)). lia.
  - pose proof (tree_maximum_ok (Fr L x col k v b :: c) (T y cy a' ky vy b')) as H.
    cbn [inorder] in H |- *. rewrite !last_app_cons in *. rewrite app_assoc, last_app_cons. exact H.
Qed.

(** The successor of a node is the next one in the list, the predecessor the one before. *)
Lemma successor_next t l1 i l2 : inorder t = l1 ++ i :: l2 -> does t (successor (Some i.1)) (fst <$> head l2) t.
Proof.
  destruct i as [x [k v]]. intros (c & col & a & b & -> & _ & ->)%inorder_place. apply successor_ok.
Qed.
Lemma predecessor_prev t l1 i l2 : inorder t = l1 ++ i :: l2 -> does t (predecessor (Some i.1)) (fst <$> last l1) t.
Proof.
  destruct i as [x [k v]]. intros (c & col & a & b & -> & -> & _)%inorder_place. apply predecessor_ok.
Qed.
End Search.
