(* ===== verification/RbEdit.v ===== *)
(** * Red-black tree: inserting and removing nodes

    [internal_insert] hangs a node at the end of the search path, [internal_delete] takes a
    node out by putting a child or the next node in its place; both then repair the balance.
    The nodes of the tree stay where they are: only links and colours change, so that
    pointers to the other nodes remain good. *)

From S2P Require Import Prelude OrdMap RbTree RbShape RbFix RbSearch.
#[local] Open Scope Z_scope.

Section Edit.
Context {V : Type}.
Implicit Types (t u : rbtree V) (s : Rb V) (c : @ctx V).

Definition epre c : list (Z * V) := (cpre c).*2.
Definition epost c : list (Z * V) := (cpost c).*2.

(** ** Insertion *)
Lemma insert_place_ok k fuel : forall c t, (height t < fuel)%nat ->
  sorted (entries t) -> al_lookup k (entries t) = None -> below k (epre c) -> above k (epost c) ->
  exists c', plug c t = plug c' E /\ below k (epre c') /\ above k (epost c') /\
    does (plug c t) (insert_place_loop k fuel (cptr c) (tptr t)) (cptr c') (plug c t).
Proof.
  induction fuel as [|fuel IH]; intros c t Hh Hs Hn Hlo Hhi; [lia|].
  destruct t as [|x col a ky v b]; [exists c; repeat split; try done; apply does_ret|]. simpl in Hh, Hs, Hn.
  apply sorted_middle in Hs as (Ha & Hb & Hba & Hab). apply al_lookup_None, Forall_app in Hn as [Hna [Hk Hnb]%Forall_cons].
  simpl in Hk, Hba, Hab. cbn [insert_place_loop tptr is_null].
  destruct (Z.ltb_spec k ky) as [Hlt|Hge].
  - destruct (IH (Fr L x col ky v b :: c) a) as (c' & Hp & Hl & Hh' & Hd); [lia|done|by apply al_lookup_None|done| |].
    { unfold epost. simpl. rewrite fmap_app. constructor; [done|]. apply Forall_app. split; [|done].
      rewrite <-inorder_entries. eapply above_trans; [|exact Hab]. lia. }
    exists c'. split; [exact Hp|]. split; [done|]. split; [done|].
    eapply does_bind; [apply (does_load c L)|]. cbn [ncell cell key left]. rewrite (proj2 (Z.ltb_lt k ky)) by done. exact Hd.
  - destruct (IH (Fr R x col ky v a :: c) b) as (c' & Hp & Hl & Hh' & Hd); [lia|done|by apply al_lookup_None| |done|].
    { unfold epre. simpl. rewrite !fmap_app. apply Forall_app. split; [done|]. apply Forall_app. split; [|constructor; [simpl; lia|constructor]].
      rewrite <-inorder_entries. eapply below_trans; [|exact Hba]. lia. }
    exists c'. split; [exact Hp|]. split; [done|]. split; [done|].
    eapply does_bind; [apply (does_load c L)|]. cbn [ncell cell key right]. rewrite (proj2 (Z.ltb_ge k ky)) by done. exact Hd.
Qed.

Definition attach (k : Z) (parent_ptr node : ptr) : RbST V unit :=
  if is_null parent_ptr then set_root node
  else np ← load parent_ptr;
       if k <? key np then store parent_ptr (with_left node) else store parent_ptr (with_right node).

Lemma attach_ok s c x k :
  crep (heap s) c None -> NoDup (clocs c) -> below k (epre c) -> above k (epost c) -> root s = top c None ->
  exists s', attach k (cptr c) (Some x) s = Ret (tt, s') /\ crep (heap s') c (Some x) /\ root s' = top c (Some x) /\
    len s' = len s /\ forall z, z ∉ clocs c -> heap s' !! z = heap s !! z.
Proof.
  destruct c as [|[d p col kp vp u] c]; [intros _ _ _ _ Hr; by exists (mkRb (heap s) (Some x) (len s))|].
  intros (Hp & Hu & Hc) Hnd Hlo Hhi Hr. simpl in Hp, Hu, Hc, Hr, Hnd. cbn [attach cptr is_null fx].
  apply NoDup_cons in Hnd as [Hni _]. rewrite elem_of_app in Hni.
  exists (mkRb (<[p := fcell (Fr d p col kp vp u) (Some x) (cptr c)]> (heap s)) (root s) (len s)). split; [|split].
  - erewrite rb_bind by (apply load_eq, Hp). destruct d; unfold epost, epre in *; cbn [fcell fd fk key].
    + apply Forall_cons in Hhi as [Hlt _]. simpl in Hlt. rewrite (proj2 (Z.ltb_lt k kp)) by done. by rewrite (store_eq _ _ _ _ Hp).
    + simpl in Hlo. rewrite !fmap_app in Hlo. apply Forall_app in Hlo as [_ [_ [Hlt _]%Forall_cons]%Forall_app]. simpl in Hlt.
      rewrite (proj2 (Z.ltb_ge k kp)) by lia. by rewrite (store_eq _ _ _ _ Hp).
  - cbn [heap crep fx fs]. split; [by rewrite lookup_insert_eq|]. split; [apply rep_insert; tauto|apply crep_insert; tauto].
  - split; [done|]. split; [done|]. intros z Hz. apply lookup_insert_ne. simpl in Hz. set_solver.
Qed.

(** A changed tree: its entries, its nodes and the rest of the heap. *)
Record inserted s t x k v s' t' : Prop := {
  ins_tree : is_tree s' t'; ins_balanced : balanced t'; ins_entries : entries t' = al_insert k v (entries t);
  ins_nodes : exists l1 l2, inorder t = l1 ++ l2 /\ inorder t' = l1 ++ (x, (k, v)) :: l2;
  ins_locs : locs t' ≡ₚ x :: locs t; ins_len : len s' = add64 (len s) 1;
  ins_rest : forall y, y <> x -> y ∉ locs t -> heap s' !! y = heap s !! y
}.

Lemma internal_insert_ok s t x k v q1 q2 q3 col :
  is_tree s t -> balanced t -> sorted (entries t) -> al_lookup k (entries t) = None ->
  heap s !! x = Some (mkRbNode k v q1 q2 q3 col) -> x ∉ locs t ->
  exists s' t', internal_insert (Some x) s = Ret (tt, s') /\ inserted s t x k v s' t'.
Proof.
  intros Hs Hb Hsort Hn Hx Hxt.
  destruct (insert_place_ok k (S (size (heap s))) [] t) as (c & Hc & Hlo & Hhi & Hd); [|done|done|constructor|constructor|].
  { pose proof (height_locs t). pose proof (tree_fits s t Hs). lia. }
  simpl in Hc. subst t. cbn [plug tptr cptr] in Hd.
  unfold internal_insert. erewrite rb_bind by reflexivity. erewrite rb_bind by (by apply load_eq). cbn [key].
  rewrite (proj2 (proj2 Hs)). erewrite rb_bind by exact (does_same _ _ _ _ Hd Hs).
  do 4 (erewrite rb_bind by (apply store_eq; cbn [heap]; first [exact Hx|apply lookup_insert_eq])).
  cbn [heap root len]. rewrite !insert_insert_eq. cbv [with_left with_right with_parent with_color key value left right parent ncolor].
  pose proof Hs as ((_ & Hcr) & Hnd & Hroot)%is_tree_plug. cbn [tptr locs app] in *. rewrite locs_plug in Hxt. cbn [locs app] in Hxt.
  destruct (attach_ok (mkRb (<[x := mkRbNode k v None None (cptr c) Red]> (heap s)) (root s) (len s)) c x k)
    as (s2 & E2 & Hc2 & Hr2 & Hl2 & Hf2); try done; [by apply crep_insert|].
  fold (attach k (cptr c) (Some x)). erewrite rb_bind by exact E2. erewrite rb_bind by reflexivity. cbn [heap len] in *.
  destruct (plug_balanced c E Hb) as (n & Hn0 & Hcok & _). simpl in Hn0. subst n.
  destruct (insert_fixup_ok c x E k v E 0) with (s := mkRb (heap s2) (root s2) (add64 (len s2) 1))
    as (s3 & t3 & E3 & (Ht3 & Hlocs & Hlen & Hf3) & He & Hb3); try done.
  { apply is_tree_plug. cbn [heap root tptr locs app]. split; [split; [|done]|split; [by constructor|done]].
    split; [|done]. rewrite Hf2 by done. by rewrite lookup_insert_eq. }
  exists s3, t3. split; [exact E3|]. rewrite locs_plug in Hlocs. cbn [locs app] in Hlocs. cbn [len heap] in *. split; try done.
  - rewrite (inorder_entries t3), He, <-inorder_entries, !entries_plug. cbn [entries app]. rewrite al_insert_below by done.
    pose proof (al_insert_above k v [] _ Hhi) as H. simpl in H. unfold epost in H. by rewrite H.
  - exists (cpre c), (cpost c). by rewrite He, !inorder_plug.
  - by rewrite Hlocs, locs_plug.
  - by rewrite Hlen, Hl2.
  - intros y Hy Hyt. rewrite locs_plug in Hyt. cbn [locs app] in Hyt.
    rewrite Hf3, Hf2 by (rewrite ?locs_plug; set_solver). by apply lookup_insert_ne.
Qed.

(** ** Removal *)
Lemma transplant_ok s z nz c t p :
  heap s !! z = Some nz -> parent nz = cptr c -> crep (heap s) c (Some z) -> rep (heap s) t p ->
  NoDup (z :: locs t ++ clocs c) -> root s = top c (Some z) ->
  exists s', transplant (Some z) (tptr t) s = Ret (tt, s') /\ rep (heap s') t (cptr c) /\ crep (heap s') c (tptr t) /\
    root s' = top c (tptr t) /\ len s' = len s /\
    forall x, x ∉ locs t -> x ∉ clocs c -> heap s' !! x = heap s !! x.
Proof.
  intros Hz Hp Hc Ht Hnd Hr. apply NoDup_cons in Hnd as [Hzn Hnd]. pose proof Hnd as (Hndt & Hd & Hndc)%NoDup_app.
  rewrite elem_of_app in Hzn.
  destruct (relink_ok L s c z (tptr t)) as (s1 & E1 & Hc1 & Hr1 & Hl1 & Hf1); [done|constructor; [tauto|done]|done|].
  unfold transplant. erewrite rb_bind by (by apply load_eq). rewrite Hp. erewrite rb_bind by exact E1.
  erewrite rb_bind by (apply load_eq; by rewrite Hf1 by tauto). rewrite Hp.
  destruct (reparent_ok s1 t p (cptr c)) as (s2 & E2 & Ht2 & Hr2 & Hl2 & Hf2); [|done|].
  { eapply rep_same; [|exact Ht]. intros x Hx. by apply Hf1, Hd. }
  exists s2. split; [exact E2|]. split; [done|]. split; [|split; [congruence|split; [congruence|]]].
  - eapply crep_same; [|exact Hc1]. intros x Hx. apply Hf2. intros Hxt. by apply (Hd x).
  - intros x Hxt Hxc. by rewrite Hf2, Hf1.
Qed.

(** The node [y] of a subtree whose left part is empty takes the place of [z]. *)
Definition put_in_place (z y : ptr) : RbST V unit :=
  transplant z y;;
  nz ← load z;
  store y (with_left (left nz));;
  store (left nz) (with_parent y);;
  store y (with_color (ncolor nz)).

Lemma put_in_place_ok s c z cz a kz vz q y cy ky vy b p :
  a <> E -> heap s !! z = Some (mkRbNode kz vz (tptr a) q (cptr c) cz) -> rep (heap s) a (Some z) ->
  rep (heap s) (T y cy E ky vy b) p -> crep (heap s) c (Some z) ->
  NoDup (z :: y :: locs a ++ locs b ++ clocs c) -> root s = top c (Some z) ->
  exists s', put_in_place (Some z) (Some y) s = Ret (tt, s') /\ is_tree s' (plug c (T y cz a ky vy b)) /\ len s' = len s /\
    forall x, x <> y -> x ∉ locs a ++ locs b ++ clocs c -> heap s' !! x = heap s !! x.
Proof.
  intros HaE Hz Ha Hy Hc Hnd Hr. pose proof Hnd as [Hzn [Hyn Hnd']%NoDup_cons]%NoDup_cons.
  pose proof Hnd' as (Hnda & Hda & (Hndb & Hdb & Hndc)%NoDup_app)%NoDup_app.
  destruct (transplant_ok s z _ c (T y cy E ky vy b) p Hz eq_refl Hc Hy) as (s1 & E1 & Hy1 & Hc1 & Hr1 & Hl1 & Hf1); [|done|].
  { simpl. clear -Hnd. apply (NoDup_app (locs a) (z :: y :: locs b ++ clocs c)). revert Hnd. apply NoDup_Permutation_proper. solve_Permutation. }
  cbn [tptr locs app] in E1, Hf1, Hc1, Hr1. unfold put_in_place. erewrite rb_bind by exact E1.
  assert (heap s1 !! z = heap s !! z) as Hz1 by (apply Hf1; set_solver).
  erewrite rb_bind by (apply load_eq; by rewrite Hz1). cbn [left ncolor]. destruct Hy1 as (Hy1 & _ & Hb1).
  erewrite rb_bind by (by apply store_eq).
  destruct (reparent_ok (mkRb (<[y := with_left (tptr a) (cell cy E ky vy b (cptr c))]> (heap s1)) (root s1) (len s1)) a (Some z) (Some y))
    as (s3 & E3 & Ha3 & Hr3 & Hl3 & Hf3); [apply rep_insert; [set_solver|]; eapply rep_same; [|exact Ha]; intros x Hx; apply Hf1; set_solver|done|].
  unfold reparent in E3. destruct a as [|xa ca a1 ka va a2]; [done|]. cbn [tptr is_null negb] in E3 |- *.
  erewrite rb_bind by exact E3. cbn [heap root len] in *. set (a := T xa ca a1 ka va a2) in *.
  erewrite store_eq by (rewrite Hf3 by set_solver; apply lookup_insert_eq). eexists. split; [reflexivity|].
  assert (forall x, x <> y -> x ∉ locs a -> heap s3 !! x = heap s1 !! x) as Hf by (intros x Hx Hxa; rewrite Hf3 by done; by apply lookup_insert_ne).
  split; [apply is_tree_plug; cbn [heap root tptr]; split; [split|split]|split].
  - split; [by rewrite lookup_insert_eq|]. split; [by apply rep_insert; [set_solver|]|].
    apply rep_insert; [set_solver|]. eapply rep_same; [|exact Hb1]. intros x Hx. apply Hf; set_solver.
  - apply crep_insert; [set_solver|]. eapply crep_same; [|exact Hc1]. intros x Hx. apply Hf; set_solver.
  - cbn [locs app]. rewrite <-app_assoc. by constructor.
  - congruence.
  - cbn [len]. congruence.
  - intros x Hx Hxn. cbn [heap]. rewrite lookup_insert_ne by done. rewrite Hf, Hf1; set_solver.
Qed.

Lemma rb_assoc {A B C} (m : RbST V A) (f : A -> RbST V B) (g : B -> RbST V C) s :
  ((m ≫= f) ≫= g) s = (m ≫= (fun a => f a ≫= g)) s.
Proof. unfold mbind, rbst_bind. by destruct (m s) as [[]| |]. Qed.
Lemma put_in_place_then {A} z y (k : RbST V A) s s' : put_in_place z y s = Ret (tt, s') ->
  (transplant z y;;
   nz ← load z;
   store y (with_left (left nz));;
   store (left nz) (with_parent y);;
   store y (with_color (ncolor nz));;
   k) s = k s'.
Proof.
  intros H. unfold put_in_place, mbind, rbst_bind in H |- *.
  destruct (transplant z y s) as [[[] s1]| |]; try done. destruct (load z s1) as [[nz s2]| |]; try done.
  destruct (store y _ s2) as [[[] s3]| |]; try done. destruct (store (left nz) _ s3) as [[[] s4]| |]; try done. by rewrite H.
Qed.

(** Everything [internal_delete] does before the repair. *)
Definition splice (z : ptr) : RbST V (Color * ptr * ptr) :=
  nz ← load z;
  if is_null (left nz) then
    transplant z (right nz);;
    mret (ncolor nz, right nz, parent nz)
  else if is_null (right nz) then
    transplant z (left nz);;
    mret (ncolor nz, left nz, parent nz)
  else
    y ← tree_minimum (right nz);
    ny ← load y;
    (if same (parent ny) z then mret tt
     else
       transplant y (right ny);;
       nz ← load z;
       store y (with_right (right nz));;
       store (right nz) (with_parent y));;
    transplant z y;;
    nz ← load z;
    store y (with_left (left nz));;
    store (left nz) (with_parent y);;
    store y (with_color (ncolor nz));;
    mret (ncolor ny, right ny, if same (parent ny) z then y else parent ny).

Lemma internal_delete_splice z s :
  internal_delete z s =
  ('(need_fixup, x, x_parent) ← splice z;
   set_len (fun n => sub64 n 1);;
   r ← get_root;
   (if is_color need_fixup Black && negb (is_null r) then rb_delete_fixup x x_parent else mret tt);;
   store z (with_left None);;
   store z (with_right None);;
   store z (with_parent None);;
   box_from_raw z) s.
Proof. unfold internal_delete, splice. by rewrite rb_assoc. Qed.

(** The tree without [z]; the place [c], [u] is where the repair starts, if one is due. *)
Record spliced s t z k v (need : Color) (xp : ptr) s' c u : Prop := {
  spl_tree : is_tree s' (plug c u);
  spl_nodes : exists l1 l2, inorder t = l1 ++ (z, (k, v)) :: l2 /\ inorder (plug c u) = l1 ++ l2;
  spl_locs : z :: locs (plug c u) ≡ₚ locs t;
  spl_len : len s' = len s;
  spl_rest : forall x, x ∉ locs t -> heap s' !! x = heap s !! x;
  spl_node : exists n, heap s' !! z = Some n /\ key n = k /\ value n = v;
  spl_parent : u = E -> xp = cptr c;
  spl_balance : match need with Red => balanced (plug c u) | Black => exists n, short c u n end
}.

(** Taking out a node with one empty side from a balanced tree. *)
Lemma one_side_balance d c z col k v u :
  balanced (plug c (N d z col E k v u)) ->
  match col with Red => balanced (plug c u) | Black => exists n, short c u n end.
Proof.
  intros (n & Hn & Hc & Hcol)%plug_balanced. rewrite tcolor_N in Hcol. apply rb_N in Hn. destruct col.
  - destruct Hn as (_ & Hu & _ & Hr). apply (balanced_plug _ _ n); [done|done|by rewrite Hu].
  - destruct n as [|n]; [done|]. destruct Hn as [Hn0 Hu]. simpl in Hn0. subst n. unfold short.
    destruct u as [|y [] a ky vy b]; [by exists O|exists 1%nat|by exists O]. simpl. by destruct Hu as (_ & _ & ? & ?).
Qed.

Lemma splice_one d s c z col k v u :
  is_tree s (plug c (N d z col E k v u)) -> balanced (plug c (N d z col E k v u)) ->
  exists s', transplant (Some z) (tptr u) s = Ret (tt, s') /\
    spliced s (plug c (N d z col E k v u)) z k v col (cptr c) s' c u.
Proof.
  intros Hs Hb. pose proof Hs as ((Hr & Hc) & Hnd & Hroot)%is_tree_plug. rewrite tptr_N in *. apply rep_N in Hr as (Hz & _ & Hu).
  destruct (transplant_ok s z _ c u (Some z) Hz) as (s' & E' & Hu' & Hc' & Hr' & Hl' & Hf'); try done; [by destruct d| |].
  { revert Hnd. apply NoDup_Permutation_proper. by rewrite locs_N. }
  exists s'. split; [done|]. split; try done.
  - apply is_tree_plug. split; [done|]. split; [|done]. revert Hnd. rewrite locs_N. by intros [_ ?]%NoDup_cons.
  - rewrite !inorder_plug. exists (cpre c ++ match d with L => [] | R => inorder u end), (match d with L => inorder u | R => [] end ++ cpost c).
    destruct d; simpl; by rewrite <-?app_assoc, ?app_nil_r.
  - rewrite !locs_plug, locs_N. done.
  - intros x Hx. rewrite locs_plug, locs_N in Hx. apply Hf'; set_solver.
  - rewrite locs_N in Hnd. apply NoDup_cons in Hnd as [Hzn _]. rewrite Hf' by set_solver. rewrite Hz. eexists. split; [done|].
    by rewrite key_ncell, value_ncell.
  - by eapply one_side_balance.
Qed.

Lemma leftmost t : t <> E ->
  exists cy y col k v u, t = plug cy (T y col E k v u) /\ Forall (fun f => fd f = L) cy.
Proof.
  induction t as [|x col a IHa k v b _]; [done|]. intros _. destruct a as [|x' col' a1 k' v' a2].
  - exists [], x, col, k, v, b. by split.
  - destruct (IHa ltac:(done)) as (cy & y & cl & ky & vy & u & -> & Hcy). exists (cy ++ [Fr L x col k v b]), y, cl, ky, vy, u.
    split; [by rewrite plug_app|]. apply Forall_app. by split; [|constructor].
Qed.
Lemma cpre_left c : Forall (fun f : frame V => fd f = L) c -> cpre c = [].
Proof. induction 1 as [|f c Hf _ IH]; simpl; [done|]. by rewrite Hf. Qed.

(** The balance does not depend on which node is where. *)
Lemma ctx_ok_swap d z y col kz ky vz vy a c c1 : forall n,
  ctx_ok (c1 ++ Fr d z col kz vz a :: c) n -> ctx_ok (c1 ++ Fr d y col ky vy a :: c) n.
Proof.
  induction c1 as [|f c1 IH]; intros n; simpl; [done|]. intros [Hs H]. split; [done|]. destruct (fc f); [|by apply IH].
  destruct H as (Hc & Hb & H). split; [done|]. split; [by destruct c1|by apply IH].
Qed.
Lemma balanced_swap d z y col kz ky vz vy a c c1 t :
  balanced (plug (c1 ++ Fr d z col kz vz a :: c) t) -> balanced (plug (c1 ++ Fr d y col ky vy a :: c) t).
Proof.
  intros (n & Hn & Hc & Hcol)%plug_balanced. apply (balanced_plug _ _ n); [done|by eapply ctx_ok_swap|].
  intros H. specialize (Hcol H). by destruct c1.
Qed.

(** The next node [y], somewhere below the right child of [z], is taken out and gets the
    right subtree of [z]. *)
Definition lift_next (z y : ptr) (yr : ptr) : RbST V unit :=
  transplant y yr;;
  nz ← load z;
  store y (with_right (right nz));;
  store (right nz) (with_parent y).

Lemma lift_next_ok s c cy z cz a kz vz y coly ky vy yr :
  cy <> [] -> is_tree s (plug (cy ++ Fr R z cz kz vz a :: c) (T y coly E ky vy yr)) ->
  exists s', lift_next (Some z) (Some y) (tptr yr) s = Ret (tt, s') /\ len s' = len s /\
    heap s' !! z = Some (mkRbNode kz vz (tptr a) (tptr (plug cy yr)) (cptr c) cz) /\ rep (heap s') a (Some z) /\
    (exists p, rep (heap s') (T y coly E ky vy (plug cy yr)) p) /\ crep (heap s') c (Some z) /\ root s' = top c (Some z) /\
    forall x, x <> y -> x ∉ locs (plug cy yr) -> x ∉ clocs c -> x <> z -> x ∉ locs a -> heap s' !! x = heap s !! x.
Proof.
  intros Hcy Hs. pose proof Hs as (((Hy & _ & Hyr) & Hc) & Hnd & Hroot)%is_tree_plug.
  set (C := cy ++ Fr R z cz kz vz a :: c) in *. cbn [locs app tptr] in Hnd, Hc, Hroot.
  destruct (transplant_ok s y _ C yr (Some y) Hy) as (s1 & E1 & Hyr1 & Hc1 & Hr1 & Hl1 & Hf1); try done.
  assert (is_tree s1 (plug c (N R z cz (plug cy yr) kz vz a))) as Hs1.
  { change (is_tree s1 (plug (Fr R z cz kz vz a :: c) (plug cy yr))). rewrite <-plug_app. fold C. apply is_tree_plug. split; [done|]. split; [by apply NoDup_cons in Hnd as [_ ?]|done]. }
  assert (y ∉ locs (plug c (N R z cz (plug cy yr) kz vz a))) as Hyn.
  { change (y ∉ locs (plug (Fr R z cz kz vz a :: c) (plug cy yr))). rewrite <-plug_app, locs_plug. fold C. by apply NoDup_cons in Hnd as [? _]. }
  assert (heap s1 !! y = heap s !! y) as Hy1 by (apply NoDup_cons in Hnd as [? _]; apply Hf1; set_solver).
  pose proof Hs1 as (((Hz & Hb & Ha)%rep_N & Hcc) & Hnd1 & Hroot1)%is_tree_plug. rewrite locs_plug in Hyn. rewrite locs_N in Hnd1, Hyn.
  rewrite tptr_N in Hcc, Hroot1. cbn [app] in Hnd1, Hyn.
  unfold lift_next. erewrite rb_bind by exact E1. erewrite rb_bind by (by apply load_eq). cbn [ncell cell right].
  erewrite rb_bind by (apply store_eq; by rewrite Hy1). set (b := plug cy yr) in *.
  assert (NoDup (locs b) /\ (forall x, x ∈ locs b -> x <> z /\ (x ∉ locs a) /\ (x ∉ clocs c))) as [Hndb Hbd].
  { clear -Hnd1. apply NoDup_cons in Hnd1 as [Hz H]. rewrite <-app_assoc in H. apply NoDup_app in H as (? & Hd & _). split; [done|].
    intros x Hx. specialize (Hd x Hx). set_solver. }
  destruct (reparent_ok (mkRb (<[y := with_right (tptr b) (cell coly E ky vy yr (cptr C))]> (heap s1)) (root s1) (len s1)) b (Some z) (Some y))
    as (s3 & E3 & Hb3 & Hr3 & Hl3 & Hf3); [by apply rep_insert; [set_solver|]|done|].
  assert (is_null (tptr b) = false) as Hbn.
  { subst b. destruct cy as [|f cy] using rev_ind; [done|]. rewrite plug_app. cbn [plug]. unfold fill. by rewrite tptr_N. }
  unfold reparent in E3. rewrite Hbn in E3. cbn [negb heap root len] in *. exists s3. split; [exact E3|].
  assert (forall x, x <> y -> x ∉ locs b -> heap s3 !! x = heap s1 !! x) as Hf by (intros x Hx Hxb; rewrite Hf3 by done; by apply lookup_insert_ne).
  assert (z ∉ locs b) as Hzb by (intros Hz'; destruct (Hbd z Hz') as [Hzz _]; by apply Hzz).
  split; [congruence|]. split; [rewrite Hf by set_solver; exact Hz|]. split; [|split; [|split; [|split; [congruence|]]]].
  - eapply rep_same; [|exact Ha]. intros x Hx. apply Hf; [set_solver|]. intros Hxb. specialize (Hbd x Hxb). tauto.
  - exists (cptr C). split; [|split; [done|exact Hb3]]. rewrite Hf3 by set_solver. by rewrite lookup_insert_eq.
  - eapply crep_same; [|exact Hcc]. intros x Hx. apply Hf; [set_solver|]. intros Hxb. specialize (Hbd x Hxb). tauto.
  - intros x Hxy Hxb Hxc Hxz Hxa. rewrite Hf by done. apply Hf1.
    + intros Hx. apply Hxb. subst b. rewrite locs_plug. set_solver.
    + subst C b. unfold clocs in *. rewrite flat_map_app. rewrite locs_plug in Hxb. cbn [flat_map fx fs]. unfold clocs in Hxb. set_solver.
Qed.

(** The state in which [y] is ready to take the place of [z]. *)
Record ready s s1 t c z cz a kz vz y coly ky vy b : Prop := {
  rd_len : len s1 = len s;
  rd_z : exists q, heap s1 !! z = Some (mkRbNode kz vz (tptr a) q (cptr c) cz);
  rd_left : rep (heap s1) a (Some z);
  rd_y : exists p, rep (heap s1) (T y coly E ky vy b) p;
  rd_ctx : crep (heap s1) c (Some z);
  rd_root : root s1 = top c (Some z);
  rd_rest : forall x, x ∉ locs t -> heap s1 !! x = heap s !! x
}.
Lemma locs_next c cy z cz a kz vz y coly ky vy yr :
  locs (plug (cy ++ Fr R z cz kz vz a :: c) (T y coly E ky vy yr)) ≡ₚ z :: y :: locs a ++ locs (plug cy yr) ++ clocs c.
Proof.
  rewrite plug_app. cbn [plug]. unfold fill. cbn [fd fx fc fk fv fs]. rewrite locs_plug, locs_N, !locs_plug. cbn [locs app]. solve_Permutation.
Qed.
Lemma next_parent s c cy z cz a kz vz y coly ky vy yr :
  is_tree s (plug (cy ++ Fr R z cz kz vz a :: c) (T y coly E ky vy yr)) -> cy <> [] ->
  same (cptr (cy ++ Fr R z cz kz vz a :: c)) (Some z) = false.
Proof.
  intros (_ & Hnd & _) Hcy. destruct cy as [|f cy]; [done|]. apply same_false. rewrite locs_next in Hnd. apply NoDup_cons in Hnd as [Hzn _].
  cbn [app cptr]. intros [= Heq]. apply Hzn. right. rewrite locs_plug, !elem_of_app. cbn [clocs flat_map]. rewrite Heq. set_solver.
Qed.
Lemma ready_next s c cy z cz a kz vz y coly ky vy yr :
  let t := plug (cy ++ Fr R z cz kz vz a :: c) (T y coly E ky vy yr) in
  is_tree s t ->
  exists s1, (if same (cptr (cy ++ Fr R z cz kz vz a :: c)) (Some z) then mret tt
              else lift_next (Some z) (Some y) (tptr yr)) s = Ret (tt, s1) /\
    ready s s1 t c z cz a kz vz y coly ky vy (plug cy yr).
Proof.
  intros t Hs. pose proof Hs as Hs'. unfold t in Hs'. destruct cy as [|f cy].
  - cbn [app cptr fx]. rewrite same_true. exists s. split; [done|]. cbn [app plug] in *. unfold fill in Hs'. cbn [fd fx fc fk fv fs] in Hs'.
    apply is_tree_plug in Hs' as (((Hz & Hb & Ha)%rep_N & Hcc) & _ & Hroot). rewrite tptr_N in *. split; try done; by eexists.
  - destruct (lift_next_ok s c (f :: cy) z cz a kz vz y coly ky vy yr ltac:(done) Hs) as (s1 & E1 & Hl & Hz & Ha & Hy & Hc & Hr & Hf).
    exists s1. rewrite (next_parent s c (f :: cy) z cz a kz vz y coly ky vy yr Hs) by done.
    split; [done|]. split; try done; [by eexists|]. intros x Hx. unfold t in Hx. rewrite locs_next in Hx. apply Hf; set_solver.
Qed.

(** The node [y], next after [z], takes its place. *)
Lemma splice_two s c cy z cz a kz vz y coly ky vy yr :
  let t := plug (cy ++ Fr R z cz kz vz a :: c) (T y coly E ky vy yr) in
  a <> E -> Forall (fun f => fd f = L) cy -> is_tree s t -> balanced t ->
  exists s', splice (Some z) s = Ret ((coly, tptr yr, cptr (cy ++ Fr R y cz ky vy a :: c)), s') /\
    spliced s t z kz vz coly (cptr (cy ++ Fr R y cz ky vy a :: c)) s' (cy ++ Fr R y cz ky vy a :: c) yr.
Proof.
  intros t HaE Hcy Hs Hb. set (b := plug cy (T y coly E ky vy yr)).
  assert (t = plug c (N R z cz b kz vz a)) as Ht by (unfold t; by rewrite plug_app).
  assert (inorder b = (y, (ky, vy)) :: inorder (plug cy yr)) as Hib.
  { unfold b. by rewrite !inorder_plug, cpre_left. }
  destruct (ready_next s c cy z cz a kz vz y coly ky vy yr Hs) as (s1 & E1 & [Hl1 (q & Hz1) Ha1 (p & Hy1) Hc1 Hr1 Hf1]). fold t in Hf1.
  pose proof (locs_next c cy z cz a kz vz y coly ky vy yr) as Hlt. fold t in Hlt.
  destruct (put_in_place_ok s1 c z cz a kz vz q y coly ky vy (plug cy yr) p HaE Hz1 Ha1 Hy1 Hc1) as (s2 & E2 & Hs2 & Hl2 & Hf2); [|done|].
  { rewrite <-Hlt. apply Hs. }
  assert (plug c (T y cz a ky vy (plug cy yr)) = plug (cy ++ Fr R y cz ky vy a :: c) yr) as Ht2 by (by rewrite plug_app).
  exists s2. split.
  - unfold splice. rewrite (rb_bind _ _ s (ncell R cz b kz vz a (cptr c)) s) by (apply (does_same t); [rewrite Ht; apply does_load|done]).
    cbn [ncell cell left right parent ncolor].
    replace (is_null (tptr a)) with false by (by destruct a). replace (is_null (tptr b)) with false by (unfold b; by destruct cy as [|f cy] using rev_ind; [|rewrite plug_app; cbn [plug]; unfold fill; rewrite tptr_N]).
    rewrite (rb_bind _ _ s (Some y) s).
    2:{ pose proof (tree_minimum_ok (Fr R z cz kz vz a :: c) b) as H. rewrite Hib in H. apply (does_same t); [|done]. rewrite Ht. exact H. }
    rewrite (rb_bind _ _ s (cell coly E ky vy yr (cptr (cy ++ Fr R z cz kz vz a :: c))) s).
    2:{ apply (does_same t); [|done]. apply (does_load _ L). }
    cbn [cell parent right ncolor]. erewrite rb_bind by exact E1. erewrite put_in_place_then by exact E2.
    unfold mret, rbst_ret. do 3 f_equal. destruct cy as [|f cy]; [cbn [app cptr fx]; by rewrite same_true|].
    by rewrite (next_parent s c (f :: cy) z cz a kz vz y coly ky vy yr Hs).
  - assert (NoDup (locs t)) as Hnd by apply Hs. rewrite Hlt in Hnd. apply NoDup_cons in Hnd as [Hzn _]. split.
    + by rewrite <-Ht2.
    + exists (cpre c ++ inorder a), (inorder b ++ cpost c). rewrite <-Ht2, Ht, !inorder_plug, Hib. simpl. rewrite Hib, <-!app_assoc. done.
    + rewrite <-Ht2, Hlt, locs_plug. cbn [locs app]. by rewrite <-app_assoc.
    + congruence.
    + intros x Hx. rewrite Hf2, Hf1; [done|done|..]; rewrite Hlt in Hx; set_solver.
    + rewrite Hf2 by set_solver. rewrite Hz1. by eexists.
    + by intros.
    + apply (one_side_balance L _ y _ ky vy). eapply balanced_swap. exact Hb.
Qed.

Lemma splice_ok s c z cz a kz vz b :
  let t := plug c (T z cz a kz vz b) in is_tree s t -> balanced t ->
  exists s' need xp c' u, splice (Some z) s = Ret ((need, tptr u, xp), s') /\ spliced s t z kz vz need xp s' c' u.
Proof.
  intros t Hs Hb. assert (load (Some z) s = Ret (cell cz a kz vz b (cptr c), s)) as Hz by (apply (does_same t); [apply (does_load c L)|done]).
  destruct a as [|xa ca a1 ka va a2]; [|destruct b as [|xb cb b1 kb vb b2]].
  - destruct (splice_one L s c z cz kz vz b Hs Hb) as (s' & E' & H). exists s', cz, (cptr c), c, b. split; [|exact H].
    unfold splice. rewrite (rb_bind _ _ _ _ _ Hz). cbn [cell left right parent ncolor tptr is_null]. by rewrite (rb_bind _ _ _ _ _ E').
  - destruct (splice_one R s c z cz kz vz (T xa ca a1 ka va a2) Hs Hb) as (s' & E' & H). exists s', cz, (cptr c), c, (T xa ca a1 ka va a2). split; [|exact H].
    unfold splice. rewrite (rb_bind _ _ _ _ _ Hz). cbn [cell left right parent ncolor tptr is_null]. by erewrite rb_bind by exact E'.
  - destruct (leftmost (T xb cb b1 kb vb b2)) as (cy & y & coly & ky & vy & yr & Hb' & Hcy); [done|].
    assert (t = plug (cy ++ Fr R z cz kz vz (T xa ca a1 ka va a2) :: c) (T y coly E ky vy yr)) as Ht by (unfold t; by rewrite plug_app, <-Hb').
    clearbody t. subst t. destruct (splice_two s c cy z cz (T xa ca a1 ka va a2) kz vz y coly ky vy yr ltac:(done) Hcy Hs Hb) as (s' & E' & H).
    by eexists s', coly, _, _, yr.
Qed.

(** A tree without one of its nodes, which is freed. *)
Record deleted s t z k v s' t' : Prop := {
  del_tree : is_tree s' t'; del_balanced : balanced t';
  del_nodes : exists l1 l2, inorder t = l1 ++ (z, (k, v)) :: l2 /\ inorder t' = l1 ++ l2;
  del_locs : z :: locs t' ≡ₚ locs t; del_len : len s' = sub64 (len s) 1;
  del_freed : heap s' !! z = None;
  del_rest : forall x, x ∉ locs t -> heap s' !! x = heap s !! x
}.

Lemma internal_delete_ok s t z k v :
  is_tree s t -> balanced t -> (z, (k, v)) ∈ inorder t ->
  exists n s' t', internal_delete (Some z) s = Ret (n, s') /\ key n = k /\ value n = v /\ deleted s t z k v s' t'.
Proof.
  intros Hs Hb (c & cz & a & b & ->)%elem_place.
  destruct (splice_ok s c z cz a k v b Hs Hb) as (s1 & need & xp & c' & u & E1 & [Ht1 Hn1 Hl1 Hlen1 Hf1 (n & Hz1 & Hk & Hv) Hxp Hbal]).
  rewrite internal_delete_splice. erewrite rb_bind by exact E1. cbv beta iota. do 2 (erewrite rb_bind by reflexivity). cbn [heap root len].
  set (s2 := mkRb (heap s1) (root s1) (sub64 (len s1) 1)). assert (is_tree s2 (plug c' u)) as Ht2 by exact Ht1.
  assert (mends (plug c' u) (if is_color need Black && negb (is_null (root s1)) then rb_delete_fixup (tptr u) xp else mret tt) tt balanced) as Hm.
  { destruct need; cbn [is_color]; unfold is_color; [rewrite bool_decide_false by done|rewrite bool_decide_true by done; destruct Hbal as (m & Hbal)].
    - by apply (mends_does _ _ _ (plug c' u)); [apply does_ret|..].
    - cbn [andb]. destruct (root s1) eqn:Hr; cbn [is_null negb]; [by eapply delete_fixup_ok|].
      apply (mends_does _ _ _ (plug c' u)); [apply does_ret|done|]. destruct Ht1 as (_ & _ & Hr'). rewrite Hr in Hr'. symmetry in Hr'.
      apply tptr_None in Hr'. rewrite Hr'. split; [done|by exists O]. }
  destruct (Hm s2 Ht2) as (s3 & t3 & E3 & (Ht3 & Hl3 & Hlen3 & Hf3) & Hi3 & Hb3). rewrite (rb_bind _ _ _ _ _ E3).
  assert (z ∉ locs (plug c' u)) as Hzn by (destruct Hs as (_ & Hnd & _); rewrite <-Hl1 in Hnd; by apply NoDup_cons in Hnd as [? _]).
  assert (heap s3 !! z = Some n) as Hz3 by (by rewrite Hf3).
  do 3 (erewrite rb_bind by (apply store_eq; cbn [heap]; first [exact Hz3|apply lookup_insert_eq])).
  cbn [heap root len]. rewrite !insert_insert_eq. unfold box_from_raw. cbn [heap]. rewrite lookup_insert_eq, delete_insert_eq.
  eexists _, _, t3. split; [reflexivity|]. split; [done|]. split; [done|]. unfold put_heap. cbn [root len].
  split; cbn [heap root len]; try done.
  - destruct Ht3 as (Hr & Hnd & Hroot). split; [|done]. cbn [heap]. eapply rep_same; [|exact Hr]. intros x Hx. apply lookup_delete_ne.
    intros ->. apply Hzn. by rewrite <-Hl3.
  - destruct Hn1 as (l1 & l2 & H1 & H2). exists l1, l2. split; [done|]. by rewrite Hi3.
  - by rewrite Hl3.
  - rewrite Hlen3. cbn [s2 len]. by rewrite Hlen1.
  - apply lookup_delete_eq.
  - intros x Hx. rewrite lookup_delete_ne by (intros ->; apply Hx; rewrite <-Hl1; by left). rewrite Hf3 by (intros Hx'; apply Hx; rewrite <-Hl1; by right).
    by apply Hf1.
Qed.
End Edit.
