(* ===== verification/RbOps.v ===== *)
(** * Red-black tree: the operations

    [rb_at s t]: the state [s] holds the balanced tree [t] with sorted entries and the right
    length; [others s t] is the rest of the heap.  Each public operation is related to the
    same operation on the sorted list of entries, and leaves in the heap exactly the nodes
    of the new tree beside the others: nothing is leaked and no other node is touched.
    Among the operations that run over many nodes, [retain] keeps pointers to nodes while it
    removes others; [append] and [clone] work on two trees in one heap. *)

From S2P Require Import Prelude OrdMap RbTree RbShape RbFix RbSearch RbEdit.
#[local] Open Scope Z_scope.

Section Ops.
Context {V : Type}.
Implicit Types (t u : rbtree V) (s : Rb V) (c : @ctx V).

Record rb_at s t : Prop := {
  at_tree : is_tree s t; at_balanced : balanced t; at_sorted : sorted (entries t);
  at_len : len s = Z.of_nat (length (entries t)); at_small : Z.of_nat (length (entries t)) < u64_size
}.
Definition others s t : gmap positive (RbNode V) := filter (fun '(x, _) => x ∉ locs t) (heap s).

Lemma others_eq s t s' t' :
  (forall x, x ∉ locs t -> x ∉ locs t' -> heap s' !! x = heap s !! x) ->
  (forall x, x ∈ locs t -> x ∉ locs t' -> heap s' !! x = None) ->
  (forall x, x ∉ locs t -> x ∈ locs t' -> heap s !! x = None) ->
  others s' t' = others s t.
Proof.
  intros H1 H2 H3. apply map_eq. intros x. unfold others. apply option_eq. intros n. rewrite !map_lookup_filter_Some.
  destruct (decide (x ∈ locs t)), (decide (x ∈ locs t')); try tauto.
  - rewrite H2 by done. split; [by intros [? _]|tauto].
  - rewrite H3 by done. split; [tauto|by intros [? _]].
  - rewrite H1 by done. tauto.
Qed.
Lemma evolves_others s t s' t' : evolves s t s' t' -> others s' t' = others s t.
Proof. intros (_ & Hl & _ & Hf). apply others_eq; intros x; rewrite Hl; try done. intros Hx _. by apply Hf. Qed.

(** ** Lookups *)
Lemma find_cases k t : sorted (entries t) ->
  let found := fst <$> head (filter (fun i => ikey i = k) (inorder t)) in
  (al_lookup k (entries t) = None /\ found = None) \/
  exists x v, al_lookup k (entries t) = Some v /\ found = Some x /\ (x, (k, v)) ∈ inorder t.
Proof.
  intros Hs. destruct (filter _ (inorder t)) as [|[x [k' v]] l] eqn:Hf; [left|right].
  - split; [|done]. apply al_lookup_None. rewrite inorder_entries, Forall_fmap. apply Forall_forall. intros i Hi Hk.
    assert (i ∈ filter (fun i => ikey i = k) (inorder t)) as Hin by (by apply list_elem_of_filter). rewrite Hf in Hin. inversion Hin.
  - assert ((x, (k', v)) ∈ filter (fun i => ikey i = k) (inorder t)) as Hin by (rewrite Hf; by left).
    apply list_elem_of_filter in Hin as [Hk Hin]. unfold ikey in Hk. simpl in Hk. subst k'. exists x, v. split; [|done].
    apply al_lookup_elem; [done|]. rewrite inorder_entries. by apply (list_elem_of_fmap_2 snd) in Hin.
Qed.

Lemma head_elem {A} (l : list A) i : head l = Some i -> i ∈ l.
Proof. destruct l; simpl; [done|]. intros [= ->]. by left. Qed.
Lemma pick_elem {A} d (l : list A) i : pick d l = Some i -> i ∈ l.
Proof. destruct d; [apply head_elem|apply last_Some_elem_of]. Qed.
Lemma pick_fmap {A B} (f : A -> B) d l : pick d (f <$> l) = f <$> pick d l.
Proof.
  destruct d; simpl; [by destruct l|]. induction l as [|x l IH]; [done|]. rewrite fmap_cons, !last_cons, IH. by destruct (last l).
Qed.

Lemma load_item t x k v : (x, (k, v)) ∈ inorder t -> exists n, does t (load (Some x)) n t /\ key n = k /\ value n = v.
Proof. intros (c & col & a & b & ->)%elem_place. eexists. split; [apply (does_load c L)|done]. Qed.

Lemma entries_pick d t : pick d (entries t) = snd <$> pick d (inorder t).
Proof. by rewrite inorder_entries, <-pick_fmap. Qed.

Section State.
Variables (s : Rb V) (t : rbtree V).
Hypothesis Hat : rb_at s t.

Lemma find_node_ok k : does t (find_node k) (fst <$> head (filter (fun i => ikey i = k) (inorder t))) t.
Proof.
  eapply does_bind; [apply does_get_root|]. apply does_fuelled. intros fuel Hf.
  apply (find_node_loop_ok k fuel [] t); [pose proof (height_locs t); lia|apply Hat].
Qed.
(** Lookups that follow a search: absent and present keys. *)
Lemma find_then {A} k (f : ptr -> RbST V A) a t' :
  (al_lookup k (entries t) = None -> does t (f None) a t') ->
  (forall x v, al_lookup k (entries t) = Some v -> (x, (k, v)) ∈ inorder t -> does t (f (Some x)) a t') ->
  does t (find_node k ≫= f) a t'.
Proof.
  intros Hn Hs. eapply does_bind; [apply find_node_ok|].
  destruct (find_cases k t (at_sorted _ _ Hat)) as [(Hl & ->)|(x & v & Hl & -> & Hin)]; [by apply Hn|by eapply Hs].
Qed.
Lemma rb_get_ok k : get k s = Ret (al_lookup k (entries t), s).
Proof.
  apply (does_same t); [|apply Hat]. apply find_then; intros; [rewrite H; apply does_ret|]. rewrite H.
  destruct (load_item t x k v H0) as (n & Hd & _ & <-). eapply does_bind; [exact Hd|apply does_ret].
Qed.
Lemma contains_key_ok k : contains_key k s = Ret (bool_decide (is_Some (al_lookup k (entries t))), s).
Proof.
  apply (does_same t); [|apply Hat]. apply find_then; intros; rewrite H; [rewrite bool_decide_false by (by intros [])|rewrite bool_decide_true by done]; apply does_ret.
Qed.
Lemma get_key_value_ok k : get_key_value k s = Ret ((fun v => (k, v)) <$> al_lookup k (entries t), s).
Proof.
  apply (does_same t); [|apply Hat]. apply find_then; intros; rewrite H; [apply does_ret|by apply does_entry_of].
Qed.

Lemma entry_of_pick (o : option (item V)) : (forall i, o = Some i -> i ∈ inorder t) ->
  does t (entry_of (fst <$> o)) (snd <$> o) t.
Proof. destruct o as [[x [k v]]|]; intros H; [by apply does_entry_of, H|apply does_ret]. Qed.
Lemma first_key_value_ok : first_key_value s = Ret (head (entries t), s).
Proof.
  apply (does_same t); [|apply Hat]. eapply does_bind; [apply does_get_root|]. eapply does_bind; [apply (tree_minimum_ok [])|].
  change (head (entries t)) with (pick L (entries t)). rewrite inorder_entries, pick_fmap. apply entry_of_pick. intros i. apply head_elem.
Qed.
Lemma last_key_value_ok : last_key_value s = Ret (last (entries t), s).
Proof.
  apply (does_same t); [|apply Hat]. eapply does_bind; [apply does_get_root|]. eapply does_bind; [apply (tree_maximum_ok [])|].
  change (last (entries t)) with (pick R (entries t)). rewrite inorder_entries, pick_fmap. apply entry_of_pick. intros i. apply last_Some_elem_of.
Qed.

(** ** Neighbours of a key *)
Lemma seek_ok d P (loop : nat -> ptr -> ptr -> RbST V ptr) : loop = seek_loop d P -> closed d P ->
  (p ← (r ← get_root; fuelled (fun fuel => loop fuel None r)); entry_of p) s =
  Ret (pick d (filter (fun e => P e.1 = true) (entries t)), s).
Proof.
  intros -> HP. apply (does_same t); [|apply Hat].
  eapply does_bind; [eapply does_bind; [apply does_get_root|]|].
  - apply does_fuelled. intros fuel Hf. apply (seek_loop_ok d P fuel HP [] t None); [pose proof (height_locs t); lia|apply Hat].
  - rewrite inorder_entries.
    replace (filter (fun e => P e.1 = true) (inorder t).*2) with (snd <$> filter (fun i => P (ikey i) = true) (inorder t)).
    + rewrite pick_fmap. apply entry_of_pick. intros i Hi%pick_elem. by apply list_elem_of_filter in Hi as [_ ?].
    + generalize (inorder t). intros l. induction l as [|i l IH]; [done|]. rewrite fmap_cons, !filter_cons, <-IH. unfold ikey. by destruct (decide _).
Qed.
Lemma rb_lower_bound_ok k : lower_bound k s = Ret (head (filter (fun e => (k <=? e.1) = true) (entries t)), s).
Proof. apply (seek_ok L (fun x => k <=? x) _ (lower_bound_seek k)). intros x y H ?%Z.leb_le. apply Z.leb_le. simpl in H. lia. Qed.
Lemma upper_bound_ok k : upper_bound k s = Ret (head (filter (fun e => (k <? e.1) = true) (entries t)), s).
Proof. apply (seek_ok L (fun x => k <? x) _ (upper_bound_seek k)). intros x y H ?%Z.ltb_lt. apply Z.ltb_lt. simpl in H. lia. Qed.
Lemma floor_ok k : floor k s = Ret (last (filter (fun e => (e.1 <=? k) = true) (entries t)), s).
Proof. apply (seek_ok R (fun x => x <=? k) _ (floor_seek k)). intros x y H ?%Z.leb_le. apply Z.leb_le. simpl in H. lia. Qed.
Lemma lower_than_ok k : lower_than k s = Ret (last (filter (fun e => (e.1 <? k) = true) (entries t)), s).
Proof. apply (seek_ok R (fun x => x <? k) _ (lower_than_seek k)). intros x y H ?%Z.ltb_lt. apply Z.ltb_lt. simpl in H. lia. Qed.

(** ** Iteration *)
Lemma iter_collect_ok fuel : forall l1 l2, (length l2 < fuel)%nat -> inorder t = l1 ++ l2 ->
  does t (iter_collect fuel (fst <$> head l2)) l2.*2 t.
Proof.
  induction fuel as [|fuel IH]; intros l1 l2 Hf Ht; [lia|]. destruct l2 as [|[x [k v]] l2]; cbn [iter_collect head].
  - eapply does_bind; [apply does_ret|]. apply does_ret.
  - destruct (load_item t x k v) as (n & Hd & Hk & Hv); [rewrite Ht; set_solver|]. simpl in Hf.
    eapply does_bind; [unfold iter_next; cbn [is_null]; eapply does_bind; [exact Hd|]; eapply does_bind; [by apply (successor_next t l1 (x, (k, v)) l2)|]; apply does_ret|].
    eapply does_bind; [apply (IH (l1 ++ [(x, (k, v))]) l2); [lia|by rewrite <-app_assoc]|]. rewrite Hk, Hv. apply does_ret.
Qed.
Lemma rb_iter_ok : iter s = Ret (entries t, s).
Proof.
  apply (does_same t); [|apply Hat]. eapply does_bind; [apply does_get_root|]. eapply does_bind; [apply (tree_minimum_ok [])|].
  apply does_fuelled. intros fuel Hf. rewrite inorder_entries. apply (iter_collect_ok fuel []); [|done].
  rewrite inorder_locs, length_fmap in Hf. exact Hf.
Qed.

End State.

(** ** Changes *)
(** The entries after an insertion, which replaces the value of a key that is there. *)
Definition al_put (k : Z) (v : V) (l : list (Z * V)) : list (Z * V) :=
  match al_lookup k l with Some _ => al_update k (fun _ => v) l | None => al_insert k v l end.

(** [m] answers [a] and leaves the entries [l], in nodes of the tree's own. *)
Definition changes {A} (m : RbST V A) s t (a : A) (l : list (Z * V)) : Prop :=
  exists s' t', m s = Ret (a, s') /\ rb_at s' t' /\ others s' t' = others s t /\ entries t' = l.

Lemma changes_bind {A B} (m : RbST V A) (f : A -> RbST V B) s t a b l :
  does t m a t -> is_tree s t -> changes (f a) s t b l -> changes (m ≫= f) s t b l.
Proof.
  intros Hd Hs (s' & t' & E & H). exists s', t'. split; [|done]. by rewrite (rb_bind _ _ _ _ _ (does_same _ _ _ _ Hd Hs)).
Qed.
Lemma changes_then {A B} (m : RbST V A) (b : B) s t a l :
  changes m s t a l -> changes (m ≫= (fun _ => mret b)) s t b l.
Proof. intros (s' & t' & E & H). exists s', t'. split; [|done]. by rewrite (rb_bind _ _ _ _ _ E). Qed.
Lemma changes_find {A} k (f : ptr -> RbST V A) s t a l : rb_at s t ->
  (al_lookup k (entries t) = None -> changes (f None) s t a l) ->
  (forall x v, al_lookup k (entries t) = Some v -> (x, (k, v)) ∈ inorder t -> changes (f (Some x)) s t a l) ->
  changes (find_node k ≫= f) s t a l.
Proof.
  intros Hat Hn Hs. eapply changes_bind; [by eapply find_node_ok|apply Hat|].
  destruct (find_cases k t (at_sorted _ _ Hat)) as [(Hl & ->)|(x & v & Hl & -> & Hin)]; [by apply Hn|by eapply Hs].
Qed.
Lemma changes_none {A} s t (a : A) : rb_at s t -> changes (mret a) s t a (entries t).
Proof. intros H. by exists s, t. Qed.

Lemma sorted_place c x col (a : rbtree V) k v b : sorted (entries (plug c (T x col a k v b))) <->
  sorted (epre c ++ entries a) /\ sorted (entries b ++ epost c) /\ below k (epre c ++ entries a) /\ above k (entries b ++ epost c).
Proof. rewrite entries_plug. cbn [entries]. rewrite <-app_assoc, (app_assoc (_.*2)). cbn [app]. by rewrite sorted_middle. Qed.
(** Changing the value of one node. *)
Lemma set_value_at s t l1 x k v l2 v' : rb_at s t -> inorder t = l1 ++ (x, (k, v)) :: l2 ->
  exists s' t', store (Some x) (with_value v') s = Ret (tt, s') /\ rb_at s' t' /\ others s' t' = others s t /\
    inorder t' = l1 ++ (x, (k, v')) :: l2.
Proof.
  intros [Hs Hb Hsort Hl Hsm] (c & col & a & b & -> & -> & ->)%inorder_place.
  destruct (does_set_value c x col a k v b v' s Hs) as (s' & E & Ev).
  assert (length (entries (plug c (T x col a k v' b))) = length (entries (plug c (T x col a k v b)))) as Hlen.
  { rewrite !entries_plug, !length_app. cbn [entries]. rewrite !length_app. done. }
  exists s', (plug c (T x col a k v' b)). split; [done|]. split; [|split; [by apply evolves_others|]].
  - split; [apply Ev| | |destruct Ev as (_ & _ & -> & _); by rewrite Hlen|by rewrite Hlen].
    + destruct (plug_balanced _ _ Hb) as (n & Hn & Hc & Hcol). by apply (balanced_plug _ _ n).
    + apply sorted_place in Hsort. by apply sorted_place.
  - rewrite inorder_plug. cbn [inorder]. by rewrite <-!app_assoc.
Qed.
Lemma set_value_ok s t x k v f : rb_at s t -> (x, (k, v)) ∈ inorder t ->
  changes (store (Some x) (with_value (f v))) s t tt (al_update k f (entries t)).
Proof.
  intros Hat (l1 & l2 & H)%list_elem_of_split. destruct (set_value_at s t l1 x k v l2 (f v) Hat H) as (s' & t' & E & Ha & Ho & Hi).
  exists s', t'. split; [done|]. split; [done|]. split; [done|]. pose proof (at_sorted _ _ Hat) as Hs. revert Hs.
  rewrite !inorder_entries, H, Hi, !fmap_app. cbn [fmap list_fmap snd]. intros Hs. by rewrite al_update_here.
Qed.
Lemma rb_get_mut_ok s t k f : rb_at s t -> changes (get_mut k f) s t (al_lookup k (entries t)) (al_update k f (entries t)).
Proof.
  intros Hat. apply changes_find; [done|intros Hn|intros x v Hv Hin].
  - rewrite Hn, al_update_absent by (by apply al_lookup_None). by apply changes_none.
  - destruct (load_item t x k v Hin) as (n & Hd & _ & <-). rewrite Hv. cbn [is_null]. eapply changes_bind; [exact Hd|apply Hat|].
    by eapply changes_then, set_value_ok.
Qed.

Lemma tree_in_heap s t x : is_tree s t -> heap s !! x = None -> x ∉ locs t.
Proof. intros (Hr & _) Hx Hin. destruct (rep_dom _ _ _ Hr x Hin) as [n Hn]. congruence. Qed.

(** A new node for a key that is not there. *)
Lemma insert_new_ok s t k v : rb_at s t -> al_lookup k (entries t) = None ->
  Z.of_nat (length (entries t)) + 1 < u64_size ->
  exists x s' t', (node ← node_new k v; internal_insert node;; mret node) s = Ret (Some x, s') /\ rb_at s' t' /\
    others s' t' = others s t /\ entries t' = al_insert k v (entries t) /\ (x, (k, v)) ∈ inorder t'.
Proof.
  intros [Hs Hb Hsort Hl Hsm] Hn Hbig. set (x := fresh (dom (heap s))).
  assert (heap s !! x = None) as Hx by (apply not_elem_of_dom, is_fresh). pose proof (tree_in_heap s t x Hs Hx) as Hxt.
  set (s1 := put_heap (<[x := mkRbNode k v None None None Red]> (heap s)) s).
  destruct (internal_insert_ok s1 t x k v None None None Red) as (s2 & t2 & E2 & [Ht2 Hb2 He2 (l1 & l2 & _ & Hi2) Hl2 Hn2 Hr2]); try done.
  { destruct Hs as (Hr & Hnd & Hroot). split; [|done]. by apply rep_insert. }
  { cbn [s1 put_heap heap]. by rewrite lookup_insert_eq. }
  exists x, s2, t2. split; [|split; [split; try done|split; [|split; [done|]]]].
  - erewrite rb_bind by reflexivity. by rewrite (rb_bind _ _ _ _ _ E2).
  - rewrite He2. by apply al_insert_sorted.
  - rewrite Hn2, He2, length_al_insert. cbn [s1 put_heap len]. rewrite add64_small; lia.
  - rewrite He2, length_al_insert. lia.
  - apply others_eq; intros y; rewrite Hl2.
    + intros Hy Hyt. rewrite Hr2 by set_solver. cbn [s1 put_heap heap]. apply lookup_insert_ne. set_solver.
    + set_solver.
    + intros Hy Hyt. apply elem_of_cons in Hyt as [->|?]; [done|set_solver].
  - rewrite Hi2. set_solver.
Qed.
Lemma rb_insert_ok s t k v : rb_at s t -> Z.of_nat (length (entries t)) + 1 < u64_size ->
  changes (insert k v) s t (al_lookup k (entries t)) (al_put k v (entries t)).
Proof.
  intros Hat Hbig. apply changes_find; [done|intros Hn|intros x w Hv Hin]; unfold al_put.
  - rewrite Hn. cbn [is_null negb]. destruct (insert_new_ok s t k v Hat Hn Hbig) as (x & s' & t' & E & Ha & Ho & He & _).
    exists s', t'. split; [|done]. revert E. unfold mbind, rbst_bind. destruct (node_new k v s) as [[p s1]| |]; try done.
    destruct (internal_insert p s1) as [[[] s2]| |]; try done. unfold mret, rbst_ret. congruence.
  - rewrite Hv. cbn [is_null negb]. destruct (load_item t x k w Hin) as (n & Hd & _ & <-). eapply changes_bind; [exact Hd|apply Hat|].
    eapply changes_then. by apply (set_value_ok s t x k (value n) (fun _ => v)).
Qed.

(** Removal of one node; the others keep their addresses. *)
Lemma delete_ok s t x k v : rb_at s t -> (x, (k, v)) ∈ inorder t ->
  exists n s' t' l1 l2, internal_delete (Some x) s = Ret (n, s') /\ key n = k /\ value n = v /\ rb_at s' t' /\
    others s' t' = others s t /\ entries t' = al_remove k (entries t) /\
    inorder t = l1 ++ (x, (k, v)) :: l2 /\ inorder t' = l1 ++ l2.
Proof.
  intros [Hs Hb Hsort Hl Hsm] Hin.
  destruct (internal_delete_ok s t x k v Hs Hb Hin) as (n & s' & t' & E & Hk & Hv & [Ht' Hb' (l1 & l2 & H1 & H2) Hlocs Hlen Hfr Hrest]).
  assert (entries t = l1.*2 ++ (k, v) :: l2.*2) as He by (by rewrite inorder_entries, H1, fmap_app).
  assert (entries t' = l1.*2 ++ l2.*2) as He' by (by rewrite inorder_entries, H2, fmap_app).
  pose proof Hsort as Hsort'. rewrite He in Hsort'. apply sorted_middle in Hsort' as (_ & _ & Hbl & Hab). simpl in Hbl, Hab.
  assert (entries t' = al_remove k (entries t)) as Hrem by (by rewrite He, al_remove_here).
  assert (length (entries t) = S (length (entries t'))) as Hlent by (rewrite He, He', !length_app; simpl; lia).
  exists n, s', t', l1, l2. split; [done|]. split; [done|]. split; [done|]. split; [|split; [|done]].
  - split; try done; [rewrite Hrem; by apply al_remove_sorted| |lia]. rewrite Hlen, Hl, sub64_small; lia.
  - apply others_eq; intros y; rewrite <-Hlocs.
    + intros Hy _. apply Hrest. by rewrite <-Hlocs.
    + intros Hy Hyt. apply elem_of_cons in Hy as [->|?]; done.
    + set_solver.
Qed.
Lemma remove_entry_ok s t k : rb_at s t ->
  changes (remove_entry k) s t ((fun v => (k, v)) <$> al_lookup k (entries t)) (al_remove k (entries t)).
Proof.
  intros Hat. apply changes_find; [done|intros Hn|intros x v Hv Hin].
  - rewrite Hn, al_remove_absent by (by apply al_lookup_None). by apply changes_none.
  - destruct (delete_ok s t x k v Hat Hin) as (n & s' & t' & l1 & l2 & E & Hk & Hw & Ha & Ho & He & _).
    exists s', t'. split; [|done]. cbn [is_null]. rewrite (rb_bind _ _ _ _ _ E). by rewrite Hk, Hw, Hv.
Qed.
Lemma rb_remove_ok s t k : rb_at s t -> changes (remove k) s t (al_lookup k (entries t)) (al_remove k (entries t)).
Proof.
  intros Hat. apply changes_find; [done|intros Hn|intros x v Hv Hin].
  - rewrite Hn, al_remove_absent by (by apply al_lookup_None). by apply changes_none.
  - destruct (delete_ok s t x k v Hat Hin) as (n & s' & t' & l1 & l2 & E & Hk & Hw & Ha & Ho & He & _).
    exists s', t'. split; [|done]. cbn [is_null]. rewrite (rb_bind _ _ _ _ _ E). by rewrite Hw, Hv.
Qed.

(** The first and the last entry. *)
Definition al_drop (o : option (Z * V)) (l : list (Z * V)) : list (Z * V) :=
  match o with Some e => al_remove e.1 l | None => l end.
Lemma rb_pop_ok s t d (find : ptr -> RbST V ptr) : rb_at s t ->
  (forall u, does u (find (tptr u)) (fst <$> pick d (inorder u)) u) ->
  changes (r ← get_root; node ← find r;
           if is_null node then mret None else boxed ← internal_delete node; mret (Some (key boxed, value boxed))) s t
    (pick d (entries t)) (al_drop (pick d (entries t)) (entries t)).
Proof.
  intros Hat Hfind. eapply changes_bind; [apply does_get_root|apply Hat|]. eapply changes_bind; [apply Hfind|apply Hat|].
  rewrite !entries_pick. destruct (pick d (inorder t)) as [[x [k v]]|] eqn:Hp; [|by apply changes_none].
  apply pick_elem in Hp. cbn [fmap option_fmap option_map fst snd is_null].
  destruct (delete_ok s t x k v Hat Hp) as (n & s' & t' & l1 & l2 & E & Hk & Hw & Ha & Ho & He & _).
  exists s', t'. split; [|done]. rewrite (rb_bind _ _ _ _ _ E). by rewrite Hk, Hw.
Qed.
Lemma pop_first_ok s t : rb_at s t -> changes pop_first s t (head (entries t)) (al_drop (head (entries t)) (entries t)).
Proof. intros Hat. apply (rb_pop_ok s t L tree_minimum Hat). intros u. apply (tree_minimum_ok []). Qed.
Lemma pop_last_ok s t : rb_at s t -> changes pop_last s t (last (entries t)) (al_drop (last (entries t)) (entries t)).
Proof. intros Hat. apply (rb_pop_ok s t R tree_maximum Hat). intros u. apply (tree_maximum_ok []). Qed.

(** Releasing all nodes. *)
Lemma free_subtree_loop_ok fuel : forall s t p, (height t < fuel)%nat -> rep (heap s) t p -> NoDup (locs t) ->
  exists s', free_subtree_loop fuel (tptr t) s = Ret (tt, s') /\ root s' = root s /\ len s' = len s /\
    (forall x, x ∈ locs t -> heap s' !! x = None) /\ (forall x, x ∉ locs t -> heap s' !! x = heap s !! x).
Proof.
  induction fuel as [|fuel IH]; intros s t p Hh Hr Hnd; [lia|].
  destruct t as [|x col a k v b]; [exists s; repeat split; set_solver|]. simpl in Hh. destruct Hr as (Hx & Ha & Hb).
  cbn [locs] in Hnd. apply NoDup_cons in Hnd as [Hxn (Hna & Hd & Hnb)%NoDup_app]. rewrite elem_of_app in Hxn.
  destruct (IH s a (Some x)) as (s1 & E1 & Hr1 & Hl1 & Hg1 & Hf1); [lia|done|done|].
  destruct (IH s1 b (Some x)) as (s2 & E2 & Hr2 & Hl2 & Hg2 & Hf2); [lia| |done|].
  { eapply rep_same; [|exact Hb]. intros y Hy. apply Hf1. intros Hy'. by apply (Hd y). }
  assert (heap s1 !! x = heap s !! x) as Hx1 by (apply Hf1; tauto). assert (heap s2 !! x = heap s1 !! x) as Hx2 by (apply Hf2; tauto).
  cbn [free_subtree_loop tptr is_null]. erewrite rb_bind by (by apply load_eq). cbn [cell left right]. erewrite rb_bind by exact E1.
  erewrite rb_bind by (apply load_eq; by rewrite Hx1). cbn [cell left right]. erewrite rb_bind by exact E2.
  eexists. split; [unfold mbind, rbst_bind, box_from_raw; rewrite Hx2, Hx1, Hx; reflexivity|]. unfold put_heap. cbn [root len heap locs].
  split; [congruence|]. split; [congruence|]. split; intros y Hy.
  - destruct (decide (y = x)) as [->|Hne]; [apply lookup_delete_eq|]. rewrite lookup_delete_ne by done.
    apply elem_of_cons in Hy as [?|Hy]; [done|]. destruct (decide (y ∈ locs b)); [by apply Hg2|]. rewrite Hf2 by done. apply Hg1. set_solver.
  - rewrite lookup_delete_ne by set_solver. rewrite Hf2, Hf1; set_solver.
Qed.
Lemma rb_clear_ok s t : rb_at s t -> changes clear s t tt [].
Proof.
  intros [Hs Hb Hsort Hl Hsm]. pose proof Hs as (Hr & Hnd & Hroot).
  destruct (free_subtree_loop_ok (S (size (heap s))) s t None) as (s1 & E1 & Hr1 & Hl1 & Hg1 & Hf1); try done.
  { pose proof (height_locs t). pose proof (tree_fits s t Hs). lia. }
  exists (mkRb (heap s1) None 0), E. split; [|split; [|split; [|done]]].
  - unfold clear. erewrite rb_bind by reflexivity. rewrite Hroot. unfold free_subtree. erewrite rb_bind by exact E1. done.
  - split; try done; [|split; [done|by exists O]]. split; [done|]. split; [constructor|done].
  - apply others_eq; cbn [heap locs]; intros y; [intros Hy _; by apply Hf1|intros Hy _; by apply Hg1|set_solver].
Qed.
End Ops.

Section More.
Context {V : Type}.
Implicit Types (t u : rbtree V) (s : Rb V) (c : @ctx V).

(** ** [retain] *)
Section Retain.
Context {St : Type}.
Variable f : St -> Z -> V -> bool * V * St.

(** The nodes with their new values and whether they stay. *)
Fixpoint scan (st : St) (l : list (item V)) : list (item V * bool) * St :=
  match l with
  | [] => ([], st)
  | (x, (k, v)) :: l' =>
      let '(keep, v', st') := f st k v in
      let '(r, st'') := scan st' l' in
      (((x, (k, v')), keep) :: r, st'')
  end.
(** The same on the entries: what is left. *)
Fixpoint al_retain (st : St) (l : list (Z * V)) : list (Z * V) * St :=
  match l with
  | [] => ([], st)
  | (k, v) :: l' =>
      let '(keep, v', st') := f st k v in
      let '(r, st'') := al_retain st' l' in
      (if keep then (k, v') :: r else r, st'')
  end.
Definition kept (l : list (item V * bool)) : list (item V) := (filter (fun p => p.2 = true) l).*1.
Definition rejected (l : list (item V * bool)) : list positive := (filter (fun p => p.2 = false) l).*1.*1.

Lemma scan_retain st l : al_retain st l.*2 = ((kept (scan st l).1).*2, (scan st l).2).
Proof.
  revert st. induction l as [|[x [k v]] l IH]; intros st; [done|]. csimpl.
  destruct (f st k v) as [[keep v'] st']. rewrite (IH st'). destruct (scan st' l) as [r st'']. by destruct keep.
Qed.
Lemma scan_locs st l : (scan st l).1.*1.*1 = l.*1.
Proof.
  revert st. induction l as [|[x [k v]] l IH]; intros st; [done|]. cbn [scan]. destruct (f st k v) as [[keep v'] st'].
  specialize (IH st'). destruct (scan st' l) as [r st'']. csimpl. by f_equal.
Qed.

Lemma retain_scan_ok fuel : forall s t l1 l2 st, rb_at s t -> inorder t = l1 ++ l2 -> (length l2 < fuel)%nat ->
  exists s' t', retain_scan f fuel st (fst <$> head l2) s = Ret ((Some <$> rejected (scan st l2).1, (scan st l2).2), s') /\
    rb_at s' t' /\ others s' t' = others s t /\ inorder t' = l1 ++ (scan st l2).1.*1.
Proof.
  induction fuel as [|fuel IH]; intros s t l1 l2 st Hat Hin Hf; [lia|]. destruct l2 as [|[x [k v]] l2].
  - exists s, t. by rewrite Hin.
  - cbn [retain_scan head fmap option_fmap option_map fst is_null scan]. simpl in Hf.
    erewrite rb_bind by (eapply does_same; [by apply (successor_next t l1 (x, (k, v)) l2)|apply Hat]).
    destruct (load_item t x k v) as (n & Hd & Hk & Hv); [rewrite Hin; set_solver|].
    erewrite rb_bind by (eapply does_same; [exact Hd|apply Hat]). rewrite Hk, Hv. destruct (f st k v) as [[keep v'] st'].
    destruct (set_value_at s t l1 x k v l2 v' Hat Hin) as (s1 & t1 & E1 & Ha1 & Ho1 & Hi1). erewrite rb_bind by exact E1.
    destruct (IH s1 t1 (l1 ++ [(x, (k, v'))]) l2 st' Ha1) as (s2 & t2 & E2 & Ha2 & Ho2 & Hi2); [by rewrite <-app_assoc|lia|].
    erewrite rb_bind by exact E2. destruct (scan st' l2) as [r st'']. exists s2, t2. simpl in *.
    split; [|split; [done|split; [congruence|by rewrite Hi2, <-app_assoc]]]. unfold mret, rbst_ret. do 3 f_equal. by destruct keep.
Qed.

Lemma delete_all_ok ps : forall s t, rb_at s t -> NoDup ps -> (forall p, p ∈ ps -> p ∈ (inorder t).*1) ->
  exists s' t', delete_all (Some <$> ps) s = Ret (tt, s') /\ rb_at s' t' /\ others s' t' = others s t /\
    inorder t' = filter (fun i => i.1 ∉ ps) (inorder t).
Proof.
  induction ps as [|p ps IH]; intros s t Hat Hnd Hin.
  - exists s, t. split; [done|]. split; [done|]. split; [done|]. symmetry. apply filter_all. apply Forall_forall. set_solver.
  - apply NoDup_cons in Hnd as [Hp Hnd]. assert (p ∈ (inorder t).*1) as Hpt by (apply Hin; by left).
    apply list_elem_of_fmap in Hpt as ([x [k v]] & -> & Hpt). simpl in *.
    destruct (delete_ok s t x k v Hat Hpt) as (n & s1 & t1 & l1 & l2 & E1 & _ & _ & Ha1 & Ho1 & _ & H1 & H2).
    assert (NoDup (inorder t).*1) as Hndt by (rewrite <-inorder_locs; apply Hat).
    rewrite H1, fmap_app in Hndt. cbn [fmap list_fmap fst] in Hndt. apply NoDup_app in Hndt as (_ & Hd & [Hx _]%NoDup_cons).
    destruct (IH s1 t1 Ha1 Hnd) as (s2 & t2 & E2 & Ha2 & Ho2 & Hi2).
    { intros q Hq. specialize (Hin q ltac:(by right)). rewrite H1 in Hin. rewrite H2. rewrite !fmap_app in *. cbn [fmap list_fmap fst] in Hin. set_solver. }
    exists s2, t2. split; [cbn [fmap list_fmap delete_all]; by rewrite (rb_bind _ _ _ _ _ E1)|]. split; [done|]. split; [congruence|].
    rewrite Hi2, H1, H2, !filter_app, filter_cons_False by set_solver. f_equal; apply filter_ext_in; intros i Hi; simpl; rewrite elem_of_cons; split; try tauto; intros Hn [Heq|?]; try done.
    + apply (Hd x); [rewrite <-Heq; by apply list_elem_of_fmap_2|by left].
    + apply Hx. rewrite <-Heq. by apply list_elem_of_fmap_2.
Qed.

Lemma kept_filter l : NoDup l.*1.*1 -> filter (fun i : item V => i.1 ∉ rejected l) l.*1 = kept l.
Proof.
  intros Hnd. assert (forall p, p ∈ l -> (p.1.1 ∉ rejected l) <-> p.2 = true) as Hp.
  { intros p Hp. unfold rejected. split.
    - intros Hn. destruct p.2 eqn:Hb; [done|]. exfalso. apply Hn. do 2 apply list_elem_of_fmap_2. by apply list_elem_of_filter.
    - intros Hb (i & Hi & (q & -> & [Hq1 Hq2]%list_elem_of_filter)%list_elem_of_fmap)%list_elem_of_fmap.
      enough (p = q) as Hpq by (subst q; simpl in Hq1; congruence). clear -Hnd Hp Hq2 Hi. induction l as [|r l IH]; [inversion Hp|]. csimpl in *.
      apply NoDup_cons in Hnd as [Hr Hnd]. assert (forall q, q ∈ l -> q.1.1 ∈ l.*1.*1) as Hin by (intros q' ?; by do 2 apply list_elem_of_fmap_2).
      apply elem_of_cons in Hp as [->|Hp], Hq2 as [->|Hq2]; [done|..|by apply IH]; exfalso; apply Hr; [rewrite Hi|rewrite <-Hi]; auto. }
  unfold kept. revert Hp. generalize (rejected l). intros rej. clear Hnd. induction l as [|p l IH]; intros Hp; [done|]. csimpl.
  rewrite !filter_cons. pose proof (Hp p ltac:(by left)). rewrite IH by set_solver.
  destruct (decide (p.1.1 ∉ rej)), (decide (p.2 = true)); csimpl; tauto || done.
Qed.

Lemma NoDup_sub_map (P : item V * bool -> Prop) `{forall p, Decision (P p)} (l : list (item V * bool)) :
  NoDup l.*1.*1 -> NoDup (filter P l).*1.*1.
Proof.
  induction l as [|p l IH]; csimpl; [done|]. intros [Hp Hnd]%NoDup_cons. rewrite filter_cons. destruct (decide (P p)); csimpl; [|by apply IH].
  constructor; [|by apply IH]. intros (i & Hi & (q & -> & [_ Hq]%list_elem_of_filter)%list_elem_of_fmap)%list_elem_of_fmap.
  apply Hp. rewrite Hi. by do 2 apply list_elem_of_fmap_2.
Qed.

Lemma rb_retain_ok s t st : rb_at s t ->
  changes (retain f st) s t (al_retain st (entries t)).2 (al_retain st (entries t)).1.
Proof.
  intros Hat. eapply changes_bind; [apply does_get_root|apply Hat|]. eapply changes_bind; [apply (tree_minimum_ok [])|apply Hat|].
  destruct (retain_scan_ok (S (size (heap s))) s t [] (inorder t) st Hat eq_refl) as (s1 & t1 & E1 & Ha1 & Ho1 & Hi1).
  { pose proof (tree_fits s t (at_tree _ _ Hat)) as Hsz. rewrite inorder_locs, length_fmap in Hsz. apply Nat.lt_succ_r. exact Hsz. }
  simpl in Hi1. pose proof (scan_locs st (inorder t)) as Hloc.
  assert (NoDup (scan st (inorder t)).1.*1.*1) as Hnd by (rewrite Hloc, <-inorder_locs; apply Hat).
  destruct (delete_all_ok (rejected (scan st (inorder t)).1) s1 t1 Ha1) as (s2 & t2 & E2 & Ha2 & Ho2 & Hi2).
  { unfold rejected. by apply NoDup_sub_map. }
  { intros p Hp. rewrite Hi1. unfold rejected in Hp. apply list_elem_of_fmap in Hp as (i & -> & (q & -> & [_ Hq]%list_elem_of_filter)%list_elem_of_fmap).
    by do 2 apply list_elem_of_fmap_2. }
  exists s2, t2. split; [|split; [done|split; [congruence|]]].
  - unfold fuelled. erewrite rb_bind by exact E1. cbv beta iota. erewrite rb_bind by exact E2. by rewrite inorder_entries, scan_retain.
  - rewrite inorder_entries, Hi2, Hi1, kept_filter by done. by rewrite inorder_entries, scan_retain.
Qed.
End Retain.

(** ** Ranges *)
Definition from_start (b : Bound) (k : Z) : bool :=
  match b with Included l => l <=? k | Excluded l => l <? k | Unbounded => true end.

Lemma split_at (P : Z -> bool) (l : list (item V)) : closed L P -> sorted l.*2 ->
  exists l1 l2, l = l1 ++ l2 /\ filter (fun i => P (ikey i) = true) l = l2 /\
    Forall (fun i => P (ikey i) = false) l1 /\ Forall (fun i => P (ikey i) = true) l2.
Proof.
  intros HP. induction l as [|i l IH]; intros Hs; [by exists [], []|]. csimpl in Hs. destruct Hs as [Ha Hs]. rewrite filter_cons.
  destruct (P (ikey i)) eqn:Ei.
  - assert (Forall (fun i => P (ikey i) = true) l) as Hall.
    { unfold above in Ha. rewrite Forall_fmap in Ha. eapply Forall_impl; [exact Ha|]. intros j Hj. simpl in Hj. apply (HP (ikey i)); [unfold ikey; lia|done]. }
    exists [], (i :: l). rewrite decide_True by done. split; [done|]. split; [by rewrite filter_all|]. by split; constructor.
  - destruct (IH Hs) as (l1 & l2 & -> & Hf & H1 & H2). exists (i :: l1), l2. rewrite decide_False by congruence. split; [done|].
    split; [done|]. split; [by constructor|done].
Qed.

Lemma range_start_ok s t b : rb_at s t ->
  exists l1 l2, inorder t = l1 ++ l2 /\ does t (range_start b) (fst <$> head l2) t /\
    Forall (fun i => from_start b (ikey i) = false) l1 /\ Forall (fun i => from_start b (ikey i) = true) l2.
Proof.
  intros Hat. pose proof (at_sorted _ _ Hat) as Hs. rewrite inorder_entries in Hs.
  assert (closed L (from_start b)) as HP.
  { intros x y Hxy. destruct b as [k|k|]; simpl; [intros ?%Z.leb_le; apply Z.leb_le; lia|intros ?%Z.ltb_lt; apply Z.ltb_lt; lia|done]. }
  destruct (split_at (from_start b) (inorder t) HP Hs) as (l1 & l2 & Hl & Hf & H1 & H2). exists l1, l2. split; [done|]. split; [|done].
  assert (forall (loop : nat -> ptr -> ptr -> RbST V ptr), loop = seek_loop L (from_start b) ->
    does t (r ← get_root; fuelled (fun fuel => loop fuel None r)) (fst <$> head l2) t) as Hseek.
  { intros loop ->. eapply does_bind; [apply does_get_root|]. apply does_fuelled. intros fuel Hfuel.
    pose proof (seek_loop_ok L (from_start b) fuel HP [] t None) as H. cbn [pick] in H. rewrite Hf in H.
    destruct l2; apply H; [pose proof (height_locs t); lia|apply Hat|pose proof (height_locs t); lia|apply Hat]. }
  destruct b as [k|k|]; cbn [range_start from_start] in *; [by apply Hseek|by apply Hseek|].
  rewrite filter_all in Hf by (by apply Forall_forall). rewrite <-Hf. eapply does_bind; [apply does_get_root|apply (tree_minimum_ok [])].
Qed.

Lemma range_collect_ok s t e fuel : rb_at s t -> forall l1 l2, (length l2 < fuel)%nat -> inorder t = l1 ++ l2 ->
  does t (range_collect fuel e (fst <$> head l2)) (filter (fun p => past_end e p.1 = false) l2.*2) t.
Proof.
  intros Hat. induction fuel as [|fuel IH]; intros l1 l2 Hf Ht; [lia|]. destruct l2 as [|[x [k v]] l2]; cbn [range_collect head].
  - eapply does_bind; [apply does_ret|]. apply does_ret.
  - destruct (load_item t x k v) as (n & Hd & Hk & Hv); [rewrite Ht; set_solver|]. simpl in Hf. csimpl. rewrite filter_cons. cbn [fst].
    destruct (past_end e k) eqn:Ek.
    + rewrite decide_False by done. eapply does_bind; [unfold range_next; cbn [is_null]; eapply does_bind; [exact Hd|]; rewrite Hk, Ek; apply does_ret|].
      replace (filter _ l2.*2) with (@nil (Z * V)); [apply does_ret|]. symmetry.
      pose proof (at_sorted _ _ Hat) as Hs. rewrite inorder_entries, Ht, fmap_app in Hs. csimpl in Hs. apply sorted_middle in Hs as (_ & _ & _ & Ha).
      clear -Ha Ek. simpl in Ha. induction Ha as [|p l Hp _ IH]; [done|]. rewrite filter_cons_False; [done|].
      destruct e; simpl in Ek |- *; rewrite ?not_false_iff_true, ?Z.ltb_lt, ?Z.leb_le in *; lia || done.
    + rewrite decide_True by done.
      eapply does_bind; [unfold range_next; cbn [is_null]; eapply does_bind; [exact Hd|]; rewrite Hk, Ek; eapply does_bind; [by apply (successor_next t l1 (x, (k, v)) l2)|]; apply does_ret|].
      eapply does_bind; [apply (IH (l1 ++ [(x, (k, v))]) l2); [lia|by rewrite <-app_assoc]|]. rewrite Hv. apply does_ret.
Qed.
Lemma range_ok s t b e : rb_at s t ->
  range b e s = Ret (filter (fun p => past_end e p.1 = false) (filter (fun p => from_start b p.1 = true) (entries t)), s).
Proof.
  intros Hat. apply (does_same t); [|apply Hat]. destruct (range_start_ok s t b Hat) as (l1 & l2 & Hl & Hd & H1 & H2).
  eapply does_bind; [exact Hd|]. apply does_fuelled. intros fuel Hf.
  replace (filter (fun p => from_start b p.1 = true) (entries t)) with l2.*2.
  - apply (range_collect_ok s t e fuel Hat l1 l2); [|done]. rewrite inorder_locs, Hl, length_fmap, length_app in Hf. lia.
  - rewrite inorder_entries, Hl, fmap_app, filter_app. clear -H1 H2. replace (filter _ l1.*2) with (@nil (Z * V)).
    + simpl. induction H2 as [|i l Hi _ IH]; [done|]. csimpl. rewrite filter_cons_True by done. by f_equal.
    + induction H1 as [|i l Hi _ IH]; [done|]. csimpl. rewrite filter_cons_False; [done|]. unfold ikey in Hi. congruence.
Qed.

(** ** The entry interface *)
(** [entry(k).or_insert(v)]: the node of the key, new if there was none. *)
Lemma or_insert_ok s t k v : rb_at s t -> Z.of_nat (length (entries t)) + 1 < u64_size ->
  exists x s' t' w, (e ← entry k; or_insert e v) s = Ret (Some x, s') /\ rb_at s' t' /\ others s' t' = others s t /\
    (x, (k, w)) ∈ inorder t' /\ w = default v (al_lookup k (entries t)) /\ entries t' = al_put k w (entries t).
Proof.
  intros Hat Hbig. destruct (find_cases k t (at_sorted _ _ Hat)) as [(Hl & Hf)|(x & w & Hl & Hf & Hin)];
    pose proof (does_same _ _ _ _ (find_node_ok s t Hat k) (at_tree _ _ Hat)) as E; rewrite Hf in E.
  - destruct (insert_new_ok s t k v Hat Hl Hbig) as (x & s' & t' & E' & Ha & Ho & He & Hin).
    exists x, s', t', v. unfold al_put. rewrite Hl. split; [|done]. unfold entry. rewrite rb_assoc. erewrite rb_bind by exact E. exact E'.
  - exists x, s, t, w. unfold al_put. rewrite Hl. split; [unfold entry; rewrite rb_assoc; by erewrite rb_bind by exact E|].
    split; [done|]. split; [done|]. split; [done|]. split; [done|]. symmetry.
    assert ((k, w) ∈ entries t) as (l1 & l2 & He)%list_elem_of_split by (by apply al_lookup_elem; [apply Hat|]).
    pose proof (at_sorted _ _ Hat) as Hs. rewrite He in Hs |- *. by rewrite al_update_here.
Qed.

(** ** Two trees in one heap *)
Definition rest2 (h : gmap positive (RbNode V)) t u : gmap positive (RbNode V) :=
  filter (fun '(x, _) => (x ∉ locs t) /\ (x ∉ locs u)) h.
Record two s o t u : Prop := {
  two_left : rb_at s t; two_right : rb_at (put_heap (heap s) o) u; two_apart : forall x, x ∈ locs u -> x ∉ locs t
}.
Lemma others_keep s t s' t' u p : others s' t' = others s t -> rep (heap s) u p -> (forall x, x ∈ locs u -> x ∉ locs t) ->
  rep (heap s') u p /\ forall x, x ∈ locs u -> x ∉ locs t'.
Proof.
  intros Ho Hr Hd. assert (forall x, x ∈ locs u -> heap s' !! x = heap s !! x /\ (x ∉ locs t')) as H.
  { intros x Hx. destruct (rep_dom _ _ _ Hr x Hx) as [n Hn].
    assert (others s t !! x = Some n) as Hox by (apply map_lookup_filter_Some; auto). rewrite <-Ho in Hox.
    apply map_lookup_filter_Some in Hox as [-> ?]. by rewrite Hn. }
  split; [|intros x Hx; by apply H]. eapply rep_same; [|exact Hr]. intros x Hx. by apply H.
Qed.
Lemma rb_at_keep s t s' t' o u : others s' t' = others s t -> rb_at (put_heap (heap s) o) u -> (forall x, x ∈ locs u -> x ∉ locs t) ->
  rb_at (put_heap (heap s') o) u /\ forall x, x ∈ locs u -> x ∉ locs t'.
Proof.
  intros Ho [(Hr & Hnd & Hroot) Hb Hs Hl Hsm] Hd. destruct (others_keep s t s' t' u None Ho Hr Hd) as [Hr' Hd']. split; [|done]. by split.
Qed.
Lemma rest2_others s t s' t' u : others s' t' = others s t -> rest2 (heap s') t' u = rest2 (heap s) t u.
Proof.
  assert (forall s t, rest2 (heap s) t u = filter (fun '(x, _) => x ∉ locs u) (others s t)) as Hr.
  { intros s0 t0. unfold rest2, others. apply map_eq. intros x. apply option_eq. intros n. rewrite !map_lookup_filter_Some. tauto. }
  intros Ho. by rewrite !Hr, Ho.
Qed.
Lemma rest2_sym h t u : rest2 h t u = rest2 h u t.
Proof. unfold rest2. apply map_eq. intros x. apply option_eq. intros n. rewrite !map_lookup_filter_Some. tauto. Qed.

Definition put_all (l l' : list (Z * V)) : list (Z * V) := fold_left (fun l e => al_put e.1 e.2 l) l' l.
Lemma length_al_put k (v : V) l : (length (al_put k v l) <= S (length l))%nat.
Proof. unfold al_put. destruct (al_lookup k l); [unfold al_update; rewrite length_map; lia|rewrite length_al_insert; lia]. Qed.

Lemma append_loop_ok fuel : forall s o t u, two s o t u -> (length (entries u) < fuel)%nat ->
  Z.of_nat (length (entries t) + length (entries u)) < u64_size ->
  exists s' o' t' u', append_loop fuel s o = Ret (s', o') /\ two s' o' t' u' /\ heap o' = heap s' /\
    rest2 (heap s') t' u' = rest2 (heap s) t u /\ entries t' = put_all (entries t) (entries u) /\ entries u' = [].
Proof.
  induction fuel as [|fuel IH]; intros s o t u [Hs Ho Hd] Hf Hbig; [lia|].
  destruct (pop_first_ok _ u Ho) as (o1 & u1 & E1 & Ha1 & Hot1 & He1).
  destruct (rb_at_keep (put_heap (heap s) o) u o1 u1 s t Hot1) as [Hs1 Hd1]; [by destruct s|intros x Hx Hx'; by apply (Hd x)|].
  cbn [append_loop]. rewrite E1. mstep.
  assert (rest2 (heap o1) t u1 = rest2 (heap s) t u) as Hrest1 by (rewrite rest2_sym, (rest2_sym (heap s)); by apply (rest2_others (put_heap (heap s) o) u o1 u1 t)).
  destruct (entries u) as [|[k v] l] eqn:Heu; cbn [head al_drop] in *.
  - exists (put_heap (heap o1) s), o1, t, u1. split; [done|]. split; [|done]. split; [done|by destruct o1|].
    intros x Hx Hx'. by apply (Hd1 x).
  - assert (entries u1 = l) as Hel.
    { rewrite He1. pose proof (at_sorted _ _ Ho) as Hso. rewrite Heu in Hso. destruct Hso as [Hab _]. apply (al_remove_here k v [] l); [constructor|done]. }
    simpl in Hf, Hbig. destruct (rb_insert_ok _ t k v Hs1) as (s2 & t2 & E2 & Ha2 & Hot2 & He2); [lia|].
    destruct (rb_at_keep (put_heap (heap o1) s) t s2 t2 o1 u1 Hot2) as [Ho2 Hd2]; [by destruct o1|intros x Hx Hx'; by apply (Hd1 x)|].
    rewrite E2. mstep. destruct (IH s2 o1 t2 u1) as (s3 & o3 & t3 & u3 & E3 & Ht3 & Hh3 & Hr3 & Ht3' & Hu3); [by split|by rewrite Hel; lia| |].
    { rewrite Hel, He2. pose proof (length_al_put k v (entries t)). lia. }
    exists s3, o3, t3, u3. split; [done|]. split; [done|]. split; [done|]. split; [|split; [|done]].
    + rewrite Hr3, <-Hrest1. by apply (rest2_others (put_heap (heap o1) s) t s2 t2 u1).
    + rewrite Ht3', Hel, He2. done.
Qed.
Lemma append_ok s o t u : two s o t u -> Z.of_nat (length (entries t) + length (entries u)) < u64_size ->
  exists s' o' t' u', append s o = Ret (s', o') /\ two s' o' t' u' /\ heap o' = heap s' /\
    rest2 (heap s') t' u' = rest2 (heap s) t u /\ entries t' = put_all (entries t) (entries u) /\ entries u' = [].
Proof.
  intros Ht. apply append_loop_ok; [done|]. pose proof (tree_fits _ u (at_tree _ _ (two_right _ _ _ _ Ht))) as Hsz.
  rewrite inorder_locs, length_fmap in Hsz. rewrite inorder_entries, length_fmap. cbn [put_heap heap] in Hsz. lia.
Qed.

(** [clone]: the iterator of [s] goes on while the new tree grows beside it. *)
Lemma clone_loop_ok fuel : forall s n t u l1 l2, two n s u t -> inorder t = l1 ++ l2 -> (length l2 < fuel)%nat ->
  Z.of_nat (length (entries u) + length l2) < u64_size ->
  exists s' n' u', clone_loop fuel (fst <$> head l2) s n = Ret (s', n') /\ two n' s' u' t /\ heap s' = heap n' /\
    rest2 (heap n') u' t = rest2 (heap n) u t /\ entries u' = put_all (entries u) l2.*2.
Proof.
  induction fuel as [|fuel IH]; intros s n t u l1 l2 [Hn Hs Hd] Hin Hf Hbig; [lia|]. cbn [clone_loop].
  destruct l2 as [|[x [k v]] l2]; cbn [head fmap option_fmap option_map fst].
  - exists (put_heap (heap n) s), n, u. done.
  - destruct (load_item t x k v) as (nd & Hdl & Hk & Hv); [rewrite Hin; set_solver|].
    assert (iter_next (Some x) (put_heap (heap n) s) = Ret ((Some (k, v), fst <$> head l2), put_heap (heap n) s)) as ->.
    { eapply does_same; [|apply Hs]. unfold iter_next. cbn [is_null]. eapply does_bind; [exact Hdl|].
      eapply does_bind; [by apply (successor_next t l1 (x, (k, v)) l2)|]. rewrite Hk, Hv. apply does_ret. }
    mstep. simpl in Hf, Hbig. destruct (rb_insert_ok n u k v Hn) as (n2 & u2 & E2 & Ha2 & Ho2 & He2); [lia|].
    destruct (rb_at_keep n u n2 u2 s t Ho2 Hs Hd) as [Hs2 Hd2]. rewrite E2. mstep.
    destruct (IH s n2 t u2 (l1 ++ [(x, (k, v))]) l2) as (s3 & n3 & u3 & E3 & H3 & Hh3 & Hr3 & He3); [by split|by rewrite <-app_assoc|lia| |].
    { rewrite He2. pose proof (length_al_put k v (entries u)). lia. }
    exists s3, n3, u3. split; [done|]. split; [done|]. split; [done|]. split; [rewrite Hr3; by apply rest2_others|]. by rewrite He3, He2.
Qed.
Lemma put_all_sorted (l : list (Z * V)) : sorted l -> forall l0, sorted (l0 ++ l) -> put_all l0 l = l0 ++ l.
Proof.
  induction l as [|[k v] l IH]; intros Hs l0 Hs0; [by rewrite app_nil_r|]. cbn [put_all fold_left fst snd].
  apply sorted_middle in Hs0 as (Hs1 & Hs2 & Hb & Ha). simpl in *.
  assert (al_put k v l0 = l0 ++ [(k, v)]) as ->.
  { unfold al_put. rewrite (proj2 (al_lookup_None k l0)) by (by apply below_absent). rewrite <-(app_nil_r l0) at 1. by rewrite al_insert_below. }
  fold (put_all (l0 ++ [(k, v)]) l). rewrite IH, <-app_assoc; [done|apply Hs|]. rewrite <-app_assoc. by apply sorted_middle.
Qed.
Lemma clone_ok s t : rb_at s t ->
  exists s' n' u', clone s = Ret (s', n') /\ rb_at s' t /\ rb_at n' u' /\ heap s' = heap n' /\ entries u' = entries t /\
    (forall x, x ∈ locs t -> x ∉ locs u') /\ others s t = rest2 (heap n') u' t.
Proof.
  intros Hat. assert (two (new (heap s)) s E t) as Htwo.
  { split; [split; try done; [|by split; [|exists O]]|by destruct s|set_solver]. split; [done|]. split; [constructor|done]. }
  destruct (clone_loop_ok (S (size (heap s))) s (new (heap s)) t E [] (inorder t) Htwo eq_refl) as (s' & n' & u' & E' & [Hn Hs Hd] & Hh & Hr & He).
  { pose proof (tree_fits s t (at_tree _ _ Hat)) as Hsz. rewrite inorder_locs, length_fmap in Hsz. lia. }
  { pose proof (at_small _ _ Hat) as Hsm. rewrite inorder_entries, length_fmap in Hsm. exact Hsm. }
  exists s', n', u'. split; [|split; [|split; [done|split; [done|split; [|split; [done|]]]]]].
  - unfold clone. assert ((r ← get_root; tree_minimum r) s = Ret (fst <$> head (inorder t), s)) as ->; [|mstep; exact E'].
    eapply does_same; [|apply Hat]. eapply does_bind; [apply does_get_root|]. apply (tree_minimum_ok []).
  - rewrite <-Hh in Hs. by destruct s'.
  - rewrite He, <-inorder_entries. apply (put_all_sorted (entries t) (at_sorted _ _ Hat) []). apply Hat.
  - rewrite Hr. unfold rest2, others. cbn [new heap locs]. apply map_eq. intros x. apply option_eq. intros m.
    rewrite !map_lookup_filter_Some. set_solver.
Qed.
End More.
