(* ===== verification/RbTheorems.v ===== *)
(** * Red-black tree: an ordered map with logarithmic height

    The tree provides the interface [OrdMap], answers every sequence of operations like the
    sorted list of its entries, and stays balanced: the paths from the root are at most twice
    the logarithm of the number of entries. *)

From S2P Require Import Prelude OrdMap RbTree RbShape RbFix RbSearch RbEdit RbOps.
#[local] Open Scope Z_scope.

Section Height.
Context {V : Type}.
Implicit Types (t : rbtree V) (s : Rb V).

Lemma rb_size t : forall n, rb t n -> (2 ^ n <= S (length (entries t)))%nat.
Proof.
  induction t as [|x col a IHa k v b IHb]; intros n; simpl; [intros ->; done|]. rewrite length_app. simpl. destruct col.
  - intros (_ & _ & Ha & Hb). specialize (IHa _ Ha). lia.
  - destruct n as [|n]; [done|]. intros [Ha Hb]. specialize (IHa _ Ha). specialize (IHb _ Hb). simpl. lia.
Qed.
Lemma rb_height t : forall n, rb t n -> (height t <= 2 * n + match tcolor t with Red => 1 | Black => 0 end)%nat.
Proof.
  induction t as [|x col a IHa k v b IHb]; intros n; simpl; [lia|]. destruct col.
  - intros (Hca & Hcb & Ha & Hb). specialize (IHa _ Ha). specialize (IHb _ Hb). rewrite Hca in IHa. rewrite Hcb in IHb. lia.
  - destruct n as [|n]; [done|]. intros [Ha Hb]. specialize (IHa _ Ha). specialize (IHb _ Hb). destruct (tcolor a), (tcolor b); lia.
Qed.
Lemma balanced_height t : balanced t -> (height t <= 2 * Nat.log2 (S (length (entries t))))%nat.
Proof.
  intros (Hc & n & Hn). pose proof (rb_height t n Hn) as Hh. rewrite Hc in Hh. pose proof (rb_size t n Hn) as Hs.
  apply Nat.log2_le_pow2 in Hs; lia.
Qed.
(** A search looks at no more nodes than this. *)
Lemma find_node_log s t k fuel : rb_at s t -> (2 * Nat.log2 (S (length (entries t))) < fuel)%nat ->
  find_node_loop k fuel (root s) s = find_node k s.
Proof.
  intros Hat Hf. rewrite (does_same t _ _ s (find_node_ok s t Hat k) (at_tree _ _ Hat)).
  rewrite (proj2 (proj2 (at_tree _ _ Hat))). apply (does_same t); [|apply Hat].
  apply (find_node_loop_ok k fuel [] t); [|apply Hat]. pose proof (balanced_height t (at_balanced _ _ Hat)). lia.
Qed.
End Height.

(** ** The interface of ordered maps *)
Section Instance_.
Context {V : Type}.
Definition holds (s : Rb V) (l : list (Z * V)) : Prop := exists t, rb_at s t /\ entries t = l.
Definition answer {A} (m : exec (A * Rb V)) : exec A := '(a, _) ← m; Ret a.

Lemma rb_at_new (h : gmap positive (RbNode V)) : rb_at (new h) E.
Proof. split; try done; [|by split; [|exists O]]. split; [done|]. split; [constructor|done]. Qed.
Lemma changes_holds {A} (m : RbST V A) s t a l : changes m s t a l -> exists s', m s = Ret (a, s') /\ holds s' l.
Proof. intros (s' & t' & E & Ha & _ & He). exists s'. split; [done|]. by exists t'. Qed.

#[export] Instance rbtree_ops : OrdMapOps (Rb V) V := {
  om_new := new ∅; om_len := len; om_insert s k v := insert k v s; om_remove s k := remove k s;
  om_get s k := answer (get k s); om_update s k f := get_mut k f s; om_iter s := answer (iter s);
  om_first s := answer (first_key_value s); om_last s := answer (last_key_value s)
}.
#[export] Instance rbtree_ordmap : OrdMap (Rb V) V.
Proof.
  refine {| om_rep := holds; om_cap := Z.to_nat (u64_size - 1) |}.
  - intros s l (t & Hat & <-). apply Hat.
  - exists E. split; [apply rb_at_new|done].
  - intros s l (t & Hat & <-). apply Hat.
  - intros s l k v (t & Hat & <-) Hc Hn. pose proof (rb_insert_ok s t k v Hat) as H. unfold al_put in H. rewrite Hn in H.
    apply changes_holds in H; [done|lia].
  - intros s l k (t & Hat & <-). by apply (changes_holds (remove k) s t), rb_remove_ok.
  - intros s l k (t & Hat & <-). cbn [om_get rbtree_ops]; unfold answer. by rewrite (rb_get_ok s t Hat).
  - intros s l k f (t & Hat & <-). by apply (changes_holds (get_mut k f) s t), rb_get_mut_ok.
  - intros s l (t & Hat & <-). cbn [om_iter rbtree_ops]; unfold answer. by rewrite (rb_iter_ok s t Hat).
  - intros s l (t & Hat & <-). cbn [om_first rbtree_ops]; unfold answer. by rewrite (first_key_value_ok s t Hat).
  - intros s l (t & Hat & <-). cbn [om_last rbtree_ops]; unfold answer. by rewrite (last_key_value_ok s t Hat).
Defined.
End Instance_.

(** ** Sequences of operations *)
Inductive rb_op (V : Type) :=
| RInsert (k : Z) (v : V) | RRemove (k : Z) | RGet (k : Z) | RGetMut (k : Z) (f : V -> V)
| RPopFirst | RPopLast | RLowerBound (k : Z) | RUpperBound (k : Z) | RFloor (k : Z) | RLowerThan (k : Z)
| RRange (b e : Bound) | RIter | RRetain (f : Z -> V -> bool * V) | RClear.
Arguments RInsert {V}.
Arguments RRemove {V}.
Arguments RGet {V}.
Arguments RGetMut {V}.
Arguments RPopFirst {V}.
Arguments RPopLast {V}.
Arguments RLowerBound {V}.
Arguments RUpperBound {V}.
Arguments RFloor {V}.
Arguments RLowerThan {V}.
Arguments RRange {V}.
Arguments RIter {V}.
Arguments RRetain {V}.
Arguments RClear {V}.

Inductive rb_answer (V : Type) := RValue (v : option V) | REntry (e : option (Z * V)) | REntries (l : list (Z * V)).
Arguments RValue {V}.
Arguments REntry {V}.
Arguments REntries {V}.

Section Trace.
Context {V : Type}.
Implicit Types (s : Rb V) (op : rb_op V) (l : list (Z * V)).

Definition stateless (f : Z -> V -> bool * V) (st : unit) (k : Z) (v : V) : bool * V * unit := (f k v, st).
Definition run_rb_op op : RbST V (rb_answer V) :=
  match op with
  | RInsert k v => r ← insert k v; mret (RValue r)
  | RRemove k => r ← remove k; mret (RValue r)
  | RGet k => r ← get k; mret (RValue r)
  | RGetMut k f => r ← get_mut k f; mret (RValue r)
  | RPopFirst => r ← pop_first; mret (REntry r)
  | RPopLast => r ← pop_last; mret (REntry r)
  | RLowerBound k => r ← lower_bound k; mret (REntry r)
  | RUpperBound k => r ← upper_bound k; mret (REntry r)
  | RFloor k => r ← floor k; mret (REntry r)
  | RLowerThan k => r ← lower_than k; mret (REntry r)
  | RRange b e => r ← range b e; mret (REntries r)
  | RIter => r ← iter; mret (REntries r)
  | RRetain f => retain (stateless f) tt;; mret (REntry None)
  | RClear => clear;; mret (REntry None)
  end.
Fixpoint run_rb_ops (ops : list (rb_op V)) : RbST V (list (rb_answer V)) :=
  match ops with
  | [] => mret []
  | op :: ops' => a ← run_rb_op op; rest ← run_rb_ops ops'; mret (a :: rest)
  end.

(** The same on the sorted list of entries. *)
Definition spec_rb_op l op : rb_answer V * list (Z * V) :=
  match op with
  | RInsert k v => (RValue (al_lookup k l), al_put k v l)
  | RRemove k => (RValue (al_lookup k l), al_remove k l)
  | RGet k => (RValue (al_lookup k l), l)
  | RGetMut k f => (RValue (al_lookup k l), al_update k f l)
  | RPopFirst => (REntry (head l), al_drop (head l) l)
  | RPopLast => (REntry (last l), al_drop (last l) l)
  | RLowerBound k => (REntry (head (filter (fun e => (k <=? e.1) = true) l)), l)
  | RUpperBound k => (REntry (head (filter (fun e => (k <? e.1) = true) l)), l)
  | RFloor k => (REntry (last (filter (fun e => (e.1 <=? k) = true) l)), l)
  | RLowerThan k => (REntry (last (filter (fun e => (e.1 <? k) = true) l)), l)
  | RRange b e => (REntries (filter (fun p => past_end e p.1 = false) (filter (fun p => from_start b p.1 = true) l)), l)
  | RIter => (REntries l, l)
  | RRetain f => (REntry None, (al_retain (stateless f) tt l).1)
  | RClear => (REntry None, [])
  end.
Fixpoint spec_rb_ops l (ops : list (rb_op V)) : list (rb_answer V) * list (Z * V) :=
  match ops with
  | [] => ([], l)
  | op :: ops' => let '(rest, l') := spec_rb_ops (spec_rb_op l op).2 ops' in ((spec_rb_op l op).1 :: rest, l')
  end.

Lemma length_retain {St} (f : St -> Z -> V -> bool * V * St) l : forall st, (length (al_retain f st l).1 <= length l)%nat.
Proof.
  induction l as [|[k v] l IH]; intros st; simpl; [lia|]. destruct (f st k v) as [[keep v'] st']. specialize (IH st').
  destruct (al_retain f st' l) as [r st'']. destruct keep; simpl in *; lia.
Qed.
Lemma spec_rb_op_length l op : (length (spec_rb_op l op).2 <= S (length l))%nat.
Proof.
  destruct op; simpl; try lia; try (pose proof (length_al_remove k l); lia).
  - apply length_al_put.
  - unfold al_update. rewrite length_map. lia.
  - unfold al_drop. destruct (head l) as [e|]; [pose proof (length_al_remove e.1 l); lia|lia].
  - unfold al_drop. destruct (last l) as [e|]; [pose proof (length_al_remove e.1 l); lia|lia].
  - pose proof (length_retain (stateless f) l tt). lia.
Qed.

Lemma changes_mret {A B} (m : RbST V A) (g : A -> B) s t a l :
  changes m s t a l -> changes (r ← m; mret (g r)) s t (g a) l.
Proof. intros (s' & t' & E & H). exists s', t'. split; [|done]. by rewrite (rb_bind _ _ _ _ _ E). Qed.
Lemma same_changes {A} (m : RbST V A) s t a : rb_at s t -> m s = Ret (a, s) -> changes m s t a (entries t).
Proof. intros Hat E. by exists s, t. Qed.

Lemma run_rb_op_ok s t op : rb_at s t -> Z.of_nat (length (entries t)) + 1 < u64_size ->
  changes (run_rb_op op) s t (spec_rb_op (entries t) op).1 (spec_rb_op (entries t) op).2.
Proof.
  intros Hat Hb. destruct op; cbn [run_rb_op spec_rb_op fst snd]; try (apply changes_mret; apply same_changes; [done|]).
  - by apply changes_mret, rb_insert_ok.
  - by apply changes_mret, rb_remove_ok.
  - by apply rb_get_ok.
  - by apply changes_mret, rb_get_mut_ok.
  - by apply changes_mret, pop_first_ok.
  - by apply changes_mret, pop_last_ok.
  - by apply rb_lower_bound_ok.
  - by apply upper_bound_ok.
  - by apply floor_ok.
  - by apply lower_than_ok.
  - by apply range_ok.
  - by apply rb_iter_ok.
  - apply (changes_mret _ (fun _ => REntry None) s t (al_retain (stateless f) tt (entries t)).2). by apply rb_retain_ok.
  - by apply (changes_mret clear (fun _ => REntry None) s t tt), rb_clear_ok.
Qed.

Lemma run_rb_ops_ok ops : forall s t, rb_at s t -> Z.of_nat (length (entries t) + length ops) < u64_size ->
  changes (run_rb_ops ops) s t (spec_rb_ops (entries t) ops).1 (spec_rb_ops (entries t) ops).2.
Proof.
  induction ops as [|op ops IH]; intros s t Hat Hb; [by apply changes_none|]. simpl in Hb.
  destruct (run_rb_op_ok s t op Hat) as (s1 & t1 & E1 & Ha1 & Ho1 & He1); [lia|].
  destruct (IH s1 t1 Ha1) as (s2 & t2 & E2 & Ha2 & Ho2 & He2).
  { rewrite He1. pose proof (spec_rb_op_length (entries t) op). lia. }
  exists s2, t2. rewrite He1 in E2, He2. cbn [run_rb_ops spec_rb_ops]. rewrite (rb_bind _ _ _ _ _ E1), (rb_bind _ _ _ _ _ E2).
  destruct (spec_rb_ops _ ops) as [rest l']. split; [done|]. split; [done|]. split; [congruence|done].
Qed.

(** C31. The red-black tree is an ordered map.  Any sequence of fewer than 2^64 operations (insertion
    with replacement, removal, lookup and update in place, removal of the first and last
    entry, the four neighbour queries, ranges, iteration, [retain], [clear]) on a new tree
    follows no bad pointer and gives exactly the answers of the sorted list of entries.  In
    the end the tree is balanced, a search takes at most [2 log2 (n + 1) + 1] steps, and the
    heap holds, beside what it held before, the nodes of the tree and nothing else. *)
Theorem rbtree_refines_ordered_map (h : gmap positive (RbNode V)) (ops : list (rb_op V)) :
  Z.of_nat (length ops) < u64_size ->
  let '(answers, l) := spec_rb_ops [] ops in
  exists s t, run_rb_ops ops (new h) = Ret (answers, s) /\ is_tree s t /\ entries t = l /\ sorted l /\ balanced t /\
    others s t = h /\ (height t <= 2 * Nat.log2 (S (length l)))%nat /\
    forall k, find_node_loop k (S (2 * Nat.log2 (S (length l)))) (root s) s = find_node k s.
Proof.
  intros Hb. destruct (run_rb_ops_ok ops (new h) E (rb_at_new h)) as (s & t & E' & Ha & Ho & He); [done|]. cbn [entries] in E', He.
  destruct (spec_rb_ops [] ops) as [answers l]. simpl in E', He. subst l. exists s, t. split; [done|]. split; [apply Ha|].
  split; [done|]. split; [apply Ha|]. split; [apply Ha|]. split; [|split; [apply balanced_height, Ha|]].
  - rewrite Ho. unfold others. cbn [new heap locs]. apply map_filter_id. set_solver.
  - intros k. apply (find_node_log s t); [done|]. lia.
Qed.
End Trace.

Definition ex_rb_ops : list (rb_op Z) :=
  map (fun k => RInsert k (k * k)) [8; 3; 11; 1; 6; 14; 4; 7; 13; 9; 2; 12] ++
  [RInsert 6 1000; RRemove 8; RRemove 99; RPopFirst; RPopLast; RLowerBound 8; RUpperBound 9; RFloor 8; RLowerThan 4;
   RRange (Included 3) (Excluded 9); RGetMut 7 (Z.add 1); RRetain (fun k v => (Z.odd k, v + k)); RIter].

Lemma rbtree_refines_ordered_map_witness :
  exists s t, run_rb_ops ex_rb_ops (new ∅) = Ret ((spec_rb_ops [] ex_rb_ops).1, s) /\ is_tree s t /\
    entries t = [(3, 12); (7, 57); (9, 90); (11, 132); (13, 182)] /\ others s t = ∅ /\ (height t <= 4)%nat.
Proof.
  pose proof (rbtree_refines_ordered_map ∅ ex_rb_ops ltac:(vm_compute; reflexivity)) as H.
  assert (spec_rb_ops [] ex_rb_ops = ((spec_rb_ops [] ex_rb_ops).1, [(3, 12); (7, 57); (9, 90); (11, 132); (13, 182)])) as Hsp
    by (vm_compute; reflexivity).
  rewrite Hsp in H. destruct H as (s & t & E' & Ht & He & _ & _ & Ho & Hh & _).
  exists s, t. exact (conj E' (conj Ht (conj He (conj Ho Hh)))).
Defined.
