(* ===== verification/MapleTree.v ===== *)
(** * The interval tree of kernel/src/libs/mptree/tree.rs

    Half-open intervals [start, end) with values, kept in an ordered map by their start.
    The operations are written against the operations of [OrdMapOps] and proved against
    the laws of [OrdMap]; BTree.v provides both. *)

From Stdlib Require Import Sorted.
From S2P Require Import Prelude OrdMap BTree.

Inductive MapleInsertError := InvalidRange | Overlap.

Record RangeEntry (V : Type) := mkRange { rstart : Z; rend : Z; rvalue : V }.
Arguments mkRange {V} rstart rend rvalue.
Arguments rstart {V} r.
Arguments rend {V} r.
Arguments rvalue {V} r.

(** [sort_by_key(|(s, _)| *s)]: a stable sort by the first component. *)
Section Sort.
Context {A : Type} (key : A -> Z).

Fixpoint insert_sorted (x : A) (l : list A) : list A :=
  match l with
  | [] => [x]
  | y :: l' => if key x <=? key y then x :: y :: l' else y :: insert_sorted x l'
  end.

Fixpoint sort_by_key (l : list A) : list A :=
  match l with
  | [] => []
  | x :: l' => insert_sorted x (sort_by_key l')
  end.
End Sort.

Section MapleTree.
Context {M V : Type} `{Hops : OrdMapOps M (RangeEntry V)}.
Implicit Types (m : M) (e : RangeEntry V).

Definition new : M := om_new.
Definition len m : Z := om_len m.
Definition is_empty m : bool := om_len m =? 0.
Definition clear m : M := om_new.

(** [!(end <= entry.start || start >= entry.end)] *)
Definition intersects (start end_ : Z) (e : RangeEntry V) : bool :=
  negb ((end_ <=? rstart e) || (rend e <=? start)).

(** [point >= entry.start && point < entry.end] *)
Definition covers_point (point : Z) (e : RangeEntry V) : bool :=
  (rstart e <=? point) && (point <? rend e).

Definition triple e : Z * Z * V := (rstart e, rend e, rvalue e).

Definition has_overlap m (start end_ : Z) : exec bool :=
  l ← om_iter m; Ret (existsb (fun kv => intersects start end_ kv.2) l).

Definition insert m (start end_ : Z) (value : V) : exec (Result (option V) MapleInsertError * M) :=
  if end_ <=? start then Ret (Err InvalidRange, m)
  else
    overlap ← has_overlap m start end_;
    if (overlap : bool) then Ret (Err Overlap, m)
    else
      '(old, m') ← om_insert m start (mkRange start end_ value);
      Ret (Ok (option_map rvalue old), m').

Definition find m (point : Z) : exec (option (Z * Z * V)) :=
  l ← om_iter m; Ret (option_map (fun kv => triple kv.2) (List.find (fun kv => covers_point point kv.2) l)).

Definition remove m (start : Z) : exec (option (Z * V) * M) :=
  '(e, m') ← om_remove m start; Ret (option_map (fun e => (rend e, rvalue e)) e, m').

(** The pairs (start, end) of all intervals in ascending order. *)
Definition sorted_ranges m : exec (list (Z * Z)) :=
  l ← om_iter m; Ret (sort_by_key fst (map (fun kv => (rstart kv.2, rend kv.2)) l)).

(** The gaps between neighbouring intervals, in the order of [idxs]. *)
Fixpoint gap_loop (ranges : list (Z * Z)) (size lo hi : Z) (from_end : bool) (idxs : list Z)
  : exec (option Z) :=
  match idxs with
  | [] => Ret None
  | i :: idxs' =>
      r ← vec_get ranges i;
      r' ← vec_get ranges (i + 1);
      let gap_start := Z.max r.2 lo in
      let gap_end := Z.min r'.1 hi in
      if (gap_start <? gap_end) && (size <=? sub64 gap_end gap_start)
      then Ret (Some (if from_end then sub64 gap_end size else gap_start))
      else gap_loop ranges size lo hi from_end idxs'
  end.

Definition find_gap m (size start end_ : Z) : exec (option Z) :=
  if (end_ <=? start) || (size =? 0) then Ret None
  else
    ranges ← sorted_ranges m;
    let before_first :=
      match ranges with
      | [] => if size <=? sub64 end_ start then Some start else None
      | (s, _) :: _ =>
          if add64 start size <=? s
          then if size <=? sub64 s start then Some start else None
          else None
      end in
    match before_first with
    | Some g => Ret (Some g)
    | None =>
        between ← gap_loop ranges size start end_ false (zrange 0 (saturating_sub64 (Z.of_nat (length ranges)) 1));
        match between with
        | Some g => Ret (Some g)
        | None =>
            match last ranges with
            | None => Ret None
            | Some (_, last_end) =>
                let gap_start := Z.max last_end start in
                if (gap_start <? end_) && (size <=? sub64 end_ gap_start)
                then Ret (Some gap_start) else Ret None
            end
        end
    end.

(** The search runs down from [start] to [end_]. *)
Definition find_gap_reverse m (size start end_ : Z) : exec (option Z) :=
  if (start <=? end_) || (size =? 0) then Ret None
  else
    ranges ← sorted_ranges m;
    let after_last :=
      match last ranges with
      | None => None
      | Some (_, last_end) =>
          let gap_start := Z.max last_end end_ in
          let gap_end := start in
          if (gap_start <? gap_end) && (size <=? sub64 gap_end gap_start)
          then Some (sub64 gap_end size) else None
      end in
    match after_last with
    | Some g => Ret (Some g)
    | None =>
        between ← gap_loop ranges size end_ start true
                    (reverse (zrange 0 (saturating_sub64 (Z.of_nat (length ranges)) 1)));
        match between with
        | Some g => Ret (Some g)
        | None =>
            match ranges with
            | [] => if size <=? sub64 start end_ then Ret (Some (sub64 start size)) else Ret None
            | (s, _) :: _ =>
                if end_ <? s then
                  let gap_start := end_ in
                  let gap_end := Z.min s start in
                  if (gap_start <? gap_end) && (size <=? sub64 gap_end gap_start)
                  then Ret (Some (sub64 gap_end size)) else Ret None
                else Ret None
            end
        end
    end.

Definition iter m : exec (list (Z * Z * V)) :=
  l ← om_iter m; Ret (map (fun kv => triple kv.2) l).

Definition update_end m (start new_end : Z) : exec (Result unit MapleInsertError * M) :=
  '(old, m1) ← remove m start;
  match old with
  | None => Ret (Err InvalidRange, m1)
  | Some (old_end, value) =>
      overlap ← has_overlap m1 start new_end;
      if (overlap : bool) then
        '(_, m2) ← insert m1 start old_end value; Ret (Err Overlap, m2)
      else
        '(r, m2) ← insert m1 start new_end value;
        Ret (match r with Ok _ => Ok tt | Err e => Err e end, m2)
  end.

Definition replace m (start end_ : Z) (value : V)
  : exec (Result (option (Z * V)) MapleInsertError * M) :=
  '(old, m1) ← remove m start;
  '(r, m2) ← insert m1 start end_ value;
  match r with
  | Ok _ => Ret (Ok old, m2)
  | Err e =>
      match old with
      | Some (old_end, old_value) => '(_, m3) ← insert m2 start old_end old_value; Ret (Err e, m3)
      | None => Ret (Err e, m2)
      end
  end.

Definition move_start m (old_start new_start : Z) : exec (Result (Z * Z) MapleInsertError * M) :=
  existing ← om_get m old_start;
  match existing with
  | None => Ret (Err InvalidRange, m)
  | Some existing =>
      let old_end := rend existing in
      if old_end <=? new_start then Ret (Err InvalidRange, m)
      else
        l ← om_iter m;
        if existsb (fun kv => negb (rstart kv.2 =? old_start) && intersects new_start old_end kv.2) l
        then Ret (Err Overlap, m)
        else
          '(old_entry, m1) ← om_remove m old_start;
          match old_entry with
          | None => Ret (Err InvalidRange, m1)
          | Some old_entry =>
              '(_, m2) ← om_insert m1 new_start (mkRange new_start old_end (rvalue old_entry));
              Ret (Ok (old_start, old_end), m2)
          end
  end.

(** Removes the listed starts and collects what was there. *)
Fixpoint remove_starts m (starts : list Z) : exec (list (Z * Z * V) * M) :=
  match starts with
  | [] => Ret ([], m)
  | s :: starts' =>
      '(r, m1) ← remove m s;
      '(rest, m2) ← remove_starts m1 starts';
      Ret (match r with Some (e, v) => (s, e, v) :: rest | None => rest end, m2)
  end.

Definition insert_overwrite m (start end_ : Z) (value : V)
  : exec (Result (list (Z * Z * V)) MapleInsertError * M) :=
  if end_ <=? start then Ret (Err InvalidRange, m)
  else
    l ← om_iter m;
    let overlapping := map fst (filter (fun kv => intersects start end_ kv.2 = true) l) in
    '(removed, m1) ← remove_starts m overlapping;
    '(r, m2) ← insert m1 start end_ value;
    Ret (match r with Ok _ => Ok removed | Err e => Err e end, m2).

Definition split_at m (point : Z) : exec (bool * M) :=
  l ← om_iter m;
  match List.find (fun kv => (rstart kv.2 <? point) && (point <? rend kv.2)) l with
  | None => Ret (false, m)
  | Some (start, e) =>
      '(r, m1) ← remove m start;
      match r with
      | None => Ret (false, m1)
      | Some _ =>
          '(_, m2) ← insert m1 start point (rvalue e);
          '(_, m3) ← insert m2 point (rend e) (rvalue e);
          Ret (true, m3)
      end
  end.

(** [windows(2).find(..)] *)
Fixpoint find_pair {A} (p : A -> A -> bool) (l : list A) : option (A * A) :=
  match l with
  | x :: ((y :: _) as l') => if p x y then Some (x, y) else find_pair p l'
  | _ => None
  end.

Section Merge.
Context (veq : V -> V -> bool).

(** Each round merges one pair, so the number of intervals bounds the rounds. *)
Fixpoint merge_loop (fuel : nat) m (merged_count : Z) : exec (Z * M) :=
  match fuel with
  | O => OutOfFuel
  | S fuel' =>
      l ← om_iter m;
      let ranges := sort_by_key (fun r => r.1.1) (map (fun kv => triple kv.2) l) in
      match find_pair (fun a b => (a.1.2 =? b.1.1) && veq a.2 b.2) ranges with
      | None => Ret (merged_count, m)
      | Some ((s1, _, v), (s2, e2, _)) =>
          '(r, m1) ← remove m s1;
          match r with
          | None => Ret (merged_count, m1)
          | Some _ =>
              '(_, m2) ← remove m1 s2;
              '(_, m3) ← insert m2 s1 e2 v;
              merge_loop fuel' m3 (add64 merged_count 1)
          end
      end
  end.

Definition merge_adjacent_equal m : exec (Z * M) :=
  merge_loop (S (Z.to_nat (om_len m))) m 0.
End Merge.

Definition lower_bound m (start : Z) : exec (option (Z * Z * V)) :=
  l ← om_iter m; Ret (option_map (fun kv => triple kv.2) (List.find (fun kv => start <=? rstart kv.2) l)).

Definition iter_intersecting m (start end_ : Z) : exec (list (Z * Z * V)) :=
  l ← om_iter m;
  Ret (map (fun kv => triple kv.2) (filter (fun kv => intersects start end_ kv.2 = true) l)).

(** [get_mut], with the update the caller makes to the value. *)
Definition get_mut m (point : Z) (f : V -> V) : exec (option V * M) :=
  l ← om_iter m;
  match List.find (fun kv => covers_point point kv.2) l with
  | None => Ret (None, m)
  | Some (start, _) =>
      '(e, m') ← om_update m start (fun e => mkRange (rstart e) (rend e) (f (rvalue e)));
      Ret (option_map rvalue e, m')
  end.

Definition get_mut_at m (start : Z) (f : V -> V) : exec (option (Z * V) * M) :=
  '(e, m') ← om_update m start (fun e => mkRange (rstart e) (rend e) (f (rvalue e)));
  Ret (option_map (fun e => (rend e, rvalue e)) e, m').

Definition first m : exec (option (Z * Z * V)) :=
  f ← om_first m; Ret (option_map (fun kv => triple kv.2) f).
Definition last_ m : exec (option (Z * Z * V)) :=
  f ← om_last m; Ret (option_map (fun kv => triple kv.2) f).

Definition starts m : exec (list Z) := l ← om_iter m; Ret (map fst l).
Definition values m : exec (list V) := l ← om_iter m; Ret (map (fun kv => rvalue kv.2) l).

Definition contains m (point : Z) : exec bool :=
  r ← find m point; Ret (match r with Some _ => true | None => false end).
Definition contains_start m (start : Z) : exec bool :=
  r ← om_get m start; Ret (match r with Some _ => true | None => false end).

Definition remove_intersecting m (start end_ : Z) : exec (list (Z * Z * V) * M) :=
  l ← om_iter m;
  remove_starts m (map fst (filter (fun kv => intersects start end_ kv.2 = true) l)).

Definition total_length m : exec Z :=
  l ← om_iter m; Ret (foldl (fun acc kv => add64 acc (sub64 (rend kv.2) (rstart kv.2))) 0 l).

Definition has_intersection m (start end_ : Z) : exec bool :=
  l ← om_iter m; Ret (existsb (fun kv => intersects start end_ kv.2) l).

Fixpoint insert_each m (l : list (Z * Z * V)) : exec M :=
  match l with
  | [] => Ret m
  | (s, e, v) :: l' => '(_, m') ← insert m s e v; insert_each m' l'
  end.

Definition clone m : exec M := l ← iter m; insert_each om_new l.
End MapleTree.

(** ** Disjoint intervals in ascending order *)
Section Ranges.
Context {V : Type}.
Implicit Types (l : list (Z * RangeEntry V)) (e : RangeEntry V).

Fixpoint ranges_wf (lo : Z) l : Prop :=
  match l with
  | [] => True
  | (k, e) :: l' => k = rstart e /\ (lo <= rstart e < rend e /\ rend e < u64_size) /\ ranges_wf (rend e) l'
  end.

Definition apart (s t : Z) (kv : Z * RangeEntry V) : Prop := t <= rstart kv.2 \/ rend kv.2 <= s.
Definition no_overlap l (s t : Z) : Prop := Forall (apart s t) l.

(** The interval that holds a point. *)
Definition at_point l (p : Z) : option (RangeEntry V) :=
  option_map snd (List.find (fun kv => covers_point p kv.2) l).

Lemma ranges_wf_elem lo l k e :
  ranges_wf lo l -> (k, e) ∈ l -> k = rstart e /\ lo <= rstart e < rend e /\ rend e < u64_size.
Proof.
  revert lo. induction l as [|[k' e'] l IH]; intros lo Hwf Hin; [by apply elem_of_nil in Hin|].
  destruct Hwf as (-> & Hb & Hwf). apply elem_of_cons in Hin as [[= -> ->]|Hin]; [lia|].
  destruct (IH _ Hwf Hin). lia.
Qed.

Lemma ranges_wf_weaken lo lo' l : lo' <= lo -> ranges_wf lo l -> ranges_wf lo' l.
Proof. destruct l as [|[k e] l]; simpl; [done|]. intuition lia. Qed.

Lemma ranges_wf_above lo l : ranges_wf lo l -> Forall (fun kv => lo <= rstart kv.2) l.
Proof. intros Hwf. apply Forall_forall. intros [k e] Hin. destruct (ranges_wf_elem _ _ _ _ Hwf Hin). simpl. lia. Qed.

Lemma ranges_wf_disjoint lo l k1 e1 k2 e2 :
  ranges_wf lo l -> (k1, e1) ∈ l -> (k2, e2) ∈ l ->
  (k1, e1) = (k2, e2) \/ rend e1 <= rstart e2 \/ rend e2 <= rstart e1.
Proof.
  revert lo. induction l as [|[k e] l IH]; intros lo Hwf H1 H2; [by apply elem_of_nil in H1|].
  destruct Hwf as (-> & Hb & Hwf). apply elem_of_cons in H1, H2.
  destruct H1 as [[= -> ->]|H1], H2 as [[= -> ->]|H2]; [by left| | |by eapply IH];
    [pose proof (ranges_wf_elem _ _ _ _ Hwf H2)|pose proof (ranges_wf_elem _ _ _ _ Hwf H1)]; lia.
Qed.

(** What lies before and after two neighbouring intervals. *)
Lemma ranges_wf_pair lo a b c d :
  ranges_wf lo (a ++ c :: d :: b) ->
  Forall (fun q => rend q.2 <= rend c.2) a /\ Forall (fun q => rstart d.2 <= rstart q.2) b /\
  rend c.2 <= rstart d.2.
Proof.
  revert lo. induction a as [|[k e] a IH]; intros lo; destruct c as [kc ec], d as [kd ed].
  - intros (_ & _ & _ & Hd & Hb). split; [constructor|]. split; [|simpl; lia].
    eapply Forall_impl; [apply (ranges_wf_above _ _ Hb)|]. simpl. lia.
  - intros (_ & He & Hwf). destruct (IH _ Hwf) as (H1 & H2 & H3). split; [|done]. constructor; [|done].
    assert ((kc, ec) ∈ a ++ (kc, ec) :: (kd, ed) :: b) as Hin by (apply elem_of_app; right; left).
    apply (ranges_wf_elem _ _ _ _ Hwf) in Hin. simpl. lia.
Qed.

Lemma ranges_wf_sorted lo l : ranges_wf lo l -> sorted l.
Proof.
  revert lo. induction l as [|[k e] l IH]; intros lo; [done|]. intros (-> & Hb & Hwf). split; [|eauto].
  apply Forall_forall. intros [k' e'] Hin. destruct (ranges_wf_elem _ _ _ _ Hwf Hin) as [-> ?]. simpl. lia.
Qed.

Lemma find_Some_elem (f : Z * RangeEntry V -> bool) l x : List.find f l = Some x -> x ∈ l /\ f x = true.
Proof. intros Hf. apply find_some in Hf as [Hin ?]. split; [by apply list_elem_of_In|done]. Qed.

Lemma covers_point_spec p e : covers_point p e = true <-> rstart e <= p < rend e.
Proof. unfold covers_point. rewrite andb_true_iff, Z.leb_le, Z.ltb_lt. done. Qed.

(** The point query finds the one interval around the point. *)
Lemma at_point_spec lo l p e :
  ranges_wf lo l -> at_point l p = Some e <-> (rstart e, e) ∈ l /\ rstart e <= p < rend e.
Proof.
  intros Hwf. unfold at_point. destruct (List.find _ l) as [[k' e']|] eqn:Hf; simpl.
  - apply find_Some_elem in Hf as [Hin Hc%covers_point_spec]. simpl in Hc.
    destruct (ranges_wf_elem _ _ _ _ Hwf Hin) as [-> _]. split; [intros [= ->]; done|]. intros [Hin2 Hp].
    destruct (ranges_wf_disjoint _ _ _ _ _ _ Hwf Hin Hin2) as [[= _ ->]|Hd]; [done|lia].
  - split; [done|]. intros [Hin Hp]. apply list_elem_of_In in Hin. pose proof (find_none _ _ Hf _ Hin) as Hn.
    simpl in Hn. apply covers_point_spec in Hp. congruence.
Qed.

Lemma at_point_None lo l p :
  ranges_wf lo l -> at_point l p = None <-> forall k e, (k, e) ∈ l -> ~ rstart e <= p < rend e.
Proof.
  intros Hwf. split.
  - intros Hn k e Hin Hp. destruct (ranges_wf_elem _ _ _ _ Hwf Hin) as [-> _].
    assert (at_point l p = Some e) by (by apply (at_point_spec lo)). congruence.
  - intros Hn. destruct (at_point l p) as [e|] eqn:He; [|done].
    apply (at_point_spec lo) in He as [Hin Hp]; [|done]. exfalso. by eapply Hn.
Qed.

Lemma intersects_false s t e : intersects s t e = false <-> t <= rstart e \/ rend e <= s.
Proof. unfold intersects. rewrite negb_false_iff, orb_true_iff, !Z.leb_le. done. Qed.

Lemma existsb_overlap l s t : existsb (fun kv => intersects s t kv.2) l = false <-> no_overlap l s t.
Proof.
  unfold no_overlap. induction l as [|kv l IH]; simpl; [split; [constructor|done]|].
  rewrite orb_false_iff, IH, intersects_false, Forall_cons. done.
Qed.

(** Overlap in terms of points. *)
Lemma no_overlap_points lo l s t :
  ranges_wf lo l -> s < t -> no_overlap l s t <-> forall p, s <= p < t -> at_point l p = None.
Proof.
  intros Hwf Hst. split.
  - intros Hno p Hp. apply (at_point_None lo); [done|]. intros k e Hin Hpe.
    eapply Forall_forall in Hno; [|exact Hin]. unfold apart in Hno. simpl in Hno. lia.
  - intros Hp. apply Forall_forall. intros [k e] Hin. unfold apart. simpl.
    destruct (Z.le_gt_cases t (rstart e)); [by left|]. destruct (Z.le_gt_cases (rend e) s); [by right|]. exfalso.
    destruct (ranges_wf_elem _ _ _ _ Hwf Hin) as [-> ?].
    specialize (Hp (Z.max s (rstart e)) ltac:(lia)). apply (at_point_None lo) with (k := rstart e) (e := e) in Hp; try done. lia.
Qed.

Lemma no_overlap_fresh lo l s t : ranges_wf lo l -> s < t -> no_overlap l s t -> al_lookup s l = None.
Proof.
  intros Hwf Hst Hno. apply al_lookup_None, Forall_forall. intros [k e] Hin.
  destruct (ranges_wf_elem _ _ _ _ Hwf Hin) as [-> ?]. eapply Forall_forall in Hno; [|exact Hin].
  unfold apart in Hno. simpl in *. lia.
Qed.

Lemma ranges_wf_insert lo l s t v :
  ranges_wf lo l -> lo <= s < t -> t < u64_size -> no_overlap l s t ->
  ranges_wf lo (al_insert s (mkRange s t v) l).
Proof.
  revert lo. induction l as [|[k e] l IH]; intros lo Hwf Hs Ht Hno; simpl; [lia|].
  destruct Hwf as (-> & Hb & Hwf). apply Forall_cons in Hno as [He Hno]. unfold apart in He. simpl in He.
  destruct (Z.ltb_spec s (rstart e)); simpl.
  - repeat split; try lia. done.
  - repeat split; try lia. apply IH; try done. lia.
Qed.

Lemma ranges_wf_remove lo l k : ranges_wf lo l -> ranges_wf lo (al_remove k l).
Proof.
  revert lo. induction l as [|[k' e] l IH]; intros lo; [done|]. intros (-> & Hb & Hwf).
  unfold al_remove. rewrite filter_cons. destruct (decide _); simpl.
  - repeat split; try lia. by apply IH.
  - apply IH. eapply ranges_wf_weaken; [|exact Hwf]. lia.
Qed.

Lemma at_point_insert lo l s t v p :
  ranges_wf lo l -> lo <= s < t -> t < u64_size -> no_overlap l s t ->
  at_point (al_insert s (mkRange s t v) l) p =
  if (s <=? p) && (p <? t) then Some (mkRange s t v) else at_point l p.
Proof.
  intros Hwf Hs Ht Hno. pose proof (ranges_wf_insert lo l s t v Hwf Hs Ht Hno) as Hwf'.
  apply option_eq. intros e. rewrite (at_point_spec lo) by done. rewrite al_insert_elem.
  destruct (Z.leb_spec s p), (Z.ltb_spec p t); simpl.
  2-4: rewrite (at_point_spec lo) by done; split; [intros [[[= ? ->]|?] ?]; simpl in *; [lia|done]|tauto].
  split.
  - intros [[[= _ ->]|Hin] Hp]; [done|]. eapply Forall_forall in Hno; [|exact Hin]. unfold apart in Hno. simpl in Hno. lia.
  - intros [= <-]. simpl. split; [by left|lia].
Qed.

Lemma at_point_remove lo l k p :
  ranges_wf lo l ->
  at_point (al_remove k l) p =
  match at_point l p with Some e => if rstart e =? k then None else Some e | None => None end.
Proof.
  intros Hwf. apply option_eq. intros e. rewrite (at_point_spec lo) by (by apply ranges_wf_remove).
  rewrite al_remove_elem. destruct (at_point l p) as [e'|] eqn:He.
  - apply (at_point_spec lo) in He as [Hin Hp]; [|done]. split.
    + intros [[Hne Hin2] Hp2]. simpl in Hne.
      destruct (ranges_wf_disjoint _ _ _ _ _ _ Hwf Hin Hin2) as [[= _ ->]|?]; [|lia]. by destruct (Z.eqb_spec (rstart e) k).
    + destruct (Z.eqb_spec (rstart e') k); [done|]. intros [= <-]. done.
  - split; [|done]. intros [[_ Hin] Hp]. assert (at_point l p = Some e) by (by apply (at_point_spec lo)). congruence.
Qed.
End Ranges.

(** ** The operations against the laws of the ordered map *)
Section Laws.
Context {M V : Type} `{HM : OrdMap M (RangeEntry V)}.
Implicit Types (m : M) (l : list (Z * RangeEntry V)).

Definition mt_ok m l : Prop := om_rep m l /\ ranges_wf 0 l.

Lemma new_ok : mt_ok new [].
Proof. split; [apply om_new_ok|done]. Qed.

Lemma find_ok m l p : mt_ok m l -> find m p = Ret (option_map triple (at_point l p)).
Proof.
  intros [Hr Hwf]. unfold find, at_point. rewrite (om_iter_ok m l Hr). mstep. by destruct (List.find _ l).
Qed.

Lemma remove_ok m l k :
  mt_ok m l -> exists m', remove m k = Ret (option_map (fun e => (rend e, rvalue e)) (al_lookup k l), m') /\
    mt_ok m' (al_remove k l).
Proof.
  intros [Hr Hwf]. unfold remove. destruct (om_remove_ok m l k Hr) as (m' & -> & Hr'). mstep.
  exists m'. split; [done|]. split; [done|]. by apply ranges_wf_remove.
Qed.

Lemma has_overlap_ok m l s t :
  mt_ok m l -> has_overlap m s t = Ret (existsb (fun kv => intersects s t kv.2) l).
Proof. intros [Hr _]. unfold has_overlap. by rewrite (om_iter_ok m l Hr). Qed.

Lemma insert_ok m l s t v :
  mt_ok m l -> (length l < om_cap)%nat -> 0 <= s < t -> t < u64_size -> no_overlap l s t ->
  exists m', insert m s t v = Ret (Ok None, m') /\ mt_ok m' (al_insert s (mkRange s t v) l).
Proof.
  intros Hok Hcap Hst Ht Hno. pose proof Hok as [Hr Hwf]. unfold insert.
  destruct (Z.leb_spec t s); [lia|]. rewrite (has_overlap_ok m l) by done. mstep.
  rewrite (proj2 (existsb_overlap l s t)) by done.
  destruct (om_insert_ok m l s (mkRange s t v) Hr Hcap) as (m' & -> & Hr'); [apply (no_overlap_fresh 0 l s t); [done|lia|done]|].
  mstep. exists m'. split; [done|]. split; [done|]. apply ranges_wf_insert; done.
Qed.

Lemma insert_refused m l s t v :
  mt_ok m l -> s < t -> ~ no_overlap l s t -> insert m s t v = Ret (Err Overlap, m).
Proof.
  intros Hok Hst Hno. unfold insert. destruct (Z.leb_spec t s); [lia|].
  rewrite (has_overlap_ok m l) by done. mstep.
  destruct (existsb _ l) eqn:He; [done|]. by apply existsb_overlap in He.
Qed.

Lemma insert_invalid m s t v : t <= s -> insert m s t v = Ret (Err InvalidRange, m).
Proof. intros. unfold insert. by destruct (Z.leb_spec t s); [|lia]. Qed.

#[local] Instance apart_dec s t kv : Decision (apart (V := V) s t kv).
Proof. unfold apart. apply _. Defined.
#[local] Instance no_overlap_dec l s t : Decision (no_overlap l s t).
Proof. unfold no_overlap. apply _. Defined.

(** Inserting an interval never panics.  An empty interval and one that meets an interval
    already present are refused and change nothing; any other is added, after which a
    point query finds the new interval inside it and the same as before elsewhere. *)
Theorem insert_adds_exactly_the_interval m l start end_ value :
  mt_ok m l -> (length l < om_cap)%nat -> 0 <= start -> end_ < u64_size ->
  (end_ <= start /\ insert m start end_ value = Ret (Err InvalidRange, m)) \/
  (start < end_ /\ (exists p, start <= p < end_ /\ find m p <> Ret None) /\
     insert m start end_ value = Ret (Err Overlap, m)) \/
  (start < end_ /\ exists m', insert m start end_ value = Ret (Ok None, m') /\
     (exists l', mt_ok m' l') /\
     forall p, find m' p = if (start <=? p) && (p <? end_)
                           then Ret (Some (start, end_, value)) else find m p).
Proof.
  intros Hok Hcap Hs Ht. pose proof Hok as [Hr Hwf].
  destruct (Z.le_gt_cases end_ start) as [|Hlt]; [left; split; [done|by apply insert_invalid]|]. right.
  destruct (decide (no_overlap l start end_)) as [Hno|Hyes]; [right|left]; (split; [done|]).
  - destruct (insert_ok m l start end_ value) as (m' & Hrun & Hok'); try done.
    exists m'. split; [done|]. split; [by eexists|]. intros p. rewrite (find_ok m' _ p Hok'), (find_ok m l p Hok).
    rewrite (at_point_insert 0) by (done || lia). by destruct (_ && _).
  - split; [|by eapply insert_refused].
    apply not_Forall_Exists in Hyes; [|apply _]. apply Exists_exists in Hyes as ([k e] & Hin & Hap).
    destruct (ranges_wf_elem _ _ _ _ Hwf Hin) as [-> Hb]. unfold apart in Hap. simpl in Hap.
    exists (Z.max start (rstart e)). split; [lia|]. rewrite (find_ok m l) by done.
    assert (at_point l (Z.max start (rstart e)) = Some e) as -> by (apply (at_point_spec 0); [done|split; [done|lia]]).
    done.
Qed.

(** ** Gaps *)
Lemma sort_sorted {A} (key : A -> Z) (xs : list A) :
  StronglySorted (fun x y => key x <= key y) xs -> sort_by_key key xs = xs.
Proof.
  induction 1 as [|x xs _ IH Hx]; [done|]. cbn [sort_by_key]. rewrite IH.
  destruct Hx as [|y ys Hxy _]; [done|]. cbn [insert_sorted]. by destruct (Z.leb_spec (key x) (key y)); [|lia].
Qed.

Definition bounds l : list (Z * Z) := map (fun kv => (rstart kv.2, rend kv.2)) l.

Lemma sorted_ranges_ok m l : mt_ok m l -> sorted_ranges m = Ret (bounds l).
Proof.
  intros [Hr Hwf]. unfold sorted_ranges. rewrite (om_iter_ok m l Hr). mstep. f_equal.
  apply sort_sorted. clear Hr. revert Hwf. generalize 0. induction l as [|[k e] l IH]; intros lo Hwf; [constructor|].
  destruct Hwf as (-> & Hb & Hwf). constructor; [by apply (IH (rend e))|].
  apply Forall_fmap, Forall_forall. intros [k' e'] Hin. destruct (ranges_wf_elem _ _ _ _ Hwf Hin). simpl. lia.
Qed.

(** [x] can be the start of a new interval of [size] in the window. *)
Definition gap_at l (size lo hi x : Z) : Prop := lo <= x /\ x + size <= hi /\ no_overlap l x (x + size).

(** The forward scan, on the list. *)
Fixpoint scan_gaps (rs : list (Z * Z)) (size lo hi : Z) : option Z :=
  match rs with
  | r :: ((r' :: _) as rs') =>
      let gap_start := Z.max r.2 lo in
      let gap_end := Z.min r'.1 hi in
      if (gap_start <? gap_end) && (size <=? gap_end - gap_start) then Some gap_start
      else scan_gaps rs' size lo hi
  | _ => None
  end.

Lemma gap_loop_ok l1 l size lo hi :
  Forall (fun kv => 0 <= rstart kv.2 < u64_size /\ 0 <= rend kv.2) l -> 0 <= lo -> hi < u64_size ->
  gap_loop (bounds (l1 ++ l)) size lo hi false
    (zrange (Z.of_nat (length l1)) (saturating_sub64 (Z.of_nat (length (bounds (l1 ++ l)))) 1)) =
  Ret (scan_gaps (bounds l) size lo hi).
Proof.
  intros Hb Hlo Hhi. revert l1. induction Hb as [|kv l Hkv Hb IH]; intros l1;
    unfold bounds, saturating_sub64 in *; rewrite length_map, length_app.
  - simpl. rewrite zrange_empty by lia. done.
  - destruct Hb as [|kv' l Hkv' Hb]; cbn [length]; [rewrite zrange_empty by lia; done|].
    rewrite zrange_cons by lia. cbn [gap_loop]. rewrite map_app. cbn [map].
    rewrite (vec_get_middle _ _ _ (Z.of_nat (length l1))) by (by rewrite length_map). mstep.
    rewrite vec_get_next by (by rewrite length_map). mstep.
    cbn [scan_gaps map fst snd]. set (gs := Z.max _ _). set (ge := Z.min _ _).
    assert (Heq : (gs <? ge) && (size <=? sub64 ge gs) = (gs <? ge) && (size <=? ge - gs)).
    { destruct (Z.ltb_spec gs ge); [|done]. cbn [andb]. rewrite sub64_small by lia. done. }
    rewrite Heq. destruct ((gs <? ge) && (size <=? ge - gs)); [done|]. specialize (IH (l1 ++ [kv])).
    rewrite <- app_assoc in IH. cbn [app] in IH. etransitivity; [|exact IH].
    rewrite length_map, map_app. cbn [map]. f_equal. f_equal; len_lia.
Qed.

(** The scan from a range after which every gap must lie. *)
Lemma scan_gaps_spec l1 kv l size lo hi :
  ranges_wf 0 (l1 ++ kv :: l) -> 0 < size ->
  (forall x, gap_at (l1 ++ kv :: l) size lo hi x -> rend kv.2 <= x) ->
  match scan_gaps (bounds (kv :: l)) size lo hi with
  | Some g => gap_at (l1 ++ kv :: l) size lo hi g /\ forall x, gap_at (l1 ++ kv :: l) size lo hi x -> g <= x
  | None => forall x, gap_at (l1 ++ kv :: l) size lo hi x -> exists kv', last (kv :: l) = Some kv' /\ rend kv'.2 <= x
  end.
Proof.
  intros Hwf Hsz. revert l1 kv Hwf. induction l as [|kv' l IH]; intros l1 kv Hwf Hafter.
  - cbn. intros x Hx. exists kv. auto.
  - set (full := l1 ++ kv :: kv' :: l) in *. cbn [bounds map scan_gaps fst snd].
    set (gs := Z.max (rend kv.2) lo). set (ge := Z.min (rstart kv'.2) hi).
    destruct (ranges_wf_pair 0 l1 l kv kv' Hwf) as (H1 & H2 & H3).
    destruct ((gs <? ge) && (size <=? ge - gs)) eqn:Hc.
    + apply andb_prop in Hc as [Hlt%Z.ltb_lt Hle%Z.leb_le]. split.
      * split; [lia|]. split; [lia|]. apply Forall_app. split.
        { eapply Forall_impl; [exact H1|]. unfold apart. simpl. intros. lia. }
        constructor; [unfold apart; lia|]. constructor; [unfold apart; lia|].
        eapply Forall_impl; [exact H2|]. unfold apart. simpl. intros. lia.
      * intros x Hx. pose proof (Hafter x Hx). destruct Hx. lia.
    + assert (Hafter' : forall x, gap_at full size lo hi x -> rend kv'.2 <= x).
      { intros x Hx. pose proof (Hafter x Hx) as Hge. destruct Hx as (Hx1 & Hx2 & Hx3).
        apply Forall_app in Hx3 as [_ [_ [Hap _]%Forall_cons]%Forall_cons]. unfold apart in Hap.
        destruct Hap as [Hap|]; [|done]. exfalso. apply andb_false_iff in Hc.
        rewrite Z.ltb_ge, Z.leb_gt in Hc. lia. }
      assert (Hfull : full = (l1 ++ [kv]) ++ kv' :: l) by (unfold full; by rewrite <- app_assoc).
      rewrite Hfull in *. exact (IH (l1 ++ [kv]) kv' Hwf Hafter').
Qed.

Lemma bounds_last l : last (bounds l) = option_map (fun kv => (rstart kv.2, rend kv.2)) (last l).
Proof. unfold bounds. destruct l as [|x l _] using rev_ind; [done|]. rewrite map_app; cbn [map]; by rewrite !last_snoc. Qed.

Lemma ranges_wf_last lo l kv : ranges_wf lo l -> last l = Some kv -> Forall (fun q => rend q.2 <= rend kv.2) l.
Proof.
  revert lo. induction l as [|[k e] l IH]; intros lo Hwf Hl; [done|]. destruct Hwf as (-> & Hb & Hwf).
  destruct l as [|q l]; [injection Hl as <-; constructor; [simpl; lia|constructor]|].
  change (last (q :: l) = Some kv) in Hl. constructor; [|by eapply IH].
  apply last_Some_elem_of in Hl. destruct kv as [k' e']. apply (ranges_wf_elem _ _ _ _ Hwf) in Hl. simpl. lia.
Qed.

Lemma find_gap_ok m l size start end_ :
  mt_ok m l -> 0 < size -> 0 <= start -> start + size <= end_ -> end_ < u64_size ->
  exists r, find_gap m size start end_ = Ret r /\
    match r with
    | Some g => gap_at l size start end_ g /\ forall x, gap_at l size start end_ x -> g <= x
    | None => forall x, ~ gap_at l size start end_ x
    end.
Proof.
  intros Hok Hsz Hst Hse He. pose proof Hok as [_ Hwf]. unfold find_gap.
  destruct (Z.leb_spec end_ start), (Z.eqb_spec size 0); try lia. cbn [orb].
  rewrite (sorted_ranges_ok m l Hok). mstep. destruct l as [|[k0 e0] l].
  { cbn [bounds map]. rewrite sub64_small by lia. destruct (Z.leb_spec size (end_ - start)); [|lia].
    exists (Some start). split; [done|]. split; [split; [lia|split; [lia|constructor]]|]. intros x Hx. apply Hx. }
  pose proof Hwf as (-> & Hb0 & Hwf0).
  pose proof (gap_loop_ok [] ((rstart e0, e0) :: l) size start end_) as Hloop. cbn [app length] in Hloop.
  change (Z.of_nat 0) with 0 in Hloop. rewrite Hloop; [| |lia|lia].
  2: { apply Forall_forall. intros [k e] Hin. apply (ranges_wf_elem _ _ _ _ Hwf) in Hin. simpl. lia. }
  clear Hloop. cbn [bounds map fst snd]. fold (bounds l). rewrite add64_small by lia.
  destruct (Z.leb_spec (start + size) (rstart e0)) as [Hfit|Hnofit].
  { rewrite sub64_small by lia. destruct (Z.leb_spec size (rstart e0 - start)); [|lia].
    exists (Some start). split; [done|]. split; [|intros x Hx; apply Hx]. split; [lia|]. split; [lia|].
    constructor; [left; simpl; lia|]. eapply Forall_impl; [apply (ranges_wf_above _ _ Hwf0)|].
    intros kv Hkv. left. simpl in Hkv. lia. }
  mstep. change ((rstart e0, rend e0) :: bounds l) with (bounds ((rstart e0, e0) :: l)).
  pose proof (scan_gaps_spec [] (rstart e0, e0) l size start end_ Hwf Hsz) as Hscan. cbn [app] in Hscan.
  set (full := (rstart e0, e0) :: l) in *. destruct (scan_gaps (bounds full) size start end_) as [g|].
  { exists (Some g). split; [done|]. apply Hscan. intros x (Hx1 & Hx2 & [Hap _]%Forall_cons). unfold apart in Hap.
    simpl in *. lia. }
  rewrite bounds_last. destruct (last full) as [kvl|] eqn:Hlast; [|by apply last_None in Hlast]. cbn [option_map].
  assert (Hafter : forall x, gap_at full size start end_ x -> rend kvl.2 <= x).
  { intros x Hx. destruct (Hscan ltac:(intros y (Hy1 & Hy2 & [Hap _]%Forall_cons); unfold apart in Hap; simpl in *; lia) x Hx)
      as (kv' & Hkv' & Hle). congruence. }
  pose proof (ranges_wf_last _ _ _ Hwf Hlast) as Hends.
  assert (Hbl : 0 <= rend kvl.2 < u64_size).
  { apply last_Some_elem_of in Hlast. destruct kvl as [kl el]. apply (ranges_wf_elem _ _ _ _ Hwf) in Hlast. simpl. lia. }
  destruct (Z.ltb_spec (Z.max (rend kvl.2) start) end_) as [Hlt|Hge].
  - cbn [andb]. rewrite sub64_small by lia. destruct (Z.leb_spec size (end_ - Z.max (rend kvl.2) start)).
    + exists (Some (Z.max (rend kvl.2) start)). split; [done|]. split.
      * split; [lia|]. split; [lia|]. eapply Forall_impl; [exact Hends|]. intros q Hq. right. simpl in Hq. lia.
      * intros x Hx. pose proof (Hafter x Hx). destruct Hx. lia.
    + exists None. split; [done|]. intros x Hx. pose proof (Hafter x Hx). destruct Hx as (? & ? & _). lia.
  - cbn [andb]. exists None. split; [done|]. intros x Hx. pose proof (Hafter x Hx). destruct Hx as (? & ? & _). lia.
Qed.

(** A lowest gap starts at the window or right after an interval, so it has their alignment. *)
Lemma lowest_gap_aligned l d size start end_ g :
  (d | start) -> Forall (fun kv => (d | rend kv.2)) l ->
  gap_at l size start end_ g -> (forall x, gap_at l size start end_ x -> g <= x) -> (d | g).
Proof.
  intros Hs Hl (H1 & H2 & H3) Hlow. destruct (Z.eq_dec g start) as [->|Hne]; [done|].
  destruct (decide (Exists (fun kv => rend kv.2 = g) l)) as [(kv & Hin & <-)%Exists_exists|Hno].
  - by eapply Forall_forall in Hl.
  - exfalso. enough (gap_at l size start end_ (g - 1)) as Hg by (specialize (Hlow _ Hg); lia).
    split; [lia|]. split; [lia|]. apply Forall_forall. intros kv Hin.
    assert (rend kv.2 <> g) by (intros Heq; apply Hno, Exists_exists; by exists kv).
    eapply Forall_forall in H3; [|exact Hin]. unfold apart in *. lia.
Qed.

(** A forward gap search whose window can hold the request returns the lowest address of
    the window at which the request meets no interval, and [None] only when there is no
    such address. *)
Theorem find_gap_first_fit m l size start end_ :
  mt_ok m l -> 0 < size -> 0 <= start -> start + size <= end_ -> end_ < u64_size ->
  exists r, find_gap m size start end_ = Ret r /\
    match r with
    | Some g => gap_at l size start end_ g /\ forall x, gap_at l size start end_ x -> g <= x
    | None => forall x, ~ gap_at l size start end_ x
    end.
Proof. apply find_gap_ok. Qed.

(** ** Replacing *)
Lemma al_insert_remove k (e : RangeEntry V) l :
  sorted l -> al_lookup k l = Some e -> al_insert k e (al_remove k l) = l.
Proof.
  intros Hs Hl. apply al_lookup_elem, list_elem_of_split in Hl as (l1 & l2 & ->); [|done].
  apply sorted_middle in Hs as (_ & _ & Hb & Ha). simpl in *. rewrite al_remove_here, al_insert_below by done. f_equal.
  destruct Ha as [|[k' e'] l2 Hk _]; [done|]. simpl in *. by destruct (Z.ltb_spec k k'); [|lia].
Qed.

Lemma removed_no_overlap l k e :
  ranges_wf 0 l -> (k, e) ∈ l -> no_overlap (al_remove k l) (rstart e) (rend e).
Proof.
  intros Hwf Hin. apply Forall_forall. intros [k' e'] [Hne Hin']%al_remove_elem. simpl in Hne.
  pose proof (ranges_wf_elem _ _ _ _ Hwf Hin). pose proof (ranges_wf_elem _ _ _ _ Hwf Hin').
  destruct (ranges_wf_disjoint _ _ _ _ _ _ Hwf Hin Hin') as [[= ? ?]|?]; [congruence|]. unfold apart. simpl. lia.
Qed.

(** Putting a removed interval back restores the tree. *)
Lemma reinsert_ok m l k e :
  mt_ok m (al_remove k l) -> ranges_wf 0 l -> al_lookup k l = Some e -> (length l <= om_cap)%nat ->
  exists m', insert m k (rend e) (rvalue e) = Ret (Ok None, m') /\ mt_ok m' l.
Proof.
  intros Hok Hwf Hl Hcap. pose proof (ranges_wf_sorted _ _ Hwf) as Hs.
  pose proof Hl as Hin. apply al_lookup_elem in Hin; [|done].
  destruct (ranges_wf_elem _ _ _ _ Hwf Hin) as [Hk Hb].
  destruct (insert_ok m (al_remove k l) k (rend e) (rvalue e) Hok) as (m' & Hrun & Hok'); [| | | |].
  - rewrite <- (al_insert_remove k e l Hs Hl), length_al_insert in Hcap. lia.
  - lia.
  - lia.
  - rewrite Hk at 2. by apply removed_no_overlap.
  - exists m'. split; [done|]. replace (mkRange k (rend e) (rvalue e)) with e in Hok' by (destruct e; simpl in *; by subst).
    by rewrite al_insert_remove in Hok'.
Qed.

Lemma replace_cases m l start end_ value :
  mt_ok m l -> (length l < om_cap)%nat -> 0 <= start -> end_ < u64_size ->
  (exists e m', replace m start end_ value = Ret (Err e, m') /\ mt_ok m' l /\
     (end_ <= start \/ ~ no_overlap (al_remove start l) start end_)) \/
  (exists m', start < end_ /\ no_overlap (al_remove start l) start end_ /\
     replace m start end_ value = Ret (Ok (option_map (fun e => (rend e, rvalue e)) (al_lookup start l)), m') /\
     mt_ok m' (al_insert start (mkRange start end_ value) (al_remove start l))).
Proof.
  intros Hok Hcap Hs Ht. pose proof Hok as [_ Hwf]. unfold replace.
  destruct (remove_ok m l start Hok) as (m1 & -> & Hok1). mstep.
  assert (Hundo : forall err, exists m',
    match option_map (fun e => (rend e, rvalue e)) (al_lookup start l) with
    | Some (old_end, old_value) => '(_, m3) ← insert m1 start old_end old_value; Ret (Err err, m3)
    | None => Ret (Err err, m1)
    end = Ret (Err err : Result (option (Z * V)) MapleInsertError, m') /\ mt_ok m' l).
  { intros err. destruct (al_lookup start l) as [e|] eqn:Hl; cbn [option_map].
    - destruct (reinsert_ok m1 l start e Hok1 Hwf Hl) as (m' & -> & Hok'); [lia|]. mstep. by exists m'.
    - exists m1. split; [done|]. by rewrite al_remove_absent in Hok1 by (by apply al_lookup_None). }
  destruct (Z.le_gt_cases end_ start) as [Hle|Hlt].
  - left. rewrite insert_invalid by done. mstep. destruct (Hundo InvalidRange) as (m' & Hrun & Hok').
    exists InvalidRange, m'. auto.
  - destruct (decide (no_overlap (al_remove start l) start end_)) as [Hno|Hyes].
    + right. destruct (insert_ok m1 (al_remove start l) start end_ value Hok1) as (m2 & -> & Hok2); try done.
      * pose proof (length_al_remove start l). lia.
      * mstep. by exists m2.
    + left. rewrite (insert_refused m1 _ _ _ _ Hok1) by done. mstep.
      destruct (Hundo Overlap) as (m' & Hrun & Hok'). exists Overlap, m'. auto.
Qed.

(** [replace] is atomic.  When it fails, because the new interval is empty or meets an
    interval other than the one it replaces, every point query answers as before the
    call; when it succeeds it returns the interval that was replaced, the new interval
    answers for its points, and every other interval is untouched. *)
Theorem replace_is_atomic m l start end_ value :
  mt_ok m l -> (length l < om_cap)%nat -> 0 <= start -> end_ < u64_size ->
  exists r m', replace m start end_ value = Ret (r, m') /\ (exists l', mt_ok m' l') /\
    match r with
    | Err _ => forall p, find m' p = find m p
    | Ok old =>
        old = option_map (fun e => (rend e, rvalue e)) (al_lookup start l) /\
        forall p, find m' p =
          if (start <=? p) && (p <? end_) then Ret (Some (start, end_, value))
          else match at_point l p with
               | Some e => if rstart e =? start then Ret None else find m p
               | None => Ret None
               end
    end.
Proof.
  intros Hok Hcap Hs Ht. pose proof Hok as [_ Hwf].
  destruct (replace_cases m l start end_ value Hok Hcap Hs Ht)
    as [(err & m' & Hrun & Hok' & _)|(m' & Hlt & Hno & Hrun & Hok')].
  - exists (Err err), m'. split; [done|]. split; [by exists l|]. intros p. by rewrite (find_ok m' l), (find_ok m l).
  - eexists _, m'. split; [done|]. split; [by eexists|]. split; [done|]. intros p.
    rewrite (find_ok m' _ p Hok'), (find_ok m l p Hok).
    rewrite (at_point_insert 0) by (first [done | by apply ranges_wf_remove | lia]).
    destruct ((start <=? p) && (p <? end_)); [done|]. rewrite (at_point_remove 0) by done.
    destruct (at_point l p) as [e|]; [|done]. by destruct (rstart e =? start).
Qed.

(** ** Splitting and merging *)
Lemma at_point_app l1 l2 p :
  at_point (l1 ++ l2) p = match at_point l1 p with Some e => Some e | None => at_point l2 p end.
Proof.
  unfold at_point. induction l1 as [|kv l1 IH]; simpl; [by destruct (List.find _ l2)|].
  destruct (covers_point p kv.2); [done|]. rewrite IH. done.
Qed.

Lemma at_point_cons kv l p :
  at_point (kv :: l) p = if covers_point p kv.2 then Some kv.2 else at_point l p.
Proof. unfold at_point. simpl. by destruct (covers_point p kv.2). Qed.

Definition value_at l (p : Z) : option V := option_map rvalue (at_point l p).

(** Two neighbouring intervals with one value look like a single interval. *)
Lemma value_at_merge l1 l2 s c t v w p :
  s < c < t -> v = w ->
  value_at (l1 ++ (s, mkRange s c v) :: (c, mkRange c t w) :: l2) p = value_at (l1 ++ (s, mkRange s t v) :: l2) p.
Proof.
  intros Hsct <-. unfold value_at. rewrite !at_point_app, !at_point_cons. destruct (at_point l1 p); [done|].
  unfold covers_point. cbn [snd rstart rend].
  destruct (Z.leb_spec s p), (Z.ltb_spec p c), (Z.leb_spec c p), (Z.ltb_spec p t); try lia; done.
Qed.

Lemma al_insert_middle l1 l2 k (e : RangeEntry V) : below k l1 -> above k l2 -> al_insert k e (l1 ++ l2) = l1 ++ (k, e) :: l2.
Proof.
  intros Hb Ha. rewrite al_insert_below by done. f_equal.
  destruct Ha as [|[k' e'] l2 Hk _]; [done|]. simpl in *. by destruct (Z.ltb_spec k k'); [|lia].
Qed.

Lemma ranges_wf_app lo l1 k e l2 :
  ranges_wf lo (l1 ++ (k, e) :: l2) ->
  k = rstart e /\ lo <= rstart e < rend e /\ rend e < u64_size /\
  Forall (fun q => q.1 < rstart e /\ rend q.2 <= rstart e) l1 /\ Forall (fun q => rend e <= rstart q.2) l2 /\ ranges_wf (rend e) l2.
Proof.
  revert lo. induction l1 as [|[k' e'] l1 IH]; intros lo.
  - intros (-> & Hb & Hwf). pose proof (ranges_wf_above _ _ Hwf). repeat split; try lia; try done.
  - intros (-> & Hb & Hwf). destruct (IH _ Hwf) as (-> & H1 & H2 & H3 & H4 & H5).
    repeat split; try lia; try done. constructor; [simpl; lia|done].
Qed.

Lemma split_at_list l1 l2 s t v point :
  ranges_wf 0 (l1 ++ (s, mkRange s t v) :: l2) -> s < point < t ->
  let l := l1 ++ (s, mkRange s t v) :: l2 in
  al_insert point (mkRange point t v) (al_insert s (mkRange s point v) (al_remove s l)) =
    l1 ++ (s, mkRange s point v) :: (point, mkRange point t v) :: l2 /\
  no_overlap (al_remove s l) s point /\
  no_overlap (al_insert s (mkRange s point v) (al_remove s l)) point t.
Proof.
  intros Hwf Hp l. pose proof (ranges_wf_sorted _ _ Hwf) as (_ & _ & Hb & Ha)%sorted_middle. simpl in Hb, Ha.
  destruct (ranges_wf_app _ _ _ _ _ Hwf) as (_ & Hst & Ht & H1 & H2 & _). simpl in *.
  unfold l. rewrite al_remove_here, al_insert_middle by done. split; [|split].
  - rewrite (cons_middle (s, mkRange s point v)), app_assoc, al_insert_middle; [by rewrite <- app_assoc| |].
    + apply Forall_app. split; [eapply below_trans; [|exact Hb]; lia|]. constructor; [simpl; lia|constructor].
    + apply Forall_forall. intros [k e] Hin. eapply Forall_forall in H2; [|exact Hin].
      eapply Forall_forall in Ha; [|exact Hin]. simpl in *.
      assert (Hin' : (k, e) ∈ l1 ++ (s, mkRange s t v) :: l2) by (apply elem_of_app; right; by right).
      destruct (ranges_wf_elem _ _ _ _ Hwf Hin') as [-> _]. lia.
  - apply Forall_app. split; eapply Forall_impl; [exact H1| |exact H2|]; intros q Hq; unfold apart; simpl in *; lia.
  - apply Forall_app. split; [|constructor; [unfold apart; simpl; lia|]];
      eapply Forall_impl; [exact H1| |exact H2|]; intros q Hq; unfold apart; simpl in *; lia.
Qed.

(** [split_at] never changes the value of any point.  It answers true exactly when the
    point lies strictly inside an interval, which is then divided there. *)
Theorem split_at_preserves_values m l point :
  mt_ok m l -> (length l < om_cap)%nat ->
  exists b m' l', split_at m point = Ret (b, m') /\ mt_ok m' l' /\
    (forall p, value_at l' p = value_at l p) /\
    match at_point l point with
    | Some e =>
        if rstart e <? point
        then b = true /\ at_point l' point = Some (mkRange point (rend e) (rvalue e)) /\
             at_point l' (point - 1) = Some (mkRange (rstart e) point (rvalue e))
        else b = false /\ m' = m
    | None => b = false /\ m' = m
    end.
Proof.
  intros Hok Hcap. pose proof Hok as [Hr Hwf]. unfold split_at. rewrite (om_iter_ok m l Hr). mstep.
  destruct (List.find _ l) as [[s e]|] eqn:Hf.
  - apply find_Some_elem in Hf as [Hin Hp]. simpl in Hp. apply andb_prop in Hp as [Hp1%Z.ltb_lt Hp2%Z.ltb_lt].
    destruct (ranges_wf_elem _ _ _ _ Hwf Hin) as [-> Hb].
    assert (at_point l point = Some e) as -> by (apply (at_point_spec 0); [done|split; [done|lia]]).
    destruct (remove_ok m l (rstart e) Hok) as (m1 & Hrm & Hok1). rewrite Hrm. mstep.
    rewrite (proj1 (al_lookup_elem _ e l (ranges_wf_sorted _ _ Hwf)) Hin). cbn [option_map].
    apply list_elem_of_split in Hin as (l1 & l2 & ->). destruct e as [s t v]. cbn [rstart rend rvalue] in *.
    destruct (split_at_list l1 l2 s t v point Hwf) as (Hl' & Hno1 & Hno2); [lia|].
    rewrite length_app in Hcap. cbn [length] in Hcap.
    assert (Hlen : length (al_remove s (l1 ++ (s, mkRange s t v) :: l2)) = (length l1 + length l2)%nat).
    { pose proof (ranges_wf_sorted _ _ Hwf) as (_ & _ & Hb1 & Ha1)%sorted_middle. rewrite al_remove_here by done. apply length_app. }
    destruct (insert_ok m1 _ s point v Hok1) as (m2 & -> & Hok2); [lia|lia|lia|done|]. mstep.
    destruct (insert_ok m2 _ point t v Hok2) as (m3 & -> & Hok3); [rewrite length_al_insert; lia|lia|lia|done|]. mstep.
    rewrite Hl' in Hok3. eexists true, m3, _. split; [done|]. split; [exact Hok3|]. pose proof Hok3 as [_ Hwf3].
    split; [intros p; symmetry; symmetry; apply value_at_merge; [lia|done]|].
    destruct (Z.ltb_spec s point); [|lia]. split; [done|].
    split; (apply (at_point_spec 0); [done|]); cbn [rstart rend]; (split; [apply elem_of_app; right|lia]); [right; left|left].
  - assert (Hnone : match at_point l point with Some e => rstart e = point | None => True end).
    { destruct (at_point l point) as [e|] eqn:He; [|done]. apply (at_point_spec 0) in He as [Hin Hp]; [|done].
      apply list_elem_of_In in Hin. pose proof (find_none _ _ Hf _ Hin) as Hn. simpl in Hn.
      destruct (Z.ltb_spec (rstart e) point), (Z.ltb_spec point (rend e)); simpl in Hn; lia || done. }
    exists false, m, l. split; [done|]. split; [done|]. split; [done|].
    destruct (at_point l point) as [e|]; [|done]. destruct (Z.ltb_spec (rstart e) point); [lia|done].
Qed.

(** Removing two neighbours and inserting their union. *)
Lemma merge_list l1 l2 s c t v w :
  ranges_wf 0 (l1 ++ (s, mkRange s c v) :: (c, mkRange c t w) :: l2) ->
  let l := l1 ++ (s, mkRange s c v) :: (c, mkRange c t w) :: l2 in
  al_insert s (mkRange s t v) (al_remove c (al_remove s l)) = l1 ++ (s, mkRange s t v) :: l2 /\
  no_overlap (al_remove c (al_remove s l)) s t /\ al_lookup s l = Some (mkRange s c v) /\ s < c < t.
Proof.
  intros Hwf l. pose proof (ranges_wf_sorted _ _ Hwf) as Hs. pose proof Hs as (Hs1 & Hs2 & Hb & Ha)%sorted_middle.
  destruct Hs2 as [Hac Hs2]. simpl in Hb, Ha, Hac. apply Forall_cons in Ha as [Hsc Ha]. simpl in Hsc.
  assert (Hbc : below c l1) by (eapply below_trans; [|exact Hb]; lia).
  assert (Hrm : al_remove c (al_remove s l) = l1 ++ l2).
  { unfold l. rewrite (al_remove_here s) by (done || by constructor). by rewrite al_remove_here. }
  destruct (ranges_wf_app _ _ _ _ _ Hwf) as (_ & H1 & H2 & H3 & H4 & H5). simpl in H1, H2, H3, H4, H5.
  destruct H5 as (_ & H5 & H6). simpl in H5, H6. rewrite Hrm. split; [by apply al_insert_middle|].
  split; [|split; [by apply al_lookup_here|lia]]. apply Forall_app. split.
  - eapply Forall_impl; [exact H3|]. intros q Hq. unfold apart. simpl in *. lia.
  - eapply Forall_impl; [apply (ranges_wf_above _ _ H6)|]. intros q Hq. unfold apart. simpl in *. lia.
Qed.

Section MergeProofs.
Context (veq : V -> V -> bool) (Hveq : forall v w, veq v w = true -> v = w).

(** Two neighbours that [merge_adjacent_equal] joins. *)
Definition joinable (a b : Z * Z * V) : bool := (a.1.2 =? b.1.1) && veq a.2 b.2.

Lemma find_pair_spec {A} (f : A -> A -> bool) (xs : list A) :
  match find_pair f xs with
  | Some (x, y) => exists xs1 xs2, xs = xs1 ++ x :: y :: xs2 /\ f x y = true
  | None => True
  end.
Proof.
  induction xs as [|x [|y xs] IH]; [done|done|].
  change (find_pair f (x :: y :: xs)) with (if f x y then Some (x, y) else find_pair f (y :: xs)).
  destruct (f x y) eqn:Hf; [by exists [], xs|].
  destruct (find_pair f (y :: xs)) as [[a b]|]; [|done]. destruct IH as (l1 & l2 & Heq & Hab).
  exists (x :: l1), l2. by rewrite Heq.
Qed.

Lemma merge_adjacent_loop_ok fuel m l count :
  mt_ok m l -> (length l < fuel)%nat -> (length l <= om_cap)%nat -> 0 <= count -> count + Z.of_nat (length l) < u64_size ->
  exists n m' l', merge_loop veq fuel m count = Ret (count + n, m') /\ mt_ok m' l' /\
    (forall p, value_at l' p = value_at l p) /\ Z.of_nat (length l') = Z.of_nat (length l) - n /\ 0 <= n /\
    find_pair joinable (map (fun kv => triple kv.2) l') = None.
Proof.
  revert m l count. induction fuel as [|fuel IH]; intros m l count Hok Hf Hcap Hc0 Hc; [lia|].
  pose proof Hok as [Hr Hwf]. cbn [merge_loop]. rewrite (om_iter_ok m l Hr). mstep.
  assert (Hsort : sort_by_key (fun r : Z * Z * V => r.1.1) (map (fun kv => triple kv.2) l) = map (fun kv => triple kv.2) l).
  { apply sort_sorted. clear -Hwf. revert Hwf. generalize 0. induction l as [|[k e] l IH]; intros lo Hwf; [constructor|].
    destruct Hwf as (-> & Hb & Hwf). constructor; [by apply (IH (rend e))|].
    apply Forall_fmap, Forall_forall. intros [k' e'] Hin. destruct (ranges_wf_elem _ _ _ _ Hwf Hin). simpl. lia. }
  rewrite Hsort. fold joinable. pose proof (find_pair_spec joinable (map (fun kv => triple kv.2) l)) as Hfp.
  change (fun a b : Z * Z * V => (a.1.2 =? b.1.1) && veq a.2 b.2) with joinable.
  destruct (find_pair joinable _) as [[[[s1 e1] v1] [[s2 e2] v2]]|] eqn:Hpair.
  2: { exists 0, m, l. rewrite Z.add_0_r, Z.sub_0_r. done. }
  destruct Hfp as (q1 & q2 & Heq & Hj). apply andb_prop in Hj as [Hj1%Z.eqb_eq Hj2%Hveq]. simpl in Hj1, Hj2. subst s2 v2.
  apply fmap_app_inv in Heq as (l1 & lr & -> & Hlr & ->). destruct lr as [|[k1 x1] [|[k2 x2] l2]]; try done.
  destruct x1 as [s1' e1' v1'], x2 as [s2' e2' v2']. simpl in Hlr. injection Hlr as E1 E2 E3 E4 E5 E6 _.
  subst s1' e1' v1' s2' e2' v2'.
  assert (k1 = s1 /\ k2 = e1) as [-> ->].
  { split; [apply (ranges_wf_elem _ _ k1 (mkRange s1 e1 v1) Hwf)|apply (ranges_wf_elem _ _ k2 (mkRange e1 e2 v1) Hwf)];
      apply elem_of_app; right; [left|right; left]. }
  destruct (merge_list _ _ _ _ _ _ _ Hwf) as (Hl' & Hno & Hlk & Hlt).
  destruct (remove_ok m _ s1 Hok) as (m1 & -> & Hok1). mstep. rewrite Hlk. cbn [option_map].
  destruct (remove_ok m1 _ e1 Hok1) as (m2 & -> & Hok2). mstep.
  pose proof (length_al_insert s1 (mkRange s1 e2 v1) (al_remove e1 (al_remove s1 (l1 ++ (s1, mkRange s1 e1 v1) :: (e1, mkRange e1 e2 v1) :: l2)))) as Hlen.
  rewrite Hl', !length_app in Hlen. rewrite length_app in Hf, Hcap, Hc. cbn [length] in Hlen, Hf, Hcap, Hc.
  destruct (insert_ok m2 _ s1 e2 v1 Hok2) as (m3 & -> & Hok3); [lia| |  |done|].
  { destruct (ranges_wf_app _ _ _ _ _ Hwf) as (_ & H1 & _). simpl in H1. lia. }
  { destruct (ranges_wf_app _ _ _ _ _ Hwf) as (_ & _ & _ & _ & _ & H5). destruct H5 as (_ & H5 & _). simpl in H5. lia. }
  mstep. rewrite Hl' in Hok3. rewrite add64_small by lia.
  destruct (IH m3 _ (count + 1) Hok3) as (n & m' & l' & Hrun & Hok' & Hval & Hll & Hn & Hnone); try (rewrite length_app; cbn [length]); try lia.
  exists (n + 1), m', l'. rewrite Hrun. split; [f_equal; f_equal; lia|]. split; [done|]. split.
  - intros p. rewrite Hval. symmetry. by apply value_at_merge.
  - rewrite length_app in *. cbn [length] in *. split; [lia|]. split; [lia|done].
Qed.

(** [merge_adjacent_equal] ends, changes the value of no point, returns the number of
    intervals it has removed, and leaves no two neighbours that touch and have equal
    values. *)
Theorem merge_adjacent_equal_normalizes m l :
  mt_ok m l -> (length l <= om_cap)%nat -> Z.of_nat (length l) < u64_size ->
  exists n m' l', merge_adjacent_equal veq m = Ret (n, m') /\ mt_ok m' l' /\
    (forall p, value_at l' p = value_at l p) /\ Z.of_nat (length l') = Z.of_nat (length l) - n /\
    find_pair joinable (map (fun kv => triple kv.2) l') = None.
Proof.
  intros Hok Hcap Hlen. unfold merge_adjacent_equal. pose proof Hok as [Hr _]. rewrite (om_len_ok m l Hr), Nat2Z.id.
  destruct (merge_adjacent_loop_ok (S (length l)) m l 0 Hok) as (n & m' & l' & Hrun & H1 & H2 & H3 & _ & H4); try lia.
  exists n, m', l'. done.
Qed.
End MergeProofs.

(** ** Moving the start of an interval *)
Lemma existsb_others lo l k s t :
  ranges_wf lo l ->
  existsb (fun kv => negb (rstart kv.2 =? k) && intersects s t kv.2) l = false <-> no_overlap (al_remove k l) s t.
Proof.
  revert lo. induction l as [|[k' e] l IH]; intros lo; [split; [constructor|done]|]. intros (-> & _ & Hwf).
  cbn [existsb snd]. rewrite orb_false_iff, (IH _ Hwf). unfold al_remove. rewrite filter_cons. cbn [fst].
  destruct (Z.eqb_spec (rstart e) k); cbn [negb andb].
  - rewrite decide_False by (simpl; congruence). tauto.
  - rewrite decide_True by done. unfold no_overlap. rewrite Forall_cons, intersects_false. done.
Qed.

Lemma move_start_cases m l old_start new_start :
  mt_ok m l -> (length l <= om_cap)%nat -> 0 <= new_start ->
  (exists err, move_start m old_start new_start = Ret (Err err, m)) \/
  (exists e m', al_lookup old_start l = Some e /\ new_start < rend e /\
     no_overlap (al_remove old_start l) new_start (rend e) /\
     move_start m old_start new_start = Ret (Ok (old_start, rend e), m') /\
     mt_ok m' (al_insert new_start (mkRange new_start (rend e) (rvalue e)) (al_remove old_start l))).
Proof.
  intros Hok Hcap Hnew. pose proof Hok as [Hr Hwf]. unfold move_start. rewrite (om_get_ok m l _ Hr). mstep.
  destruct (al_lookup old_start l) as [e|] eqn:Hl; [|left; by eexists].
  destruct (Z.leb_spec (rend e) new_start) as [|Hlt]; [left; by eexists|].
  rewrite (om_iter_ok m l Hr). mstep. destruct (existsb _ l) eqn:Hex; [left; by eexists|].
  apply (existsb_others 0) in Hex; [|done]. right.
  destruct (om_remove_ok m l old_start Hr) as (m1 & -> & Hr1). mstep. rewrite Hl.
  pose proof (ranges_wf_remove 0 l old_start Hwf) as Hwf1.
  assert (Hend : rend e < u64_size).
  { apply al_lookup_elem in Hl; [|by eapply ranges_wf_sorted]. by destruct (ranges_wf_elem _ _ _ _ Hwf Hl) as (_ & _ & ?). }
  assert (Hlen : (length (al_remove old_start l) < om_cap)%nat).
  { pose proof (ranges_wf_sorted _ _ Hwf) as Hs. rewrite <- (al_insert_remove old_start e l Hs Hl), length_al_insert in Hcap. lia. }
  destruct (om_insert_ok m1 (al_remove old_start l) new_start (mkRange new_start (rend e) (rvalue e)) Hr1 Hlen) as (m2 & -> & Hr2).
  { by apply (no_overlap_fresh 0 _ new_start (rend e)). }
  mstep. exists e, m2. do 4 (split; [done|]). split; [done|]. apply ranges_wf_insert; [done|lia|done|done].
Qed.

Lemma lower_bound_ok m l start :
  mt_ok m l ->
  lower_bound m start = Ret (option_map (fun kv => triple kv.2) (List.find (fun kv => start <=? rstart kv.2) l)).
Proof. intros [Hr _]. unfold lower_bound. by rewrite (om_iter_ok m l Hr). Qed.

Lemma iter_intersecting_ok m l s t :
  mt_ok m l ->
  iter_intersecting m s t =
  Ret (map (fun kv => triple kv.2) (filter (fun kv => intersects s t kv.2 = true) l)).
Proof. intros [Hr _]. unfold iter_intersecting. by rewrite (om_iter_ok m l Hr). Qed.

(** No interval is listed as intersecting exactly when there is no overlap. *)
Lemma iter_intersecting_nil l s t :
  filter (fun kv => intersects s t kv.2 = true) l = [] <-> no_overlap l s t.
Proof.
  unfold no_overlap. induction l as [|kv l IH]; [split; [constructor|done]|].
  rewrite filter_cons, Forall_cons. pose proof (intersects_false s t kv.2) as Hi. fold (apart s t kv) in Hi.
  destruct (intersects s t kv.2) eqn:He; destruct (decide _); try done.
  - split; [done|]. intros [Hap _]. apply Hi in Hap. done.
  - rewrite IH. tauto.
Qed.
End Laws.

(** ** Witnesses on the B-tree *)
Definition ex_tree : exec (BTree (RangeEntry Z)) :=
  '(_, t1) ← insert new 4096 8192 1; '(_, t2) ← insert t1 12288 16384 2; Ret t2.

Definition ex_list : list (Z * RangeEntry Z) := [(4096, mkRange 4096 8192 1); (12288, mkRange 12288 16384 2)].

Definition ex_maple : BTree (RangeEntry Z) :=
  mkBTree (mkNode true [4096; 12288] [mkRange 4096 8192 1; mkRange 12288 16384 2] []) 2.

Lemma ex_tree_runs : ex_tree = Ret ex_maple.
Proof. vm_compute. reflexivity. Qed.

Lemma ex_maple_ok : mt_ok ex_maple ex_list.
Proof.
  split; [|simpl; lia]. left. split; [|reflexivity|simpl; repeat constructor; simpl; lia|reflexivity].
  apply wf_leaf. exists ex_list. split; [reflexivity|]. unfold MAX_KEYS, B. simpl. lia.
Qed.

Lemma insert_adds_exactly_the_interval_witness :
  exists m', insert ex_maple 8192 12288 3 = Ret (Ok None, m') /\
    forall p, find m' p = if (8192 <=? p) && (p <? 12288) then Ret (Some (8192, 12288, 3)) else find ex_maple p.
Proof.
  destruct (insert_adds_exactly_the_interval ex_maple ex_list 8192 12288 3 ex_maple_ok ltac:(vm_compute; lia) ltac:(lia) ltac:(lia))
    as [[H _]|[(_ & _ & H)|(_ & m' & H1 & _ & H2)]]; [lia|vm_compute in H; discriminate|].
  exists m'. split; [exact H1|exact H2].
Defined.

Lemma find_gap_first_fit_witness :
  find_gap ex_maple 8192 4096 65536 = Ret (Some 16384) /\ gap_at ex_list 8192 4096 65536 16384 /\
  forall x, gap_at ex_list 8192 4096 65536 x -> 16384 <= x.
Proof.
  destruct (find_gap_first_fit ex_maple ex_list 8192 4096 65536 ex_maple_ok ltac:(lia) ltac:(lia) ltac:(lia) ltac:(lia))
    as (r & H1 & H2). vm_compute in H1. injection H1 as <-. split; [vm_compute; reflexivity|exact H2].
Defined.

Lemma replace_is_atomic_witness :
  exists m', replace ex_maple 4096 12289 7 = Ret (Err Overlap, m') /\ forall p, find m' p = find ex_maple p.
Proof.
  destruct (replace_is_atomic ex_maple ex_list 4096 12289 7 ex_maple_ok ltac:(vm_compute; lia) ltac:(lia) ltac:(lia))
    as (r & m' & H1 & _ & H2). exists m'. vm_compute in H1. injection H1 as <- <-.
  split; [vm_compute; reflexivity|exact H2].
Defined.

Lemma split_at_preserves_values_witness :
  exists m' l', split_at ex_maple 6000 = Ret (true, m') /\ mt_ok m' l' /\
    (forall p, value_at l' p = value_at ex_list p) /\ at_point l' 6000 = Some (mkRange 6000 8192 1).
Proof.
  destruct (split_at_preserves_values ex_maple ex_list 6000 ex_maple_ok ltac:(vm_compute; lia))
    as (b & m' & l' & H1 & H2 & H3 & H4). exists m', l'. vm_compute in H4. destruct H4 as (-> & H4 & _).
  split; [exact H1|]. split; [exact H2|]. split; [exact H3|exact H4].
Defined.

Lemma merge_adjacent_equal_normalizes_witness :
  exists m' l', merge_adjacent_equal Z.eqb ex_maple = Ret (0, m') /\ mt_ok m' l' /\
    (forall p, value_at l' p = value_at ex_list p) /\ find_pair (joinable Z.eqb) (map (fun kv => triple kv.2) l') = None.
Proof.
  destruct (merge_adjacent_equal_normalizes Z.eqb ltac:(intros v w H; apply Z.eqb_eq; exact H) ex_maple ex_list ex_maple_ok
    ltac:(vm_compute; lia) ltac:(simpl; lia)) as (n & m' & l' & H1 & H2 & H3 & _ & H4).
  exists m', l'. vm_compute in H1. injection H1 as <- <-. split; [vm_compute; reflexivity|]. split; [exact H2|]. split; assumption.
Defined.

(** A window too small for the request, below the first interval: the search answers with
    an address whose block leaves the window. *)
Example find_gap_exceeds_window :
  find_gap ex_maple 2000 0 1000 = Ret (Some 0) /\ find_gap (@new (BTree (RangeEntry Z)) Z _) 2000 0 1000 = Ret None.
Proof. split; vm_compute; reflexivity. Qed.
