(* ===== verification/Vma.v ===== *)
(** * Virtual memory areas: kernel/src/mm/virt/vma.rs

    The address space [Mm] of a process: the interval tree of its areas, the layout
    (break, stack, mmap base) and the page counters.  Every public method takes the
    lock of the [Mm] and calls the [_nolock] variant; the definitions are these bodies,
    run as one step.  Page tables, file backings and reference counts of the address
    space are not part of the model. *)

From S2P Require Import Prelude OrdMap BTree MapleTree.

Definition PAGE_SIZE : Z := 4096.
Definition USER_SPACE_START : Z := 0x400000.
Definition USER_SPACE_END : Z := 0x800000000000.
Definition USER_STACK_TOP : Z := 0x7FFFFFFFF000.
Definition USER_STACK_SIZE : Z := 0x800000.
Definition USER_MMAP_BASE : Z := 0x7FFFF0000000.

(** ** VmFlags *)
Definition READ : Z := 1.
Definition WRITE : Z := 2.
Definition EXEC : Z := 4.
Definition SHARED : Z := 8.
Definition ANONYMOUS : Z := 16.
Definition GROWSDOWN : Z := 32.
Definition HEAP : Z := 64.
Definition CODE : Z := 128.
Definition DATA : Z := 256.
Definition BSS : Z := 512.
Definition LOCKED : Z := 1024.
Definition IO : Z := 2048.
Definition HUGETLB : Z := 4096.
Definition DONTMERGE : Z := 8192.
Definition DONTEXPAND : Z := 16384.
Definition MAYWRITE : Z := 32768.

Definition flags_contain (flags flag : Z) : bool := Z.land flags flag =? flag.
Definition flags_set (flags flag : Z) : Z := Z.lor flags flag.
Definition flags_clear (flags flag : Z) : Z := Z.land flags (not64 flag).
Definition is_read (flags : Z) : bool := flags_contain flags READ.
Definition is_write (flags : Z) : bool := flags_contain flags WRITE.
Definition is_exec (flags : Z) : bool := flags_contain flags EXEC.
Definition is_anonymous (flags : Z) : bool := flags_contain flags ANONYMOUS.
Definition is_shared (flags : Z) : bool := flags_contain flags SHARED.

Definition to_user_pte_flags (flags : Z) : Z :=
  let pte := 1 in
  let pte := if is_write flags then Z.lor pte (Z.shiftl 1 1) else pte in
  let pte := if negb (is_exec flags) then Z.lor pte (Z.shiftl 1 63) else pte in
  Z.lor pte (Z.shiftl 1 2).

(** ** Areas *)
Record VmaInfo := mkVmaInfo { vi_flags : Z; vi_pgoff : Z; vi_file : Z; vi_private_data : Z }.
Definition VmaInfo_new (flags : Z) : VmaInfo := mkVmaInfo flags 0 0 0.

Record Vma := mkVma {
  vm_start : Z; vm_end : Z; vm_flags : Z; vm_pgoff : Z; vm_file : Z; vm_private_data : Z
}.

Definition from_tree (start end_ : Z) (info : VmaInfo) : Vma :=
  mkVma start end_ (vi_flags info) (vi_pgoff info) (vi_file info) (vi_private_data info).
Definition vma_size (v : Vma) : Z := sub64 (vm_end v) (vm_start v).
Definition vma_nr_pages (v : Vma) : Z := vma_size v / PAGE_SIZE.
Definition vma_contains (v : Vma) (addr : Z) : bool := (vm_start v <=? addr) && (addr <? vm_end v).
Definition vma_overlaps (v : Vma) (start end_ : Z) : bool := (vm_start v <? end_) && (start <? vm_end v).

Definition page_align_up (addr : Z) : Z :=
  Z.land (sub64 (add64 addr PAGE_SIZE) 1) (not64 (PAGE_SIZE - 1)).


(** ** mmap flags *)
Definition MAP_SHARED : Z := 0x01.
Definition MAP_PRIVATE : Z := 0x02.
Definition MAP_FIXED : Z := 0x10.
Definition MAP_ANONYMOUS : Z := 0x20.
Definition MAP_GROWSDOWN : Z := 0x0100.
Definition MAP_LOCKED : Z := 0x2000.
Definition MAP_HUGETLB : Z := 0x40000.
Definition PROT_READ : Z := 0x1.
Definition PROT_WRITE : Z := 0x2.
Definition PROT_EXEC : Z := 0x4.

Definition mmap_flags_to_vm_flags (prot flags : Z) : Z :=
  let vm := 0 in
  let vm := if negb (Z.land prot PROT_READ =? 0) then flags_set vm READ else vm in
  let vm := if negb (Z.land prot PROT_WRITE =? 0) then flags_set (flags_set vm WRITE) MAYWRITE else vm in
  let vm := if negb (Z.land prot PROT_EXEC =? 0) then flags_set vm EXEC else vm in
  let vm := if negb (Z.land flags MAP_SHARED =? 0) then flags_set vm SHARED else vm in
  let vm := if negb (Z.land flags MAP_ANONYMOUS =? 0) then flags_set vm ANONYMOUS else vm in
  let vm := if negb (Z.land flags MAP_GROWSDOWN =? 0) then flags_set vm GROWSDOWN else vm in
  let vm := if negb (Z.land flags MAP_LOCKED =? 0) then flags_set vm LOCKED else vm in
  if negb (Z.land flags MAP_HUGETLB =? 0) then flags_set vm HUGETLB else vm.

Definition user_vma_intersection (start end_ : Z) : option (Z * Z) :=
  let clipped_start := Z.max start USER_SPACE_START in
  let clipped_end := Z.min end_ USER_SPACE_END in
  if clipped_start <? clipped_end then Some (clipped_start, clipped_end) else None.

(** The messages of [do_brk]. *)
Inductive BrkError := BrkBelowStart | BrkConflict | BrkExpansionFailed | BrkCreateFailed | BrkShrinkFailed.

Section Mm.
Context {M : Type} `{Hops : OrdMapOps M (RangeEntry VmaInfo)}.

(** The reference counts [mm_count] and [mm_users], the lock and the fields that only
    [execve] writes (code, data, argument and environment bounds, the locked, shared and
    data counters) are left out. *)
Record Mm := mkMm {
  vma_tree : M;
  vma_count : Z;
  pgd : Z;
  start_brk : Z;
  brk : Z;
  start_stack : Z;
  mmap_base : Z;
  mmap_legacy_base : Z;
  total_vm : Z;
  exec_vm : Z;
  stack_vm : Z
}.

Definition set_tree (mm : Mm) (t : M) : Mm :=
  mkMm t (vma_count mm) (pgd mm) (start_brk mm) (brk mm) (start_stack mm) (mmap_base mm)
    (mmap_legacy_base mm) (total_vm mm) (exec_vm mm) (stack_vm mm).
Definition set_counts (mm : Mm) (count total exec_ stack : Z) : Mm :=
  mkMm (vma_tree mm) count (pgd mm) (start_brk mm) (brk mm) (start_stack mm) (mmap_base mm)
    (mmap_legacy_base mm) total exec_ stack.
Definition set_brk (mm : Mm) (b : Z) : Mm :=
  mkMm (vma_tree mm) (vma_count mm) (pgd mm) (start_brk mm) b (start_stack mm) (mmap_base mm)
    (mmap_legacy_base mm) (total_vm mm) (exec_vm mm) (stack_vm mm).

Definition stack_top_addr (mm : Mm) : Z :=
  if negb (start_stack mm =? 0) then start_stack mm else USER_STACK_TOP.
Definition stack_expand_min_addr (mm : Mm) : Z := saturating_sub64 (stack_top_addr mm) USER_STACK_SIZE.

Definition uninit : Mm := mkMm new 0 0 0 0 0 0 0 0 0 0.

Definition init (mm : Mm) (pgd_ : Z) : Mm :=
  mkMm (vma_tree mm) 0 pgd_ (start_brk mm) (brk mm) (start_stack mm) USER_MMAP_BASE USER_MMAP_BASE
    (total_vm mm) (exec_vm mm) (stack_vm mm).

Definition find_vma (mm : Mm) (addr : Z) : exec (option Vma) :=
  r ← find (vma_tree mm) addr;
  Ret (option_map (fun '(s, e, info) => from_tree s e info) r).

Definition find_vma_flags (mm : Mm) (addr : Z) : exec (option Z) :=
  r ← find (vma_tree mm) addr;
  Ret (option_map (fun '(_, _, info) => vi_flags info) r).

Definition find_vma_intersection (mm : Mm) (start end_ : Z) : exec (option Vma) :=
  r ← iter_intersecting (vma_tree mm) start end_;
  Ret (option_map (fun '(s, e, info) => from_tree s e info) (head r)).

Definition find_free_area (mm : Mm) (hint size : Z) : exec (option Z) :=
  let size := page_align_up size in
  let hint := page_align_up hint in
  let user_start := USER_SPACE_START in
  let limit := saturating_sub64 USER_SPACE_END PAGE_SIZE in
  let hint := if (hint =? 0) || (hint <? user_start) then user_start else hint in
  find_gap (vma_tree mm) size hint limit.

Definition insert_vma (mm : Mm) (start end_ : Z) (info : VmaInfo) : exec (bool * Mm) :=
  let nr_pages := sub64 end_ start / PAGE_SIZE in
  let flags := vi_flags info in
  '(r, t) ← insert (vma_tree mm) start end_ info;
  match r with
  | Err _ => Ret (false, set_tree mm t)
  | Ok _ =>
      Ret (true, set_counts (set_tree mm t) (add32 (vma_count mm) 1) (add64 (total_vm mm) nr_pages)
                   (if flags_contain flags EXEC then add64 (exec_vm mm) nr_pages else exec_vm mm)
                   (if flags_contain flags GROWSDOWN then add64 (stack_vm mm) nr_pages else stack_vm mm))
  end.

Definition remove_vma (mm : Mm) (start : Z) : exec (option (Z * VmaInfo) * Mm) :=
  '(r, t) ← remove (vma_tree mm) start;
  match r with
  | None => Ret (None, set_tree mm t)
  | Some (end_, info) =>
      let nr_pages := sub64 end_ start / PAGE_SIZE in
      Ret (Some (end_, info),
           set_counts (set_tree mm t) (sub32 (vma_count mm) 1) (sub64 (total_vm mm) nr_pages)
             (if flags_contain (vi_flags info) EXEC then sub64 (exec_vm mm) nr_pages else exec_vm mm)
             (if flags_contain (vi_flags info) GROWSDOWN then sub64 (stack_vm mm) nr_pages else stack_vm mm))
  end.

Definition heap_flags : Z :=
  flags_set (flags_set (flags_set (flags_set (flags_set 0 READ) WRITE) MAYWRITE) ANONYMOUS) HEAP.

Definition set_total (mm : Mm) (total : Z) : Mm :=
  set_counts mm (vma_count mm) total (exec_vm mm) (stack_vm mm).

Definition brk_create (mm : Mm) (old_brk new_brk : Z) : exec (Result unit BrkError * Mm) :=
  '(ok, mm') ← insert_vma mm old_brk new_brk (VmaInfo_new heap_flags);
  if (ok : bool) then Ret (Ok tt, mm') else Ret (Err BrkCreateFailed, mm').

(** The growing branch of [do_brk]. *)
Definition brk_expand (mm : Mm) (old_brk new_brk : Z) : exec (Result unit BrkError * Mm) :=
  conflict ← find_vma_intersection mm old_brk new_brk;
  match conflict with
  | Some _ => Ret (Err BrkConflict, mm)
  | None =>
      let heap_start := saturating_sub64 old_brk 1 in
      found ← find (vma_tree mm) heap_start;
      match found with
      | Some (start, old_end, info) =>
          if flags_contain (vi_flags info) HEAP then
            let delta := saturating_sub64 new_brk old_end / PAGE_SIZE in
            '(r, t) ← replace (vma_tree mm) start new_brk info;
            match r with
            | Ok _ => Ret (Ok tt, set_total (set_tree mm t) (add64 (total_vm mm) delta))
            | Err _ => Ret (Err BrkExpansionFailed, set_tree mm t)
            end
          else brk_create mm old_brk new_brk
      | None => brk_create mm old_brk new_brk
      end
  end.

(** The shrinking branch of [do_brk]. *)
Definition brk_shrink (mm : Mm) (old_brk new_brk : Z) : exec (Result unit BrkError * Mm) :=
  found ← find (vma_tree mm) new_brk;
  match found with
  | Some (start, _, info) =>
      if flags_contain (vi_flags info) HEAP && (start <=? new_brk) then
        let delta := sub64 old_brk new_brk / PAGE_SIZE in
        '(r, t) ← replace (vma_tree mm) start new_brk info;
        match r with
        | Ok _ => Ret (Ok tt, set_total (set_tree mm t) (sub64 (total_vm mm) delta))
        | Err _ => Ret (Err BrkShrinkFailed, set_tree mm t)
        end
      else Ret (Ok tt, mm)
  | None => Ret (Ok tt, mm)
  end.

Definition do_brk (mm : Mm) (new_brk : Z) : exec (Result Z BrkError * Mm) :=
  let new_brk := page_align_up new_brk in
  let old_brk := brk mm in
  if new_brk <? start_brk mm then Ret (Err BrkBelowStart, mm)
  else if new_brk =? old_brk then Ret (Ok old_brk, mm)
  else
    '(r, mm') ← (if old_brk <? new_brk then brk_expand mm old_brk new_brk
                 else brk_shrink mm old_brk new_brk);
    match r with
    | Err e => Ret (Err e, mm')
    | Ok _ => Ret (Ok new_brk, set_brk mm' new_brk)
    end.

Definition expand_stack (mm : Mm) (vma_start new_start : Z) : exec (bool * Mm) :=
  let old_start := vma_start in
  if old_start <=? new_start then Ret (false, mm)
  else
    '(r, t) ← move_start (vma_tree mm) old_start new_start;
    if is_ok r then
      let delta := sub64 old_start new_start / PAGE_SIZE in
      Ret (true, set_counts (set_tree mm t) (vma_count mm) (add64 (total_vm mm) delta) (exec_vm mm)
                   (add64 (stack_vm mm) delta))
    else Ret (false, set_tree mm t).

Definition expand_stack_for_fault (mm : Mm) (fault_addr : Z) : exec (option Vma * Mm) :=
  let page_addr := Z.land fault_addr (not64 (PAGE_SIZE - 1)) in
  let stack_top := stack_top_addr mm in
  let stack_min := stack_expand_min_addr mm in
  let stack_bottom := saturating_sub64 stack_top (mul64 (stack_vm mm) PAGE_SIZE) in
  if (page_addr <? stack_min) || (stack_bottom <=? page_addr) then Ret (None, mm)
  else
    stack_info ← lower_bound (vma_tree mm) page_addr;
    match stack_info with
    | Some (s, _, info) =>
        if flags_contain (vi_flags info) GROWSDOWN && (page_addr <? s) then
          '(ok, mm') ← expand_stack mm s page_addr;
          if (ok : bool) then v ← find_vma mm' page_addr; Ret (v, mm') else Ret (None, mm')
        else Ret (None, mm)
    | None => Ret (None, mm)
    end.
End Mm.
Arguments Mm M : clear implicits.

(** ** Page counting *)
Abbreviation area := (RangeEntry VmaInfo).
Definition pages (e : area) : Z := (rend e - rstart e) / PAGE_SIZE.
Definition has_flag (f : Z) (e : area) : bool := flags_contain (vi_flags (rvalue e)) f.
Definition stack_pages (e : area) : Z := if has_flag GROWSDOWN e then pages e else 0.

Definition sumw (w : area -> Z) (l : list (Z * area)) : Z := foldr (fun kv acc => w kv.2 + acc) 0 l.

Lemma sumw_app w l1 l2 : sumw w (l1 ++ l2) = sumw w l1 + sumw w l2.
Proof. induction l1 as [|kv l1 IH]; [done|]. unfold sumw in *. simpl. lia. Qed.

Lemma sumw_insert w k e l : sumw w (al_insert k e l) = w e + sumw w l.
Proof.
  induction l as [|[k' e'] l IH]; [done|]. cbn [al_insert]. destruct (k <? k'); [done|].
  change (w e' + sumw w (al_insert k e l) = w e + (w e' + sumw w l)). lia.
Qed.

Lemma sumw_remove w k e l :
  sorted l -> al_lookup k l = Some e -> sumw w (al_remove k l) = sumw w l - w e.
Proof.
  intros Hs Hl. pose proof (sumw_insert w k e (al_remove k l)) as Hi.
  rewrite (al_insert_remove k e l Hs Hl) in Hi. lia.
Qed.

Lemma pages_bounds e : rstart e < rend e -> 0 <= pages e <= rend e - rstart e.
Proof.
  intros. unfold pages, PAGE_SIZE. split; [apply Z.div_pos; lia|].
  apply Z.div_le_upper_bound; lia.
Qed.

(** Disjoint areas never have more pages than addresses. *)
Lemma sumw_bounds w lo l :
  (forall e, rstart e < rend e -> 0 <= w e <= pages e) -> ranges_wf lo l -> 0 <= lo < u64_size ->
  0 <= sumw w l < u64_size - lo.
Proof.
  intros Hw. revert lo. induction l as [|[k e] l IH]; intros lo Hwf Hlo; [unfold sumw; simpl; lia|].
  destruct Hwf as (-> & Hb & Hwf). specialize (IH _ Hwf ltac:(lia)). pose proof (Hw e ltac:(lia)).
  pose proof (pages_bounds e ltac:(lia)). change (sumw w ((rstart e, e) :: l)) with (w e + sumw w l). lia.
Qed.

Lemma stack_pages_bounds e : rstart e < rend e -> 0 <= stack_pages e <= pages e.
Proof. intros H. pose proof (pages_bounds e H). unfold stack_pages. destruct (has_flag _ e); lia. Qed.

Lemma page_align_up_spec a :
  0 <= a -> a + PAGE_SIZE <= u64_size ->
  (PAGE_SIZE | page_align_up a) /\ a <= page_align_up a < a + PAGE_SIZE.
Proof.
  intros Ha Hu. unfold page_align_up, PAGE_SIZE in *.
  assert (sub64 (add64 a 4096) 1 = a + 4096 - 1) as ->.
  { unfold sub64, add64. rewrite Zminus_mod_idemp_l. apply Z.mod_small. lia. }
  change (4096 - 1) with (2 ^ 12 - 1). rewrite land_not_mask by (unfold in_u64; lia). change (2 ^ 12) with 4096.
  pose proof (Z.div_mod (a + 4096 - 1) 4096). pose proof (Z.mod_pos_bound (a + 4096 - 1) 4096).
  split; [apply Z.divide_factor_l|lia].
Qed.

(** ** The invariant of an address space *)
Section Invariant.
Context {M : Type} `{HM : OrdMap M (RangeEntry VmaInfo)}.
Implicit Types (mm : Mm M) (l : list (Z * area)).

Definition page_aligned l : Prop :=
  Forall (fun kv => (PAGE_SIZE | rstart kv.2) /\ (PAGE_SIZE | rend kv.2)) l.

(** The tree and the counters agree with the areas [l]. *)
Record areas_ok mm l : Prop := {
  ok_tree : mt_ok (vma_tree mm) l;
  ok_count : vma_count mm = Z.of_nat (length l);
  ok_cap : (length l <= om_cap)%nat;
  ok_small : Z.of_nat (length l) < 4294967295;
  ok_total : total_vm mm = sumw pages l;
  ok_stack : stack_vm mm = sumw stack_pages l;
  ok_aligned : page_aligned l
}.

(** The heap is one area from [start_brk] to [brk], absent when the two are equal. *)
Record heap_ok mm l : Prop := {
  ok_brk_aligned : (PAGE_SIZE | brk mm) /\ (PAGE_SIZE | start_brk mm);
  ok_brk_order : 0 <= start_brk mm <= brk mm /\ brk mm < u64_size;
  ok_heap_area : forall k e, (k, e) ∈ l -> has_flag HEAP e = true ->
    rstart e = start_brk mm /\ rend e = brk mm /\ has_flag GROWSDOWN e = false;
  ok_heap_present : brk mm <> start_brk mm -> exists e, (rstart e, e) ∈ l /\ has_flag HEAP e = true
}.

Definition mm_ok mm l : Prop := areas_ok mm l /\ heap_ok mm l.

(** What stays true of the heap after its area was removed: a heap area that begins below
    the break ends at it. *)
Record brk_ok mm l : Prop := {
  bo_aligned : (PAGE_SIZE | brk mm) /\ (PAGE_SIZE | start_brk mm);
  bo_order : 0 <= start_brk mm <= brk mm /\ brk mm < u64_size;
  bo_area : forall k e, (k, e) ∈ l -> has_flag HEAP e = true ->
    start_brk mm <= rstart e /\ has_flag GROWSDOWN e = false /\ (rstart e < brk mm -> rend e = brk mm)
}.

Lemma heap_ok_brk_ok mm l : heap_ok mm l -> brk_ok mm l.
Proof. intros [Hba Hbo Hha _]. split; [done..|]. intros k e Hin Hf. destruct (Hha k e Hin Hf) as (? & ? & ?). split_and!; [lia|done|done]. Qed.

Definition flags_at l (p : Z) : option Z := option_map (fun e => vi_flags (rvalue e)) (at_point l p).

Lemma find_vma_flags_ok mm l p : areas_ok mm l -> find_vma_flags mm p = Ret (flags_at l p).
Proof.
  intros [Ht]. unfold find_vma_flags, flags_at. rewrite (find_ok _ l p Ht). mstep. by destruct (at_point l p).
Qed.

Lemma find_vma_ok mm l p :
  areas_ok mm l -> find_vma mm p = Ret (option_map (fun e => from_tree (rstart e) (rend e) (rvalue e)) (at_point l p)).
Proof. intros [Ht]. unfold find_vma. rewrite (find_ok _ l p Ht). mstep. by destruct (at_point l p). Qed.

Lemma find_vma_intersection_ok mm l s t :
  areas_ok mm l -> exists o, find_vma_intersection mm s t = Ret o /\ (o = None <-> no_overlap l s t).
Proof.
  intros [Ht]. unfold find_vma_intersection. rewrite (iter_intersecting_ok _ l s t Ht). mstep.
  eexists. split; [done|]. rewrite <- iter_intersecting_nil. by destruct (filter _ l).
Qed.

Lemma pages_in_u64 l : ranges_wf 0 l -> 0 <= sumw pages l < u64_size /\ 0 <= sumw stack_pages l < u64_size.
Proof.
  intros Hwf. split.
  - pose proof (sumw_bounds pages 0 l (fun e H => conj (proj1 (pages_bounds e H)) (Z.le_refl _)) Hwf). lia.
  - pose proof (sumw_bounds stack_pages 0 l stack_pages_bounds Hwf). lia.
Qed.

Lemma page_aligned_insert k e l :
  page_aligned l -> (PAGE_SIZE | rstart e) -> (PAGE_SIZE | rend e) -> page_aligned (al_insert k e l).
Proof.
  intros Hal H1 H2. apply Forall_forall. intros kv [->|Hin]%al_insert_elem; [done|]. by eapply Forall_forall in Hal.
Qed.
Lemma page_aligned_remove k l : page_aligned l -> page_aligned (al_remove k l).
Proof. intros Hal. apply Forall_forall. intros kv [_ Hin]%al_remove_elem. by eapply Forall_forall in Hal. Qed.

(** ** Adding and removing areas *)
Lemma insert_vma_ok mm l start end_ info :
  areas_ok mm l -> (length l < om_cap)%nat -> Z.of_nat (length l) + 1 < 4294967295 ->
  0 <= start < end_ -> end_ < u64_size -> (PAGE_SIZE | start) -> (PAGE_SIZE | end_) ->
  let e := mkRange start end_ info in
  (no_overlap l start end_ /\
     exists mm', insert_vma mm start end_ info = Ret (true, mm') /\ areas_ok mm' (al_insert start e l) /\
       brk mm' = brk mm /\ start_brk mm' = start_brk mm) \/
  (~ no_overlap l start end_ /\ insert_vma mm start end_ info = Ret (false, mm)).
Proof.
  intros [Ht Hc Hcap0 Hsm Htot Hst Hal] Hcap Hlen Hse Hend Hs4 He4 e. unfold insert_vma.
  destruct (decide (Forall (apart start end_) l)) as [Hno|Hyes].
  - left. split; [done|]. destruct (insert_ok (vma_tree mm) l start end_ info Ht Hcap Hse Hend Hno) as (t & -> & Ht').
    mstep. eexists. split; [done|]. split; [|done]. rewrite sub64_small by lia.
    change ((end_ - start) / PAGE_SIZE) with (pages e). destruct (pages_in_u64 l (proj2 Ht)) as [Hp Hsp].
    destruct (pages_in_u64 _ (proj2 Ht')) as [Hp' Hsp']. fold e in Hp', Hsp', Ht'. rewrite sumw_insert in Hp', Hsp'.
    pose proof (pages_bounds e ltac:(simpl; lia)).
    split; cbn [set_counts set_tree vma_tree vma_count total_vm stack_vm brk]; rewrite ?length_al_insert, ?sumw_insert.
    + done.
    + unfold add32. rewrite Hc, Z.mod_small by lia. lia.
    + lia.
    + lia.
    + rewrite Htot, add64_small by lia. lia.
    + rewrite Hst. unfold stack_pages, has_flag in *. change (rvalue e) with info in *.
      destruct (flags_contain (vi_flags info) GROWSDOWN); [rewrite add64_small by lia|]; lia.
    + by apply page_aligned_insert.
  - right. split; [done|]. rewrite (insert_refused _ l _ _ _ Ht) by (done || lia). mstep. by destruct mm.
Qed.

Lemma remove_vma_ok mm l start :
  areas_ok mm l ->
  exists mm', remove_vma mm start = Ret (option_map (fun e => (rend e, rvalue e)) (al_lookup start l), mm') /\
    areas_ok mm' (al_remove start l) /\ brk mm' = brk mm /\ start_brk mm' = start_brk mm.
Proof.
  intros [Ht Hc Hcap Hsm Htot Hst Hal]. unfold remove_vma. destruct (remove_ok _ l start Ht) as (t & -> & Ht'). mstep.
  pose proof (length_al_remove start l) as Hlr. destruct (al_lookup start l) as [e|] eqn:Hl; cbn [option_map].
  - eexists. split; [done|]. split; [|done]. pose proof (ranges_wf_sorted _ _ (proj2 Ht)) as Hs.
    pose proof Hl as Hin. apply al_lookup_elem in Hin; [|done]. destruct (ranges_wf_elem _ _ _ _ (proj2 Ht) Hin) as [-> Hb].
    rewrite (sub64_small (rend e) (rstart e)) by lia. change ((rend e - rstart e) / PAGE_SIZE) with (pages e).
    destruct (pages_in_u64 _ (proj2 Ht)) as [Hp Hsp]. destruct (pages_in_u64 _ (proj2 Ht')) as [Hp' Hsp'].
    rewrite (sumw_remove _ _ e) in Hp' by done. rewrite (sumw_remove _ _ e) in Hsp' by done. pose proof (stack_pages_bounds e ltac:(lia)).
    pose proof (length_al_insert (rstart e) e (al_remove (rstart e) l)) as Hlen. rewrite al_insert_remove in Hlen by done.
    split; cbn [set_counts set_tree vma_tree vma_count total_vm stack_vm brk]; rewrite ?(sumw_remove _ _ e) by done.
    + done.
    + unfold sub32. rewrite Hc, Z.mod_small by lia. lia.
    + lia.
    + lia.
    + rewrite Htot, sub64_small by lia. done.
    + rewrite Hst. unfold stack_pages, has_flag in *.
      destruct (flags_contain (vi_flags (rvalue e)) GROWSDOWN); [rewrite sub64_small by lia|]; lia.
    + by apply page_aligned_remove.
  - eexists. split; [done|]. split; [|done]. rewrite al_remove_absent in * by (by apply al_lookup_None). by split.
Qed.

(** ** Growing and shrinking the heap area *)
Definition resized (l : list (Z * area)) (e : area) (new_end : Z) : list (Z * area) :=
  al_insert (rstart e) (mkRange (rstart e) new_end (rvalue e)) (al_remove (rstart e) l).

Lemma pages_split a b c : (PAGE_SIZE | a) -> (PAGE_SIZE | b) -> (PAGE_SIZE | c) ->
  (c - a) / PAGE_SIZE = (b - a) / PAGE_SIZE + (c - b) / PAGE_SIZE.
Proof.
  unfold PAGE_SIZE. intros [x ->] [y ->] [z ->].
  rewrite <- !Z.mul_sub_distr_r, !Z.div_mul by lia. lia.
Qed.

Lemma resize_ok mm l e new_end :
  areas_ok mm l -> (length l < om_cap)%nat -> (rstart e, e) ∈ l -> has_flag GROWSDOWN e = false ->
  rstart e < new_end -> new_end < u64_size -> (PAGE_SIZE | new_end) ->
  no_overlap (al_remove (rstart e) l) (rstart e) new_end ->
  exists t, replace (vma_tree mm) (rstart e) new_end (rvalue e) = Ret (Ok (Some (rend e, rvalue e)), t) /\
    areas_ok (set_total (set_tree mm t) (sumw pages l + (new_end - rend e) / PAGE_SIZE)) (resized l e new_end).
Proof.
  intros [Ht Hc Hcap0 Hsm Htot Hst Hal] Hcap Hin Hng Hlt Hu Hd Hno. pose proof (proj2 Ht) as Hwf.
  pose proof (ranges_wf_sorted _ _ Hwf) as Hs. destruct (ranges_wf_elem _ _ _ _ Hwf Hin) as [_ Hb].
  pose proof (proj1 (al_lookup_elem _ e l Hs) Hin) as Hl.
  destruct (replace_cases (vma_tree mm) l (rstart e) new_end (rvalue e) Ht Hcap)
    as [(err & t & _ & _ & Hbad)|(t & _ & _ & Hrun & Ht')]; [lia|done|exfalso; destruct Hbad; [lia|done]|].
  exists t. rewrite Hl in Hrun. split; [exact Hrun|]. fold (resized l e new_end) in Ht'.
  pose proof Hal as Hal'. eapply Forall_forall in Hal'; [|exact Hin]. cbn [snd] in Hal'.
  assert (Hlen : length (resized l e new_end) = length l).
  { unfold resized. pose proof (length_al_insert (rstart e) e (al_remove (rstart e) l)) as Hi.
    rewrite al_insert_remove in Hi by done. rewrite length_al_insert. lia. }
  split; cbn [set_total set_counts set_tree vma_tree vma_count total_vm stack_vm]; rewrite ?Hlen; try done.
  - unfold resized. rewrite sumw_insert, (sumw_remove _ _ e) by done.
    assert (pages (mkRange (rstart e) new_end (rvalue e)) = pages e + (new_end - rend e) / PAGE_SIZE)
      by (apply pages_split; [apply Hal'|apply Hal'|done]). lia.
  - unfold resized. rewrite sumw_insert, (sumw_remove _ _ e) by done.
    assert (stack_pages e = 0) as -> by (unfold stack_pages; by rewrite Hng).
    assert (stack_pages (mkRange (rstart e) new_end (rvalue e)) = 0) as ->
      by (unfold stack_pages, has_flag in *; cbn [rvalue]; by rewrite Hng). lia.
  - apply page_aligned_insert; [by apply page_aligned_remove|apply Hal'|done].
Qed.

Lemma resized_flags l e new_end p :
  ranges_wf 0 l -> (rstart e, e) ∈ l -> rstart e < new_end -> new_end < u64_size ->
  no_overlap (al_remove (rstart e) l) (rstart e) new_end ->
  flags_at (resized l e new_end) p =
  if (rstart e <=? p) && (p <? new_end) then Some (vi_flags (rvalue e))
  else if (rstart e <=? p) && (p <? rend e) then None else flags_at l p.
Proof.
  intros Hwf Hin Hlt Hu Hno. destruct (ranges_wf_elem _ _ _ _ Hwf Hin) as [_ Hb]. unfold flags_at, resized.
  rewrite (at_point_insert 0) by (first [by apply ranges_wf_remove | done | lia]).
  destruct ((rstart e <=? p) && (p <? new_end)) eqn:Hin1; [done|].
  rewrite (at_point_remove 0) by done. destruct (at_point l p) as [e'|] eqn:He.
  - apply (at_point_spec 0) in He as [Hin' Hp]; [|done]. destruct (Z.eqb_spec (rstart e') (rstart e)) as [Heq|Hne].
    + destruct (ranges_wf_disjoint _ _ _ _ _ _ Hwf Hin Hin') as [[= _ <-]|Hd]; [|pose proof (ranges_wf_elem _ _ _ _ Hwf Hin'); lia].
      destruct (Z.leb_spec (rstart e) p), (Z.ltb_spec p (rend e)); try lia. done.
    + destruct (ranges_wf_disjoint _ _ _ _ _ _ Hwf Hin Hin') as [[= ? <-]|Hd]; [done|].
      destruct (Z.leb_spec (rstart e) p), (Z.ltb_spec p (rend e)); try lia; done.
  - by destruct ((rstart e <=? p) && (p <? rend e)).
Qed.

Lemma heap_ok_resized mm mm' l e new_end :
  heap_ok mm l -> ranges_wf 0 l -> (rstart e, e) ∈ l -> has_flag HEAP e = true ->
  start_brk mm' = start_brk mm -> brk mm' = new_end -> (PAGE_SIZE | new_end) ->
  start_brk mm <= new_end -> new_end < u64_size ->
  heap_ok mm' (resized l e new_end).
Proof.
  intros [Hba Hbo Hha Hhp] Hwf Hin Hh Hsb Hb Hd Hle Hu. destruct (Hha _ _ Hin Hh) as (Hs & He & Hg).
  split; rewrite ?Hsb, ?Hb; try tauto; try lia.
  - intros k e' [[= -> ->]|[Hne Hin']%al_remove_elem]%al_insert_elem Hh'; [done|]. exfalso. cbn [fst] in Hne.
    destruct (Hha _ _ Hin' Hh') as (Hs' & He' & _). destruct (ranges_wf_elem _ _ _ _ Hwf Hin') as [-> _]. lia.
  - intros _. exists (mkRange (rstart e) new_end (rvalue e)). split; [apply al_insert_elem; by left|done].
Qed.

Lemma areas_ok_set_brk mm l b : areas_ok mm l -> areas_ok (set_brk mm b) l.
Proof. intros []. by split. Qed.

Lemma heap_found mm l p :
  mm_ok mm l -> start_brk mm <= p < brk mm ->
  exists e, at_point l p = Some e /\ (rstart e, e) ∈ l /\ has_flag HEAP e = true /\
    rstart e = start_brk mm /\ rend e = brk mm /\ has_flag GROWSDOWN e = false.
Proof.
  intros [[Ht] [_ _ Hha Hhp]] Hp. destruct (Hhp ltac:(lia)) as (e & Hin & Hh).
  destruct (Hha _ _ Hin Hh) as (Hs & He & Hg). exists e. split; [|done].
  apply (at_point_spec 0); [apply Ht|]. split; [done|lia].
Qed.

Lemma no_heap_area mm l : mm_ok mm l -> brk mm = start_brk mm -> forall k e, (k, e) ∈ l -> has_flag HEAP e = false.
Proof.
  intros [[Ht] [_ _ Hha _]] Heq k e Hin. destruct (has_flag HEAP e) eqn:Hh; [|done].
  destruct (Hha _ _ Hin Hh) as (Hs & He & _). destruct (ranges_wf_elem _ _ _ _ (proj2 Ht) Hin). lia.
Qed.

Lemma no_overlap_join lo l s m t :
  ranges_wf lo l -> s <= m <= t -> no_overlap l s m -> no_overlap l m t -> no_overlap l s t.
Proof.
  intros Hwf Hsmt H1 H2. apply Forall_forall. intros [k e] Hin. destruct (ranges_wf_elem _ _ _ _ Hwf Hin).
  eapply Forall_forall in H1; [|exact Hin]. eapply Forall_forall in H2; [|exact Hin]. unfold apart in *. simpl in *. lia.
Qed.

Lemma no_overlap_remove k l s t : no_overlap l s t -> no_overlap (al_remove k l) s t.
Proof. intros Hno. apply Forall_forall. intros kv [_ Hin]%al_remove_elem. by eapply Forall_forall in Hno. Qed.

(** What growing or shrinking the heap establishes. *)
Definition brk_done mm l (lo hi new_brk : Z) (in_range : option Z -> Prop) (mm' : Mm M) : Prop :=
  exists l', mm_ok (set_brk mm' new_brk) l' /\ start_brk mm' = start_brk mm /\
    forall p, if (lo <=? p) && (p <? hi) then in_range (flags_at l' p) else flags_at l' p = flags_at l p.

Definition heap_point (o : option Z) : Prop := exists f, o = Some f /\ flags_contain f HEAP = true.

Lemma brk_create_ok mm l new_brk :
  mm_ok mm l -> brk mm = start_brk mm -> (length l < om_cap)%nat -> Z.of_nat (length l) + 1 < 4294967295 ->
  brk mm < new_brk -> new_brk < u64_size -> (PAGE_SIZE | new_brk) -> no_overlap l (brk mm) new_brk ->
  exists mm', brk_create mm (brk mm) new_brk = Ret (Ok tt, mm') /\ brk_done mm l (brk mm) new_brk new_brk heap_point mm'.
Proof.
  intros Hok Heq Hcap Hlen Hlt Hu Hd Hno. pose proof Hok as [Ha Hh]. pose proof (no_heap_area mm l Hok Heq) as Hnh.
  destruct Hh as [Hba Hbo _ _]. unfold brk_create.
  destruct (insert_vma_ok mm l (brk mm) new_brk (VmaInfo_new heap_flags) Ha Hcap Hlen)
    as [(_ & mm' & -> & Ha' & Hb' & Hsb')|[Hbad _]]; [lia|done|apply Hba|done| |done].
  mstep. exists mm'. split; [done|]. exists (al_insert (brk mm) (mkRange (brk mm) new_brk (VmaInfo_new heap_flags)) l).
  split; [split; [by apply areas_ok_set_brk|]|split; [done|]].
  - split; cbn [set_brk brk start_brk]; rewrite ?Hsb'; try tauto; try lia.
    + intros k e [[= -> ->]|Hin]%al_insert_elem Hheap; [cbn [rstart rend]; split; [lia|split; reflexivity]|].
      by rewrite (Hnh _ _ Hin) in Hheap.
    + intros _. exists (mkRange (brk mm) new_brk (VmaInfo_new heap_flags)).
      split; [apply al_insert_elem; by left|reflexivity].
  - intros p. unfold flags_at. destruct Ha as [Ht]. rewrite (at_point_insert 0) by (try apply Ht; try done; lia).
    destruct ((brk mm <=? p) && (p <? new_brk)); [|done]. cbn. eexists. split; reflexivity.
Qed.

Lemma brk_expand_ok mm l new_brk :
  mm_ok mm l -> (length l < om_cap)%nat -> Z.of_nat (length l) + 1 < 4294967295 ->
  brk mm < new_brk -> new_brk < u64_size -> (PAGE_SIZE | new_brk) ->
  (brk_expand mm (brk mm) new_brk = Ret (Err BrkConflict, mm) /\ ~ no_overlap l (brk mm) new_brk) \/
  (exists mm', brk_expand mm (brk mm) new_brk = Ret (Ok tt, mm') /\
     brk_done mm l (brk mm) new_brk new_brk heap_point mm').
Proof.
  intros Hok Hcap Hlen Hlt Hu Hd. pose proof Hok as [Ha Hh]. unfold brk_expand.
  destruct (find_vma_intersection_ok mm l (brk mm) new_brk Ha) as (o & -> & Ho). mstep.
  destruct o as [v|]; [left; split; [done|]; intros Hno%Ho; done|]. right.
  pose proof (proj1 Ho eq_refl) as Hno. pose proof Ha as [Ht _ _ _ Htot _ _]. pose proof (proj2 Ht) as Hwf.
  rewrite (find_ok _ l _ Ht). mstep. destruct (Z.eq_dec (brk mm) (start_brk mm)) as [Heq|Hne].
  - destruct (brk_create_ok mm l new_brk) as (mm' & Hrun & Hdone); try done.
    exists mm'. split; [|done]. destruct (at_point l _) as [e|] eqn:He; [|exact Hrun]. cbn [option_map triple].
    apply (at_point_spec 0) in He as [Hin _]; [|done]. pose proof (no_heap_area mm l Hok Heq _ _ Hin) as Hf.
    unfold has_flag in Hf. by rewrite Hf.
  - pose proof Hh as [Hba Hbo Hha Hhp].
    destruct (heap_found mm l (saturating_sub64 (brk mm) 1) Hok) as (e & -> & Hin & Hf & Hs & He & Hg); [unfold saturating_sub64; lia|].
    cbn [option_map triple]. unfold has_flag in Hf. rewrite Hf.
    assert (Hnr : no_overlap (al_remove (rstart e) l) (rstart e) new_brk).
    { apply (no_overlap_join 0) with (rend e); [by apply ranges_wf_remove|lia|by apply removed_no_overlap|].
      rewrite He. by apply no_overlap_remove. }
    destruct (resize_ok mm l e new_brk) as (t & -> & Ha'); try done; [lia|]. mstep. eexists. split; [done|].
    assert (add64 (total_vm mm) (saturating_sub64 new_brk (rend e) / PAGE_SIZE) = sumw pages l + (new_brk - rend e) / PAGE_SIZE) as ->.
    { unfold saturating_sub64. rewrite Z.max_r by lia. pose proof (ok_total _ _ Ha') as Ht'. cbn in Ht'.
      destruct (pages_in_u64 _ (proj2 (ok_tree _ _ Ha'))) as [Hp _]. rewrite Htot, add64_small by lia. done. }
    exists (resized l e new_brk). split; [split; [by apply areas_ok_set_brk|]|split; [done|]].
    + by apply (heap_ok_resized mm); try done; lia.
    + intros p. rewrite (resized_flags l e new_brk p Hwf Hin) by (done || lia). rewrite He, Hs.
      assert (Hpt : start_brk mm <= p < brk mm -> flags_at l p = Some (vi_flags (rvalue e))).
      { intros Hp. unfold flags_at. assert (at_point l p = Some e) as -> by (apply (at_point_spec 0); [done|split; [done|lia]]). done. }
      destruct (Z.leb_spec (start_brk mm) p), (Z.ltb_spec p new_brk), (Z.leb_spec (brk mm) p), (Z.ltb_spec p (brk mm));
        try lia; cbn [andb]; try done; try (eexists; split; done). by rewrite Hpt by lia.
Qed.

Lemma brk_shrink_ok mm l new_brk :
  mm_ok mm l -> (length l < om_cap)%nat -> start_brk mm <= new_brk < brk mm -> (PAGE_SIZE | new_brk) ->
  (new_brk = start_brk mm /\ exists t, brk_shrink mm (brk mm) new_brk = Ret (Err BrkShrinkFailed, set_tree mm t) /\
     mm_ok (set_tree mm t) l) \/
  (start_brk mm < new_brk /\ exists mm', brk_shrink mm (brk mm) new_brk = Ret (Ok tt, mm') /\
     brk_done mm l new_brk (brk mm) new_brk (eq None) mm').
Proof.
  intros Hok Hcap Hnew Hd. pose proof Hok as [Ha Hh]. unfold brk_shrink. pose proof Ha as [Ht Hc Hcap0 Hsm Htot Hst Hal].
  pose proof (proj2 Ht) as Hwf. pose proof Hh as [Hba Hbo Hha Hhp]. rewrite (find_ok _ l _ Ht). mstep.
  destruct (heap_found mm l new_brk Hok Hnew) as (e & -> & Hin & Hf & Hs & He & Hg). cbn [option_map triple].
  unfold has_flag in Hf. rewrite Hf. destruct (Z.leb_spec (rstart e) new_brk); [|lia]. cbn [andb].
  destruct (Z.eq_dec new_brk (start_brk mm)) as [Heq|Hne]; [left|right]; (split; [lia|]).
  - destruct (replace_cases (vma_tree mm) l (rstart e) new_brk (rvalue e) Ht Hcap)
      as [(err & t & -> & Ht' & _)|(t & Hlt & _)]; [lia|lia| |lia].
    mstep. exists t. split; [done|]. split; [by split|]. by split.
  - assert (Hnr : no_overlap (al_remove (rstart e) l) (rstart e) new_brk).
    { pose proof (removed_no_overlap l (rstart e) e Hwf Hin) as Hno. eapply Forall_impl; [exact Hno|].
      unfold apart. intros q Hq. simpl in *. lia. }
    destruct (resize_ok mm l e new_brk) as (t & -> & Ha'); try done; [lia|lia|]. mstep. eexists. split; [done|].
    assert (Hpg : (brk mm - new_brk) / PAGE_SIZE = - ((new_brk - rend e) / PAGE_SIZE)).
    { rewrite He. destruct Hd as [x ->], (proj1 Hba) as [y ->]. unfold PAGE_SIZE.
      rewrite <- !Z.mul_sub_distr_r, !Z.div_mul by lia. lia. }
    assert (sub64 (total_vm mm) (sub64 (brk mm) new_brk / PAGE_SIZE) = sumw pages l + (new_brk - rend e) / PAGE_SIZE) as ->.
    { rewrite (sub64_small (brk mm)) by lia. rewrite Hpg. pose proof (ok_total _ _ Ha') as Ht'. cbn in Ht'.
      destruct (pages_in_u64 _ (proj2 (ok_tree _ _ Ha'))) as [Hp _]. rewrite Htot, sub64_small by lia. lia. }
    exists (resized l e new_brk). split; [split; [by apply areas_ok_set_brk|]|split; [done|]].
    + apply (heap_ok_resized mm); try done; lia.
    + intros p. rewrite (resized_flags l e new_brk p Hwf Hin) by (done || lia). rewrite He, Hs.
      assert (Hpt : start_brk mm <= p < brk mm -> flags_at l p = Some (vi_flags (rvalue e))).
      { intros Hp. unfold flags_at. assert (at_point l p = Some e) as -> by (apply (at_point_spec 0); [done|split; [done|lia]]). done. }
      destruct (Z.leb_spec (start_brk mm) p), (Z.ltb_spec p new_brk), (Z.leb_spec new_brk p), (Z.ltb_spec p (brk mm));
        try lia; cbn [andb]; try done. by rewrite Hpt by lia.
Qed.

(** The break as the process sees it: [start_brk, b) is heap, what lay between [b] and a
    higher old break is unmapped, and nothing else changes. *)
Definition heap_is mm l (b : Z) l' : Prop := forall p,
  (start_brk mm <= p < b -> heap_point (flags_at l' p)) /\
  (b <= p < brk mm -> flags_at l' p = None) /\
  (p < start_brk mm \/ Z.max b (brk mm) <= p -> flags_at l' p = flags_at l p).

Lemma heap_flags_found mm l p : mm_ok mm l -> start_brk mm <= p < brk mm -> heap_point (flags_at l p).
Proof.
  intros Hok Hp. destruct (heap_found mm l p Hok Hp) as (e & He & _ & Hf & _). unfold flags_at. rewrite He.
  eexists. by split.
Qed.

Lemma do_brk_ok mm l req :
  mm_ok mm l -> (length l < om_cap)%nat -> Z.of_nat (length l) + 1 < 4294967295 ->
  0 <= req -> req + PAGE_SIZE < u64_size ->
  let b := page_align_up req in
  (exists err mm', do_brk mm req = Ret (Err err, mm') /\ mm_ok mm' l /\ brk mm' = brk mm /\ start_brk mm' = start_brk mm) \/
  (start_brk mm <= b /\ exists mm' l', do_brk mm req = Ret (Ok b, mm') /\ mm_ok mm' l' /\ brk mm' = b /\
     start_brk mm' = start_brk mm /\ heap_is mm l b l').
Proof.
  intros Hok Hcap Hlen Hr0 Hru b. unfold do_brk. fold b.
  destruct (page_align_up_spec req) as [Hd Hbb]; [done|lia|]. fold b in Hd, Hbb.
  destruct (Z.ltb_spec b (start_brk mm)) as [Hlow|Hge]; [left; exists BrkBelowStart, mm; done|].
  assert (Hfin : forall mm' l', mm_ok (set_brk mm' b) l' -> start_brk mm' = start_brk mm ->
    (forall p, b <= p < brk mm -> flags_at l' p = None) ->
    (forall p, p < start_brk mm \/ Z.max b (brk mm) <= p -> flags_at l' p = flags_at l p) -> heap_is mm l b l').
  { intros mm' l' Hok' Hsb H1 H2 p. split; [|by auto]. intros Hp. apply (heap_flags_found _ _ p Hok'). cbn. lia. }
  pose proof (ok_brk_order _ _ (proj2 Hok)) as Hbo.
  destruct (Z.eqb_spec b (brk mm)) as [Heq|Hne].
  { right. split; [done|]. exists mm, l. rewrite Heq at 1. do 4 (split; [done|]).
    apply (Hfin mm); [rewrite Heq; destruct mm; done|done|lia|done]. }
  destruct (Z.ltb_spec (brk mm) b) as [Hlt|Hgt].
  - destruct (brk_expand_ok mm l b Hok Hcap Hlen Hlt) as [[-> _]|(mm' & -> & l' & Hok' & Hsb & Hfl)]; [lia|done| |]; mstep.
    + left. exists BrkConflict, mm. done.
    + right. split; [done|]. exists (set_brk mm' b), l'. do 4 (split; [done|]). apply (Hfin mm'); [done|done|lia|].
      intros p Hp. specialize (Hfl p). destruct (Z.leb_spec (brk mm) p), (Z.ltb_spec p b); try lia; exact Hfl.
  - destruct (brk_shrink_ok mm l b Hok Hcap) as [(_ & t & -> & Hok')|(_ & mm' & -> & l' & Hok' & Hsb & Hfl)]; [lia|done| |]; mstep.
    + left. exists BrkShrinkFailed, (set_tree mm t). done.
    + right. split; [done|]. exists (set_brk mm' b), l'. do 4 (split; [done|]).
      apply (Hfin mm'); [done|done| |]; intros p Hp; specialize (Hfl p);
        destruct (Z.leb_spec b p), (Z.ltb_spec p (brk mm)); try lia; [by rewrite <- Hfl|exact Hfl..].
Qed.

(** ** Growing the stack *)
Definition lowered (l : list (Z * area)) (e : area) (new_start : Z) : list (Z * area) :=
  al_insert new_start (mkRange new_start (rend e) (rvalue e)) (al_remove (rstart e) l).

Lemma expand_stack_ok mm l e new_start :
  areas_ok mm l -> (rstart e, e) ∈ l -> has_flag GROWSDOWN e = true ->
  0 <= new_start < rstart e -> (PAGE_SIZE | new_start) ->
  expand_stack mm (rstart e) new_start = Ret (false, mm) \/
  (no_overlap l new_start (rstart e) /\ exists mm', expand_stack mm (rstart e) new_start = Ret (true, mm') /\
     areas_ok mm' (lowered l e new_start) /\
     brk mm' = brk mm /\ start_brk mm' = start_brk mm /\ start_stack mm' = start_stack mm).
Proof.
  intros [Ht Hc Hcap Hsm Htot Hst Hal] Hin Hg Hnew Hd. unfold expand_stack, lowered.
  destruct (Z.leb_spec (rstart e) new_start); [lia|]. pose proof (proj2 Ht) as Hwf.
  pose proof (ranges_wf_sorted _ _ Hwf) as Hs. pose proof (proj1 (al_lookup_elem _ e l Hs) Hin) as Hl.
  destruct (ranges_wf_elem _ _ _ _ Hwf Hin) as [_ Hb].
  destruct (move_start_cases (vma_tree mm) l (rstart e) new_start Ht Hcap)
    as [(err & ->)|(e' & t & Hl' & Hlt & Hno & -> & Ht')]; [lia|left; mstep; by destruct mm|].
  right. rewrite Hl in Hl'. injection Hl' as <-. mstep. cbn [is_ok].
  split.
  { apply Forall_forall. intros [k q] Hq. destruct (ranges_wf_elem _ _ _ _ Hwf Hq) as [-> Hqb].
    destruct (Z.eq_dec (rstart q) (rstart e)) as [Heq|Hne]; [unfold apart; simpl; lia|].
    assert (Hq' : (rstart q, q) ∈ al_remove (rstart e) l) by (apply al_remove_elem; done).
    eapply Forall_forall in Hno; [|exact Hq']. unfold apart in *. simpl in *.
    destruct (ranges_wf_disjoint _ _ _ _ _ _ Hwf Hin Hq) as [[= ?]|?]; lia. }
  eexists. split; [done|]. split; [|done]. rewrite (sub64_small (rstart e)) by lia.
  pose proof Hal as Hal'. eapply Forall_forall in Hal'; [|exact Hin]. cbn [snd] in Hal'.
  set (e1 := mkRange new_start (rend e) (rvalue e)) in *.
  assert (Hpg : pages e1 = pages e + (rstart e - new_start) / PAGE_SIZE).
  { unfold pages, e1. cbn [rstart rend]. rewrite (pages_split new_start (rstart e) (rend e)) by (apply Hal' || done). lia. }
  assert (Hsp1 : stack_pages e1 = pages e1) by (unfold stack_pages, has_flag in *; cbn [e1 rvalue]; by rewrite Hg).
  assert (Hsp : stack_pages e = pages e) by (unfold stack_pages; by rewrite Hg).
  destruct (pages_in_u64 _ (proj2 Ht')) as [Hp Hstk]. rewrite sumw_insert, (sumw_remove _ _ e) in Hp by done.
  rewrite sumw_insert, (sumw_remove _ _ e) in Hstk by done. rewrite Hsp, Hsp1, Hpg in Hstk. rewrite Hpg in Hp.
  pose proof (length_al_insert (rstart e) e (al_remove (rstart e) l)) as Hlen. rewrite al_insert_remove in Hlen by done.
  destruct (pages_in_u64 _ Hwf) as [Hp0 Hs0].
  assert (0 <= (rstart e - new_start) / PAGE_SIZE) by (apply Z.div_pos; unfold PAGE_SIZE; lia).
  split; cbn [set_counts set_tree vma_tree vma_count total_vm stack_vm]; rewrite ?length_al_insert, ?sumw_insert, ?(sumw_remove _ _ e) by done.
  - done.
  - lia.
  - lia.
  - lia.
  - rewrite Hpg, Htot, add64_small by lia. lia.
  - rewrite Hsp, Hsp1, Hpg, Hst, add64_small by lia. lia.
  - apply page_aligned_insert; [by apply page_aligned_remove|done|apply Hal'].
Qed.

Lemma lowered_heap l e new_start k q :
  has_flag HEAP e = false -> (k, q) ∈ lowered l e new_start -> has_flag HEAP q = true -> (k, q) ∈ l.
Proof.
  intros Hnh [[= -> ->]|[_ Hq]%al_remove_elem]%al_insert_elem Hf; [|done].
  unfold has_flag in *. cbn [rvalue] in Hf. congruence.
Qed.

Lemma brk_ok_lowered mm mm' l e new_start :
  brk_ok mm l -> has_flag HEAP e = false -> brk mm' = brk mm -> start_brk mm' = start_brk mm ->
  brk_ok mm' (lowered l e new_start).
Proof.
  intros [Hba Hbo Hha] Hnh Hb Hsb. split; rewrite ?Hb, ?Hsb; [done..|].
  intros k q Hq Hf. apply (Hha k); [|done]. by apply (lowered_heap l e new_start).
Qed.

Lemma heap_ok_lowered mm mm' l e new_start :
  ranges_wf 0 l -> (rstart e, e) ∈ l -> heap_ok mm l -> has_flag HEAP e = false ->
  brk mm' = brk mm -> start_brk mm' = start_brk mm -> heap_ok mm' (lowered l e new_start).
Proof.
  intros Hwf Hin [Hba Hbo Hha Hhp] Hnh Hb Hsb. split; rewrite ?Hb, ?Hsb; [done..| |].
  - intros k q Hq Hf. apply (Hha k); [|done]. by apply (lowered_heap l e new_start).
  - intros Hne. destruct (Hhp Hne) as (q & Hq & Hf). exists q. split; [|done]. apply al_insert_elem. right.
    apply al_remove_elem. split; [|done]. cbn [fst]. intros Heq.
    destruct (ranges_wf_disjoint _ _ _ _ _ _ Hwf Hin Hq) as [[= _ ->]|?]; [congruence|].
    pose proof (ranges_wf_elem _ _ _ _ Hwf Hq). pose proof (ranges_wf_elem _ _ _ _ Hwf Hin). lia.
Qed.

Lemma page_of_spec a :
  in_u64 a -> let p := Z.land a (not64 (PAGE_SIZE - 1)) in (PAGE_SIZE | p) /\ 0 <= p <= a /\ a < p + PAGE_SIZE.
Proof.
  intros Ha p. unfold p, PAGE_SIZE. change (4096 - 1) with (2 ^ 12 - 1). rewrite land_not_mask by (done || lia).
  change (2 ^ 12) with 4096. unfold in_u64 in Ha. pose proof (Z.div_mod a 4096). pose proof (Z.mod_pos_bound a 4096).
  pose proof (Z.div_pos a 4096). split; [apply Z.divide_factor_l|lia].
Qed.

Lemma expand_stack_for_fault_ok mm l fault :
  areas_ok mm l -> in_u64 fault ->
  let page := Z.land fault (not64 (PAGE_SIZE - 1)) in
  expand_stack_for_fault mm fault = Ret (None, mm) \/
  exists e mm', (rstart e, e) ∈ l /\ has_flag GROWSDOWN e = true /\
    stack_expand_min_addr mm <= page < rstart e /\ no_overlap l page (rstart e) /\
    expand_stack_for_fault mm fault = Ret (Some (from_tree page (rend e) (rvalue e)), mm') /\
    areas_ok mm' (lowered l e page) /\
    brk mm' = brk mm /\ start_brk mm' = start_brk mm /\ start_stack mm' = start_stack mm.
Proof.
  intros Ha Hf page. pose proof Ha as [Ht _ _ _ _ _ _]. pose proof (proj2 Ht) as Hwf.
  destruct (page_of_spec fault Hf) as (Hpd & Hp0 & Hpf). fold page in Hpd, Hp0, Hpf.
  unfold expand_stack_for_fault. fold page.
  destruct (Z.ltb_spec page (stack_expand_min_addr mm)) as [|Hmin]; [by left|]. cbn [orb].
  destruct (_ <=? page); [by left|]. rewrite (lower_bound_ok _ l page Ht). mstep.
  destruct (List.find _ l) as [[k e]|] eqn:Hfind; cbn [option_map triple snd]; [|by left].
  apply find_Some_elem in Hfind as [Hin _]. destruct (ranges_wf_elem _ _ _ _ Hwf Hin) as [-> Hb].
  destruct (flags_contain (vi_flags (rvalue e)) GROWSDOWN) eqn:Hg; [|by left].
  destruct (Z.ltb_spec page (rstart e)) as [Hlt|]; [|by left]. cbn [andb].
  destruct (expand_stack_ok mm l e page) as [->|(Hno & mm' & -> & Ha' & Hrest)]; try done; [lia|by left|].
  mstep. right. exists e, mm'. split; [done|]. split; [done|]. split; [done|]. split; [done|]. split; [|done].
  rewrite (find_vma_ok mm' _ page Ha'). mstep.
  assert (at_point (lowered l e page) page = Some (mkRange page (rend e) (rvalue e))) as ->; [|done].
  apply (at_point_spec 0); [apply (ok_tree _ _ Ha')|]. split; [apply al_insert_elem; by left|cbn; lia].
Qed.

Lemma growsdown_not_heap mm l k e :
  brk_ok mm l -> (k, e) ∈ l -> has_flag GROWSDOWN e = true -> has_flag HEAP e = false.
Proof.
  intros Hb Hin Hg. destruct (has_flag HEAP e) eqn:Hh; [|done].
  destruct (bo_area _ _ Hb k e Hin Hh) as (_ & Hng & _). congruence.
Qed.

(** ** The break after the heap area was removed *)
Lemma brk_create_keeps mm l new_brk :
  areas_ok mm l -> brk_ok mm l -> (length l < om_cap)%nat -> Z.of_nat (length l) + 1 < 4294967295 ->
  brk mm < new_brk -> new_brk < u64_size -> (PAGE_SIZE | new_brk) -> no_overlap l (brk mm) new_brk ->
  (forall k e, (k, e) ∈ l -> has_flag HEAP e = true -> brk mm <= rstart e) ->
  exists mm' l', brk_create mm (brk mm) new_brk = Ret (Ok tt, mm') /\ areas_ok mm' l' /\
    start_brk mm' = start_brk mm /\ brk_ok (set_brk mm' new_brk) l'.
Proof.
  intros Ha [Hba Hbo Hha] Hcap Hlen Hlt Hu Hd Hno Habove. unfold brk_create.
  destruct (insert_vma_ok mm l (brk mm) new_brk (VmaInfo_new heap_flags) Ha Hcap Hlen)
    as [(_ & mm' & -> & Ha' & Hb' & Hsb')|[Hbad _]]; [lia|done|apply Hba|done| |done].
  mstep. eexists mm', _. split; [done|]. split; [exact Ha'|]. split; [done|].
  split; cbn [set_brk brk start_brk]; rewrite ?Hsb'; [tauto|lia|].
  intros k e [[= -> ->]|Hin]%al_insert_elem Hheap; [cbn [rstart rend]; split; [lia|split; [reflexivity|done]]|].
  destruct (Hha k e Hin Hheap) as (H1 & H2 & _). split_and!; [done|done|].
  specialize (Habove k e Hin Hheap). eapply Forall_forall in Hno; [|exact Hin]. unfold apart in Hno. cbn [snd] in Hno.
  pose proof (ranges_wf_elem _ _ _ _ (proj2 (ok_tree _ _ Ha)) Hin). lia.
Qed.

Lemma brk_ok_resized mm mm' l e new_brk :
  brk_ok mm l -> ranges_wf 0 l -> (rstart e, e) ∈ l -> has_flag HEAP e = true -> rstart e < brk mm ->
  start_brk mm' = start_brk mm -> brk mm' = new_brk -> (PAGE_SIZE | new_brk) ->
  rstart e < new_brk -> new_brk < u64_size ->
  no_overlap (al_remove (rstart e) l) (rstart e) new_brk -> brk_ok mm' (resized l e new_brk).
Proof.
  intros [Hba Hbo Hha] Hwf Hin Hh Hlt Hsb Hb Hd Hnew Hu Hno. destruct (Hha _ _ Hin Hh) as (Hs & Hg & He).
  split; rewrite ?Hsb, ?Hb; [tauto|lia|].
  intros k q [[= -> ->]|Hq]%al_insert_elem Hf; [cbn [rstart rend rvalue]; split_and!; done|].
  pose proof Hq as Hq'. eapply Forall_forall in Hno; [|exact Hq]. apply al_remove_elem in Hq as [Hne Hq].
  destruct (Hha k q Hq Hf) as (H1 & H2 & H3). split_and!; [done|done|]. cbn [fst] in Hne.
  destruct (ranges_wf_elem _ _ _ _ Hwf Hq) as [-> Hqb]. unfold apart in Hno. cbn [snd] in Hno.
  destruct (ranges_wf_elem _ _ _ _ Hwf Hin) as [_ Hbe]. specialize (He Hlt).
  destruct (ranges_wf_disjoint _ _ _ _ _ _ Hwf Hin Hq) as [[= ? _]|?]; [done|lia].
Qed.

Lemma brk_expand_keeps mm l new_brk :
  areas_ok mm l -> brk_ok mm l -> (length l < om_cap)%nat -> Z.of_nat (length l) + 1 < 4294967295 ->
  brk mm < new_brk -> new_brk < u64_size -> (PAGE_SIZE | new_brk) ->
  exists r mm' l', brk_expand mm (brk mm) new_brk = Ret (r, mm') /\ areas_ok mm' l' /\
    match r with Ok _ => brk_ok (set_brk mm' new_brk) l' | Err _ => brk_ok mm' l' end.
Proof.
  intros Ha Hbk Hcap Hlen Hlt Hu Hd. unfold brk_expand.
  destruct (find_vma_intersection_ok mm l (brk mm) new_brk Ha) as (o & -> & Ho). mstep.
  destruct o as [v|]; [by eexists _, mm, l|].
  pose proof (proj1 Ho eq_refl) as Hno. pose proof Ha as [Ht _ _ _ Htot _ _]. pose proof (proj2 Ht) as Hwf.
  pose proof Hbk as [Hba Hbo Hha]. rewrite (find_ok _ l _ Ht). mstep.
  assert (Hcr : (forall k e, (k, e) ∈ l -> has_flag HEAP e = true -> brk mm <= rstart e) ->
    exists r mm' l', brk_create mm (brk mm) new_brk = Ret (r, mm') /\ areas_ok mm' l' /\
      match r with Ok _ => brk_ok (set_brk mm' new_brk) l' | Err _ => brk_ok mm' l' end).
  { intros Habove. destruct (brk_create_keeps mm l new_brk) as (mm' & l' & H1 & H2 & H3 & H4); try done.
    by exists (Ok tt), mm', l'. }
  (* a heap area that begins below the break ends at it, and so holds the address before it *)
  assert (Hat : forall k q, (k, q) ∈ l -> has_flag HEAP q = true -> rstart q < brk mm ->
    at_point l (saturating_sub64 (brk mm) 1) = Some q).
  { intros k q Hq Hf Hl. destruct (Hha k q Hq Hf) as (H1 & _ & H3). specialize (H3 Hl).
    destruct (ranges_wf_elem _ _ _ _ Hwf Hq) as [-> Hqb]. apply (at_point_spec 0); [done|].
    split; [done|]. unfold saturating_sub64. lia. }
  destruct (at_point l (saturating_sub64 (brk mm) 1)) as [e|] eqn:He; cbn [option_map triple].
  2:{ apply Hcr. intros k q Hq Hf. destruct (Z.lt_ge_cases (rstart q) (brk mm)) as [Hl|]; [|done].
      by discriminate (Hat k q Hq Hf Hl). }
  apply (at_point_spec 0) in He as [Hin Hp]; [|done].
  assert (Hnof : rstart e < brk mm).
  { eapply Forall_forall in Hno; [|exact Hin]. unfold apart in Hno. cbn [snd] in Hno.
    destruct (ranges_wf_elem _ _ _ _ Hwf Hin). unfold saturating_sub64 in Hp. lia. }
  destruct (flags_contain (vi_flags (rvalue e)) HEAP) eqn:Hf.
  2:{ apply Hcr. intros k q Hq Hfq. destruct (Z.lt_ge_cases (rstart q) (brk mm)) as [Hl|]; [|done].
      specialize (Hat k q Hq Hfq Hl). injection Hat as <-. unfold has_flag in Hfq. congruence. }
  destruct (Hha _ _ Hin Hf) as (_ & Hg & Hend). specialize (Hend Hnof).
  assert (Hnr : no_overlap (al_remove (rstart e) l) (rstart e) new_brk).
  { apply (no_overlap_join 0) with (rend e); [by apply ranges_wf_remove|lia|by apply removed_no_overlap|].
    rewrite Hend. by apply no_overlap_remove. }
  destruct (resize_ok mm l e new_brk) as (t & -> & Ha'); try done; [lia|]. mstep.
  eexists _, _, (resized l e new_brk). split; [done|].
  assert (add64 (total_vm mm) (saturating_sub64 new_brk (rend e) / PAGE_SIZE) = sumw pages l + (new_brk - rend e) / PAGE_SIZE) as ->.
  { unfold saturating_sub64. rewrite Z.max_r by lia. pose proof (ok_total _ _ Ha') as Ht'. cbn in Ht'.
    destruct (pages_in_u64 _ (proj2 (ok_tree _ _ Ha'))) as [Hpp _]. rewrite Htot, add64_small by lia. done. }
  split; [exact Ha'|]. by apply (brk_ok_resized mm); try done; lia.
Qed.

Lemma brk_shrink_keeps mm l new_brk :
  areas_ok mm l -> brk_ok mm l -> (length l < om_cap)%nat -> start_brk mm <= new_brk < brk mm -> (PAGE_SIZE | new_brk) ->
  exists r mm' l', brk_shrink mm (brk mm) new_brk = Ret (r, mm') /\ areas_ok mm' l' /\
    match r with Ok _ => brk_ok (set_brk mm' new_brk) l' | Err _ => brk_ok mm' l' end.
Proof.
  intros Ha Hbk Hcap Hnew Hd. unfold brk_shrink. pose proof Ha as [Ht Hc Hcap0 Hsm Htot Hst Hal].
  pose proof (proj2 Ht) as Hwf. pose proof Hbk as [Hba Hbo Hha]. rewrite (find_ok _ l _ Ht). mstep.
  assert (Hstay : (forall k q, (k, q) ∈ l -> has_flag HEAP q = true -> new_brk <= rstart q) ->
    brk_ok (set_brk mm new_brk) l).
  { intros Hab. split; cbn [set_brk brk start_brk]; [tauto|lia|]. intros k q Hq Hf.
    destruct (Hha k q Hq Hf) as (H1 & H2 & _). specialize (Hab k q Hq Hf). split_and!; [done|done|lia]. }
  assert (Hat : forall k q, (k, q) ∈ l -> has_flag HEAP q = true -> rstart q < new_brk -> at_point l new_brk = Some q).
  { intros k q Hq Hf Hl. destruct (Hha k q Hq Hf) as (H1 & _ & H3). specialize (H3 ltac:(lia)).
    destruct (ranges_wf_elem _ _ _ _ Hwf Hq) as [-> Hqb]. apply (at_point_spec 0); [done|]. split; [done|lia]. }
  destruct (at_point l new_brk) as [e|] eqn:He; cbn [option_map triple].
  2:{ exists (Ok tt), mm, l. split; [done|]. split; [done|]. apply Hstay. intros k q Hq Hf.
      destruct (Z.lt_ge_cases (rstart q) new_brk) as [Hl|]; [|done]. by discriminate (Hat k q Hq Hf Hl). }
  apply (at_point_spec 0) in He as [Hin Hp]; [|done].
  destruct (flags_contain (vi_flags (rvalue e)) HEAP) eqn:Hf; cbn [andb].
  2:{ exists (Ok tt), mm, l. split; [done|]. split; [done|]. apply Hstay. intros k q Hq Hfq.
      destruct (Z.lt_ge_cases (rstart q) new_brk) as [Hl|]; [|done].
      specialize (Hat k q Hq Hfq Hl). injection Hat as <-. unfold has_flag in Hfq. congruence. }
  destruct (Z.leb_spec (rstart e) new_brk); [|lia].
  destruct (Hha _ _ Hin Hf) as (_ & Hg & Hend). specialize (Hend ltac:(lia)).
  destruct (Z.eq_dec new_brk (rstart e)) as [Heq|Hne].
  - destruct (replace_cases (vma_tree mm) l (rstart e) new_brk (rvalue e) Ht Hcap)
      as [(err & t & -> & Ht' & _)|(t & Hlt & _)]; [lia|lia| |lia].
    mstep. exists (Err BrkShrinkFailed), (set_tree mm t), l. split; [done|]. split; [by split|by split].
  - assert (Hnr : no_overlap (al_remove (rstart e) l) (rstart e) new_brk).
    { pose proof (removed_no_overlap l (rstart e) e Hwf Hin) as Hno. eapply Forall_impl; [exact Hno|].
      unfold apart. intros q Hq. simpl in *. lia. }
    destruct (resize_ok mm l e new_brk) as (t & -> & Ha'); try done; [lia|lia|]. mstep.
    assert (Hpg : (brk mm - new_brk) / PAGE_SIZE = - ((new_brk - rend e) / PAGE_SIZE)).
    { rewrite Hend. destruct Hd as [x ->], (proj1 Hba) as [y ->]. unfold PAGE_SIZE.
      rewrite <- !Z.mul_sub_distr_r, !Z.div_mul by lia. lia. }
    eexists _, _, (resized l e new_brk). split; [done|].
    assert (sub64 (total_vm mm) (sub64 (brk mm) new_brk / PAGE_SIZE) = sumw pages l + (new_brk - rend e) / PAGE_SIZE) as ->.
    { rewrite (sub64_small (brk mm)) by lia. rewrite Hpg. pose proof (ok_total _ _ Ha') as Ht'. cbn in Ht'.
      destruct (pages_in_u64 _ (proj2 (ok_tree _ _ Ha'))) as [Hpp _]. rewrite Htot, sub64_small by lia. lia. }
    split; [exact Ha'|]. apply (brk_ok_resized mm); try done; lia.
Qed.

Lemma do_brk_keeps mm l req :
  areas_ok mm l -> brk_ok mm l -> (length l < om_cap)%nat -> Z.of_nat (length l) + 1 < 4294967295 ->
  0 <= req -> req + PAGE_SIZE < u64_size ->
  exists r mm' l', do_brk mm req = Ret (r, mm') /\ areas_ok mm' l' /\ brk_ok mm' l'.
Proof.
  intros Ha Hb Hcap Hlen Hr0 Hru. unfold do_brk. destruct (page_align_up_spec req) as [Hd Hbb]; [done|lia|].
  destruct (Z.ltb_spec (page_align_up req) (start_brk mm)) as [Hlow|Hge]; [by eexists _, mm, l|].
  destruct (Z.eqb_spec (page_align_up req) (brk mm)) as [Heq|Hne]; [by eexists _, mm, l|].
  assert (exists r mm' l', (if brk mm <? page_align_up req then brk_expand mm (brk mm) (page_align_up req)
                            else brk_shrink mm (brk mm) (page_align_up req)) = Ret (r, mm') /\ areas_ok mm' l' /\
    match r with Ok _ => brk_ok (set_brk mm' (page_align_up req)) l' | Err _ => brk_ok mm' l' end) as (r & mm' & l' & -> & Ha' & Hb').
  { destruct (Z.ltb_spec (brk mm) (page_align_up req)); [apply (brk_expand_keeps mm l)|apply (brk_shrink_keeps mm l)]; done || lia. }
  mstep. destruct r; eexists _, _, l'; (split; [done|]); (split; [|exact Hb']); [by apply areas_ok_set_brk|done].
Qed.

(** ** Reachable address spaces *)
(** One call of the address-space routines; the label tells whether the heap area was kept
    (removing an area may take it away).  No mapping request makes a heap area. *)
Inductive mm_step : bool -> Mm M -> Mm M -> Prop :=
| step_mmap mm start end_ info b mm' :
    0 <= start < end_ -> end_ < u64_size -> (PAGE_SIZE | start) -> (PAGE_SIZE | end_) ->
    flags_contain (vi_flags info) HEAP = false ->
    vma_count mm < Z.of_nat om_cap -> vma_count mm + 1 < 4294967295 ->
    insert_vma mm start end_ info = Ret (b, mm') -> mm_step true mm mm'
| step_munmap mm start r mm' :
    remove_vma mm start = Ret (r, mm') ->
    mm_step (match r with Some (_, info) => negb (flags_contain (vi_flags info) HEAP) | None => true end) mm mm'
| step_brk mm req r mm' :
    0 <= req -> req + PAGE_SIZE < u64_size ->
    vma_count mm < Z.of_nat om_cap -> vma_count mm + 1 < 4294967295 ->
    do_brk mm req = Ret (r, mm') -> mm_step true mm mm'
| step_stack_fault mm fault v mm' :
    in_u64 fault -> expand_stack_for_fault mm fault = Ret (v, mm') -> mm_step true mm mm'.

Inductive mm_reachable : bool -> Mm M -> Prop :=
| reach_init base pgd_ :
    (PAGE_SIZE | base) -> 0 <= base < u64_size ->
    mm_reachable true
                 (let mm := init uninit pgd_ in
                  mkMm (vma_tree mm) (vma_count mm) (pgd mm) base base (start_stack mm) (mmap_base mm)
                    (mmap_legacy_base mm) (total_vm mm) (exec_vm mm) (stack_vm mm))
| reach_step kept kept' mm mm' : mm_reachable kept mm -> mm_step kept' mm mm' -> mm_reachable (kept && kept') mm'.

(** The invariant of the steps. *)
Definition mm_inv (kept : bool) mm l : Prop := areas_ok mm l /\ brk_ok mm l /\ (kept = true -> heap_ok mm l).

Lemma mm_inv_insert kept mm mm' l start end_ info b :
  mm_inv kept mm l -> (length l < om_cap)%nat -> Z.of_nat (length l) + 1 < 4294967295 ->
  0 <= start < end_ -> end_ < u64_size -> (PAGE_SIZE | start) -> (PAGE_SIZE | end_) ->
  flags_contain (vi_flags info) HEAP = false ->
  insert_vma mm start end_ info = Ret (b, mm') -> exists l', mm_inv kept mm' l'.
Proof.
  intros (Ha & Hbk & Hh) Hc1 Hc2 Hse Hu Hs4 He4 Hnh Hrun.
  destruct (insert_vma_ok mm l start end_ info Ha) as [(_ & mm1 & Heq & Ha' & Hb & Hsb)|[_ Heq]];
    [done|done|done|done|done|done| |]; rewrite Heq in Hrun; injection Hrun as <- <-; [|by exists l].
  assert (Hold : forall k e, (k, e) ∈ al_insert start (mkRange start end_ info) l -> has_flag HEAP e = true -> (k, e) ∈ l).
  { intros k e [[= -> ->]|Hin]%al_insert_elem Hf; [|done]. unfold has_flag in Hf. cbn [rvalue] in Hf. congruence. }
  eexists. split; [exact Ha'|]. split.
  - destruct Hbk as [Hba Hbo Hha]. split; rewrite ?Hb, ?Hsb; [done..|]. intros k e Hin Hf. apply (Hha k); [by apply Hold|done].
  - intros Hk. destruct (Hh Hk) as [Hba Hbo Hha Hhp]. split; rewrite ?Hb, ?Hsb; [done..| |].
    + intros k e Hin Hf. apply (Hha k); [by apply Hold|done].
    + intros Hne. destruct (Hhp Hne) as (q & Hq & Hf). exists q. split; [|done]. apply al_insert_elem. by right.
Qed.

Lemma mm_inv_remove kept mm mm' l start r :
  mm_inv kept mm l -> remove_vma mm start = Ret (r, mm') ->
  exists l', mm_inv (kept && match r with Some (_, info) => negb (flags_contain (vi_flags info) HEAP) | None => true end) mm' l'.
Proof.
  intros (Ha & Hbk & Hh) Hrun.
  destruct (remove_vma_ok mm l start Ha) as (mm1 & Heq & Ha' & Hb & Hsb). rewrite Heq in Hrun. injection Hrun as <- <-.
  eexists. split; [exact Ha'|]. split.
  - destruct Hbk as [Hba Hbo Hha]. split; rewrite ?Hb, ?Hsb; [done..|]. intros k e [_ Hin]%al_remove_elem. by apply (Hha k).
  - intros [Hk Hr]%andb_prop. destruct (Hh Hk) as [Hba Hbo Hha Hhp]. split; rewrite ?Hb, ?Hsb; [done..| |].
    + intros k e [_ Hin]%al_remove_elem. by apply (Hha k).
    + intros Hne. destruct (Hhp Hne) as (q & Hq & Hf). exists q. split; [|done]. apply al_remove_elem. split; [|done].
      cbn [fst]. intros <-. pose proof (proj2 (ok_tree _ _ Ha)) as Hwf.
      apply al_lookup_elem in Hq; [|by eapply ranges_wf_sorted]. rewrite Hq in Hr. cbn [option_map] in Hr.
      unfold has_flag in Hf. by rewrite Hf in Hr.
Qed.

Lemma mm_inv_brk kept mm mm' l req r :
  mm_inv kept mm l -> (length l < om_cap)%nat -> Z.of_nat (length l) + 1 < 4294967295 ->
  0 <= req -> req + PAGE_SIZE < u64_size ->
  do_brk mm req = Ret (r, mm') -> exists l', mm_inv kept mm' l'.
Proof.
  intros (Ha & Hbk & Hh) Hc1 Hc2 Hr0 Hru Hrun. destruct kept.
  - destruct (do_brk_ok mm l req (conj Ha (Hh eq_refl))) as [(err & mm1 & Heq & [Ha' Hh'] & _)|(_ & mm1 & l' & Heq & [Ha' Hh'] & _)];
      [done|done|done|done| |]; rewrite Heq in Hrun; injection Hrun as <- <-; eexists;
      (split; [exact Ha'|]; split; [by apply heap_ok_brk_ok|done]).
  - destruct (do_brk_keeps mm l req Ha Hbk) as (r1 & mm1 & l' & Heq & Ha' & Hb'); [done..|].
    rewrite Heq in Hrun. injection Hrun as <- <-. by exists l'.
Qed.

Lemma mm_inv_step kept kept' mm mm' l : mm_inv kept mm l -> mm_step kept' mm mm' -> exists l', mm_inv (kept && kept') mm' l'.
Proof.
  intros Hok Hstep. pose proof Hok as (Ha & Hbk & Hh). pose proof (ok_count _ _ Ha) as Hc. destruct Hstep as
    [mm start end_ info b mm' Hse Hu Hs4 He4 Hnh Hc1 Hc2 Hrun|mm start r mm' Hrun
    |mm req r mm' Hr0 Hru Hc1 Hc2 Hrun|mm fault v mm' Hf Hrun]; rewrite ?andb_true_r.
  - rewrite Hc in Hc1, Hc2. by eapply (mm_inv_insert kept mm mm' l start end_ info); try done; lia.
  - by eapply mm_inv_remove.
  - rewrite Hc in Hc1, Hc2. by eapply (mm_inv_brk kept mm mm' l req); try done; lia.
  - destruct (expand_stack_for_fault_ok mm l fault Ha Hf) as [Heq|(e & mm1 & Hin & Hg & _ & _ & Heq & Ha' & Hb & Hsb & _)];
      rewrite Heq in Hrun; injection Hrun as <- <-; [by exists l|].
    pose proof (growsdown_not_heap mm l _ e Hbk Hin Hg) as Hnh. eexists. split; [exact Ha'|].
    split; [by apply (brk_ok_lowered mm)|]. intros Hk. apply (heap_ok_lowered mm); try done; [apply (ok_tree _ _ Ha)|by apply Hh].
Qed.

(** C3. In every address space reached from a new one by mapping areas, removing areas (the
    heap too), moving the break and growing the stack on faults, the areas are disjoint
    and page aligned, [vma_count] is their number, and [total_vm] and [stack_vm] are
    exactly the pages of all areas and of the stack areas.  As long as no heap area was
    removed the heap is the one area between [start_brk] and [brk]; after that a heap area
    still lies above [start_brk] and, if it begins below the break, ends at it.  Areas are
    added only while there are fewer of them than the area map is known to hold (127 for
    the B-tree of the kernel, whose deeper trees lose their balance), none of them asked
    for as a heap area, and break requests end at least a page below the top of the
    64-bit range. *)
Theorem reachable_mm_accounting kept mm :
  mm_reachable kept mm ->
  exists l, mt_ok (vma_tree mm) l /\ page_aligned l /\ vma_count mm = Z.of_nat (length l) /\
    total_vm mm = sumw pages l /\ stack_vm mm = sumw stack_pages l /\ brk_ok mm l /\
    (kept = true -> heap_ok mm l).
Proof.
  intros Hr. assert (exists l, mm_inv kept mm l) as (l & [Ht Hc _ _ Htot Hst Hal] & Hb & Hh).
  { induction Hr as [base pgd_ Hd Hb|kept kept' mm mm' _ [l Hok] Hstep]; [|by apply (mm_inv_step kept kept' mm mm' l)].
    assert (Hno : forall k (e : area), (k, e) ∈ ([] : list (Z * area)) -> False) by (intros k e Hin; by apply elem_of_nil in Hin).
    exists []. split; [|split; [|intros _]]; split; try done; try (cbn; lia); [apply new_ok|constructor|..];
      intros k e Hin; by destruct (Hno k e). }
  exists l. by split_and!.
Qed.

(** [do_brk] rounds the request up to a page.  On success the heap is exactly
    [start_brk, brk): every address up to the new break is backed by a heap area, every
    address between the new and a higher old break is unmapped, and no other address
    changes.  On an error (below the start, a conflict with another area, a failed
    shrink) areas, counters and break stay as they were. *)
Theorem do_brk_moves_the_heap_end mm l req :
  mm_ok mm l -> (length l < om_cap)%nat -> Z.of_nat (length l) + 1 < 4294967295 ->
  0 <= req -> req + PAGE_SIZE < u64_size ->
  exists r mm' l', do_brk mm req = Ret (r, mm') /\ mm_ok mm' l' /\ start_brk mm' = start_brk mm /\
    match r with
    | Ok b => b = page_align_up req /\ (PAGE_SIZE | b) /\ req <= b < req + PAGE_SIZE /\
              brk mm' = b /\ heap_is mm l b l'
    | Err _ => l' = l /\ brk mm' = brk mm
    end.
Proof.
  intros Hok Hcap Hlen Hr0 Hru. destruct (page_align_up_spec req) as [Hd Hb]; [done|lia|].
  destruct (do_brk_ok mm l req Hok Hcap Hlen Hr0 Hru)
    as [(err & mm' & Hrun & Hok' & H1 & H2)|(_ & mm' & l' & Hrun & Hok' & H1 & H2 & H3)].
  - exists (Err err), mm', l. done.
  - exists (Ok (page_align_up req)), mm', l'. done.
Qed.

(** A stack fault grows the stack only within the limit: either nothing changes, or the
    lowest stack area above the fault is extended down to the faulting page, which lies
    no further than the stack size below the stack top; the added pages were free, the
    returned area contains the fault, and the counters stay exact. *)
Theorem stack_fault_grows_within_limit mm l fault :
  mm_ok mm l -> in_u64 fault ->
  exists o mm' l', expand_stack_for_fault mm fault = Ret (o, mm') /\ mm_ok mm' l' /\
    match o with
    | None => mm' = mm
    | Some v =>
        vma_contains v fault = true /\ flags_contain (vm_flags v) GROWSDOWN = true /\
        stack_expand_min_addr mm <= vm_start v /\ (PAGE_SIZE | vm_start v) /\
        exists old, (old, mkRange old (vm_end v) (mkVmaInfo (vm_flags v) (vm_pgoff v) (vm_file v) (vm_private_data v))) ∈ l /\
          vm_start v < old /\ no_overlap l (vm_start v) old
    end.
Proof.
  intros Hok Hf. destruct (page_of_spec fault Hf) as (Hpd & Hp0 & Hpf).
  destruct (expand_stack_for_fault_ok mm l fault (proj1 Hok) Hf)
    as [Hrun|(e & mm' & Hin & Hg & Hmin & Hno & Hrun & Ha' & Hb' & Hsb' & _)]; [by exists None, mm, l|].
  assert (Hok' : mm_ok mm' (lowered l e (Z.land fault (not64 (PAGE_SIZE - 1))))).
  { split; [exact Ha'|]. apply (heap_ok_lowered mm); try done; [apply (ok_tree _ _ (proj1 Hok))|apply Hok|].
    by apply (growsdown_not_heap mm l (rstart e)), Hg; [apply heap_ok_brk_ok, Hok|]. }
  pose proof (ranges_wf_elem _ _ _ _ (proj2 (ok_tree _ _ (proj1 Hok))) Hin) as [_ Hb].
  eexists _, mm', _. split; [exact Hrun|]. split; [exact Hok'|]. cbn [from_tree vm_start vm_end vm_flags vm_pgoff vm_file vm_private_data].
  split.
  - unfold vma_contains. cbn [from_tree vm_start vm_end]. apply andb_true_intro. rewrite Z.leb_le, Z.ltb_lt. split; [lia|].
    assert (Z.land fault (not64 (PAGE_SIZE - 1)) + PAGE_SIZE <= rstart e); [|lia].
    pose proof (ok_aligned _ _ (proj1 Hok)) as Hal. eapply Forall_forall in Hal; [|exact Hin]. cbn [snd] in Hal.
    destruct Hpd as [x Hx], Hal as [[y Hy] _]. unfold PAGE_SIZE in *. lia.
  - split; [exact Hg|]. split; [lia|]. split; [done|]. exists (rstart e). split; [|split; [lia|done]].
    destruct e as [s t [f pg fl pd]]. exact Hin.
Qed.

(** A free-area search whose request fits between its hint and the end of user space
    returns the lowest page-aligned address, not below the hint rounded up nor below
    the start of user space, whose block meets no area; [None] means that there is none. *)
Theorem find_free_area_lowest_fit mm l hint size :
  areas_ok mm l -> 0 < size -> 0 <= hint ->
  let h := Z.max (page_align_up hint) USER_SPACE_START in
  let sz := page_align_up size in
  let limit := USER_SPACE_END - PAGE_SIZE in
  hint + PAGE_SIZE <= u64_size -> size + PAGE_SIZE <= u64_size -> h + sz <= limit ->
  exists o, find_free_area mm hint size = Ret o /\
    match o with
    | Some a => (PAGE_SIZE | a) /\ gap_at l sz h limit a /\ forall x, gap_at l sz h limit x -> a <= x
    | None => forall x, ~ gap_at l sz h limit x
    end.
Proof.
  intros Ha Hsz Hh h sz limit Hhu Hsu Hfit. destruct (page_align_up_spec hint Hh Hhu) as [Hhd Hhb].
  destruct (page_align_up_spec size ltac:(lia) Hsu) as [Hsd Hsb]. fold sz in Hsd, Hsb. unfold find_free_area. fold sz.
  assert ((if (page_align_up hint =? 0) || (page_align_up hint <? USER_SPACE_START) then USER_SPACE_START
           else page_align_up hint) = h) as ->.
  { unfold h. destruct (Z.eqb_spec (page_align_up hint) 0), (Z.ltb_spec (page_align_up hint) USER_SPACE_START);
      cbn [orb]; unfold USER_SPACE_START in *; lia. }
  change (saturating_sub64 USER_SPACE_END PAGE_SIZE) with limit.
  pose proof (ok_tree _ _ Ha) as Ht. pose proof (ok_aligned _ _ Ha) as Hal.
  assert (Hh4 : (PAGE_SIZE | h)).
  { unfold h. destruct (Z.max_spec (page_align_up hint) USER_SPACE_START) as [[_ ->]|[_ ->]]; [by exists 1024|done]. }
  assert (Hlim : limit < u64_size) by (unfold limit, USER_SPACE_END, PAGE_SIZE; lia).
  assert (Hh0 : 0 <= h) by (unfold h, USER_SPACE_START; lia).
  destruct (find_gap_ok (vma_tree mm) l sz h limit) as (o & -> & Hspec); try done; try lia.
  exists o. split; [done|]. destruct o as [a|]; [|done]. destruct Hspec as [Hgap Hlow]. split; [|done].
  eapply lowest_gap_aligned; [exact Hh4| |exact Hgap|exact Hlow].
  eapply Forall_impl; [exact Hal|]. intros kv Hkv. apply Hkv.
Qed.
End Invariant.


(** The page-table flags of an area made from the [mmap] protection bits: the page is
    always present and a user page, it is writable exactly when [PROT_WRITE] was asked
    for and not executable exactly when [PROT_EXEC] was not; no other bit is set, and
    no request makes an area that counts as heap. *)
Theorem mmap_permissions_reach_the_page_table prot flags :
  let vm := mmap_flags_to_vm_flags prot flags in
  to_user_pte_flags vm =
    5 + (if Z.land prot PROT_WRITE =? 0 then 0 else 2) + (if Z.land prot PROT_EXEC =? 0 then Z.shiftl 1 63 else 0) /\
  is_read vm = negb (Z.land prot PROT_READ =? 0) /\
  is_shared vm = negb (Z.land flags MAP_SHARED =? 0) /\
  is_anonymous vm = negb (Z.land flags MAP_ANONYMOUS =? 0) /\
  flags_contain vm GROWSDOWN = negb (Z.land flags MAP_GROWSDOWN =? 0) /\
  flags_contain vm HEAP = false.
Proof.
  intros vm. unfold vm, mmap_flags_to_vm_flags.
  destruct (Z.land prot PROT_READ =? 0), (Z.land prot PROT_WRITE =? 0), (Z.land prot PROT_EXEC =? 0),
    (Z.land flags MAP_SHARED =? 0), (Z.land flags MAP_ANONYMOUS =? 0), (Z.land flags MAP_GROWSDOWN =? 0),
    (Z.land flags MAP_LOCKED =? 0), (Z.land flags MAP_HUGETLB =? 0); vm_compute; split_and!; reflexivity.
Qed.

(** ** A concrete address space on the B-tree *)
Definition ex_base : Mm (BTree area) :=
  let mm := init uninit 77 in
  mkMm (vma_tree mm) (vma_count mm) (pgd mm) 0x600000 0x600000 (start_stack mm) (mmap_base mm)
    (mmap_legacy_base mm) (total_vm mm) (exec_vm mm) (stack_vm mm).

Definition stack_area : VmaInfo := VmaInfo_new (Z.lor (Z.lor READ WRITE) GROWSDOWN).

(** A code area, a stack of two pages and a heap of three. *)
Definition ex_mm_run : exec (Mm (BTree area)) :=
  '(_, m1) ← insert_vma ex_base 0x400000 0x402000 (VmaInfo_new (Z.lor READ EXEC));
  '(_, m2) ← insert_vma m1 (USER_STACK_TOP - 8192) USER_STACK_TOP stack_area;
  '(_, m3) ← do_brk m2 0x602001;
  Ret m3.

Definition ex_areas : list (Z * area) :=
  [(0x400000, mkRange 0x400000 0x402000 (VmaInfo_new 5)); (0x600000, mkRange 0x600000 0x603000 (VmaInfo_new heap_flags));
   (USER_STACK_TOP - 8192, mkRange (USER_STACK_TOP - 8192) USER_STACK_TOP stack_area)].

Definition ex_mm : Mm (BTree area) :=
  mkMm (mkBTree (mkNode true (map fst ex_areas) (map snd ex_areas) []) 3)
    3 77 0x600000 0x603000 0 USER_MMAP_BASE USER_MMAP_BASE 7 2 2.

Lemma ex_mm_runs : ex_mm_run = Ret ex_mm.
Proof. vm_compute. reflexivity. Qed.

Lemma ex_areas_ok : areas_ok ex_mm ex_areas.
Proof.
  split; [|reflexivity|vm_compute; lia|reflexivity|reflexivity|reflexivity|].
  - split; [|vm_compute; intuition discriminate]. left.
    split; [|reflexivity|unfold ex_areas, USER_STACK_TOP; simpl; repeat constructor; simpl; lia|reflexivity].
    apply wf_leaf. exists ex_areas. split; [reflexivity|]. unfold MAX_KEYS, B. simpl. lia.
  - unfold page_aligned, ex_areas. rewrite !Forall_cons, Forall_nil. cbn [snd rstart rend]. split_and!; try done; by apply Z.mod_divide.
Qed.

Lemma ex_mm_ok : mm_ok ex_mm ex_areas.
Proof.
  split; [apply ex_areas_ok|]. split.
  - split; by apply Z.mod_divide.
  - cbn. lia.
  - intros k e [[= -> ->]|[[= -> ->]|[[= -> ->]|[]%elem_of_nil]%elem_of_cons]%elem_of_cons]%elem_of_cons; vm_compute; intuition discriminate.
  - intros _. exists (mkRange 0x600000 0x603000 (VmaInfo_new heap_flags)). split; [|reflexivity].
    apply elem_of_cons. right. apply elem_of_cons. by left.
Qed.

(** The heap is made, removed, and the break moved again: the heap is then a new area. *)
Lemma reachable_mm_accounting_witness :
  exists mm l, mm_reachable false mm /\ mt_ok (vma_tree mm) l /\ brk_ok mm l /\ total_vm mm = 2 /\ total_vm mm = sumw pages l.
Proof.
  assert (Hd : (PAGE_SIZE | 0x600000)) by (by apply Z.mod_divide).
  pose proof (reach_init (M := BTree area) 0x600000 77 Hd ltac:(lia)) as Hr.
  match type of Hr with mm_reachable _ ?m =>
    destruct (do_brk m 0x602001) as [[r mm1]| |] eqn:Hrun; [|vm_compute in Hrun; discriminate..];
    pose proof (reach_step _ _ _ mm1 Hr (step_brk m 0x602001 r mm1 ltac:(lia) ltac:(vm_compute; reflexivity) ltac:(vm_compute; reflexivity) ltac:(vm_compute; reflexivity) Hrun)) as Hr1
  end.
  clear Hr. vm_compute in Hrun. injection Hrun as <- <-.
  match type of Hr1 with mm_reachable _ ?m =>
    destruct (remove_vma m 0x600000) as [[r mm2]| |] eqn:Hrun; [|vm_compute in Hrun; discriminate..];
    pose proof (reach_step _ _ _ mm2 Hr1 (step_munmap m 0x600000 r mm2 Hrun)) as Hr2
  end.
  clear Hr1. vm_compute in Hrun. injection Hrun as <- <-.
  match type of Hr2 with mm_reachable _ ?m =>
    destruct (do_brk m 0x605000) as [[r mm3]| |] eqn:Hrun; [|vm_compute in Hrun; discriminate..];
    pose proof (reach_step _ _ _ mm3 Hr2 (step_brk m 0x605000 r mm3 ltac:(lia) ltac:(vm_compute; reflexivity) ltac:(vm_compute; reflexivity) ltac:(vm_compute; reflexivity) Hrun)) as Hr3
  end.
  clear Hr2. vm_compute in Hrun. injection Hrun as <- <-.
  destruct (reachable_mm_accounting _ _ Hr3) as (l & Hl & _ & _ & Ht & _ & Hb & _). eexists _, l.
  split; [exact Hr3|]. split; [exact Hl|]. split; [exact Hb|]. split; [reflexivity|exact Ht].
Defined.

Lemma do_brk_moves_the_heap_end_witness :
  exists mm' l', do_brk ex_mm 0x601000 = Ret (Ok 0x601000, mm') /\ mm_ok mm' l' /\ heap_is ex_mm ex_areas 0x601000 l'.
Proof.
  destruct (do_brk_moves_the_heap_end ex_mm ex_areas 0x601000 ex_mm_ok ltac:(vm_compute; lia) ltac:(vm_compute; reflexivity)
    ltac:(lia) ltac:(vm_compute; reflexivity)) as (r & mm' & l' & H1 & H2 & _ & H3).
  exists mm', l'. vm_compute in H1. injection H1 as <- <-. destruct H3 as (_ & _ & _ & _ & H3).
  split; [vm_compute; reflexivity|]. split; [exact H2|exact H3].
Defined.

Lemma stack_fault_grows_within_limit_witness :
  exists v mm' l', expand_stack_for_fault ex_mm (USER_STACK_TOP - 20000) = Ret (Some v, mm') /\ mm_ok mm' l' /\
    vma_contains v (USER_STACK_TOP - 20000) = true /\ stack_expand_min_addr ex_mm <= vm_start v.
Proof.
  destruct (stack_fault_grows_within_limit ex_mm ex_areas (USER_STACK_TOP - 20000) ex_mm_ok ltac:(vm_compute; intuition discriminate))
    as (o & mm' & l' & H1 & H2 & H3). pose proof H1 as H1'. vm_compute in H1'. injection H1' as <- _.
  destruct H3 as (H3 & _ & H4 & _). eexists _, mm', l'. split; [exact H1|]. split; [exact H2|]. split; [exact H3|exact H4].
Defined.

Lemma find_free_area_lowest_fit_witness :
  find_free_area ex_mm 0x400000 5000 = Ret (Some 0x402000) /\ (PAGE_SIZE | 0x402000).
Proof.
  destruct (find_free_area_lowest_fit ex_mm ex_areas 0x400000 5000 ex_areas_ok ltac:(lia) ltac:(lia) ltac:(vm_compute; discriminate)
    ltac:(vm_compute; discriminate) ltac:(vm_compute; discriminate)) as (o & H1 & H2).
  vm_compute in H1. injection H1 as <-. split; [vm_compute; reflexivity|apply H2].
Defined.

(** Giving the whole heap back fails: the area would become empty, and the tree refuses an
    empty range. *)
Example brk_cannot_return_to_its_start : do_brk ex_mm 0x600000 = Ret (Err BrkShrinkFailed, ex_mm).
Proof. vm_compute. reflexivity. Qed.
