(* ===== verification/MmTxn.v ===== *)
(** * Transactions on address spaces: kernel/src/mm/syscall/txn.rs, with
    [collect_unmap_ranges_for_mm] of addr.rs and the reference counts of mapped files of
    kernel/src/fs/runtime/manager.rs

    [munmap] and [mprotect] plan their change of the area tree first, take the references to
    mapped files it needs, and then apply it, undoing everything when a step fails.  The lock
    of the address space is held while planning and while applying; the model runs both as
    one step.  The page table is reached through the interface [PageTableOps]. *)

From S2P Require Import Prelude Errno OrdMap BTree MapleTree Vma.

(** A piece of an area; it has the fields of an entry of the tree. *)
Abbreviation VmaSegment := (RangeEntry VmaInfo).

Record BackingAdjust := mkAdjust { backing_id : Z; retain_count : nat; release_count : nat }.
Record PteUpdate := mkUpdate { pu_start : Z; pu_end : Z; old_flags : Z; new_flags : Z }.

Definition page_align_up_usize (value : Z) : Result Z Z :=
  match checked_add64 value (saturating_sub64 PAGE_SIZE 1) with
  | Some v => Ok (Z.land v (not64 (PAGE_SIZE - 1)))
  | None => Err E2BIG
  end.

Definition mprotect_flags_from_prot (old prot : Z) : Z :=
  let flags := flags_clear old (Z.lor (Z.lor READ WRITE) EXEC) in
  let flags := if negb (Z.land prot PROT_READ =? 0) then flags_set flags READ else flags in
  let flags := if negb (Z.land prot PROT_WRITE =? 0) then flags_set flags WRITE else flags in
  let flags := if negb (Z.land prot PROT_EXEC =? 0) then flags_set flags EXEC else flags in
  if negb (Z.land prot PROT_WRITE =? 0) || flags_contain old MAYWRITE then flags_set flags MAYWRITE else flags.

(** ** Files that are mapped: the number of references per backing *)
Abbreviation Backings := (gmap Z Z).

Definition retain_mmap_backing (id : Z) (b : Backings) : Result unit Z * Backings :=
  match b !! id with
  | None => (Err EBADF, b)
  | Some refs => (Ok tt, <[id := saturating_add64 refs 1]> b)
  end.

Definition release_mmap_backing (id : Z) (b : Backings) : Backings :=
  match b !! id with
  | None => b
  | Some refs => if 1 <? refs then <[id := sub64 refs 1]> b else delete id b
  end.

(** The ids that the two nested loops over the adjustments visit, in order. *)
Definition visits (times : BackingAdjust -> nat) (l : list BackingAdjust) : list Z :=
  flat_map (fun a => replicate (times a) (backing_id a)) l.

Definition release_each (ids : list Z) (b : Backings) : Backings :=
  foldl (fun b id => release_mmap_backing id b) b ids.

Fixpoint retain_each (ids retained : list Z) (b : Backings) : Result unit Z * Backings :=
  match ids with
  | [] => (Ok tt, b)
  | id :: ids' =>
      match retain_mmap_backing id b with
      | (Err errno, b) => (Err errno, release_each (reverse retained) b)
      | (Ok _, b) => retain_each ids' (retained ++ [id]) b
      end
  end.

Definition apply_backing_retains (adjustments : list BackingAdjust) (b : Backings) : Result unit Z * Backings :=
  retain_each (visits retain_count adjustments) [] b.
Definition rollback_backing_retains (adjustments : list BackingAdjust) (b : Backings) : Backings :=
  release_each (visits retain_count (reverse adjustments)) b.
Definition apply_backing_releases (adjustments : list BackingAdjust) (b : Backings) : Backings :=
  release_each (visits release_count adjustments) b.

(** ** Pieces of areas *)
Definition vma_backing_id (info : VmaInfo) : option Z := if vi_file info =? 0 then None else Some (vi_file info).

Definition with_pgoff (info : VmaInfo) (pgoff : Z) : VmaInfo :=
  mkVmaInfo (vi_flags info) pgoff (vi_file info) (vi_private_data info).
Definition with_flags (flags : Z) (s : VmaSegment) : VmaSegment :=
  mkRange (rstart s) (rend s)
    (mkVmaInfo flags (vi_pgoff (rvalue s)) (vi_file (rvalue s)) (vi_private_data (rvalue s))).

Definition clone_vma_slice (base : VmaSegment) (start end_ : Z) : VmaSegment :=
  let pgoff_delta := saturating_sub64 start (rstart base) / PAGE_SIZE in
  mkRange start end_ (with_pgoff (rvalue base) (saturating_add64 (vi_pgoff (rvalue base)) pgoff_delta)).

Definition backing_adjust_for_segments (base : VmaSegment) (kept_segments : nat) : option BackingAdjust :=
  id ← vma_backing_id (rvalue base);
  Some (mkAdjust id (kept_segments - 1) (if decide (kept_segments = 0%nat) then 1 else 0)).

(** [if let Some(adjust) = .. { adjusts.push(adjust) }] *)
Definition push_some {A} (l : list A) (o : option A) : list A := l ++ option_list o.

(** What planning produces. *)
Record Plan (X : Type) := mkPlan {
  removed : list VmaSegment; inserted : list VmaSegment; backing_adjusts : list BackingAdjust; effects : list X
}.
Arguments mkPlan {X} removed inserted backing_adjusts effects.
Arguments removed {X} p.
Arguments inserted {X} p.
Arguments backing_adjusts {X} p.
Arguments effects {X} p.

Section Txn.
Context {M : Type} `{Hops : OrdMapOps M (RangeEntry VmaInfo)}.
Implicit Types (mm : Mm M).

Definition mm_insert_vma_locked mm (segment : VmaSegment) : exec (bool * Mm M) :=
  let nr_pages := sub64 (rend segment) (rstart segment) / PAGE_SIZE in
  let flags := vi_flags (rvalue segment) in
  '(r, t) ← insert (vma_tree mm) (rstart segment) (rend segment) (rvalue segment);
  match r with
  | Err _ => Ret (false, set_tree mm t)
  | Ok _ =>
      Ret (true, set_counts (set_tree mm t) (saturating_add32 (vma_count mm) 1) (saturating_add64 (total_vm mm) nr_pages)
                   (if flags_contain flags EXEC then saturating_add64 (exec_vm mm) nr_pages else exec_vm mm)
                   (if flags_contain flags GROWSDOWN then saturating_add64 (stack_vm mm) nr_pages else stack_vm mm))
  end.

Definition mm_remove_vma_locked mm (start : Z) : exec (option VmaSegment * Mm M) :=
  '(r, t) ← remove (vma_tree mm) start;
  match r with
  | None => Ret (None, set_tree mm t)
  | Some (end_, info) =>
      let nr_pages := sub64 end_ start / PAGE_SIZE in
      Ret (Some (mkRange start end_ info),
           set_counts (set_tree mm t) (saturating_sub32 (vma_count mm) 1) (saturating_sub64 (total_vm mm) nr_pages)
             (if flags_contain (vi_flags info) EXEC then saturating_sub64 (exec_vm mm) nr_pages else exec_vm mm)
             (if flags_contain (vi_flags info) GROWSDOWN then saturating_sub64 (stack_vm mm) nr_pages else stack_vm mm))
  end.

(** The two loops of [rollback_vma_transaction]: they go on after a failure. *)
Fixpoint take_back mm (segments : list VmaSegment) (ok : bool) : exec (bool * Mm M) :=
  match segments with
  | [] => Ret (ok, mm)
  | segment :: segments' =>
      '(r, mm) ← mm_remove_vma_locked mm (rstart segment);
      take_back mm segments' (match r with Some _ => ok | None => false end)
  end.
Fixpoint put_back mm (segments : list VmaSegment) (ok : bool) : exec (bool * Mm M) :=
  match segments with
  | [] => Ret (ok, mm)
  | segment :: segments' =>
      '(r, mm) ← mm_insert_vma_locked mm segment;
      put_back mm segments' (if (r : bool) then ok else false)
  end.

Definition rollback_vma_transaction mm (removed inserted : list VmaSegment) : exec (bool * Mm M) :=
  '(ok, mm) ← take_back mm (reverse inserted) true;
  put_back mm removed ok.

(** The loop that removes the planned areas: it stops at a missing one. *)
Fixpoint remove_each mm (segments : list VmaSegment) : exec (bool * Mm M) :=
  match segments with
  | [] => Ret (true, mm)
  | segment :: segments' =>
      '(r, mm) ← mm_remove_vma_locked mm (rstart segment);
      match r with Some _ => remove_each mm segments' | None => Ret (false, mm) end
  end.

(** The loop that inserts the planned areas: a failure undoes the transaction. *)
Fixpoint insert_segments mm (removed inserted_now segments : list VmaSegment) : exec (bool * Mm M) :=
  match segments with
  | [] => Ret (true, mm)
  | segment :: segments' =>
      '(r, mm) ← mm_insert_vma_locked mm segment;
      if (r : bool) then insert_segments mm removed (inserted_now ++ [segment]) segments'
      else '(_, mm) ← rollback_vma_transaction mm removed inserted_now; Ret (false, mm)
  end.

(** The part common to [mprotect_range_for_mm] and [collect_unmap_ranges_for_mm]: take the
    references, then replace the areas. *)
Definition apply_plan {X} mm (b : Backings) (p : Plan X) : exec (Result unit Z * Mm M * Backings) :=
  match apply_backing_retains (backing_adjusts p) b with
  | (Err errno, b) => Ret (Err errno, mm, b)
  | (Ok _, b) =>
      '(ok, mm) ← remove_each mm (removed p);
      if negb ok then Ret (Err EBUSY, mm, rollback_backing_retains (backing_adjusts p) b)
      else
        '(ok, mm) ← insert_segments mm (removed p) [] (inserted p);
        if negb ok then Ret (Err EBUSY, mm, rollback_backing_retains (backing_adjusts p) b)
        else Ret (Ok tt, mm, b)
  end.

(** ** Planning [munmap] *)
Fixpoint plan_unmap_loop (fuel : nat) mm (addr end_ cursor : Z) (p : Plan (Z * Z)) : exec (Plan (Z * Z)) :=
  match fuel with
  | O => OutOfFuel
  | S fuel' =>
      found ← iter_intersecting (vma_tree mm) cursor end_;
      match head found with
      | None => Ret p
      | Some (vma_start, vma_end, info) =>
          let original := mkRange vma_start vma_end info in
          let cut_start := Z.max vma_start addr in
          let cut_end := Z.min vma_end end_ in
          let left := if vma_start <? cut_start then [clone_vma_slice original vma_start cut_start] else [] in
          let right := if cut_end <? vma_end then [clone_vma_slice original cut_end vma_end] else [] in
          let kept_segments := (length left + length right)%nat in
          let p := mkPlan (removed p ++ [original]) (inserted p ++ left ++ right)
                     (push_some (backing_adjusts p) (backing_adjust_for_segments original kept_segments))
                     (effects p ++ [(cut_start, cut_end)]) in
          if end_ <=? cut_end then Ret p else plan_unmap_loop fuel' mm addr end_ cut_end p
      end
  end.

(** One round per area at most. *)
Definition plan_unmap_changes mm (addr end_ : Z) : exec (Plan (Z * Z)) :=
  plan_unmap_loop (S (Z.to_nat (len (vma_tree mm)))) mm addr end_ addr (mkPlan [] [] [] []).

Definition collect_unmap_ranges_for_mm mm (b : Backings) (addr end_ : Z)
    : exec (Result (list (Z * Z)) Z * Mm M * Backings) :=
  p ← plan_unmap_changes mm addr end_;
  '(r, mm, b) ← apply_plan mm b p;
  match r with
  | Err errno => Ret (Err errno, mm, b)
  | Ok _ => Ret (Ok (effects p), mm, apply_backing_releases (backing_adjusts p) b)
  end.

(** ** Planning [mprotect] *)
Fixpoint plan_mprotect_loop (fuel : nat) mm (end_ prot cursor : Z) (p : Plan PteUpdate) : exec (Result (Plan PteUpdate) Z) :=
  match fuel with
  | O => OutOfFuel
  | S fuel' =>
      if cursor <? end_ then
        found ← find (vma_tree mm) cursor;
        match found with
        | None => Ret (Err ENOMEM)
        | Some (vma_start, vma_end, info) =>
            if cursor <? vma_start then Ret (Err ENOMEM)
            else
              let original := mkRange vma_start vma_end info in
              let seg_start := cursor in
              let seg_end := Z.min vma_end end_ in
              let left := if vma_start <? seg_start then [clone_vma_slice original vma_start seg_start] else [] in
              let protected := with_flags (mprotect_flags_from_prot (vi_flags info) prot)
                                 (clone_vma_slice original seg_start seg_end) in
              let right := if seg_end <? vma_end then [clone_vma_slice original seg_end vma_end] else [] in
              let kept_segments := (length left + 1 + length right)%nat in
              let update := mkUpdate seg_start seg_end (to_user_pte_flags (vi_flags info))
                              (to_user_pte_flags (vi_flags (rvalue protected))) in
              plan_mprotect_loop fuel' mm end_ prot seg_end
                (mkPlan (removed p ++ [original]) (inserted p ++ left ++ [protected] ++ right)
                   (push_some (backing_adjusts p) (backing_adjust_for_segments original kept_segments))
                   (effects p ++ [update]))
        end
      else Ret (Ok p)
  end.

(** One round per area, and one to notice the end. *)
Definition plan_mprotect_updates mm (start end_ prot : Z) : exec (Result (Plan PteUpdate) Z) :=
  plan_mprotect_loop (S (Z.to_nat (len (vma_tree mm)))) mm end_ prot start (mkPlan [] [] [] []).
End Txn.

(** ** The page table as this code uses it *)
Class PageTableOps (S : Type) := {
  translate_addr : S -> Z -> option Z;
  (** virtual address, physical page, flags; false when a table cannot be allocated *)
  map_page : S -> Z -> Z -> Z -> bool * S;
  unmap_page : S -> Z -> S;
  (** the frame's mapping and reference counts go down, the frame is freed at zero *)
  release_frame : S -> Z -> S
}.

Section Mprotect.
Context {M : Type} `{Hops : OrdMapOps M (RangeEntry VmaInfo)} {S : Type} `{Hpt : PageTableOps S}.

(** The addresses [start], [start + PAGE_SIZE], .. below [end_] that the loops step through; user
    ranges end far below the top of the address space, so [saturating_add] never saturates. *)
Definition page_addrs (start end_ : Z) : list Z :=
  map (fun i => start + Z.of_nat i * PAGE_SIZE) (seq 0 (Z.to_nat ((end_ - start + PAGE_SIZE - 1) / PAGE_SIZE))).

Fixpoint apply_pte_flags (addrs : list Z) (pte_flags : Z) (s : S) : Result unit Z * S :=
  match addrs with
  | [] => (Ok tt, s)
  | cursor :: addrs' =>
      match translate_addr s cursor with
      | Some phys =>
          let phys_page := Z.land phys (not64 (PAGE_SIZE - 1)) in
          let '(ok, s) := map_page s cursor phys_page pte_flags in
          if (ok : bool) then apply_pte_flags addrs' pte_flags s else (Err ENOMEM, s)
      | None => apply_pte_flags addrs' pte_flags s
      end
  end.

Definition apply_pte_flags_range (start end_ pte_flags : Z) (s : S) : Result unit Z * S :=
  apply_pte_flags (page_addrs start end_) pte_flags s.

Fixpoint undo_updates (applied : list PteUpdate) (s : S) : S :=
  match applied with
  | [] => s
  | u :: applied' => undo_updates applied' (snd (apply_pte_flags_range (pu_start u) (pu_end u) (old_flags u) s))
  end.

Fixpoint apply_updates (updates applied : list PteUpdate) (s : S) : Result unit Z * S :=
  match updates with
  | [] => (Ok tt, s)
  | u :: updates' =>
      match apply_pte_flags_range (pu_start u) (pu_end u) (new_flags u) s with
      | (Err errno, s) => (Err errno, undo_updates (reverse applied) s)
      | (Ok _, s) => apply_updates updates' (applied ++ [u]) s
      end
  end.

Definition mprotect_range_for_mm (mm : Mm M) (b : Backings) (s : S) (start end_ prot : Z)
    : exec (Result unit Z * Mm M * Backings * S) :=
  r ← plan_mprotect_updates mm start end_ prot;
  match r with
  | Err errno => Ret (Err errno, mm, b, s)
  | Ok p =>
      '(r, mm, b) ← apply_plan mm b p;
      match r with
      | Err errno => Ret (Err errno, mm, b, s)
      | Ok _ =>
          match apply_updates (effects p) [] s with
          | (Ok _, s) => Ret (Ok tt, mm, b, s)
          | (Err errno, s) =>
              '(_, mm) ← rollback_vma_transaction mm (removed p) (inserted p);
              Ret (Err errno, mm, rollback_backing_retains (backing_adjusts p) b, s)
          end
      end
  end.
End Mprotect.

(** ** References to mapped files *)
Definition refs (b : Backings) (id : Z) : Z := default 0 (b !! id).
Definition positive (b : Backings) : Prop := map_Forall (fun _ n => 0 < n) b.
Definition times (id : Z) (ids : list Z) : Z := Z.of_nat (length (filter (fun x => x = id) ids)).

Lemma positive_refs b id : positive b -> b !! id = if decide (refs b id = 0) then None else Some (refs b id).
Proof.
  intros Hp. unfold refs. destruct (b !! id) as [n|] eqn:E; cbn; [|done]. specialize (Hp id n E). cbn in Hp. by rewrite decide_False by lia.
Qed.

Lemma positive_ext b b' : positive b -> positive b' -> (forall id, refs b id = refs b' id) -> b = b'.
Proof. intros H H' E. apply map_eq. intros id. rewrite !positive_refs by done. by rewrite E. Qed.

Lemma times_cons id x ids : times id (x :: ids) = (if decide (x = id) then 1 else 0) + times id ids.
Proof. unfold times. rewrite filter_cons. case_decide; cbn [length]; lia. Qed.
Lemma times_app id l1 l2 : times id (l1 ++ l2) = times id l1 + times id l2.
Proof. unfold times. rewrite filter_app, length_app. lia. Qed.
Lemma times_nonneg id l : 0 <= times id l.
Proof. unfold times. lia. Qed.
Lemma times_perm id l l' : l ≡ₚ l' -> times id l = times id l'.
Proof. intros H. unfold times. by rewrite H. Qed.

Lemma release_ok id b :
  positive b -> 1 <= refs b id < u64_size ->
  positive (release_mmap_backing id b) /\
  forall x, refs (release_mmap_backing id b) x = refs b x - (if decide (id = x) then 1 else 0).
Proof.
  intros Hp Hr. unfold release_mmap_backing. pose proof (positive_refs b id Hp) as E. rewrite decide_False in E by lia. rewrite E.
  destruct (Z.ltb_spec 1 (refs b id)) as [H1|H1]; split.
  - apply map_Forall_insert_2; [cbn; rewrite sub64_small by lia; lia|done].
  - intros x. unfold refs at 1. destruct (decide (id = x)) as [<-|Hn].
    + rewrite lookup_insert_eq, sub64_small by lia. done.
    + rewrite lookup_insert_ne by done. fold (refs b x). lia.
  - by apply map_Forall_delete.
  - intros x. unfold refs at 1. destruct (decide (id = x)) as [<-|Hn].
    + rewrite lookup_delete_eq. cbn. lia.
    + rewrite lookup_delete_ne by done. fold (refs b x). lia.
Qed.

Lemma release_each_ok ids b :
  positive b -> (forall id, times id ids <= refs b id < u64_size) ->
  positive (release_each ids b) /\ forall x, refs (release_each ids b) x = refs b x - times x ids.
Proof.
  unfold release_each. revert b. induction ids as [|id ids IH]; intros b Hp Hr; cbn [foldl]; [split; [done|]; intros; unfold times; cbn; lia|].
  assert (H1 : 1 <= refs b id < u64_size).
  { specialize (Hr id). rewrite times_cons, decide_True in Hr by done. pose proof (times_nonneg id ids). lia. }
  destruct (release_ok id b Hp H1) as [Hp' Hr']. destruct (IH _ Hp') as [Hp2 Hr2].
  - intros x. rewrite Hr'. specialize (Hr x). rewrite times_cons in Hr. destruct (decide (id = x)); lia.
  - split; [done|]. intros x. rewrite Hr2, Hr', times_cons. destruct (decide (id = x)); lia.
Qed.

Lemma retain_ok id b :
  positive b -> 1 <= refs b id < U64_MAX ->
  exists b', retain_mmap_backing id b = (Ok tt, b') /\ positive b' /\
    forall x, refs b' x = refs b x + (if decide (id = x) then 1 else 0).
Proof.
  intros Hp Hr. unfold retain_mmap_backing. pose proof (positive_refs b id Hp) as E. rewrite decide_False in E by lia. rewrite E.
  assert (saturating_add64 (refs b id) 1 = refs b id + 1) as -> by (unfold saturating_add64; lia).
  eexists. split; [done|]. split; [apply map_Forall_insert_2; [cbn; lia|done]|].
  intros x. unfold refs at 1. destruct (decide (id = x)) as [<-|Hn]; [by rewrite lookup_insert_eq|].
  rewrite lookup_insert_ne by done. fold (refs b x). lia.
Qed.

(** Taking the references of a list of ids: all of them, or none. *)
Lemma retain_each_ok ids retained b0 b :
  positive b0 -> positive b -> (forall x, refs b x = refs b0 x + times x retained) ->
  (forall id, refs b id + times id ids <= U64_MAX) ->
  let '(r, b') := retain_each ids retained b in
  match r with
  | Ok _ => positive b' /\ (forall x, refs b' x = refs b0 x + times x (retained ++ ids)) /\ Forall (fun id => refs b id <> 0) ids
  | Err errno => errno = EBADF /\ b' = b0 /\ Exists (fun id => refs b id = 0) ids
  end.
Proof.
  intros Hp0. revert retained b. induction ids as [|id ids IH]; intros retained b Hp Hr Hmax; cbn [retain_each].
  - rewrite app_nil_r. split; [done|]. by split.
  - destruct (decide (refs b id = 0)) as [Hz|Hnz].
    + unfold retain_mmap_backing at 1. rewrite (positive_refs b id Hp), decide_True by done. split; [done|]. split; [|by left].
      assert (Hrev : forall x, times x (reverse retained) = times x retained) by (intros x; apply times_perm, reverse_Permutation).
      destruct (release_each_ok (reverse retained) b Hp) as [H1 H2].
      { intros x. rewrite Hrev, Hr. specialize (Hmax x). pose proof (times_nonneg x (id :: ids)). rewrite Hr in Hmax.
        assert (0 <= refs b0 x); [|lia]. unfold refs. destruct (b0 !! x) eqn:E; cbn; [|lia]. specialize (Hp0 x _ E). cbn in Hp0. lia. }
      apply positive_ext; [done|done|]. intros x. rewrite H2, Hrev, Hr. lia.
    + assert (H1 : 1 <= refs b id < U64_MAX).
      { specialize (Hmax id). rewrite times_cons, decide_True in Hmax by done. pose proof (times_nonneg id ids).
        unfold refs in *. destruct (b !! id) eqn:E; cbn in *; [|done]. specialize (Hp id _ E). cbn in Hp. lia. }
      destruct (retain_ok id b Hp H1) as (b1 & -> & Hp1 & Hr1).
      specialize (IH (retained ++ [id]) b1 Hp1). destruct (retain_each ids (retained ++ [id]) b1) as [r b'].
      assert (Hz : forall x, refs b1 x = 0 <-> refs b x = 0).
      { intros x. rewrite Hr1. destruct (decide (id = x)) as [<-|]; [|lia]. lia. }
      specialize (IH ltac:(intros x; rewrite Hr1, Hr, times_app, times_cons; unfold times at 3; cbn; destruct (decide (id = x)); lia)
                     ltac:(intros x; rewrite Hr1; specialize (Hmax x); rewrite times_cons in Hmax; destruct (decide (id = x)); lia)).
      destruct r as [[]|errno].
      * destruct IH as (H2 & H3 & H4). split; [done|]. split; [by rewrite (cons_middle id), app_assoc|].
        constructor; [done|]. eapply Forall_impl; [exact H4|]. cbn. intros x. by rewrite Hz.
      * destruct IH as (H2 & H3 & H4). split; [done|]. split; [done|]. right. eapply Exists_impl; [exact H4|]. intros x. apply Hz.
Qed.

(** ** Replacing areas *)
Definition keyed (e : area) : Z * area := (rstart e, e).

Section Apply.
Context {M : Type} `{HM : OrdMap M (RangeEntry VmaInfo)}.
Implicit Types (mm : Mm M) (l : list (Z * area)).

(** What the area operations leave alone. *)
Definition same_layout mm mm' : Prop :=
  pgd mm' = pgd mm /\ start_brk mm' = start_brk mm /\ brk mm' = brk mm /\ start_stack mm' = start_stack mm /\
  mmap_base mm' = mmap_base mm /\ mmap_legacy_base mm' = mmap_legacy_base mm.

Lemma same_layout_refl mm : same_layout mm mm.
Proof. by repeat split. Qed.
Lemma same_layout_trans mm1 mm2 mm3 : same_layout mm1 mm2 -> same_layout mm2 mm3 -> same_layout mm1 mm3.
Proof. unfold same_layout. intuition congruence. Qed.

Lemma insert_locked_ok mm l e :
  areas_ok mm l -> (length l < om_cap)%nat -> Z.of_nat (length l) + 1 < 4294967295 ->
  0 <= rstart e < rend e -> rend e < u64_size -> (PAGE_SIZE | rstart e) -> (PAGE_SIZE | rend e) ->
  no_overlap l (rstart e) (rend e) ->
  exists mm', mm_insert_vma_locked mm e = Ret (true, mm') /\ areas_ok mm' (al_insert (rstart e) e l) /\ same_layout mm mm'.
Proof.
  intros [Ht Hc Hcap0 Hsm Htot Hst Hal] Hcap Hlen Hse Hend Hs4 He4 Hno. unfold mm_insert_vma_locked.
  destruct (insert_ok (vma_tree mm) l (rstart e) (rend e) (rvalue e) Ht Hcap Hse Hend Hno) as (t & -> & Ht').
  mstep. eexists. split; [done|]. split; [|by repeat split].
  assert (Ee : mkRange (rstart e) (rend e) (rvalue e) = e) by (by destruct e). rewrite Ee in Ht'.
  rewrite sub64_small by lia. change ((rend e - rstart e) / PAGE_SIZE) with (pages e).
  destruct (pages_in_u64 _ (proj2 Ht')) as [Hp Hsp]. rewrite sumw_insert in Hp, Hsp. pose proof (pages_bounds e ltac:(lia)).
  split; cbn [set_counts set_tree vma_tree vma_count total_vm stack_vm]; rewrite ?length_al_insert, ?sumw_insert; try done; try lia.
  - unfold saturating_add32. lia.
  - unfold saturating_add64. lia.
  - rewrite Hst. unfold stack_pages, has_flag, saturating_add64 in *. destruct (flags_contain (vi_flags (rvalue e)) GROWSDOWN); lia.
  - by apply page_aligned_insert.
Qed.

Lemma remove_locked_ok mm l1 e l2 :
  areas_ok mm (l1 ++ keyed e :: l2) ->
  exists mm', mm_remove_vma_locked mm (rstart e) = Ret (Some e, mm') /\ areas_ok mm' (l1 ++ l2) /\ same_layout mm mm'.
Proof.
  intros [Ht Hc Hcap Hsm Htot Hst Hal]. unfold mm_remove_vma_locked. set (l := l1 ++ keyed e :: l2) in *.
  destruct (remove_ok _ l (rstart e) Ht) as (t & -> & Ht'). mstep.
  pose proof (ranges_wf_sorted _ _ (proj2 Ht)) as Hs. assert (Hin : (rstart e, e) ∈ l) by (apply elem_of_app; right; left).
  pose proof (proj1 (al_lookup_elem _ _ _ Hs) Hin) as Hl. rewrite Hl. cbn [option_map].
  destruct (ranges_wf_elem _ _ _ _ (proj2 Ht) Hin) as [_ Hb].
  pose proof Hs as (_ & _ & Hb1 & Ha1)%sorted_middle. cbn in Hb1, Ha1.
  assert (Er : al_remove (rstart e) l = l1 ++ l2) by (by apply al_remove_here).
  eexists. split; [by destruct e|]. split; [|by repeat split].
  rewrite (sub64_small (rend e) (rstart e)) by lia. change ((rend e - rstart e) / PAGE_SIZE) with (pages e).
  assert (Hsum : forall w, sumw w l = w e + sumw w (l1 ++ l2)).
  { intros w. rewrite <- Er, (sumw_remove _ _ e) by done. lia. }
  rewrite Er in Ht'. destruct (pages_in_u64 _ (proj2 Ht')) as [Hp Hsp]. pose proof (stack_pages_bounds e ltac:(lia)).
  assert (Hlen : length l = S (length (l1 ++ l2))) by (unfold l; rewrite !length_app; cbn; lia). rewrite Hsum in Htot, Hst.
  split; cbn [set_counts set_tree vma_tree vma_count total_vm stack_vm]; try done; try lia.
  - unfold saturating_sub32. lia.
  - unfold saturating_sub64. lia.
  - rewrite Hst. unfold stack_pages, has_flag, saturating_sub64 in *. destruct (flags_contain (vi_flags (rvalue e)) GROWSDOWN); lia.
  - rewrite <- Er. by apply page_aligned_remove.
Qed.

(** A run of areas in the middle of the list. *)
Definition run (l1 : list (Z * area)) (es : list area) (l2 : list (Z * area)) : list (Z * area) := l1 ++ map keyed es ++ l2.

Lemma run_cons l1 e es l2 : run l1 (e :: es) l2 = l1 ++ keyed e :: run [] es l2.
Proof. done. Qed.
Lemma run_shift l1 e es l2 : run l1 (e :: es) l2 = run (l1 ++ [keyed e]) es l2.
Proof. unfold run. cbn. by rewrite <- app_assoc. Qed.
Lemma run_snoc l1 e es l2 : run l1 (es ++ [e]) l2 = (l1 ++ map keyed es) ++ keyed e :: l2.
Proof. unfold run. by rewrite map_app, <- !app_assoc. Qed.

Lemma remove_each_ok mm l1 es l2 :
  areas_ok mm (run l1 es l2) ->
  exists mm', remove_each mm es = Ret (true, mm') /\ areas_ok mm' (l1 ++ l2) /\ same_layout mm mm'.
Proof.
  revert mm. induction es as [|e es IH]; intros mm Hok; cbn [remove_each].
  - exists mm. split; [done|]. split; [done|apply same_layout_refl].
  - rewrite run_cons in Hok. destruct (remove_locked_ok mm l1 e _ Hok) as (mm1 & -> & Hok1 & Hl1). mstep.
    destruct (IH mm1 Hok1) as (mm2 & -> & Hok2 & Hl2). exists mm2. split; [done|]. split; [done|]. by eapply same_layout_trans.
Qed.

Lemma take_back_ok mm l1 es l2 ok :
  areas_ok mm (run l1 es l2) ->
  exists mm', take_back mm (reverse es) ok = Ret (ok, mm') /\ areas_ok mm' (l1 ++ l2) /\ same_layout mm mm'.
Proof.
  revert mm l2. induction es as [|e es IH] using rev_ind; intros mm l2 Hok.
  - exists mm. split; [done|]. split; [done|apply same_layout_refl].
  - rewrite run_snoc in Hok. rewrite reverse_snoc. cbn [take_back].
    destruct (remove_locked_ok mm _ e l2 Hok) as (mm1 & -> & Hok1 & Hl1). mstep. rewrite <- app_assoc in Hok1.
    destruct (IH mm1 l2 Hok1) as (mm2 & -> & Hok2 & Hl2). exists mm2. split; [done|]. split; [done|]. by eapply same_layout_trans.
Qed.

(** What must hold of areas that are about to be inserted between [l1] and [l2]. *)
Definition room_for (l1 : list (Z * area)) (es : list area) (l2 : list (Z * area)) : Prop :=
  ranges_wf 0 (run l1 es l2) /\ page_aligned (run l1 es l2) /\ (length (run l1 es l2) <= om_cap)%nat /\
  Z.of_nat (length (run l1 es l2)) < 4294967295.

Lemma areas_ok_room mm l1 es l2 : areas_ok mm (run l1 es l2) -> room_for l1 es l2.
Proof. by intros [[_ ?] ? ? ? ? ? ?]. Qed.

Lemma insert_one_ok mm l1 e es l2 :
  areas_ok mm (l1 ++ l2) -> room_for l1 (e :: es) l2 ->
  exists mm', mm_insert_vma_locked mm e = Ret (true, mm') /\ areas_ok mm' ((l1 ++ [keyed e]) ++ l2) /\ same_layout mm mm'.
Proof.
  intros Hok (Hwf & Hal & Hcap & Hlen). rewrite run_cons in *. destruct (ranges_wf_app _ _ _ _ _ Hwf) as (_ & Hse & Hend & H1 & H2 & _).
  pose proof (ranges_wf_sorted _ _ Hwf) as (_ & _ & Hb & Ha)%sorted_middle. cbn in Hb, Ha.
  rewrite length_app in Hcap, Hlen. unfold run in *. cbn [length app] in *. rewrite length_app in Hcap, Hlen.
  apply Forall_app in Hal as [_ [[Ha1 Ha2] _]%Forall_cons]. apply Forall_app in Ha as [_ Ha]. apply Forall_app in H2 as [_ H2].
  destruct (insert_locked_ok mm (l1 ++ l2) e Hok) as (mm' & E & Hok' & Hl); try done; try lia.
  - rewrite length_app. lia.
  - rewrite length_app. lia.
  - apply Forall_app. split; [eapply Forall_impl; [exact H1|]|eapply Forall_impl; [exact H2|]]; intros q Hq; unfold apart; cbn in Hq; lia.
  - exists mm'. split; [done|]. split; [|done]. rewrite al_insert_middle in Hok' by done. by rewrite <- app_assoc.
Qed.

Lemma room_shift l1 e es l2 : room_for l1 (e :: es) l2 -> room_for (l1 ++ [keyed e]) es l2.
Proof. unfold room_for. by rewrite run_shift. Qed.

Lemma put_back_ok mm l1 es l2 ok :
  areas_ok mm (l1 ++ l2) -> room_for l1 es l2 ->
  exists mm', put_back mm es ok = Ret (ok, mm') /\ areas_ok mm' (run l1 es l2) /\ same_layout mm mm'.
Proof.
  revert mm l1. induction es as [|e es IH]; intros mm l1 Hok Hroom; cbn [put_back].
  - exists mm. split; [done|]. split; [done|apply same_layout_refl].
  - destruct (insert_one_ok mm l1 e es l2 Hok Hroom) as (mm1 & -> & Hok1 & Hl1). mstep.
    destruct (IH mm1 _ Hok1 (room_shift _ _ _ _ Hroom)) as (mm2 & -> & Hok2 & Hl2). exists mm2. rewrite run_shift.
    split; [done|]. split; [done|]. by eapply same_layout_trans.
Qed.

Lemma insert_segments_ok mm l1 es l2 gone now :
  areas_ok mm (l1 ++ l2) -> room_for l1 es l2 ->
  exists mm', insert_segments mm gone now es = Ret (true, mm') /\ areas_ok mm' (run l1 es l2) /\ same_layout mm mm'.
Proof.
  revert mm l1 now. induction es as [|e es IH]; intros mm l1 now Hok Hroom; cbn [insert_segments].
  - exists mm. split; [done|]. split; [done|apply same_layout_refl].
  - destruct (insert_one_ok mm l1 e es l2 Hok Hroom) as (mm1 & -> & Hok1 & Hl1). mstep.
    destruct (IH mm1 _ (now ++ [e]) Hok1 (room_shift _ _ _ _ Hroom)) as (mm2 & -> & Hok2 & Hl2). exists mm2. rewrite run_shift.
    split; [done|]. split; [done|]. by eapply same_layout_trans.
Qed.

Lemma rollback_ok mm l1 gone es l2 :
  areas_ok mm (run l1 es l2) -> room_for l1 gone l2 ->
  exists mm', rollback_vma_transaction mm gone es = Ret (true, mm') /\ areas_ok mm' (run l1 gone l2) /\ same_layout mm mm'.
Proof.
  intros Hok Hroom. unfold rollback_vma_transaction. destruct (take_back_ok mm l1 es l2 true Hok) as (mm1 & -> & Hok1 & Hl1). mstep.
  destruct (put_back_ok mm1 l1 gone l2 true Hok1 Hroom) as (mm2 & -> & Hok2 & Hl2). exists mm2. split; [done|]. split; [done|].
  by eapply same_layout_trans.
Qed.
End Apply.
