(* ===== verification/MmPlan.v ===== *)
(** * What [munmap] and [mprotect] plan, and what the plans do

    The plans of kernel/src/mm/syscall/txn.rs replace every area that meets the range by its
    pieces.  The file shows that the planning loops compute these pieces, and what the
    resulting address space maps at every page: [page_at]. *)

From S2P Require Import Prelude Errno OrdMap BTree MapleTree Vma MmTxn.

(** ** Areas and their pieces, as lists *)
Section Cut.
Context (cut : area -> list area).
Implicit Types (l : list (Z * area)) (e : area).

(** The pieces of [e] are inside it, in order and apart. *)
Definition within e (ps : list area) : Prop := ranges_wf (rstart e) (map keyed ps) /\ Forall (fun q => rend q <= rend e) ps.

Definition cut_list l : list (Z * area) := flat_map (fun kv => map keyed (cut kv.2)) l.

Lemma ranges_wf_join lo m l1 l2 :
  ranges_wf lo l1 -> Forall (fun kv => rend kv.2 <= m) l1 -> lo <= m -> ranges_wf m l2 -> ranges_wf lo (l1 ++ l2).
Proof.
  revert lo. induction l1 as [|[k e] l1 IH]; intros lo H1 Hm Hlo H2; cbn [app]; [by eapply ranges_wf_weaken|].
  destruct H1 as (-> & Hb & H1). apply Forall_cons in Hm as [He Hm]. cbn in He. split; [done|]. split; [done|]. apply IH; try done.
Qed.

Lemma within_ends e ps : within e ps -> Forall (fun kv : Z * area => rend kv.2 <= rend e) (map keyed ps).
Proof. intros [_ H]. apply Forall_map. eapply Forall_impl; [exact H|done]. Qed.

Lemma cut_wf lo l :
  ranges_wf lo l -> Forall (fun kv => within kv.2 (cut kv.2)) l -> ranges_wf lo (cut_list l).
Proof.
  revert lo. induction l as [|[k e] l IH]; intros lo Hwf Hw; [done|]. destruct Hwf as (-> & Hb & Hwf).
  apply Forall_cons in Hw as [He Hw]. cbn in He. cbn [cut_list flat_map]. apply ranges_wf_join with (rend e).
  - eapply ranges_wf_weaken; [|exact (proj1 He)]. lia.
  - by apply within_ends.
  - lia.
  - by apply IH.
Qed.

Lemma at_point_outside lo l p : ranges_wf lo l -> p < lo -> at_point l p = None.
Proof. intros Hwf Hp. apply (at_point_None lo); [done|]. intros k e Hin. destruct (ranges_wf_elem _ _ _ _ Hwf Hin). lia. Qed.

Lemma within_outside e ps p : within e ps -> ~ rstart e <= p < rend e -> at_point (map keyed ps) p = None.
Proof.
  intros Hw Hp. apply (at_point_None (rstart e)); [apply Hw|]. intros k q Hin.
  pose proof (proj1 (Forall_forall _ _) (within_ends e ps Hw) _ Hin) as Hq. destruct (ranges_wf_elem _ _ _ _ (proj1 Hw) Hin). cbn in Hq. lia.
Qed.

Lemma cut_at lo l p :
  ranges_wf lo l -> Forall (fun kv => within kv.2 (cut kv.2)) l ->
  at_point (cut_list l) p = e ← at_point l p; at_point (map keyed (cut e)) p.
Proof.
  revert lo. induction l as [|[k e] l IH]; intros lo Hwf Hw; [done|]. destruct Hwf as (-> & Hb & Hwf).
  apply Forall_cons in Hw as [He Hw]. cbn [cut_list flat_map]. cbn in He. rewrite at_point_app, at_point_cons.
  cbn [snd]. destruct (covers_point p e) eqn:Hc.
  - apply covers_point_spec in Hc. cbn. destruct (at_point (map keyed (cut e)) p); [done|].
    apply at_point_outside with (rend e); [by apply cut_wf|lia].
  - rewrite within_outside with (e := e); [by apply (IH (rend e))|done|]. rewrite <- covers_point_spec. by rewrite Hc.
Qed.
End Cut.

Lemma within_self e : 0 <= rstart e < rend e -> rend e < u64_size -> within e [e].
Proof. intros H1 H2. split; [cbn; lia|]. by constructor. Qed.

(** The areas of a list that meet [s, t) are neighbours. *)
Definition meets (s t : Z) (e : area) : Prop := rstart e < t /\ s < rend e.

Lemma split_range lo (l : list (Z * area)) s t :
  ranges_wf lo l ->
  exists l1 es l2, l = run l1 es l2 /\ Forall (fun kv => rend kv.2 <= s) l1 /\ Forall (meets s t) es /\
    Forall (fun kv => t <= rstart kv.2) l2.
Proof.
  revert lo. induction l as [|[k e] l IH]; intros lo Hwf; [by exists [], [], []|]. destruct Hwf as (-> & Hb & Hwf).
  destruct (IH _ Hwf) as (l1 & es & l2 & -> & H1 & H2 & H3). destruct (Z.le_gt_cases (rend e) s) as [Hs|Hs].
  - exists (keyed e :: l1), es, l2. split; [done|]. split; [by constructor|]. done.
  - assert (l1 = []) as ->.
    { destruct l1 as [|[k1 e1] l1]; [done|]. apply Forall_cons in H1 as [H1 _]. cbn in H1. destruct Hwf as (_ & Hb1 & _). lia. }
    destruct (Z.lt_ge_cases (rstart e) t) as [Ht|Ht].
    + exists [], (e :: es), l2. split; [done|]. split; [done|]. split; [by constructor|done].
    + assert (es = []) as ->.
      { destruct es as [|e1 es]; [done|]. apply Forall_cons in H2 as [[H2 _] _]. destruct Hwf as (_ & Hb1 & _). lia. }
      exists [], [], (keyed e :: l2). split; [done|]. split; [done|]. split; [done|]. by constructor.
Qed.

Lemma intersects_meets s t e : intersects s t e = true <-> meets s t e.
Proof. unfold meets. pose proof (intersects_false s t e). destruct (intersects s t e); split; try done; [|lia]. intros _. destruct H. lia. Qed.

Lemma intersecting_run l1 es l2 s t :
  Forall (fun kv => rend kv.2 <= s) l1 -> Forall (meets s t) es -> Forall (fun kv => t <= rstart kv.2) l2 ->
  filter (fun kv => intersects s t kv.2 = true) (run l1 es l2) = map keyed es.
Proof.
  intros H1 H2 H3. unfold run. rewrite !filter_app, (filter_none _ l1), (filter_all _ (map keyed es)), (filter_none _ l2).
  - by rewrite app_nil_r.
  - eapply Forall_impl; [exact H3|]. cbn. intros kv Hkv. rewrite intersects_meets. unfold meets. lia.
  - apply Forall_map. eapply Forall_impl; [exact H2|]. intros e. apply intersects_meets.
  - eapply Forall_impl; [exact H1|]. cbn. intros kv Hkv. rewrite intersects_meets. unfold meets. lia.
Qed.

(** ** The pieces *)
Definition cut_start (s : Z) (e : area) : Z := Z.max (rstart e) s.
Definition cut_end (t : Z) (e : area) : Z := Z.min (rend e) t.
Definition left_piece (s : Z) (e : area) : list area :=
  if rstart e <? cut_start s e then [clone_vma_slice e (rstart e) (cut_start s e)] else [].
Definition right_piece (t : Z) (e : area) : list area :=
  if cut_end t e <? rend e then [clone_vma_slice e (cut_end t e) (rend e)] else [].
Definition unmap_pieces (s t : Z) (e : area) : list area := left_piece s e ++ right_piece t e.
Definition protected_piece (prot s t : Z) (e : area) : area :=
  with_flags (mprotect_flags_from_prot (vi_flags (rvalue e)) prot) (clone_vma_slice e (cut_start s e) (cut_end t e)).
Definition protect_pieces (prot s t : Z) (e : area) : list area := left_piece s e ++ [protected_piece prot s t e] ++ right_piece t e.
Definition adjust_for (pieces : area -> list area) (e : area) : option BackingAdjust :=
  backing_adjust_for_segments e (length (pieces e)).

(** The plan that replaces the areas [es]. *)
Definition plan_for {X} (pieces : area -> list area) (effect : area -> X) (es : list area) : Plan X :=
  mkPlan es (flat_map pieces es) (omap (adjust_for pieces) es) (map effect es).
Definition plan_app {X} (p q : Plan X) : Plan X :=
  mkPlan (removed p ++ removed q) (inserted p ++ inserted q) (backing_adjusts p ++ backing_adjusts q) (effects p ++ effects q).

Lemma plan_app_nil {X} (p : Plan X) pieces effect : plan_app p (plan_for pieces effect []) = p.
Proof. unfold plan_app. cbn. rewrite !app_nil_r. by destruct p. Qed.

Lemma plan_app_cons {X} (p : Plan X) pieces effect e es :
  plan_app p (plan_for pieces effect (e :: es)) =
  plan_app (mkPlan (removed p ++ [e]) (inserted p ++ pieces e) (push_some (backing_adjusts p) (adjust_for pieces e)) (effects p ++ [effect e]))
    (plan_for pieces effect es).
Proof.
  unfold plan_app, push_some. cbn. rewrite <- !app_assoc. cbn. f_equal. by destruct (adjust_for pieces e).
Qed.

(** ** The planning loops *)
Section Plans.
Context {M : Type} `{HM : OrdMap M (RangeEntry VmaInfo)}.
Implicit Types (mm : Mm M) (l : list (Z * area)).

(** The areas still to visit when the cursor has reached [c]. *)
Record ahead (s t c : Z) (l1 : list (Z * area)) (es : list area) (l2 : list (Z * area)) : Prop := {
  ah_wf : ranges_wf 0 (run l1 es l2);
  ah_before : Forall (fun kv => rend kv.2 <= c) l1;
  ah_meets : Forall (meets c t) es;
  ah_after : Forall (fun kv => t <= rstart kv.2) l2;
  ah_cursor : s <= c;
  ah_start : Forall (fun e => cut_start s e = Z.max (rstart e) c) es
}.

Lemma ahead_start l1 es l2 s t :
  ranges_wf 0 (run l1 es l2) -> Forall (fun kv => rend kv.2 <= s) l1 -> Forall (meets s t) es ->
  Forall (fun kv => t <= rstart kv.2) l2 -> ahead s t s l1 es l2.
Proof. intros. split; try done. by apply Forall_true. Qed.

(** The cursor moves to the end of the first of them. *)
Lemma ahead_next s t c l1 e es l2 :
  ahead s t c l1 (e :: es) l2 ->
  if t <=? cut_end t e then es = [] else ahead s t (cut_end t e) (l1 ++ [keyed e]) es l2.
Proof.
  intros [Hwf Hb Hm Ha Hc Hs]. pose proof Hwf as Hwf'. rewrite run_cons in Hwf'.
  destruct (ranges_wf_app _ _ _ _ _ Hwf') as (_ & Hse & Hend & H1 & H2 & _). unfold run in H2. cbn in H2. apply Forall_app in H2 as [H2 _].
  apply Forall_cons in Hm as [[Hm1 Hm2] Hm]. apply Forall_cons in Hs as [_ Hs]. unfold cut_end.
  assert (Hrest : Forall (fun e' => rend e <= rstart e' < t /\ c < rend e') es).
  { apply Forall_forall. intros e' Hin. pose proof (proj1 (Forall_forall _ _) Hm e' Hin) as [? ?].
    pose proof (proj1 (Forall_forall _ _) H2 (keyed e') ltac:(by apply list_elem_of_fmap; exists e')). cbn in *. lia. }
  destruct (Z.leb_spec t (Z.min (rend e) t)).
  - destruct es as [|e' es]; [done|]. apply Forall_cons in Hrest as [? _]. lia.
  - rewrite Z.min_l by lia. split.
    + by rewrite <- run_shift.
    + apply Forall_app. split; [eapply Forall_impl; [exact H1|]; cbn; lia|]. by constructor; [cbn; lia|].
    + apply Forall_forall. intros e' Hin. pose proof (proj1 (Forall_forall _ _) Hrest e' Hin) as [? ?].
      assert (Hin' : keyed e' ∈ run l1 (e :: es) l2) by (apply elem_of_app; right; apply elem_of_app; left; apply list_elem_of_fmap; exists e'; split; [done|by right]).
      destruct (ranges_wf_elem _ _ _ _ Hwf Hin'). split; lia.
    + done.
    + lia.
    + apply Forall_forall. intros e' Hin. pose proof (proj1 (Forall_forall _ _) Hrest e' Hin) as [? ?]. unfold cut_start. lia.
Qed.

Lemma plan_unmap_loop_ok fuel mm s t c l1 es l2 p :
  mt_ok (vma_tree mm) (run l1 es l2) -> ahead s t c l1 es l2 -> (length es < fuel)%nat ->
  plan_unmap_loop fuel mm s t c p =
  Ret (plan_app p (plan_for (unmap_pieces s t) (fun e => (cut_start s e, cut_end t e)) es)).
Proof.
  revert c l1 es p. induction fuel as [|fuel IH]; intros c l1 es p Ht Hah Hf; [lia|]. cbn [plan_unmap_loop].
  rewrite (iter_intersecting_ok _ _ c t Ht). mstep. pose proof Hah as [_ Hb Hm Ha _ Hs]. rewrite intersecting_run by done.
  destruct es as [|e es]; cbn [map head]; [by rewrite plan_app_nil|]. unfold triple at 1. cbn [snd keyed].
  assert (Ee : mkRange (rstart e) (rend e) (rvalue e) = e) by (by destruct e). rewrite Ee.
  fold (cut_start s e) (cut_end t e) (left_piece s e) (right_piece t e). rewrite plan_app_cons.
  unfold adjust_for. unfold unmap_pieces at 1 2. rewrite length_app.
  pose proof (ahead_next _ _ _ _ _ _ _ Hah) as Hnext. destruct (t <=? cut_end t e).
  - subst es. by rewrite plan_app_nil.
  - cbn [length] in Hf. rewrite (IH _ (l1 ++ [keyed e]) es); [done|by rewrite <- run_shift|done|lia].
Qed.

Lemma plan_unmap_ok mm s t l1 es l2 :
  mt_ok (vma_tree mm) (run l1 es l2) -> Forall (fun kv => rend kv.2 <= s) l1 -> Forall (meets s t) es ->
  Forall (fun kv => t <= rstart kv.2) l2 ->
  plan_unmap_changes mm s t = Ret (plan_for (unmap_pieces s t) (fun e => (cut_start s e, cut_end t e)) es).
Proof.
  intros Ht H1 H2 H3. unfold plan_unmap_changes. erewrite plan_unmap_loop_ok; [|done|by apply ahead_start; [apply Ht|..]|].
  - done.
  - unfold len. rewrite (om_len_ok _ _ (proj1 Ht)). unfold run. rewrite !length_app, length_map. lia.
Qed.

Lemma at_point_run_None s t c l1 es l2 :
  ahead s t c l1 es l2 -> c < t -> (forall e es', es = e :: es' -> c < rstart e) -> at_point (run l1 es l2) c = None.
Proof.
  intros [Hwf Hb Hm Ha Hc Hs] Hct Hhd. apply (at_point_None 0); [done|]. intros k e Hin Hce.
  apply elem_of_app in Hin as [Hin|Hin]; [pose proof (proj1 (Forall_forall _ _) Hb _ Hin) as Hx; cbn in Hx; lia|].
  apply elem_of_app in Hin as [Hin|Hin]; [|pose proof (proj1 (Forall_forall _ _) Ha _ Hin) as Hx; cbn in Hx; lia].
  destruct es as [|e0 es]; [by apply elem_of_nil in Hin|]. specialize (Hhd e0 es eq_refl). cbn in Hin.
  apply elem_of_cons in Hin as [[= -> ->]|Hin]; [lia|]. rewrite run_cons in Hwf.
  destruct (ranges_wf_app _ _ _ _ _ Hwf) as (_ & ? & _ & _ & H2 & _).
  assert (Hin' : (k, e) ∈ run [] es l2) by (apply elem_of_app; right; apply elem_of_app; by left).
  pose proof (proj1 (Forall_forall _ _) H2 _ Hin') as Hx. cbn in Hx. lia.
Qed.

Definition pte_update (prot s t : Z) (e : area) : PteUpdate :=
  mkUpdate (cut_start s e) (cut_end t e) (to_user_pte_flags (vi_flags (rvalue e)))
    (to_user_pte_flags (mprotect_flags_from_prot (vi_flags (rvalue e)) prot)).

Lemma plan_mprotect_loop_ok fuel mm prot s t c l1 es l2 p :
  let l := run l1 es l2 in
  mt_ok (vma_tree mm) l -> ahead s t c l1 es l2 -> c < t -> (length es < fuel)%nat ->
  ((forall q, c <= q < t -> at_point l q <> None) /\
   plan_mprotect_loop fuel mm t prot c p = Ret (Ok (plan_app p (plan_for (protect_pieces prot s t) (pte_update prot s t) es)))) \/
  ((exists q, c <= q < t /\ at_point l q = None) /\ plan_mprotect_loop fuel mm t prot c p = Ret (Err ENOMEM)).
Proof.
  revert c l1 es p. induction fuel as [|fuel IH]; intros c l1 es p l Ht Hah Hct Hf; [lia|]. cbn [plan_mprotect_loop].
  destruct (Z.ltb_spec c t) as [_|]; [|lia]. rewrite (find_ok _ l c Ht). mstep.
  destruct (at_point l c) as [e0|] eqn:Eat; cbn [option_map]; [|right; split; [exists c; split; [lia|done]|done]].
  destruct es as [|e es]; [unfold l in Eat; rewrite (at_point_run_None s t) in Eat; done|].
  destruct (Z.lt_ge_cases c (rstart e)) as [Hlt|Hge]; [unfold l in Eat; rewrite (at_point_run_None s t) in Eat; [done|done|done|by intros ? ? [= <- _]]|].
  pose proof Hah as [Hwf _ Hm _ _ Hs]. apply Forall_cons in Hm as [[Hm1 Hm2] _]. apply Forall_cons in Hs as [Hs _].
  assert (He : at_point l c = Some e).
  { apply (at_point_spec 0); [done|]. split; [|lia]. apply elem_of_app; right. by left. }
  rewrite He in Eat. injection Eat as <-. unfold triple. destruct (Z.ltb_spec c (rstart e)); [lia|].
  assert (Ee : mkRange (rstart e) (rend e) (rvalue e) = e) by (by destruct e). rewrite Ee. rewrite Z.max_r in Hs by lia. rewrite <- Hs.
  fold (cut_end t e) (left_piece s e) (right_piece t e) (protected_piece prot s t e).
  replace (length (left_piece s e) + 1 + length (right_piece t e))%nat with (length (protect_pieces prot s t e))
    by (unfold protect_pieces; rewrite !length_app; cbn; lia).
  fold (adjust_for (protect_pieces prot s t) e) (protect_pieces prot s t e). rewrite plan_app_cons.
  change (mkUpdate (cut_start s e) (cut_end t e) (to_user_pte_flags (vi_flags (rvalue e)))
    (to_user_pte_flags (vi_flags (rvalue (protected_piece prot s t e))))) with (pte_update prot s t e).
  set (p' := mkPlan _ _ _ _). assert (Hcover : forall q, c <= q < cut_end t e -> at_point l q <> None).
  { intros q Hq. assert (at_point l q = Some e) as ->; [|done]. unfold cut_end in Hq. apply (at_point_spec 0); [done|].
    split; [|lia]. apply elem_of_app; right. by left. }
  pose proof (ahead_next _ _ _ _ _ _ _ Hah) as Hnext. destruct (Z.leb_spec t (cut_end t e)) as [Hend|Hend].
  - subst es. left. split; [intros q Hq; apply Hcover; lia|]. rewrite plan_app_nil. destruct fuel as [|fuel]; [cbn in Hf; lia|].
    cbn [plan_mprotect_loop]. destruct (Z.ltb_spec (cut_end t e) t); [lia|]. done.
  - cbn [length] in Hf. assert (Hl : l = run (l1 ++ [keyed e]) es l2) by (unfold l; apply run_shift).
    destruct (IH (cut_end t e) (l1 ++ [keyed e]) es p' ltac:(by rewrite <- Hl) Hnext Hend ltac:(lia)) as [[H1 H2]|[(q & H1) H2]].
    + left. split; [|done]. intros q Hq. destruct (Z.lt_ge_cases q (cut_end t e)); [apply Hcover; lia|]. rewrite Hl. apply H1. lia.
    + right. split; [|done]. exists q. rewrite Hl. unfold cut_end in *. split; [lia|apply H1].
Qed.
End Plans.

(** ** What a page maps *)
Record Mapping := mkMapping { m_flags : Z; m_file : Z; m_private : Z; m_page : Z }.
Definition mapping (e : area) (p : Z) : Mapping :=
  let i := rvalue e in mkMapping (vi_flags i) (vi_file i) (vi_private_data i) (vi_pgoff i + (p - rstart e) / PAGE_SIZE).
(** The flags, the file with the page of it, and the private data at an address. *)
Definition page_at (l : list (Z * area)) (p : Z) : option Mapping := option_map (fun e => mapping e p) (at_point l p).
Definition with_m_flags (f : Z -> Z) (m : Mapping) : Mapping := mkMapping (f (m_flags m)) (m_file m) (m_private m) (m_page m).

(** The pages of a mapped file have numbers below [2^64]. *)
Definition offset_ok (e : area) : Prop := 0 <= vi_pgoff (rvalue e) /\ vi_pgoff (rvalue e) + pages e <= U64_MAX.

Record area_ok (e : area) : Prop := {
  ar_bounds : 0 <= rstart e < rend e /\ rend e < u64_size;
  ar_aligned : (PAGE_SIZE | rstart e) /\ (PAGE_SIZE | rend e);
  ar_offset : offset_ok e
}.

Lemma page_diff a b : (PAGE_SIZE | a) -> (PAGE_SIZE | b) -> exists k, b - a = k * PAGE_SIZE.
Proof. intros [x ->] [y ->]. exists (y - x). lia. Qed.

Lemma div_page k : k * PAGE_SIZE / PAGE_SIZE = k.
Proof. by apply Z.div_mul. Qed.

Lemma page_at_app l1 l2 p : page_at (l1 ++ l2) p = match page_at l1 p with Some m => Some m | None => page_at l2 p end.
Proof. unfold page_at. rewrite at_point_app. by destruct (at_point l1 p). Qed.
Lemma page_at_one q p : page_at (map keyed [q]) p = if (rstart q <=? p) && (p <? rend q) then Some (mapping q p) else None.
Proof. unfold page_at. cbn [map]. rewrite at_point_cons. unfold covers_point. cbn [snd keyed]. by destruct (_ && _). Qed.

Section Pieces.
Context (e : area) (He : area_ok e).

Lemma slice_ok a b :
  rstart e <= a < b -> b <= rend e -> (PAGE_SIZE | a) -> (PAGE_SIZE | b) ->
  area_ok (clone_vma_slice e a b) /\ forall p, mapping (clone_vma_slice e a b) p = mapping e p.
Proof.
  intros Hab Hb Pa Pb. destruct He as [[He1 He2] [P1 P2] [Ho1 Ho2]].
  destruct (page_diff (rstart e) a P1 Pa) as [k Hk], (page_diff a b Pa Pb) as [n Hn], (page_diff b (rend e) Pb P2) as [r Hr].
  assert (Hd : saturating_sub64 a (rstart e) / PAGE_SIZE = k) by (unfold saturating_sub64; rewrite Z.max_r, Hk by lia; apply div_page).
  assert (Hpg : pages e = k + n + r) by (unfold pages; rewrite <- div_page; f_equal; lia).
  assert (Hnn : 0 <= k /\ 0 < n /\ 0 <= r) by (unfold PAGE_SIZE in *; lia).
  assert (Hp : vi_pgoff (rvalue (clone_vma_slice e a b)) = vi_pgoff (rvalue e) + k)
    by (cbn; rewrite Hd; unfold saturating_add64; lia).
  split.
  - split; [cbn; lia|done|]. split; [lia|]. unfold pages. cbn [clone_vma_slice rend rstart]. rewrite Hn, div_page, Hp. lia.
  - intros p. unfold mapping. rewrite Hp. cbn [clone_vma_slice rstart rvalue vi_flags vi_file vi_private_data with_pgoff]. f_equal.
    replace (p - rstart e) with (p - a + k * PAGE_SIZE) by lia. rewrite Z.div_add by done. lia.
Qed.

Context (s t : Z) (Hst : s < t) (Ps : (PAGE_SIZE | s)) (Pt : (PAGE_SIZE | t)) (Hm : meets s t e).

Lemma cut_bounds :
  rstart e <= cut_start s e < cut_end t e /\ cut_end t e <= rend e /\ (PAGE_SIZE | cut_start s e) /\ (PAGE_SIZE | cut_end t e) /\
  s <= cut_start s e /\ cut_end t e <= t /\ (rstart e < cut_start s e -> cut_start s e = s) /\ (cut_end t e < rend e -> cut_end t e = t).
Proof.
  destruct Hm, He as [[He1 He2] [P1 P2] _]. unfold cut_start, cut_end.
  repeat split; try lia; [destruct (Z.max_spec (rstart e) s) as [[_ ->]|[_ ->]]|destruct (Z.min_spec (rend e) t) as [[_ ->]|[_ ->]]]; done.
Qed.

Lemma left_ok q : q ∈ left_piece s e -> area_ok q /\ rstart q = rstart e /\ rend q = s /\ rstart e < s /\ forall p, mapping q p = mapping e p.
Proof.
  destruct cut_bounds as (H1 & H2 & H3 & H4 & H5 & H6 & H7 & H8). unfold left_piece. destruct (Z.ltb_spec (rstart e) (cut_start s e)) as [Hlt|]; [|by intros Hq%elem_of_nil].
  intros ->%list_elem_of_singleton. destruct (slice_ok (rstart e) (cut_start s e)) as [Ha Hp]; [lia|lia|apply He|done|].
  split; [done|]. cbn. specialize (H7 Hlt). repeat split; try done; lia.
Qed.

Lemma right_ok q : q ∈ right_piece t e -> area_ok q /\ rstart q = t /\ rend q = rend e /\ t < rend e /\ forall p, mapping q p = mapping e p.
Proof.
  destruct cut_bounds as (H1 & H2 & H3 & H4 & H5 & H6 & H7 & H8). unfold right_piece. destruct (Z.ltb_spec (cut_end t e) (rend e)) as [Hlt|]; [|by intros Hq%elem_of_nil].
  intros ->%list_elem_of_singleton. destruct (slice_ok (cut_end t e) (rend e)) as [Ha Hp]; [lia|lia|done|apply He|].
  split; [done|]. cbn. specialize (H8 Hlt). repeat split; try done; lia.
Qed.

Lemma protected_ok prot :
  let q := protected_piece prot s t e in
  area_ok q /\ rstart q = cut_start s e /\ rend q = cut_end t e /\
  forall p, mapping q p = with_m_flags (fun f => mprotect_flags_from_prot f prot) (mapping e p).
Proof.
  destruct cut_bounds as (H1 & H2 & H3 & H4 & _). destruct (slice_ok (cut_start s e) (cut_end t e)) as [[Ha1 Ha2 Ha3] Hp]; try done.
  cbn zeta. split; [by split|]. split; [done|]. split; [done|]. intros p. specialize (Hp p). unfold mapping, with_m_flags in *.
  cbn [protected_piece with_flags clone_vma_slice rvalue rstart vi_flags vi_file vi_private_data vi_pgoff m_flags m_file m_private m_page with_pgoff] in *.
  by injection Hp as ->.
Qed.

(** The left piece ends where the range begins, the right piece begins where it ends. *)
Lemma left_cases : (left_piece s e = [] /\ s <= rstart e) \/ (exists q, left_piece s e = [q] /\ q ∈ left_piece s e).
Proof.
  unfold left_piece, cut_start. destruct (Z.ltb_spec (rstart e) (Z.max (rstart e) s)); [right|left; split; [done|lia]].
  eexists. split; [done|]. by left.
Qed.
Lemma right_cases : (right_piece t e = [] /\ rend e <= t) \/ (exists q, right_piece t e = [q] /\ q ∈ right_piece t e).
Proof.
  unfold right_piece, cut_end. destruct (Z.ltb_spec (Z.min (rend e) t) (rend e)); [right|left; split; [done|lia]].
  eexists. split; [done|]. by left.
Qed.

Lemma left_at p : rstart e <= p -> page_at (map keyed (left_piece s e)) p = if p <? s then Some (mapping e p) else None.
Proof.
  intros Hp. destruct left_cases as [[-> ?]|(q & Eq & Hq)]; [by destruct (Z.ltb_spec p s); [lia|]|]. rewrite Eq, page_at_one.
  destruct (left_ok q Hq) as (_ & -> & -> & _ & ->). destruct (Z.leb_spec (rstart e) p); [done|lia].
Qed.
Lemma right_at p : p < rend e -> page_at (map keyed (right_piece t e)) p = if t <=? p then Some (mapping e p) else None.
Proof.
  intros Hp. destruct right_cases as [[-> ?]|(q & Eq & Hq)]; [by destruct (Z.leb_spec t p); [lia|]|]. rewrite Eq, page_at_one.
  destruct (right_ok q Hq) as (_ & -> & -> & _ & ->). destruct (Z.ltb_spec p (rend e)); [by rewrite andb_true_r|lia].
Qed.

(** Pieces around a middle part that lies in the range. *)
Context (mid : list area) (Hw : within e mid) (Hmid : Forall (fun q => s <= rstart q /\ rend q <= t) mid) (Hok : Forall area_ok mid).

Lemma mid_wf m : rstart e <= m -> Forall (fun q => m <= rstart q) mid -> ranges_wf m (map keyed mid).
Proof.
  clear Hok Hmid. intros Hme Hmm. destruct Hw as [Hw' _]. destruct mid as [|q mid']; [done|]. cbn in Hw' |- *. apply Forall_cons in Hmm as [Hq _]. intuition lia.
Qed.

Lemma mid_right_wf m : rstart e <= m -> m <= Z.max (rstart e) s -> ranges_wf m (map keyed (mid ++ right_piece t e)).
Proof.
  intros Hm1 Hm2. destruct Hm as [Hme1 Hme2]. rewrite map_app. assert (Hmwf : ranges_wf m (map keyed mid)).
  { apply mid_wf; [done|]. apply Forall_forall. intros q Hq. pose proof (proj1 (Forall_forall _ _) Hmid q Hq) as Hx.
    destruct (ranges_wf_elem _ _ (rstart q) q (proj1 Hw)); [by apply list_elem_of_fmap; exists q|]. cbn in Hx. lia. }
  destruct right_cases as [[-> Hr]|(q & Eq & Hq)]; [by rewrite app_nil_r|]. rewrite Eq.
  destruct (right_ok q Hq) as ([Hq0 _ _] & Hq1 & Hq2 & Hq3 & _). apply ranges_wf_join with t; [done| |lia|cbn; lia].
  apply Forall_map. eapply Forall_impl; [exact Hmid|]. cbn. lia.
Qed.

Lemma pieces_within : within e (left_piece s e ++ mid ++ right_piece t e).
Proof.
  destruct He as [[He1 He2] _ _], Hm as [Hm1 Hm2]. split.
  - destruct left_cases as [[-> _]|(q & Eq & Hq)]; [apply mid_right_wf; lia|rewrite Eq; destruct (left_ok q Hq) as ([Hq0 _ _] & Hq1 & Hq2 & Hq3 & _)].
    cbn [app map]. cbn [ranges_wf keyed]. rewrite Hq1, Hq2. split; [done|]. split; [lia|]. apply mid_right_wf; lia.
  - rewrite !Forall_app. split; [|split; [apply Hw|]]; apply Forall_forall; intros q Hq;
      [destruct (left_ok q Hq) as (_ & _ & -> & _); lia|destruct (right_ok q Hq) as (_ & _ & -> & _); lia].
Qed.

Lemma pieces_areas : Forall area_ok (left_piece s e ++ mid ++ right_piece t e).
Proof. rewrite !Forall_app. split; [|split; [done|]]; apply Forall_forall; intros q Hq; [by apply left_ok|by apply right_ok]. Qed.

Lemma pieces_at p :
  rstart e <= p < rend e ->
  page_at (map keyed (left_piece s e ++ mid ++ right_piece t e)) p =
  if (s <=? p) && (p <? t) then page_at (map keyed mid) p else Some (mapping e p).
Proof.
  intros Hp. rewrite !map_app, !page_at_app, left_at, right_at by lia.
  assert (Hnone : ~ (s <= p < t) -> page_at (map keyed mid) p = None).
  { intros Hn. unfold page_at. rewrite (proj2 (at_point_None (rstart e) _ p (proj1 Hw))); [done|]. intros k q Hin Hq.
    apply list_elem_of_fmap in Hin as (q' & [= -> ->] & Hin). pose proof (proj1 (Forall_forall _ _) Hmid q' Hin). cbn in *. lia. }
  destruct (Z.leb_spec s p), (Z.ltb_spec p t), (Z.ltb_spec p s), (Z.leb_spec t p); try lia; cbn [andb]; try done;
    [by destruct (page_at (map keyed mid) p)|by rewrite Hnone by lia].
Qed.
End Pieces.

(** ** Replacing the areas that meet a range *)
Definition file_of (e : area) : Z := vi_file (rvalue e).
Definition files (l : list (Z * area)) : list Z := map (fun kv => file_of kv.2) l.

(** What the two system calls do to an area, and to a page of it. *)
Record Cutting (s t : Z) := {
  pieces : area -> list area;
  change : Mapping -> option Mapping;
  pc_within e : area_ok e -> meets s t e -> within e (pieces e) /\ Forall area_ok (pieces e);
  pc_at e p : area_ok e -> meets s t e -> rstart e <= p < rend e ->
    page_at (map keyed (pieces e)) p = if (s <=? p) && (p <? t) then change (mapping e p) else Some (mapping e p);
  pc_file e q : q ∈ pieces e -> file_of q = file_of e
}.
Arguments pieces {s t} c e.
Arguments change {s t} c m.
Arguments pc_within {s t} c e.
Arguments pc_at {s t} c e p.
Arguments pc_file {s t} c e q.

Lemma left_file s e q : q ∈ left_piece s e -> file_of q = file_of e.
Proof. unfold left_piece. destruct (_ <? _); [by intros ->%list_elem_of_singleton|by intros Hq%elem_of_nil]. Qed.
Lemma right_file t e q : q ∈ right_piece t e -> file_of q = file_of e.
Proof. unfold right_piece. destruct (_ <? _); [by intros ->%list_elem_of_singleton|by intros Hq%elem_of_nil]. Qed.

Program Definition unmapping (s t : Z) (Hst : s < t) (Ps : (PAGE_SIZE | s)) (Pt : (PAGE_SIZE | t)) : Cutting s t :=
  {| pieces := unmap_pieces s t; change := fun _ => None |}.
Next Obligation.
  intros s t Hst Ps Pt e He Hm. split.
  - by apply (pieces_within e He s t Hst Ps Pt Hm []); [split|].
  - by apply (pieces_areas e He s t Hst Ps Pt Hm []).
Qed.
Next Obligation.
  intros s t Hst Ps Pt e p He Hm Hp. exact (pieces_at e He s t Hst Ps Pt Hm [] ltac:(by split) ltac:(done) p Hp).
Qed.
Next Obligation. intros s t _ _ _ e q [Hq|Hq]%elem_of_app; [by apply left_file in Hq|by apply right_file in Hq]. Qed.

Section Protecting.
Context (prot s t : Z) (Hst : s < t) (Ps : (PAGE_SIZE | s)) (Pt : (PAGE_SIZE | t)).

Lemma protected_within e : area_ok e -> meets s t e ->
  within e [protected_piece prot s t e] /\ Forall (fun q => s <= rstart q /\ rend q <= t) [protected_piece prot s t e].
Proof.
  intros He Hm. destruct (protected_ok e He s t Hst Ps Pt Hm prot) as ([Hb _ _] & H1 & H2 & _).
  destruct (cut_bounds e He s t Hst Ps Pt Hm) as (H3 & H4 & _ & _ & H5 & H6 & _).
  split; [split|]; [cbn [map keyed ranges_wf]; rewrite H1, H2 in *; lia|constructor; [lia|constructor]|constructor; [lia|constructor]].
Qed.

Program Definition protecting : Cutting s t :=
  {| pieces := protect_pieces prot s t; change := fun m => Some (with_m_flags (fun f => mprotect_flags_from_prot f prot) m) |}.
Next Obligation.
  intros e He Hm. destruct (protected_within e He Hm) as [H1 H2]. destruct (protected_ok e He s t Hst Ps Pt Hm prot) as [H3 _]. split.
  - by apply pieces_within.
  - apply pieces_areas; try done. by constructor.
Qed.
Next Obligation.
  intros e p He Hm Hp. destruct (protected_within e He Hm) as [H1 H2]. destruct (protected_ok e He s t Hst Ps Pt Hm prot) as (H3 & H4 & H5 & H6).
  unfold protect_pieces. rewrite (pieces_at e He s t Hst Ps Pt Hm _ H1 H2) by done.
  destruct (Z.leb_spec s p), (Z.ltb_spec p t); try done. cbn [andb]. rewrite page_at_one, H4, H5, H6. unfold cut_start, cut_end.
  destruct (Z.leb_spec (Z.max (rstart e) s) p), (Z.ltb_spec p (Z.min (rend e) t)); try lia. done.
Qed.
Next Obligation.
  intros e q. unfold protect_pieces. rewrite !elem_of_app, list_elem_of_singleton. intros [Hq|[->|Hq]]; [by apply left_file in Hq|done|by apply right_file in Hq].
Qed.
End Protecting.

(** Only the first area has a left piece, only the last a right piece. *)
Lemma left_pieces_total lo s t es :
  ranges_wf lo (map keyed es) -> Forall (meets s t) es -> (length (flat_map (left_piece s) es) <= 1)%nat.
Proof.
  intros Hwf Hm. assert (Hno : forall lo es, ranges_wf lo (map keyed es) -> s <= lo -> flat_map (left_piece s) es = []).
  { clear. intros lo es. revert lo. induction es as [|e es IH]; intros lo Hwf Hs; [done|]. destruct Hwf as (_ & Hb & Hwf). cbn [flat_map].
    rewrite (IH (rend e)) by (done || lia). unfold left_piece, cut_start. destruct (Z.ltb_spec (rstart e) (Z.max (rstart e) s)); [lia|done]. }
  destruct es as [|e es]; [cbn; lia|]. destruct Hwf as (_ & Hb & Hwf). apply Forall_cons in Hm as [[_ Hm] _]. cbn [flat_map].
  rewrite (Hno (rend e) es) by (done || lia). rewrite app_nil_r. unfold left_piece. destruct (_ <? _); cbn; lia.
Qed.

Lemma right_pieces_total lo s t es :
  ranges_wf lo (map keyed es) -> Forall (meets s t) es -> (length (flat_map (right_piece t) es) <= 1)%nat.
Proof.
  revert lo. induction es as [|e es IH]; intros lo Hwf Hm; [cbn; lia|]. destruct Hwf as (_ & Hb & Hwf). apply Forall_cons in Hm as [_ Hm].
  cbn [flat_map]. rewrite length_app. destruct es as [|e' es].
  - unfold right_piece. destruct (_ <? _); cbn; lia.
  - pose proof (IH _ Hwf Hm). apply Forall_cons in Hm as [[Hm _] _]. destruct Hwf as (_ & Hb' & _).
    assert (right_piece t e = []) as ->; [|cbn [length]; lia]. unfold right_piece, cut_end. by destruct (Z.ltb_spec (Z.min (rend e) t) (rend e)); [lia|].
Qed.

Lemma flat_map_app_length {A B} (f g : A -> list B) l :
  length (flat_map (fun x => f x ++ g x) l) = (length (flat_map f l) + length (flat_map g l))%nat.
Proof. induction l as [|x l IH]; [done|]. cbn. rewrite !length_app, IH. lia. Qed.

Lemma unmap_pieces_total lo s t es :
  ranges_wf lo (map keyed es) -> Forall (meets s t) es -> (length (flat_map (unmap_pieces s t) es) <= 2)%nat.
Proof.
  intros Hwf Hm. unfold unmap_pieces. rewrite flat_map_app_length. pose proof (left_pieces_total _ _ _ _ Hwf Hm). pose proof (right_pieces_total _ _ _ _ Hwf Hm). lia.
Qed.

Lemma protect_pieces_total lo prot s t es :
  ranges_wf lo (map keyed es) -> Forall (meets s t) es -> (length (flat_map (protect_pieces prot s t) es) <= length es + 2)%nat.
Proof.
  intros Hwf Hm. unfold protect_pieces. rewrite !flat_map_app_length. pose proof (left_pieces_total _ _ _ _ Hwf Hm). pose proof (right_pieces_total _ _ _ _ Hwf Hm).
  assert (length (flat_map (fun e => [protected_piece prot s t e]) es) = length es) as -> by (clear; induction es; cbn; lia). lia.
Qed.

#[export] Instance meets_dec s t e : Decision (meets s t e).
Proof. unfold meets. apply _. Defined.

Section Replace.
Context {s t : Z} (c : Cutting s t).

Definition cut_meeting (e : area) : list area := if decide (meets s t e) then pieces c e else [e].

Lemma cut_list_same lo (l : list (Z * area)) :
  ranges_wf lo l -> Forall (fun kv => ~ meets s t kv.2) l -> cut_list cut_meeting l = l.
Proof.
  revert lo. induction l as [|[k e] l IH]; intros lo Hwf Hn; [done|]. destruct Hwf as (-> & _ & Hwf). apply Forall_cons in Hn as [He Hn].
  cbn [cut_list flat_map]. fold (cut_list cut_meeting l). rewrite (IH _ Hwf Hn). unfold cut_meeting. by rewrite decide_False.
Qed.

Lemma ranges_wf_suffix lo (l1 l2 : list (Z * area)) : ranges_wf lo (l1 ++ l2) -> exists lo', ranges_wf lo' l2.
Proof. revert lo. induction l1 as [|[k e] l1 IH]; intros lo Hwf; [by exists lo|]. destruct Hwf as (_ & _ & Hwf). by eapply IH. Qed.
Lemma ranges_wf_prefix lo (l1 l2 : list (Z * area)) : ranges_wf lo (l1 ++ l2) -> ranges_wf lo l1.
Proof. revert lo. induction l1 as [|[k e] l1 IH]; intros lo Hwf; [done|]. destruct Hwf as (? & ? & Hwf). split; [done|]. split; [done|]. by eapply IH. Qed.

Context (l1 : list (Z * area)) (es : list area) (l2 : list (Z * area)).
Hypothesis (H1 : Forall (fun kv => rend kv.2 <= s) l1) (H2 : Forall (meets s t) es) (H3 : Forall (fun kv => t <= rstart kv.2) l2).
Hypothesis (Hwf : ranges_wf 0 (run l1 es l2)) (Hareas : Forall (fun kv => area_ok kv.2) (run l1 es l2)).

Definition replaced : list (Z * area) := run l1 (flat_map (pieces c) es) l2.

Lemma es_wf : exists lo, ranges_wf lo (map keyed es).
Proof. destruct (ranges_wf_suffix _ _ _ Hwf) as [lo Hlo]. exists lo. by eapply ranges_wf_prefix. Qed.

Lemma cut_list_run : cut_list cut_meeting (run l1 es l2) = replaced.
Proof.
  unfold replaced, run, cut_list. rewrite !flat_map_app. fold (cut_list cut_meeting l1) (cut_list cut_meeting l2).
  destruct (ranges_wf_suffix _ _ _ Hwf) as [lo Hlo]. destruct (ranges_wf_suffix _ _ _ Hlo) as [lo2 Hlo2].
  assert (Hn1 : Forall (fun kv => ~ meets s t kv.2) l1) by (eapply Forall_impl; [exact H1|]; cbn; unfold meets; lia).
  assert (Hn2 : Forall (fun kv => ~ meets s t kv.2) l2) by (eapply Forall_impl; [exact H3|]; cbn; unfold meets; lia).
  rewrite (cut_list_same 0 l1 (ranges_wf_prefix _ _ _ Hwf) Hn1), (cut_list_same lo2 l2 Hlo2 Hn2).
  f_equal. f_equal. clear -H2. induction es as [|e es' IH]; [done|]. apply Forall_cons in H2 as [He Hes]. cbn [map flat_map].
  rewrite map_app, IH by done. f_equal. unfold cut_meeting. cbn. by rewrite decide_True.
Qed.

Lemma cut_meeting_ok : Forall (fun kv => within kv.2 (cut_meeting kv.2) /\ Forall area_ok (cut_meeting kv.2)) (run l1 es l2).
Proof.
  eapply Forall_impl; [exact Hareas|]. intros [k e] He. cbn in *. unfold cut_meeting. case_decide; [by apply pc_within|].
  split; [by apply within_self; apply He|by constructor].
Qed.

Lemma replaced_wf : ranges_wf 0 replaced.
Proof. rewrite <- cut_list_run. apply cut_wf; [done|]. eapply Forall_impl; [exact cut_meeting_ok|]. by intros kv [? _]. Qed.

Lemma replaced_areas : Forall (fun kv => area_ok kv.2) replaced.
Proof.
  rewrite <- cut_list_run. unfold cut_list. apply Forall_flat_map. eapply Forall_impl; [exact cut_meeting_ok|]. intros kv [_ ?]. by apply Forall_map.
Qed.

Lemma replaced_at p :
  page_at replaced p = if (s <=? p) && (p <? t) then m ← page_at (run l1 es l2) p; change c m else page_at (run l1 es l2) p.
Proof.
  unfold page_at at 1. rewrite <- cut_list_run, (cut_at _ 0); [|done|eapply Forall_impl; [exact cut_meeting_ok|]; by intros kv [? _]].
  unfold page_at. destruct (at_point (run l1 es l2) p) as [e|] eqn:E; cbn; [|by destruct (_ && _)].
  apply (at_point_spec 0) in E as [Hin Hp]; [|done]. pose proof (proj1 (Forall_forall _ _) Hareas _ Hin) as He. cbn in He.
  unfold cut_meeting. case_decide as Em.
  - exact (pc_at c e p He Em Hp).
  - unfold meets in Em. change (page_at (map keyed [e]) p = if (s <=? p) && (p <? t) then change c (mapping e p) else Some (mapping e p)).
    rewrite page_at_one. destruct (Z.leb_spec (rstart e) p), (Z.ltb_spec p (rend e)); try lia. cbn [andb].
    destruct (Z.leb_spec s p), (Z.ltb_spec p t); try lia; done.
Qed.

(** ** Counting references *)
Definition adjusts : list BackingAdjust := omap (adjust_for (pieces c)) es.

Lemma times_replicate id n x : times id (replicate n x) = if decide (x = id) then Z.of_nat n else 0.
Proof.
  induction n as [|n IH]; [by case_decide|]. cbn [replicate]. rewrite times_cons, IH. case_decide; lia.
Qed.

Lemma visits_cons f id e es' :
  id <> 0 ->
  times id (visits f (omap (adjust_for (pieces c)) (e :: es'))) =
  (if decide (file_of e = id) then match adjust_for (pieces c) e with Some a => Z.of_nat (f a) | None => 0 end else 0)
  + times id (visits f (omap (adjust_for (pieces c)) es')).
Proof.
  intros Hid. cbn [omap list_omap]. unfold adjust_for, backing_adjust_for_segments, vma_backing_id. fold (file_of e).
  destruct (Z.eqb_spec (file_of e) 0) as [E|E]; cbn [mbind option_bind].
  - by case_decide; [congruence|].
  - cbn [visits flat_map]. rewrite times_app, times_replicate. cbn [backing_id]. case_decide; done.
Qed.

Lemma times_files_pieces id e : times id (map file_of (pieces c e)) = if decide (file_of e = id) then Z.of_nat (length (pieces c e)) else 0.
Proof.
  pose proof (pc_file c e) as Hf. induction (pieces c e) as [|q qs IH]; [by case_decide|]. cbn [map]. rewrite times_cons, IH by (intros q' Hq'; apply Hf; by right).
  rewrite (Hf q) by (by left). case_decide; cbn [length]; lia.
Qed.

(** Every piece has one reference, and so had every area: the balance of what is taken and
    given back. *)
Lemma balance id :
  id <> 0 ->
  times id (map file_of (flat_map (pieces c) es)) =
  times id (map file_of es) + times id (visits retain_count adjusts) - times id (visits release_count adjusts).
Proof.
  intros Hid. unfold adjusts. clear H2 Hwf Hareas. induction es as [|e es' IH]; [done|]. rewrite !visits_cons by done. cbn [flat_map map].
  rewrite map_app, times_app, times_cons, IH, times_files_pieces. case_decide as Ef; [|lia].
  unfold adjust_for, backing_adjust_for_segments, vma_backing_id. fold (file_of e). destruct (Z.eqb_spec (file_of e) 0); [congruence|]. cbn [mbind option_bind retain_count release_count].
  case_decide; lia.
Qed.

Lemma retains_bound id : times id (visits retain_count adjusts) <= Z.of_nat (length (flat_map (pieces c) es)).
Proof.
  unfold adjusts. clear H2 Hwf Hareas. induction es as [|e es' IH]; [done|]. cbn [omap list_omap flat_map]. rewrite length_app.
  unfold adjust_for at 1, backing_adjust_for_segments, vma_backing_id. destruct (_ =? 0); cbn [mbind option_bind]; [lia|].
  cbn [visits flat_map]. rewrite times_app, times_replicate. cbn [retain_count]. fold (visits retain_count (omap (adjust_for (pieces c)) es')). case_decide; lia.
Qed.

Lemma retained_known f id : id ∈ visits f adjusts -> id <> 0 /\ 1 <= times id (map file_of es).
Proof.
  unfold adjusts. clear H2 Hwf Hareas. induction es as [|e es' IH]; [by intros Hx%elem_of_nil|]. cbn [omap list_omap map]. rewrite times_cons.
  unfold adjust_for at 1, backing_adjust_for_segments, vma_backing_id. fold (file_of e). destruct (Z.eqb_spec (file_of e) 0); cbn [mbind option_bind].
  - intros Hx. destruct (IH Hx). case_decide; lia.
  - cbn [visits flat_map]. rewrite elem_of_app. intros [Hx|Hx].
    + apply elem_of_replicate in Hx as [-> _]. cbn. split; [done|]. rewrite decide_True by done. pose proof (times_nonneg (file_of e) (map file_of es')). lia.
    + destruct (IH Hx). case_decide; lia.
Qed.
End Replace.

(** ** The address space with the files it maps *)
Definition refs_ok (others : Z -> Z) (b : Backings) (l : list (Z * area)) : Prop :=
  positive b /\ refs b 0 = 0 /\ forall id, id <> 0 -> 0 <= others id /\ refs b id = others id + times id (files l).

Section Space.
Context {M : Type} `{HM : OrdMap M (RangeEntry VmaInfo)}.
Implicit Types (mm : Mm M) (l : list (Z * area)) (b : Backings) (others : Z -> Z).

(** Ids of backings start at 1.  [others] counts the references that other address spaces hold. *)
Record space_ok others mm b l : Prop := {
  sp_areas : areas_ok mm l;
  sp_offsets : Forall (fun kv => offset_ok kv.2) l;
  sp_refs : refs_ok others b l
}.

(** No counter is about to overflow, and the tree has room for two more areas. *)
Record room others l : Prop := {
  ro_cap : (length l + 2 <= om_cap)%nat;
  ro_count : Z.of_nat (length l) + 2 < 4294967295;
  ro_refs : forall id, others id + 2 * Z.of_nat (length l) + 2 <= U64_MAX
}.

Lemma space_area_ok others mm b l : space_ok others mm b l -> Forall (fun kv => area_ok kv.2) l.
Proof.
  intros [[[_ Hwf] _ _ _ _ _ Hal] Ho _]. apply Forall_forall. intros [k e] Hin. destruct (ranges_wf_elem _ _ _ _ Hwf Hin) as (_ & ? & ?).
  split; [done|exact (proj1 (Forall_forall _ _) Hal _ Hin)|exact (proj1 (Forall_forall _ _) Ho _ Hin)].
Qed.

Lemma files_run l1 es l2 : files (run l1 es l2) = files l1 ++ map file_of es ++ files l2.
Proof. unfold files, run. rewrite !map_app, map_map. done. Qed.

Lemma times_le_length id ids : times id ids <= Z.of_nat (length ids).
Proof. unfold times. pose proof (length_filter (fun x => x = id) ids). lia. Qed.

Context {s t : Z} (c : Cutting s t).
Context (others : Z -> Z) (mm : Mm M) (b : Backings) (l1 : list (Z * area)) (es : list area) (l2 : list (Z * area)).
Let l := run l1 es l2.
Let l' := replaced c l1 es l2.
Hypothesis (Hok : space_ok others mm b l) (Hroom : room others l).
Hypothesis (H1 : Forall (fun kv => rend kv.2 <= s) l1) (H2 : Forall (meets s t) es) (H3 : Forall (fun kv => t <= rstart kv.2) l2).
Hypothesis (Hfew : (length (flat_map (pieces c) es) <= length es + 2)%nat).

Lemma l_wf : ranges_wf 0 l.
Proof. by destruct Hok as [[[_ ?] _ _ _ _ _ _] _ _]. Qed.

Lemma replaced_room : room_for l1 (flat_map (pieces c) es) l2.
Proof.
  destruct Hroom as [Hr1 Hr2 _]. unfold l, run in Hr1, Hr2. rewrite !length_app, length_map in Hr1, Hr2.
  pose proof (replaced_wf c l1 es l2 H1 H2 H3 l_wf (space_area_ok _ _ _ _ Hok)) as Hwf'.
  pose proof (replaced_areas c l1 es l2 H1 H2 H3 l_wf (space_area_ok _ _ _ _ Hok)) as Ha.
  split; [done|]. split; [eapply Forall_impl; [exact Ha|]; by intros kv [_ ? _]|].
  unfold run. rewrite !length_app, length_map. lia.
Qed.

Lemma original_room : room_for l1 es l2.
Proof. apply areas_ok_room with mm. apply Hok. Qed.

Lemma replaced_offsets : Forall (fun kv => offset_ok kv.2) l'.
Proof.
  eapply Forall_impl; [exact (replaced_areas c l1 es l2 H1 H2 H3 l_wf (space_area_ok _ _ _ _ Hok))|]. by intros kv [_ _ ?].
Qed.

Lemma refs_bound id : 0 <= refs b id + times id (visits retain_count (adjusts c es)) <= U64_MAX.
Proof.
  destruct Hok as [_ _ (Hpos & Hzero & Href)], Hroom as [_ _ Hmax]. pose proof (times_nonneg id (visits retain_count (adjusts c es))).
  pose proof (retains_bound c es id) as Hb. assert (Hl : Z.of_nat (length es) <= Z.of_nat (length l)) by (unfold l, run; rewrite !length_app, length_map; lia).
  destruct (decide (id = 0)) as [->|Hid].
  - assert (times 0 (visits retain_count (adjusts c es)) = 0) as ->.
    { unfold times. rewrite filter_none; [done|]. apply Forall_forall. intros x Hx ->. by apply retained_known in Hx as [? _]. }
    rewrite Hzero. lia.
  - destruct (Href id Hid) as [Ho ->]. pose proof (times_le_length id (files l)) as Hf. unfold files in Hf at 2. rewrite length_map in Hf.
    pose proof (times_nonneg id (files l)). specialize (Hmax id). lia.
Qed.

Lemma times_zero_visits f : times 0 (visits f (adjusts c es)) = 0.
Proof. unfold times. rewrite filter_none; [done|]. apply Forall_forall. intros x Hx ->. by apply retained_known in Hx as [? _]. Qed.

(** The transaction goes through: the references are there to be taken, every area is found and
    every piece has room. *)
Lemma apply_plan_ok {X} (effect : area -> X) :
  exists mm' b', apply_plan mm b (plan_for (pieces c) effect es) = Ret (Ok tt, mm', b') /\
    areas_ok mm' l' /\ same_layout mm mm' /\ positive b' /\
    forall id, refs b' id = refs b id + times id (visits retain_count (adjusts c es)).
Proof.
  unfold apply_plan, apply_backing_retains. cbn [plan_for backing_adjusts removed inserted]. fold (adjusts c es).
  pose proof Hok as [Hareas _ (Hpos & Hzero & Href)].
  pose proof (retain_each_ok (visits retain_count (adjusts c es)) [] b b Hpos Hpos) as Hret.
  destruct (retain_each _ [] b) as [r b1]. specialize (Hret ltac:(intros x; unfold times; cbn; lia) ltac:(intros id; apply refs_bound)).
  destruct r as [[]|errno].
  - destruct Hret as (Hp1 & Hr1 & _). destruct (remove_each_ok mm l1 es l2 Hareas) as (mm1 & -> & Hok1 & Hl1). mstep.
    destruct (insert_segments_ok mm1 l1 (flat_map (pieces c) es) l2 es [] Hok1 replaced_room) as (mm2 & -> & Hok2 & Hl2). mstep.
    exists mm2, b1. split; [done|]. split; [done|]. split; [by eapply same_layout_trans|]. done.
  - exfalso. destruct Hret as (_ & _ & Hex). apply Exists_exists in Hex as (id & Hin & Hz). apply retained_known in Hin as [Hid Hin].
    destruct (Href id Hid) as [Ho Hr]. unfold l in Hr. rewrite files_run, !times_app in Hr.
    pose proof (times_nonneg id (files l1)). pose proof (times_nonneg id (files l2)). lia.
Qed.

(** Giving back what the plan gives up. *)
Lemma balanced_refs b' :
  positive b' -> (forall id, refs b' id = refs b id + times id (visits retain_count (adjusts c es))) ->
  refs_ok others (release_each (visits release_count (adjusts c es)) b') l'.
Proof.
  intros Hp' Hr'. pose proof Hok as [_ _ (Hpos & Hzero & Href)].
  assert (Hbal : forall id, id <> 0 -> refs b' id - times id (visits release_count (adjusts c es)) = others id + times id (files l')).
  { intros id Hid. destruct (Href id Hid) as [Ho Hr]. rewrite Hr', Hr. unfold l, l', replaced. rewrite !files_run, !times_app, (balance c es id Hid). lia. }
  destruct (release_each_ok (visits release_count (adjusts c es)) b' Hp') as [H4 H5].
  - intros id. pose proof (refs_bound id) as Hb. rewrite <- Hr' in Hb. split; [|lia]. destruct (decide (id = 0)) as [->|Hid]; [rewrite times_zero_visits; lia|].
    specialize (Hbal id Hid). destruct (Href id Hid) as [Ho _]. pose proof (times_nonneg id (files l')). lia.
  - split; [done|]. split; [rewrite H5, Hr', !times_zero_visits; lia|]. intros id Hid. split; [by apply Href|]. rewrite H5. by apply Hbal.
Qed.
End Space.

(** ** The page table's side of the interface

    [leaf s v] is the physical page and the flags that the entry of the page at [v] holds.
    The laws are what the theorems of PagingMap.v and PagingUnmap.v show of paging.rs, there
    for well-formed tables of the process's own; the interface does not carry that condition,
    and its instance, [FlatTable] below, is a plain map. *)
Class PageTable (S : Type) `{PageTableOps S} := {
  leaf : S -> Z -> option (Z * Z);
  leaf_frame s v ph f : leaf s v = Some (ph, f) -> (PAGE_SIZE | ph) /\ 0 <= ph < u64_size;
  translate_leaf s v : (PAGE_SIZE | v) -> translate_addr s v = option_map fst (leaf s v);
  map_page_leaf s v ph f : (PAGE_SIZE | v) -> (PAGE_SIZE | ph) -> 0 <= ph < u64_size ->
    let '(ok, s') := map_page s v ph f in
    forall w, (PAGE_SIZE | w) -> leaf s' w = if ok && (w =? v) then Some (ph, f) else leaf s w;
  unmap_page_leaf s v w : (PAGE_SIZE | v) -> (PAGE_SIZE | w) -> leaf (unmap_page s v) w = if w =? v then None else leaf s w;
  release_frame_leaf s pfn w : leaf (release_frame s pfn) w = leaf s w
}.

Section Ptes.
Context {S : Type} `{HP : PageTable S}.

Definition retag (f : Z) (o : option (Z * Z)) : option (Z * Z) := option_map (fun x => (x.1, f)) o.

Lemma page_of_frame ph : (PAGE_SIZE | ph) -> 0 <= ph < u64_size -> Z.land ph (not64 (PAGE_SIZE - 1)) = ph.
Proof.
  intros [k ->] Hb. change (PAGE_SIZE - 1) with (2 ^ 12 - 1). rewrite land_not_mask by (unfold in_u64; lia).
  change (2 ^ 12) with PAGE_SIZE. rewrite Z.div_mul by done. lia.
Qed.

Lemma apply_pte_flags_ok addrs f (pt : S) :
  Forall (fun v => (PAGE_SIZE | v)) addrs ->
  let '(r, pt') := apply_pte_flags addrs f pt in
  match r with
  | Ok _ => forall v, (PAGE_SIZE | v) -> leaf pt' v = if bool_decide (v ∈ addrs) then retag f (leaf pt v) else leaf pt v
  | Err errno => errno = ENOMEM /\ forall v, (PAGE_SIZE | v) -> v ∉ addrs -> leaf pt' v = leaf pt v
  end.
Proof.
  intros Ha. revert pt. induction Ha as [|a addrs Pa _ IH]; intros pt; cbn [apply_pte_flags].
  - intros v _. by rewrite bool_decide_false by (by intros Hv%elem_of_nil).
  - rewrite translate_leaf by done. destruct (leaf pt a) as [[ph fl]|] eqn:E; cbn [option_map fst].
    + destruct (leaf_frame _ _ _ _ E) as [P1 P2]. rewrite page_of_frame by done. pose proof (map_page_leaf pt a ph f Pa P1 P2) as Hm.
      destruct (map_page pt a ph f) as [[] pt1]; cbn [andb] in Hm.
      * specialize (IH pt1). destruct (apply_pte_flags addrs f pt1) as [[[]|errno] pt2].
        -- intros v Pv. rewrite (IH v Pv), (Hm v Pv). destruct (Z.eqb_spec v a) as [->|Hn].
           ++ rewrite (bool_decide_true (a ∈ a :: addrs)) by (by left). rewrite E. by destruct (bool_decide _).
           ++ rewrite (bool_decide_ext (v ∈ a :: addrs) (v ∈ addrs)); [done|]. rewrite elem_of_cons. tauto.
        -- destruct IH as [-> IH]. split; [done|]. intros v Pv Hv. rewrite elem_of_cons in Hv. rewrite (IH v Pv), (Hm v Pv) by tauto.
           by destruct (Z.eqb_spec v a); [tauto|].
      * split; [done|]. intros v Pv _. by rewrite (Hm v Pv).
    + specialize (IH pt). destruct (apply_pte_flags addrs f pt) as [[[]|errno] pt2].
      * intros v Pv. rewrite (IH v Pv). destruct (decide (v = a)) as [->|Hn].
        -- rewrite (bool_decide_true (a ∈ a :: addrs)) by (by left). rewrite E. by destruct (bool_decide _).
        -- rewrite (bool_decide_ext (v ∈ a :: addrs) (v ∈ addrs)); [done|]. rewrite elem_of_cons. tauto.
      * destruct IH as [-> IH]. split; [done|]. intros v Pv Hv. rewrite elem_of_cons in Hv. apply IH; tauto.
Qed.

Lemma elem_of_page_addrs a b v : (PAGE_SIZE | a) -> (PAGE_SIZE | v) -> v ∈ page_addrs a b <-> a <= v < b.
Proof.
  intros [x ->] [y ->]. unfold page_addrs. rewrite list_elem_of_fmap. unfold PAGE_SIZE. split.
  - intros (i & E & Hi%elem_of_seq). pose proof (Z.div_mod (b - x * 4096 + 4096 - 1) 4096). pose proof (Z.mod_pos_bound (b - x * 4096 + 4096 - 1) 4096). lia.
  - intros Hv. exists (Z.to_nat (y - x)). split; [lia|]. apply elem_of_seq. split; [lia|].
    assert (y - x < (b - x * 4096 + 4096 - 1) / 4096) by (pose proof (Z.div_mod (b - x * 4096 + 4096 - 1) 4096); pose proof (Z.mod_pos_bound (b - x * 4096 + 4096 - 1) 4096); lia). lia.
Qed.

Lemma page_addrs_aligned a b : (PAGE_SIZE | a) -> Forall (fun v => (PAGE_SIZE | v)) (page_addrs a b).
Proof. intros [x ->]. apply Forall_forall. intros v (i & -> & _)%list_elem_of_fmap. exists (x + Z.of_nat i). lia. Qed.

Lemma apply_range_ok a b f (pt : S) :
  (PAGE_SIZE | a) ->
  let '(r, pt') := apply_pte_flags_range a b f pt in
  match r with
  | Ok _ => forall v, (PAGE_SIZE | v) -> leaf pt' v = if (a <=? v) && (v <? b) then retag f (leaf pt v) else leaf pt v
  | Err errno => errno = ENOMEM /\ forall v, (PAGE_SIZE | v) -> ~ a <= v < b -> leaf pt' v = leaf pt v
  end.
Proof.
  intros Pa. unfold apply_pte_flags_range. pose proof (apply_pte_flags_ok (page_addrs a b) f pt (page_addrs_aligned a b Pa)) as Hok.
  destruct (apply_pte_flags _ f pt) as [[[]|errno] pt'].
  - intros v Pv. rewrite (Hok v Pv). pose proof (elem_of_page_addrs a b v Pa Pv) as He.
    case_bool_decide as Hin; rewrite He in Hin; destruct (Z.leb_spec a v), (Z.ltb_spec v b); cbn; (done || lia).
  - destruct Hok as [-> Hok]. split; [done|]. intros v Pv Hv. apply Hok; [done|]. by rewrite elem_of_page_addrs.
Qed.

Lemma undo_updates_outside us s t (pt : S) v :
  Forall (fun u => (PAGE_SIZE | pu_start u) /\ s <= pu_start u /\ pu_end u <= t) us -> (PAGE_SIZE | v) -> ~ s <= v < t ->
  leaf (undo_updates us pt) v = leaf pt v.
Proof.
  intros Hu Pv Hv. revert pt. induction Hu as [|u us (Pu & Hs & Ht) _ IH]; intros pt; [done|]. cbn [undo_updates]. rewrite IH.
  pose proof (apply_range_ok (pu_start u) (pu_end u) (old_flags u) pt Pu) as Hok.
  destruct (apply_pte_flags_range _ _ _ pt) as [[[]|errno] pt']; cbn [snd].
  - rewrite (Hok v Pv). destruct (Z.leb_spec (pu_start u) v), (Z.ltb_spec v (pu_end u)); (done || lia).
  - apply Hok; [done|lia].
Qed.
End Ptes.

Section Updates.
Context {S : Type} `{HP : PageTable S} (prot s t : Z) (Hst : s < t) (Ps : (PAGE_SIZE | s)) (Pt : (PAGE_SIZE | t)).

Definition protected_flags (flags : Z) : Z := to_user_pte_flags (mprotect_flags_from_prot flags prot).

(** The entry of a page after the updates for the areas [es]. *)
Definition updated (es : list area) (v : Z) (o : option (Z * Z)) : option (Z * Z) :=
  match at_point (map keyed es) v with
  | Some e => if (s <=? v) && (v <? t) then retag (protected_flags (vi_flags (rvalue e))) o else o
  | None => o
  end.

Lemma update_inside e : area_ok e -> meets s t e ->
  (PAGE_SIZE | pu_start (pte_update prot s t e)) /\ s <= pu_start (pte_update prot s t e) /\ pu_end (pte_update prot s t e) <= t.
Proof. intros He Hm. by destruct (cut_bounds e He s t Hst Ps Pt Hm) as (_ & _ & ? & _ & ? & ? & _). Qed.

Lemma apply_updates_ok lo es dn (pt : S) :
  ranges_wf lo (map keyed es) -> Forall area_ok es -> Forall (meets s t) es -> Forall area_ok dn -> Forall (meets s t) dn ->
  let '(r, pt') := apply_updates (map (pte_update prot s t) es) (map (pte_update prot s t) dn) pt in
  match r with
  | Ok _ => forall v, (PAGE_SIZE | v) -> leaf pt' v = updated es v (leaf pt v)
  | Err errno => errno = ENOMEM /\ forall v, (PAGE_SIZE | v) -> ~ s <= v < t -> leaf pt' v = leaf pt v
  end.
Proof.
  intros Hwf Hok Hm Hdok Hdm. revert lo Hwf dn Hdok Hdm pt.
  induction es as [|e es IH]; intros lo Hwf dn Hdok Hdm pt; cbn [map apply_updates]; [done|]. destruct Hwf as (_ & Hb & Hwf).
  apply Forall_cons in Hok as [He Hok]. apply Forall_cons in Hm as [Hme Hm]. specialize (IH Hok Hm (rend e) Hwf).
  destruct (update_inside e He Hme) as (Pu & Hu1 & Hu2).
  pose proof (apply_range_ok (pu_start (pte_update prot s t e)) (pu_end (pte_update prot s t e)) (new_flags (pte_update prot s t e)) pt Pu) as Hr.
  destruct (apply_pte_flags_range _ _ _ pt) as [[[]|errno] pt1].
  - specialize (IH (dn ++ [e]) ltac:(apply Forall_app; by split; [|constructor]) ltac:(apply Forall_app; by split; [|constructor]) pt1).
    rewrite map_app in IH. cbn [map] in IH. destruct (apply_updates _ _ pt1) as [[[]|errno] pt2].
    + intros v Pv. rewrite (IH v Pv), (Hr v Pv). unfold updated. cbn [map]. rewrite at_point_cons. cbn [keyed snd pte_update pu_start pu_end new_flags]. unfold covers_point, cut_start, cut_end.
      destruct (Z.leb_spec (rstart e) v), (Z.ltb_spec v (rend e)); cbn [andb].
      1: rewrite (at_point_outside (rend e)) by (done || lia).
      all: destruct (Z.leb_spec (Z.max (rstart e) s) v), (Z.ltb_spec v (Z.min (rend e) t)); try lia; cbn [andb]; try done.
      all: destruct (Z.leb_spec s v), (Z.ltb_spec v t); try lia; cbn [andb]; done.
    + destruct IH as [-> IH]. split; [done|]. intros v Pv Hv. rewrite (IH v Pv Hv), (Hr v Pv).
      destruct (Z.leb_spec (pu_start (pte_update prot s t e)) v), (Z.ltb_spec v (pu_end (pte_update prot s t e))); try lia; done.
  - destruct Hr as [-> Hr]. split; [done|]. intros v Pv Hv. rewrite (undo_updates_outside _ s t); [apply Hr; [done|lia]| |done|done].
    apply Forall_reverse, Forall_map, Forall_forall. intros d Hd. apply update_inside; [exact (proj1 (Forall_forall _ _) Hdok d Hd)|exact (proj1 (Forall_forall _ _) Hdm d Hd)].
Qed.

(** In the range, the areas that meet it are the ones that hold its points. *)
Lemma at_point_range l1 es l2 v :
  Forall (fun kv => rend kv.2 <= s) l1 -> Forall (fun kv => t <= rstart kv.2) l2 -> s <= v < t ->
  at_point (run l1 es l2) v = at_point (map keyed es) v.
Proof.
  intros H1 H3 Hv. unfold run. rewrite !at_point_app.
  assert (Hn : forall l : list (Z * area), Forall (fun kv => ~ rstart kv.2 <= v < rend kv.2) l -> at_point l v = None).
  { clear. intros l Hl. induction Hl as [|[k e] l He _ IH]; [done|]. rewrite at_point_cons. rewrite <- covers_point_spec in He. cbn in *. by destruct (covers_point v e). }
  rewrite (Hn l1), (Hn l2); [by destruct (at_point (map keyed es) v)|eapply Forall_impl; [exact H3|]; cbn; lia|eapply Forall_impl; [exact H1|]; cbn; lia].
Qed.

Lemma updated_in_range l1 es l2 v o :
  Forall (fun kv => rend kv.2 <= s) l1 -> Forall (fun kv => t <= rstart kv.2) l2 ->
  updated es v o = if (s <=? v) && (v <? t)
                   then match page_at (run l1 es l2) v with Some m => retag (protected_flags (m_flags m)) o | None => o end else o.
Proof.
  intros H1 H3. unfold updated, page_at. destruct (Z.leb_spec s v), (Z.ltb_spec v t); cbn [andb];
    try (rewrite (at_point_range l1 es l2 v H1 H3) by lia); by destruct (at_point (map keyed es) v).
Qed.
End Updates.

(** ** The two system calls on an address space *)
Section Theorems.
Context {M : Type} `{HM : OrdMap M (RangeEntry VmaInfo)}.
Implicit Types (mm : Mm M) (l : list (Z * area)) (b : Backings) (others : Z -> Z).

(** [munmap] of a page range always succeeds on a sound address space and removes exactly that
    range; the ranges returned for the page table cover exactly the addresses that lost their
    mapping, and every mapped file keeps one reference per area that maps it. *)
Lemma collect_unmap_ok others mm b l s t :
  space_ok others mm b l -> room others l -> 0 <= s < t -> (PAGE_SIZE | s) -> (PAGE_SIZE | t) ->
  exists ranges mm' b' l', collect_unmap_ranges_for_mm mm b s t = Ret (Ok ranges, mm', b') /\
    space_ok others mm' b' l' /\ same_layout mm mm' /\ (length l' <= length l + 1)%nat /\
    (forall p, page_at l' p = if (s <=? p) && (p <? t) then None else page_at l p) /\
    Forall (fun r => (PAGE_SIZE | r.1)) ranges /\
    (forall p, (exists r, r ∈ ranges /\ r.1 <= p < r.2) <-> s <= p < t /\ page_at l p <> None).
Proof.
  intros Hok Hroom Hst Ps Pt. pose proof (sp_areas _ _ _ _ Hok) as Hareas. pose proof (ok_tree _ _ Hareas) as Ht.
  destruct (split_range 0 l s t (proj2 Ht)) as (l1 & es & l2 & -> & H1 & H2 & H3).
  unfold collect_unmap_ranges_for_mm. rewrite (plan_unmap_ok mm s t l1 es l2) by done. mstep.
  set (c := unmapping s t (proj2 Hst) Ps Pt). change (unmap_pieces s t) with (pieces c).
  destruct (es_wf l1 es l2 (proj2 Ht)) as [lo Hlo].
  assert (Hfew : (length (flat_map (pieces c) es) <= length es + 2)%nat) by (pose proof (unmap_pieces_total lo s t es Hlo H2); cbn; lia).
  destruct (apply_plan_ok c others mm b l1 es l2 Hok Hroom H1 H2 H3 Hfew (fun e => (cut_start s e, cut_end t e))) as (mm' & b' & -> & Ha & Hl & Hp & Hr). mstep.
  eexists _, mm', _, (replaced c l1 es l2). split; [reflexivity|]. split; [split; [done| |]|split; [done|split; [|split; [|split]]]].
  - by apply (replaced_offsets c others mm b).
  - by apply (balanced_refs c others mm b l1 es l2 Hok Hroom Hfew).
  - unfold replaced, run. rewrite !length_app, !length_map. pose proof (unmap_pieces_total lo s t es Hlo H2). cbn [pieces c unmapping].
    destruct es; cbn [length flat_map] in *; lia.
  - intros p. rewrite (replaced_at c l1 es l2 H1 H2 H3 (proj2 Ht) (space_area_ok _ _ _ _ Hok)). cbn [change c unmapping].
    destruct (_ && _); [|done]. by destruct (page_at (run l1 es l2) p).
  - apply Forall_map, Forall_forall. intros e Hin. pose proof (space_area_ok _ _ _ _ Hok) as Haok. unfold run in Haok.
    rewrite !Forall_app in Haok. destruct Haok as (_ & Haok & _). pose proof (proj1 (Forall_forall _ _) (proj1 (Forall_map _ _ _) Haok) e Hin) as He.
    by destruct (cut_bounds e He s t (proj2 Hst) Ps Pt (proj1 (Forall_forall _ _) H2 e Hin)) as (_ & _ & ? & _).
  - intros p. cbn [plan_for effects]. split.
    + intros (r & (e & -> & Hin)%list_elem_of_fmap & Hrp). cbn in Hrp. unfold cut_start, cut_end in Hrp. split; [lia|].
      assert (at_point (run l1 es l2) p = Some e) as E; [|unfold page_at; by rewrite E]. apply (at_point_spec 0); [apply Ht|]. split; [|lia].
      apply elem_of_app; right. apply elem_of_app; left. apply list_elem_of_fmap. by exists e.
    + intros [Hrange Hp']. unfold page_at in Hp'. rewrite (at_point_range s t) in Hp' by done. destruct (at_point (map keyed es) p) as [e|] eqn:E; [|done].
      apply (at_point_spec lo) in E as [Hin Hep]; [|done]. apply list_elem_of_fmap in Hin as (e' & [= _ ->] & Hin). exists (cut_start s e', cut_end t e').
      split; [apply list_elem_of_fmap; by exists e'|]. cbn. unfold cut_start, cut_end. lia.
Qed.

Context {S : Type} `{HP : PageTable S}.

(** The transaction part of [mprotect]: it is done, or undone when the page table fails. *)
Lemma mprotect_transaction others mm b l1 es l2 (pt : S) prot s t (Hst : s < t) (Ps : (PAGE_SIZE | s)) (Pt : (PAGE_SIZE | t)) :
  let l := run l1 es l2 in
  let c := protecting prot s t Hst Ps Pt in
  space_ok others mm b l -> room others l ->
  Forall (fun kv => rend kv.2 <= s) l1 -> Forall (meets s t) es -> Forall (fun kv => t <= rstart kv.2) l2 ->
  plan_mprotect_updates mm s t prot = Ret (Ok (plan_for (protect_pieces prot s t) (pte_update prot s t) es)) ->
  exists r mm' b' pt', mprotect_range_for_mm mm b pt s t prot = Ret (r, mm', b', pt') /\ same_layout mm mm' /\
    match r with
    | Ok _ => space_ok others mm' b' (replaced c l1 es l2) /\ forall v, (PAGE_SIZE | v) -> leaf pt' v = updated prot s t es v (leaf pt v)
    | Err errno => errno = ENOMEM /\ space_ok others mm' b' l /\ b' = b /\ forall v, (PAGE_SIZE | v) -> ~ s <= v < t -> leaf pt' v = leaf pt v
    end.
Proof.
  intros l c Hok Hroom H1 H2 H3 Hplan. pose proof Hok as [Hareas Hoff (Hpos & Hzero & Href)]. pose proof (ok_tree _ _ Hareas) as Ht.
  destruct (es_wf l1 es l2 (proj2 Ht)) as [lo Hlo]. pose proof (space_area_ok _ _ _ _ Hok) as Haok.
  assert (Hes : Forall area_ok es) by (unfold l, run in Haok; rewrite !Forall_app in Haok; destruct Haok as (_ & Haok & _); exact (proj1 (Forall_map _ _ _) Haok)).
  assert (Hfew : (length (flat_map (pieces c) es) <= length es + 2)%nat) by (exact (protect_pieces_total lo prot s t es Hlo H2)).
  unfold mprotect_range_for_mm. rewrite Hplan. mstep. change (protect_pieces prot s t) with (pieces c).
  destruct (apply_plan_ok c others mm b l1 es l2 Hok Hroom H1 H2 H3 Hfew (pte_update prot s t)) as (mm1 & b1 & -> & Ha & Hl & Hp & Hr). mstep.
  assert (Hrel : visits release_count (adjusts c es) = []).
  { unfold adjusts. clear. induction es as [|e es IH]; [done|]. cbn [omap list_omap]. unfold adjust_for at 1, backing_adjust_for_segments.
    destruct (vma_backing_id _); cbn [mbind option_bind]; [|done]. cbn [visits flat_map]. cbn [c protecting pieces protect_pieces release_count].
    rewrite decide_False by (unfold protect_pieces; rewrite !length_app; cbn; lia). done. }
  pose proof (balanced_refs c others mm b l1 es l2 Hok Hroom Hfew b1 Hp Hr) as Hbal. rewrite Hrel in Hbal. cbn [release_each foldl] in Hbal.
  pose proof (apply_updates_ok prot s t Hst Ps Pt lo es [] pt Hlo Hes H2 ltac:(done) ltac:(done)) as Hup. cbn [map] in Hup. cbn [plan_for effects removed inserted backing_adjusts].
  destruct (apply_updates (map (pte_update prot s t) es) [] pt) as [[[]|errno] pt'].
  - exists (Ok tt), mm1, b1, pt'. split; [done|]. split; [done|]. split; [|done]. split; [done|by apply (replaced_offsets c others mm b)|done].
  - destruct Hup as [-> Hup]. destruct (rollback_ok mm1 l1 es _ l2 Ha (original_room others mm b l1 es l2 Hok)) as (mm2 & -> & Ha2 & Hl2). mstep.
    assert (Hback : rollback_backing_retains (adjusts c es) b1 = b).
    { unfold rollback_backing_retains. assert (Hperm : visits retain_count (reverse (adjusts c es)) ≡ₚ visits retain_count (adjusts c es))
        by (unfold visits; by rewrite reverse_Permutation).
      destruct (release_each_ok (visits retain_count (reverse (adjusts c es))) b1 Hp) as [H4 H5].
      - intros id. rewrite (times_perm _ _ _ Hperm). pose proof (refs_bound c others mm b l1 es l2 Hok Hroom Hfew id) as Hb. rewrite Hr.
        assert (0 <= refs b id); [|lia]. unfold refs. destruct (b !! id) eqn:E; cbn; [|lia]. specialize (Hpos id _ E). cbn in Hpos. lia.
      - apply positive_ext; [done|done|]. intros id. rewrite H5, (times_perm _ _ _ Hperm), Hr. lia. }
    fold (adjusts c es). rewrite Hback. exists (Err ENOMEM), mm2, b, pt'. split; [done|]. split; [by eapply same_layout_trans|].
    split; [done|]. split; [|done]. by split.
Qed.

(** [mprotect] of a page range: a hole in the range is an error and nothing changes; otherwise
    exactly the range changes, in the areas and in the page table, or the page table fails and
    the areas and the references are as before. *)
Lemma mprotect_range_ok others mm b l (pt : S) s t prot :
  space_ok others mm b l -> room others l -> 0 <= s < t -> (PAGE_SIZE | s) -> (PAGE_SIZE | t) ->
  ((exists p, s <= p < t /\ page_at l p = None) /\ mprotect_range_for_mm mm b pt s t prot = Ret (Err ENOMEM, mm, b, pt)) \/
  ((forall p, s <= p < t -> page_at l p <> None) /\
   exists r mm' b' pt', mprotect_range_for_mm mm b pt s t prot = Ret (r, mm', b', pt') /\ same_layout mm mm' /\
     match r with
     | Ok _ => exists l', space_ok others mm' b' l' /\
         (forall p, page_at l' p = if (s <=? p) && (p <? t)
                                   then option_map (with_m_flags (fun f => mprotect_flags_from_prot f prot)) (page_at l p) else page_at l p) /\
         (forall v, (PAGE_SIZE | v) -> leaf pt' v = if (s <=? v) && (v <? t)
            then match page_at l v with Some m => retag (protected_flags prot (m_flags m)) (leaf pt v) | None => leaf pt v end else leaf pt v)
     | Err errno => errno = ENOMEM /\ space_ok others mm' b' l /\ b' = b /\
         (forall v, (PAGE_SIZE | v) -> ~ s <= v < t -> leaf pt' v = leaf pt v)
     end).
Proof.
  intros Hok Hroom Hst Ps Pt. pose proof (ok_tree _ _ (sp_areas _ _ _ _ Hok)) as Ht.
  destruct (split_range 0 l s t (proj2 Ht)) as (l1 & es & l2 & -> & H1 & H2 & H3).
  assert (Hpa : forall p, page_at (run l1 es l2) p = None <-> at_point (run l1 es l2) p = None) by (intros p; unfold page_at; by destruct (at_point _ p)).
  destruct (plan_mprotect_loop_ok (Datatypes.S (Z.to_nat (len (vma_tree mm)))) mm prot s t s l1 es l2 (mkPlan [] [] [] [])) as [[Hcov Hplan]|[(p & Hp & Hgap) Hplan]].
  - done.
  - by apply ahead_start; [apply Ht|..].
  - lia.
  - unfold len. rewrite (om_len_ok _ _ (proj1 Ht)). unfold run. rewrite !length_app, length_map. lia.
  - right. split; [intros p Hp; rewrite Hpa; by apply Hcov|]. cbn in Hplan.
    destruct (mprotect_transaction others mm b l1 es l2 pt prot s t (proj2 Hst) Ps Pt Hok Hroom H1 H2 H3 Hplan) as (r & mm' & b' & pt' & E & Hl & Hr).
    exists r, mm', b', pt'. split; [done|]. split; [done|]. destruct r as [[]|errno]; [|done]. destruct Hr as [Hr Hleaf].
    eexists. split; [exact Hr|]. split.
    + intros q. rewrite (replaced_at _ l1 es l2 H1 H2 H3 (proj2 Ht) (space_area_ok _ _ _ _ Hok)). cbn [change protecting]. by destruct (_ && _).
    + intros v Pv. rewrite (Hleaf v Pv). by apply updated_in_range.
  - left. split; [exists p; split; [done|by apply Hpa]|]. unfold mprotect_range_for_mm, plan_mprotect_updates. by rewrite Hplan.
Qed.
End Theorems.

(** ** A page table without levels, which can run out of memory: it satisfies the interface *)
Record FlatTable := mkFlat { entries : gmap Z (Z * Z); budget : nat }.

#[export] Instance flat_ops : PageTableOps FlatTable := {|
  translate_addr s v := option_map (fun x => (x.1 mod 4503599627370496) * PAGE_SIZE + v mod PAGE_SIZE) (entries s !! (v / PAGE_SIZE));
  map_page s v ph f :=
    match budget s with
    | O => (false, s)
    | S n => (true, mkFlat (<[v / PAGE_SIZE := (ph / PAGE_SIZE, f)]> (entries s)) n)
    end;
  unmap_page s v := mkFlat (delete (v / PAGE_SIZE) (entries s)) (budget s);
  release_frame s _ := s
|}.

Definition flat_leaf (s : FlatTable) (v : Z) : option (Z * Z) :=
  option_map (fun x => ((x.1 mod 4503599627370496) * PAGE_SIZE, x.2)) (entries s !! (v / PAGE_SIZE)).

Lemma same_page v w : (PAGE_SIZE | v) -> (PAGE_SIZE | w) -> v / PAGE_SIZE = w / PAGE_SIZE -> v = w.
Proof. intros [x ->] [y ->]. rewrite !Z.div_mul by done. by intros ->. Qed.

#[export] Instance flat_table : PageTable FlatTable.
Proof.
  refine {| leaf := flat_leaf |}; unfold flat_leaf.
  - intros s v ph f E. destruct (entries s !! (v / PAGE_SIZE)) as [[n f']|]; cbn in E; [|done]. injection E as <- <-.
    split; [apply Z.divide_factor_r|]. unfold PAGE_SIZE. pose proof (Z.mod_pos_bound n 4503599627370496 ltac:(lia)). lia.
  - intros s v [x ->]. cbn. rewrite Z.mod_mul by done. destruct (entries s !! _) as [[n f]|]; cbn; [|done]. by rewrite Z.add_0_r.
  - intros s v ph f Pv [n ->] Hb. cbn. destruct (budget s); cbn [andb]; [done|]. intros w Pw. cbn. destruct (Z.eqb_spec w v) as [->|Hn].
    + rewrite lookup_insert_eq. cbn. rewrite Z.div_mul by done. rewrite Z.mod_small; [done|]. unfold PAGE_SIZE in *. lia.
    + rewrite lookup_insert_ne; [done|]. intros E. apply Hn. by apply same_page.
  - intros s v w Pv Pw. cbn. destruct (Z.eqb_spec w v) as [->|Hn]; [by rewrite lookup_delete_eq|].
    rewrite lookup_delete_ne; [done|]. intros E. apply Hn. by apply same_page.
  - done.
Defined.

(** ** Three pages of a mapped file *)
Definition file_area : area := mkRange 0x400000 0x403000 (mkVmaInfo (Z.lor READ WRITE) 5 1 0).
Definition file_mm : Mm (BTree area) :=
  mkMm (mkBTree (mkNode true [0x400000] [file_area] []) 1) 1 77 0 0 0 USER_MMAP_BASE USER_MMAP_BASE 3 0 0.
Definition file_refs : Backings := {[1 := 1]}.
Definition no_others : Z -> Z := fun _ => 0.
Definition file_pages (budget : nat) : FlatTable := mkFlat {[ 0x400 := (7, 1); 0x401 := (8, 1) ]} budget.

Lemma file_space : space_ok no_others file_mm file_refs [keyed file_area] /\ room no_others [keyed file_area].
Proof.
  split; [split; [split|..]|split].
  - split; [|vm_compute; intuition discriminate]. left. split; [|reflexivity|repeat constructor; vm_compute; congruence|reflexivity].
    apply wf_leaf. exists [keyed file_area]. split; [reflexivity|]. unfold MAX_KEYS, B. simpl. lia.
  - reflexivity.
  - vm_compute. lia.
  - reflexivity.
  - reflexivity.
  - reflexivity.
  - apply Forall_singleton. split; by apply Z.mod_divide.
  - apply Forall_singleton. vm_compute. intuition discriminate.
  - split; [by apply map_Forall_singleton|]. split; [done|]. intros id Hid. split; [done|]. unfold refs, file_refs, files. cbn [map]. rewrite times_cons.
    destruct (decide (id = 1)) as [->|Hn]; [done|]. rewrite lookup_singleton_ne by done. by rewrite decide_False.
  - vm_compute. lia.
  - done.
  - intros id. vm_compute. congruence.
Qed.

(** [munmap] of the middle page: two areas remain, each with its reference. *)
Example munmap_splits_a_file :
  match collect_unmap_ranges_for_mm file_mm file_refs 0x401000 0x402000 with
  | Ret (Ok ranges, mm', b') => ranges = [(0x401000, 0x402000)] /\ vma_count mm' = 2 /\ total_vm mm' = 2 /\ refs b' 1 = 2
  | _ => False
  end.
Proof. by vm_compute. Qed.

(** When an entry cannot be written, the entries of the same area that were already written keep
    the new flags, while the area gets its old flags back: the first page stays read-only
    although the area is writable. *)
Example failed_mprotect_leaves_entries :
  match mprotect_range_for_mm file_mm file_refs (mkFlat {[ 0x400 := (7, to_user_pte_flags 3); 0x401 := (8, to_user_pte_flags 3) ]} 1)
          0x400000 0x402000 PROT_READ with
  | Ret (Err errno, mm', _, pt') =>
      errno = ENOMEM /\ find_vma_flags mm' 0x400000 = Ret (Some 3) /\ leaf pt' 0x400000 = Some (0x7000, to_user_pte_flags READ)
  | _ => False
  end.
Proof. by vm_compute. Qed.

(** A page shared after [fork] is mapped read-only whatever its area allows; [mprotect] with the
    protection the area already has makes it writable, and both processes write one frame. *)
Example mprotect_makes_a_shared_page_writable :
  match mprotect_range_for_mm file_mm file_refs (file_pages 4) 0x400000 0x401000 (Z.lor PROT_READ PROT_WRITE) with
  | Ret (Ok _, _, _, pt') => leaf (file_pages 4) 0x400000 = Some (0x7000, 1) /\ leaf pt' 0x400000 = Some (0x7000, to_user_pte_flags 3)
  | _ => False
  end.
Proof. by vm_compute. Qed.
