(* ===== verification/MmSyscall.v ===== *)
(** * The memory system calls: kernel/src/mm/syscall (addr.rs, mmap.rs, protect.rs)

    The process's address space, the reference counts of the mapped files and the page table
    form one state, [Proc].  [lookup_fd] stands for the part of
    [create_mmap_backing_for_pid] that looks the descriptor up among the open files of the
    process; it says with which error that fails.  A call returns its value or the error
    number that [err] encodes. *)

From S2P Require Import Prelude Errno OrdMap BTree MapleTree Vma MmTxn MmPlan.

Definition MMAP_PROT_ALLOWED : Z := Z.lor (Z.lor PROT_READ PROT_WRITE) PROT_EXEC.
Definition MMAP_FLAGS_ALLOWED : Z :=
  Z.lor (Z.lor (Z.lor (Z.lor (Z.lor (Z.lor MAP_SHARED MAP_PRIVATE) MAP_FIXED) MAP_ANONYMOUS) MAP_GROWSDOWN) MAP_LOCKED) MAP_HUGETLB.
Definition MMAP_FLAGS_UNSUPPORTED : Z := Z.lor MAP_LOCKED MAP_HUGETLB.
(** [!x] of a [u32] *)
Definition not32 (x : Z) : Z := Z.lxor x 4294967295.
Definition set_in (x mask : Z) : bool := negb (Z.land x mask =? 0).

Definition parse_fd (raw : Z) : Result Z Z :=
  if 2147483647 <? raw then Err EBADF
  else let fd := wrap_i32 raw in if fd <? 0 then Err EBADF else Ok fd.

Definition is_user_addr (addr : Z) : bool := addr <? USER_SPACE_END.

Definition validate_user_mmap_range (start len : Z) : Result unit Z :=
  if len =? 0 then Err EINVAL
  else match checked_add64 start len with
  | None => Err ENOMEM
  | Some end_ =>
      if start <? USER_SPACE_START then Err EINVAL
      else if end_ <=? start then Err ENOMEM
      else if USER_SPACE_END <? end_ then Err ENOMEM
      else if negb (is_user_addr start) || negb (is_user_addr (sub64 end_ 1)) then Err ENOMEM
      else Ok tt
  end.

Section Syscalls.
Context {M : Type} `{Hops : OrdMapOps M (RangeEntry VmaInfo)} {S : Type} `{Hpt : PageTableOps S}.
Context (lookup_fd : Z -> Z -> Result unit Z).

Record Proc := mkProc { p_mm : Mm M; p_backings : Backings; p_next_id : Z; p_pt : S }.
Definition set_mm (p : Proc) (mm : Mm M) : Proc := mkProc mm (p_backings p) (p_next_id p) (p_pt p).
Definition set_backings (p : Proc) (b : Backings) : Proc := mkProc (p_mm p) b (p_next_id p) (p_pt p).
Definition set_pt (p : Proc) (s : S) : Proc := mkProc (p_mm p) (p_backings p) (p_next_id p) s.

Definition range_unmapped_in_page_table (s : S) (start end_ : Z) : bool :=
  forallb (fun v => match translate_addr s v with Some _ => false | None => true end) (page_addrs start end_).

(** The body of both search loops: an answer, or the next hint. *)
Definition select_round (p : Proc) (hint len_aligned : Z) : exec (Result Z Z + Z) :=
  found ← find_free_area (p_mm p) hint len_aligned;
  match found with
  | None => Ret (inl (Err ENOMEM))
  | Some start =>
      match validate_user_mmap_range start len_aligned with
      | Err errno => Ret (inl (Err errno))
      | Ok _ =>
          match checked_add64 start len_aligned with
          | None => Ret (inl (Err ENOMEM))
          | Some end_ =>
              if range_unmapped_in_page_table (p_pt p) start end_ then Ret (inl (Ok start))
              else if USER_SPACE_END <=? end_ then Ret (inl (Err ENOMEM)) else Ret (inr end_)
          end
      end
  end.

Fixpoint select_loop (n : nat) (p : Proc) (hint len_aligned : Z) : exec (Result Z Z + Z) :=
  match n with
  | O => Ret (inr hint)
  | Datatypes.S n' =>
      r ← select_round p hint len_aligned;
      match r with inl a => Ret (inl a) | inr hint => select_loop n' p hint len_aligned end
  end.

Definition mmap_select_addr (p : Proc) (req_addr len_aligned flags : Z) : exec (Result Z Z) :=
  if set_in flags MAP_FIXED then
    if negb (Z.land req_addr (PAGE_SIZE - 1) =? 0) then Ret (Err EINVAL)
    else match validate_user_mmap_range req_addr len_aligned with
         | Err errno => Ret (Err errno)
         | Ok _ => Ret (Ok req_addr)
         end
  else
    let hint := if req_addr =? 0 then Z.max (mmap_base (p_mm p)) USER_SPACE_START
                else Z.max (page_align_up req_addr) USER_SPACE_START in
    r ← select_loop 1024 p hint len_aligned;
    match r with
    | inl a => Ret a
    | inr hint =>
        if negb (hint =? USER_SPACE_START) then
          r ← select_loop 1024 p USER_SPACE_START len_aligned;
          match r with inl a => Ret a | inr _ => Ret (Err ENOMEM) end
        else Ret (Err ENOMEM)
    end.

Fixpoint unmap_pages (addrs : list Z) (s : S) : S :=
  match addrs with
  | [] => s
  | cursor :: addrs' =>
      match translate_addr s cursor with
      | Some phys => unmap_pages addrs' (release_frame (unmap_page s cursor) (phys / PAGE_SIZE))
      | None => unmap_pages addrs' s
      end
  end.

Definition unmap_and_release_pages (start end_ : Z) (s : S) : S := unmap_pages (page_addrs start end_) s.

Definition unmap_ranges (ranges : list (Z * Z)) (s : S) : S :=
  foldl (fun s r => unmap_and_release_pages r.1 r.2 s) s ranges.

(** [collect_unmap_ranges_for_mm] and the release of the pages, as [munmap] and a fixed [mmap]
    run them. *)
Definition unmap_range (p : Proc) (start end_ : Z) : exec (Result unit Z * Proc) :=
  '(r, mm, b) ← collect_unmap_ranges_for_mm (p_mm p) (p_backings p) start end_;
  match r with
  | Err errno => Ret (Err errno, set_backings (set_mm p mm) b)
  | Ok ranges => Ret (Ok tt, set_pt (set_backings (set_mm p mm) b) (unmap_ranges ranges (p_pt p)))
  end.

Definition create_mmap_backing_for_pid (p : Proc) (pid fd : Z) : Result Z Z * Proc :=
  match lookup_fd pid fd with
  | Err errno => (Err errno, p)
  | Ok _ =>
      let backing_id := p_next_id p in
      (Ok backing_id, mkProc (p_mm p) (<[backing_id := 1]> (p_backings p)) (saturating_add64 backing_id 1) (p_pt p))
  end.

(** The descriptor of a file mapping: its backing, or the error of one of the three steps. *)
Definition file_backing (p : Proc) (current_pid : option Z) (fd_raw : Z) : Result Z Z * Proc :=
  match parse_fd fd_raw with
  | Err errno => (Err errno, p)
  | Ok fd =>
      match current_pid with
      | None => (Err ESRCH, p)
      | Some pid => create_mmap_backing_for_pid p pid fd
      end
  end.

(** The end of [sys_mmap]: the area goes into the tree, or the backing is given up. *)
Definition insert_mapping (p : Proc) (start end_ : Z) (info : VmaInfo) (file_backing_id : option Z) : exec (Result Z Z * Proc) :=
  let without_backing p := match file_backing_id with Some id => set_backings p (release_mmap_backing id (p_backings p)) | None => p end in
  found ← find_vma_intersection (p_mm p) start end_;
  match found with
  | Some _ => Ret (Err EBUSY, without_backing p)
  | None =>
      '(ok, mm) ← insert_vma (p_mm p) start end_ info;
      if (ok : bool) then Ret (Ok start, set_mm p mm) else Ret (Err EBUSY, without_backing (set_mm p mm))
  end.

Definition sys_mmap (p : Proc) (current_pid : option Z) (req_addr length_ prot flags fd_raw offset : Z) : exec (Result Z Z * Proc) :=
  if length_ =? 0 then Ret (Err EINVAL, p)
  else if set_in prot (not32 MMAP_PROT_ALLOWED) then Ret (Err EINVAL, p)
  else if set_in flags (not32 MMAP_FLAGS_ALLOWED) then Ret (Err EINVAL, p)
  else if set_in flags MMAP_FLAGS_UNSUPPORTED then Ret (Err EINVAL, p)
  else if Bool.eqb (set_in flags MAP_SHARED) (set_in flags MAP_PRIVATE) then Ret (Err EINVAL, p)
  else if negb (Z.land offset (PAGE_SIZE - 1) =? 0) then Ret (Err EINVAL, p)
  else match page_align_up_usize length_ with
  | Err errno => Ret (Err errno, p)
  | Ok length_aligned =>
      if length_aligned =? 0 then Ret (Err E2BIG, p)
      else
        let vm_flags := mmap_flags_to_vm_flags prot flags in
        selected ← mmap_select_addr p req_addr length_aligned flags;
        match selected with
        | Err errno => Ret (Err errno, p)
        | Ok start =>
            match checked_add64 start length_aligned with
            | None => Ret (Err ENOMEM, p)
            | Some end_ =>
                '(r, p) ← (if set_in flags MAP_FIXED then unmap_range p start end_ else Ret (Ok tt, p));
                match r with
                | Err errno => Ret (Err errno, p)
                | Ok _ =>
                    let info := mkVmaInfo vm_flags (offset / PAGE_SIZE) 0 0 in
                    if Z.land flags MAP_ANONYMOUS =? 0 then
                      match file_backing p current_pid fd_raw with
                      | (Err errno, p) => Ret (Err errno, p)
                      | (Ok id, p) => insert_mapping p start end_ (mkVmaInfo vm_flags (offset / PAGE_SIZE) id 0) (Some id)
                      end
                    else insert_mapping p start end_ info None
                end
            end
        end
  end.

Definition sys_munmap (p : Proc) (addr length_ : Z) : exec (Result Z Z * Proc) :=
  if length_ =? 0 then Ret (Err EINVAL, p)
  else if negb (Z.land addr (PAGE_SIZE - 1) =? 0) then Ret (Err EINVAL, p)
  else match page_align_up_usize length_ with
  | Err errno => Ret (Err errno, p)
  | Ok length_aligned =>
      match checked_add64 addr length_aligned with
      | None => Ret (Err ENOMEM, p)
      | Some end_ =>
          if (addr <? USER_SPACE_START) || (USER_SPACE_END <? end_) || (end_ <=? addr) then Ret (Err EINVAL, p)
          else
            '(r, p) ← unmap_range p addr end_;
            match r with Err errno => Ret (Err errno, p) | Ok _ => Ret (Ok 0, p) end
      end
  end.

Definition set_break (mm : Mm M) (start b : Z) : Mm M :=
  mkMm (vma_tree mm) (vma_count mm) (pgd mm) start b (start_stack mm) (mmap_base mm)
    (mmap_legacy_base mm) (total_vm mm) (exec_vm mm) (stack_vm mm).

(** The current process has an address space. *)
Definition sys_brk (p : Proc) (req : Z) : exec (Z * Proc) :=
  p ← (if start_brk (p_mm p) =? 0 then
         let hint := saturating_add64 USER_SPACE_START 0x01000000 in
         found ← find_free_area (p_mm p) hint PAGE_SIZE;
         let base := default hint found in
         Ret (set_mm p (set_break (p_mm p) base base))
       else Ret p);
  if req =? 0 then Ret (brk (p_mm p), p)
  else if (req <? start_brk (p_mm p)) || (USER_SPACE_END <=? req) then Ret (brk (p_mm p), p)
  else
    '(r, mm) ← do_brk (p_mm p) req;
    match r with Ok new_brk => Ret (new_brk, set_mm p mm) | Err _ => Ret (brk mm, set_mm p mm) end.

Definition sys_mprotect (p : Proc) (addr len prot : Z) : exec (Result Z Z * Proc) :=
  if len =? 0 then Ret (Err EINVAL, p)
  else if negb (Z.land addr (PAGE_SIZE - 1) =? 0) then Ret (Err EINVAL, p)
  else if set_in prot (not32 MMAP_PROT_ALLOWED) then Ret (Err EINVAL, p)
  else match page_align_up_usize len with
  | Err errno => Ret (Err errno, p)
  | Ok len_aligned =>
      match checked_add64 addr len_aligned with
      | None => Ret (Err ENOMEM, p)
      | Some end_ =>
          if (addr <? USER_SPACE_START) || (USER_SPACE_END <? end_) || (end_ <=? addr) then Ret (Err ENOMEM, p)
          else
            '(r, mm, b, s) ← mprotect_range_for_mm (p_mm p) (p_backings p) (p_pt p) addr end_ prot;
            let p := set_pt (set_backings (set_mm p mm) b) s in
            match r with Ok _ => Ret (Ok 0, p) | Err errno => Ret (Err errno, p) end
      end
  end.
End Syscalls.
Arguments Proc M S : clear implicits.

(** ** Checks on the arguments *)
Lemma checked_add_Some a b c : checked_add64 a b = Some c -> c = a + b /\ a + b < u64_size.
Proof. unfold checked_add64. destruct (Z.ltb_spec (a + b) u64_size); [|done]. intros [= <-]. done. Qed.

Lemma page_mask a : 0 <= a < u64_size -> Z.land a (PAGE_SIZE - 1) = 0 <-> (PAGE_SIZE | a).
Proof.
  intros Ha. change (PAGE_SIZE - 1) with (Z.ones 12). rewrite Z.land_ones by lia. change (2 ^ 12) with PAGE_SIZE.
  split; [by apply Z.mod_divide|]. intros. by apply Z.mod_divide.
Qed.

Lemma page_align_up_usize_ok x n :
  0 < x -> page_align_up_usize x = Ok n -> (PAGE_SIZE | n) /\ x <= n < x + PAGE_SIZE.
Proof.
  intros Hx. unfold page_align_up_usize. change (saturating_sub64 PAGE_SIZE 1) with 4095. destruct (checked_add64 x 4095) as [v|] eqn:E; [|done].
  apply checked_add_Some in E as [-> Hv]. intros [= <-]. change (PAGE_SIZE - 1) with (2 ^ 12 - 1). rewrite land_not_mask by (unfold in_u64; lia).
  change (2 ^ 12) with PAGE_SIZE. pose proof (Z.div_mod (x + 4095) PAGE_SIZE ltac:(done)). pose proof (Z.mod_pos_bound (x + 4095) PAGE_SIZE ltac:(done)).
  split; [apply Z.divide_factor_l|]. unfold PAGE_SIZE in *. lia.
Qed.

Lemma validate_ok start len :
  0 <= start -> 0 <= len -> validate_user_mmap_range start len = Ok tt -> 0 < len /\ USER_SPACE_START <= start /\ start + len <= USER_SPACE_END.
Proof.
  intros Hs Hl. unfold validate_user_mmap_range. destruct (Z.eqb_spec len 0); [done|]. destruct (checked_add64 start len) as [e|] eqn:E; [|done].
  apply checked_add_Some in E as [-> _]. destruct (Z.ltb_spec start USER_SPACE_START); [done|]. destruct (Z.leb_spec (start + len) start); [done|].
  destruct (Z.ltb_spec USER_SPACE_END (start + len)); [done|]. intros _. lia.
Qed.

(** ** Choosing an address *)
Section Select.
Context {M : Type} `{HM : OrdMap M (RangeEntry VmaInfo)} {S : Type} `{HP : PageTable S}.
Implicit Types (p : Proc M S) (l : list (Z * area)).

(** A gap starts at the hint or at the end of an area, whether or not the request fits. *)
Lemma scan_gaps_start rs size lo hi g :
  scan_gaps rs size lo hi = Some g -> exists r, r ∈ rs /\ g = Z.max r.2 lo.
Proof.
  induction rs as [|r rs IH]; [done|]. destruct rs as [|r' rs]; [done|]. cbn [scan_gaps]. destruct (_ && _).
  - intros [= <-]. exists r. split; [left|done].
  - intros H1. destruct (IH H1) as (x & Hx & ->). exists x. split; [by right|done].
Qed.

Lemma find_gap_total (m : M) l size start end_ :
  mt_ok m l -> 0 <= start -> end_ < u64_size ->
  exists r, find_gap m size start end_ = Ret r /\ forall g, r = Some g -> g = start \/ exists k e, (k, e) ∈ l /\ g = rend e.
Proof.
  intros Hok Hs He. pose proof Hok as [_ Hwf]. unfold find_gap. destruct (_ || _); [by exists None|].
  rewrite (sorted_ranges_ok m l Hok). mstep. set (bf := match bounds l with [] => _ | _ => _ end).
  assert (Hbf : forall g, bf = Some g -> g = start).
  { unfold bf. intros g. destruct (bounds l) as [|[a ?] ?]; [destruct (_ <=? _); [by intros [= <-]|done]|].
    destruct (_ <=? a); [|done]. destruct (size <=? _); [by intros [= <-]|done]. }
  destruct bf as [g|]; [exists (Some g); split; [done|]; intros ? [= <-]; left; by apply Hbf|]. clear Hbf.
  assert (Hstart : forall r g, r ∈ bounds l -> g = Z.max r.2 start -> g = start \/ exists k e, (k, e) ∈ l /\ g = rend e).
  { intros r g Hin ->. unfold bounds in Hin. apply list_elem_of_fmap in Hin as ([k e] & -> & Hin). cbn.
    destruct (Z.max_spec (rend e) start) as [[_ ->]|[_ ->]]; [by left|right; by exists k, e]. }
  assert (Hloop : gap_loop (bounds l) size start end_ false (zrange 0 (saturating_sub64 (Z.of_nat (length (bounds l))) 1)) =
    Ret (scan_gaps (bounds l) size start end_)).
  { apply (gap_loop_ok [] l); [|lia|lia]. apply Forall_forall. intros [k e] Hin. apply (ranges_wf_elem _ _ _ _ Hwf) in Hin. cbn. lia. }
  rewrite Hloop. mstep. destruct (scan_gaps (bounds l) size start end_) as [g|] eqn:Escan.
  - exists (Some g). split; [done|]. intros ? [= <-]. destruct (scan_gaps_start _ _ _ _ _ Escan) as (r & Hin & Hg). by eapply Hstart.
  - destruct (last (bounds l)) as [[a e]|] eqn:El; [|by exists None]. destruct (_ && _); [|by exists None].
    eexists. split; [done|]. intros g [= <-]. apply (Hstart (a, e)); [by apply last_Some_elem_of|done].
Qed.

Lemma page_align_up_aligned x : (PAGE_SIZE | page_align_up x).
Proof.
  unfold page_align_up. change (PAGE_SIZE - 1) with (2 ^ 12 - 1).
  assert (Hb : 0 <= sub64 (add64 x PAGE_SIZE) 1 < u64_size) by (apply Z.mod_pos_bound; done).
  rewrite land_not_mask by (unfold in_u64; lia). apply Z.divide_factor_l.
Qed.
Lemma page_align_up_bounds x : 0 <= page_align_up x < u64_size.
Proof.
  unfold page_align_up. change (PAGE_SIZE - 1) with (2 ^ 12 - 1).
  assert (Hb : 0 <= sub64 (add64 x PAGE_SIZE) 1 < u64_size) by (apply Z.mod_pos_bound; done). rewrite land_not_mask by (unfold in_u64; lia).
  pose proof (Z.div_mod (sub64 (add64 x PAGE_SIZE) 1) (2 ^ 12) ltac:(done)). pose proof (Z.mod_pos_bound (sub64 (add64 x PAGE_SIZE) 1) (2 ^ 12) ltac:(done)). lia.
Qed.

Lemma find_free_area_total (mm : Mm M) l hint size :
  areas_ok mm l -> exists o, find_free_area mm hint size = Ret o /\ forall a, o = Some a -> (PAGE_SIZE | a) /\ 0 <= a.
Proof.
  intros [Ht _ _ _ _ _ Hal]. unfold find_free_area. set (h := if (page_align_up hint =? 0) || (page_align_up hint <? USER_SPACE_START) then USER_SPACE_START else page_align_up hint).
  assert (Hh : (PAGE_SIZE | h) /\ 0 <= h).
  { unfold h. destruct (_ || _); [split; [by exists 1024|done]|]. split; [apply page_align_up_aligned|apply page_align_up_bounds]. }
  destruct (find_gap_total (vma_tree mm) l (page_align_up size) h (saturating_sub64 USER_SPACE_END PAGE_SIZE) Ht (proj2 Hh) ltac:(done)) as (o & -> & Ho).
  exists o. split; [done|]. intros a Ha. destruct (Ho a Ha) as [->|(k & e & Hin & ->)]; [done|].
  split; [exact (proj2 (proj1 (Forall_forall _ _) Hal _ Hin))|]. destruct (ranges_wf_elem _ _ _ _ (proj2 Ht) Hin). lia.
Qed.

(** What a chosen address has. *)
Definition chosen (len a : Z) : Prop := (PAGE_SIZE | a) /\ USER_SPACE_START <= a /\ a + len <= USER_SPACE_END.
Definition absent (s : S) (a b : Z) : Prop := forall v, (PAGE_SIZE | v) -> a <= v < b -> leaf s v = None.

Lemma range_unmapped_ok (s : S) a b : (PAGE_SIZE | a) -> range_unmapped_in_page_table s a b = true -> absent s a b.
Proof.
  intros Pa Hr v Pv Hv. unfold range_unmapped_in_page_table in Hr. rewrite forallb_forall in Hr.
  specialize (Hr v ltac:(apply list_elem_of_In; by apply elem_of_page_addrs)). rewrite translate_leaf in Hr by done. by destruct (leaf s v).
Qed.

Lemma select_loop_ok n p l hint len :
  areas_ok (p_mm p) l -> 0 < len ->
  exists r, select_loop n p hint len = Ret r /\ forall a, r = inl (Ok a) -> chosen len a /\ absent (p_pt p) a (a + len).
Proof.
  intros Hok Hlen. revert hint. induction n as [|n IH]; intros hint; cbn [select_loop]; [by eexists|].
  unfold select_round. destruct (find_free_area_total (p_mm p) l hint len Hok) as (o & -> & Ho). mstep.
  destruct o as [a|]; [|by eexists]. destruct (Ho a eq_refl) as [Pa Ha]. destruct (validate_user_mmap_range a len) as [[]|errno] eqn:Ev; [|by eexists].
  destruct (validate_ok a len Ha ltac:(lia) Ev) as (_ & H1 & H2). destruct (checked_add64 a len) as [e|] eqn:E; [|by eexists].
  apply checked_add_Some in E as [-> _]. destruct (range_unmapped_in_page_table (p_pt p) a (a + len)) eqn:Er.
  - eexists. split; [reflexivity|]. intros a' [= <-]. split; [done|]. by apply range_unmapped_ok.
  - destruct (_ <=? _); [by eexists|]. apply IH.
Qed.

Lemma select_addr_ok p l req len flags :
  areas_ok (p_mm p) l -> 0 < len -> 0 <= req < u64_size ->
  exists r, mmap_select_addr p req len flags = Ret r /\
    forall a, r = Ok a -> chosen len a /\ (if set_in flags MAP_FIXED then a = req else absent (p_pt p) a (a + len)).
Proof.
  intros Hok Hlen Hreq. unfold mmap_select_addr. destruct (set_in flags MAP_FIXED).
  - destruct (Z.eqb_spec (Z.land req (PAGE_SIZE - 1)) 0) as [Hal|]; cbn [negb]; [|by eexists]. apply page_mask in Hal; [|done].
    destruct (validate_user_mmap_range req len) as [[]|] eqn:Ev; [|by eexists]. destruct (validate_ok req len ltac:(lia) ltac:(lia) Ev) as (_ & H1 & H2).
    eexists. split; [done|]. by intros a [= <-].
  - destruct (select_loop_ok 1024 p l (if req =? 0 then Z.max (mmap_base (p_mm p)) USER_SPACE_START else Z.max (page_align_up req) USER_SPACE_START) len Hok Hlen) as (r & -> & Hr).
    mstep. destruct r as [a|hint]; [eexists; split; [done|]; intros x ->; by apply Hr|]. destruct (negb _); [|by eexists].
    destruct (select_loop_ok 1024 p l USER_SPACE_START len Hok Hlen) as (r & -> & Hr'). mstep.
    destruct r as [a|]; [eexists; split; [done|]; intros x ->; by apply Hr'|by eexists].
Qed.
End Select.

(** ** Taking pages out of the page table *)
Section Unmap.
Context {S : Type} `{HP : PageTable S}.

Lemma unmap_pages_ok addrs (s : S) v :
  Forall (fun a => (PAGE_SIZE | a)) addrs -> (PAGE_SIZE | v) ->
  leaf (unmap_pages addrs s) v = if bool_decide (v ∈ addrs) then None else leaf s v.
Proof.
  intros Ha Pv. revert s. induction Ha as [|a addrs Pa _ IH]; intros s; cbn [unmap_pages]; [by rewrite bool_decide_false by (by intros Hx%elem_of_nil)|].
  assert (Hmem : v <> a -> bool_decide (v ∈ a :: addrs) = bool_decide (v ∈ addrs)) by (intros Hn; apply bool_decide_ext; rewrite elem_of_cons; tauto).
  rewrite translate_leaf by done. destruct (leaf s a) as [x|] eqn:E; cbn [option_map]; rewrite IH.
  - rewrite release_frame_leaf, unmap_page_leaf by done. destruct (Z.eqb_spec v a) as [->|Hn]; [|by rewrite Hmem].
    rewrite (bool_decide_true (a ∈ a :: addrs)) by (by left). by destruct (bool_decide _).
  - destruct (decide (v = a)) as [->|Hn]; [|by rewrite Hmem]. rewrite (bool_decide_true (a ∈ a :: addrs)) by (by left). rewrite E. by destruct (bool_decide _).
Qed.

Lemma unmap_ranges_ok ranges (s : S) v :
  Forall (fun r => (PAGE_SIZE | r.1)) ranges -> (PAGE_SIZE | v) ->
  leaf (unmap_ranges ranges s) v = if bool_decide (Exists (fun r => r.1 <= v < r.2) ranges) then None else leaf s v.
Proof.
  intros Hr Pv. unfold unmap_ranges. revert s. induction Hr as [|[a b] ranges Pa _ IH]; intros s; cbn [foldl].
  - by rewrite bool_decide_false by (by intros Hx%Exists_nil).
  - rewrite IH. unfold unmap_and_release_pages. cbn [fst snd] in *. rewrite unmap_pages_ok by (done || by apply page_addrs_aligned).
    rewrite (bool_decide_ext (v ∈ page_addrs a b) (a <= v < b)) by (by apply elem_of_page_addrs).
    repeat case_bool_decide; rewrite ?Exists_cons in *; cbn in *; (done || tauto).
Qed.
End Unmap.

Section Calls.
Context {M : Type} `{HM : OrdMap M (RangeEntry VmaInfo)} {S : Type} `{HP : PageTable S}.
Implicit Types (p : Proc M S) (l : list (Z * area)).

Definition proc_ok (others : Z -> Z) p l : Prop := space_ok others (p_mm p) (p_backings p) l.

(** The areas lose the range, and the page table the pages that were mapped there. *)
Definition unmapped p l (s t : Z) (p' : Proc M S) l' : Prop :=
  (forall q, page_at l' q = if (s <=? q) && (q <? t) then None else page_at l q) /\
  forall v, (PAGE_SIZE | v) -> s <= v < t /\ page_at l v <> None -> leaf (p_pt p') v = None.
Definition untouched p l (s t : Z) (p' : Proc M S) : Prop :=
  forall v, (PAGE_SIZE | v) -> ~ (s <= v < t /\ page_at l v <> None) -> leaf (p_pt p') v = leaf (p_pt p) v.

Lemma unmap_range_ok others p l s t :
  proc_ok others p l -> room others l -> 0 <= s < t -> (PAGE_SIZE | s) -> (PAGE_SIZE | t) ->
  exists p' l', unmap_range p s t = Ret (Ok tt, p') /\ proc_ok others p' l' /\ (length l' <= length l + 1)%nat /\
    same_layout (p_mm p) (p_mm p') /\ p_next_id p' = p_next_id p /\ unmapped p l s t p' l' /\ untouched p l s t p'.
Proof.
  intros Hok Hroom Hst Ps Pt. destruct (collect_unmap_ok others (p_mm p) (p_backings p) l s t Hok Hroom Hst Ps Pt)
    as (ranges & mm' & b' & l' & E & Hok' & Hl & Hlen & Hp & Hal & Hr).
  unfold unmap_range. rewrite E. mstep. eexists _, l'. split; [reflexivity|]. split; [done|]. split; [done|]. split; [done|]. split; [done|].
  assert (Hex : forall v, Exists (fun r => r.1 <= v < r.2) ranges <-> s <= v < t /\ page_at l v <> None) by (intros v; rewrite <- Hr; apply Exists_exists).
  split; [split; [done|]|]; intros v Pv Hv; cbn [p_pt set_pt]; rewrite unmap_ranges_ok by done; rewrite <- Hex in Hv; by case_bool_decide.
Qed.

Lemma rounded_end addr len n :
  (PAGE_SIZE | addr) -> (PAGE_SIZE | n) -> n < len + PAGE_SIZE -> USER_SPACE_END < addr + n -> USER_SPACE_END < addr + len.
Proof. intros [x ->] [y ->] Hn He. unfold PAGE_SIZE, USER_SPACE_END in *. lia. Qed.

(** The range of a call, after its length has been rounded up. *)
Lemma range_rounded addr len :
  (PAGE_SIZE | addr) -> 0 <= addr < u64_size -> 0 < len < u64_size ->
  match page_align_up_usize len with
  | Err _ => USER_SPACE_END < addr + len
  | Ok n => (PAGE_SIZE | n) /\ len <= n < len + PAGE_SIZE /\
      match checked_add64 addr n with
      | None => USER_SPACE_END < addr + len
      | Some t => t = addr + n /\ (USER_SPACE_END < t -> USER_SPACE_END < addr + len)
      end
  end.
Proof.
  intros Pa Ha Hl. assert (Hbig : forall x, u64_size <= x + PAGE_SIZE -> USER_SPACE_END < x) by (unfold PAGE_SIZE, USER_SPACE_END; lia).
  destruct (page_align_up_usize len) as [n|errno] eqn:En.
  - destruct (page_align_up_usize_ok len n ltac:(lia) En) as [Pn Hn]. split; [done|]. split; [done|]. unfold checked_add64.
    destruct (Z.ltb_spec (addr + n) u64_size); [|apply Hbig; lia]. split; [done|]. intros Ht. by apply (rounded_end addr len n); [..|lia|].
  - unfold page_align_up_usize, checked_add64 in En. change (saturating_sub64 PAGE_SIZE 1) with 4095 in En.
    destruct (Z.ltb_spec (len + 4095) u64_size); [done|]. specialize (Hbig len ltac:(unfold PAGE_SIZE; lia)). lia.
Qed.

(** A length rounded up to whole pages. *)
Definition rounded (len : Z) : Z := (len + (PAGE_SIZE - 1)) / PAGE_SIZE * PAGE_SIZE.

Lemma rounded_eq len n : (PAGE_SIZE | n) -> len <= n < len + PAGE_SIZE -> n = rounded len.
Proof.
  unfold rounded, PAGE_SIZE. intros [k ->] Hn. f_equal. apply (Z.div_unique _ _ k (len + 4095 - 4096 * k)); lia.
Qed.

(** The ranges that [munmap] and [mprotect] accept: at least a byte, from the start of a page,
    inside user space. *)
Definition user_range (addr len : Z) : Prop :=
  len <> 0 /\ (PAGE_SIZE | addr) /\ USER_SPACE_START <= addr /\ addr + len <= USER_SPACE_END.

(** C4. [munmap] succeeds exactly when the length is not zero, the address is the start of a page
    and the range lies inside user space; otherwise it fails and changes nothing.  When it
    succeeds it removes exactly the pages of the range, its length rounded up to whole pages:
    no address in it is mapped afterwards, every other address keeps its flags, its file and its
    page of the file, although areas that stick out of the range are split; the page table loses
    the pages that were mapped in the range and no other; the counters stay equal to what the
    areas add up to, and every mapped file keeps one reference per area that maps it.  The area
    map has room for the two areas that splitting can add and no reference count is about to
    overflow ([room]: at most 125 areas on the kernel's B-tree); the page table is seen through
    the interface [PageTable] of single-page operations. *)
Theorem sys_munmap_unmaps_exactly_the_range others p l addr len :
  proc_ok others p l -> room others l -> 0 <= addr < u64_size -> 0 <= len < u64_size ->
  exists r p', sys_munmap p addr len = Ret (r, p') /\
    match r with
    | Err _ => p' = p /\ ~ user_range addr len
    | Ok v => v = 0 /\ user_range addr len /\ let t := addr + rounded len in
        exists l', proc_ok others p' l' /\ same_layout (p_mm p) (p_mm p') /\ unmapped p l addr t p' l' /\ untouched p l addr t p'
    end.
Proof.
  intros Hok Hroom Ha Hl. unfold sys_munmap, user_range. destruct (Z.eqb_spec len 0) as [?|Hlen0]; [eexists _, p; split; [done|]; split; [done|tauto]|].
  destruct (Z.eqb_spec (Z.land addr (PAGE_SIZE - 1)) 0) as [Hal|Hal]; cbn [negb]; rewrite page_mask in Hal by done;
    [|eexists _, p; split; [done|]; split; [done|tauto]].
  pose proof (range_rounded addr len Hal Ha ltac:(lia)) as Hrange. destruct (page_align_up_usize len) as [n|errno]; [|eexists _, p; split; [done|]; split; [done|lia]].
  destruct Hrange as (Pn & Hn & Hrange). pose proof (rounded_eq len n Pn Hn) as <-.
  destruct (checked_add64 addr n) as [t|]; [|eexists _, p; split; [done|]; split; [done|lia]]. destruct Hrange as [-> Hrange].
  destruct (Z.ltb_spec addr USER_SPACE_START); [eexists _, p; split; [done|]; split; [done|lia]|].
  destruct (Z.ltb_spec USER_SPACE_END (addr + n)); [eexists _, p; split; [done|]; split; [done|lia]|].
  destruct (Z.leb_spec (addr + n) addr); [lia|]. cbn [orb].
  destruct (unmap_range_ok others p l addr (addr + n) Hok Hroom ltac:(lia) Hal ltac:(by apply Z.divide_add_r)) as (p' & l' & -> & K1 & _ & K2 & _ & K3 & K4). mstep.
  eexists _, p'. split; [done|]. split; [done|]. split; [|by exists l']. split; [done|]. split; [done|]. lia.
Qed.

(** C6. [mprotect] of a range that is no accepted range (as for [munmap]), of unknown protection
    bits, or of a range (its length rounded up to whole pages) in which some address is not
    mapped, fails and changes nothing.  In all other cases it either succeeds: exactly the
    addresses of the rounded range get the new protection and keep their file and page, every
    other address is as before, and in the page table every present page of the range keeps its
    frame and gets the flags of the new protection, all other entries being as before; or it
    fails because a page-table page cannot be allocated: then the areas, the counters and the
    references to files are those from before the call, and no entry outside the range has
    changed.  Room for the areas that splitting adds and the page table's interface are as for
    [munmap]. *)
Theorem sys_mprotect_changes_exactly_the_range others p l addr len prot :
  proc_ok others p l -> room others l -> 0 <= addr < u64_size -> 0 <= len < u64_size ->
  let t := addr + rounded len in
  let accepted := user_range addr len /\ set_in prot (not32 MMAP_PROT_ALLOWED) = false /\
                  forall q, addr <= q < t -> page_at l q <> None in
  exists r p', sys_mprotect p addr len prot = Ret (r, p') /\
    match r with
    | Err errno =>
        (p' = p /\ ~ accepted) \/
        (accepted /\ errno = ENOMEM /\ proc_ok others p' l /\ p_backings p' = p_backings p /\ same_layout (p_mm p) (p_mm p') /\
         forall v, (PAGE_SIZE | v) -> ~ addr <= v < t -> leaf (p_pt p') v = leaf (p_pt p) v)
    | Ok v => v = 0 /\ accepted /\ exists l', proc_ok others p' l' /\ same_layout (p_mm p) (p_mm p') /\
        (forall q, page_at l' q = if (addr <=? q) && (q <? t)
                                  then option_map (with_m_flags (fun f => mprotect_flags_from_prot f prot)) (page_at l q) else page_at l q) /\
        (forall w, (PAGE_SIZE | w) -> leaf (p_pt p') w = if (addr <=? w) && (w <? t)
           then match page_at l w with Some m => retag (protected_flags prot (m_flags m)) (leaf (p_pt p) w) | None => leaf (p_pt p) w end
           else leaf (p_pt p) w)
    end.
Proof.
  intros Hok Hroom Ha Hl t accepted.
  unfold sys_mprotect. unfold accepted, user_range in *.
  destruct (Z.eqb_spec len 0) as [?|Hlen0]; [eexists _, p; split; [done|]; left; tauto|].
  destruct (Z.eqb_spec (Z.land addr (PAGE_SIZE - 1)) 0) as [Hal|Hal]; cbn [negb]; rewrite page_mask in Hal by done; [|eexists _, p; split; [done|]; left; tauto].
  destruct (set_in prot (not32 MMAP_PROT_ALLOWED)); [eexists _, p; split; [done|]; left; split; [done|intros (_ & ? & _); done]|].
  pose proof (range_rounded addr len Hal Ha ltac:(lia)) as Hrange. destruct (page_align_up_usize len) as [n|errno]; [|eexists _, p; split; [done|]; left; split; [done|lia]].
  destruct Hrange as (Pn & Hn & Hrange). pose proof (rounded_eq len n Pn Hn) as Hr. unfold t in *. rewrite <- Hr in *.
  destruct (checked_add64 addr n) as [t'|]; [|eexists _, p; split; [done|]; left; split; [done|lia]]. destruct Hrange as [-> Hrange].
  destruct (Z.ltb_spec addr USER_SPACE_START); [eexists _, p; split; [done|]; left; split; [done|lia]|].
  destruct (Z.ltb_spec USER_SPACE_END (addr + n)); [eexists _, p; split; [done|]; left; split; [done|lia]|].
  destruct (Z.leb_spec (addr + n) addr); [lia|]. cbn [orb].
  destruct (mprotect_range_ok others (p_mm p) (p_backings p) l (p_pt p) addr (addr + n) prot Hok Hroom ltac:(lia) Hal ltac:(by apply Z.divide_add_r))
    as [[(q & Hq & Hgap) ->]|(Hcov & r & mm' & b' & pt' & -> & Hlay & Hres)]; mstep.
  - eexists _, _. split; [reflexivity|]. left. split; [by destruct p|]. intros (_ & _ & Hall). by apply (Hall q).
  - destruct r as [[]|errno]; eexists _, _; (split; [reflexivity|]).
    + split; [done|]. split; [split_and!; (done || lia)|]. destruct Hres as (l' & Hok' & Hp & Hleaf). by exists l'.
    + destruct Hres as (-> & Hok' & -> & Hleaf). right. split; [split_and!; (done || lia)|]. done.
Qed.

(** ** Adding an area *)
Lemma files_insert k e l : files (al_insert k e l) ≡ₚ file_of e :: files l.
Proof.
  induction l as [|[k' e'] l IH]; [done|]. cbn [al_insert]. destruct (k <? k'); [done|]. unfold files in *. cbn [map]. rewrite IH. constructor.
Qed.

Lemma unknown_file l id : ranges_wf 0 l -> (forall q m, page_at l q = Some m -> m_file m <> id) <-> times id (files l) = 0.
Proof.
  intros Hwf. unfold times. split.
  - intros Hn. rewrite filter_none; [done|]. apply Forall_forall. intros x ([k e] & -> & Hin)%list_elem_of_fmap Hx. cbn in Hx.
    destruct (ranges_wf_elem _ _ _ _ Hwf Hin) as (-> & Hb & _). apply (Hn (rstart e) (mapping e (rstart e))); [|done].
    assert (Hat : at_point l (rstart e) = Some e) by (apply (at_point_spec 0); [done|]; split; [done|lia]). unfold page_at. by rewrite Hat.
  - intros Hz q m Hq Hm. unfold page_at in Hq. destruct (at_point l q) as [e|] eqn:E; [|done]. injection Hq as <-. apply (at_point_spec 0) in E as [Hin _]; [|done].
    assert (Hx : id ∈ filter (fun x => x = id) (files l)) by (apply list_elem_of_filter; split; [done|]; apply list_elem_of_fmap; by exists (rstart e, e)).
    destruct (filter _ (files l)); [by apply elem_of_nil in Hx|]. cbn in Hz. lia.
Qed.

(** The references when the backing [o] of a new mapping exists and its area does not yet. *)
Definition bump (others : Z -> Z) (o : option Z) : Z -> Z := fun x => others x + (if decide (o = Some x) then 1 else 0).

Lemma refs_insert others b l k e o :
  refs_ok (bump others o) b l -> file_of e = default 0 o -> o <> Some 0 -> (forall x, x <> 0 -> 0 <= others x) -> refs_ok others b (al_insert k e l).
Proof.
  intros (Hp & Hz & Hr) Hf Ho Hpos. split; [done|]. split; [done|]. intros id Hid. destruct (Hr id Hid) as [_ Hr']. split; [by apply Hpos|]. rewrite Hr'.
  rewrite (times_perm _ _ _ (files_insert k e l)), times_cons, Hf. unfold bump. destruct o as [x|]; cbn [default].
  - change (Datatypes.id x) with x. destruct (decide (x = id)) as [->|Hn]; [rewrite !decide_True by done; lia|rewrite decide_False by congruence; lia].
  - destruct (decide (None = Some id)); [done|]. cbn. destruct (decide (0 = id)); [congruence|lia].
Qed.

Lemma insert_mapping_ok others p l a n info o :
  proc_ok (bump others o) p l -> (length l < om_cap)%nat -> Z.of_nat (length l) + 1 < 4294967295 ->
  0 <= a -> 0 < n -> a + n < u64_size -> (PAGE_SIZE | a) -> (PAGE_SIZE | n) ->
  offset_ok (mkRange a (a + n) info) -> vi_file info = default 0 o -> o <> Some 0 -> (forall x, x <> 0 -> 0 <= others x) ->
  exists r p', insert_mapping p a (a + n) info o = Ret (r, p') /\ p_pt p' = p_pt p /\
    match r with
    | Ok v => v = a /\ no_overlap l a (a + n) /\ proc_ok others p' (al_insert a (mkRange a (a + n) info) l)
    | Err _ => ~ no_overlap l a (a + n) /\ p_mm p' = p_mm p /\
        p_backings p' = match o with Some id => release_mmap_backing id (p_backings p) | None => p_backings p end
    end.
Proof.
  intros [Hareas Hoff Hrefs] Hcap Hcount Ha Hn Hu Pa Pn Hio Hf Ho Hpos. unfold insert_mapping.
  destruct (find_vma_intersection_ok (p_mm p) l a (a + n) Hareas) as (found & -> & Hfound). mstep. destruct found as [v|].
  - eexists _, _. split; [reflexivity|]. split; [by destruct o|]. split; [intros Hno; apply Hfound in Hno; done|]. by destruct o.
  - pose proof (proj1 Hfound eq_refl) as Hno.
    destruct (insert_vma_ok (p_mm p) l a (a + n) info Hareas Hcap Hcount ltac:(lia) Hu Pa ltac:(by apply Z.divide_add_r)) as [[_ (mm' & -> & Hok & _)]|[Hy _]]; [|done].
    mstep. eexists _, _. split; [reflexivity|]. split; [done|]. split; [done|]. split; [done|]. split; [done| |].
    + apply Forall_forall. intros kv [->|Hin]%al_insert_elem; [done|]. exact (proj1 (Forall_forall _ _) Hoff _ Hin).
    + by apply (refs_insert others _ l a _ o).
Qed.

Context (lookup_fd : Z -> Z -> Result unit Z).

(** A descriptor that can be mapped gets a backing of its own. *)
Lemma create_backing_ok others p l pid fd id p1 :
  proc_ok others p l -> p_next_id p <> 0 -> refs (p_backings p) (p_next_id p) = 0 ->
  create_mmap_backing_for_pid lookup_fd p pid fd = (Ok id, p1) ->
  id = p_next_id p /\ proc_ok (bump others (Some id)) p1 l /\ p_mm p1 = p_mm p /\ p_pt p1 = p_pt p /\
  release_mmap_backing id (p_backings p1) = p_backings p.
Proof.
  intros [Hareas Hoff (Hp & Hz & Hr)] Hnz Hfresh. unfold create_mmap_backing_for_pid. destruct (lookup_fd pid fd) as [[]|]; [|done]. intros [= <- <-].
  pose proof (positive_refs _ _ Hp : p_backings p !! p_next_id p = _) as Hlook. rewrite decide_True in Hlook by done.
  assert (Hrefs : forall x, refs (<[p_next_id p := 1]> (p_backings p)) x = refs (p_backings p) x + (if decide (Some (p_next_id p) = Some x) then 1 else 0)).
  { intros x. unfold refs at 1. destruct (decide (p_next_id p = x)) as [<-|Hn].
    - rewrite lookup_insert_eq, decide_True by done. cbn. lia.
    - rewrite lookup_insert_ne, decide_False by congruence. fold (refs (p_backings p) x). lia. }
  split; [done|]. split; [split; [done|done|]|].
  - split; [by apply map_Forall_insert_2|]. split; [cbn; rewrite Hrefs, decide_False by congruence; lia|]. intros x Hx. destruct (Hr x Hx) as [H1 H2].
    split; [unfold bump; case_decide; lia|]. cbn. rewrite Hrefs, H2. unfold bump. lia.
  - split; [done|]. split; [done|]. unfold release_mmap_backing. cbn [p_backings]. rewrite lookup_insert_eq. cbn. by apply delete_insert_id.
Qed.

Definition new_area (a n vm_flags file offset : Z) : area := mkRange a (a + n) (mkVmaInfo vm_flags (offset / PAGE_SIZE) file 0).

Lemma new_offset_ok a n vm_flags file offset :
  0 <= a -> 0 < n -> a + n < u64_size -> 0 <= offset < u64_size -> offset_ok (new_area a n vm_flags file offset).
Proof.
  intros Ha Hn Hu Ho. unfold offset_ok, pages, new_area. cbn [rvalue vi_pgoff rstart rend]. replace (a + n - a) with n by lia. unfold PAGE_SIZE.
  pose proof (Z.div_pos offset 4096 ltac:(lia) ltac:(lia)). pose proof (Z.div_lt_upper_bound offset 4096 4503599627370496 ltac:(lia) ltac:(lia)).
  pose proof (Z.div_lt_upper_bound n 4096 4503599627370496 ltac:(lia) ltac:(lia)). lia.
Qed.

Lemma no_bump others p l : proc_ok others p l -> proc_ok (bump others None) p l.
Proof.
  intros [Ha Hb (Hp & Hz & Hr)]. split; [done|done|]. split; [done|]. split; [done|]. intros id Hid. unfold bump. rewrite decide_False by done. rewrite Z.add_0_r. by apply Hr.
Qed.

(** The end of [sys_mmap], from the choice between file and anonymous memory on. *)
Lemma mmap_tail_ok others p l current_pid a n vm_flags flags fd_raw offset :
  proc_ok others p l -> (length l < om_cap)%nat -> Z.of_nat (length l) + 1 < 4294967295 ->
  0 <= a -> 0 < n -> a + n < u64_size -> (PAGE_SIZE | a) -> (PAGE_SIZE | n) -> 0 <= offset < u64_size ->
  p_next_id p <> 0 -> refs (p_backings p) (p_next_id p) = 0 ->
  exists r p',
    (if Z.land flags MAP_ANONYMOUS =? 0 then
       match file_backing lookup_fd p current_pid fd_raw with
       | (Err errno, p) => Ret (Err errno, p)
       | (Ok id, p) => insert_mapping p a (a + n) (mkVmaInfo vm_flags (offset / PAGE_SIZE) id 0) (Some id)
       end
     else insert_mapping p a (a + n) (mkVmaInfo vm_flags (offset / PAGE_SIZE) 0 0) None) = Ret (r, p') /\ p_pt p' = p_pt p /\
    match r with
    | Ok v => v = a /\ no_overlap l a (a + n) /\
        proc_ok others p' (al_insert a (new_area a n vm_flags (if Z.land flags MAP_ANONYMOUS =? 0 then p_next_id p else 0) offset) l)
    | Err _ => p_mm p' = p_mm p /\ p_backings p' = p_backings p /\ (no_overlap l a (a + n) -> Z.land flags MAP_ANONYMOUS = 0)
    end.
Proof.
  intros Hok Hcap Hcount Ha Hn Hu Pa Pn Ho Hnz Hfresh. assert (Hpos : forall x, x <> 0 -> 0 <= others x) by (intros x Hx; destruct Hok as [_ _ (_ & _ & Hr)]; by apply Hr).
  destruct (Z.eqb_spec (Z.land flags MAP_ANONYMOUS) 0) as [Hfile|Hanon].
  - unfold file_backing. destruct (parse_fd fd_raw) as [fd|errno]; [|by eexists _, p]. destruct current_pid as [pid|]; [|by eexists _, p].
    destruct (create_mmap_backing_for_pid lookup_fd p pid fd) as [[id|errno] p1] eqn:Ec.
    + destruct (create_backing_ok others p l pid fd id p1 Hok Hnz Hfresh Ec) as (-> & Hok1 & Hm1 & Hpt1 & Hrel).
      destruct (insert_mapping_ok others p1 l a n (mkVmaInfo vm_flags (offset / PAGE_SIZE) (p_next_id p) 0) (Some (p_next_id p)) Hok1) as (r & p' & -> & Hpt & Hr); try done.
      * by apply (new_offset_ok a n vm_flags (p_next_id p) offset).
      * congruence.
      * exists r, p'. split; [done|]. split; [congruence|]. destruct r as [v|errno]; [done|]. destruct Hr as (_ & -> & ->). by rewrite Hm1, Hrel.
    + unfold create_mmap_backing_for_pid in Ec. destruct (lookup_fd pid fd); [done|]. injection Ec as _ <-. by eexists _, p.
  - destruct (insert_mapping_ok others p l a n (mkVmaInfo vm_flags (offset / PAGE_SIZE) 0 0) None (no_bump _ _ _ Hok)) as (r & p' & -> & Hpt & Hr); try done.
    + by apply (new_offset_ok a n vm_flags 0 offset).
    + exists r, p'. split; [done|]. split; [done|]. destruct r as [v|errno]; [done|]. destruct Hr as (Hno & -> & ->). done.
Qed.

(** What a page of the new area maps. *)
Definition new_mapping (vm_flags file offset a q : Z) : Mapping := mkMapping vm_flags file 0 (offset / PAGE_SIZE + (q - a) / PAGE_SIZE).

Lemma page_at_new l a n vm_flags file offset q :
  ranges_wf 0 l -> 0 <= a -> 0 < n -> a + n < u64_size -> no_overlap l a (a + n) ->
  page_at (al_insert a (new_area a n vm_flags file offset) l) q =
  if (a <=? q) && (q <? a + n) then Some (new_mapping vm_flags file offset a q) else page_at l q.
Proof.
  intros Hwf Ha Hn Hu Hno. unfold page_at, new_area. rewrite (at_point_insert 0) by (done || lia). by destruct (_ && _).
Qed.

#[local] Ltac refused p := eexists _, p; split; [reflexivity|]; by left.

Definition same_space p p' : Prop := p_mm p' = p_mm p /\ p_backings p' = p_backings p /\ p_pt p' = p_pt p.

(** An unmapped range is free for a new area, and a new file id stays new. *)
Lemma unmapped_free others p l s t p1 l1 :
  proc_ok others p l -> proc_ok others p1 l1 -> unmapped p l s t p1 l1 -> s < t ->
  p_next_id p <> 0 -> refs (p_backings p) (p_next_id p) = 0 -> no_overlap l1 s t /\ refs (p_backings p1) (p_next_id p) = 0.
Proof.
  intros [Ha _ (_ & _ & Hr)] [Ha1 _ (_ & _ & Hr1)] [Hun _] Hst Hnz Hfresh. pose proof (proj2 (ok_tree _ _ Ha)) as Hwf. pose proof (proj2 (ok_tree _ _ Ha1)) as Hwf1. split.
  - apply (no_overlap_points 0); [done|lia|]. intros q Hq. pose proof (Hun q) as E. unfold page_at in E at 1.
    destruct (Z.leb_spec s q), (Z.ltb_spec q t); try lia. cbn in E. by destruct (at_point l1 q).
  - destruct (Hr _ Hnz) as [Ho He]. destruct (Hr1 _ Hnz) as [_ ->]. rewrite Hfresh in He.
    pose proof (times_nonneg (p_next_id p) (files l)). assert (times (p_next_id p) (files l1) = 0); [|lia]. apply (unknown_file l1); [done|].
    intros q m Hq. apply (proj2 (unknown_file l (p_next_id p) Hwf) ltac:(lia) q). rewrite (Hun q) in Hq. by destruct (_ && _).
Qed.

(** C5. [mmap].  When it succeeds, the address returned starts a page, the rounded length fits into
    user space there, and exactly these addresses get a new mapping, with the flags of the
    request and consecutive pages of the file (or of nothing), whatever was mapped elsewhere
    keeps its mapping, and the counters and the references to mapped files stay exact.  Without
    [MAP_FIXED] the addresses were unmapped before, in the areas and in the page table; with it
    the address is the requested one and what was mapped there is gone from both.  When it
    fails the address space, the files and the page table are as before; the one exception is
    a file mapping with [MAP_FIXED] whose descriptor is refused, which has unmapped the range. *)
Theorem sys_mmap_maps_exactly_the_range others p l current_pid req len prot flags fd_raw offset :
  proc_ok others p l -> room others l -> 0 <= req < u64_size -> 0 <= len < u64_size -> 0 <= offset < u64_size ->
  p_next_id p <> 0 -> refs (p_backings p) (p_next_id p) = 0 ->
  let fixed := set_in flags MAP_FIXED in
  let file := if Z.land flags MAP_ANONYMOUS =? 0 then p_next_id p else 0 in
  exists r p', sys_mmap lookup_fd p current_pid req len prot flags fd_raw offset = Ret (r, p') /\
    match r with
    | Ok a => exists n l', (PAGE_SIZE | n) /\ len <= n < len + PAGE_SIZE /\ chosen n a /\ proc_ok others p' l' /\
        (forall q, page_at l' q = if (a <=? q) && (q <? a + n)
                                  then Some (new_mapping (mmap_flags_to_vm_flags prot flags) file offset a q) else page_at l q) /\
        untouched p l a (a + n) p' /\
        (if fixed then a = req /\ forall v, (PAGE_SIZE | v) -> a <= v < a + n -> page_at l v <> None -> leaf (p_pt p') v = None
         else p_pt p' = p_pt p /\ absent (p_pt p) a (a + n) /\ forall q, a <= q < a + n -> page_at l q = None)
    | Err _ => same_space p p' \/
        (fixed = true /\ file <> 0 /\ exists n l', len <= n /\ proc_ok others p' l' /\ unmapped p l req (req + n) p' l')
    end.
Proof.
  intros Hok Hroom Hreq Hlen Hoff Hnz Hfresh fixed file. unfold sys_mmap.
  destruct (Z.eqb_spec len 0) as [?|Hlen0]; [refused p|]. destruct (set_in prot _); [refused p|]. destruct (set_in flags (not32 _)); [refused p|].
  destruct (set_in flags MMAP_FLAGS_UNSUPPORTED); [refused p|].
  destruct (Bool.eqb _ _); [refused p|]. destruct (negb (Z.land offset _ =? 0)); [refused p|]. destruct (page_align_up_usize len) as [n|errno] eqn:En; [|refused p].
  destruct (page_align_up_usize_ok len n ltac:(lia) En) as [Pn Hn]. destruct (Z.eqb_spec n 0); [lia|].
  destruct (select_addr_ok p l req n flags (sp_areas _ _ _ _ Hok) ltac:(lia) Hreq) as (sel & -> & Hsel). mstep. destruct sel as [a|errno]; [|refused p].
  destruct (Hsel a eq_refl) as [Hch Hsel']. clear Hsel. pose proof Hch as (Pa & Ha1 & Ha2).
  assert (Hau : 0 <= a /\ a + n < u64_size) by (unfold USER_SPACE_START, USER_SPACE_END in *; lia).
  destruct (checked_add64 a n) as [t|] eqn:Et; [|refused p]. apply checked_add_Some in Et as [-> _].
  pose proof (ok_tree _ _ (sp_areas _ _ _ _ Hok)) as [_ Hwf]. destruct Hroom as [Hr1 Hr2 Hr3]. unfold fixed. destruct (set_in flags MAP_FIXED).
  - subst a. destruct (unmap_range_ok others p l req (req + n) Hok ltac:(by split) ltac:(lia) Pa ltac:(by apply Z.divide_add_r)) as (p1 & l1 & -> & Hok1 & Hl1 & _ & Hid & Hun & Hunt). mstep.
    destruct (unmapped_free others p l req (req + n) p1 l1 Hok Hok1 Hun ltac:(lia) Hnz Hfresh) as [Hno Hfresh1].
    pose proof (ok_tree _ _ (sp_areas _ _ _ _ Hok1)) as [_ Hwf1]. rewrite <- Hid in Hfresh1.
    destruct (mmap_tail_ok others p1 l1 current_pid req n (mmap_flags_to_vm_flags prot flags) flags fd_raw offset Hok1) as (r & p' & -> & Hpt & Hr); try done; try lia.
    exists r, p'. split; [done|]. destruct r as [v|errno].
    + destruct Hr as (-> & _ & Hok'). rewrite Hid in Hok'. fold file in Hok'. eexists n, _. split; [done|]. split; [done|]. split; [done|]. split; [exact Hok'|]. split; [|split].
      * intros q. rewrite page_at_new by (done || lia). rewrite (proj1 Hun q). by destruct (_ && _).
      * intros v Pv Hv. rewrite Hpt. by apply Hunt.
      * split; [done|]. intros v Pv Hv Hm. rewrite Hpt. by apply Hun.
    + destruct Hr as (Hm & Hb & Hfile). specialize (Hfile Hno). right. split; [done|]. split; [unfold file; by rewrite Hfile|]. exists n, l1.
      split; [lia|]. split; [unfold proc_ok; rewrite Hm, Hb; done|]. split; [apply Hun|]. intros v Pv Hv. rewrite Hpt. by apply Hun.
  - mstep. destruct (mmap_tail_ok others p l current_pid a n (mmap_flags_to_vm_flags prot flags) flags fd_raw offset Hok) as (r & p' & -> & Hpt & Hr); try done; try lia.
    exists r, p'. split; [done|]. destruct r as [v|errno]; [|left; by destruct Hr as (? & ? & _)].
    destruct Hr as (-> & Hno & Hok'). fold file in Hok'. eexists n, _. split; [done|]. split; [done|]. split; [done|]. split; [exact Hok'|]. split; [|split].
    + intros q. by rewrite page_at_new by (done || lia).
    + intros v Pv _. by rewrite Hpt.
    + split; [done|]. split; [done|]. intros q Hq. unfold page_at. by rewrite (proj1 (no_overlap_points 0 l a (a + n) Hwf ltac:(lia)) Hno q Hq).
Qed.

End Calls.

(** ** The process that maps three pages of a file, with two of them present *)
Definition file_proc : Proc (BTree area) FlatTable := mkProc file_mm file_refs 2 (file_pages 4).
Definition no_fd : Z -> Z -> Result unit Z := fun _ _ => Err EBADF.

Lemma sys_munmap_unmaps_exactly_the_range_witness :
  exists p' l', sys_munmap file_proc 0x401000 0x800 = Ret (Ok 0, p') /\
    page_at l' 0x401000 = None /\ page_at l' 0x402000 = Some (mkMapping 3 1 0 7) /\ leaf (p_pt p') 0x401000 = None.
Proof.
  destruct (sys_munmap_unmaps_exactly_the_range no_others file_proc [keyed file_area] 0x401000 0x800 (proj1 file_space) (proj2 file_space)
    ltac:(lia) ltac:(lia)) as (r & p' & E & Hr). destruct r as [v|errno]; [|exfalso; vm_compute in E; discriminate E].
  destruct Hr as (-> & _ & l' & _ & _ & [Hp Hleaf] & _). exists p', l'. split; [done|]. change (rounded 0x800) with 4096 in *.
  rewrite !Hp. split; [reflexivity|]. split; [reflexivity|].
  apply Hleaf; [by apply Z.mod_divide|]. split; [lia|]. discriminate.
Defined.

Lemma sys_mmap_maps_exactly_the_range_witness :
  exists p' n l', sys_mmap no_fd file_proc (Some 1) 0x500000 0x1800 PROT_READ (Z.lor MAP_PRIVATE MAP_ANONYMOUS) 0 0 = Ret (Ok 0x500000, p') /\
    0x1800 <= n < 0x2800 /\ page_at l' 0x501000 = Some (mkMapping (mmap_flags_to_vm_flags PROT_READ (Z.lor MAP_PRIVATE MAP_ANONYMOUS)) 0 0 1) /\
    page_at l' 0x402000 = Some (mkMapping 3 1 0 7).
Proof.
  destruct (sys_mmap_maps_exactly_the_range no_fd no_others file_proc [keyed file_area] (Some 1) 0x500000 0x1800 PROT_READ (Z.lor MAP_PRIVATE MAP_ANONYMOUS) 0 0
    (proj1 file_space) (proj2 file_space) ltac:(lia) ltac:(lia) ltac:(lia) ltac:(done) ltac:(done)) as (r & p' & E & Hr).
  destruct r as [a|errno]; [|exfalso; vm_compute in E; discriminate E].
  assert (a = 0x500000) as -> by (vm_compute in E; congruence). destruct Hr as (n & l' & Pn & Hn & _ & _ & Hp & _).
  exists p', n, l'. split; [done|]. split; [unfold PAGE_SIZE in Hn; lia|].
  assert (n = 8192) as -> by (destruct Pn as [k ->]; unfold PAGE_SIZE in *; lia). rewrite !Hp. split; reflexivity.
Defined.

Lemma sys_mprotect_changes_exactly_the_range_witness :
  exists p' l', sys_mprotect file_proc 0x400000 0x2000 PROT_READ = Ret (Ok 0, p') /\ page_at l' 0x401000 = Some (mkMapping 1 1 0 6) /\
    leaf (p_pt p') 0x401000 = Some (0x8000, to_user_pte_flags READ).
Proof.
  destruct (sys_mprotect_changes_exactly_the_range no_others file_proc [keyed file_area] 0x400000 0x2000 PROT_READ (proj1 file_space) (proj2 file_space)
    ltac:(lia) ltac:(lia)) as (r & p' & E & Hr). destruct r as [v|errno]; [|exfalso; vm_compute in E; discriminate E].
  destruct Hr as (-> & _ & l' & _ & _ & Hp & Hleaf). exists p', l'. split; [done|]. change (rounded 0x2000) with 8192 in *.
  rewrite Hp, (Hleaf 0x401000 ltac:(by apply Z.mod_divide)). split; reflexivity.
Defined.

(** A fixed file mapping with a descriptor that is not open fails with [EBADF], after the old
    mapping of the range has been removed. *)
Example failed_fixed_mmap_unmaps :
  match sys_mmap no_fd file_proc (Some 1) 0x400000 0x1000 PROT_READ (Z.lor MAP_PRIVATE MAP_FIXED) 9 0 with
  | Ret (Err errno, p') => errno = EBADF /\ find_vma_flags (p_mm p') 0x400000 = Ret None /\ leaf (p_pt p') 0x400000 = None
  | _ => False
  end.
Proof. by vm_compute. Qed.

(** The first [brk] of a process places the heap, and moves its end. *)
Example first_brk :
  match sys_brk file_proc 0x1500000 with
  | Ret (b, p') => b = 0x1500000 /\ start_brk (p_mm p') = 0x1400000 /\ find_vma_flags (p_mm p') 0x1400000 = Ret (Some heap_flags)
  | _ => False
  end.
Proof. by vm_compute. Qed.
