(* ===== verification/Page.v ===== *)
(** * Page descriptors: kernel/src/mm/phys/page.rs

    The state of the physical page allocators, shared by [Page], [Zone], [Pcp] and
    [Buddy]: the descriptor array at [VMEMMAP_BASE], the intrusive list nodes, the three
    zones, the per-CPU caches, the physical memory and the rejection counters.

    A page is named by the address of its descriptor.  A list node is either the [lru]
    field of a page or the head kept inside a zone or a per-CPU cache; the nodes form one
    heap, so that linking and unlinking update neighbours through pointers as the code
    does.  Following a pointer that is not a node or a descriptor is a fault ([Panic]).
    Locks are held around each operation and are not modelled. *)

From S2P Require Import Prelude.

(** ** Data *)
Inductive PageOwner := Unknown | Buddy | Pcp | Slab | Pgtable | Allocated | Reserved.
#[export] Instance PageOwner_eq_dec : EqDecision PageOwner.
Proof. solve_decision. Defined.

Definition owner_raw (o : PageOwner) : Z :=
  match o with
  | Unknown => 0 | Buddy => 1 | Pcp => 2 | Slab => 3 | Pgtable => 4 | Allocated => 5 | Reserved => 6
  end.
Definition from_raw (raw : Z) : PageOwner :=
  match raw with
  | 1 => Buddy | 2 => Pcp | 3 => Slab | 4 => Pgtable | 5 => Allocated | 6 => Reserved | _ => Unknown
  end.

Inductive PageCounterError := RefUnderflow | MapcountUnderflow.

Definition RESERVED : Z := 1.
Definition SLAB : Z := 2.
Definition BUDDY : Z := 4.
Definition COMPOUND : Z := 8.
Definition HEAD : Z := 16.
Definition TAIL : Z := 32.
Definition PGTABLE : Z := 65536.

Inductive ZoneType := Dma | Dma32 | Normal.
#[export] Instance ZoneType_eq_dec : EqDecision ZoneType.
Proof. solve_decision. Defined.
Definition zone_index (z : ZoneType) : Z := match z with Dma => 0 | Dma32 => 1 | Normal => 2 end.
Definition idx_to_zone_type (i : Z) : ZoneType := match i with 0 => Dma | 1 => Dma32 | _ => Normal end.
Lemma idx_to_zone_type_index z : idx_to_zone_type (zone_index z) = z.
Proof. by destruct z. Qed.
#[export] Instance ZoneType_countable : Countable ZoneType := inj_countable' _ _ idx_to_zone_type_index.

(** Addresses of list nodes. *)
Inductive ListPtr := Null | FreeHead (z : ZoneType) (order : Z) | PcpHead (cpu zone_idx : Z) | Lru (page : Z).
#[export] Instance ListPtr_eq_dec : EqDecision ListPtr.
Proof. solve_decision. Defined.
#[export] Instance ListPtr_countable : Countable ListPtr.
Proof.
  refine (inj_countable'
    (fun p => match p with
              | Null => inl (inl tt) | FreeHead z o => inl (inr (z, o))
              | PcpHead c i => inr (inl (c, i)) | Lru a => inr (inr a) end)
    (fun s => match s with
              | inl (inl _) => Null | inl (inr (z, o)) => FreeHead z o
              | inr (inl (c, i)) => PcpHead c i | inr (inr a) => Lru a end) _).
  by intros [].
Defined.

Record ListHead := mkNode { next : ListPtr; prev : ListPtr }.

(** The [lru] field is the node [Lru page]. *)
Record Page := mkPage {
  flags : Z; refcount : Z; mapcount : Z; zone_id : Z; order : Z; owner : Z; private : Z
}.

(** Kernel/src/mm/phys/zone.rs: the list head of [free_area[o]] is the node
    [FreeHead zone_type o]; the list holds the counters [nr_free]. *)
Record Zone := mkZone {
  start_pfn : Z; spanned_pages : Z; present_pages : Z; free_pages : Z; free_area : list Z;
  watermark_min : Z; watermark_low : Z; watermark_high : Z; initialized : bool
}.

(** Kernel/src/mm/phys/pcp.rs: the list head is the node [PcpHead cpu zone_idx]. *)
Record PerCpuPages := mkPcp { high : Z; batch : Z; count : Z }.

Record Guards := mkGuards {
  ref_underflow_rejects : Z; mapcount_underflow_rejects : Z;
  area_underflow_rejects : Z; global_underflow_rejects : Z; snapshot_mismatches : Z; scrub_repairs : Z;
  invalid_free_rejects : Z; quarantine_fallbacks : Z; owner_mismatches : Z
}.

Record Mem := mkMem {
  vmemmap_base : Z; max_pfn : Z;
  pages : gmap Z Page;
  nodes : gmap ListPtr ListHead;
  zone_dma : Zone; zone_dma32 : Zone; zone_normal : Zone;
  pcps : gmap (Z * Z) PerCpuPages; nr_cpus : Z; pcp_ready : bool;
  phys : Z -> Z;
  guards : Guards
}.

(** ** Computations on the state *)
Definition Kern (A : Type) : Type := Mem -> exec (A * Mem).
#[export] Instance kern_ret : MRet Kern := fun A a m => Ret (a, m).
#[export] Instance kern_bind : MBind Kern := fun A B f c m =>
  match c m with Ret (a, m') => f a m' | Panic => Panic | OutOfFuel => OutOfFuel end.
Definition lift {A} (x : exec A) : Kern A := fun m => a ← x; Ret (a, m).
Definition gets {A} (f : Mem -> A) : Kern A := fun m => Ret (f m, m).
Definition modify (f : Mem -> Mem) : Kern unit := fun m => Ret (tt, f m).
Definition fault {A} : Kern A := fun _ => Panic.
Definition when (b : bool) (c : Kern unit) : Kern unit := if b then c else mret tt.

Definition set_pages (m : Mem) (x : gmap Z Page) : Mem :=
  mkMem (vmemmap_base m) (max_pfn m) x (nodes m) (zone_dma m) (zone_dma32 m) (zone_normal m) (pcps m) (nr_cpus m)
    (pcp_ready m) (phys m) (guards m).
Definition set_nodes (m : Mem) (x : gmap ListPtr ListHead) : Mem :=
  mkMem (vmemmap_base m) (max_pfn m) (pages m) x (zone_dma m) (zone_dma32 m) (zone_normal m) (pcps m) (nr_cpus m)
    (pcp_ready m) (phys m) (guards m).
Definition set_zone (z : ZoneType) (x : Zone) (m : Mem) : Mem :=
  mkMem (vmemmap_base m) (max_pfn m) (pages m) (nodes m)
    (match z with Dma => x | _ => zone_dma m end) (match z with Dma32 => x | _ => zone_dma32 m end)
    (match z with Normal => x | _ => zone_normal m end) (pcps m) (nr_cpus m) (pcp_ready m) (phys m) (guards m).
Definition set_pcps (m : Mem) (x : gmap (Z * Z) PerCpuPages) : Mem :=
  mkMem (vmemmap_base m) (max_pfn m) (pages m) (nodes m) (zone_dma m) (zone_dma32 m) (zone_normal m) x (nr_cpus m)
    (pcp_ready m) (phys m) (guards m).
Definition set_phys (m : Mem) (x : Z -> Z) : Mem :=
  mkMem (vmemmap_base m) (max_pfn m) (pages m) (nodes m) (zone_dma m) (zone_dma32 m) (zone_normal m) (pcps m) (nr_cpus m)
    (pcp_ready m) x (guards m).
Definition set_guards (f : Guards -> Guards) (m : Mem) : Mem :=
  mkMem (vmemmap_base m) (max_pfn m) (pages m) (nodes m) (zone_dma m) (zone_dma32 m) (zone_normal m) (pcps m) (nr_cpus m)
    (pcp_ready m) (phys m) (f (guards m)).

Definition bump_ref_underflow (g : Guards) : Guards :=
  mkGuards (add64 (ref_underflow_rejects g) 1) (mapcount_underflow_rejects g) (area_underflow_rejects g)
    (global_underflow_rejects g) (snapshot_mismatches g) (scrub_repairs g) (invalid_free_rejects g)
    (quarantine_fallbacks g) (owner_mismatches g).
Definition bump_mapcount_underflow (g : Guards) : Guards :=
  mkGuards (ref_underflow_rejects g) (add64 (mapcount_underflow_rejects g) 1) (area_underflow_rejects g)
    (global_underflow_rejects g) (snapshot_mismatches g) (scrub_repairs g) (invalid_free_rejects g)
    (quarantine_fallbacks g) (owner_mismatches g).

(** ** ListHead *)
Definition get_node (p : ListPtr) : Kern ListHead := fun m =>
  match nodes m !! p with Some n => Ret (n, m) | None => Panic end.
Definition put_node (p : ListPtr) (n : ListHead) : Kern unit := modify (fun m => set_nodes m (<[p := n]> (nodes m))).
Definition set_next (p q : ListPtr) : Kern unit := n ← get_node p; put_node p (mkNode q (prev n)).
Definition set_prev (p q : ListPtr) : Kern unit := n ← get_node p; put_node p (mkNode (next n) q).

Definition ListHead_init (self : ListPtr) : Kern unit := set_next self self;; set_prev self self.
Definition ListHead_is_empty (self : ListPtr) : Kern bool := n ← get_node self; mret (bool_decide (next n = self)).

Definition ListHead_add (self new : ListPtr) : Kern unit :=
  n ← get_node self;
  let next := next n in
  set_next new next;;
  set_prev new self;;
  set_prev next new;;
  set_next self new.

Definition ListHead_del (self : ListPtr) : Kern unit :=
  n ← get_node self;
  let next := next n in
  let prev := prev n in
  set_next prev next;;
  set_prev next prev;;
  set_next self Null;;
  set_prev self Null.

(** [container_of!(node, Page, lru)] *)
Definition container_of (node : ListPtr) : Kern Z :=
  match node with Lru page => mret page | _ => fault end.

(** ** Page *)
Definition get_page (p : Z) : Kern Page := fun m =>
  match pages m !! p with Some pg => Ret (pg, m) | None => Panic end.
Definition update_page (p : Z) (f : Page -> Page) : Kern unit :=
  pg ← get_page p; modify (fun m => set_pages m (<[p := f pg]> (pages m))).

Definition not32 (a : Z) : Z := Z.lxor a 4294967295.

Definition page_uninit : Page := mkPage 0 0 (-1) 0 0 (owner_raw Unknown) 0.
Definition page_init (p : Z) (zid : Z) : Kern unit :=
  update_page p (fun _ => mkPage 0 0 (-1) zid 0 (owner_raw Unknown) 0);;
  ListHead_init (Lru p).

Definition set_flag_pure (flag : Z) (pg : Page) : Page :=
  mkPage (Z.lor (flags pg) flag) (refcount pg) (mapcount pg) (zone_id pg) (order pg) (owner pg) (private pg).
Definition clear_flag_pure (flag : Z) (pg : Page) : Page :=
  mkPage (Z.land (flags pg) (not32 flag)) (refcount pg) (mapcount pg) (zone_id pg) (order pg) (owner pg) (private pg).
Definition set_flag (p flag : Z) : Kern unit := update_page p (set_flag_pure flag).
Definition clear_flag (p flag : Z) : Kern unit := update_page p (clear_flag_pure flag).
Definition test_flag (pg : Page) (flag : Z) : bool := negb (Z.land (flags pg) flag =? 0).

Definition with_refcount (n : Z) (pg : Page) : Page :=
  mkPage (flags pg) n (mapcount pg) (zone_id pg) (order pg) (owner pg) (private pg).
Definition with_mapcount (n : Z) (pg : Page) : Page :=
  mkPage (flags pg) (refcount pg) n (zone_id pg) (order pg) (owner pg) (private pg).
Definition with_zone_id (n : Z) (pg : Page) : Page :=
  mkPage (flags pg) (refcount pg) (mapcount pg) n (order pg) (owner pg) (private pg).
Definition with_order (n : Z) (pg : Page) : Page :=
  mkPage (flags pg) (refcount pg) (mapcount pg) (zone_id pg) n (owner pg) (private pg).
Definition with_owner (n : Z) (pg : Page) : Page :=
  mkPage (flags pg) (refcount pg) (mapcount pg) (zone_id pg) (order pg) n (private pg).
Definition with_private (n : Z) (pg : Page) : Page :=
  mkPage (flags pg) (refcount pg) (mapcount pg) (zone_id pg) (order pg) (owner pg) n.

Definition page_get (p : Z) : Kern Z :=
  pg ← get_page p;
  update_page p (with_refcount (add32 (refcount pg) 1));;
  mret (add32 (refcount pg) 1).

Definition try_put (p : Z) : Kern (Result Z PageCounterError) :=
  pg ← get_page p;
  let old := refcount pg in
  if old =? 0 then
    modify (set_guards bump_ref_underflow);; mret (Err RefUnderflow)
  else
    update_page p (with_refcount (old - 1));; mret (Ok (old - 1)).

Definition put (p : Z) : Kern Z :=
  r ← try_put p; mret (match r with Ok new => new | Err _ => 0 end).

Definition set_count_one (p : Z) : Kern unit := update_page p (with_refcount 1).

Definition inc_mapcount (p : Z) : Kern Z :=
  pg ← get_page p;
  update_page p (with_mapcount (wrap_i32 (mapcount pg + 1)));;
  mret (wrap_i32 (mapcount pg + 1)).

Definition try_dec_mapcount (p : Z) : Kern (Result Z PageCounterError) :=
  pg ← get_page p;
  let old := mapcount pg in
  if old <=? -1 then
    modify (set_guards bump_mapcount_underflow);; mret (Err MapcountUnderflow)
  else
    update_page p (with_mapcount (old - 1));; mret (Ok (old - 1)).

Definition dec_mapcount (p : Z) : Kern Z :=
  r ← try_dec_mapcount p; mret (match r with Ok new => new | Err _ => -1 end).

(** [order as u8] and [owner as u8] *)
Definition set_order (p o : Z) : Kern unit := update_page p (with_order (o mod 256)).
Definition set_owner (p : Z) (o : PageOwner) : Kern unit := update_page p (with_owner (owner_raw o)).
Definition set_zone_id (p zid : Z) : Kern unit := update_page p (with_zone_id zid).
Definition set_private (p x : Z) : Kern unit := update_page p (with_private x).

Definition is_reserved (pg : Page) : bool := test_flag pg RESERVED.
Definition is_buddy (pg : Page) : bool := test_flag pg BUDDY.
Definition is_slab (pg : Page) : bool := test_flag pg SLAB.
Definition is_compound (pg : Page) : bool := test_flag pg COMPOUND.
Definition is_pgtable (pg : Page) : bool := test_flag pg PGTABLE.

Definition mark_reserved (p : Z) : Kern unit := set_flag p RESERVED;; set_owner p Reserved.
Definition mark_buddy (p o : Z) : Kern unit := set_flag p BUDDY;; set_order p o;; set_owner p Buddy.
Definition clear_buddy (p : Z) : Kern unit := clear_flag p BUDDY.

(** ** Descriptor addresses: [size_of::<Page>()] is 40 bytes. *)
Definition PAGE_STRUCT_SIZE : Z := 40.

Definition init_vmemmap (base max : Z) (m : Mem) : Mem :=
  mkMem base max (pages m) (nodes m) (zone_dma m) (zone_dma32 m) (zone_normal m) (pcps m) (nr_cpus m)
    (pcp_ready m) (phys m) (guards m).

Definition pfn_to_page (m : Mem) (pfn : Z) : Z := add64 (vmemmap_base m) (mul64 pfn PAGE_STRUCT_SIZE).

Definition page_to_pfn (m : Mem) (ptr : Z) : Z :=
  let base := vmemmap_base m in
  if (base =? 0) || (max_pfn m =? 0) || (ptr <? base) then U64_MAX
  else
    let span_bytes := saturating_mul64 (max_pfn m) PAGE_STRUCT_SIZE in
    let end_ := saturating_add64 base span_bytes in
    if end_ <=? ptr then U64_MAX
    else
      let delta := sub64 ptr base in
      if negb (delta mod PAGE_STRUCT_SIZE =? 0) then U64_MAX else delta / PAGE_STRUCT_SIZE.

Definition is_page_ptr_in_vmemmap (m : Mem) (ptr : Z) : bool :=
  let base := vmemmap_base m in
  let max := max_pfn m in
  if (base =? 0) || (max =? 0) then false
  else
    let span_bytes := saturating_mul64 max PAGE_STRUCT_SIZE in
    let end_ := saturating_add64 base span_bytes in
    (base <=? ptr) && (ptr <? end_) && (sub64 ptr base mod PAGE_STRUCT_SIZE =? 0).

(** ** Running computations *)
Lemma kbind_ret {A B} (c : Kern A) (f : A -> Kern B) m a m' :
  c m = Ret (a, m') -> (c ≫= f) m = f a m'.
Proof. intros H. unfold mbind, kern_bind. by rewrite H. Qed.

Lemma get_node_ok p n m : nodes m !! p = Some n -> get_node p m = Ret (n, m).
Proof. intros H. unfold get_node. by rewrite H. Qed.
Lemma get_page_ok p pg m : pages m !! p = Some pg -> get_page p m = Ret (pg, m).
Proof. intros H. unfold get_page. by rewrite H. Qed.
Lemma update_page_ok p f pg m :
  pages m !! p = Some pg -> update_page p f m = Ret (tt, set_pages m (<[p := f pg]> (pages m))).
Proof. intros H. unfold update_page. by rewrite (kbind_ret _ _ _ _ _ (get_page_ok _ _ _ H)). Qed.
Lemma set_next_ok p q n m :
  nodes m !! p = Some n -> set_next p q m = Ret (tt, set_nodes m (<[p := mkNode q (prev n)]> (nodes m))).
Proof. intros H. unfold set_next. by rewrite (kbind_ret _ _ _ _ _ (get_node_ok _ _ _ H)). Qed.
Lemma set_prev_ok p q n m :
  nodes m !! p = Some n -> set_prev p q m = Ret (tt, set_nodes m (<[p := mkNode (next n) q]> (nodes m))).
Proof. intros H. unfold set_prev. by rewrite (kbind_ret _ _ _ _ _ (get_node_ok _ _ _ H)). Qed.

(** ** Descriptor addresses *)
Definition vmemmap_ok (m : Mem) : Prop :=
  0 < vmemmap_base m /\ 0 < max_pfn m /\ vmemmap_base m + max_pfn m * PAGE_STRUCT_SIZE < u64_size.

Lemma pfn_to_page_eq m pfn :
  vmemmap_ok m -> 0 <= pfn < max_pfn m -> pfn_to_page m pfn = vmemmap_base m + pfn * PAGE_STRUCT_SIZE.
Proof. unfold vmemmap_ok, pfn_to_page, PAGE_STRUCT_SIZE. intros Hv Hp. by wsimpl. Qed.

Lemma pfn_to_page_inj m p q :
  vmemmap_ok m -> 0 <= p < max_pfn m -> 0 <= q < max_pfn m -> pfn_to_page m p = pfn_to_page m q -> p = q.
Proof. intros Hv Hp Hq. rewrite !pfn_to_page_eq by done. unfold PAGE_STRUCT_SIZE. lia. Qed.

Lemma vmemmap_span m :
  vmemmap_ok m ->
  saturating_add64 (vmemmap_base m) (saturating_mul64 (max_pfn m) PAGE_STRUCT_SIZE) =
  vmemmap_base m + max_pfn m * PAGE_STRUCT_SIZE.
Proof. unfold vmemmap_ok, saturating_add64, saturating_mul64, PAGE_STRUCT_SIZE. lia. Qed.

Lemma page_to_pfn_ok m pfn :
  vmemmap_ok m -> 0 <= pfn < max_pfn m -> page_to_pfn m (pfn_to_page m pfn) = pfn.
Proof.
  intros Hv Hp. rewrite pfn_to_page_eq by done. unfold page_to_pfn. rewrite vmemmap_span by done.
  unfold vmemmap_ok, PAGE_STRUCT_SIZE in *.
  destruct (Z.eqb_spec (vmemmap_base m) 0), (Z.eqb_spec (max_pfn m) 0), (Z.ltb_spec (vmemmap_base m + pfn * 40) (vmemmap_base m)),
    (Z.leb_spec (vmemmap_base m + max_pfn m * 40) (vmemmap_base m + pfn * 40)); try lia. cbn [orb].
  rewrite sub64_small by lia. replace (vmemmap_base m + pfn * 40 - vmemmap_base m) with (pfn * 40) by lia.
  by rewrite Z.mod_mul, Z.div_mul by lia.
Qed.

Lemma page_ptr_in_vmemmap m pfn :
  vmemmap_ok m -> 0 <= pfn < max_pfn m -> is_page_ptr_in_vmemmap m (pfn_to_page m pfn) = true.
Proof.
  intros Hv Hp. rewrite pfn_to_page_eq by done. unfold is_page_ptr_in_vmemmap. rewrite vmemmap_span by done.
  unfold vmemmap_ok, PAGE_STRUCT_SIZE in *.
  destruct (Z.eqb_spec (vmemmap_base m) 0), (Z.eqb_spec (max_pfn m) 0); try lia. cbn [orb].
  destruct (Z.leb_spec (vmemmap_base m) (vmemmap_base m + pfn * 40)),
    (Z.ltb_spec (vmemmap_base m + pfn * 40) (vmemmap_base m + max_pfn m * 40)); try lia. cbn [andb].
  rewrite sub64_small by lia. replace (vmemmap_base m + pfn * 40 - vmemmap_base m) with (pfn * 40) by lia.
  by rewrite Z.mod_mul by lia.
Qed.

(** ** Flags *)
Lemma test_flag_bit pg k : 0 <= k -> test_flag pg (2 ^ k) = Z.testbit (flags pg) k.
Proof.
  intros Hk. unfold test_flag. destruct (Z.testbit (flags pg) k) eqn:Hb.
  - destruct (Z.eqb_spec (Z.land (flags pg) (2 ^ k)) 0) as [H|]; [|done]. apply (f_equal (fun x => Z.testbit x k)) in H.
    rewrite Z.land_spec, Hb, Z.pow2_bits_true, Z.bits_0 in H by lia. done.
  - destruct (Z.eqb_spec (Z.land (flags pg) (2 ^ k)) 0) as [H|H]; [done|]. exfalso. apply H. apply Z.bits_inj'.
    intros j Hj. rewrite Z.land_spec, Z.bits_0, Z.pow2_bits_eqb by lia. destruct (Z.eqb_spec k j) as [<-|]; [by rewrite Hb|].
    by rewrite andb_false_r.
Qed.

Lemma is_buddy_bit pg : is_buddy pg = Z.testbit (flags pg) 2.
Proof. apply (test_flag_bit pg 2). lia. Qed.

Lemma is_buddy_set_flag f pg : is_buddy (set_flag_pure f pg) = is_buddy pg || Z.testbit f 2.
Proof. rewrite !is_buddy_bit. cbn [set_flag_pure flags]. by rewrite Z.lor_spec. Qed.
Lemma is_buddy_clear_flag f pg : is_buddy (clear_flag_pure f pg) = is_buddy pg && negb (Z.testbit f 2).
Proof.
  rewrite !is_buddy_bit. cbn [clear_flag_pure flags]. unfold not32. rewrite Z.land_spec, Z.lxor_spec.
  change (Z.testbit 4294967295 2) with true. by rewrite xorb_true_r.
Qed.

(** ** Doubly linked lists *)
Definition nxt (N : gmap ListPtr ListHead) (p : ListPtr) : option ListPtr := option_map next (N !! p).
Definition prv (N : gmap ListPtr ListHead) (p : ListPtr) : option ListPtr := option_map prev (N !! p).

(** [seg N p xs q]: from [p] the forward links visit [xs] and reach [q], and the backward
    links return. *)
Fixpoint seg (N : gmap ListPtr ListHead) (p : ListPtr) (xs : list ListPtr) (q : ListPtr) : Prop :=
  match xs with
  | [] => nxt N p = Some q /\ prv N q = Some p
  | x :: xs' => nxt N p = Some x /\ prv N x = Some p /\ seg N x xs' q
  end.
Definition ring (N : gmap ListPtr ListHead) (h : ListPtr) (xs : list ListPtr) : Prop := seg N h xs h.

Lemma seg_app N p xs x ys q : seg N p (xs ++ x :: ys) q <-> seg N p xs x /\ seg N x ys q.
Proof. revert p. induction xs as [|y xs IH]; intros p; simpl; [tauto|]. rewrite IH. tauto. Qed.

Lemma seg_frame N N' p xs q :
  (forall x, x ∈ p :: xs -> nxt N' x = nxt N x) -> (forall x, x ∈ xs ++ [q] -> prv N' x = prv N x) ->
  seg N p xs q -> seg N' p xs q.
Proof.
  revert p. induction xs as [|x xs IH]; intros p Hn Hp; simpl.
  - rewrite Hn, Hp by set_solver. done.
  - rewrite Hn, Hp by set_solver. intros (H1 & H2 & H3). split_and!; [done..|]. apply IH; [| |done].
    + intros y Hy. apply Hn. set_solver.
    + intros y Hy. apply Hp. set_solver.
Qed.

Lemma seg_first N p xs q : seg N p xs q -> nxt N p = head (xs ++ [q]).
Proof. destruct xs; simpl; tauto. Qed.
Lemma seg_first_prv N p xs q y : seg N p xs q -> head (xs ++ [q]) = Some y -> prv N y = Some p.
Proof. destruct xs; simpl; [intros [_ ?] [= <-]|intros (_ & ? & _) [= <-]]; done. Qed.
Lemma seg_last N p xs q : seg N p xs q -> prv N q = last (p :: xs).
Proof.
  revert p. induction xs as [|x xs IH]; intros p; [simpl; tauto|]. intros (_ & _ & H). apply IH in H. by rewrite H.
Qed.
Lemma seg_last_nxt N p xs q y : seg N p xs q -> last (p :: xs) = Some y -> nxt N y = Some q.
Proof.
  revert p. induction xs as [|x xs IH]; intros p.
  - intros [? _] [= <-]. done.
  - intros (_ & _ & H). change (last (p :: x :: xs)) with (last (x :: xs)). by apply IH.
Qed.

Lemma nxt_insert N p n x : nxt (<[p := n]> N) x = if decide (x = p) then Some (next n) else nxt N x.
Proof. unfold nxt. destruct (decide (x = p)) as [->|]; [by rewrite lookup_insert_eq|by rewrite lookup_insert_ne]. Qed.
Lemma prv_insert N p n x : prv (<[p := n]> N) x = if decide (x = p) then Some (prev n) else prv N x.
Proof. unfold prv. destruct (decide (x = p)) as [->|]; [by rewrite lookup_insert_eq|by rewrite lookup_insert_ne]. Qed.
Lemma nxt_Some N p q : nxt N p = Some q -> exists n, N !! p = Some n /\ next n = q.
Proof. unfold nxt. destruct (N !! p) as [n|]; [|done]. intros [= <-]. by exists n. Qed.
Lemma prv_Some N p q : prv N p = Some q -> exists n, N !! p = Some n /\ prev n = q.
Proof. unfold prv. destruct (N !! p) as [n|]; [|done]. intros [= <-]. by exists n. Qed.

(** The links after [add] and [del]. *)
Lemma ListHead_add_ok m h new f :
  nxt (nodes m) h = Some f -> is_Some (nodes m !! f) -> is_Some (nodes m !! new) -> new <> h -> new <> f ->
  exists N, ListHead_add h new m = Ret (tt, set_nodes m N) /\
    (forall p, nxt N p = if decide (p = h) then Some new else if decide (p = new) then Some f else nxt (nodes m) p) /\
    (forall p, prv N p = if decide (p = f) then Some new else if decide (p = new) then Some h else prv (nodes m) p).
Proof.
  intros (nh & Hh & <-)%nxt_Some [nf Hf] [nn Hn] Hnh Hnf. unfold ListHead_add.
  rewrite (kbind_ret _ _ _ _ _ (get_node_ok _ _ _ Hh)). set (f := next nh) in *.
  rewrite (kbind_ret _ _ _ _ _ (set_next_ok _ f _ _ Hn)). set (m1 := set_nodes m _).
  assert (H1 : nodes m1 !! new = Some (mkNode f (prev nn))) by (cbn; by rewrite lookup_insert_eq).
  rewrite (kbind_ret _ _ _ _ _ (set_prev_ok _ h _ _ H1)). set (m2 := set_nodes m1 _).
  assert (H2 : nodes m2 !! f = Some nf) by (cbn; rewrite !lookup_insert_ne by done; done).
  rewrite (kbind_ret _ _ _ _ _ (set_prev_ok _ new _ _ H2)). set (m3 := set_nodes m2 _).
  assert (H3 : exists n3, nodes m3 !! h = Some n3 /\ prev n3 = if decide (h = f) then new else prev nh).
  { cbn. destruct (decide (h = f)) as [->|Hhf]; [rewrite lookup_insert_eq; eauto|].
    rewrite !lookup_insert_ne by done. eauto. }
  destruct H3 as (n3 & H3 & Hp3). rewrite (set_next_ok _ new _ _ H3). eexists. split; [reflexivity|].
  split; intros p; cbn [m3 m2 m1 set_nodes nodes].
  - rewrite !nxt_insert. cbn [next]. destruct (decide (p = h)); [done|].
    destruct (decide (p = f)) as [->|]; [rewrite decide_False by done|]; [|by repeat case_decide].
    unfold nxt. by rewrite Hf.
  - rewrite !prv_insert. cbn [prev next]. rewrite Hp3.
    destruct (decide (p = h)) as [->|]; destruct (decide _); try done; subst; repeat case_decide; try done;
      unfold prv; by rewrite ?Hh.
Qed.

Lemma ListHead_del_ok m x p n :
  nxt (nodes m) x = Some n -> prv (nodes m) x = Some p -> is_Some (nodes m !! p) -> is_Some (nodes m !! n) ->
  p <> x -> n <> x ->
  exists N, ListHead_del x m = Ret (tt, set_nodes m N) /\
    (forall y, nxt N y = if decide (y = x) then Some Null else if decide (y = p) then Some n else nxt (nodes m) y) /\
    (forall y, prv N y = if decide (y = x) then Some Null else if decide (y = n) then Some p else prv (nodes m) y).
Proof.
  intros (nx & Hx & <-)%nxt_Some Hp [np Hnp] [nn Hnn] Hpx Hnx. unfold prv in Hp. rewrite Hx in Hp.
  injection Hp as <-. unfold ListHead_del. rewrite (kbind_ret _ _ _ _ _ (get_node_ok _ _ _ Hx)).
  set (p := prev nx) in *. set (n := next nx) in *.
  rewrite (kbind_ret _ _ _ _ _ (set_next_ok _ n _ _ Hnp)). set (m1 := set_nodes m _).
  assert (H1 : exists n1, nodes m1 !! n = Some n1 /\ next n1 = if decide (n = p) then n else next nn).
  { cbn. destruct (decide (n = p)) as [->|]; [rewrite lookup_insert_eq; eauto|]. rewrite lookup_insert_ne by done. eauto. }
  destruct H1 as (n1 & H1 & Hn1). rewrite (kbind_ret _ _ _ _ _ (set_prev_ok _ p _ _ H1)). set (m2 := set_nodes m1 _).
  assert (H2 : nodes m2 !! x = Some nx) by (cbn; rewrite !lookup_insert_ne by done; done).
  rewrite (kbind_ret _ _ _ _ _ (set_next_ok _ Null _ _ H2)). set (m3 := set_nodes m2 _).
  assert (H3 : nodes m3 !! x = Some (mkNode Null p)) by (cbn; by rewrite lookup_insert_eq).
  rewrite (set_prev_ok _ Null _ _ H3). eexists. split; [reflexivity|].
  split; intros y; cbn [m3 m2 m1 set_nodes nodes].
  - rewrite !nxt_insert. cbn [next]. rewrite Hn1. destruct (decide (y = x)); [done|].
    destruct (decide (y = n)) as [->|]; [|done]. repeat case_decide; try done. unfold nxt. by rewrite Hnn.
  - rewrite !prv_insert. cbn [prev]. destruct (decide (y = x)); [done|]. destruct (decide (y = n)); [done|].
    destruct (decide (y = p)) as [->|]; [|done]. unfold prv. by rewrite Hnp.
Qed.

(** Another ring shares no node with the ring of [h] and the node [x]. *)
Definition apart_from (h x : ListPtr) (xs : list ListPtr) (h' : ListPtr) (ys : list ListPtr) : Prop :=
  forall y, y ∈ h' :: ys -> y <> h /\ y <> x /\ y ∉ xs.

Lemma is_Some_nxt N p : is_Some (N !! p) <-> is_Some (nxt N p).
Proof. unfold nxt. destruct (N !! p); simpl; [split; eauto|]. split; intros [? [=]]. Qed.

Lemma ring_push m h x xs :
  ring (nodes m) h xs -> NoDup (h :: xs) -> x ∉ h :: xs -> is_Some (nodes m !! x) ->
  exists N, ListHead_add h x m = Ret (tt, set_nodes m N) /\ ring N h (x :: xs) /\
    (forall h' ys, apart_from h x xs h' ys -> ring (nodes m) h' ys -> ring N h' ys) /\
    (forall p, is_Some (nodes m !! p) -> is_Some (N !! p)).
Proof.
  intros Hr [Hh Hd]%NoDup_cons Hx Hnew. pose proof (seg_first _ _ _ _ Hr) as Hf.
  destruct (head (xs ++ [h])) as [f|] eqn:Hhd; [|by destruct xs].
  assert (Hfin : f ∈ h :: xs) by (destruct xs; injection Hhd as <-; set_solver).
  assert (Hfn : is_Some (nodes m !! f)).
  { destruct (prv_Some _ _ _ (seg_first_prv _ _ _ _ _ Hr Hhd)) as (n & Hn & _). by exists n. }
  destruct (ListHead_add_ok m h x f) as (N & Hrun & Hnx & Hpv); [done|done|done|set_solver|set_solver|].
  exists N. split; [done|]. split_and!.
  - split; [rewrite Hnx; by rewrite decide_True|]. split.
    { rewrite Hpv, decide_False, decide_True by set_solver. done. }
    destruct xs as [|y ys]; injection Hhd as <-.
    + split; [rewrite Hnx, decide_False, decide_True by set_solver; done|]. rewrite Hpv. by rewrite decide_True.
    + destruct Hr as (_ & _ & Hr). cbn [seg]. rewrite Hnx, decide_False, decide_True by set_solver.
      rewrite Hpv, decide_True by done. split_and!; [done..|]. apply NoDup_cons in Hd as [Hy _].
      eapply seg_frame; [| |exact Hr]; intros z Hz.
      * rewrite Hnx, !decide_False by set_solver. done.
      * rewrite Hpv, !decide_False by set_solver. done.
  - intros h' ys Hap. apply seg_frame; intros z Hz; assert (Hz' : z ∈ h' :: ys) by set_solver; apply Hap in Hz'.
    + rewrite Hnx, !decide_False by set_solver. done.
    + rewrite Hpv, !decide_False by set_solver. done.
  - intros p Hp. apply is_Some_nxt. rewrite Hnx. repeat case_decide; eauto. by apply is_Some_nxt in Hp.
Qed.

(** Two segments around [x] join when the links around [x] are redirected. *)
Lemma seg_join N0 N s xs1 x xs2 q p n :
  seg N0 s xs1 x -> seg N0 x xs2 q -> NoDup (s :: xs1 ++ xs2) -> q ∉ xs1 ++ xs2 -> x ∉ q :: s :: xs1 ++ xs2 ->
  last (s :: xs1) = Some p -> head (xs2 ++ [q]) = Some n ->
  (forall z, z <> x -> z <> p -> nxt N z = nxt N0 z) -> (forall z, z <> x -> z <> n -> prv N z = prv N0 z) ->
  nxt N p = Some n -> prv N n = Some p -> seg N s (xs1 ++ xs2) q.
Proof.
  intros H1 H2 Hd Hq Hx Hla Hhd Hnx Hpv Hj1 Hj2. revert s H1 Hd Hq Hx Hla.
  induction xs1 as [|a xs1 IH]; intros s H1 Hd Hq Hx Hla.
  - injection Hla as <-. destruct xs2 as [|y ys]; injection Hhd as <-; [done|]. destruct H2 as (_ & _ & H2).
    cbn [app] in *. apply NoDup_cons in Hd as [Hs [Hy _]%NoDup_cons]. split; [done|]. split; [done|].
    eapply seg_frame; [| |exact H2]; intros z Hz; [apply Hnx|apply Hpv]; set_solver.
  - destruct H1 as (H1 & H1' & H1s). cbn [app] in *. apply NoDup_cons in Hd as [Hs Hd].
    change (last (s :: a :: xs1)) with (last (a :: xs1)) in Hla.
    assert (Hp : p ∈ a :: xs1) by (by apply last_Some_elem_of).
    assert (Hn : n ∈ q :: xs2) by (destruct xs2; injection Hhd as <-; set_solver).
    pose proof Hd as [Ha _]%NoDup_cons.
    cbn [seg]. rewrite Hnx by set_solver. rewrite Hpv by set_solver. split_and!; [done..|].
    apply IH; [done|done|set_solver|set_solver|done].
Qed.

Lemma ring_unlink m h x xs1 xs2 :
  ring (nodes m) h (xs1 ++ x :: xs2) -> NoDup (h :: xs1 ++ x :: xs2) ->
  exists N, ListHead_del x m = Ret (tt, set_nodes m N) /\ ring N h (xs1 ++ xs2) /\
    (forall h' ys, apart_from h x (xs1 ++ xs2) h' ys -> ring (nodes m) h' ys -> ring N h' ys) /\
    (forall p, is_Some (nodes m !! p) -> is_Some (N !! p)) /\ N !! x = Some (mkNode Null Null).
Proof.
  intros Hr Hd. apply seg_app in Hr as [Hr1 Hr2].
  assert (Hx : (x ∉ h :: xs1 ++ xs2) /\ NoDup (h :: xs1 ++ xs2)).
  { rewrite app_comm_cons in Hd. rewrite <- Permutation_middle in Hd. by apply NoDup_cons in Hd. }
  destruct Hx as [Hx Hd']. pose proof (seg_first _ _ _ _ Hr2) as Hn. pose proof (seg_last _ _ _ _ Hr1) as Hp.
  destruct (head (xs2 ++ [h])) as [n|] eqn:Hhd; [|by destruct xs2].
  destruct (last (h :: xs1)) as [p|] eqn:Hla; [|by apply last_None in Hla].
  assert (Hpin : p ∈ h :: xs1) by (by apply last_Some_elem_of).
  assert (Hnin : n ∈ h :: xs2) by (destruct xs2; injection Hhd as <-; set_solver).
  pose proof (seg_last_nxt _ _ _ _ _ Hr1 Hla) as Hpn. pose proof (seg_first_prv _ _ _ _ _ Hr2 Hhd) as Hnp.
  destruct (nxt_Some _ _ _ Hpn) as (np & Hnodep & _). destruct (prv_Some _ _ _ Hnp) as (nn & Hnoden & _).
  destruct (ListHead_del_ok m x p n) as (N & Hrun & Hnx & Hpv); [done|done|by exists np|by exists nn|set_solver|set_solver|].
  exists N. split; [done|].
  assert (Hnxt : forall z, z <> x -> z <> p -> nxt N z = nxt (nodes m) z) by (intros; rewrite Hnx, !decide_False by done; done).
  assert (Hprv : forall z, z <> x -> z <> n -> prv N z = prv (nodes m) z) by (intros; rewrite Hpv, !decide_False by done; done).
  assert (Hj1 : nxt N p = Some n) by (rewrite Hnx, decide_False, decide_True by set_solver; done).
  assert (Hj2 : prv N n = Some p) by (rewrite Hpv, decide_False, decide_True by set_solver; done).
  split_and!.
  - pose proof Hd' as [Hh _]%NoDup_cons. eapply seg_join; [exact Hr1|exact Hr2|exact Hd'|done|set_solver|exact Hla|exact Hhd|done..].
  - intros h' ys Hap. apply seg_frame; intros z Hz; assert (Hz' : z ∈ h' :: ys) by set_solver; apply Hap in Hz'.
    + apply Hnxt; set_solver.
    + apply Hprv; set_solver.
  - intros q Hq. apply is_Some_nxt. rewrite Hnx. repeat case_decide; eauto. by apply is_Some_nxt in Hq.
  - specialize (Hnx x). specialize (Hpv x). rewrite decide_True in Hnx, Hpv by done. unfold nxt, prv in *.
    destruct (N !! x) as [[a b]|]; [|done]. simpl in *. by simplify_eq.
Qed.
