(* ===== verification/Zone.v ===== *)
(** * Memory zones: kernel/src/mm/phys/zone.rs

    The zones, their free lists and counters.  [add_to_buddy] and [remove_from_buddy] link
    a block into and out of the list of its order; the invariant [phys_ok] at the end ties
    lists, counters and page flags to one map of blocks, which the page caches and the
    buddy allocator share. *)

From S2P Require Import Prelude Page.

Definition PAGE_SIZE : Z := 4096.
(** [config::BUDDY_MAX_ORDER], [config::ZONE_DMA_LIMIT], [config::ZONE_DMA32_LIMIT] *)
Definition MAX_ORDER : Z := 11.
Definition NR_ZONES : Z := 3.
Definition ZONE_DMA_LIMIT : Z := 0x1000000.
Definition ZONE_DMA32_LIMIT : Z := 0x100000000.

Definition from_phys_addr (addr : Z) : ZoneType :=
  if addr <? ZONE_DMA_LIMIT then Dma else if addr <? ZONE_DMA32_LIMIT then Dma32 else Normal.

(** ** GfpFlags *)
Definition GFP_F_DMA : Z := 1.
Definition GFP_F_DMA32 : Z := 2.
Definition GFP_F_NORMAL : Z := 4.
Definition GFP_F_ZERO : Z := 256.
Definition GFP_F_KERNEL : Z := 1024.
Definition GFP_F_COMP : Z := 16384.
Definition gfp_test (gfp flag : Z) : bool := negb (Z.land gfp flag =? 0).

Definition gfp_to_zone_list (gfp : Z) : list ZoneType :=
  if gfp_test gfp GFP_F_DMA then [Dma]
  else if gfp_test gfp GFP_F_DMA32 then [Dma32; Dma]
  else [Normal; Dma32; Dma].

(** ** Arithmetic of orders *)
Definition pages_per_order (order : Z) : Z := shl64 1 order.
Definition bytes_per_order (order : Z) : Z := mul64 (shl64 1 order) PAGE_SIZE.
Definition get_buddy_pfn (pfn order : Z) : Z := Z.lxor pfn (shl64 1 order).

(** ** Zone *)
Definition get_zone (z : ZoneType) (m : Mem) : Zone :=
  match z with Dma => zone_dma m | Dma32 => zone_dma32 m | Normal => zone_normal m end.

Definition zone_uninit : Zone := mkZone 0 0 0 0 (replicate 11 0) 0 0 0 false.

(** The loop of [init] over the free areas. *)
Fixpoint init_areas (z : ZoneType) (orders : list Z) : Kern unit :=
  match orders with
  | [] => mret tt
  | o :: orders' => ListHead_init (FreeHead z o);; init_areas z orders'
  end.

Definition zone_init (z : ZoneType) (start page_count : Z) : Kern unit :=
  init_areas z (zrange 0 MAX_ORDER);;
  modify (set_zone z (mkZone start page_count page_count 0 (replicate 11 0)
    (page_count / 64) (page_count / 32) (page_count / 16) true)).

Definition with_free_pages (n : Z) (x : Zone) : Zone :=
  mkZone (start_pfn x) (spanned_pages x) (present_pages x) n (free_area x)
    (watermark_min x) (watermark_low x) (watermark_high x) (initialized x).
Definition with_free_area (l : list Z) (x : Zone) : Zone :=
  mkZone (start_pfn x) (spanned_pages x) (present_pages x) (free_pages x) l
    (watermark_min x) (watermark_low x) (watermark_high x) (initialized x).

Definition nr_free_pages (x : Zone) : Z := free_pages x.

Fixpoint recompute_loop (x : Zone) (orders : list Z) (recomputed : Z) : exec Z :=
  match orders with
  | [] => Ret recomputed
  | o :: orders' =>
      blocks ← vec_get (free_area x) o;
      let pages_per_block := shl64 1 o in
      let add := saturating_mul64 blocks pages_per_block in
      recompute_loop x orders' (saturating_add64 recomputed add)
  end.
Definition recompute_free_pages_locked (x : Zone) : exec Z := recompute_loop x (zrange 0 MAX_ORDER) 0.

Definition bump_snapshot (g : Guards) : Guards :=
  mkGuards (ref_underflow_rejects g) (mapcount_underflow_rejects g) (area_underflow_rejects g)
    (global_underflow_rejects g) (add64 (snapshot_mismatches g) 1) (scrub_repairs g) (invalid_free_rejects g)
    (quarantine_fallbacks g) (owner_mismatches g).
Definition bump_scrub (g : Guards) : Guards :=
  mkGuards (ref_underflow_rejects g) (mapcount_underflow_rejects g) (area_underflow_rejects g)
    (global_underflow_rejects g) (snapshot_mismatches g) (add64 (scrub_repairs g) 1) (invalid_free_rejects g)
    (quarantine_fallbacks g) (owner_mismatches g).
Definition bump_area_underflow (g : Guards) : Guards :=
  mkGuards (ref_underflow_rejects g) (mapcount_underflow_rejects g) (add64 (area_underflow_rejects g) 1)
    (global_underflow_rejects g) (snapshot_mismatches g) (scrub_repairs g) (invalid_free_rejects g)
    (quarantine_fallbacks g) (owner_mismatches g).
Definition bump_global_underflow (g : Guards) : Guards :=
  mkGuards (ref_underflow_rejects g) (mapcount_underflow_rejects g) (area_underflow_rejects g)
    (add64 (global_underflow_rejects g) 1) (snapshot_mismatches g) (scrub_repairs g) (invalid_free_rejects g)
    (quarantine_fallbacks g) (owner_mismatches g).

Definition free_pages_snapshot_locked (z : ZoneType) : Kern (Z * Z) :=
  x ← gets (get_zone z);
  recomputed ← lift (recompute_free_pages_locked x);
  when (negb (free_pages x =? recomputed)) (modify (set_guards bump_snapshot));;
  mret (free_pages x, recomputed).

Definition scrub_free_pages_locked (z : ZoneType) : Kern (Z * Z * bool) :=
  x ← gets (get_zone z);
  recomputed ← lift (recompute_free_pages_locked x);
  if negb (free_pages x =? recomputed) then
    modify (set_guards bump_scrub);;
    modify (set_zone z (with_free_pages recomputed x));;
    mret (free_pages x, recomputed, true)
  else mret (free_pages x, recomputed, false).

Definition end_pfn (x : Zone) : Z := add64 (start_pfn x) (spanned_pages x).
Definition contains_pfn (x : Zone) (pfn : Z) : bool := (start_pfn x <=? pfn) && (pfn <? end_pfn x).
Definition is_low_on_memory (x : Zone) : bool := nr_free_pages x <? watermark_min x.

Definition add_to_buddy (z : ZoneType) (page order : Z) : Kern unit :=
  mark_buddy page order;;
  x ← gets (get_zone z);
  n ← lift (vec_get (free_area x) order);
  ListHead_add (FreeHead z order) (Lru page);;
  l ← lift (vec_set (free_area x) order (add64 n 1));
  let pages := shl64 1 order in
  modify (set_zone z (with_free_pages (add64 (free_pages x) pages) (with_free_area l x))).

Definition remove_from_buddy (z : ZoneType) (page order : Z) : Kern bool :=
  let pages := shl64 1 order in
  x ← gets (get_zone z);
  n ← lift (vec_get (free_area x) order);
  if n =? 0 then
    modify (set_guards bump_area_underflow);; mret false
  else
    ListHead_del (Lru page);;
    l ← lift (vec_set (free_area x) order (sub64 n 1));
    modify (set_zone z (with_free_area l x));;
    clear_buddy page;;
    let free_before := free_pages x in
    if free_before <? pages then
      modify (set_guards bump_global_underflow);;
      modify (set_zone z (with_free_pages 0 (with_free_area l x)));;
      mret true
    else
      modify (set_zone z (with_free_pages (sub64 free_before pages) (with_free_area l x)));;
      mret true.

Definition pfn_to_zone (m : Mem) (pfn : Z) : option ZoneType :=
  let phys := mul64 pfn PAGE_SIZE in
  let zone_type := from_phys_addr phys in
  let zone := get_zone zone_type m in
  if initialized zone && contains_pfn zone pfn then Some zone_type else None.

(** ** The invariant of the physical page allocators

    Every page that an allocator manages belongs to exactly one block, named by its first
    page: free in a zone, cached by a CPU, or in use by a client. *)
Inductive kind := InBuddy | InPcp (cpu zone_idx : Z) | InUse.
Record Block := mkBlock { bkind : kind; border : Z }.
#[export] Instance kind_eq_dec : EqDecision kind.
Proof. solve_decision. Defined.
#[export] Instance Block_eq_dec : EqDecision Block.
Proof. solve_decision. Defined.

Definition in_zone (m : Mem) (z : ZoneType) (p n : Z) : Prop :=
  let x := get_zone z m in
  initialized x = true /\ start_pfn x <= p /\ p + n <= start_pfn x + spanned_pages x.

Record layout_ok (m : Mem) : Prop := {
  lo_vmemmap : vmemmap_ok m;
  lo_max : max_pfn m * PAGE_SIZE < u64_size;
  lo_zone z : 0 <= start_pfn (get_zone z m) /\ 0 <= spanned_pages (get_zone z m) /\
              start_pfn (get_zone z m) + spanned_pages (get_zone z m) <= max_pfn m;
  lo_type z p : in_zone m z p 1 -> from_phys_addr (p * PAGE_SIZE) = z;
  lo_cpus : 0 <= nr_cpus m < 4294967296
}.

Record blocks_ok (m : Mem) (B : gmap Z Block) : Prop := {
  bo_order p b : B !! p = Some b -> 0 <= border b < MAX_ORDER /\ (2 ^ border b | p);
  bo_zone p b : B !! p = Some b -> exists z, in_zone m z p (2 ^ border b);
  bo_disjoint p b q c : B !! p = Some b -> B !! q = Some c -> p <> q ->
    p + 2 ^ border b <= q \/ q + 2 ^ border c <= p;
  bo_pcp p c i o : B !! p = Some (mkBlock (InPcp c i) o) ->
    o = 0 /\ pcp_ready m = true /\ 0 <= c < nr_cpus m /\ exists z, in_zone m z p 1 /\ i = zone_index z
}.

Definition lru (m : Mem) (p : Z) : ListPtr := Lru (pfn_to_page m p).

(** Pages on the lists of a zone, from the list lengths. *)
Definition pages_on (f : Z -> list Z) (orders : list Z) : Z :=
  foldr (fun o acc => 2 ^ o * Z.of_nat (length (f o)) + acc) 0 orders.

(** The list on which a page that starts block [b] is linked. *)
Definition home (m : Mem) (h : ListPtr) (p : Z) (b : Block) : Prop :=
  match h with
  | FreeHead z o => b = mkBlock InBuddy o /\ in_zone m z p (2 ^ o)
  | PcpHead c i => b = mkBlock (InPcp c i) 0
  | _ => False
  end.

(** List heads that have been initialised. *)
Definition live (m : Mem) (h : ListPtr) : Prop :=
  match h with
  | FreeHead z o => initialized (get_zone z m) = true /\ 0 <= o < MAX_ORDER
  | PcpHead c i => pcp_ready m = true /\ 0 <= c < nr_cpus m /\ 0 <= i < NR_ZONES
  | _ => False
  end.

Record lists_ok (m : Mem) (B : gmap Z Block) (L : ListPtr -> list Z) : Prop := {
  li_mem h p : p ∈ L h <-> exists b, B !! p = Some b /\ home m h p b;
  li_nodup h : NoDup (L h);
  li_ring h : live m h -> ring (nodes m) h (map (lru m) (L h));
  li_area z : length (free_area (get_zone z m)) = 11%nat;
  li_nr_free z o : 0 <= o < MAX_ORDER ->
    free_area (get_zone z m) !! Z.to_nat o = Some (Z.of_nat (length (L (FreeHead z o))));
  li_free_pages z : free_pages (get_zone z m) = pages_on (fun o => L (FreeHead z o)) (zrange 0 MAX_ORDER);
  li_count c i : live m (PcpHead c i) ->
    exists q, pcps m !! (c, i) = Some q /\ count q = Z.of_nat (length (L (PcpHead c i))) /\ count q < 4294967296 /\
      high q = 64 /\ batch q = 16
}.

Definition page_ok (m : Mem) (B : gmap Z Block) (p : Z) (pg : Page) : Prop :=
  (is_buddy pg = true <-> exists o, B !! p = Some (mkBlock InBuddy o)) /\
  (forall o, B !! p = Some (mkBlock InBuddy o) -> order pg = o) /\
  (forall z, in_zone m z p 1 -> zone_id pg = zone_index z) /\
  (forall c i o, B !! p = Some (mkBlock (InPcp c i) o) -> owner pg = owner_raw Pcp).

Definition pages_ok (m : Mem) (B : gmap Z Block) : Prop :=
  forall p, 0 <= p < max_pfn m ->
    exists pg, pages m !! pfn_to_page m p = Some pg /\ is_Some (nodes m !! lru m p) /\ page_ok m B p pg.

Record phys_ok (m : Mem) (B : gmap Z Block) (L : ListPtr -> list Z) : Prop := {
  ok_layout : layout_ok m;
  ok_blocks : blocks_ok m B;
  ok_lists : lists_ok m B L;
  ok_pages : pages_ok m B
}.

(** The state of the allocators is consistent and its blocks are [B]. *)
Definition mem_ok (m : Mem) (B : gmap Z Block) : Prop := exists L, phys_ok m B L.

(** What no operation on blocks changes. *)
Record frame (m m' : Mem) : Prop := {
  fr_base : vmemmap_base m' = vmemmap_base m;
  fr_max : max_pfn m' = max_pfn m;
  fr_cpus : nr_cpus m' = nr_cpus m;
  fr_pcp : pcp_ready m' = pcp_ready m;
  fr_zone z : start_pfn (get_zone z m') = start_pfn (get_zone z m) /\
              spanned_pages (get_zone z m') = spanned_pages (get_zone z m) /\
              initialized (get_zone z m') = initialized (get_zone z m)
}.
#[export] Instance frame_refl : Reflexive frame.
Proof. by intros m. Qed.
#[export] Instance frame_trans : Transitive frame.
Proof.
  intros m1 m2 m3 [a1 a2 a3 a4 a5] [b1 b2 b3 b4 b5]. split; [congruence..|].
  intros z. destruct (a5 z) as (? & ? & ?), (b5 z) as (? & ? & ?). split_and!; congruence.
Qed.

Lemma frame_in_zone m m' z p n : frame m m' -> in_zone m' z p n <-> in_zone m z p n.
Proof. intros [_ _ _ _ Hz]. unfold in_zone. destruct (Hz z) as (-> & -> & ->). done. Qed.
Lemma frame_pfn_to_page m m' p : frame m m' -> pfn_to_page m' p = pfn_to_page m p.
Proof. intros [Hb _ _ _ _]. unfold pfn_to_page. by rewrite Hb. Qed.
Lemma frame_lru m m' p : frame m m' -> lru m' p = lru m p.
Proof. intros Hf. unfold lru. by rewrite (frame_pfn_to_page m m'). Qed.
Lemma frame_page_to_pfn m m' a : frame m m' -> page_to_pfn m' a = page_to_pfn m a.
Proof. intros [Hb Hm _ _ _]. unfold page_to_pfn. by rewrite Hb, Hm. Qed.
Lemma frame_contains m m' z p : frame m m' -> contains_pfn (get_zone z m') p = contains_pfn (get_zone z m) p.
Proof. intros [_ _ _ _ Hz]. unfold contains_pfn, end_pfn. by destruct (Hz z) as (-> & -> & _). Qed.

Lemma frame_layout m m' : frame m m' -> layout_ok m -> layout_ok m'.
Proof.
  intros Hf [Hv Hm Hz Ht Hc]. pose proof Hf as [Hb Hx Hn Hp Hzz]. split; unfold vmemmap_ok; rewrite ?Hb, ?Hx, ?Hn; try done.
  - intros z. destruct (Hzz z) as (-> & -> & _). apply Hz.
  - intros z p Hin. apply Ht. by apply (frame_in_zone m m').
Qed.

Lemma frame_blocks m m' B : frame m m' -> blocks_ok m B -> blocks_ok m' B.
Proof.
  intros Hf [Ho Hz Hd Hp]. split; [done| |done|].
  - intros p b Hb. destruct (Hz p b Hb) as [z Hin]. exists z. by apply (frame_in_zone m m').
  - intros p c i o Hb. destruct (Hp p c i o Hb) as (H1 & H2 & H3 & z & H4 & H5). rewrite (fr_pcp _ _ Hf), (fr_cpus _ _ Hf).
    split_and!; try done; try lia. exists z. split; [by apply (frame_in_zone m m')|done].
Qed.

Lemma frame_home m m' h p b : frame m m' -> home m' h p b <-> home m h p b.
Proof. intros Hf. destruct h; try done. cbn. by rewrite (frame_in_zone m m'). Qed.
Lemma frame_live m m' h : frame m m' -> live m' h <-> live m h.
Proof.
  intros Hf. destruct h as [|z o|c i|a]; try done; cbn.
  - by destruct (fr_zone _ _ Hf z) as (_ & _ & ->).
  - by rewrite (fr_pcp _ _ Hf), (fr_cpus _ _ Hf).
Qed.

Lemma in_zone_shrink m z p n q k : in_zone m z p n -> p <= q -> q + k <= p + n -> in_zone m z q k.
Proof. unfold in_zone. intros (? & ? & ?) ? ?. split_and!; [done|lia|lia]. Qed.

Lemma in_zone_unique m z z' p : layout_ok m -> in_zone m z p 1 -> in_zone m z' p 1 -> z = z'.
Proof. intros Hl H H'. rewrite <- (lo_type _ Hl _ _ H). by apply (lo_type _ Hl). Qed.

Lemma in_zone_bounds m z p n : layout_ok m -> in_zone m z p n -> 0 < n -> 0 <= p < max_pfn m /\ p + n <= max_pfn m.
Proof. intros Hl (_ & H1 & H2) Hn. destruct (lo_zone _ Hl z) as (? & ? & ?). lia. Qed.

Lemma contains_in_zone m z p :
  layout_ok m -> initialized (get_zone z m) = true -> contains_pfn (get_zone z m) p = true <-> in_zone m z p 1.
Proof.
  intros Hl Hi. destruct (lo_zone _ Hl z) as (? & ? & ?). pose proof (lo_max _ Hl). unfold PAGE_SIZE in *.
  unfold contains_pfn, end_pfn, in_zone. rewrite add64_small by lia. rewrite andb_true_iff, Z.leb_le, Z.ltb_lt.
  split; intros; split_and!; try done; lia.
Qed.

Lemma pow2_pos o : 0 <= o -> 0 < 2 ^ o.
Proof. apply Z.pow_pos_nonneg. lia. Qed.

Lemma pages_per_order_eq o : 0 <= o < MAX_ORDER -> pages_per_order o = 2 ^ o /\ 0 < 2 ^ o <= 1024.
Proof.
  unfold MAX_ORDER. intros. unfold pages_per_order. rewrite shl64_1 by lia. split; [done|]. split; [apply pow2_pos; lia|].
  change 1024 with (2 ^ 10). apply Z.pow_le_mono_r; lia.
Qed.

Lemma block_bounds m B p b :
  layout_ok m -> blocks_ok m B -> B !! p = Some b -> 0 <= p < max_pfn m /\ p + 2 ^ border b <= max_pfn m.
Proof.
  intros Hl Hb H. destruct (bo_zone _ _ Hb _ _ H) as [z Hz]. eapply in_zone_bounds; [done|exact Hz|].
  apply pow2_pos. apply (bo_order _ _ Hb _ _ H).
Qed.

Lemma block_in_zone m B z p b :
  layout_ok m -> blocks_ok m B -> B !! p = Some b -> in_zone m z p 1 -> in_zone m z p (2 ^ border b).
Proof.
  intros Hl Hb H Hz. destruct (bo_zone _ _ Hb _ _ H) as [z' Hz'].
  pose proof (pow2_pos (border b) ltac:(apply (bo_order _ _ Hb _ _ H))).
  by rewrite (in_zone_unique m z z' p Hl Hz) by (eapply in_zone_shrink; [exact Hz'|lia|lia]).
Qed.

Lemma pfn_to_zone_ok m z p : layout_ok m -> in_zone m z p 1 -> pfn_to_zone m p = Some z.
Proof.
  intros Hl Hz. pose proof (lo_type _ Hl _ _ Hz) as Ht. destruct (in_zone_bounds _ _ _ _ Hl Hz ltac:(lia)) as [Hb _].
  pose proof (lo_max _ Hl). unfold pfn_to_zone. rewrite mul64_small by (unfold PAGE_SIZE in *; lia). rewrite Ht.
  rewrite (proj2 (contains_in_zone m z p Hl (proj1 Hz)) Hz). by rewrite (proj1 Hz).
Qed.

Lemma home_unique m h h' p b : layout_ok m -> 0 <= border b -> home m h p b -> home m h' p b -> h = h'.
Proof.
  intros Hl Ho. pose proof (pow2_pos _ Ho). destruct h, h'; cbn; try done.
  - intros [-> H1] [[= <-] H2]. cbn in *. f_equal. apply (in_zone_unique m _ _ p Hl); eapply in_zone_shrink; eauto; lia.
  - intros [-> _] [=].
  - intros -> [[=] _].
  - intros -> [= <- <-]. done.
Qed.

Lemma lru_inj m p q : layout_ok m -> 0 <= p < max_pfn m -> 0 <= q < max_pfn m -> lru m p = lru m q -> p = q.
Proof. intros Hl Hp Hq [= H]. by apply (pfn_to_page_inj m); [apply (lo_vmemmap _ Hl)|..]. Qed.

(** ** Linking and unlinking *)
Section Links.
Context (m : Mem) (B : gmap Z Block) (L : ListPtr -> list Z) (Hok : phys_ok m B L).

Lemma listed_block h p : p ∈ L h -> exists b, B !! p = Some b /\ home m h p b /\ 0 <= p < max_pfn m.
Proof.
  intros Hp. apply (li_mem _ _ _ (ok_lists _ _ _ Hok)) in Hp as (b & Hb & Hh). exists b. split_and!; [done..| |].
  all: eapply (block_bounds m B p b); [apply Hok|apply Hok|done].
Qed.

Lemma listed_once h h' p : p ∈ L h -> p ∈ L h' -> h = h'.
Proof.
  intros (b & Hb & Hh & _)%listed_block (b' & Hb' & Hh' & _)%listed_block. rewrite Hb in Hb'. injection Hb' as <-.
  eapply home_unique; [apply Hok| |exact Hh|exact Hh']. apply (bo_order _ _ (ok_blocks _ _ _ Hok) _ _ Hb).
Qed.

Lemma lru_elem l p : 0 <= p < max_pfn m -> (forall q, q ∈ l -> 0 <= q < max_pfn m) -> lru m p ∈ map (lru m) l -> p ∈ l.
Proof.
  intros Hp Hl Hin. apply list_elem_of_In, in_map_iff in Hin as (q & Heq & Hq). apply list_elem_of_In in Hq.
  apply (lru_inj m) in Heq; [by subst|apply Hok|by apply Hl|done].
Qed.

Lemma lru_nodup l : NoDup l -> (forall q, q ∈ l -> 0 <= q < max_pfn m) -> NoDup (map (lru m) l).
Proof.
  induction 1 as [|p l Hp Hd IH]; intros Hl; cbn; [constructor|]. constructor; [|apply IH; set_solver].
  intros Hin. apply Hp. apply lru_elem; [apply Hl; set_solver|set_solver|done].
Qed.

Lemma head_not_lru h l : live m h -> h ∉ map (lru m) l.
Proof. intros Hh Hin. apply list_elem_of_In, in_map_iff in Hin as (q & <- & _). done. Qed.

Lemma ring_nodup h : live m h -> NoDup (h :: map (lru m) (L h)).
Proof.
  intros Hh. constructor; [by apply head_not_lru|]. apply lru_nodup; [apply (li_nodup _ _ _ (ok_lists _ _ _ Hok))|].
  intros q (b & _ & _ & Hq)%listed_block. done.
Qed.

(** Two different lists share no node, and a page that is not on a list is not a node of it. *)
Lemma rings_apart h h' p l :
  live m h -> live m h' -> h <> h' -> 0 <= p < max_pfn m -> p ∉ L h' -> (forall q, q ∈ l -> q ∈ L h) ->
  apart_from h (lru m p) (map (lru m) l) h' (map (lru m) (L h')).
Proof.
  intros Hh Hh' Hne Hp Hpn Hl y [->|Hy]%elem_of_cons.
  - split_and!; [done|by destruct h'|by apply head_not_lru].
  - split_and!.
    + intros ->. by apply head_not_lru in Hy.
    + intros ->. apply Hpn. apply lru_elem; [done| |done]. intros q (b & _ & _ & Hq)%listed_block. done.
    + intros Hin. apply list_elem_of_In, in_map_iff in Hin as (q & <- & Hq). apply list_elem_of_In, Hl in Hq.
      apply Hne. eapply listed_once; [exact Hq|]. pose proof Hq as (_ & _ & _ & Hb)%listed_block.
      apply lru_elem; [done| |done]. intros q' (b' & _ & _ & Hq')%listed_block. done.
Qed.

Definition pushed (h : ListPtr) (p : Z) : ListPtr -> list Z := fun h' => if decide (h' = h) then p :: L h else L h'.
Definition unlinked (h : ListPtr) (p : Z) : ListPtr -> list Z :=
  fun h' => if decide (h' = h) then filter (fun q => q <> p) (L h) else L h'.

Lemma link_ok h p m1 :
  nodes m1 = nodes m ->
  live m h -> 0 <= p < max_pfn m -> (forall h', p ∉ L h') ->
  exists N, ListHead_add h (lru m p) m1 = Ret (tt, set_nodes m1 N) /\
    (forall h', live m h' -> ring N h' (map (lru m) (pushed h p h'))) /\
    (forall x, is_Some (nodes m !! x) -> is_Some (N !! x)).
Proof.
  intros Hm1 Hh Hp Hno. destruct (ok_pages _ _ _ Hok p Hp) as (pg & _ & Hn & _).
  rewrite <- Hm1 in Hn. destruct (ring_push m1 h (lru m p) (map (lru m) (L h))) as (N & Hrun & Hr & Hother & Hdom).
  - rewrite Hm1. by apply (li_ring _ _ _ (ok_lists _ _ _ Hok)).
  - by apply ring_nodup.
  - intros [Heq|Hin]%elem_of_cons; [by subst; destruct Hh|]. apply (Hno h). apply lru_elem; [done| |done].
    intros q (b & _ & _ & Hq)%listed_block. done.
  - done.
  - rewrite Hm1 in *. exists N. split_and!; [done| |done]. intros h' Hh'. unfold pushed. case_decide as Heq; [by subst|].
    apply Hother; [by apply rings_apart|]. by apply (li_ring _ _ _ (ok_lists _ _ _ Hok)).
Qed.

Lemma filter_ne_id (l : list Z) p : p ∉ l -> filter (fun q => q <> p) l = l.
Proof.
  induction l as [|x l IH]; intros Hp; [done|]. rewrite filter_cons_True by set_solver. rewrite IH by set_solver. done.
Qed.

Lemma filter_split (l1 l2 : list Z) p :
  NoDup (l1 ++ p :: l2) -> filter (fun q => q <> p) (l1 ++ p :: l2) = l1 ++ l2.
Proof.
  intros (H1 & H2 & [H3 _]%NoDup_cons)%NoDup_app. rewrite filter_app, filter_cons_False by naive_solver.
  rewrite !filter_ne_id; [done|done|]. intros Hin. apply (H2 p Hin). set_solver.
Qed.

Lemma unlink_ok h p m1 :
  nodes m1 = nodes m ->
  live m h -> p ∈ L h ->
  exists N, ListHead_del (lru m p) m1 = Ret (tt, set_nodes m1 N) /\
    (forall h', live m h' -> ring N h' (map (lru m) (unlinked h p h'))) /\
    (forall x, is_Some (nodes m !! x) -> is_Some (N !! x)) /\ N !! lru m p = Some (mkNode Null Null).
Proof.
  intros Hm1 Hh Hp. pose proof (li_nodup _ _ _ (ok_lists _ _ _ Hok) h) as Hd. pose proof (ring_nodup h Hh) as Hrd.
  pose proof (li_ring _ _ _ (ok_lists _ _ _ Hok) h Hh) as Hr. pose proof Hp as (b & _ & _ & Hpb)%listed_block.
  pose proof Hp as (l1 & l2 & Hsplit)%list_elem_of_split. rewrite Hsplit, map_app in Hr, Hrd. cbn [map] in Hr, Hrd.
  rewrite <- Hm1 in Hr. destruct (ring_unlink m1 h (lru m p) _ _ Hr Hrd) as (N & Hrun & Hnew & Hother & Hdom & Hnull).
  rewrite Hm1 in *. exists N. split_and!; [done| |done|done]. intros h' Hh'. unfold unlinked. case_decide as Heq.
  - subst. rewrite Hsplit in *. rewrite filter_split by done. by rewrite map_app.
  - apply Hother; [|by apply (li_ring _ _ _ (ok_lists _ _ _ Hok))]. rewrite <- map_app. apply rings_apart; try done.
    + intros Hin. apply Heq. by eapply listed_once.
    + intros q Hq. rewrite Hsplit. set_solver.
Qed.

Lemma in_use_unlisted p o : B !! p = Some (mkBlock InUse o) -> forall h, p ∉ L h.
Proof.
  intros Hb h Hin. apply listed_block in Hin as (b & Hb' & Hh & _). rewrite Hb in Hb'. injection Hb' as <-.
  destruct h; cbn in Hh; naive_solver.
Qed.

(** Membership after a page changes its block. *)
Lemma pushed_mem h p b b' :
  0 <= border b' -> (forall h', p ∉ L h') -> home m h p b' -> B !! p = Some b ->
  forall h' q, q ∈ pushed h p h' <-> exists c, <[p := b']> B !! q = Some c /\ home m h' q c.
Proof.
  intros Ho Hno Hh Hb h' q. pose proof (li_mem _ _ _ (ok_lists _ _ _ Hok) h' q) as Hm. unfold pushed.
  destruct (decide (q = p)) as [->|Hne].
  - rewrite lookup_insert_eq. case_decide as Heq.
    + subst. split; [|set_solver]. eauto.
    + split; [intros Hin; by apply Hno in Hin|]. intros (c & [= <-] & Hc). destruct Heq. eapply home_unique; eauto. apply Hok.
  - rewrite lookup_insert_ne by done. rewrite <- Hm. case_decide; [subst; set_solver|done].
Qed.

Lemma unlinked_mem h p b' :
  p ∈ L h -> (forall h', ~ home m h' p b') ->
  forall h' q, q ∈ unlinked h p h' <-> exists c, <[p := b']> B !! q = Some c /\ home m h' q c.
Proof.
  intros Hp Hno h' q. pose proof (li_mem _ _ _ (ok_lists _ _ _ Hok) h' q) as Hm. unfold unlinked.
  destruct (decide (q = p)) as [->|Hne].
  - rewrite lookup_insert_eq. split.
    + case_decide as Heq; [intros [? _]%list_elem_of_filter; done|]. intros Hin. destruct Heq. by eapply listed_once.
    + intros (c & [= <-] & Hc). by apply Hno in Hc.
  - rewrite lookup_insert_ne by done. rewrite <- Hm. case_decide; [subst; rewrite list_elem_of_filter; tauto|done].
Qed.

Lemma pushed_nodup h p : (forall h', p ∉ L h') -> forall h', NoDup (pushed h p h').
Proof.
  intros Hno h'. unfold pushed. case_decide; [constructor; [done|]|]; apply (li_nodup _ _ _ (ok_lists _ _ _ Hok)).
Qed.
Lemma unlinked_nodup h p : forall h', NoDup (unlinked h p h').
Proof.
  intros h'. unfold unlinked. pose proof (li_nodup _ _ _ (ok_lists _ _ _ Hok)) as Hd. case_decide; [by apply NoDup_filter|done].
Qed.
Lemma unlinked_length h p : p ∈ L h -> length (L h) = S (length (unlinked h p h)).
Proof.
  intros Hp. unfold unlinked. rewrite decide_True by done. pose proof (li_nodup _ _ _ (ok_lists _ _ _ Hok) h) as Hd.
  apply list_elem_of_split in Hp as (l1 & l2 & Heq). rewrite Heq in *. rewrite filter_split by done. len_lia.
Qed.
End Links.

(** ** Counting free pages *)
Lemma pages_on_update f f' o orders :
  NoDup orders -> o ∈ orders -> (forall o', o' <> o -> length (f' o') = length (f o')) ->
  pages_on f' orders = pages_on f orders + 2 ^ o * (Z.of_nat (length (f' o)) - Z.of_nat (length (f o))).
Proof.
  intros Hd Hin Hsame. assert (Hout : forall os, o ∉ os -> pages_on f' os = pages_on f os).
  { intros os. induction os as [|x os IH]; intros Hx; [done|]. unfold pages_on in *. cbn [foldr].
    rewrite IH, Hsame by set_solver. done. }
  induction Hd as [|x os Hx Hd IH]; [by apply elem_of_nil in Hin|]. unfold pages_on in *. cbn [foldr].
  apply elem_of_cons in Hin as [->|Hin]; [rewrite Hout by done; lia|]. rewrite IH by done.
  rewrite Hsame by (intros ->; done). lia.
Qed.

Lemma orders_eq : zrange 0 MAX_ORDER = [0; 1; 2; 3; 4; 5; 6; 7; 8; 9; 10].
Proof. reflexivity. Qed.

Lemma pages_on_bounds f n :
  (forall o, Z.of_nat (length (f o)) <= n) -> 0 <= pages_on f (zrange 0 MAX_ORDER) <= 2047 * n.
Proof.
  intros H. rewrite orders_eq. unfold pages_on. cbn [foldr].
  pose proof (H 0). pose proof (H 1). pose proof (H 2). pose proof (H 3). pose proof (H 4). pose proof (H 5).
  pose proof (H 6). pose proof (H 7). pose proof (H 8). pose proof (H 9). pose proof (H 10). lia.
Qed.

Lemma pages_on_ge f o : 0 <= o < MAX_ORDER -> 2 ^ o * Z.of_nat (length (f o)) <= pages_on f (zrange 0 MAX_ORDER).
Proof.
  intros Ho. assert (Hin : o ∈ zrange 0 MAX_ORDER) by (by apply elem_of_zrange). revert Hin. generalize (zrange 0 MAX_ORDER) as os.
  assert (Hpos : forall os, 0 <= pages_on f os).
  { induction os as [|x os IH]; [done|]. unfold pages_on in *. cbn [foldr]. pose proof (Z.pow_nonneg 2 x). lia. }
  induction os as [|x os IH]; intros Hin; [by apply elem_of_nil in Hin|]. unfold pages_on in *. cbn [foldr].
  specialize (Hpos os). apply elem_of_cons in Hin as [->|Hin]; [lia|]. specialize (IH Hin). pose proof (Z.pow_nonneg 2 x). lia.
Qed.

Lemma nodup_length (l : list Z) n : NoDup l -> (forall q, q ∈ l -> 0 <= q < n) -> Z.of_nat (length l) <= Z.max 0 n.
Proof.
  intros Hd Hl. assert (Hs : l ⊆+ zrange 0 n) by (apply NoDup_submseteq; [done|]; intros q Hq; apply elem_of_zrange; by apply Hl).
  apply submseteq_length in Hs. rewrite length_zrange in Hs. lia.
Qed.

Lemma list_length m B L h : phys_ok m B L -> Z.of_nat (length (L h)) <= max_pfn m.
Proof.
  intros Hok. pose proof (lo_vmemmap _ (ok_layout _ _ _ Hok)) as (_ & Hmx & _).
  pose proof (nodup_length (L h) (max_pfn m) (li_nodup _ _ _ (ok_lists _ _ _ Hok) h)) as Hn.
  rewrite Z.max_r in Hn by lia. apply Hn. intros q (b & _ & _ & Hq)%(listed_block _ _ _ Hok). done.
Qed.

(** ** Changing the kind of one block *)
Lemma blocks_retype m B p b k :
  blocks_ok m B -> B !! p = Some b ->
  (forall c i, k = InPcp c i -> border b = 0 /\ pcp_ready m = true /\ 0 <= c < nr_cpus m /\
     exists z, in_zone m z p 1 /\ i = zone_index z) ->
  blocks_ok m (<[p := mkBlock k (border b)]> B).
Proof.
  intros [Ho Hz Hd Hp] Hb Hk.
  assert (Hsame : forall q c, <[p := mkBlock k (border b)]> B !! q = Some c -> exists c', B !! q = Some c' /\ border c' = border c).
  { intros q c. destruct (decide (q = p)) as [->|]; [rewrite lookup_insert_eq; intros [= <-]; eauto|].
    rewrite lookup_insert_ne by done. eauto. }
  split.
  - intros q c (c' & Hc & <-)%Hsame. by apply Ho.
  - intros q c (c' & Hc & <-)%Hsame. by apply Hz.
  - intros q c r d (c' & Hc & <-)%Hsame (d' & Hd' & <-)%Hsame. by apply Hd.
  - intros q c i o. destruct (decide (q = p)) as [->|]; [|rewrite lookup_insert_ne by done; apply Hp].
    rewrite lookup_insert_eq. intros [= -> <-]. by apply (Hk c i).
Qed.

Lemma pages_retype m m' B p b' pg' :
  pages_ok m B -> frame m m' -> layout_ok m -> 0 <= p < max_pfn m ->
  pages m' = <[pfn_to_page m p := pg']> (pages m) -> (forall x, is_Some (nodes m !! x) -> is_Some (nodes m' !! x)) ->
  page_ok m (<[p := b']> B) p pg' -> pages_ok m' (<[p := b']> B).
Proof.
  intros Hpg Hf Hl Hp Hm' Hn Hpok q Hq. rewrite (fr_max _ _ Hf) in Hq. destruct (Hpg q Hq) as (pg & H1 & H2 & H3).
  rewrite (frame_pfn_to_page m m'), (frame_lru m m') by done.
  assert (Htr : forall B' pg, page_ok m B' q pg -> page_ok m' B' q pg).
  { intros B' pg0 (a1 & a2 & a3 & a4). split_and!; try done. intros z Hz. apply a3. by apply (frame_in_zone m m'). }
  destruct (decide (q = p)) as [->|Hne].
  - exists pg'. rewrite Hm', lookup_insert_eq. split_and!; [done|by apply Hn|by apply Htr].
  - exists pg. rewrite Hm', lookup_insert_ne.
    2: { intros Heq. apply Hne. symmetry. by apply (pfn_to_page_inj m); [apply (lo_vmemmap _ Hl)|..]. }
    split_and!; [done|by apply Hn|]. apply Htr. unfold page_ok. by rewrite lookup_insert_ne.
Qed.

(** An operation changes the descriptors of the pages in [S] only, and neither memory nor
    the counters of the caches. *)
Record only (S : Z -> Prop) (m m' : Mem) : Prop := {
  on_frame : frame m m';
  on_phys : phys m' = phys m;
  on_guards : guards m' = guards m;
  on_pages q : 0 <= q < max_pfn m -> ~ S q -> pages m' !! pfn_to_page m q = pages m !! pfn_to_page m q
}.

Lemma only_refl S m : only S m m.
Proof. by split. Qed.
Lemma only_trans S m1 m2 m3 : only S m1 m2 -> only S m2 m3 -> only S m1 m3.
Proof.
  intros [f1 p1 g1 q1] [f2 p2 g2 q2]. split; [by transitivity m2|congruence|congruence|].
  intros q Hq Hn. rewrite <- q1 by done. rewrite <- (frame_pfn_to_page m1 m2 q) by done.
  apply q2; [by rewrite (fr_max _ _ f1)|done].
Qed.
Lemma only_mono S S' m m' : (forall q, S q -> S' q) -> only S m m' -> only S' m m'.
Proof. intros HS [f p g q]. split; try done. intros r Hr Hn. apply q; auto. Qed.

Lemma only_page m m' p pg' :
  layout_ok m -> 0 <= p < max_pfn m -> frame m m' -> phys m' = phys m -> guards m' = guards m ->
  pages m' = <[pfn_to_page m p := pg']> (pages m) -> only (eq p) m m'.
Proof.
  intros Hl Hp Hf Hph Hg Hm'. split; try done. intros q Hq Hn. rewrite Hm', lookup_insert_ne; [done|].
  intros Heq. apply Hn. by apply (pfn_to_page_inj m); [apply (lo_vmemmap _ Hl)|..].
Qed.

Lemma get_set_zone z z' x m : get_zone z (set_zone z' x m) = if decide (z = z') then x else get_zone z m.
Proof. by destruct z, z'. Qed.

Lemma mark_buddy_ok a o pg m :
  pages m !! a = Some pg -> 0 <= o < MAX_ORDER ->
  mark_buddy a o m = Ret (tt, set_pages m (<[a := with_owner 1 (with_order o (set_flag_pure BUDDY pg))]> (pages m))).
Proof.
  intros Ha Ho. unfold mark_buddy, set_flag, set_order, set_owner. rewrite (kbind_ret _ _ _ _ _ (update_page_ok _ _ _ _ Ha)).
  set (m1 := set_pages m _). assert (H1 : pages m1 !! a = Some (set_flag_pure BUDDY pg)) by (cbn; by rewrite lookup_insert_eq).
  rewrite (kbind_ret _ _ _ _ _ (update_page_ok _ _ _ _ H1)). set (m2 := set_pages m1 _).
  assert (H2 : pages m2 !! a = Some (with_order (o mod 256) (set_flag_pure BUDDY pg))) by (cbn; by rewrite lookup_insert_eq).
  rewrite (update_page_ok _ _ _ _ H2). cbn [m2 m1 set_pages pages]. rewrite !insert_insert_eq.
  rewrite Z.mod_small by (unfold MAX_ORDER in *; lia). done.
Qed.

Lemma lift_ok {A} (x : exec A) a m : x = Ret a -> lift x m = Ret (a, m).
Proof. by intros ->. Qed.

Lemma area_ok m B L z o :
  phys_ok m B L -> 0 <= o < MAX_ORDER ->
  vec_get (free_area (get_zone z m)) o = Ret (Z.of_nat (length (L (FreeHead z o)))) /\
  forall n, vec_set (free_area (get_zone z m)) o n = Ret (<[Z.to_nat o := n]> (free_area (get_zone z m))).
Proof.
  intros Hok Ho. pose proof (li_area _ _ _ (ok_lists _ _ _ Hok) z). unfold MAX_ORDER in *. split.
  - apply vec_get_Some; [lia|]. by apply (li_nr_free _ _ _ (ok_lists _ _ _ Hok)).
  - intros n. apply vec_set_in_bounds. lia.
Qed.

(** The lists after one free list of a zone changed together with its counters. *)
Lemma lists_relist m m' B B' L L' z o :
  phys_ok m B L -> frame m m' -> 0 <= o < MAX_ORDER ->
  (forall h', live m h' -> ring (nodes m') h' (map (lru m) (L' h'))) ->
  (forall h' q, q ∈ L' h' <-> exists c, B' !! q = Some c /\ home m h' q c) -> (forall h', NoDup (L' h')) ->
  (forall h', h' <> FreeHead z o -> L' h' = L h') -> pcps m' = pcps m ->
  (forall z', get_zone z' m' =
     if decide (z' = z) then
       with_free_pages (free_pages (get_zone z m) + 2 ^ o * (Z.of_nat (length (L' (FreeHead z o))) - Z.of_nat (length (L (FreeHead z o)))))
         (with_free_area (<[Z.to_nat o := Z.of_nat (length (L' (FreeHead z o)))]> (free_area (get_zone z m))) (get_zone z m))
     else get_zone z' m) ->
  lists_ok m' B' L'.
Proof.
  intros Hok Hf Ho Hring Hmem Hnd Hsame Hpc Hz. pose proof (ok_lists _ _ _ Hok) as [_ _ _ Har Hnr Hfp Hct].
  split.
  - intros h p. rewrite Hmem. by setoid_rewrite (frame_home m m' _ _ _ Hf).
  - done.
  - intros h Hh. apply (frame_live m m') in Hh; [|done]. pose proof (Hring h Hh) as Hr.
    erewrite map_ext; [exact Hr|]. intros q. by apply frame_lru.
  - intros z'. rewrite Hz. case_decide; [|done]. cbn. by rewrite length_insert.
  - intros z' o' Ho'. rewrite Hz. case_decide as Hd.
    + subst z'. cbn. destruct (decide (o' = o)) as [->|Hne].
      * rewrite list_lookup_insert_eq; [done|]. rewrite Har. unfold MAX_ORDER in *. lia.
      * rewrite list_lookup_insert_ne by lia. rewrite (Hsame (FreeHead z o')) by congruence. by apply Hnr.
    + rewrite (Hsame (FreeHead z' o')) by congruence. by apply Hnr.
  - intros z'. rewrite Hz. case_decide as Hd.
    + subst z'. cbn. rewrite Hfp. symmetry. apply (pages_on_update (fun o' => L (FreeHead z o')) (fun o' => L' (FreeHead z o'))).
      * rewrite orders_eq. repeat constructor; set_solver.
      * by apply elem_of_zrange.
      * intros o' Hne. by rewrite Hsame by congruence.
    + rewrite Hfp. unfold pages_on. assert (forall o', L' (FreeHead z' o') = L (FreeHead z' o')) as Heq.
      { intros o'. apply Hsame. congruence. }
      generalize (zrange 0 MAX_ORDER). intros os. induction os as [|x os IH]; [done|]. cbn [foldr]. by rewrite Heq, IH.
  - intros c i Hlive. rewrite Hpc, (Hsame (PcpHead c i)) by done. apply Hct. by apply (frame_live m m').
Qed.

Lemma free_pages_bounds m B L z : phys_ok m B L -> 0 <= free_pages (get_zone z m) < 2 ^ 63.
Proof.
  intros Hok. rewrite (li_free_pages _ _ _ (ok_lists _ _ _ Hok)).
  pose proof (pages_on_bounds (fun o => L (FreeHead z o)) (max_pfn m) (fun o => list_length _ _ _ (FreeHead z o) Hok)).
  pose proof (lo_max _ (ok_layout _ _ _ Hok)). unfold PAGE_SIZE in *. lia.
Qed.

Lemma add_to_buddy_ok m B z p o :
  mem_ok m B -> B !! p = Some (mkBlock InUse o) -> in_zone m z p 1 ->
  exists m', add_to_buddy z (pfn_to_page m p) o m = Ret (tt, m') /\
    mem_ok m' (<[p := mkBlock InBuddy o]> B) /\ only (eq p) m m' /\ pcps m' = pcps m.
Proof.
  intros [L Hok] Hb Hz. pose proof (ok_layout _ _ _ Hok) as Hl. pose proof (ok_blocks _ _ _ Hok) as Hbl.
  destruct (bo_order _ _ Hbl _ _ Hb) as [Ho _]. cbn in Ho. destruct (block_bounds _ _ _ _ Hl Hbl Hb) as [Hp _].
  pose proof (block_in_zone _ _ _ _ _ Hl Hbl Hb Hz) as Hzo. cbn in Hzo.
  destruct (ok_pages _ _ _ Hok p Hp) as (pg & Hpg & Hnode & Hpok). pose proof (in_use_unlisted _ _ _ Hok _ _ Hb) as Hno.
  unfold add_to_buddy. rewrite (kbind_ret _ _ _ _ _ (mark_buddy_ok _ _ _ _ Hpg Ho)). set (m1 := set_pages m _).
  rewrite (kbind_ret (gets _) _ m1 (get_zone z m) m1) by (by destruct z). destruct (area_ok m B L z o Hok Ho) as [Hget Hset].
  rewrite (kbind_ret _ _ _ _ _ (lift_ok _ _ m1 Hget)).
  destruct (link_ok m B L Hok (FreeHead z o) p m1) as (N & Hlink & Hring & Hdom); [done|split; [apply Hz|done]|done|done|].
  unfold lru in Hlink at 1. rewrite (kbind_ret _ _ _ _ _ Hlink). rewrite (kbind_ret _ _ _ _ _ (lift_ok _ _ _ (Hset _))).
  unfold modify. eexists. split; [reflexivity|]. set (m' := set_zone _ _ _).
  assert (Hf : frame m m') by (split; try done; intros z'; destruct z, z'; done).
  pose proof (free_pages_bounds m B L z Hok). pose proof (pages_per_order_eq o Ho) as [Hpo Hpb]. unfold pages_per_order in Hpo.
  pose proof (list_length m B L (FreeHead z o) Hok). pose proof (lo_max _ Hl). unfold PAGE_SIZE in *.
  split; [|split; [by eapply only_page|done]]. exists (pushed L (FreeHead z o) p). split.
  - by apply (frame_layout m m').
  - apply (frame_blocks m m'); [done|]. by apply (blocks_retype m B p (mkBlock InUse o) InBuddy).
  - assert (Hsing : pushed L (FreeHead z o) p (FreeHead z o) = p :: L (FreeHead z o)) by (unfold pushed; by rewrite decide_True).
    apply (lists_relist m m' B _ L _ z o Hok Hf Ho); [done| |by apply (pushed_nodup m B L)| |done|].
    + apply (pushed_mem m B L Hok (FreeHead z o) p (mkBlock InUse o)); try done. cbn. lia.
    + intros h' Hne. unfold pushed. by rewrite decide_False.
    + intros z'. unfold m'. rewrite get_set_zone. case_decide; [|by destruct z']. rewrite Hsing. cbn [length].
      rewrite Hpo, !add64_small by lia. f_equal; [lia|]. f_equal. f_equal. lia.
  - apply (pages_retype m m' B p _ _ (ok_pages _ _ _ Hok) Hf Hl Hp eq_refl); [done|].
    destruct Hpok as (_ & _ & Hzid & _). split_and!.
    + unfold is_buddy, test_flag. cbn [with_owner with_order flags]. fold (test_flag (set_flag_pure BUDDY pg) BUDDY).
      fold (is_buddy (set_flag_pure BUDDY pg)). rewrite is_buddy_set_flag, orb_true_r. split; [|done].
      intros _. exists o. by rewrite lookup_insert_eq.
    + intros o'. rewrite lookup_insert_eq. by intros [= <-].
    + done.
    + intros c i o'. rewrite lookup_insert_eq. by intros [=].
Qed.

Lemma remove_from_buddy_ok m B z p o :
  mem_ok m B -> B !! p = Some (mkBlock InBuddy o) -> in_zone m z p 1 ->
  exists m', remove_from_buddy z (pfn_to_page m p) o m = Ret (true, m') /\
    mem_ok m' (<[p := mkBlock InUse o]> B) /\ only (eq p) m m' /\ pcps m' = pcps m.
Proof.
  intros [L Hok] Hb Hz. pose proof (ok_layout _ _ _ Hok) as Hl. pose proof (ok_blocks _ _ _ Hok) as Hbl.
  destruct (bo_order _ _ Hbl _ _ Hb) as [Ho _]. cbn in Ho. destruct (block_bounds _ _ _ _ Hl Hbl Hb) as [Hp _].
  pose proof (block_in_zone _ _ _ _ _ Hl Hbl Hb Hz) as Hzo. cbn in Hzo.
  destruct (ok_pages _ _ _ Hok p Hp) as (pg & Hpg & Hnode & Hpok).
  assert (Hin : p ∈ L (FreeHead z o)) by (apply (li_mem _ _ _ (ok_lists _ _ _ Hok)); by eexists).
  pose proof (unlinked_length m B L Hok _ _ Hin) as Hlen. set (L' := unlinked L (FreeHead z o) p) in *.
  destruct (area_ok m B L z o Hok Ho) as [Hget Hset].
  unfold remove_from_buddy. rewrite (kbind_ret (gets _) _ m (get_zone z m) m) by done.
  rewrite (kbind_ret _ _ _ _ _ (lift_ok _ _ m Hget)). rewrite Hlen. destruct (Z.eqb_spec (Z.of_nat (S (length (L' (FreeHead z o))))) 0); [lia|].
  destruct (unlink_ok m B L Hok (FreeHead z o) p m) as (N & Hlink & Hring & Hdom & Hnull); [done|split; [apply Hz|done]|done|].
  unfold lru in Hlink at 1. rewrite (kbind_ret _ _ _ _ _ Hlink). rewrite (kbind_ret _ _ _ _ _ (lift_ok _ _ _ (Hset _))).
  rewrite (kbind_ret (modify _) _ _ _ _ eq_refl). set (m1 := set_zone _ _ _).
  assert (Hpg1 : pages m1 !! pfn_to_page m p = Some pg) by done.
  unfold clear_buddy, clear_flag. rewrite (kbind_ret _ _ _ _ _ (update_page_ok _ _ _ _ Hpg1)).
  pose proof (free_pages_bounds m B L z Hok). pose proof (pages_per_order_eq o Ho) as [Hpo Hpb]. unfold pages_per_order in Hpo.
  pose proof (pages_on_ge (fun o => L (FreeHead z o)) o Ho) as Hge. cbn beta in Hge.
  rewrite <- (li_free_pages _ _ _ (ok_lists _ _ _ Hok)), Hlen in Hge.
  rewrite Hpo. destruct (Z.ltb_spec (free_pages (get_zone z m)) (2 ^ o)) as [|_]; [nia|].
  rewrite (kbind_ret (modify _) _ _ _ _ eq_refl). eexists. split; [reflexivity|]. set (m' := set_zone _ _ (set_pages _ _)).
  assert (Hf : frame m m') by (split; try done; intros z'; destruct z, z'; done).
  pose proof (list_length m B L (FreeHead z o) Hok). pose proof (lo_max _ Hl). unfold PAGE_SIZE in *.
  split; [|split; [by eapply only_page|done]]. exists L'. split.
  - by apply (frame_layout m m').
  - apply (frame_blocks m m'); [done|]. by apply (blocks_retype m B p (mkBlock InBuddy o) InUse).
  - apply (lists_relist m m' B _ L _ z o Hok Hf Ho); [done| |by apply (unlinked_nodup m B L)| |done|].
    + apply (unlinked_mem m B L Hok (FreeHead z o) p); [done|]. intros []; cbn; naive_solver.
    + intros h' Hne. unfold L', unlinked. by rewrite decide_False.
    + intros z'. unfold m'. rewrite get_set_zone. case_decide; [|by destruct z, z'].
      rewrite Hlen, !sub64_small by lia. f_equal; [lia|]. f_equal. f_equal. lia.
  - apply (pages_retype m m' B p _ _ (ok_pages _ _ _ Hok) Hf Hl Hp eq_refl); [done|].
    destruct Hpok as (_ & _ & Hzid & _). split_and!; rewrite ?lookup_insert_eq.
    + rewrite is_buddy_clear_flag, andb_false_r. split; [done|]. intros [o' [=]].
    + by intros o' [=].
    + done.
    + by intros c i o' [=].
Qed.

(** ** Splitting and merging blocks in use *)
Definition same_managed (B B' : gmap Z Block) : Prop :=
  forall q k o, k <> InUse -> B' !! q = Some (mkBlock k o) <-> B !! q = Some (mkBlock k o).

Lemma regroup m B B' : mem_ok m B -> blocks_ok m B' -> same_managed B B' -> mem_ok m B'.
Proof.
  intros [L Hok] Hb Hs. exists L. pose proof Hok as [Hl _ [Hm Hn Hr Ha Hnr Hfp Hct] Hp].
  split; [done|done|split; try done|].
  - intros h p. rewrite Hm. split; intros ([k o] & Hb' & Hh); exists (mkBlock k o); (split; [|done]);
      apply Hs; try done; intros ->; destruct h; cbn in Hh; naive_solver.
  - intros p Hpp. destruct (Hp p Hpp) as (pg & H1 & H2 & H3 & H4 & H5 & H6). exists pg. split; [done|]. split; [done|].
    split; [rewrite H3; split; intros [o Ho]; exists o; by apply Hs|]. split; [|split; [done|]].
    + intros o Ho. apply H4. by apply Hs.
    + intros c i o Ho. apply (H6 c i o). by apply Hs.
Qed.

Definition covered (B : gmap Z Block) (x : Z) : Prop := exists p b, B !! p = Some b /\ p <= x < p + 2 ^ border b.

Lemma pow2_succ o : 0 <= o -> 2 ^ (o + 1) = 2 ^ o + 2 ^ o.
Proof. intros. rewrite Z.pow_add_r by lia. lia. Qed.

Definition split_of (B : gmap Z Block) (p o : Z) : gmap Z Block :=
  <[p + 2 ^ o := mkBlock InUse o]> (<[p := mkBlock InUse o]> B).

Lemma split_lookup B p o q b :
  0 <= o -> split_of B p o !! q = Some b <->
  (q = p + 2 ^ o /\ b = mkBlock InUse o) \/ (q = p /\ b = mkBlock InUse o) \/ (q <> p /\ q <> p + 2 ^ o /\ B !! q = Some b).
Proof.
  intros Ho. pose proof (pow2_pos o Ho). unfold split_of.
  destruct (decide (q = p + 2 ^ o)) as [->|]; [rewrite lookup_insert_eq|rewrite lookup_insert_ne by done].
  - split; [intros [= <-]; auto|]. intros [[_ ->]|[[? ->]|(? & ? & _)]]; done.
  - destruct (decide (q = p)) as [->|]; [rewrite lookup_insert_eq|rewrite lookup_insert_ne by done].
    + split; [intros [= <-]; auto|]. intros [[? ->]|[[_ ->]|(? & _)]]; done.
    + split; [auto|]. intros [[? _]|[[? _]|(_ & _ & ?)]]; done.
Qed.

Lemma no_block_inside m B p b q : blocks_ok m B -> B !! p = Some b -> p < q < p + 2 ^ border b -> B !! q = None.
Proof.
  intros Hb Hp Hq. destruct (B !! q) as [c|] eqn:Hc; [|done]. exfalso.
  pose proof (pow2_pos (border c) ltac:(apply (bo_order _ _ Hb _ _ Hc))).
  destruct (bo_disjoint _ _ Hb _ _ _ _ Hp Hc); lia.
Qed.

Lemma split_block m B p o :
  mem_ok m B -> 0 <= o -> B !! p = Some (mkBlock InUse (o + 1)) -> mem_ok m (split_of B p o).
Proof.
  intros Hok Ho Hp. pose proof Hok as [L Hphys]. pose proof (ok_blocks _ _ _ Hphys) as Hb.
  pose proof (pow2_pos o Ho) as Hpos. pose proof (pow2_succ o Ho) as Hsucc.
  pose proof (bo_order _ _ Hb _ _ Hp) as [Ho1 Hal]. cbn in Ho1, Hal. destruct (bo_zone _ _ Hb _ _ Hp) as [z Hz]. cbn in Hz.
  assert (Hin : B !! (p + 2 ^ o) = None) by (eapply no_block_inside; [done|exact Hp|cbn; lia]).
  apply (regroup m B); [done| |].
  - split.
    + intros q b [[-> ->]|[[-> ->]|(_ & _ & Hq)]]%split_lookup; [..|by apply (bo_order _ _ Hb)|done]; cbn.
      * split; [lia|]. apply Z.divide_add_r; [|apply Z.divide_refl]. destruct Hal as [k ->]. exists (k * 2). lia.
      * split; [lia|]. destruct Hal as [k ->]. exists (k * 2). lia.
    + intros q b [[-> ->]|[[-> ->]|(_ & _ & Hq)]]%split_lookup; [..|by apply (bo_zone _ _ Hb)|done]; cbn; exists z;
        (eapply in_zone_shrink; [exact Hz|lia|lia]).
    + intros q b r c [[-> ->]|[[-> ->]|(Hq1 & Hq2 & Hq)]]%split_lookup [[-> ->]|[[-> ->]|(Hr1 & Hr2 & Hr)]]%split_lookup Hne;
        cbn; try lia.
      * destruct (bo_disjoint _ _ Hb _ _ _ _ Hp Hr) as [H|H]; cbn in *; [congruence|lia..].
      * destruct (bo_disjoint _ _ Hb _ _ _ _ Hp Hr) as [H|H]; cbn in *; [congruence|lia..].
      * destruct (bo_disjoint _ _ Hb _ _ _ _ Hp Hq) as [H|H]; cbn in *; [congruence|lia..].
      * destruct (bo_disjoint _ _ Hb _ _ _ _ Hp Hq) as [H|H]; cbn in *; [congruence|lia..].
      * by apply (bo_disjoint _ _ Hb).
    + intros q c i k [[_ [=]]|[[_ [=]]|(_ & _ & Hq)]]%split_lookup; [by apply (bo_pcp _ _ Hb)|done].
  - intros q k k' Hk. rewrite split_lookup by done. split.
    + intros [[_ [= -> _]]|[[_ [= -> _]]|(_ & _ & ?)]]; done.
    + intros Hq. right. right. split_and!; [|intros ->; congruence|done]. intros ->. rewrite Hp in Hq. by injection Hq as <- _.
Qed.

Lemma split_covered B p o x :
  0 <= o -> B !! p = Some (mkBlock InUse (o + 1)) -> B !! (p + 2 ^ o) = None -> covered (split_of B p o) x <-> covered B x.
Proof.
  intros Ho Hp Hn. pose proof (pow2_pos o Ho). pose proof (pow2_succ o Ho). split.
  - intros (q & b & [[-> ->]|[[-> ->]|(_ & _ & Hq)]]%split_lookup & Hx); [| | |done]; cbn in Hx.
    + exists p, (mkBlock InUse (o + 1)). cbn. split; [done|lia].
    + exists p, (mkBlock InUse (o + 1)). cbn. split; [done|lia].
    + by exists q, b.
  - intros (q & b & Hq & Hx). destruct (decide (q = p)) as [->|Hne].
    + rewrite Hp in Hq. injection Hq as <-. cbn in Hx. destruct (Z.lt_ge_cases x (p + 2 ^ o)).
      * exists p, (mkBlock InUse o). rewrite split_lookup by done. cbn. split; [auto|lia].
      * exists (p + 2 ^ o), (mkBlock InUse o). rewrite split_lookup by done. cbn. split; [auto|lia].
    + exists q, b. rewrite split_lookup by done. split; [|done]. right. right. split_and!; [done| |done]. intros ->. congruence.
Qed.

Lemma lxor_1 k : Z.lxor k 1 = if Z.even k then k + 1 else k - 1.
Proof.
  destruct (Z.even k) eqn:He.
  - apply Z.even_spec in He as [j ->]. symmetry. rewrite Z.add_nocarry_lxor; [done|].
    apply Z.bits_inj'. intros n Hn. rewrite Z.land_spec, Z.bits_0. destruct (Z.eq_dec n 0) as [->|].
    + by rewrite Z.testbit_even_0.
    + rewrite (Z.bits_above_log2 1 n) by (simpl; lia). apply andb_false_r.
  - assert (Ho : Z.odd k = true) by (rewrite <- Z.negb_even; by rewrite He). apply Z.odd_spec in Ho as [j ->].
    replace (2 * j + 1 - 1) with (2 * j) by lia.
    assert (Heq : 2 * j + 1 = Z.lxor (2 * j) 1).
    { apply Z.add_nocarry_lxor. apply Z.bits_inj'. intros n Hn. rewrite Z.land_spec, Z.bits_0. destruct (Z.eq_dec n 0) as [->|].
      - by rewrite Z.testbit_even_0.
      - rewrite (Z.bits_above_log2 1 n) by (simpl; lia). apply andb_false_r. }
    rewrite Heq, Z.lxor_assoc. by rewrite Z.lxor_nilpotent, Z.lxor_0_r.
Qed.

Lemma buddy_cases p o :
  0 <= o < MAX_ORDER -> (2 ^ o | p) ->
  (get_buddy_pfn p o = p + 2 ^ o /\ (2 ^ (o + 1) | p)) \/ (get_buddy_pfn p o = p - 2 ^ o /\ (2 ^ (o + 1) | p - 2 ^ o)).
Proof.
  intros Ho [k ->]. unfold get_buddy_pfn. rewrite shl64_1 by (unfold MAX_ORDER in *; lia).
  assert (Heq : Z.lxor (k * 2 ^ o) (2 ^ o) = Z.lxor k 1 * 2 ^ o).
  { rewrite <- (Z.mul_1_l (2 ^ o)) at 2. rewrite <- !Z.shiftl_mul_pow2 by lia. by rewrite Z.shiftl_lxor. }
  rewrite Heq, lxor_1, pow2_succ by lia. destruct (Z.even k) eqn:He.
  - left. split; [lia|]. apply Z.even_spec in He as [j ->]. exists j. lia.
  - right. split; [lia|]. assert (Hod : Z.odd k = true) by (rewrite <- Z.negb_even; by rewrite He).
    apply Z.odd_spec in Hod as [j ->]. exists j. lia.
Qed.

Definition merge_of (B : gmap Z Block) (lo o : Z) : gmap Z Block :=
  <[lo := mkBlock InUse (o + 1)]> (delete (lo + 2 ^ o) B).

Lemma merge_lookup B lo o q b :
  0 <= o -> merge_of B lo o !! q = Some b <->
  (q = lo /\ b = mkBlock InUse (o + 1)) \/ (q <> lo /\ q <> lo + 2 ^ o /\ B !! q = Some b).
Proof.
  intros Ho. pose proof (pow2_pos o Ho). unfold merge_of.
  destruct (decide (q = lo)) as [->|]; [rewrite lookup_insert_eq|rewrite lookup_insert_ne by done].
  - split; [intros [= <-]; auto|]. intros [[_ ->]|[]]; done.
  - destruct (decide (q = lo + 2 ^ o)) as [->|]; [rewrite lookup_delete_eq|rewrite lookup_delete_ne by done].
    + split; [done|]. intros [[? _]|(_ & ? & _)]; done.
    + split; [auto|]. intros [[? _]|(_ & _ & ?)]; done.
Qed.

Section Merge.
Context (m : Mem) (B : gmap Z Block) (lo o : Z).
Hypothesis Ho : 0 <= o.
Hypothesis Hlo : B !! lo = Some (mkBlock InUse o).
Hypothesis Hhi : B !! (lo + 2 ^ o) = Some (mkBlock InUse o).

Lemma merge_block z :
  mem_ok m B -> o + 1 < MAX_ORDER -> (2 ^ (o + 1) | lo) -> in_zone m z lo 1 -> in_zone m z (lo + 2 ^ o) 1 ->
  mem_ok m (merge_of B lo o).
Proof.
  intros Hok Ho1 Hal Hz1 Hz2. pose proof Hok as [L Hphys]. pose proof (ok_blocks _ _ _ Hphys) as Hb.
  pose proof (pow2_pos o Ho) as Hpos. pose proof (pow2_succ o Ho) as Hsucc.
  apply (block_in_zone m B) with (b := mkBlock InUse o) in Hz1, Hz2; [|first [done|apply Hphys]..]. cbn in Hz1, Hz2.
  apply (regroup m B); [done| |].
  - split.
    + intros q b [[-> ->]|(_ & _ & Hq)]%merge_lookup; [cbn; split; [lia|done]|by apply (bo_order _ _ Hb)|done].
    + intros q b [[-> ->]|(_ & _ & Hq)]%merge_lookup; [cbn|by apply (bo_zone _ _ Hb)|done].
      exists z. destruct Hz1 as (? & ? & ?), Hz2 as (? & ? & ?). split_and!; [done|lia|lia].
    + intros q b r c [[-> ->]|(Hq1 & Hq2 & Hq)]%merge_lookup [[-> ->]|(Hr1 & Hr2 & Hr)]%merge_lookup Hne; cbn; try lia.
      * destruct (bo_disjoint _ _ Hb _ _ _ _ Hlo Hr), (bo_disjoint _ _ Hb _ _ _ _ Hhi Hr); cbn in *; try congruence; try lia.
      * destruct (bo_disjoint _ _ Hb _ _ _ _ Hlo Hq), (bo_disjoint _ _ Hb _ _ _ _ Hhi Hq); cbn in *; try congruence; try lia.
      * by apply (bo_disjoint _ _ Hb).
    + intros q c i k [[_ [=]]|(_ & _ & Hq)]%merge_lookup; [by apply (bo_pcp _ _ Hb)|done].
  - intros q k k' Hk. rewrite merge_lookup by done. split; [by intros [[_ [= -> _]]|(_ & _ & ?)]|].
    intros Hq. right. split_and!; [| |done]; intros ->; [rewrite Hlo in Hq|rewrite Hhi in Hq]; by injection Hq as <- _.
Qed.

Lemma merge_covered x : covered (merge_of B lo o) x <-> covered B x.
Proof.
  pose proof (pow2_pos o Ho). pose proof (pow2_succ o Ho). split.
  - intros (q & b & Hqb & Hx). apply merge_lookup in Hqb as [[-> ->]|(_ & _ & Hq)]; [cbn in Hx|by exists q, b|done].
    destruct (Z.lt_ge_cases x (lo + 2 ^ o)).
    + exists lo, (mkBlock InUse o). cbn. split; [done|lia].
    + exists (lo + 2 ^ o), (mkBlock InUse o). cbn. split; [done|lia].
  - intros (q & b & Hq & Hx). destruct (decide (q = lo \/ q = lo + 2 ^ o)) as [Hd|Hd].
    + exists lo, (mkBlock InUse (o + 1)). rewrite merge_lookup by done. cbn. split; [auto|].
      destruct Hd as [-> | ->]; [rewrite Hlo in Hq|rewrite Hhi in Hq]; injection Hq as <-; cbn in Hx; lia.
    + exists q, b. rewrite merge_lookup by done. split; [|done]. right. naive_solver.
Qed.
End Merge.

Lemma retype_covered B p b k x :
  B !! p = Some b -> covered (<[p := mkBlock k (border b)]> B) x <-> covered B x.
Proof.
  intros Hb. split; intros (q & c & Hq & Hx); (destruct (decide (q = p)) as [->|]).
  - rewrite lookup_insert_eq in Hq. injection Hq as <-. by exists p, b.
  - rewrite lookup_insert_ne in Hq by done. by exists q, c.
  - rewrite Hb in Hq. injection Hq as <-. exists p, (mkBlock k (border b)). by rewrite lookup_insert_eq.
  - exists q, c. by rewrite lookup_insert_ne.
Qed.

(** ** Changing the descriptor of a page in use *)
Definition unmanaged (B : gmap Z Block) (p : Z) : Prop := forall k o, B !! p = Some (mkBlock k o) -> k = InUse.

Lemma page_update_ok m B p pg f :
  mem_ok m B -> 0 <= p < max_pfn m -> unmanaged B p -> pages m !! pfn_to_page m p = Some pg ->
  is_buddy (f pg) = is_buddy pg -> zone_id (f pg) = zone_id pg ->
  exists m', update_page (pfn_to_page m p) f m = Ret (tt, m') /\ mem_ok m' B /\ only (eq p) m m' /\
    pcps m' = pcps m /\ nodes m' = nodes m /\ pages m' !! pfn_to_page m p = Some (f pg).
Proof.
  intros [L Hok] Hp Hun Hpg Hbud Hzid. pose proof Hok as [Hl Hb Hli Hpp].
  eexists. split; [by apply update_page_ok|]. set (m' := set_pages _ _). assert (Hf : frame m m') by (by split).
  split_and!; [|by eapply only_page|done|done|cbn; by rewrite lookup_insert_eq]. exists L.
  assert (Hpok : pages_ok m' B).
  { intros q Hq. destruct (Hpp q Hq) as (pg' & H1 & H2 & H3). destruct (decide (q = p)) as [->|Hne].
    - rewrite Hpg in H1. injection H1 as <-. exists (f pg). split; [cbn; by rewrite lookup_insert_eq|]. split; [done|].
      destruct H3 as (a1 & a2 & a3 & a4). split; [by rewrite Hbud|]. split; [|split].
      + intros o Ho. by apply Hun in Ho.
      + rewrite Hzid. done.
      + intros c i o Ho. by apply Hun in Ho.
    - exists pg'. split; [|done]. cbn. rewrite lookup_insert_ne; [done|]. intros Heq. apply Hne. symmetry.
      by apply (pfn_to_page_inj m); [apply (lo_vmemmap _ Hl)|..]. }
  split; [by apply (frame_layout m m')|by apply (frame_blocks m m')|by destruct Hli|done].
Qed.

Lemma node_update_ok m B p n :
  mem_ok m B -> 0 <= p < max_pfn m -> unmanaged B p ->
  exists m', put_node (lru m p) n m = Ret (tt, m') /\ mem_ok m' B /\ only (fun _ => False) m m' /\
    pcps m' = pcps m /\ pages m' = pages m /\ nodes m' !! lru m p = Some n.
Proof.
  intros [L Hok] Hp Hun. pose proof Hok as [Hl Hb Hli Hpp]. eexists. split; [reflexivity|]. set (m' := set_nodes _ _).
  assert (Hf : frame m m') by (by split). split_and!; [|by split|done|done|cbn; by rewrite lookup_insert_eq]. exists L.
  assert (Hno : forall h, p ∉ L h).
  { intros h (b & Hb' & Hh & _)%(listed_block m B L Hok). destruct b as [k o]. apply Hun in Hb' as ->. destruct h; cbn in Hh; naive_solver. }
  split; [by apply (frame_layout m m')|by apply (frame_blocks m m')| |].
  - destruct Hli as [a1 a2 a3 a4 a5 a6 a7]. split; try done. intros h Hh. eapply seg_frame; [| |by apply a3]; intros y Hy.
    all: cbn [m' set_nodes nodes]; rewrite ?nxt_insert, ?prv_insert; rewrite decide_False; [done|]; intros ->;
      apply (Hno h); apply (lru_elem m B L Hok); [done|intros q (b & _ & _ & Hq)%(listed_block m B L Hok); done|].
    all: try (apply elem_of_cons in Hy as [Hy|Hy]); try (apply elem_of_app in Hy as [Hy|Hy%list_elem_of_singleton]); try done;
      exfalso; by subst h.
  - intros q Hq. destruct (Hpp q Hq) as (pg' & H1 & H2 & H3). exists pg'. split_and!; [done| |done].
    change (lru m' q) with (lru m q). cbn [m' set_nodes nodes].
    destruct (decide (lru m p = lru m q)) as [<-|]; [rewrite lookup_insert_eq; eauto|by rewrite lookup_insert_ne].
Qed.

(** ** How the blocks may change between the calls of a client

    The blocks in use stay as they are and the allocators manage the same pages. *)
Record evolves (B B' : gmap Z Block) : Prop := {
  ev_used p o : B' !! p = Some (mkBlock InUse o) <-> B !! p = Some (mkBlock InUse o);
  ev_covered x : covered B' x <-> covered B x
}.
#[export] Instance evolves_refl : Reflexive evolves.
Proof. by intros B. Qed.
#[export] Instance evolves_trans : Transitive evolves.
Proof. intros B1 B2 B3 [u1 c1] [u2 c2]. split; [intros p o; by rewrite u2, u1|]. intros x. by rewrite c2, c1. Qed.

Lemma evolves_retype B p b k :
  B !! p = Some b -> bkind b <> InUse -> k <> InUse -> evolves B (<[p := mkBlock k (border b)]> B).
Proof.
  intros Hb Hk Hk'. split; [|intros x; by apply retype_covered]. intros q o. destruct (decide (q = p)) as [->|].
  - rewrite lookup_insert_eq, Hb. split; [by intros [= -> _]|]. by intros [= ->].
  - by rewrite lookup_insert_ne.
Qed.

(** ** What a call may do to the pages of its client: nothing *)
Definition outside (B : gmap Z Block) (p : Z) : Prop :=
  forall q o, B !! q = Some (mkBlock InUse o) -> ~ (q <= p < q + 2 ^ o).

Record advance (m : Mem) (B : gmap Z Block) (m' : Mem) (B' : gmap Z Block) : Prop := {
  ad_ok : mem_ok m' B';
  ad_ev : evolves B B';
  ad_only : only (outside B) m m'
}.

Lemma advance_refl m B : mem_ok m B -> advance m B m B.
Proof. intros Hok. split; [done|done|apply only_refl]. Qed.

Lemma advance_trans m1 B1 m2 B2 m3 B3 : advance m1 B1 m2 B2 -> advance m2 B2 m3 B3 -> advance m1 B1 m3 B3.
Proof.
  intros [o1 e1 n1] [o2 e2 n2]. split; [done|by transitivity B2|]. eapply only_trans; [exact n1|].
  eapply only_mono; [|exact n2]. intros p Hp q o Hq. apply (Hp q o). by apply (ev_used _ _ e1).
Qed.

Lemma outside_managed m B p b : mem_ok m B -> B !! p = Some b -> bkind b <> InUse -> outside B p.
Proof.
  intros [L Hok] Hb Hk q o Hq Hin. destruct (decide (p = q)) as [->|Hne].
  - rewrite Hb in Hq. by injection Hq as ->.
  - pose proof (pow2_pos (border b) ltac:(apply (bo_order _ _ (ok_blocks _ _ _ Hok) _ _ Hb))).
    destruct (bo_disjoint _ _ (ok_blocks _ _ _ Hok) _ _ _ _ Hb Hq Hne) as [H1|H1]; cbn in H1; lia.
Qed.

Lemma live_frame m m' h : frame m m' -> live m h -> live m' h.
Proof. intros Hf. by apply frame_live. Qed.

(** The first block of a free list. *)
Lemma free_list_head m B z o :
  mem_ok m B -> initialized (get_zone z m) = true -> 0 <= o < MAX_ORDER ->
  (vec_get (free_area (get_zone z m)) o = Ret 0 /\ (forall p, B !! p = Some (mkBlock InBuddy o) -> ~ in_zone m z p 1)) \/
  exists p n, vec_get (free_area (get_zone z m)) o = Ret n /\ n <> 0 /\ nxt (nodes m) (FreeHead z o) = Some (lru m p) /\
    B !! p = Some (mkBlock InBuddy o) /\ in_zone m z p 1.
Proof.
  intros [L Hok] Hi Ho. destruct (area_ok m B L z o Hok Ho) as [Hget _]. pose proof (ok_lists _ _ _ Hok) as Hli.
  pose proof (li_ring _ _ _ Hli (FreeHead z o) (conj Hi Ho)) as Hr. apply seg_first in Hr.
  pose proof (pow2_pos o ltac:(lia)). destruct (L (FreeHead z o)) as [|p l] eqn:HL; cbn [map app head length] in *.
  - left. split; [done|]. intros p Hp Hz. apply (block_in_zone m B) with (b := mkBlock InBuddy o) in Hz; try apply Hok; try done.
    assert (p ∈ L (FreeHead z o)) as Hin by (apply (li_mem _ _ _ Hli); by eexists). rewrite HL in Hin. by apply elem_of_nil in Hin.
  - right. assert (Hin : p ∈ L (FreeHead z o)) by (rewrite HL; set_solver).
    apply (li_mem _ _ _ Hli) in Hin as (b & Hb & -> & Hz). eexists p, _. split; [exact Hget|].
    split; [lia|]. split; [done|]. split; [done|]. eapply in_zone_shrink; [exact Hz|lia|lia].
Qed.

(** ** Taking a block out of the allocators for a client

    The block is new to the client, nothing else changes hands, and the pages the client
    already holds keep their descriptors. *)
Record takes (m : Mem) (B : gmap Z Block) (m' : Mem) (B' : gmap Z Block) (p o : Z) : Prop := {
  tk_ok : mem_ok m' B';
  tk_new : B' !! p = Some (mkBlock InUse o);
  tk_fresh o' : B !! p <> Some (mkBlock InUse o');
  tk_used q o' : q <> p -> B' !! q = Some (mkBlock InUse o') <-> B !! q = Some (mkBlock InUse o');
  tk_covered x : covered B' x <-> covered B x;
  tk_frame : frame m m';
  tk_pages q : 0 <= q < max_pfn m -> ~ outside B q -> pages m' !! pfn_to_page m q = pages m !! pfn_to_page m q
}.

Lemma takes_intro m B m1 B1 m' p b :
  advance m B m1 B1 -> B1 !! p = Some b -> bkind b <> InUse ->
  frame m1 m' -> (forall q, 0 <= q < max_pfn m -> ~ outside B q -> pages m' !! pfn_to_page m q = pages m1 !! pfn_to_page m q) ->
  mem_ok m' (<[p := mkBlock InUse (border b)]> B1) ->
  takes m B m' (<[p := mkBlock InUse (border b)]> B1) p (border b).
Proof.
  intros [Hok1 [Hu Hc] Hon] Hb Hk Hf Hpages Hok. split.
  - done.
  - apply lookup_insert_eq.
  - intros o' Ho'. apply Hu in Ho'. rewrite Hb in Ho'. by injection Ho' as ->.
  - intros q o' Hne. by rewrite lookup_insert_ne.
  - intros x. rewrite (retype_covered B1 p b); [apply Hc|done].
  - transitivity m1; [apply Hon|done].
  - intros q Hq Hn. rewrite Hpages by done. by apply Hon.
Qed.

(** ** Giving a block back

    Afterwards the client holds its other blocks, with their descriptors untouched; the
    pages of the block are managed again. *)
Record gives (m : Mem) (B : gmap Z Block) (m' : Mem) (B' : gmap Z Block) (p o : Z) : Prop := {
  gv_ok : mem_ok m' B';
  gv_ev : evolves (<[p := mkBlock InBuddy o]> B) B';
  gv_frame : frame m m';
  gv_pages q : 0 <= q < max_pfn m -> ~ outside (delete p B) q -> pages m' !! pfn_to_page m q = pages m !! pfn_to_page m q
}.

Lemma evolves_release B p o k k' :
  k <> InUse -> k' <> InUse -> evolves (<[p := mkBlock k o]> B) (<[p := mkBlock k' o]> B).
Proof.
  intros Hk Hk'. pose proof (evolves_retype (<[p := mkBlock k o]> B) p (mkBlock k o) k') as H.
  cbn [border] in H. rewrite insert_insert_eq in H. apply H; [apply lookup_insert_eq|done|done].
Qed.

Lemma outside_release B p b q : bkind b <> InUse -> outside (<[p := b]> B) q <-> outside (delete p B) q.
Proof.
  intros Hb. unfold outside. split; intros H r o Hr; apply (H r o).
  - apply lookup_delete_Some in Hr as [Hne Hr]. by rewrite lookup_insert_ne.
  - destruct (decide (r = p)) as [->|]; [rewrite lookup_insert_eq in Hr; by injection Hr as ->|].
    rewrite lookup_insert_ne in Hr by done. by rewrite lookup_delete_ne.
Qed.

Lemma gives_intro m B m1 m' B' p o k :
  k <> InUse -> frame m m1 ->
  (forall q, 0 <= q < max_pfn m -> ~ outside (delete p B) q -> pages m1 !! pfn_to_page m q = pages m !! pfn_to_page m q) ->
  advance m1 (<[p := mkBlock k o]> B) m' B' -> gives m B m' B' p o.
Proof.
  intros Hk Hf Hpg [Hok Hev Hon]. split.
  - done.
  - etransitivity; [|exact Hev]. by apply evolves_release.
  - transitivity m1; [done|apply Hon].
  - intros q Hq Hn. rewrite <- Hpg by done. rewrite <- (frame_pfn_to_page m m1) by done. apply Hon; [by rewrite (fr_max _ _ Hf)|].
    by rewrite outside_release.
Qed.

(** The pages of a block are not pages of another block in use. *)
Lemma block_outside m B p o q :
  mem_ok m B -> B !! p = Some (mkBlock InUse o) -> p <= q < p + 2 ^ o -> outside (delete p B) q.
Proof.
  intros [L Hok] Hb Hq r k [Hne Hr]%lookup_delete_Some Hin.
  destruct (bo_disjoint _ _ (ok_blocks _ _ _ Hok) _ _ _ _ Hb Hr Hne) as [H|H]; cbn in H; lia.
Qed.
