(* ===== verification/Pcp.v ===== *)
(** * Per-CPU page caches: kernel/src/mm/phys/pcp.rs

    Each CPU keeps, per zone, a list of single free pages in front of the buddy lists.
    [apic_id] is the hardware's local APIC id; the model takes it as an argument.
    The diagnostic prints are left out. *)

From S2P Require Import Prelude Page Zone.

(** [config::MAX_CPUS], [config::PCP_HIGH_WATERMARK], [config::PCP_BATCH_SIZE] *)
Definition CPU_PAGESETS_CAPACITY : Z := 64.
Definition PCP_HIGH_DEFAULT : Z := 64.
Definition PCP_BATCH_DEFAULT : Z := 16.
Definition NR_PCP_LISTS : Z := NR_ZONES.

(** ** PerCpuPages *)
Definition get_pcp (c i : Z) : Kern PerCpuPages := fun m =>
  match pcps m !! (c, i) with Some q => Ret (q, m) | None => Panic end.
Definition set_count (c i n : Z) : Kern unit :=
  q ← get_pcp c i;
  modify (fun m => set_pcps m (<[(c, i) := mkPcp (high q) (batch q) n]> (pcps m))).

Definition pcp_init (c i : Z) : Kern unit :=
  get_pcp c i;;
  modify (fun m => set_pcps m (<[(c, i) := mkPcp PCP_HIGH_DEFAULT PCP_BATCH_DEFAULT 0]> (pcps m)));;
  ListHead_init (PcpHead c i).

Definition nr_pages (c i : Z) : Kern Z := q ← get_pcp c i; mret (count q).
Definition above_high (c i : Z) : Kern bool := q ← get_pcp c i; mret (high q <? count q).

Definition pcp_alloc (c i : Z) : Kern (option Z) :=
  q ← get_pcp c i;
  if 0 <? count q then
    h ← get_node (PcpHead c i);
    let node := next h in
    if bool_decide (node <> PcpHead c i) then
      ListHead_del node;;
      set_count c i (sub32 (count q) 1);;
      page ← container_of node;
      mret (Some page)
    else mret None
  else mret None.

Definition pcp_free (c i page : Z) : Kern unit :=
  q ← get_pcp c i;
  ListHead_add (PcpHead c i) (Lru page);;
  set_count c i (add32 (count q) 1).

(** [left] is [batch - added], the rounds the loop may still do; linking the page and
    counting it are the two statements of [free]. *)
Fixpoint refill_loop (c i : Z) (z : ZoneType) (left : nat) (added : Z) : Kern Z :=
  match left with
  | O => mret added
  | S left' =>
      x ← gets (get_zone z);
      n ← lift (vec_get (free_area x) 0);
      if n =? 0 then mret added
      else
        h ← get_node (FreeHead z 0);
        let node := next h in
        if bool_decide (node = FreeHead z 0) then mret added
        else
          page ← container_of node;
          ok ← remove_from_buddy z page 0;
          if negb ok then mret added
          else
            set_owner page Pcp;;
            pcp_free c i page;;
            refill_loop c i z left' (added + 1)
  end.
Definition refill_from_buddy (c i : Z) (z : ZoneType) (batch : Z) : Kern Z :=
  refill_loop c i z (Z.to_nat batch) 0.

(** Unlinking the first page, or stopping when there is none, are the statements of [alloc]. *)
Fixpoint drain_loop (c i : Z) (z : ZoneType) (left : nat) (drained : Z) : Kern Z :=
  match left with
  | O => mret drained
  | S left' =>
      first ← pcp_alloc c i;
      match first with
      | None => mret drained
      | Some page => add_to_buddy z page 0;; drain_loop c i z left' (drained + 1)
      end
  end.
Definition drain_to_buddy (c i : Z) (z : ZoneType) (batch : Z) : Kern Z :=
  drain_loop c i z (Z.to_nat batch) 0.

(** ** The subsystem *)
Definition set_cpus (n : Z) (ready : bool) (m : Mem) : Mem :=
  mkMem (vmemmap_base m) (max_pfn m) (pages m) (nodes m) (zone_dma m) (zone_dma32 m) (zone_normal m) (pcps m) n
    ready (phys m) (guards m).

Fixpoint init_pagesets (keys : list (Z * Z)) : Kern unit :=
  match keys with
  | [] => mret tt
  | (c, i) :: keys' => pcp_init c i;; init_pagesets keys'
  end.

Definition pageset_keys (cpus : Z) : list (Z * Z) :=
  flat_map (fun c => map (fun i => (c, i)) (zrange 0 NR_PCP_LISTS)) (zrange 0 cpus).

Definition init_pcp (nr : Z) : Kern unit :=
  let nr := Z.min (Z.max nr 1) CPU_PAGESETS_CAPACITY in
  ready ← gets pcp_ready;
  modify (set_cpus nr ready);;
  init_pagesets (pageset_keys nr);;
  modify (set_cpus nr true).

(** [PCP_TEMP_DISABLED] is [false]. *)
Definition pcp_initialized (m : Mem) : bool := pcp_ready m.

Definition bump_invalid_free (g : Guards) : Guards :=
  mkGuards (ref_underflow_rejects g) (mapcount_underflow_rejects g) (area_underflow_rejects g)
    (global_underflow_rejects g) (snapshot_mismatches g) (scrub_repairs g) (add64 (invalid_free_rejects g) 1)
    (quarantine_fallbacks g) (owner_mismatches g).
Definition bump_quarantine (g : Guards) : Guards :=
  mkGuards (ref_underflow_rejects g) (mapcount_underflow_rejects g) (area_underflow_rejects g)
    (global_underflow_rejects g) (snapshot_mismatches g) (scrub_repairs g) (invalid_free_rejects g)
    (add64 (quarantine_fallbacks g) 1) (owner_mismatches g).
Definition bump_owner_mismatch (g : Guards) : Guards :=
  mkGuards (ref_underflow_rejects g) (mapcount_underflow_rejects g) (area_underflow_rejects g)
    (global_underflow_rejects g) (snapshot_mismatches g) (scrub_repairs g) (invalid_free_rejects g)
    (quarantine_fallbacks g) (add64 (owner_mismatches g) 1).

Definition fallback_to_buddy (page zone_idx : Z) : Kern unit :=
  pfn ← gets (fun m => page_to_pfn m page);
  found ← gets (fun m => pfn_to_zone m pfn);
  match found with
  | None =>
      if NR_PCP_LISTS <=? zone_idx then modify (set_guards bump_invalid_free)
      else
        x ← gets (get_zone (idx_to_zone_type zone_idx));
        if negb (initialized x) || negb (contains_pfn x pfn) then modify (set_guards bump_invalid_free)
        else
          set_next (Lru page) Null;; set_prev (Lru page) Null;; clear_buddy page;; set_order page 0;;
          add_to_buddy (idx_to_zone_type zone_idx) page 0;;
          modify (set_guards bump_quarantine)
  | Some z =>
      x ← gets (get_zone z);
      if negb (initialized x) || negb (contains_pfn x pfn) then modify (set_guards bump_invalid_free)
      else
        set_next (Lru page) Null;; set_prev (Lru page) Null;; clear_buddy page;; set_order page 0;;
        add_to_buddy z page 0;;
        modify (set_guards bump_quarantine)
  end.

Definition gfp_to_zone_idx (gfp : Z) : Z :=
  if gfp_test gfp GFP_F_DMA then 0 else if gfp_test gfp GFP_F_DMA32 then 1 else 2.

(** The checks on a page that came from the list [zone_idx]; [false] is [continue]. *)
Definition accept_page (zone_idx page : Z) : Kern bool :=
  inside ← gets (fun m => is_page_ptr_in_vmemmap m page);
  if negb inside then mret false
  else
    pg ← get_page page;
    let page_zone := zone_id pg in
    if negb (page_zone =? zone_idx) then
      modify (set_guards bump_owner_mismatch);; fallback_to_buddy page page_zone;; mret false
    else if negb (bool_decide (from_raw (owner pg) = Pcp)) then
      modify (set_guards bump_owner_mismatch);; fallback_to_buddy page page_zone;; mret false
    else
      set_owner page Allocated;; mret true.

Section Cpu.
Context (apic_id : Z).

Definition current_cpu (m : Mem) : Z := if apic_id <? nr_cpus m then apic_id else 0.

(** One round of the loop of [pcp_alloc_page]. *)
Definition pcp_alloc_from (c zone_idx : Z) : Kern (option Z) :=
  first ← pcp_alloc c zone_idx;
  match first with
  | Some page => ok ← accept_page zone_idx page; mret (if (ok : bool) then Some page else None)
  | None =>
      let z := idx_to_zone_type zone_idx in
      x ← gets (get_zone z);
      if initialized x && (0 <? nr_free_pages x) then
        q ← get_pcp c zone_idx;
        refill_from_buddy c zone_idx z (batch q);;
        second ← pcp_alloc c zone_idx;
        match second with
        | Some page => ok ← accept_page zone_idx page; mret (if (ok : bool) then Some page else None)
        | None => mret None
        end
      else mret None
  end.

Fixpoint pcp_alloc_loop (c : Z) (idxs : list Z) : Kern (option Z) :=
  match idxs with
  | [] => mret None
  | i :: idxs' =>
      r ← pcp_alloc_from c i;
      match r with Some page => mret (Some page) | None => pcp_alloc_loop c idxs' end
  end.

Definition pcp_alloc_page (gfp : Z) : Kern (option Z) :=
  ready ← gets pcp_initialized;
  if negb ready then mret None
  else
    c ← gets current_cpu;
    let preferred_zone := gfp_to_zone_idx gfp in
    pcp_alloc_loop c (rev (zrange 0 (preferred_zone + 1))).

Definition pcp_free_page (page : Z) : Kern unit :=
  ready ← gets pcp_initialized;
  if negb ready then mret tt
  else
    inside ← gets (fun m => is_page_ptr_in_vmemmap m page);
    if negb inside then modify (set_guards bump_invalid_free)
    else
      c ← gets current_cpu;
      pg ← get_page page;
      let zone_idx := zone_id pg in
      if NR_PCP_LISTS <=? zone_idx then modify (set_guards bump_invalid_free)
      else
        n ← get_node (Lru page);
        if bool_decide (next n <> Null) || bool_decide (prev n <> Null) then fallback_to_buddy page zone_idx
        else
          let own := from_raw (owner pg) in
          if bool_decide (own <> Allocated) && bool_decide (own <> Unknown) then
            modify (set_guards bump_owner_mismatch);; fallback_to_buddy page zone_idx
          else
            set_owner page Pcp;;
            pcp_free c zone_idx page;;
            over ← above_high c zone_idx;
            if (over : bool) then
              let z := idx_to_zone_type zone_idx in
              x ← gets (get_zone z);
              if initialized x then
                q ← get_pcp c zone_idx;
                drain_to_buddy c zone_idx z (batch q);; mret tt
              else mret tt
            else mret tt.
End Cpu.

Fixpoint drain_all_from (fuel : nat) (c i : Z) (z : ZoneType) (batch : Z) : Kern unit :=
  match fuel with
  | O => fun _ => OutOfFuel
  | S fuel' =>
      n ← nr_pages c i;
      if 0 <? n then drain_to_buddy c i z batch;; drain_all_from fuel' c i z batch else mret tt
  end.

Fixpoint drain_keys (keys : list (Z * Z)) : Kern unit :=
  match keys with
  | [] => mret tt
  | (c, i) :: keys' =>
      let z := idx_to_zone_type i in
      x ← gets (get_zone z);
      q ← get_pcp c i;
      when (initialized x) (drain_all_from (Z.to_nat (count q) + 1) c i z (batch q));;
      drain_keys keys'
  end.

Definition drain_all_pcps : Kern unit :=
  ready ← gets pcp_initialized;
  if negb ready then mret tt else n ← gets nr_cpus; drain_keys (pageset_keys n).

(** ** Moving pages between the lists *)
Lemma lists_recache m m' B B' L L' c i q :
  phys_ok m B L -> frame m m' -> live m (PcpHead c i) -> pcps m !! (c, i) = Some q ->
  (forall h', live m h' -> ring (nodes m') h' (map (lru m) (L' h'))) ->
  (forall h' p, p ∈ L' h' <-> exists b, B' !! p = Some b /\ home m h' p b) -> (forall h', NoDup (L' h')) ->
  (forall h', h' <> PcpHead c i -> L' h' = L h') -> Z.of_nat (length (L' (PcpHead c i))) < 4294967296 ->
  pcps m' = <[(c, i) := mkPcp (high q) (batch q) (Z.of_nat (length (L' (PcpHead c i))))]> (pcps m) ->
  (forall z', get_zone z' m' = get_zone z' m) ->
  lists_ok m' B' L'.
Proof.
  intros Hok Hf Hli Hq Hring Hmem Hnd Hsame Hlt Hpc Hz. pose proof (ok_lists _ _ _ Hok) as [_ _ _ Har Hnr Hfp Hct].
  split.
  - intros h p. rewrite Hmem. by setoid_rewrite (frame_home m m' _ _ _ Hf).
  - done.
  - intros h Hh. apply (frame_live m m') in Hh; [|done]. pose proof (Hring h Hh) as Hr.
    erewrite map_ext; [exact Hr|]. intros p. by apply frame_lru.
  - intros z'. by rewrite Hz.
  - intros z' o' Ho'. rewrite Hz, (Hsame (FreeHead z' o')) by done. by apply Hnr.
  - intros z'. rewrite Hz, Hfp. unfold pages_on. generalize (zrange 0 MAX_ORDER). intros os.
    induction os as [|x os IH]; [done|]. cbn [foldr]. by rewrite (Hsame (FreeHead z' x)), IH.
  - intros c' i' Hl'. apply (frame_live m m') in Hl'; [|done]. rewrite Hpc.
    destruct (Hct c' i' Hl') as (q' & Hq' & Hc & Hb & Hh & Hba). destruct (decide ((c', i') = (c, i))) as [[= -> ->]|Hne].
    + rewrite Hq in Hq'. injection Hq' as <-. eexists. rewrite lookup_insert_eq. split; [done|]. by split_and!.
    + exists q'. rewrite lookup_insert_ne by done. split; [done|]. rewrite (Hsame (PcpHead c' i')) by congruence. by split_and!.
Qed.

Lemma get_pcp_ok c i q m : pcps m !! (c, i) = Some q -> get_pcp c i m = Ret (q, m).
Proof. intros Hq. unfold get_pcp. by rewrite Hq. Qed.
Lemma set_count_ok c i n q m :
  pcps m !! (c, i) = Some q ->
  set_count c i n m = Ret (tt, set_pcps m (<[(c, i) := mkPcp (high q) (batch q) n]> (pcps m))).
Proof. intros Hq. unfold set_count. by rewrite (kbind_ret _ _ _ _ _ (get_pcp_ok _ _ _ _ Hq)). Qed.

Lemma cached_bounds m B p b : mem_ok m B -> B !! p = Some b -> 0 <= p < max_pfn m.
Proof. intros [L Hok] Hb. by apply (block_bounds m B p b); [apply Hok|apply Hok|]. Qed.

(** The head of a cache list, unlinked: the common part of [pcp_alloc] and [drain]. *)
Lemma pcp_list m B c i q :
  mem_ok m B -> live m (PcpHead c i) -> pcps m !! (c, i) = Some q ->
  (count q = 0 /\ nxt (nodes m) (PcpHead c i) = Some (PcpHead c i) /\ forall p, B !! p <> Some (mkBlock (InPcp c i) 0)) \/
  exists p, 0 < count q < 4294967296 /\ nxt (nodes m) (PcpHead c i) = Some (lru m p) /\
    B !! p = Some (mkBlock (InPcp c i) 0) /\
    exists N, ListHead_del (lru m p) m = Ret (tt, set_nodes m N) /\ N !! lru m p = Some (mkNode Null Null) /\
      let m' := set_pcps (set_nodes m N) (<[(c, i) := mkPcp (high q) (batch q) (count q - 1)]> (pcps m)) in
      mem_ok m' (<[p := mkBlock InUse 0]> B) /\ only (fun _ => False) m m'.
Proof.
  intros [L Hok] Hlive Hq. pose proof (ok_lists _ _ _ Hok) as Hli. destruct (li_count _ _ _ Hli c i Hlive) as (q' & Hq' & Hc & Hb & Hh & Hba).
  rewrite Hq in Hq'. injection Hq' as <-. pose proof (li_ring _ _ _ Hli _ Hlive) as Hr. apply seg_first in Hr.
  destruct (L (PcpHead c i)) as [|p l] eqn:HL; cbn [map app head length] in *.
  - left. split_and!; [done|done|]. intros p Hp. assert (p ∈ L (PcpHead c i)) as Hin by (apply (li_mem _ _ _ Hli); by eexists).
    rewrite HL in Hin. by apply elem_of_nil in Hin.
  - right. exists p. assert (Hin : p ∈ L (PcpHead c i)) by (rewrite HL; set_solver).
    pose proof Hin as (b & Hbp & Hhome & Hp)%(listed_block m B L Hok). cbn in Hhome. subst b.
    split; [lia|]. split; [done|]. split; [done|].
    destruct (unlink_ok m B L Hok (PcpHead c i) p m) as (N & Hrun & Hring & Hdom & Hnull); [done|done|done|].
    exists N. split; [done|]. split; [done|]. set (m' := set_pcps _ _). assert (Hf : frame m m') by (by split).
    split; [|by split]. exists (unlinked L (PcpHead c i) p). pose proof (unlinked_length m B L Hok _ _ Hin) as Hlen.
    split.
    + apply (frame_layout m m'); [done|apply Hok].
    + apply (frame_blocks m m'); [done|]. by apply (blocks_retype m B p (mkBlock (InPcp c i) 0) InUse); [apply Hok|..].
    + eapply (lists_recache m m' B _ L _ c i q Hok Hf Hlive Hq); [done| |by apply (unlinked_nodup m B L)| | | |done].
      * apply (unlinked_mem m B L Hok (PcpHead c i) p); [done|]. intros []; cbn; naive_solver.
      * intros h' Hne. unfold unlinked. by rewrite decide_False.
      * rewrite HL in Hlen. cbn in Hlen. lia.
      * cbn [m' set_pcps pcps]. do 2 f_equal. rewrite HL in Hlen. cbn [length] in Hlen. lia.
    + intros r Hr'. destruct (ok_pages _ _ _ Hok r Hr') as (pg & H1 & H2 & H3 & H4 & H5 & H6). exists pg. split; [done|].
      split; [by apply Hdom|]. destruct (decide (r = p)) as [->|]; [|unfold page_ok; by rewrite lookup_insert_ne].
      unfold page_ok. rewrite lookup_insert_eq. rewrite Hbp in H3. split; [|split; [|split]]; [|by intros ? [=]|done|by intros ? ? ? [=]].
      rewrite H3. split; intros [o [=]].
Qed.

Lemma pcp_alloc_ok m B c i :
  mem_ok m B -> live m (PcpHead c i) ->
  (pcp_alloc c i m = Ret (None, m) /\ (forall p, B !! p <> Some (mkBlock (InPcp c i) 0)) /\
     exists q, pcps m !! (c, i) = Some q /\ count q = 0) \/
  exists p m' q, pcp_alloc c i m = Ret (Some (pfn_to_page m p), m') /\ B !! p = Some (mkBlock (InPcp c i) 0) /\
    mem_ok m' (<[p := mkBlock InUse 0]> B) /\ only (fun _ => False) m m' /\
    nodes m' !! lru m p = Some (mkNode Null Null) /\ pcps m !! (c, i) = Some q /\
    pcps m' = <[(c, i) := mkPcp (high q) (batch q) (count q - 1)]> (pcps m).
Proof.
  intros Hok Hlive. pose proof Hok as [L Hphys]. destruct (li_count _ _ _ (ok_lists _ _ _ Hphys) c i Hlive) as (q & Hq & _).
  unfold pcp_alloc. rewrite (kbind_ret _ _ _ _ _ (get_pcp_ok _ _ _ _ Hq)).
  destruct (pcp_list m B c i q Hok Hlive Hq) as [(Hc & Hn & Hno)|(p & Hc & Hn & Hb & N & Hrun & Hnull & Hok' & Honly)].
  - left. rewrite Hc. cbn. split; [done|]. split; [done|]. by exists q.
  - right. destruct (Z.ltb_spec 0 (count q)); [|lia]. apply nxt_Some in Hn as (h & Hh & Hnext).
    rewrite (kbind_ret _ _ _ _ _ (get_node_ok _ _ _ Hh)), Hnext. rewrite bool_decide_true by done.
    rewrite (kbind_ret _ _ _ _ _ Hrun). assert (Hq1 : pcps (set_nodes m N) !! (c, i) = Some q) by done.
    rewrite (kbind_ret _ _ _ _ _ (set_count_ok _ _ _ _ _ Hq1)). unfold sub32. rewrite Z.mod_small by lia.
    eexists p, _, q. split; [reflexivity|]. split; [done|]. split; [exact Hok'|]. split; [exact Honly|]. split; [exact Hnull|]. done.
Qed.

Lemma pcp_free_ok m B c i p z q pg :
  mem_ok m B -> live m (PcpHead c i) -> B !! p = Some (mkBlock InUse 0) -> in_zone m z p 1 -> i = zone_index z ->
  pcps m !! (c, i) = Some q -> count q + 1 < 4294967296 ->
  pages m !! pfn_to_page m p = Some pg -> owner pg = owner_raw Pcp ->
  exists m', pcp_free c i (pfn_to_page m p) m = Ret (tt, m') /\ mem_ok m' (<[p := mkBlock (InPcp c i) 0]> B) /\
    only (fun _ => False) m m' /\ pcps m' = <[(c, i) := mkPcp (high q) (batch q) (count q + 1)]> (pcps m).
Proof.
  intros [L Hok] Hlive Hb Hz Hi Hq Hlt Hpg Hown. pose proof (ok_lists _ _ _ Hok) as Hli.
  destruct (block_bounds m B p _ (ok_layout _ _ _ Hok) (ok_blocks _ _ _ Hok) Hb) as [Hp _].
  destruct (li_count _ _ _ Hli c i Hlive) as (q' & Hq' & Hc & _). rewrite Hq in Hq'. injection Hq' as <-.
  pose proof (in_use_unlisted _ _ _ Hok _ _ Hb) as Hno.
  unfold pcp_free. rewrite (kbind_ret _ _ _ _ _ (get_pcp_ok _ _ _ _ Hq)).
  destruct (link_ok m B L Hok (PcpHead c i) p m) as (N & Hrun & Hring & Hdom); [done..|].
  change (Lru (pfn_to_page m p)) with (lru m p). rewrite (kbind_ret _ _ _ _ _ Hrun).
  assert (Hq1 : pcps (set_nodes m N) !! (c, i) = Some q) by done. rewrite (set_count_ok _ _ _ _ _ Hq1).
  unfold add32. rewrite Z.mod_small by lia. eexists. split; [reflexivity|]. set (m' := set_pcps _ _).
  assert (Hf : frame m m') by (by split). split; [|split; [by split|done]]. exists (pushed L (PcpHead c i) p).
  assert (Hsing : pushed L (PcpHead c i) p (PcpHead c i) = p :: L (PcpHead c i)) by (unfold pushed; by rewrite decide_True).
  split.
  - apply (frame_layout m m'); [done|apply Hok].
  - apply (frame_blocks m m'); [done|]. apply (blocks_retype m B p (mkBlock InUse 0)); [apply Hok|done|].
    intros ? ? [= <- <-]. cbn in Hlive. destruct Hlive as (? & ? & ?). split_and!; try done; try lia. by exists z.
  - eapply (lists_recache m m' B _ L _ c i q Hok Hf Hlive Hq); [done| |by apply (pushed_nodup m B L)| | | |done].
    + by apply (pushed_mem m B L Hok (PcpHead c i) p (mkBlock InUse 0)).
    + intros h' Hne. unfold pushed. by rewrite decide_False.
    + rewrite Hsing. cbn [length]. lia.
    + cbn [m' set_pcps pcps]. rewrite Hsing. cbn [length]. do 2 f_equal. lia.
  - intros r Hr. destruct (ok_pages _ _ _ Hok r Hr) as (pg' & H1 & H2 & H3 & H4 & H5 & H6). exists pg'. split; [done|].
    split; [by apply Hdom|]. destruct (decide (r = p)) as [->|]; [|unfold page_ok; by rewrite lookup_insert_ne].
    unfold page_ok. rewrite lookup_insert_eq. rewrite Hb in H3. rewrite Hpg in H1. injection H1 as <-.
    split; [|split; [|split]]; [|by intros ? [=]|done|done]. rewrite H3. split; intros [o [=]].
Qed.

(** Setting the owner of a page in use. *)
Lemma set_owner_ok m B p o own :
  mem_ok m B -> B !! p = Some (mkBlock InUse o) ->
  exists m' pg, set_owner (pfn_to_page m p) own m = Ret (tt, m') /\ mem_ok m' B /\ only (eq p) m m' /\ pcps m' = pcps m /\
    nodes m' = nodes m /\ pages m !! pfn_to_page m p = Some pg /\ pages m' !! pfn_to_page m p = Some (with_owner (owner_raw own) pg).
Proof.
  intros Hok Hb. pose proof (cached_bounds m B p _ Hok Hb) as Hp. destruct Hok as [L Hphys].
  destruct (ok_pages _ _ _ Hphys p Hp) as (pg & Hpg & _).
  destruct (page_update_ok m B p pg (with_owner (owner_raw own))) as (m' & H1 & H2 & H3 & H4 & H5 & H6); try done.
  - by exists L.
  - intros k o' Hk. rewrite Hb in Hk. by injection Hk as <-.
  - exists m', pg. done.
Qed.

Lemma refill_loop_ok c z left added m B q :
  mem_ok m B -> live m (PcpHead c (zone_index z)) -> initialized (get_zone z m) = true ->
  pcps m !! (c, zone_index z) = Some q -> count q + Z.of_nat left < 4294967296 ->
  exists n m' B' q', refill_loop c (zone_index z) z left added m = Ret (n, m') /\ advance m B m' B' /\
    pcps m' !! (c, zone_index z) = Some q' /\ count q' <= count q + Z.of_nat left /\
    forall k, k <> (c, zone_index z) -> pcps m' !! k = pcps m !! k.
Proof.
  revert added m B q. induction left as [|left IH]; intros added m B q Hok Hlive Hi Hq Hlt.
  { exists added, m, B, q. split; [done|]. split; [by apply advance_refl|]. split; [done|]. split; [lia|done]. }
  cbn [refill_loop]. rewrite (kbind_ret (gets _) _ m (get_zone z m) m) by done.
  destruct (free_list_head m B z 0 Hok Hi ltac:(done)) as [[Hget _]|(p & n & Hget & Hn & Hnx & Hb & Hz)];
    rewrite (kbind_ret _ _ _ _ _ (lift_ok _ _ m Hget)).
  { cbn. exists added, m, B, q. split; [done|]. split; [by apply advance_refl|]. split; [done|]. split; [lia|done]. }
  destruct (Z.eqb_spec n 0); [done|]. apply nxt_Some in Hnx as (h & Hh & Hnx).
  rewrite (kbind_ret _ _ _ _ _ (get_node_ok _ _ _ Hh)), Hnx. rewrite bool_decide_false by done. cbn [lru container_of].
  rewrite (kbind_ret (mret _) _ m _ m eq_refl).
  destruct (remove_from_buddy_ok m B z p 0 Hok Hb Hz) as (m1 & Hrun1 & Hok1 & Hon1 & Hpc1).
  rewrite (kbind_ret _ _ _ _ _ Hrun1). cbn [negb]. set (B1 := <[p := mkBlock InUse 0]> B) in *.
  assert (Hb1 : B1 !! p = Some (mkBlock InUse 0)) by apply lookup_insert_eq.
  destruct (set_owner_ok m1 B1 p 0 Pcp Hok1 Hb1) as (m2 & pg & Hrun2 & Hok2 & Hon2 & Hpc2 & _ & Hpg1 & Hpg2).
  rewrite (frame_pfn_to_page m m1) in Hrun2, Hpg1, Hpg2 by apply Hon1. rewrite (kbind_ret _ _ _ _ _ Hrun2).
  assert (Hf2 : frame m m2) by (transitivity m1; [apply Hon1|apply Hon2]).
  assert (Hq2 : pcps m2 !! (c, zone_index z) = Some q) by (by rewrite Hpc2, Hpc1).
  destruct (pcp_free_ok m2 B1 c (zone_index z) p z q (with_owner (owner_raw Pcp) pg)) as (m3 & Hrun3 & Hok3 & Hon3 & Hpc3); try done.
  { by apply (live_frame m m2). } { by apply (frame_in_zone m m2). } { lia. } { by rewrite (frame_pfn_to_page m m2). }
  rewrite (frame_pfn_to_page m m2) in Hrun3 by done. rewrite (kbind_ret _ _ _ _ _ Hrun3). unfold B1 in Hok3. rewrite insert_insert_eq in Hok3.
  assert (Hadv : advance m B m3 (<[p := mkBlock (InPcp c (zone_index z)) 0]> B)).
  { split; [done|by apply (evolves_retype B p (mkBlock InBuddy 0))|]. pose proof (outside_managed m B p _ Hok Hb ltac:(done)) as Hout.
    eapply only_trans; [eapply only_mono; [|exact Hon1]; by intros ? <-|].
    eapply only_trans; [eapply only_mono; [|exact Hon2]; by intros ? <-|]. eapply only_mono; [|exact Hon3]. done. }
  assert (Hf3 : frame m m3) by apply Hadv.
  destruct (IH (added + 1) m3 _ (mkPcp (high q) (batch q) (count q + 1)) Hok3) as (n' & m' & B' & q' & Hrun' & Hadv' & Hq' & Hc' & Hk').
  { by apply (live_frame m m3). } { by destruct (fr_zone _ _ Hf3 z) as (_ & _ & ->). }
  { rewrite Hpc3. apply lookup_insert_eq. } { cbn. lia. }
  exists n', m', B', q'. split; [done|]. split; [by eapply advance_trans|]. split; [done|]. cbn in Hc'. split; [lia|].
  intros k Hk. rewrite Hk' by done. rewrite Hpc3, lookup_insert_ne by done. by rewrite Hpc2, Hpc1.
Qed.

Lemma drain_loop_ok c z left drained m B q :
  mem_ok m B -> live m (PcpHead c (zone_index z)) -> pcps m !! (c, zone_index z) = Some q ->
  exists n m' B' q', drain_loop c (zone_index z) z left drained m = Ret (n, m') /\ advance m B m' B' /\
    pcps m' !! (c, zone_index z) = Some q' /\ count q' = Z.max 0 (count q - Z.of_nat left) /\
    forall k, k <> (c, zone_index z) -> pcps m' !! k = pcps m !! k.
Proof.
  revert drained m B q. induction left as [|left IH]; intros drained m B q Hok Hlive Hq.
  { exists drained, m, B, q. split; [done|]. split; [by apply advance_refl|]. split; [done|]. split; [|done].
    destruct Hok as [L Hphys]. destruct (li_count _ _ _ (ok_lists _ _ _ Hphys) _ _ Hlive) as (q' & Hq' & Hc & _).
    rewrite Hq in Hq'. injection Hq' as <-. lia. }
  cbn [drain_loop].
  destruct (pcp_alloc_ok m B c (zone_index z) Hok Hlive) as [(Hrun & _ & q0 & Hq0 & Hc0)|(p & m1 & q0 & Hrun & Hb & Hok1 & Hon1 & _ & Hq0 & Hpc1)];
    rewrite (kbind_ret _ _ _ _ _ Hrun); rewrite Hq in Hq0; injection Hq0 as <-.
  { exists drained, m, B, q. split; [done|]. split; [by apply advance_refl|]. split; [done|]. split; [lia|done]. }
  destruct Hok as [L Hphys]. assert (Hok : mem_ok m B) by (by exists L).
  destruct (bo_pcp _ _ (ok_blocks _ _ _ Hphys) _ _ _ _ Hb) as (_ & _ & _ & z' & Hz & Hzi).
  assert (z' = z) as -> by (rewrite <- (idx_to_zone_type_index z), Hzi; symmetry; apply idx_to_zone_type_index).
  destruct (li_count _ _ _ (ok_lists _ _ _ Hphys) _ _ Hlive) as (q' & Hq' & Hc & _). rewrite Hq in Hq'. injection Hq' as <-.
  assert (Hcpos : 0 < count q).
  { rewrite Hc. assert (Hin : p ∈ L (PcpHead c (zone_index z))) by (apply (li_mem _ _ _ (ok_lists _ _ _ Hphys)); by eexists).
    destruct (L (PcpHead c (zone_index z))); [by apply elem_of_nil in Hin|cbn; lia]. }
  destruct (add_to_buddy_ok m1 (<[p := mkBlock InUse 0]> B) z p 0) as (m2 & Hrun2 & Hok2 & Hon2 & Hpc2); [done|apply lookup_insert_eq| |].
  { apply (frame_in_zone m m1); [apply Hon1|done]. }
  rewrite (frame_pfn_to_page m m1) in Hrun2 by apply Hon1. rewrite (kbind_ret _ _ _ _ _ Hrun2). rewrite insert_insert_eq in Hok2.
  assert (Hadv : advance m B m2 (<[p := mkBlock InBuddy 0]> B)).
  { split; [done|by apply (evolves_retype B p (mkBlock (InPcp c (zone_index z)) 0))|].
    pose proof (outside_managed m B p _ Hok Hb ltac:(done)) as Hout.
    eapply only_trans; [eapply only_mono; [|exact Hon1]; done|]. eapply only_mono; [|exact Hon2]. by intros ? <-. }
  destruct (IH (drained + 1) m2 _ (mkPcp (high q) (batch q) (count q - 1)) Hok2) as (n' & m' & B' & q' & Hrun' & Hadv' & Hq' & Hc' & Hk').
  { apply (live_frame m m2); [apply Hadv|done]. } { rewrite Hpc2, Hpc1. apply lookup_insert_eq. }
  exists n', m', B', q'. split; [done|]. split; [by eapply advance_trans|]. split; [done|]. cbn in Hc'. split; [lia|].
  intros k Hk. rewrite Hk' by done. rewrite Hpc2, Hpc1, lookup_insert_ne by done. done.
Qed.

(** A page that has just left the cache of its own zone passes the checks. *)
Lemma accept_page_ok m B z p pg :
  mem_ok m B -> B !! p = Some (mkBlock InUse 0) -> in_zone m z p 1 ->
  pages m !! pfn_to_page m p = Some pg -> owner pg = owner_raw Pcp ->
  exists m', accept_page (zone_index z) (pfn_to_page m p) m = Ret (true, m') /\ mem_ok m' B /\ only (eq p) m m' /\
    pcps m' = pcps m /\ nodes m' = nodes m /\ pages m' !! pfn_to_page m p = Some (with_owner (owner_raw Allocated) pg).
Proof.
  intros Hok Hb Hz Hpg Hown. pose proof (cached_bounds m B p _ Hok Hb) as Hp. pose proof Hok as [L Hphys].
  pose proof (ok_layout _ _ _ Hphys) as Hl. unfold accept_page.
  rewrite (kbind_ret (gets _) _ m true m) by (unfold gets; by rewrite page_ptr_in_vmemmap by (done || apply Hl)). cbn [negb].
  rewrite (kbind_ret _ _ _ _ _ (get_page_ok _ _ _ Hpg)).
  destruct (ok_pages _ _ _ Hphys p Hp) as (pg' & Hpg' & _ & _ & _ & Hzid & _). rewrite Hpg in Hpg'. injection Hpg' as <-.
  rewrite (Hzid z Hz), Z.eqb_refl, Hown. cbn [negb]. rewrite bool_decide_true by done. cbn [negb].
  destruct (set_owner_ok m B p 0 Allocated Hok Hb) as (m' & pg2 & Hrun & H1 & H2 & H3 & H4 & H5 & H6).
  rewrite Hpg in H5. injection H5 as <-. exists m'. rewrite (kbind_ret _ _ _ _ _ Hrun). done.
Qed.

(** A page handed out by a cache, and the state behind it. *)
Definition cached_page (m : Mem) (B : gmap Z Block) (z : ZoneType) (m' : Mem) (p : Z) : Prop :=
  in_zone m z p 1 /\ phys m' = phys m /\ (exists B', takes m B m' B' p 0) /\
  exists pg, pages m' !! pfn_to_page m p = Some pg /\ is_buddy pg = false.

Lemma is_buddy_in_use m B p o :
  mem_ok m B -> B !! p = Some (mkBlock InUse o) -> exists pg, pages m !! pfn_to_page m p = Some pg /\ is_buddy pg = false.
Proof.
  intros Hok Hb. pose proof (cached_bounds m B p _ Hok Hb) as Hp. destruct Hok as [L Hphys].
  destruct (ok_pages _ _ _ Hphys p Hp) as (pg & Hpg & _ & Hbud & _). exists pg. split; [done|].
  destruct (is_buddy pg); [|done]. destruct (proj1 Hbud eq_refl) as [o' Ho']. rewrite Hb in Ho'. done.
Qed.

Lemma take_cached m B m1 B1 c z :
  advance m B m1 B1 -> live m1 (PcpHead c (zone_index z)) ->
  (exists q, pcp_alloc c (zone_index z) m1 = Ret (None, m1) /\ pcps m1 !! (c, zone_index z) = Some q /\ count q = 0) \/
  exists p m2 m' q, pcp_alloc c (zone_index z) m1 = Ret (Some (pfn_to_page m p), m2) /\
    accept_page (zone_index z) (pfn_to_page m p) m2 = Ret (true, m') /\ cached_page m B z m' p /\
    pcps m1 !! (c, zone_index z) = Some q /\
    pcps m' = <[(c, zone_index z) := mkPcp (high q) (batch q) (count q - 1)]> (pcps m1).
Proof.
  intros Hadv Hlive. pose proof Hadv as [Hok1 Hev Hon]. pose proof (on_frame _ _ _ Hon) as Hf.
  destruct (pcp_alloc_ok m1 B1 c (zone_index z) Hok1 Hlive) as [(Hrun & _ & q & Hq & Hc)|(p & m2 & q & Hrun & Hb & Hok2 & Hon2 & _ & Hq & Hpc)].
  { left. by exists q. }
  right. pose proof (cached_bounds m1 B1 p _ Hok1 Hb) as Hp. pose proof Hok1 as [L Hphys].
  destruct (bo_pcp _ _ (ok_blocks _ _ _ Hphys) _ _ _ _ Hb) as (_ & _ & _ & z' & Hz & Hzi).
  assert (z' = z) as -> by (rewrite <- (idx_to_zone_type_index z), Hzi; symmetry; apply idx_to_zone_type_index).
  destruct (ok_pages _ _ _ Hphys p Hp) as (pg & Hpg & _ & _ & _ & _ & Hown). specialize (Hown _ _ _ Hb).
  assert (Hpg2 : pages m2 !! pfn_to_page m2 p = Some pg).
  { rewrite (frame_pfn_to_page m1 m2) by apply Hon2. rewrite (on_pages _ _ _ Hon2) by (done || tauto). done. }
  destruct (accept_page_ok m2 (<[p := mkBlock InUse 0]> B1) z p pg) as (m3 & Hacc & Hok3 & Hon3 & Hpc3 & _ & _); try done.
  { apply lookup_insert_eq. } { apply (frame_in_zone m1 m2); [apply Hon2|done]. }
  rewrite (frame_pfn_to_page m1 m2), (frame_pfn_to_page m m1) in Hacc by (done || apply Hon2).
  rewrite (frame_pfn_to_page m m1) in Hrun by done.
  assert (Hf3 : frame m1 m3) by (transitivity m2; [apply Hon2|apply Hon3]).
  exists p, m2, m3, q. split; [done|]. split; [done|]. split; [|split; [done|by rewrite Hpc3]]. split; [by apply (frame_in_zone m m1)|].
  split. { rewrite (on_phys _ _ _ Hon3), (on_phys _ _ _ Hon2). apply (on_phys _ _ _ Hon). }
  split.
  - eexists. apply (takes_intro m B m1 B1 m3 p (mkBlock (InPcp c (zone_index z)) 0)); try done.
    intros q' Hq' Hn. rewrite <- (frame_pfn_to_page m m2) by (transitivity m1; [done|apply Hon2]).
    rewrite (on_pages _ _ _ Hon3).
    + rewrite (frame_pfn_to_page m1 m2) by apply Hon2. apply (on_pages _ _ _ Hon2); [by rewrite (fr_max _ _ Hf)|tauto].
    + by rewrite (fr_max _ _ (on_frame _ _ _ Hon2)), (fr_max _ _ Hf).
    + intros <-. apply Hn. pose proof (outside_managed m1 B1 p _ Hok1 Hb ltac:(done)) as Hout.
      intros r o Hr. apply Hout. by apply (ev_used _ _ Hev).
  - rewrite <- (frame_pfn_to_page m m3) by (by transitivity m1).
    apply (is_buddy_in_use m3 (<[p := mkBlock InUse 0]> B1) p 0); [done|apply lookup_insert_eq].
Qed.

(** Between calls a cache holds at most [PCP_HIGH_DEFAULT] pages. *)
Definition pcp_quiet (m : Mem) : Prop := forall k q, pcps m !! k = Some q -> count q <= PCP_HIGH_DEFAULT.

Lemma pcp_quiet_insert m m' k0 q0 :
  pcp_quiet m -> pcps m' = <[k0 := q0]> (pcps m) -> count q0 <= PCP_HIGH_DEFAULT -> pcp_quiet m'.
Proof.
  intros Hq Hm Hc k q. rewrite Hm. destruct (decide (k = k0)) as [->|]; [rewrite lookup_insert_eq; by intros [= <-]|].
  rewrite lookup_insert_ne by done. apply Hq.
Qed.

Lemma pcp_quiet_change m m' k0 q0 :
  pcp_quiet m -> pcps m' !! k0 = Some q0 -> count q0 <= PCP_HIGH_DEFAULT ->
  (forall k, k <> k0 -> pcps m' !! k = pcps m !! k) -> pcp_quiet m'.
Proof.
  intros Hq H0 Hc Hk k q Hkq. destruct (decide (k = k0)) as [->|]; [congruence|]. rewrite Hk in Hkq by done. by apply (Hq k).
Qed.

Lemma pcp_alloc_from_ok m B m0 B0 c z :
  advance m B m0 B0 -> live m0 (PcpHead c (zone_index z)) -> pcp_quiet m0 ->
  exists r m', pcp_alloc_from c (zone_index z) m0 = Ret (r, m') /\ pcp_quiet m' /\
    match r with
    | Some page => exists p, page = pfn_to_page m p /\ cached_page m B z m' p
    | None => exists B', advance m B m' B'
    end.
Proof.
  intros Hadv Hlive Hquiet. unfold pcp_alloc_from.
  destruct (take_cached m B m0 B0 c z Hadv Hlive) as [(q & Hrun & Hq & Hc)|(p & m2 & m' & q & Hrun & Hacc & Hpage & Hq & Hpc)];
    rewrite (kbind_ret _ _ _ _ _ Hrun).
  2: { rewrite (kbind_ret _ _ _ _ _ Hacc). exists (Some (pfn_to_page m p)), m'. split; [done|]. split; [|by exists p].
       eapply pcp_quiet_insert; [exact Hquiet|exact Hpc|]. cbn. pose proof (Hquiet _ _ Hq). lia. }
  rewrite idx_to_zone_type_index. rewrite (kbind_ret (gets _) _ m0 (get_zone z m0) m0) by done.
  destruct (initialized (get_zone z m0)) eqn:Hi; cbn [andb]; [|exists None, m0; eauto].
  destruct (0 <? nr_free_pages (get_zone z m0)); [|exists None, m0; eauto].
  rewrite (kbind_ret _ _ _ _ _ (get_pcp_ok _ _ _ _ Hq)).
  pose proof Hadv as [[L Hphys] _ _]. destruct (li_count _ _ _ (ok_lists _ _ _ Hphys) _ _ Hlive) as (q' & Hq' & _ & _ & _ & Hba).
  rewrite Hq in Hq'. injection Hq' as <-. rewrite Hba. unfold refill_from_buddy. change (Z.to_nat 16) with 16%nat.
  destruct (refill_loop_ok c z 16 0 m0 B0 q) as (n & m1 & B1 & q1 & Hrun1 & Hadv1 & Hq1 & Hc1 & Hk1); try done; [apply Hadv|lia|].
  rewrite (kbind_ret _ _ _ _ _ Hrun1). pose proof (advance_trans _ _ _ _ _ _ Hadv Hadv1) as Hadv'.
  assert (Hquiet1 : pcp_quiet m1) by (eapply pcp_quiet_change; [exact Hquiet|exact Hq1|unfold PCP_HIGH_DEFAULT; lia|exact Hk1]).
  assert (Hlive1 : live m1 (PcpHead c (zone_index z))) by (apply (live_frame m0 m1); [apply Hadv1|done]).
  destruct (take_cached m B m1 B1 c z Hadv' Hlive1) as [(q2 & Hrun2 & _)|(p & m2 & m' & q2 & Hrun2 & Hacc & Hpage & Hq2 & Hpc)];
    rewrite (kbind_ret _ _ _ _ _ Hrun2).
  - exists None, m1. eauto.
  - rewrite (kbind_ret _ _ _ _ _ Hacc). exists (Some (pfn_to_page m p)), m'. split; [done|]. split; [|by exists p].
    eapply pcp_quiet_insert; [exact Hquiet1|exact Hpc|]. cbn. pose proof (Hquiet1 _ _ Hq2). lia.
Qed.

Lemma pcp_alloc_loop_ok zs m B m0 B0 c :
  advance m B m0 B0 -> (forall z, z ∈ zs -> live m0 (PcpHead c (zone_index z))) -> pcp_quiet m0 ->
  exists r m', pcp_alloc_loop c (map zone_index zs) m0 = Ret (r, m') /\ pcp_quiet m' /\
    match r with
    | Some page => exists p z, z ∈ zs /\ page = pfn_to_page m p /\ cached_page m B z m' p
    | None => exists B', advance m B m' B'
    end.
Proof.
  revert m0 B0. induction zs as [|z zs IH]; intros m0 B0 Hadv Hlive Hquiet; [exists None, m0; eauto|].
  cbn [map pcp_alloc_loop].
  destruct (pcp_alloc_from_ok m B m0 B0 c z Hadv ltac:(apply Hlive; set_solver) Hquiet) as ([page|] & m1 & Hrun & Hq1 & Hr);
    rewrite (kbind_ret _ _ _ _ _ Hrun).
  - destruct Hr as (p & -> & Hp). exists (Some (pfn_to_page m p)), m1. split; [done|]. split; [done|]. exists p, z. split; [set_solver|done].
  - destruct Hr as (B1 & Hadv1). destruct (IH m1 B1 Hadv1) as (r & m' & Hrun' & Hq' & Hr'); [|done|].
    { intros z' Hz'. apply (live_frame m0 m1); [|apply Hlive; set_solver].
      pose proof (on_frame _ _ _ (ad_only _ _ _ _ Hadv)) as [b1 b2 b3 b4 b5]. pose proof (on_frame _ _ _ (ad_only _ _ _ _ Hadv1)) as [a1 a2 a3 a4 a5].
      split; [congruence..|]. intros z0. destruct (a5 z0) as (? & ? & ?), (b5 z0) as (? & ? & ?). split_and!; congruence. }
    exists r, m'. split; [done|]. split; [done|]. destruct r as [page|]; [|done]. destruct Hr' as (p & z' & ? & ? & ?).
    exists p, z'. split_and!; [set_solver|done|done].
Qed.

Lemma gfp_zones gfp : rev (zrange 0 (gfp_to_zone_idx gfp + 1)) = map zone_index (gfp_to_zone_list gfp).
Proof. unfold gfp_to_zone_idx, gfp_to_zone_list. destruct (gfp_test gfp GFP_F_DMA), (gfp_test gfp GFP_F_DMA32); reflexivity. Qed.

Lemma current_cpu_ok apic m : layout_ok m -> 0 < nr_cpus m -> 0 <= apic -> 0 <= current_cpu apic m < nr_cpus m.
Proof. intros Hl Hn Ha. unfold current_cpu. destruct (Z.ltb_spec apic (nr_cpus m)); lia. Qed.

Lemma zone_index_bounds z : 0 <= zone_index z < NR_ZONES.
Proof. by destruct z. Qed.

Lemma pcp_alloc_page_ok apic gfp m B :
  mem_ok m B -> pcp_quiet m -> 0 < nr_cpus m -> 0 <= apic ->
  exists r m', pcp_alloc_page apic gfp m = Ret (r, m') /\ pcp_quiet m' /\
    match r with
    | Some page => exists p z, z ∈ gfp_to_zone_list gfp /\ page = pfn_to_page m p /\ cached_page m B z m' p
    | None => exists B', advance m B m' B'
    end.
Proof.
  intros Hok Hq Hn Ha. pose proof (advance_refl m B Hok) as Hadv. unfold pcp_alloc_page.
  rewrite (kbind_ret (gets _) _ m (pcp_ready m) m) by done. destruct (pcp_ready m) eqn:Hr; cbn [negb]; [|exists None, m; eauto].
  rewrite (kbind_ret (gets _) _ m (current_cpu apic m) m) by done. rewrite gfp_zones.
  pose proof Hok as [L Hphys]. pose proof (current_cpu_ok apic m (ok_layout _ _ _ Hphys) Hn Ha) as Hc.
  apply (pcp_alloc_loop_ok _ m B m B); [done| |done]. intros z _. split; [done|]. split; [done|apply zone_index_bounds].
Qed.

Lemma pcp_free_page_ok apic m B z p pg :
  mem_ok m B -> pcp_quiet m -> pcp_ready m = true -> 0 < nr_cpus m -> 0 <= apic ->
  B !! p = Some (mkBlock InUse 0) -> in_zone m z p 1 ->
  pages m !! pfn_to_page m p = Some pg -> owner pg = owner_raw Allocated ->
  nodes m !! lru m p = Some (mkNode Null Null) ->
  exists m' B', pcp_free_page apic (pfn_to_page m p) m = Ret (tt, m') /\ gives m B m' B' p 0 /\ pcp_quiet m' /\
    phys m' = phys m /\ guards m' = guards m.
Proof.
  intros Hok Hquiet Hready Hn Ha Hb Hz Hpg Hown Hnode. pose proof (cached_bounds m B p _ Hok Hb) as Hp.
  pose proof Hok as [L Hphys]. pose proof (ok_layout _ _ _ Hphys) as Hl. unfold pcp_free_page.
  rewrite (kbind_ret (gets _) _ m true m) by (unfold gets; by rewrite <- Hready). cbn [negb].
  rewrite (kbind_ret (gets _) _ m true m) by (unfold gets; by rewrite page_ptr_in_vmemmap by (done || apply Hl)). cbn [negb].
  set (c := current_cpu apic m). rewrite (kbind_ret (gets _) _ m c m) by done. rewrite (kbind_ret _ _ _ _ _ (get_page_ok _ _ _ Hpg)).
  destruct (ok_pages _ _ _ Hphys p Hp) as (pg' & Hpg' & _ & _ & _ & Hzid & _). rewrite Hpg in Hpg'. injection Hpg' as <-.
  rewrite (Hzid z Hz). destruct (Z.leb_spec NR_PCP_LISTS (zone_index z)); [destruct z; unfold NR_PCP_LISTS, NR_ZONES in *; cbn in *; lia|].
  change (Lru (pfn_to_page m p)) with (lru m p). rewrite (kbind_ret _ _ _ _ _ (get_node_ok _ _ _ Hnode)). cbn [next prev].
  rewrite !bool_decide_false by tauto. cbn [orb]. rewrite Hown. cbn [from_raw owner_raw]. rewrite (bool_decide_false (Allocated <> Allocated)) by tauto.
  cbn [andb]. destruct (set_owner_ok m B p 0 Pcp Hok Hb) as (m1 & pg1 & Hrun1 & Hok1 & Hon1 & Hpc1 & _ & Hpg1 & Hpg1').
  rewrite (kbind_ret _ _ _ _ _ Hrun1). pose proof (current_cpu_ok apic m Hl Hn Ha) as Hc. fold c in Hc.
  pose proof (on_frame _ _ _ Hon1) as Hf1.
  assert (Hlive : live m (PcpHead c (zone_index z))) by (split; [done|split; [done|apply zone_index_bounds]]).
  assert (Hlive1 : live m1 (PcpHead c (zone_index z))) by (by apply (live_frame m m1)).
  destruct (li_count _ _ _ (ok_lists _ _ _ Hphys) _ _ Hlive) as (q & Hq & Hcnt & _ & Hhigh & Hbatch).
  pose proof (Hquiet _ _ Hq) as Hle. unfold PCP_HIGH_DEFAULT in Hle.
  destruct (pcp_free_ok m1 B c (zone_index z) p z q (with_owner (owner_raw Pcp) pg1)) as (m2 & Hrun2 & Hok2 & Hon2 & Hpc2); try done.
  { by apply (frame_in_zone m m1). } { by rewrite Hpc1. } { lia. } { by rewrite (frame_pfn_to_page m m1). }
  rewrite (frame_pfn_to_page m m1) in Hrun2 by done. rewrite (kbind_ret _ _ _ _ _ Hrun2). pose proof (on_frame _ _ _ Hon2) as Hf2.
  assert (Hf : frame m m2) by (by transitivity m1). set (q2 := mkPcp (high q) (batch q) (count q + 1)) in *.
  assert (Hq2 : pcps m2 !! (c, zone_index z) = Some q2) by (rewrite Hpc2; apply lookup_insert_eq).
  unfold above_high. rewrite (kbind_ret _ _ m2 (64 <? count q + 1) m2) by (rewrite (kbind_ret _ _ _ _ _ (get_pcp_ok _ _ _ _ Hq2)); cbn; by rewrite Hhigh).
  assert (Hpages : forall r, 0 <= r < max_pfn m -> ~ outside (delete p B) r -> pages m2 !! pfn_to_page m r = pages m !! pfn_to_page m r).
  { intros r Hr Hnr. rewrite <- (frame_pfn_to_page m m1) by done. rewrite (on_pages _ _ _ Hon2); [|by rewrite (fr_max _ _ Hf1)|tauto].
    rewrite (frame_pfn_to_page m m1) by done. apply (on_pages _ _ _ Hon1); [done|]. intros <-. apply Hnr.
    apply (block_outside m B p 0); [done|done|cbn; lia]. }
  assert (Hph : phys m2 = phys m /\ guards m2 = guards m).
  { split; [rewrite (on_phys _ _ _ Hon2); apply Hon1|rewrite (on_guards _ _ _ Hon2); apply Hon1]. }
  destruct (Z.ltb_spec 64 (count q + 1)).
  - rewrite idx_to_zone_type_index. rewrite (kbind_ret (gets _) _ m2 (get_zone z m2) m2) by done.
    assert (initialized (get_zone z m2) = true) as -> by (destruct (fr_zone _ _ Hf z) as (_ & _ & ->); apply Hz).
    rewrite (kbind_ret _ _ _ _ _ (get_pcp_ok _ _ _ _ Hq2)). cbn [q2 batch]. rewrite Hbatch. unfold drain_to_buddy. change (Z.to_nat 16) with 16%nat.
    destruct (drain_loop_ok c z 16 0 m2 _ q2 Hok2) as (n & m3 & B3 & q3 & Hrun3 & Hadv3 & Hq3 & Hc3 & Hk3); [by apply (live_frame m m2)|done|].
    rewrite (kbind_ret _ _ _ _ _ Hrun3). exists m3, B3. split; [done|]. split; [eapply (gives_intro m B m2); [| | |exact Hadv3]; done|]. split.
    + intros k qk Hkq. destruct (decide (k = (c, zone_index z))) as [->|Hne].
      * rewrite Hq3 in Hkq. injection Hkq as <-. rewrite Hc3. unfold q2, PCP_HIGH_DEFAULT. cbn [count]. lia.
      * rewrite Hk3, Hpc2, lookup_insert_ne, Hpc1 in Hkq by done. by apply (Hquiet k).
    + pose proof (ad_only _ _ _ _ Hadv3) as Hon3. rewrite (on_phys _ _ _ Hon3), (on_guards _ _ _ Hon3). done.
  - exists m2, (<[p := mkBlock (InPcp c (zone_index z)) 0]> B). split; [done|]. split; [|split; [|done]].
    + eapply (gives_intro m B m2 m2 _ p 0 (InPcp c (zone_index z))); [done|done|done|by apply advance_refl].
    + eapply (pcp_quiet_insert m m2); [exact Hquiet|by rewrite Hpc2, Hpc1|]. unfold q2, PCP_HIGH_DEFAULT. cbn. lia.
Qed.
