(* ===== verification/Buddy.v ===== *)
(** * The buddy allocator: kernel/src/mm/phys/buddy.rs

    Allocation of [2^order] contiguous pages by splitting larger blocks, release with
    merging of free buddies, and the building of the free lists at boot.  The diagnostic
    prints are left out. *)

From S2P Require Import Prelude Page Zone Pcp.

Definition sanitize_page_for_allocator (page order : Z) : Kern unit :=
  clear_flag page (Z.lor SLAB PGTABLE);;
  set_owner page Allocated;;
  set_private page 0;;
  set_next (Lru page) Null;;
  set_prev (Lru page) Null;;
  set_order page order.

Definition mm_state_ready (m : Mem) : bool := negb (vmemmap_base m =? 0) && negb (max_pfn m =? 0).

(** [write_bytes] of zeros through the direct mapping. *)
Definition write_zeros (addr size : Z) : Kern unit :=
  modify (fun m => set_phys m (fun a => if (addr <=? a) && (a <? addr + size) then 0 else phys m a)).

(** The loops of [prep_compound_page] and [destroy_compound_page]: the pages at the given
    offsets from [page] get new flags. *)
Fixpoint flag_pages (f : Page -> Page) (page : Z) (idxs : list Z) : Kern unit :=
  match idxs with
  | [] => mret tt
  | i :: idxs' =>
      pfn ← gets (fun m => add64 (page_to_pfn m page) i);
      p ← gets (fun m => pfn_to_page m pfn);
      update_page p f;;
      flag_pages f page idxs'
  end.

Definition prep_compound_page (page order : Z) : Kern unit :=
  let nr_pages := pages_per_order order in
  set_flag page (Z.lor HEAD COMPOUND);;
  flag_pages (set_flag_pure (Z.lor TAIL COMPOUND)) page (zrange 1 nr_pages).

Definition destroy_compound_page (page order : Z) : Kern unit :=
  let nr_pages := pages_per_order order in
  flag_pages (clear_flag_pure (Z.lor (Z.lor HEAD TAIL) COMPOUND)) page (zrange 0 nr_pages).

(** The splitting loop; [n] is [current_order - low_order]. *)
Fixpoint split_loop (z : ZoneType) (pfn : Z) (n : nat) (current_order : Z) : Kern unit :=
  match n with
  | O => mret tt
  | S n' =>
      let current_order := current_order - 1 in
      let buddy_pfn := add64 pfn (pages_per_order current_order) in
      buddy_page ← gets (fun m => pfn_to_page m buddy_pfn);
      add_to_buddy z buddy_page current_order;;
      split_loop z pfn n' current_order
  end.

Definition expand_and_alloc (z : ZoneType) (high_order low_order gfp : Z) : Kern (option Z) :=
  h ← get_node (FreeHead z high_order);
  page ← container_of (next h);
  ok ← remove_from_buddy z page high_order;
  if negb ok then mret None
  else
    pfn ← gets (fun m => page_to_pfn m page);
    split_loop z pfn (Z.to_nat (high_order - low_order)) high_order;;
    set_count_one page;;
    clear_flag page BUDDY;;
    sanitize_page_for_allocator page low_order;;
    when (gfp_test gfp GFP_F_ZERO)
      (write_zeros (mul64 pfn PAGE_SIZE) (mul64 (pages_per_order low_order) PAGE_SIZE));;
    when (gfp_test gfp GFP_F_COMP && (0 <? low_order)) (prep_compound_page page low_order);;
    mret (Some page).

(** The search upwards from the requested order. *)
Fixpoint zone_alloc_loop (z : ZoneType) (order gfp : Z) (orders : list Z) : Kern (option Z) :=
  match orders with
  | [] => mret None
  | current_order :: orders' =>
      x ← gets (get_zone z);
      n ← lift (vec_get (free_area x) current_order);
      if negb (n =? 0) then expand_and_alloc z current_order order gfp
      else zone_alloc_loop z order gfp orders'
  end.
Definition zone_alloc_pages (z : ZoneType) (order gfp : Z) : Kern (option Z) :=
  zone_alloc_loop z order gfp (zrange order MAX_ORDER).

Fixpoint alloc_from_zones (zs : list ZoneType) (order gfp : Z) : Kern (option Z) :=
  match zs with
  | [] => mret None
  | z :: zs' =>
      x ← gets (get_zone z);
      if negb (initialized x) then alloc_from_zones zs' order gfp
      else
        r ← zone_alloc_pages z order gfp;
        match r with
        | Some page =>
            inside ← gets (fun m => is_page_ptr_in_vmemmap m page);
            if negb inside then alloc_from_zones zs' order gfp else mret (Some page)
        | None => alloc_from_zones zs' order gfp
        end
  end.

Definition alloc_pages (order gfp : Z) : Kern (option Z) :=
  ready ← gets mm_state_ready;
  if negb ready then mret None
  else if MAX_ORDER <=? order then mret None
  else alloc_from_zones (gfp_to_zone_list gfp) order gfp.

(** The merging loop; [n] is [MAX_ORDER - 1 - current_order]. *)
Fixpoint merge_loop (z : ZoneType) (n : nat) (pfn current_order : Z) : Kern (Z * Z) :=
  match n with
  | O => mret (pfn, current_order)
  | S n' =>
      let buddy_pfn := get_buddy_pfn pfn current_order in
      x ← gets (get_zone z);
      if negb (contains_pfn x buddy_pfn) then mret (pfn, current_order)
      else
        buddy_page ← gets (fun m => pfn_to_page m buddy_pfn);
        pg ← get_page buddy_page;
        if negb (is_buddy pg) || negb (order pg =? current_order mod 256) then mret (pfn, current_order)
        else
          ok ← remove_from_buddy z buddy_page current_order;
          if negb ok then mret (pfn, current_order)
          else merge_loop z n' (Z.min pfn buddy_pfn) (current_order + 1)
  end.

Section Cpu.
Context (apic_id : Z).

Definition free_pages (page order : Z) : Kern unit :=
  if MAX_ORDER <=? order then mret tt
  else
    r ← try_put page;
    match r with
    | Err _ => mret tt
    | Ok remaining =>
        if 0 <? remaining then mret tt
        else
          pg ← get_page page;
          when (is_compound pg) (destroy_compound_page page order);;
          sanitize_page_for_allocator page order;;
          cached ← gets pcp_initialized;
          if (order =? 0) && cached then pcp_free_page apic_id page
          else
            pfn ← gets (fun m => page_to_pfn m page);
            found ← gets (fun m => pfn_to_zone m pfn);
            match found with
            | None => mret tt
            | Some z =>
                '(pfn, current_order) ← merge_loop z (Z.to_nat (MAX_ORDER - 1 - order)) pfn order;
                page ← gets (fun m => pfn_to_page m pfn);
                add_to_buddy z page current_order
            end
    end.

Definition alloc_page (gfp : Z) : Kern (option Z) :=
  ready ← gets mm_state_ready;
  if negb ready then mret None
  else
    cached ← gets pcp_initialized;
    r ← (if (cached : bool) then pcp_alloc_page apic_id gfp else mret None);
    match r with
    | Some page =>
        inside ← gets (fun m => is_page_ptr_in_vmemmap m page);
        if negb inside then alloc_pages 0 gfp
        else
          set_count_one page;;
          clear_flag page BUDDY;;
          sanitize_page_for_allocator page 0;;
          when (gfp_test gfp GFP_F_ZERO)
            (pfn ← gets (fun m => page_to_pfn m page); write_zeros (mul64 pfn PAGE_SIZE) PAGE_SIZE);;
          mret (Some page)
    | None => alloc_pages 0 gfp
    end.

Definition free_page (page : Z) : Kern unit := free_pages page 0.
End Cpu.

(** The largest order that the position allows: the loop that counts [order] down. *)
Fixpoint pick_order (n : nat) (pfn end_pfn : Z) : Z :=
  match n with
  | O => 0
  | S n' =>
      let block_pages := pages_per_order (Z.of_nat n) in
      if (pfn mod block_pages =? 0) && (add64 pfn block_pages <=? end_pfn) then Z.of_nat n
      else pick_order n' pfn end_pfn
  end.

Fixpoint init_loop (fuel : nat) (z : ZoneType) (pfn end_pfn : Z) : Kern unit :=
  match fuel with
  | O => fun _ => OutOfFuel
  | S fuel' =>
      if pfn <? end_pfn then
        let order := pick_order 10 pfn end_pfn in
        page ← gets (fun m => pfn_to_page m pfn);
        add_to_buddy z page order;;
        init_loop fuel' z (add64 pfn (pages_per_order order)) end_pfn
      else mret tt
  end.

(** Every round advances by at least one page, so [end - start + 1] rounds are enough. *)
Definition init_zone_buddy (z : ZoneType) (start_pfn end_pfn : Z) : Kern unit :=
  init_loop (Z.to_nat (end_pfn - start_pfn) + 1) z start_pfn end_pfn.

Definition zone_buddy_stats (x : Zone) : list Z := free_area x.

(** ** Preparing the descriptor of a block in use *)
Record prepared (m : Mem) (B : gmap Z Block) (p : Z) (m' : Mem) : Prop := {
  pr_ok : mem_ok m' B;
  pr_only : only (eq p) m m';
  pr_pcps : pcps m' = pcps m
}.

Lemma prepared_trans m1 m2 m3 B p : prepared m1 B p m2 -> prepared m2 B p m3 -> prepared m1 B p m3.
Proof. intros [o1 n1 c1] [o2 n2 c2]. split; [done|by eapply only_trans|congruence]. Qed.

Lemma in_use_unmanaged B p o : B !! p = Some (mkBlock InUse o) -> unmanaged B p.
Proof. intros Hb k o' Hk. rewrite Hb in Hk. by injection Hk as <-. Qed.

Section Prepare.
Context (m0 : Mem) (B : gmap Z Block) (p ord : Z).
Hypothesis Hb : B !! p = Some (mkBlock InUse ord).

(** One update of the descriptor, in a state [m] that is a later version of [m0]. *)
Lemma step_page m pg f :
  frame m0 m -> mem_ok m B -> pages m !! pfn_to_page m0 p = Some pg -> is_buddy (f pg) = is_buddy pg -> zone_id (f pg) = zone_id pg ->
  exists m', update_page (pfn_to_page m0 p) f m = Ret (tt, m') /\ prepared m B p m' /\ nodes m' = nodes m /\
    pages m' !! pfn_to_page m0 p = Some (f pg).
Proof.
  intros Hf Hok Hpg H1 H2. rewrite <- (frame_pfn_to_page m0 m) in * by done.
  destruct (page_update_ok m B p pg f Hok) as (m' & Hrun & Hok' & Hon & Hpc & Hn & Hp'); try done.
  { by apply (cached_bounds m B p _ Hok Hb). } { by eapply in_use_unmanaged. }
  exists m'. split; [done|]. split; [by split|done].
Qed.

Lemma step_next m n x :
  frame m0 m -> mem_ok m B -> nodes m !! lru m0 p = Some n ->
  exists m', set_next (lru m0 p) x m = Ret (tt, m') /\ prepared m B p m' /\ pages m' = pages m /\
    nodes m' !! lru m0 p = Some (mkNode x (prev n)).
Proof.
  intros Hf Hok Hn. unfold set_next. rewrite (kbind_ret _ _ _ _ _ (get_node_ok _ _ _ Hn)). rewrite <- (frame_lru m0 m) by done.
  destruct (node_update_ok m B p (mkNode x (prev n)) Hok) as (m' & Hrun & Hok' & Hon & Hpc & Hpg & Hn').
  { by apply (cached_bounds m B p _ Hok Hb). } { by eapply in_use_unmanaged. }
  exists m'. split; [done|]. split; [|done]. split; [done|eapply only_mono; [|exact Hon]; done|done].
Qed.

Lemma step_prev m n x :
  frame m0 m -> mem_ok m B -> nodes m !! lru m0 p = Some n ->
  exists m', set_prev (lru m0 p) x m = Ret (tt, m') /\ prepared m B p m' /\ pages m' = pages m /\
    nodes m' !! lru m0 p = Some (mkNode (next n) x).
Proof.
  intros Hf Hok Hn. unfold set_prev. rewrite (kbind_ret _ _ _ _ _ (get_node_ok _ _ _ Hn)). rewrite <- (frame_lru m0 m) by done.
  destruct (node_update_ok m B p (mkNode (next n) x) Hok) as (m' & Hrun & Hok' & Hon & Hpc & Hpg & Hn').
  { by apply (cached_bounds m B p _ Hok Hb). } { by eapply in_use_unmanaged. }
  exists m'. split; [done|]. split; [|done]. split; [done|eapply only_mono; [|exact Hon]; done|done].
Qed.

(** The descriptor after [sanitize_page_for_allocator]. *)
Definition sanitized (o : Z) (pg : Page) : Page :=
  with_order (o mod 256) (with_private 0 (with_owner (owner_raw Allocated) (clear_flag_pure (Z.lor SLAB PGTABLE) pg))).

Lemma sanitize_ok m pg o :
  frame m0 m -> mem_ok m B -> pages m !! pfn_to_page m0 p = Some pg ->
  exists m', sanitize_page_for_allocator (pfn_to_page m0 p) o m = Ret (tt, m') /\ prepared m B p m' /\
    nodes m' !! lru m0 p = Some (mkNode Null Null) /\ pages m' !! pfn_to_page m0 p = Some (sanitized o pg).
Proof.
  intros Hf Hok Hpg. assert (Hp : 0 <= p < max_pfn m) by (by apply (cached_bounds m B p _ Hok Hb)).
  pose proof Hok as [L Hphys]. destruct (ok_pages _ _ _ Hphys p Hp) as (_ & _ & [n Hn] & _). rewrite (frame_lru m0 m) in Hn by done.
  unfold sanitize_page_for_allocator, clear_flag, set_owner, set_private, set_order.
  destruct (step_page m pg (clear_flag_pure (Z.lor SLAB PGTABLE))) as (m1 & R1 & P1 & N1 & G1); try done.
  { rewrite is_buddy_clear_flag. cbn. by rewrite andb_true_r. }
  rewrite (kbind_ret _ _ _ _ _ R1).
  assert (F1 : frame m0 m1) by (transitivity m; [done|apply P1]).
  destruct (step_page m1 _ (with_owner (owner_raw Allocated)) F1 (pr_ok _ _ _ _ P1) G1) as (m2 & R2 & P2 & N2 & G2); try done.
  rewrite (kbind_ret _ _ _ _ _ R2).
  assert (F2 : frame m0 m2) by (transitivity m1; [done|apply P2]).
  destruct (step_page m2 _ (with_private 0) F2 (pr_ok _ _ _ _ P2) G2) as (m3 & R3 & P3 & N3 & G3); try done.
  rewrite (kbind_ret _ _ _ _ _ R3).
  assert (F3 : frame m0 m3) by (transitivity m2; [done|apply P3]). rewrite <- N1, <- N2, <- N3 in Hn.
  change (Lru (pfn_to_page m0 p)) with (lru m0 p).
  destruct (step_next m3 n Null F3 (pr_ok _ _ _ _ P3) Hn) as (m4 & R4 & P4 & G4 & N4).
  rewrite (kbind_ret _ _ _ _ _ R4).
  assert (F4 : frame m0 m4) by (transitivity m3; [done|apply P4]).
  destruct (step_prev m4 _ Null F4 (pr_ok _ _ _ _ P4) N4) as (m5 & R5 & P5 & G5 & N5).
  rewrite (kbind_ret _ _ _ _ _ R5).
  assert (F5 : frame m0 m5) by (transitivity m4; [done|apply P5]). rewrite <- G4, <- G5 in G3.
  destruct (step_page m5 _ (with_order (o mod 256)) F5 (pr_ok _ _ _ _ P5) G3) as (m6 & -> & P6 & N6 & G6); try done.
  exists m6. split; [done|]. split; [|rewrite N6; done]. eauto 10 using prepared_trans.
Qed.
End Prepare.

(** ** Splitting *)
(** The blocks after [n] halvings of the block at [p] of order [cur]. *)
Fixpoint splits (B : gmap Z Block) (p : Z) (n : nat) (cur : Z) : gmap Z Block :=
  match n with
  | O => B
  | S n' => splits (<[p + 2 ^ (cur - 1) := mkBlock InBuddy (cur - 1)]> (<[p := mkBlock InUse (cur - 1)]> B)) p n' (cur - 1)
  end.

Lemma splits_head B p n cur :
  0 <= cur - Z.of_nat n -> B !! p = Some (mkBlock InUse cur) -> splits B p n cur !! p = Some (mkBlock InUse (cur - Z.of_nat n)).
Proof.
  revert B cur. induction n as [|n IH]; intros B cur Hn Hb; [by rewrite Z.sub_0_r|]. cbn [splits].
  pose proof (pow2_pos (cur - 1) ltac:(lia)). rewrite IH; [do 2 f_equal; lia|lia|].
  rewrite lookup_insert_ne by lia. apply lookup_insert_eq.
Qed.

Lemma split_step_ok m B z p c :
  mem_ok m B -> 0 <= c -> B !! p = Some (mkBlock InUse (c + 1)) -> in_zone m z p 1 ->
  let B1 := <[p + 2 ^ c := mkBlock InBuddy c]> (<[p := mkBlock InUse c]> B) in
  exists m', add_to_buddy z (pfn_to_page m (p + 2 ^ c)) c m = Ret (tt, m') /\ mem_ok m' B1 /\
    only (eq (p + 2 ^ c)) m m' /\ pcps m' = pcps m /\
    (forall q o, q <> p -> B1 !! q = Some (mkBlock InUse o) <-> B !! q = Some (mkBlock InUse o)) /\
    (forall x, covered B1 x <-> covered B x).
Proof.
  intros Hok Hc Hb Hz B1. pose proof (pow2_pos c Hc) as Hpos. pose proof (pow2_succ c Hc) as Hsucc. pose proof Hok as [L Hphys].
  assert (Hnone : B !! (p + 2 ^ c) = None).
  { eapply (no_block_inside m B); [apply Hphys|exact Hb|cbn; lia]. }
  assert (Hzb : in_zone m z (p + 2 ^ c) 1).
  { apply (block_in_zone m B) with (b := mkBlock InUse (c + 1)) in Hz; try apply Hphys; [|done]. cbn in Hz.
    eapply in_zone_shrink; [exact Hz|lia|lia]. }
  pose proof (split_block m B p c Hok Hc Hb) as Hsp.
  destruct (add_to_buddy_ok m (split_of B p c) z (p + 2 ^ c) c) as (m' & Hrun & Hok' & Hon & Hpc); [done|apply lookup_insert_eq|done|].
  assert (HB1 : <[p + 2 ^ c := mkBlock InBuddy c]> (split_of B p c) = B1) by (unfold split_of, B1; by rewrite insert_insert_eq).
  rewrite HB1 in Hok'. exists m'. split; [done|]. split; [done|]. split; [done|]. split; [done|]. split.
  - intros q o Hne. unfold B1. destruct (decide (q = p + 2 ^ c)) as [->|]; [rewrite lookup_insert_eq, Hnone; done|].
    by rewrite !lookup_insert_ne by done.
  - intros x. rewrite <- HB1. rewrite (retype_covered (split_of B p c) (p + 2 ^ c) (mkBlock InUse c)) by apply lookup_insert_eq.
    by apply split_covered.
Qed.

Lemma split_loop_ok z p n cur m B :
  mem_ok m B -> B !! p = Some (mkBlock InUse cur) -> in_zone m z p 1 -> Z.of_nat n <= cur ->
  exists m', split_loop z p n cur m = Ret (tt, m') /\ mem_ok m' (splits B p n cur) /\
    only (fun q => p < q < p + 2 ^ cur) m m' /\ pcps m' = pcps m /\
    (forall q o, q <> p -> splits B p n cur !! q = Some (mkBlock InUse o) <-> B !! q = Some (mkBlock InUse o)) /\
    (forall x, covered (splits B p n cur) x <-> covered B x).
Proof.
  revert cur m B. induction n as [|n IH]; intros cur m B Hok Hb Hz Hn.
  { exists m. cbn. split; [done|]. split; [done|]. split; [apply only_refl|]. done. }
  cbn [split_loop splits]. set (c := cur - 1). assert (Hcur : cur = c + 1) by lia. clearbody c. subst cur.
  assert (Hc : 0 <= c) by lia. pose proof (pow2_pos c Hc) as Hpos. pose proof (pow2_succ c Hc) as Hsucc.
  pose proof Hok as [L Hphys]. pose proof (ok_layout _ _ _ Hphys) as Hl.
  destruct (block_bounds m B p _ Hl (ok_blocks _ _ _ Hphys) Hb) as [Hp Hpe]. cbn in Hpe.
  destruct (bo_order _ _ (ok_blocks _ _ _ Hphys) _ _ Hb) as [Ho _]. cbn in Ho. pose proof (lo_max _ Hl). unfold PAGE_SIZE in *.
  rewrite (proj1 (pages_per_order_eq c ltac:(unfold MAX_ORDER in *; lia))). rewrite add64_small by lia.
  rewrite (kbind_ret (gets _) _ m (pfn_to_page m (p + 2 ^ c)) m) by done.
  destruct (split_step_ok m B z p c Hok Hc) as (m1 & Hrun1 & Hok1 & Hon1 & Hpc1 & Hu1 & Hcov1); [done|done|].
  rewrite (kbind_ret _ _ _ _ _ Hrun1). set (B1 := <[p + 2 ^ c := mkBlock InBuddy c]> (<[p := mkBlock InUse c]> B)) in *.
  destruct (IH c m1 B1 Hok1) as (m' & Hrun & Hok' & Hon & Hpc & Hu & Hcov).
  { unfold B1. rewrite lookup_insert_ne by lia. apply lookup_insert_eq. }
  { by apply (frame_in_zone m m1); [apply Hon1|]. } { lia. }
  exists m'. split; [done|]. split; [done|]. split; [|split; [congruence|split]].
  - eapply only_trans; [eapply only_mono; [|exact Hon1]; intros q <-; lia|]. eapply only_mono; [|exact Hon]. intros q Hq. cbn beta in *. lia.
  - intros q o Hne. by rewrite Hu, Hu1.
  - intros x. by rewrite Hcov, Hcov1.
Qed.

(** ** Compound pages *)
Definition same_but_flags (pg pg' : Page) : Prop :=
  refcount pg' = refcount pg /\ mapcount pg' = mapcount pg /\ zone_id pg' = zone_id pg /\ order pg' = order pg /\
  owner pg' = owner pg /\ private pg' = private pg /\ is_buddy pg' = is_buddy pg.

Lemma same_but_flags_refl pg : same_but_flags pg pg.
Proof. unfold same_but_flags. by split_and!. Qed.
Lemma same_but_flags_trans a b c : same_but_flags a b -> same_but_flags b c -> same_but_flags a c.
Proof. unfold same_but_flags. intros (?&?&?&?&?&?&?) (?&?&?&?&?&?&?). split_and!; congruence. Qed.

Lemma block_page_unmanaged m B p o q :
  mem_ok m B -> B !! p = Some (mkBlock InUse o) -> p <= q < p + 2 ^ o -> unmanaged B q.
Proof.
  intros [L Hok] Hb Hq. destruct (decide (q = p)) as [->|]; [by eapply in_use_unmanaged|].
  intros k o' Hk. rewrite (no_block_inside m B p _ q (ok_blocks _ _ _ Hok) Hb) in Hk; [done|]. cbn. lia.
Qed.

Lemma flag_pages_ok f m0 B p o idxs m pg :
  (forall pg, same_but_flags pg (f pg)) -> B !! p = Some (mkBlock InUse o) -> (forall i, i ∈ idxs -> 0 <= i < 2 ^ o) ->
  frame m0 m -> mem_ok m B -> pages m !! pfn_to_page m0 p = Some pg ->
  exists m' pg', flag_pages f (pfn_to_page m0 p) idxs m = Ret (tt, m') /\ mem_ok m' B /\ only (fun q => p <= q < p + 2 ^ o) m m' /\
    pcps m' = pcps m /\ nodes m' = nodes m /\ pages m' !! pfn_to_page m0 p = Some pg' /\ same_but_flags pg pg'.
Proof.
  intros Hfl Hb. revert m pg. induction idxs as [|i idxs IH]; intros m pg Hi Hf Hok Hpg.
  { exists m, pg. cbn. split; [done|]. split; [done|]. split; [apply only_refl|]. split; [done|]. split; [done|]. split; [done|]. apply same_but_flags_refl. }
  pose proof Hok as [L Hphys]. pose proof (ok_layout _ _ _ Hphys) as Hl. specialize (Hi i ltac:(set_solver)) as Hib.
  destruct (block_bounds m B p _ Hl (ok_blocks _ _ _ Hphys) Hb) as [Hp Hpe]. cbn in Hpe. pose proof (lo_max _ Hl). unfold PAGE_SIZE in *.
  cbn [flag_pages]. rewrite (kbind_ret (gets _) _ m (p + i) m).
  2: { unfold gets. rewrite <- (frame_pfn_to_page m0 m) by done. by rewrite page_to_pfn_ok, add64_small by (lia || apply Hl). }
  rewrite (kbind_ret (gets _) _ m (pfn_to_page m (p + i)) m) by done.
  destruct (ok_pages _ _ _ Hphys (p + i) ltac:(lia)) as (pgi & Hpgi & _). destruct (Hfl pgi) as (_ & _ & Hz & _ & _ & _ & Hbud).
  destruct (page_update_ok m B (p + i) pgi f Hok) as (m1 & Hrun & Hok1 & Hon1 & Hpc1 & Hn1 & Hpg1); try done; [lia|eapply block_page_unmanaged; [done|done|lia]|].
  rewrite (kbind_ret _ _ _ _ _ Hrun). assert (Hf1 : frame m0 m1) by (transitivity m; [done|apply Hon1]).
  assert (exists pg1, pages m1 !! pfn_to_page m0 p = Some pg1 /\ same_but_flags pg pg1) as (pg1 & Hpg1' & Hsb1).
  { destruct (decide (i = 0)) as [->|].
    - rewrite Z.add_0_r in *. rewrite (frame_pfn_to_page m0 m) in Hpgi, Hpg1 by done. rewrite Hpg in Hpgi. injection Hpgi as <-. by exists (f pg).
    - exists pg. split; [|apply same_but_flags_refl]. rewrite <- (frame_pfn_to_page m0 m) in * by done.
      rewrite (on_pages _ _ _ Hon1); [done|done|lia]. }
  destruct (IH m1 pg1) as (m' & pg' & Hrun' & Hok' & Hon' & Hpc' & Hn' & Hpg' & Hsb'); try done; [intros j Hj; apply Hi; set_solver|].
  exists m', pg'. split; [done|]. split; [done|]. split; [|split; [congruence|split; [congruence|split; [done|by eapply same_but_flags_trans]]]].
  eapply only_trans; [|exact Hon']. eapply only_mono; [|exact Hon1]. intros q <-. lia.
Qed.

Lemma set_flag_same f pg : Z.testbit f 2 = false -> same_but_flags pg (set_flag_pure f pg).
Proof. intros Hf. unfold same_but_flags. split_and!; try done. rewrite is_buddy_set_flag, Hf. apply orb_false_r. Qed.
Lemma clear_flag_same f pg : Z.testbit f 2 = false -> same_but_flags pg (clear_flag_pure f pg).
Proof. intros Hf. unfold same_but_flags. split_and!; try done. rewrite is_buddy_clear_flag, Hf. apply andb_true_r. Qed.

(** ** Allocation *)
Lemma mem_ok_phys m B f : mem_ok m B -> mem_ok (set_phys m f) B.
Proof.
  intros [L Hok]. exists L. assert (Hf : frame m (set_phys m f)) by (by split). destruct Hok as [Hl Hb Hli Hp].
  split; [by apply (frame_layout m)|by apply (frame_blocks m)| |done]. by destruct Hli.
Qed.

Definition zeroed (on : bool) (p o : Z) (before after : Z -> Z) : Prop :=
  forall a, after a = if on && (p * PAGE_SIZE <=? a) && (a <? (p + 2 ^ o) * PAGE_SIZE) then 0 else before a.

(** The descriptor of a block that has just been allocated. *)
Definition fresh_page (m : Mem) (p o : Z) : Prop :=
  exists pg, pages m !! pfn_to_page m p = Some pg /\ refcount pg = 1 /\ order pg = o /\ owner pg = owner_raw Allocated /\
    private pg = 0 /\ is_buddy pg = false.

Lemma zero_step on p o m B :
  mem_ok m B -> B !! p = Some (mkBlock InUse o) ->
  exists m', when on (write_zeros (mul64 p PAGE_SIZE) (mul64 (pages_per_order o) PAGE_SIZE)) m = Ret (tt, m') /\
    mem_ok m' B /\ frame m m' /\ pages m' = pages m /\ nodes m' = nodes m /\ pcps m' = pcps m /\ guards m' = guards m /\
    zeroed on p o (phys m) (phys m').
Proof.
  intros Hok Hb. pose proof Hok as [L Hphys]. pose proof (ok_layout _ _ _ Hphys) as Hl.
  destruct (block_bounds m B p _ Hl (ok_blocks _ _ _ Hphys) Hb) as [Hp Hpe]. cbn in Hpe.
  destruct (bo_order _ _ (ok_blocks _ _ _ Hphys) _ _ Hb) as [Ho _]. cbn in Ho. pose proof (lo_max _ Hl). unfold PAGE_SIZE in *.
  destruct (pages_per_order_eq o Ho) as [-> Hpo]. rewrite !mul64_small by lia. destruct on.
  - eexists. split; [reflexivity|]. split; [by apply mem_ok_phys|]. split; [by split|]. split_and!; try done.
    intros a. cbn. replace (p * 4096 + 2 ^ o * 4096) with ((p + 2 ^ o) * 4096) by lia. done.
  - exists m. split; [done|]. split; [done|]. split; [done|]. split_and!; try done.
Qed.

Lemma compound_step on p o m B pg :
  mem_ok m B -> B !! p = Some (mkBlock InUse o) -> pages m !! pfn_to_page m p = Some pg ->
  exists m' pg', when on (prep_compound_page (pfn_to_page m p) o) m = Ret (tt, m') /\
    mem_ok m' B /\ only (fun q => p <= q < p + 2 ^ o) m m' /\ pcps m' = pcps m /\ nodes m' = nodes m /\
    pages m' !! pfn_to_page m p = Some pg' /\ same_but_flags pg pg'.
Proof.
  intros Hok Hb Hpg. destruct on.
  2: { exists m, pg. split; [done|]. split; [done|]. split; [apply only_refl|]. split; [done|]. split; [done|]. split; [done|apply same_but_flags_refl]. }
  cbn [when]. unfold prep_compound_page, set_flag. pose proof Hok as [L Hphys].
  destruct (bo_order _ _ (ok_blocks _ _ _ Hphys) _ _ Hb) as [Ho _]. cbn in Ho. destruct (pages_per_order_eq o Ho) as [-> Hpo].
  set (f1 := set_flag_pure (Z.lor HEAD COMPOUND)). assert (Hf1 : same_but_flags pg (f1 pg)) by (by apply set_flag_same).
  destruct (step_page m B p o Hb m pg f1) as (m1 & Hrun1 & [Hok1 Hon1 Hpc1] & Hn1 & Hpg1); try done; try apply Hf1.
  rewrite (kbind_ret _ _ _ _ _ Hrun1).
  destruct (flag_pages_ok (set_flag_pure (Z.lor TAIL COMPOUND)) m B p o (zrange 1 (2 ^ o)) m1 (f1 pg))
    as (m' & pg' & Hrun & Hok' & Hon & Hpc & Hn & Hpg' & Hsb); try done.
  { intros pg0. by apply set_flag_same. } { intros i Hi%elem_of_zrange. lia. } { apply Hon1. }
  exists m', pg'. split; [done|]. split; [done|]. split; [|split; [congruence|split; [congruence|split; [done|by eapply same_but_flags_trans]]]].
  eapply only_trans; [|exact Hon]. eapply only_mono; [|exact Hon1]. intros q <-. lia.
Qed.

Lemma expand_ok m B z p hi lo gfp h :
  mem_ok m B -> 0 <= lo <= hi -> hi < MAX_ORDER -> nodes m !! FreeHead z hi = Some h -> next h = lru m p ->
  B !! p = Some (mkBlock InBuddy hi) -> in_zone m z p 1 ->
  let B' := splits (<[p := mkBlock InUse hi]> B) p (Z.to_nat (hi - lo)) hi in
  exists m', expand_and_alloc z hi lo gfp m = Ret (Some (pfn_to_page m p), m') /\ mem_ok m' B' /\ takes m B m' B' p lo /\
    fresh_page m' p lo /\ zeroed (gfp_test gfp GFP_F_ZERO) p lo (phys m) (phys m') /\ pcps m' = pcps m /\ guards m' = guards m.
Proof.
  intros Hok Hlo Hhi Hh Hnx Hb Hz B'. pose proof (cached_bounds m B p _ Hok Hb) as Hp. pose proof Hok as [L Hphys].
  pose proof (ok_layout _ _ _ Hphys) as Hl. pose proof (outside_managed m B p _ Hok Hb ltac:(done)) as Hout.
  unfold expand_and_alloc. rewrite (kbind_ret _ _ _ _ _ (get_node_ok _ _ _ Hh)), Hnx. cbn [lru container_of].
  rewrite (kbind_ret (mret _) _ m _ m eq_refl).
  destruct (remove_from_buddy_ok m B z p hi Hok Hb Hz) as (m1 & Hrun1 & Hok1 & Hon1 & Hpc1).
  rewrite (kbind_ret _ _ _ _ _ Hrun1). cbn [negb]. set (B1 := <[p := mkBlock InUse hi]> B) in *. pose proof (on_frame _ _ _ Hon1) as F1.
  rewrite (kbind_ret (gets _) _ m1 p m1) by (unfold gets; rewrite (frame_page_to_pfn m m1) by done; rewrite page_to_pfn_ok by (done || apply Hl); done).
  assert (Hb1 : B1 !! p = Some (mkBlock InUse hi)) by apply lookup_insert_eq.
  destruct (split_loop_ok z p (Z.to_nat (hi - lo)) hi m1 B1 Hok1 Hb1) as (m2 & Hrun2 & Hok2 & Hon2 & Hpc2 & Hu2 & Hcov2).
  { by apply (frame_in_zone m m1). } { lia. }
  rewrite (kbind_ret _ _ _ _ _ Hrun2). fold B' in Hok2, Hu2, Hcov2. assert (F2 : frame m m2) by (transitivity m1; [done|apply Hon2]).
  assert (Hb2 : B' !! p = Some (mkBlock InUse lo)) by (unfold B'; rewrite splits_head by (done || lia); do 2 f_equal; lia).
  destruct (is_buddy_in_use m2 B' p lo Hok2 Hb2) as (pg & Hpg & Hbud). rewrite (frame_pfn_to_page m m2) in Hpg by done.
  unfold set_count_one, clear_flag.
  destruct (step_page m B' p lo Hb2 m2 pg (with_refcount 1) F2 Hok2 Hpg) as (m3 & R3 & P3 & _ & G3); try done.
  rewrite (kbind_ret _ _ _ _ _ R3). assert (F3 : frame m m3) by (transitivity m2; [done|apply P3]).
  destruct (step_page m B' p lo Hb2 m3 _ (clear_flag_pure BUDDY) F3 (pr_ok _ _ _ _ P3) G3) as (m4 & R4 & P4 & _ & G4); try done.
  { rewrite is_buddy_clear_flag. change (is_buddy (with_refcount 1 pg)) with (is_buddy pg). by rewrite Hbud. }
  rewrite (kbind_ret _ _ _ _ _ R4). assert (F4 : frame m m4) by (transitivity m3; [done|apply P4]).
  destruct (sanitize_ok m B' p lo Hb2 m4 _ lo F4 (pr_ok _ _ _ _ P4) G4) as (m5 & R5 & P5 & _ & G5).
  rewrite (kbind_ret _ _ _ _ _ R5). assert (F5 : frame m m5) by (transitivity m4; [done|apply P5]).
  set (pg5 := sanitized _ _) in G5.
  assert (Hon : only (fun q => p <= q < p + 2 ^ hi) m m5).
  { pose proof (pow2_pos hi ltac:(lia)). eapply only_trans; [eapply only_mono; [|exact Hon1]; intros q <-; lia|].
    eapply only_trans; [eapply only_mono; [|exact Hon2]; cbn beta; intros; lia|].
    eapply only_trans; [eapply only_mono; [|apply P3]; intros q <-; lia|].
    eapply only_trans; [eapply only_mono; [|apply P4]; intros q <-; lia|]. eapply only_mono; [|apply P5]. intros q <-. lia. }
  destruct (zero_step (gfp_test gfp GFP_F_ZERO) p lo m5 B' (pr_ok _ _ _ _ P5) Hb2) as (m6 & R6 & Hok6 & F6 & G6 & _ & Hpc6 & Hgu6 & Hzero).
  rewrite (kbind_ret _ _ _ _ _ R6). assert (F06 : frame m m6) by (by transitivity m5). rewrite <- G6 in G5.
  rewrite <- (frame_pfn_to_page m m6) in G5 by done.
  destruct (compound_step (gfp_test gfp GFP_F_COMP && (0 <? lo)) p lo m6 B' pg5 Hok6 Hb2 G5) as (m7 & pg7 & R7 & Hok7 & Hon7 & Hpc7 & _ & G7 & Hsb).
  rewrite <- (frame_pfn_to_page m m6) by done. rewrite (kbind_ret _ _ _ _ _ R7). exists m7. split; [done|]. split; [done|].
  assert (F7 : frame m m7) by (transitivity m6; [done|apply Hon7]).
  destruct Hsb as (Hs1 & _ & _ & Hs4 & Hs5 & Hs6 & Hs7).
  split; [|split; [|split; [|split]]].
  - split; [done|done| | | |done|].
    + intros o' Ho'. rewrite Hb in Ho'. done.
    + intros q o' Hne. rewrite Hu2 by done. unfold B1. by rewrite lookup_insert_ne.
    + intros x. rewrite Hcov2. by apply (retype_covered B p (mkBlock InBuddy hi)).
    + intros q Hq Hn. rewrite <- (frame_pfn_to_page m m6) by done.
      assert (Hnb : ~ (p <= q < p + 2 ^ hi)).
      { intros Hin. apply Hn. intros r o Hr Hrq. destruct (decide (p = r)) as [->|Hne]; [rewrite Hb in Hr; done|].
        destruct (bo_disjoint _ _ (ok_blocks _ _ _ Hphys) _ _ _ _ Hb Hr Hne) as [Hd|Hd]; cbn in Hd; lia. }
      rewrite (on_pages _ _ _ Hon7).
      * rewrite G6, (frame_pfn_to_page m m6) by done. by apply (on_pages _ _ _ Hon).
      * by rewrite (fr_max _ _ F06).
      * assert (2 ^ lo <= 2 ^ hi) by (apply Z.pow_le_mono_r; lia). lia.
  - exists pg7. rewrite (frame_pfn_to_page m6 m7) by apply Hon7. split; [done|]. rewrite Hs1, Hs4, Hs5, Hs6, Hs7. split; [done|]. split.
    { cbn. apply Z.mod_small. unfold MAX_ORDER in *. lia. } split; [done|]. split; [done|].
    unfold pg5, sanitized. change (is_buddy (clear_flag_pure (Z.lor SLAB PGTABLE) (clear_flag_pure BUDDY (with_refcount 1 pg))) = false).
    rewrite !is_buddy_clear_flag. change (is_buddy (with_refcount 1 pg)) with (is_buddy pg). by rewrite Hbud.
  - rewrite (on_phys _ _ _ Hon7). rewrite <- (on_phys _ _ _ Hon). done.
  - rewrite Hpc7, Hpc6, (pr_pcps _ _ _ _ P5), (pr_pcps _ _ _ _ P4), (pr_pcps _ _ _ _ P3). congruence.
  - rewrite (on_guards _ _ _ Hon7), Hgu6. apply Hon.
Qed.

(** Zone [z] has no free block of order [o]. *)
Definition no_free (m : Mem) (B : gmap Z Block) (z : ZoneType) (o : Z) : Prop :=
  forall p, B !! p = Some (mkBlock InBuddy o) -> ~ in_zone m z p 1.

(** The outcome of an allocation that split a free block of order [hi] at [p] in zone [z]. *)
Definition allocated (m : Mem) (B : gmap Z Block) (z : ZoneType) (o gfp hi p : Z) (m' : Mem) : Prop :=
  o <= hi < MAX_ORDER /\ B !! p = Some (mkBlock InBuddy hi) /\ in_zone m z p 1 /\
  takes m B m' (splits (<[p := mkBlock InUse hi]> B) p (Z.to_nat (hi - o)) hi) p o /\ fresh_page m' p o /\
  zeroed (gfp_test gfp GFP_F_ZERO) p o (phys m) (phys m') /\ pcps m' = pcps m /\ guards m' = guards m.

Lemma zone_alloc_loop_ok m B z o gfp a :
  mem_ok m B -> initialized (get_zone z m) = true -> 0 <= o <= a -> (forall o', o <= o' < a -> no_free m B z o') ->
  (zone_alloc_loop z o gfp (zrange a MAX_ORDER) m = Ret (None, m) /\ forall o', o <= o' < MAX_ORDER -> no_free m B z o') \/
  exists hi p m', zone_alloc_loop z o gfp (zrange a MAX_ORDER) m = Ret (Some (pfn_to_page m p), m') /\
    allocated m B z o gfp hi p m' /\ forall o', o <= o' < hi -> no_free m B z o'.
Proof.
  intros Hok Hi. revert a. refine (zrange_ind _ MAX_ORDER _ _).
  - intros a Ha Ho Hno. left. rewrite zrange_empty by done. split; [done|]. intros o' Ho'. apply Hno. lia.
  - intros a Ha IH Ho Hno. rewrite zrange_cons by done. cbn [zone_alloc_loop].
    rewrite (kbind_ret (gets _) _ m (get_zone z m) m) by done.
    destruct (free_list_head m B z a Hok Hi ltac:(lia)) as [[Hget Hnone]|(p & n & Hget & Hn & Hnx & Hb & Hz)];
      rewrite (kbind_ret _ _ _ _ _ (lift_ok _ _ m Hget)).
    + cbn [negb Z.eqb]. apply IH; [lia|]. intros o' Ho'. destruct (decide (o' = a)) as [->|]; [exact Hnone|apply Hno; lia].
    + destruct (Z.eqb_spec n 0); [done|]. cbn [negb]. apply nxt_Some in Hnx as (h & Hh & Hnx).
      destruct (expand_ok m B z p a o gfp h) as (m' & Hrun & _ & Htk & Hfr & Hze & Hpc & Hgu); try done.
      right. exists a, p, m'. split; [done|]. split; [|done]. split; [lia|]. done.
Qed.

Lemma zone_alloc_pages_ok m B z o gfp :
  mem_ok m B -> initialized (get_zone z m) = true -> 0 <= o ->
  (zone_alloc_pages z o gfp m = Ret (None, m) /\ forall o', o <= o' < MAX_ORDER -> no_free m B z o') \/
  exists hi p m', zone_alloc_pages z o gfp m = Ret (Some (pfn_to_page m p), m') /\
    allocated m B z o gfp hi p m' /\ forall o', o <= o' < hi -> no_free m B z o'.
Proof. intros Hok Hi Ho. apply zone_alloc_loop_ok; [done|done|lia|]. intros o' Ho'. lia. Qed.

Lemma alloc_from_zones_ok m B zs o gfp :
  mem_ok m B -> 0 <= o ->
  (alloc_from_zones zs o gfp m = Ret (None, m) /\ forall z o', z ∈ zs -> o <= o' < MAX_ORDER -> no_free m B z o') \/
  exists z hi p m', alloc_from_zones zs o gfp m = Ret (Some (pfn_to_page m p), m') /\ z ∈ zs /\
    allocated m B z o gfp hi p m' /\ forall o', o <= o' < hi -> no_free m B z o'.
Proof.
  intros Hok Ho. induction zs as [|z zs IH]; [left; split; [done|intros ? ? []%elem_of_nil]|].
  cbn [alloc_from_zones]. rewrite (kbind_ret (gets _) _ m (get_zone z m) m) by done.
  assert (Hskip : (forall o', o <= o' < MAX_ORDER -> no_free m B z o') ->
    (alloc_from_zones zs o gfp m = Ret (None, m) /\ forall z0 o', z0 ∈ z :: zs -> o <= o' < MAX_ORDER -> no_free m B z0 o') \/
    exists z0 hi p m', alloc_from_zones zs o gfp m = Ret (Some (pfn_to_page m p), m') /\ z0 ∈ z :: zs /\
      allocated m B z0 o gfp hi p m' /\ forall o', o <= o' < hi -> no_free m B z0 o').
  { intros Hno. destruct IH as [[Hrun Hz]|(z0 & hi & p & m' & Hrun & Hin & Hrest)].
    - left. split; [done|]. intros z0 o' [->|Hin]%elem_of_cons Ho'; [by apply Hno|by apply Hz].
    - right. exists z0, hi, p, m'. split; [done|]. split; [set_solver|done]. }
  destruct (initialized (get_zone z m)) eqn:Hi; cbn [negb].
  - destruct (zone_alloc_pages_ok m B z o gfp Hok Hi Ho) as [[Hrun Hno]|(hi & p & m' & Hrun & Hal & Hmin)];
      rewrite (kbind_ret _ _ _ _ _ Hrun); [by apply Hskip|].
    pose proof Hal as (_ & Hb & _ & Htk & _). pose proof (cached_bounds m B p _ Hok Hb) as Hp. pose proof (tk_frame _ _ _ _ _ _ Htk) as Hf.
    rewrite (kbind_ret (gets _) _ m' true m').
    2: { unfold gets. rewrite <- (frame_pfn_to_page m m') by done. destruct (tk_ok _ _ _ _ _ _ Htk) as [L' Hphys'].
         rewrite page_ptr_in_vmemmap; [done|apply (ok_layout _ _ _ Hphys')|by rewrite (fr_max _ _ Hf)]. }
    right. exists z, hi, p, m'. split; [done|]. split; [set_solver|done].
  - apply Hskip. intros o' _ p _ Hz. unfold in_zone in Hz. rewrite Hi in Hz. by destruct Hz.
Qed.

Lemma mm_ready m B : mem_ok m B -> mm_state_ready m = true.
Proof.
  intros [L Hok]. destruct (lo_vmemmap _ (ok_layout _ _ _ Hok)) as (H1 & H2 & _). unfold mm_state_ready.
  destruct (Z.eqb_spec (vmemmap_base m) 0), (Z.eqb_spec (max_pfn m) 0); (done || lia).
Qed.

Lemma alloc_pages_ok m B o gfp :
  mem_ok m B -> 0 <= o < MAX_ORDER ->
  (alloc_pages o gfp m = Ret (None, m) /\ forall z o', z ∈ gfp_to_zone_list gfp -> o <= o' < MAX_ORDER -> no_free m B z o') \/
  exists z hi p m', alloc_pages o gfp m = Ret (Some (pfn_to_page m p), m') /\ z ∈ gfp_to_zone_list gfp /\
    allocated m B z o gfp hi p m' /\ forall o', o <= o' < hi -> no_free m B z o'.
Proof.
  intros Hok Ho. unfold alloc_pages. rewrite (kbind_ret (gets _) _ m true m) by (unfold gets; by rewrite (mm_ready m B)).
  cbn [negb]. destruct (Z.leb_spec MAX_ORDER o); [lia|]. by apply alloc_from_zones_ok; [|lia].
Qed.

(** C1. An allocation of [2^o] pages succeeds exactly when an allowed zone has a free block
    of order [o] or more.  It then returns a block that no client held: [2^o] pages, aligned
    to their size, in a zone the flags allow, cut from a free block of the smallest
    sufficient order of that zone, with reference count one and, when asked for, cleared.
    Lists, counters and descriptors stay consistent, no page is lost, and the other
    blocks in use keep their descriptors. *)
Theorem alloc_pages_takes_one_free_block m B o gfp :
  mem_ok m B -> 0 <= o < MAX_ORDER ->
  exists r m', alloc_pages o gfp m = Ret (r, m') /\
    match r with
    | None => m' = m /\ forall z o', z ∈ gfp_to_zone_list gfp -> o <= o' < MAX_ORDER -> no_free m B z o'
    | Some page =>
        exists z hi p B', page = pfn_to_page m p /\ z ∈ gfp_to_zone_list gfp /\ in_zone m z p (2 ^ o) /\ (2 ^ o | p) /\
          B !! p = Some (mkBlock InBuddy hi) /\ (forall o', o <= o' < hi -> no_free m B z o') /\
          takes m B m' B' p o /\ fresh_page m' p o /\ zeroed (gfp_test gfp GFP_F_ZERO) p o (phys m) (phys m')
    end.
Proof.
  intros Hok Ho. destruct (alloc_pages_ok m B o gfp Hok Ho) as [[Hrun Hno]|(z & hi & p & m' & Hrun & Hin & Hal & Hmin)].
  - exists None, m. done.
  - exists (Some (pfn_to_page m p)), m'. split; [done|]. destruct Hal as (Hhi & Hb & Hz & Htk & Hfr & Hze & _).
    eexists z, hi, p, _. split; [done|]. split; [done|]. pose proof Htk as [[L Hphys] Hnew _ _ _ Hf _].
    assert (Hz' : in_zone m z p (2 ^ o)).
    { apply (frame_in_zone m m' z p _ Hf). apply (frame_in_zone m m') in Hz; [|done].
      exact (block_in_zone m' _ z p _ (ok_layout _ _ _ Hphys) (ok_blocks _ _ _ Hphys) Hnew Hz). }
    split; [done|]. split; [apply (bo_order _ _ (ok_blocks _ _ _ Hphys) _ _ Hnew)|]. split_and!; try done.
Qed.

(** ** Merging *)
(** Merging on the blocks: as long as the buddy lies in the zone and is free at the same
    order, the two become one block. *)
Fixpoint coalesce (inside : Z -> bool) (n : nat) (B : gmap Z Block) (p o : Z) : gmap Z Block * Z * Z :=
  match n with
  | O => (B, p, o)
  | S n' =>
      let b := get_buddy_pfn p o in
      if inside b && bool_decide (B !! b = Some (mkBlock InBuddy o))
      then coalesce inside n' (merge_of (<[b := mkBlock InUse o]> B) (Z.min p b) o) (Z.min p b) (o + 1)
      else (B, p, o)
  end.

Lemma buddy_pair p o :
  0 <= o < MAX_ORDER -> (2 ^ o | p) ->
  let b := get_buddy_pfn p o in let lo := Z.min p b in
  b <> p /\ (2 ^ (o + 1) | lo) /\ ((p = lo /\ b = lo + 2 ^ o) \/ (b = lo /\ p = lo + 2 ^ o)).
Proof.
  intros Ho Hd b lo. pose proof (pow2_pos o ltac:(lia)). unfold lo. destruct (buddy_cases p o Ho Hd) as [[Hb Hal]|[Hb Hal]]; fold b in Hb.
  - rewrite Z.min_l by lia. split; [lia|]. split; [done|]. left. lia.
  - rewrite Z.min_r by lia. split; [lia|]. split; [by rewrite Hb|]. right. lia.
Qed.

Section MergeStep.
Context (m : Mem) (B : gmap Z Block) (z : ZoneType) (p o : Z).
Hypothesis Hb : B !! p = Some (mkBlock InUse o).
Let b := get_buddy_pfn p o.
Hypothesis Hbud : B !! b = Some (mkBlock InBuddy o).
Let lo := Z.min p b.
Let B1 := merge_of (<[b := mkBlock InUse o]> B) lo o.

Lemma merge_step_halves :
  0 <= o < MAX_ORDER -> (2 ^ o | p) ->
  <[b := mkBlock InUse o]> B !! lo = Some (mkBlock InUse o) /\ <[b := mkBlock InUse o]> B !! (lo + 2 ^ o) = Some (mkBlock InUse o).
Proof.
  intros Ho Hd. destruct (buddy_pair p o Ho Hd) as (Hne & _ & [[H1 H2]|[H1 H2]]); fold b lo in Hne, H1, H2.
  - rewrite <- H2, <- H1. rewrite lookup_insert_eq, lookup_insert_ne by done. done.
  - rewrite <- H2, <- H1. rewrite lookup_insert_eq, lookup_insert_ne by done. done.
Qed.

Lemma merge_step_evolves :
  0 <= o < MAX_ORDER -> (2 ^ o | p) ->
  evolves (<[p := mkBlock InBuddy o]> B) (<[lo := mkBlock InBuddy (o + 1)]> B1).
Proof.
  intros Ho Hd. destruct (merge_step_halves Ho Hd) as [Hl Hh]. destruct (buddy_pair p o Ho Hd) as (Hne & _ & Hcase). fold b lo in Hne, Hcase.
  pose proof (pow2_pos o ltac:(lia)) as Hpos. split.
  - intros q k. destruct (decide (q = lo)) as [Hq|Hq].
    { rewrite Hq, lookup_insert_eq. split; [by intros [=]|]. destruct Hcase as [[E _]|[E _]]; rewrite <- E; [rewrite lookup_insert_eq; by intros [=]|].
      rewrite lookup_insert_ne by done. rewrite Hbud. by intros [=]. }
    rewrite lookup_insert_ne by done. unfold B1. rewrite merge_lookup by lia.
    destruct (decide (q = lo + 2 ^ o)) as [Hq2|Hq2].
    { split; [intros [[? _]|(_ & ? & _)]; done|]. rewrite Hq2. destruct Hcase as [[_ E]|[_ E]]; rewrite <- E; [|rewrite lookup_insert_eq; by intros [=]].
      rewrite lookup_insert_ne by done. rewrite Hbud. by intros [=]. }
    assert (q <> p /\ q <> b) as [Hqp Hqb] by (destruct Hcase as [[E1 E2]|[E1 E2]]; rewrite E1, E2; done).
    rewrite !lookup_insert_ne by done. split; [intros [[? _]|(_ & _ & ?)]; done|auto].
  - intros x. rewrite (retype_covered B1 lo (mkBlock InUse (o + 1))) by (unfold B1, merge_of; apply lookup_insert_eq).
    unfold B1. rewrite merge_covered by (done || lia). rewrite (retype_covered B b (mkBlock InBuddy o)) by done.
    symmetry. by apply (retype_covered B p (mkBlock InUse o)).
Qed.
End MergeStep.

Lemma outside_evolves B p o B1 lo o1 q :
  evolves (<[p := mkBlock InBuddy o]> B) (<[lo := mkBlock InBuddy o1]> B1) -> outside (delete lo B1) q -> outside (delete p B) q.
Proof.
  intros [Hu _] Hout r k Hr. apply (Hout r k). specialize (Hu r k). apply lookup_delete_Some in Hr as [Hne Hr].
  rewrite (lookup_insert_ne B) in Hu by done. apply Hu in Hr. apply lookup_delete_Some.
  destruct (decide (lo = r)) as [->|]; [rewrite lookup_insert_eq in Hr; done|]. by rewrite lookup_insert_ne in Hr.
Qed.

Lemma merge_loop_ok z n p o m B :
  mem_ok m B -> B !! p = Some (mkBlock InUse o) -> in_zone m z p 1 -> Z.of_nat n = MAX_ORDER - 1 - o ->
  let '(B', p', o') := coalesce (contains_pfn (get_zone z m)) n B p o in
  exists m', merge_loop z n p o m = Ret ((p', o'), m') /\ mem_ok m' B' /\ B' !! p' = Some (mkBlock InUse o') /\ in_zone m z p' 1 /\
    only (outside (delete p B)) m m' /\ pcps m' = pcps m /\
    evolves (<[p := mkBlock InBuddy o]> B) (<[p' := mkBlock InBuddy o']> B').
Proof.
  revert p o m B. induction n as [|n IH]; intros p o m B Hok Hb Hz Hn; cbn [coalesce merge_loop].
  { exists m. split; [done|]. split; [done|]. split; [done|]. split; [done|]. split; [apply only_refl|]. done. }
  set (b := get_buddy_pfn p o). rewrite (kbind_ret (gets _) _ m (get_zone z m) m) by done.
  pose proof Hok as [L Hphys]. pose proof (ok_layout _ _ _ Hphys) as Hl. pose proof (ok_blocks _ _ _ Hphys) as Hbl.
  destruct (bo_order _ _ Hbl _ _ Hb) as [Ho Hd]. cbn in Ho, Hd.
  assert (Hstop : exists m', (mret (p, o) : Kern (Z * Z)) m = Ret ((p, o), m') /\ mem_ok m' B /\ B !! p = Some (mkBlock InUse o) /\
    in_zone m z p 1 /\ only (outside (delete p B)) m m' /\ pcps m' = pcps m /\ evolves (<[p := mkBlock InBuddy o]> B) (<[p := mkBlock InBuddy o]> B)).
  { exists m. split; [done|]. split; [done|]. split; [done|]. split; [done|]. split; [apply only_refl|]. done. }
  destruct (contains_pfn (get_zone z m) b) eqn:Hcon; cbn [negb andb]; [|done].
  apply (contains_in_zone m z b Hl (proj1 Hz)) in Hcon as Hzb. destruct (in_zone_bounds _ _ _ _ Hl Hzb ltac:(lia)) as [Hbb _].
  rewrite (kbind_ret (gets _) _ m (pfn_to_page m b) m) by done. destruct (ok_pages _ _ _ Hphys b Hbb) as (pg & Hpg & _ & Hbuddy & Hord & _).
  rewrite (kbind_ret _ _ _ _ _ (get_page_ok _ _ _ Hpg)). case_bool_decide as Hfree.
  - rewrite (proj2 Hbuddy ltac:(by eexists)), (Hord _ Hfree). rewrite Z.mod_small, Z.eqb_refl by (unfold MAX_ORDER in *; lia). cbn [negb orb].
    destruct (remove_from_buddy_ok m B z b o Hok Hfree Hzb) as (m1 & Hrun1 & Hok1 & Hon1 & Hpc1). rewrite (kbind_ret _ _ _ _ _ Hrun1). cbn [negb].
    destruct (buddy_pair p o Ho Hd) as (Hne & Hal & Hcase). fold b in Hne, Hal, Hcase. set (lo := Z.min p b) in *.
    pose proof (on_frame _ _ _ Hon1) as F1. destruct (merge_step_halves B p o Hb Ho Hd) as [Hlo Hhi]. fold b lo in Hlo, Hhi.
    pose proof (merge_step_evolves B p o Hb Hfree Ho Hd) as Hev. fold b lo in Hev. set (B1 := merge_of (<[b := mkBlock InUse o]> B) lo o) in *.
    assert (Hzz : in_zone m z lo 1 /\ in_zone m z (lo + 2 ^ o) 1) by (destruct Hcase as [[E1 E2]|[E1 E2]]; rewrite <- E2, <- E1; done).
    assert (Hok1' : mem_ok m1 B1).
    { apply (merge_block m1 _ lo o ltac:(lia) Hlo Hhi z Hok1); [unfold MAX_ORDER in *; lia|done|apply (frame_in_zone m m1); [done|apply Hzz]..]. }
    specialize (IH lo (o + 1) m1 B1 Hok1' ltac:(unfold B1, merge_of; apply lookup_insert_eq)
      ltac:(apply (frame_in_zone m m1); [done|apply Hzz]) ltac:(lia)).
    assert (Hext : contains_pfn (get_zone z m1) = contains_pfn (get_zone z m)).
    { unfold contains_pfn, end_pfn. by destruct (fr_zone _ _ F1 z) as (-> & -> & _). }
    rewrite Hext in IH. destruct (coalesce _ n B1 lo (o + 1)) as [[B' p'] o'].
    destruct IH as (m' & Hrun & Hok' & Hb' & Hz' & Hon' & Hpc' & Hev'). exists m'. split; [done|]. split; [done|]. split; [done|].
    split; [by apply (frame_in_zone m m1)|]. split; [|split; [congruence|by transitivity (<[lo := mkBlock InBuddy (o + 1)]> B1)]].
    eapply only_trans; [eapply only_mono; [|exact Hon1]|eapply only_mono; [|exact Hon']].
    + intros q <-. pose proof (outside_managed m B b _ Hok Hfree ltac:(done)) as Hout. intros r k [_ Hr]%lookup_delete_Some. by apply Hout.
    + intros q. by eapply outside_evolves.
  - assert (negb (is_buddy pg) || negb (order pg =? o mod 256) = true) as ->; [|done].
    destruct (is_buddy pg) eqn:Hib; [|done]. destruct (proj1 Hbuddy eq_refl) as [o1 Ho1]. rewrite (Hord _ Ho1).
    destruct (Z.eqb_spec o1 (o mod 256)) as [->|]; [|done]. rewrite Z.mod_small in Ho1 by (unfold MAX_ORDER in *; lia). done.
Qed.

(** ** Release *)
Lemma try_put_ok m B p o pg :
  mem_ok m B -> B !! p = Some (mkBlock InUse o) -> pages m !! pfn_to_page m p = Some pg ->
  (refcount pg = 0 /\ try_put (pfn_to_page m p) m = Ret (Err RefUnderflow, set_guards bump_ref_underflow m)) \/
  (refcount pg <> 0 /\ exists m', try_put (pfn_to_page m p) m = Ret (Ok (refcount pg - 1), m') /\ prepared m B p m' /\
     nodes m' = nodes m /\ pages m' !! pfn_to_page m p = Some (with_refcount (refcount pg - 1) pg)).
Proof.
  intros Hok Hb Hpg. unfold try_put. rewrite (kbind_ret _ _ _ _ _ (get_page_ok _ _ _ Hpg)).
  destruct (Z.eqb_spec (refcount pg) 0) as [H0|H0]; [by left|]. right. split; [done|].
  destruct (step_page m B p o Hb m pg (with_refcount (refcount pg - 1))) as (m' & Hrun & Hpr & Hn & Hpg'); try done.
  rewrite (kbind_ret _ _ _ _ _ Hrun). by exists m'.
Qed.

(** Clearing compound flags and owner before the block goes back. *)
Lemma release_prep_ok m0 m B p o pg :
  frame m0 m -> mem_ok m B -> B !! p = Some (mkBlock InUse o) -> pages m !! pfn_to_page m0 p = Some pg ->
  exists m1 m2 pg', when (is_compound pg) (destroy_compound_page (pfn_to_page m0 p) o) m = Ret (tt, m1) /\
    sanitize_page_for_allocator (pfn_to_page m0 p) o m1 = Ret (tt, m2) /\
    mem_ok m2 B /\ only (fun q => p <= q < p + 2 ^ o) m m2 /\ pcps m2 = pcps m /\ nodes m2 !! lru m0 p = Some (mkNode Null Null) /\
    pages m2 !! pfn_to_page m0 p = Some pg' /\ owner pg' = owner_raw Allocated /\ refcount pg' = refcount pg.
Proof.
  intros Hf Hok Hb Hpg. pose proof Hok as [L Hphys]. destruct (bo_order _ _ (ok_blocks _ _ _ Hphys) _ _ Hb) as [Ho _]. cbn in Ho.
  destruct (pages_per_order_eq o Ho) as [Hpo Hpb].
  assert (exists m1 pg1, when (is_compound pg) (destroy_compound_page (pfn_to_page m0 p) o) m = Ret (tt, m1) /\ mem_ok m1 B /\
    only (fun q => p <= q < p + 2 ^ o) m m1 /\ pcps m1 = pcps m /\ pages m1 !! pfn_to_page m0 p = Some pg1 /\ same_but_flags pg pg1)
    as (m1 & pg1 & R1 & Hok1 & Hon1 & Hpc1 & G1 & Hsb).
  { destruct (is_compound pg).
    - unfold when, destroy_compound_page. rewrite Hpo.
      destruct (flag_pages_ok (clear_flag_pure (Z.lor (Z.lor HEAD TAIL) COMPOUND)) m0 B p o (zrange 0 (2 ^ o)) m pg)
        as (m1 & pg1 & R1 & Hok1 & Hon1 & Hpc1 & _ & G1 & Hsb); try done.
      { intros pg0. by apply clear_flag_same. } { intros i Hi%elem_of_zrange. lia. }
      by exists m1, pg1.
    - exists m, pg. split; [done|]. split; [done|]. split; [apply only_refl|]. split; [done|]. split; [done|apply same_but_flags_refl]. }
  assert (F1 : frame m0 m1) by (transitivity m; [done|apply Hon1]).
  destruct (sanitize_ok m0 B p o Hb m1 pg1 o F1 Hok1 G1) as (m2 & R2 & P2 & N2 & G2).
  exists m1, m2, (sanitized o pg1). split; [done|]. split; [done|]. split; [apply P2|]. split; [|split].
  - eapply only_trans; [exact Hon1|]. eapply only_mono; [|apply P2]. intros q <-. lia.
  - rewrite (pr_pcps _ _ _ _ P2). done.
  - split; [done|]. split; [done|]. split; [done|]. cbn. apply Hsb.
Qed.

(** No further merge was possible: the block is of the largest order, or its buddy is outside
    the zone or not free at the same order. *)
Definition merged_fully (inside : Z -> bool) (B : gmap Z Block) (p o : Z) : Prop :=
  o = MAX_ORDER - 1 \/ inside (get_buddy_pfn p o) = false \/ B !! get_buddy_pfn p o <> Some (mkBlock InBuddy o).

Lemma coalesce_full inside n B p o :
  Z.of_nat n = MAX_ORDER - 1 - o -> let '(B', p', o') := coalesce inside n B p o in merged_fully inside B' p' o'.
Proof.
  revert B p o. induction n as [|n IH]; intros B p o Hn; cbn [coalesce]; [left; lia|].
  destruct (inside (get_buddy_pfn p o)) eqn:Hi; cbn [andb]; [|right; by left].
  case_bool_decide as Hb; [|right; by right]. apply IH. lia.
Qed.

Lemma free_pages_ok apic m B z p o pg :
  mem_ok m B -> B !! p = Some (mkBlock InUse o) -> in_zone m z p 1 ->
  pages m !! pfn_to_page m p = Some pg -> refcount pg = 1 -> (o =? 0) && pcp_ready m = false ->
  let '(B1, p', o') := coalesce (contains_pfn (get_zone z m)) (Z.to_nat (MAX_ORDER - 1 - o)) B p o in
  exists m', free_pages apic (pfn_to_page m p) o m = Ret (tt, m') /\ gives m B m' (<[p' := mkBlock InBuddy o']> B1) p o /\
    pcps m' = pcps m /\ phys m' = phys m.
Proof.
  intros Hok Hb Hz Hpg Hrc Hpath. pose proof Hok as [L Hphys]. pose proof (ok_layout _ _ _ Hphys) as Hl.
  destruct (bo_order _ _ (ok_blocks _ _ _ Hphys) _ _ Hb) as [Ho _]. cbn in Ho. pose proof (cached_bounds m B p _ Hok Hb) as Hp.
  unfold free_pages. destruct (Z.leb_spec MAX_ORDER o); [lia|].
  destruct (try_put_ok m B p o pg Hok Hb Hpg) as [[H0 _]|(_ & m1 & R1 & P1 & _ & G1)]; [lia|]. rewrite (kbind_ret _ _ _ _ _ R1), Hrc.
  cbn [Z.sub Z.ltb]. change (0 <? 1 - 1) with false. cbv iota. pose proof (on_frame _ _ _ (pr_only _ _ _ _ P1)) as F1.
  rewrite (kbind_ret _ _ _ _ _ (get_page_ok _ _ _ G1)).
  destruct (release_prep_ok m m1 B p o _ F1 (pr_ok _ _ _ _ P1) Hb G1) as (m2 & m3 & pg3 & R2 & R3 & Hok3 & Hon3 & Hpc3 & _ & _).
  rewrite (kbind_ret _ _ _ _ _ R2), (kbind_ret _ _ _ _ _ R3). assert (F3 : frame m m3) by (transitivity m1; [done|apply Hon3]).
  rewrite (kbind_ret (gets _) _ m3 (pcp_ready m) m3) by (unfold gets, pcp_initialized; by rewrite (fr_pcp _ _ F3)). rewrite Hpath.
  rewrite (kbind_ret (gets _) _ m3 p m3) by (unfold gets; rewrite (frame_page_to_pfn m m3) by done; rewrite page_to_pfn_ok by (done || apply Hl); done).
  assert (Hz3 : in_zone m3 z p 1) by (by apply (frame_in_zone m m3)). pose proof Hok3 as [L3 Hphys3].
  rewrite (kbind_ret (gets _) _ m3 (Some z) m3) by (unfold gets; rewrite (pfn_to_zone_ok m3 z p) by (done || apply Hphys3); done).
  pose proof (merge_loop_ok z (Z.to_nat (MAX_ORDER - 1 - o)) p o m3 B Hok3 Hb Hz3 ltac:(unfold MAX_ORDER in *; lia)) as Hmerge.
  assert (Hext : contains_pfn (get_zone z m3) = contains_pfn (get_zone z m)).
  { unfold contains_pfn, end_pfn. by destruct (fr_zone _ _ F3 z) as (-> & -> & _). }
  rewrite Hext in Hmerge. destruct (coalesce _ _ B p o) as [[B1 p'] o']. destruct Hmerge as (m4 & R4 & Hok4 & Hb4 & Hz4 & Hon4 & Hpc4 & Hev).
  rewrite (kbind_ret _ _ _ _ _ R4). rewrite (kbind_ret (gets _) _ m4 (pfn_to_page m4 p') m4) by done.
  destruct (add_to_buddy_ok m4 B1 z p' o' Hok4 Hb4) as (m5 & R5 & Hok5 & Hon5 & Hpc5); [by apply (frame_in_zone m3 m4); [apply Hon4|]|].
  exists m5. split; [done|]. assert (Hon : only (outside (delete p B)) m m5).
  { eapply only_trans; [eapply only_mono; [|apply P1]|]. { intros q <-. apply (block_outside m B p o); try done. pose proof (pow2_pos o ltac:(lia)). lia. }
    eapply only_trans; [eapply only_mono; [|exact Hon3]|]. { intros q Hq. by apply (block_outside m B p o). }
    eapply only_trans; [exact Hon4|]. eapply only_mono; [|exact Hon5]. intros q <-. eapply outside_evolves; [exact Hev|].
    apply (block_outside m4 B1 p' o'); [done|done|]. pose proof (pow2_pos o'). destruct Hok4 as [L4 H4].
    pose proof (bo_order _ _ (ok_blocks _ _ _ H4) _ _ Hb4) as [? _]. cbn in *. lia. }
  split; [|split; [rewrite Hpc5, Hpc4, Hpc3; apply P1|apply Hon]]. split; [done|done|apply Hon|].
  intros q Hq Hn. by apply (on_pages _ _ _ Hon).
Qed.

(** Guarding reference counts: releasing a page whose count is zero (a double free)
    changes nothing but the rejection counter, and releasing one of several references
    only lowers the count; in both cases the blocks stay as they are. *)
Theorem free_pages_respects_references apic m B p o pg :
  mem_ok m B -> B !! p = Some (mkBlock InUse o) -> pages m !! pfn_to_page m p = Some pg ->
  (refcount pg = 0 -> free_pages apic (pfn_to_page m p) o m = Ret (tt, set_guards bump_ref_underflow m)) /\
  (1 < refcount pg -> exists m', free_pages apic (pfn_to_page m p) o m = Ret (tt, m') /\ mem_ok m' B /\ only (eq p) m m' /\
     nodes m' = nodes m /\ pages m' !! pfn_to_page m p = Some (with_refcount (refcount pg - 1) pg)).
Proof.
  intros Hok Hb Hpg. assert (Ho : 0 <= o < MAX_ORDER) by (destruct Hok as [L Hphys]; by apply (bo_order _ _ (ok_blocks _ _ _ Hphys) _ _ Hb)).
  unfold free_pages. destruct (Z.leb_spec MAX_ORDER o); [lia|].
  destruct (try_put_ok m B p o pg Hok Hb Hpg) as [[H0 R]|(H0 & m1 & R & P & N & G)]; rewrite (kbind_ret _ _ _ _ _ R).
  - split; [done|lia].
  - split; [lia|]. intros Hgt. destruct (Z.ltb_spec 0 (refcount pg - 1)); [|lia]. exists m1. split; [done|]. split; [apply P|].
    split; [apply P|done].
Qed.

Lemma free_page_cached_ok apic m B z p pg :
  mem_ok m B -> pcp_quiet m -> pcp_ready m = true -> 0 < nr_cpus m -> 0 <= apic ->
  B !! p = Some (mkBlock InUse 0) -> in_zone m z p 1 -> pages m !! pfn_to_page m p = Some pg -> refcount pg = 1 ->
  exists m' B', free_page apic (pfn_to_page m p) m = Ret (tt, m') /\ gives m B m' B' p 0 /\ pcp_quiet m' /\ phys m' = phys m.
Proof.
  intros Hok Hquiet Hready Hn Ha Hb Hz Hpg Hrc. unfold free_page, free_pages. change (MAX_ORDER <=? 0) with false. cbv iota.
  destruct (try_put_ok m B p 0 pg Hok Hb Hpg) as [[H0 _]|(_ & m1 & R1 & P1 & _ & G1)]; [lia|]. rewrite (kbind_ret _ _ _ _ _ R1), Hrc.
  change (0 <? 1 - 1) with false. cbv iota. pose proof (on_frame _ _ _ (pr_only _ _ _ _ P1)) as F1.
  rewrite (kbind_ret _ _ _ _ _ (get_page_ok _ _ _ G1)).
  destruct (release_prep_ok m m1 B p 0 _ F1 (pr_ok _ _ _ _ P1) Hb G1) as (m2 & m3 & pg3 & R2 & R3 & Hok3 & Hon3 & Hpc3 & N3 & G3 & Hown & _).
  rewrite (kbind_ret _ _ _ _ _ R2), (kbind_ret _ _ _ _ _ R3). assert (F3 : frame m m3) by (transitivity m1; [done|apply Hon3]).
  rewrite (kbind_ret (gets _) _ m3 true m3) by (unfold gets, pcp_initialized; rewrite (fr_pcp _ _ F3); by rewrite Hready). cbn [Z.eqb andb].
  assert (Hpc : pcps m3 = pcps m) by (rewrite Hpc3; apply P1).
  rewrite <- (frame_pfn_to_page m m3) in G3 |- * by done. rewrite <- (frame_lru m m3) in N3 by done.
  destruct (pcp_free_page_ok apic m3 B z p pg3) as (m' & B' & Hrun & [g1 g2 g3 g4] & Hq' & Hph & _); try done.
  { intros k q. rewrite Hpc. apply Hquiet. } { by rewrite (fr_pcp _ _ F3). } { by rewrite (fr_cpus _ _ F3). } { by apply (frame_in_zone m m3). }
  exists m', B'. split; [done|]. split; [|split; [done|]].
  - split; [done|done|by transitivity m3|]. intros q Hq Hnq. rewrite <- (frame_pfn_to_page m m3) by done.
    rewrite g4 by (rewrite ?(fr_max _ _ F3); done). rewrite (frame_pfn_to_page m m3) by done. rewrite <- (frame_pfn_to_page m m1) by done.
    rewrite (on_pages _ _ _ Hon3); [|by rewrite (fr_max _ _ F1)|intros Hin; apply Hnq; by apply (block_outside m B p 0)].
    rewrite (frame_pfn_to_page m m1) by done. apply (on_pages _ _ _ (pr_only _ _ _ _ P1)); [done|]. intros <-. apply Hnq.
    apply (block_outside m B p 0); [done|done|cbn; lia].
  - rewrite Hph, (on_phys _ _ _ Hon3). apply P1.
Qed.

(** With the caches running, the release of a single page puts it in the cache of the
    current CPU, which hands pages on to the zone when it holds more than its limit: the
    page is managed again, no cache exceeds the limit, and nothing else changes hands. *)
Theorem free_page_goes_through_the_cache apic m B z p pg :
  mem_ok m B -> pcp_quiet m -> pcp_ready m = true -> 0 < nr_cpus m -> 0 <= apic ->
  B !! p = Some (mkBlock InUse 0) -> in_zone m z p 1 -> pages m !! pfn_to_page m p = Some pg -> refcount pg = 1 ->
  exists m' B', free_page apic (pfn_to_page m p) m = Ret (tt, m') /\ gives m B m' B' p 0 /\ pcp_quiet m' /\ phys m' = phys m.
Proof. apply free_page_cached_ok. Qed.


(** ** Allocation and release cancel *)
Lemma coalesce_splits inside k n B p cur :
  Z.of_nat n <= cur -> cur < MAX_ORDER -> (2 ^ cur | p) -> B !! p = Some (mkBlock InUse cur) ->
  (forall j, 0 <= j < cur -> inside (p + 2 ^ j) = true /\ B !! (p + 2 ^ j) = None) ->
  coalesce inside (n + k) (splits B p n cur) p (cur - Z.of_nat n) = coalesce inside k B p cur.
Proof.
  revert k B cur. induction n as [|n IH]; intros k B cur Hn Hcur Hal Hb Hin; [by rewrite Z.sub_0_r|].
  set (c := cur - 1). assert (Hc : cur = c + 1) by lia. clearbody c. subst cur. assert (Hc0 : 0 <= c) by lia.
  pose proof (pow2_pos c Hc0) as Hpos. destruct (Hin c ltac:(lia)) as [Hinc Hnone]. cbn [splits]. replace (c + 1 - 1) with c by lia.
  set (B1 := <[p + 2 ^ c := mkBlock InBuddy c]> (<[p := mkBlock InUse c]> B)).
  replace (S n + k)%nat with (n + S k)%nat by lia. replace (c + 1 - Z.of_nat (S n)) with (c - Z.of_nat n) by lia.
  assert (Hal' : (2 ^ c | p)) by (rewrite pow2_succ in Hal by done; destruct Hal as [x ->]; exists (2 * x); lia).
  rewrite (IH (S k) B1 c); [|lia|lia|done| |].
  - cbn [coalesce]. assert (get_buddy_pfn p c = p + 2 ^ c) as ->.
    { destruct (buddy_cases p c ltac:(lia) Hal') as [[-> _]|[_ Hbad]]; [done|]. exfalso. rewrite pow2_succ in Hal, Hbad by done.
      destruct Hal as [x Hx], Hbad as [y Hy].
      assert (2 * x - 1 = 2 * y) by (apply (Z.mul_reg_r _ _ (2 ^ c)); lia). lia. }
    rewrite Hinc, bool_decide_true by (unfold B1; apply lookup_insert_eq). cbn [andb]. rewrite Z.min_l by lia. f_equal.
    unfold merge_of, B1. rewrite insert_insert_eq. rewrite delete_insert_id; [|rewrite lookup_insert_ne by lia; done].
    rewrite insert_insert_eq. by apply insert_id.
  - unfold B1. rewrite lookup_insert_ne by lia. apply lookup_insert_eq.
  - intros j Hj. destruct (Hin j ltac:(lia)) as [H1 H2]. split; [done|]. pose proof (pow2_pos j ltac:(lia)).
    assert (2 ^ j < 2 ^ c) by (apply Z.pow_lt_mono_r; lia). unfold B1. rewrite !lookup_insert_ne by lia. done.
Qed.

(** Every free block has been merged as far as possible. *)
Definition canonical (m : Mem) (B : gmap Z Block) : Prop :=
  forall z p o, B !! p = Some (mkBlock InBuddy o) -> in_zone m z p 1 -> merged_fully (contains_pfn (get_zone z m)) B p o.

Lemma coalesce_stop inside n B p o :
  0 <= o < MAX_ORDER -> (2 ^ o | p) -> Z.of_nat n = MAX_ORDER - 1 - o -> merged_fully inside B p o ->
  coalesce inside n (<[p := mkBlock InUse o]> B) p o = (<[p := mkBlock InUse o]> B, p, o).
Proof.
  intros Ho Hal Hn Hm. destruct n as [|n]; [done|]. cbn [coalesce]. destruct (buddy_pair p o Ho Hal) as (Hne & _ & _).
  rewrite lookup_insert_ne by done. destruct Hm as [?|[->|Hno]]; [lia|done|]. rewrite bool_decide_false by done. by rewrite andb_false_r.
Qed.

(** Allocation followed by release restores the allocator: from a state in which free
    blocks are merged as far as possible, the free lists end up holding exactly the blocks
    they held before. *)
Theorem alloc_then_free_restores_the_blocks apic m B o gfp page m1 :
  mem_ok m B -> canonical m B -> 0 <= o < MAX_ORDER -> (o =? 0) && pcp_ready m = false ->
  alloc_pages o gfp m = Ret (Some page, m1) ->
  exists m2, free_pages apic page o m1 = Ret (tt, m2) /\ mem_ok m2 B.
Proof.
  intros Hok Hcan Ho Hpath Hrun. destruct (alloc_pages_ok m B o gfp Hok Ho) as [[H0 _]|(z & hi & p & m' & H1 & _ & Hal & _)];
    [rewrite H0 in Hrun; done|]. rewrite H1 in Hrun. injection Hrun as <- <-.
  destruct Hal as (Hhi & Hb & Hz & Htk & (pg & Hpg & Hrc & _) & _). pose proof Htk as [Hok1 Hnew _ _ _ Hf _].
  pose proof Hok as [L Hphys]. pose proof (ok_layout _ _ _ Hphys) as Hl. pose proof (ok_blocks _ _ _ Hphys) as Hbl.
  destruct (bo_order _ _ Hbl _ _ Hb) as [_ Hd]. cbn in Hd. pose proof (block_in_zone _ _ _ _ _ Hl Hbl Hb Hz) as Hzb. cbn in Hzb.
  assert (Hext : contains_pfn (get_zone z m') = contains_pfn (get_zone z m)).
  { unfold contains_pfn, end_pfn. by destruct (fr_zone _ _ Hf z) as (-> & -> & _). }
  pose proof (free_pages_ok apic m' _ z p o pg Hok1 Hnew ltac:(by apply (frame_in_zone m m')) Hpg Hrc) as Hfree.
  rewrite (fr_pcp _ _ Hf), Hext in Hfree. specialize (Hfree Hpath).
  replace (Z.to_nat (MAX_ORDER - 1 - o)) with (Z.to_nat (hi - o) + Z.to_nat (MAX_ORDER - 1 - hi))%nat in Hfree by (unfold MAX_ORDER in *; lia).
  pose proof (coalesce_splits (contains_pfn (get_zone z m)) (Z.to_nat (MAX_ORDER - 1 - hi)) (Z.to_nat (hi - o))
    (<[p := mkBlock InUse hi]> B) p hi ltac:(lia) ltac:(lia) Hd ltac:(apply lookup_insert_eq)) as Hco.
  replace (hi - Z.of_nat (Z.to_nat (hi - o))) with o in Hco by lia. rewrite Hco in Hfree.
  - rewrite coalesce_stop in Hfree; [|lia|done|unfold MAX_ORDER in *; lia|by apply Hcan].
    destruct Hfree as (m2 & Hrun2 & Hg & _). exists m2. rewrite <- (frame_pfn_to_page m m') by done. split; [done|].
    pose proof (gv_ok _ _ _ _ _ _ Hg) as Hok2. rewrite insert_insert_eq, insert_id in Hok2; done.
  - intros j Hj. pose proof (pow2_pos j ltac:(lia)). assert (2 ^ j < 2 ^ hi) by (apply Z.pow_lt_mono_r; lia). split.
    + apply contains_in_zone; [done|apply Hz|]. eapply in_zone_shrink; [exact Hzb|lia|lia].
    + rewrite lookup_insert_ne by lia. eapply (no_block_inside m B); [done|exact Hb|cbn; lia].
Qed.

(** ** Single pages through the caches *)
Lemma cached_finish gfp m B z m1 p :
  cached_page m B z m1 p -> 0 <= p < max_pfn m ->
  exists m', (set_count_one (pfn_to_page m p);; clear_flag (pfn_to_page m p) BUDDY;; sanitize_page_for_allocator (pfn_to_page m p) 0;;
      when (gfp_test gfp GFP_F_ZERO) (pfn ← gets (fun m' => page_to_pfn m' (pfn_to_page m p)); write_zeros (mul64 pfn PAGE_SIZE) PAGE_SIZE);;
      mret (Some (pfn_to_page m p))) m1 = Ret (Some (pfn_to_page m p), m') /\
    (exists B', takes m B m' B' p 0) /\ fresh_page m' p 0 /\ zeroed (gfp_test gfp GFP_F_ZERO) p 0 (phys m) (phys m') /\ pcps m' = pcps m1.
Proof.
  intros (Hz & Hph & (B' & Htk) & pg & Hpg & Hbud) Hp. pose proof Htk as [Hok1 Hnew Hfresh Hused Hcov F1 Hpages].
  unfold set_count_one, clear_flag.
  destruct (step_page m B' p 0 Hnew m1 pg (with_refcount 1) F1 Hok1 Hpg) as (m3 & R3 & P3 & _ & G3); try done.
  rewrite (kbind_ret _ _ _ _ _ R3). assert (F3 : frame m m3) by (transitivity m1; [done|apply P3]).
  destruct (step_page m B' p 0 Hnew m3 _ (clear_flag_pure BUDDY) F3 (pr_ok _ _ _ _ P3) G3) as (m4 & R4 & P4 & _ & G4); try done.
  { rewrite is_buddy_clear_flag. change (is_buddy (with_refcount 1 pg)) with (is_buddy pg). by rewrite Hbud. }
  rewrite (kbind_ret _ _ _ _ _ R4). assert (F4 : frame m m4) by (transitivity m3; [done|apply P4]).
  destruct (sanitize_ok m B' p 0 Hnew m4 _ 0 F4 (pr_ok _ _ _ _ P4) G4) as (m5 & R5 & P5 & _ & G5).
  rewrite (kbind_ret _ _ _ _ _ R5). assert (F5 : frame m m5) by (transitivity m4; [done|apply P5]).
  pose proof (prepared_trans _ _ _ _ _ P3 (prepared_trans _ _ _ _ _ P4 P5)) as [Hok5 Hon5 Hpc5].
  destruct (zero_step (gfp_test gfp GFP_F_ZERO) p 0 m5 B' Hok5 Hnew) as (m6 & R6 & Hok6 & F6 & G6 & _ & Hpc6 & _ & Hzero).
  change (mul64 (pages_per_order 0) PAGE_SIZE) with PAGE_SIZE in R6.
  assert (R6' : when (gfp_test gfp GFP_F_ZERO) (pfn ← gets (fun m' => page_to_pfn m' (pfn_to_page m p)); write_zeros (mul64 pfn PAGE_SIZE) PAGE_SIZE) m5 = Ret (tt, m6)).
  { destruct (gfp_test gfp GFP_F_ZERO); [|done]. cbn [when] in *. destruct Hok5 as [L5 Hphys5].
    rewrite (kbind_ret (gets _) _ m5 p m5); [done|]. unfold gets. rewrite <- (frame_pfn_to_page m m5) by done. rewrite page_to_pfn_ok; [done|apply (ok_layout _ _ _ Hphys5)|].
    by rewrite (fr_max _ _ F5). }
  rewrite (kbind_ret _ _ _ _ _ R6'). exists m6. assert (F06 : frame m m6) by (by transitivity m5). split; [done|]. split; [|split; [|split; [|congruence]]].
  - exists B'. split; try done. intros q Hq Hn. rewrite G6. rewrite <- (frame_pfn_to_page m m1) by done.
    rewrite (on_pages _ _ _ Hon5); [rewrite (frame_pfn_to_page m m1) by done; by apply Hpages|by rewrite (fr_max _ _ F1)|].
    intros <-. apply Hn. intros r k Hr Hin. destruct Hok1 as [L1 Hphys1].
    destruct (decide (p = r)) as [->|Hne]; [by apply Hfresh in Hr|]. apply Hused in Hr; [|done].
    destruct (bo_disjoint _ _ (ok_blocks _ _ _ Hphys1) _ _ _ _ Hnew Hr Hne) as [Hd|Hd]; cbn in Hd; lia.
  - eexists. rewrite (frame_pfn_to_page m m6) by done. rewrite G6. split; [exact G5|]. split; [done|]. split; [done|]. split; [done|]. split; [done|].
    change (is_buddy (clear_flag_pure (Z.lor SLAB PGTABLE) (clear_flag_pure BUDDY (with_refcount 1 pg))) = false).
    rewrite !is_buddy_clear_flag. change (is_buddy (with_refcount 1 pg)) with (is_buddy pg). by rewrite Hbud.
  - rewrite <- Hph, <- (on_phys _ _ _ Hon5). done.
Qed.

Lemma takes_after m B m1 B1 m' B' p o : advance m B m1 B1 -> takes m1 B1 m' B' p o -> takes m B m' B' p o.
Proof.
  intros [_ [Hu Hc] Hon] [t1 t2 t3 t4 t5 t6 t7]. pose proof (on_frame _ _ _ Hon) as F. split; try done.
  - intros o' Ho'. apply (t3 o'). by apply Hu.
  - intros q o' Hne. rewrite t4 by done. apply Hu.
  - intros x. rewrite t5. apply Hc.
  - by transitivity m1.
  - intros q Hq Hn. rewrite <- (frame_pfn_to_page m m1) by done. rewrite t7.
    + rewrite (frame_pfn_to_page m m1) by done. by apply Hon.
    + by rewrite (fr_max _ _ F).
    + intros Hout. apply Hn. intros r k Hr. apply (Hout r k). by apply Hu.
Qed.

(** A single page comes from the cache of the current CPU, refilled from the zone when
    it is empty, or else from the buddy lists: in every case it is a page that no client
    held, in a zone the flags allow, with reference count one and cleared when asked for;
    the request fails only when no allowed zone has a free block left.  No cache exceeds
    its limit. *)
Theorem alloc_page_takes_one_free_page apic gfp m B :
  mem_ok m B -> pcp_quiet m -> 0 < nr_cpus m -> 0 <= apic ->
  exists r m', alloc_page apic gfp m = Ret (r, m') /\ pcp_quiet m' /\
    match r with
    | Some page => exists p z, page = pfn_to_page m p /\ z ∈ gfp_to_zone_list gfp /\ in_zone m z p 1 /\
        (exists B', takes m B m' B' p 0) /\ fresh_page m' p 0 /\ zeroed (gfp_test gfp GFP_F_ZERO) p 0 (phys m) (phys m')
    | None => exists B', advance m B m' B' /\ forall z o, z ∈ gfp_to_zone_list gfp -> 0 <= o < MAX_ORDER -> no_free m' B' z o
    end.
Proof.
  intros Hok Hquiet Hn Ha. unfold alloc_page. rewrite (kbind_ret (gets _) _ m true m) by (unfold gets; by rewrite (mm_ready m B)). cbn [negb].
  rewrite (kbind_ret (gets _) _ m (pcp_ready m) m) by done.
  assert (Hslow : forall m1 B1, advance m B m1 B1 -> pcp_quiet m1 -> exists r m', alloc_pages 0 gfp m1 = Ret (r, m') /\ pcp_quiet m' /\
    match r with
    | Some page => exists p z, page = pfn_to_page m p /\ z ∈ gfp_to_zone_list gfp /\ in_zone m z p 1 /\
        (exists B', takes m B m' B' p 0) /\ fresh_page m' p 0 /\ zeroed (gfp_test gfp GFP_F_ZERO) p 0 (phys m) (phys m')
    | None => exists B', advance m B m' B' /\ forall z o, z ∈ gfp_to_zone_list gfp -> 0 <= o < MAX_ORDER -> no_free m' B' z o
    end).
  { intros m1 B1 Hadv Hq1. pose proof (on_frame _ _ _ (ad_only _ _ _ _ Hadv)) as F1.
    destruct (alloc_pages_ok m1 B1 0 gfp (ad_ok _ _ _ _ Hadv) ltac:(done)) as [[Hrun Hno]|(z & hi & p & m' & Hrun & Hin & Hal & _)].
    - exists None, m1. split; [done|]. split; [done|]. exists B1. done.
    - destruct Hal as (_ & Hb & Hz & Htk & Hfr & Hze & Hpc & _). exists (Some (pfn_to_page m p)), m'.
      rewrite (frame_pfn_to_page m m1) in Hrun by done. split; [done|]. split; [intros k q; rewrite Hpc; apply Hq1|].
      exists p, z. split; [done|]. split; [done|]. split; [by apply (frame_in_zone m m1)|]. split; [eexists; by eapply takes_after|].
      split; [done|]. rewrite <- (on_phys _ _ _ (ad_only _ _ _ _ Hadv)). done. }
  destruct (pcp_ready m) eqn:Hr.
  2: { rewrite (kbind_ret (mret _) _ m None m) by done. apply (Hslow m B); [by apply advance_refl|done]. }
  destruct (pcp_alloc_page_ok apic gfp m B Hok Hquiet Hn Ha) as ([page|] & m1 & Hrun & Hq1 & Hres); rewrite (kbind_ret _ _ _ _ _ Hrun).
  2: { destruct Hres as [B1 Hadv]. by apply (Hslow m1 B1). }
  destruct Hres as (p & z & Hin & -> & Hcp). pose proof Hcp as (Hz & _ & (B1 & Htk) & _). pose proof Hok as [L Hphys].
  destruct (in_zone_bounds _ _ _ _ (ok_layout _ _ _ Hphys) Hz ltac:(lia)) as [Hp _]. pose proof (tk_frame _ _ _ _ _ _ Htk) as F1.
  rewrite (kbind_ret (gets _) _ m1 true m1).
  2: { unfold gets. rewrite <- (frame_pfn_to_page m m1) by done. destruct (tk_ok _ _ _ _ _ _ Htk) as [L1 Hphys1].
       rewrite page_ptr_in_vmemmap; [done|apply (ok_layout _ _ _ Hphys1)|by rewrite (fr_max _ _ F1)]. }
  cbn [negb]. destruct (cached_finish gfp m B z m1 p Hcp Hp) as (m' & Hrun' & Htk' & Hfr & Hze & Hpc).
  rewrite Hrun'. exists (Some (pfn_to_page m p)), m'. split; [done|]. split; [intros k q; rewrite Hpc; apply Hq1|]. exists p, z. done.
Qed.

(** ** Counters *)
#[local] Instance in_zone_dec m z p n : Decision (in_zone m z p n).
Proof. unfold in_zone. apply _. Defined.

(** The free blocks of order [o] in zone [z]. *)
Definition free_blocks (m : Mem) (B : gmap Z Block) (z : ZoneType) (o : Z) : gmap Z Block :=
  filter (fun kv => kv.2 = mkBlock InBuddy o /\ in_zone m z kv.1 (2 ^ o)) B.

Lemma free_blocks_size m B L z o : phys_ok m B L -> length (L (FreeHead z o)) = size (free_blocks m B z o).
Proof.
  intros Hok. rewrite <- size_dom, <- (size_list_to_set (C := gset Z)) by apply (li_nodup _ _ _ (ok_lists _ _ _ Hok)). f_equal.
  apply leibniz_equiv. intros p. rewrite elem_of_list_to_set, elem_of_dom, (li_mem _ _ _ (ok_lists _ _ _ Hok)). unfold free_blocks. split.
  - intros (b & Hb & Hh). exists b. by apply map_lookup_filter_Some.
  - intros [b [Hb Hh]%map_lookup_filter_Some]. by exists b.
Qed.

Lemma recompute_ok m B L z os acc :
  phys_ok m B L -> (forall o, o ∈ os -> 0 <= o < MAX_ORDER) -> 0 <= acc ->
  acc + pages_on (fun o => L (FreeHead z o)) os < 2 ^ 63 ->
  recompute_loop (get_zone z m) os acc = Ret (acc + pages_on (fun o => L (FreeHead z o)) os).
Proof.
  intros Hok. revert acc. induction os as [|o os IH]; intros acc Hos Hacc Hlt; cbn [recompute_loop]; [unfold pages_on; cbn; f_equal; lia|].
  destruct (area_ok m B L z o Hok ltac:(apply Hos; set_solver)) as [-> _]. mstep.
  destruct (pages_per_order_eq o ltac:(apply Hos; set_solver)) as [Hpo Hpb]. unfold pages_per_order in Hpo. rewrite Hpo.
  assert (Hnn : 0 <= pages_on (fun o => L (FreeHead z o)) os).
  { clear. induction os as [|x os IH]; [done|]. unfold pages_on in *. cbn [foldr]. pose proof (Z.pow_nonneg 2 x). lia. }
  assert (Hcons : pages_on (fun o => L (FreeHead z o)) (o :: os) = 2 ^ o * Z.of_nat (length (L (FreeHead z o))) + pages_on (fun o => L (FreeHead z o)) os) by done.
  rewrite Hcons in *. unfold saturating_mul64, saturating_add64. rewrite (Z.min_r U64_MAX (_ * _)) by lia. rewrite Z.min_r by lia.
  rewrite IH; [f_equal; lia|intros o' Ho'; apply Hos; set_solver|lia|lia].
Qed.

(** The counters of a zone agree with its blocks: each [nr_free] is the number of free
    blocks of its order, the recomputation from them gives exactly [free_pages], and the
    snapshot and the scrubber therefore find nothing to report or repair. *)
Theorem zone_counters_agree_with_the_blocks m B z :
  mem_ok m B ->
  (forall o, 0 <= o < MAX_ORDER -> vec_get (free_area (get_zone z m)) o = Ret (Z.of_nat (size (free_blocks m B z o)))) /\
  (let f := Page.free_pages (get_zone z m) in
   recompute_free_pages_locked (get_zone z m) = Ret f /\
   free_pages_snapshot_locked z m = Ret ((f, f), m) /\ scrub_free_pages_locked z m = Ret ((f, f, false), m)).
Proof.
  intros [L Hok]. split.
  - intros o Ho. rewrite <- (free_blocks_size m B L) by done. by apply (area_ok m B L).
  - intros f. assert (Hrec : recompute_free_pages_locked (get_zone z m) = Ret f).
    { pose proof (free_pages_bounds m B L z Hok) as Hb. unfold f. rewrite (li_free_pages _ _ _ (ok_lists _ _ _ Hok)) in *.
      apply (recompute_ok m B L z); [done|intros o Ho%elem_of_zrange; done|done|lia]. }
    split; [done|]. unfold free_pages_snapshot_locked, scrub_free_pages_locked.
    rewrite !(kbind_ret (gets _) _ m (get_zone z m) m) by done. rewrite !(kbind_ret _ _ _ _ _ (lift_ok _ _ m Hrec)). fold f.
    rewrite Z.eqb_refl. done.
Qed.

(** ** Building the free lists *)
Lemma pick_order_ok n pfn e :
  0 <= pfn < e -> e + 1024 < u64_size -> (n <= 10)%nat ->
  let o := pick_order n pfn e in
  0 <= o <= Z.of_nat n /\ (2 ^ o | pfn) /\ pfn + 2 ^ o <= e /\
  forall o', o < o' <= Z.of_nat n -> ~ ((2 ^ o' | pfn) /\ pfn + 2 ^ o' <= e).
Proof.
  intros Hp He Hn. induction n as [|n IH]; cbn [pick_order].
  - split; [lia|]. split; [apply Z.divide_1_l|]. split; [cbn; lia|]. lia.
  - destruct (pages_per_order_eq (Z.of_nat (S n)) ltac:(unfold MAX_ORDER; lia)) as [-> Hb]. rewrite add64_small by lia.
    destruct (Z.eqb_spec (pfn mod 2 ^ Z.of_nat (S n)) 0) as [Hm|Hm]; cbn [andb];
      [destruct (Z.leb_spec (pfn + 2 ^ Z.of_nat (S n)) e) as [Hle|Hgt]|].
    + split; [lia|]. split; [by apply Z.mod_divide; [lia|]|]. split; [done|]. lia.
    + destruct (IH ltac:(lia)) as (H1 & H2 & H3 & H4). split; [lia|]. split; [done|]. split; [done|].
      intros o' Ho' [Hd Hle']. destruct (decide (o' = Z.of_nat (S n))) as [->|]; [lia|]. by apply (H4 o'); [lia|].
    + destruct (IH ltac:(lia)) as (H1 & H2 & H3 & H4). split; [lia|]. split; [done|]. split; [done|].
      intros o' Ho' [Hd Hle']. destruct (decide (o' = Z.of_nat (S n))) as [->|]; [apply Hm; by apply Z.mod_divide in Hd; [|lia]|].
      by apply (H4 o'); [lia|].
Qed.

Lemma claim_block m B z p o :
  mem_ok m B -> 0 <= o < MAX_ORDER -> (2 ^ o | p) -> in_zone m z p (2 ^ o) ->
  (forall x, p <= x < p + 2 ^ o -> ~ covered B x) -> mem_ok m (<[p := mkBlock InUse o]> B).
Proof.
  intros Hok Ho Hd Hz Hfree. pose proof Hok as [L Hphys]. pose proof (ok_blocks _ _ _ Hphys) as Hb. pose proof (pow2_pos o ltac:(lia)) as Hpos.
  assert (Hnone : B !! p = None).
  { destruct (B !! p) as [c|] eqn:Hc; [|done]. exfalso. apply (Hfree p); [lia|]. exists p, c. split; [done|].
    pose proof (pow2_pos (border c) ltac:(apply (bo_order _ _ Hb _ _ Hc))). lia. }
  assert (Hap : forall q c, B !! q = Some c -> p + 2 ^ o <= q \/ q + 2 ^ border c <= p).
  { intros q c Hq. pose proof (pow2_pos (border c) ltac:(apply (bo_order _ _ Hb _ _ Hq))).
    destruct (Z.lt_ge_cases q (p + 2 ^ o)), (Z.lt_ge_cases p (q + 2 ^ border c)); try lia. exfalso.
    apply (Hfree (Z.max p q)); [lia|]. exists q, c. split; [done|lia]. }
  apply (regroup m B); [done| |].
  - split.
    + intros q c. destruct (decide (q = p)) as [->|]; [rewrite lookup_insert_eq; by intros [= <-]|]. rewrite lookup_insert_ne by done. apply Hb.
    + intros q c. destruct (decide (q = p)) as [->|]; [rewrite lookup_insert_eq; intros [= <-]; by exists z|]. rewrite lookup_insert_ne by done. apply Hb.
    + intros q c r d. destruct (decide (q = p)) as [->|], (decide (r = p)) as [->|]; rewrite ?lookup_insert_eq, ?lookup_insert_ne by done.
      * done.
      * intros [= <-] Hr _. apply (Hap r d Hr).
      * intros Hq [= <-] _. destruct (Hap q c Hq); [by right|by left].
      * apply Hb.
    + intros q c i k. destruct (decide (q = p)) as [->|]; [rewrite lookup_insert_eq; by intros [=]|]. rewrite lookup_insert_ne by done. apply Hb.
  - intros q k k' Hk. destruct (decide (q = p)) as [->|]; [|by rewrite lookup_insert_ne]. rewrite lookup_insert_eq, Hnone.
    split; [by intros [= <-]|done].
Qed.

Lemma insert_covered B p o x :
  B !! p = None -> covered (<[p := mkBlock InUse o]> B) x <-> covered B x \/ p <= x < p + 2 ^ o.
Proof.
  intros Hn. split.
  - intros (q & b & Hq & Hx). destruct (decide (q = p)) as [->|].
    + rewrite lookup_insert_eq in Hq. injection Hq as <-. by right.
    + rewrite lookup_insert_ne in Hq by done. left. by exists q, b.
  - intros [(q & b & Hq & Hx)|Hx].
    + exists q, b. rewrite lookup_insert_ne; [done|]. intros ->. congruence.
    + exists p, (mkBlock InUse o). by rewrite lookup_insert_eq.
Qed.

Lemma init_loop_ok fuel z p e m B :
  mem_ok m B -> (p < e -> in_zone m z p (e - p)) -> (forall x, p <= x < e -> ~ covered B x) -> Z.max 0 (e - p) < Z.of_nat fuel ->
  exists m' B', init_loop fuel z p e m = Ret (tt, m') /\ mem_ok m' B' /\ only (fun q => p <= q < e) m m' /\
    (forall x, covered B' x <-> covered B x \/ p <= x < e) /\
    (forall q b, B !! q = Some b -> B' !! q = Some b) /\
    (forall q b, B' !! q = Some b -> B !! q = Some b \/ (p <= q < e /\ b = mkBlock InBuddy (pick_order 10 q e))).
Proof.
  revert p m B. induction fuel as [|fuel IH]; intros p m B Hok Hz Hfree Hfuel; cbn [init_loop].
  { lia. }
  destruct (Z.ltb_spec p e) as [Hlt|Hge].
  2: { exists m, B. split; [done|]. split; [done|]. split; [apply only_refl|]. split; [|split; [done|auto]].
       intros x. split; [auto|]. intros [?|?]; [done|lia]. }
  specialize (Hz Hlt). pose proof Hok as [L Hphys]. pose proof (ok_layout _ _ _ Hphys) as Hl.
  destruct (in_zone_bounds _ _ _ _ Hl Hz ltac:(lia)) as [Hp Hpe]. pose proof (lo_max _ Hl). unfold PAGE_SIZE in *.
  destruct (pick_order_ok 10 p e ltac:(lia) ltac:(lia) ltac:(lia)) as (Ho & Hd & Hle & _). set (o := pick_order 10 p e) in *.
  pose proof (pow2_pos o ltac:(lia)) as Hpos. assert (HoM : 0 <= o < MAX_ORDER) by (unfold MAX_ORDER; lia).
  rewrite (kbind_ret (gets _) _ m (pfn_to_page m p) m) by done. rewrite (proj1 (pages_per_order_eq o HoM)), add64_small by lia.
  assert (Hzo : in_zone m z p (2 ^ o)) by (eapply in_zone_shrink; [exact Hz|lia|lia]).
  assert (Hnone : B !! p = None).
  { destruct (B !! p) as [c|] eqn:Hc; [|done]. exfalso. apply (Hfree p ltac:(lia)). exists p, c. split; [done|].
    pose proof (pow2_pos (border c) ltac:(apply (bo_order _ _ (ok_blocks _ _ _ Hphys) _ _ Hc))). lia. }
  pose proof (claim_block m B z p o Hok HoM Hd Hzo ltac:(intros x Hx; apply Hfree; lia)) as Hclaim.
  destruct (add_to_buddy_ok m _ z p o Hclaim ltac:(apply lookup_insert_eq)) as (m1 & R1 & Hok1 & Hon1 & _);
    [eapply in_zone_shrink; [exact Hzo|lia|lia]|]. rewrite (kbind_ret _ _ _ _ _ R1). rewrite insert_insert_eq in Hok1.
  assert (Hcov1 : forall x, covered (<[p := mkBlock InBuddy o]> B) x <-> covered B x \/ p <= x < p + 2 ^ o).
  { intros x. rewrite <- (insert_covered B p o x Hnone). rewrite <- (retype_covered (<[p := mkBlock InUse o]> B) p (mkBlock InUse o) InBuddy) by apply lookup_insert_eq.
    cbn [border]. by rewrite insert_insert_eq. }
  destruct (IH (p + 2 ^ o) m1 (<[p := mkBlock InBuddy o]> B) Hok1) as (m' & B' & Hrun & Hok' & Hon & Hcov & Hold & Hnew).
  { intros Hlt'. apply (frame_in_zone m m1); [apply Hon1|]. eapply in_zone_shrink; [exact Hz|lia|lia]. }
  { intros x Hx [Hc|Hc]%Hcov1; [by apply (Hfree x); [lia|]|lia]. } { lia. }
  exists m', B'. split; [done|]. split; [done|]. split; [|split; [|split]].
  - eapply only_trans; [eapply only_mono; [|exact Hon1]; intros q <-; lia|]. eapply only_mono; [|exact Hon]. cbn beta. intros q Hq. lia.
  - intros x. rewrite Hcov, Hcov1. split; [intros [[?|?]|?]; [by left|right; lia|right; lia]|].
    intros [?|Hx]; [left; by left|]. destruct (Z.lt_ge_cases x (p + 2 ^ o)); [left; right; lia|right; lia].
  - intros q b Hq. apply Hold. rewrite lookup_insert_ne; [done|]. intros ->. congruence.
  - intros q b Hq. destruct (Hnew q b Hq) as [Hq'|[? ?]]; [|right; split; [lia|done]].
    destruct (decide (q = p)) as [->|]; [rewrite lookup_insert_eq in Hq'; injection Hq' as <-; right; split; [lia|done]|].
    rewrite lookup_insert_ne in Hq' by done. by left.
Qed.

(** Building the free lists of a zone from a range of unmanaged pages terminates and
    turns exactly the pages of the range into free blocks, each the largest block that is
    aligned at its position and fits in the range; blocks that were there stay. *)
Theorem init_zone_buddy_partitions_the_range z s e m B :
  mem_ok m B -> s <= e -> (s < e -> in_zone m z s (e - s)) -> (forall x, s <= x < e -> ~ covered B x) ->
  exists m' B', init_zone_buddy z s e m = Ret (tt, m') /\ mem_ok m' B' /\
    (forall x, covered B' x <-> covered B x \/ s <= x < e) /\ (forall q b, B !! q = Some b -> B' !! q = Some b) /\
    (forall q b, B' !! q = Some b -> B !! q = Some b \/
       exists o, b = mkBlock InBuddy o /\ s <= q /\ q + 2 ^ o <= e /\
         forall o', o < o' < MAX_ORDER -> ~ ((2 ^ o' | q) /\ q + 2 ^ o' <= e)).
Proof.
  intros Hok Hse Hz Hfree. pose proof Hok as [L Hphys]. pose proof (ok_layout _ _ _ Hphys) as Hl. pose proof (lo_max _ Hl). unfold PAGE_SIZE in *.
  destruct (init_loop_ok (Z.to_nat (e - s) + 1) z s e m B Hok Hz Hfree) as (m' & B' & Hrun & Hok' & _ & Hcov & Hold & Hnew); [lia|].
  exists m', B'. split; [done|]. split; [done|]. split; [done|]. split; [done|]. intros q b Hq.
  destruct (Hnew q b Hq) as [?|[Hr ->]]; [by left|]. right. specialize (Hz ltac:(lia)).
  destruct (in_zone_bounds _ _ _ _ Hl Hz ltac:(lia)) as [? ?].
  destruct (pick_order_ok 10 q e ltac:(lia) ltac:(lia) ltac:(lia)) as (Ho & _ & Hle & Hmax).
  eexists. split; [done|]. split; [lia|]. split; [done|]. intros o' Ho'. apply Hmax. unfold MAX_ORDER in *. lia.
Qed.

(** ** A small machine: 32 pages of DMA memory and one CPU *)
Definition boot_page : Page := mkPage 0 0 (-1) 0 0 (owner_raw Unknown) 0.
Definition boot_base : Z := 0x100000.

Definition boot_nodes : list ListPtr :=
  map (FreeHead Dma) (zrange 0 MAX_ORDER) ++ map (PcpHead 0) (zrange 0 NR_ZONES) ++
  map (fun p => Lru (boot_base + p * PAGE_STRUCT_SIZE)) (zrange 0 32).

Definition boot_page_map : gmap Z Page :=
  list_to_map (map (fun p => (boot_base + p * PAGE_STRUCT_SIZE, boot_page)) (zrange 0 32)).
Definition boot_node_map : gmap ListPtr ListHead := list_to_map (map (fun x => (x, mkNode x x)) boot_nodes).
Definition boot_pcp_map : gmap (Z * Z) PerCpuPages :=
  list_to_map (map (fun i => ((0, i), mkPcp 64 16 0)) (zrange 0 NR_ZONES)).
#[local] Opaque boot_page_map boot_node_map boot_pcp_map.

Definition boot_mem : Mem :=
  mkMem boot_base 32 boot_page_map boot_node_map
    (mkZone 0 32 32 0 (replicate 11 0) 0 1 2 true) zone_uninit zone_uninit boot_pcp_map 1 true
    (fun a => a mod 256) (mkGuards 0 0 0 0 0 0 0 0 0).

Definition pages_check : bool :=
  forallb (fun p => match pages boot_mem !! pfn_to_page boot_mem p, nodes boot_mem !! lru boot_mem p with
                    | Some pg, Some _ => negb (is_buddy pg) && (zone_id pg =? 0)
                    | _, _ => false end) (zrange 0 32).
Definition rings_check : bool :=
  forallb (fun x => bool_decide (nxt (nodes boot_mem) x = Some x) && bool_decide (prv (nodes boot_mem) x = Some x))
    (map (FreeHead Dma) (zrange 0 MAX_ORDER) ++ map (PcpHead 0) (zrange 0 NR_ZONES)).
Definition pcps_check : bool :=
  forallb (fun i => match pcps boot_mem !! (0, i) with
                    | Some q => (count q =? 0) && (high q =? 64) && (batch q =? 16) | None => false end) (zrange 0 NR_ZONES).

Lemma boot_checks : pages_check && rings_check && pcps_check = true.
Proof. vm_compute. reflexivity. Qed.

Lemma boot_ring h : live boot_mem h -> ring (nodes boot_mem) h [].
Proof.
  intros Hh. pose proof boot_checks as [[_ Hr]%andb_prop _]%andb_prop. unfold rings_check in Hr. rewrite forallb_forall in Hr.
  assert (Hin : h ∈ map (FreeHead Dma) (zrange 0 MAX_ORDER) ++ map (PcpHead 0) (zrange 0 NR_ZONES)).
  { destruct h as [|z o|c i|a]; try done; cbn in Hh.
    - destruct z; [|by destruct Hh..]. apply elem_of_app. left. apply list_elem_of_fmap. exists o. split; [done|]. apply elem_of_zrange. apply Hh.
    - destruct Hh as (_ & Hc & Hi). assert (c = 0) as -> by (cbn in Hc; lia). apply elem_of_app. right. apply list_elem_of_fmap.
      exists i. split; [done|]. by apply elem_of_zrange. }
  apply list_elem_of_In, Hr in Hin. apply andb_prop in Hin as [H1 H2]. apply bool_decide_eq_true in H1, H2. done.
Qed.

Lemma boot_ok : mem_ok boot_mem ∅.
Proof.
  exists (fun _ => []). split.
  - split.
    + unfold vmemmap_ok. cbn. unfold boot_base, PAGE_STRUCT_SIZE. lia.
    + cbn. unfold PAGE_SIZE. lia.
    + intros []; cbn; lia.
    + intros [] p (Hi & H1 & H2); cbn in *; try done. unfold from_phys_addr, ZONE_DMA_LIMIT, PAGE_SIZE.
      destruct (Z.ltb_spec (p * 4096) 0x1000000); [done|lia].
    + cbn. lia.
  - by split.
  - split.
    + intros h p. rewrite elem_of_nil. split; [done|]. intros (b & Hb & _). done.
    + intros h. constructor.
    + apply boot_ring.
    + by intros [].
    + intros z o Ho. apply elem_of_zrange in Ho. rewrite orders_eq in Ho. destruct z; set_unfold in Ho;
        repeat destruct Ho as [->|Ho]; try done; subst; done.
    + by intros [].
    + intros c i (_ & Hcc & Hi). pose proof boot_checks as [_ Hc]%andb_prop. assert (c = 0) as -> by (cbn in Hcc; lia). unfold pcps_check in Hc. rewrite forallb_forall in Hc.
      apply elem_of_zrange, list_elem_of_In, Hc in Hi. clear Hc. destruct (pcps boot_mem !! (0, i)) as [q|]; [|done]. exists q. split; [done|].
      apply andb_prop in Hi as [[H1 H2]%andb_prop H3]. apply Z.eqb_eq in H1, H2, H3. cbn. split_and!; (done || lia).
  - intros p Hpp. change (max_pfn boot_mem) with 32 in Hpp. pose proof boot_checks as [[Hp _]%andb_prop _]%andb_prop. unfold pages_check in Hp. rewrite forallb_forall in Hp.
    apply elem_of_zrange, list_elem_of_In, Hp in Hpp. clear Hp. destruct (pages boot_mem !! _) as [pg|]; [|done].
    destruct (nodes boot_mem !! _) as [n|]; [|done]. apply andb_prop in Hpp as [H1 H2%Z.eqb_eq]. exists pg. split; [done|]. split; [by exists n|].
    split; [|split; [|split]]; try by intros.
    + destruct (is_buddy pg); [done|]. split; [done|]. by intros [o Ho].
    + intros [] (Hi & _); by try rewrite H2.
Qed.

(** The machine after its pages were handed to the buddy lists: one block of order 5. *)
Definition ex_mem : Mem :=
  match init_zone_buddy Dma 0 32 boot_mem with Ret (_, m) => m | _ => boot_mem end.
Definition ex_blocks : gmap Z Block := {[ 0 := mkBlock InBuddy 5 ]}.

Lemma boot_range : 0 < 32 -> in_zone boot_mem Dma 0 (32 - 0).
Proof. intros _. vm_compute. intuition discriminate. Qed.
Lemma empty_uncovered x : ~ covered ∅ x.
Proof. intros (q & b & Hq & _). done. Qed.

Lemma ex_mem_ok : mem_ok ex_mem ex_blocks /\ frame boot_mem ex_mem.
Proof.
  destruct (init_loop_ok 33 Dma 0 32 boot_mem ∅ boot_ok boot_range (fun x _ => empty_uncovered x) ltac:(lia))
    as (m' & B' & Hrun & Hok & Hon & Hcov & _ & Hnew).
  assert (ex_mem = m') as -> by (unfold ex_mem, init_zone_buddy; change (Z.to_nat (32 - 0) + 1)%nat with 33%nat; by rewrite Hrun).
  split; [|apply Hon]. assert (H0 : B' !! 0 = Some (mkBlock InBuddy 5)).
  { destruct (proj2 (Hcov 0)) as (q & b & Hq & Hx); [lia|]. destruct (Hnew q b Hq) as [Hbad|[Hr ->]]; [done|].
    assert (q = 0) as -> by lia. exact Hq. }
  enough (B' = ex_blocks) as <- by done. apply map_eq. intros q. unfold ex_blocks. destruct (decide (q = 0)) as [->|Hne].
  - by rewrite lookup_singleton_eq.
  - rewrite lookup_singleton_ne by done. destruct (B' !! q) as [b|] eqn:Hq; [|done]. exfalso. destruct (Hnew q b Hq) as [Hbad|[Hr _]]; [done|].
    destruct Hok as [L Hphys]. rewrite (no_block_inside m' B' 0 (mkBlock InBuddy 5) q) in Hq; [done|apply Hphys|done|cbn; lia].
Qed.

Lemma ex_in_zone p : 0 <= p < 32 -> in_zone ex_mem Dma p 1.
Proof. intros Hp. apply (frame_in_zone boot_mem); [apply ex_mem_ok|]. cbn. split; [done|]. cbn. lia. Qed.

Lemma dma_allowed gfp : Dma ∈ gfp_to_zone_list gfp.
Proof. unfold gfp_to_zone_list. destruct (gfp_test gfp GFP_F_DMA), (gfp_test gfp GFP_F_DMA32); set_solver. Qed.

Lemma ex_has_block gfp o :
  o <= 5 -> (forall z o', z ∈ gfp_to_zone_list gfp -> o <= o' < MAX_ORDER -> no_free ex_mem ex_blocks z o') -> False.
Proof.
  intros Ho H. refine (H Dma 5 (dma_allowed gfp) _ 0 _ (ex_in_zone 0 _)); [unfold MAX_ORDER; lia| |lia].
  unfold ex_blocks. apply lookup_singleton_eq.
Qed.

Lemma ex_canonical : canonical ex_mem ex_blocks.
Proof.
  intros z p o Hb _. unfold ex_blocks in Hb. apply lookup_singleton_Some in Hb as [<- [= <-]].
  right. right. unfold ex_blocks. by rewrite lookup_singleton_ne.
Qed.

Lemma ex_quiet : pcp_quiet ex_mem.
Proof.
  assert (Hall : map_Forall (fun _ q => count q <= 64) (pcps ex_mem)) by (apply (bool_decide_unpack _); vm_compute; exact I).
  intros k q Hq. exact (Hall k q Hq).
Qed.

#[local] Opaque ex_mem.

Lemma init_zone_buddy_partitions_the_range_witness :
  exists m' B', init_zone_buddy Dma 0 32 boot_mem = Ret (tt, m') /\ mem_ok m' B' /\ (forall x, covered B' x <-> covered ∅ x \/ 0 <= x < 32).
Proof.
  destruct (init_zone_buddy_partitions_the_range Dma 0 32 boot_mem ∅ boot_ok ltac:(lia) boot_range (fun x _ => empty_uncovered x))
    as (m' & B' & H1 & H2 & H3 & _). exists m', B'. split; [exact H1|]. split; [exact H2|exact H3].
Defined.

Lemma alloc_pages_takes_one_free_block_witness :
  exists p m' B', alloc_pages 2 GFP_F_ZERO ex_mem = Ret (Some (pfn_to_page ex_mem p), m') /\ takes ex_mem ex_blocks m' B' p 2.
Proof.
  destruct (alloc_pages_takes_one_free_block ex_mem ex_blocks 2 GFP_F_ZERO (proj1 ex_mem_ok) ltac:(unfold MAX_ORDER; lia)) as ([page|] & m' & H1 & H2).
  - destruct H2 as (z & hi & p & B' & -> & _ & _ & _ & _ & _ & H2 & _). exists p, m', B'. split; [exact H1|exact H2].
  - exfalso. exact (ex_has_block GFP_F_ZERO 2 ltac:(lia) (proj2 H2)).
Defined.

(** A block of four pages in use, for the release theorems. *)
Lemma ex_cpus : nr_cpus ex_mem = 1 /\ pcp_ready ex_mem = true.
Proof. pose proof (proj2 ex_mem_ok) as Hf. by rewrite (fr_cpus _ _ Hf), (fr_pcp _ _ Hf). Qed.
Lemma ex_used : exists m B p pg, mem_ok m B /\ B !! p = Some (mkBlock InUse 2) /\ in_zone m Dma p 1 /\
  pages m !! pfn_to_page m p = Some pg /\ refcount pg = 1 /\ pcp_quiet m /\ 0 < nr_cpus m.
Proof.
  destruct (alloc_pages_ok ex_mem ex_blocks 2 0 (proj1 ex_mem_ok) ltac:(unfold MAX_ORDER; lia)) as [[_ H]|(z & hi & p & m' & _ & _ & Hal & _)].
  - exfalso. exact (ex_has_block 0 2 ltac:(lia) H).
  - destruct Hal as (_ & Hb & Hz & Htk & (pg & Hpg & Hrc & _) & _ & Hpc & _). pose proof Htk as [Hok Hnew _ _ _ Hf _].
    eexists m', _, p, pg. split; [exact Hok|]. split; [exact Hnew|]. split; [|split; [done|split; [done|split]]].
    + apply (frame_in_zone ex_mem m'); [done|]. unfold ex_blocks in Hb. apply lookup_singleton_Some in Hb as [<- _]. apply ex_in_zone. lia.
    + intros k q. rewrite Hpc. apply ex_quiet.
    + rewrite (fr_cpus _ _ Hf), (proj1 ex_cpus). lia.
Qed.


Lemma free_pages_respects_references_witness :
  exists m B p pg, mem_ok m B /\ pages m !! pfn_to_page m p = Some pg /\
    (refcount pg = 0 -> free_pages 0 (pfn_to_page m p) 2 m = Ret (tt, set_guards bump_ref_underflow m)).
Proof.
  destruct ex_used as (m & B & p & pg & H1 & H2 & H3 & H4 & H5 & _). exists m, B, p, pg. split; [exact H1|]. split; [exact H4|].
  exact (proj1 (free_pages_respects_references 0 m B p 2 pg H1 H2 H4)).
Defined.

Lemma alloc_then_free_restores_the_blocks_witness :
  exists page m1 m2, alloc_pages 2 0 ex_mem = Ret (Some page, m1) /\ free_pages 0 page 2 m1 = Ret (tt, m2) /\ mem_ok m2 ex_blocks.
Proof.
  destruct (alloc_pages_ok ex_mem ex_blocks 2 0 (proj1 ex_mem_ok) ltac:(unfold MAX_ORDER; lia)) as [[_ H]|(z & hi & p & m1 & Hrun & _)].
  - exfalso. exact (ex_has_block 0 2 ltac:(lia) H).
  - destruct (alloc_then_free_restores_the_blocks 0 ex_mem ex_blocks 2 0 _ m1 (proj1 ex_mem_ok) ex_canonical ltac:(unfold MAX_ORDER; lia) (andb_false_l _) Hrun)
      as (m2 & H1 & H2). exists (pfn_to_page ex_mem p), m1, m2. split; [exact Hrun|]. split; [exact H1|exact H2].
Defined.

Lemma alloc_page_takes_one_free_page_witness :
  exists r m', alloc_page 0 GFP_F_DMA ex_mem = Ret (r, m') /\ pcp_quiet m'.
Proof.
  destruct (alloc_page_takes_one_free_page 0 GFP_F_DMA ex_mem ex_blocks (proj1 ex_mem_ok) ex_quiet
    ltac:(rewrite (proj1 ex_cpus); lia) ltac:(lia)) as (r & m' & H1 & H2 & _).
  exists r, m'. split; [exact H1|exact H2].
Defined.

Lemma zone_counters_agree_with_the_blocks_witness :
  recompute_free_pages_locked (get_zone Dma ex_mem) = Ret 32 /\
  scrub_free_pages_locked Dma ex_mem = Ret ((32, 32, false), ex_mem).
Proof.
  destruct (zone_counters_agree_with_the_blocks ex_mem ex_blocks Dma (proj1 ex_mem_ok)) as [_ (H1 & _ & H2)].
  assert (H32 : Page.free_pages (get_zone Dma ex_mem) = 32) by (vm_compute; reflexivity).
  rewrite H32 in H1, H2. split; [exact H1|exact H2].
Defined.

(** A single page in use. *)
Lemma ex_used_page : exists m B z p pg, mem_ok m B /\ pcp_quiet m /\ pcp_ready m = true /\ 0 < nr_cpus m /\
  B !! p = Some (mkBlock InUse 0) /\ in_zone m z p 1 /\ pages m !! pfn_to_page m p = Some pg /\ refcount pg = 1.
Proof.
  destruct (alloc_pages_ok ex_mem ex_blocks 0 0 (proj1 ex_mem_ok) ltac:(unfold MAX_ORDER; lia)) as [[_ H]|(z & hi & p & m' & _ & _ & Hal & _)].
  - exfalso. exact (ex_has_block 0 0 ltac:(lia) H).
  - destruct Hal as (_ & Hb & Hz & Htk & (pg & Hpg & Hrc & _) & _ & Hpc & _). pose proof Htk as [Hok Hnew _ _ _ Hf _].
    destruct ex_cpus as [Hn Hr]. eexists m', _, z, p, pg. split; [exact Hok|]. split; [intros k q; rewrite Hpc; apply ex_quiet|].
    rewrite (fr_pcp _ _ Hf), (fr_cpus _ _ Hf), Hn, Hr. split; [done|]. split; [lia|]. split; [exact Hnew|]. split; [by apply (frame_in_zone ex_mem m')|done].
Qed.

Lemma free_page_goes_through_the_cache_witness :
  exists m p m', free_page 0 (pfn_to_page m p) m = Ret (tt, m') /\ pcp_quiet m'.
Proof.
  destruct ex_used_page as (m & B & z & p & pg & H1 & H2 & H3 & H4 & H5 & H6 & H7 & H8).
  destruct (free_page_goes_through_the_cache 0 m B z p pg H1 H2 H3 H4 ltac:(lia) H5 H6 H7 H8) as (m' & B' & H9 & _ & H10 & _).
  exists m, p, m'. split; [exact H9|exact H10].
Defined.
