(* ===== verification/PageEntry.v ===== *)
(** * Page-table entries and tables: kernel/src/mm/arch/x86_64/paging.rs

    An entry is a 64-bit word; a table is 512 entries in one page of physical memory,
    reached through the direct mapping.  The memory of [Page.Mem] holds bytes; entries are
    read and written as eight of them, lowest byte first. *)

From S2P Require Import Prelude Page Zone.

(** ** Flag bits *)
Definition PTE_PRESENT : Z := 1.
Definition PTE_WRITABLE : Z := 2.
Definition PTE_USER : Z := 4.
Definition PTE_WRITE_THROUGH : Z := 8.
Definition PTE_NO_CACHE : Z := 16.
Definition PTE_ACCESSED : Z := 32.
Definition PTE_DIRTY : Z := 64.
Definition PTE_HUGE : Z := 128.
Definition PTE_GLOBAL : Z := 256.
Definition PTE_NO_EXECUTE : Z := 0x8000000000000000.
Definition PTE_ADDR_MASK : Z := 0x000FFFFFFFFFF000.

(** ** Levels *)
Inductive PageTableLevel := Pml5 | Pml4 | Pdpt | Pd | Pt.
#[export] Instance PageTableLevel_eq_dec : EqDecision PageTableLevel.
Proof. solve_decision. Defined.

Definition entry_size (self : PageTableLevel) : Z :=
  match self with
  | Pml5 => 256 * 1024 * 1024 * 1024 * 1024
  | Pml4 => 512 * 1024 * 1024 * 1024
  | Pdpt => 1024 * 1024 * 1024
  | Pd => 2 * 1024 * 1024
  | Pt => PAGE_SIZE
  end.

Definition next_level (self : PageTableLevel) : option PageTableLevel :=
  match self with
  | Pml5 => Some Pml4
  | Pml4 => Some Pdpt
  | Pdpt => Some Pd
  | Pd => Some Pt
  | Pt => None
  end.

(** ** [PageTableEntry] *)
Definition pte_empty : Z := 0.
Definition pte_new (phys_addr flags : Z) : Z := Z.lor (Z.land phys_addr PTE_ADDR_MASK) flags.

Definition has_bit (e flag : Z) : bool := negb (Z.land e flag =? 0).
Definition is_present (e : Z) : bool := has_bit e PTE_PRESENT.
Definition is_writable (e : Z) : bool := has_bit e PTE_WRITABLE.
Definition is_user (e : Z) : bool := has_bit e PTE_USER.
Definition is_huge (e : Z) : bool := has_bit e PTE_HUGE.
Definition is_no_execute (e : Z) : bool := has_bit e PTE_NO_EXECUTE.
Definition phys_addr (e : Z) : Z := Z.land e PTE_ADDR_MASK.
Definition pte_flags (e : Z) : Z := Z.land e (not64 PTE_ADDR_MASK).

Definition set_present (present : bool) (e : Z) : Z :=
  if present then Z.lor e PTE_PRESENT else Z.land e (not64 PTE_PRESENT).
Definition set_writable (writable : bool) (e : Z) : Z :=
  if writable then Z.lor e PTE_WRITABLE else Z.land e (not64 PTE_WRITABLE).
Definition set_user (user : bool) (e : Z) : Z :=
  if user then Z.lor e PTE_USER else Z.land e (not64 PTE_USER).
Definition set_phys_addr (addr e : Z) : Z :=
  Z.lor (Z.land e (not64 PTE_ADDR_MASK)) (Z.land addr PTE_ADDR_MASK).

(** ** Index of an address in a table of some level *)
Definition pml4_index (virt : Z) : Z := Z.land (Z.shiftr virt 39) 0x1FF.
Definition pml5_index (virt : Z) : Z := Z.land (Z.shiftr virt 48) 0x1FF.
Definition pdpt_index (virt : Z) : Z := Z.land (Z.shiftr virt 30) 0x1FF.
Definition pd_index (virt : Z) : Z := Z.land (Z.shiftr virt 21) 0x1FF.
Definition pt_index (virt : Z) : Z := Z.land (Z.shiftr virt 12) 0x1FF.
Definition page_offset (virt : Z) : Z := Z.land virt 0xFFF.

(** [u8] arithmetic *)
Definition level_shift (level : Z) : Z := (12 + ((level - 1) mod 256 * 9) mod 256) mod 256.
Definition level_index (virt level : Z) : Z := Z.land (Z.shiftr virt (level_shift level)) 0x1FF.

(** ** Words in memory *)
Definition read64 (f : Z -> Z) (a : Z) : Z :=
  foldr (fun i acc => f (a + i) mod 256 + 256 * acc) 0 (zrange 0 8).
Definition write64 (f : Z -> Z) (a v : Z) : Z -> Z :=
  fun x => if (a <=? x) && (x <? a + 8) then Z.shiftr v (8 * (x - a)) mod 256 else f x.

(** [PageTable::entry] and a store through [entry_mut]. *)
Definition entry (m : Mem) (table index : Z) : Z := read64 (phys m) (table + 8 * index).
Definition store_entry (table index e : Z) (m : Mem) : Mem :=
  set_phys m (write64 (phys m) (table + 8 * index) e).
Definition get_entry (table index : Z) : Kern Z := gets (fun m => entry m table index).
Definition set_entry (table index e : Z) : Kern unit := modify (store_entry table index e).

(** [copy_nonoverlapping] of one page. *)
Definition copy_table (dst src : Z) : Kern unit :=
  modify (fun m => set_phys m (fun x =>
    if (dst <=? x) && (x <? dst + PAGE_SIZE) then phys m (src + (x - dst)) else phys m x)).

(** ** [PageTableManager] *)
Record PageTableManager := mkManager { root_phys : Z; direct_map_offset : Z; page_levels : Z; va_bits : Z }.

Definition new_with_layout (root_phys direct_map_offset page_levels va_bits : Z) : PageTableManager :=
  let levels := if page_levels =? 5 then 5 else 4 in
  let bits := if (levels =? 5) && (va_bits =? 57) then 57 else 48 in
  mkManager root_phys direct_map_offset levels bits.

Definition phys_to_virt (self : PageTableManager) (phys : Z) : Z := add64 (direct_map_offset self) phys.
Definition virt_to_phys (self : PageTableManager) (virt : Z) : Z := sub64 virt (direct_map_offset self).

(** The range [(2..=page_levels).rev()]. *)
Definition walk_levels (page_levels : Z) : list Z := reverse (zrange 2 (page_levels + 1)).
Definition levels (self : PageTableManager) : list Z := walk_levels (page_levels self).

(** ** Lemmas on words *)
Lemma in_u64_read f a : in_u64 (read64 f a).
Proof.
  unfold read64, in_u64. change (zrange 0 8) with [0; 1; 2; 3; 4; 5; 6; 7]. cbn [foldr].
  assert (H : forall i, 0 <= f (a + i) mod 256 < 256) by (intros i; apply Z.mod_pos_bound; lia).
  pose proof (H 0). pose proof (H 1). pose proof (H 2). pose proof (H 3). pose proof (H 4). pose proof (H 5). pose proof (H 6).
  pose proof (H 7).
  lia.
Qed.

Lemma bytes_of_word v :
  in_u64 v -> foldr (fun i acc => (Z.shiftr v (8 * i) mod 256) mod 256 + 256 * acc) 0 (zrange 0 8) = v.
Proof.
  unfold in_u64. intros Hv. change (zrange 0 8) with [0; 1; 2; 3; 4; 5; 6; 7]. cbn [foldr]. rewrite !Z.mod_mod by lia.
  rewrite !Z.shiftr_div_pow2 by lia.
  set (q := fun i => v / 2 ^ (8 * i)).
  assert (H : forall i j, 0 <= i -> j = i + 1 -> q i = q i mod 256 + 256 * q j).
  { intros i j Hi ->. unfold q. replace (8 * (i + 1)) with (8 * i + 8) by lia. rewrite Z.pow_add_r by lia. rewrite <- Z.div_div by lia.
    change (2 ^ 8) with 256. pose proof (Z.div_mod (v / 2 ^ (8 * i)) 256 ltac:(lia)). lia. }
  assert (q0 : q 0 = v) by (unfold q; apply Z.div_1_r).
  assert (q8 : q 8 = 0) by (apply Z.div_small; change (2 ^ (8 * 8)) with u64_size; lia).
  change (q 0 mod 256 + 256 * (q 1 mod 256 + 256 * (q 2 mod 256 + 256 * (q 3 mod 256 + 256 *
    (q 4 mod 256 + 256 * (q 5 mod 256 + 256 * (q 6 mod 256 + 256 * (q 7 mod 256 + 256 * 0))))))) = v).
  pose proof (H 0 1 ltac:(lia) eq_refl). pose proof (H 1 2 ltac:(lia) eq_refl). pose proof (H 2 3 ltac:(lia) eq_refl).
  pose proof (H 3 4 ltac:(lia) eq_refl). pose proof (H 4 5 ltac:(lia) eq_refl). pose proof (H 5 6 ltac:(lia) eq_refl).
  pose proof (H 6 7 ltac:(lia) eq_refl). pose proof (H 7 8 ltac:(lia) eq_refl). clearbody q. lia.
Qed.

Lemma read_write_eq f a v : in_u64 v -> read64 (write64 f a v) a = v.
Proof.
  intros Hv. rewrite <- (bytes_of_word v Hv) at 2. unfold read64, write64. change (zrange 0 8) with [0; 1; 2; 3; 4; 5; 6; 7]. cbn [foldr].
  repeat match goal with |- context [(a <=? a + ?i) && (a + ?i <? a + 8)] =>
    replace ((a <=? a + i) && (a + i <? a + 8)) with true by (symmetry; apply andb_true_intro; split; [apply Z.leb_le|apply Z.ltb_lt]; lia) end.
  repeat match goal with |- context [a + ?i - a] => replace (a + i - a) with i by lia end. done.
Qed.

(** A word only depends on its eight bytes. *)
Lemma read64_ext f g a b : (forall i, 0 <= i < 8 -> f (a + i) = g (b + i)) -> read64 f a = read64 g b.
Proof.
  intros H. unfold read64. change (zrange 0 8) with [0; 1; 2; 3; 4; 5; 6; 7]. cbn [foldr]. by rewrite !H by lia.
Qed.

Lemma read_write_ne f a b v : b + 8 <= a \/ a + 8 <= b -> read64 (write64 f a v) b = read64 f b.
Proof.
  intros H. apply read64_ext. intros i Hi. unfold write64.
  destruct (Z.leb_spec a (b + i)), (Z.ltb_spec (b + i) (a + 8)); cbn [andb]; try done. lia.
Qed.

(** ** Lemmas on entries *)
Lemma has_bit_lor e f g : has_bit (Z.lor e f) g = has_bit e g || has_bit f g.
Proof.
  unfold has_bit. rewrite Z.land_lor_distr_l. destruct (Z.eqb_spec (Z.lor (Z.land e g) (Z.land f g)) 0) as [H|H].
  - apply Z.lor_eq_0_iff in H as [-> ->]. done.
  - destruct (Z.eqb_spec (Z.land e g) 0) as [E|E]; [|done]. destruct (Z.eqb_spec (Z.land f g) 0) as [F|F]; [|done]. by rewrite E, F in H.
Qed.
Lemma has_bit_land e n g : has_bit (Z.land e n) g = has_bit e (Z.land n g).
Proof. unfold has_bit. by rewrite Z.land_assoc. Qed.
Lemma has_bit_0 e : has_bit e 0 = false.
Proof. unfold has_bit. by rewrite Z.land_0_r. Qed.
Lemma phys_addr_lor e f : phys_addr (Z.lor e f) = Z.lor (phys_addr e) (phys_addr f).
Proof. apply Z.land_lor_distr_l. Qed.
Lemma phys_addr_land e n : phys_addr (Z.land e n) = Z.land e (Z.land n PTE_ADDR_MASK).
Proof. unfold phys_addr. by rewrite Z.land_assoc. Qed.

(** [bits] computes the flags and the address of an entry that was built from another by
    setting bits; [pte_const] recognises the constants it may evaluate. *)
Ltac pte_const a :=
  lazymatch a with
  | Zpos _ => idtac | Z0 => idtac
  | PTE_PRESENT => idtac | PTE_WRITABLE => idtac | PTE_USER => idtac | PTE_HUGE => idtac | PTE_ADDR_MASK => idtac
  | not64 ?b => pte_const b
  | Z.land ?b ?c => pte_const b; pte_const c
  end.
Ltac bits :=
  repeat first
    [ progress unfold is_present, is_writable, is_user, is_huge, is_no_execute, set_present, set_writable, set_user, set_phys_addr, pte_new
    | rewrite has_bit_lor | rewrite has_bit_land | rewrite phys_addr_lor | rewrite phys_addr_land
    | match goal with
      | |- context [Z.land ?a ?b] => pte_const a; pte_const b; let c := eval vm_compute in (Z.land a b) in change (Z.land a b) with c
      | |- context [has_bit ?a ?b] => pte_const a; pte_const b; let c := eval vm_compute in (has_bit a b) in change (has_bit a b) with c
      | |- context [phys_addr ?a] => pte_const a; let c := eval vm_compute in (phys_addr a) in change (phys_addr a) with c
      end
    | rewrite has_bit_0 | rewrite Z.land_0_r | rewrite Z.lor_0_r | rewrite orb_false_r | rewrite orb_true_r ].

(** The address of a page frame an entry can hold. *)
Definition frame_addr (a : Z) : Prop := (PAGE_SIZE | a) /\ 0 <= a < 2 ^ 52.

Lemma land_mask_eq a : Z.land a PTE_ADDR_MASK = (a mod 2 ^ 52) / 2 ^ 12 * 2 ^ 12.
Proof.
  change PTE_ADDR_MASK with (Z.land (Z.ones 52) (not64 (2 ^ 12 - 1))). rewrite Z.land_assoc, Z.land_ones by lia.
  pose proof (Z.mod_pos_bound a (2 ^ 52) ltac:(lia)). rewrite Z.mul_comm. apply land_not_mask; [unfold in_u64; lia|lia].
Qed.
Lemma frame_addr_phys e : frame_addr (phys_addr e).
Proof.
  unfold phys_addr, frame_addr. rewrite land_mask_eq. pose proof (Z.mod_pos_bound e (2 ^ 52) ltac:(lia)).
  pose proof (Z.mul_div_le (e mod 2 ^ 52) (2 ^ 12) ltac:(lia)).
  split; [by exists ((e mod 2 ^ 52) / 2 ^ 12)|]. split; [apply Z.mul_nonneg_nonneg; [apply Z.div_pos|]; lia|lia].
Qed.
Lemma frame_addr_mask a : frame_addr a -> Z.land a PTE_ADDR_MASK = a.
Proof.
  intros [[k ->] Hb]. rewrite land_mask_eq, Z.mod_small by done. change (2 ^ 12) with PAGE_SIZE. by rewrite Z.div_mul.
Qed.
Lemma phys_addr_frame a : frame_addr a -> phys_addr a = a.
Proof. apply frame_addr_mask. Qed.
Lemma frame_addr_pos a : frame_addr a -> 0 <= a.
Proof. intros [_ ?]. lia. Qed.

Lemma phys_addr_new a f : frame_addr a -> Z.land f PTE_ADDR_MASK = 0 -> phys_addr (pte_new a f) = a.
Proof.
  intros Ha Hf. unfold pte_new. rewrite frame_addr_mask by done. rewrite phys_addr_lor, (phys_addr_frame a) by done.
  unfold phys_addr. by rewrite Hf, Z.lor_0_r.
Qed.
Lemma has_bit_new a f g : Z.land g PTE_ADDR_MASK = 0 -> has_bit (pte_new a f) g = has_bit f g.
Proof. intros Hg. unfold pte_new. rewrite has_bit_lor, has_bit_land, (Z.land_comm PTE_ADDR_MASK), Hg. by rewrite has_bit_0. Qed.
Lemma pte_flags_new a f : in_u64 f -> Z.land f PTE_ADDR_MASK = 0 -> pte_flags (pte_new a f) = f.
Proof.
  intros Hu Hf. unfold pte_flags, pte_new. rewrite Z.land_lor_distr_l, <- Z.land_assoc.
  change (Z.land PTE_ADDR_MASK (not64 PTE_ADDR_MASK)) with 0. rewrite Z.land_0_r, Z.lor_0_l.
  apply Z.bits_inj'. intros j Hj. rewrite Z.land_spec. destruct (Z.ltb_spec j 64).
  - rewrite testbit_not64 by lia. apply (f_equal (fun x => Z.testbit x j)) in Hf. rewrite Z.land_spec, Z.bits_0 in Hf.
    destruct (Z.testbit f j), (Z.testbit PTE_ADDR_MASK j); done.
  - by rewrite (in_u64_testbit f j).
Qed.
Lemma in_u64_new a f : in_u64 f -> in_u64 (pte_new a f).
Proof.
  intros Hf. apply in_u64_lor; [|done]. pose proof (frame_addr_phys a) as [_ H]. unfold phys_addr in H. unfold in_u64. lia.
Qed.
Lemma flags_no_addr e : Z.land (pte_flags e) PTE_ADDR_MASK = 0.
Proof. unfold pte_flags. rewrite <- Z.land_assoc. apply Z.land_0_r. Qed.
Lemma in_u64_flags e : in_u64 e -> in_u64 (pte_flags e).
Proof. intros He. apply in_u64_land; [done|]. vm_compute. discriminate. Qed.
Lemma has_bit_flags e g : Z.land g PTE_ADDR_MASK = 0 -> in_u64 g -> has_bit (pte_flags e) g = has_bit e g.
Proof.
  intros Hg Hu. unfold pte_flags. rewrite has_bit_land. f_equal. rewrite Z.land_comm.
  pose proof (pte_flags_new 0 g Hu Hg) as H. unfold pte_flags, pte_new in H. cbn [Z.land Z.lor] in H. exact H.
Qed.
#[export] Hint Resolve in_u64_new in_u64_flags frame_addr_phys in_u64_read frame_addr_pos : word.

(** ** Lemmas on indices *)
Definition is_level (l : Z) : Prop := 1 <= l <= 5.
Lemma level_shift_eq l : is_level l -> level_shift l = 12 + (l - 1) * 9.
Proof.
  intros [? ?]. unfold level_shift. rewrite (Z.mod_small (l - 1)) by lia. rewrite (Z.mod_small ((l - 1) * 9)) by lia.
  rewrite Z.mod_small by lia. lia.
Qed.
Lemma level_index_eq v l : is_level l -> level_index v l = (v / 2 ^ (12 + (l - 1) * 9)) mod 512.
Proof.
  intros Hl. unfold level_index. rewrite level_shift_eq by done. change 0x1FF with (Z.ones 9).
  destruct Hl. rewrite Z.land_ones, Z.shiftr_div_pow2 by lia. done.
Qed.
Lemma level_index_range v l : 0 <= level_index v l < 512.
Proof. unfold level_index. change 0x1FF with (Z.ones 9). rewrite Z.land_ones by lia. apply Z.mod_pos_bound. lia. Qed.

(** The named index functions are those of their levels. *)
Lemma level_index_names v :
  level_index v 5 = pml5_index v /\ level_index v 4 = pml4_index v /\ level_index v 3 = pdpt_index v /\
  level_index v 2 = pd_index v /\ level_index v 1 = pt_index v.
Proof. done. Qed.

(** ** Lemmas on tables *)
Definition table_addr (t : Z) : Prop := (PAGE_SIZE | t).

Lemma slot_apart t i t' i' :
  table_addr t -> table_addr t' -> 0 <= i < 512 -> 0 <= i' < 512 -> (t, i) <> (t', i') ->
  t' + 8 * i' + 8 <= t + 8 * i \/ t + 8 * i + 8 <= t' + 8 * i'.
Proof.
  intros [k ->] [k' ->] Hi Hi' Hne. unfold PAGE_SIZE in *. destruct (Z.lt_trichotomy k k') as [?|[->|?]]; [lia| |lia].
  destruct (Z.lt_trichotomy i i') as [?|[->|?]]; [lia|done|lia].
Qed.

Lemma entry_store_eq m t i e : in_u64 e -> entry (store_entry t i e m) t i = e.
Proof. apply read_write_eq. Qed.
Lemma entry_store_ne m t i e t' i' :
  table_addr t -> table_addr t' -> 0 <= i < 512 -> 0 <= i' < 512 -> (t, i) <> (t', i') ->
  entry (store_entry t i e m) t' i' = entry m t' i'.
Proof. intros. apply read_write_ne. by apply slot_apart. Qed.
Lemma in_u64_entry m t i : in_u64 (entry m t i).
Proof. apply in_u64_read. Qed.

(** An entry only depends on the bytes of its page. *)
Lemma entry_same m m' t t' i :
  0 <= i < 512 -> (forall x, 0 <= x < PAGE_SIZE -> phys m' (t' + x) = phys m (t + x)) -> entry m' t' i = entry m t i.
Proof.
  intros Hi H. apply read64_ext. intros j Hj. rewrite <- !Z.add_assoc. apply H. unfold PAGE_SIZE. lia.
Qed.
Lemma pages_apart t t' x : table_addr t -> table_addr t' -> t <> t' -> 0 <= x < PAGE_SIZE -> ~ (t <= t' + x < t + PAGE_SIZE).
Proof. intros [k ->] [k' ->] Hne Hx. assert (k <> k') by congruence. unfold PAGE_SIZE in *. nia. Qed.

#[export] Hint Resolve in_u64_entry level_index_range : word.
