(* ===== verification/Paging.v ===== *)
(** * Page tables: kernel/src/mm/arch/x86_64/paging.rs

    Walking, mapping and unmapping in the four- or five-level tables of an address space,
    and the sharing of the kernel half between address spaces.  The operations run on the
    state of the page allocators, since tables are pages that [alloc_pages] hands out and
    whose descriptors count the references to them.  An entry that the code changes through
    [entry_mut] is named by its table and index.

    What an operation flushes from the translation caches is part of its result.  The lock
    around each operation, the diagnostic output and the four statistics counters of
    reclaimed tables are left out. *)

From S2P Require Import Prelude Page Zone Pcp Buddy PageEntry.

Definition GFP_KERNEL_ZERO : Z := Z.lor (Z.lor GFP_F_KERNEL GFP_F_NORMAL) GFP_F_ZERO.
Definition KERNEL_BASE : Z := 0xFFFF800000000000.

(** What an operation flushes: nothing, one address on this CPU, or one address on
    every CPU ([flush_tlb_global]). *)
Inductive tlb_flush := NoFlush | FlushLocal (virt : Z) | FlushGlobal (virt : Z).

(** ** Walking *)
Fixpoint translate_loop (ls : list Z) (virt table_phys : Z) (m : Mem) : option (Z * PageTableLevel * Z) :=
  match ls with
  | [] =>
      let pte := entry m table_phys (level_index virt 1) in
      if negb (is_present pte) then None else Some (pte, Pt, PAGE_SIZE)
  | level :: ls' =>
      let e := entry m table_phys (level_index virt level) in
      if negb (is_present e) then None
      else if (level =? 3) && is_huge e then Some (e, Pdpt, 1024 * 1024 * 1024)
      else if (level =? 2) && is_huge e then Some (e, Pd, 2 * 1024 * 1024)
      else translate_loop ls' virt (phys_addr e) m
  end.

Definition translate (self : PageTableManager) (virt_addr : Z) (m : Mem) : option (Z * PageTableLevel * Z) :=
  translate_loop (levels self) virt_addr (root_phys self) m.

Definition translate_addr (self : PageTableManager) (virt_addr : Z) (m : Mem) : option Z :=
  match translate self virt_addr m with
  | None => None
  | Some (e, _, page_size) => Some (add64 (phys_addr e) (Z.land virt_addr (page_size - 1)))
  end.

(** ** References to table pages *)
Definition entry_references_lower_table (e : Z) : bool := is_present e && negb (is_huge e).

Definition retain_table_page_ref (table_phys : Z) : Kern unit :=
  let pfn := table_phys / PAGE_SIZE in
  max ← gets max_pfn;
  if max <=? pfn then mret tt
  else
    page ← gets (fun m => pfn_to_page m pfn);
    page_get page;;
    set_flag page PGTABLE;;
    set_owner page Pgtable.

Definition borrowed_parent_entry_raw (table_phys : Z) : Kern Z :=
  let pfn := table_phys / PAGE_SIZE in
  max ← gets max_pfn;
  if max <=? pfn then mret 0
  else
    page ← gets (fun m => pfn_to_page m pfn);
    pg ← get_page page;
    mret (private pg).

Definition set_borrowed_parent_entry_raw (table_phys raw : Z) : Kern unit :=
  let pfn := table_phys / PAGE_SIZE in
  max ← gets max_pfn;
  if max <=? pfn then mret tt
  else
    page ← gets (fun m => pfn_to_page m pfn);
    set_private page raw.

Definition clear_borrowed_parent_entry_raw (table_phys : Z) : Kern unit :=
  set_borrowed_parent_entry_raw table_phys 0.

Section Cpu.
Context (apic_id : Z).

(** Releasing a table first releases the table it was copied from, which it names in its
    [private] field; the recursion runs on fuel. *)
Fixpoint release_table_page_ref (fuel : nat) (table_phys : Z) : Kern unit :=
  match fuel with
  | O => fun _ => OutOfFuel
  | S fuel' =>
      let pfn := table_phys / PAGE_SIZE in
      max ← gets max_pfn;
      if max <=? pfn then mret tt
      else
        page ← gets (fun m => pfn_to_page m pfn);
        pg ← get_page page;
        let borrowed_raw := private pg in
        when (negb (borrowed_raw =? 0))
          (set_private page 0;;
           when (entry_references_lower_table borrowed_raw) (release_table_page_ref fuel' (phys_addr borrowed_raw)));;
        pg ← get_page page;
        usable ← (if negb (is_pgtable pg) && negb (is_reserved pg) then
                    if refcount pg =? 0 then mret false
                    else set_flag page PGTABLE;; set_owner page Pgtable;; mret true
                  else mret true);
        if negb usable then mret tt
        else
          pg ← get_page page;
          when (is_pgtable pg && negb (bool_decide (from_raw (owner pg) = Pgtable)) &&
                negb (bool_decide (from_raw (owner pg) = Reserved)) && negb (refcount pg =? 0))
            (set_owner page Pgtable);;
          pg ← get_page page;
          if refcount pg =? 0 then mret tt
          else if is_reserved pg then try_put page;; mret tt
          else free_page apic_id page
  end.

(** Every step of the recursion clears the [private] field of another page. *)
Definition release_table_page (table_phys : Z) : Kern unit :=
  max ← gets max_pfn;
  release_table_page_ref (S (Z.to_nat max)) table_phys.

Definition free_table_page (table_phys : Z) : Kern unit :=
  let pfn := table_phys / PAGE_SIZE in
  max ← gets max_pfn;
  if max <=? pfn then mret tt else release_table_page table_phys.

(** ** Allocating tables *)
Definition alloc_zeroed_table_phys : Kern (option Z) :=
  r ← alloc_pages 0 GFP_KERNEL_ZERO;
  match r with
  | None => mret None
  | Some page =>
      pfn ← gets (fun m => page_to_pfn m page);
      let table_phys := mul64 pfn PAGE_SIZE in
      set_flag page PGTABLE;;
      set_owner page Pgtable;;
      write_zeros table_phys PAGE_SIZE;;
      mret (Some table_phys)
  end.

(** The loop that fills the table of a split entry. *)
Fixpoint fill_table (child base_phys step leaf_flags : Z) (idxs : list Z) : Kern unit :=
  match idxs with
  | [] => mret tt
  | i :: idxs' =>
      set_entry child i (pte_new (saturating_add64 base_phys (mul64 i step)) leaf_flags);;
      fill_table child base_phys step leaf_flags idxs'
  end.

Definition keep_flag (old_flags flag parent_flags : Z) : Z :=
  if negb (Z.land old_flags flag =? 0) then Z.lor parent_flags flag else parent_flags.

Definition split_huge_entry_for_user (table idx level : Z) : Kern bool :=
  e ← get_entry table idx;
  if negb ((level =? 3) || (level =? 2)) || negb (is_present e) || negb (is_huge e) then mret false
  else
    let base_phys := phys_addr e in
    let old_flags := pte_flags e in
    r ← alloc_zeroed_table_phys;
    match r with
    | None => mret false
    | Some child_phys =>
        (if level =? 3 then fill_table child_phys base_phys (2 * 1024 * 1024) old_flags (zrange 0 512)
         else fill_table child_phys base_phys PAGE_SIZE (Z.land old_flags (not64 PTE_HUGE)) (zrange 0 512));;
        let parent_flags := keep_flag old_flags PTE_NO_CACHE (keep_flag old_flags PTE_WRITE_THROUGH
                              (keep_flag old_flags PTE_USER (keep_flag old_flags PTE_WRITABLE PTE_PRESENT))) in
        set_entry table idx (pte_new child_phys parent_flags);;
        mret true
    end.

(** ** Mapping *)
Definition release_replaced_page (old_phys : Z) : Kern unit :=
  let pfn := old_phys / PAGE_SIZE in
  max ← gets max_pfn;
  if max <=? pfn then mret tt
  else
    old_page ← gets (fun m => pfn_to_page m pfn);
    pg ← get_page old_page;
    if mapcount pg <? 0 then mret tt
    else
      try_dec_mapcount old_page;;
      pg ← get_page old_page;
      if refcount pg =? 0 then mret tt else free_page apic_id old_page.

(** A present entry without the user bit leads to tables shared with the kernel: the next
    table is copied before the bit is set. *)
Definition copy_shared_table (table idx : Z) : Kern bool :=
  old_entry ← get_entry table idx;
  let old_phys := phys_addr old_entry in
  r ← alloc_zeroed_table_phys;
  match r with
  | None => mret false
  | Some new_phys =>
      copy_table new_phys old_phys;;
      set_borrowed_parent_entry_raw new_phys old_entry;;
      set_entry table idx (set_writable true (set_user true (set_present true (set_phys_addr new_phys old_entry))));;
      mret true
  end.

(** One round of the loop of [map_page]: afterwards the entry leads to a table, unless the
    result is [false]. *)
Definition open_level (need_user need_writable : bool) (table idx level : Z) : Kern bool :=
  e ← get_entry table idx;
  ok ← (if is_huge e then
          if need_user && ((level =? 3) || (level =? 2)) then split_huge_entry_for_user table idx level else mret false
        else mret true);
  if negb ok then mret false
  else
    e ← get_entry table idx;
    if negb (is_present e) then
      r ← alloc_zeroed_table_phys;
      match r with
      | None => mret false
      | Some next_phys =>
          set_entry table idx (set_user true (set_writable true (set_present true (set_phys_addr next_phys e))));;
          mret true
      end
    else
      ok ← (if need_user && negb (is_user e) then copy_shared_table table idx else mret true);
      if negb ok then mret false
      else
        e ← get_entry table idx;
        when (need_writable && negb (is_writable e)) (set_entry table idx (set_writable true e));;
        mret true.

Fixpoint map_loop (need_user need_writable : bool) (ls : list Z) (virt table_phys : Z) : Kern (option Z) :=
  match ls with
  | [] => mret (Some table_phys)
  | level :: ls' =>
      let idx := level_index virt level in
      ok ← open_level need_user need_writable table_phys idx level;
      if negb ok then mret None
      else
        e ← get_entry table_phys idx;
        map_loop need_user need_writable ls' virt (phys_addr e)
  end.

Definition map_page (self : PageTableManager) (virt phys flags : Z) : Kern (bool * tlb_flush) :=
  let need_user := negb (Z.land flags PTE_USER =? 0) in
  let need_writable := negb (Z.land flags PTE_WRITABLE =? 0) in
  r ← map_loop need_user need_writable (levels self) virt (root_phys self);
  match r with
  | None => mret (false, NoFlush)
  | Some pt =>
      let pt_idx := level_index virt 1 in
      pt_entry ← get_entry pt pt_idx;
      let was_present := is_present pt_entry in
      when (was_present && negb (phys_addr pt_entry =? Z.land phys PTE_ADDR_MASK)) (release_replaced_page (phys_addr pt_entry));;
      set_entry pt pt_idx (pte_new phys flags);;
      mret (true, if was_present then FlushGlobal virt else FlushLocal virt)
  end.

(** ** Unmapping *)
Definition is_table_empty (m : Mem) (table : Z) : bool := forallb (fun i => negb (is_present (entry m table i))) (zrange 0 512).

(** The way down: not mapped, a large page cleared, or the lowest table with the tables and
    indices passed on the way, the last one first. *)
Inductive descent := NotMapped | HugeCleared | Reached (pt : Z) (path : list (Z * Z)).

Fixpoint unmap_loop (ls : list Z) (virt table_phys : Z) (path : list (Z * Z)) : Kern descent :=
  match ls with
  | [] => mret (Reached table_phys path)
  | level :: ls' =>
      let idx := level_index virt level in
      e ← get_entry table_phys idx;
      if negb (is_present e) then mret NotMapped
      else if ((level =? 3) || (level =? 2)) && is_huge e then
        set_entry table_phys idx pte_empty;; mret HugeCleared
      else unmap_loop ls' virt (phys_addr e) ((table_phys, idx) :: path)
  end.

(** The way up: empty tables that nobody else refers to go back to the allocator. *)
Fixpoint reclaim_loop (path : list (Z * Z)) (child_phys : Z) : Kern unit :=
  match path with
  | [] => mret tt
  | (parent_phys, parent_idx) :: path' =>
      empty ← gets (fun m => is_table_empty m child_phys);
      if negb empty then mret tt
      else
        let child_pfn := child_phys / PAGE_SIZE in
        max ← gets max_pfn;
        if max <=? child_pfn then mret tt
        else
          page ← gets (fun m => pfn_to_page m child_pfn);
          child_page ← get_page page;
          if negb (is_pgtable child_page) then mret tt
          else if negb (refcount child_page =? 1) then mret tt
          else
            borrowed_raw ← borrowed_parent_entry_raw child_phys;
            if negb (borrowed_raw =? 0) then
              set_entry parent_phys parent_idx borrowed_raw;;
              clear_borrowed_parent_entry_raw child_phys;;
              free_table_page child_phys
            else
              set_entry parent_phys parent_idx pte_empty;;
              free_table_page child_phys;;
              reclaim_loop path' parent_phys
  end.

Definition unmap_page (self : PageTableManager) (virt : Z) : Kern (bool * tlb_flush) :=
  d ← unmap_loop (levels self) virt (root_phys self) [];
  match d with
  | NotMapped => mret (false, NoFlush)
  | HugeCleared => mret (true, FlushGlobal virt)
  | Reached pt path =>
      let pt_idx := level_index virt 1 in
      pt_entry ← get_entry pt pt_idx;
      if negb (is_present pt_entry) then mret (false, NoFlush)
      else
        set_entry pt pt_idx pte_empty;;
        reclaim_loop path pt;;
        mret (true, FlushGlobal virt)
  end.

(** ** The kernel half of an address space *)
(** One entry of the loops that copy the kernel half: references are moved from the old
    entry to the new one.  The result says whether the entry changed. *)
Definition adopt_entry (src_root dst_root idx : Z) : Kern bool :=
  old_entry ← get_entry dst_root idx;
  new_entry ← get_entry src_root idx;
  if old_entry =? new_entry then mret false
  else
    when (entry_references_lower_table old_entry) (release_table_page (phys_addr old_entry));;
    when (entry_references_lower_table new_entry) (retain_table_page_ref (phys_addr new_entry));;
    set_entry dst_root idx new_entry;;
    mret true.

Fixpoint adopt_entries (src_root dst_root : Z) (idxs : list Z) : Kern bool :=
  match idxs with
  | [] => mret false
  | idx :: idxs' =>
      changed ← adopt_entry src_root dst_root idx;
      rest ← adopt_entries src_root dst_root idxs';
      mret (changed || rest)
  end.

Definition kernel_slots (page_levels : Z) : list Z := zrange (level_index KERNEL_BASE page_levels) 512.

Definition clone_kernel_root_entries_with_refs (page_levels src_root_phys dst_root_phys : Z) : Kern unit :=
  let src_root := Z.land src_root_phys PTE_ADDR_MASK in
  let dst_root := Z.land dst_root_phys PTE_ADDR_MASK in
  if (src_root =? 0) || (dst_root =? 0) then mret tt
  else adopt_entries src_root dst_root (kernel_slots page_levels);; mret tt.

(** [init_pgd] is the root of the kernel's own address space; the flag tells whether an
    entry changed, in which case the caller's tables are flushed everywhere. *)
Definition sync_kernel_root_entries_from_init (page_levels init_pgd dst_root_phys : Z) : Kern bool :=
  let dst_root := Z.land dst_root_phys PTE_ADDR_MASK in
  let init_root := Z.land init_pgd PTE_ADDR_MASK in
  if (dst_root =? 0) || (init_root =? 0) || (dst_root =? init_root) then mret false
  else adopt_entries init_root dst_root (kernel_slots page_levels).

Fixpoint release_entries (root : Z) (idxs : list Z) : Kern unit :=
  match idxs with
  | [] => mret tt
  | idx :: idxs' =>
      e ← get_entry root idx;
      (if negb (entry_references_lower_table e) then mret tt
       else
         let child_phys := phys_addr e in
         let pfn := child_phys / PAGE_SIZE in
         max ← gets max_pfn;
         if max <=? pfn then mret tt
         else
           page ← gets (fun m => pfn_to_page m pfn);
           child_page ← get_page page;
           if negb (is_pgtable child_page) then mret tt else release_table_page child_phys);;
      release_entries root idxs'
  end.

Definition release_kernel_root_entries_refs (page_levels root_phys : Z) : Kern unit :=
  let root := Z.land root_phys PTE_ADDR_MASK in
  if root =? 0 then mret tt else release_entries root (kernel_slots page_levels).

(** [teardown_bootstrap_identity_map]: the low 3 GiB, one GiB at a time. *)
Definition LOW_IDENTITY_WINDOW_BYTES : Z := 3 * 1024 * 1024 * 1024.
Definition LOW_IDENTITY_STEP_BYTES : Z := 1024 * 1024 * 1024.
Fixpoint teardown_loop (fuel : nat) (self : PageTableManager) (addr removed : Z) : Kern Z :=
  match fuel with
  | O => fun _ => OutOfFuel
  | S fuel' =>
      if addr <? LOW_IDENTITY_WINDOW_BYTES then
        '(ok, _) ← unmap_page self addr;
        teardown_loop fuel' self (saturating_add64 addr LOW_IDENTITY_STEP_BYTES) (if (ok : bool) then removed + 1 else removed)
      else mret removed
  end.
Definition teardown_bootstrap_identity_map (cr3 page_levels va_bits direct_map_offset : Z) : Kern Z :=
  teardown_loop 4 (new_with_layout (Z.land cr3 PTE_ADDR_MASK) direct_map_offset page_levels va_bits) 0 0.

Definition count_pml4_entries (self : PageTableManager) (m : Mem) : Z :=
  Z.of_nat (length (filter (fun i => is_present (entry m (root_phys self) i) = true) (zrange 0 512))).
End Cpu.
