(* ===== verification/PageWalk.v ===== *)
(** * The tables of an address space

    The table reached at each depth on the way to an address, when two addresses share
    their way, and the invariant of an address space: its tables form a tree, and none of
    them is a page the allocators could hand out.  The lemmas describe how the walk changes
    when one entry is replaced. *)

From S2P Require Import Prelude Page Zone Pcp Buddy PageEntry Paging.

(** Where an entry of level [l] leads, if it does not end the walk. *)
Definition next_table (l e : Z) : option Z :=
  if is_present e && negb (((l =? 3) || (l =? 2)) && is_huge e) then Some (phys_addr e) else None.

Definition huge_size (l : Z) : Z := if l =? 3 then 1024 * 1024 * 1024 else 2 * 1024 * 1024.

(** The page an address lies on and its flags, whatever the size of the page: what the
    hardware makes of the result of a walk. *)
Definition leaf_of (w : Z) (r : Z * PageTableLevel * Z) : Z * Z :=
  let '(e, level, size) := r in
  (phys_addr e + Z.land w (size - 1), if decide (level = Pt) then pte_flags e else Z.land (pte_flags e) (not64 PTE_HUGE)).

(** A page that the allocators manage and have not handed out. *)
Definition free_pfn (B : gmap Z Block) (x : Z) : Prop :=
  exists q b, B !! q = Some b /\ bkind b <> InUse /\ q <= x < q + 2 ^ border b.

(** A page no allocation can return: in use, or not managed. *)
Definition held (B : gmap Z Block) (t : Z) : Prop :=
  table_addr t /\ (B !! (t / PAGE_SIZE) = Some (mkBlock InUse 0) \/ ~ covered B (t / PAGE_SIZE)).

Section Walk.
Context (ls : list Z) (root : Z).

Fixpoint tbl (m : Mem) (n : nat) (w : Z) : option Z :=
  match n with
  | O => Some root
  | S n' =>
      match tbl m n' w, ls !! n' with
      | Some t, Some l => next_table l (entry m t (level_index w l))
      | _, _ => None
      end
  end.

(** The level of the table at depth [n], down to the tables of the pages. *)
Definition level_at (n : nat) : option Z := (ls ++ [1]) !! n.

(** Two addresses have the same indices in the first [n] tables. *)
Definition agree (n : nat) (w w' : Z) : Prop :=
  forall k l, (k < n)%nat -> level_at k = Some l -> level_index w l = level_index w' l.
#[export] Instance agree_dec n w w' : Decision (agree n w w').
Proof.
  refine (cast_if (decide (Forall (fun l => level_index w l = level_index w' l) (take n (ls ++ [1]))))).
  - rewrite Forall_lookup in *. intros k l Hk Hl. apply (f k). by rewrite lookup_take_lt.
  - intros H. apply n0. rewrite Forall_lookup. intros k l Hl. apply lookup_take_Some in Hl as [Hl Hk]. by eapply H.
Defined.

Definition view (m : Mem) (w : Z) : option (Z * Z) := leaf_of w <$> translate_loop ls w root m.

(** Addresses on one page of the smallest size. *)
Definition same_page (w w' : Z) : Prop := agree (S (length ls)) w w'.
#[export] Instance same_page_dec w w' : Decision (same_page w w').
Proof. unfold same_page. apply _. Defined.

Record tree_ok (m : Mem) : Prop := {
  tr_table n w t : tbl m n w = Some t -> table_addr t;
  tr_inj n n' w w' t : tbl m n w = Some t -> tbl m n' w' = Some t -> n = n' /\ agree n w w';
  tr_huge n w t l : tbl m n w = Some t -> ls !! n = Some l -> l = 3 \/ l = 2 ->
    is_huge (entry m t (level_index w l)) = true -> phys_addr (entry m t (level_index w l)) + huge_size l <= 2 ^ 52
}.

Definition tables_held (m : Mem) (B : gmap Z Block) : Prop := forall n w t, tbl m n w = Some t -> held B t.

Lemma agree_refl n w : agree n w w.
Proof. by intros k l. Qed.
Lemma agree_sym n w w' : agree n w w' -> agree n w' w.
Proof. intros H k l Hk Hl. symmetry. by eapply H. Qed.
Lemma agree_trans n w1 w2 w3 : agree n w1 w2 -> agree n w2 w3 -> agree n w1 w3.
Proof. intros H1 H2 k l Hk Hl. rewrite (H1 k l Hk Hl). by eapply H2. Qed.
Lemma agree_mono n n' w w' : (n' <= n)%nat -> agree n w w' -> agree n' w w'.
Proof. intros Hn H k l Hk Hl. eapply H; [|done]. lia. Qed.
Lemma level_at_walk n l : ls !! n = Some l -> level_at n = Some l.
Proof. intros H. by apply lookup_app_l_Some. Qed.
Lemma level_at_end : level_at (length ls) = Some 1.
Proof. unfold level_at. by rewrite lookup_app_r, Nat.sub_diag. Qed.
Lemma level_at_cases n l : level_at n = Some l -> ls !! n = Some l \/ (n = length ls /\ l = 1).
Proof.
  intros [H|[Hn H]]%lookup_app_Some; [by left|]. right. destruct (n - length ls)%nat eqn:E; [|done]. injection H as <-. split; [lia|done].
Qed.
Lemma agree_S n l w w' : level_at n = Some l -> agree (S n) w w' <-> agree n w w' /\ level_index w l = level_index w' l.
Proof.
  intros Hl. split; [intros H; split; [by eapply agree_mono; [|exact H]; lia|]; by eapply H; [|exact Hl]; lia|].
  intros [H1 H2] k l' Hk Hl'. destruct (decide (k = n)) as [->|]; [congruence|]. eapply H1; [|done]. lia.
Qed.

Lemma tbl_agree m n w w' : agree n w w' -> tbl m n w = tbl m n w'.
Proof.
  induction n as [|n IH]; intros H; [done|]. cbn [tbl]. rewrite <- IH by (apply (agree_mono (S n)); [lia|done]).
  destruct (tbl m n w) as [t|]; [|done]. destruct (ls !! n) as [l|] eqn:Hl; [|done]. rewrite (H n l); [done|lia|by apply level_at_walk].
Qed.
Lemma tbl_S m n w l t : ls !! n = Some l -> tbl m n w = Some t -> tbl m (S n) w = next_table l (entry m t (level_index w l)).
Proof. intros Hl Ht. cbn [tbl]. by rewrite Ht, Hl. Qed.
Lemma tbl_depth m n w t : tbl m n w = Some t -> (n <= length ls)%nat.
Proof.
  destruct n as [|n]; [lia|]. cbn [tbl]. destruct (tbl m n w); [|done]. destruct (ls !! n) eqn:Hl; [|done].
  apply lookup_lt_Some in Hl. lia.
Qed.
Lemma tbl_prefix m n k w t : tbl m n w = Some t -> (k <= n)%nat -> exists t', tbl m k w = Some t'.
Proof.
  intros Ht Hk. revert t Ht. induction Hk as [|n Hk IH]; intros t Ht; [by exists t|]. cbn [tbl] in Ht.
  destruct (tbl m n w) as [t'|]; [|done]. by eapply IH.
Qed.

(** The walk of the code, from any table on the way. *)
Lemma translate_from m n w t : tbl m n w = Some t -> translate_loop ls w root m = translate_loop (drop n ls) w t m.
Proof.
  revert t. induction n as [|n IH]; intros t; [by intros [= <-]|]. cbn [tbl]. destruct (tbl m n w) as [t'|] eqn:Ht'; [|done].
  destruct (ls !! n) as [l|] eqn:Hl; [|done]. rewrite (IH t') by done. rewrite (drop_S _ _ _ Hl). cbn [translate_loop]. unfold next_table.
  destruct (is_present _); [|done]. cbn [negb andb]. destruct (l =? 3), (l =? 2), (is_huge _); cbn [orb andb negb]; by try intros [= ->].
Qed.

(** A walk that stops. *)
Lemma translate_stops m n w t l :
  tbl m n w = Some t -> ls !! n = Some l -> tbl m (S n) w = None ->
  let e := entry m t (level_index w l) in
  (is_present e = false /\ translate_loop ls w root m = None) \/
  (is_present e = true /\ is_huge e = true /\ (l = 3 \/ l = 2) /\
   translate_loop ls w root m = Some (e, if l =? 3 then Pdpt else Pd, huge_size l)).
Proof.
  intros Ht Hl Hn e. rewrite (tbl_S m n w l t Hl Ht) in Hn. fold e in Hn. rewrite (translate_from m n w t Ht), (drop_S _ _ _ Hl).
  cbn [translate_loop]. fold e. unfold next_table in Hn. destruct (is_present e); cbn [negb andb] in *; [|by left]. right.
  unfold huge_size. destruct (Z.eqb_spec l 3) as [->|]; cbn [orb andb negb] in *.
  - destruct (is_huge e); [|done]. cbn. auto.
  - destruct (Z.eqb_spec l 2) as [->|]; cbn [orb andb negb] in *; [|done]. destruct (is_huge e); [|done]. cbn. auto.
Qed.

Lemma translate_end m w t :
  tbl m (length ls) w = Some t ->
  translate_loop ls w root m = let e := entry m t (level_index w 1) in if is_present e then Some (e, Pt, PAGE_SIZE) else None.
Proof. intros Ht. rewrite (translate_from m _ w t Ht), drop_all. cbn. by destruct (is_present _). Qed.

(** ** Memory that changes outside the tables *)
Definition same_tables (m m' : Mem) : Prop := forall n w t i, tbl m n w = Some t -> 0 <= i < 512 -> entry m' t i = entry m t i.

Lemma same_tables_tbl m m' : same_tables m m' -> forall n w, tbl m' n w = tbl m n w.
Proof.
  intros H n w. induction n as [|n IH]; [done|]. cbn [tbl]. rewrite IH. destruct (tbl m n w) as [t|] eqn:Ht; [|done].
  destruct (ls !! n) as [l|]; [|done]. by rewrite (H n w t) by (done || apply level_index_range).
Qed.

(** The rest of a walk is determined by the entries it reads. *)
Lemma translate_rest m m' w n t :
  tbl m n w = Some t ->
  (forall k s l, (n <= k)%nat -> tbl m k w = Some s -> level_at k = Some l -> entry m' s (level_index w l) = entry m s (level_index w l)) ->
  translate_loop (drop n ls) w t m' = translate_loop (drop n ls) w t m.
Proof.
  remember (length ls - n)%nat as k eqn:Hk. revert n Hk t. induction k as [|k IH]; intros n Hk t Ht H; pose proof (tbl_depth m n w t Ht) as Hd.
  - assert (n = length ls) as -> by lia. rewrite drop_all. cbn. by rewrite (H (length ls) t 1) by (done || apply level_at_end).
  - destruct (lookup_lt_is_Some_2 ls n ltac:(lia)) as [l Hl]. rewrite (drop_S _ _ _ Hl). cbn [translate_loop].
    rewrite (H n t l) by (done || by apply level_at_walk). set (e := entry m t _). pose proof (tbl_S m n w l t Hl Ht) as Hs. fold e in Hs.
    unfold next_table in Hs. destruct (is_present e); [|done]. cbn [negb andb] in *.
    assert (Hrec : tbl m (S n) w = Some (phys_addr e) -> translate_loop (drop (S n) ls) w (phys_addr e) m' = translate_loop (drop (S n) ls) w (phys_addr e) m).
    { intros Hs'. apply IH; [lia|done|]. intros k' s l' Hk'. apply H. lia. }
    destruct (l =? 3), (l =? 2), (is_huge e); cbn [orb andb negb] in *; try done; by apply Hrec.
Qed.
Lemma translate_ext m m' w :
  (forall k s l, tbl m k w = Some s -> level_at k = Some l -> entry m' s (level_index w l) = entry m s (level_index w l)) ->
  translate_loop ls w root m' = translate_loop ls w root m.
Proof. intros H. apply (translate_rest m m' w O root); [done|]. intros k s l _. apply H. Qed.

Lemma same_tables_view m m' : same_tables m m' -> forall w, view m' w = view m w.
Proof. intros H w. unfold view. rewrite (translate_ext m m' w); [done|]. intros n t l Ht _. by apply (H n w); [|apply level_index_range]. Qed.
Lemma same_tables_tree m m' : same_tables m m' -> tree_ok m -> tree_ok m'.
Proof.
  intros H [T I G]. pose proof (same_tables_tbl m m' H) as E. split.
  - intros n w t. rewrite E. by apply T.
  - intros n n' w w' t. rewrite !E. by apply I.
  - intros n w t l. rewrite E. intros Ht Hl. rewrite (H n w t) by (done || apply level_index_range). by eapply G.
Qed.
Lemma same_tables_held m m' B : same_tables m m' -> tables_held m B -> tables_held m' B.
Proof. intros H Hh n w t. rewrite (same_tables_tbl m m' H). apply Hh. Qed.

(** ** One entry replaced

    Entry [i] of the table at depth [n] on the way to [v] becomes [e']; the other entries of
    the tables stay. *)
Section Replace.
Context (m m' : Mem) (n : nat) (v t l e' : Z).
Hypothesis Htree : tree_ok m.
Hypothesis Ht : tbl m n v = Some t.
Hypothesis Hl : level_at n = Some l.
Hypothesis Hsame : forall k w s j, tbl m k w = Some s -> 0 <= j < 512 -> (s, j) <> (t, level_index v l) -> entry m' s j = entry m s j.
Hypothesis He : entry m' t (level_index v l) = e'.

Lemma slot_of k w s l0 :
  tbl m k w = Some s -> level_at k = Some l0 -> (k <> n \/ ~ agree (S n) v w) -> (s, level_index w l0) <> (t, level_index v l).
Proof.
  intros Hs Hl0 Hk [= -> Hi]. destruct (tr_inj _ Htree _ _ _ _ _ Hs Ht) as [-> Ha]. destruct Hk as [?|Hk]; [done|].
  apply Hk. rewrite Hl in Hl0. injection Hl0 as <-. apply (agree_S n l _ _ Hl). split; [by apply agree_sym|done].
Qed.
Lemma replaced_read k w s l0 :
  tbl m k w = Some s -> level_at k = Some l0 -> (k <> n \/ ~ agree (S n) v w) ->
  entry m' s (level_index w l0) = entry m s (level_index w l0).
Proof. intros Hs Hl0 Hk. eapply Hsame; [done|apply level_index_range|by eapply slot_of]. Qed.

Lemma replaced_above k w : (k <= n)%nat \/ ~ agree (S n) v w -> tbl m' k w = tbl m k w.
Proof.
  induction k as [|k IH]; intros Hk; [done|]. cbn [tbl]. rewrite IH by (destruct Hk; [left; lia|by right]).
  destruct (tbl m k w) as [s|] eqn:Hs; [|done]. destruct (ls !! k) as [l0|] eqn:Hl0; [|done].
  rewrite (replaced_read k w s l0); [done|done|by apply level_at_walk|]. destruct Hk; [left; lia|by right].
Qed.
Lemma replaced_elsewhere w : ~ agree (S n) v w -> translate_loop ls w root m' = translate_loop ls w root m.
Proof. intros Hn. apply translate_ext. intros k s l0 Hs Hl0. eapply replaced_read; eauto. Qed.
Lemma replaced_here w : ls !! n = Some l -> agree (S n) v w -> tbl m' (S n) w = next_table l e'.
Proof.
  intros Hl' Ha. rewrite (tbl_S m' n w l t Hl').
  - apply (agree_S n l _ _ Hl) in Ha as [_ <-]. by rewrite He.
  - rewrite replaced_above by (left; lia). rewrite <- Ht. symmetry. apply tbl_agree. eapply agree_mono; [|exact Ha]. lia.
Qed.
(** Below the new table nothing changes if its entries lead where they did before. *)
Lemma replaced_below k w :
  (S (S n) <= k)%nat -> tbl m' (S (S n)) w = tbl m (S (S n)) w -> tbl m' k w = tbl m k w.
Proof.
  intros Hk H0. induction Hk as [|k Hk IH]; [done|]. cbn [tbl]. rewrite IH. destruct (tbl m k w) as [s|] eqn:Hs; [|done].
  destruct (ls !! k) as [l0|] eqn:Hl0; [|done]. rewrite (replaced_read k w s l0); [done|done|by apply level_at_walk|]. left. lia.
Qed.

(** The entry leads to a new table [c]. *)
Lemma graft c :
  ls !! n = Some l -> next_table l e' = Some c -> (forall k w, tbl m k w <> Some c) -> table_addr c ->
  (forall w, agree (S n) v w -> tbl m' (S (S n)) w = tbl m (S (S n)) w) ->
  (forall w, agree (S n) v w -> view m' w = view m w) ->
  (forall w l', agree (S n) v w -> ls !! S n = Some l' -> l' = 3 \/ l' = 2 -> is_huge (entry m' c (level_index w l')) = true ->
     phys_addr (entry m' c (level_index w l')) + huge_size l' <= 2 ^ 52) ->
  tree_ok m' /\ (forall w, view m' w = view m w) /\
  (forall k w, tbl m' k w = if decide (k = S n /\ agree (S n) v w) then Some c else tbl m k w).
Proof.
  intros Hl' Hc Hfresh Hal Hbelow Hview Hhuge.
  assert (Htbl : forall k w, tbl m' k w = if decide (k = S n /\ agree (S n) v w) then Some c else tbl m k w).
  { intros k w. destruct (decide (agree (S n) v w)) as [Ha|Ha]; [|rewrite replaced_above by (by right); by case_decide; [tauto|]].
    destruct (decide (k <= n)%nat) as [?|?]; [rewrite replaced_above by (by left); case_decide; [lia|done]|].
    destruct (decide (k = S n)) as [->|?]; [rewrite (replaced_here w Hl' Ha), Hc; by rewrite decide_True|].
    rewrite replaced_below; [by case_decide; [tauto|]|lia|by apply Hbelow]. }
  split; [|split; [|done]].
  - split.
    + intros k w s. rewrite Htbl. case_decide; [by intros [= <-]|by apply (tr_table _ Htree)].
    + intros k k' w w' s. rewrite !Htbl. case_decide as H1; case_decide as H2.
      * intros _ _. destruct H1 as [-> ?], H2 as [-> ?]. split; [done|]. eapply agree_trans; [by apply agree_sym|done].
      * intros [= <-] H. by apply Hfresh in H.
      * intros H [= <-]. by apply Hfresh in H.
      * apply (tr_inj _ Htree).
    + intros k w s l0. rewrite Htbl. case_decide as H1; intros Hs Hl0 Hor.
      * injection Hs as <-. destruct H1 as [-> ?]. by apply Hhuge.
      * assert (Hcase : (k <> n \/ ~ agree (S n) v w) \/ k = n /\ agree (S n) v w).
        { destruct (decide (k = n)), (decide (agree (S n) v w)); tauto. }
        destruct Hcase as [Hk|[-> Ha]].
        -- rewrite (replaced_read k w s l0 Hs (level_at_walk _ _ Hl0) Hk). by eapply (tr_huge _ Htree).
        -- rewrite (tbl_agree m n w v) in Hs by (apply agree_sym; eapply agree_mono; [|exact Ha]; lia). rewrite Ht in Hs. injection Hs as <-.
           rewrite Hl' in Hl0. injection Hl0 as <-. apply (agree_S n l _ _ Hl) in Ha as [_ <-]. rewrite He. intros Hhu.
           unfold next_table in Hc. rewrite Hhu in Hc. destruct Hor as [->| ->]; cbn in Hc; by rewrite andb_false_r in Hc.
  - intros w. destruct (decide (agree (S n) v w)); [by apply Hview|]. unfold view. by rewrite replaced_elsewhere.
Qed.

(** The entry leads where it did, with other flags. *)
Lemma retag c :
  ls !! n = Some l -> next_table l (entry m t (level_index v l)) = Some c -> next_table l e' = Some c ->
  tree_ok m' /\ (forall w, view m' w = view m w) /\ (forall k w, tbl m' k w = tbl m k w).
Proof.
  intros Hl' Hc Hc'. assert (Hold : forall w, agree (S n) v w -> tbl m (S n) w = Some c).
  { intros w Ha. rewrite <- (tbl_agree m (S n) v w Ha). by rewrite (tbl_S m n v l t Hl' Ht). }
  assert (Hnew : forall w, agree (S n) v w -> tbl m' (S n) w = Some c) by (intros w Ha; by rewrite (replaced_here w Hl' Ha)).
  assert (Htbl : forall k w, tbl m' k w = tbl m k w).
  { intros k w. destruct (decide (agree (S n) v w)) as [Ha|Ha]; [|by apply replaced_above; right].
    destruct (decide (k <= n)%nat) as [?|?]; [by apply replaced_above; left|].
    destruct (decide (k = S n)) as [->|?]; [by rewrite Hold, Hnew|]. apply replaced_below; [lia|].
    cbn [tbl] in *. rewrite (Hold w Ha), (Hnew w Ha). destruct (ls !! S n) as [l0|] eqn:Hl0; [|done].
    rewrite (replaced_read (S n) w c l0); [done|by apply Hold|by apply level_at_walk|left; lia]. }
  split; [|split; [|done]].
  - destruct Htree as [T I G]. split.
    + intros k w s. rewrite Htbl. apply T.
    + intros k k' w w' s. rewrite !Htbl. apply I.
    + intros k w s l0. rewrite Htbl. intros Hs Hl0 Hor. assert (Hcase : (k <> n \/ ~ agree (S n) v w) \/ k = n /\ agree (S n) v w).
      { destruct (decide (k = n)), (decide (agree (S n) v w)); tauto. }
      destruct Hcase as [Hk|[-> Ha]]; [rewrite (replaced_read k w s l0 Hs (level_at_walk _ _ Hl0) Hk); by eapply G|].
      rewrite (tbl_agree m n w v) in Hs by (apply agree_sym; eapply agree_mono; [|exact Ha]; lia). rewrite Ht in Hs. injection Hs as <-.
      rewrite Hl' in Hl0. injection Hl0 as <-. apply (agree_S n l _ _ Hl) in Ha as [_ <-]. rewrite He. intros Hhu.
      unfold next_table in Hc'. rewrite Hhu in Hc'. destruct Hor as [->| ->]; cbn in Hc'; by rewrite andb_false_r in Hc'.
  - intros w. unfold view. destruct (decide (agree (S n) v w)) as [Ha|Ha]; [|by rewrite replaced_elsewhere].
    rewrite (translate_from m (S n) w c (Hold w Ha)), (translate_from m' (S n) w c (Hnew w Ha)). f_equal.
    apply translate_rest; [by apply Hold|]. intros k s l0 Hk Hs Hl0. apply (replaced_read k w s l0 Hs Hl0). left. lia.
Qed.

(** The entry is cleared; what it led to had no entries, or was a page. *)
Lemma prune :
  ls !! n = Some l -> e' = pte_empty -> (forall w, agree (S n) v w -> tbl m (S (S n)) w = None) ->
  tree_ok m' /\ (forall w, ~ agree (S n) v w -> view m' w = view m w) /\ (forall w, agree (S n) v w -> view m' w = None) /\
  (forall k w, tbl m' k w = if decide (k = S n /\ agree (S n) v w) then None else tbl m k w).
Proof.
  intros Hl' He' Hbelow. assert (Hnone : forall w, agree (S n) v w -> tbl m' (S n) w = None).
  { intros w Ha. rewrite (replaced_here w Hl' Ha). unfold next_table. by rewrite He'. }
  assert (Htbl : forall k w, tbl m' k w = if decide (k = S n /\ agree (S n) v w) then None else tbl m k w).
  { intros k w. destruct (decide (agree (S n) v w)) as [Ha|Ha]; [|rewrite replaced_above by (by right); by case_decide; [tauto|]].
    destruct (decide (k <= n)%nat) as [?|?]; [rewrite replaced_above by (by left); case_decide; [lia|done]|].
    destruct (decide (k = S n)) as [->|?]; [rewrite (Hnone w Ha); by rewrite decide_True|]. case_decide; [tauto|].
    apply replaced_below; [lia|]. rewrite (Hbelow w Ha). cbn [tbl] in Hnone |- *. by rewrite (Hnone w Ha). }
  split; [|split; [|split; [|done]]].
  - split.
    + intros k w s. rewrite Htbl. case_decide; [done|by apply (tr_table _ Htree)].
    + intros k k' w w' s. rewrite !Htbl. case_decide; [done|]. case_decide; [done|]. apply (tr_inj _ Htree).
    + intros k w s l0. rewrite Htbl. case_decide as H1; [done|]. intros Hs Hl0 Hor.
      destruct (decide (k = n /\ agree (S n) v w)) as [[-> Ha]|Hn].
      * rewrite (tbl_agree m n w v) in Hs by (apply agree_sym; eapply agree_mono; [|exact Ha]; lia). rewrite Ht in Hs. injection Hs as <-.
        rewrite Hl' in Hl0. injection Hl0 as <-. apply (agree_S n l _ _ Hl) in Ha as [_ <-]. by rewrite He, He'.
      * rewrite (replaced_read k w s l0 Hs (level_at_walk _ _ Hl0)) by (destruct (decide (k = n)); [right|left]; tauto).
        by eapply (tr_huge _ Htree).
  - intros w Hw. unfold view. by rewrite replaced_elsewhere.
  - intros w Ha. assert (Htw : tbl m' n w = Some t).
    { rewrite replaced_above by (by left). rewrite <- Ht. symmetry. apply tbl_agree. eapply agree_mono; [|exact Ha]. lia. }
    unfold view. destruct (translate_stops m' n w t l Htw Hl' (Hnone w Ha)) as [[_ ->]|[Hbad _]]; [done|].
    apply (agree_S n l _ _ Hl) in Ha as [_ Hi]. rewrite <- Hi, He, He' in Hbad. done.
Qed.
End Replace.
End Walk.
