(* ===== verification/PagingMap.v ===== *)
(** * Mapping a page

    [map_page] against the invariant of an address space: it opens the way to the page,
    splitting large pages and copying shared tables, without changing what any address maps,
    and then replaces what the one page maps. *)

From S2P Require Import Prelude Page Zone Pcp Buddy PageEntry Paging PageWalk.

(** ** Pages the allocators have not handed out *)
Lemma free_covered B x : free_pfn B x -> covered B x.
Proof. intros (q & b & Hq & _ & Hx). by exists q, b. Qed.

(** Two blocks that cover a page are one. *)
Lemma covered_once m B x q b q' b' :
  blocks_ok m B -> B !! q = Some b -> B !! q' = Some b' -> q <= x < q + 2 ^ border b -> q' <= x < q' + 2 ^ border b' -> q = q'.
Proof.
  intros Hb Hq Hq' H H'. destruct (decide (q = q')) as [|Hne]; [done|]. destruct (bo_disjoint _ _ Hb _ _ _ _ Hq Hq' Hne); lia.
Qed.

Lemma mem_ok_blocks m B : mem_ok m B -> blocks_ok m B.
Proof. by intros [L [_ Hb _ _]]. Qed.
Lemma mem_ok_layout m B : mem_ok m B -> layout_ok m.
Proof. by intros [L [Hl _ _ _]]. Qed.
Lemma block_order m B q b : mem_ok m B -> B !! q = Some b -> 0 <= border b < MAX_ORDER.
Proof. intros Hok Hq. by apply (bo_order _ _ (mem_ok_blocks _ _ Hok) _ _ Hq). Qed.

(** A page that is held is not free. *)
Lemma held_not_free m B t : mem_ok m B -> held B t -> ~ free_pfn B (t / PAGE_SIZE).
Proof.
  intros Hok [_ [Hu|Hn]] Hf; [|by apply Hn, free_covered]. destruct Hf as (q & b & Hq & Hk & Hx).
  assert (q = t / PAGE_SIZE) as ->; [|rewrite Hu in Hq; injection Hq as <-; done].
  eapply (covered_once m B (t / PAGE_SIZE)); [by apply mem_ok_blocks|done|exact Hu|done|]. cbn. lia.
Qed.

(** Taking a page leaves the other pages as they were held. *)
Lemma takes_held m B m' B' p t :
  takes m B m' B' p 0 -> t <> p * PAGE_SIZE -> held B t -> held B' t.
Proof.
  intros Htk Hne [Hal Hh]. split; [done|]. assert (Hp : t / PAGE_SIZE <> p).
  { intros <-. apply Hne. destruct Hal as [k ->]. by rewrite Z.div_mul. }
  destruct Hh as [Hu|Hn]; [left; by apply (tk_used _ _ _ _ _ _ Htk)|right]. by rewrite (tk_covered _ _ _ _ _ _ Htk).
Qed.

(** The caches are within their limits, and there is a CPU to own them. *)
Definition pcp_fine (m : Mem) : Prop := pcp_ready m = true -> pcp_quiet m /\ 0 < nr_cpus m.

Lemma pcp_fine_same m m' : frame m m' -> pcps m' = pcps m -> pcp_fine m -> pcp_fine m'.
Proof. intros Hf Hp H. unfold pcp_fine, pcp_quiet. rewrite (fr_pcp _ _ Hf), (fr_cpus _ _ Hf), Hp. exact H. Qed.

(** ** A new table *)
(** The state after [alloc_zeroed_table_phys] returned the page [p]. *)
Record new_table (m : Mem) (B : gmap Z Block) (p : Z) (m' : Mem) (B' : gmap Z Block) : Prop := {
  nt_takes : takes m B m' B' p 0;
  nt_free : free_pfn B p;
  nt_bound : 0 <= p < max_pfn m;
  nt_phys a : phys m' a = if (p * PAGE_SIZE <=? a) && (a <? p * PAGE_SIZE + PAGE_SIZE) then 0 else phys m a;
  nt_pcps : pcps m' = pcps m;
  nt_page : exists pg, pages m' !! pfn_to_page m p = Some pg /\ refcount pg = 1 /\ private pg = 0 /\ is_pgtable pg = true
}.

Lemma is_pgtable_set pg o : is_pgtable (with_owner o (set_flag_pure PGTABLE pg)) = true.
Proof.
  unfold is_pgtable, test_flag. cbn. rewrite Z.land_lor_distr_l. change (Z.land PGTABLE PGTABLE) with PGTABLE.
  destruct (Z.eqb_spec (Z.lor (Z.land (flags pg) PGTABLE) PGTABLE) 0) as [H|]; [|done]. by apply Z.lor_eq_0_iff in H as [_ ?].
Qed.

Lemma alloc_zeroed_table_phys_ok m B :
  mem_ok m B ->
  alloc_zeroed_table_phys m = Ret (None, m) \/
  exists p m' B', alloc_zeroed_table_phys m = Ret (Some (p * PAGE_SIZE), m') /\ new_table m B p m' B'.
Proof.
  intros Hok. unfold alloc_zeroed_table_phys.
  destruct (alloc_pages_ok m B 0 GFP_KERNEL_ZERO Hok ltac:(unfold MAX_ORDER; lia)) as [[Hrun _]|(z & hi & p & m1 & Hrun & _ & Hal & _)];
    rewrite (kbind_ret _ _ _ _ _ Hrun); [by left|right].
  destruct Hal as (Hhi & Hb & Hz & Htk & (pg & Hpg & Hrc & _ & _ & Hpr & Hbud) & Hzero & Hpc & _).
  pose proof Htk as [Hok1 Hnew Hfresh Hused Hcov F1 Hpages]. set (B' := splits _ _ _ _) in *.
  pose proof (cached_bounds m B p _ Hok Hb) as Hp. pose proof (mem_ok_layout _ _ Hok) as Hl.
  rewrite (kbind_ret (gets _) _ m1 p m1) by (unfold gets; rewrite (frame_page_to_pfn m m1), page_to_pfn_ok by (done || apply Hl); done).
  rewrite (frame_pfn_to_page m m1) in Hpg by done. unfold set_flag, set_owner.
  destruct (step_page m B' p 0 Hnew m1 pg (set_flag_pure PGTABLE) F1 Hok1 Hpg) as (m2 & R2 & P2 & _ & G2); [|done|].
  { by rewrite is_buddy_set_flag, Hbud. }
  rewrite (kbind_ret _ _ _ _ _ R2). assert (F2 : frame m m2) by (transitivity m1; [done|apply P2]).
  destruct (step_page m B' p 0 Hnew m2 _ (with_owner (owner_raw Pgtable)) F2 (pr_ok _ _ _ _ P2) G2) as (m3 & R3 & P3 & _ & G3); try done.
  rewrite (kbind_ret _ _ _ _ _ R3). assert (F3 : frame m m3) by (transitivity m2; [done|apply P3]).
  pose proof (prepared_trans _ _ _ _ _ P2 P3) as [Hok3 Hon3 Hpc3]. rewrite mul64_small by (pose proof (lo_max _ Hl); unfold PAGE_SIZE in *; lia).
  unfold write_zeros. set (f := fun a => if (p * PAGE_SIZE <=? a) && (a <? p * PAGE_SIZE + PAGE_SIZE) then 0 else phys m3 a).
  rewrite (kbind_ret (modify _) _ m3 tt (set_phys m3 f)) by done. exists p, (set_phys m3 f), B'. split; [done|].
  assert (Fx : frame m (set_phys m3 f)) by (transitivity m3; [done|by split]). split.
  - split; try done; [by apply mem_ok_phys|]. intros q Hq Hn. change (pages (set_phys m3 f)) with (pages m3).
    rewrite <- (frame_pfn_to_page m m1), (on_pages _ _ _ Hon3), (frame_pfn_to_page m m1); try done; [by apply Hpages|by rewrite (fr_max _ _ F1)|].
    intros <-. apply Hn. by apply (outside_managed m B p _ Hok Hb).
  - exists p, (mkBlock InBuddy hi). cbn. split; [done|]. split; [done|]. pose proof (pow2_pos hi ltac:(lia)). lia.
  - done.
  - intros a. cbn. unfold f. rewrite (on_phys _ _ _ Hon3). rewrite (Hzero a). change (2 ^ 0) with 1. rewrite Z.mul_add_distr_r, Z.mul_1_l.
    change (gfp_test GFP_KERNEL_ZERO GFP_F_ZERO) with true. cbn [andb]. destruct ((p * PAGE_SIZE <=? a) && (a <? p * PAGE_SIZE + PAGE_SIZE)); done.
  - change (pcps (set_phys m3 f)) with (pcps m3). congruence.
  - eexists. split; [exact G3|]. split; [done|]. split; [done|apply is_pgtable_set].
Qed.

(** ** Dropping a reference to a page *)
(** Pages in use other than [p] stay in use and keep their descriptors, memory is not
    touched, and the allocators manage the same pages. *)
Record returned (m : Mem) (B : gmap Z Block) (p : Z) (m' : Mem) (B' : gmap Z Block) : Prop := {
  rt_ok : mem_ok m' B';
  rt_frame : frame m m';
  rt_fine : pcp_fine m';
  rt_phys : phys m' = phys m;
  rt_used q o : q <> p -> B' !! q = Some (mkBlock InUse o) <-> B !! q = Some (mkBlock InUse o);
  rt_covered x : covered B' x <-> covered B x;
  rt_pages q o : q <> p -> B !! q = Some (mkBlock InUse o) -> pages m' !! pfn_to_page m q = pages m !! pfn_to_page m q
}.

Lemma used_not_outside m B p q o :
  mem_ok m B -> q <> p -> B !! q = Some (mkBlock InUse o) -> 0 <= q < max_pfn m /\ ~ outside (delete p B) q.
Proof.
  intros Hok Hne Hq. split; [by apply (cached_bounds m B q _ Hok Hq)|]. intros Hout. pose proof (block_order m B q _ Hok Hq) as Ho. cbn in Ho.
  apply (Hout q o); [by rewrite lookup_delete_ne|]. pose proof (pow2_pos o ltac:(lia)). lia.
Qed.
Lemma gives_returned m B m' B' p o :
  mem_ok m B -> B !! p = Some (mkBlock InUse o) -> gives m B m' B' p o -> pcp_fine m' -> phys m' = phys m -> returned m B p m' B'.
Proof.
  intros Hok Hb [Hok' [Hu Hc] Hf Hpg] Hfine Hph. split; try done.
  - intros q o' Hne. rewrite Hu. by rewrite lookup_insert_ne.
  - intros x. rewrite Hc. by apply (retype_covered B p (mkBlock InUse o)).
  - intros q o' Hne Hq. destruct (used_not_outside m B p q o' Hok Hne Hq). by apply Hpg.
Qed.
Lemma returned_prepared m B p m1 m' B' :
  prepared m B p m1 -> mem_ok m B -> 0 <= p < max_pfn m -> returned m1 B p m' B' -> returned m B p m' B'.
Proof.
  intros [Hok1 Hon Hpc] Hok Hp [a b c d e f g]. pose proof (on_frame _ _ _ Hon) as F. split; try done.
  - by transitivity m1.
  - rewrite d. apply Hon.
  - intros q o Hne Hq. rewrite <- (frame_pfn_to_page m m1) by done. rewrite (g q o Hne Hq), (frame_pfn_to_page m m1) by done.
    apply (on_pages _ _ _ Hon); [by apply (cached_bounds m B q _ Hok Hq)|congruence].
Qed.
Lemma prepared_returned m B p m1 : prepared m B p m1 -> mem_ok m B -> pcp_fine m -> returned m B p m1 B.
Proof.
  intros [Hok1 Hon Hpc] Hok Hfine. pose proof (on_frame _ _ _ Hon) as F. split; try done; [by apply (pcp_fine_same m)|apply Hon|].
  intros q o Hne Hq. apply (on_pages _ _ _ Hon); [by apply (cached_bounds m B q _ Hok Hq)|congruence].
Qed.

(** The last reference: the page goes back to the allocators. *)
Lemma free_page_last apic m B p pg :
  mem_ok m B -> pcp_fine m -> 0 <= apic -> B !! p = Some (mkBlock InUse 0) -> pages m !! pfn_to_page m p = Some pg -> refcount pg = 1 ->
  exists m' B', free_page apic (pfn_to_page m p) m = Ret (tt, m') /\ returned m B p m' B' /\ forall o, B' !! p <> Some (mkBlock InUse o).
Proof.
  intros Hok Hfine Ha Hb Hpg H1. destruct (bo_zone _ _ (mem_ok_blocks _ _ Hok) _ _ Hb) as [z Hz]. cbn in Hz. change (2 ^ 0) with 1 in Hz.
  assert (Hgone : forall m' B' o, gives m B m' B' p 0 -> B' !! p <> Some (mkBlock InUse o)).
  { intros m' B' o Hg Hp. destruct (gv_ev _ _ _ _ _ _ Hg) as [Hu _]. apply Hu in Hp. by rewrite lookup_insert_eq in Hp. }
  destruct (pcp_ready m) eqn:Hr.
  - destruct (Hfine Hr) as [Hq Hn]. destruct (free_page_cached_ok apic m B z p pg) as (m' & B' & R & Hg & Hq' & Hph); try done.
    exists m', B'. split; [exact R|]. split; [|by eauto]. apply (gives_returned m B m' B' p 0); try done. intros _. split; [done|].
    by rewrite (fr_cpus _ _ (gv_frame _ _ _ _ _ _ Hg)).
  - pose proof (free_pages_ok apic m B z p 0 pg Hok Hb Hz Hpg H1 ltac:(by rewrite Hr)) as Hfree.
    destruct (coalesce _ _ _ _ _) as [[B1 p'] o']. destruct Hfree as (m' & R & Hg & Hpc & Hph).
    eexists m', _. split; [exact R|]. split; [|intros o; by apply (Hgone m')]. eapply gives_returned; try done. apply (pcp_fine_same m); try done. apply Hg.
Qed.
Lemma free_page_ok apic m B p pg :
  mem_ok m B -> pcp_fine m -> 0 <= apic -> B !! p = Some (mkBlock InUse 0) -> pages m !! pfn_to_page m p = Some pg -> 0 < refcount pg ->
  exists m' B', free_page apic (pfn_to_page m p) m = Ret (tt, m') /\ returned m B p m' B'.
Proof.
  intros Hok Hfine Ha Hb Hpg Hrc. destruct (decide (refcount pg = 1)) as [H1|H1].
  - destruct (free_page_last apic m B p pg Hok Hfine Ha Hb Hpg H1) as (m' & B' & R & Hret & _). by exists m', B'.
  - unfold free_page, free_pages. change (MAX_ORDER <=? 0) with false. cbv iota.
    destruct (try_put_ok m B p 0 pg Hok Hb Hpg) as [[H0 _]|(_ & m1 & R & P & _ & _)]; [lia|]. rewrite (kbind_ret _ _ _ _ _ R).
    destruct (Z.ltb_spec 0 (refcount pg - 1)); [|lia]. exists m1, B. split; [done|]. by apply prepared_returned.
Qed.

(** Blocks may have been given back, none is newly in use. *)
Definition no_alloc (B B' : gmap Z Block) : Prop := forall q o, B' !! q = Some (mkBlock InUse o) -> exists o', B !! q = Some (mkBlock InUse o').
#[export] Instance no_alloc_preorder : PreOrder no_alloc.
Proof. split; [intros B q o; by exists o|]. intros B1 B2 B3 H1 H2 q o Hq. destruct (H2 q o Hq) as [o' Hq']. by eapply H1. Qed.
Lemma returned_no_alloc m B p m' B' : returned m B p m' B' -> B !! p = Some (mkBlock InUse 0) -> no_alloc B B'.
Proof.
  intros Hret Hp q o Hq. destruct (decide (q = p)) as [->|Hne]; [by exists 0|]. exists o. by apply (rt_used _ _ _ _ _ Hret).
Qed.

(** No page is left for a table. *)
Definition out_of_tables (m : Mem) : Prop := alloc_zeroed_table_phys m = Ret (None, m).

(** An entry that a walk for a small page may not pass: a large page, unless the mapping is
    for user space and the entry can be split. *)
Definition blocked (need_user : bool) (l e : Z) : Prop :=
  is_huge e = true /\ (need_user = false \/ (l <> 3 /\ l <> 2) \/ is_present e = false).

(** ** Address spaces *)
Section Space.
Context (ls : list Z) (root : Z).
Hypothesis Hls : ls = walk_levels 4 \/ ls = walk_levels 5.

Abbreviation tbl := (tbl ls root).
Abbreviation view := (view ls root).
Abbreviation agree := (agree ls).

Record space_ok (m : Mem) (B : gmap Z Block) : Prop := {
  so_mem : mem_ok m B;
  so_pcp : pcp_fine m;
  so_max : max_pfn m * PAGE_SIZE <= 2 ^ 52;
  so_tree : tree_ok ls root m;
  so_held : tables_held ls root m B
}.

(** A page in use that is not a table. *)
Definition in_use (m : Mem) (B : gmap Z Block) (q : Z) : Prop :=
  B !! q = Some (mkBlock InUse 0) /\ forall k w, tbl m k w <> Some (q * PAGE_SIZE).
(** The contents of such pages. *)
Definition same_data (m m' : Mem) (B : gmap Z Block) : Prop :=
  forall q x, in_use m B q -> 0 <= x < PAGE_SIZE -> phys m' (q * PAGE_SIZE + x) = phys m (q * PAGE_SIZE + x).

(** Pages that are in use and not tables stay so, with their descriptors and contents. *)
Record preserves (m : Mem) (B : gmap Z Block) (m' : Mem) (B' : gmap Z Block) : Prop := {
  pv_frame : frame m m';
  pv_use q : in_use m B q -> in_use m' B' q;
  pv_pages q : in_use m B q -> pages m' !! pfn_to_page m q = pages m !! pfn_to_page m q;
  pv_data : same_data m m' B
}.
Lemma preserves_refl m B : preserves m B m B.
Proof. by split. Qed.
Lemma preserves_trans m1 B1 m2 B2 m3 B3 : preserves m1 B1 m2 B2 -> preserves m2 B2 m3 B3 -> preserves m1 B1 m3 B3.
Proof.
  intros [f1 u1 p1 d1] [f2 u2 p2 d2]. split; [by transitivity m2|auto| |].
  - intros q Hq. rewrite <- p1 by done. rewrite <- !(frame_pfn_to_page m1 m2 q) by done. by apply p2, u1.
  - intros q x Hq Hx. rewrite d2 by auto. by apply d1.
Qed.

(** A step that prepares the tables: no address maps anything else afterwards, the pages in
    use keep their descriptors and contents, and new tables come from the free pages. *)
Record opened (m : Mem) (B : gmap Z Block) (m' : Mem) (B' : gmap Z Block) : Prop := {
  op_space : space_ok m' B';
  op_view w : view m' w = view m w;
  op_frame : frame m m';
  op_used q o : B !! q = Some (mkBlock InUse o) -> B' !! q = Some (mkBlock InUse o);
  op_pages q : 0 <= q < max_pfn m -> ~ outside B q -> pages m' !! pfn_to_page m q = pages m !! pfn_to_page m q;
  op_tables k w s : tbl m' k w = Some s -> (exists k' w', tbl m k' w' = Some s) \/ free_pfn B (s / PAGE_SIZE);
  op_free x : free_pfn B' x -> free_pfn B x;
  op_covered x : covered B' x <-> covered B x;
  op_data : same_data m m' B
}.

(** What a step does not touch of the pages in use. *)
Record keeps (m : Mem) (B : gmap Z Block) (m' : Mem) (B' : gmap Z Block) : Prop := {
  kp_used q o : B !! q = Some (mkBlock InUse o) -> B' !! q = Some (mkBlock InUse o);
  kp_pages q : 0 <= q < max_pfn m -> ~ outside B q -> pages m' !! pfn_to_page m q = pages m !! pfn_to_page m q;
  kp_data : same_data m m' B
}.
Lemma opened_keeps m B m' B' : opened m B m' B' -> keeps m B m' B'.
Proof. intros [a b c d e f g h i]. by split. Qed.

Lemma opened_refl m B : space_ok m B -> opened m B m B.
Proof. intros H. split; try done. intros k w s Hs. left. eauto. Qed.

Lemma in_use_not_free m B q : mem_ok m B -> B !! q = Some (mkBlock InUse 0) -> ~ free_pfn B q.
Proof.
  intros Hok Hq (r & b & Hr & Hk & Hx). assert (r = q) as ->; [|rewrite Hq in Hr; injection Hr as <-; by apply Hk].
  apply (covered_once m B q r b q (mkBlock InUse 0)); [by apply mem_ok_blocks|done|done|done|]. cbn. lia.
Qed.
Lemma opened_in_use m B m' B' q : mem_ok m B -> opened m B m' B' -> in_use m B q -> in_use m' B' q.
Proof.
  intros Hok [_ _ _ u _ t _ _ _] [Hq Hn]. split; [by apply u|]. intros k w Hs. destruct (t _ _ _ Hs) as [(k' & w' & Hs')|Hf].
  - by apply Hn in Hs'.
  - rewrite Z.div_mul in Hf by done. by eapply in_use_not_free.
Qed.
Lemma opened_trans m1 B1 m2 B2 m3 B3 : mem_ok m1 B1 -> opened m1 B1 m2 B2 -> opened m2 B2 m3 B3 -> opened m1 B1 m3 B3.
Proof.
  intros Hok Hop1 Hop2. pose proof Hop1 as [s1 v1 f1 u1 p1 t1 e1 c1 d1]. pose proof Hop2 as [s2 v2 f2 u2 p2 t2 e2 c2 d2]. split.
  - done.
  - intros w. by rewrite v2.
  - by transitivity m2.
  - intros q o Hq. by apply u2, u1.
  - intros q Hq Hn. rewrite <- p1 by done. rewrite <- (frame_pfn_to_page m1 m2 q) by done. apply p2; [by rewrite (fr_max _ _ f1)|].
    intros Hout. apply Hn. intros r o Hr. apply (Hout r o). by apply u1.
  - intros k w s Hs. destruct (t2 _ _ _ Hs) as [(k' & w' & Hs')|Hf]; [by eapply t1|]. right. by apply e1.
  - intros x Hx. by apply e1, e2.
  - intros x. by rewrite c2.
  - intros q x Hq Hx. rewrite d2 by (done || by eapply opened_in_use). by apply d1.
Qed.

(** Storing an entry touches the page of its table only. *)
Lemma store_entry_phys t i e m a : 0 <= i < 512 -> ~ (t <= a < t + PAGE_SIZE) -> phys (store_entry t i e m) a = phys m a.
Proof.
  intros Hi Ha. unfold store_entry, write64. cbn. unfold PAGE_SIZE in *.
  destruct (Z.leb_spec (t + 8 * i) a), (Z.ltb_spec a (t + 8 * i + 8)); try done. lia.
Qed.
Lemma data_apart m B n v t q x :
  tree_ok ls root m -> tbl m n v = Some t -> in_use m B q -> 0 <= x < PAGE_SIZE -> ~ (t <= q * PAGE_SIZE + x < t + PAGE_SIZE).
Proof.
  intros Htree Ht [_ Hq] Hx. apply pages_apart; [by eapply (tr_table _ _ _ Htree)|by exists q| |done]. intros ->. by apply Hq in Ht.
Qed.

(** A table that belongs to this address space alone. *)
Definition owned (m : Mem) (B : gmap Z Block) (t : Z) : Prop :=
  B !! (t / PAGE_SIZE) = Some (mkBlock InUse 0) /\ exists pg, pages m !! pfn_to_page m (t / PAGE_SIZE) = Some pg /\ private pg = 0.
Lemma opened_owned m B m' B' t : mem_ok m B -> opened m B m' B' -> owned m B t -> owned m' B' t.
Proof.
  intros Hok Hop [Hb (pg & Hpg & Hpr)]. split; [by apply (op_used _ _ _ _ Hop)|]. exists pg. split; [|done].
  rewrite (frame_pfn_to_page m m') by apply Hop. rewrite <- Hpg. apply (op_pages _ _ _ _ Hop); [by apply (cached_bounds m B _ _ Hok Hb)|].
  intros Hout. apply (Hout _ _ Hb). cbn. lia.
Qed.
(** The way to an address of a user program: own tables below the root, no large pages, and
    every entry leads to tables for users. *)
Definition own_way (m : Mem) (B : gmap Z Block) (v : Z) : Prop :=
  forall k t, tbl m k v = Some t -> ((0 < k)%nat -> owned m B t) /\
    forall l, ls !! k = Some l -> let e := entry m t (level_index v l) in is_huge e = false /\ (is_present e = true -> is_user e = true).
Definition extends (m : Mem) (B : gmap Z Block) (m' : Mem) (B' : gmap Z Block) : Prop := forall w, own_way m B w -> own_way m' B' w.
Lemma extends_refl m B : extends m B m B.
Proof. by intros w. Qed.
#[local] Hint Resolve extends_refl : core.

(** Changes of flags and of the words that do not lead elsewhere. *)
Lemma opened_same m B m' :
  space_ok m B -> frame m m' -> mem_ok m' B -> pcps m' = pcps m -> pages m' = pages m ->
  tree_ok ls root m' -> (forall w, view m' w = view m w) -> (forall k w, tbl m' k w = tbl m k w) -> same_data m m' B -> opened m B m' B.
Proof.
  intros [a b c d e] Hf Hok Hpc Hpg Ht Hv Hk Hd. split; try done.
  - split; [done|by apply (pcp_fine_same m)|by rewrite (fr_max _ _ Hf)|done|]. intros k w s. rewrite Hk. apply e.
  - intros q _ _. by rewrite Hpg.
  - intros k w s. rewrite Hk. intros Hs. left. eauto.
Qed.

Lemma level_cases n l : ls !! n = Some l ->
  (l = 5 \/ l = 4) \/ (l = 3 /\ ls !! S n = Some 2) \/ (l = 2 /\ S n = length ls).
Proof.
  destruct Hls as [->| ->]; [change (walk_levels 4) with [4; 3; 2]|change (walk_levels 5) with [5; 4; 3; 2]];
    do 5 (destruct n as [|n]; [intros [= <-]; auto|]); done.
Qed.

Lemma level_depth n l : ls !! n = Some l -> Z.of_nat n + l = Z.of_nat (length ls) + 1.
Proof.
  destruct Hls as [->| ->]; [change (walk_levels 4) with [4; 3; 2]|change (walk_levels 5) with [5; 4; 3; 2]];
    do 5 (destruct n as [|n]; [intros [= <-]; done|]); done.
Qed.

(** ** Installing a new table *)
Lemma table_of_page p : table_addr (p * PAGE_SIZE).
Proof. by exists p. Qed.
Lemma page_of_table p : p * PAGE_SIZE / PAGE_SIZE = p.
Proof. by apply Z.div_mul. Qed.

Lemma new_table_fresh m B p m1 B1 : space_ok m B -> new_table m B p m1 B1 -> forall k w, tbl m k w <> Some (p * PAGE_SIZE).
Proof.
  intros Hsp Hnt k w Hs. apply (held_not_free m B (p * PAGE_SIZE)); [apply Hsp|by eapply (so_held _ _ Hsp)|].
  rewrite page_of_table. apply (nt_free _ _ _ _ _ Hnt).
Qed.
Lemma new_table_frame_addr m B p m1 B1 : space_ok m B -> new_table m B p m1 B1 -> frame_addr (p * PAGE_SIZE).
Proof.
  intros Hsp Hnt. split; [by exists p|]. pose proof (nt_bound _ _ _ _ _ Hnt). pose proof (so_max _ _ Hsp). unfold PAGE_SIZE in *. nia.
Qed.
Lemma takes_free m B m' B' p x : mem_ok m B -> takes m B m' B' p 0 -> free_pfn B' x -> free_pfn B x.
Proof.
  intros Hok Htk Hf. pose proof Hf as (q & b & Hq & Hk & Hx). destruct (proj1 (tk_covered _ _ _ _ _ _ Htk x) (free_covered _ _ Hf)) as (r & c & Hr & Hrx).
  exists r, c. split; [done|]. split; [|done]. intros Hc. destruct c as [k o]. cbn in Hc, Hrx. subst k.
  assert (Hrp : r <> p) by (intros ->; by apply (tk_fresh _ _ _ _ _ _ Htk) in Hr). apply (tk_used _ _ _ _ _ _ Htk) in Hr; [|done].
  assert (q = r) as ->; [|rewrite Hr in Hq; injection Hq as <-; done].
  by apply (covered_once m' B' x q b r (mkBlock InUse o)); [apply mem_ok_blocks, Htk|..].
Qed.

(** [m2] differs from [m] by the new page [p], whose contents may be anything, and by the
    entry that leads to it. *)
Record installed (m : Mem) (B : gmap Z Block) (p : Z) (m2 : Mem) (B1 : gmap Z Block) (t i e' : Z) : Prop := {
  in_takes : takes m B m2 B1 p 0;
  in_pcps : pcps m2 = pcps m;
  in_entry : entry m2 t i = e';
  in_same s j : table_addr s -> s <> p * PAGE_SIZE -> 0 <= j < 512 -> (s, j) <> (t, i) -> entry m2 s j = entry m s j;
  in_phys a : ~ (p * PAGE_SIZE <= a < p * PAGE_SIZE + PAGE_SIZE) -> ~ (t <= a < t + PAGE_SIZE) -> phys m2 a = phys m a
}.

Lemma install m B p m1 B1 m2 n v t l e' :
  space_ok m B -> tbl m n v = Some t -> ls !! n = Some l -> new_table m B p m1 B1 ->
  installed m B p m2 B1 t (level_index v l) e' -> next_table l e' = Some (p * PAGE_SIZE) ->
  (forall w, agree (S n) v w -> tbl m2 (S n) w = Some (p * PAGE_SIZE) ->
     tbl m2 (S (S n)) w = tbl m (S (S n)) w /\ (tbl m2 (S (S n)) w = tbl m (S (S n)) w -> view m2 w = view m w)) ->
  (forall j l', agree (S n) v j -> ls !! S n = Some l' -> l' = 3 \/ l' = 2 -> is_huge (entry m2 (p * PAGE_SIZE) (level_index j l')) = true ->
     phys_addr (entry m2 (p * PAGE_SIZE) (level_index j l')) + huge_size l' <= 2 ^ 52) ->
  opened m B m2 B1 /\ tbl m2 n v = Some t /\
  (forall k w, tbl m2 k w = if decide (k = S n /\ agree (S n) v w) then Some (p * PAGE_SIZE) else tbl m k w).
Proof.
  intros Hsp Ht Hl Hnt [Htk Hpc He Hs Hph] Hc Hchild Hhuge. pose proof (new_table_fresh m B p m1 B1 Hsp Hnt) as Hfresh.
  pose proof (level_at_walk ls n l Hl) as Hl'. pose proof (so_tree _ _ Hsp) as Htree.
  assert (Hsame : forall k w s j, tbl m k w = Some s -> 0 <= j < 512 -> (s, j) <> (t, level_index v l) -> entry m2 s j = entry m s j).
  { intros k w s j Hks Hj Hne. apply Hs; try done; [by eapply (tr_table _ _ _ Htree)|]. intros ->. by apply Hfresh in Hks. }
  assert (Hhere : forall w, agree (S n) v w -> tbl m2 (S n) w = Some (p * PAGE_SIZE)).
  { intros w Ha. rewrite (replaced_here ls root m m2 n v t l e' Htree Ht Hl' Hsame He w Hl Ha). done. }
  destruct (graft ls root m m2 n v t l e' Htree Ht Hl' Hsame He (p * PAGE_SIZE) Hl Hc Hfresh (table_of_page p)) as (Htree2 & Hview2 & Htbl2).
  - intros w Ha. by apply Hchild; [|apply Hhere].
  - intros w Ha. destruct (Hchild w Ha (Hhere w Ha)) as [H1 H2]. by apply H2.
  - done.
  - split; [|split; [rewrite Htbl2; case_decide; [lia|done]|done]].
    pose proof (tk_frame _ _ _ _ _ _ Htk) as Hf. split.
    + split; [apply Htk|by apply (pcp_fine_same m); [| |apply Hsp]|rewrite (fr_max _ _ Hf); apply Hsp|done|].
      intros k w s. rewrite Htbl2. case_decide.
      * intros [= <-]. split; [apply table_of_page|]. left. rewrite page_of_table. apply (tk_new _ _ _ _ _ _ Htk).
      * intros Hks. eapply takes_held; [exact Htk| |by eapply (so_held _ _ Hsp)]. intros ->. by apply Hfresh in Hks.
    + done.
    + done.
    + intros q o Hq. apply (tk_used _ _ _ _ _ _ Htk); [|done]. intros ->. by apply (tk_fresh _ _ _ _ _ _ Htk) in Hq.
    + apply (tk_pages _ _ _ _ _ _ Htk).
    + intros k w s. rewrite Htbl2. case_decide; [intros [= <-]; right; rewrite page_of_table; apply (nt_free _ _ _ _ _ Hnt)|]. intros Hks. left. eauto.
    + intros x. by apply (takes_free m B m2 B1 p x); [apply Hsp|].
    + apply (tk_covered _ _ _ _ _ _ Htk).
    + intros q x Hq Hx. apply Hph; [|eapply data_apart; [exact Htree|exact Ht|exact Hq|exact Hx]]. apply pages_apart; [apply table_of_page|apply table_of_page| |done]. intros Heq.
      assert (q = p) as -> by (unfold PAGE_SIZE in *; lia). by apply (tk_fresh _ _ _ _ _ _ Htk 0), Hq.
Qed.

Lemma takes_phys m B m1 B1 p o f : takes m B m1 B1 p o -> takes m B (set_phys m1 f) B1 p o.
Proof. intros [a b c d e g h]. split; try done; [by apply mem_ok_phys|]. transitivity m1; [done|by split]. Qed.

(** Storing the entry that leads to the new page. *)
Lemma store_installed m B p m1 B1 t i e' :
  takes m B m1 B1 p 0 -> pcps m1 = pcps m -> table_addr t -> 0 <= i < 512 -> in_u64 e' ->
  (forall a, ~ (p * PAGE_SIZE <= a < p * PAGE_SIZE + PAGE_SIZE) -> phys m1 a = phys m a) ->
  installed m B p (store_entry t i e' m1) B1 t i e'.
Proof.
  intros Htk Hpc Ht Hi He Hs. split; [by apply takes_phys|done|by apply entry_store_eq| |].
  - intros s j Hal Hne Hj Hsl. rewrite entry_store_ne by (done || congruence). apply entry_same; [done|]. intros x Hx.
    apply Hs, pages_apart; [apply table_of_page|done|congruence|done].
  - intros a Hp Hta. rewrite store_entry_phys by done. by apply Hs.
Qed.
Lemma new_table_phys m B p m1 B1 : new_table m B p m1 B1 -> forall a, ~ (p * PAGE_SIZE <= a < p * PAGE_SIZE + PAGE_SIZE) -> phys m1 a = phys m a.
Proof.
  intros Hnt a Ha. rewrite (nt_phys _ _ _ _ _ Hnt). destruct (Z.leb_spec (p * PAGE_SIZE) a), (Z.ltb_spec a (p * PAGE_SIZE + PAGE_SIZE)); try done. lia.
Qed.

Lemma new_table_entry m B p m1 B1 : new_table m B p m1 B1 -> forall s j, table_addr s -> 0 <= j < 512 ->
  entry m1 s j = if decide (s = p * PAGE_SIZE) then 0 else entry m s j.
Proof.
  intros Hnt s j Hs Hj. case_decide as Hd.
  - subst s. transitivity (read64 (fun _ => 0) 0); [|reflexivity]. apply read64_ext. intros k Hk. rewrite (nt_phys _ _ _ _ _ Hnt).
    destruct (Z.leb_spec (p * PAGE_SIZE) (p * PAGE_SIZE + 8 * j + k)); [|lia].
    destruct (Z.ltb_spec (p * PAGE_SIZE + 8 * j + k) (p * PAGE_SIZE + PAGE_SIZE)); [done|unfold PAGE_SIZE in *; lia].
  - apply entry_same; [done|]. intros x Hx. rewrite (nt_phys _ _ _ _ _ Hnt).
    pose proof (pages_apart (p * PAGE_SIZE) s x (table_of_page p) Hs ltac:(congruence) Hx) as Hap.
    destruct (Z.leb_spec (p * PAGE_SIZE) (s + x)), (Z.ltb_spec (s + x) (p * PAGE_SIZE + PAGE_SIZE)); try done. lia.
Qed.

(** The entries the code writes for a new table. *)
Lemma linked_entry e c :
  in_u64 e -> is_huge e = false -> frame_addr c ->
  let e1 := set_user true (set_writable true (set_present true (set_phys_addr c e))) in
  let e2 := set_writable true (set_user true (set_present true (set_phys_addr c e))) in
  e2 = e1 /\ in_u64 e1 /\ is_present e1 = true /\ is_huge e1 = false /\ phys_addr e1 = c /\ is_user e1 = true.
Proof.
  intros He Hh Hc e1 e2. unfold is_huge in Hh. split; [|split; [|split; [|split; [|split]]]].
  - unfold e1, e2, set_user, set_writable. rewrite <- !Z.lor_assoc. do 2 f_equal.
  - unfold e1, set_user, set_writable, set_present, set_phys_addr. rewrite (frame_addr_mask c) by done.
    assert (in_u64 c) by (destruct Hc; unfold in_u64; lia).
    repeat apply in_u64_lor; try done; [|unfold in_u64, PTE_PRESENT, PTE_WRITABLE, PTE_USER; lia..].
    apply in_u64_land; [done|]. vm_compute. discriminate.
  - unfold e1. bits. done.
  - unfold e1. bits. exact Hh.
  - unfold e1. bits. rewrite Z.lor_0_l. by apply frame_addr_mask.
  - unfold e1. bits. done.
Qed.
Lemma next_table_linked l e : is_present e = true -> is_huge e = false -> next_table l e = Some (phys_addr e).
Proof. intros Hp Hh. unfold next_table. by rewrite Hp, Hh, andb_false_r. Qed.

(** A table without entries maps nothing. *)
Lemma empty_table_maps_nothing ls' w c m : (forall j, 0 <= j < 512 -> is_present (entry m c j) = false) -> translate_loop ls' w c m = None.
Proof. intros H. destruct ls' as [|l ls']; cbn; by rewrite H by apply level_index_range. Qed.

(** A missing table is added. *)
Lemma add_table_ok m B n v t l :
  space_ok m B -> tbl m n v = Some t -> ls !! n = Some l ->
  let i := level_index v l in let e := entry m t i in
  is_present e = false -> is_huge e = false ->
  forall p m1 B1, new_table m B p m1 B1 ->
  let e' := set_user true (set_writable true (set_present true (set_phys_addr (p * PAGE_SIZE) e))) in
  opened m B (store_entry t i e' m1) B1 /\ tbl (store_entry t i e' m1) n v = Some t /\
  entry (store_entry t i e' m1) t i = e' /\ extends m B (store_entry t i e' m1) B1.
Proof.
  intros Hsp Ht Hl i e Hpr Hhu p m1 B1 Hnt e'. pose proof (new_table_frame_addr m B p m1 B1 Hsp Hnt) as Hfa.
  destruct (linked_entry e (p * PAGE_SIZE) (in_u64_entry _ _ _) Hhu Hfa) as (_ & Hu & Hp' & Hh' & Ha' & Hus'). fold e' in Hu, Hp', Hh', Ha', Hus'.
  pose proof (tr_table _ _ _ (so_tree _ _ Hsp) _ _ _ Ht) as Hta. set (m2 := store_entry t i e' m1).
  assert (Hne : t <> p * PAGE_SIZE) by (intros ->; by eapply new_table_fresh).
  assert (Hin : installed m B p m2 B1 t i e').
  { apply store_installed; try done; [apply Hnt|apply Hnt|apply level_index_range|by eapply new_table_phys]. }
  assert (Hzero : forall j, 0 <= j < 512 -> entry m2 (p * PAGE_SIZE) j = 0).
  { intros j Hj. unfold m2. rewrite entry_store_ne; try done; [|apply table_of_page|apply level_index_range|congruence].
    rewrite (new_table_entry m B p m1 B1 Hnt) by (done || apply table_of_page). by rewrite decide_True. }
  assert (Hstop : forall w, agree (S n) v w -> tbl m (S n) w = None).
  { intros w Ha. rewrite <- (tbl_agree ls root m (S n) v w Ha), (tbl_S ls root m n v l t Hl Ht). unfold next_table. fold i e. by rewrite Hpr. }
  destruct (install m B p m1 B1 m2 n v t l e' Hsp Ht Hl Hnt Hin) as (Hop & Hn & Htbl2).
  - rewrite next_table_linked by done. by rewrite Ha'.
  - intros w Ha Hc. split.
    + cbn [PageWalk.tbl] in Hc |- *. rewrite Hc. cbn [PageWalk.tbl] in Hstop. rewrite (Hstop w Ha). destruct (ls !! S n); [|done].
      by rewrite Hzero by apply level_index_range.
    + intros _. unfold PageWalk.view. rewrite (translate_from ls root m2 (S n) w _ Hc), empty_table_maps_nothing.
      2: { intros j Hj. by rewrite Hzero. }
      assert (Htw : tbl m n w = Some t) by (rewrite <- Ht; symmetry; apply tbl_agree; eapply agree_mono; [|exact Ha]; lia).
      pose proof (translate_stops ls root m n w t l Htw Hl (Hstop w Ha)) as Hst. apply (agree_S ls n l _ _ (level_at_walk _ _ _ Hl)) in Ha as [_ Hi].
      rewrite <- Hi in Hst. fold i e in Hst. destruct Hst as [[_ ->]|[Hbad _]]; [done|]. by rewrite Hpr in Hbad.
  - intros j l' _ _ _. rewrite Hzero by apply level_index_range. done.
  - split; [done|]. split; [done|]. split; [apply Hin|]. intros w Hw k s. rewrite Htbl2. case_decide as Hnew.
    + intros [= <-]. split; [|intros l0 _; rewrite Hzero by apply level_index_range; by split].
      intros _. unfold owned. rewrite page_of_table. split; [apply (tk_new _ _ _ _ _ _ (in_takes _ _ _ _ _ _ _ _ Hin))|].
      destruct (nt_page _ _ _ _ _ Hnt) as (pg & Hpg & _ & Hpr' & _). exists pg. split; [|done].
      rewrite (frame_pfn_to_page m m2) by apply (tk_frame _ _ _ _ _ _ (in_takes _ _ _ _ _ _ _ _ Hin)). exact Hpg.
    + intros Hs. destruct (Hw k s Hs) as [Hown Hbits]. assert (Hsp' : s <> p * PAGE_SIZE) by (intros ->; by eapply new_table_fresh).
      split; [intros Hk; by apply (opened_owned m B m2 B1); [apply Hsp|done|apply Hown]|].
      intros l0 Hl0. destruct (decide ((s, level_index w l0) = (t, i))) as [[= -> ->]|Hne'].
      * rewrite (in_entry _ _ _ _ _ _ _ _ Hin). done.
      * rewrite (in_same _ _ _ _ _ _ _ _ Hin); [by apply Hbits|by eapply (tr_table _ _ _ (so_tree _ _ Hsp))|done|apply level_index_range|done].
Qed.

Lemma free_outside m B p : mem_ok m B -> free_pfn B p -> outside B p.
Proof.
  intros Hok (q & b & Hq & Hk & Hx) r o Hr Hin. assert (q = r) as ->; [|rewrite Hr in Hq; injection Hq as <-; done].
  by apply (covered_once m B p q b r (mkBlock InUse o)); [apply mem_ok_blocks|..].
Qed.
Lemma takes_prepared m B m1 B1 p m2 :
  mem_ok m B -> free_pfn B p -> takes m B m1 B1 p 0 -> prepared m1 B1 p m2 -> takes m B m2 B1 p 0.
Proof.
  intros Hok Hfree [a b c d e g h] [Hok2 Hon Hpc]. split; try done; [transitivity m1; [done|apply Hon]|].
  intros q Hq Hn. rewrite <- (frame_pfn_to_page m m1) by done. rewrite (on_pages _ _ _ Hon).
  - rewrite (frame_pfn_to_page m m1) by done. by apply h.
  - by rewrite (fr_max _ _ g).
  - intros <-. by apply Hn, (free_outside m).
Qed.

Lemma set_borrowed_ok m B m1 B1 p raw :
  mem_ok m B -> free_pfn B p -> 0 <= p < max_pfn m -> takes m B m1 B1 p 0 ->
  exists m2, set_borrowed_parent_entry_raw (p * PAGE_SIZE) raw m1 = Ret (tt, m2) /\ takes m B m2 B1 p 0 /\ pcps m2 = pcps m1 /\ phys m2 = phys m1.
Proof.
  intros Hok Hfree Hp Htk. pose proof (tk_frame _ _ _ _ _ _ Htk) as Hf. pose proof (tk_new _ _ _ _ _ _ Htk) as Hnew.
  unfold set_borrowed_parent_entry_raw. rewrite page_of_table. rewrite (kbind_ret (gets _) _ m1 (max_pfn m) m1) by (unfold gets; by rewrite (fr_max _ _ Hf)).
  destruct (Z.leb_spec (max_pfn m) p); [lia|]. rewrite (kbind_ret (gets _) _ m1 (pfn_to_page m p) m1) by (unfold gets; by rewrite (frame_pfn_to_page m m1)).
  destruct (is_buddy_in_use m1 B1 p 0 (tk_ok _ _ _ _ _ _ Htk) Hnew) as (pg & Hpg & _). rewrite (frame_pfn_to_page m m1) in Hpg by done.
  destruct (step_page m B1 p 0 Hnew m1 pg (with_private raw) Hf (tk_ok _ _ _ _ _ _ Htk) Hpg) as (m2 & R2 & P2 & _ & _); try done.
  exists m2. split; [exact R2|]. split; [by eapply takes_prepared|]. split; [apply P2|apply (pr_only _ _ _ _ P2)].
Qed.

(** Where the copy of a table leads, its original led. *)
Lemma copied_table m m2 n v t l e' c o :
  tree_ok ls root m -> tbl m n v = Some t -> ls !! n = Some l -> (forall k w, tbl m k w <> Some c) ->
  next_table l (entry m t (level_index v l)) = Some o ->
  (forall k w s j, tbl m k w = Some s -> 0 <= j < 512 -> (s, j) <> (t, level_index v l) -> entry m2 s j = entry m s j) ->
  entry m2 t (level_index v l) = e' ->
  (forall j, 0 <= j < 512 -> entry m2 c j = entry m o j) ->
  forall w, agree (S n) v w -> tbl m2 (S n) w = Some c ->
    tbl m2 (S (S n)) w = tbl m (S (S n)) w /\ (tbl m2 (S (S n)) w = tbl m (S (S n)) w -> view m2 w = view m w).
Proof.
  intros Htree Ht Hl Hfresh Ho Hsame He Hcopy w Ha Hc. pose proof (level_at_walk ls n l Hl) as Hl'.
  assert (How : tbl m (S n) w = Some o) by (rewrite <- (tbl_agree ls root m (S n) v w Ha); by rewrite (tbl_S ls root m n v l t Hl Ht)).
  split.
  - cbn [PageWalk.tbl] in Hc, How |- *. rewrite Hc, How. destruct (ls !! S n); [|done]. by rewrite Hcopy by apply level_index_range.
  - intros Hb. unfold PageWalk.view. rewrite (translate_from ls root m2 (S n) w c Hc), (translate_from ls root m (S n) w o How). f_equal.
    destruct (ls !! S n) as [l2|] eqn:Hl2.
    + rewrite (drop_S _ _ _ Hl2). cbn [translate_loop]. rewrite Hcopy by apply level_index_range. set (e2 := entry m o (level_index w l2)).
      pose proof (tbl_S ls root m (S n) w l2 o Hl2 How) as Hn2. fold e2 in Hn2. unfold next_table in Hn2.
      destruct (is_present e2); [|done]. cbn [negb andb] in Hn2 |- *.
      assert (Hrest : tbl m (S (S n)) w = Some (phys_addr e2) ->
        translate_loop (drop (S (S n)) ls) w (phys_addr e2) m2 = translate_loop (drop (S (S n)) ls) w (phys_addr e2) m).
      { intros Hs. apply (translate_rest ls root m m2); [done|]. intros k s l0 Hk Hks Hl0.
        apply (replaced_read ls root m m2 n v t l Htree Ht Hl' Hsame k w s l0 Hks Hl0). left. lia. }
      destruct (l2 =? 3), (l2 =? 2), (is_huge e2); cbn [orb andb negb] in Hn2 |- *; try done; by apply Hrest.
    + apply lookup_ge_None in Hl2. rewrite drop_ge by lia. cbn. by rewrite Hcopy by apply level_index_range.
Qed.

Lemma copy_table_entry m c o : table_addr c -> table_addr o -> forall s j, table_addr s -> 0 <= j < 512 ->
  entry (set_phys m (fun x => if (c <=? x) && (x <? c + PAGE_SIZE) then phys m (o + (x - c)) else phys m x)) s j =
  if decide (s = c) then entry m o j else entry m s j.
Proof.
  intros Hc Ho s j Hs Hj. case_decide as Hd; apply entry_same; try done; intros x Hx; cbn [phys set_phys].
  - subst s. destruct (Z.leb_spec c (c + x)); [|lia]. destruct (Z.ltb_spec (c + x) (c + PAGE_SIZE)); [|lia]. cbn. f_equal. lia.
  - pose proof (pages_apart c s x Hc Hs ltac:(congruence) Hx). destruct (Z.leb_spec c (s + x)), (Z.ltb_spec (s + x) (c + PAGE_SIZE)); try done. lia.
Qed.

Lemma copy_shared_table_ok m B n v t l :
  space_ok m B -> tbl m n v = Some t -> ls !! n = Some l ->
  let i := level_index v l in let e := entry m t i in
  is_present e = true -> is_huge e = false ->
  exists r m' B', copy_shared_table t i m = Ret (r, m') /\ opened m B m' B' /\ tbl m' n v = Some t /\
    if r then is_present (entry m' t i) = true /\ is_huge (entry m' t i) = false else out_of_tables m'.
Proof.
  intros Hsp Ht Hl i e Hpr Hhu. pose proof (tr_table _ _ _ (so_tree _ _ Hsp) _ _ _ Ht) as Hta. unfold copy_shared_table, get_entry.
  rewrite (kbind_ret (gets _) _ m e m) by done.
  destruct (alloc_zeroed_table_phys_ok m B (so_mem _ _ Hsp)) as [Hrun|(p & m1 & B1 & Hrun & Hnt)]; rewrite (kbind_ret _ _ _ _ _ Hrun).
  { exists false, m, B. split; [done|]. split; [by apply opened_refl|done]. }
  pose proof (new_table_frame_addr m B p m1 B1 Hsp Hnt) as Hfa. pose proof (new_table_fresh m B p m1 B1 Hsp Hnt) as Hfresh.
  assert (Hne : t <> p * PAGE_SIZE) by (intros ->; by apply Hfresh in Ht).
  assert (How : tbl m (S n) v = Some (phys_addr e)) by (rewrite (tbl_S ls root m n v l t Hl Ht); by apply next_table_linked).
  unfold copy_table.
  set (m2 := set_phys m1 (fun x => if (p * PAGE_SIZE <=? x) && (x <? p * PAGE_SIZE + PAGE_SIZE) then phys m1 (phys_addr e + (x - p * PAGE_SIZE)) else phys m1 x)).
  rewrite (kbind_ret (modify _) _ m1 tt m2) by done.
  assert (Htk2 : takes m B m2 B1 p 0) by (apply takes_phys, Hnt).
  destruct (set_borrowed_ok m B m2 B1 p e (so_mem _ _ Hsp) (nt_free _ _ _ _ _ Hnt) (nt_bound _ _ _ _ _ Hnt) Htk2) as (m3 & R3 & Htk3 & Hpc3 & Hph3).
  rewrite (kbind_ret _ _ _ _ _ R3).
  assert (Hent : forall s j, table_addr s -> 0 <= j < 512 ->
    entry m3 s j = if decide (s = p * PAGE_SIZE) then entry m (phys_addr e) j else entry m s j).
  { intros s j Hs Hj. unfold entry at 1. rewrite Hph3. fold (entry m2 s j). unfold m2.
    assert (Hto : table_addr (phys_addr e)) by apply (tr_table _ _ _ (so_tree _ _ Hsp) _ _ _ How).
    rewrite copy_table_entry by (done || apply table_of_page). rewrite !(new_table_entry m B p m1 B1 Hnt) by done.
    case_decide; [|done]. rewrite decide_False; [done|]. intros Heq. rewrite Heq in How. by apply Hfresh in How. }
  destruct (linked_entry e (p * PAGE_SIZE) (in_u64_entry _ _ _) Hhu Hfa) as (Heq & Hu & Hp' & Hh' & Ha' & _).
  rewrite Heq. clear Heq.
  set (e' := set_user true (set_writable true (set_present true (set_phys_addr (p * PAGE_SIZE) e)))) in *. set (m4 := store_entry t i e' m3). unfold set_entry.
  rewrite (kbind_ret (modify _) _ m3 tt m4) by done. exists true, m4, B1. split; [done|].
  assert (Hin : installed m B p m4 B1 t i e').
  { apply store_installed; try done; [rewrite Hpc3; apply Hnt|apply level_index_range|]. intros a Hp. rewrite Hph3. unfold m2. cbn.
    rewrite <- (new_table_phys m B p m1 B1 Hnt a Hp). destruct (Z.leb_spec (p * PAGE_SIZE) a), (Z.ltb_spec a (p * PAGE_SIZE + PAGE_SIZE)); try done. lia. }
  destruct (install m B p m1 B1 m4 n v t l e' Hsp Ht Hl Hnt Hin) as (Hop & Hn & _).
  - rewrite next_table_linked by done. by rewrite Ha'.
  - apply (copied_table m m4 n v t l e' _ (phys_addr e)); try done; [apply Hsp|by apply next_table_linked| |apply Hin|].
    + intros k w s j Hks Hj Hsl. apply (in_same _ _ _ _ _ _ _ _ Hin); try done; [by eapply (tr_table _ _ _ (so_tree _ _ Hsp))|].
      intros ->. by apply Hfresh in Hks.
    + intros j Hj. unfold m4. rewrite entry_store_ne; try done; [|apply table_of_page|apply level_index_range|congruence].
      rewrite Hent by (done || apply table_of_page). by rewrite decide_True.
  - intros j l' Ha Hl2 Hor. unfold m4. rewrite entry_store_ne; try done; [|apply table_of_page|apply level_index_range|apply level_index_range|congruence].
    rewrite Hent by (apply table_of_page || apply level_index_range). rewrite decide_True by done. apply (tr_huge _ _ _ (so_tree _ _ Hsp) (S n)); try done. rewrite <- How.
    symmetry. by apply tbl_agree.
  - split; [done|]. split; [done|]. rewrite (in_entry _ _ _ _ _ _ _ _ Hin). done.
Qed.

(** ** Splitting a large page *)
Lemma fill_table_ok c base step fl idxs m :
  table_addr c -> in_u64 fl -> (forall j, j ∈ idxs -> 0 <= j < 512) ->
  exists f, fill_table c base step fl idxs m = Ret (tt, set_phys m f) /\
    (forall j, j ∈ idxs -> entry (set_phys m f) c j = pte_new (saturating_add64 base (mul64 j step)) fl) /\
    (forall s j, table_addr s -> 0 <= j < 512 -> s <> c \/ j ∉ idxs -> entry (set_phys m f) s j = entry m s j) /\
    (forall a, ~ (c <= a < c + PAGE_SIZE) -> f a = phys m a).
Proof.
  intros Hc Hfl. revert m. induction idxs as [|i idxs IH]; intros m Hidx.
  { exists (phys m). split; [by destruct m|]. split; [by intros j ?%elem_of_nil|]. split; done. }
  cbn [fill_table]. unfold set_entry. set (m1 := store_entry c i (pte_new (saturating_add64 base (mul64 i step)) fl) m).
  rewrite (kbind_ret (modify _) _ m tt m1) by done. destruct (IH m1) as (f & Hrun & Hin & Hout & Hf); [intros j Hj; apply Hidx; set_solver|]. exists f. split; [exact Hrun|].
  change (set_phys m1 f) with (set_phys m f) in *. assert (Hi : 0 <= i < 512) by (apply Hidx; set_solver).
  split; [|split; [|intros a Ha; rewrite Hf by done; by apply store_entry_phys]].
  - intros j Hj. destruct (decide (j ∈ idxs)) as [|Hn]; [by apply Hin|]. assert (j = i) as -> by set_solver.
    rewrite Hout by (done || by right). unfold m1. apply entry_store_eq. by apply in_u64_new.
  - intros s j Hs Hj Hor. rewrite Hout; [|done|done|destruct Hor; [by left|right; set_solver]].
    unfold m1. apply entry_store_ne; try done. intros [= -> ->]. destruct Hor; [done|]. set_solver.
Qed.

(** The part of an address below an entry is the index in the next table and the rest. *)
Lemma offset_split w k : 0 <= k -> w mod (2 ^ (k + 9)) = (w / 2 ^ k) mod 512 * 2 ^ k + w mod 2 ^ k.
Proof.
  intros Hk. rewrite Z.pow_add_r by lia. change (2 ^ 9) with 512. rewrite Z.rem_mul_r by lia. lia.
Qed.
Lemma land_low w k : 0 <= k -> Z.land w (2 ^ k - 1) = w mod 2 ^ k.
Proof. intros Hk. rewrite Z.sub_1_r, <- Z.ones_equiv. by apply Z.land_ones. Qed.

(** The pieces of a large page: the [j]-th maps the [j]-th part of it with the same flags. *)
Lemma piece_entry base j step fl :
  frame_addr base -> (PAGE_SIZE | step) -> 0 < step -> 0 <= j < 512 -> base + 512 * step <= 2 ^ 52 -> Z.land fl PTE_ADDR_MASK = 0 ->
  phys_addr (pte_new (saturating_add64 base (mul64 j step)) fl) = base + j * step.
Proof.
  intros [Hal Hb] Hst Hpos Hj Hbound Hfl. assert (0 <= j * step <= 511 * step) by nia.
  rewrite mul64_small by (change u64_size with (2 ^ 64); lia). unfold saturating_add64. rewrite Z.min_r by (change U64_MAX with (2 ^ 64 - 1); lia).
  apply phys_addr_new; [|done]. split; [|lia]. apply Z.divide_add_r; [done|]. by apply Z.divide_mul_r.
Qed.

Lemma parent_flags_ok old_flags :
  let fl := keep_flag old_flags PTE_NO_CACHE (keep_flag old_flags PTE_WRITE_THROUGH
              (keep_flag old_flags PTE_USER (keep_flag old_flags PTE_WRITABLE PTE_PRESENT))) in
  Z.land fl PTE_ADDR_MASK = 0 /\ in_u64 fl /\ has_bit fl PTE_PRESENT = true /\ has_bit fl PTE_HUGE = false.
Proof.
  unfold keep_flag. destruct (negb _), (negb _), (negb _), (negb _); vm_compute; (split; [done|split; [split; [discriminate|done]|done]]).
Qed.

(** Large pages of a level and the step between their pieces. *)
Definition piece_step (l : Z) : Z := if l =? 3 then 2 * 1024 * 1024 else PAGE_SIZE.
Definition piece_flags (l fl : Z) : Z := if l =? 3 then fl else Z.land fl (not64 PTE_HUGE).

Lemma huge_pieces l : l = 3 \/ l = 2 -> huge_size l = 512 * piece_step l /\ (PAGE_SIZE | piece_step l) /\ 0 < piece_step l.
Proof. intros [->| ->]; cbn; (split; [done|split; [|done]]); [by exists 512|by exists 1]. Qed.
Lemma piece_flags_ok l e :
  in_u64 e -> Z.land (piece_flags l (pte_flags e)) PTE_ADDR_MASK = 0 /\ in_u64 (piece_flags l (pte_flags e)) /\
  has_bit (piece_flags l (pte_flags e)) PTE_PRESENT = is_present e.
Proof.
  intros He. unfold piece_flags, is_present. assert (Hno := flags_no_addr e). destruct (l =? 3).
  - split; [done|]. split; [by apply in_u64_flags|]. by apply has_bit_flags.
  - split; [|split].
    + by rewrite <- Z.land_assoc, (Z.land_comm (not64 _)), Z.land_assoc, Hno.
    + apply in_u64_land; [by apply in_u64_flags|]. vm_compute. discriminate.
    + rewrite has_bit_land. change (Z.land (not64 PTE_HUGE) PTE_PRESENT) with PTE_PRESENT. by apply has_bit_flags.
Qed.

(** What the table of a split entry maps is what the entry mapped. *)
Lemma split_view m m2 n v t l c :
  tbl m n v = Some t -> ls !! n = Some l -> l = 3 \/ l = 2 ->
  let e := entry m t (level_index v l) in
  is_present e = true -> is_huge e = true -> phys_addr e + huge_size l <= 2 ^ 52 ->
  (forall j, 0 <= j < 512 -> entry m2 c j = pte_new (saturating_add64 (phys_addr e) (mul64 j (piece_step l))) (piece_flags l (pte_flags e))) ->
  forall w, agree (S n) v w -> tbl m2 (S n) w = Some c ->
    tbl m2 (S (S n)) w = tbl m (S (S n)) w /\ (tbl m2 (S (S n)) w = tbl m (S (S n)) w -> view m2 w = view m w).
Proof.
  intros Ht Hl Hor e Hpr Hhu Hbound Hfill w Ha Hc. pose proof (in_u64_entry m t (level_index v l)) as He. fold e in He.
  assert (Hnone : tbl m (S n) w = None).
  { rewrite <- (tbl_agree ls root m (S n) v w Ha), (tbl_S ls root m n v l t Hl Ht). unfold next_table. fold e. rewrite Hpr, Hhu.
    by destruct Hor as [->| ->]. }
  assert (Htw : tbl m n w = Some t) by (rewrite <- Ht; symmetry; apply tbl_agree; eapply agree_mono; [|exact Ha]; lia).
  pose proof (translate_stops ls root m n w t l Htw Hl Hnone) as Hst. apply (agree_S ls n l _ _ (level_at_walk _ _ _ Hl)) in Ha as [_ Hi].
  rewrite <- Hi in Hst. fold e in Hst. destruct Hst as [[Hbad _]|(_ & _ & _ & Hold)]; [by rewrite Hpr in Hbad|].
  destruct (huge_pieces l Hor) as (Hsize & Hdiv & Hpos). destruct (piece_flags_ok l e He) as (Hf1 & Hf2 & Hf3). rewrite Hpr in Hf3.
  pose proof (piece_entry (phys_addr e)) as Hpiece.
  set (pe j := pte_new (saturating_add64 (phys_addr e) (mul64 j (piece_step l))) (piece_flags l (pte_flags e))).
  change (forall j, 0 <= j < 512 -> entry m2 c j = pe j) in Hfill.
  assert (Hpa : forall j, 0 <= j < 512 -> phys_addr (pe j) = phys_addr e + j * piece_step l).
  { intros j Hj. apply Hpiece; try done; [apply frame_addr_phys|lia]. }
  assert (Hpp : forall j, is_present (pe j) = true) by (intros j; unfold is_present, pe; by rewrite has_bit_new).
  assert (Hpf : forall j, pte_flags (pe j) = piece_flags l (pte_flags e)) by (intros j; by apply pte_flags_new).
  destruct (level_cases n l Hl) as [[?|?]|[[-> Hl2]|[-> Hlen]]]; [lia..| |].
  - set (j := level_index w 2). assert (Hj : 0 <= j < 512) by apply level_index_range.
    assert (Hph : is_huge (pe j) = true).
    { unfold is_huge, pe. rewrite has_bit_new by done. change (piece_flags 3 (pte_flags e)) with (pte_flags e). rewrite has_bit_flags; [done|done|unfold in_u64, PTE_HUGE; lia]. }
    split.
    + cbn [PageWalk.tbl] in Hc, Hnone |- *. rewrite Hc, Hnone, Hl2. fold j. rewrite Hfill by done. unfold next_table. by rewrite Hpp, Hph.
    + intros _. unfold PageWalk.view. rewrite Hold, (translate_from ls root m2 (S n) w c Hc), (drop_S _ _ _ Hl2). cbn [translate_loop]. fold j.
      rewrite Hfill, Hpp, Hph by done. change (2 =? 3) with false. change (2 =? 2) with true. change (3 =? 3) with true.
      cbn [negb andb fmap option_fmap option_map leaf_of]. do 2 f_equal.
      * rewrite Hpa by done. change (huge_size 3) with (2 ^ 30). change (2 * 1024 * 1024) with (2 ^ 21). change (piece_step 3) with (2 ^ 21).
        rewrite !land_low by lia. pose proof (offset_split w 21 ltac:(lia)) as Hsp. change (21 + 9) with 30 in Hsp. unfold j. rewrite (level_index_eq w 2) by (unfold is_level; lia).
        change (12 + (2 - 1) * 9) with 21. by rewrite Hsp, Z.add_assoc.
      * by rewrite Hpf.
  - set (j := level_index w 1). assert (Hj : 0 <= j < 512) by apply level_index_range. split.
    + cbn [PageWalk.tbl] in Hc, Hnone |- *. rewrite Hc, Hnone, lookup_ge_None_2 by lia. done.
    + intros _. unfold PageWalk.view. rewrite Hlen in Hc. rewrite Hold, (translate_end ls root m2 w c Hc). fold j.
      cbv zeta. rewrite Hfill, Hpp by done. change (2 =? 3) with false. cbn [fmap option_fmap option_map leaf_of]. do 2 f_equal.
      * rewrite Hpa by done. change (huge_size 2) with (2 ^ 21). change PAGE_SIZE with (2 ^ 12). change (piece_step 2) with (2 ^ 12).
        rewrite !land_low by lia. pose proof (offset_split w 12 ltac:(lia)) as Hsp. change (12 + 9) with 21 in Hsp. unfold j. rewrite (level_index_eq w 1) by (unfold is_level; lia).
        change (12 + (1 - 1) * 9) with 12. by rewrite Hsp, Z.add_assoc.
      * by rewrite Hpf.
Qed.

Lemma split_huge_entry_for_user_ok m B n v t l :
  space_ok m B -> tbl m n v = Some t -> ls !! n = Some l -> l = 3 \/ l = 2 ->
  let i := level_index v l in let e := entry m t i in is_huge e = true ->
  exists r m' B', split_huge_entry_for_user t i l m = Ret (r, m') /\ opened m B m' B' /\ tbl m' n v = Some t /\
    if r then is_present (entry m' t i) = true /\ is_huge (entry m' t i) = false
    else out_of_tables m' \/ is_huge (entry m' t i) = true /\ is_present (entry m' t i) = false.
Proof.
  intros Hsp Ht Hl Hor i e Hhu. pose proof (tr_table _ _ _ (so_tree _ _ Hsp) _ _ _ Ht) as Hta. unfold split_huge_entry_for_user, get_entry.
  rewrite (kbind_ret (gets _) _ m e m) by done. rewrite Hhu.
  assert (Hl32 : (l =? 3) || (l =? 2) = true) by (by destruct Hor as [->| ->]). rewrite Hl32. cbn [negb orb].
  destruct (is_present e) eqn:Hpr; cbn [negb orb].
  2: { exists false, m, B. split; [done|]. split; [by apply opened_refl|]. split; [done|]. by right. }
  destruct (alloc_zeroed_table_phys_ok m B (so_mem _ _ Hsp)) as [Hrun|(p & m1 & B1 & Hrun & Hnt)]; rewrite (kbind_ret _ _ _ _ _ Hrun).
  { exists false, m, B. split; [done|]. split; [by apply opened_refl|]. split; [done|]. by left. }
  pose proof (new_table_frame_addr m B p m1 B1 Hsp Hnt) as Hfa. pose proof (new_table_fresh m B p m1 B1 Hsp Hnt) as Hfresh.
  assert (Hne : t <> p * PAGE_SIZE) by (intros ->; by apply Hfresh in Ht). pose proof (in_u64_entry m t i) as He. fold e in He.
  assert (Hbound : phys_addr e + huge_size l <= 2 ^ 52) by (by apply (tr_huge _ _ _ (so_tree _ _ Hsp) n v t l)).
  destruct (piece_flags_ok l e He) as (Hf1 & Hf2 & _).
  destruct (fill_table_ok (p * PAGE_SIZE) (phys_addr e) (piece_step l) (piece_flags l (pte_flags e)) (zrange 0 512) m1 (table_of_page p) Hf2)
    as (f & Rf & Hfill & _ & Hrest); [by intros j ?%elem_of_zrange|].
  rewrite (kbind_ret _ _ m1 tt (set_phys m1 f)).
  2: { rewrite <- Rf. unfold piece_step, piece_flags. by destruct Hor as [->| ->]. }
  set (m2 := set_phys m1 f) in *. destruct (parent_flags_ok (pte_flags e)) as (Hp1 & Hp2 & Hp3 & Hp4).
  set (fl := keep_flag _ _ _) in *. set (e' := pte_new (p * PAGE_SIZE) fl). unfold set_entry. set (m3 := store_entry t i e' m2).
  rewrite (kbind_ret (modify _) _ m2 tt m3) by done. exists true, m3, B1. split; [done|].
  assert (Hpr' : is_present e' = true) by (unfold is_present, e'; by rewrite has_bit_new).
  assert (Hhu' : is_huge e' = false) by (unfold is_huge, e'; by rewrite has_bit_new).
  assert (Hin : installed m B p m3 B1 t i e').
  { apply store_installed; [apply takes_phys, Hnt|apply Hnt|done|apply level_index_range|by apply in_u64_new|].
    intros a Hp. cbn. rewrite Hrest by done. by eapply new_table_phys. }
  assert (Hcont : forall j, 0 <= j < 512 -> entry m3 (p * PAGE_SIZE) j =
    pte_new (saturating_add64 (phys_addr e) (mul64 j (piece_step l))) (piece_flags l (pte_flags e))).
  { intros j Hj. unfold m3. rewrite entry_store_ne; try done; [|apply table_of_page|apply level_index_range|congruence].
    apply Hfill. by apply elem_of_zrange. }
  destruct (install m B p m1 B1 m3 n v t l e' Hsp Ht Hl Hnt Hin) as (Hop & Hn & _).
  - rewrite next_table_linked by done. unfold e'. by rewrite phys_addr_new.
  - by apply (split_view m m3 n v t l (p * PAGE_SIZE)).
  - intros w l' _ Hl2 Hor2 _. destruct (huge_pieces l Hor) as (Hsz & Hdiv & Hpos). rewrite Hcont by apply level_index_range.
    pose proof (level_index_range w l') as Hj. rewrite piece_entry by (done || apply frame_addr_phys || lia).
    destruct (level_cases n l Hl) as [[?|?]|[[-> Hl3]|[_ Hlen]]]; [lia..| |apply lookup_lt_Some in Hl2; lia].
    rewrite Hl3 in Hl2. injection Hl2 as <-. change (huge_size 2) with (piece_step 3). nia.
  - split; [done|]. split; [done|]. by rewrite (in_entry _ _ _ _ _ _ _ _ Hin).
Qed.

(** ** One level of the way *)
Lemma set_writable_ok m B n v t l :
  space_ok m B -> tbl m n v = Some t -> ls !! n = Some l ->
  let i := level_index v l in let e := entry m t i in
  is_present e = true -> is_huge e = false ->
  let m' := store_entry t i (set_writable true e) m in
  opened m B m' B /\ tbl m' n v = Some t /\ is_present (entry m' t i) = true /\ is_huge (entry m' t i) = false /\ extends m B m' B.
Proof.
  intros Hsp Ht Hl i e Hpr Hhu m'. pose proof (so_tree _ _ Hsp) as Htree. pose proof (tr_table _ _ _ Htree _ _ _ Ht) as Hta.
  assert (Hu : in_u64 (set_writable true e)) by (apply in_u64_lor; [apply in_u64_entry|unfold in_u64, PTE_WRITABLE; lia]).
  assert (He : entry m' t i = set_writable true e) by (by apply entry_store_eq).
  assert (Hp' : is_present (set_writable true e) = true) by (bits; exact Hpr).
  assert (Hh' : is_huge (set_writable true e) = false) by (bits; exact Hhu).
  destruct (retag ls root m m' n v t l (set_writable true e) Htree Ht (level_at_walk _ _ _ Hl)) with (c := phys_addr e) as (H1 & H2 & H3); try done.
  - intros k w s j Hs Hj Hne. apply entry_store_ne; try done; [by eapply (tr_table _ _ _ Htree)|apply level_index_range].
  - by apply next_table_linked.
  - rewrite next_table_linked by done. f_equal. bits. done.
  - rewrite He. split; [|split; [by rewrite H3|split; [done|split; [done|]]]].
    2: { intros w Hw k s. rewrite H3. intros Hs. destruct (Hw k s Hs) as [Ho Hb]. split; [done|]. intros l0 Hl0.
         destruct (decide ((s, level_index w l0) = (t, i))) as [[= -> Hi]|Hne]; [|unfold m'; rewrite entry_store_ne by (apply level_index_range || done || by eapply (tr_table _ _ _ Htree)); by apply Hb].
         rewrite Hi, He. destruct (Hb l0 Hl0) as [_ Hus]. rewrite Hi in Hus. split; [done|]. intros _. specialize (Hus Hpr). unfold is_user in *. bits. exact Hus. }
    apply opened_same; try done; [by apply mem_ok_phys, Hsp|].
    intros q x Hq Hx. apply store_entry_phys; [apply level_index_range|eapply data_apart; [exact Htree|exact Ht|exact Hq|exact Hx]].
Qed.

Lemma open_level_ok nu nw m B n v t l :
  space_ok m B -> tbl m n v = Some t -> ls !! n = Some l ->
  let i := level_index v l in
  exists r m' B', open_level nu nw t i l m = Ret (r, m') /\ opened m B m' B' /\ tbl m' n v = Some t /\
    (own_way m B v -> extends m B m' B') /\
    if r then is_present (entry m' t i) = true /\ is_huge (entry m' t i) = false
    else out_of_tables m' \/ blocked nu l (entry m' t i).
Proof.
  intros Hsp Ht Hl i. unfold open_level, get_entry. rewrite (kbind_ret (gets _) _ m (entry m t i) m) by done.
  assert (Hhuge : exists r m1 B1, (if is_huge (entry m t i) then
      if nu && ((l =? 3) || (l =? 2)) then split_huge_entry_for_user t i l else mret false else mret true) m = Ret (r, m1) /\
    opened m B m1 B1 /\ tbl m1 n v = Some t /\ (is_huge (entry m t i) = false -> m1 = m /\ B1 = B) /\
    if r then is_huge (entry m1 t i) = false else out_of_tables m1 \/ blocked nu l (entry m1 t i)).
  { destruct (is_huge (entry m t i)) eqn:Hh; [|exists true, m, B; split; [done|]; split; [by apply opened_refl|done]].
    destruct (nu && ((l =? 3) || (l =? 2))) eqn:Hb.
    - apply andb_prop in Hb as [-> Hb]. assert (Hor : l = 3 \/ l = 2) by (apply orb_prop in Hb as [Hb|Hb]; apply Z.eqb_eq in Hb; auto).
      destruct (split_huge_entry_for_user_ok m B n v t l Hsp Ht Hl Hor Hh) as (r & m1 & B1 & R & H1 & H2 & H3).
      exists r, m1, B1. split; [exact R|]. split; [done|]. split; [done|]. split; [done|]. destruct r; [apply H3|]. destruct H3 as [?|[? ?]]; [by left|].
      right. split; [done|auto].
    - exists false, m, B. split; [done|]. split; [by apply opened_refl|]. split; [done|]. split; [done|]. right. split; [done|].
      destruct nu; [|by left]. right. left. cbn in Hb. apply orb_false_elim in Hb as [H3 H2]. apply Z.eqb_neq in H3, H2. done. }
  destruct Hhuge as (r & m1 & B1 & R1 & Hop1 & Ht1 & Hsame & Hh1).
  assert (Hown : own_way m B v -> (m1 = m /\ B1 = B) /\ (is_present (entry m1 t i) = true -> is_user (entry m1 t i) = true)).
  { intros Hw. destruct (proj2 (Hw n t Ht) l Hl) as [H1 H2]. destruct (Hsame H1) as [-> ->]. done. }
  rewrite (kbind_ret _ _ _ _ _ R1). pose proof (op_space _ _ _ _ Hop1) as Hsp1.
  destruct r; cbn [negb]; [|exists false, m1, B1; split; [done|]; split; [done|]; split; [done|]; split; [|done]; intros Hw; by destruct (Hown Hw) as [[-> ->] _]].
  rewrite (kbind_ret (gets _) _ m1 (entry m1 t i) m1) by done. destruct (is_present (entry m1 t i)) eqn:Hp1; cbn [negb].
  - assert (Hcopy : exists r m2 B2, (if nu && negb (is_user (entry m1 t i)) then copy_shared_table t i else mret true) m1 = Ret (r, m2) /\
      opened m1 B1 m2 B2 /\ tbl m2 n v = Some t /\ (is_user (entry m1 t i) = true -> m2 = m1 /\ B2 = B1) /\
      if r then is_present (entry m2 t i) = true /\ is_huge (entry m2 t i) = false else out_of_tables m2).
    { destruct (nu && negb (is_user (entry m1 t i))) eqn:Hc.
      - apply andb_prop in Hc as [_ Hc]. destruct (copy_shared_table_ok m1 B1 n v t l Hsp1 Ht1 Hl Hp1 Hh1) as (r & m2 & B2 & R & H1 & H2 & H3).
        exists r, m2, B2. split; [done|]. split; [done|]. split; [done|]. split; [|done]. intros Hus. fold i in Hc. by rewrite Hus in Hc.
      - exists true, m1, B1. split; [done|]. split; [by apply opened_refl|done]. }
    destruct Hcopy as (r & m2 & B2 & R2 & Hop2 & Ht2 & Hsame2 & H2).
    assert (Hown2 : own_way m B v -> m2 = m /\ B2 = B) by (intros Hw; destruct (Hown Hw) as [[-> ->] Hus]; by apply Hsame2, Hus). rewrite (kbind_ret _ _ _ _ _ R2).
    pose proof (opened_trans _ _ _ _ _ _ (so_mem _ _ Hsp) Hop1 Hop2) as Hop. destruct r; cbn [negb].
    2: { exists false, m2, B2. split; [done|]. split; [done|]. split; [done|]. split; [|by left]. intros Hw. by destruct (Hown2 Hw) as [-> ->]. }
    destruct H2 as [Hp2 Hh2].
    rewrite (kbind_ret (gets _) _ m2 (entry m2 t i) m2) by done. destruct (nw && negb (is_writable (entry m2 t i))); cbn [when].
    + unfold set_entry. rewrite (kbind_ret (modify _) _ m2 tt (store_entry t i (set_writable true (entry m2 t i)) m2)) by done.
      destruct (set_writable_ok m2 B2 n v t l (op_space _ _ _ _ Hop2) Ht2 Hl Hp2 Hh2) as (Hop3 & Ht3 & Hp3 & Hh3 & Hext).
      eexists true, _, B2. split; [done|]. split; [eapply opened_trans; [|done..]; apply Hsp|]. split; [done|]. split; [|done].
      intros Hw. by destruct (Hown2 Hw) as [-> ->].
    + exists true, m2, B2. split; [done|]. split; [done|]. split; [done|]. split; [|done]. intros Hw. by destruct (Hown2 Hw) as [-> ->].
  - destruct (alloc_zeroed_table_phys_ok m1 B1 (so_mem _ _ Hsp1)) as [R|(p & m2 & B2 & R & Hnt)]; rewrite (kbind_ret _ _ _ _ _ R).
    { exists false, m1, B1. split; [done|]. split; [done|]. split; [done|]. split; [|by left]. intros Hw. by destruct (Hown Hw) as [[-> ->] _]. }
    destruct (add_table_ok m1 B1 n v t l Hsp1 Ht1 Hl Hp1 Hh1 p m2 B2 Hnt) as (Hop2 & Ht2 & He & Hext). fold i in Hop2, Ht2, He, Hext.
    unfold set_entry. set (e' := set_user _ _) in *. rewrite (kbind_ret (modify _) _ m2 tt (store_entry t i e' m2)) by done.
    eexists true, _, B2. split; [done|]. split; [eapply opened_trans; [|done..]; apply Hsp|]. split; [done|].
    split; [intros Hw; by destruct (Hown Hw) as [[-> ->] _]|]. rewrite He.
    destruct (linked_entry (entry m1 t i) (p * PAGE_SIZE) (in_u64_entry _ _ _) Hh1 (new_table_frame_addr _ _ _ _ _ Hsp1 Hnt)) as (_ & _ & ? & ? & _). done.
Qed.

(** A large page bars the way of [v]. *)
Definition way_blocked (need_user : bool) (v : Z) (m : Mem) : Prop :=
  exists n t l, tbl m n v = Some t /\ ls !! n = Some l /\ blocked need_user l (entry m t (level_index v l)).

(** The whole way: either a table could not be had, or the lowest table is reached; in both
    cases every address still maps what it did. *)
Lemma map_loop_ok nu nw v n m B t :
  space_ok m B -> tbl m n v = Some t ->
  exists r m' B', map_loop nu nw (drop n ls) v t m = Ret (r, m') /\ opened m B m' B' /\ (own_way m B v -> extends m B m' B') /\
    match r with Some pt => tbl m' (length ls) v = Some pt | None => out_of_tables m' \/ way_blocked nu v m' end.
Proof.
  remember (length ls - n)%nat as k eqn:Hk. revert n Hk m B t. induction k as [|k IH]; intros n Hk m B t Hsp Ht;
    pose proof (tbl_depth ls root m n v t Ht) as Hd.
  - assert (n = length ls) as -> by lia. rewrite drop_all. exists (Some t), m, B. split; [done|]. split; [by apply opened_refl|done].
  - destruct (lookup_lt_is_Some_2 ls n ltac:(lia)) as [l Hl]. rewrite (drop_S _ _ _ Hl). cbn [map_loop].
    destruct (open_level_ok nu nw m B n v t l Hsp Ht Hl) as (r & m1 & B1 & R1 & Hop1 & Ht1 & Hx1 & H1). rewrite (kbind_ret _ _ _ _ _ R1).
    destruct r; cbn [negb].
    2: { exists None, m1, B1. split; [done|]. split; [done|]. split; [done|]. destruct H1 as [?|?]; [by left|]. right. by exists n, t, l. }
    destruct H1 as [Hp Hh]. unfold get_entry.
    rewrite (kbind_ret (gets _) _ m1 (entry m1 t (level_index v l)) m1) by done.
    destruct (IH (S n) ltac:(lia) m1 B1 (phys_addr (entry m1 t (level_index v l))) (op_space _ _ _ _ Hop1)) as (r & m2 & B2 & R2 & Hop2 & Hx2 & H2).
    { rewrite (tbl_S ls root m1 n v l t Hl Ht1). by apply next_table_linked. }
    exists r, m2, B2. split; [exact R2|]. split; [eapply opened_trans; [|done..]; apply Hsp|]. split; [|done].
    intros Hw w Hw'. apply Hx2; by apply Hx1.
Qed.

(** ** The page that is replaced *)
(** A page that the address space maps as data: outside the managed memory, or in use and
    not one of its tables. *)
Definition data_page (m : Mem) (B : gmap Z Block) (a : Z) : Prop :=
  let p := a / PAGE_SIZE in
  max_pfn m <= p \/
  B !! p = Some (mkBlock InUse 0) /\ (exists pg, pages m !! pfn_to_page m p = Some pg /\ 0 <= refcount pg) /\
  forall k w, tbl m k w <> Some (p * PAGE_SIZE).

Lemma opened_data_page m B m' B' a : space_ok m B -> opened m B m' B' -> data_page m B a -> data_page m' B' a.
Proof.
  intros Hsp [Hsp' _ Hf Hu Hpg Htb _ _] [Hout|(Hb & (pg & Hp & Hrc) & Hnt)]; unfold data_page; rewrite (fr_max _ _ Hf); [by left|right].
  split; [by apply Hu|]. split.
  - exists pg. rewrite (frame_pfn_to_page m m') by done. split; [|done]. rewrite <- Hp. apply Hpg.
    + by apply (cached_bounds m B _ _ (so_mem _ _ Hsp) Hb).
    + intros Hout. apply (Hout _ _ Hb). change (2 ^ 0) with 1. lia.
  - intros k w Hs. destruct (Htb _ _ _ Hs) as [(k' & w' & Hs')|Hfree]; [by apply Hnt in Hs'|]. rewrite page_of_table in Hfree.
    pose proof (free_outside m B _ (so_mem _ _ Hsp) Hfree) as Hout. apply (Hout _ _ Hb). change (2 ^ 0) with 1. lia.
Qed.

(** Dropping a page that is not a table leaves the address space as it is. *)
Lemma returned_space m B p m' B' :
  space_ok m B -> returned m B p m' B' -> (forall k w, tbl m k w <> Some (p * PAGE_SIZE)) ->
  space_ok m' B' /\ (forall w, view m' w = view m w) /\ (forall k w, tbl m' k w = tbl m k w).
Proof.
  intros [a b c d e] [Hok Hf Hfine Hph Hu Hc _] Hnt.
  assert (Hs : same_tables ls root m m') by (intros n w t i _ _; unfold entry; by rewrite Hph).
  split; [|split; [by apply same_tables_view|by apply same_tables_tbl]].
  split; [done|done|by rewrite (fr_max _ _ Hf)|by apply (same_tables_tree ls root m)|].
  intros n w t. rewrite (same_tables_tbl ls root m m' Hs). intros Ht. destruct (e n w t Ht) as [Hal Hh]. split; [done|].
  assert (t / PAGE_SIZE <> p).
  { intros <-. apply (Hnt n w). destruct Hal as [k ->]. by rewrite page_of_table. }
  destruct Hh as [Hh|Hh]; [left; by apply Hu|right; by rewrite Hc].
Qed.

Lemma release_replaced_page_ok apic m B a :
  space_ok m B -> 0 <= apic -> data_page m B a ->
  exists m' B', release_replaced_page apic a m = Ret (tt, m') /\ space_ok m' B' /\ frame m m' /\
    (forall w, view m' w = view m w) /\ (forall k w, tbl m' k w = tbl m k w) /\ phys m' = phys m /\ (forall x, covered B' x <-> covered B x).
Proof.
  intros Hsp Ha Hdata. pose proof (so_mem _ _ Hsp) as Hok. unfold release_replaced_page. set (p := a / PAGE_SIZE) in *.
  rewrite (kbind_ret (gets _) _ m (max_pfn m) m) by done. destruct (Z.leb_spec (max_pfn m) p) as [|Hlt]; [by exists m, B|].
  destruct Hdata as [?|(Hb & (pg & Hpg & Hrc) & Hnt)]; [lia|]. fold p in Hb, Hpg, Hnt.
  rewrite (kbind_ret (gets _) _ m (pfn_to_page m p) m) by done. rewrite (kbind_ret _ _ _ _ _ (get_page_ok _ _ _ Hpg)).
  destruct (Z.ltb_spec (mapcount pg) 0) as [|Hmc]; [by exists m, B|]. unfold try_dec_mapcount.
  destruct (step_page m B p 0 Hb m pg (with_mapcount (mapcount pg - 1))) as (m1 & R1 & P1 & _ & G1); try done.
  rewrite (kbind_ret _ _ m (Ok (mapcount pg - 1)) m1).
  2: { rewrite (kbind_ret _ _ _ _ _ (get_page_ok _ _ _ Hpg)). destruct (Z.leb_spec (mapcount pg) (-1)); [lia|]. by rewrite (kbind_ret _ _ _ _ _ R1). }
  rewrite (kbind_ret _ _ _ _ _ (get_page_ok _ _ _ G1)). change (refcount (with_mapcount _ pg)) with (refcount pg).
  assert (Hend : exists m' B', (if refcount pg =? 0 then mret tt else free_page apic (pfn_to_page m p)) m1 = Ret (tt, m') /\ returned m B p m' B').
  { pose proof (on_frame _ _ _ (pr_only _ _ _ _ P1)) as F1. destruct (Z.eqb_spec (refcount pg) 0) as [H0|H0].
    - exists m1, B. split; [done|]. apply prepared_returned; [done|done|apply Hsp].
    - rewrite <- (frame_pfn_to_page m m1) in G1 |- * by done.
      destruct (free_page_ok apic m1 B p _ (pr_ok _ _ _ _ P1) (pcp_fine_same m m1 F1 (pr_pcps _ _ _ _ P1) (so_pcp _ _ Hsp)) Ha Hb G1) as (m' & B' & R & Hret);
        [cbn; lia|]. exists m', B'. split; [exact R|]. apply (returned_prepared m B p m1); [done|done|by apply (cached_bounds m B p _ Hok Hb)|done]. }
  destruct Hend as (m' & B' & R & Hret). exists m', B'. split; [exact R|]. destruct (returned_space m B p m' B' Hsp Hret Hnt) as (H1 & H2 & H3).
  split; [done|]. split; [apply Hret|]. split; [done|]. split; [done|]. split; apply Hret.
Qed.

(** Tables that are new were free pages and are in use now. *)
Lemma new_tables_in_use m B m' B' :
  (forall k w t, tbl m' k w = Some t -> (exists k' w', tbl m k' w' = Some t) \/ free_pfn B (t / PAGE_SIZE)) ->
  space_ok m' B' -> (forall x, covered B' x <-> covered B x) ->
  forall k w t, tbl m' k w = Some t ->
    (exists k' w', tbl m k' w' = Some t) \/ free_pfn B (t / PAGE_SIZE) /\ B' !! (t / PAGE_SIZE) = Some (mkBlock InUse 0).
Proof.
  intros Htab Hsp Hcov k w t Ht. destruct (Htab k w t Ht) as [?|Hf]; [by left|]. right. split; [done|].
  destruct (so_held _ _ Hsp k w t Ht) as [_ [?|Hn]]; [done|]. exfalso. by apply Hn, Hcov, free_covered.
Qed.

(** ** The entry of the page *)
Lemma set_pte_ok m B v pt e' :
  space_ok m B -> tbl m (length ls) v = Some pt -> in_u64 e' ->
  let i := level_index v 1 in let m' := store_entry pt i e' m in
  space_ok m' B /\ (forall k w, tbl m' k w = tbl m k w) /\
  forall w, view m' w = if decide (same_page ls v w) then if is_present e' then Some (leaf_of w (e', Pt, PAGE_SIZE)) else None else view m w.
Proof.
  intros Hsp Ht He i m'. pose proof Hsp as [a b c Htree d]. pose proof (tr_table _ _ _ Htree _ _ _ Ht) as Hta.
  assert (Hs : forall k w s j, tbl m k w = Some s -> 0 <= j < 512 -> (s, j) <> (pt, level_index v 1) -> entry m' s j = entry m s j).
  { intros k w s j Hks Hj Hne. apply entry_store_ne; try done; [by eapply (tr_table _ _ _ Htree)|apply level_index_range]. }
  assert (He' : entry m' pt (level_index v 1) = e') by (by apply entry_store_eq).
  assert (Htbl : forall k w, tbl m' k w = tbl m k w).
  { intros k w. destruct (decide (k <= length ls)%nat).
    - apply (replaced_above ls root m m' (length ls) v pt 1 Htree Ht (level_at_end ls) Hs). by left.
    - destruct (tbl m' k w) eqn:H1; [apply tbl_depth in H1; lia|]. destruct (tbl m k w) eqn:H2; [apply tbl_depth in H2; lia|done]. }
  assert (Hread : forall k w s l, tbl m k w = Some s -> ls !! k = Some l -> entry m' s (level_index w l) = entry m s (level_index w l)).
  { intros k w s l Hks Hl. apply (Hs k w); [done|apply level_index_range|]. intros [= -> _].
    destruct (tr_inj _ _ _ Htree _ _ _ _ _ Hks Ht) as [-> _]. apply lookup_lt_Some in Hl. lia. }
  split; [|split; [done|]].
  - split; [by apply mem_ok_phys|done|done| |].
    + destruct Htree as [T I G]. split; [intros k w s; rewrite Htbl; apply T|intros k k' w w' s; rewrite !Htbl; apply I|].
      intros k w s l. rewrite Htbl. intros Hks Hl. rewrite (Hread k w s l Hks Hl). by eapply G.
    + intros k w s. rewrite Htbl. apply d.
  - intros w. unfold PageWalk.view. case_decide as Hsame.
    + assert (Hw : tbl m' (length ls) w = Some pt).
      { rewrite Htbl, <- Ht. symmetry. apply tbl_agree. eapply agree_mono; [|exact Hsame]. lia. }
      rewrite (translate_end ls root m' w pt Hw). apply (agree_S ls _ 1 _ _ (level_at_end ls)) in Hsame as [_ <-]. rewrite He'. cbv zeta.
      by destruct (is_present e').
    + by rewrite (replaced_elsewhere ls root m m' (length ls) v pt 1 Htree Ht (level_at_end ls) Hs w Hsame).
Qed.
Lemma set_pte_own m B v pt e' w :
  space_ok m B -> tbl m (length ls) v = Some pt -> own_way m B w -> own_way (store_entry pt (level_index v 1) e' m) B w.
Proof.
  intros Hsp Ht Hw. pose proof (so_tree _ _ Hsp) as Htree. set (m' := store_entry _ _ _ m).
  assert (Hread : forall k w s l, tbl m k w = Some s -> ls !! k = Some l -> entry m' s (level_index w l) = entry m s (level_index w l)).
  { intros k w' s l Hks Hl. apply entry_store_ne; [by eapply (tr_table _ _ _ Htree)|by eapply (tr_table _ _ _ Htree)|apply level_index_range|apply level_index_range|].
    intros [= -> _]. destruct (tr_inj _ _ _ Htree _ _ _ _ _ Hks Ht) as [-> _]. apply lookup_lt_Some in Hl. lia. }
  assert (Htbl : forall k w, tbl m' k w = tbl m k w).
  { intros k w'. induction k as [|k IH]; [done|]. cbn [PageWalk.tbl]. rewrite IH. destruct (tbl m k w') as [s|] eqn:Hs; [|done].
    destruct (ls !! k) as [l|] eqn:Hl; [|done]. by rewrite (Hread k w' s l). }
  intros k t. rewrite Htbl. intros Hk. destruct (Hw k t Hk) as [Ho Hb]. split; [done|]. intros l Hl. rewrite (Hread k w t l) by done. by apply Hb.
Qed.
End Space.

(** The invariant for the manager of an address space. *)
Definition manager_ok (self : PageTableManager) (m : Mem) (B : gmap Z Block) : Prop :=
  (page_levels self = 4 \/ page_levels self = 5) /\ space_ok (levels self) (root_phys self) m B.
Definition mapping (self : PageTableManager) (m : Mem) (w : Z) : option (Z * Z) := view (levels self) (root_phys self) m w.
Definition on_page (self : PageTableManager) (v w : Z) : Prop := same_page (levels self) v w.
#[export] Instance on_page_dec self v w : Decision (on_page self v w).
Proof. unfold on_page. apply _. Defined.

(** Flags that an entry for a small page may carry. *)
Definition page_flags (fl : Z) : Prop := in_u64 fl /\ Z.land fl PTE_ADDR_MASK = 0 /\ has_bit fl PTE_PRESENT = true.

Lemma map_page_ok apic self m B v ph fl :
  manager_ok self m B -> 0 <= apic -> frame_addr ph -> page_flags fl ->
  (forall pa f, mapping self m v = Some (pa, f) -> pa / PAGE_SIZE <> ph / PAGE_SIZE ->
     data_page (levels self) (root_phys self) m B (pa / PAGE_SIZE * PAGE_SIZE)) ->
  exists ok fsh m' B', map_page apic self v ph fl m = Ret ((ok, fsh), m') /\ manager_ok self m' B' /\ frame m m' /\
    (forall k w t, tbl (levels self) (root_phys self) m' k w = Some t ->
       (exists k' w', tbl (levels self) (root_phys self) m k' w' = Some t) \/
       free_pfn B (t / PAGE_SIZE) /\ B' !! (t / PAGE_SIZE) = Some (mkBlock InUse 0)) /\
    (mapping self m v = None -> keeps (levels self) (root_phys self) m B m' B') /\
    (mapping self m v = None -> own_way (levels self) (root_phys self) m B v -> extends (levels self) (root_phys self) m B m' B') /\
    if (ok : bool) then
      (forall w, mapping self m' w = if decide (on_page self v w) then Some (ph + w mod PAGE_SIZE, fl) else mapping self m w) /\
      fsh = match mapping self m v with Some _ => FlushGlobal v | None => FlushLocal v end
    else
      (forall w, mapping self m' w = mapping self m w) /\ fsh = NoFlush /\
      (out_of_tables m' \/ way_blocked (levels self) (root_phys self) (has_bit fl PTE_USER) v m').
Proof.
  intros [Hlv Hsp] Ha Hph (Hfl & Hfa & Hfp) Hold. unfold mapping, on_page, manager_ok. set (ls := levels self) in *. set (root := root_phys self) in *.
  assert (Hls : ls = walk_levels 4 \/ ls = walk_levels 5) by (unfold ls, levels; destruct Hlv as [->| ->]; auto).
  unfold map_page. fold ls root. fold (has_bit fl PTE_USER) (has_bit fl PTE_WRITABLE).
  destruct (map_loop_ok ls root Hls (has_bit fl PTE_USER) (has_bit fl PTE_WRITABLE) v 0 m B root Hsp eq_refl) as (r & m1 & B1 & R1 & Hop & Hext & Hpt).
  rewrite drop_0 in R1. rewrite (kbind_ret _ _ _ _ _ R1). pose proof Hop as [Hsp1 Hview1 F1 _ _ Htab1 _ Hcov1].
  destruct r as [pt|]; [|exists false, NoFlush, m1, B1; split; [done|]; split; [done|]; split; [done|]; split; [by apply new_tables_in_use|]; split; [intros _; by apply opened_keeps|]; split; [by intros _|done]].
  unfold get_entry. set (i := level_index v 1). set (e := entry m1 pt i). rewrite (kbind_ret (gets _) _ m1 e m1) by done.
  assert (Hv1 : view ls root m v = if is_present e then Some (leaf_of v (e, Pt, PAGE_SIZE)) else None).
  { rewrite <- Hview1. unfold view. rewrite (translate_end ls root m1 v pt Hpt). fold i e. cbv zeta. by destruct (is_present e). }
  assert (Hrel : exists m2 B2, when (is_present e && negb (phys_addr e =? Z.land ph PTE_ADDR_MASK)) (release_replaced_page apic (phys_addr e)) m1 = Ret (tt, m2) /\
    space_ok ls root m2 B2 /\ frame m1 m2 /\ (forall w, view ls root m2 w = view ls root m1 w) /\ (forall k w, tbl ls root m2 k w = tbl ls root m1 k w) /\ (forall x, covered B2 x <-> covered B1 x) /\
    (is_present e = false -> m2 = m1 /\ B2 = B1)).
  { rewrite (frame_addr_mask ph) by done. destruct (is_present e) eqn:Hpr; [|by exists m1, B1]. destruct (Z.eqb_spec (phys_addr e) ph) as [|Hne]; [by exists m1, B1|].
    cbn [negb andb when]. pose proof (frame_addr_phys e) as [[k Hk] Hb]. destruct Hph as [[k' Hk'] Hb'].
    assert (Hpa : (phys_addr e + Z.land v (PAGE_SIZE - 1)) / PAGE_SIZE = k).
    { change (PAGE_SIZE - 1) with (2 ^ 12 - 1). rewrite land_low by lia. change (2 ^ 12) with PAGE_SIZE. rewrite Hk.
      rewrite Z.div_add_l by done. rewrite Z.div_small by (apply Z.mod_pos_bound; done). lia. }
    specialize (Hold _ _ Hv1). rewrite Hpa in Hold. rewrite <- Hk in Hold.
    destruct (release_replaced_page_ok ls root apic m1 B1 (phys_addr e) Hsp1 Ha) as (m2 & B2 & R2 & Hsp2 & F2 & Hview2 & Htbl2 & _ & Hcov2).
    - apply (opened_data_page ls root m B); try done. apply Hold. intros E. apply Hne. by rewrite Hk, E, Hk', page_of_table.
    - by exists m2, B2. }
  destruct Hrel as (m2 & B2 & R2 & Hsp2 & F2 & Hview2 & Htbl2 & Hcov2 & Hnone). assert (Hpt2 : tbl ls root m2 (length ls) v = Some pt) by (by rewrite Htbl2). rewrite (kbind_ret _ _ _ _ _ R2). unfold set_entry.
  set (e' := pte_new ph fl). rewrite (kbind_ret (modify _) _ m2 tt (store_entry pt i e' m2)) by done.
  destruct (set_pte_ok ls root m2 B2 v pt e' Hsp2 Hpt2 (in_u64_new _ _ Hfl)) as (Hsp3 & Htbl3 & Hview3). fold i in Hsp3, Htbl3, Hview3.
  eexists true, _, _, B2. split; [done|]. split; [done|]. split; [transitivity m1; [done|transitivity m2; [done|by split]]|]. split; [|split; [|split; [|split]]].
  - apply (new_tables_in_use ls root m B); [|done|intros x; by rewrite Hcov2]. intros k w t. rewrite Htbl3, Htbl2. apply Htab1.
  - rewrite Hv1. destruct (is_present e) eqn:Hpr; [done|]. intros _. destruct (Hnone eq_refl) as [-> ->].
    pose proof (opened_keeps _ _ _ _ _ _ Hop) as [u pg d]. split; [done|done|]. intros q x Hq Hx.
    rewrite store_entry_phys; [by apply d|apply level_index_range|].
    eapply (data_apart ls root m1 B1); [apply Hsp1|exact Hpt|by eapply opened_in_use; [apply Hsp| |]|done].
  - rewrite Hv1. destruct (is_present e) eqn:Hpr; [done|]. intros _ Hway w Hw. destruct (Hnone eq_refl) as [-> ->].
    apply (set_pte_own ls root m1 B1 v pt e' w Hsp1 Hpt). by apply (Hext Hway).
  - intros w. rewrite Hview3, Hview2, Hview1. case_decide; case_decide; try done.
    assert (is_present e' = true) as -> by (unfold is_present, e'; by rewrite has_bit_new).
    cbn [leaf_of]. rewrite decide_True by done. unfold e'. rewrite phys_addr_new, pte_flags_new by done.
    change (PAGE_SIZE - 1) with (2 ^ 12 - 1). by rewrite land_low.
  - rewrite Hv1. by destruct (is_present e).
Qed.

(** C7. [map_page].  Nothing else than the page of [v] is mapped differently afterwards: when the
    call succeeds the page maps the frame [ph] with the flags [fl], and when it fails every
    address maps what it did, although large pages may have been split and shared tables
    copied on the way.  A new mapping leaves the pages in use alone, with their contents.  It
    fails only when no page is left for a table or a large page bars the way of a kernel
    mapping.  What was mapped before is flushed on every CPU, a new
    mapping on this one. *)
Theorem map_page_maps_exactly_one_page apic self m B v ph fl :
  manager_ok self m B -> 0 <= apic -> frame_addr ph -> page_flags fl ->
  (forall pa f, mapping self m v = Some (pa, f) -> pa / PAGE_SIZE <> ph / PAGE_SIZE ->
     data_page (levels self) (root_phys self) m B (pa / PAGE_SIZE * PAGE_SIZE)) ->
  exists ok fsh m' B', map_page apic self v ph fl m = Ret ((ok, fsh), m') /\ manager_ok self m' B' /\ frame m m' /\
    (forall k w t, tbl (levels self) (root_phys self) m' k w = Some t ->
       (exists k' w', tbl (levels self) (root_phys self) m k' w' = Some t) \/
       free_pfn B (t / PAGE_SIZE) /\ B' !! (t / PAGE_SIZE) = Some (mkBlock InUse 0)) /\
    (mapping self m v = None -> keeps (levels self) (root_phys self) m B m' B') /\
    (mapping self m v = None -> own_way (levels self) (root_phys self) m B v -> extends (levels self) (root_phys self) m B m' B') /\
    if (ok : bool) then
      (forall w, mapping self m' w = if decide (on_page self v w) then Some (ph + w mod PAGE_SIZE, fl) else mapping self m w) /\
      fsh = match mapping self m v with Some _ => FlushGlobal v | None => FlushLocal v end
    else
      (forall w, mapping self m' w = mapping self m w) /\ fsh = NoFlush /\
      (out_of_tables m' \/ way_blocked (levels self) (root_phys self) (has_bit fl PTE_USER) v m').
Proof. apply map_page_ok. Qed.
