(* ===== verification/PagingUnmap.v ===== *)
(** * Unmapping a page

    [unmap_page] against the invariant of an address space: the page of the address, of
    whatever size, is unmapped, empty tables on the way go back to the allocator, and every
    other address maps what it did.  Then what clients of an address space need: when two
    addresses share a page, steps that leave the tables alone, and how allocating and releasing
    a page looks from the address space. *)

From S2P Require Import Prelude Page Zone Pcp Buddy PageEntry Paging PageWalk PagingMap.

(** ** Releasing a table *)
Lemma bind_when (b : bool) (c : Kern unit) {A} (k : Kern A) m m1 :
  when b c m = Ret (tt, m1) -> (when b c;; k) m = k m1.
Proof. intros H. by rewrite (kbind_ret _ _ _ _ _ H). Qed.

(** A table that is not a copy of a shared one: no recursion, one reference less. *)
Lemma free_table_page_ok apic m B p pg :
  mem_ok m B -> pcp_fine m -> 0 <= apic -> B !! p = Some (mkBlock InUse 0) -> pages m !! pfn_to_page m p = Some pg ->
  is_pgtable pg = true -> private pg = 0 -> 0 < refcount pg ->
  exists m' B', free_table_page apic (p * PAGE_SIZE) m = Ret (tt, m') /\ returned m B p m' B'.
Proof.
  intros Hok Hfine Ha Hb Hpg Hpt Hpr Hrc. pose proof (cached_bounds m B p _ Hok Hb) as Hp.
  unfold free_table_page. rewrite page_of_table. rewrite (kbind_ret (gets _) _ m (max_pfn m) m) by done. destruct (Z.leb_spec (max_pfn m) p); [lia|].
  unfold release_table_page. rewrite (kbind_ret (gets _) _ m (max_pfn m) m) by done. cbn [release_table_page_ref]. rewrite page_of_table.
  rewrite (kbind_ret (gets _) _ m (max_pfn m) m) by done. destruct (Z.leb_spec (max_pfn m) p); [lia|].
  rewrite (kbind_ret (gets _) _ m (pfn_to_page m p) m) by done. rewrite (kbind_ret _ _ _ _ _ (get_page_ok _ _ _ Hpg)), Hpr.
  rewrite (bind_when _ _ _ m m) by done. rewrite (kbind_ret _ _ _ _ _ (get_page_ok _ _ _ Hpg)), Hpt. cbn [negb andb].
  rewrite (kbind_ret (mret true) _ m true m) by done. cbn [negb]. rewrite (kbind_ret _ _ _ _ _ (get_page_ok _ _ _ Hpg)), Hpt. cbn [andb].
  set (b := negb _ && negb _ && negb _).
  assert (Hown : exists m1 pg1, when b (set_owner (pfn_to_page m p) Pgtable) m = Ret (tt, m1) /\ prepared m B p m1 /\
    pages m1 !! pfn_to_page m p = Some pg1 /\ refcount pg1 = refcount pg).
  { destruct b; cbn [when].
    - destruct (step_page m B p 0 Hb m pg (with_owner (owner_raw Pgtable))) as (m1 & R1 & P1 & _ & G1); try done. by eexists m1, _.
    - exists m, pg. split; [done|]. split; [|done]. split; [done|apply only_refl|done]. }
  destruct Hown as (m1 & pg1 & R1 & P1 & G1 & Hr1). rewrite (bind_when _ _ _ m m1 R1). rewrite (kbind_ret _ _ _ _ _ (get_page_ok _ _ _ G1)), Hr1.
  destruct (Z.eqb_spec (refcount pg) 0); [lia|]. pose proof (on_frame _ _ _ (pr_only _ _ _ _ P1)) as F1.
  pose proof (pcp_fine_same m m1 F1 (pr_pcps _ _ _ _ P1) Hfine) as Hfine1.
  assert (Hend : exists m' B', (if is_reserved pg1 then try_put (pfn_to_page m p);; mret tt else free_page apic (pfn_to_page m p)) m1 = Ret (tt, m') /\
    returned m1 B p m' B').
  { rewrite <- (frame_pfn_to_page m m1) in G1 |- * by done. destruct (is_reserved pg1).
    - destruct (try_put_ok m1 B p 0 pg1 (pr_ok _ _ _ _ P1) Hb G1) as [[Hz _]|(_ & m2 & R2 & P2 & _ & _)]; [lia|].
      rewrite (kbind_ret _ _ _ _ _ R2). exists m2, B. split; [done|]. apply prepared_returned; [done|apply P1|done].
    - apply (free_page_ok apic m1 B p pg1); [apply P1|done|done|done|done|lia]. }
  destruct Hend as (m' & B' & R & Hret). exists m', B'. split; [exact R|]. by apply (returned_prepared m B p m1).
Qed.

Section Unmap.
Context (ls : list Z) (root : Z) (apic v : Z).
Hypothesis Ha : 0 <= apic.

Abbreviation tbl := (tbl ls root).
Abbreviation view := (view ls root).
Abbreviation agree := (agree ls).
Abbreviation space_ok := (space_ok ls root).
Abbreviation preserves := (preserves ls root).
Abbreviation extends := (extends ls root).

(** The tables below the root on the way to [v] are pages of the allocator, and none is a
    copy of a table shared with the kernel. *)
Definition own_tables (m : Mem) (B : gmap Z Block) : Prop :=
  forall k t, (0 < k)%nat -> tbl m k v = Some t ->
    B !! (t / PAGE_SIZE) = Some (mkBlock InUse 0) /\
    exists pg, pages m !! pfn_to_page m (t / PAGE_SIZE) = Some pg /\ private pg = 0.

(** The tables and indices passed on the way to depth [n], the last one first. *)
Fixpoint path_ok (m : Mem) (n : nat) (path : list (Z * Z)) : Prop :=
  match n, path with
  | O, [] => True
  | S n', (t, i) :: path' => tbl m n' v = Some t /\ (exists l, ls !! n' = Some l /\ i = level_index v l) /\ path_ok m n' path'
  | _, _ => False
  end.

Lemma path_ok_same m m' n path : (forall k, (k < n)%nat -> tbl m' k v = tbl m k v) -> path_ok m n path -> path_ok m' n path.
Proof.
  revert path. induction n as [|n IH]; intros path H; destruct path as [|[t i] path]; try done. cbn [path_ok]. intros (H1 & H2 & H3).
  rewrite H by lia. split; [done|]. split; [done|]. apply IH; [|done]. intros k Hk. apply H. lia.
Qed.

(** A table that could go back to the allocator. *)
Definition reclaimable (m : Mem) (t : Z) : Prop :=
  is_table_empty m t = true /\ exists pg, pages m !! pfn_to_page m (t / PAGE_SIZE) = Some pg /\ is_pgtable pg = true /\ refcount pg = 1.

Lemma empty_entries m t : is_table_empty m t = true <-> forall j, 0 <= j < 512 -> is_present (entry m t j) = false.
Proof.
  unfold is_table_empty. rewrite forallb_forall. split.
  - intros H j Hj. specialize (H j). rewrite <- list_elem_of_In, elem_of_zrange in H. specialize (H Hj). by destruct (is_present _).
  - intros H j Hj. rewrite <- list_elem_of_In, elem_of_zrange in Hj. by rewrite H.
Qed.

(** A table with a successor on the way is not empty. *)
Lemma inner_table_not_empty m k t t' : tbl m k v = Some t -> tbl m (S k) v = Some t' -> is_table_empty m t = false.
Proof.
  intros Ht Ht'. destruct (is_table_empty m t) eqn:He; [|done]. cbn [PageWalk.tbl] in Ht'. rewrite Ht in Ht'. destruct (ls !! k); [|done].
  unfold next_table in Ht'. by rewrite (proj1 (empty_entries m t) He) in Ht' by apply level_index_range.
Qed.

(** The outcome of the way up: all addresses map what they did, and no table on the way is
    left that could be reclaimed. *)
Record reclaimed (m : Mem) (B : gmap Z Block) (m' : Mem) (B' : gmap Z Block) : Prop := {
  rc_space : space_ok m' B';
  rc_frame : frame m m';
  rc_view w : view m' w = view m w;
  rc_done k t : (0 < k)%nat -> tbl m' k v = Some t -> ~ reclaimable m' t;
  rc_kept : preserves m B m' B';
  rc_own : extends m B m' B';
  rc_no_alloc : no_alloc B B'
}.

Lemma reclaim_stop m B n child :
  space_ok m B -> tbl m n v = Some child -> tbl m (S n) v = None -> (0 < n)%nat -> ~ reclaimable m child -> reclaimed m B m B.
Proof.
  intros Hsp Hc Hend Hn Hno. split; try done; [|apply extends_refl]. intros k t Hk Ht. destruct (decide (k = n)) as [->|Hne]; [congruence|].
  intros [He _]. destruct (decide (k < n)%nat) as [Hlt|].
  - destruct (tbl_prefix ls root m n (S k) v child Hc ltac:(lia)) as [t' Ht']. by rewrite (inner_table_not_empty m k t t' Ht Ht') in He.
  - destruct (tbl_prefix ls root m k (S n) v t Ht ltac:(lia)) as [t' Ht']. congruence.
Qed.

(** One empty table is unlinked and given back. *)
Lemma reclaim_step m B n t l child pg :
  space_ok m B -> own_tables m B -> tbl m n v = Some t -> ls !! n = Some l -> tbl m (S n) v = Some child -> is_table_empty m child = true ->
  pages m !! pfn_to_page m (child / PAGE_SIZE) = Some pg -> is_pgtable pg = true -> refcount pg = 1 ->
  exists m' B', free_table_page apic child (store_entry t (level_index v l) pte_empty m) = Ret (tt, m') /\ space_ok m' B' /\ own_tables m' B' /\ frame m m' /\
    (forall w, view m' w = view m w) /\ (forall k, (k <= n)%nat -> tbl m' k v = tbl m k v) /\ tbl m' (S n) v = None /\
    preserves m B m' B' /\ extends m B m' B' /\ no_alloc B B'.
Proof.
  intros Hsp Hown Ht Hl Hc Hempty Hpg Hpt Hrc. pose proof Hsp as [Hok Hfine Hmax Htree Hheld]. set (m1 := store_entry t (level_index v l) pte_empty m).
  pose proof (tr_table _ _ _ Htree _ _ _ Ht) as Hta. destruct (Hown (S n) child ltac:(lia) Hc) as [Hb (pg' & Hpg' & Hpr)].
  rewrite Hpg in Hpg'. injection Hpg' as <-. set (p := child / PAGE_SIZE) in *.
  assert (Hcp : child = p * PAGE_SIZE) by (destruct (tr_table _ _ _ Htree _ _ _ Hc) as [k ->]; unfold p; by rewrite page_of_table).
  assert (Hs : forall k w s j, tbl m k w = Some s -> 0 <= j < 512 -> (s, j) <> (t, level_index v l) -> entry m1 s j = entry m s j).
  { intros k w s j Hks Hj Hne. apply entry_store_ne; try done; [by eapply (tr_table _ _ _ Htree)|apply level_index_range]. }
  assert (He : entry m1 t (level_index v l) = pte_empty) by (apply entry_store_eq; unfold in_u64, pte_empty; lia).
  assert (Hold : forall w, agree (S n) v w -> tbl m (S n) w = Some child) by (intros w Hw; by rewrite <- (tbl_agree ls root m (S n) v w Hw)).
  assert (Hnext : forall w, agree (S n) v w -> tbl m (S (S n)) w = None).
  { intros w Hw. pose proof (Hold w Hw) as Hcw. cbn [PageWalk.tbl] in Hcw |- *. rewrite Hcw. destruct (ls !! S n); [|done].
    unfold next_table. by rewrite (proj1 (empty_entries m child) Hempty) by apply level_index_range. }
  destruct (prune ls root m m1 n v t l pte_empty Htree Ht (level_at_walk _ _ _ Hl) Hs He Hl eq_refl Hnext) as (Htree1 & Hv1 & Hv2 & Htbl1).
  assert (Hview1 : forall w, view m1 w = view m w).
  { intros w. destruct (decide (agree (S n) v w)) as [Hw|]; [|by apply Hv1]. rewrite (Hv2 w Hw). unfold PageWalk.view.
    rewrite (translate_from ls root m (S n) w child (Hold w Hw)), empty_table_maps_nothing; [done|]. by apply empty_entries. }
  assert (Hsp1 : space_ok m1 B).
  { split; [by apply mem_ok_phys|done|done|done|]. intros k w s. rewrite Htbl1. case_decide; [done|apply Hheld]. }
  assert (Hgone : forall k w, tbl m1 k w <> Some (p * PAGE_SIZE)).
  { intros k w. rewrite Htbl1. case_decide as Hd; [done|]. intros Hk. rewrite <- Hcp in Hk. destruct (tr_inj _ _ _ Htree _ _ _ _ _ Hk Hc) as [-> Hag].
    apply Hd. split; [done|]. by apply agree_sym. }
  destruct (free_table_page_ok apic m1 B p pg) as (m' & B' & R & Hret); try done; [by apply mem_ok_phys|lia|].
  destruct (returned_space ls root m1 B p m' B' Hsp1 Hret Hgone) as (Hsp' & Hview' & Htbl').
  exists m', B'. rewrite Hcp. split; [exact R|]. split; [done|]. assert (F1 : frame m m1) by (by split).
  assert (Hup : forall k, (k <= n)%nat -> tbl m' k v = tbl m k v).
  { intros k Hk. rewrite Htbl', Htbl1. case_decide; [lia|done]. }
  split; [|split; [transitivity m1; [done|apply Hret]|split; [intros w; by rewrite Hview'|split; [done|split; [|split; [|split]]]]]].
  - intros k s Hk. rewrite Htbl', Htbl1. case_decide; [done|]. intros Hs'. destruct (Hown k s Hk Hs') as [Hbs (pgs & Hps & Hprs)].
    assert (Hsp'' : s / PAGE_SIZE <> p).
    { intros Heq. apply (Hgone k v). rewrite Htbl1. case_decide; [done|]. rewrite Hs', <- Heq. destruct (tr_table _ _ _ Htree _ _ _ Hs') as [x ->].
      by rewrite page_of_table. }
    split; [by apply (rt_used _ _ _ _ _ Hret)|]. exists pgs. split; [|done].
    rewrite (frame_pfn_to_page m m') by (transitivity m1; [done|apply Hret]). rewrite <- Hps. by apply (rt_pages _ _ _ _ _ Hret _ 0).
  - rewrite Htbl', Htbl1, decide_True; [done|]. split; [done|apply agree_refl].
  - split; [transitivity m1; [done|apply Hret]| | |].
    + intros r [Hr Hn]. split; [apply (rt_used _ _ _ _ _ Hret); [|done]|].
      * intros ->. apply (Hn (S n) v). by rewrite Hc, Hcp.
      * intros k w. rewrite Htbl', Htbl1. case_decide; [done|apply Hn].
    + intros r [Hr Hn]. apply (rt_pages _ _ _ _ _ Hret r 0); [|done]. intros ->. apply (Hn (S n) v). by rewrite Hc, Hcp.
    + intros r x Hr Hx. rewrite (rt_phys _ _ _ _ _ Hret). apply store_entry_phys; [apply level_index_range|].
      eapply data_apart; [exact Htree|exact Ht|exact Hr|exact Hx].
  - intros w Hw k s. rewrite Htbl', Htbl1. case_decide as Hd; [done|]. intros Hs'. destruct (Hw k s Hs') as [Ho Hbits]. split.
    + intros Hk. destruct (Ho Hk) as [Hbs (pgs & Hps & Hprs)].
      assert (Hne : s / PAGE_SIZE <> p).
      { intros Heq. apply (Hgone k w). rewrite Htbl1. case_decide; [done|]. rewrite Hs', <- Heq. destruct (tr_table _ _ _ Htree _ _ _ Hs') as [x ->].
        by rewrite page_of_table. }
      split; [by apply (rt_used _ _ _ _ _ Hret)|]. exists pgs. split; [|done].
      rewrite (frame_pfn_to_page m m') by (transitivity m1; [done|apply Hret]). rewrite <- Hps. by apply (rt_pages _ _ _ _ _ Hret _ 0).
    + intros l0 Hl0. assert (He0 : entry m' s (level_index w l0) = entry m1 s (level_index w l0)) by (unfold entry; by rewrite (rt_phys _ _ _ _ _ Hret)).
      rewrite He0. destruct (decide ((s, level_index w l0) = (t, level_index v l))) as [[= -> Hi]|Hne]; [by rewrite Hi, He|].
      rewrite (Hs k w s) by (done || apply level_index_range). by apply Hbits.
  - exact (returned_no_alloc _ _ _ _ _ Hret Hb).
Qed.

Lemma reclaim_loop_ok n m B path child :
  space_ok m B -> own_tables m B -> tbl m n v = Some child -> tbl m (S n) v = None -> path_ok m n path ->
  exists m' B', reclaim_loop apic path child m = Ret (tt, m') /\ reclaimed m B m' B'.
Proof.
  revert m B path child. induction n as [|n IH]; intros m B path child Hsp Hown Hc Hend Hpath.
  - destruct path as [|[t i] path]; [|done]. exists m, B. split; [done|]. split; try done; [|apply extends_refl]. intros k t Hk Ht.
    destruct (tbl_prefix ls root m k 1 v t Ht ltac:(lia)) as [t' Ht']. congruence.
  - destruct path as [|[t i] path]; [done|]. destruct Hpath as (Ht & (l & Hl & ->) & Hpath). cbn [reclaim_loop].
    rewrite (kbind_ret (gets _) _ m (is_table_empty m child) m) by done. destruct (is_table_empty m child) eqn:He; cbn [negb].
    2: { exists m, B. split; [done|]. eapply (reclaim_stop m B (S n)); [done|done|done|lia|]. intros [? _]. congruence. }
    rewrite (kbind_ret (gets _) _ m (max_pfn m) m) by done. destruct (Hown (S n) child ltac:(lia) Hc) as [Hb (pg & Hpg & Hpr)].
    pose proof (cached_bounds m B _ _ (so_mem _ _ _ _ Hsp) Hb) as Hp. destruct (Z.leb_spec (max_pfn m) (child / PAGE_SIZE)); [lia|].
    rewrite (kbind_ret (gets _) _ m (pfn_to_page m (child / PAGE_SIZE)) m) by done. rewrite (kbind_ret _ _ _ _ _ (get_page_ok _ _ _ Hpg)).
    destruct (is_pgtable pg) eqn:Hpt; cbn [negb].
    2: { exists m, B. split; [done|]. eapply (reclaim_stop m B (S n)); [done|done|done|lia|]. intros (_ & pg' & Hpg' & ? & _). congruence. }
    destruct (Z.eqb_spec (refcount pg) 1) as [Hrc|Hrc]; cbn [negb].
    2: { exists m, B. split; [done|]. eapply (reclaim_stop m B (S n)); [done|done|done|lia|]. intros (_ & pg' & Hpg' & _ & ?). congruence. }
    rewrite (kbind_ret _ _ m 0 m).
    2: { unfold borrowed_parent_entry_raw. rewrite (kbind_ret (gets _) _ m (max_pfn m) m) by done. destruct (Z.leb_spec (max_pfn m) (child / PAGE_SIZE)); [lia|].
         rewrite (kbind_ret (gets _) _ m (pfn_to_page m (child / PAGE_SIZE)) m) by done. rewrite (kbind_ret _ _ _ _ _ (get_page_ok _ _ _ Hpg)). by rewrite Hpr. }
    cbn [negb Z.eqb]. unfold set_entry. rewrite (kbind_ret (modify _) _ m tt (store_entry t (level_index v l) pte_empty m)) by done.
    destruct (reclaim_step m B n t l child pg Hsp Hown Ht Hl Hc He Hpg Hpt Hrc) as (m1 & B1 & R1 & Hsp1 & Hown1 & F1 & Hv1 & Hup & Hend1 & Hpv1 & Hext1 & Hna1).
    rewrite (kbind_ret _ _ _ _ _ R1). destruct (IH m1 B1 path t Hsp1 Hown1) as (m' & B' & R & [a b c d e f g]).
    { by rewrite Hup. } { done. } { apply (path_ok_same m); [|done]. intros k Hk. apply Hup. lia. }
    exists m', B'. split; [exact R|]. split; [done|by transitivity m1| |done|by eapply preserves_trans| |by transitivity B1]. { intros w. by rewrite c. }
    intros w Hw. by apply f, Hext1.
Qed.

(** ** The way down *)
Lemma unmap_loop_ok n m t path :
  tbl m n v = Some t -> path_ok m n path ->
  exists d m', unmap_loop (drop n ls) v t path m = Ret (d, m') /\
    match d with
    | NotMapped => m' = m /\ translate_loop ls v root m = None
    | HugeCleared => exists k s l, tbl m k v = Some s /\ ls !! k = Some l /\ (l = 3 \/ l = 2) /\ tbl m (S k) v = None /\
        is_present (entry m s (level_index v l)) = true /\ is_huge (entry m s (level_index v l)) = true /\ m' = store_entry s (level_index v l) pte_empty m
    | Reached pt path' => m' = m /\ tbl m (length ls) v = Some pt /\ path_ok m (length ls) path'
    end.
Proof.
  remember (length ls - n)%nat as j eqn:Hj. revert n Hj t path. induction j as [|j IH]; intros n Hj t path Ht Hpath;
    pose proof (tbl_depth ls root m n v t Ht) as Hd.
  - assert (n = length ls) as -> by lia. rewrite drop_all. by exists (Reached t path), m.
  - destruct (lookup_lt_is_Some_2 ls n ltac:(lia)) as [l Hl]. rewrite (drop_S _ _ _ Hl). cbn [unmap_loop]. unfold get_entry.
    set (e := entry m t (level_index v l)). rewrite (kbind_ret (gets _) _ m e m) by done. pose proof (tbl_S ls root m n v l t Hl Ht) as Hn. fold e in Hn.
    unfold next_table in Hn. destruct (is_present e) eqn:Hpr; cbn [negb andb] in *.
    2: { exists NotMapped, m. split; [done|]. split; [done|]. destruct (translate_stops ls root m n v t l Ht Hl Hn) as [[_ ?]|[Hbad _]]; [done|].
         fold e in Hbad. congruence. }
    destruct (((l =? 3) || (l =? 2)) && is_huge e) eqn:Hh; cbn [negb] in Hn.
    + unfold set_entry. rewrite (kbind_ret (modify _) _ m tt (store_entry t (level_index v l) pte_empty m)) by done.
      apply andb_prop in Hh as [Hor Hh]. eexists HugeCleared, _. split; [done|]. exists n, t, l. split; [done|]. split; [done|].
      split; [apply orb_prop in Hor as [H|H]; apply Z.eqb_eq in H; auto|]. done.
    + apply (IH (S n)); [lia|done|]. cbn [path_ok]. split; [done|]. split; [by exists l|done].
Qed.
End Unmap.

(** Storing an entry of a table touches no other page. *)
Lemma store_preserves ls root m B n v t i e :
  tree_ok ls root m -> tbl ls root m n v = Some t -> 0 <= i < 512 -> (forall k w, tbl ls root (store_entry t i e m) k w = tbl ls root m k w) ->
  preserves ls root m B (store_entry t i e m) B.
Proof.
  intros Htree Ht Hi Htbl. split; [by split| |done|].
  - intros r [Hr Hn]. split; [done|]. intros k w. rewrite Htbl. apply Hn.
  - intros r x Hr Hx. apply store_entry_phys; [done|]. eapply data_apart; [exact Htree|exact Ht|exact Hr|exact Hx].
Qed.

(** The addresses that share the page of [v], a large one or a small one. *)
Definition leaf_depth (self : PageTableManager) (level : PageTableLevel) : nat :=
  match level with Pdpt => length (levels self) - 1 | Pd => length (levels self) | _ => S (length (levels self)) end.
Definition same_leaf (self : PageTableManager) (m : Mem) (v w : Z) : Prop :=
  match translate self v m with Some (_, level, _) => agree (levels self) (leaf_depth self level) v w | None => False end.
#[export] Instance same_leaf_dec self m v w : Decision (same_leaf self m v w).
Proof. unfold same_leaf. destruct (translate self v m) as [[[e level] size]|]; apply _. Defined.

Lemma same_leaf_iff self m v w e level size :
  translate self v m = Some (e, level, size) -> same_leaf self m v w <-> agree (levels self) (leaf_depth self level) v w.
Proof. intros H. unfold same_leaf. by rewrite H. Qed.

Lemma unmap_page_ok apic self m B v :
  manager_ok self m B -> 0 <= apic -> own_tables (levels self) (root_phys self) v m B ->
  exists ok fsh m' B', unmap_page apic self v m = Ret ((ok, fsh), m') /\ manager_ok self m' B' /\ frame m m' /\
    (own_way (levels self) (root_phys self) m B v -> preserves (levels self) (root_phys self) m B m' B' /\ extends (levels self) (root_phys self) m B m' B' /\ no_alloc B B') /\
    if (ok : bool) then
      is_Some (mapping self m v) /\ fsh = FlushGlobal v /\
      (forall w, mapping self m' w = if decide (same_leaf self m v w) then None else mapping self m w) /\
      same_leaf self m v v /\
      ((exists e, translate self v m = Some (e, Pt, PAGE_SIZE)) ->
         forall k t, (0 < k)%nat -> tbl (levels self) (root_phys self) m' k v = Some t -> ~ reclaimable m' t)
    else mapping self m v = None /\ fsh = NoFlush /\ m' = m.
Proof.
  intros [Hlv Hsp] Ha Hown. pose proof Hsp as [Hok Hfine Hmax Htree Hheld]. unfold mapping, manager_ok.
  assert (Hls : levels self = walk_levels 4 \/ levels self = walk_levels 5) by (unfold levels; destruct Hlv as [->| ->]; auto).
  unfold unmap_page. set (ls := levels self) in *. set (root := root_phys self) in *.
  destruct (unmap_loop_ok ls root v 0 m root [] eq_refl I) as (d & m1 & R1 & Hd). rewrite drop_0 in R1. rewrite (kbind_ret _ _ _ _ _ R1).
  destruct d as [| |pt path].
  - destruct Hd as [-> Hnone]. exists false, NoFlush, m, B. split; [done|]. split; [done|]. split; [done|]. split; [intros _; split; [apply preserves_refl|split; [apply extends_refl|done]]|]. unfold view. by rewrite Hnone.
  - destruct Hd as (k & s & l & Hs & Hl & Hor & Hend & Hpr & Hhu & ->). pose proof (tr_table _ _ _ Htree _ _ _ Hs) as Hsa.
    set (m1 := store_entry s (level_index v l) pte_empty m). exists true, (FlushGlobal v), m1, B. split; [done|].
    destruct (translate_stops ls root m k v s l Hs Hl Hend) as [[Hbad _]|(_ & _ & _ & Htr)]; [congruence|].
    assert (He : entry m1 s (level_index v l) = pte_empty) by (apply entry_store_eq; unfold in_u64, pte_empty; lia).
    destruct (prune ls root m m1 k v s l pte_empty Htree Hs (level_at_walk _ _ _ Hl)) as (Htree1 & Hv1 & Hv2 & Htbl1); try done.
    { intros k' w s' j Hks Hj Hne. apply entry_store_ne; try done; [by eapply (tr_table _ _ _ Htree)|apply level_index_range]. }
    { intros w Hw. pose proof (tbl_agree ls root m (S k) v w Hw) as Hc. rewrite Hend in Hc. cbn [PageWalk.tbl] in Hc |- *. by rewrite <- Hc. }
    assert (Hdepth : leaf_depth self (if l =? 3 then Pdpt else Pd) = S k).
    { pose proof (level_depth ls Hls k l Hl). unfold leaf_depth. fold ls. destruct Hor as [->| ->]; cbn; lia. }
    split; [split; [done|]; split; [by apply mem_ok_phys|done|done|done|]; intros k' w s'; rewrite Htbl1; case_decide; [done|apply Hheld]|].
    split; [by split|]. split; [intros Hway; by rewrite (proj1 (proj2 (Hway k s Hs) l Hl)) in Hhu|].
    pose proof (fun w => same_leaf_iff self m v w _ _ _ Htr) as Hleaf. rewrite Hdepth in Hleaf.
    split; [unfold view; rewrite Htr; by eexists|]. split; [done|]. split; [|split].
    + intros w. case_decide as Hw; rewrite Hleaf in Hw; [by apply Hv2|by apply Hv1].
    + rewrite Hleaf. apply agree_refl.
    + intros [e Hpt]. unfold translate in Hpt. fold ls root in Hpt. rewrite Htr in Hpt. injection Hpt as _ Hbad _. by destruct (l =? 3).
  - destruct Hd as (-> & Hpt & Hpath). unfold get_entry. set (e := entry m pt (level_index v 1)). rewrite (kbind_ret (gets _) _ m e m) by done.
    pose proof (translate_end ls root m v pt Hpt) as Htr. fold e in Htr. cbv zeta in Htr. destruct (is_present e) eqn:Hpr; cbn [negb].
    2: { exists false, NoFlush, m, B. split; [done|]. split; [done|]. split; [done|]. split; [intros _; split; [apply preserves_refl|split; [apply extends_refl|done]]|]. unfold view. by rewrite Htr. }
    unfold set_entry. set (m1 := store_entry pt (level_index v 1) pte_empty m). rewrite (kbind_ret (modify _) _ m tt m1) by done.
    destruct (set_pte_ok ls root m B v pt pte_empty Hsp Hpt ltac:(unfold in_u64, pte_empty; lia)) as (Hsp1 & Htbl1 & Hv1). fold m1 in Hsp1, Htbl1, Hv1.
    destruct (reclaim_loop_ok ls root apic v Ha (length ls) m1 B path pt Hsp1) as (m' & B' & R & [Hsp' F' Hv' Hdone Hpv Hext Hna]).
    { intros k t Hk. rewrite Htbl1. by apply Hown. } { by rewrite Htbl1. }
    { destruct (tbl ls root m1 (S (length ls)) v) eqn:Hx; [apply tbl_depth in Hx; lia|done]. }
    { apply (path_ok_same ls root v m); [|done]. intros k _. apply Htbl1. }
    rewrite (kbind_ret _ _ _ _ _ R). exists true, (FlushGlobal v), m', B'. split; [done|]. split; [done|]. split; [transitivity m1; [by split|done]|].
    split; [intros _; split; [eapply preserves_trans; [|exact Hpv]; apply (store_preserves ls root m B (length ls) v); [done|done|apply level_index_range|done]|split; [intros w Hw; apply Hext; by apply set_pte_own|done]]|].
    pose proof (fun w => same_leaf_iff self m v w _ _ _ Htr) as Hleaf. split; [unfold view; rewrite Htr; by eexists|]. split; [done|].
    assert (Hview : forall w, view ls root m' w = if decide (same_page ls v w) then None else view ls root m w).
    { intros w. rewrite Hv', Hv1. by case_decide; case_decide. }
    split; [|split; [|by intros _]].
    + intros w. rewrite Hview. case_decide as H1; case_decide as H2; rewrite Hleaf in H2; by try destruct (H2 H1).
    + rewrite Hleaf. apply agree_refl.
Qed.


#[local] Open Scope Z_scope.

(** ** Pages *)
(** The indices of an address are the digits of its page number. *)
Lemma level_digit x j : 0 <= j -> x / 2 ^ (12 + j * 9) = x / PAGE_SIZE / 512 ^ j.
Proof.
  intros Hj. rewrite Z.pow_add_r, (Z.mul_comm j 9), Z.pow_mul_r by lia. change (2 ^ 9) with 512. change (2 ^ 12) with PAGE_SIZE.
  symmetry. apply Z.div_div; [done|]. apply Z.pow_pos_nonneg; lia.
Qed.
Lemma digits_eq a b :
  a / 512 ^ 4 = b / 512 ^ 4 -> (forall j, 0 <= j < 4 -> (a / 512 ^ j) mod 512 = (b / 512 ^ j) mod 512) -> a = b.
Proof.
  intros Hab H. assert (Hstep : forall x j, 0 <= j -> x / 512 ^ j = x / 512 ^ j mod 512 + 512 * (x / 512 ^ (j + 1))).
  { intros x j Hj. rewrite Z.pow_add_r, <- Z.div_div by (try lia; apply Z.pow_nonzero; lia). change (512 ^ 1) with 512.
    pose proof (Z.div_mod (x / 512 ^ j) 512 ltac:(lia)). lia. }
  assert (Hd : forall j, 0 <= j <= 4 -> a / 512 ^ (4 - j) = b / 512 ^ (4 - j)).
  { intros j Hj. assert (Hn : exists n : nat, j = Z.of_nat n) by (exists (Z.to_nat j); lia). destruct Hn as [n ->].
    induction n as [|n IH]; [by rewrite Z.sub_0_r|].
    rewrite (Hstep a), (Hstep b), H by lia. replace (4 - Z.of_nat (S n) + 1) with (4 - Z.of_nat n) by lia. rewrite IH by lia. done. }
  specialize (Hd 4 ltac:(lia)). rewrite Z.sub_diag, !Z.div_1_r in Hd. done.
Qed.

Section Space.
Context (self : PageTableManager).

Abbreviation tbl := (tbl (levels self) (root_phys self)).
Abbreviation in_use := (in_use (levels self) (root_phys self)).
Abbreviation same_data := (same_data (levels self) (root_phys self)).
Abbreviation own_way := (own_way (levels self) (root_phys self)).
Abbreviation extends := (extends (levels self) (root_phys self)).
Abbreviation same_tables := (same_tables (levels self) (root_phys self)).
Abbreviation preserves := (preserves (levels self) (root_phys self)).

(** Addresses that agree above the four lowest levels lie on one page exactly when they have the
    same page number. *)
Lemma on_page_block v w :
  page_levels self = 4 \/ page_levels self = 5 -> v / 2 ^ 48 = w / 2 ^ 48 -> on_page self v w <-> v / PAGE_SIZE = w / PAGE_SIZE.
Proof.
  intros Hlv Hvw. unfold on_page, same_page.
  assert (Hidx : forall l, is_level l -> level_index v l = level_index w l <-> (v / PAGE_SIZE / 512 ^ (l - 1)) mod 512 = (w / PAGE_SIZE / 512 ^ (l - 1)) mod 512).
  { intros l Hl. rewrite !level_index_eq by done. rewrite !level_digit by (destruct Hl; lia). done. }
  split.
  - intros Hag. assert (Hb : forall x, x / PAGE_SIZE / 512 ^ 4 = x / 2 ^ 48) by (intros x; by rewrite Z.div_div).
    apply digits_eq; [by rewrite !Hb|]. intros j Hj. assert (Hl : is_level (j + 1)) by (unfold is_level; lia).
    replace j with (j + 1 - 1) by lia. apply (Hidx _ Hl).
    assert (Hk : exists k, (k < S (length (levels self)))%nat /\ level_at (levels self) k = Some (j + 1)).
    { assert (Hcase : j = 0 \/ j = 1 \/ j = 2 \/ j = 3) by lia. unfold levels. destruct Hlv as [-> | ->].
      - change (walk_levels 4) with [4; 3; 2]. destruct Hcase as [->|[->|[->| ->]]]; [exists 3%nat|exists 2%nat|exists 1%nat|exists 0%nat]; cbn; split; auto; lia.
      - change (walk_levels 5) with [5; 4; 3; 2]. destruct Hcase as [->|[->|[->| ->]]]; [exists 4%nat|exists 3%nat|exists 2%nat|exists 1%nat]; cbn; split; auto; lia. }
    destruct Hk as (k & Hk & Hlk). by apply (Hag k).
  - intros Heq k l _ Hl. assert (Hlev : is_level l).
    { apply list_elem_of_lookup_2 in Hl. unfold levels in Hl. unfold is_level. destruct Hlv as [E|E]; rewrite E in Hl.
      - change (walk_levels 4) with [4; 3; 2] in Hl. set_unfold. lia.
      - change (walk_levels 5) with [5; 4; 3; 2] in Hl. set_unfold. lia. }
    apply (Hidx l Hlev). by rewrite Heq.
Qed.
Lemma on_page_refl v : on_page self v v.
Proof. apply agree_refl. Qed.
Lemma on_page_sym v w : on_page self v w -> on_page self w v.
Proof. apply agree_sym. Qed.
Lemma on_page_trans u v w : on_page self u v -> on_page self v w -> on_page self u w.
Proof. apply agree_trans. Qed.

(** The walk depends on the page only. *)
Lemma translate_same_page ls v w t m :
  (forall l, l ∈ ls ++ [1] -> level_index v l = level_index w l) -> translate_loop ls v t m = translate_loop ls w t m.
Proof.
  revert t. induction ls as [|l ls IH]; intros t H; cbn [translate_loop].
  - by rewrite (H 1) by set_solver.
  - rewrite (H l) by set_solver. set (e := entry m t _). destruct (negb (is_present e)); [done|]. destruct ((l =? 3) && is_huge e); [done|].
    destruct ((l =? 2) && is_huge e); [done|]. apply IH. intros l' Hl'. apply H. set_solver.
Qed.
Lemma unmapped_page v w m : on_page self v w -> mapping self m v = None -> mapping self m w = None.
Proof.
  intros Hp. unfold mapping, view. rewrite (translate_same_page _ v w).
  - by destruct (translate_loop _ w _ m).
  - intros l Hl. apply list_elem_of_lookup in Hl as [k Hk]. apply (Hp k); [|done]. apply lookup_lt_Some in Hk. rewrite length_app in Hk. cbn in Hk. lia.
Qed.

(** Without large pages on the way, every page is a small one. *)
Lemma own_way_leaf m B v : own_way m B v -> same_leaf self m v v -> forall w, same_leaf self m v w <-> on_page self v w.
Proof.
  intros Hway Hl w. unfold same_leaf in *. destruct (translate self v m) as [[[e level] size]|] eqn:Ht; [|done].
  assert (level = Pt) as ->; [|done]. clear Hl w. unfold translate in Ht.
  assert (Hgen : forall n t, tbl m n v = Some t -> translate_loop (drop n (levels self)) v t m = Some (e, level, size) -> level = Pt).
  { intros n. remember (length (levels self) - n)%nat as j eqn:Hj. revert n Hj. induction j as [|j IH]; intros n Hj t Htn; pose proof (tbl_depth _ _ _ _ _ _ Htn) as Hdep.
    - rewrite drop_ge by lia. cbn. destruct (negb _); [done|]. by intros [= _ <- _].
    - destruct (lookup_lt_is_Some_2 (levels self) n ltac:(lia)) as [l Hln]. rewrite (drop_S _ _ _ Hln). cbn [translate_loop].
      destruct (proj2 (Hway n t Htn) l Hln) as [Hh _]. set (e0 := entry m t _) in *. rewrite Hh, !andb_false_r. destruct (is_present e0) eqn:Hp; cbn [negb]; [|done].
      apply (IH (S n)); [lia|]. rewrite (tbl_S _ _ m n v l t Hln Htn). by apply next_table_linked. }
  apply (Hgen O (root_phys self)); [done|]. by rewrite drop_0.
Qed.

Lemma own_way_tables m B v : own_way m B v -> own_tables (levels self) (root_phys self) v m B.
Proof. intros Hw k t Hk Ht. by apply (Hw k t Ht). Qed.

(** ** Steps that leave the tables alone *)
Lemma step_space m B m' B' :
  manager_ok self m B -> mem_ok m' B' -> frame m m' -> pcp_fine m' -> same_tables m m' ->
  (forall k w t, tbl m k w = Some t -> held B' t) ->
  manager_ok self m' B' /\ (forall w, mapping self m' w = mapping self m w) /\ (forall k w, tbl m' k w = tbl m k w).
Proof.
  intros [Hlv [a b c d e]] Hok Hf Hfine Hs Hh. pose proof (same_tables_tbl _ _ m m' Hs) as Ht. split; [|split; [|done]].
  - split; [done|]. split; [done|done|by rewrite (fr_max _ _ Hf)|by eapply same_tables_tree|]. intros k w t. rewrite Ht. apply Hh.
  - intros w. by apply same_tables_view.
Qed.

Lemma same_phys_tables m m' : phys m' = phys m -> same_tables m m'.
Proof. intros Hp k w t i _ _. unfold entry. by rewrite Hp. Qed.
(** Memory that changes in one page that is not a table. *)
Lemma one_page_tables m m' q :
  tree_ok (levels self) (root_phys self) m -> (forall k w, tbl m k w <> Some (q * PAGE_SIZE)) ->
  (forall a, ~ (q * PAGE_SIZE <= a < q * PAGE_SIZE + PAGE_SIZE) -> phys m' a = phys m a) -> same_tables m m'.
Proof.
  intros Htree Hq Hp k w t i Ht Hi. apply entry_same; [done|]. intros x Hx. apply Hp, pages_apart; [by exists q|by eapply (tr_table _ _ _ Htree)| |done].
  intros <-. by apply Hq in Ht.
Qed.
Lemma one_page_data m m' B q :
  (forall a, ~ (q * PAGE_SIZE <= a < q * PAGE_SIZE + PAGE_SIZE) -> phys m' a = phys m a) -> (forall r, in_use m B r -> r <> q) -> same_data m m' B.
Proof.
  intros Hp Hne r x Hr Hx. apply Hp, pages_apart; [by exists q|by exists r| |done]. intros Heq. apply (Hne r Hr). unfold PAGE_SIZE in *. lia.
Qed.

(** The ways of the user stay when their tables do. *)
Lemma step_extends m B m' B' :
  same_tables m m' -> (forall k w t, tbl m k w = Some t -> owned m B t -> owned m' B' t) -> extends m B m' B'.
Proof.
  intros Hs Ho w Hw k t. rewrite (same_tables_tbl _ _ m m' Hs). intros Ht. destruct (Hw k t Ht) as [H1 H2].
  split; [intros Hk; by eapply Ho; [|apply H1]|]. intros l Hl. rewrite (Hs k w t) by (done || apply level_index_range). by apply H2.
Qed.

(** A page is taken from the allocators. *)
Lemma takes_space m B m' B' q :
  manager_ok self m B -> takes m B m' B' q 0 -> pcp_fine m' ->
  (forall a, ~ (q * PAGE_SIZE <= a < q * PAGE_SIZE + PAGE_SIZE) -> phys m' a = phys m a) ->
  manager_ok self m' B' /\ (forall w, mapping self m' w = mapping self m w) /\ (forall k w, tbl m' k w = tbl m k w) /\
  preserves m B m' B' /\ extends m B m' B' /\ in_use m' B' q /\ (forall r, in_use m B r -> r <> q).
Proof.
  intros Hok Htk Hfine Hp. pose proof Hok as [_ [Hmem _ _ Htree Hheld]]. pose proof Htk as [t1 t2 t3 t4 t5 t6 t7].
  assert (Hq : forall k w, tbl m k w <> Some (q * PAGE_SIZE)).
  { intros k w Ht. destruct (Hheld _ _ _ Ht) as [_ [Hu|Hn]]; rewrite page_of_table in *; [by apply t3 in Hu|]. apply Hn, t5. exists q, (mkBlock InUse 0).
    split; [done|]. cbn. lia. }
  assert (Hne : forall r, in_use m B r -> r <> q) by (intros r [Hr _] ->; by apply t3 in Hr).
  destruct (step_space m B m' B' Hok t1 t6 Hfine (one_page_tables m m' q Htree Hq Hp)) as (H1 & H2 & H3).
  { intros k w t Ht. eapply takes_held; [done| |by eapply Hheld]. intros ->. by apply Hq in Ht. }
  assert (Hpages : forall r o, B !! r = Some (mkBlock InUse o) -> pages m' !! pfn_to_page m r = pages m !! pfn_to_page m r).
  { intros r o Hr. apply t7; [by apply (cached_bounds m B r _ Hmem Hr)|]. intros Hout. apply (Hout _ _ Hr). pose proof (block_order m B r _ Hmem Hr) as Ho. cbn in Ho.
    pose proof (pow2_pos o ltac:(lia)). lia. }
  split; [done|]. split; [done|]. split; [done|]. split; [|split; [|split; [split; [done|intros k w; rewrite H3; apply Hq]|done]]].
  2: { apply step_extends; [by apply (one_page_tables m m' q)|]. intros k w t Ht [Hb (pg & Hpg & Hpr)].
       split; [apply t4; [intros Heq; rewrite Heq in Hb; by apply t3 in Hb|done]|]. exists pg. split; [|done].
       rewrite (frame_pfn_to_page m m') by done. by rewrite (Hpages _ _ Hb). }
  split; [done| | |by apply (one_page_data m m' B q)].
  - intros r Hr. split; [apply t4; [by apply Hne|apply Hr]|]. intros k w. rewrite H3. apply Hr.
  - intros r [Hr _]. by eapply Hpages.
Qed.

(** The allocators rearrange what they have. *)
Lemma advance_space m B m' B' :
  manager_ok self m B -> advance m B m' B' -> pcp_fine m' ->
  manager_ok self m' B' /\ (forall w, mapping self m' w = mapping self m w) /\ (forall k w, tbl m' k w = tbl m k w) /\ preserves m B m' B' /\ extends m B m' B'.
Proof.
  intros Hok [Hok' [Hu Hc] Hon] Hfine. pose proof Hok as [_ [Hmem _ _ Htree Hheld]]. pose proof (on_frame _ _ _ Hon) as Hf.
  destruct (step_space m B m' B' Hok Hok' Hf Hfine (same_phys_tables m m' (on_phys _ _ _ Hon))) as (H1 & H2 & H3).
  { intros k w t Ht. destruct (Hheld _ _ _ Ht) as [Hal [H|H]]; (split; [done|]); [left; by apply Hu|right; by rewrite Hc]. }
  assert (Hpages : forall r, B !! r = Some (mkBlock InUse 0) -> pages m' !! pfn_to_page m r = pages m !! pfn_to_page m r).
  { intros r Hr. apply (on_pages _ _ _ Hon); [by apply (cached_bounds m B r _ Hmem Hr)|]. intros Hout. apply (Hout _ _ Hr). cbn. lia. }
  split; [done|]. split; [done|]. split; [done|]. split; [split; [done| | |]|].
  - intros r [Hr Hn]. split; [by apply Hu|]. intros k w. rewrite H3. apply Hn.
  - intros r [Hr _]. by apply Hpages.
  - intros r x _ _. by rewrite (on_phys _ _ _ Hon).
  - apply step_extends; [by apply same_phys_tables, Hon|]. intros k w t Ht [Hb (pg & Hpg & Hpr)]. split; [by apply Hu|]. exists pg. split; [|done].
    rewrite (frame_pfn_to_page m m') by done. by rewrite Hpages.
Qed.

(** A reference to a page that is not a table is dropped. *)
Lemma returned_preserves m B p m' B' :
  manager_ok self m B -> returned m B p m' B' -> (forall k w, tbl m k w <> Some (p * PAGE_SIZE)) ->
  manager_ok self m' B' /\ (forall w, mapping self m' w = mapping self m w) /\ (forall k w, tbl m' k w = tbl m k w) /\
  extends m B m' B' /\
  forall r, r <> p -> in_use m B r -> in_use m' B' r /\ pages m' !! pfn_to_page m r = pages m !! pfn_to_page m r.
Proof.
  intros [Hlv Hsp] Hret Hnt. destruct (returned_space _ _ m B p m' B' Hsp Hret Hnt) as (H1 & H2 & H3).
  split; [done|]. split; [done|]. split; [done|]. split.
  { apply step_extends; [by apply same_phys_tables, Hret|]. intros k w t Ht [Hb (pg & Hpg & Hpr)]. assert (Hne : t / PAGE_SIZE <> p).
    { intros <-. apply (Hnt k w). destruct (tr_table _ _ _ (so_tree _ _ _ _ Hsp) _ _ _ Ht) as [x ->]. by rewrite page_of_table. }
    split; [by apply (rt_used _ _ _ _ _ Hret)|]. exists pg. split; [|done]. rewrite (frame_pfn_to_page m m') by apply Hret.
    by rewrite (rt_pages _ _ _ _ _ Hret _ 0). }
  intros r Hne [Hr Hn]. split; [|by eapply (rt_pages _ _ _ _ _ Hret)].
  split; [by apply (rt_used _ _ _ _ _ Hret)|]. intros k w. rewrite H3. apply Hn.
Qed.

(** The descriptor of a page in use changes. *)
Lemma prepared_space m B q m' :
  manager_ok self m B -> in_use m B q -> prepared m B q m' ->
  manager_ok self m' B /\ (forall w, mapping self m' w = mapping self m w) /\ (forall k w, tbl m' k w = tbl m k w) /\ phys m' = phys m /\ frame m m' /\
  extends m B m' B /\ (forall r, in_use m' B r <-> in_use m B r) /\ (forall r, r <> q -> in_use m B r -> pages m' !! pfn_to_page m r = pages m !! pfn_to_page m r).
Proof.
  intros Hok Hq [Hok' Hon Hpc]. pose proof Hok as [_ [Hmem Hfine _ Htree Hheld]]. pose proof (on_frame _ _ _ Hon) as Hf.
  destruct (step_space m B m' B Hok Hok' Hf (pcp_fine_same m m' Hf Hpc Hfine) (same_phys_tables m m' (on_phys _ _ _ Hon)) Hheld) as (H1 & H2 & H3).
  split; [done|]. split; [done|]. split; [done|]. split; [apply Hon|]. split; [done|]. split; [|split].
  - apply step_extends; [by apply same_phys_tables, Hon|]. intros k w t Ht [Hb (pg & Hpg & Hpr)]. split; [done|]. exists pg. split; [|done].
    rewrite (frame_pfn_to_page m m') by done. rewrite <- Hpg. apply (on_pages _ _ _ Hon); [by apply (cached_bounds m B _ _ Hmem Hb)|].
    intros Heq. apply (proj2 Hq k w). destruct (tr_table _ _ _ Htree _ _ _ Ht) as [x ->]. rewrite page_of_table in Heq. by rewrite Heq.
  - intros r. split; intros [Hr Hn]; (split; [done|]); intros k w; [rewrite <- H3|rewrite H3]; apply Hn.
  - intros r Hne [Hr _]. apply (on_pages _ _ _ Hon); [by apply (cached_bounds m B r _ Hmem Hr)|congruence].
Qed.

(** A step that takes new tables from the free pages only. *)
Lemma keeps_preserves m B m' B' :
  manager_ok self m B -> frame m m' ->
  (forall k w t, tbl m' k w = Some t ->
     (exists k' w', tbl m k' w' = Some t) \/ free_pfn B (t / PAGE_SIZE) /\ B' !! (t / PAGE_SIZE) = Some (mkBlock InUse 0)) ->
  keeps (levels self) (root_phys self) m B m' B' -> preserves m B m' B'.
Proof.
  intros Hok F Htab [k1 k2 k3]. pose proof (so_mem _ _ _ _ (proj2 Hok)) as Hmem. split; [done| | |done].
  - intros r [Hr Hn]. split; [by apply k1|]. intros k w Hs. destruct (Htab _ _ _ Hs) as [(k' & w' & Hs')|[Hfree _]]; [by apply Hn in Hs'|].
    rewrite page_of_table in Hfree. by eapply (in_use_not_free m B r).
  - intros r [Hr _]. apply k2; [by apply (cached_bounds m B r _ Hmem Hr)|]. intros Hout. apply (Hout _ _ Hr). cbn. lia.
Qed.

(** ** Allocating *)
Context (apic : Z).
Hypothesis Ha : 0 <= apic.

Lemma alloc_page_fine gfp m B :
  manager_ok self m B ->
  exists r m' B', alloc_page apic gfp m = Ret (r, m') /\ pcp_fine m' /\
    match r with
    | None => advance m B m' B'
    | Some page => exists q, page = pfn_to_page m q /\ takes m B m' B' q 0 /\ fresh_page m' q 0 /\
        forall a, phys m' a = if gfp_test gfp GFP_F_ZERO && (q * PAGE_SIZE <=? a) && (a <? q * PAGE_SIZE + PAGE_SIZE) then 0 else phys m a
    end.
Proof.
  intros [_ [Hok Hfine _ _ _]]. assert (Hzero : forall q (m' : Mem), zeroed (gfp_test gfp GFP_F_ZERO) q 0 (phys m) (phys m') ->
    forall a, phys m' a = if gfp_test gfp GFP_F_ZERO && (q * PAGE_SIZE <=? a) && (a <? q * PAGE_SIZE + PAGE_SIZE) then 0 else phys m a).
  { intros q m' H a. rewrite (H a). change (2 ^ 0) with 1. by rewrite Z.mul_add_distr_r, Z.mul_1_l. }
  destruct (pcp_ready m) eqn:Hr.
  - destruct (Hfine Hr) as [Hq Hn]. destruct (alloc_page_takes_one_free_page apic gfp m B Hok Hq Hn Ha) as (r & m' & R & Hq' & Hres).
    assert (Hf' : forall F : frame m m', pcp_fine m') by (intros F _; split; [done|by rewrite (fr_cpus _ _ F)]). destruct r as [page|].
    + destruct Hres as (q & z & -> & _ & _ & [B' Htk] & Hfr & Hze). exists (Some (pfn_to_page m q)), m', B'. split; [done|].
      split; [apply Hf', Htk|]. exists q. split; [done|]. split; [done|]. split; [done|]. by apply Hzero.
    + destruct Hres as (B' & Hadv & _). exists None, m', B'. split; [done|]. split; [apply Hf', Hadv|done].
  - unfold alloc_page. rewrite (kbind_ret (gets _) _ m true m) by (unfold gets; by rewrite (mm_ready m B)). cbn [negb].
    rewrite (kbind_ret (gets _) _ m false m) by (unfold gets, pcp_initialized; by rewrite Hr). rewrite (kbind_ret (mret _) _ m None m) by done.
    destruct (alloc_pages_ok m B 0 gfp Hok ltac:(done)) as [[R _]|(z & hi & q & m' & R & _ & Hal & _)].
    + exists None, m, B. split; [done|]. split; [done|]. by apply advance_refl.
    + destruct Hal as (_ & _ & _ & Htk & Hfr & Hze & Hpc & _). eexists (Some (pfn_to_page m q)), m', _. split; [done|].
      split; [apply (pcp_fine_same m); [apply Htk|done|done]|]. exists q. split; [done|]. split; [exact Htk|]. split; [done|]. by apply Hzero.
Qed.

End Space.
