(* ===== verification/PagingShare.v ===== *)
(** * Addresses, the kernel half, and a small address space

    What the pages of [on_page] are, what [translate_addr] answers, how the kernel half of
    the tables is shared between address spaces, and a concrete address space on which the
    theorems on page tables are applied. *)

From S2P Require Import Prelude Page Zone Pcp Buddy PageEntry Paging PageWalk PagingMap PagingUnmap.

(** ** Addresses *)
Lemma translate_size ls w t m e level size :
  translate_loop ls w t m = Some (e, level, size) -> size = 1024 * 1024 * 1024 \/ size = 2 * 1024 * 1024 \/ size = PAGE_SIZE.
Proof.
  revert t. induction ls as [|l ls IH]; intros t; cbn [translate_loop].
  - destruct (is_present _); [|done]. intros [= <- <- <-]. auto.
  - destruct (is_present _); [|done]. cbn [negb]. destruct ((l =? 3) && _); [intros [= <- <- <-]; auto|].
    destruct ((l =? 2) && _); [intros [= <- <- <-]; auto|]. apply IH.
Qed.
Lemma translate_addr_mapping self w m : translate_addr self w m = fst <$> mapping self m w.
Proof.
  unfold translate_addr, mapping, view, translate. destruct (translate_loop (levels self) w (root_phys self) m) as [[[e level] size]|] eqn:Htr; [|done].
  cbn. f_equal. apply add64_small. destruct (frame_addr_phys e) as [_ Hb]. pose proof (translate_size _ _ _ _ _ _ _ Htr) as Hs.
  assert (Hoff : 0 <= Z.land w (size - 1) < 2 ^ 30).
  { destruct Hs as [->|[->| ->]]; [change (1024 * 1024 * 1024) with (2 ^ 30)|change (2 * 1024 * 1024) with (2 ^ 21)|change PAGE_SIZE with (2 ^ 12)];
      rewrite land_low by lia;
      [pose proof (Z.mod_pos_bound w (2 ^ 30) ltac:(lia))|pose proof (Z.mod_pos_bound w (2 ^ 21) ltac:(lia))|pose proof (Z.mod_pos_bound w (2 ^ 12) ltac:(lia))]; lia. }
  change u64_size with (2 ^ 64). lia.
Qed.

(** Page number and table indices determine each other. *)
Lemma page_number_digits a :
  0 <= a < 2 ^ 45 ->
  a = a mod 512 + 512 * ((a / 2 ^ 9) mod 512 + 512 * ((a / 2 ^ 18) mod 512 + 512 * ((a / 2 ^ 27) mod 512 + 512 * ((a / 2 ^ 36) mod 512)))).
Proof.
  intros Ha. rewrite (Z.mod_small (a / 2 ^ 36)) by (split; [apply Z.div_pos; lia|apply Z.div_lt_upper_bound; lia]).
  change (2 ^ 36) with (2 ^ 27 * 512). change (2 ^ 27) with (2 ^ 18 * 512) at 2. change (2 ^ 27) with (2 ^ 18 * 512). change (2 ^ 18) with (2 ^ 9 * 512).
  change (2 ^ 9) with 512. rewrite <- !Z.div_div by lia. pose proof (Z.div_mod a 512 ltac:(lia)). pose proof (Z.div_mod (a / 512) 512 ltac:(lia)).
  pose proof (Z.div_mod (a / 512 / 512) 512 ltac:(lia)). pose proof (Z.div_mod (a / 512 / 512 / 512) 512 ltac:(lia)). lia.
Qed.

Lemma level_index_page w l : is_level l -> level_index w l = (w / PAGE_SIZE / 2 ^ ((l - 1) * 9)) mod 512.
Proof.
  intros Hl. rewrite level_index_eq by done. destruct Hl. rewrite Z.pow_add_r by lia. change (2 ^ 12) with PAGE_SIZE.
  rewrite <- Z.div_div by (unfold PAGE_SIZE; lia). done.
Qed.

(** On the addresses that the levels distinguish, the pages are the ranges of 4096 bytes. *)
Lemma on_page_iff self v w :
  page_levels self = 4 \/ page_levels self = 5 -> 0 <= v < 2 ^ (9 * page_levels self + 12) -> 0 <= w < 2 ^ (9 * page_levels self + 12) ->
  on_page self v w <-> v / PAGE_SIZE = w / PAGE_SIZE.
Proof.
  intros Hlv Hv Hw. unfold on_page, same_page, agree, level_at, levels. split.
  - intros H. assert (Hidx : forall l, 1 <= l <= page_levels self -> level_index v l = level_index w l).
    { intros l Hl. destruct Hlv as [E|E]; rewrite E in *;
        [apply (H (Z.to_nat (4 - l)) l)|apply (H (Z.to_nat (5 - l)) l)];
        [change (length (walk_levels 4)) with 3%nat; lia| |change (length (walk_levels 5)) with 4%nat; lia|];
        [assert (l = 1 \/ l = 2 \/ l = 3 \/ l = 4) as [->|[->|[->| ->]]] by lia|assert (l = 1 \/ l = 2 \/ l = 3 \/ l = 4 \/ l = 5) as [->|[->|[->|[->| ->]]]] by lia]; reflexivity. }
    assert (Hsmall : forall x, 0 <= x < 2 ^ (9 * page_levels self + 12) -> 0 <= x / PAGE_SIZE < 2 ^ (9 * page_levels self)).
    { intros x Hx. rewrite Z.pow_add_r in Hx by lia. change (2 ^ 12) with PAGE_SIZE in Hx. unfold PAGE_SIZE in *. split; [apply Z.div_pos; lia|].
      apply Z.div_lt_upper_bound; lia. }
    pose proof (Hsmall v Hv) as Bv. pose proof (Hsmall w Hw) as Bw.
    assert (H45 : 2 ^ (9 * page_levels self) <= 2 ^ 45) by (destruct Hlv as [->| ->]; done).
    rewrite (page_number_digits (v / PAGE_SIZE)), (page_number_digits (w / PAGE_SIZE)) by lia.
    assert (Hd : forall l, 1 <= l <= 5 -> (v / PAGE_SIZE / 2 ^ ((l - 1) * 9)) mod 512 = (w / PAGE_SIZE / 2 ^ ((l - 1) * 9)) mod 512).
    { intros l Hl. destruct (decide (l <= page_levels self)) as [Hle|Hgt].
      - rewrite <- !level_index_page by (unfold is_level; lia). apply Hidx. lia.
      - destruct Hlv as [E|E]; rewrite E in *; [|lia]. assert (l = 5) as -> by lia. change ((5 - 1) * 9) with 36. change (9 * 4) with 36 in *.
        by rewrite !Z.div_small by lia. }
    pose proof (Hd 1 ltac:(lia)) as H1. pose proof (Hd 2 ltac:(lia)) as H2. pose proof (Hd 3 ltac:(lia)) as H3. pose proof (Hd 4 ltac:(lia)) as H4. pose proof (Hd 5 ltac:(lia)) as H5.
    change ((1 - 1) * 9) with 0 in H1. change (2 ^ 0) with 1 in H1. rewrite !Z.div_1_r in H1. change ((2 - 1) * 9) with 9 in H2. change ((3 - 1) * 9) with 18 in H3.
    change ((4 - 1) * 9) with 27 in H4. change ((5 - 1) * 9) with 36 in H5. by rewrite H1, H2, H3, H4, H5.
  - intros E k l Hk Hl. assert (Hlev : is_level l).
    { apply list_elem_of_lookup_2 in Hl. unfold is_level. destruct Hlv as [E'|E']; rewrite E' in Hl; vm_compute in Hl; set_unfold in Hl; lia. }
    by rewrite !level_index_page, E.
Qed.

(** ** The kernel half *)
(** The entry [idx] of [dst] is replaced, and its new value leads to the table in page [q], or
    its old one did. *)
Definition takes_ref (m : Mem) (src dst idx q : Z) : bool :=
  negb (entry m dst idx =? entry m src idx) && entry_references_lower_table (entry m src idx) &&
  (phys_addr (entry m src idx) / PAGE_SIZE =? q).
Definition drops_ref (m : Mem) (src dst idx q : Z) : bool :=
  negb (entry m dst idx =? entry m src idx) && entry_references_lower_table (entry m dst idx) &&
  (phys_addr (entry m dst idx) / PAGE_SIZE =? q).
Definition count_of (f : Z -> bool) (idxs : list Z) : Z := Z.of_nat (length (filter (fun idx => f idx = true) idxs)).
(** How many of the entries [idxs] do so. *)
Definition new_refs (m : Mem) (src dst : Z) (idxs : list Z) (q : Z) : Z := count_of (fun idx => takes_ref m src dst idx q) idxs.
Definition lost_refs (m : Mem) (src dst : Z) (idxs : list Z) (q : Z) : Z := count_of (fun idx => drops_ref m src dst idx q) idxs.

Lemma count_of_in (f g : Z -> bool) (l : list Z) : (forall j, j ∈ l -> f j = g j) -> count_of f l = count_of g l.
Proof.
  unfold count_of. induction l as [|x l IH]; intros H; [done|]. rewrite !filter_cons, (H x) by set_solver.
  specialize (IH ltac:(intros j Hj; apply H; set_solver)). case_decide; cbn [length]; lia.
Qed.
Lemma count_of_cons f x l : count_of f (x :: l) = (if f x then 1 else 0) + count_of f l.
Proof. unfold count_of. rewrite filter_cons. destruct (f x); [rewrite decide_True by done|rewrite decide_False by done]; cbn [length]; lia. Qed.
Lemma count_of_nonneg f l : 0 <= count_of f l.
Proof. apply Nat2Z.is_nonneg. Qed.

(** Every page [q] has [f q] more references, and no page changes whose copy it is. *)
Definition counts_plus (m m' : Mem) (f : Z -> Z) : Prop :=
  forall q pg, 0 <= q < max_pfn m -> pages m !! pfn_to_page m q = Some pg ->
    exists pg', pages m' !! pfn_to_page m q = Some pg' /\ refcount pg' = refcount pg + f q /\ private pg' = private pg.

Lemma counts_plus_0 m : counts_plus m m (fun _ => 0).
Proof. intros q pg _ Hpg. exists pg. split; [done|]. split; [lia|done]. Qed.
Lemma counts_plus_ext m m' f g : (forall q, f q = g q) -> counts_plus m m' f -> counts_plus m m' g.
Proof. intros E H q pg Hq Hpg. destruct (H q pg Hq Hpg) as (pg' & ? & Hr & ?). exists pg'. rewrite Hr, E. done. Qed.
Lemma counts_plus_trans m1 m2 m3 f g :
  frame m1 m2 -> counts_plus m1 m2 f -> counts_plus m2 m3 g -> counts_plus m1 m3 (fun q => f q + g q).
Proof.
  intros F H1 H2 q pg Hq Hpg. destruct (H1 q pg Hq Hpg) as (pg1 & Hp1 & Hr1 & Hv1). rewrite <- (frame_pfn_to_page m1 m2) in Hp1 by done.
  destruct (H2 q pg1 ltac:(by rewrite (fr_max _ _ F)) Hp1) as (pg2 & Hp2 & Hr2 & Hv2). exists pg2. rewrite (frame_pfn_to_page m1 m2) in Hp2 by done.
  split; [done|]. split; [lia|congruence].
Qed.

(** A step that changes the descriptor of one page. *)
Lemma counts_plus_one m m' p pg pg' n :
  only (eq p) m m' -> pages m !! pfn_to_page m p = Some pg -> pages m' !! pfn_to_page m p = Some pg' ->
  refcount pg' = refcount pg + n -> private pg' = private pg -> counts_plus m m' (fun q => if p =? q then n else 0).
Proof.
  intros Hon Hpg Hpg' Hr Hv q pgq Hq Hpgq. destruct (Z.eqb_spec p q) as [<-|Hne].
  - rewrite Hpg in Hpgq. injection Hpgq as <-. by exists pg'.
  - exists pgq. rewrite (on_pages _ _ _ Hon) by done. split; [done|]. split; [lia|done].
Qed.

Lemma retain_table_page_ref_ok m B a :
  mem_ok m B -> frame_addr a ->
  (forall pg, a / PAGE_SIZE < max_pfn m -> pages m !! pfn_to_page m (a / PAGE_SIZE) = Some pg ->
     unmanaged B (a / PAGE_SIZE) /\ 0 <= refcount pg /\ refcount pg + 1 < 4294967296) ->
  exists m', retain_table_page_ref a m = Ret (tt, m') /\ mem_ok m' B /\ frame m m' /\ phys m' = phys m /\
    counts_plus m m' (fun q => if (a / PAGE_SIZE =? q) then 1 else 0).
Proof.
  intros Hok [_ Hb] Hun. unfold retain_table_page_ref. set (p := a / PAGE_SIZE) in *. rewrite (kbind_ret (gets _) _ m (max_pfn m) m) by done.
  assert (Hp0 : 0 <= p) by (apply Z.div_pos; [lia|done]).
  destruct (Z.leb_spec (max_pfn m) p) as [Hge|Hlt].
  { exists m. split; [done|]. split; [done|]. split; [done|]. split; [done|]. intros q pg Hq Hpg. exists pg. split; [done|].
    destruct (Z.eqb_spec p q); [lia|]. split; [lia|done]. }
  pose proof Hok as [L Hphys]. destruct (ok_pages _ _ _ Hphys p ltac:(lia)) as (pg & Hpg & _). destruct (Hun pg Hlt Hpg) as (Hm & Hr0 & Hr1).
  rewrite (kbind_ret (gets _) _ m (pfn_to_page m p) m) by done. unfold page_get.
  destruct (page_update_ok m B p pg (with_refcount (add32 (refcount pg) 1)) Hok ltac:(lia) Hm Hpg) as (m1 & R1 & Hok1 & Hon1 & _ & _ & G1); try done.
  rewrite (kbind_ret _ _ m (add32 (refcount pg) 1) m1).
  2: { rewrite (kbind_ret _ _ _ _ _ (get_page_ok _ _ _ Hpg)). by rewrite (kbind_ret _ _ _ _ _ R1). }
  pose proof (on_frame _ _ _ Hon1) as F1. rewrite <- (frame_pfn_to_page m m1) in G1 |- * by done. unfold set_flag, set_owner.
  destruct (page_update_ok m1 B p _ (set_flag_pure PGTABLE) Hok1 ltac:(rewrite (fr_max _ _ F1); lia) Hm G1) as (m2 & R2 & Hok2 & Hon2 & _ & _ & G2).
  { rewrite is_buddy_set_flag. by rewrite orb_false_r. } { done. }
  rewrite (kbind_ret _ _ _ _ _ R2). pose proof (on_frame _ _ _ Hon2) as F2. rewrite <- (frame_pfn_to_page m1 m2) in G2 |- * by done.
  destruct (page_update_ok m2 B p _ (with_owner (owner_raw Pgtable)) Hok2 ltac:(rewrite (fr_max _ _ F2), (fr_max _ _ F1); lia) Hm G2)
    as (m3 & R3 & Hok3 & Hon3 & _ & _ & G3); try done.
  exists m3. split; [exact R3|]. split; [done|].
  assert (Hon : only (eq p) m m3) by (eapply only_trans; [exact Hon1|]; by eapply only_trans).
  split; [apply Hon|]. split; [apply Hon|]. rewrite (frame_pfn_to_page m1 m2), (frame_pfn_to_page m m1) in G3 by done.
  eapply (counts_plus_one m m3 p pg _ 1 Hon Hpg G3); [|done]. cbn. unfold add32. apply Z.mod_small. lia.
Qed.

(** A table that others refer to too, and that is no copy, loses one reference. *)
Lemma release_shared_table_ok apic m B a :
  mem_ok m B -> frame_addr a ->
  (forall pg, a / PAGE_SIZE < max_pfn m -> pages m !! pfn_to_page m (a / PAGE_SIZE) = Some pg ->
     unmanaged B (a / PAGE_SIZE) /\ private pg = 0 /\ 1 < refcount pg) ->
  exists m', release_table_page apic a m = Ret (tt, m') /\ mem_ok m' B /\ frame m m' /\ phys m' = phys m /\
    counts_plus m m' (fun q => if a / PAGE_SIZE =? q then -1 else 0).
Proof.
  intros Hok [_ Hb] Hun. unfold release_table_page. rewrite (kbind_ret (gets _) _ m (max_pfn m) m) by done. cbn [release_table_page_ref].
  set (p := a / PAGE_SIZE) in *. rewrite (kbind_ret (gets _) _ m (max_pfn m) m) by done.
  assert (Hp0 : 0 <= p) by (apply Z.div_pos; [lia|done]).
  destruct (Z.leb_spec (max_pfn m) p) as [Hge|Hlt].
  { exists m. split; [done|]. split; [done|]. split; [done|]. split; [done|]. intros q pg Hq Hpg. exists pg. split; [done|].
    destruct (Z.eqb_spec p q); [lia|]. split; [lia|done]. }
  pose proof Hok as [L Hphys]. destruct (ok_pages _ _ _ Hphys p ltac:(lia)) as (pg & Hpg & _). destruct (Hun pg Hlt Hpg) as (Hm & Hpr & Hrc).
  rewrite (kbind_ret (gets _) _ m (pfn_to_page m p) m) by done. rewrite (kbind_ret _ _ _ _ _ (get_page_ok _ _ _ Hpg)), Hpr.
  rewrite (bind_when _ _ _ m m) by done. rewrite (kbind_ret _ _ _ _ _ (get_page_ok _ _ _ Hpg)).
  (* the steps that repair the descriptor and the last one that counts down *)
  assert (Hstep : forall m1 pg1 f, mem_ok m1 B -> only (eq p) m m1 -> pages m1 !! pfn_to_page m p = Some pg1 ->
    is_buddy (f pg1) = is_buddy pg1 -> zone_id (f pg1) = zone_id pg1 ->
    exists m2, update_page (pfn_to_page m p) f m1 = Ret (tt, m2) /\ mem_ok m2 B /\ only (eq p) m m2 /\ pages m2 !! pfn_to_page m p = Some (f pg1)).
  { intros m1 pg1 f Hok1 Hon1 G1 Hf1 Hf2. pose proof (on_frame _ _ _ Hon1) as F1. rewrite <- (frame_pfn_to_page m m1) in G1 |- * by done.
    destruct (page_update_ok m1 B p pg1 f Hok1 ltac:(rewrite (fr_max _ _ F1); lia) Hm G1 Hf1 Hf2) as (m2 & R2 & Hok2 & Hon2 & _ & _ & G2).
    exists m2. split; [done|]. split; [done|]. split; [by eapply only_trans|done]. }
  assert (Hheal : exists m1 pg1, (if negb (is_pgtable pg) && negb (is_reserved pg) then
      if refcount pg =? 0 then mret false else set_flag (pfn_to_page m p) PGTABLE;; set_owner (pfn_to_page m p) Pgtable;; mret true
      else mret true) m = Ret (true, m1) /\ mem_ok m1 B /\ only (eq p) m m1 /\ pages m1 !! pfn_to_page m p = Some pg1 /\
      refcount pg1 = refcount pg /\ private pg1 = private pg).
  { destruct (negb _ && negb _); [|exists m, pg; split; [done|]; split; [done|]; split; [apply only_refl|done]].
    destruct (Z.eqb_spec (refcount pg) 0); [lia|]. unfold set_flag, set_owner.
    destruct (Hstep m pg (set_flag_pure PGTABLE) Hok (only_refl _ _) Hpg) as (m1 & R1 & Hok1 & Hon1 & G1);
      [rewrite is_buddy_set_flag; by rewrite orb_false_r|done|].
    destruct (Hstep m1 _ (with_owner (owner_raw Pgtable)) Hok1 Hon1 G1) as (m2 & R2 & Hok2 & Hon2 & G2); [done|done|].
    rewrite (kbind_ret _ _ _ _ _ R1), (kbind_ret _ _ _ _ _ R2). by eexists m2, _. }
  destruct Hheal as (m1 & pg1 & R1 & Hok1 & Hon1 & G1 & Hr1 & Hv1). rewrite (kbind_ret _ _ _ _ _ R1). cbn [negb].
  rewrite (kbind_ret _ _ _ _ _ (get_page_ok _ _ _ G1)). set (b := is_pgtable pg1 && _ && _ && _).
  assert (Hown : exists m2 pg2, when b (set_owner (pfn_to_page m p) Pgtable) m1 = Ret (tt, m2) /\ mem_ok m2 B /\ only (eq p) m m2 /\
    pages m2 !! pfn_to_page m p = Some pg2 /\ refcount pg2 = refcount pg /\ private pg2 = private pg).
  { destruct b; cbn [when]; [|by exists m1, pg1].
    destruct (Hstep m1 pg1 (with_owner (owner_raw Pgtable)) Hok1 Hon1 G1) as (m2 & R2 & Hok2 & Hon2 & G2); [done|done|]. by eexists m2, _. }
  destruct Hown as (m2 & pg2 & R2 & Hok2 & Hon2 & G2 & Hr2 & Hv2). rewrite (bind_when _ _ _ m1 m2 R2).
  rewrite (kbind_ret _ _ _ _ _ (get_page_ok _ _ _ G2)), Hr2. destruct (Z.eqb_spec (refcount pg) 0); [lia|].
  destruct (Hstep m2 pg2 (with_refcount (refcount pg2 - 1)) Hok2 Hon2 G2) as (m3 & R3 & Hok3 & Hon3 & G3); [done|done|].
  assert (Hput : try_put (pfn_to_page m p) m2 = Ret (Ok (refcount pg2 - 1), m3)).
  { unfold try_put. rewrite (kbind_ret _ _ _ _ _ (get_page_ok _ _ _ G2)). destruct (Z.eqb_spec (refcount pg2) 0); [lia|].
    by rewrite (kbind_ret _ _ _ _ _ R3). }
  exists m3. split.
  { destruct (is_reserved pg2); [by rewrite (kbind_ret _ _ _ _ _ Hput)|]. unfold free_page, free_pages. change (MAX_ORDER <=? 0) with false. cbv iota.
    rewrite (kbind_ret _ _ _ _ _ Hput). destruct (Z.ltb_spec 0 (refcount pg2 - 1)); [done|lia]. }
  split; [done|]. split; [apply Hon3|]. split; [apply Hon3|].
  eapply (counts_plus_one m m3 p pg _ (-1) Hon3 Hpg G3); [cbn; lia|done].
Qed.

Section Adopt.
Context (apic src dst : Z) (B : gmap Z Block).
Hypothesis Hsrc : table_addr src.
Hypothesis Hdst : table_addr dst.
Hypothesis Hne : src <> dst.

(** The entries may be adopted: no table that a replaced entry led to or leads to is a free
    page; the tables that lose references are no copies of others and keep at least one
    reference, and no count overflows. *)
Definition table_free (m : Mem) (e : Z) : Prop :=
  entry_references_lower_table e = true -> phys_addr e / PAGE_SIZE < max_pfn m -> unmanaged B (phys_addr e / PAGE_SIZE).
Record adoptable (m : Mem) (idxs : list Z) : Prop := {
  ad_slot idx : idx ∈ idxs -> 0 <= idx < 512;
  ad_tables idx : idx ∈ idxs -> entry m dst idx <> entry m src idx -> table_free m (entry m src idx) /\ table_free m (entry m dst idx);
  ad_counts q pg : 0 <= q < max_pfn m -> pages m !! pfn_to_page m q = Some pg ->
    0 <= refcount pg /\ refcount pg + new_refs m src dst idxs q < 4294967296 /\
    (lost_refs m src dst idxs q = 0 \/ (lost_refs m src dst idxs q < refcount pg /\ private pg = 0))
}.

(** All other entries of all tables stay. *)
Definition adopted (m m' : Mem) (idxs : list Z) : Prop :=
  (forall idx, idx ∈ idxs -> entry m' dst idx = entry m src idx) /\
  (forall s j, table_addr s -> 0 <= j < 512 -> s <> dst \/ j ∉ idxs -> entry m' s j = entry m s j).

Definition moved_refs (m : Mem) (idx q : Z) : Z :=
  (if takes_ref m src dst idx q then 1 else 0) - (if drops_ref m src dst idx q then 1 else 0).

Lemma adopt_entry_ok m idx idxs :
  mem_ok m B -> adoptable m (idx :: idxs) ->
  exists m', adopt_entry apic src dst idx m = Ret (negb (entry m dst idx =? entry m src idx), m') /\ mem_ok m' B /\ frame m m' /\
    adopted m m' [idx] /\ counts_plus m m' (moved_refs m idx).
Proof.
  intros Hok [Hslot Htab Hcnt]. specialize (Hslot idx ltac:(set_solver)). specialize (Htab idx ltac:(set_solver)).
  assert (Hcnt' : forall q pg, 0 <= q < max_pfn m -> pages m !! pfn_to_page m q = Some pg ->
    0 <= refcount pg /\ refcount pg + (if takes_ref m src dst idx q then 1 else 0) < 4294967296 /\
    (drops_ref m src dst idx q = true -> 1 < refcount pg /\ private pg = 0)).
  { intros q pg Hq Hpg. destruct (Hcnt q pg Hq Hpg) as (H1 & H2 & H3). unfold new_refs, lost_refs in *. rewrite count_of_cons in H2, H3.
    pose proof (count_of_nonneg (fun i => takes_ref m src dst i q) idxs). pose proof (count_of_nonneg (fun i => drops_ref m src dst i q) idxs).
    split; [done|]. split; [lia|]. intros Hd. rewrite Hd in H3. destruct H3 as [?|[? ?]]; [lia|]. split; [lia|done]. }
  clear Hcnt. unfold adopt_entry, get_entry. unfold moved_refs, takes_ref, drops_ref in *. set (o := entry m dst idx) in *. set (e := entry m src idx) in *.
  rewrite (kbind_ret (gets _) _ m o m) by done. rewrite (kbind_ret (gets _) _ m e m) by done. destruct (Z.eqb_spec o e) as [Heq|Hoe]; cbn [negb andb] in *.
  { exists m. split; [done|]. split; [done|]. split; [done|]. split.
    - split; [|done]. intros i Hi. assert (i = idx) as -> by set_solver. exact Heq.
    - eapply counts_plus_ext; [|apply counts_plus_0]. intros q. lia. }
  destruct (Htab Hoe) as [He Ho].
  assert (Hrel : exists m1, when (entry_references_lower_table o) (release_table_page apic (phys_addr o)) m = Ret (tt, m1) /\ mem_ok m1 B /\ frame m m1 /\
    phys m1 = phys m /\ counts_plus m m1 (fun q => if entry_references_lower_table o && (phys_addr o / PAGE_SIZE =? q) then -1 else 0)).
  { destruct (entry_references_lower_table o) eqn:Hlo; cbn [when andb]; [|exists m; split; [done|]; split; [done|]; split; [done|]; split; [done|apply counts_plus_0]].
    apply (release_shared_table_ok apic m B); [done|apply frame_addr_phys|]. intros pg Hlt Hpg. split; [by apply Ho|].
    assert (Hp0 : 0 <= phys_addr o / PAGE_SIZE) by (apply Z.div_pos; [apply (frame_addr_phys o)|done]).
    destruct (Hcnt' _ pg (conj Hp0 Hlt) Hpg) as (_ & _ & Hd). cbn [andb] in Hd. rewrite Z.eqb_refl in Hd. destruct (Hd eq_refl). done. }
  destruct Hrel as (m1 & R1 & Hok1 & F1 & Hph1 & Hc1). rewrite (bind_when _ _ _ m m1 R1).
  assert (Hret : exists m2, when (entry_references_lower_table e) (retain_table_page_ref (phys_addr e)) m1 = Ret (tt, m2) /\ mem_ok m2 B /\ frame m1 m2 /\
    phys m2 = phys m1 /\ counts_plus m1 m2 (fun q => if entry_references_lower_table e && (phys_addr e / PAGE_SIZE =? q) then 1 else 0)).
  { destruct (entry_references_lower_table e) eqn:Hle; cbn [when andb]; [|exists m1; split; [done|]; split; [done|]; split; [done|]; split; [done|apply counts_plus_0]].
    apply (retain_table_page_ref_ok m1 B); [done|apply frame_addr_phys|]. intros pg1 Hlt Hpg1. rewrite (fr_max _ _ F1) in Hlt. split; [by apply He|].
    assert (Hp0 : 0 <= phys_addr e / PAGE_SIZE) by (apply Z.div_pos; [apply (frame_addr_phys e)|done]). pose proof Hok as [L Hphys].
    destruct (ok_pages _ _ _ Hphys _ (conj Hp0 Hlt)) as (pg & Hpg & _). destruct (Hc1 _ pg (conj Hp0 Hlt) Hpg) as (pg' & Hpg' & Hr & _).
    rewrite (frame_pfn_to_page m m1) in Hpg1 by done. rewrite Hpg' in Hpg1. injection Hpg1 as <-. rewrite Hr.
    destruct (Hcnt' _ pg (conj Hp0 Hlt) Hpg) as (H1 & H2 & H3). cbn [andb] in H2. rewrite Z.eqb_refl in H2.
    destruct (entry_references_lower_table o && (phys_addr o / PAGE_SIZE =? phys_addr e / PAGE_SIZE)); [destruct (H3 eq_refl)|]; lia. }
  destruct Hret as (m2 & R2 & Hok2 & F2 & Hph2 & Hc2). rewrite (bind_when _ _ _ m1 m2 R2). unfold set_entry. set (m3 := store_entry dst idx e m2).
  rewrite (kbind_ret (modify _) _ m2 tt m3) by done. exists m3. split; [done|]. split; [by apply mem_ok_phys|]. split; [transitivity m1; [done|]; transitivity m2; [done|by split]|].
  assert (Hent : forall s j, entry m2 s j = entry m s j) by (intros s j; unfold entry; by rewrite Hph2, Hph1). split.
  - split.
    + intros i Hi. assert (i = idx) as -> by set_solver. apply entry_store_eq. apply in_u64_entry.
    + intros s j Hs Hj Hor. unfold m3. rewrite entry_store_ne; [apply Hent|done|done|done|done|]. intros [= <- <-]. set_solver.
  - eapply counts_plus_ext; [|exact (counts_plus_trans m m1 m2 _ _ F1 Hc1 Hc2)]. intros q. cbn beta.
    destruct (entry_references_lower_table o && _), (entry_references_lower_table e && _); lia.
Qed.

Lemma adopted_cons m m1 m' idx idxs : idx ∉ idxs -> (forall i, i ∈ idxs -> 0 <= i < 512) -> 0 <= idx < 512 ->
  adopted m m1 [idx] -> adopted m1 m' idxs -> adopted m m' (idx :: idxs).
Proof.
  intros Hn Hb Hi [E1 O1] [E2 O2]. split.
  - intros j [->|Hj]%elem_of_cons.
    + rewrite O2 by (done || by right). apply E1. set_solver.
    + rewrite E2 by done. apply O1; [done|by apply Hb|]. by left.
  - intros s j Hs Hj Hor. rewrite O2; [apply O1|..]; try done; destruct Hor; try (by left); right; set_solver.
Qed.

(** What is left to adopt after the first entry. *)
Lemma refs_after m m1 idxs q :
  (forall j, j ∈ idxs -> entry m1 dst j = entry m dst j /\ entry m1 src j = entry m src j) ->
  new_refs m1 src dst idxs q = new_refs m src dst idxs q /\ lost_refs m1 src dst idxs q = lost_refs m src dst idxs q.
Proof.
  intros Hs. split; apply count_of_in; intros j Hj; destruct (Hs j Hj) as [E1 E2]; unfold takes_ref, drops_ref; by rewrite E1, E2.
Qed.

Lemma adoptable_tail m m1 idx idxs :
  mem_ok m B -> frame m m1 -> (forall j, j ∈ idxs -> entry m1 dst j = entry m dst j /\ entry m1 src j = entry m src j) ->
  counts_plus m m1 (moved_refs m idx) -> adoptable m (idx :: idxs) -> adoptable m1 idxs.
Proof.
  intros [L Hphys] F Hs Hc [Hslot Htab Hcnt]. split.
  - intros j Hj. apply Hslot. set_solver.
  - intros j Hj. destruct (Hs j Hj) as [-> ->]. unfold table_free. rewrite (fr_max _ _ F). apply Htab. set_solver.
  - intros q pg1 Hq Hpg1. rewrite (fr_max _ _ F) in Hq. rewrite (frame_pfn_to_page m m1) in Hpg1 by done.
    destruct (ok_pages _ _ _ Hphys q Hq) as (pg & Hpg & _). destruct (Hc q pg Hq Hpg) as (pg' & Hpg' & Hr & Hv). rewrite Hpg1 in Hpg'. injection Hpg' as <-.
    destruct (refs_after m m1 idxs q Hs) as [-> ->]. destruct (Hcnt q pg Hq Hpg) as (H1 & H2 & H3). unfold new_refs, lost_refs, moved_refs in *.
    rewrite count_of_cons in H2, H3. rewrite Hr, Hv. pose proof (count_of_nonneg (fun i => drops_ref m src dst i q) idxs).
    destruct (takes_ref m src dst idx q), (drops_ref m src dst idx q); lia.
Qed.

Lemma adopt_entries_ok idxs m :
  mem_ok m B -> NoDup idxs -> adoptable m idxs ->
  exists m' ch, adopt_entries apic src dst idxs m = Ret (ch, m') /\ mem_ok m' B /\ frame m m' /\ adopted m m' idxs /\
    counts_plus m m' (fun q => new_refs m src dst idxs q - lost_refs m src dst idxs q) /\
    (ch = true <-> exists idx, idx ∈ idxs /\ entry m dst idx <> entry m src idx).
Proof.
  revert m. induction idxs as [|idx idxs IH]; intros m Hok Hnd Had.
  { exists m, false. split; [done|]. split; [done|]. split; [done|]. split; [by split; [intros ? []%elem_of_nil|]|]. split.
    - eapply counts_plus_ext; [|apply counts_plus_0]. done.
    - split; [done|]. by intros (? & []%elem_of_nil & _). }
  apply NoDup_cons in Hnd as [Hn Hnd]. cbn [adopt_entries]. pose proof (ad_slot _ _ Had) as Hb.
  destruct (adopt_entry_ok m idx idxs Hok Had) as (m1 & R1 & Hok1 & F1 & Had1 & Hc1). rewrite (kbind_ret _ _ _ _ _ R1).
  assert (Hsame : forall j, j ∈ idxs -> entry m1 dst j = entry m dst j /\ entry m1 src j = entry m src j).
  { intros j Hj. pose proof (Hb j ltac:(set_solver)). split; apply Had1; try done; [right; set_solver|by left]. }
  destruct (IH m1 Hok1 Hnd (adoptable_tail m m1 idx idxs Hok F1 Hsame Hc1 Had)) as (m' & ch & R & Hok' & F' & Had' & Hc' & Hch).
  rewrite (kbind_ret _ _ _ _ _ R). eexists m', _. split; [done|]. split; [done|]. split; [by transitivity m1|]. split; [|split].
  - apply (adopted_cons m m1); try done; [|apply Hb; set_solver]. intros i Hin. apply Hb. set_solver.
  - eapply counts_plus_ext; [|exact (counts_plus_trans m m1 m' _ _ F1 Hc1 Hc')]. intros q. cbn beta.
    destruct (refs_after m m1 idxs q Hsame) as [-> ->]. unfold new_refs, lost_refs, moved_refs. rewrite !count_of_cons. lia.
  - rewrite orb_true_iff, Hch. split.
    + intros [Hx|(j & Hj & Hx)].
      * exists idx. split; [set_solver|]. by destruct (Z.eqb_spec (entry m dst idx) (entry m src idx)).
      * exists j. destruct (Hsame j Hj) as [<- <-]. split; [set_solver|done].
    + intros (j & [->|Hj]%elem_of_cons & Hx); [left; by destruct (Z.eqb_spec (entry m dst idx) (entry m src idx))|].
      right. exists j. destruct (Hsame j Hj) as [-> ->]. done.
Qed.
End Adopt.

Lemma kernel_slots_index lv idx : idx ∈ kernel_slots lv <-> level_index KERNEL_BASE lv <= idx < 512.
Proof. apply elem_of_zrange. Qed.

(** An address of the kernel half, for [lv] levels. *)
Definition kernel_half (lv w : Z) : Prop := level_index KERNEL_BASE lv <= level_index w lv.

Lemma walk_levels_head lv : lv = 4 \/ lv = 5 -> exists ls', walk_levels lv = lv :: ls'.
Proof. intros [->| ->]; [exists [3; 2]|exists [4; 3; 2]]; done. Qed.

(** Both copies of the kernel half start from the same entries. *)
Lemma adopted_kernel_half lv src dst m m' w :
  lv = 4 \/ lv = 5 -> table_addr src -> src <> dst -> adopted src dst m m' (kernel_slots lv) -> kernel_half lv w ->
  translate_loop (walk_levels lv) w dst m' = translate_loop (walk_levels lv) w src m'.
Proof.
  intros Hlv Hs Hne [Hin Hout] Hw. destruct (walk_levels_head lv Hlv) as [ls' ->]. cbn [translate_loop].
  pose proof (level_index_range w lv). rewrite (Hin (level_index w lv)) by (apply kernel_slots_index; unfold kernel_half in Hw; lia).
  by rewrite (Hout src) by (done || by left).
Qed.

(** Address spaces whose tables do not include the changed root are not affected. *)
Lemma adopted_other lv src dst root m m' w :
  tree_ok (walk_levels lv) root m -> (forall k, tbl (walk_levels lv) root m k w <> Some dst) -> adopted src dst m m' (kernel_slots lv) ->
  view (walk_levels lv) root m' w = view (walk_levels lv) root m w.
Proof.
  intros Ht Hn [_ Hout]. unfold view. rewrite (translate_ext (walk_levels lv) root m m' w); [done|]. intros k s l Hs _.
  apply Hout; [by apply (tr_table _ _ _ Ht k w)|apply level_index_range|]. left. intros ->. by apply (Hn k).
Qed.
Lemma adopted_user_half lv src dst m m' w :
  lv = 4 \/ lv = 5 -> tree_ok (walk_levels lv) dst m -> adopted src dst m m' (kernel_slots lv) -> ~ kernel_half lv w ->
  view (walk_levels lv) dst m' w = view (walk_levels lv) dst m w.
Proof.
  intros Hlv Ht [_ Hout] Hw. unfold view. rewrite (translate_ext (walk_levels lv) dst m m' w); [done|]. intros k s l Hs Hl.
  apply Hout; [by apply (tr_table _ _ _ Ht k w)|apply level_index_range|]. destruct k as [|k].
  - right. injection Hs as <-. destruct (walk_levels_head lv Hlv) as [ls' E]. unfold level_at in Hl. rewrite E in Hl. injection Hl as <-.
    rewrite kernel_slots_index. unfold kernel_half in Hw. lia.
  - left. intros ->. by destruct (tr_inj _ _ _ Ht (S k) 0 w w dst Hs eq_refl).
Qed.

(** C9. A new address space and the synchronisation of an old one take over the kernel half:
    afterwards both spaces map every kernel address alike, the user half of the space and
    everything the source maps stay as they were, and [sync] reports whether an entry
    changed.  Every table gains one reference for each replaced entry that now leads to it
    and loses one for each replaced entry that led to it before, so that an entry of which
    only the flags change costs nothing.  The tables are not free pages, no count overflows,
    and a table that loses references is no private copy of another and keeps at least one
    reference, as the kernel's own tables do: the last reference would free it.  Both roots
    head well-formed trees, and the root that changes is no table of the source. *)
Theorem kernel_half_is_shared apic lv src dst m B :
  lv = 4 \/ lv = 5 -> frame_addr src -> frame_addr dst -> src <> 0 -> dst <> 0 -> src <> dst -> mem_ok m B ->
  adoptable src dst B m (kernel_slots lv) ->
  tree_ok (walk_levels lv) src m -> tree_ok (walk_levels lv) dst m -> (forall k w, tbl (walk_levels lv) src m k w <> Some dst) ->
  exists m' ch, clone_kernel_root_entries_with_refs apic lv src dst m = Ret (tt, m') /\
    sync_kernel_root_entries_from_init apic lv src dst m = Ret (ch, m') /\ mem_ok m' B /\
    (forall w, kernel_half lv w -> view (walk_levels lv) dst m' w = view (walk_levels lv) src m w) /\
    (forall w, ~ kernel_half lv w -> view (walk_levels lv) dst m' w = view (walk_levels lv) dst m w) /\
    (forall w, view (walk_levels lv) src m' w = view (walk_levels lv) src m w) /\
    counts_plus m m' (fun q => new_refs m src dst (kernel_slots lv) q - lost_refs m src dst (kernel_slots lv) q) /\
    (ch = true <-> exists idx, idx ∈ kernel_slots lv /\ entry m dst idx <> entry m src idx).
Proof.
  intros Hlv Hs Hd Hs0 Hd0 Hne Hok Had Hts Htd Hapart. pose proof (proj1 Hs) as Hsa. pose proof (proj1 Hd) as Hda.
  assert (Hnd : NoDup (kernel_slots lv)) by apply NoDup_seqZ.
  destruct (adopt_entries_ok apic src dst B Hsa Hda Hne (kernel_slots lv) m Hok Hnd Had) as (m' & ch & R & Hok' & F & Hadopt & Hc & Hch).
  exists m', ch. unfold clone_kernel_root_entries_with_refs, sync_kernel_root_entries_from_init. rewrite !(frame_addr_mask src), !(frame_addr_mask dst) by done.
  destruct (Z.eqb_spec src 0); [done|]. destruct (Z.eqb_spec dst 0); [done|]. destruct (Z.eqb_spec dst src); [congruence|]. cbn [orb].
  rewrite (kbind_ret _ _ _ _ _ R), R. split; [done|]. split; [done|]. split; [done|].
  assert (Hsrc : forall w, view (walk_levels lv) src m' w = view (walk_levels lv) src m w) by (intros w; by eapply adopted_other).
  split; [|split; [|done]].
  - intros w Hw. rewrite <- Hsrc. unfold view. by rewrite (adopted_kernel_half lv src dst m).
  - intros w Hw. by eapply adopted_user_half.
Qed.

(** ** A small address space: four levels, nothing mapped, on the small machine *)
Definition ex_start : Z * Mem :=
  match alloc_zeroed_table_phys ex_mem with Ret (Some t, m) => (t, m) | _ => (0, ex_mem) end.
Definition ex_space : Mem := snd ex_start.
Definition ex_self : PageTableManager := new_with_layout (fst ex_start) 0 4 48.

(** The mapping of the page at [0x400000] to a frame outside the managed memory. *)
Definition ex_virt : Z := 0x400000.
Definition ex_mapped : Mem :=
  match map_page 0 ex_self ex_virt 0x200000 7 ex_space with Ret (_, m) => m | _ => ex_space end.

(** A new root maps nothing and is an address space. *)
Lemma fresh_space_tbl p m B m' B' k w :
  new_table m B p m' B' -> tbl (walk_levels 4) (p * PAGE_SIZE) m' k w = if decide (k = O) then Some (p * PAGE_SIZE) else None.
Proof.
  intros Hnt. induction k as [|k IH]; [done|]. cbn [tbl]. rewrite IH. destruct k as [|k]; [|done].
  rewrite decide_True, decide_False by done. change (walk_levels 4 !! O) with (Some 4). cbv beta iota.
  by rewrite (new_table_entry m B p m' B' Hnt), decide_True by (done || apply table_of_page || apply level_index_range).
Qed.
Lemma fresh_space_root p m B m' B' k w t : new_table m B p m' B' -> tbl (walk_levels 4) (p * PAGE_SIZE) m' k w = Some t -> t = p * PAGE_SIZE.
Proof. intros Hnt. rewrite (fresh_space_tbl p m B m' B' k w Hnt). case_decide; congruence. Qed.
Lemma fresh_space_ok p m B m' B' :
  new_table m B p m' B' -> pcp_fine m -> max_pfn m * PAGE_SIZE <= 2 ^ 52 -> manager_ok (new_with_layout (p * PAGE_SIZE) 0 4 48) m' B'.
Proof.
  intros Hnt Hfine Hmax. split; [by left|]. change (levels _) with (walk_levels 4). change (root_phys _) with (p * PAGE_SIZE).
  pose proof (nt_takes _ _ _ _ _ Hnt) as Htk. pose proof (fun k w => fresh_space_tbl p m B m' B' k w Hnt) as E. split.
  - apply Htk.
  - apply (pcp_fine_same m); [apply Htk|apply Hnt|done].
  - by rewrite (fr_max _ _ (tk_frame _ _ _ _ _ _ Htk)).
  - split.
    + intros n w t. rewrite E. case_decide; [|done]. intros [= <-]. apply table_of_page.
    + intros n n' w w' t. rewrite !E. case_decide as H1; [|done]. case_decide as H2; [|done]. intros _ _. subst. split; [done|]. intros k l Hk. lia.
    + intros n w t l. rewrite E. case_decide as H1; [|done]. intros [= <-] _ _.
      by rewrite (new_table_entry m B p m' B' Hnt), decide_True by (done || apply table_of_page || apply level_index_range).
  - intros n w t. rewrite E. case_decide; [|done]. intros [= <-]. split; [apply table_of_page|]. left. rewrite page_of_table. apply (tk_new _ _ _ _ _ _ Htk).
Qed.

Lemma fresh_space_unmapped p m B m' B' w : new_table m B p m' B' -> mapping (new_with_layout (p * PAGE_SIZE) 0 4 48) m' w = None.
Proof.
  intros Hnt. unfold mapping, view. change (levels _) with (4 :: [3; 2]). change (root_phys _) with (p * PAGE_SIZE). cbn [translate_loop].
  by rewrite (new_table_entry m B p m' B' Hnt), decide_True by (done || apply table_of_page || apply level_index_range).
Qed.
(** No table is on the way to any address yet. *)
Lemma fresh_space_way p m B m' B' v : new_table m B p m' B' -> own_way (walk_levels 4) (p * PAGE_SIZE) m' B' v.
Proof.
  intros Hnt k t. rewrite (fresh_space_tbl p m B m' B' k v Hnt). case_decide as Hk; [|done]. intros [= <-]. split; [lia|]. intros l Hl. cbn zeta.
  by rewrite (new_table_entry m B p m' B' Hnt), decide_True by (done || apply table_of_page || apply level_index_range).
Qed.

Lemma ex_fine : pcp_fine ex_mem.
Proof. intros _. split; [apply ex_quiet|]. vm_compute. done. Qed.

Lemma ex_start_ok : exists p B, new_table ex_mem ex_blocks p ex_space B /\ fst ex_start = p * PAGE_SIZE.
Proof.
  destruct (alloc_zeroed_table_phys_ok ex_mem ex_blocks (proj1 ex_mem_ok)) as [R|(p & m & B & R & Hnt)].
  - assert (Hc : match alloc_zeroed_table_phys ex_mem with Ret (Some _, _) => true | _ => false end = true) by (vm_compute; reflexivity).
    by rewrite R in Hc.
  - exists p, B. unfold ex_space, ex_start. rewrite R. split; [exact Hnt|reflexivity].
Qed.
Lemma ex_space_ok : exists B, manager_ok ex_self ex_space B.
Proof.
  destruct ex_start_ok as (p & B & Hnt & E). exists B. unfold ex_self. rewrite E.
  apply (fresh_space_ok p ex_mem ex_blocks); [done|apply ex_fine|]. vm_compute. discriminate.
Qed.
Lemma ex_unmapped w : mapping ex_self ex_space w = None.
Proof.
  destruct ex_start_ok as (p & B & Hnt & E). unfold ex_self. rewrite E. exact (fresh_space_unmapped p _ _ _ _ w Hnt).
Qed.
Lemma ex_frame : frame_addr 0x200000 /\ page_flags 7.
Proof. split; [split; [by exists 512|lia]|]. split; [unfold in_u64; lia|done]. Qed.

Lemma map_page_maps_exactly_one_page_witness :
  exists m' B', map_page 0 ex_self ex_virt 0x200000 7 ex_space = Ret ((true, FlushLocal ex_virt), m') /\ manager_ok ex_self m' B' /\
    mapping ex_self m' ex_virt = Some (0x200000, 7).
Proof.
  destruct ex_space_ok as [B Hok].
  destruct (map_page_maps_exactly_one_page 0 ex_self ex_space B ex_virt 0x200000 7 Hok ltac:(lia) (proj1 ex_frame) (proj2 ex_frame))
    as (ok & fsh & m' & B' & R & Hok' & _ & _ & _ & _ & Hres).
  { intros pa f Hm. rewrite ex_unmapped in Hm. discriminate. }
  assert (Hc : match map_page 0 ex_self ex_virt 0x200000 7 ex_space with Ret ((ok, _), _) => ok | _ => false end = true) by (vm_compute; reflexivity).
  rewrite R in Hc. subst ok. destruct Hres as [Hmap Hfsh]. rewrite ex_unmapped in Hfsh. exists m', B'. rewrite R, Hfsh. split; [reflexivity|].
  split; [exact Hok'|]. rewrite Hmap. rewrite decide_True; [reflexivity|]. apply agree_refl.
Defined.

(** The tables that the mapping added are pages of their own. *)
Definition ex_private (k : nat) : bool :=
  match tbl (levels ex_self) (root_phys ex_self) ex_mapped k ex_virt with
  | Some t => match pages ex_mapped !! pfn_to_page ex_mapped (t / PAGE_SIZE) with Some pg => private pg =? 0 | None => false end
  | None => true
  end.
Lemma ex_mapped_ok : exists B, manager_ok ex_self ex_mapped B /\ own_tables (levels ex_self) (root_phys ex_self) ex_virt ex_mapped B.
Proof.
  destruct ex_space_ok as [B Hok].
  destruct (map_page_ok 0 ex_self ex_space B ex_virt 0x200000 7 Hok ltac:(lia) (proj1 ex_frame) (proj2 ex_frame)) as (ok & fsh & m' & B' & R & Hok' & _ & Htab & _).
  { intros pa f Hm. by rewrite ex_unmapped in Hm. }
  assert (ex_mapped = m') as E by (unfold ex_mapped; by rewrite R). exists B'. rewrite E. split; [done|]. intros k t Hk Ht.
  pose proof (so_tree _ _ _ _ (proj2 Hok')) as Htree. split.
  - destruct (Htab k ex_virt t Ht) as [(k' & w' & Hold)|[_ Hx]]; [|exact Hx]. exfalso. destruct ex_start_ok as (p & B0 & Hnt & Er).
    assert (Hroot : root_phys ex_self = p * PAGE_SIZE) by (unfold ex_self; cbn; exact Er). rewrite Hroot in *.
    change (levels ex_self) with (walk_levels 4) in *. rewrite (fresh_space_root p _ _ _ _ k' w' t Hnt Hold) in *.
    destruct (tr_inj _ _ _ Htree k 0 ex_virt ex_virt _ Ht eq_refl). lia.
  - assert (Hall : forallb ex_private [1; 2; 3]%nat = true) by (vm_compute; reflexivity). pose proof (tbl_depth _ _ _ _ _ _ Ht) as Hd.
    change (length (levels ex_self)) with 3%nat in Hd. rewrite forallb_forall in Hall.
    assert (Hin : ex_private k = true) by (apply Hall; cbn; lia). unfold ex_private in Hin. rewrite E, Ht in Hin.
    destruct (pages m' !! _) as [pg|]; [|done]. exists pg. split; [done|]. by apply Z.eqb_eq in Hin.
Qed.


(** ** Two roots: the kernel's, with one table in its last slot, and an empty one *)
Definition ex_pair (m : Mem) : Mem := store_entry 0x1000 511 (pte_new 0x3000 3) (set_phys m (fun _ => 0)).
Definition ex_taken : Mem := match alloc_pages 2 0 ex_mem with Ret (_, m) => m | _ => ex_mem end.

Lemma ex_pair_entry m t i :
  table_addr t -> 0 <= i < 512 -> entry (ex_pair m) t i = if decide (t = 0x1000 /\ i = 511) then 0x3003 else 0.
Proof.
  intros Ht Hi. unfold ex_pair. case_decide as H.
  - destruct H as [-> ->]. by apply entry_store_eq.
  - rewrite entry_store_ne; [|by exists 1|done|lia|lia|intros [= <- <-]; by apply H].
    unfold entry, read64. change (zrange 0 8) with [0; 1; 2; 3; 4; 5; 6; 7]. reflexivity.
Qed.
Lemma ex_pair_tbl m k w t :
  tbl (walk_levels 4) 0x1000 (ex_pair m) k w = Some t ->
  (k = O /\ t = 0x1000) \/ (k = 1%nat /\ t = 0x3000 /\ level_index w 4 = 511).
Proof.
  revert t. induction k as [|k IH]; intros t; cbn [tbl]; [intros [= <-]; by left|]. destruct (tbl _ _ _ k w) as [s|] eqn:Hs; [|done].
  specialize (IH s eq_refl). destruct (walk_levels 4 !! k) as [l|] eqn:Hl; [|done]. pose proof (level_index_range w l) as Hr.
  destruct IH as [[-> ->]|(-> & -> & Hw)].
  - injection Hl as <-. rewrite ex_pair_entry by (by exists 1 || lia). case_decide as H; [|done]. intros [= <-]. right. split; [done|]. split; [done|exact (proj2 H)].
  - rewrite ex_pair_entry by (by exists 3 || lia). rewrite decide_False by lia. done.
Qed.
Lemma ex_pair_tbl2 m k w t : tbl (walk_levels 4) 0x2000 (ex_pair m) k w = Some t -> k = O /\ t = 0x2000.
Proof.
  revert t. induction k as [|k IH]; intros t; cbn [tbl]; [by intros [= <-]|]. destruct (tbl _ _ _ k w) as [s|] eqn:Hs; [|done].
  destruct (IH s eq_refl) as [-> ->]. change (walk_levels 4 !! O) with (Some 4). cbv beta iota.
  rewrite ex_pair_entry by (by exists 2 || apply level_index_range). rewrite decide_False by lia. done.
Qed.
Lemma ex_pair_trees m : tree_ok (walk_levels 4) 0x1000 (ex_pair m) /\ tree_ok (walk_levels 4) 0x2000 (ex_pair m).
Proof.
  split; split.
  - intros k w t [[_ ->]|(_ & -> & _)]%ex_pair_tbl; [by exists 1|by exists 3].
  - intros k k' w w' t [[-> ->]|(-> & -> & Hw)]%ex_pair_tbl [[-> Ht]|(-> & Ht & Hw')]%ex_pair_tbl; try done.
    + split; [done|]. intros ? ? ?. lia.
    + split; [done|]. intros [|j] l Hj Hl; [|lia]. change (Some 4 = Some l) in Hl. injection Hl as <-. congruence.
  - intros k w t l Ht Hl Hor Hh. exfalso. revert Ht Hh.
    intros [[-> ->]|(-> & -> & Hw)]%ex_pair_tbl; injection Hl as <-; [lia|].
    rewrite ex_pair_entry by (by exists 3 || apply level_index_range). by rewrite decide_False by lia.
  - intros k w t [_ ->]%ex_pair_tbl2. by exists 2.
  - intros k k' w w' t [-> _]%ex_pair_tbl2 [-> _]%ex_pair_tbl2. split; [done|]. intros ? ? ?. lia.
  - intros k w t l [-> ->]%ex_pair_tbl2 Hl Hor. injection Hl as <-. lia.
Qed.

Lemma ex_taken_ok : exists B, mem_ok (ex_pair ex_taken) B /\ unmanaged B 3.
Proof.
  destruct (alloc_pages_ok ex_mem ex_blocks 2 0 (proj1 ex_mem_ok) ltac:(unfold MAX_ORDER; lia)) as [[_ H]|(z & hi & p & m' & R & _ & Hal & _)].
  - exfalso. exact (ex_has_block 0 2 ltac:(lia) H).
  - destruct Hal as (_ & Hb & Hz & Htk & _). pose proof Htk as [Hok Hnew _ _ _ _ _]. unfold ex_taken. rewrite R. eexists. split; [by apply mem_ok_phys, mem_ok_phys|].
    unfold ex_blocks in Hb. apply lookup_singleton_Some in Hb as [<- _]. intros k o Hk. destruct Hok as [L Hphys].
    rewrite (no_block_inside _ _ 0 (mkBlock InUse 2) 3 (ok_blocks _ _ _ Hphys)) in Hk; [done|exact Hnew|cbn; lia].
Qed.
Definition small_counts (m : Mem) : bool :=
  forallb (fun q => match pages m !! pfn_to_page m q with Some pg => (0 <=? refcount pg) && (refcount pg <? 4294966000) | None => true end)
    (zrange 0 (max_pfn m)).
Lemma count_of_false f l : (forall i, i ∈ l -> f i = false) -> count_of f l = 0.
Proof. intros H. rewrite (count_of_in f (fun _ => false)) by done. unfold count_of. by induction l as [|x l IH]; [|apply IH; intros i Hi; apply H; set_solver]. Qed.
Lemma count_of_le f l : count_of f l <= Z.of_nat (length l).
Proof. induction l as [|x l IH]; [done|]. rewrite count_of_cons. cbn [length]. destruct (f x); lia. Qed.
Lemma ex_pair_adoptable m B : unmanaged B 3 -> small_counts m = true -> adoptable 0x1000 0x2000 B (ex_pair m) (kernel_slots 4).
Proof.
  intros Hun Hsm.
  assert (Hdst : forall idx, idx ∈ kernel_slots 4 -> 0 <= idx < 512 /\ entry (ex_pair m) 0x2000 idx = 0).
  { intros idx Hi%kernel_slots_index. change (level_index KERNEL_BASE 4) with 256 in Hi. split; [lia|].
    rewrite ex_pair_entry by ((by exists 2) || lia). by rewrite decide_False by lia. }
  split.
  - intros idx Hi. by apply Hdst.
  - intros idx Hi _. destruct (Hdst idx Hi) as [Hb ->]. split; [|done]. unfold table_free.
    rewrite ex_pair_entry by ((by exists 1) || lia). case_decide; [intros _ _; exact Hun|discriminate].
  - intros q pg Hq Hpg. unfold small_counts in Hsm. rewrite forallb_forall in Hsm. specialize (Hsm q).
    change (pages (ex_pair m) !! pfn_to_page (ex_pair m) q) with (pages m !! pfn_to_page m q) in Hpg. rewrite Hpg in Hsm.
    rewrite andb_true_iff, Z.leb_le, Z.ltb_lt in Hsm. specialize (Hsm ltac:(apply list_elem_of_In, elem_of_zrange; exact Hq)).
    pose proof (count_of_le (fun idx => takes_ref (ex_pair m) 0x1000 0x2000 idx q) (kernel_slots 4)) as Hle.
    change (length (kernel_slots 4)) with 256%nat in Hle. split; [lia|]. split; [unfold new_refs; lia|]. left.
    apply count_of_false. intros i Hi. unfold drops_ref. destruct (Hdst i Hi) as [_ ->]. by rewrite andb_false_r.
Qed.
Lemma ex_pair_changes m : exists idx, idx ∈ kernel_slots 4 /\ entry (ex_pair m) 0x2000 idx <> entry (ex_pair m) 0x1000 idx.
Proof.
  exists 511. split; [apply kernel_slots_index; vm_compute; split; [discriminate|reflexivity]|].
  rewrite !ex_pair_entry by ((by exists 1) || (by exists 2) || lia). rewrite decide_False, decide_True by lia. lia.
Qed.
(** Slot 511 is taken over, and the page of its table has one more reference. *)
Lemma kernel_half_is_shared_witness :
  exists m', clone_kernel_root_entries_with_refs 0 4 0x1000 0x2000 (ex_pair ex_taken) = Ret (tt, m') /\
    sync_kernel_root_entries_from_init 0 4 0x1000 0x2000 (ex_pair ex_taken) = Ret (true, m') /\
    counts_plus (ex_pair ex_taken) m' (fun q => new_refs (ex_pair ex_taken) 0x1000 0x2000 (kernel_slots 4) q -
                                               lost_refs (ex_pair ex_taken) 0x1000 0x2000 (kernel_slots 4) q).
Proof.
  destruct ex_taken_ok as (B & Hok & Hun). destruct (ex_pair_trees ex_taken) as [T1 T2].
  pose proof (ex_pair_adoptable ex_taken B Hun ltac:(vm_compute; reflexivity)) as Had.
  destruct (kernel_half_is_shared 0 4 0x1000 0x2000 (ex_pair ex_taken) B (or_introl eq_refl)) as (m' & ch & R1 & R2 & _ & _ & _ & _ & Hc & Hch); try assumption.
  - split; [by exists 1|lia].
  - split; [by exists 2|lia].
  - lia.
  - lia.
  - lia.
  - intros k w [[_ ?]|(_ & ? & _)]%ex_pair_tbl; lia.
  - assert (ch = true) as ->.
    { apply Hch. exact (ex_pair_changes ex_taken). }
    exists m'. split; [exact R1|]. split; [exact R2|exact Hc].
Defined.

(** An entry that differs only in the accessed bit is replaced, and the count of its table
    stays. *)
Definition sync_accessed : Kern (bool * Z * Z) :=
  page ← gets (fun m => pfn_to_page m 3);
  page_get page;;
  page_get page;;
  set_entry 0x2000 511 (pte_new 0x3000 0x23);;
  before ← get_page page;
  changed ← sync_kernel_root_entries_from_init 0 4 0x1000 0x2000;
  after ← get_page page;
  mret (changed, refcount before, refcount after).
Example sync_accessed_keeps_the_count :
  match sync_accessed (ex_pair ex_taken) with Ret (x, _) => Some x | _ => None end = Some (true, 2, 2).
Proof. vm_compute. reflexivity. Qed.

(** ** Mapping over the identity map

    The first GiB is mapped to itself by one large entry, and the page at [pfn] is in use by
    somebody else, mapped once.  Mapping a user page at the address [pfn * 4096] splits the
    large entry, takes the piece at that address for a mapping that is replaced, and drops a
    reference to the frame that piece names: the other owner's page goes back to the free
    pages. *)
Definition map_over_identity : Kern (bool * Z * Z) :=
  r ← alloc_zeroed_table_phys;
  s ← alloc_zeroed_table_phys;
  t ← alloc_pages 0 GFP_KERNEL_ZERO;
  match r, s, t with
  | Some root, Some pdpt, Some page =>
      set_entry root 0 (pte_new pdpt (Z.lor PTE_PRESENT PTE_WRITABLE));;
      set_entry pdpt 0 (pte_new 0 (Z.lor (Z.lor PTE_PRESENT PTE_WRITABLE) PTE_HUGE));;
      inc_mapcount page;;
      before ← get_page page;
      pfn ← gets (fun m => page_to_pfn m page);
      '(ok, _) ← map_page 0 (new_with_layout root 0 4 48) (pfn * PAGE_SIZE) 0x200000 7;
      after ← get_page page;
      mret (ok, refcount before, refcount after)
  | _, _, _ => mret (false, 0, 0)
  end.

Example map_over_identity_frees_a_foreign_page :
  match map_over_identity ex_mem with Ret (x, _) => Some x | _ => None end = Some (true, 1, 0).
Proof. vm_compute. reflexivity. Qed.

(** ** Unmapping from a copy of a shared table

    The lowest table on the way to [0x400000] belongs to the kernel and is empty.  Mapping a
    user page there works on copies of the kernel's tables; meanwhile the kernel maps the
    next page in its own table.  Unmapping the user page leaves the copy empty: it is given
    back and the kernel's table is linked again, so the next page becomes visible. *)
Definition unmap_from_a_copy : Kern (list (option Z)) :=
  r ← alloc_zeroed_table_phys;
  match r with
  | Some root =>
      let self := new_with_layout root 0 4 48 in
      let kernel_entry := fun t => pte_new t (Z.lor PTE_PRESENT PTE_WRITABLE) in
      set_entry root 0 (kernel_entry 0x100000);;
      set_entry 0x100000 0 (kernel_entry 0x101000);;
      set_entry 0x101000 2 (kernel_entry 0x102000);;
      '(mapped, _) ← map_page 0 self 0x400000 0x200000 7;
      set_entry 0x102000 1 (kernel_entry 0x300000);;
      before ← gets (translate_addr self 0x400000);
      next_before ← gets (translate_addr self 0x401000);
      '(unmapped, _) ← unmap_page 0 self 0x400000;
      after ← gets (translate_addr self 0x400000);
      next_after ← gets (translate_addr self 0x401000);
      mret [before; next_before; after; next_after]
  | None => mret []
  end.

Example unmap_from_a_copy_restores_the_shared_table :
  match unmap_from_a_copy ex_mem with Ret (x, _) => Some x | _ => None end =
  Some [Some 0x200000; None; None; Some 0x300000].
Proof. vm_compute. reflexivity. Qed.
