(* ===== verification/Vmalloc.v ===== *)
(** * Virtually contiguous memory: kernel/src/mm/alloc/vmalloc.rs

    [vmalloc] reserves addresses in a window of the kernel half and maps single pages there,
    [ioremap] maps device memory.  The state is the two indexes of the areas (the red-black
    tree by address and the interval tree in which gaps are searched), the page tables and
    pages of [Mem], and the two root tables in force: that of the kernel's own address space
    and that of the processor.  Both trees are reached through their interfaces.

    An address is its number, null is 0.  [caller] (for diagnostics), the diagnostic output
    and the flushes of the translation caches are left out; each stretch of code under the
    lock is one step, the calls here run one after the other. *)

From S2P Require Import Prelude OrdMap MapleTree Page Zone Pcp Buddy PageEntry Paging.
#[local] Open Scope Z_scope.

(** ** Data *)
Definition VM_ALLOC : Z := 1.
Definition VM_INUSE : Z := 2.
Definition VM_USERMAP : Z := 4.
Definition VM_IOREMAP : Z := 8.
Definition VM_ALLOCATING : Z := 16.
Definition vm_contains (flags flag : Z) : bool := negb (Z.land flags flag =? 0).
Definition vm_set (flags flag : Z) : Z := Z.lor flags flag.
Definition vm_clear (flags flag : Z) : Z := Z.land flags (4294967295 - flag).

Record VmArea := mkArea { area_size : Z; area_phys_base : Z; area_flags : Z; area_nr_pages : Z }.

Record HealCounts := mkHeal { heal_ioremap : Z; heal_from_init : Z; heal_miss : Z; heal_fail : Z }.

Inductive RootMapOutcome := Unchanged | Mapped.

(** [VMALLOC_DATA], [VMALLOC_STATE] (the offset of the direct map, once set), the registers and
    the memory. *)
Record Vm (MA MS : Type) := mkVm {
  vm_mem : Mem; vm_areas : MA; vm_space : option MS; vm_state : option Z;
  vm_cr3 : Z; vm_init_pgd : Z; vm_heal : HealCounts
}.
Arguments mkVm {MA MS}.
Arguments vm_mem {MA MS}.
Arguments vm_areas {MA MS}.
Arguments vm_space {MA MS}.
Arguments vm_state {MA MS}.
Arguments vm_cr3 {MA MS}.
Arguments vm_init_pgd {MA MS}.
Arguments vm_heal {MA MS}.

(** ** Computations *)
Definition VmM (MA MS A : Type) : Type := Vm MA MS -> exec (A * Vm MA MS).
#[export] Instance vmm_ret MA MS : MRet (VmM MA MS) := fun A a s => Ret (a, s).
#[export] Instance vmm_bind MA MS : MBind (VmM MA MS) := fun A B f c s =>
  match c s with Ret (a, s') => f a s' | Panic => Panic | OutOfFuel => OutOfFuel end.

Section Vmalloc.
Context {MA MS : Type} `{!OrdMapOps MA VmArea} `{!OrdMapOps MS (RangeEntry unit)}.
(** The processor, the depth of the tables and the window. *)
Variables (apic page_levels va_bits vmalloc_start vmalloc_end : Z).
#[local] Abbreviation VM := (VmM MA MS).

Definition asks {A} (f : Vm MA MS -> A) : VM A := fun s => Ret (f s, s).
Definition with_mem (m : Mem) (s : Vm MA MS) : Vm MA MS :=
  mkVm m (vm_areas s) (vm_space s) (vm_state s) (vm_cr3 s) (vm_init_pgd s) (vm_heal s).
Definition with_areas (a : MA) (s : Vm MA MS) : Vm MA MS :=
  mkVm (vm_mem s) a (vm_space s) (vm_state s) (vm_cr3 s) (vm_init_pgd s) (vm_heal s).
Definition with_space (t : option MS) (s : Vm MA MS) : Vm MA MS :=
  mkVm (vm_mem s) (vm_areas s) t (vm_state s) (vm_cr3 s) (vm_init_pgd s) (vm_heal s).
Definition with_heal (f : HealCounts -> HealCounts) (s : Vm MA MS) : Vm MA MS :=
  mkVm (vm_mem s) (vm_areas s) (vm_space s) (vm_state s) (vm_cr3 s) (vm_init_pgd s) (f (vm_heal s)).
Definition on_mem {A} (c : Kern A) : VM A := fun s => '(a, m) ← c (vm_mem s); Ret (a, with_mem m s).
Definition on_areas {A} (c : MA -> exec (A * MA)) : VM A := fun s => '(a, t) ← c (vm_areas s); Ret (a, with_areas t s).

Definition ensure_addr_space : VM unit := fun s =>
  Ret (tt, match vm_space s with None => with_space (Some MapleTree.new) s | Some _ => s end).
(** [data.addr_space.as_mut().unwrap()] *)
Definition on_space {A} (c : MS -> exec (A * MS)) : VM A := fun s =>
  match vm_space s with
  | None => Panic
  | Some t => '(a, t') ← c t; Ret (a, with_space (Some t') s)
  end.

Definition count_ioremap (h : HealCounts) := mkHeal (add64 (heal_ioremap h) 1) (heal_from_init h) (heal_miss h) (heal_fail h).
Definition count_from_init (h : HealCounts) := mkHeal (heal_ioremap h) (add64 (heal_from_init h) 1) (heal_miss h) (heal_fail h).
Definition count_miss (h : HealCounts) := mkHeal (heal_ioremap h) (heal_from_init h) (add64 (heal_miss h) 1) (heal_fail h).
Definition count_fail (h : HealCounts) := mkHeal (heal_ioremap h) (heal_from_init h) (heal_miss h) (add64 (heal_fail h) 1).
Definition heal (f : HealCounts -> HealCounts) : VM unit := fun s => Ret (tt, with_heal f s).

(** ** Start-up *)
(** [OnceCell::set] keeps the first value. *)
Definition init_vmalloc (direct_map : Z) : VM unit := fun s =>
  Ret (tt, match vm_state s with
           | None => mkVm (vm_mem s) (vm_areas s) (vm_space s) (Some direct_map) (vm_cr3 s) (vm_init_pgd s) (vm_heal s)
           | Some _ => s
           end).
Definition vmalloc_initialized (s : Vm MA MS) : bool := match vm_state s with Some _ => true | None => false end.

(** ** Pages of a root *)
Definition manager (root_phys direct_map : Z) : PageTableManager := new_with_layout root_phys direct_map page_levels va_bits.
Definition page_of (addr : Z) : Z := Z.land addr (not64 (PAGE_SIZE - 1)).

Definition map_page_in_root_checked (root_phys direct_map virt phys flags : Z) : Kern (option RootMapOutcome) :=
  if root_phys =? 0 then mret None else
  let pt_mgr := manager root_phys direct_map in
  let phys_page := page_of phys in
  existing ← gets (translate_addr pt_mgr virt);
  match existing with
  | Some p => mret (if page_of p =? phys_page then Some Unchanged else None)
  | None =>
      '(ok, _) ← map_page apic pt_mgr virt phys_page flags;
      if negb ok then mret None else
      now ← gets (translate_addr pt_mgr virt);
      if match now with Some p => page_of p =? phys_page | None => false end then mret (Some Mapped)
      else unmap_page apic pt_mgr virt;; mret None
  end.

Definition unmap_page_in_root (root_phys direct_map virt : Z) : Kern unit :=
  if root_phys =? 0 then mret tt else
  unmap_page apic (manager root_phys direct_map) virt;; mret tt.

Definition translate_in_root (root_phys direct_map virt : Z) (m : Mem) : option Z :=
  if root_phys =? 0 then None else translate_addr (manager root_phys direct_map) virt m.

Definition current_root (s : Vm MA MS) : Z := Z.land (vm_cr3 s) PTE_ADDR_MASK.
Definition init_root (s : Vm MA MS) : Z := Z.land (vm_init_pgd s) PTE_ADDR_MASK.

(** ** Pages of both roots *)
Definition map_vmalloc_page (virt phys flags : Z) : VM bool :=
  state ← asks vm_state;
  match state with
  | None => mret false
  | Some direct_map =>
      cur ← asks current_root;
      ini ← asks init_root;
      init_outcome ← (if negb (ini =? 0) then on_mem (map_page_in_root_checked ini direct_map virt phys flags)
                      else mret (Some Unchanged));
      match init_outcome with
      | None => mret false
      | Some outcome =>
          if negb (cur =? 0) && negb (cur =? ini) then
            r ← on_mem (map_page_in_root_checked cur direct_map virt phys flags);
            match r with
            | None =>
                (match outcome with Mapped => on_mem (unmap_page_in_root ini direct_map virt) | Unchanged => mret tt end);;
                mret false
            | Some _ => mret true
            end
          else mret true
      end
  end.

Definition unmap_vmalloc_page (virt : Z) : VM unit :=
  state ← asks vm_state;
  match state with
  | None => mret tt
  | Some direct_map =>
      cur ← asks current_root;
      ini ← asks init_root;
      on_mem (unmap_page_in_root ini direct_map virt);;
      if negb (cur =? ini) then on_mem (unmap_page_in_root cur direct_map virt) else mret tt
  end.

Definition get_vmalloc_phys (virt : Z) : VM (option Z) :=
  asks (fun s =>
    match vm_state s with
    | None => None
    | Some direct_map =>
        match translate_in_root (current_root s) direct_map virt (vm_mem s) with
        | Some phys => Some phys
        | None => translate_in_root (init_root s) direct_map virt (vm_mem s)
        end
    end).

(** [free_page(&mut *pfn_to_page(phys / PAGE_SIZE))] *)
Definition free_phys (phys : Z) : VM unit :=
  page ← asks (fun s => pfn_to_page (vm_mem s) (phys / PAGE_SIZE));
  on_mem (free_page apic page).

(** ** Releasing *)
(** The pages from [i] on, [n] of them. *)
Fixpoint vfree_pages (n : nat) (i addr flags : Z) : VM unit :=
  match n with
  | O => mret tt
  | S n =>
      let virt := add64 addr (mul64 i PAGE_SIZE) in
      r ← get_vmalloc_phys virt;
      (match r with
       | Some phys =>
           unmap_vmalloc_page virt;;
           if negb (vm_contains flags VM_IOREMAP) then free_phys phys else mret tt
       | None => mret tt
       end);;
      vfree_pages n (i + 1) addr flags
  end.
Definition __vfree (addr : Z) (area : VmArea) : VM unit :=
  vfree_pages (Z.to_nat (area_nr_pages area)) 0 addr (area_flags area).

Definition get_area (addr : Z) : VM (option VmArea) := fun s => r ← om_get (vm_areas s) addr; Ret (r, s).

Definition vfree (addr : Z) : VM unit :=
  ready ← asks vmalloc_initialized;
  if (addr =? 0) || negb ready then mret tt else
  busy ← get_area addr;
  if match busy with Some area => vm_contains (area_flags area) VM_ALLOCATING | None => false end then mret tt else
  area ← on_areas (fun t => om_remove t addr);
  match area with
  | None => mret tt
  | Some area =>
      ensure_addr_space;;
      on_space (fun t => MapleTree.remove t addr);;
      __vfree addr area
  end.

Fixpoint cleanup_pages (n : nat) (j vaddr : Z) : VM unit :=
  match n with
  | O => mret tt
  | S n =>
      let virt := add64 vaddr (mul64 j PAGE_SIZE) in
      r ← get_vmalloc_phys virt;
      (match r with
       | Some phys => unmap_vmalloc_page virt;; free_phys phys
       | None => mret tt
       end);;
      cleanup_pages n (j + 1) vaddr
  end.
Definition cleanup_partial (vaddr mapped_pages : Z) : VM unit :=
  cleanup_pages (Z.to_nat mapped_pages) 0 vaddr;;
  on_areas (fun t => om_remove t vaddr);;
  ensure_addr_space;;
  on_space (fun t => MapleTree.remove t vaddr);;
  mret tt.

(** ** Allocating *)
(** The part under the lock: a gap for the area and its guard page, recorded in both trees. *)
Definition reserve_area (area : VmArea) : VM (option Z) :=
  match checked_add64 (area_size area) PAGE_SIZE with
  | None => mret None
  | Some alloc_size =>
      ensure_addr_space;;
      gap ← on_space (fun t => r ← find_gap t alloc_size vmalloc_start vmalloc_end; Ret (r, t));
      match gap with
      | None => mret None
      | Some vaddr =>
          match checked_add64 vaddr alloc_size with
          | None => mret None
          | Some end_ =>
              ensure_addr_space;;
              r ← on_space (fun t => MapleTree.insert t vaddr end_ tt);
              match r with
              | Err _ => mret None
              | Ok _ =>
                  on_areas (fun t => om_insert t vaddr area);;
                  mret (Some vaddr)
              end
          end
      end
  end.

Definition VMALLOC_PTE : Z := Z.lor (Z.lor PTE_PRESENT PTE_WRITABLE) PTE_GLOBAL.
Definition IOREMAP_PTE : Z := Z.lor (Z.lor PTE_PRESENT PTE_WRITABLE) PTE_NO_CACHE.

(** The pages from [i] on; the answer is whether all could be had. *)
Fixpoint vmalloc_pages (n : nat) (i vaddr gfp : Z) : VM bool :=
  match n with
  | O => mret true
  | S n =>
      r ← on_mem (alloc_page apic gfp);
      match r with
      | None => cleanup_partial vaddr i;; mret false
      | Some page =>
          phys ← asks (fun s => mul64 (page_to_pfn (vm_mem s) page) PAGE_SIZE);
          let virt := add64 vaddr (mul64 i PAGE_SIZE) in
          ok ← map_vmalloc_page virt phys VMALLOC_PTE;
          if negb ok then
            on_mem (free_page apic page);;
            cleanup_partial vaddr i;;
            mret false
          else vmalloc_pages n (i + 1) vaddr gfp
      end
  end.

(** The size in whole pages and their number, if it is acceptable. *)
Definition whole_pages (size : option Z) : option (Z * Z) :=
  match size with
  | None => None
  | Some v =>
      if v =? 0 then None
      else let nr_pages := v / PAGE_SIZE in
           if (nr_pages =? 0) || (4294967295 <? nr_pages) then None else Some (v, nr_pages)
  end.
Definition round_up (size : Z) : option Z := page_of <$> checked_add64 size (PAGE_SIZE - 1).

Definition __vmalloc (size gfp : Z) : VM Z :=
  match whole_pages (round_up size) with
  | None => mret 0
  | Some (size, nr_pages) =>
      r ← reserve_area (mkArea size 0 (Z.lor (Z.lor VM_ALLOC VM_INUSE) VM_ALLOCATING) nr_pages);
      match r with
      | None => mret 0
      | Some vaddr =>
          ok ← vmalloc_pages (Z.to_nat nr_pages) 0 vaddr gfp;
          if negb ok then mret 0 else
          on_areas (fun t => om_update t vaddr (fun a =>
            mkArea (area_size a) (area_phys_base a) (vm_clear (area_flags a) VM_ALLOCATING) (area_nr_pages a)));;
          mret vaddr
      end
  end.

Definition vmalloc (size : Z) : VM Z :=
  ready ← asks vmalloc_initialized;
  if (size =? 0) || negb ready then mret 0 else __vmalloc size GFP_F_KERNEL.

(** [ptr::write_bytes(ptr, 0, n)], through the tables of the processor; an address that is not
    mapped faults. *)
Fixpoint zero_bytes (n : nat) (virt : Z) : VM unit :=
  match n with
  | O => mret tt
  | S n =>
      r ← asks (fun s => translate_addr (manager (current_root s) 0) virt (vm_mem s));
      match r with
      | None => fun _ => Panic
      | Some phys => on_mem (write_zeros phys 1);; zero_bytes n (add64 virt 1)
      end
  end.
Definition vzalloc (size : Z) : VM Z :=
  ptr ← vmalloc size;
  (if negb (ptr =? 0) then zero_bytes (Z.to_nat size) ptr else mret tt);;
  mret ptr.

(** ** Device memory *)
Fixpoint ioremap_pages (n : nat) (i vaddr phys_base : Z) : VM bool :=
  match n with
  | O => mret true
  | S n =>
      let phys := add64 phys_base (mul64 i PAGE_SIZE) in
      let virt := add64 vaddr (mul64 i PAGE_SIZE) in
      ok ← map_vmalloc_page virt phys IOREMAP_PTE;
      if negb ok then vfree vaddr;; mret false
      else ioremap_pages n (i + 1) vaddr phys_base
  end.

Definition ioremap (phys_addr size : Z) : VM Z :=
  if size =? 0 then mret 0 else
  let offset := Z.land phys_addr (PAGE_SIZE - 1) in
  let phys_base := page_of phys_addr in
  match whole_pages (v ← checked_add64 size offset; round_up v) with
  | None => mret 0
  | Some (page_align_size, nr_pages) =>
      r ← reserve_area (mkArea page_align_size phys_base (vm_set (Z.lor VM_ALLOC VM_INUSE) VM_IOREMAP) nr_pages);
      match r with
      | None => mret 0
      | Some vaddr =>
          ok ← ioremap_pages (Z.to_nat nr_pages) 0 vaddr phys_base;
          if negb ok then mret 0 else mret (add64 vaddr offset)
      end
  end.

Definition iounmap (addr : Z) : VM unit := if addr =? 0 then mret tt else vfree (page_of addr).

(** ** Making a page visible in the current address space *)
Definition is_vmalloc_addr (addr : Z) : bool := (vmalloc_start <=? addr) && (addr <? vmalloc_end).

Definition lookup_ioremap_phys (page_virt : Z) : VM (option (Z * Z)) := fun s =>
  l ← om_iter (vm_areas s);
  Ret (match List.find (fun '(start, area) =>
         let end_ := saturating_add64 start (area_size area) in
         (start <=? page_virt) && (page_virt <? end_) && vm_contains (area_flags area) VM_IOREMAP && negb (area_phys_base area =? 0)) l with
       | Some (start, area) => Some (start, saturating_add64 (area_phys_base area) (saturating_sub64 page_virt start))
       | None => None
       end, s).

Definition heal_from_ioremap_metadata (page_virt direct_map cur ini : Z) : VM bool :=
  r ← lookup_ioremap_phys page_virt;
  match r with
  | None => heal count_miss;; mret false
  | Some (_, ioremap_phys) =>
      init_outcome ← on_mem (map_page_in_root_checked ini direct_map page_virt ioremap_phys IOREMAP_PTE);
      match init_outcome with
      | None => heal count_fail;; mret false
      | Some outcome =>
          r ← (if negb (cur =? ini) then on_mem (map_page_in_root_checked cur direct_map page_virt ioremap_phys IOREMAP_PTE)
               else mret (Some Unchanged));
          match r with
          | None =>
              (match outcome with Mapped => on_mem (unmap_page_in_root ini direct_map page_virt) | Unchanged => mret tt end);;
              heal count_fail;; mret false
          | Some _ => heal count_ioremap;; mret true
          end
      end
  end.

Definition ensure_vmalloc_page_mapped_in_current (addr : Z) : VM bool :=
  if negb (is_vmalloc_addr addr) then mret true else
  state ← asks vm_state;
  match state with
  | None => mret false
  | Some direct_map =>
      let page_virt := page_of addr in
      cur ← asks current_root;
      ini ← asks init_root;
      if (cur =? 0) || (ini =? 0) then mret false else
      here ← asks (fun s => translate_addr (manager cur direct_map) page_virt (vm_mem s));
      match here with
      | Some _ => mret true
      | None =>
          there ← asks (fun s => translate (manager ini direct_map) page_virt (vm_mem s));
          phys ← asks (fun s => translate_addr (manager ini direct_map) page_virt (vm_mem s));
          match there, phys with
          | Some (e, _, _), Some phys_with_off =>
              r ← on_mem (map_page_in_root_checked cur direct_map page_virt (page_of phys_with_off) (pte_flags e));
              match r with
              | Some Mapped => heal count_from_init;; mret true
              | Some Unchanged => mret true
              | None => heal count_fail;; mret false
              end
          | _, _ => heal_from_ioremap_metadata page_virt direct_map cur ini
          end
      end
  end.

(** ** Statistics *)
Definition vmalloc_mapping_state (addr : Z) : VM (option (Z * Z * option Z * option Z)) :=
  asks (fun s =>
    if negb (is_vmalloc_addr addr) then None else
    match vm_state s with
    | None => None
    | Some direct_map =>
        let page_virt := page_of addr in
        Some (current_root s, init_root s, translate_in_root (current_root s) direct_map page_virt (vm_mem s),
              translate_in_root (init_root s) direct_map page_virt (vm_mem s))
    end).

Definition vmalloc_stats : VM (Z * Z * Z) := fun s =>
  l ← om_iter (vm_areas s);
  Ret ((om_len (vm_areas s),
        fold_left (fun n e => add64 n (area_size e.2)) l 0,
        fold_left (fun n e => add64 n (mul64 (area_nr_pages e.2) PAGE_SIZE)) l 0), s).
End Vmalloc.
