(* ===== verification/VmallocWindow.v ===== *)
(** * The vmalloc window

    What single steps of vmalloc.rs do to the window, in the kernel's own address space: which
    page of the window maps which frame is a finite map, and mapping a page, unmapping it and
    giving back its frame change that map and nothing else.  Then the loops that fill and clear
    an area. *)

From S2P Require Import Prelude OrdMap MapleTree Page Zone Pcp Buddy PageEntry Paging PageWalk PagingMap PagingUnmap PagingShare Vmalloc.
#[local] Open Scope Z_scope.

Lemma page_of_eq a : in_u64 a -> page_of a = a / PAGE_SIZE * PAGE_SIZE.
Proof.
  intros Ha. unfold page_of. change (PAGE_SIZE - 1) with (2 ^ 12 - 1). rewrite land_not_mask by (done || lia). apply Z.mul_comm.
Qed.
Lemma page_of_offset q x : 0 <= q * PAGE_SIZE < 2 ^ 52 -> 0 <= x < PAGE_SIZE -> page_of (q * PAGE_SIZE + x) = q * PAGE_SIZE.
Proof.
  intros Hq Hx. rewrite page_of_eq by (unfold in_u64, PAGE_SIZE in *; lia). rewrite Z.div_add_l by done. rewrite Z.div_small by done. lia.
Qed.

(** Pages in use stay so, with their descriptors and contents, apart from those in [F]. *)
Record except (ls : list Z) (root : Z) (F : Z -> Prop) (m : Mem) (B : gmap Z Block) (m' : Mem) (B' : gmap Z Block) : Prop := {
  xc_frame : frame m m';
  xc_use q : in_use ls root m B q -> ~ F q -> in_use ls root m' B' q;
  xc_pages q : in_use ls root m B q -> ~ F q -> pages m' !! pfn_to_page m q = pages m !! pfn_to_page m q;
  xc_data q x : in_use ls root m B q -> ~ F q -> 0 <= x < PAGE_SIZE -> phys m' (q * PAGE_SIZE + x) = phys m (q * PAGE_SIZE + x)
}.

Section Except.
Context (ls : list Z) (root : Z).
Abbreviation in_use := (in_use ls root).
Abbreviation preserves := (preserves ls root).
Abbreviation except := (except ls root).

Lemma preserves_except F m B m' B' : preserves m B m' B' -> except F m B m' B'.
Proof. intros [f u p d]. split; auto. Qed.
Lemma except_preserves m B m' B' F : except F m B m' B' -> (forall q, F q -> ~ in_use m B q) -> preserves m B m' B'.
Proof.
  intros [f u p d] H. assert (Hn : forall q, in_use m B q -> ~ F q) by (intros q Hq HF; by apply (H q)).
  split; [done|auto|auto|]. intros q x Hq. apply d; auto.
Qed.
Lemma except_mono (F F' : Z -> Prop) m B m' B' : (forall q, F q -> F' q) -> except F m B m' B' -> except F' m B m' B'.
Proof. intros H [f u p d]. split; auto. Qed.
Lemma except_trans F m1 B1 m2 B2 m3 B3 : except F m1 B1 m2 B2 -> except F m2 B2 m3 B3 -> except F m1 B1 m3 B3.
Proof.
  intros [f1 u1 p1 d1] [f2 u2 p2 d2]. split; [by transitivity m2|auto| |].
  - intros q Hq Hn. rewrite <- p1 by done. rewrite <- (frame_pfn_to_page m1 m2) by done. auto.
  - intros q x Hq Hn Hx. rewrite d2 by auto. auto.
Qed.
End Except.

Section Window.
Context (apic pl vb vstart vend r dm : Z).
Abbreviation self := (manager pl vb r dm).
Abbreviation tbl := (tbl (levels self) (root_phys self)).
Abbreviation in_use := (in_use (levels self) (root_phys self)).
Abbreviation preserves := (preserves (levels self) (root_phys self)).
Abbreviation own_way := (own_way (levels self) (root_phys self)).
Abbreviation extends := (extends (levels self) (root_phys self)).
Abbreviation except := (except (levels self) (root_phys self)).

(** A window of the upper half that does not reach across a block of the highest level. *)
Record window : Prop := {
  wd_apic : 0 <= apic;
  wd_root : r <> 0;
  wd_start : 0 < vstart;
  wd_end : vend < u64_size;
  wd_room : vstart + 2 ^ 44 <= vend;
  wd_aligned : (PAGE_SIZE | vstart);
  wd_block : vstart / 2 ^ 48 = (vend - 1) / 2 ^ 48
}.
Hypothesis Hw : window.

(** ** One root *)
Lemma map_in_root_ok m B v ph fl :
  manager_ok self m B -> frame_addr ph -> page_flags fl -> mapping self m v = None -> own_way m B v ->
  exists o m' B', map_page_in_root_checked apic pl vb r dm v ph fl m = Ret (o, m') /\ manager_ok self m' B' /\ preserves m B m' B' /\ extends m B m' B' /\
    match o with
    | Some o => o = Mapped /\ forall w, mapping self m' w = if decide (on_page self v w) then Some (ph + w mod PAGE_SIZE, fl) else mapping self m w
    | None => forall w, mapping self m' w = mapping self m w
    end.
Proof.
  intros Hok Hph Hfl Hnone Hway. unfold map_page_in_root_checked. destruct (Z.eqb_spec r 0) as [?|_]; [by destruct (wd_root Hw)|].
  pose proof Hph as [[k Hk] Hb]. assert (Hpp : page_of ph = ph) by (rewrite <- (Z.add_0_r ph) at 1; rewrite Hk; apply page_of_offset; unfold PAGE_SIZE in *; lia).
  rewrite Hpp, (kbind_ret (gets _) _ m None m) by (unfold gets; by rewrite translate_addr_mapping, Hnone).
  destruct (map_page_ok apic self m B v ph fl Hok (wd_apic Hw) Hph Hfl) as (ok & fsh & m' & B' & R & Hok' & F & Htab & Hkeep & Hext & Hres).
  { intros pa f Hpa. congruence. }
  rewrite (kbind_ret _ _ _ _ _ R). pose proof (keeps_preserves self m B m' B' Hok F Htab (Hkeep Hnone)) as Hpv. destruct ok; cbn [negb].
  - destruct Hres as [Hmap _]. rewrite (kbind_ret (gets _) _ m' (Some (ph + v mod PAGE_SIZE)) m').
    2: { unfold gets. rewrite translate_addr_mapping, Hmap, decide_True by apply on_page_refl. done. }
    rewrite Hk, page_of_offset, Z.eqb_refl by (rewrite <- ?Hk; done || by apply Z.mod_pos_bound).
    exists (Some Mapped), m', B'. rewrite <- Hk. split; [done|]. split; [done|]. split; [done|]. split; [auto|done].
  - destruct Hres as [Hmap _]. exists None, m', B'. split; [done|]. split; [done|]. split; [done|]. split; [auto|done].
Qed.

Lemma unmap_in_root_ok m B v :
  manager_ok self m B -> own_way m B v ->
  exists m' B', unmap_page_in_root apic pl vb r dm v m = Ret (tt, m') /\ manager_ok self m' B' /\ preserves m B m' B' /\ extends m B m' B' /\ no_alloc B B' /\
    forall w, mapping self m' w = if decide (on_page self v w) then None else mapping self m w.
Proof.
  intros Hok Hway. unfold unmap_page_in_root. destruct (Z.eqb_spec r 0) as [?|_]; [by destruct (wd_root Hw)|].
  destruct (unmap_page_ok apic self m B v Hok (wd_apic Hw) (own_way_tables self m B v Hway)) as (ok & fsh & m' & B' & R & Hok' & F & Hpv & Hres).
  rewrite (kbind_ret _ _ _ _ _ R). destruct (Hpv Hway) as (Hpv1 & Hext & Hna). exists m', B'. split; [done|]. split; [done|]. split; [done|]. split; [done|]. split; [done|].
  intros w. destruct ok.
  - destruct Hres as (_ & _ & Hmap & Hleaf & _). rewrite Hmap. pose proof (own_way_leaf self m B v Hway Hleaf w). case_decide; case_decide; tauto.
  - destruct Hres as (Hnone & _ & ->). case_decide as Hp; [|done]. by apply (unmapped_page self v).
Qed.

(** ** The window as a map *)
Definition in_window (v : Z) : Prop := vstart <= v < vend.
(** Addresses that share no page with the window. *)
Definition outside (w : Z) : Prop := forall v, in_window v -> ~ on_page self v w.
Definition same_outside (m m' : Mem) : Prop := forall w, outside w -> mapping self m' w = mapping self m w.

(** The address and flags behind [w] when its page maps [e]: a frame and flags. *)
Definition place (e : option (Z * Z)) (w : Z) : option (Z * Z) := (fun e => (e.1 * PAGE_SIZE + w mod PAGE_SIZE, e.2)) <$> e.

(** A frame in use that nobody else refers to. *)
Definition ram (m : Mem) (B : gmap Z Block) (q : Z) : Prop :=
  in_use m B q /\ exists pg, pages m !! pfn_to_page m q = Some pg /\ refcount pg = 1.

(** [W]: by page number, the frame and the flags of every mapped page of the window.  The tables
    on the way to the window are its own, as [map_page] makes them when there are none. *)
Record window_ok (m : Mem) (B : gmap Z Block) (W : gmap Z (Z * Z)) : Prop := {
  wo_space : manager_ok self m B;
  wo_way v : in_window v -> own_way m B v;
  wo_pages v : in_window v -> mapping self m v = place (W !! (v / PAGE_SIZE)) v;
  wo_ram n q : W !! n = Some (q, VMALLOC_PTE) -> ram m B q;
  wo_once n n' q : W !! n = Some (q, VMALLOC_PTE) -> W !! n' = Some (q, VMALLOC_PTE) -> n = n'
}.

Lemma manager_levels : page_levels self = 4 \/ page_levels self = 5.
Proof. unfold manager, new_with_layout. cbn. destruct (pl =? 5); auto. Qed.
Lemma on_page_window v w : in_window v -> in_window w -> on_page self v w <-> v / PAGE_SIZE = w / PAGE_SIZE.
Proof.
  intros Hv Hw'. apply on_page_block; [apply manager_levels|].
  assert (Hb : forall x, in_window x -> x / 2 ^ 48 = vstart / 2 ^ 48); [|by rewrite (Hb v Hv), (Hb w Hw')].
  intros x Hx. unfold in_window in Hx. pose proof (Z.div_le_mono vstart x (2 ^ 48) ltac:(lia) ltac:(lia)).
  pose proof (Z.div_le_mono x (vend - 1) (2 ^ 48) ltac:(lia) ltac:(lia)). pose proof (wd_block Hw). lia.
Qed.

Lemma ram_preserved m B m' B' q : preserves m B m' B' -> ram m B q -> ram m' B' q.
Proof.
  intros Hp [Hu (pg & Hpg & Hrc)]. split; [by apply (pv_use _ _ _ _ _ _ Hp)|]. exists pg. split; [|done].
  rewrite (frame_pfn_to_page m m') by apply Hp. by rewrite (pv_pages _ _ _ _ _ _ Hp).
Qed.

(** A step that changes what one page maps. *)
Lemma window_step m B W m' B' v e :
  window_ok m B W -> in_window v -> manager_ok self m' B' -> preserves m B m' B' -> extends m B m' B' ->
  (forall w, mapping self m' w = if decide (on_page self v w) then place e w else mapping self m w) ->
  (forall q, e = Some (q, VMALLOC_PTE) -> ram m' B' q /\ forall n, W !! n <> Some (q, VMALLOC_PTE)) ->
  window_ok m' B' (partial_alter (fun _ => e) (v / PAGE_SIZE) W) /\ same_outside m m'.
Proof.
  intros [a b c d f] Hv Hok' Hpv Hext Hmap He. split; [split; [done| | | |]|].
  - intros w Hw'. by apply Hext, b.
  - intros w Hw'. rewrite Hmap. case_decide as Hp; rewrite on_page_window in Hp by done.
    + by rewrite <- Hp, lookup_partial_alter_eq.
    + rewrite lookup_partial_alter_ne by done. by apply c.
  - intros n q. rewrite lookup_partial_alter. case_decide; [intros Hq; by apply He|]. intros Hq. apply (ram_preserved m B); [done|by eapply d].
  - intros n n' q. rewrite !lookup_partial_alter. case_decide; case_decide; try congruence.
    + intros H1 H2. by destruct (proj2 (He q H1) n').
    + intros H1 H2. by destruct (proj2 (He q H2) n).
    + by apply f.
  - intros w Hout. rewrite Hmap. rewrite decide_False; [done|]. by apply Hout.
Qed.

(** A frame is given back. *)
Lemma window_free m B W q m' B' :
  window_ok m B W -> in_use m B q -> (forall n, W !! n <> Some (q, VMALLOC_PTE)) -> returned m B q m' B' ->
  window_ok m' B' W /\ except (fun x => x = q) m B m' B' /\ forall w, mapping self m' w = mapping self m w.
Proof.
  intros [a b c d f] Hu Hn Hret. destruct (returned_preserves self m B q m' B' a Hret (proj2 Hu)) as (Hok' & Hmap & _ & Hext & Hr).
  pose proof (rt_frame _ _ _ _ _ Hret) as F. split; [|split; [|done]].
  - split; [done|intros v Hv; by apply Hext, b|intros v Hv; rewrite Hmap; by apply c| |done].
    intros n x Hx. destruct (d n x Hx) as [Hux (pg & Hpg & Hrc)]. assert (Hne : x <> q) by (intros ->; by apply (Hn n)).
    destruct (Hr x Hne Hux) as [H1 H2]. split; [done|]. exists pg. rewrite (frame_pfn_to_page m m') by done. by rewrite H2.
  - split; [done|intros x Hx Hne; by apply Hr|intros x Hx Hne; by apply Hr|]. intros x y Hx Hne Hy. by rewrite (rt_phys _ _ _ _ _ Hret).
Qed.

(** The allocator hands out a frame, or has none. *)
Lemma window_alloc gfp m B W :
  window_ok m B W ->
  exists o m' B', alloc_page apic gfp m = Ret (o, m') /\ window_ok m' B' W /\ preserves m B m' B' /\ (forall w, mapping self m' w = mapping self m w) /\
    match o with
    | None => True
    | Some page => exists q, page = pfn_to_page m' q /\ page_to_pfn m' page = q /\ ram m' B' q /\ ~ in_use m B q /\ frame_addr (q * PAGE_SIZE) /\ forall n, W !! n <> Some (q, VMALLOC_PTE)
    end.
Proof.
  intros [a b c d f]. destruct (alloc_page_fine self apic (wd_apic Hw) gfp m B a) as (o & m' & B' & R & Hfine & Hres). exists o, m', B'. split; [done|].
  assert (Hgen : manager_ok self m' B' -> preserves m B m' B' -> extends m B m' B' -> (forall w, mapping self m' w = mapping self m w) -> window_ok m' B' W).
  { intros Hok' Hpv Hext Hmap. split; [done|intros v Hv; by apply Hext, b|intros v Hv; rewrite Hmap; by apply c| |done].
    intros n q Hq. apply (ram_preserved m B); [done|by eapply d]. }
  destruct o as [page|].
  - destruct Hres as (q & -> & Htk & (pg & Hpg & Hrc & _) & Hze).
    destruct (takes_space self m B m' B' q a Htk Hfine) as (Hok' & Hmap & _ & Hpv & Hext & Hu & Hnew).
    { intros x Hout. rewrite Hze. destruct (Z.leb_spec (q * PAGE_SIZE) x), (Z.ltb_spec x (q * PAGE_SIZE + PAGE_SIZE)); rewrite ?andb_false_r; try done. lia. }
    split; [by apply Hgen|]. split; [done|]. split; [done|]. exists q. pose proof (tk_frame _ _ _ _ _ _ Htk) as F.
    pose proof (cached_bounds m' B' q _ (tk_ok _ _ _ _ _ _ Htk) (tk_new _ _ _ _ _ _ Htk)) as Hb. pose proof (mem_ok_layout _ _ (tk_ok _ _ _ _ _ _ Htk)) as Hl.
    split; [by rewrite (frame_pfn_to_page m m')|]. split; [rewrite <- (frame_pfn_to_page m m') by done; by rewrite page_to_pfn_ok by (done || apply Hl)|].
    split; [split; [done|by exists pg]|].
    assert (Hn : ~ in_use m B q) by (intros H; by apply (Hnew q)). split; [done|]. split.
    + pose proof (so_max _ _ _ _ (proj2 Hok')).
      split; [by exists q|unfold PAGE_SIZE in *; lia].
    + intros n Hq. by apply Hn, (d n q).
  - destruct (advance_space self m B m' B' a Hres Hfine) as (Hok' & Hmap & _ & Hpv & Hext). split; [by apply Hgen|]. done.
Qed.

(** ** The steps of vmalloc.rs *)
Context {MA MS : Type}.
Implicit Types s : Vm MA MS.

Lemma vbind_ret {A C} (c : VmM MA MS A) (k : A -> VmM MA MS C) s a s' : c s = Ret (a, s') -> (c ≫= k) s = k a s'.
Proof. intros H. unfold mbind, vmm_bind. by rewrite H. Qed.
Lemma vbind_assoc {A C D} (c : VmM MA MS A) (f : A -> VmM MA MS C) (g : C -> VmM MA MS D) s : ((c ≫= f) ≫= g) s = (c ≫= (fun a => f a ≫= g)) s.
Proof. unfold mbind, vmm_bind. by destruct (c s) as [[a s']| |]. Qed.
Lemma asks_run {A C} (f : Vm MA MS -> A) (k : A -> VmM MA MS C) s : (asks f ≫= k) s = k (f s) s.
Proof. done. Qed.
Lemma on_mem_run {A} (c : Kern A) s a m' : c (vm_mem s) = Ret (a, m') -> on_mem c s = Ret (a, with_mem m' s).
Proof. intros H. unfold on_mem. by rewrite H. Qed.

(** The processor runs on the kernel's own tables. *)
Definition kernel_space s : Prop := vm_state s = Some dm /\ current_root s = r /\ init_root s = r.

Lemma map_vmalloc_page_ok s B W v q fl :
  kernel_space s -> window_ok (vm_mem s) B W -> in_window v -> W !! (v / PAGE_SIZE) = None -> frame_addr (q * PAGE_SIZE) -> page_flags fl ->
  (fl = VMALLOC_PTE -> ram (vm_mem s) B q /\ forall n, W !! n <> Some (q, VMALLOC_PTE)) ->
  exists ok m' B', map_vmalloc_page apic pl vb v (q * PAGE_SIZE) fl s = Ret (ok, with_mem m' s) /\ preserves (vm_mem s) B m' B' /\ same_outside (vm_mem s) m' /\
    window_ok m' B' (if (ok : bool) then <[v / PAGE_SIZE := (q, fl)]> W else W).
Proof.
  intros (Hst & Hcur & Hini) Hwo Hv Hnone Hq Hfl Hram. unfold map_vmalloc_page. rewrite asks_run, Hst, asks_run, Hcur, asks_run, Hini.
  rewrite (proj2 (Z.eqb_neq r 0)) by apply Hw. rewrite Z.eqb_refl. cbn [negb andb]. pose proof Hwo as [a b c d f].
  destruct (map_in_root_ok (vm_mem s) B v (q * PAGE_SIZE) fl a Hq Hfl) as (o & m' & B' & R & Hok' & Hpv & Hext & Hres); [by rewrite (c v Hv), Hnone|by apply b|].
  rewrite (vbind_ret _ _ _ _ _ (on_mem_run _ _ _ _ R)). destruct o as [o|].
  - destruct Hres as [_ Hmap]. exists true, m', B'. split; [done|]. split; [done|].
    destruct (window_step (vm_mem s) B W m' B' v (Some (q, fl)) Hwo Hv Hok' Hpv Hext Hmap) as [H1 H2]; [|done].
    intros q' [= <- ->]. destruct (Hram eq_refl) as [Hr Hn]. split; [|done]. by eapply ram_preserved.
  - exists false, m', B'. split; [done|]. split; [done|]. split; [intros w _; apply Hres|]. split; [done|intros w Hin; by apply Hext, b|intros w Hin; rewrite Hres; by apply c| |done].
    intros n x Hx. eapply ram_preserved; [done|by eapply d].
Qed.

Lemma unmap_vmalloc_page_ok s B W v :
  kernel_space s -> window_ok (vm_mem s) B W -> in_window v ->
  exists m' B', unmap_vmalloc_page apic pl vb v s = Ret (tt, with_mem m' s) /\ preserves (vm_mem s) B m' B' /\ same_outside (vm_mem s) m' /\ no_alloc B B' /\
    window_ok m' B' (delete (v / PAGE_SIZE) W).
Proof.
  intros (Hst & Hcur & Hini) Hwo Hv. unfold unmap_vmalloc_page. rewrite asks_run, Hst, asks_run, Hcur, asks_run, Hini.
  destruct (unmap_in_root_ok (vm_mem s) B v (wo_space _ _ _ Hwo) (wo_way _ _ _ Hwo v Hv)) as (m' & B' & R & Hok' & Hpv & Hext & Hna & Hmap).
  rewrite (vbind_ret _ _ _ _ _ (on_mem_run _ _ _ _ R)). rewrite Z.eqb_refl. exists m', B'. split; [done|]. split; [done|].
  destruct (window_step (vm_mem s) B W m' B' v None Hwo Hv Hok' Hpv Hext Hmap) as [H1 H2]; [done|]. done.
Qed.

Lemma get_vmalloc_phys_ok s B W v :
  kernel_space s -> window_ok (vm_mem s) B W -> in_window v -> get_vmalloc_phys pl vb v s = Ret (fst <$> place (W !! (v / PAGE_SIZE)) v, s).
Proof.
  intros (Hst & Hcur & Hini) Hwo Hv. unfold get_vmalloc_phys, asks. rewrite Hst, Hcur, Hini. unfold translate_in_root.
  rewrite (proj2 (Z.eqb_neq r 0)) by apply Hw. rewrite translate_addr_mapping, (wo_pages _ _ _ Hwo v Hv). by destruct (W !! _).
Qed.

Definition gone (B : gmap Z Block) (q : Z) : Prop := forall o, B !! q <> Some (mkBlock InUse o).
Lemma gone_no_alloc B B' q : no_alloc B B' -> gone B q -> gone B' q.
Proof. intros H Hg o Ho. destruct (H q o Ho) as [o' Ho']. by apply Hg in Ho'. Qed.

Lemma free_frame_ok s B W q :
  window_ok (vm_mem s) B W -> ram (vm_mem s) B q -> (forall n, W !! n <> Some (q, VMALLOC_PTE)) ->
  exists m' B', on_mem (free_page apic (pfn_to_page (vm_mem s) q)) s = Ret (tt, with_mem m' s) /\ except (fun x => x = q) (vm_mem s) B m' B' /\
    same_outside (vm_mem s) m' /\ no_alloc B B' /\ gone B' q /\ window_ok m' B' W.
Proof.
  intros Hwo [Hu (pg & Hpg & Hrc)] Hn. pose proof (wo_space _ _ _ Hwo) as [_ Hsp].
  destruct (free_page_last apic (vm_mem s) B q pg (so_mem _ _ _ _ Hsp) (so_pcp _ _ _ _ Hsp) (wd_apic Hw) (proj1 Hu) Hpg Hrc) as (m' & B' & R & Hret & Hgone).
  exists m', B'. rewrite (on_mem_run _ _ _ _ R). destruct (window_free (vm_mem s) B W q m' B' Hwo Hu Hn Hret) as (H1 & H2 & H3).
  split; [done|]. split; [done|]. split; [intros w _; apply H3|]. split; [exact (returned_no_alloc _ _ _ _ _ Hret (proj1 Hu))|done].
Qed.

(** ** Pages given back *)
Definition without (W : gmap Z (Z * Z)) (lo hi : Z) : gmap Z (Z * Z) := filter (fun e => ~ (lo <= e.1 < hi)) W.
Lemma lookup_without W lo hi n : without W lo hi !! n = if decide (lo <= n < hi) then None else W !! n.
Proof. unfold without. rewrite map_lookup_filter. destruct (W !! n); cbn; repeat case_guard; repeat case_decide; done || tauto. Qed.

(** The frames of the pages from [lo] to [hi]. *)
Definition frames_of (W : gmap Z (Z * Z)) (lo hi q : Z) : Prop := exists n, lo <= n < hi /\ W !! n = Some (q, VMALLOC_PTE).

(** The pages of an area of [n] pages at [a]. *)
Definition area_in (a n : Z) : Prop := (PAGE_SIZE | a) /\ vstart <= a /\ 0 <= n /\ a + n * PAGE_SIZE <= vend.
Lemma area_page a n i : area_in a n -> 0 <= i < n ->
  add64 a (mul64 i PAGE_SIZE) = a + i * PAGE_SIZE /\ in_window (a + i * PAGE_SIZE) /\ (a + i * PAGE_SIZE) / PAGE_SIZE = a / PAGE_SIZE + i /\ (a + i * PAGE_SIZE) mod PAGE_SIZE = 0.
Proof.
  intros ([k ->] & H1 & H2 & H3) Hi. pose proof (wd_start Hw). pose proof (wd_end Hw). rewrite mul64_small by (unfold PAGE_SIZE in *; lia).
  rewrite add64_small by (unfold PAGE_SIZE in *; lia). split; [done|]. split; [unfold in_window, PAGE_SIZE in *; lia|].
  rewrite <- Z.mul_add_distr_r, !Z.div_mul, Z.mod_mul by done. done.
Qed.

(** The outcome of giving back the pages from [lo] to [hi]: their frames, if [fl] is that of an
    area of its own memory, go back to the allocators. *)
Record cleared (fl lo hi : Z) (m : Mem) (B : gmap Z Block) (W : gmap Z (Z * Z)) (m' : Mem) (B' : gmap Z Block) : Prop := {
  cl_window : window_ok m' B' (without W lo hi);
  cl_outside : same_outside m m';
  cl_no_alloc : no_alloc B B';
  cl_except : except (fun q => vm_contains fl VM_IOREMAP = false /\ frames_of W lo hi q) m B m' B';
  cl_gone q : vm_contains fl VM_IOREMAP = false -> frames_of W lo hi q -> gone B' q
}.

Lemma cleared_nil fl lo m B W : window_ok m B W -> cleared fl lo lo m B W m B.
Proof.
  intros Hwo. split; [|done|done|apply preserves_except, preserves_refl|intros q _ (n & ? & _); lia].
  assert (without W lo lo = W) as ->; [|done]. apply map_eq. intros n. rewrite lookup_without. case_decide; [lia|done].
Qed.
(** One page, then the others. *)
Lemma cleared_cons fl lo hi m B W m1 B1 m' B' :
  lo < hi -> cleared fl lo (lo + 1) m B W m1 B1 -> cleared fl (lo + 1) hi m1 B1 (without W lo (lo + 1)) m' B' -> cleared fl lo hi m B W m' B'.
Proof.
  intros Hlt [a1 b1 c1 d1 e1] [a2 b2 c2 d2 e2].
  assert (HW : without (without W lo (lo + 1)) (lo + 1) hi = without W lo hi).
  { apply map_eq. intros n. rewrite !lookup_without. repeat case_decide; done || lia. }
  assert (Hfr : forall q, frames_of (without W lo (lo + 1)) (lo + 1) hi q -> frames_of W lo hi q).
  { intros q (n & Hn & Hq). rewrite lookup_without in Hq. case_decide; [done|]. exists n. split; [lia|done]. }
  split.
  - by rewrite <- HW.
  - intros w Hout. by rewrite b2, b1.
  - by transitivity B1.
  - eapply except_trans; eapply except_mono; [|exact d1| |exact d2]; cbn; [|naive_solver].
    intros q (Hfl & n & Hn & Hq). split; [done|]. exists n. split; [lia|done].
  - intros q Hfl (n & Hn & Hq). destruct (decide (n = lo)) as [->|Hne].
    + eapply gone_no_alloc; [exact c2|]. apply e1; [done|]. exists lo. split; [lia|done].
    + apply e2; [done|]. exists n. split; [lia|]. rewrite lookup_without. case_decide; [lia|done].
Qed.

(** One round of the loops. *)
Definition release_page (fl virt : Z) : VmM MA MS unit :=
  r ← get_vmalloc_phys pl vb virt;
  match r with
  | Some phys => unmap_vmalloc_page apic pl vb virt;; if negb (vm_contains fl VM_IOREMAP) then free_phys apic phys else mret tt
  | None => mret tt
  end.
Lemma release_page_ok s B W fl a n i :
  kernel_space s -> window_ok (vm_mem s) B W -> area_in a n -> 0 <= i < n ->
  (vm_contains fl VM_IOREMAP = false -> forall q f, W !! (a / PAGE_SIZE + i) = Some (q, f) -> f = VMALLOC_PTE) ->
  exists m' B', release_page fl (a + i * PAGE_SIZE) s = Ret (tt, with_mem m' s) /\ cleared fl (a / PAGE_SIZE + i) (a / PAGE_SIZE + i + 1) (vm_mem s) B W m' B'.
Proof.
  intros Hk Hwo Ha Hi Hown. destruct (area_page a n i Ha Hi) as (_ & Hv & Hp & Hz). set (v := a + i * PAGE_SIZE) in *. set (p := a / PAGE_SIZE + i) in *.
  unfold release_page. rewrite (vbind_ret _ _ _ _ _ (get_vmalloc_phys_ok s B W v Hk Hwo Hv)), Hp.
  assert (Hone : forall k, p <= k < p + 1 <-> k = p) by lia.
  assert (HW : without W p (p + 1) = delete p W).
  { apply map_eq. intros k. rewrite lookup_without, lookup_delete. case_decide; case_decide; done || lia. }
  destruct (W !! p) as [[q f]|] eqn:Hq; cbn [fmap option_fmap option_map place fst].
  2: { exists (vm_mem s), B. split; [by destruct s|]. split; [by rewrite HW, delete_id|done|done|apply preserves_except, preserves_refl|].
       intros q _ (k & Hk' & Hq'). apply Hone in Hk' as ->. congruence. }
  rewrite Hz, Z.add_0_r. destruct (unmap_vmalloc_page_ok s B W v Hk Hwo Hv) as (m1 & B1 & R1 & P1 & O1 & N1 & W1). rewrite Hp in W1.
  rewrite (vbind_ret _ _ _ _ _ R1). destruct (vm_contains fl VM_IOREMAP) eqn:Hfl; cbn [negb].
  { exists m1, B1. split; [done|]. split; [by rewrite HW|done|done|by apply preserves_except|congruence]. }
  specialize (Hown eq_refl q f eq_refl) as ->.
  destruct (free_frame_ok (with_mem m1 s) B1 (delete p W) q W1) as (m2 & B2 & R2 & P2 & O2 & N2 & G2 & W2).
  { eapply ram_preserved; [exact P1|]. by eapply (wo_ram _ _ _ Hwo). }
  { intros k Hkq. apply lookup_delete_Some in Hkq as [Hne Hkq]. by destruct (wo_once _ _ _ Hwo _ _ _ Hq Hkq). }
  exists m2, B2. split; [unfold free_phys; rewrite asks_run, page_of_table; exact R2|].
  split; [by rewrite HW|intros w Hw'; rewrite O2 by done; by apply O1|by transitivity B1| |].
  - eapply except_trans; [by apply preserves_except, P1|]. eapply except_mono; [|exact P2]. intros x ->. split; [done|]. exists p. split; [lia|done].
  - intros x _ (k & Hk' & Hx). apply Hone in Hk' as ->. rewrite Hq in Hx. by injection Hx as <-.
Qed.

Lemma vfree_pages_ok fl a n k : forall i s B W,
  kernel_space s -> window_ok (vm_mem s) B W -> area_in a n -> 0 <= i -> i + Z.of_nat k = n ->
  (vm_contains fl VM_IOREMAP = false -> forall j q f, i <= j < n -> W !! (a / PAGE_SIZE + j) = Some (q, f) -> f = VMALLOC_PTE) ->
  exists m' B', vfree_pages apic pl vb k i a fl s = Ret (tt, with_mem m' s) /\ cleared fl (a / PAGE_SIZE + i) (a / PAGE_SIZE + n) (vm_mem s) B W m' B'.
Proof.
  induction k as [|k IH]; intros i s B W Hk Hwo Ha Hi Hn Hown.
  { exists (vm_mem s), B. split; [by destruct s|]. replace n with i by lia. by apply cleared_nil. }
  cbn [vfree_pages]. destruct (area_page a n i Ha ltac:(lia)) as (-> & _).
  destruct (release_page_ok s B W fl a n i Hk Hwo Ha ltac:(lia)) as (m1 & B1 & R1 & C1); [intros Hfl q f; apply (Hown Hfl i); lia|].
  destruct (IH (i + 1) (with_mem m1 s) B1 _ Hk (cl_window _ _ _ _ _ _ _ _ C1) Ha ltac:(lia) ltac:(lia)) as (m' & B' & R & C).
  { intros Hfl j q f Hj Hq. rewrite lookup_without in Hq. case_decide; [done|]. apply (Hown Hfl j q f); [lia|done]. }
  exists m', B'. split; [|rewrite Z.add_assoc in C; eapply cleared_cons; [lia|exact C1|exact C]].
  refine (eq_trans _ R). rewrite <- (vbind_ret _ (fun _ => vfree_pages apic pl vb k (i + 1) a fl) _ _ _ R1). symmetry. apply vbind_assoc.
Qed.
End Window.

(** ** Filling and clearing an area *)
Lemma vmalloc_flags : page_flags VMALLOC_PTE.
Proof. by vm_compute. Qed.
Lemma ioremap_flags : page_flags IOREMAP_PTE.
Proof. by vm_compute. Qed.

Section Areas.
Context {MA MS : Type} `{!OrdMapOps MA VmArea} `{!OrdMapOps MS (RangeEntry unit)}.
Context (apic pl vb vstart vend r dm : Z).
Hypothesis Hw : window apic vstart vend r.
Implicit Types s : Vm MA MS.

Abbreviation self := (manager pl vb r dm).
Abbreviation in_use := (in_use (levels self) (root_phys self)).
Abbreviation preserves := (preserves (levels self) (root_phys self)).
Abbreviation except := (except (levels self) (root_phys self)).
Abbreviation window_ok := (window_ok pl vb vstart vend r dm).
Abbreviation same_outside := (same_outside pl vb vstart vend r dm).
Abbreviation kernel_space := (kernel_space r dm).
Abbreviation area_in := (area_in vstart vend).

(** ** Filling *)
(** The pages from [lo] to [hi] have been mapped, each to something [good]. *)
Record filled (good : Z -> Z * Z -> Prop) (lo hi : Z) (m : Mem) (B : gmap Z Block) (W : gmap Z (Z * Z)) (m' : Mem) (B' : gmap Z Block) (W' : gmap Z (Z * Z)) : Prop := {
  fi_window : window_ok m' B' W';
  fi_kept : preserves m B m' B';
  fi_outside : same_outside m m';
  fi_other n : ~ (lo <= n < hi) -> W' !! n = W !! n;
  fi_new n : lo <= n < hi -> exists e, W' !! n = Some e /\ good n e
}.

Lemma filled_nil good lo m B W m' B' :
  window_ok m' B' W -> preserves m B m' B' -> same_outside m m' -> filled good lo lo m B W m' B' W.
Proof. intros H1 H2 H3. split; try done. lia. Qed.
Lemma filled_cons good good' lo hi m B W e m1 B1 m' B' W' :
  lo < hi -> preserves m B m1 B1 -> same_outside m m1 -> good lo e -> (forall n e, good' n e -> good n e) ->
  filled good' (lo + 1) hi m1 B1 (<[lo := e]> W) m' B' W' -> filled good lo hi m B W m' B' W'.
Proof.
  intros Hlt P1 O1 Hg Himp [a b c d f]. split; [done|by eapply preserves_trans|intros w Hout; by rewrite c, O1| |].
  - intros n Hn. rewrite d by lia. rewrite lookup_insert_ne by lia. done.
  - intros n Hn. destruct (decide (n = lo)) as [->|Hne].
    + exists e. rewrite d by lia. by rewrite lookup_insert_eq.
    + destruct (f n ltac:(lia)) as (e' & He' & Hg'). eauto.
Qed.

(** Memory of its own: a frame that was not in use. *)
Definition new_frame (m : Mem) (B : gmap Z Block) (n : Z) (e : Z * Z) : Prop := e.2 = VMALLOC_PTE /\ ~ in_use m B e.1.

Lemma vmalloc_pages_ok gfp a n k : forall i s B W,
  kernel_space s -> window_ok (vm_mem s) B W -> area_in a n -> 0 <= i -> i + Z.of_nat k = n ->
  (forall j, i <= j < n -> W !! (a / PAGE_SIZE + j) = None) ->
  exists m' B' W' j, filled (new_frame (vm_mem s) B) (a / PAGE_SIZE + i) (a / PAGE_SIZE + j) (vm_mem s) B W m' B' W' /\
    (j = n /\ vmalloc_pages apic pl vb k i a gfp s = Ret (true, with_mem m' s) \/
     i <= j < n /\ vmalloc_pages apic pl vb k i a gfp s = (cleanup_partial apic pl vb a j;; mret false) (with_mem m' s)).
Proof.
  induction k as [|k IH]; intros i s B W Hk Hwo Ha Hi Hn Hfree.
  { exists (vm_mem s), B, W, n. replace n with i by lia. split; [apply filled_nil; [done|apply preserves_refl|done]|]. left. split; [done|by destruct s]. }
  cbn [vmalloc_pages]. destruct (area_page apic vstart vend r Hw a n i Ha ltac:(lia)) as (Hadd & Hv & Hp & _).
  destruct (window_alloc apic pl vb vstart vend r dm Hw gfp (vm_mem s) B W Hwo) as (o & m1 & B1 & R1 & W1 & P1 & M1 & Ho).
  rewrite (vbind_ret _ _ _ _ _ (on_mem_run _ _ _ _ R1)). assert (O1 : same_outside (vm_mem s) m1) by (intros w _; apply M1). destruct o as [page|].
  2: { exists m1, B1, W, i. split; [by apply filled_nil|]. right. split; [lia|done]. }
  destruct Ho as (q & -> & Hpfn & Hram & Hnew & Hfa & HnW). rewrite asks_run, Hadd. cbn [vm_mem with_mem]. rewrite Hpfn.
  rewrite mul64_small by (destruct Hfa as [_ Hb]; lia).
  destruct (map_vmalloc_page_ok apic pl vb vstart vend r dm Hw (with_mem m1 s) B1 W (a + i * PAGE_SIZE) q VMALLOC_PTE Hk W1 Hv) as (ok & m2 & B2 & R2 & P2 & O2 & W2);
    [rewrite Hp; apply Hfree; lia|done|apply vmalloc_flags|done|].
  rewrite (vbind_ret _ _ _ _ _ R2). rewrite Hp in W2. pose proof (preserves_trans _ _ _ _ _ _ _ _ P1 P2) as P12.
  assert (O12 : same_outside (vm_mem s) m2) by (intros w Hout; by rewrite O2, O1). destruct ok; cbn [negb].
  - destruct (IH (i + 1) (with_mem m2 s) B2 _ Hk W2 Ha ltac:(lia) ltac:(lia)) as (m' & B' & W' & j & Hfil & Hres).
    { intros j Hj. rewrite lookup_insert_ne by lia. apply Hfree. lia. }
    exists m', B', W', j. split.
    + rewrite Z.add_assoc in Hfil. assert (Hij : i < j) by (destruct Hres as [[-> _]|[? _]]; lia).
      eapply (filled_cons _ (new_frame m2 B2) _ _ _ _ _ (q, VMALLOC_PTE)); [lia|exact P12|done|done| |exact Hfil].
      intros x e [He Hne]. split; [done|]. intros Hu. by apply Hne, (pv_use _ _ _ _ _ _ P12).
    + destruct Hres as [[-> R]|[Hj R]]; [left; split; [done|exact R]|right; split; [lia|exact R]].
  - assert (Hpage : pfn_to_page m1 q = pfn_to_page m2 q) by (symmetry; apply frame_pfn_to_page, P2). rewrite Hpage.
    destruct (free_frame_ok apic pl vb vstart vend r dm Hw (with_mem m2 s) B2 W q W2) as (m3 & B3 & R3 & P3 & O3 & _ & _ & W3); [eapply ram_preserved; [exact P2|exact Hram]|done|].
    cbn [vm_mem with_mem] in R3. rewrite (vbind_ret _ _ _ _ _ R3). exists m3, B3, W, i. split; [|right; split; [lia|done]].
    apply filled_nil; [done| |intros w Hout; by rewrite O3, O12].
    eapply except_preserves; [eapply except_trans; [apply preserves_except, P12|exact P3]|]. by intros x ->.
Qed.

(** Device memory: the frames that follow [phys_base]. *)
Definition device_page (phys_base a n : Z) (e : Z * Z) : Prop := e = (phys_base / PAGE_SIZE + (n - a / PAGE_SIZE), IOREMAP_PTE).

Lemma ioremap_pages_ok b a n k : forall i s B W,
  kernel_space s -> window_ok (vm_mem s) B W -> area_in a n -> 0 <= i -> i + Z.of_nat k = n -> 0 <= b -> (b + n) * PAGE_SIZE <= 2 ^ 52 ->
  (forall j, i <= j < n -> W !! (a / PAGE_SIZE + j) = None) ->
  exists m' B' W' j, filled (device_page (b * PAGE_SIZE) a) (a / PAGE_SIZE + i) (a / PAGE_SIZE + j) (vm_mem s) B W m' B' W' /\
    (j = n /\ ioremap_pages apic pl vb k i a (b * PAGE_SIZE) s = Ret (true, with_mem m' s) \/
     i <= j < n /\ ioremap_pages apic pl vb k i a (b * PAGE_SIZE) s = (vfree apic pl vb a;; mret false) (with_mem m' s)).
Proof.
  induction k as [|k IH]; intros i s B W Hk Hwo Ha Hi Hn Hb Hbn Hfree.
  { exists (vm_mem s), B, W, n. replace n with i by lia. split; [apply filled_nil; [done|apply preserves_refl|done]|]. left. split; [done|by destruct s]. }
  cbn [ioremap_pages]. destruct (area_page apic vstart vend r Hw a n i Ha ltac:(lia)) as (Hadd & Hv & Hp & _). rewrite Hadd.
  rewrite mul64_small, add64_small, <- Z.mul_add_distr_r by (unfold PAGE_SIZE in *; lia).
  destruct (map_vmalloc_page_ok apic pl vb vstart vend r dm Hw s B W (a + i * PAGE_SIZE) (b + i) IOREMAP_PTE Hk Hwo Hv) as (ok & m2 & B2 & R2 & P2 & O2 & W2);
    [rewrite Hp; apply Hfree; lia|split; [by exists (b + i)|unfold PAGE_SIZE in *; lia]|apply ioremap_flags|by intros ?|].
  rewrite (vbind_ret _ _ _ _ _ R2). rewrite Hp in W2. destruct ok; cbn [negb].
  - destruct (IH (i + 1) (with_mem m2 s) B2 _ Hk W2 Ha ltac:(lia) ltac:(lia) Hb Hbn) as (m' & B' & W' & j & Hfil & Hres).
    { intros j Hj. rewrite lookup_insert_ne by lia. apply Hfree. lia. }
    exists m', B', W', j. split.
    + rewrite Z.add_assoc in Hfil. assert (Hij : i < j) by (destruct Hres as [[-> _]|[? _]]; lia).
      eapply (filled_cons _ (device_page (b * PAGE_SIZE) a) _ _ _ _ _ (b + i, IOREMAP_PTE)); [lia|exact P2|done| |done|exact Hfil].
      unfold device_page. rewrite Z.div_mul by done. f_equal. lia.
    + destruct Hres as [[-> R]|[Hj R]]; [left; split; [done|exact R]|right; split; [lia|exact R]].
  - exists m2, B2, W, i. split; [by apply filled_nil|]. right. split; [lia|done].
Qed.

(** Clearing what was filled leaves the window as it was. *)
Lemma fill_and_clear fl good lo mid hi m B W m1 B1 W1 m' B' :
  mid <= hi -> filled good lo mid m B W m1 B1 W1 -> cleared pl vb vstart vend r dm fl lo hi m1 B1 W1 m' B' -> (forall n, lo <= n < hi -> W !! n = None) ->
  (vm_contains fl VM_IOREMAP = false -> forall n e, good n e -> ~ in_use m B e.1) ->
  window_ok m' B' W /\ preserves m B m' B' /\ same_outside m m'.
Proof.
  intros Hle [a b c d f] [a' b' c' d' e'] Hnone Hgood. assert (HW : without W1 lo hi = W).
  { apply map_eq. intros n. rewrite lookup_without. case_decide; [by rewrite Hnone|apply d; lia]. }
  split; [by rewrite <- HW|]. split; [|intros w Hout; by rewrite b', c].
  eapply except_preserves; [eapply except_trans; [by apply preserves_except|exact d']|]. cbn. intros q (Hfl & n & Hn & Hq).
  destruct (decide (n < mid)); [|rewrite d, Hnone in Hq by lia; done]. destruct (f n ltac:(lia)) as (e & He & Hg). rewrite Hq in He. injection He as <-. exact (Hgood Hfl _ _ Hg).
Qed.

Lemma cleanup_is_release k j a : cleanup_pages apic pl vb k j a = vfree_pages (MA := MA) (MS := MS) apic pl vb k j a 0.
Proof. revert j. induction k as [|k IH]; intros j; [done|]. cbn [cleanup_pages vfree_pages]. by rewrite IH. Qed.
End Areas.
