(* ===== verification/VmallocTheorems.v ===== *)
(** * What vmalloc.rs promises

    The two indexes list the same areas: the tree by address and the tree of the occupied
    addresses, in which the lowest gap is found that holds an area and its guard page.  The
    invariant of the whole: areas lie apart in the window, every page of an area is mapped and
    no other page of the window is.  Allocating, for memory of the kernel and for devices, adds
    an area or changes nothing; releasing takes it back; zeroing writes through the tables. *)

From S2P Require Import Prelude OrdMap MapleTree Page Zone Pcp Buddy PageEntry Paging PageWalk PagingMap PagingUnmap PagingShare Vmalloc VmallocWindow.
#[local] Open Scope Z_scope.

(** ** Values that depend on the key *)
Section Keyed.
Context {V V' : Type} (f : Z -> V -> V').
Definition keyed (l : list (Z * V)) : list (Z * V') := map (fun e => (e.1, f e.1 e.2)) l.
Lemma keyed_lookup k l : al_lookup k (keyed l) = option_map (f k) (al_lookup k l).
Proof. induction l as [|[k' v] l IH]; [done|]. cbn. destruct (Z.eqb_spec k k') as [->|]; [done|exact IH]. Qed.
Lemma keyed_insert k v l : al_insert k (f k v) (keyed l) = keyed (al_insert k v l).
Proof. induction l as [|[k' v'] l IH]; [done|]. cbn. destruct (k <? k'); [done|]. cbn. f_equal. exact IH. Qed.
Lemma keyed_remove k l : al_remove k (keyed l) = keyed (al_remove k l).
Proof.
  unfold al_remove. induction l as [|[k' v'] l IH]; [done|]. cbn [keyed map fst snd]. rewrite !filter_cons. cbn [fst].
  case_decide; [cbn; f_equal; exact IH|exact IH].
Qed.
Lemma keyed_elem k v l : (k, v) ∈ l -> (k, f k v) ∈ keyed l.
Proof. intros H. apply list_elem_of_fmap. by exists (k, v). Qed.
End Keyed.

Lemma al_update_insert {V} k (v : V) g l : al_lookup k l = None -> al_update k g (al_insert k v l) = al_insert k (g v) l.
Proof.
  induction l as [|[k' v'] l IH]; cbn; [by rewrite Z.eqb_refl|]. destruct (Z.eqb_spec k k') as [|Hne]; [done|]. intros Hn.
  destruct (Z.ltb_spec k k'); cbn.
  - rewrite Z.eqb_refl, (proj2 (Z.eqb_neq k' k)) by lia. f_equal. f_equal. change (al_update k g l = l). apply al_update_absent. by apply al_lookup_None.
  - rewrite (proj2 (Z.eqb_neq k' k)) by lia. f_equal. by apply IH.
Qed.

(** What an area takes of the address space, its guard page included. *)
Definition occupied (a : Z) (ar : VmArea) : RangeEntry unit := mkRange a (a + area_size ar + PAGE_SIZE) tt.
Definition ranges (G : list (Z * VmArea)) : list (Z * RangeEntry unit) := keyed occupied G.

Section Index.
Context {MA MS : Type} `{!OrdMapOps MA VmArea} `{!OrdMapOps MS (RangeEntry unit)} `{!OrdMap MA VmArea} `{!OrdMap MS (RangeEntry unit)}.
Implicit Types s : Vm MA MS.

(** Both trees list [G]; the second is made when it is needed. *)
Definition spaced (G : list (Z * VmArea)) s : Prop := match vm_space s with Some t => mt_ok t (ranges G) | None => G = [] end.
Definition indexes (G : list (Z * VmArea)) s : Prop := om_rep (vm_areas s) G /\ spaced G s.
Definition room (G : list (Z * VmArea)) : Prop := (length G < om_cap (M := MA) (V := VmArea))%nat /\ (length G < om_cap (M := MS) (V := RangeEntry unit))%nat.

Lemma indexes_sorted G s : indexes G s -> sorted G.
Proof. intros [H _]. by eapply om_rep_sorted. Qed.
(** Areas lie apart. *)
Lemma indexes_apart G s a ar a' ar' :
  indexes G s -> (a, ar) ∈ G -> (a', ar') ∈ G -> a <> a' -> a + area_size ar + PAGE_SIZE <= a' \/ a' + area_size ar' + PAGE_SIZE <= a.
Proof.
  intros [_ H] H1 H2 Hne. unfold spaced in H. destruct (vm_space s) as [t|]; [|subst; by apply elem_of_nil in H1]. destruct H as [_ Hwf].
  destruct (ranges_wf_disjoint 0 (ranges G) _ _ _ _ Hwf (keyed_elem occupied _ _ _ H1) (keyed_elem occupied _ _ _ H2)) as [[= ? _]|H]; [done|exact H].
Qed.

Lemma ensure_ok G s : spaced G s -> exists t, ensure_addr_space s = Ret (tt, with_space (Some t) s) /\ mt_ok t (ranges G).
Proof.
  unfold spaced. intros H. unfold ensure_addr_space. destruct (vm_space s) as [t|] eqn:Ht.
  - exists t. split; [|done]. f_equal. f_equal. destruct s. cbn in Ht. by subst.
  - subst G. eexists. split; [done|]. apply new_ok.
Qed.
Lemma on_space_run {A} (c : MS -> exec (A * MS)) s t a t' : vm_space s = Some t -> c t = Ret (a, t') -> on_space c s = Ret (a, with_space (Some t') s).
Proof. intros Ht H. unfold on_space. by rewrite Ht, H. Qed.
Lemma on_areas_run {A} (c : MA -> exec (A * MA)) s a t' : c (vm_areas s) = Ret (a, t') -> on_areas c s = Ret (a, with_areas t' s).
Proof. intros H. unfold on_areas. by rewrite H. Qed.

(** The area is taken out of both trees. *)
Lemma unreserve_ok {C} G s a (k : VmM MA MS C) :
  indexes G s -> exists t sp, indexes (al_remove a G) (with_space (Some sp) (with_areas t s)) /\
    om_remove (vm_areas s) a = Ret (al_lookup a G, t) /\
    (ensure_addr_space;; on_space (fun t => MapleTree.remove t a);; k) (with_areas t s) = k (with_space (Some sp) (with_areas t s)).
Proof.
  intros Hi. destruct (om_remove_ok (vm_areas s) G a (proj1 Hi)) as (t & R & Hrep).
  destruct (ensure_ok G (with_areas t s) (proj2 Hi)) as (sp & R1 & Hsp). destruct (remove_ok sp (ranges G) a Hsp) as (sp' & R2 & Hsp'). exists t, sp'.
  split; [split; [done|]; unfold spaced, ranges in *; cbn; by rewrite <- keyed_remove|]. split; [done|].
  rewrite (vbind_ret _ _ _ _ _ R1). by rewrite (vbind_ret _ _ _ _ _ (on_space_run _ (with_space (Some sp) (with_areas t s)) sp _ _ eq_refl R2)).
Qed.

(** ** Reserving *)
Context (vstart vend : Z).
Hypothesis Hend : 0 < vstart /\ vend < u64_size /\ vstart + 2 ^ 44 <= vend /\ (PAGE_SIZE | vstart).

Lemma reserve_area_ok G s ar :
  indexes G s -> room G -> Forall (fun e => (PAGE_SIZE | e.1) /\ (PAGE_SIZE | area_size e.2)) G ->
  (PAGE_SIZE | area_size ar) -> 0 < area_size ar <= 2 ^ 44 - PAGE_SIZE ->
  let size := area_size ar + PAGE_SIZE in
  (exists sp, reserve_area vstart vend ar s = Ret (None, with_space (Some sp) s) /\ indexes G (with_space (Some sp) s) /\ forall x, ~ gap_at (ranges G) size vstart vend x) \/
  exists a sp t, reserve_area vstart vend ar s = Ret (Some a, with_areas t (with_space (Some sp) s)) /\
    indexes (al_insert a ar G) (with_areas t (with_space (Some sp) s)) /\ al_lookup a G = None /\ (PAGE_SIZE | a) /\
    gap_at (ranges G) size vstart vend a /\ forall x, gap_at (ranges G) size vstart vend x -> a <= x.
Proof.
  intros [Hrep Hsp] [Hc1 Hc2] Hal Hsz Hb size. destruct Hend as (E1 & E2 & E3 & E4). unfold reserve_area, checked_add64. fold size.
  rewrite (proj2 (Z.ltb_lt size u64_size)) by (unfold size, PAGE_SIZE in *; lia). destruct (ensure_ok G s Hsp) as (sp & R1 & Hsp1). rewrite (vbind_ret _ _ _ _ _ R1).
  destruct (find_gap_ok sp (ranges G) size vstart vend Hsp1) as (o & R2 & Ho); [unfold size, PAGE_SIZE in *; lia..|].
  rewrite (vbind_ret _ _ _ o (with_space (Some sp) s)) by (refine (on_space_run _ (with_space (Some sp) s) sp o sp eq_refl _); by rewrite R2).
  destruct o as [a|]; [right|left; by exists sp]. destruct Ho as [Hgap Hlow]. pose proof Hgap as (G1 & G2 & G3).
  rewrite (proj2 (Z.ltb_lt (a + size) u64_size)) by lia. destruct (ensure_ok G (with_space (Some sp) s) Hsp1) as (sp1 & R3 & _).
  injection R3 as R3. assert (sp1 = sp) as -> by congruence.
  rewrite (vbind_ret _ _ _ tt (with_space (Some sp) s)) by done.
  destruct (insert_ok sp (ranges G) a (a + size) tt Hsp1) as (sp2 & R4 & Hsp2); [unfold ranges, keyed; by rewrite length_map|unfold size, PAGE_SIZE in *; lia|lia|done|].
  rewrite (vbind_ret _ _ _ _ _ (on_space_run _ (with_space (Some sp) s) sp _ _ eq_refl R4)).
  assert (Hfresh : al_lookup a G = None).
  { pose proof (no_overlap_fresh 0 (ranges G) a (a + size) (proj2 Hsp1) ltac:(unfold size, PAGE_SIZE in *; lia) G3) as Hf. unfold ranges in Hf. rewrite keyed_lookup in Hf. by destruct (al_lookup a G). }
  destruct (om_insert_ok (vm_areas s) G a ar Hrep Hc1 Hfresh) as (t & R5 & Hrep').
  rewrite (vbind_ret _ _ _ _ _ (on_areas_run (fun t => om_insert t a ar) (with_space (Some sp2) s) _ _ R5)).
  exists a, sp2, t. split; [done|]. split; [split; [done|]|].
  - unfold spaced. cbn. unfold ranges. rewrite <- keyed_insert. unfold occupied. by replace (a + area_size ar + PAGE_SIZE) with (a + size) by (unfold size; lia).
  - split; [done|]. split; [|done]. eapply lowest_gap_aligned; [exact E4| |exact Hgap|exact Hlow]. apply Forall_fmap. eapply Forall_impl; [exact Hal|].
    intros [a' ar'] [H1 H2]. cbn. apply Z.divide_add_r; [by apply Z.divide_add_r|by exists 1].
Qed.
End Index.

Lemma al_remove_inserted {V} k (v : V) l : al_lookup k l = None -> al_remove k (al_insert k v l) = l.
Proof.
  intros Hn. pose proof (proj1 (al_lookup_None k l) Hn) as Hne. unfold al_remove. induction l as [|[k' v'] l IH]; cbn [al_insert].
  - by rewrite filter_cons_False by (cbn; lia).
  - apply Forall_cons in Hne as [Hk Hne]. cbn in Hk. destruct (k <? k').
    + rewrite filter_cons_False by (cbn; lia). apply (al_remove_absent k ((k', v') :: l)). by constructor.
    + rewrite filter_cons_True by done. f_equal. apply IH; [|done]. by apply al_lookup_None.
Qed.

(** The number of pages that hold [size] bytes. *)
Lemma whole_pages_ok size :
  0 < size < u64_size ->
  match whole_pages (round_up size) with
  | Some (bytes, nr) => bytes = nr * PAGE_SIZE /\ 0 < nr < 2 ^ 32 /\ (nr - 1) * PAGE_SIZE < size <= nr * PAGE_SIZE
  | None => 2 ^ 32 * PAGE_SIZE - PAGE_SIZE < size
  end.
Proof.
  intros Hs. unfold round_up, checked_add64. destruct (Z.ltb_spec (size + (PAGE_SIZE - 1)) u64_size) as [Hlt|]; cbn [fmap option_fmap option_map whole_pages]; [|unfold PAGE_SIZE in *; lia].
  rewrite page_of_eq by (unfold in_u64, PAGE_SIZE in *; lia). set (nr := (size + (PAGE_SIZE - 1)) / PAGE_SIZE).
  assert (Hnr : nr * PAGE_SIZE <= size + (PAGE_SIZE - 1) < nr * PAGE_SIZE + PAGE_SIZE).
  { pose proof (Z.div_mod (size + (PAGE_SIZE - 1)) PAGE_SIZE ltac:(done)) as E. fold nr in E. pose proof (Z.mod_pos_bound (size + (PAGE_SIZE - 1)) PAGE_SIZE ltac:(done)). lia. }
  rewrite Z.div_mul by done. unfold PAGE_SIZE in *.
  destruct (Z.eqb_spec (nr * 4096) 0); [lia|]. destruct (Z.eqb_spec nr 0); [lia|]. destruct (Z.ltb_spec 4294967295 nr); cbn [orb]; lia.
Qed.

Section Theorems.
Context {MA MS : Type} `{!OrdMapOps MA VmArea} `{!OrdMapOps MS (RangeEntry unit)} `{!OrdMap MA VmArea} `{!OrdMap MS (RangeEntry unit)}.
Context (apic pl vb vstart vend r dm : Z).
Hypothesis Hw : window apic vstart vend r.
Implicit Types s : Vm MA MS.

Abbreviation self := (manager pl vb r dm).
Abbreviation in_use := (in_use (levels self) (root_phys self)).
Abbreviation preserves := (preserves (levels self) (root_phys self)).
Abbreviation except := (except (levels self) (root_phys self)).
Abbreviation window_ok := (window_ok pl vb vstart vend r dm).
Abbreviation same_outside := (same_outside pl vb vstart vend r dm).
Abbreviation kernel_space := (kernel_space r dm).
Abbreviation area_in := (area_in vstart vend).
Abbreviation filled := (filled pl vb vstart vend r dm).
Abbreviation cleared := (cleared pl vb vstart vend r dm).

(** ** The invariant *)
Definition is_device (ar : VmArea) : bool := vm_contains (area_flags ar) VM_IOREMAP.
(** What the [i]-th page of an area maps. *)
Definition page_entry (ar : VmArea) (i : Z) (e : Z * Z) : Prop :=
  if is_device ar then e = (area_phys_base ar / PAGE_SIZE + i, IOREMAP_PTE) else e.2 = VMALLOC_PTE.
Definition has_page (a : Z) (ar : VmArea) (n : Z) : Prop := a / PAGE_SIZE <= n < a / PAGE_SIZE + area_nr_pages ar.

Record area_ok (W : gmap Z (Z * Z)) (a : Z) (ar : VmArea) : Prop := {
  ao_place : area_in a (area_nr_pages ar + 1);
  ao_size : area_size ar = area_nr_pages ar * PAGE_SIZE;
  ao_count : 0 < area_nr_pages ar;
  ao_ready : vm_contains (area_flags ar) VM_ALLOCATING = false;
  ao_pages n : has_page a ar n -> exists e, W !! n = Some e /\ page_entry ar (n - a / PAGE_SIZE) e
}.

Record vm_ok s (B : gmap Z Block) (G : list (Z * VmArea)) (W : gmap Z (Z * Z)) : Prop := {
  vo_kernel : kernel_space s;
  vo_window : window_ok (vm_mem s) B W;
  vo_indexes : indexes G s;
  vo_areas a ar : (a, ar) ∈ G -> area_ok W a ar;
  vo_mapped n : is_Some (W !! n) -> exists a ar, (a, ar) ∈ G /\ has_page a ar n
}.

(** Areas apart in bytes are apart in pages. *)
Lemma apart_pages a nr a' n : (PAGE_SIZE | a) -> (PAGE_SIZE | a') -> a + nr * PAGE_SIZE <= a' -> a / PAGE_SIZE <= n < a / PAGE_SIZE + nr -> n < a' / PAGE_SIZE.
Proof. intros [k ->] [k' ->] Hle. rewrite !Z.div_mul by done. unfold PAGE_SIZE in *. lia. Qed.

Lemma other_pages s B G W a ar a' ar' n :
  vm_ok s B G W -> (a, ar) ∈ G -> (a', ar') ∈ G -> a <> a' -> has_page a' ar' n -> ~ has_page a ar n.
Proof.
  intros [_ _ Hi Ha _] H1 H2 Hne Hn Hn'. destruct (Ha _ _ H1) as [(P1 & _) S1 _ _ _], (Ha _ _ H2) as [(P2 & _) S2 _ _ _]. unfold has_page in *.
  destruct (indexes_apart G s _ _ _ _ Hi H1 H2 Hne) as [H|H]; rewrite ?S1, ?S2 in H; unfold PAGE_SIZE at 2 in H.
  - pose proof (apart_pages a (area_nr_pages ar) a' n P1 P2 ltac:(lia) Hn'). lia.
  - pose proof (apart_pages a' (area_nr_pages ar') a n P2 P1 ltac:(lia) Hn). lia.
Qed.

(** Nothing is mapped where a gap was found. *)
Lemma gap_unmapped s B G W a nr n :
  vm_ok s B G W -> (PAGE_SIZE | a) -> no_overlap (ranges G) a (a + nr * PAGE_SIZE) -> a / PAGE_SIZE <= n < a / PAGE_SIZE + nr -> W !! n = None.
Proof.
  intros [_ _ _ Ha Hm] Hal Hno Hn. destruct (W !! n) as [e|] eqn:He; [|done]. destruct (Hm n ltac:(by eexists)) as (a' & ar' & Hin & Hn').
  destruct (Ha _ _ Hin) as [(P & _) S _ _ _]. unfold no_overlap in Hno. rewrite Forall_forall in Hno. specialize (Hno _ (keyed_elem occupied _ _ _ Hin)).
  unfold apart, occupied in Hno. cbn in Hno. unfold has_page in Hn'. destruct Hno as [H|H].
  - pose proof (apart_pages a nr a' n Hal P ltac:(lia) Hn). lia.
  - rewrite S in H. unfold PAGE_SIZE at 2 in H. pose proof (apart_pages a' (area_nr_pages ar') a n P Hal ltac:(lia) Hn'). lia.
Qed.

(** ** Adding an area *)
Lemma vm_ok_add s B G W a ar good s' B' W' :
  vm_ok s B G W -> kernel_space s' -> indexes (al_insert a ar G) s' -> area_in a (area_nr_pages ar + 1) ->
  area_size ar = area_nr_pages ar * PAGE_SIZE -> 0 < area_nr_pages ar -> vm_contains (area_flags ar) VM_ALLOCATING = false ->
  no_overlap (ranges G) a (a + area_nr_pages ar * PAGE_SIZE) -> (forall n e, good n e -> page_entry ar (n - a / PAGE_SIZE) e) ->
  filled good (a / PAGE_SIZE) (a / PAGE_SIZE + area_nr_pages ar) (vm_mem s) B W (vm_mem s') B' W' -> vm_ok s' B' (al_insert a ar G) W'.
Proof.
  intros Hok Hk Hi Hpl Hsz Hc Hr Hno Hgood [fw _ _ fo fn].
  assert (Hold : forall n, is_Some (W !! n) -> W' !! n = W !! n).
  { intros n [e He]. apply fo. intros Hn. rewrite (gap_unmapped s B G W a (area_nr_pages ar) n Hok (proj1 Hpl) Hno Hn) in He. done. }
  split; try done.
  - intros a' ar' [[= -> ->]|Hin]%al_insert_elem.
    + split; try done. intros n Hn. destruct (fn n Hn) as (e & He & Hg). eauto.
    + destruct (vo_areas _ _ _ _ Hok _ _ Hin) as [h1 h2 h3 h4 h5]. split; try done. intros n Hn. destruct (h5 n Hn) as (e & He & Hp).
      exists e. split; [|done]. rewrite Hold; [done|by eexists].
  - intros n Hn. destruct (decide (a / PAGE_SIZE <= n < a / PAGE_SIZE + area_nr_pages ar)) as [Hin|Hout].
    + exists a, ar. split; [|done]. apply al_insert_elem. by left.
    + rewrite (fo n Hout) in Hn. destruct (vo_mapped _ _ _ _ Hok n Hn) as (a' & ar' & H1 & H2). exists a', ar'. split; [|done]. apply al_insert_elem. by right.
Qed.
(** The memory and the indexes are as they were. *)
Lemma vm_ok_same s B G W s' B' :
  vm_ok s B G W -> kernel_space s' -> indexes G s' -> window_ok (vm_mem s') B' W -> vm_ok s' B' G W.
Proof. intros [a b c d e] H1 H2 H3. by split. Qed.

Lemma area_aligned s B G W : vm_ok s B G W -> Forall (fun e => (PAGE_SIZE | e.1) /\ (PAGE_SIZE | area_size e.2)) G.
Proof.
  intros Hok. apply Forall_forall. intros [a ar] Hin. destruct (vo_areas _ _ _ _ Hok a ar Hin) as [(H & _) S _ _ _]. split; [done|]. cbn. rewrite S. by exists (area_nr_pages ar).
Qed.
Lemma window_bounds : 0 < vstart /\ vend < u64_size /\ vstart + 2 ^ 44 <= vend /\ (PAGE_SIZE | vstart).
Proof. destruct Hw. done. Qed.

(** A reserved area has room for its pages and the guard page. *)
Lemma gap_area (l : list (Z * RangeEntry unit)) a nr :
  0 < nr -> (PAGE_SIZE | a) -> gap_at l (nr * PAGE_SIZE + PAGE_SIZE) vstart vend a ->
  area_in a (nr + 1) /\ area_in a nr /\ no_overlap l a (a + nr * PAGE_SIZE) /\ a <> 0.
Proof.
  intros Hnr Hal (g1 & g2 & g3). pose proof (wd_start _ _ _ _ Hw). unfold VmallocWindow.area_in. split; [split; [done|]; unfold PAGE_SIZE in *; lia|].
  split; [split; [done|]; unfold PAGE_SIZE in *; lia|]. split; [|lia]. unfold no_overlap in *. eapply Forall_impl; [exact g3|]. intros kv Hkv. unfold apart in *. unfold PAGE_SIZE in *. lia.
Qed.

(** Giving up an area that has been filled in part. *)
Lemma cleanup_partial_ok s0 B G W s a ar B1 W1 nr j :
  vm_ok s0 B G W -> kernel_space s -> indexes (al_insert a ar G) s -> al_lookup a G = None -> area_in a nr -> 0 <= j < nr ->
  no_overlap (ranges G) a (a + nr * PAGE_SIZE) ->
  filled (new_frame pl vb r dm (vm_mem s0) B) (a / PAGE_SIZE) (a / PAGE_SIZE + j) (vm_mem s0) B W (vm_mem s) B1 W1 ->
  exists s' B', cleanup_partial apic pl vb a j s = Ret (tt, s') /\ vm_ok s' B' G W /\ preserves (vm_mem s0) B (vm_mem s') B' /\ same_outside (vm_mem s0) (vm_mem s').
Proof.
  intros Hok Hk Hi Hn Ha Hj Hno Hfil. assert (Haj : area_in a j) by (destruct Ha as (? & ? & ? & ?); split; [done|]; unfold PAGE_SIZE in *; lia).
  unfold cleanup_partial. rewrite cleanup_is_release.
  destruct (vfree_pages_ok apic pl vb vstart vend r dm Hw 0 a j (Z.to_nat j) 0 s B1 W1 Hk (fi_window _ _ _ _ _ _ _ _ _ _ _ _ _ _ _ Hfil) Haj) as (m' & B' & R & C); [lia|lia| |].
  { intros _ i q f Hij Hq. destruct (fi_new _ _ _ _ _ _ _ _ _ _ _ _ _ _ _ Hfil (a / PAGE_SIZE + i) ltac:(lia)) as (e & He & Hf & _). rewrite Hq in He. by injection He as <-. }
  rewrite (vbind_ret _ _ _ _ _ R). rewrite Z.add_0_r in C.
  destruct (fill_and_clear pl vb vstart vend r dm 0 _ _ _ _ _ _ _ _ _ _ _ _ (Z.le_refl _) Hfil C) as (H1 & H2 & H3).
  { intros n Hn'. apply (gap_unmapped s0 B G W a nr n Hok (proj1 Ha) Hno). lia. } { by intros _ n e [_ He]. }
  destruct (unreserve_ok (al_insert a ar G) (with_mem m' s) a (mret tt : VmM MA MS unit) Hi) as (t & sp & Hi' & R1 & R2).
  rewrite (vbind_ret _ _ _ _ _ (on_areas_run (fun t => om_remove t a) (with_mem m' s) _ _ R1)), R2. rewrite al_remove_inserted in Hi' by done.
  exists (with_space (Some sp) (with_areas t (with_mem m' s))), B'. split; [done|]. split; [|done]. by apply (vm_ok_same s0 B).
Qed.

(** ** Allocating memory *)
Definition memory_area (nr : Z) : VmArea := mkArea (nr * PAGE_SIZE) 0 (Z.lor VM_ALLOC VM_INUSE) nr.

(** A new area at [a]: its pages are mapped as [good] says, the rest of the window is as it was. *)
Definition area_added (good : Z -> Z * Z -> Prop) (a nr : Z) (W W' : gmap Z (Z * Z)) : Prop :=
  forall n, if decide (a / PAGE_SIZE <= n < a / PAGE_SIZE + nr) then exists e, W' !! n = Some e /\ good n e else W' !! n = W !! n.
Lemma filled_added good a nr m B W m' B' W' :
  filled good (a / PAGE_SIZE) (a / PAGE_SIZE + nr) m B W m' B' W' -> area_added good a nr W W'.
Proof. intros [_ _ _ fo fn] n. case_decide; auto. Qed.

Lemma vmalloc_ok s B G W size :
  vm_ok s B G W -> room (MA := MA) (MS := MS) G -> 0 <= size < u64_size ->
  exists p s' B', vmalloc apic pl vb vstart vend size s = Ret (p, s') /\
    preserves (vm_mem s) B (vm_mem s') B' /\ same_outside (vm_mem s) (vm_mem s') /\
    (p = 0 /\ vm_ok s' B' G W \/
     exists nr W', p <> 0 /\ (nr - 1) * PAGE_SIZE < size <= nr * PAGE_SIZE /\ al_lookup p G = None /\
       vm_ok s' B' (al_insert p (memory_area nr) G) W' /\ area_added (new_frame pl vb r dm (vm_mem s) B) p nr W W').
Proof.
  intros Hok Hroom Hsize. pose proof Hok as [Hk Hwo Hi Hareas _]. unfold vmalloc. rewrite asks_run. unfold vmalloc_initialized. rewrite (proj1 Hk). cbn [negb orb].
  rewrite orb_false_r. destruct (Z.eqb_spec size 0) as [|Hne]; [exists 0, s, B; split; [done|]; split; [apply preserves_refl|]; split; [done|by left]|].
  unfold __vmalloc. pose proof (whole_pages_ok size ltac:(lia)) as Hp. destruct (whole_pages (round_up size)) as [[bytes nr]|].
  2: { exists 0, s, B. split; [done|]. split; [apply preserves_refl|]. split; [done|by left]. }
  destruct Hp as (-> & Hnr & Hsz). set (ar0 := mkArea (nr * PAGE_SIZE) 0 _ nr).
  destruct (reserve_area_ok vstart vend window_bounds G s ar0 Hi Hroom (area_aligned _ _ _ _ Hok)) as [(sp & R & Hi' & _)|(a & sp & t & R & Hi' & Hnone & Hal & Hgap & _)];
    [by exists nr|cbn; unfold PAGE_SIZE in *; lia| |].
  { rewrite (vbind_ret _ _ _ _ _ R). exists 0, (with_space (Some sp) s), B. split; [done|]. split; [apply preserves_refl|]. split; [done|]. left. split; [done|]. by apply (vm_ok_same s B). }
  rewrite (vbind_ret _ _ _ _ _ R). destruct (gap_area (ranges G) a nr ltac:(lia) Hal Hgap) as (Ha1 & Ha & Hno & Ha0).
  set (s1 := with_areas t (with_space (Some sp) s)) in *. assert (Hk1 : kernel_space s1) by exact Hk.
  destruct (vmalloc_pages_ok apic pl vb vstart vend r dm Hw GFP_F_KERNEL a nr (Z.to_nat nr) 0 s1 B W Hk1 Hwo Ha) as (m' & B' & W' & j & Hfil & Hres); [lia|lia| |].
  { intros i Hin. apply (gap_unmapped s B G W a nr _ Hok Hal Hno). lia. }
  rewrite Z.add_0_r in Hfil. destruct Hres as [[-> R1]|[Hj R1]].
  - rewrite (vbind_ret _ _ _ _ _ R1). cbn [negb]. destruct (om_update_ok t (al_insert a ar0 G) a
      (fun x => mkArea (area_size x) (area_phys_base x) (vm_clear (area_flags x) VM_ALLOCATING) (area_nr_pages x)) (proj1 Hi')) as (t' & R2 & Hrep).
    rewrite (vbind_ret _ _ _ _ _ (on_areas_run (fun t => om_update t a _) (with_mem m' s1) _ _ R2)). rewrite al_update_insert in Hrep by done.
    exists a, (with_areas t' (with_mem m' s1)), B'. split; [done|]. split; [apply Hfil|]. split; [apply Hfil|]. right. exists nr, W'. split; [done|]. split; [done|]. split; [done|].
    split; [|by eapply filled_added]. apply (vm_ok_add s B G W a (memory_area nr) (new_frame pl vb r dm (vm_mem s) B)); try done; [|cbn; lia|by intros n e [He _]].
    split; [exact Hrep|]. pose proof (proj2 Hi') as Hsp. unfold spaced, ranges in *. cbn in Hsp |- *. rewrite <- keyed_insert in Hsp |- *. exact Hsp.
  - destruct (cleanup_partial_ok s B G W (with_mem m' s1) a ar0 B' W' nr j Hok Hk1 Hi' Hnone Ha Hj Hno Hfil) as (s' & B'' & R2 & H1 & H2 & H3).
    rewrite (vbind_ret _ _ s1 false s') by (rewrite R1; by rewrite (vbind_ret _ _ _ _ _ R2)). exists 0, s', B''. split; [done|]. split; [done|]. split; [done|]. by left.
Qed.

(** ** Releasing *)
Lemma vfree_area_ok s B G W a ar :
  kernel_space s -> window_ok (vm_mem s) B W -> indexes G s -> al_lookup a G = Some ar -> a <> 0 -> vm_contains (area_flags ar) VM_ALLOCATING = false ->
  area_in a (area_nr_pages ar) -> (is_device ar = false -> forall n q f, has_page a ar n -> W !! n = Some (q, f) -> f = VMALLOC_PTE) ->
  exists s' B', vfree apic pl vb a s = Ret (tt, s') /\ kernel_space s' /\ indexes (al_remove a G) s' /\
    cleared (area_flags ar) (a / PAGE_SIZE) (a / PAGE_SIZE + area_nr_pages ar) (vm_mem s) B W (vm_mem s') B'.
Proof.
  intros Hk Hwo Hi Hl Ha0 Hfl Ha Hown. unfold vfree. rewrite asks_run. unfold vmalloc_initialized. rewrite (proj1 Hk). cbn [negb orb].
  rewrite (proj2 (Z.eqb_neq a 0)) by done. cbn [orb]. unfold get_area at 1.
  rewrite (vbind_ret _ _ s (al_lookup a G) s) by (by rewrite (om_get_ok _ _ _ (proj1 Hi))). rewrite Hl, Hfl.
  destruct (unreserve_ok G s a (__vfree apic pl vb a ar : VmM MA MS unit) Hi) as (t & sp & Hi' & R1 & R2).
  rewrite (vbind_ret _ _ _ _ _ (on_areas_run (fun t => om_remove t a) s _ _ R1)), Hl, R2. unfold __vfree.
  destruct (vfree_pages_ok apic pl vb vstart vend r dm Hw (area_flags ar) a (area_nr_pages ar) (Z.to_nat (area_nr_pages ar)) 0
    (with_space (Some sp) (with_areas t s)) B W Hk Hwo Ha) as (m' & B' & R & C); [lia|destruct Ha; lia| |].
  { intros Hd j q f Hj Hq. apply (Hown Hd (a / PAGE_SIZE + j) q f); [unfold has_page; lia|done]. }
  rewrite Z.add_0_r in C. eexists _, B'. split; [exact R|]. done.
Qed.

Lemma vm_ok_remove s B G W a ar s' B' :
  vm_ok s B G W -> (a, ar) ∈ G -> kernel_space s' -> indexes (al_remove a G) s' ->
  cleared (area_flags ar) (a / PAGE_SIZE) (a / PAGE_SIZE + area_nr_pages ar) (vm_mem s) B W (vm_mem s') B' ->
  vm_ok s' B' (al_remove a G) (without W (a / PAGE_SIZE) (a / PAGE_SIZE + area_nr_pages ar)).
Proof.
  intros Hok Hin Hk Hi [Hc _ _ _ _]. split; try done.
  - intros a' ar' [Hne Hin']%al_remove_elem. cbn in Hne. destruct (vo_areas _ _ _ _ Hok _ _ Hin') as [h1 h2 h3 h4 h5]. split; try done.
    intros n Hn. destruct (h5 n Hn) as (e & He & Hp). exists e. split; [|done]. rewrite lookup_without, decide_False; [done|].
    intros Hb. by apply (other_pages s B G W a ar a' ar' n Hok Hin Hin').
  - intros n. rewrite lookup_without. case_decide as Hb; [by intros []|]. intros Hn. destruct (vo_mapped _ _ _ _ Hok n Hn) as (a' & ar' & H1 & H2).
    exists a', ar'. split; [|done]. apply al_remove_elem. split; [|done]. cbn. intros ->. apply Hb.
    pose proof (indexes_sorted G s (vo_indexes _ _ _ _ Hok)) as Hs. apply (al_lookup_elem _ _ _ Hs) in H1, Hin. rewrite Hin in H1. by injection H1 as <-.
Qed.

Lemma vfree_ok s B G W a :
  vm_ok s B G W ->
  exists s' B', vfree apic pl vb a s = Ret (tt, s') /\ same_outside (vm_mem s) (vm_mem s') /\ no_alloc B B' /\
    match al_lookup a G with
    | None => vm_mem s' = vm_mem s /\ B' = B /\ vm_ok s' B' G W
    | Some ar =>
        let lo := a / PAGE_SIZE in let hi := lo + area_nr_pages ar in
        vm_ok s' B' (al_remove a G) (without W lo hi) /\
        except (fun q => is_device ar = false /\ frames_of W lo hi q) (vm_mem s) B (vm_mem s') B' /\
        (is_device ar = false -> forall q, frames_of W lo hi q -> gone B' q)
    end.
Proof.
  intros Hok. pose proof Hok as [Hk Hwo Hi Hareas _]. destruct (al_lookup a G) as [ar|] eqn:Hl.
  - assert (Hin : (a, ar) ∈ G) by (apply al_lookup_elem; [by eapply indexes_sorted|done]). destruct (Hareas _ _ Hin) as [(p1 & p2 & p3 & p4) Hsz Hc Hr Hpg].
    destruct (vfree_area_ok s B G W a ar Hk Hwo Hi Hl) as (s' & B' & R & Hk' & Hi' & C).
    { pose proof (wd_start _ _ _ _ Hw). lia. } { done. } { split; [done|]. unfold PAGE_SIZE in *. lia. }
    { intros Hd n q f Hn Hq. destruct (Hpg n Hn) as (e & He & Hp). rewrite Hq in He. injection He as <-. unfold page_entry in Hp. by rewrite Hd in Hp. }
    exists s', B'. split; [done|]. split; [apply C|]. split; [apply C|]. cbn zeta. split; [by apply (vm_ok_remove s B)|]. split; [apply C|]. intros Hd q. by apply (cl_gone _ _ _ _ _ _ _ _ _ _ _ _ _ _ C).
  - unfold vfree. rewrite asks_run. unfold vmalloc_initialized. rewrite (proj1 Hk). cbn [negb orb]. rewrite orb_false_r.
    destruct (Z.eqb_spec a 0); [by exists s, B|]. unfold get_area. rewrite (vbind_ret _ _ s (al_lookup a G) s) by (by rewrite (om_get_ok _ _ _ (proj1 Hi))). rewrite Hl.
    destruct (om_remove_ok (vm_areas s) G a (proj1 Hi)) as (t & R1 & Hrep). rewrite (vbind_ret _ _ _ _ _ (on_areas_run (fun t => om_remove t a) s _ _ R1)), Hl.
    rewrite al_remove_absent in Hrep by (by apply al_lookup_None). exists (with_areas t s), B. split; [done|]. split; [done|]. split; [done|]. split; [done|]. split; [done|].
    apply (vm_ok_same s B); try done. split; [done|]. exact (proj2 Hi).
Qed.

(** ** Device memory *)
Definition device_area (phys_base nr : Z) : VmArea := mkArea (nr * PAGE_SIZE) phys_base (vm_set (Z.lor VM_ALLOC VM_INUSE) VM_IOREMAP) nr.

Lemma ioremap_ok s B G W ph size :
  vm_ok s B G W -> room (MA := MA) (MS := MS) G -> 0 <= ph -> 0 <= size -> ph + size <= 2 ^ 52 ->
  exists p s' B', ioremap apic pl vb vstart vend ph size s = Ret (p, s') /\
    preserves (vm_mem s) B (vm_mem s') B' /\ same_outside (vm_mem s) (vm_mem s') /\
    (p = 0 /\ vm_ok s' B' G W \/
     exists a nr W', let base := ph / PAGE_SIZE * PAGE_SIZE in
       p = a + ph mod PAGE_SIZE /\ a <> 0 /\ base + (nr - 1) * PAGE_SIZE < ph + size <= base + nr * PAGE_SIZE /\ al_lookup a G = None /\
       vm_ok s' B' (al_insert a (device_area base nr) G) W' /\ area_added (device_page base a) a nr W W').
Proof.
  intros Hok Hroom Hph0 Hs0 Hmax. pose proof Hok as [Hk Hwo Hi Hareas _]. unfold ioremap.
  destruct (Z.eqb_spec size 0) as [|Hne]; [exists 0, s, B; split; [done|]; split; [apply preserves_refl|]; split; [done|by left]|].
  change (PAGE_SIZE - 1) with (2 ^ 12 - 1). rewrite land_low by lia. change (2 ^ 12) with PAGE_SIZE. rewrite page_of_eq by (unfold in_u64; lia).
  set (b := ph / PAGE_SIZE). set (off := ph mod PAGE_SIZE). pose proof (Z.div_mod ph PAGE_SIZE ltac:(done)) as Hdm. fold b off in Hdm.
  pose proof (Z.mod_pos_bound ph PAGE_SIZE ltac:(done)) as Hoff. fold off in Hoff. assert (Hb : 0 <= b) by (unfold PAGE_SIZE in *; lia).
  unfold checked_add64 at 1. rewrite (proj2 (Z.ltb_lt _ _)) by (unfold PAGE_SIZE in *; lia). cbn [mbind option_bind].
  pose proof (whole_pages_ok (size + off) ltac:(unfold PAGE_SIZE in *; lia)) as Hp. destruct (whole_pages (round_up (size + off))) as [[bytes nr]|].
  2: { exists 0, s, B. split; [done|]. split; [apply preserves_refl|]. split; [done|by left]. }
  destruct Hp as (-> & Hnr & Hsz). fold (device_area (b * PAGE_SIZE) nr). set (ar := device_area (b * PAGE_SIZE) nr).
  destruct (reserve_area_ok vstart vend window_bounds G s ar Hi Hroom (area_aligned _ _ _ _ Hok)) as [(sp & R & Hi' & _)|(a & sp & t & R & Hi' & Hnone & Hal & Hgap & _)];
    [by exists nr|cbn; unfold PAGE_SIZE in *; lia| |].
  { rewrite (vbind_ret _ _ _ _ _ R). exists 0, (with_space (Some sp) s), B. split; [done|]. split; [apply preserves_refl|]. split; [done|]. left. split; [done|]. by apply (vm_ok_same s B). }
  rewrite (vbind_ret _ _ _ _ _ R). destruct (gap_area (ranges G) a nr ltac:(lia) Hal Hgap) as (Ha1 & Ha & Hno & Ha0).
  set (s1 := with_areas t (with_space (Some sp) s)) in *. assert (Hk1 : kernel_space s1) by exact Hk.
  assert (Hfree : forall n, a / PAGE_SIZE <= n < a / PAGE_SIZE + nr -> W !! n = None) by (intros n; by apply (gap_unmapped s B G W a nr n Hok Hal Hno)).
  destruct (ioremap_pages_ok apic pl vb vstart vend r dm Hw b a nr (Z.to_nat nr) 0 s1 B W Hk1 Hwo Ha) as (m' & B' & W' & j & Hfil & Hres);
    [lia|lia|done|unfold PAGE_SIZE in *; nia|intros i Hin; apply Hfree; lia|].
  rewrite Z.add_0_r in Hfil. destruct Hres as [[-> R1]|[Hj R1]].
  - rewrite (vbind_ret _ _ _ _ _ R1). cbn [negb]. rewrite add64_small.
    2: { destruct Ha1 as (_ & ? & _ & ?). pose proof (wd_end _ _ _ _ Hw). pose proof (wd_start _ _ _ _ Hw). unfold PAGE_SIZE in *. lia. }
    exists (a + off), (with_mem m' s1), B'. split; [done|]. split; [apply Hfil|]. split; [apply Hfil|]. right. exists a, nr, W'. split; [done|]. split; [done|].
    split; [unfold PAGE_SIZE in *; lia|]. split; [done|]. split; [|by eapply filled_added].
    apply (vm_ok_add s B G W a ar (device_page (b * PAGE_SIZE) a)); try done. cbn. lia.
  - destruct (vfree_area_ok (with_mem m' s1) B' (al_insert a ar G) W' a ar Hk1 (fi_window _ _ _ _ _ _ _ _ _ _ _ _ _ _ _ Hfil) Hi') as (s' & B'' & R2 & Hk' & Hi'' & C); try done.
    { apply al_lookup_elem; [by eapply indexes_sorted|]. apply al_insert_elem. by left. }
    rewrite (vbind_ret _ _ s1 false s') by (rewrite R1; by rewrite (vbind_ret _ _ _ _ _ R2)). rewrite al_remove_inserted in Hi'' by done.
    destruct (fill_and_clear pl vb vstart vend r dm _ _ _ _ _ _ _ _ _ _ _ _ _ (ltac:(cbn; lia) : a / PAGE_SIZE + j <= a / PAGE_SIZE + area_nr_pages ar) Hfil C) as (H1 & H2 & H3); [done|done|].
    exists 0, s', B''. split; [done|]. split; [done|]. split; [done|]. left. split; [done|]. by apply (vm_ok_same s B).
Qed.

(** ** Missing pages *)
(** On the kernel's own tables there is nothing to repair: a page that is not mapped belongs to no
    area, and the fault handler learns so. *)
Lemma ensure_mapped_ok s B G W v :
  vm_ok s B G W -> in_window vstart vend v ->
  exists f, ensure_vmalloc_page_mapped_in_current apic pl vb vstart vend v s = Ret (bool_decide (is_Some (W !! (v / PAGE_SIZE))), with_heal f s).
Proof.
  intros Hok Hv. pose proof Hok as [(Hst & Hcur & Hini) Hwo Hi Hareas _]. unfold ensure_vmalloc_page_mapped_in_current, is_vmalloc_addr.
  pose proof (wd_start _ _ _ _ Hw) as Hws. pose proof (wd_end _ _ _ _ Hw) as Hwe. destruct Hv as [Hv1 Hv2]. rewrite (proj2 (Z.leb_le _ _)), (proj2 (Z.ltb_lt _ _)) by done. cbn [negb andb].
  rewrite asks_run, Hst, asks_run, Hcur, asks_run, Hini. rewrite (proj2 (Z.eqb_neq r 0)) by apply Hw. cbn [orb].
  rewrite page_of_eq by (unfold in_u64; lia). set (n := v / PAGE_SIZE). rewrite asks_run.
  assert (Hpv : in_window vstart vend (n * PAGE_SIZE)).
  { destruct (wd_aligned _ _ _ _ Hw) as [k Hk]. pose proof (Z.div_mod v PAGE_SIZE ltac:(done)) as Hd. fold n in Hd. pose proof (Z.mod_pos_bound v PAGE_SIZE ltac:(done)). unfold in_window, PAGE_SIZE in *. lia. }
  pose proof (wo_pages _ _ _ _ _ _ _ _ _ Hwo _ Hpv) as Hmap. rewrite Z.div_mul in Hmap by done. rewrite translate_addr_mapping, Hmap. destruct (W !! n) as [e|] eqn:He; cbn [place fmap option_fmap option_map].
  { exists (fun h => h). rewrite bool_decide_true by (by eexists). by destruct s. }
  rewrite !asks_run, translate_addr_mapping, Hmap. cbn [place fmap option_fmap option_map]. rewrite bool_decide_false by (by intros []).
  assert (Hheal : heal_from_ioremap_metadata apic pl vb (n * PAGE_SIZE) dm r r s = Ret (false, with_heal count_miss s)).
  { unfold heal_from_ioremap_metadata. rewrite (vbind_ret _ _ s None s); [done|]. unfold lookup_ioremap_phys. rewrite (om_iter_ok _ _ (proj1 Hi)). mstep. f_equal. f_equal.
    destruct (List.find _ G) as [[a ar]|] eqn:Hf; [|done]. exfalso. apply List.find_some in Hf as [Hin Hp]. apply list_elem_of_In in Hin.
    destruct (Hareas a ar Hin) as [([k ->] & h1 & h2 & h3) Hsz Hc _ Hpg]. rewrite !andb_true_iff, Z.leb_le, Z.ltb_lt in Hp. destruct Hp as [[[P1 P2] _] _].
    unfold saturating_add64 in P2. destruct (Hpg n) as (e & He' & _); [|congruence]. unfold has_page. rewrite Z.div_mul by done. unfold PAGE_SIZE in *. lia. }
  exists count_miss. by destruct (translate self (n * PAGE_SIZE) (vm_mem s)) as [[[? ?] ?]|].
Qed.
End Theorems.

(** ** Zeroed memory
    The bytes are written one address after the other: all of them are mapped, the tables are
    not touched, and no frame that was in use before is. *)
Section Zero.
Context {MA MS : Type} `{!OrdMapOps MA VmArea} `{!OrdMapOps MS (RangeEntry unit)} `{!OrdMap MA VmArea} `{!OrdMap MS (RangeEntry unit)}.
Context (apic pl vb vstart vend r dm : Z).
Hypothesis Hw : window apic vstart vend r.
Implicit Types s : Vm MA MS.

Abbreviation self := (manager pl vb r dm).
Abbreviation tbl := (tbl (levels self) (root_phys self)).
Abbreviation in_use := (in_use (levels self) (root_phys self)).
Abbreviation preserves := (preserves (levels self) (root_phys self)).
Abbreviation window_ok := (window_ok pl vb vstart vend r dm).
Abbreviation same_outside := (same_outside pl vb vstart vend r dm).
Abbreviation kernel_space := (kernel_space r dm).

(** A write into a frame of the window changes neither the tables nor the descriptors. *)
Lemma window_write m B W f n q :
  window_ok m B W -> W !! n = Some (q, VMALLOC_PTE) -> (forall a, ~ (q * PAGE_SIZE <= a < q * PAGE_SIZE + PAGE_SIZE) -> f a = phys m a) ->
  let m' := set_phys m f in window_ok m' B W /\ (forall w, mapping self m' w = mapping self m w) /\ forall x, in_use m' B x <-> in_use m B x.
Proof.
  intros [Hok b c d e] Hq Hf m'. destruct (d n q Hq) as [Hu _]. pose proof Hok as [_ [Hmem Hfine _ Htree Hheld]].
  pose proof (one_page_tables self m m' q Htree (proj2 Hu) Hf) as Hs.
  destruct (step_space self m B m' B Hok (mem_ok_phys _ _ _ Hmem) ltac:(by split) Hfine Hs Hheld) as (H1 & H2 & H3).
  assert (Hin : forall x, in_use m' B x <-> in_use m B x) by (intros x; split; intros [Hx Hn]; (split; [done|]); intros k w; [rewrite <- H3|rewrite H3]; apply Hn).
  split; [|done]. split; [done| | | |done].
  - intros v Hv. apply (step_extends self m B m' B Hs); [done|by apply b].
  - intros v Hv. rewrite H2. by apply c.
  - intros k x Hx. destruct (d k x Hx) as [Hux Hpg]. split; [by apply Hin|done].
Qed.

(** The addresses from [v] on, [n] of them, map frames of their own. *)
Definition own_memory (W : gmap Z (Z * Z)) (v n : Z) : Prop :=
  forall x, v <= x < v + n -> in_window vstart vend x /\ exists q, W !! (x / PAGE_SIZE) = Some (q, VMALLOC_PTE).
Definition behind (W : gmap Z (Z * Z)) (x y : Z) : Prop := exists q, W !! (x / PAGE_SIZE) = Some (q, VMALLOC_PTE) /\ y = q * PAGE_SIZE + x mod PAGE_SIZE.

Lemma zero_bytes_ok k : forall v s B W,
  kernel_space s -> window_ok (vm_mem s) B W -> 0 <= v -> own_memory W v (Z.of_nat k) ->
  exists f, let m' := set_phys (vm_mem s) f in zero_bytes pl vb k v s = Ret (tt, with_mem m' s) /\ window_ok m' B W /\
    (forall w, mapping self m' w = mapping self (vm_mem s) w) /\ (forall x, in_use m' B x <-> in_use (vm_mem s) B x) /\
    (forall x y, v <= x < v + Z.of_nat k -> behind W x y -> f y = 0) /\
    forall y, f y = phys (vm_mem s) y \/ f y = 0 /\ exists x, v <= x < v + Z.of_nat k /\ behind W x y.
Proof.
  induction k as [|k IH]; intros v s B W Hk Hwo Hv Hown.
  { exists (phys (vm_mem s)). assert (Hid : set_phys (vm_mem s) (phys (vm_mem s)) = vm_mem s) by (by destruct (vm_mem s)). cbn zeta. rewrite Hid.
    split; [by destruct s|]. split; [done|]. split; [done|]. split; [done|]. split; [lia|]. by left. }
  destruct (Hown v ltac:(lia)) as [Hin (q & Hq)]. cbn [zero_bytes]. rewrite asks_run. change (translate_addr (manager pl vb (current_root s) 0) v (vm_mem s))
    with (translate_addr (manager pl vb (current_root s) dm) v (vm_mem s)). rewrite (proj1 (proj2 Hk)), translate_addr_mapping, (wo_pages _ _ _ _ _ _ _ _ _ Hwo v Hin), Hq. cbn [place fmap option_fmap option_map fst].
  set (y0 := q * PAGE_SIZE + v mod PAGE_SIZE). pose proof (Z.mod_pos_bound v PAGE_SIZE ltac:(done)) as Hmod.
  set (f1 := fun a => if (y0 <=? a) && (a <? y0 + 1) then 0 else phys (vm_mem s) a).
  assert (Hf1 : forall a, f1 a = if decide (a = y0) then 0 else phys (vm_mem s) a).
  { intros a. unfold f1. destruct (Z.leb_spec y0 a), (Z.ltb_spec a (y0 + 1)); cbn [andb]; case_decide; done || lia. }
  rewrite (vbind_ret _ _ _ _ _ (on_mem_run (write_zeros y0 1) s tt (set_phys (vm_mem s) f1) eq_refl)).
  destruct (window_write (vm_mem s) B W f1 (v / PAGE_SIZE) q Hwo Hq) as (Hwo1 & Hm1 & Hu1).
  { intros a Ha. rewrite Hf1. case_decide; [|done]. unfold y0, PAGE_SIZE in *. lia. }
  assert (Hlt : v + 1 < u64_size) by (pose proof (wd_end _ _ _ _ Hw); unfold in_window in Hin; lia). rewrite add64_small by lia.
  destruct (IH (v + 1) (with_mem (set_phys (vm_mem s) f1) s) B W Hk Hwo1 ltac:(lia)) as (f & R & H1 & H2 & H3 & H4 & H5).
  { intros x Hx. apply Hown. lia. }
  cbn [vm_mem with_mem] in *. exists f. change (set_phys (set_phys (vm_mem s) f1) f) with (set_phys (vm_mem s) f) in *. change (phys (set_phys (vm_mem s) f1)) with f1 in H5.
  split; [exact R|]. split; [done|]. split; [intros w; by rewrite H2, Hm1|]. split; [intros x; by rewrite H3, Hu1|]. split.
  - intros x y Hx Hb. destruct (decide (x = v)) as [->|Hne]; [|apply (H4 x); [lia|done]]. destruct Hb as (q' & Hq' & ->). assert (q' = q) as -> by congruence. fold y0.
    destruct (H5 y0) as [->|[-> _]]; [|done]. rewrite Hf1. by rewrite decide_True.
  - intros y. destruct (H5 y) as [->|[-> (x & Hx & Hb)]]; [|right; split; [done|]; exists x; split; [lia|done]]. rewrite Hf1. case_decide as Hy; [|by left].
    right. split; [done|]. exists v. split; [lia|]. exists q. split; [done|]. by subst.
Qed.

(** [vzalloc] is [vmalloc] with zeros. *)
Lemma vzalloc_ok s B G W size :
  vm_ok pl vb vstart vend r dm s B G W -> room (MA := MA) (MS := MS) G -> 0 <= size < u64_size ->
  exists p s' B', vzalloc apic pl vb vstart vend size s = Ret (p, s') /\
    preserves (vm_mem s) B (vm_mem s') B' /\ same_outside (vm_mem s) (vm_mem s') /\
    (p = 0 /\ vm_ok pl vb vstart vend r dm s' B' G W \/
     exists nr W', p <> 0 /\ (nr - 1) * PAGE_SIZE < size <= nr * PAGE_SIZE /\ al_lookup p G = None /\
       vm_ok pl vb vstart vend r dm s' B' (al_insert p (memory_area nr) G) W' /\ area_added (new_frame pl vb r dm (vm_mem s) B) p nr W W' /\
       forall x, p <= x < p + size -> exists y fl, mapping self (vm_mem s') x = Some (y, fl) /\ phys (vm_mem s') y = 0).
Proof.
  intros Hok Hroom Hsize. unfold vzalloc.
  destruct (vmalloc_ok apic pl vb vstart vend r dm Hw s B G W size Hok Hroom Hsize) as (p & s1 & B1 & R & P1 & O1 & [[-> Hok1]|(nr & W' & Hp0 & Hsz & Hnone & Hok1 & Hadd)]);
    rewrite (vbind_ret _ _ _ _ _ R).
  { exists 0, s1, B1. split; [done|]. split; [done|]. split; [done|by left]. }
  rewrite (proj2 (Z.eqb_neq p 0)) by done. cbn [negb]. pose proof Hok1 as [Hk1 Hwo1 Hi1 Ha1 Hm1].
  destruct (Ha1 p (memory_area nr)) as [([b Hb] & Hv1 & Hv2 & Hv3) _ Hc _ _]; [apply al_insert_elem; by left|]. cbn in Hv2, Hv3, Hc.
  assert (Hpage : forall x, p <= x < p + size -> p / PAGE_SIZE <= x / PAGE_SIZE < p / PAGE_SIZE + nr).
  { intros x Hx. rewrite Hb, Z.div_mul by done. pose proof (Z.div_mod x PAGE_SIZE ltac:(done)). pose proof (Z.mod_pos_bound x PAGE_SIZE ltac:(done)). unfold PAGE_SIZE in *. lia. }
  assert (Hown : forall x, p <= x < p + size -> in_window vstart vend x /\ exists q, W' !! (x / PAGE_SIZE) = Some (q, VMALLOC_PTE) /\ ~ in_use (vm_mem s) B q).
  { intros x Hx. split; [unfold in_window, PAGE_SIZE in *; lia|]. pose proof (Hadd (x / PAGE_SIZE)) as Hn. rewrite decide_True in Hn by (by apply Hpage).
    destruct Hn as ([q fl] & Hq & [Hfl Hnew]). cbn in Hfl, Hnew. subst fl. by exists q. }
  destruct (zero_bytes_ok (Z.to_nat size) p s1 B1 W' Hk1 Hwo1) as (f & R2 & Hwo2 & Hm2 & Hu2 & Hz & Hother).
  { pose proof (wd_start _ _ _ _ Hw). lia. } { intros x Hx. destruct (Hown x ltac:(lia)) as [? (q & ? & _)]. split; [done|by exists q]. }
  rewrite Z2Nat.id in Hz, Hother by lia. rewrite (vbind_ret _ _ _ _ _ R2). exists p, (with_mem (set_phys (vm_mem s1) f) s1), B1. split; [done|].
  split; [|split; [intros w Hout; cbn; rewrite Hm2; by apply O1|right]].
  - cbn. split; [transitivity (vm_mem s1); [apply P1|by split]|intros q Hq; by apply Hu2, P1|intros q Hq; by apply P1|].
    intros q y Hq Hy. cbn. destruct (Hother (q * PAGE_SIZE + y)) as [->|[_ (x & Hx & q' & Hq' & Heq)]]; [by apply P1|].
    destruct (Hown x Hx) as [_ (q'' & Hq'' & Hnew)]. assert (q'' = q') as -> by congruence. assert (q' = q) as ->; [|done].
    pose proof (Z.mod_pos_bound x PAGE_SIZE ltac:(done)). unfold PAGE_SIZE in *. lia.
  - exists nr, W'. split; [done|]. split; [done|]. split; [done|]. split; [by apply (vm_ok_same _ _ _ _ _ _ s1 B1)|]. split; [done|].
    intros x Hx. cbn. destruct (Hown x Hx) as [Hin (q & Hq & _)]. exists (q * PAGE_SIZE + x mod PAGE_SIZE), VMALLOC_PTE.
    rewrite Hm2, (wo_pages _ _ _ _ _ _ _ _ _ Hwo1 x Hin), Hq. split; [done|]. apply (Hz x); [done|]. by exists q.
Qed.
End Zero.
