(* ===== verification/VmallocExample.v ===== *)
(** * The kernel's areas: the theorems and a run

    The properties of vmalloc.rs, and a small machine on which they are applied: areas in a
    red-black tree, occupied addresses in an interval tree, the window of the default
    configuration, and a kernel address space in which nothing is mapped yet. *)

From S2P Require Import Prelude OrdMap MapleTree BTree RbTree RbTheorems Page Zone Pcp Buddy PageEntry Paging PageWalk PagingMap PagingUnmap PagingShare Vmalloc VmallocWindow VmallocTheorems.
#[local] Open Scope Z_scope.

Section Promises.
Context {MA MS : Type} `{!OrdMapOps MA VmArea} `{!OrdMapOps MS (RangeEntry unit)} `{!OrdMap MA VmArea} `{!OrdMap MS (RangeEntry unit)}.
Context (apic pl vb vstart vend r dm : Z).
Implicit Types s : Vm MA MS.

Abbreviation self := (manager pl vb r dm).
Abbreviation preserves := (preserves (levels self) (root_phys self)).
Abbreviation except := (except (levels self) (root_phys self)).
Abbreviation same_outside := (same_outside pl vb vstart vend r dm).
Abbreviation vm_ok := (vm_ok pl vb vstart vend r dm).

(** C10. [vzalloc], [vmalloc] below it, and [ioremap].  On the kernel's own tables an allocation
    answers null and leaves the areas and every mapping as they were, also when memory runs
    out half way; or it answers a new area, entered in both indexes apart from the others and
    with a guard page, each of whose pages is mapped: to a frame that was not in use, filled
    with zeros, or to the device's frames in order.  What the rest of the window and all other
    addresses map stays, and so do the pages in use and their contents. *)
Theorem kernel_areas_are_new_or_nothing_changes s B G W :
  window apic vstart vend r -> vm_ok s B G W -> room (MA := MA) (MS := MS) G ->
  (forall size, 0 <= size < u64_size ->
     exists p s' B', vzalloc apic pl vb vstart vend size s = Ret (p, s') /\
       preserves (vm_mem s) B (vm_mem s') B' /\ same_outside (vm_mem s) (vm_mem s') /\
       (p = 0 /\ vm_ok s' B' G W \/
        exists nr W', p <> 0 /\ (nr - 1) * PAGE_SIZE < size <= nr * PAGE_SIZE /\ al_lookup p G = None /\
          vm_ok s' B' (al_insert p (memory_area nr) G) W' /\ area_added (new_frame pl vb r dm (vm_mem s) B) p nr W W' /\
          forall x, p <= x < p + size -> exists y fl, mapping self (vm_mem s') x = Some (y, fl) /\ phys (vm_mem s') y = 0)) /\
  (forall ph size, 0 <= ph -> 0 <= size -> ph + size <= 2 ^ 52 ->
     exists p s' B', ioremap apic pl vb vstart vend ph size s = Ret (p, s') /\
       preserves (vm_mem s) B (vm_mem s') B' /\ same_outside (vm_mem s) (vm_mem s') /\
       (p = 0 /\ vm_ok s' B' G W \/
        exists a nr W', let base := ph / PAGE_SIZE * PAGE_SIZE in
          p = a + ph mod PAGE_SIZE /\ a <> 0 /\ base + (nr - 1) * PAGE_SIZE < ph + size <= base + nr * PAGE_SIZE /\ al_lookup a G = None /\
          vm_ok s' B' (al_insert a (device_area base nr) G) W' /\ area_added (device_page base a) a nr W W')).
Proof. intros Hw Hok Hroom. split; intros; [by apply vzalloc_ok|by apply ioremap_ok]. Qed.

(** C11. [vfree] and [iounmap], called while the kernel's own tables are the loaded ones (not
    those of a process).  Releasing the address of an area takes it out of both indexes
    and unmaps its pages and no others; frames of its own go back to the page allocators,
    device memory stays, and all other pages in use keep their contents.  No page is allocated.
    An address where no area starts changes nothing.  [iounmap] accepts any address of the
    first page of an area, as [ioremap] returns it. *)
Theorem vfree_releases_exactly_the_area s B G W a :
  window apic vstart vend r -> vm_ok s B G W ->
  (exists s' B', vfree apic pl vb a s = Ret (tt, s') /\ same_outside (vm_mem s) (vm_mem s') /\ no_alloc B B' /\
    match al_lookup a G with
    | None => vm_mem s' = vm_mem s /\ B' = B /\ vm_ok s' B' G W
    | Some ar =>
        let lo := a / PAGE_SIZE in let hi := lo + area_nr_pages ar in
        vm_ok s' B' (al_remove a G) (without W lo hi) /\
        except (fun q => is_device ar = false /\ frames_of W lo hi q) (vm_mem s) B (vm_mem s') B' /\
        (is_device ar = false -> forall q, frames_of W lo hi q -> gone B' q)
    end) /\
  (is_Some (al_lookup a G) -> forall x, 0 <= x < PAGE_SIZE -> iounmap apic pl vb (a + x) s = vfree apic pl vb a s).
Proof.
  intros Hw Hok. split; [by apply vfree_ok|]. intros [ar Hl] x Hx. unfold iounmap.
  assert (Hin : (a, ar) ∈ G) by (apply al_lookup_elem; [by eapply indexes_sorted, Hok|done]).
  destruct (vo_areas _ _ _ _ _ _ _ _ _ _ Hok a ar Hin) as [([k ->] & h1 & h2 & h3) _ hc _ _]. pose proof (wd_start _ _ _ _ Hw). pose proof (wd_end _ _ _ _ Hw).
  rewrite (proj2 (Z.eqb_neq _ 0)) by lia. rewrite page_of_eq by (unfold in_u64, PAGE_SIZE in *; lia).
  rewrite Z.div_add_l by done. rewrite Z.div_small by done. by rewrite Z.add_0_r.
Qed.
End Promises.

(** ** A kernel address space with nothing mapped *)
Definition ex_kernel : Z * Mem := match alloc_zeroed_table_phys ex_space with Ret (Some t, m) => (t, m) | _ => (0, ex_space) end.
Definition ex_vm : Vm (Rb VmArea) (BTree (RangeEntry unit)) := mkVm (snd ex_kernel) om_new None (Some 0) (fst ex_kernel) (fst ex_kernel) (mkHeal 0 0 0 0).
Definition ex_vstart : Z := 0xFFFFC90000000000.
Definition ex_vend : Z := 0xFFFFE90000000000.

Lemma ex_window : window 0 ex_vstart ex_vend (fst ex_kernel).
Proof. split; [lia|vm_compute; discriminate|done|done|vm_compute; discriminate|by exists (ex_vstart / PAGE_SIZE)|done]. Qed.
Lemma ex_kernel_ok : exists p B0 B, new_table ex_space B0 p (snd ex_kernel) B /\ fst ex_kernel = p * PAGE_SIZE /\ mem_ok ex_space B0 /\ pcp_fine ex_space.
Proof.
  destruct ex_space_ok as (B0 & _ & [Hok Hfine _ _ _]). destruct (alloc_zeroed_table_phys_ok ex_space B0 Hok) as [R|(p & m & B & R & Hnt)].
  - assert (Hc : match alloc_zeroed_table_phys ex_space with Ret (Some _, _) => true | _ => false end = true) by (vm_compute; reflexivity). by rewrite R in Hc.
  - exists p, B0, B. unfold ex_kernel. rewrite R. split; [exact Hnt|]. split; [reflexivity|]. split; [exact Hok|exact Hfine].
Qed.
Lemma ex_vm_ok : exists B, vm_ok 4 48 ex_vstart ex_vend (fst ex_kernel) 0 ex_vm B [] ∅.
Proof.
  destruct ex_kernel_ok as (p & B0 & B & Hnt & E & Hok & Hfine). exists B. split.
  - split; [done|]. split; vm_compute; reflexivity.
  - split.
    + change (manager_ok (new_with_layout (fst ex_kernel) 0 4 48) (snd ex_kernel) B). rewrite E.
      apply (fresh_space_ok p ex_space B0); [exact Hnt|exact Hfine|]. vm_compute. discriminate.
    + intros v _. change (own_way (walk_levels 4) (fst ex_kernel) (snd ex_kernel) B v). rewrite E. by eapply fresh_space_way.
    + intros v _. change (mapping (new_with_layout (fst ex_kernel) 0 4 48) (snd ex_kernel) v = place ((∅ : gmap Z (Z * Z)) !! (v / PAGE_SIZE)) v). rewrite E, lookup_empty.
      by eapply fresh_space_unmapped.
    + intros n q. by rewrite lookup_empty.
    + intros n n' q. by rewrite lookup_empty.
  - unfold indexes, spaced, ex_vm. cbn [vm_areas vm_space]. split; [apply om_new_ok|reflexivity].
  - intros a ar Hin. exfalso. by apply elem_of_nil in Hin.
  - intros n [e He]. exfalso. by rewrite lookup_empty in He.
Qed.
Lemma ex_room : room (MA := Rb VmArea) (MS := BTree (RangeEntry unit)) [].
Proof. split; [|vm_compute; lia]. change (Z.to_nat 0 < Z.to_nat (u64_size - 1))%nat. apply Z2Nat.inj_lt; lia. Qed.

(** Six zeroed bytes: one page at the start of the window. *)
Definition ex_after : Vm (Rb VmArea) (BTree (RangeEntry unit)) := match vzalloc 0 4 48 ex_vstart ex_vend 6 ex_vm with Ret (_, s) => s | _ => ex_vm end.
Lemma ex_allocates p s : vzalloc 0 4 48 ex_vstart ex_vend 6 ex_vm = Ret (p, s) -> p = ex_vstart /\ s = ex_after.
Proof.
  intros R. split; [|unfold ex_after; by rewrite R].
  assert (Hc : match vzalloc 0 4 48 ex_vstart ex_vend 6 ex_vm with Ret (p, _) => p =? ex_vstart | _ => false end = true) by (vm_compute; reflexivity).
  rewrite R in Hc. by apply Z.eqb_eq in Hc.
Qed.
(** Twenty bytes of a device, across a page boundary. *)
Lemma ex_remaps p s : ioremap 0 4 48 ex_vstart ex_vend 0xFEE00FF0 20 ex_vm = Ret (p, s) -> p = ex_vstart + 0xFF0.
Proof.
  intros R. assert (Hc : match ioremap 0 4 48 ex_vstart ex_vend 0xFEE00FF0 20 ex_vm with Ret (p, _) => p =? ex_vstart + 0xFF0 | _ => false end = true) by (vm_compute; reflexivity).
  rewrite R in Hc. by apply Z.eqb_eq in Hc.
Qed.

Abbreviation ex_ok := (vm_ok 4 48 ex_vstart ex_vend (fst ex_kernel) 0).
Abbreviation ex_manager := (manager 4 48 (fst ex_kernel) 0).

Lemma kernel_areas_are_new_or_nothing_changes_witness :
  (exists s' B' W', vzalloc 0 4 48 ex_vstart ex_vend 6 ex_vm = Ret (ex_vstart, s') /\ ex_ok s' B' [(ex_vstart, memory_area 1)] W' /\
     exists y fl, mapping ex_manager (vm_mem s') (ex_vstart + 5) = Some (y, fl) /\ phys (vm_mem s') y = 0) /\
  (exists s' B' W', ioremap 0 4 48 ex_vstart ex_vend 0xFEE00FF0 20 ex_vm = Ret (ex_vstart + 0xFF0, s') /\ ex_ok s' B' [(ex_vstart, device_area 0xFEE00000 2)] W' /\
     W' !! (ex_vstart / PAGE_SIZE + 1) = Some (0xFEE01, IOREMAP_PTE)).
Proof.
  destruct ex_vm_ok as (B & Hok).
  destruct (kernel_areas_are_new_or_nothing_changes 0 4 48 ex_vstart ex_vend (fst ex_kernel) 0 ex_vm B [] ∅ ex_window Hok ex_room) as [H1 H2]. split.
  - destruct (H1 6 ltac:(lia)) as (p & s' & B' & R & _ & _ & Hres). destruct (ex_allocates p s' R) as [-> _].
    destruct Hres as [[Hbad _]|(nr & W' & _ & Hnr & _ & Hok' & _ & Hz)]; [discriminate Hbad|]. assert (nr = 1) as -> by (unfold PAGE_SIZE in Hnr; lia).
    exists s', B', W'. split; [exact R|]. split; [exact Hok'|]. apply Hz. lia.
  - destruct (H2 0xFEE00FF0 20 ltac:(lia) ltac:(lia) ltac:(lia)) as (p & s' & B' & R & _ & _ & Hres). pose proof (ex_remaps p s' R) as ->.
    destruct Hres as [[Hbad _]|(a & nr & W' & Ha & _ & Hnr & _ & Hok' & Hadd)]; [discriminate Hbad|].
    change (0xFEE00FF0 / PAGE_SIZE * PAGE_SIZE) with 0xFEE00000 in *. change (0xFEE00FF0 mod PAGE_SIZE) with 0xFF0 in Ha.
    assert (nr = 2) as -> by (unfold PAGE_SIZE in Hnr; lia). assert (a = ex_vstart) as -> by lia.
    exists s', B', W'. split; [exact R|]. split; [exact Hok'|]. specialize (Hadd (ex_vstart / PAGE_SIZE + 1)). rewrite decide_True in Hadd by lia.
    destruct Hadd as (e & He & Hd). rewrite He, Hd. reflexivity.
Defined.

Lemma ex_after_ok : exists B W, ex_ok ex_after B [(ex_vstart, memory_area 1)] W.
Proof.
  destruct ex_vm_ok as (B & Hok).
  destruct (vzalloc_ok 0 4 48 ex_vstart ex_vend (fst ex_kernel) 0 ex_window ex_vm B [] ∅ 6 Hok ex_room ltac:(lia)) as (p & s' & B' & R & _ & _ & Hres).
  destruct (ex_allocates p s' R) as [-> ->]. destruct Hres as [[Hbad _]|(nr & W' & _ & Hnr & _ & Hok' & _)]; [discriminate Hbad|].
  assert (nr = 1) as -> by (unfold PAGE_SIZE in Hnr; lia). exists B', W'. exact Hok'.
Qed.

Lemma vfree_releases_exactly_the_area_witness :
  exists (B : gmap Z Block) q s' B', B !! q = Some (mkBlock InUse 0) /\ mapping ex_manager (vm_mem ex_after) ex_vstart = Some (q * PAGE_SIZE, VMALLOC_PTE) /\
    iounmap 0 4 48 (ex_vstart + 5) ex_after = Ret (tt, s') /\ ex_ok s' B' [] ∅ /\ gone B' q.
Proof.
  destruct ex_after_ok as (B & W & Hok).
  destruct (vfree_releases_exactly_the_area 0 4 48 ex_vstart ex_vend (fst ex_kernel) 0 ex_after B _ W ex_vstart ex_window Hok) as [(s' & B' & R & _ & _ & Hres) Hio].
  change (al_lookup ex_vstart [(ex_vstart, memory_area 1)]) with (Some (memory_area 1)) in *. cbv iota zeta in Hres. destruct Hres as (Hok' & _ & Hgone).
  change (al_remove ex_vstart [(ex_vstart, memory_area 1)]) with (@nil (Z * VmArea)) in Hok'.
  set (n := ex_vstart / PAGE_SIZE) in *. destruct (vo_areas _ _ _ _ _ _ _ _ _ _ Hok ex_vstart (memory_area 1) ltac:(by left)) as [_ _ _ _ Hpg].
  destruct (Hpg n) as ([q fl] & Hq & Hfl); [split; [done|vm_compute; reflexivity]|]. change (fl = VMALLOC_PTE) in Hfl. subst fl.
  pose proof (vo_window _ _ _ _ _ _ _ _ _ _ Hok) as Hwo. exists B, q, s', B'. split; [apply (wo_ram _ _ _ _ _ _ _ _ _ Hwo n q Hq)|]. split; [|split; [|split]].
  - rewrite (wo_pages _ _ _ _ _ _ _ _ _ Hwo ex_vstart) by (split; [apply Z.le_refl|done]). fold n. rewrite Hq. cbn [place fmap option_fmap option_map fst snd].
    change (ex_vstart mod PAGE_SIZE) with 0. by rewrite Z.add_0_r.
  - rewrite (Hio ltac:(by eexists) 5 ltac:(unfold PAGE_SIZE; lia)). exact R.
  - assert (HW : without W n (n + 1) = ∅); [|rewrite <- HW; exact Hok'].
    apply map_eq. intros k. rewrite lookup_empty. destruct (without W n (n + 1) !! k) as [e|] eqn:He; [|done].
    destruct (vo_mapped _ _ _ _ _ _ _ _ _ _ Hok' k ltac:(by eexists)) as (a & ar & Hin & _). exfalso. by apply elem_of_nil in Hin.
  - apply (Hgone eq_refl). exists n. split; [change (area_nr_pages (memory_area 1)) with 1; lia|done].
Defined.

(** ** Before [init_vmalloc]
    [ioremap], unlike [vmalloc], does not ask whether the subsystem is ready: it enters the area,
    cannot map its pages, and the [vfree] that should take it back returns at once.  The address
    range stays taken. *)
Definition ex_early : Vm (Rb VmArea) (BTree (RangeEntry unit)) := mkVm (snd ex_kernel) om_new None None (fst ex_kernel) (fst ex_kernel) (mkHeal 0 0 0 0).
Lemma ioremap_before_init_keeps_the_range :
  match ioremap 0 4 48 ex_vstart ex_vend 0xFEE00000 4096 ex_early with
  | Ret (p, s) => p = 0 /\ om_get (vm_areas s) ex_vstart = Ret (Some (device_area 0xFEE00000 1))
  | _ => False
  end.
Proof. vm_compute. split; reflexivity. Qed.
