(* ===== verification/Conc.v ===== *)
(** * Interleavings of CPUs

    The synchronisation primitives of kernel/src/sync are loops over single atomic
    operations.  A CPU is described by the position it has reached in the code; one step
    of the machine runs one CPU up to and including its next atomic operation, and the
    scheduler is free to choose which CPU that is.  Atomics are taken to be sequentially
    consistent.  Statements that touch no shared word (comparisons, counters held in
    locals) belong to the step of the operation before them. *)

From S2P Require Import Prelude.

Section Machine.
Context {S A : Type} (step : nat -> A -> S -> option S).

(** The states that some interleaving reaches. *)
Inductive reach (init : S) : S -> Prop :=
| reach_init : reach init init
| reach_step s i a s' : reach init s -> step i a s = Some s' -> reach init s'.

(** The execution of one given interleaving. *)
Fixpoint run (sched : list (nat * A)) (s : S) : option S :=
  match sched with
  | [] => Some s
  | (i, a) :: sched' => match step i a s with Some s' => run sched' s' | None => None end
  end.

Lemma run_reach init sched s s' : reach init s -> run sched s = Some s' -> reach init s'.
Proof.
  revert s. induction sched as [|[i a] sched IH]; intros s Hs Hrun; simpl in Hrun; [by simplify_eq|].
  destruct (step i a s) as [s1|] eqn:E; [|done]. apply (IH s1); [by econstructor|done].
Qed.

Lemma reach_invariant (I : S -> Prop) init :
  I init -> (forall s i a s', I s -> step i a s = Some s' -> I s') -> forall s, reach init s -> I s.
Proof. intros H0 Hstep s Hs. induction Hs; eauto. Qed.
End Machine.

(** The code of an object is the code of its methods: the first method that has a step. *)
Fixpoint first_of {A} (l : list (option A)) : option A :=
  match l with
  | [] => None
  | Some x :: _ => Some x
  | None :: l' => first_of l'
  end.

(** ** Sums over the CPUs *)
Definition wsum {P} (w : P -> Z) (l : list P) : Z := foldr (fun p acc => w p + acc) 0 l.

Lemma wsum_cons {P} (w : P -> Z) x l : wsum w (x :: l) = w x + wsum w l.
Proof. done. Qed.
Arguments wsum : simpl never.

Lemma wsum_insert {P} (w : P -> Z) l i p q :
  l !! i = Some p -> wsum w (<[i := q]> l) = wsum w l - w p + w q.
Proof.
  revert i. induction l as [|x l IH]; intros [|i] Hi; try done; cbn in Hi.
  - simplify_eq. change (wsum w (q :: l) = wsum w (p :: l) - w p + w q). rewrite !wsum_cons. lia.
  - change (wsum w (x :: <[i := q]> l) = wsum w (x :: l) - w p + w q). rewrite !wsum_cons, (IH i Hi). lia.
Qed.

Lemma wsum_nonneg {P} (w : P -> Z) l : (forall p, 0 <= w p) -> 0 <= wsum w l.
Proof. intros Hw. induction l as [|x l IH]; [done|]. rewrite wsum_cons. specialize (Hw x). lia. Qed.

Lemma wsum_ge {P} (w : P -> Z) l i p : (forall p, 0 <= w p) -> l !! i = Some p -> w p <= wsum w l.
Proof.
  intros Hw. revert i. induction l as [|x l IH]; intros [|i] Hi; try done; cbn in Hi; rewrite wsum_cons.
  - simplify_eq. pose proof (wsum_nonneg w l Hw). lia.
  - specialize (IH i Hi). specialize (Hw x). lia.
Qed.

Lemma wsum_ge2 {P} (w : P -> Z) l i j p q :
  (forall p, 0 <= w p) -> i <> j -> l !! i = Some p -> l !! j = Some q -> w p + w q <= wsum w l.
Proof.
  intros Hw. revert i j. induction l as [|x l IH]; intros [|i] [|j] Hij Hi Hj; try done; cbn in Hi, Hj;
    simplify_eq; rewrite wsum_cons.
  - pose proof (wsum_ge w l j q Hw Hj). lia.
  - pose proof (wsum_ge w l i p Hw Hi). lia.
  - pose proof (IH i j ltac:(congruence) Hi Hj). specialize (Hw x). lia.
Qed.

Lemma wsum_replicate {P} (w : P -> Z) n p : w p = 0 -> wsum w (replicate n p) = 0.
Proof. intros Hp. induction n as [|n IH]; [done|]. cbn. rewrite wsum_cons. lia. Qed.

Lemma wsum_le_length {P} (w : P -> Z) l : (forall p, w p <= 1) -> wsum w l <= Z.of_nat (length l).
Proof. intros Hw. induction l as [|x l IH]; [done|]. rewrite wsum_cons. specialize (Hw x). cbn [length]. lia. Qed.

(** Looking up a CPU after one of them has moved. *)
Lemma insert_cpu_cases {P} (l : list P) i j c c' x :
  l !! i = Some c -> <[i := c']> l !! j = Some x -> (j = i /\ x = c') \/ (j <> i /\ l !! j = Some x).
Proof.
  intros Hi Hj. destruct (decide (j = i)) as [->|Hn].
  - rewrite list_lookup_insert_eq in Hj by (apply lookup_lt_Some with c; done). simplify_eq. by left.
  - rewrite list_lookup_insert_ne in Hj by done. by right.
Qed.
