(* ===== verification/Locks.v ===== *)
(** * Spin locks and mutexes: kernel/src/sync/spinlock.rs and mutex.rs

    A CPU is known by its index, which stands for the id its local APIC reports; ids are
    distinct and below [u32::MAX].  [guard] says that the CPU owns a live [SpinLockGuard]
    ([MutexGuard]); code that owns a guard may call [lock] or [try_lock] again, as an
    interrupt handler does. *)

From S2P Require Import Prelude Conc.

(** The atomics of [SpinLock<T>] and of [Mutex<T>]. *)
Record LockWord := mkLock { locked : bool; owner : Z }.

(** [u32::MAX]: no owner. *)
Definition NO_OWNER : Z := 4294967295.
Definition lock_new : LockWord := mkLock false NO_OWNER.

Record Cpu (P : Type) := mkCpu { guard : bool; pos : P }.
Arguments mkCpu {P} guard pos.
Arguments guard {P} c.
Arguments pos {P} c.

(** The reasons for which [lock] panics. *)
Inductive Why := Recursive | Timeout.

(** ** What the lock words say about the CPUs

    [inside_pos] marks the code between the exchange that takes the lock and the store
    that publishes the owner, and between the store that withdraws it and the store that
    opens the lock. *)
Section Invariant.
Context {P : Type} (inside_pos : P -> bool).

Definition inside (c : Cpu P) : bool := guard c || inside_pos (pos c).

Record lock_inv (l : LockWord) (cpus : list (Cpu P)) (h : option nat) : Prop := {
  li_locked : locked l = match h with Some _ => true | None => false end;
  li_inside : forall i c, cpus !! i = Some c -> inside c = true <-> h = Some i;
  li_holder : forall i, h = Some i -> exists c, cpus !! i = Some c /\ owner l = (if guard c then Z.of_nat i else NO_OWNER);
  li_free : h = None -> owner l = NO_OWNER
}.

Context (l : LockWord) (cpus : list (Cpu P)) (h : option nat) (i : nat) (c c' : Cpu P).
Hypothesis (Hinv : lock_inv l cpus h) (Hc : cpus !! i = Some c).

#[local] Ltac at_cpu :=
  match goal with
  | Hj : <[i := c']> cpus !! ?j = Some ?x |- _ => destruct (insert_cpu_cases _ _ _ _ _ _ Hc Hj) as [[-> ->]|[? ?]]
  end.
#[local] Ltac lookup_here :=
  first [ rewrite list_lookup_insert_eq by (apply lookup_lt_Some with c; done)
        | rewrite list_lookup_insert_ne by done ].

Lemma inside_iff : inside c = true <-> h = Some i.
Proof. exact (li_inside _ _ _ Hinv i c Hc). Qed.

Lemma taken_of_inside : inside c = true -> locked l = true.
Proof. intros Hin. rewrite (li_locked _ _ _ Hinv). by rewrite (proj1 inside_iff Hin). Qed.

Lemma owner_of_guard : guard c = true -> owner l = Z.of_nat i.
Proof.
  intros Hg. destruct (li_holder _ _ _ Hinv i) as (c0 & H0 & ->); [apply inside_iff; unfold inside; by rewrite Hg|].
  simplify_eq. by rewrite Hg.
Qed.

Lemma guard_of_owner : Z.of_nat i <> NO_OWNER -> owner l = Z.of_nat i -> guard c = true.
Proof.
  intros Hi Ho. destruct h as [j|] eqn:Eh; [|rewrite (li_free _ _ _ Hinv) in Ho; done].
  destruct (li_holder _ _ _ Hinv j eq_refl) as (c0 & H0 & Ho'). destruct (guard c0) eqn:E; [|congruence].
  assert (i = j) as <- by lia. by simplify_eq.
Qed.

(** A step that neither takes nor gives back the lock. *)
Lemma inv_move :
  guard c' = guard c -> inside_pos (pos c') = inside_pos (pos c) -> lock_inv l (<[i := c']> cpus) h.
Proof.
  intros Hg Hp. destruct Hinv as [H1 H2 H3 H4]. split; [done| | |done].
  - intros j x Hx. at_cpu; [|by apply H2]. rewrite <- (H2 i c Hc). unfold inside. by rewrite Hg, Hp.
  - intros j Hj. destruct (H3 j Hj) as (x & Hx & Ho). destruct (decide (j = i)) as [->|Hn].
    + exists c'. lookup_here. simplify_eq. by rewrite Hg.
    + exists x. by lookup_here.
Qed.

Lemma inv_acquire :
  locked l = false -> guard c' = false -> inside_pos (pos c') = true ->
  lock_inv (mkLock true (owner l)) (<[i := c']> cpus) (Some i).
Proof.
  intros Hl Hg Hp. destruct Hinv as [H1 H2 H3 H4]. destruct h; [congruence|]. split; [done| | |done].
  - intros j x Hx. at_cpu; [unfold inside; rewrite Hp, orb_true_r; done|]. rewrite (H2 j x) by done. split; [done|congruence].
  - intros j [= <-]. exists c'. lookup_here. rewrite Hg. by rewrite H4.
Qed.

Lemma inv_publish :
  inside_pos (pos c) = true -> guard c' = true ->
  lock_inv (mkLock (locked l) (Z.of_nat i)) (<[i := c']> cpus) h.
Proof.
  intros Hp Hg. assert (h = Some i) as Hh by (apply inside_iff; unfold inside; rewrite Hp; apply orb_true_r).
  destruct Hinv as [H1 H2 H3 H4]. split; [done| | |congruence].
  - intros j x Hx. at_cpu; [unfold inside; by rewrite Hg|by apply H2].
  - intros j Hj. assert (j = i) as -> by congruence. exists c'. lookup_here. by rewrite Hg.
Qed.

Lemma inv_retract :
  guard c = true -> guard c' = false -> inside_pos (pos c') = true ->
  lock_inv (mkLock (locked l) NO_OWNER) (<[i := c']> cpus) h.
Proof.
  intros Hg Hg' Hp. assert (h = Some i) as Hh by (apply inside_iff; unfold inside; by rewrite Hg).
  destruct Hinv as [H1 H2 H3 H4]. split; [done| | |done].
  - intros j x Hx. at_cpu; [unfold inside; by rewrite Hg', Hp|by apply H2].
  - intros j Hj. assert (j = i) as -> by congruence. exists c'. lookup_here. by rewrite Hg'.
Qed.

Lemma inv_release :
  guard c = false -> inside_pos (pos c) = true -> guard c' = false -> inside_pos (pos c') = false ->
  lock_inv (mkLock false (owner l)) (<[i := c']> cpus) None.
Proof.
  intros Hg Hp Hg' Hp'. assert (h = Some i) as Hh by (apply inside_iff; unfold inside; by rewrite Hp, orb_true_r).
  destruct Hinv as [H1 H2 H3 H4]. split; [done| |done|].
  - intros j x Hx. at_cpu; [unfold inside; rewrite Hg', Hp'; done|]. rewrite (H2 j x) by done. rewrite Hh. split; [congruence|done].
  - intros _. destruct (H3 i Hh) as (x & Hx & ->). simplify_eq. by rewrite Hg.
Qed.
End Invariant.

(** The state of a lock shared by several CPUs, each at a position of its code. *)
Record LockState (P : Type) := mkState { word : LockWord; cpus : list (Cpu P) }.
Arguments mkState {P} word cpus.
Arguments word {P} l.
Arguments cpus {P} l.

(** The five ways in which a step can change the lock word and its CPU. *)
Section Effects.
Context {P : Type} (inside_pos : P -> bool) (cpu_ok : Cpu P -> Prop).

Inductive effect (l : LockWord) (i : nat) (c c' : Cpu P) : LockWord -> Prop :=
| EMove : guard c' = guard c -> inside_pos (pos c') = inside_pos (pos c) -> effect l i c c' l
| EAcquire : locked l = false -> guard c' = false -> inside_pos (pos c') = true ->
    effect l i c c' (mkLock true (owner l))
| EPublish : inside_pos (pos c) = true -> guard c' = true -> effect l i c c' (mkLock (locked l) (Z.of_nat i))
| ERetract : guard c = true -> guard c' = false -> inside_pos (pos c') = true ->
    effect l i c c' (mkLock (locked l) NO_OWNER)
| ERelease : guard c = false -> inside_pos (pos c) = true -> guard c' = false -> inside_pos (pos c') = false ->
    effect l i c c' (mkLock false (owner l)).

Definition state_inv (s : LockState P) : Prop :=
  (exists h, lock_inv inside_pos (word s) (cpus s) h) /\
  (forall i c, cpus s !! i = Some c -> cpu_ok c) /\ Z.of_nat (length (cpus s)) <= NO_OWNER.

Lemma effect_inv s i c c' w :
  state_inv s -> cpus s !! i = Some c -> effect (word s) i c c' w -> cpu_ok c' ->
  state_inv (mkState w (<[i := c']> (cpus s))).
Proof.
  intros ((h & Hh) & Hok & Hlen) Hc He Hc'. split; [|split].
  - destruct He; eexists; cbn.
    + by eapply inv_move.
    + by eapply inv_acquire.
    + by eapply inv_publish.
    + by eapply inv_retract.
    + by eapply inv_release.
  - intros j x Hx. destruct (insert_cpu_cases _ _ _ _ _ _ Hc Hx) as [[-> ->]|[_ ?]]; eauto.
  - cbn. by rewrite length_insert.
Qed.

(** What a CPU may conclude from the words it reads. *)
Lemma state_inv_facts s i c :
  state_inv s -> cpus s !! i = Some c ->
  cpu_ok c /\ (inside inside_pos c = true -> locked (word s) = true) /\
  (guard c = true -> owner (word s) = Z.of_nat i) /\ (owner (word s) = Z.of_nat i -> guard c = true).
Proof.
  intros ((h & Hh) & Hok & Hlen) Hc. pose proof (lookup_lt_Some _ _ _ Hc). split; [eauto|].
  split; [by eapply taken_of_inside|]. split; [by eapply owner_of_guard|]. eapply guard_of_owner; eauto. lia.
Qed.

Lemma state_inv_exclusive s i j c d :
  state_inv s -> cpus s !! i = Some c -> cpus s !! j = Some d ->
  inside inside_pos c = true -> inside inside_pos d = true -> i = j.
Proof.
  intros ((h & [_ Hin _ _]) & _) Hc Hd Hci Hdi. apply (Hin i c Hc) in Hci. apply (Hin j d Hd) in Hdi. congruence.
Qed.

Lemma state_inv_free s :
  state_inv s -> (forall i c, cpus s !! i = Some c -> inside inside_pos c = false) -> locked (word s) = false.
Proof.
  intros ((h & Hh) & _) Hout. rewrite (li_locked _ _ _ _ Hh). destruct h as [i|]; [|done].
  destruct (li_holder _ _ _ _ Hh i eq_refl) as (c & Hc & _). pose proof (li_inside _ _ _ _ Hh i c Hc) as Hin.
  specialize (Hout i c Hc). destruct Hin as [_ Hin]. rewrite Hin in Hout; done.
Qed.

Lemma state_inv_start n p :
  inside_pos p = false -> cpu_ok (mkCpu false p) -> Z.of_nat n <= NO_OWNER ->
  state_inv (mkState lock_new (replicate n (mkCpu false p))).
Proof.
  intros Hp Hok Hn. split; [|split].
  - exists None. split; [done| |done|done]. intros i c Hc. apply lookup_replicate in Hc as [-> _].
    unfold inside. cbn. by rewrite Hp.
  - intros i c Hc. apply lookup_replicate in Hc as [-> _]. done.
  - cbn. by rewrite length_replicate.
Qed.
End Effects.

(** Failed attempts after which [lock] gives up. *)
Definition SPIN_LIMIT : Z := 10000000.

(** What a CPU asks for, or [Go]: the next operation of the call it is in.  The flag says
    that [compare_exchange_weak] fails although the lock is free. *)
Inductive Act := Lock | LockBlocking | TryLock | DropGuard | Go (spurious : bool).

(** Every operation of a step function is one of the effects. *)
Ltac lock_cases Hst :=
  repeat match type of Hst with
  | context [if ?b then _ else _] => let E := fresh "E" in destruct b eqn:E
  end; try discriminate; try (injection Hst as <-).

Ltac effect_case :=
  solve [ apply EMove; cbn; done | apply EAcquire; cbn; done | apply EPublish; cbn; done
        | apply ERetract; cbn; done | apply ERelease; cbn; done ].

Ltac lock_step_inv step :=
  intros s i a s' Hs Hst; unfold step in Hst;
  destruct (cpus s !! i) as [[g p]|] eqn:Hc; [|discriminate];
  destruct (state_inv_facts _ _ s i _ Hs Hc) as (Hok & Htk & Hown & Hgo);
  unfold inside in Htk; cbn [guard pos] in *; destruct g, p, a; cbn in Hst; try discriminate Hst; lock_cases Hst;
  repeat match goal with E : _ || _ = false |- _ => apply orb_false_iff in E as [? ?] end;
  rewrite ?Z.eqb_eq, ?Z.eqb_neq, ?Z.ltb_lt, ?Z.ltb_ge in *; cbn in Hok, Htk;
  repeat match goal with H : ?x = ?x -> _ |- _ => specialize (H eq_refl) end;
  try (exfalso; first [congruence | done | by destruct Hok]);
  (eapply effect_inv; [exact Hs|exact Hc|effect_case|try (cbn; intuition (try lia); done)]).

(** ** [SpinLock] *)
Module Spin.
Inductive SpinPos :=
| Idle
| LockCheckOwner | LockSpin (count : Z) | LockStoreOwner
| TryCheckOwner | TryExchange | TryStoreOwner
| DropUnlock
| Panicked (w : Why).

Definition is_idle (p : SpinPos) : bool := match p with Idle => true | _ => false end.
Definition is_dropping (p : SpinPos) : bool := match p with DropUnlock => true | _ => false end.
Definition spin_inside (p : SpinPos) : bool :=
  match p with LockStoreOwner | TryStoreOwner | DropUnlock => true | _ => false end.

(** [SpinLock::lock] *)
Definition spin_acquire (me : Z) (a : Act) (l : LockWord) (c : Cpu SpinPos) : option (LockWord * Cpu SpinPos) :=
  let goto p := Some (l, mkCpu (guard c) p) in
  match pos c, a with
  | Idle, Lock => goto (if locked l then LockCheckOwner else LockSpin 0)
  | LockCheckOwner, Go _ => goto (if owner l =? me then Panicked Recursive else LockSpin 0)
  | LockSpin count, Go spurious =>
      if locked l || spurious
      then let count := count + 1 in goto (if SPIN_LIMIT <? count then Panicked Timeout else LockSpin count)
      else Some (mkLock true (owner l), mkCpu (guard c) LockStoreOwner)
  | LockStoreOwner, Go _ => Some (mkLock (locked l) me, mkCpu true Idle)
  | _, _ => None
  end.

(** [SpinLock::try_lock] *)
Definition spin_try (me : Z) (a : Act) (l : LockWord) (c : Cpu SpinPos) : option (LockWord * Cpu SpinPos) :=
  let goto p := Some (l, mkCpu (guard c) p) in
  match pos c, a with
  | Idle, TryLock => goto (if locked l then TryCheckOwner else TryExchange)
  | TryCheckOwner, Go _ => goto (if owner l =? me then Idle else TryExchange)
  | TryExchange, Go _ => if locked l then goto Idle else Some (mkLock true (owner l), mkCpu (guard c) TryStoreOwner)
  | TryStoreOwner, Go _ => Some (mkLock (locked l) me, mkCpu true Idle)
  | _, _ => None
  end.

(** [SpinLockGuard::drop] *)
Definition spin_drop (a : Act) (l : LockWord) (c : Cpu SpinPos) : option (LockWord * Cpu SpinPos) :=
  match pos c, a with
  | Idle, DropGuard => if guard c then Some (mkLock (locked l) NO_OWNER, mkCpu false DropUnlock) else None
  | DropUnlock, Go _ => Some (mkLock false (owner l), mkCpu (guard c) Idle)
  | _, _ => None
  end.

Definition spin_step (i : nat) (a : Act) (s : LockState SpinPos) : option (LockState SpinPos) :=
  match cpus s !! i with
  | None => None
  | Some c =>
      let me := Z.of_nat i in
      match first_of [spin_acquire me a (word s) c; spin_try me a (word s) c; spin_drop a (word s) c] with
      | Some (l', c') => Some (mkState l' (<[i := c']> (cpus s)))
      | None => None
      end
  end.

(** A CPU that owns a guard never gets past the check of the owner, and a panic for
    recursion strikes only such a CPU. *)
Definition cpu_ok (c : Cpu SpinPos) : Prop :=
  match pos c with
  | Idle | LockCheckOwner | TryCheckOwner => True
  | Panicked Recursive => guard c = true
  | LockSpin n => guard c = false /\ 0 <= n <= SPIN_LIMIT
  | _ => guard c = false
  end.

Definition spin_inv : LockState SpinPos -> Prop := state_inv spin_inside cpu_ok.

Lemma spin_step_inv : forall s i a s', spin_inv s -> spin_step i a s = Some s' -> spin_inv s'.
Proof. lock_step_inv spin_step. Qed.
End Spin.

(** ** [Mutex]: a fast path, a slow path that reads before it exchanges, and a path that
    gives up the CPU between attempts.  The flag of the [Try] positions says that the
    attempt belongs to [lock_blocking]. *)
Module Mutex.
Inductive MutexPos :=
| Idle
| LockCheckOwner | LockFast | SlowLoad (count : Z) | SlowExchange (count : Z) | LockStoreOwner
| TryLoad | TryCheckOwner (blocking : bool) | TryExchange (blocking : bool) | TryStoreOwner
| WaitEvent
| DropUnlock
| Panicked (w : Why).

Definition is_idle (p : MutexPos) : bool := match p with Idle => true | _ => false end.
Definition is_dropping (p : MutexPos) : bool := match p with DropUnlock => true | _ => false end.
Definition mutex_inside (p : MutexPos) : bool :=
  match p with LockStoreOwner | TryStoreOwner | DropUnlock => true | _ => false end.

(** [Mutex::lock], up to the call of [lock_slow] *)
Definition mutex_acquire (me : Z) (a : Act) (l : LockWord) (c : Cpu MutexPos) : option (LockWord * Cpu MutexPos) :=
  let goto p := Some (l, mkCpu (guard c) p) in
  match pos c, a with
  | Idle, Lock => goto (if locked l then LockCheckOwner else LockFast)
  | LockCheckOwner, Go _ => goto (if owner l =? me then Panicked Recursive else LockFast)
  | LockFast, Go _ =>
      if locked l then goto (SlowLoad 0) else Some (mkLock true (owner l), mkCpu (guard c) LockStoreOwner)
  | LockStoreOwner, Go _ => Some (mkLock (locked l) me, mkCpu true Idle)
  | _, _ => None
  end.

(** [Mutex::lock_slow], whose store of the owner is that of [lock] *)
Definition mutex_slow (a : Act) (l : LockWord) (c : Cpu MutexPos) : option (LockWord * Cpu MutexPos) :=
  let goto p := Some (l, mkCpu (guard c) p) in
  match pos c, a with
  | SlowLoad count, Go _ =>
      if locked l
      then let count := count + 1 in goto (if SPIN_LIMIT <? count then Panicked Timeout else SlowLoad count)
      else goto (SlowExchange count)
  | SlowExchange count, Go spurious =>
      if locked l || spurious then goto (SlowLoad count) else Some (mkLock true (owner l), mkCpu (guard c) LockStoreOwner)
  | _, _ => None
  end.

(** [Mutex::try_lock]; a failed attempt of [lock_blocking] goes on to [wait_for_lock_event]. *)
Definition mutex_try (me : Z) (a : Act) (l : LockWord) (c : Cpu MutexPos) : option (LockWord * Cpu MutexPos) :=
  let goto p := Some (l, mkCpu (guard c) p) in
  match pos c, a with
  | Idle, TryLock => goto (if locked l then TryCheckOwner false else TryExchange false)
  | TryCheckOwner b, Go _ => if owner l =? me then goto (if b then WaitEvent else Idle) else goto (TryExchange b)
  | TryExchange b, Go _ =>
      if locked l then goto (if b then WaitEvent else Idle) else Some (mkLock true (owner l), mkCpu (guard c) TryStoreOwner)
  | TryStoreOwner, Go _ => Some (mkLock (locked l) me, mkCpu true Idle)
  | _, _ => None
  end.

(** [Mutex::lock_blocking]: the loop around [try_lock] *)
Definition mutex_blocking (a : Act) (l : LockWord) (c : Cpu MutexPos) : option (LockWord * Cpu MutexPos) :=
  let goto p := Some (l, mkCpu (guard c) p) in
  match pos c, a with
  | Idle, LockBlocking | TryLoad, Go _ => goto (if locked l then TryCheckOwner true else TryExchange true)
  | WaitEvent, Go _ => goto TryLoad
  | _, _ => None
  end.

(** [MutexGuard::drop] *)
Definition mutex_drop (a : Act) (l : LockWord) (c : Cpu MutexPos) : option (LockWord * Cpu MutexPos) :=
  match pos c, a with
  | Idle, DropGuard => if guard c then Some (mkLock (locked l) NO_OWNER, mkCpu false DropUnlock) else None
  | DropUnlock, Go _ => Some (mkLock false (owner l), mkCpu (guard c) Idle)
  | _, _ => None
  end.

Definition mutex_step (i : nat) (a : Act) (s : LockState MutexPos) : option (LockState MutexPos) :=
  match cpus s !! i with
  | None => None
  | Some c =>
      let me := Z.of_nat i in let l := word s in
      match first_of [mutex_acquire me a l c; mutex_slow a l c; mutex_try me a l c; mutex_blocking a l c; mutex_drop a l c] with
      | Some (l', c') => Some (mkState l' (<[i := c']> (cpus s)))
      | None => None
      end
  end.

(** [is_locked] *)
Definition is_locked (s : LockState MutexPos) : bool := locked (word s).

Definition cpu_ok (c : Cpu MutexPos) : Prop :=
  match pos c with
  | Idle | LockCheckOwner | TryCheckOwner _ | WaitEvent | TryLoad => True
  | Panicked Recursive => guard c = true
  | SlowLoad n | SlowExchange n => guard c = false /\ 0 <= n <= SPIN_LIMIT
  | _ => guard c = false
  end.

Definition mutex_inv : LockState MutexPos -> Prop := state_inv mutex_inside cpu_ok.

Lemma mutex_step_inv : forall s i a s', mutex_inv s -> mutex_step i a s = Some s' -> mutex_inv s'.
Proof. lock_step_inv mutex_step. Qed.
End Mutex.

(** ** The interface of the two locks *)
(** The shape of a step: it moves one CPU; a call starts at rest; only a drop gives up the
    guard; a guard is obtained by the last operation of a call; the release ends after one
    operation. *)
Definition step_shape {P} (idle dropping : P -> bool) (step : nat -> Act -> LockState P -> option (LockState P)) : Prop :=
  forall s i a s', step i a s = Some s' -> exists c c',
    cpus s !! i = Some c /\ cpus s' = <[i := c']> (cpus s) /\
    match a with
    | Go _ =>
        idle (pos c) = false /\
        if dropping (pos c) then idle (pos c') = true /\ guard c' = guard c
        else dropping (pos c') = false /\
             (guard c' = guard c \/ guard c = false /\ guard c' = true /\ idle (pos c') = true)
    | DropGuard => idle (pos c) = true /\ guard c = true /\ guard c' = false /\
                   idle (pos c') = false /\ dropping (pos c') = true
    | _ => idle (pos c) = true /\ guard c' = guard c /\ idle (pos c') = false /\ dropping (pos c') = false
    end.

(** What clients (the interrupt-disabling wrappers, the condition variable) may rely on. *)
Class GuardedLock (P : Type) := {
  gl_step : nat -> Act -> LockState P -> option (LockState P);
  gl_start : P;
  gl_idle : P -> bool;
  gl_dropping : P -> bool;
  gl_inside : P -> bool;
  gl_panicked : Why -> P;
  gl_ok : Cpu P -> Prop;
  gl_start_ok : gl_idle gl_start = true /\ gl_dropping gl_start = false /\ gl_inside gl_start = false /\
    gl_ok (mkCpu false gl_start);
  gl_inv_step : forall s i a s',
    state_inv gl_inside gl_ok s -> gl_step i a s = Some s' -> state_inv gl_inside gl_ok s';
  gl_shape : step_shape gl_idle gl_dropping gl_step
}.

Definition lock_start {P} `{GuardedLock P} (n : nat) : LockState P :=
  mkState lock_new (replicate n (mkCpu false gl_start)).

#[local] Ltac shape step :=
  intros s i a s' Hst; unfold step in Hst; destruct (cpus s !! i) as [[g p]|] eqn:Hc; [|discriminate];
  exists (mkCpu g p); destruct p, a; cbn in Hst; try discriminate Hst; lock_cases Hst; cbn [cpus];
  (eexists; split; [reflexivity|]; split; [reflexivity|]; destruct g; cbn; intuition congruence).

Lemma spin_shape : step_shape Spin.is_idle Spin.is_dropping Spin.spin_step.
Proof. shape Spin.spin_step. Qed.
Lemma mutex_shape : step_shape Mutex.is_idle Mutex.is_dropping Mutex.mutex_step.
Proof. shape Mutex.mutex_step. Qed.

#[export] Instance spin_lock : GuardedLock Spin.SpinPos := {|
  gl_step := Spin.spin_step; gl_start := Spin.Idle; gl_idle := Spin.is_idle; gl_dropping := Spin.is_dropping;
  gl_inside := Spin.spin_inside; gl_panicked := Spin.Panicked; gl_ok := Spin.cpu_ok;
  gl_start_ok := conj eq_refl (conj eq_refl (conj eq_refl I));
  gl_inv_step := Spin.spin_step_inv; gl_shape := spin_shape |}.

#[export] Instance mutex_lock : GuardedLock Mutex.MutexPos := {|
  gl_step := Mutex.mutex_step; gl_start := Mutex.Idle; gl_idle := Mutex.is_idle; gl_dropping := Mutex.is_dropping;
  gl_inside := Mutex.mutex_inside; gl_panicked := Mutex.Panicked; gl_ok := Mutex.cpu_ok;
  gl_start_ok := conj eq_refl (conj eq_refl (conj eq_refl I));
  gl_inv_step := Mutex.mutex_step_inv; gl_shape := mutex_shape |}.

(** ** The contract of a lock, in one state of a run *)
Section Contract.
Context {P : Type} `{GuardedLock P}.

Definition at_rest (s : LockState P) (i : nat) (g : bool) : Prop :=
  exists c, cpus s !! i = Some c /\ guard c = g /\ pos c = gl_start.
Definition ends_in (s : LockState P) (i : nat) (g : bool) (p : P) (o : option (LockState P)) : Prop :=
  exists s', o = Some s' /\ cpus s' = <[i := mkCpu g p]> (cpus s).

Record lock_contract (s : LockState P) : Prop := {
  (** no two CPUs own a guard *)
  lc_exclusive : forall i j c d, cpus s !! i = Some c -> cpus s !! j = Some d ->
    guard c = true -> guard d = true -> i = j;
  (** the lock is open when no CPU owns a guard or is taking or giving back the lock *)
  lc_free : (forall i c, cpus s !! i = Some c -> inside gl_inside c = false) -> locked (word s) = false;
  (** taking an open lock, without interference, yields the guard *)
  lc_take : forall i, at_rest s i false -> locked (word s) = false ->
    ends_in s i true gl_start (run gl_step [(i, Lock); (i, Go false); (i, Go false)] s) /\
    ends_in s i true gl_start (run gl_step [(i, TryLock); (i, Go false); (i, Go false)] s);
  (** dropping the guard opens the lock *)
  lc_drop : forall i, at_rest s i true -> exists s', run gl_step [(i, DropGuard); (i, Go false)] s = Some s' /\
    word s' = lock_new /\ cpus s' = <[i := mkCpu false gl_start]> (cpus s);
  (** a recursive [lock] panics at once, a recursive [try_lock] answers [None] and changes nothing *)
  lc_recursive : forall i sp, at_rest s i true ->
    ends_in s i true (gl_panicked Recursive) (run gl_step [(i, Lock); (i, Go sp)] s) /\
    run gl_step [(i, TryLock); (i, Go sp)] s = Some s;
  (** the panic for recursion is never a false alarm *)
  lc_no_false_alarm : forall i c, cpus s !! i = Some c -> pos c = gl_panicked Recursive -> guard c = true
}.
End Contract.

(** Running a schedule at a given CPU: reduce [run] step by step. *)
Ltac lock_code :=
  cbn [Spin.spin_acquire Spin.spin_try Spin.spin_drop Mutex.mutex_acquire Mutex.mutex_slow Mutex.mutex_try
       Mutex.mutex_blocking Mutex.mutex_drop first_of guard pos].
Ltac sched_step s Hc :=
  cbn [run]; cbn [gl_step spin_lock mutex_lock]; unfold Spin.spin_step, Mutex.mutex_step; cbn [cpus word];
  rewrite ?list_lookup_insert_eq by (rewrite ?length_insert; eapply lookup_lt_Some; exact Hc); rewrite ?Hc; lock_code; cbn [guard pos locked owner first_of].

Ltac contract_proof s :=
  intros Hs; pose proof Hs as (_ & Hok & _); split;
  [ intros i j c d Hc Hd Hgc Hgd; apply (state_inv_exclusive _ _ s i j c d Hs Hc Hd); unfold inside; by rewrite ?Hgc, ?Hgd
  | apply (state_inv_free _ _ s Hs)
  | intros i ([g p] & Hc & Hg & Hp) Hl; cbn in Hg, Hp; subst;
    split; repeat (sched_step s Hc; rewrite ?Hl; cbn [orb]); eexists; (split; [reflexivity|]);
    cbn [cpus]; by rewrite !list_insert_insert_eq
  | intros i ([g p] & Hc & Hg & Hp); cbn in Hg, Hp; subst; repeat sched_step s Hc;
    eexists; split; [reflexivity|]; split; [done|]; cbn [cpus]; by rewrite !list_insert_insert_eq
  | intros i sp ([g p] & Hc & Hg & Hp); cbn in Hg, Hp; subst;
    destruct (state_inv_facts _ _ s i _ Hs Hc) as (_ & Htk & Hown & _); cbn in Htk;
    specialize (Htk eq_refl); specialize (Hown eq_refl); split;
    repeat (sched_step s Hc; rewrite ?Htk, ?Hown, ?Z.eqb_refl);
    [ eexists; split; [reflexivity|]; cbn [cpus]; by rewrite !list_insert_insert_eq
    | destruct s; cbn [cpus word] in *; rewrite list_insert_insert_eq; by rewrite list_insert_id ]
  | intros i [g p] Hc Hp; specialize (Hok i _ Hc); cbn in Hp; subst p; exact Hok ].

Lemma spin_contract s : Spin.spin_inv s -> lock_contract s.
Proof. contract_proof s. Qed.
Lemma mutex_contract s : Mutex.mutex_inv s -> lock_contract s.
Proof. contract_proof s. Qed.

Lemma reachable_inv {P} `{GuardedLock P} n s :
  Z.of_nat n <= NO_OWNER -> reach gl_step (lock_start n) s -> state_inv gl_inside gl_ok s.
Proof.
  intros Hn. apply reach_invariant; [|intros; by eapply gl_inv_step].
  destruct gl_start_ok as (_ & _ & ? & ?). by apply state_inv_start.
Qed.

(** C36. Spin locks and mutexes keep their contract in every interleaving of any number of
    CPUs calling [lock], [lock_blocking], [try_lock] and dropping guards: at most one CPU
    owns a guard; a lock that nobody holds is open and the next call takes it; dropping the
    guard opens it again; a recursive [lock] is detected at its second operation and a
    recursive [try_lock] fails without effect, while a CPU that does not own the guard is
    never accused of recursion. *)
Theorem locks_keep_their_contract n s t :
  Z.of_nat n <= NO_OWNER ->
  (reach Spin.spin_step (lock_start n) s -> lock_contract s) /\
  (reach Mutex.mutex_step (lock_start n) t -> lock_contract t).
Proof.
  intros Hn. split; intros Hr.
  - apply spin_contract. exact (reachable_inv n s Hn Hr).
  - apply mutex_contract. exact (reachable_inv n t Hn Hr).
Qed.

Lemma locks_keep_their_contract_witness :
  exists s t, run Spin.spin_step [(0%nat, Lock); (0%nat, Go false); (0%nat, Go false); (1%nat, Lock)] (lock_start 2) = Some s /\
    run Mutex.mutex_step [(1%nat, TryLock); (0%nat, Lock); (1%nat, Go false); (0%nat, Go false)] (lock_start 2) = Some t /\
    lock_contract s /\ lock_contract t.
Proof.
  destruct (run Spin.spin_step _ _) as [s|] eqn:Es; [|discriminate].
  destruct (run Mutex.mutex_step _ _) as [t|] eqn:Et; [|discriminate].
  destruct (locks_keep_their_contract 2 s t ltac:(unfold NO_OWNER; lia)) as [H1 H2].
  exists s, t. split; [done|]. split; [done|].
  split; [apply H1|apply H2]; (eapply run_reach; [apply reach_init|eassumption]).
Defined.

(** ** [IrqSpinLock] and [IrqMutex]

    The wrappers note whether interrupts were enabled, disable them, and enable them again
    when the guard is dropped or the attempt has failed.  [call] is the local
    [irq_was_enabled] of a call in progress, [saved] the field of the guard. *)
Inductive Call := NoCall | Locking (irq_was_enabled : bool) | Dropping (irq_was_enabled : bool).
Record IrqCpu := mkIrq { irq : bool; saved : bool; call : Call }.

Section Irq.
Context {P : Type} `{GuardedLock P}.

Record IrqState := mkIrqState { inner : LockState P; irqs : list IrqCpu }.

(** The statements before the call of the inner lock. *)
Definition irq_enter (a : Act) (r : IrqCpu) : IrqCpu :=
  match a with
  | Go _ => r
  | DropGuard => mkIrq (irq r) (saved r) (Dropping (saved r))
  | _ => mkIrq false (saved r) (Locking (irq r))
  end.

(** The statements after its return: [gained] says that it has returned a guard. *)
Definition irq_leave (gained : bool) (r : IrqCpu) : IrqCpu :=
  match call r with
  | Locking was => if gained then mkIrq (irq r) was NoCall else mkIrq (if was then true else irq r) (saved r) NoCall
  | Dropping was => mkIrq (if was then true else irq r) (saved r) NoCall
  | NoCall => r
  end.

Definition irq_step (i : nat) (a : Act) (s : IrqState) : option IrqState :=
  match gl_step i a (inner s), cpus (inner s) !! i, irqs s !! i with
  | Some inner', Some c, Some r =>
      match cpus inner' !! i with
      | Some c' =>
          let r1 := irq_enter a r in
          let r2 := if gl_idle (pos c') then irq_leave (guard c' && negb (guard c)) r1 else r1 in
          Some (mkIrqState inner' (<[i := r2]> (irqs s)))
      | None => None
      end
  | _, _, _ => None
  end.

Definition irq_start (flags : list bool) : IrqState :=
  mkIrqState (lock_start (length flags)) (map (fun b => mkIrq b false NoCall) flags).

(** The flags of a CPU whose interrupts were enabled ([b0]) before it came to the lock. *)
Definition irq_ok (c : Cpu P) (r : IrqCpu) (b0 : bool) : Prop :=
  match call r with
  | NoCall => gl_idle (pos c) = true /\ if guard c then irq r = false /\ saved r = b0 else irq r = b0
  | Locking was => gl_idle (pos c) = false /\ gl_dropping (pos c) = false /\ irq r = false /\
                   if guard c then was = false /\ saved r = b0 else was = b0
  | Dropping was => gl_idle (pos c) = false /\ gl_dropping (pos c) = true /\ guard c = false /\ irq r = false /\ was = b0
  end.

Definition irq_inv (flags : list bool) (s : IrqState) : Prop :=
  state_inv gl_inside gl_ok (inner s) /\
  forall i b0, flags !! i = Some b0 ->
    exists c r, cpus (inner s) !! i = Some c /\ irqs s !! i = Some r /\ irq_ok c r b0.

Lemma irq_start_ok flags : Z.of_nat (length flags) <= NO_OWNER -> irq_inv flags (irq_start flags).
Proof.
  intros Hn. destruct gl_start_ok as (Hi & Hd & Hin & Hok). split; [by apply state_inv_start|].
  intros i b0 Hb. pose proof (lookup_lt_Some _ _ _ Hb) as Hlt. exists (mkCpu false gl_start), (mkIrq b0 false NoCall).
  cbn. rewrite lookup_replicate_2 by done. rewrite list_lookup_fmap, Hb. done.
Qed.

Lemma irq_cpu_step a c c' r b0 :
  irq_ok c r b0 ->
  match a with
  | Go _ =>
      gl_idle (pos c) = false /\
      if gl_dropping (pos c) then gl_idle (pos c') = true /\ guard c' = guard c
      else gl_dropping (pos c') = false /\
           (guard c' = guard c \/ guard c = false /\ guard c' = true /\ gl_idle (pos c') = true)
  | DropGuard => gl_idle (pos c) = true /\ guard c = true /\ guard c' = false /\
                 gl_idle (pos c') = false /\ gl_dropping (pos c') = true
  | _ => gl_idle (pos c) = true /\ guard c' = guard c /\ gl_idle (pos c') = false /\ gl_dropping (pos c') = false
  end ->
  irq_ok c' (if gl_idle (pos c') then irq_leave (guard c' && negb (guard c)) (irq_enter a r) else irq_enter a r) b0.
Proof.
  unfold irq_ok, irq_leave, irq_enter. intros Hok Hsh.
  destruct a; destruct (call r) eqn:Ecall; destruct (gl_idle (pos c)) eqn:Ei; destruct (gl_dropping (pos c)) eqn:Ed;
    try (exfalso; intuition congruence);
    destruct (guard c) eqn:Eg, (guard c') eqn:Eg', (gl_idle (pos c')) eqn:Ei'; cbn [call irq saved andb negb];
    rewrite ?Ecall; cbn [call irq saved]; try (intuition congruence);
    repeat match goal with |- context [if ?b then _ else _] => destruct b eqn:? end; intuition congruence.
Qed.

Lemma irq_step_inv flags s i a s' : irq_inv flags s -> irq_step i a s = Some s' -> irq_inv flags s'.
Proof.
  intros [Hs Hirq] Hst. unfold irq_step in Hst. destruct (gl_step i a (inner s)) as [t|] eqn:Est; [|done].
  destruct (gl_shape _ _ _ _ Est) as (c & c' & Hc & Ht & Hsh). rewrite Hc in Hst.
  destruct (irqs s !! i) as [r|] eqn:Hr; [|done]. pose proof (lookup_lt_Some _ _ _ Hc) as Hlt.
  rewrite Ht, list_lookup_insert_eq in Hst by done. injection Hst as <-.
  split; [by eapply gl_inv_step|]. cbn [inner irqs]. intros j b0 Hb. destruct (Hirq j b0 Hb) as (d & q & Hd & Hq & Hdq).
  rewrite Ht. destruct (decide (j = i)) as [->|Hn].
  - simplify_eq. eexists c', _. rewrite !list_lookup_insert_eq by (eapply lookup_lt_Some; eassumption).
    split; [done|]. split; [reflexivity|]. by apply irq_cpu_step.
  - exists d, q. by rewrite !list_lookup_insert_ne.
Qed.

Lemma irq_reach flags s :
  Z.of_nat (length flags) <= NO_OWNER -> reach irq_step (irq_start flags) s -> irq_inv flags s.
Proof. intros Hn. apply reach_invariant; [by apply irq_start_ok|]. intros ? ? ? ?. apply irq_step_inv. Qed.

(** What the holder and the CPUs at rest see. *)
Definition irq_contract (flags : list bool) (s : IrqState) : Prop :=
  (forall i j c d, cpus (inner s) !! i = Some c -> cpus (inner s) !! j = Some d ->
     guard c = true -> guard d = true -> i = j) /\
  forall i b0, flags !! i = Some b0 -> exists c r, cpus (inner s) !! i = Some c /\ irqs s !! i = Some r /\
    (guard c = true -> irq r = false) /\
    (gl_idle (pos c) = false -> irq r = false) /\
    (gl_idle (pos c) = true -> guard c = false -> irq r = b0).

Lemma irq_inv_contract flags s : irq_inv flags s -> irq_contract flags s.
Proof.
  intros [Hs Hirq]. split.
  - intros i j c d Hc Hd Hgc Hgd. apply (state_inv_exclusive _ _ _ i j c d Hs Hc Hd); unfold inside; by rewrite ?Hgc, ?Hgd.
  - intros i b0 Hb. destruct (Hirq i b0 Hb) as (c & r & Hc & Hr & Hok). exists c, r. split; [done|]. split; [done|].
    unfold irq_ok in Hok. destruct (call r), (guard c), (gl_idle (pos c)); intuition congruence.
Qed.
End Irq.
Arguments IrqState P : clear implicits.

(** The interrupt-disabling locks, in every interleaving: at most one CPU owns a guard; a
    CPU that owns one, or is in the middle of taking or dropping it, runs with interrupts
    disabled; and when it has dropped the guard, or its attempt has failed, its interrupts
    are as they were before. *)
Theorem irq_locks_exclude_and_restore (flags : list bool) (s : IrqState Spin.SpinPos) (t : IrqState Mutex.MutexPos) :
  Z.of_nat (length flags) <= NO_OWNER ->
  (reach irq_step (irq_start flags) s -> irq_contract flags s) /\
  (reach irq_step (irq_start flags) t -> irq_contract flags t).
Proof. intros Hn. split; intros Hr; apply irq_inv_contract; by apply irq_reach. Qed.

Lemma irq_locks_exclude_and_restore_witness :
  exists (s : IrqState Spin.SpinPos) (t : IrqState Mutex.MutexPos),
    run irq_step [(0%nat, Lock); (1%nat, TryLock); (0%nat, Go false); (1%nat, Go false); (0%nat, Go false)]
      (irq_start [true; true]) = Some s /\
    run irq_step [(0%nat, Lock); (0%nat, Go false); (0%nat, Go false); (0%nat, DropGuard); (0%nat, Go false)]
      (irq_start [true; true]) = Some t /\
    irq_contract [true; true] s /\ irq_contract [true; true] t /\ map irq (irqs t) = [true; true].
Proof.
  destruct (run irq_step _ (irq_start [true; true] : IrqState Spin.SpinPos)) as [s|] eqn:Es; [|discriminate].
  destruct (run irq_step _ (irq_start [true; true] : IrqState Mutex.MutexPos)) as [t|] eqn:Et; [|discriminate].
  destruct (irq_locks_exclude_and_restore [true; true] s t ltac:(unfold NO_OWNER; cbn; lia)) as [H1 H2].
  exists s, t. split; [done|]. split; [done|].
  split; [apply H1; eapply run_reach; [apply reach_init|eassumption]|].
  split; [apply H2; eapply run_reach; [apply reach_init|eassumption]|].
  vm_compute in Et. by injection Et as <-.
Defined.
