(* ===== verification/CondVar.v ===== *)
(** * The condition variable: kernel/src/sync/condvar.rs

    [CondVar::wait] over the mutex of Locks.  [notified] counts the notifications so far and
    [since] is its value when a waiting CPU read the sequence number; the code sees only
    [seq]. *)

From S2P Require Import Prelude Conc Locks.

Inductive Phase :=
| NotWaiting
| WaitDrop (seq since : Z)      (* the sequence number is read, the guard still alive *)
| WaitUnlock (seq since : Z)    (* the guard is being dropped *)
| WaitSpin (seq since : Z)
| WaitLock                      (* notified: [lock_blocking] comes next *)
| WaitLocking.

Inductive CvAct := CvWait | CvNotify | CvGo (spurious : bool) | CvMutex (a : Act).

Record CondVar := mkCv { mutex : LockState Mutex.MutexPos; seq : Z; notified : Z; phases : list Phase }.

(** [notify_one] and [notify_all] *)
Definition notify (s : CondVar) : CondVar := mkCv (mutex s) (add64 (seq s) 1) (notified s + 1) (phases s).

Definition cv_step (i : nat) (a : CvAct) (s : CondVar) : option CondVar :=
  match phases s !! i, cpus (mutex s) !! i with
  | Some ph, Some c =>
      let with_mutex o ph' :=
        match o with Some m => Some (mkCv m (seq s) (notified s) (<[i := ph']> (phases s))) | None => None end in
      let goto ph' := with_mutex (Some (mutex s)) ph' in
      match ph, a with
      | NotWaiting, CvMutex b => with_mutex (Mutex.mutex_step i b (mutex s)) NotWaiting
      (* wait *)
      | NotWaiting, CvWait =>
          if guard c && Mutex.is_idle (pos c) then goto (WaitDrop (seq s) (notified s)) else None
      | WaitDrop x n, CvGo _ => with_mutex (Mutex.mutex_step i DropGuard (mutex s)) (WaitUnlock x n)
      | WaitUnlock x n, CvGo b => with_mutex (Mutex.mutex_step i (Go b) (mutex s)) (WaitSpin x n)
      | WaitSpin x n, CvGo _ => goto (if seq s =? x then WaitSpin x n else WaitLock)
      | WaitLock, CvGo _ => with_mutex (Mutex.mutex_step i LockBlocking (mutex s)) WaitLocking
      | WaitLocking, CvGo b =>
          match Mutex.mutex_step i (Go b) (mutex s) with
          | Some m =>
              let returned := match cpus m !! i with Some c' => Mutex.is_idle (pos c') | None => false end in
              with_mutex (Some m) (if returned then NotWaiting else WaitLocking)
          | None => None
          end
      | NotWaiting, CvNotify => if Mutex.is_idle (pos c) then Some (notify s) else None
      | _, _ => None
      end
  | _, _ => None
  end.

Definition cv_start (n : nat) : CondVar := mkCv (lock_start n) 0 0 (replicate n NotWaiting).

(** The mutex call that [wait] is in. *)
Definition phase_ok (s : CondVar) (c : Cpu Mutex.MutexPos) (ph : Phase) : Prop :=
  match ph with
  | NotWaiting => True
  | WaitDrop x n => guard c = true /\ pos c = Mutex.Idle /\ x = n mod u64_size /\ n <= notified s
  | WaitUnlock x n => guard c = false /\ pos c = Mutex.DropUnlock /\ x = n mod u64_size /\ n <= notified s
  | WaitSpin x n => guard c = false /\ pos c = Mutex.Idle /\ x = n mod u64_size /\ n <= notified s
  | WaitLock => guard c = false /\ pos c = Mutex.Idle
  | WaitLocking => guard c = false /\
      match pos c with
      | Mutex.TryLoad | Mutex.TryCheckOwner true | Mutex.TryExchange true | Mutex.TryStoreOwner | Mutex.WaitEvent => True
      | _ => False
      end
  end.

Record cv_inv (s : CondVar) : Prop := {
  cv_mutex : Mutex.mutex_inv (mutex s);
  cv_seq : seq s = notified s mod u64_size;
  cv_phases : forall i c ph, cpus (mutex s) !! i = Some c -> phases s !! i = Some ph -> phase_ok s c ph
}.

Lemma cv_start_ok n : Z.of_nat n <= NO_OWNER -> cv_inv (cv_start n).
Proof.
  intros Hn. split; [|done|].
  - by apply state_inv_start.
  - intros i c ph _ Hp. apply lookup_replicate in Hp as [-> _]. done.
Qed.

(** A step of the mutex, and of the phase of its CPU. *)
Lemma cv_mutex_step s i b m c' ph' :
  cv_inv s -> Mutex.mutex_step i b (mutex s) = Some m -> cpus m = <[i := c']> (cpus (mutex s)) ->
  is_Some (cpus (mutex s) !! i) -> phase_ok s c' ph' ->
  is_Some (phases s !! i) -> cv_inv (mkCv m (seq s) (notified s) (<[i := ph']> (phases s))).
Proof.
  intros [Hm Hs Hp] Hst Hc [c Hci] Hok [ph Hph]. split; cbn [mutex seq notified phases]; [by eapply Mutex.mutex_step_inv|done|].
  intros j d q Hd Hq. rewrite Hc in Hd. destruct (insert_cpu_cases _ _ _ _ _ _ Hph Hq) as [[-> ->]|[Hn Hq']].
  - rewrite list_lookup_insert_eq in Hd by (by eapply lookup_lt_Some). by injection Hd as <-.
  - rewrite list_lookup_insert_ne in Hd by done. by apply (Hp j).
Qed.

Lemma cv_phase_step s i c ph ph' :
  cv_inv s -> cpus (mutex s) !! i = Some c -> phases s !! i = Some ph -> phase_ok s c ph' ->
  cv_inv (mkCv (mutex s) (seq s) (notified s) (<[i := ph']> (phases s))).
Proof.
  intros [Hm Hs Hp] Hc Hph Hok. split; cbn [mutex seq notified phases]; [done|done|].
  intros j d q Hd Hq. destruct (insert_cpu_cases _ _ _ _ _ _ Hph Hq) as [[-> ->]|[Hn Hq']]; [by simplify_eq|by apply (Hp j)].
Qed.

(** The CPU after a mutex step, read off the step itself. *)
Lemma stepped (l : list (Cpu Mutex.MutexPos)) i c c1 c2 :
  l !! i = Some c -> <[i := c1]> l = <[i := c2]> l -> c1 = c2.
Proof.
  intros Hc E. apply (f_equal (fun l => l !! i)) in E.
  rewrite !list_lookup_insert_eq in E by (by eapply lookup_lt_Some). by injection E.
Qed.

Ltac mutex_at E Hc Hm' :=
  unfold Mutex.mutex_step in E; rewrite Hc in E; cbn in E; lock_cases E;
  cbn [cpus] in Hm'; apply (stepped _ _ _ _ _ Hc) in Hm'; subst.

Lemma cv_step_inv s i a s' : cv_inv s -> cv_step i a s = Some s' -> cv_inv s'.
Proof.
  intros Hs Hst. unfold cv_step in Hst. destruct (phases s !! i) as [ph|] eqn:Hph; [|done].
  destruct (cpus (mutex s) !! i) as [c|] eqn:Hc; [|done]. pose proof Hs as [Hm Hseq Hp]. pose proof (Hp i c ph Hc Hph) as Hok.
  assert (Hmx : forall b m, Mutex.mutex_step i b (mutex s) = Some m ->
    exists c', cpus m = <[i := c']> (cpus (mutex s)) /\ cpus m !! i = Some c' /\
    forall ph', phase_ok s c' ph' -> cv_inv (mkCv m (seq s) (notified s) (<[i := ph']> (phases s)))).
  { intros b m E. destruct (mutex_shape _ _ _ _ E) as (c0 & c' & H1 & H2 & _). exists c'. split; [done|].
    split; [by rewrite H2, list_lookup_insert_eq by (by eapply lookup_lt_Some)|].
    intros ph' Hok'. eapply cv_mutex_step; eauto. }
  destruct ph as [|x n|x n|x n| |], a as [| |sp|b]; try discriminate Hst; cbn in Hok.
  - destruct (guard c) eqn:Hg, (Mutex.is_idle (pos c)) eqn:Hi; try discriminate Hst. injection Hst as <-.
    apply (cv_phase_step s i c _ _ Hs Hc Hph). cbn. rewrite Hg. destruct (pos c); try done; repeat split; try done; lia.
  - destruct (Mutex.is_idle (pos c)); [|discriminate]. injection Hst as <-. split; cbn [mutex seq notified phases]; [done| |].
    + unfold notify, add64. cbn. by rewrite Hseq, Zplus_mod_idemp_l.
    + intros j d q Hd Hq. specialize (Hp j d q Hd Hq). destruct q; cbn in *; try done; repeat split; try lia; tauto.
  - destruct (Mutex.mutex_step _ _ _) as [m|] eqn:E; [|discriminate]. injection Hst as <-.
    destruct (Hmx _ _ E) as (c' & _ & _ & H). by apply H.
  - destruct (Mutex.mutex_step _ _ _) as [m|] eqn:E; [|discriminate]. injection Hst as <-. destruct (Hmx _ _ E) as (c' & Hm' & _ & H).
    apply H. destruct c as [g p]. cbn in Hok. destruct Hok as (-> & -> & Hx). mutex_at E Hc Hm'. cbn. tauto.
  - destruct (Mutex.mutex_step _ _ _) as [m|] eqn:E; [|discriminate]. injection Hst as <-. destruct (Hmx _ _ E) as (c' & Hm' & _ & H).
    apply H. destruct c as [g p]. cbn in Hok. destruct Hok as (-> & -> & Hx). mutex_at E Hc Hm'. cbn. tauto.
  - injection Hst as <-. apply (cv_phase_step s i c _ _ Hs Hc Hph). destruct (seq s =? x); cbn; tauto.
  - destruct (Mutex.mutex_step _ _ _) as [m|] eqn:E; [|discriminate]. injection Hst as <-. destruct (Hmx _ _ E) as (c' & Hm' & _ & H).
    apply H. destruct c as [g p]. cbn in Hok. destruct Hok as (-> & ->). mutex_at E Hc Hm'; done.
  - destruct (Mutex.mutex_step _ _ _) as [m|] eqn:E; [|discriminate]. injection Hst as <-. destruct (Hmx _ _ E) as (c' & Hm' & Hci & H).
    rewrite Hci. apply H. destruct c as [g p]. cbn in Hok. destruct Hok as (-> & Hpos).
    destruct p as [| | | | | | |bl|bl| | | |]; try done; try destruct bl; try done; mutex_at E Hc Hm'; done.
Qed.

(** C37. No notification is lost, in every interleaving of waiting, notifying and mutex calls:
    a CPU that has called [wait] and was notified since (fewer than [2^64] times) leaves the
    loop at its next look, while one that was not notified keeps waiting; it does not own
    the mutex while it waits, it owns it when [wait] returns, and the mutex stays exclusive
    throughout. *)
Theorem condvar_loses_no_notification n s :
  Z.of_nat n <= NO_OWNER -> reach cv_step (cv_start n) s ->
  (forall i j c d, cpus (mutex s) !! i = Some c -> cpus (mutex s) !! j = Some d ->
     guard c = true -> guard d = true -> i = j) /\
  (forall i x since c, phases s !! i = Some (WaitSpin x since) -> cpus (mutex s) !! i = Some c ->
     guard c = false /\
     (since < notified s < since + u64_size ->
        cv_step i (CvGo false) s = Some (mkCv (mutex s) (seq s) (notified s) (<[i := WaitLock]> (phases s)))) /\
     (notified s = since -> cv_step i (CvGo false) s = Some s)) /\
  (forall i c b s', phases s !! i = Some WaitLocking -> cpus (mutex s) !! i = Some c ->
     cv_step i (CvGo b) s = Some s' -> phases s' !! i = Some NotWaiting ->
     exists c', cpus (mutex s') !! i = Some c' /\ guard c' = true).
Proof.
  intros Hn Hr. assert (Hs : cv_inv s).
  { revert s Hr. apply reach_invariant; [by apply cv_start_ok|]. intros ? ? ? ?. apply cv_step_inv. }
  pose proof Hs as [Hm Hseq Hp]. split; [|split].
  - intros i j c d Hc Hd Hgc Hgd. apply (state_inv_exclusive _ _ _ i j c d Hm Hc Hd); unfold inside; by rewrite ?Hgc, ?Hgd.
  - intros i x since c Hph Hc. destruct (Hp i c _ Hc Hph) as (Hg & _ & -> & Hle). split; [done|].
    unfold cv_step. rewrite Hph, Hc, Hseq. split.
    + intros Hk. destruct (Z.eqb_spec (notified s mod u64_size) (since mod u64_size)) as [E|E]; [|done]. exfalso.
      assert (H0 : (notified s - since) mod u64_size = 0) by (rewrite Zminus_mod, E, Z.sub_diag; done).
      rewrite Z.mod_small in H0 by lia. lia.
    + intros <-. rewrite Z.eqb_refl. rewrite list_insert_id by done. rewrite <- Hseq. by destruct s.
  - intros i c b s' Hph Hc Hst Hph'. unfold cv_step in Hst. rewrite Hph, Hc in Hst.
    destruct (Mutex.mutex_step i (Go b) (mutex s)) as [m|] eqn:E; [|done]. destruct (mutex_shape _ _ _ _ E) as (c0 & c' & H1 & H2 & _).
    assert (Hci : cpus m !! i = Some c') by (rewrite H2, list_lookup_insert_eq; [done|by eapply lookup_lt_Some]).
    rewrite Hci in Hst. injection Hst as <-. cbn [phases mutex] in *. exists c'. split; [done|].
    rewrite list_lookup_insert_eq in Hph' by (by eapply lookup_lt_Some). injection Hph' as Hph'.
    destruct (Hp i c _ Hc Hph) as [Hg Hpos]. destruct c as [g p]. cbn in Hg, Hpos. subst g. clear Hci H1.
    destruct p as [| | | | | | |bl|bl| | | |]; try done; try destruct bl; try done; mutex_at E Hc H2; done.
Qed.

Lemma condvar_loses_no_notification_witness :
  exists s, run cv_step
      [(0%nat, CvMutex Lock); (0%nat, CvMutex (Go false)); (0%nat, CvMutex (Go false)); (0%nat, CvWait);
       (0%nat, CvGo false); (0%nat, CvGo false); (0%nat, CvGo false); (1%nat, CvNotify)] (cv_start 2) = Some s /\
    phases s !! 0%nat = Some (WaitSpin 0 0) /\
    cv_step 0 (CvGo false) s = Some (mkCv (mutex s) (seq s) (notified s) (<[0%nat := WaitLock]> (phases s))).
Proof.
  destruct (run cv_step _ _) as [s|] eqn:Es; [|discriminate]. exists s. split; [done|].
  destruct (condvar_loses_no_notification 2 s ltac:(unfold NO_OWNER; lia) (run_reach _ _ _ _ _ (reach_init _ _) Es)) as (_ & H & _).
  assert (Hf : phases s !! 0%nat = Some (WaitSpin 0 0) /\ notified s = 1 /\ exists c, cpus (mutex s) !! 0%nat = Some c)
    by (vm_compute in Es; injection Es as <-; repeat split; eexists; reflexivity).
  destruct Hf as (Hph & Hk & c & Hc). split; [exact Hph|]. apply (H 0%nat 0 0 c Hph Hc). rewrite Hk. lia.
Defined.
