(* ===== verification/RwLock.v ===== *)
(** * The reader-writer lock: kernel/src/sync/rwlock.rs

    A CPU may own several read guards; [readers] counts them. *)

From S2P Require Import Prelude Conc.

Definition UNLOCKED : Z := 0.
Definition WRITER : Z := 2147483648.
Definition MAX_READERS : Z := WRITER - 1.

Inductive Pos :=
| Idle
| ReadLoad | ReadWaiting (state : Z) | ReadExchange (state : Z)
| TryReadWaiting (state : Z) | TryReadExchange (state : Z)
| WriteExchange | WriteArrive
| TryWriteExchange
| Panicked.

Inductive Act := Read | TryRead | Write | TryWrite | DropRead | DropWrite | Go (spurious : bool).

Record Cpu := mkCpu { readers : Z; writer : bool; pos : Pos }.
(** The two atomics. *)
Record Words := mkWords { word : Z; waiting : Z }.
Record RwLock := mkRw { state : Z; waiting_writers : Z; cpus : list Cpu }.

(** One operation of a method: the new atomics and the new state of the CPU. *)
Definition Method : Type := Act -> Words -> Cpu -> option (Words * Cpu).

Definition read : Method := fun a w c =>
  let goto p := Some (w, mkCpu (readers c) (writer c) p) in
  match pos c, a with
  | Idle, Read | ReadLoad, Go _ => goto (ReadWaiting (word w))
  | ReadWaiting st, Go _ =>
      if 0 <? waiting w then goto ReadLoad
      else if st <? WRITER
      then goto (if st =? MAX_READERS then Panicked else ReadExchange st)
      else goto ReadLoad
  | ReadExchange st, Go spurious =>
      if negb (word w =? st) || spurious then goto ReadLoad
      else Some (mkWords (add32 st 1) (waiting w), mkCpu (readers c + 1) (writer c) Idle)
  | _, _ => None
  end.

Definition try_read : Method := fun a w c =>
  let goto p := Some (w, mkCpu (readers c) (writer c) p) in
  match pos c, a with
  | Idle, TryRead => goto (TryReadWaiting (word w))
  | TryReadWaiting st, Go _ =>
      if 0 <? waiting w then goto Idle
      else if (st <? WRITER) && (st <? MAX_READERS) then goto (TryReadExchange st) else goto Idle
  | TryReadExchange st, Go _ =>
      if word w =? st then Some (mkWords (add32 st 1) (waiting w), mkCpu (readers c + 1) (writer c) Idle)
      else goto Idle
  | _, _ => None
  end.

Definition write : Method := fun a w c =>
  match pos c, a with
  | Idle, Write => Some (mkWords (word w) (add32 (waiting w) 1), mkCpu (readers c) (writer c) WriteExchange)
  | WriteExchange, Go spurious =>
      if negb (word w =? UNLOCKED) || spurious then Some (w, mkCpu (readers c) (writer c) WriteExchange)
      else Some (mkWords WRITER (waiting w), mkCpu (readers c) (writer c) WriteArrive)
  | WriteArrive, Go _ => Some (mkWords (word w) (sub32 (waiting w) 1), mkCpu (readers c) true Idle)
  | _, _ => None
  end.

Definition try_write : Method := fun a w c =>
  let goto p := Some (w, mkCpu (readers c) (writer c) p) in
  match pos c, a with
  | Idle, TryWrite => if 0 <? waiting w then goto Idle else goto TryWriteExchange
  | TryWriteExchange, Go _ =>
      if word w =? UNLOCKED then Some (mkWords WRITER (waiting w), mkCpu (readers c) true Idle) else goto Idle
  | _, _ => None
  end.

(** [RwLockReadGuard::drop] *)
Definition drop_read : Method := fun a w c =>
  match pos c, a with
  | Idle, DropRead =>
      if 0 <? readers c then Some (mkWords (sub32 (word w) 1) (waiting w), mkCpu (readers c - 1) (writer c) Idle) else None
  | _, _ => None
  end.

(** [RwLockWriteGuard::drop] *)
Definition drop_write : Method := fun a w c =>
  match pos c, a with
  | Idle, DropWrite => if writer c then Some (mkWords UNLOCKED (waiting w), mkCpu (readers c) false Idle) else None
  | _, _ => None
  end.

Definition methods (a : Act) (w : Words) (c : Cpu) : option (Words * Cpu) :=
  first_of (map (fun f : Method => f a w c) [read; try_read; write; try_write; drop_read; drop_write]).

Definition step (i : nat) (a : Act) (s : RwLock) : option RwLock :=
  match cpus s !! i with
  | None => None
  | Some c =>
      match methods a (mkWords (state s) (waiting_writers s)) c with
      | Some (w', c') => Some (mkRw (word w') (waiting w') (<[i := c']> (cpus s)))
      | None => None
      end
  end.

Definition start (n : nat) : RwLock := mkRw UNLOCKED 0 (replicate n (mkCpu 0 false Idle)).

(** ** What the two words count *)
Definition w_readers (c : Cpu) : Z := readers c.
Definition w_writer (c : Cpu) : Z := Z.b2z (writer c) + Z.b2z (match pos c with WriteArrive => true | _ => false end).
Definition w_waiting (c : Cpu) : Z := Z.b2z (match pos c with WriteExchange | WriteArrive => true | _ => false end).

Definition all_readers (s : RwLock) : Z := wsum w_readers (cpus s).
Definition all_writers (s : RwLock) : Z := wsum w_writer (cpus s).
Definition all_waiting (s : RwLock) : Z := wsum w_waiting (cpus s).

Definition cpu_ok (c : Cpu) : Prop :=
  0 <= readers c /\
  match pos c with ReadExchange st | TryReadExchange st => st < MAX_READERS | _ => True end.

Record rw_inv (s : RwLock) : Prop := {
  rw_state : (all_writers s = 0 /\ state s = all_readers s /\ all_readers s <= MAX_READERS) \/
             (all_writers s = 1 /\ all_readers s = 0 /\ state s = WRITER);
  rw_waiting : waiting_writers s = all_waiting s;
  rw_cpus : Forall cpu_ok (cpus s);
  rw_count : Z.of_nat (length (cpus s)) < 4294967295
}.

Lemma cpu_readers_nonneg l : Forall cpu_ok l -> 0 <= wsum w_readers l.
Proof. induction 1 as [|c l [Hc _] _ IH]; [done|]. rewrite wsum_cons. unfold w_readers at 1. lia. Qed.

Lemma cpu_readers_le l i c : Forall cpu_ok l -> l !! i = Some c -> readers c <= wsum w_readers l.
Proof.
  intros Hl. revert i. induction Hl as [|d l [Hd _] Hl IH]; intros [|i] Hi; try done; cbn in Hi; rewrite wsum_cons.
  - simplify_eq. pose proof (cpu_readers_nonneg l Hl). unfold w_readers at 1. lia.
  - specialize (IH i Hi). unfold w_readers at 1. lia.
Qed.

Lemma w_waiting_bounds c : 0 <= w_waiting c <= 1.
Proof. unfold w_waiting. destruct (pos c); cbn; lia. Qed.
Lemma w_writer_nonneg c : 0 <= w_writer c.
Proof. unfold w_writer. destruct (writer c), (pos c); cbn; lia. Qed.

Lemma rw_start_ok n : Z.of_nat n < 4294967295 -> rw_inv (start n).
Proof.
  intros Hn. unfold start. split; unfold all_writers, all_readers, all_waiting; cbn [cpus state waiting_writers].
  - left. rewrite !wsum_replicate by done. unfold MAX_READERS, WRITER. done.
  - by rewrite wsum_replicate.
  - apply Forall_replicate. split; cbn; done.
  - by rewrite length_replicate.
Qed.

(** Replacing one CPU changes the sums by what that CPU contributes. *)
Lemma rw_inv_update s i c c' st ww :
  rw_inv s -> cpus s !! i = Some c ->
  let W := all_writers s - w_writer c + w_writer c' in
  let R := all_readers s - readers c + readers c' in
  (W = 0 /\ st = R /\ R <= MAX_READERS) \/ (W = 1 /\ R = 0 /\ st = WRITER) ->
  ww = all_waiting s - w_waiting c + w_waiting c' -> cpu_ok c' ->
  rw_inv (mkRw st ww (<[i := c']> (cpus s))).
Proof.
  intros [_ _ Hok Hn] Hc W R H1 H2 H3.
  split; unfold all_writers, all_readers, all_waiting; cbn [cpus state waiting_writers];
    rewrite ?(wsum_insert _ _ _ _ _ Hc), ?length_insert; [exact H1|exact H2| |done].
  by apply Forall_insert.
Qed.

Lemma rw_step_inv s i a s' : rw_inv s -> step i a s = Some s' -> rw_inv s'.
Proof.
  intros Hs Hstep. pose proof Hs as [Hst Hw Hok Hn]. unfold step in Hstep.
  destruct (cpus s !! i) as [c|] eqn:Hc; [|done].
  pose proof (proj1 (Forall_lookup _ _) Hok i c Hc) as [Hr Hp].
  pose proof (cpu_readers_le _ _ _ Hok Hc) as Hrle. fold (all_readers s) in Hrle.
  pose proof (wsum_ge w_writer _ _ _ w_writer_nonneg Hc) as Hwle. fold (all_writers s) in Hwle.
  pose proof (wsum_ge w_waiting _ _ _ (fun c => proj1 (w_waiting_bounds c)) Hc) as Hwwle. fold (all_waiting s) in Hwwle.
  pose proof (wsum_le_length w_waiting (cpus s) (fun c => proj2 (w_waiting_bounds c))) as Hwb. fold (all_waiting s) in Hwb.
  destruct c as [r w p]. cbn [readers writer pos] in *.
  destruct p, a; cbn in Hstep; try discriminate Hstep;
    repeat match type of Hstep with context [if ?b then _ else _] => destruct b eqn:? end; try discriminate Hstep;
    cbn [word waiting] in Hstep; injection Hstep as <-;
    rewrite ?andb_true_iff, ?orb_false_iff, ?negb_false_iff, ?Z.eqb_eq, ?Z.eqb_neq, ?Z.ltb_lt, ?Z.ltb_ge in *.
  all: apply (rw_inv_update s i _ _ _ _ Hs Hc); destruct w;
    unfold w_waiting, w_writer, cpu_ok, UNLOCKED, MAX_READERS, WRITER, add32, sub32 in *;
    cbn [readers writer pos Z.b2z] in *; rewrite ?Z.mod_small by lia; lia.
Qed.

Lemma rw_reach_inv n s : Z.of_nat n < 4294967295 -> reach step (start n) s -> rw_inv s.
Proof. intros Hn. apply reach_invariant; [by apply rw_start_ok|]. intros ? ? ? ?. apply rw_step_inv. Qed.

Lemma writer_alone s i j c d :
  rw_inv s -> cpus s !! i = Some c -> cpus s !! j = Some d -> writer c = true ->
  readers d = 0 /\ (writer d = true -> i = j).
Proof.
  intros [Hst _ Hok _] Hc Hd Hwc. pose proof (cpu_readers_le _ _ _ Hok Hd) as Hr.
  destruct (proj1 (Forall_lookup _ _) Hok j d Hd) as [Hd0 _].
  pose proof (wsum_ge w_writer _ _ _ w_writer_nonneg Hc) as Hw. unfold all_writers, all_readers in Hst.
  unfold w_writer in Hw at 1. rewrite Hwc in Hw. cbn in Hw. pose proof (w_writer_nonneg c). split.
  - destruct (pos c); cbn in Hw; lia.
  - intros Hwd. destruct (decide (i = j)) as [->|Hn]; [done|exfalso].
    pose proof (wsum_ge2 w_writer _ _ _ _ _ w_writer_nonneg Hn Hc Hd) as H2.
    unfold w_writer in H2 at 1 2. rewrite Hwc, Hwd in H2. destruct (pos c), (pos d); cbn in H2; lia.
Qed.

(** Reduction of a schedule at one CPU. *)
Ltac rw_run Hc :=
  cbn [run]; unfold step; cbn [cpus state waiting_writers];
  rewrite ?list_lookup_insert_eq by (rewrite ?length_insert; eapply lookup_lt_Some; exact Hc); rewrite ?Hc;
  cbn [methods map first_of read try_read write try_write drop_read drop_write readers writer pos word waiting].

(** C38. The reader-writer lock, in every interleaving: a CPU with a write guard is alone, no
    other CPU and not even itself owning a read guard; the lock word counts the read guards;
    while a writer is waiting no call of [read] gets past its first look, and [try_read] and
    [try_write] fail without effect; a free lock is given to the next reader or writer.  This
    is what rwlock.rs does; docs/api/sync/rwlock.md describes an older lock, with a writer bit
    below the count of readers and without precedence for waiting writers. *)
Theorem rwlock_readers_exclude_writer n s :
  Z.of_nat n < 4294967295 -> reach step (start n) s ->
  (forall i j c d, cpus s !! i = Some c -> cpus s !! j = Some d -> writer c = true ->
     readers d = 0 /\ (writer d = true -> i = j)) /\
  (all_writers s = 0 -> state s = all_readers s) /\
  (0 < all_waiting s -> forall i c sp, cpus s !! i = Some c -> pos c = Idle ->
     run step [(i, Read); (i, Go sp)] s =
       Some (mkRw (state s) (waiting_writers s) (<[i := mkCpu (readers c) (writer c) ReadLoad]> (cpus s))) /\
     run step [(i, TryRead); (i, Go sp)] s = Some s /\ run step [(i, TryWrite)] s = Some s) /\
  (state s = UNLOCKED -> all_waiting s = 0 -> forall i c, cpus s !! i = Some c -> pos c = Idle ->
     (exists s', run step [(i, Read); (i, Go false); (i, Go false)] s = Some s' /\ state s' = 1 /\
        cpus s' = <[i := mkCpu (readers c + 1) (writer c) Idle]> (cpus s)) /\
     (exists s', run step [(i, Write); (i, Go false); (i, Go false)] s = Some s' /\ state s' = WRITER /\
        cpus s' = <[i := mkCpu (readers c) true Idle]> (cpus s))).
Proof.
  intros Hn Hr. pose proof (rw_reach_inv n s Hn Hr) as Hs. pose proof Hs as [Hst Hw Hok Hlen].
  split; [intros i j c d; by apply writer_alone|]. split; [unfold WRITER in *; lia|]. split.
  - intros Hwait i [r w p] sp Hc Hp. cbn [pos readers writer] in *. subst p.
    assert (Hww : (0 <? waiting_writers s) = true) by (apply Z.ltb_lt; lia).
    assert (Hsame : mkRw (state s) (waiting_writers s) (<[i := mkCpu r w Idle]> (cpus s)) = s)
      by (destruct s; cbn [cpus state waiting_writers] in *; by rewrite list_insert_id).
    repeat split; repeat (rw_run Hc; rewrite ?Hww); rewrite ?list_insert_insert_eq; by rewrite ?Hsame.
  - intros Hfree Hwait i [r w p] Hc Hp. cbn [pos readers writer] in *. subst p.
    assert (Hww : waiting_writers s = 0) by lia.
    split;
      repeat (rw_run Hc; rewrite ?Hww, ?Hfree; change (0 <? 0) with false; change (UNLOCKED <? WRITER) with true;
              change (UNLOCKED =? MAX_READERS) with false; rewrite ?Z.eqb_refl; cbn [negb orb]);
      eexists; (split; [reflexivity|]);
      cbn [state cpus]; (split; [done|]); by rewrite !list_insert_insert_eq.
Qed.

Lemma rwlock_readers_exclude_writer_witness :
  exists s, run step [(0%nat, Read); (0%nat, Go false); (0%nat, Go false); (1%nat, Write); (1%nat, Go false); (2%nat, Read)]
      (start 3) = Some s /\ 0 < all_waiting s /\
    (forall i j c d, cpus s !! i = Some c -> cpus s !! j = Some d -> writer c = true ->
       readers d = 0 /\ (writer d = true -> i = j)) /\
    (all_writers s = 0 -> state s = all_readers s).
Proof.
  destruct (run step _ _) as [s|] eqn:Es; [|discriminate]. exists s. split; [done|].
  pose proof (rwlock_readers_exclude_writer 3 s ltac:(lia) (run_reach _ _ _ _ _ (reach_init _ _) Es)) as (H1 & H2 & _).
  split; [vm_compute in Es; injection Es as <-; done|]. split; [exact H1|exact H2].
Defined.
