(* ===== verification/Semaphore.v ===== *)
(** * Counting semaphores: kernel/src/sync/semaphore.rs

    [held] counts the permits of the live [SemaphorePermit]s of a CPU, [forgotten] those
    given away with [forget] and [released] those put in with a bare [release] or
    [release_many]; the code keeps none of the three, they are what the theorem counts. *)

From S2P Require Import Prelude Conc.

Inductive Pos :=
| Idle
| AcquireLoad (permits : Z) (blocking : bool) | AcquireExchange (count permits : Z) (blocking : bool)
| WaitPermit (permits : Z)
| TryLoad | TryExchange (count : Z) (blocking : bool) | WaitTry.

(** The operations of [Semaphore] and [SemaphorePermit].  [Release] and [ReleaseMany] are the
    bare operations, [DropPermit] the drop of a permit of the given size. *)
Inductive Act :=
| Acquire | AcquireBlocking | TryAcquire | AcquireMany (permits : Z) | AcquireManyBlocking (permits : Z)
| Release | ReleaseMany (permits : Z) | DropPermit (permits : Z) | Forget (permits : Z)
| Go (spurious : bool).

Record Cpu := mkCpu { held : Z; forgotten : Z; released : Z; pos : Pos }.
Record Semaphore := mkSem { count : Z; cpus : list Cpu }.

Definition available (s : Semaphore) : Z := count s.

(** One operation of a method: the new count and the new state of the CPU. *)
Definition Method : Type := Act -> Z -> Cpu -> option (Z * Cpu).

(** The test [count >= permits] ([count > 0] for one permit) after the load. *)
Definition test_count (permits : Z) (blocking : bool) (n : Z) (c : Cpu) : option (Z * Cpu) :=
  Some (n, mkCpu (held c) (forgotten c) (released c)
    (if permits <=? n then AcquireExchange n permits blocking
     else if blocking then WaitPermit permits else AcquireLoad permits false)).

(** The exchange of [count] for [count - permits]. *)
Definition exchange_count (old permits : Z) (blocking spurious : bool) (n : Z) (c : Cpu) : option (Z * Cpu) :=
  if negb (n =? old) || spurious then Some (n, mkCpu (held c) (forgotten c) (released c) (AcquireLoad permits blocking))
  else Some (wrap_i32 (old - permits), mkCpu (held c + permits) (forgotten c) (released c) Idle).

(** [acquire]; its loop is that of [acquire_many] for one permit. *)
Definition acquire : Method := fun a n c =>
  match pos c, a with Idle, Acquire => test_count 1 false n c | _, _ => None end.

Definition acquire_many : Method := fun a n c =>
  match pos c, a with
  | Idle, AcquireMany permits => test_count (wrap_i32 permits) false n c
  | AcquireLoad permits false, Go _ => test_count permits false n c
  | AcquireExchange old permits false, Go spurious => exchange_count old permits false spurious n c
  | _, _ => None
  end.

Definition acquire_many_blocking : Method := fun a n c =>
  match pos c, a with
  | Idle, AcquireManyBlocking permits => test_count (wrap_i32 permits) true n c
  | AcquireLoad permits true, Go _ => test_count permits true n c
  | AcquireExchange old permits true, Go spurious => exchange_count old permits true spurious n c
  | WaitPermit permits, Go _ => Some (n, mkCpu (held c) (forgotten c) (released c) (AcquireLoad permits true))
  | _, _ => None
  end.

(** [try_acquire]; a failed attempt of [acquire_blocking] goes on to [wait_for_permit]. *)
Definition try_acquire : Method := fun a n c =>
  let goto p := Some (n, mkCpu (held c) (forgotten c) (released c) p) in
  match pos c, a with
  | Idle, TryAcquire => if 0 <? n then goto (TryExchange n false) else goto Idle
  | TryExchange old blocking, Go _ =>
      if n =? old then Some (wrap_i32 (old - 1), mkCpu (held c + 1) (forgotten c) (released c) Idle)
      else goto (if blocking then WaitTry else Idle)
  | _, _ => None
  end.

(** [acquire_blocking]: the loop around [try_acquire] *)
Definition acquire_blocking : Method := fun a n c =>
  let goto p := Some (n, mkCpu (held c) (forgotten c) (released c) p) in
  match pos c, a with
  | Idle, AcquireBlocking | TryLoad, Go _ => if 0 <? n then goto (TryExchange n true) else goto WaitTry
  | WaitTry, Go _ => goto TryLoad
  | _, _ => None
  end.

Definition release : Method := fun a n c =>
  match pos c, a with Idle, Release => Some (wrap_i32 (n + 1), mkCpu (held c) (forgotten c) (released c + 1) Idle) | _, _ => None end.

Definition release_many : Method := fun a n c =>
  match pos c, a with
  | Idle, ReleaseMany permits =>
      Some (wrap_i32 (n + wrap_i32 permits), mkCpu (held c) (forgotten c) (released c + permits) Idle)
  | _, _ => None
  end.

(** [SemaphorePermit::drop] *)
Definition drop_permit : Method := fun a n c =>
  match pos c, a with
  | Idle, DropPermit permits =>
      if (0 <=? permits) && (permits <=? held c)
      then Some (wrap_i32 (n + wrap_i32 permits), mkCpu (held c - permits) (forgotten c) (released c) Idle) else None
  | _, _ => None
  end.

(** [SemaphorePermit::forget] *)
Definition forget : Method := fun a n c =>
  match pos c, a with
  | Idle, Forget permits =>
      if (0 <=? permits) && (permits <=? held c)
      then Some (n, mkCpu (held c - permits) (forgotten c + permits) (released c) Idle) else None
  | _, _ => None
  end.

Definition methods (a : Act) (n : Z) (c : Cpu) : option (Z * Cpu) :=
  first_of (map (fun f : Method => f a n c)
    [acquire; acquire_many; acquire_many_blocking; try_acquire; acquire_blocking; release; release_many; drop_permit; forget]).

Definition step (i : nat) (a : Act) (s : Semaphore) : option Semaphore :=
  match cpus s !! i with
  | None => None
  | Some c =>
      match methods a (count s) c with
      | Some (n', c') => Some (mkSem n' (<[i := c']> (cpus s)))
      | None => None
      end
  end.

Definition start (n : nat) (initial : Z) : Semaphore := mkSem initial (replicate n (mkCpu 0 0 0 Idle)).
(** [Semaphore::binary] *)
Definition binary (n : nat) : Semaphore := start n 1.

(** The calls clients make: every operation, with a [u32] as the number of permits; a request
    to acquire [2^31] or more, which the cast to [i32] makes negative, is left out. *)
Definition permit_step (i : nat) (a : Act) (s : Semaphore) : option Semaphore :=
  match a with
  | AcquireMany p | AcquireManyBlocking p => if (0 <=? p) && (p <? 2147483648) then step i a s else None
  | ReleaseMany p => if (0 <=? p) && (p <? 4294967296) then step i a s else None
  | _ => step i a s
  end.

(** ** Permits are conserved *)
Definition w_out (c : Cpu) : Z := held c + forgotten c.
Definition permits_out (s : Semaphore) : Z := wsum w_out (cpus s).
Definition permits_released (s : Semaphore) : Z := wsum released (cpus s).

Definition cpu_ok (c : Cpu) : Prop :=
  0 <= held c /\ 0 <= forgotten c /\
  match pos c with
  | AcquireLoad p _ | WaitPermit p => 0 <= p
  | AcquireExchange n p _ => 0 <= p <= n
  | TryExchange n _ => 0 < n
  | _ => True
  end.

Record sem_inv (initial : Z) (s : Semaphore) : Prop := {
  sem_sum : count s + permits_out s = initial + permits_released s;
  sem_nonneg : 0 <= count s;
  sem_cpus : Forall cpu_ok (cpus s)
}.

Lemma sem_start_ok n initial : 0 <= initial -> sem_inv initial (start n initial).
Proof.
  intros H. unfold start. split; unfold permits_out, permits_released; cbn [count cpus]; [|done|].
  - rewrite !wsum_replicate by done. lia.
  - apply Forall_replicate. repeat split; cbn; lia.
Qed.

Lemma out_nonneg l : Forall cpu_ok l -> 0 <= wsum w_out l.
Proof. induction 1 as [|c l (? & ? & _) _ IH]; [done|]. rewrite wsum_cons. unfold w_out at 1. lia. Qed.

Lemma out_le l i c : Forall cpu_ok l -> l !! i = Some c -> held c + forgotten c <= wsum w_out l.
Proof.
  intros Hl. revert i. induction Hl as [|d l (? & ? & _) Hl IH]; intros [|i] Hi; try done; cbn in Hi; rewrite wsum_cons.
  - simplify_eq. pose proof (out_nonneg l Hl). unfold w_out at 1. lia.
  - specialize (IH i Hi). unfold w_out at 1. lia.
Qed.

Lemma sem_inv_update initial s i c c' n :
  sem_inv initial s -> cpus s !! i = Some c ->
  n + (permits_out s - w_out c + w_out c') = initial + (permits_released s - released c + released c') -> 0 <= n -> cpu_ok c' ->
  sem_inv initial (mkSem n (<[i := c']> (cpus s))).
Proof.
  intros [_ _ Hok] Hc H1 H2 H3. split; [|exact H2|by apply Forall_insert].
  unfold permits_out, permits_released. cbn [cpus count]. rewrite !(wsum_insert _ _ _ _ _ Hc). exact H1.
Qed.

Ltac sem_code :=
  unfold methods, acquire, acquire_many, acquire_many_blocking, try_acquire, acquire_blocking, release, release_many,
    drop_permit, forget, test_count, exchange_count; cbn [map first_of held forgotten released pos].

(** One call of a client, as an operation of a CPU. *)
Lemma permit_step_methods i a s s' : permit_step i a s = Some s' ->
  exists c n' c', cpus s !! i = Some c /\ methods a (count s) c = Some (n', c') /\ s' = mkSem n' (<[i := c']> (cpus s)) /\
    match a with
    | AcquireMany p | AcquireManyBlocking p => 0 <= p < 2147483648
    | ReleaseMany p => 0 <= p < 4294967296
    | _ => True
    end.
Proof.
  intros H. assert (Hst : step i a s = Some s' /\
    match a with
    | AcquireMany p | AcquireManyBlocking p => 0 <= p < 2147483648
    | ReleaseMany p => 0 <= p < 4294967296
    | _ => True
    end).
  { unfold permit_step in H. destruct a; try done; destruct (_ && _) eqn:E in H; try done; split; try done; lia. }
  clear H. destruct Hst as (Hst & Ha). unfold step in Hst. destruct (cpus s !! i) as [c|] eqn:Hc; [|done].
  destruct (methods a (count s) c) as [[n' c']|] eqn:Em; [|done]. injection Hst as <-. eauto 10.
Qed.

Ltac sem_cases Hst :=
  unfold methods, acquire, acquire_many, acquire_many_blocking, try_acquire, acquire_blocking, release, release_many,
    drop_permit, forget, test_count, exchange_count in Hst; cbn [map first_of held forgotten released pos] in Hst;
  try discriminate Hst; try done;
  repeat match type of Hst with context [if ?b then _ else _] => destruct b eqn:?; cbn [first_of] in Hst end; try discriminate Hst;
  injection Hst as <- <-.

(** Only the bare operations add to what was released, and nothing takes from it. *)
Lemma released_grows i a s s' : permit_step i a s = Some s' -> permits_released s <= permits_released s'.
Proof.
  intros (c & n' & c' & Hc & Hm & -> & Ha)%permit_step_methods. unfold permits_released. cbn [cpus].
  rewrite (wsum_insert _ _ _ _ _ Hc). assert (released c <= released c'); [|lia].
  destruct c as [h f r p]. destruct p as [|? []|? ? []| | |? []|], a; sem_cases Hm; cbn [released]; lia.
Qed.

Lemma permit_step_inv initial s i a s' :
  0 <= initial -> initial + permits_released s' < 2147483648 ->
  sem_inv initial s -> permit_step i a s = Some s' -> sem_inv initial s'.
Proof.
  intros Hinit Hroom Hs Hst. pose proof Hs as [Hsum Hn Hok]. pose proof (released_grows _ _ _ _ Hst) as Hgrow.
  apply permit_step_methods in Hst as (c & n' & c' & Hc & Hst & -> & Ha).
  pose proof (proj1 (Forall_lookup _ _) Hok i c Hc) as (Hh & Hf & Hp).
  pose proof (out_le _ _ _ Hok Hc) as Hle. fold (permits_out s) in Hle.
  assert (Hr : permits_released (mkSem n' (<[i := c']> (cpus s))) = permits_released s - released c + released c')
    by apply (wsum_insert _ _ _ _ _ Hc).
  rewrite Hr in Hroom, Hgrow. clear Hr. destruct c as [h f r p]. cbn [held forgotten released pos] in *.
  destruct p as [|? []|? ? []| | |? []|], a; sem_cases Hst; cbn [released] in Hroom, Hgrow;
    rewrite ?andb_true_iff, ?orb_false_iff, ?negb_false_iff, ?Z.eqb_eq, ?Z.eqb_neq, ?Z.ltb_lt, ?Z.ltb_ge, ?Z.leb_le, ?Z.leb_gt in *;
    i32_simpl.
  all: apply (sem_inv_update initial s i _ _ _ Hs Hc); unfold w_out, cpu_ok; cbn [held forgotten released pos]; lia.
Qed.

Lemma reachable_sem_inv n initial s :
  0 <= initial -> reach permit_step (start n initial) s -> initial + permits_released s < 2147483648 -> sem_inv initial s.
Proof.
  intros Hinit. revert s. apply (reach_invariant _ (fun s => initial + permits_released s < 2147483648 -> sem_inv initial s));
    [intros _; by apply sem_start_ok|].
  intros s i a s' IH Hst Hroom. eapply permit_step_inv; eauto. apply IH. pose proof (released_grows _ _ _ _ Hst). lia.
Qed.



(** A request for [2^32 - 1] permits is cast to [-1]: it is granted at once and adds a permit. *)
Example huge_request_adds_a_permit :
  run step [(0%nat, AcquireMany 4294967295); (0%nat, Go false)] (start 1 0) = Some (mkSem 1 [mkCpu (-1) 0 0 Idle]).
Proof. vm_compute. reflexivity. Qed.

(** ** [BoundedSemaphore] *)
Module Bounded.
Inductive BPos := BIdle | BAcquireLoad | BAcquireExchange (count : Z) | BTryExchange (count : Z)
                | BReleaseLoad | BReleaseExchange (count : Z).
Inductive BAct := BAcquire | BTryAcquire | BRelease | BGo (spurious : bool).
(** [answer] is the result of the last [try_acquire] or [release]. *)
Record BCpu := mkB { taken : Z; given : Z; answer : bool; bpos : BPos }.
Record BoundedSemaphore := mkBounded { bcount : Z; bmax : Z; bcpus : list BCpu }.

Definition bstep (i : nat) (a : BAct) (s : BoundedSemaphore) : option BoundedSemaphore :=
  match bcpus s !! i with
  | None => None
  | Some c =>
      let becomes n t g r p := Some (mkBounded n (bmax s) (<[i := mkB t g r p]> (bcpus s))) in
      let goto p := becomes (bcount s) (taken c) (given c) (answer c) p in
      let fails := becomes (bcount s) (taken c) (given c) false BIdle in
      match bpos c, a with
      | BIdle, BAcquire | BAcquireLoad, BGo _ =>
          if 0 <? bcount s then goto (BAcquireExchange (bcount s)) else goto BAcquireLoad
      | BAcquireExchange n, BGo spurious =>
          if negb (bcount s =? n) || spurious then goto BAcquireLoad
          else becomes (sub32 n 1) (taken c + 1) (given c) (answer c) BIdle
      | BIdle, BTryAcquire => if 0 <? bcount s then goto (BTryExchange (bcount s)) else fails
      | BTryExchange n, BGo _ =>
          if bcount s =? n then becomes (sub32 n 1) (taken c + 1) (given c) true BIdle else fails
      | BIdle, BRelease | BReleaseLoad, BGo _ =>
          if bmax s <=? bcount s then fails else goto (BReleaseExchange (bcount s))
      | BReleaseExchange n, BGo spurious =>
          if negb (bcount s =? n) || spurious then goto BReleaseLoad
          else becomes (add32 n 1) (taken c) (given c + 1) true BIdle
      | _, _ => None
      end
  end.

Definition bstart (n : nat) (initial max : Z) : BoundedSemaphore :=
  mkBounded initial max (replicate n (mkB 0 0 false BIdle)).

Definition w_net (c : BCpu) : Z := taken c - given c.

Record bounded_inv (initial max : Z) (s : BoundedSemaphore) : Prop := {
  bi_max : bmax s = max;
  bi_range : 0 <= bcount s <= max;
  bi_sum : bcount s + wsum w_net (bcpus s) = initial;
  bi_cpus : Forall (fun c => match bpos c with
                             | BAcquireExchange n | BTryExchange n => 0 < n
                             | BReleaseExchange n => n < max
                             | _ => True end) (bcpus s)
}.

Lemma bounded_step_inv initial max s i a s' :
  max < 4294967296 -> bounded_inv initial max s -> bstep i a s = Some s' -> bounded_inv initial max s'.
Proof.
  intros Hmax [Hm Hr Hsum Hok] Hst. unfold bstep in Hst. destruct (bcpus s !! i) as [c|] eqn:Hc; [|done].
  pose proof (proj1 (Forall_lookup _ _) Hok i c Hc) as Hp. destruct c as [t g r p]. cbn [bpos taken given answer] in *.
  destruct p, a; try discriminate Hst;
    repeat match type of Hst with context [if ?b then _ else _] => destruct b eqn:? end; try discriminate Hst;
    injection Hst as <-;
    rewrite ?orb_false_iff, ?negb_false_iff, ?Z.eqb_eq, ?Z.ltb_lt, ?Z.ltb_ge, ?Z.leb_le, ?Z.leb_gt in *.
  all: split; cbn [bmax bcount bcpus]; unfold add32, sub32; rewrite ?Z.mod_small by lia; try lia;
    [rewrite (wsum_insert _ _ _ _ _ Hc); unfold w_net at 2 3; cbn [taken given]; lia
    |apply Forall_insert; [done|]; cbn [bpos]; done || lia].
Qed.

(** The count of a bounded semaphore stays between zero and its bound in every interleaving,
    and is the initial count less the permits taken plus those given back; [release] is
    refused exactly when the count it reads is at the bound. *)
Theorem bounded_semaphore_within_bounds n initial max s :
  0 <= initial <= max -> max < 4294967296 -> reach bstep (bstart n initial max) s ->
  0 <= bcount s <= max /\ bcount s + wsum w_net (bcpus s) = initial /\
  (forall i c, bcpus s !! i = Some c -> bpos c = BIdle -> bcount s = max ->
     exists s', bstep i BRelease s = Some s' /\ bcount s' = max /\
       bcpus s' = <[i := mkB (taken c) (given c) false BIdle]> (bcpus s)) /\
  (forall i c, bcpus s !! i = Some c -> bpos c = BIdle -> bcount s < max ->
     exists s', run bstep [(i, BRelease); (i, BGo false)] s = Some s' /\ bcount s' = bcount s + 1 /\
       bcpus s' = <[i := mkB (taken c) (given c + 1) true BIdle]> (bcpus s)).
Proof.
  intros Hi Hmax Hr. assert (Hs : bounded_inv initial max s).
  { revert s Hr. apply reach_invariant; [|intros; by eapply bounded_step_inv]. unfold bstart.
    split; cbn [bmax bcount bcpus]; [done|done|rewrite wsum_replicate by done; lia|by apply Forall_replicate]. }
  destruct Hs as [Hm Hrange Hsum Hok]. split; [done|]. split; [done|]. split.
  - intros i [t g r p] Hc Hp He. cbn [bpos taken given] in *. subst p. unfold bstep. rewrite Hc. cbn [bpos taken given].
    rewrite (proj2 (Z.leb_le _ _)) by lia. eexists. split; [reflexivity|]. done.
  - intros i [t g r p] Hc Hp He. cbn [bpos taken given] in *. subst p. cbn [run]. unfold bstep at 1. rewrite Hc.
    cbn [bpos taken given answer]. rewrite (proj2 (Z.leb_gt _ _)) by lia. unfold bstep. cbn [bcpus bcount bmax].
    rewrite list_lookup_insert_eq by (eapply lookup_lt_Some; exact Hc). cbn [bpos taken given]. rewrite Z.eqb_refl. cbn [negb orb].
    eexists. split; [reflexivity|]. cbn [bcount bcpus]. unfold add32. rewrite Z.mod_small by lia. by rewrite list_insert_insert_eq.
Qed.
End Bounded.
