(* ===== verification/Barrier.v ===== *)
(** * Barriers and latches: kernel/src/sync/barrier.rs

    [done] counts the calls of [wait] that have returned to a CPU, [led] those that made it
    the leader. *)

From S2P Require Import Prelude Conc.

Inductive Pos :=
| Idle
| Arrive (current_gen : Z)   (* the generation is loaded, the arrival comes next *)
| Spin (current_gen : Z)
| LeaderReset | LeaderAdvance.

Inductive Act := Wait | Go.

Record Cpu := mkCpu { done : Z; led : Z; pos : Pos }.
Record Barrier := mkBarrier { num_threads : Z; count : Z; generation : Z; cpus : list Cpu }.

Definition step (i : nat) (a : Act) (b : Barrier) : option Barrier :=
  match cpus b !! i with
  | None => None
  | Some c =>
      let becomes n g c' := Some (mkBarrier (num_threads b) n g (<[i := c']> (cpus b))) in
      let goto p := becomes (count b) (generation b) (mkCpu (done c) (led c) p) in
      match pos c, a with
      | Idle, Wait => goto (Arrive (generation b))
      | Arrive g, Go =>
          let arrived := add32 (count b) 1 in
          becomes arrived (generation b)
            (mkCpu (done c) (led c) (if arrived =? num_threads b then LeaderReset else Spin g))
      | LeaderReset, Go => becomes 0 (generation b) (mkCpu (done c) (led c) LeaderAdvance)
      | LeaderAdvance, Go => becomes (count b) (add64 (generation b) 1) (mkCpu (done c + 1) (led c + 1) Idle)
      | Spin g, Go =>
          if generation b =? g then goto (Spin g)
          else becomes (count b) (generation b) (mkCpu (done c + 1) (led c) Idle)
      | _, _ => None
      end
  end.

Definition start (n : nat) : Barrier := mkBarrier (Z.of_nat n) 0 0 (replicate n (mkCpu 0 0 Idle)).

(** ** The rounds

    [G] is the number of completed rounds.  A CPU is at rest or on its way into round [G],
    has arrived in it, or still spins in the round before, which is already open. *)
Definition waiting (c : Cpu) : bool := match pos c with Spin _ | LeaderReset | LeaderAdvance => true | _ => false end.
Definition arrivals (c : Cpu) : Z := done c + Z.b2z (waiting c).
Definition w_arrived (G : Z) (c : Cpu) : Z := Z.b2z (waiting c && (done c =? G)).

Definition gen (G : Z) : Z := G mod u64_size.

Definition cpu_ok (G : Z) (c : Cpu) : Prop :=
  match pos c with
  | Idle | LeaderReset | LeaderAdvance => done c = G
  | Arrive g => done c = G /\ g = gen G
  | Spin g => g = gen (done c) /\ (done c = G \/ done c = G - 1)
  end.

Inductive phase := Gathering | Resetting (i : nat) | Advancing (i : nat).

Definition leader_pos (ph : phase) (i : nat) (c : Cpu) : Prop :=
  match ph with
  | Gathering => pos c <> LeaderReset /\ pos c <> LeaderAdvance
  | Resetting j => (i = j <-> pos c = LeaderReset) /\ pos c <> LeaderAdvance
  | Advancing j => (i = j <-> pos c = LeaderAdvance) /\ pos c <> LeaderReset
  end.

Record barrier_inv (n : nat) (b : Barrier) (G : Z) (ph : phase) : Prop := {
  bi_threads : num_threads b = Z.of_nat n /\ length (cpus b) = n /\ Z.of_nat n < 4294967296;
  bi_gen : 0 <= G /\ generation b = gen G;
  bi_cpus : forall i c, cpus b !! i = Some c -> cpu_ok G c /\ leader_pos ph i c;
  bi_count : match ph with
             | Gathering => count b = wsum (w_arrived G) (cpus b) /\ (wsum (w_arrived G) (cpus b) < Z.of_nat n \/ n = O)
             | Resetting _ => wsum (w_arrived G) (cpus b) = Z.of_nat n
             | Advancing _ => count b = 0 /\ wsum (w_arrived G) (cpus b) = Z.of_nat n
             end;
  bi_led : wsum led (cpus b) = G;
  bi_leader : match ph with Gathering => True | Resetting i | Advancing i => (i < n)%nat end
}.

Lemma w_arrived_bounds G c : 0 <= w_arrived G c <= 1.
Proof. unfold w_arrived. destruct (_ && _); cbn; lia. Qed.

Lemma wsum_full (w : Cpu -> Z) l :
  (forall c, w c <= 1) -> wsum w l = Z.of_nat (length l) -> forall i c, l !! i = Some c -> w c = 1.
Proof.
  intros Hw. induction l as [|x l IH]; intros Hs i c Hi; [done|]. rewrite wsum_cons in Hs. cbn [length] in Hs.
  pose proof (wsum_le_length w l Hw). pose proof (Hw x). destruct i as [|i]; cbn in Hi; [simplify_eq; lia|].
  apply (IH ltac:(lia) i c Hi).
Qed.

Lemma wsum_zero (w : Cpu -> Z) l : (forall i c, l !! i = Some c -> w c = 0) -> wsum w l = 0.
Proof.
  induction l as [|x l IH]; intros H; [done|]. rewrite wsum_cons, (H 0%nat x eq_refl), IH; [done|].
  intros i c Hi. by apply (H (S i)).
Qed.

Lemma barrier_start_ok n : Z.of_nat n < 4294967296 -> barrier_inv n (start n) 0 Gathering.
Proof.
  intros Hn. unfold start. split; cbn [num_threads cpus generation count].
  - by rewrite length_replicate.
  - done.
  - intros i c Hc. apply lookup_replicate in Hc as [-> _]. done.
  - rewrite !wsum_replicate by done. destruct n; [by split; [|right]|]. split; [done|]. left. lia.
  - by rewrite wsum_replicate.
  - done.
Qed.

Lemma gen_next G : gen (G + 1) <> gen G.
Proof.
  unfold gen. intros E. pose proof (Z.div_mod (G + 1) u64_size ltac:(done)). pose proof (Z.div_mod G u64_size ltac:(done)).
  rewrite E in H. assert (u64_size * ((G + 1) / u64_size - G / u64_size) = 1) by lia.
  assert (u64_size * 1 <= u64_size * ((G + 1) / u64_size - G / u64_size) \/
          u64_size * ((G + 1) / u64_size - G / u64_size) <= 0) by nia. lia.
Qed.

Lemma others_ok n b G ph i c (c' : Cpu) (ph' : phase) :
  barrier_inv n b G ph -> cpus b !! i = Some c ->
  cpu_ok G c' /\ leader_pos ph' i c' ->
  (forall j d, j <> i -> cpus b !! j = Some d -> leader_pos ph j d -> leader_pos ph' j d) ->
  forall j d, <[i := c']> (cpus b) !! j = Some d -> cpu_ok G d /\ leader_pos ph' j d.
Proof.
  intros Hb Hc Hc' Hoth j d Hd. destruct (insert_cpu_cases _ _ _ _ _ _ Hc Hd) as [[-> ->]|[Hn Hd']]; [done|].
  destruct (bi_cpus _ _ _ _ Hb j d Hd') as [H1 H2]. eauto.
Qed.

(** A step that neither arrives nor leads. *)
Lemma quiet_step n b G ph i c (c' : Cpu) :
  barrier_inv n b G ph -> cpus b !! i = Some c ->
  cpu_ok G c' -> leader_pos ph i c' -> led c' = led c -> w_arrived G c' = w_arrived G c ->
  barrier_inv n (mkBarrier (num_threads b) (count b) (generation b) (<[i := c']> (cpus b))) G ph.
Proof.
  intros Hb Hc H1 H2 H3 H4. pose proof Hb as [Ht Hg _ Hcnt Hled Hld]. split; cbn [num_threads cpus generation count].
  - by rewrite length_insert.
  - done.
  - by apply (others_ok _ _ _ _ _ _ _ _ Hb Hc).
  - rewrite (wsum_insert _ _ _ _ _ Hc), H4. replace (_ - _ + _) with (wsum (w_arrived G) (cpus b)) by lia. done.
  - rewrite (wsum_insert _ _ _ _ _ Hc). lia.
  - done.
Qed.

Lemma arrive_step n b G ph i c g :
  barrier_inv n b G ph -> cpus b !! i = Some c ->
  pos c = Arrive g ->
  exists ph', barrier_inv n (mkBarrier (num_threads b) (add32 (count b) 1) (generation b)
    (<[i := mkCpu (done c) (led c) (if add32 (count b) 1 =? num_threads b then LeaderReset else Spin g)]> (cpus b))) G ph'.
Proof.
  intros Hb Hc Hp. pose proof Hb as [(Ht & Hlen & Hn) Hg Hcpus Hcnt Hled Hld].
  destruct (Hcpus i c Hc) as [Hok Hlead]. unfold cpu_ok in Hok. rewrite Hp in Hok. destruct Hok as [Hd ->].
  assert (Hw : w_arrived G c = 0) by (unfold w_arrived, waiting; by rewrite Hp).
  assert (Hph : ph = Gathering).
  { destruct ph; [done| |]; exfalso; pose proof (wsum_full (w_arrived G) (cpus b) (fun c => proj2 (w_arrived_bounds G c))) as Hf;
      rewrite Hlen in Hf; [specialize (Hf Hcnt i c Hc)|specialize (Hf (proj2 Hcnt) i c Hc)]; lia. }
  subst ph. destruct Hcnt as [Hcnt Hlt]. pose proof (lookup_lt_Some _ _ _ Hc) as Hi.
  pose proof (wsum_nonneg (w_arrived G) (cpus b) (fun c => proj1 (w_arrived_bounds G c))) as H0.
  assert (Hadd : add32 (count b) 1 = count b + 1) by (unfold add32; rewrite Z.mod_small; lia). rewrite Hadd.
  assert (Hsum : forall p, waiting (mkCpu (done c) (led c) p) = true ->
    wsum (w_arrived G) (<[i := mkCpu (done c) (led c) p]> (cpus b)) = count b + 1).
  { intros p Hwait. rewrite (wsum_insert _ _ _ _ _ Hc), Hw. unfold w_arrived at 2. rewrite Hwait. cbn [done].
    rewrite Hd, Z.eqb_refl. cbn. lia. }
  assert (Hl : forall p, wsum led (<[i := mkCpu (done c) (led c) p]> (cpus b)) = G)
    by (intros p; rewrite (wsum_insert _ _ _ _ _ Hc); cbn [led]; lia).
  destruct (Z.eqb_spec (count b + 1) (num_threads b)) as [E|E].
  - exists (Resetting i). split; cbn [num_threads cpus generation count]; [by rewrite length_insert|done| | |by rewrite Hl|by try lia].
    + apply (others_ok _ _ _ _ _ _ _ _ Hb Hc); [by split; [|split; [split|]]|]. intros j d Hj Hdj [H1 H2]. split; [|done]. split; [done|by intros].
    + rewrite Hsum by done. lia.
  - exists Gathering. split; cbn [num_threads cpus generation count]; [by rewrite length_insert|done| | |by rewrite Hl|by try lia].
    + apply (others_ok _ _ _ _ _ _ _ _ Hb Hc); [|done]. split; [split; [by rewrite Hd|by left]|done].
    + rewrite Hsum by done. split; [done|]. left. lia.
Qed.

Lemma reset_step n b G ph i c :
  barrier_inv n b G ph -> cpus b !! i = Some c ->
  pos c = LeaderReset ->
  barrier_inv n (mkBarrier (num_threads b) 0 (generation b) (<[i := mkCpu (done c) (led c) LeaderAdvance]> (cpus b))) G
    (Advancing i).
Proof.
  intros Hb Hc Hp. pose proof Hb as [(Ht & Hlen & Hn) Hg Hcpus Hcnt Hled Hld]. destruct (Hcpus i c Hc) as [Hok Hlead].
  unfold cpu_ok in Hok. rewrite Hp in Hok.
  assert (ph = Resetting i) as -> by (destruct ph; cbn in Hlead; rewrite ?Hp in Hlead; naive_solver).
  split; cbn [num_threads cpus generation count]; [by rewrite length_insert|done| | | |by pose proof (lookup_lt_Some _ _ _ Hc); lia].
  - apply (others_ok _ _ _ _ _ _ _ _ Hb Hc); [by split; [|split; [split|]]|]. intros j d Hj Hdj [H1 H2]. split; [split|]; try done.
    intros Hd. apply H1 in Hd. done.
  - split; [done|]. rewrite (wsum_insert _ _ _ _ _ Hc). unfold w_arrived at 2 3, waiting. rewrite Hp. cbn [pos done]. lia.
  - rewrite (wsum_insert _ _ _ _ _ Hc). cbn [led]. lia.
Qed.

Lemma advance_step n b G ph i c :
  barrier_inv n b G ph -> cpus b !! i = Some c ->
  pos c = LeaderAdvance ->
  barrier_inv n (mkBarrier (num_threads b) (count b) (add64 (generation b) 1)
    (<[i := mkCpu (done c + 1) (led c + 1) Idle]> (cpus b))) (G + 1) Gathering.
Proof.
  intros Hb Hc Hp. pose proof Hb as [(Ht & Hlen & Hn) Hg Hcpus Hcnt Hled Hld]. destruct (Hcpus i c Hc) as [Hok Hlead].
  unfold cpu_ok in Hok. rewrite Hp in Hok.
  assert (ph = Advancing i) as -> by (destruct ph; cbn in Hlead; rewrite ?Hp in Hlead; naive_solver).
  destruct Hcnt as [Hcnt Hfull]. rewrite <- Hlen in Hfull.
  pose proof (wsum_full (w_arrived G) (cpus b) (fun c => proj2 (w_arrived_bounds G c)) Hfull) as Hall.
  assert (Hothers : forall j d, j <> i -> cpus b !! j = Some d -> exists g, pos d = Spin g /\ done d = G /\ g = gen G).
  { intros j d Hj Hd. specialize (Hall j d Hd). unfold w_arrived, waiting in Hall. destruct (Hcpus j d Hd) as [H1 [H2 H3]].
    unfold cpu_ok in H1. destruct (pos d) as [| |g| |] eqn:Epd; try done; [|naive_solver].
    exists g. destruct (Z.eqb_spec (done d) G) as [Ed|]; [|done]. destruct H1 as [-> _]. by rewrite Ed. }
  assert (Hz : wsum (w_arrived (G + 1)) (<[i := mkCpu (done c + 1) (led c + 1) Idle]> (cpus b)) = 0).
  { apply wsum_zero. intros j d Hd. destruct (insert_cpu_cases _ _ _ _ _ _ Hc Hd) as [[-> ->]|[Hj Hd']]; [done|].
    destruct (Hothers j d Hj Hd') as (g & Eg & Ed & _). unfold w_arrived, waiting. rewrite Eg, Ed. cbn.
    destruct (Z.eqb_spec G (G + 1)); [lia|done]. }
  split; cbn [num_threads cpus generation count].
  - by rewrite length_insert.
  - split; [lia|]. destruct Hg as [_ ->]. unfold gen, add64. by rewrite Zplus_mod_idemp_l.
  - intros j d Hd. destruct (insert_cpu_cases _ _ _ _ _ _ Hc Hd) as [[-> ->]|[Hj Hd']]; [split; cbn; [lia|done]|].
    destruct (Hothers j d Hj Hd') as (g & Eg & Ed & ->). unfold cpu_ok, leader_pos. rewrite Eg. cbn. rewrite Ed.
    split; [|done]. split; [done|]. right. lia.
  - rewrite Hz. split; [done|]. pose proof (lookup_lt_Some _ _ _ Hc). left. lia.
  - rewrite (wsum_insert _ _ _ _ _ Hc). cbn [led]. lia.
  - done.
Qed.

Definition leads (c : Cpu) : bool := match pos c with LeaderReset | LeaderAdvance => true | _ => false end.

Lemma follower ph i c c' : leader_pos ph i c -> leads c = false -> leads c' = false -> leader_pos ph i c'.
Proof. unfold leader_pos, leads. destruct (pos c), (pos c'), ph; naive_solver. Qed.

Lemma spin_step n b G ph i c :
  barrier_inv n b G ph -> cpus b !! i = Some c -> pos c = Spin (gen (done c)) ->
  barrier_inv n (mkBarrier (num_threads b) (count b) (generation b)
    (<[i := if generation b =? gen (done c) then mkCpu (done c) (led c) (Spin (gen (done c)))
            else mkCpu (done c + 1) (led c) Idle]> (cpus b))) G ph.
Proof.
  intros Hb Hc Hp. destruct (bi_cpus _ _ _ _ Hb i c Hc) as [Hok Hlead]. destruct (bi_gen _ _ _ _ Hb) as [_ HG].
  unfold cpu_ok in Hok. rewrite Hp in Hok. destruct Hok as [_ Hd]. assert (Hl : leads c = false) by (unfold leads; by rewrite Hp).
  apply (quiet_step n b G ph i c _ Hb Hc); destruct (Z.eqb_spec (generation b) (gen (done c))) as [E|E]; try done.
  1: assert (done c = G - 1) as Ed by (destruct Hd; congruence); cbn; lia.
  1, 2: by apply (follower ph i c).
  - unfold w_arrived, waiting. by rewrite Hp.
  - unfold w_arrived, waiting. rewrite Hp. cbn. destruct (Z.eqb_spec (done c) G) as [<-|]; [congruence|done].
Qed.

Lemma barrier_step_inv n b G ph i a b' :
  barrier_inv n b G ph -> step i a b = Some b' -> exists G' ph', barrier_inv n b' G' ph'.
Proof.
  intros Hb Hst. unfold step in Hst. destruct (cpus b !! i) as [c|] eqn:Hc; [|done].
  destruct (bi_cpus _ _ _ _ Hb i c Hc) as [Hok Hlead]. destruct (bi_gen _ _ _ _ Hb) as [HG0 HG].
  unfold cpu_ok in Hok. destruct (pos c) as [|g|g| |] eqn:Hp, a; try done.
  - injection Hst as <-. exists G, ph. apply (quiet_step n b G ph i c); try done.
    + apply (follower ph i c); [done|unfold leads; by rewrite Hp|done].
    + unfold w_arrived, waiting. by rewrite Hp.
  - injection Hst as <-. exists G. by apply (arrive_step n b G ph i c g).
  - destruct Hok as [-> _]. exists G, ph. pose proof (spin_step n b G ph i c Hb Hc Hp) as Hs.
    destruct (generation b =? gen (done c)); injection Hst as <-; exact Hs.
  - injection Hst as <-. exists G, (Advancing i). by apply (reset_step n b G ph i c).
  - injection Hst as <-. exists (G + 1), Gathering. by apply (advance_step n b G ph i c).
Qed.

Lemma barrier_reach_inv n b : Z.of_nat n < 4294967296 -> reach step (start n) b -> exists G ph, barrier_inv n b G ph.
Proof.
  intros Hn. apply (reach_invariant step (fun b => exists G ph, barrier_inv n b G ph)).
  - exists 0, Gathering. by apply barrier_start_ok.
  - intros s i a s' (G & ph & Hs) Hst. by eapply barrier_step_inv.
Qed.

(** When every CPU is in [wait], one of them can move on. *)
Lemma someone_moves n b G ph :
  barrier_inv n b G ph -> (0 < n)%nat -> (forall i c, cpus b !! i = Some c -> pos c <> Idle) ->
  exists i b', step i Go b = Some b' /\ b' <> b.
Proof.
  intros Hb Hn Hall. pose proof Hb as [(Ht & Hlen & Hlt) [HG0 HG] Hcpus Hcnt Hled Hld].
  assert (Hmove : forall i c, cpus b !! i = Some c -> (forall g, pos c = Spin g -> done c <> G) ->
    exists i b', step i Go b = Some b' /\ b' <> b).
  { intros i c Hc Hsp. exists i. destruct (Hcpus i c Hc) as [Hok _]. unfold step. rewrite Hc. unfold cpu_ok in Hok.
    assert (Hne : forall t n g c', pos c' <> pos c -> mkBarrier t n g (<[i := c']> (cpus b)) <> b).
    { intros t m g c' Hp E. apply (f_equal cpus) in E. cbn in E. apply Hp.
      pose proof (list_lookup_insert_eq (cpus b) i c' ltac:(by eapply lookup_lt_Some)) as Hl.
      rewrite E, Hc in Hl. congruence. }
    pose proof (Hall i c Hc) as Hni.
    destruct (pos c) as [|g|g| |] eqn:Hp; [done| | | |]; try (eexists; split; [reflexivity|]; apply Hne; cbn; by repeat case_match).
    destruct Hok as [-> Hd]. destruct (Z.eqb_spec (generation b) (gen (done c))) as [E|E].
    - exfalso. specialize (Hsp _ eq_refl). destruct Hd as [Hd|Hd]; [done|]. rewrite Hd, HG in E.
      apply (gen_next (G - 1)). by replace (G - 1 + 1) with G by lia.
    - eexists. split; [reflexivity|]. by apply Hne. }
  enough (exists i c, cpus b !! i = Some c /\ (forall g, pos c = Spin g -> done c <> G)) as (i & c & H1 & H2) by eauto.
  destruct ph as [|i|i].
  - destruct Hcnt as [_ Hc]. destruct (decide (Forall (fun c => w_arrived G c = 1) (cpus b))) as [Hf|Hf].
    + exfalso. enough (wsum (w_arrived G) (cpus b) = Z.of_nat (length (cpus b))) by lia. clear -Hf.
      induction Hf as [|x l Hx _ IH]; [done|]. rewrite wsum_cons. cbn [length]. lia.
    + apply not_Forall_Exists in Hf; [|intros; apply _]. apply Exists_exists in Hf as (c & Hin & Hw).
      apply list_elem_of_lookup in Hin as [i Hi]. exists i, c. split; [done|]. intros g Hp Hd. apply Hw.
      unfold w_arrived, waiting. rewrite Hp. cbn. by rewrite Hd, Z.eqb_refl.
  - destruct (cpus b !! i) as [c|] eqn:Hc; [|apply lookup_ge_None in Hc; lia]. exists i, c. split; [done|].
    intros g Hp. destruct (Hcpus i c Hc) as [_ [[Hl _] _]]. rewrite (Hl eq_refl) in Hp. done.
  - destruct (cpus b !! i) as [c|] eqn:Hc; [|apply lookup_ge_None in Hc; lia]. exists i, c. split; [done|].
    intros g Hp. destruct (Hcpus i c Hc) as [_ [[Hl _] _]]. rewrite (Hl eq_refl) in Hp. done.
Qed.

(** C40. A barrier for [n] CPUs, in every interleaving: no CPU returns from its [k]-th [wait]
    before every CPU has arrived in its own [k]-th; each round has exactly one leader, so the
    calls that report a leader number the rounds completed; and whenever all CPUs are inside
    [wait] some CPU can still move, so the barrier never locks up. *)
Theorem barrier_holds_back_until_all_arrive n b :
  (0 < n)%nat -> Z.of_nat n < 4294967296 -> reach step (start n) b ->
  (forall i j c d, cpus b !! i = Some c -> cpus b !! j = Some d -> done c <= arrivals d) /\
  (exists rounds, wsum led (cpus b) = rounds /\
     forall i c, cpus b !! i = Some c -> rounds - 1 <= done c <= rounds) /\
  ((forall i c, cpus b !! i = Some c -> pos c <> Idle) -> exists i b', step i Go b = Some b' /\ b' <> b).
Proof.
  intros Hn Hlt Hr. destruct (barrier_reach_inv n b Hlt Hr) as (G & ph & Hb).
  assert (Hdone : forall i c, cpus b !! i = Some c -> G - 1 <= done c <= G /\ G <= arrivals c).
  { intros i c Hc. destruct (bi_cpus _ _ _ _ Hb i c Hc) as [Hok _]. unfold cpu_ok, arrivals, waiting in *.
    destruct (pos c); cbn; lia. }
  split; [|split].
  - intros i j c d Hc Hd. pose proof (Hdone i c Hc). pose proof (Hdone j d Hd). lia.
  - exists G. split; [apply (bi_led _ _ _ _ Hb)|]. intros i c Hc. apply (Hdone i c Hc).
  - by apply (someone_moves n b G ph).
Qed.

Lemma barrier_holds_back_until_all_arrive_witness :
  exists b, run step [(0%nat, Wait); (1%nat, Wait); (0%nat, Go); (1%nat, Go); (0%nat, Go); (1%nat, Go); (1%nat, Go); (0%nat, Go)]
      (start 2) = Some b /\
    (forall i j c d, cpus b !! i = Some c -> cpus b !! j = Some d -> done c <= arrivals d) /\
    wsum led (cpus b) = 1.
Proof.
  destruct (run step _ _) as [b|] eqn:Eb; [|discriminate]. exists b. split; [done|].
  destruct (barrier_holds_back_until_all_arrive 2 b ltac:(lia) ltac:(lia) (run_reach _ _ _ _ _ (reach_init _ _) Eb)) as (H & _).
  split; [exact H|]. vm_compute in Eb. by injection Eb as <-.
Defined.

(** ** [CountDownLatch] *)
Module Latch.
Inductive LPos := LIdle | LRestore | LWaiting.
Inductive LAct := CountDown | LWait | TryWait | LGo.
(** [calls] counts the [count_down]s of a CPU; [passed] says that its [wait] has returned, or
    what [try_wait] has answered. *)
Record LCpu := mkL { calls : Z; passed : bool; lpos : LPos }.
Record CountDownLatch := mkLatch { lcount : Z; lcpus : list LCpu }.

Definition lstep (i : nat) (a : LAct) (s : CountDownLatch) : option CountDownLatch :=
  match lcpus s !! i with
  | None => None
  | Some c =>
      let becomes n c' := Some (mkLatch n (<[i := c']> (lcpus s))) in
      match lpos c, a with
      | LIdle, CountDown =>
          becomes (sub32 (lcount s) 1) (mkL (calls c + 1) (passed c) (if lcount s =? 0 then LRestore else LIdle))
      | LRestore, LGo => becomes 0 (mkL (calls c) (passed c) LIdle)
      | LIdle, LWait | LWaiting, LGo =>
          if 0 <? lcount s then becomes (lcount s) (mkL (calls c) (passed c) LWaiting)
          else becomes (lcount s) (mkL (calls c) true LIdle)
      | LIdle, TryWait => becomes (lcount s) (mkL (calls c) (lcount s =? 0) LIdle)
      | _, _ => None
      end
  end.

Definition lstart (n : nat) (count : Z) : CountDownLatch := mkLatch count (replicate n (mkL 0 false LIdle)).

Definition all_calls (s : CountDownLatch) : Z := wsum calls (lcpus s).

(** A client that counts down no more often than announced. *)
Definition announced (initial : Z) (i : nat) (a : LAct) (s : CountDownLatch) : option CountDownLatch :=
  match a with CountDown => if all_calls s <? initial then lstep i a s else None | _ => lstep i a s end.

Record latch_inv (initial : Z) (s : CountDownLatch) : Prop := {
  la_count : lcount s = initial - all_calls s;
  la_range : 0 <= all_calls s <= initial;
  la_cpus : Forall (fun c => lpos c <> LRestore /\ (passed c = true -> all_calls s = initial)) (lcpus s)
}.

Lemma latch_step_inv initial s i a s' :
  initial < 4294967296 -> latch_inv initial s -> announced initial i a s = Some s' -> latch_inv initial s'.
Proof.
  intros Hi [Hcnt Hr Hok] Hst.
  assert (Hst' : lstep i a s = Some s' /\ (a = CountDown -> all_calls s < initial)).
  { unfold announced in Hst. destruct a; try done. destruct (Z.ltb_spec (all_calls s) initial); [done|discriminate]. }
  clear Hst. destruct Hst' as [Hst Ha]. unfold lstep in Hst. destruct (lcpus s !! i) as [[k q p]|] eqn:Hc; [|done].
  pose proof (proj1 (Forall_lookup _ _) Hok i _ Hc) as [Hp Hq]. cbn [lpos calls passed] in *.
  assert (Hkey : forall n c', let t := all_calls s - k + calls c' in
    n = initial - t -> all_calls s <= t <= initial -> lpos c' <> LRestore -> (passed c' = true -> t = initial) ->
    latch_inv initial (mkLatch n (<[i := c']> (lcpus s)))).
  { intros n c' t H1 H2 H3 H4. assert (Ht : all_calls (mkLatch n (<[i := c']> (lcpus s))) = t)
      by (unfold all_calls; cbn [lcpus]; rewrite (wsum_insert _ _ _ _ _ Hc); done).
    split; rewrite ?Ht; cbn [lcount lcpus]; [done|lia|]. apply Forall_insert; [|done].
    eapply Forall_impl; [exact Hok|]. cbn. intros d [Hd1 Hd2]. split; [done|]. intros Hd. specialize (Hd2 Hd). lia. }
  destruct p, a; try discriminate Hst; try done;
    repeat match type of Hst with context [if ?b then _ else _] => destruct b eqn:? end; try discriminate Hst;
    injection Hst as <-; rewrite ?Z.eqb_eq, ?Z.eqb_neq, ?Z.ltb_lt, ?Z.ltb_ge in *; try (specialize (Ha eq_refl); lia);
    try specialize (Ha eq_refl); apply Hkey; cbn [lpos calls passed]; unfold sub32; rewrite ?Z.mod_small by lia; try done; try lia.
  all: intros E; rewrite ?Z.eqb_eq in E; try specialize (Hq E); lia.
Qed.

(** A latch whose clients count down no more often than announced: the count is what is
    missing, no [wait] returns and no [try_wait] answers true before the last of them, and
    after it every [wait] returns at its first look. *)
Theorem latch_opens_after_the_last_call n initial s :
  0 <= initial < 4294967296 -> reach (announced initial) (lstart n initial) s ->
  lcount s = initial - all_calls s /\
  (forall i c, lcpus s !! i = Some c -> passed c = true -> all_calls s = initial) /\
  (all_calls s = initial -> forall i c, lcpus s !! i = Some c -> lpos c = LIdle ->
     lstep i LWait s = Some (mkLatch 0 (<[i := mkL (calls c) true LIdle]> (lcpus s)))).
Proof.
  intros Hi Hr. assert (Hs : latch_inv initial s).
  { revert s Hr. apply reach_invariant; [|intros; eapply latch_step_inv; eauto; lia]. unfold lstart.
    split; unfold all_calls; cbn [lcount lcpus]; rewrite ?wsum_replicate by done; [lia|lia|by apply Forall_replicate]. }
  destruct Hs as [Hcnt Hr' Hok]. split; [done|]. split.
  - intros i c Hc. apply (proj1 (Forall_lookup _ _) Hok i c Hc).
  - intros He i [k q p] Hc Hp. cbn [lpos] in Hp. subst p. unfold lstep. rewrite Hc. cbn [lpos calls].
    assert (lcount s = 0) as -> by lia. done.
Qed.

(** One call too many closes an open latch until its second store: a [try_wait] in between
    answers false. *)
Example extra_count_down_closes_the_latch :
  run lstep [(0%nat, CountDown); (1%nat, TryWait); (0%nat, CountDown); (1%nat, TryWait)] (lstart 2 1) =
    Some (mkLatch 4294967295 [mkL 2 false LRestore; mkL 0 false LIdle]) /\
  run lstep [(0%nat, CountDown); (1%nat, TryWait)] (lstart 2 1) = Some (mkLatch 0 [mkL 1 false LIdle; mkL 0 true LIdle]).
Proof. split; vm_compute; reflexivity. Qed.
End Latch.
