(* ===== verification/Once.v ===== *)
(** * One-time initialisation: kernel/src/sync/once.rs

    [Once] and the [OnceCell] built on it.  [succeeded] counts the initialisers of a CPU that
    have finished without an error. *)

From S2P Require Import Prelude Conc.

Definition INCOMPLETE : Z := 0.
Definition RUNNING : Z := 1.
Definition COMPLETE : Z := 2.

Section Once.
Context {T : Type}.

Inductive Pos :=
| Idle
| Exchange                 (* [call_once_try] has not found the cell complete *)
| Running                  (* the initialiser runs, [RunningGuard] is alive *)
| Completing | Failing     (* the store of the guard comes next *)
| Spin | Recheck
| Returned (ok : bool).

(** [Call] is a call of [get_or_try_init], [Take] lets a CPU go on after a call.  [Finish] is
    the end of the initialiser, with its result. *)
Inductive Act := Call | Take | Finish (r : option T) | Go.

Record Cpu := mkCpu { succeeded : Z; pos : Pos }.
Record OnceCell := mkOnce { state : Z; value : option T; cpus : list Cpu }.

Definition is_completed (s : OnceCell) : bool := state s =? COMPLETE.

Definition step (i : nat) (a : Act) (s : OnceCell) : option OnceCell :=
  match cpus s !! i with
  | None => None
  | Some c =>
      let becomes st v c' := Some (mkOnce st v (<[i := c']> (cpus s))) in
      let goto p := becomes (state s) (value s) (mkCpu (succeeded c) p) in
      match pos c, a with
      | Idle, Call => goto (if is_completed s then Returned true else Exchange)
      | Exchange, Go =>
          if state s =? INCOMPLETE then becomes RUNNING (value s) (mkCpu (succeeded c) Running)
          else goto (if state s =? COMPLETE then Returned true else Spin)
      | Running, Finish (Some v) => becomes (state s) (Some v) (mkCpu (succeeded c) Completing)
      | Running, Finish None => goto Failing
      | Completing, Go => becomes COMPLETE (value s) (mkCpu (succeeded c + 1) (Returned true))
      | Failing, Go => becomes INCOMPLETE (value s) (mkCpu (succeeded c) (Returned false))
      | Spin, Go => goto (if state s =? RUNNING then Spin else Recheck)
      | Recheck, Go => goto (if state s =? COMPLETE then Returned true else Exchange)
      | Returned _, Take => goto Idle
      | _, _ => None
      end
  end.

(** [OnceCell::get] *)
Definition get (s : OnceCell) : option T := if is_completed s then value s else None.

Definition start (n : nat) : OnceCell := mkOnce INCOMPLETE None (replicate n (mkCpu 0 Idle)).

Definition busy (c : Cpu) : bool := match pos c with Running | Completing | Failing => true | _ => false end.
Definition w_busy (c : Cpu) : Z := Z.b2z (busy c).
Definition w_written (c : Cpu) : Z := Z.b2z (match pos c with Completing => true | _ => false end).

Record once_inv (s : OnceCell) : Prop := {
  oi_state :
    (state s = INCOMPLETE /\ wsum w_busy (cpus s) = 0 /\ wsum succeeded (cpus s) = 0 /\ value s = None) \/
    (state s = RUNNING /\ wsum w_busy (cpus s) = 1 /\ wsum succeeded (cpus s) = 0 /\
       (value s = None <-> wsum w_written (cpus s) = 0)) \/
    (state s = COMPLETE /\ wsum w_busy (cpus s) = 0 /\ wsum succeeded (cpus s) = 1 /\ value s <> None);
  oi_returned : forall i c, cpus s !! i = Some c -> pos c = Returned true -> state s = COMPLETE
}.

Lemma once_start_ok n : once_inv (start n).
Proof.
  split.
  - left. unfold start. cbn [state cpus value]. by rewrite !wsum_replicate.
  - intros i c Hc. apply lookup_replicate in Hc as [-> _]. done.
Qed.

Lemma w_busy_nonneg c : 0 <= w_busy c.
Proof. unfold w_busy. destruct (busy c); cbn; lia. Qed.
Lemma w_written_nonneg c : 0 <= w_written c.
Proof. unfold w_written. destruct (pos c); cbn; lia. Qed.
Lemma written_le_busy l : wsum w_written l <= wsum w_busy l.
Proof.
  induction l as [|c l IH]; [done|]. rewrite !wsum_cons. unfold w_written at 1, w_busy at 1, busy.
  destruct (pos c); cbn; lia.
Qed.

(** The words and the three sums over the CPUs: initialisers running, values written but not
    yet announced, initialisers that have succeeded. *)
Definition once_words (st : Z) (v : option T) (B W K : Z) : Prop :=
  (st = INCOMPLETE /\ B = 0 /\ K = 0 /\ v = None) \/
  (st = RUNNING /\ B = 1 /\ K = 0 /\ (v = None <-> W = 0)) \/
  (st = COMPLETE /\ B = 0 /\ K = 1 /\ v <> None).

Lemma once_update s i c c' st v :
  once_inv s -> cpus s !! i = Some c ->
  (forall B W K, w_busy c <= B -> 0 <= w_written c <= W -> W - w_written c <= B - w_busy c -> once_words (state s) (value s) B W K ->
     once_words st v (B - w_busy c + w_busy c') (W - w_written c + w_written c') (K - succeeded c + succeeded c') /\
     (state s = COMPLETE -> st = COMPLETE)) ->
  (pos c' = Returned true -> st = COMPLETE) ->
  once_inv (mkOnce st v (<[i := c']> (cpus s))).
Proof.
  intros [Hst Hret] Hc Hw Hc'.
  destruct (Hw (wsum w_busy (cpus s)) (wsum w_written (cpus s)) (wsum succeeded (cpus s))) as [Hw1 Hw2].
  - exact (wsum_ge w_busy _ _ _ w_busy_nonneg Hc).
  - split; [apply w_written_nonneg|]. exact (wsum_ge w_written _ _ _ w_written_nonneg Hc).
  - pose proof (written_le_busy (<[i := mkCpu 0 Idle]> (cpus s))) as H. rewrite !(wsum_insert _ _ _ _ _ Hc) in H. cbn in H. lia.
  - exact Hst.
  - split; cbn [state value cpus].
    + by rewrite !(wsum_insert _ _ _ _ _ Hc).
    + intros j d Hd Hp. destruct (insert_cpu_cases _ _ _ _ _ _ Hc Hd) as [[-> ->]|[_ Hd']]; [by apply Hc'|].
      apply Hw2. by apply (Hret j d).
Qed.

Lemma once_step_inv s i a s' : once_inv s -> step i a s = Some s' -> once_inv s'.
Proof.
  intros Hs Hstep. unfold step, is_completed in Hstep. destruct (cpus s !! i) as [[k p]|] eqn:Hc; [|done].
  pose proof (oi_returned _ Hs i _ Hc) as Hri. cbn [pos succeeded] in *.
  destruct p as [| | | | | | |ok], a as [| |[v|]|]; try discriminate Hstep;
    repeat match type of Hstep with context [if ?b then _ else _] => destruct b eqn:? end; try discriminate Hstep;
    injection Hstep as <-; rewrite ?Z.eqb_eq, ?Z.eqb_neq in *;
    (apply (once_update s i _ _ _ _ Hs Hc); cbn [pos]; [|intros; simplify_eq; auto; done]);
    intros B W K; unfold w_busy, w_written, busy, once_words, INCOMPLETE, RUNNING, COMPLETE in *;
    cbn [pos succeeded Z.b2z]; intros HB HW HWB Hst; (split; [|intros; lia]);
    destruct Hst as [Hst|[Hst|Hst]]; destruct Hst as (E1 & E2 & E3 & E4); try (exfalso; lia);
    first [ left; solve [repeat split; first [done|lia|tauto|apply E4; lia]]
          | right; left; solve [repeat split; first [done|lia|tauto|rewrite E4; lia|intros ?; exfalso; first [done|lia]]]
          | right; right; solve [repeat split; first [done|lia|tauto|rewrite E4; lia]] ].
Qed.

Lemma once_reach_inv n s : reach step (start n) s -> once_inv s.
Proof. apply reach_invariant; [apply once_start_ok|]. intros ? ? ? ?. apply once_step_inv. Qed.

(** Once the cell is complete no step touches its words. *)
Lemma complete_stable s i a s' :
  once_inv s -> state s = COMPLETE -> step i a s = Some s' -> state s' = COMPLETE /\ value s' = value s.
Proof.
  intros Hs HC Hstep. pose proof Hs as [Hst _]. unfold step, is_completed in Hstep.
  destruct (cpus s !! i) as [[k p]|] eqn:Hc; [|done]. pose proof (wsum_ge w_busy _ _ _ w_busy_nonneg Hc) as Hb.
  unfold INCOMPLETE, RUNNING, COMPLETE in *. unfold w_busy at 1, busy in Hb. cbn [pos succeeded] in *.
  destruct p as [| | | | | | |ok], a as [| |[v|]|]; try discriminate Hstep; cbn [Z.b2z] in Hb; try (exfalso; lia);
    repeat match type of Hstep with context [if ?b then _ else _] => destruct b eqn:? end; try discriminate Hstep;
    injection Hstep as <-; rewrite ?Z.eqb_eq, ?Z.eqb_neq in *; cbn [state value]; done || lia.
Qed.

Lemma busy_unique s i j c d :
  once_inv s -> cpus s !! i = Some c -> cpus s !! j = Some d -> busy c = true -> busy d = true -> i = j.
Proof.
  intros [Hst _] Hc Hd Hbc Hbd. destruct (decide (i = j)) as [|Hn]; [done|exfalso].
  pose proof (wsum_ge2 w_busy _ _ _ _ _ w_busy_nonneg Hn Hc Hd) as H. unfold w_busy at 1 2 in H.
  rewrite Hbc, Hbd in H. cbn in H. lia.
Qed.
End Once.
Arguments OnceCell T : clear implicits.
Arguments Act T : clear implicits.

(** One-time initialisation, in every interleaving of calls whose initialisers may fail:
    at most one initialiser runs at a time; at most one ever succeeds, exactly when the cell
    is complete; [get] then returns a value, which no later step changes, and before returns
    nothing; a call that has returned successfully finds the cell complete; and after a
    failed attempt the cell can be tried again. *)
Theorem once_initializes_exactly_once {T : Type} n (s : OnceCell T) :
  reach step (start n) s ->
  (forall i j c d, cpus s !! i = Some c -> cpus s !! j = Some d -> busy c = true -> busy d = true -> i = j) /\
  0 <= wsum succeeded (cpus s) <= 1 /\
  (wsum succeeded (cpus s) = 1 <-> exists v, get s = Some v) /\
  (forall v, get s = Some v -> forall s', reach step s s' -> get s' = Some v) /\
  (forall i c, cpus s !! i = Some c -> pos c = Returned true -> exists v, get s = Some v) /\
  (forall i c, cpus s !! i = Some c -> pos c = Failing ->
     exists s', step i Go s = Some s' /\ state s' = INCOMPLETE /\ value s' = None).
Proof.
  intros Hr. pose proof (once_reach_inv n s Hr) as Hs. pose proof Hs as [Hst Hret].
  assert (Hget : forall t : OnceCell T, once_inv t -> (exists v, get t = Some v) <-> state t = COMPLETE).
  { intros t [Ht _]. unfold get, is_completed. destruct (Z.eqb_spec (state t) COMPLETE) as [E|E]; [|naive_solver].
    rewrite E in Ht. unfold INCOMPLETE, RUNNING, COMPLETE in *. destruct (value t) as [v|]; [naive_solver|].
    exfalso. destruct Ht as [Ht|[Ht|Ht]]; [lia|lia|]. by destruct Ht as (_ & _ & _ & Ht). }
  split; [intros i j c d; by apply busy_unique|]. split; [unfold INCOMPLETE, RUNNING, COMPLETE in *; lia|].
  split; [rewrite (Hget s Hs); unfold INCOMPLETE, RUNNING, COMPLETE in *; lia|]. split; [|split].
  - intros v Hv s' Hs'. enough (once_inv s' /\ get s' = Some v) by tauto.
    induction Hs' as [|s1 i a s2 _ [IH1 IH2] Hst2]; [done|]. split; [by eapply once_step_inv|].
    destruct (complete_stable s1 i a s2 IH1 ltac:(apply Hget; eauto) Hst2) as [E1 E2].
    unfold get, is_completed in *. rewrite E1, E2. destruct (state s1 =? COMPLETE); [exact IH2|discriminate].
  - intros i c Hc Hp. apply Hget; eauto.
  - intros i [k p] Hc Hp. cbn in Hp. subst p. unfold step. rewrite Hc. cbn [pos]. eexists. split; [reflexivity|].
    split; [done|]. cbn [value]. pose proof (once_step_inv s i Go _ Hs ltac:(unfold step; rewrite Hc; reflexivity)) as [Hst' _].
    cbn [state value cpus] in Hst'. unfold INCOMPLETE, RUNNING, COMPLETE in Hst'. destruct Hst' as [H|[H|H]]; [tauto|lia|lia].
Qed.

Lemma once_initializes_exactly_once_witness :
  exists s : OnceCell Z,
    run step [(0%nat, Call); (1%nat, Call); (0%nat, Go); (1%nat, Go); (0%nat, Finish (Some 7)); (0%nat, Go); (1%nat, Go); (1%nat, Go)]
      (start 2) = Some s /\ get s = Some 7 /\ (forall s', reach step s s' -> get s' = Some 7).
Proof.
  destruct (run step _ _) as [s|] eqn:Es; [|discriminate]. exists s. split; [done|].
  assert (Hg : get s = Some 7) by (vm_compute in Es; by injection Es as <-). split; [exact Hg|].
  destruct (once_initializes_exactly_once 2 s (run_reach _ _ _ _ _ (reach_init _ _) Es)) as (_ & _ & _ & H & _).
  exact (H 7 Hg).
Defined.
