(* ===== verification/Sched.v ===== *)
(** * The scheduler: kernel/src/task/sched/mod.rs, with kernel/src/task/thread/task.rs and
    processor.rs

    Every operation runs as a whole, which the code does not guarantee: each run queue has its
    lock and ENQUEUE_SERIALIZE covers adding tasks, but no lock is held from [pick_next] to
    [replace_current_task], and stealing does not take ENQUEUE_SERIALIZE.  The theorems are
    about sequences of whole operations; they do not cover what another CPU does between two
    parts of one call.  A task is known by the address of its [Arc], tasks never move.  [schedule] is
    modelled up to the context switch, which is its result. *)

From S2P Require Import Prelude.

Inductive TaskStatus := Ready | Running | Switching | Blocked | Exited.
#[export] Instance TaskStatus_eq_dec : EqDecision TaskStatus.
Proof. solve_decision. Defined.

(** The fields that scheduling touches. *)
Record Task := mkTask {
  pid : Z; status : TaskStatus; runtime_ticks : Z; run_start_tick : option Z;
  voluntary_switches : Z; involuntary_switches : Z
}.

Definition set_status (st : TaskStatus) (t : Task) : Task :=
  mkTask (pid t) st (runtime_ticks t) (run_start_tick t) (voluntary_switches t) (involuntary_switches t).

Definition on_switch_in (now : Z) (t : Task) : Task :=
  mkTask (pid t) (status t) (runtime_ticks t) (Some now) (voluntary_switches t) (involuntary_switches t).

Definition on_switch_out (now : Z) (involuntary : bool) (t : Task) : Task :=
  let ticks := match run_start_tick t with
               | Some start => saturating_add64 (runtime_ticks t) (saturating_sub64 now start)
               | None => runtime_ticks t
               end in
  mkTask (pid t) (status t) ticks None
    (if involuntary then voluntary_switches t else saturating_add64 (voluntary_switches t) 1)
    (if involuntary then saturating_add64 (involuntary_switches t) 1 else involuntary_switches t).

Definition total_runtime_ticks (now : Z) (t : Task) : Z :=
  saturating_add64 (runtime_ticks t)
    (match run_start_tick t with Some start => saturating_sub64 now start | None => 0 end).

Definition RUNQUEUE_SLOT_COUNT : nat := 64.

Record SchedulerStats := mkStats { local_picks : Z; steal_attempts : Z; steal_successes : Z; idle_fallbacks : Z }.

(** [queues] are the [ready_queue]s, [current] the tasks of the [Processor]s, [idle_saved]
    says which idle contexts are non-zero. *)
Record Sched := mkSched {
  tasks : Z -> Task;
  queues : list (list Z);
  deferred : list (nat * Z);
  current : list (option Z);
  idle_saved : list bool;
  stats : SchedulerStats
}.

Definition set_tasks (s : Sched) x := mkSched x (queues s) (deferred s) (current s) (idle_saved s) (stats s).
Definition set_queues (s : Sched) x := mkSched (tasks s) x (deferred s) (current s) (idle_saved s) (stats s).
Definition set_deferred (s : Sched) x := mkSched (tasks s) (queues s) x (current s) (idle_saved s) (stats s).
Definition set_current (s : Sched) x := mkSched (tasks s) (queues s) (deferred s) x (idle_saved s) (stats s).
Definition set_idle (s : Sched) x := mkSched (tasks s) (queues s) (deferred s) (current s) x (stats s).
Definition set_stats (s : Sched) x := mkSched (tasks s) (queues s) (deferred s) (current s) (idle_saved s) x.

(** Writing through the [Arc] of one task. *)
Definition update_task (t : Z) (f : Task -> Task) (T : Z -> Task) : Z -> Task :=
  fun x => if decide (x = t) then f (T x) else T x.

Definition count_local_pick (x : SchedulerStats) :=
  mkStats (add64 (local_picks x) 1) (steal_attempts x) (steal_successes x) (idle_fallbacks x).
Definition count_attempt (x : SchedulerStats) :=
  mkStats (local_picks x) (add64 (steal_attempts x) 1) (steal_successes x) (idle_fallbacks x).
Definition count_success (x : SchedulerStats) :=
  mkStats (local_picks x) (steal_attempts x) (add64 (steal_successes x) 1) (idle_fallbacks x).
Definition count_idle (x : SchedulerStats) :=
  mkStats (local_picks x) (steal_attempts x) (steal_successes x) (add64 (idle_fallbacks x) 1).

(** ** Queues of one slot *)
Fixpoint pick_loop (n : nat) (now : Z) (T : Z -> Task) (q : list Z) : option Z * (Z -> Task) * list Z :=
  match n, q with
  | S n', t :: q' =>
      match status (T t) with
      | Exited => pick_loop n' now T q'
      | Ready => (Some t, update_task t (fun x => on_switch_in now (set_status Running x)) T, q')
      | _ => pick_loop n' now T (q' ++ [t])
      end
  | _, _ => (None, T, q)
  end.

(** [pop_back] *)
Definition pop_back (q : list Z) : option (Z * list Z) :=
  match last q with Some t => Some (t, take (length q - 1) q) | None => None end.

Fixpoint steal_loop (n : nat) (now : Z) (T : Z -> Task) (q : list Z) : option Z * (Z -> Task) * list Z :=
  match n, pop_back q with
  | S n', Some (t, q') =>
      match status (T t) with
      | Exited => steal_loop n' now T q'
      | Ready => (Some t, update_task t (fun x => on_switch_in now (set_status Running x)) T, q')
      | _ => steal_loop n' now T (t :: q')
      end
  | _, _ => (None, T, q)
  end.

Section Scheduler.
Context (cpu_count : nat).

Definition active_cpu_slots : nat := Nat.min RUNQUEUE_SLOT_COUNT (Nat.max 1 cpu_count).
Definition runqueue_slot_index (cpu : nat) : nat := if (cpu <? active_cpu_slots)%nat then cpu else O.
Definition processor_slot (cpu : nat) : nat := if (cpu <? RUNQUEUE_SLOT_COUNT)%nat then cpu else O.

Definition queue (s : Sched) (slot : nat) : list Z := default [] (queues s !! slot).
Definition put_queue (slot : nat) (q : list Z) (s : Sched) : Sched := set_queues s (<[slot := q]> (queues s)).

Definition mark_task_ready_if_schedulable (t : Z) (s : Sched) : bool * Sched :=
  if bool_decide (status (tasks s t) = Exited) || bool_decide (status (tasks s t) = Running) then (false, s)
  else (true, set_tasks s (update_task t (set_status Ready) (tasks s))).

Definition contains_task_anywhere (t : Z) (s : Sched) : bool :=
  existsb (fun slot => existsb (fun x => bool_decide (x = t)) (queue s slot)) (seq 0 active_cpu_slots).

Definition enqueue_on_cpu (t : Z) (cpu : nat) (s : Sched) : Sched :=
  let '(ok, s) := mark_task_ready_if_schedulable t s in
  if negb ok then s
  else if contains_task_anywhere t s then s
  else
    let slot := runqueue_slot_index cpu in
    let '(ok, s) := mark_task_ready_if_schedulable t s in
    if ok then put_queue slot (queue s slot ++ [t]) s else s.

Definition add_task (cpu : nat) (t : Z) (s : Sched) : Sched := enqueue_on_cpu t cpu s.
Definition push_back (cpu : nat) (t : Z) (s : Sched) : Sched := enqueue_on_cpu t cpu s.

Definition pick_next_from_slot (slot : nat) (now : Z) (s : Sched) : option Z * Sched :=
  let q := queue s slot in
  let '(r, T, q') := pick_loop (length q) now (tasks s) q in
  (r, put_queue slot q' (set_tasks s T)).

Definition steal_from_slot (slot : nat) (now : Z) (s : Sched) : option Z * Sched :=
  let q := queue s slot in
  let '(r, T, q') := steal_loop (length q) now (tasks s) q in
  (r, put_queue slot q' (set_tasks s T)).

Fixpoint steal_round (local : nat) (offsets : list nat) (now : Z) (s : Sched) : option Z * Sched :=
  match offsets with
  | [] => (None, s)
  | offset :: offsets' =>
      let victim := ((local + offset) mod active_cpu_slots)%nat in
      let '(r, s) := steal_from_slot victim now (set_stats s (count_attempt (stats s))) in
      match r with
      | Some t => (Some t, set_stats s (count_success (stats s)))
      | None => steal_round local offsets' now s
      end
  end.

Definition pick_next (cpu : nat) (now : Z) (s : Sched) : option Z * Sched :=
  let local_slot := runqueue_slot_index cpu in
  let '(r, s) := pick_next_from_slot local_slot now s in
  match r with
  | Some t => (Some t, set_stats s (count_local_pick (stats s)))
  | None => steal_round local_slot (seq 1 (active_cpu_slots - 1)) now s
  end.

Fixpoint remove_loop (p : Z) (slots : list nat) (removed : Z) (s : Sched) : Z * Sched :=
  match slots with
  | [] => (removed, s)
  | slot :: slots' =>
      let q := queue s slot in
      let q' := filter (fun t => pid (tasks s t) <> p) q in
      remove_loop p slots' (saturating_add64 removed (saturating_sub64 (Z.of_nat (length q)) (Z.of_nat (length q'))))
        (put_queue slot q' s)
  end.

Definition remove_tasks_by_pid (p : Z) (s : Sched) : Z * Sched := remove_loop p (seq 0 active_cpu_slots) 0 s.

(** ** Deferred requeueing and [schedule] *)
Definition enqueue_deferred_requeue (cpu : nat) (t : Z) (s : Sched) : Sched :=
  set_deferred s (deferred s ++ [(cpu, t)]).

Definition flush_deferred_requeue_for_current_cpu (cpu : nat) (s : Sched) : Sched :=
  let ready := map snd (filter (fun x => fst x = cpu) (deferred s)) in
  let retained := filter (fun x => fst x <> cpu) (deferred s) in
  foldl (fun s t => push_back cpu t s) (set_deferred s retained) ready.

(** Where the context switch goes. *)
Inductive Switch := NoSwitch | ToIdle (prev : Z) | ToTask (prev : option Z) (next : Z).

(** The block that both branches of [schedule] run on the outgoing task. *)
Definition switch_out (cpu : nat) (now : Z) (prev : Z) (s : Sched) : Sched :=
  let s := set_tasks s (update_task prev (on_switch_out now false) (tasks s)) in
  match status (tasks s prev) with
  | Exited | Blocked => s
  | _ => enqueue_deferred_requeue cpu prev (set_tasks s (update_task prev (set_status Switching) (tasks s)))
  end.

Definition take_current_task (cpu : nat) (s : Sched) : option Z * Sched :=
  (mjoin (current s !! processor_slot cpu), set_current s (<[processor_slot cpu := None]> (current s))).
Definition replace_current_task (cpu : nat) (next : Z) (s : Sched) : option Z * Sched :=
  (mjoin (current s !! processor_slot cpu), set_current s (<[processor_slot cpu := Some next]> (current s))).

(** The timer is read when the next task is picked and again when the previous one leaves. *)
Definition schedule (cpu : nat) (now now_out : Z) (s : Sched) : Switch * Sched :=
  let s := flush_deferred_requeue_for_current_cpu cpu s in
  let '(next, s) := pick_next cpu now s in
  match next with
  | None =>
      let s := set_stats s (count_idle (stats s)) in
      if default false (idle_saved s !! processor_slot cpu) then
        let '(prev, s) := take_current_task cpu s in
        match prev with
        | Some p => (ToIdle p, switch_out cpu now_out p s)
        | None => (NoSwitch, s)
        end
      else (NoSwitch, s)
  | Some n =>
      let '(prev, s) := replace_current_task cpu n s in
      match prev with
      | Some p => (ToTask (Some p) n, switch_out cpu now_out p s)
      | None => (ToTask None n, set_idle s (<[processor_slot cpu := true]> (idle_saved s)))
      end
  end.

(** ** What a pass over one queue does *)
Definition exited (T : Z -> Task) (t : Z) : Prop := status (T t) = Exited.
Definition ready (T : Z -> Task) (t : Z) : Prop := status (T t) = Ready.
(** The tasks of a queue that are not dropped. *)
Definition keep (T : Z -> Task) (q : list Z) : list Z := filter (fun t => status (T t) <> Exited) q.
Definition started (now t : Z) (T : Z -> Task) : Z -> Task := update_task t (fun x => on_switch_in now (set_status Running x)) T.

Lemma keep_app T l1 l2 : keep T (l1 ++ l2) = keep T l1 ++ keep T l2.
Proof. apply filter_app. Qed.

Lemma pick_loop_none now T l acc :
  Forall (fun t => ~ ready T t) l -> pick_loop (length l) now T (l ++ acc) = (None, T, acc ++ keep T l).
Proof.
  intros H. revert acc. induction H as [|t l Ht _ IH]; intros acc; [by rewrite app_nil_r|]. cbn [length app pick_loop].
  unfold keep. rewrite filter_cons. unfold ready in Ht. fold (keep T l).
  destruct (status (T t)) eqn:E; try done; rewrite <- ?app_assoc, IH; list_norm; done.
Qed.

Lemma pick_loop_some now T l1 t l2 acc :
  Forall (fun t => ~ ready T t) l1 -> ready T t ->
  pick_loop (length (l1 ++ t :: l2)) now T (l1 ++ t :: l2 ++ acc) = (Some t, started now t T, l2 ++ acc ++ keep T l1).
Proof.
  intros H Ht. revert acc. induction H as [|x l1 Hx _ IH]; intros acc; cbn [length app pick_loop].
  - unfold ready in Ht. rewrite Ht. cbn. by rewrite app_nil_r.
  - unfold keep. rewrite filter_cons. unfold ready in Hx. fold (keep T l1).
    destruct (status (T x)) eqn:E; try done;
      rewrite decide_True by congruence; specialize (IH (acc ++ [x])); list_norm; list_norm_in IH; by rewrite IH.
Qed.

(** The same from the other end. *)
Lemma pop_back_snoc q t : pop_back (q ++ [t]) = Some (t, q).
Proof. unfold pop_back. rewrite last_snoc, length_app, Nat.add_sub. by rewrite take_app_length. Qed.

Lemma steal_loop_none now T l acc :
  Forall (fun t => ~ ready T t) l -> steal_loop (length l) now T (acc ++ l) = (None, T, keep T l ++ acc).
Proof.
  revert acc. induction l as [|t l IH] using rev_ind; intros acc H; [by rewrite app_nil_r|].
  apply Forall_app in H as [Hl Ht]. rewrite Forall_singleton in Ht. rewrite length_app, Nat.add_comm. cbn [length Nat.add steal_loop].
  rewrite app_assoc, pop_back_snoc, keep_app. unfold keep at 2. rewrite filter_cons, filter_nil. unfold ready in Ht.
  destruct (status (T t)) eqn:E; try done; [| | |rewrite decide_False, app_nil_r by (intros Hx0; apply Hx0; congruence); by apply IH];
    rewrite decide_True by congruence; rewrite app_comm_cons, IH by done; by rewrite <- app_assoc.
Qed.

Lemma steal_loop_some now T l1 t l2 acc :
  Forall (fun t => ~ ready T t) l2 -> ready T t ->
  steal_loop (length (l1 ++ t :: l2)) now T (acc ++ l1 ++ t :: l2) = (Some t, started now t T, keep T l2 ++ acc ++ l1).
Proof.
  intros H Ht. revert acc. induction l2 as [|x l2 IH] using rev_ind; intros acc.
  - rewrite length_app, Nat.add_comm. cbn [length Nat.add steal_loop]. rewrite app_assoc, pop_back_snoc.
    unfold ready in Ht. by rewrite Ht.
  - apply Forall_app in H as [Hl Hx]. rewrite Forall_singleton in Hx. specialize (IH Hl).
    replace (l1 ++ t :: l2 ++ [x]) with ((l1 ++ t :: l2) ++ [x]) by (by list_norm).
    rewrite length_app, Nat.add_comm. cbn [length Nat.add steal_loop]. rewrite app_assoc, pop_back_snoc, keep_app.
    unfold keep at 2. rewrite filter_cons, filter_nil. unfold ready in Hx.
    destruct (status (T x)) eqn:E; try done; [| | |rewrite decide_False, app_nil_r by (intros Hx0; apply Hx0; congruence); by apply IH];
      rewrite decide_True by congruence; rewrite app_comm_cons, IH; by list_norm.
Qed.

(** A queue either has no ready task or splits at its first, or at its last, one. *)
Lemma split_first_ready T q :
  Forall (fun t => ~ ready T t) q \/
  exists l1 t l2, q = l1 ++ t :: l2 /\ ready T t /\ Forall (fun t => ~ ready T t) l1.
Proof.
  induction q as [|x q IH]; [by left|]. destruct (decide (status (T x) = Ready)) as [Hx|Hx].
  - right. by exists [], x, q.
  - destruct IH as [IH|(l1 & t & l2 & -> & Ht & Hl)]; [left; by constructor|]. right. exists (x :: l1), t, l2. by repeat split; [|constructor].
Qed.

Lemma split_last_ready T q :
  Forall (fun t => ~ ready T t) q \/
  exists l1 t l2, q = l1 ++ t :: l2 /\ ready T t /\ Forall (fun t => ~ ready T t) l2.
Proof.
  induction q as [|x q IH]; [by left|]. destruct IH as [IH|(l1 & t & l2 & -> & Ht & Hl)].
  - destruct (decide (status (T x) = Ready)) as [Hx|Hx]; [right; by exists [], x, q|left; by constructor].
  - right. by exists (x :: l1), t, l2.
Qed.

(** ** The invariant *)
Definition queued (s : Sched) (t : Z) : Prop := t ∈ concat (queues s).
Definition on_cpu (s : Sched) (t : Z) : Prop := exists p, current s !! p = Some (Some t).
Definition is_deferred (s : Sched) (t : Z) : Prop := exists cpu, (cpu, t) ∈ deferred s.

Record queues_ok (s : Sched) : Prop := {
  qo_length : length (queues s) = RUNQUEUE_SLOT_COUNT;
  qo_inactive : forall slot, (active_cpu_slots <= slot)%nat -> queue s slot = [];
  qo_once : NoDup (concat (queues s));
  qo_not_running : forall t, queued s t -> status (tasks s t) <> Running
}.

Record sched_ok (s : Sched) : Prop := {
  so_queues : queues_ok s;
  so_processors : length (current s) = RUNQUEUE_SLOT_COUNT;
  so_running : forall t, status (tasks s t) = Running -> on_cpu s t
}.

Lemma slots_bounds : (1 <= active_cpu_slots <= RUNQUEUE_SLOT_COUNT)%nat.
Proof. unfold active_cpu_slots, RUNQUEUE_SLOT_COUNT. lia. Qed.
Lemma slot_index_active cpu : (runqueue_slot_index cpu < active_cpu_slots)%nat.
Proof. unfold runqueue_slot_index. pose proof slots_bounds. destruct (Nat.ltb_spec cpu active_cpu_slots); lia. Qed.

Lemma queue_lookup s slot : queues_ok s -> (slot < active_cpu_slots)%nat -> queues s !! slot = Some (queue s slot).
Proof.
  intros [Hl _ _ _] Hs. unfold queue. destruct (queues s !! slot) as [q|] eqn:E; [done|].
  apply lookup_ge_None in E. pose proof slots_bounds. lia.
Qed.

Lemma concat_at (qs : list (list Z)) i q : qs !! i = Some q -> concat qs ≡ₚ q ++ concat (delete i qs).
Proof.
  revert i. induction qs as [|x qs IH]; intros [|i] Hi; try done; cbn in Hi |- *; [by simplify_eq|].
  rewrite (IH i Hi) at 1. by rewrite Permutation_app_swap_app.
Qed.

Lemma concat_insert (qs : list (list Z)) i q q' :
  qs !! i = Some q -> concat (<[i := q']> qs) ≡ₚ q' ++ concat (delete i qs).
Proof.
  revert i. induction qs as [|x qs IH]; intros [|i] Hi; try done; cbn in Hi |- *.
  change (x ++ concat (<[i := q']> qs) ≡ₚ q' ++ x ++ concat (delete i qs)).
  rewrite (IH i Hi). by rewrite Permutation_app_swap_app.
Qed.

Lemma queue_put s slot slot' q :
  (slot < length (queues s))%nat -> queue (put_queue slot q s) slot' = if decide (slot' = slot) then q else queue s slot'.
Proof.
  intros Hs. unfold queue, put_queue. cbn [set_queues queues]. case_decide as E.
  - subst. by rewrite list_lookup_insert_eq.
  - by rewrite list_lookup_insert_ne.
Qed.

Lemma queued_slot s t : queues_ok s -> queued s t <-> exists slot, (slot < active_cpu_slots)%nat /\ t ∈ queue s slot.
Proof.
  intros Hok. unfold queued. rewrite list_elem_of_In, in_concat. split.
  - intros (q & Hq & Ht). apply list_elem_of_In, list_elem_of_lookup in Hq as [slot Hq]. apply list_elem_of_In in Ht.
    exists slot. assert (Hqq : queue s slot = q) by (unfold queue; by rewrite Hq). rewrite Hqq. split; [|done].
    destruct (le_lt_dec active_cpu_slots slot) as [Hge|]; [|done]. rewrite (qo_inactive s Hok slot Hge) in Hqq. subst q. by apply elem_of_nil in Ht.
  - intros (slot & Hs & Ht). exists (queue s slot). rewrite <- !list_elem_of_In. split; [|done].
    apply list_elem_of_lookup. exists slot. by apply queue_lookup.
Qed.

(** A pass over one queue: every task but the one taken and the exited ones stays. *)
Definition passed (slot : nat) (now : Z) (s : Sched) (r : option Z) (T' : Z -> Task) (q' : list Z) : Prop :=
  match r with
  | None => T' = tasks s /\ Forall (fun t => ~ ready (tasks s) t) (queue s slot) /\ q' = keep (tasks s) (queue s slot)
  | Some t => T' = started now t (tasks s) /\ ready (tasks s) t /\
      exists dropped, queue s slot ≡ₚ t :: q' ++ dropped /\ Forall (exited (tasks s)) dropped
  end.

Lemma keep_dropped T q : exists dropped, q ≡ₚ keep T q ++ dropped /\ Forall (exited T) dropped.
Proof.
  exists (filter (fun t => status (T t) = Exited) q). split.
  - unfold keep. induction q as [|x q IH]; [done|]. rewrite !filter_cons.
    destruct (decide (status (T x) = Exited)) as [E|E]; [rewrite decide_False by (intros H; by apply H)|rewrite decide_True by done].
    + by rewrite <- Permutation_middle, <- IH.
    + cbn. by rewrite <- IH.
  - apply Forall_forall. intros x Hx. by apply list_elem_of_filter in Hx as [? _].
Qed.

Lemma pick_from_slot_passed slot now s :
  exists r T' q', pick_next_from_slot slot now s = (r, put_queue slot q' (set_tasks s T')) /\ passed slot now s r T' q' /\
    forall t, r = Some t -> exists l1 l2, queue s slot = l1 ++ t :: l2 /\ Forall (fun t => ~ ready (tasks s) t) l1 /\
      q' = l2 ++ keep (tasks s) l1.
Proof.
  unfold pick_next_from_slot. destruct (split_first_ready (tasks s) (queue s slot)) as [H|(l1 & t & l2 & Hq & Ht & Hl)].
  - pose proof (pick_loop_none now (tasks s) (queue s slot) [] H) as E. rewrite app_nil_r in E. rewrite E.
    exists None, (tasks s), (keep (tasks s) (queue s slot)). by repeat split.
  - pose proof (pick_loop_some now (tasks s) l1 t l2 [] Hl Ht) as E. rewrite app_nil_r in E. rewrite Hq, E.
    exists (Some t), (started now t (tasks s)), (l2 ++ keep (tasks s) l1). split; [done|]. split.
    + split; [done|]. split; [done|]. destruct (keep_dropped (tasks s) l1) as (d & Hd & Hx). exists d. split; [|done].
      rewrite Hq, Hd at 1. rewrite <- Permutation_middle, (Permutation_app_comm (_ ++ _)). by rewrite app_assoc.
    + intros t' [= <-]. by exists l1, l2.
Qed.

Lemma steal_from_slot_passed slot now s :
  exists r T' q', steal_from_slot slot now s = (r, put_queue slot q' (set_tasks s T')) /\ passed slot now s r T' q' /\
    forall t, r = Some t -> exists l1 l2, queue s slot = l1 ++ t :: l2 /\ Forall (fun t => ~ ready (tasks s) t) l2 /\
      q' = keep (tasks s) l2 ++ l1.
Proof.
  unfold steal_from_slot. destruct (split_last_ready (tasks s) (queue s slot)) as [H|(l1 & t & l2 & Hq & Ht & Hl)].
  - pose proof (steal_loop_none now (tasks s) (queue s slot) [] H) as E. cbn [app] in E. rewrite app_nil_r in E. rewrite E.
    exists None, (tasks s), (keep (tasks s) (queue s slot)). by repeat split.
  - pose proof (steal_loop_some now (tasks s) l1 t l2 [] Hl Ht) as E. cbn [app] in E. rewrite Hq, E.
    exists (Some t), (started now t (tasks s)), (keep (tasks s) l2 ++ l1). split; [done|]. split.
    + split; [done|]. split; [done|]. destruct (keep_dropped (tasks s) l2) as (d & Hd & Hx). exists d. split; [|done].
      rewrite Hq, Hd at 1. rewrite <- Permutation_middle. constructor. rewrite app_assoc. by rewrite (Permutation_app_comm l1).
    + intros t' [= <-]. by exists l1, l2.
Qed.

(** What one pass leaves: used for the local queue and for every victim. *)
Record pass_ok (s : Sched) (r : option Z) (s' : Sched) : Prop := {
  po_ok : queues_ok s';
  po_rest : deferred s' = deferred s /\ current s' = current s /\ idle_saved s' = idle_saved s;
  po_stay : forall t, queued s t -> status (tasks s t) <> Exited -> queued s' t \/ r = Some t;
  po_old : forall t, queued s' t -> queued s t;
  po_taken : match r with
             | None => tasks s' = tasks s
             | Some t => ready (tasks s) t /\ queued s t /\ ~ queued s' t /\
                         exists now, tasks s' = started now t (tasks s)
             end
}.

Lemma started_other now t T x : x <> t -> started now t T x = T x.
Proof. intros H. unfold started, update_task. by rewrite decide_False. Qed.

Lemma passed_ok slot now s r T' q' :
  queues_ok s -> (slot < active_cpu_slots)%nat -> passed slot now s r T' q' ->
  pass_ok s r (put_queue slot q' (set_tasks s T')).
Proof.
  intros Hok Hs Hp. pose proof Hok as [Hl Hi Hn Hr]. pose proof (queue_lookup s slot Hok Hs) as Hq.
  pose proof slots_bounds as Hb. set (rest := concat (delete slot (queues s))).
  assert (Hold : concat (queues s) ≡ₚ queue s slot ++ rest) by (by apply concat_at).
  assert (Hnew : concat (<[slot := q']> (queues s)) ≡ₚ q' ++ rest) by (by apply concat_insert with (queue s slot)).
  assert (Hqq : exists d, queue s slot ≡ₚ option_list r ++ q' ++ d /\ Forall (exited (tasks s)) d).
  { destruct r as [t|]; cbn in Hp; [destruct Hp as (_ & _ & d & H1 & H2); by exists d|].
    destruct Hp as (_ & _ & ->). destruct (keep_dropped (tasks s) (queue s slot)) as (d & Hd & Hx). by exists d. }
  destruct Hqq as (d & Hd & Hx). rewrite Hd in Hold. rewrite Hold in Hn. rewrite <- !app_assoc in Hold, Hn.
  assert (Hn' : NoDup (q' ++ rest)).
  { apply NoDup_app in Hn as (_ & _ & Hn). rewrite (Permutation_app_swap_app q' d) in Hn. by apply NoDup_app in Hn as (_ & _ & Hn). }
  assert (Htk : forall t, r = Some t -> t ∉ q' ++ rest).
  { intros t -> Ht. apply NoDup_app in Hn as (_ & Hn & _). apply (Hn t); [cbn; set_solver|]. set_solver. }
  split.
  - split; cbn [put_queue set_queues queues].
    + by rewrite length_insert.
    + intros slot' Hs'. rewrite queue_put by (cbn; lia). rewrite decide_False by lia. by apply Hi.
    + by rewrite Hnew.
    + intros t Ht. unfold queued in Ht. cbn [put_queue set_queues set_tasks queues tasks] in *. rewrite Hnew in Ht.
      assert (Hne : r <> Some t) by (intros E; by apply (Htk t E)).
      assert (Hqt : queued s t) by (unfold queued; rewrite Hold; set_solver).
      enough (T' t = tasks s t) as -> by (by apply Hr). destruct r as [u|]; cbn in Hp; destruct Hp as (-> & _); [|done].
      apply started_other. congruence.
  - done.
  - unfold queued. cbn [put_queue set_queues set_tasks queues tasks]. intros t. rewrite Hold, Hnew. rewrite !elem_of_app.
    intros [Ht|[Ht|[Ht|Ht]]] Hne; [right; destruct r; cbn in Ht; [apply list_elem_of_singleton in Ht; congruence|by apply elem_of_nil in Ht]|left; set_solver| |left; set_solver].
    exfalso. apply Hne. by apply (proj1 (Forall_forall _ _) Hx).
  - unfold queued. cbn [put_queue set_queues set_tasks queues]. intros t. rewrite Hold, Hnew. set_solver.
  - destruct r as [t|]; cbn in Hp; [|by destruct Hp as (-> & _)]. destruct Hp as (-> & Ht & _).
    split; [done|]. split; [unfold queued; rewrite Hold; set_solver|]. split; [|by exists now].
    unfold queued. cbn [put_queue set_queues set_tasks queues]. rewrite Hnew. by apply Htk.
Qed.

Lemma pass_trans s s1 s2 r : pass_ok s None s1 -> pass_ok s1 r s2 -> pass_ok s r s2.
Proof.
  intros [H1 H2 H3 H4 H5] [K1 K2 K3 K4 K5]. cbn in H5. rewrite H5 in *. split; [done|destruct H2 as (? & ? & ?), K2 as (? & ? & ?); repeat split; congruence| |eauto|].
  - intros t Ht Hne. destruct (H3 t Ht Hne) as [Ht1|]; [by apply K3|done].
  - destruct r as [t|]; [|done]. destruct K5 as (? & ? & ? & ?). eauto.
Qed.

Lemma pass_stats s r s' x y : pass_ok (set_stats s x) r s' -> pass_ok s r (set_stats s' y).
Proof. intros [[A1 A2 A3 A4] H2 H3 H4 H5]. by split; [split|..]. Qed.

Definition idle_slot (T : Z -> Task) (s : Sched) (slot : nat) : Prop := Forall (fun t => ~ ready T t) (queue s slot).

Lemma passed_idle_slots slot now s T' q' slot' :
  queues_ok s -> (slot < active_cpu_slots)%nat -> passed slot now s None T' q' ->
  idle_slot (tasks s) (put_queue slot q' (set_tasks s T')) slot' -> idle_slot (tasks s) s slot'.
Proof.
  intros Hok Hs (-> & Hn & ->). unfold idle_slot. pose proof (qo_length s Hok). pose proof slots_bounds.
  rewrite queue_put by (cbn; lia). case_decide as E; [subst; done|done].
Qed.

Lemma steal_round_ok local offsets now s :
  queues_ok s -> exists r s', steal_round local offsets now s = (r, s') /\ pass_ok s r s' /\
  (r = None -> forall off, off ∈ offsets -> idle_slot (tasks s) s ((local + off) mod active_cpu_slots)%nat).
Proof.
  revert s. induction offsets as [|off offsets IH]; intros s Hok; cbn [steal_round].
  - exists None, s. split; [done|]. split; [split; [done|done|by left|done|done]|]. intros _ off H. by apply elem_of_nil in H.
  - pose proof slots_bounds as Hb.
    assert (Hv : ((local + off) mod active_cpu_slots < active_cpu_slots)%nat) by (apply Nat.mod_upper_bound; lia).
    set (v := ((local + off) mod active_cpu_slots)%nat) in *. set (s0 := set_stats s _).
    assert (Hok0 : queues_ok s0) by (by destruct Hok; split).
    destruct (steal_from_slot_passed v now s0) as (r & T' & q' & -> & Hp & _).
    pose proof (passed_ok v now s0 r T' q' Hok0 Hv Hp) as Hpass. destruct r as [t|].
    + eexists _, _. split; [reflexivity|]. split; [by eapply pass_stats|done].
    + set (s1 := put_queue v q' (set_tasks s0 T')) in *.
      pose proof (pass_stats _ _ _ _ (stats s1) Hpass) as Hpass'.
      assert (set_stats s1 (stats s1) = s1) as E by done. rewrite E in Hpass'. clear E.
      destruct (IH s1 (po_ok _ _ _ Hpass)) as (r & s2 & -> & Hpass2 & Hnone). exists r, s2. split; [done|].
      split; [by eapply pass_trans|]. intros -> o Ho. apply elem_of_cons in Ho as [->|Ho]; [by destruct Hp as (_ & Hp & _)|].
      specialize (Hnone eq_refl o Ho). pose proof Hp as (HT & _ & _). unfold s1 in Hnone at 1. cbn [tasks put_queue set_queues set_tasks] in Hnone.
      rewrite HT in Hnone. exact (passed_idle_slots v now s0 T' q' _ Hok0 Hv Hp Hnone).
Qed.

Lemma other_slots local slot :
  (local < active_cpu_slots)%nat -> (slot < active_cpu_slots)%nat -> slot <> local ->
  exists off, off ∈ seq 1 (active_cpu_slots - 1) /\ ((local + off) mod active_cpu_slots)%nat = slot.
Proof.
  intros Hl Hs Hn. exists (if decide (local < slot)%nat then slot - local else slot + active_cpu_slots - local)%nat.
  split; [apply elem_of_seq; case_decide; lia|]. case_decide.
  - replace (local + (slot - local))%nat with slot by lia. by apply Nat.mod_small.
  - replace (local + (slot + active_cpu_slots - local))%nat with (slot + 1 * active_cpu_slots)%nat by lia.
    rewrite Nat.Div0.mod_add. by apply Nat.mod_small.
Qed.

Lemma pick_next_ok cpu now s :
  queues_ok s -> exists r s', pick_next cpu now s = (r, s') /\ pass_ok s r s' /\
  (r = None -> forall t, queued s t -> ~ ready (tasks s) t).
Proof.
  intros Hok. unfold pick_next. pose proof (slot_index_active cpu) as Hl. set (local := runqueue_slot_index cpu) in *.
  destruct (pick_from_slot_passed local now s) as (r & T' & q' & -> & Hp & _).
  pose proof (passed_ok local now s r T' q' Hok Hl Hp) as Hpass. destruct r as [t|].
  - eexists _, _. split; [reflexivity|]. split; [|done]. apply (pass_stats s (Some t) _ (stats s)). by destruct s.
  - set (s1 := put_queue local q' (set_tasks s T')) in *.
    destruct (steal_round_ok local (seq 1 (active_cpu_slots - 1)) now s1 (po_ok _ _ _ Hpass)) as (r & s2 & -> & Hpass2 & Hnone).
    exists r, s2. split; [done|]. split; [by eapply pass_trans|]. intros -> t Ht.
    apply (queued_slot s t Hok) in Ht as (slot & Hs & Ht). assert (Hidle : idle_slot (tasks s) s slot).
    { destruct (decide (slot = local)) as [->|Hn]; [by destruct Hp as (_ & Hp & _)|].
      destruct (other_slots local slot Hl Hs Hn) as (off & Ho & <-). specialize (Hnone eq_refl off Ho).
      pose proof Hp as (HT & _ & _). unfold s1 in Hnone at 1. cbn [tasks put_queue set_queues set_tasks] in Hnone. rewrite HT in Hnone.
      exact (passed_idle_slots local now s T' q' _ Hok Hl Hp Hnone). }
    exact (proj1 (Forall_forall _ _) Hidle t Ht).
Qed.

(** ** Enqueueing *)
Definition schedulable (st : TaskStatus) : bool := match st with Exited | Running => false | _ => true end.

Lemma mark_cases t s :
  mark_task_ready_if_schedulable t s =
  if schedulable (status (tasks s t)) then (true, set_tasks s (update_task t (set_status Ready) (tasks s))) else (false, s).
Proof. unfold mark_task_ready_if_schedulable, schedulable. by destruct (status (tasks s t)). Qed.

Lemma contains_queued t s : queues_ok s -> contains_task_anywhere t s = true <-> queued s t.
Proof.
  intros Hok. rewrite (queued_slot s t Hok). unfold contains_task_anywhere. rewrite existsb_exists. split.
  - intros (slot & Hs & Ht). apply in_seq in Hs. apply existsb_exists in Ht as (x & Hx & E). apply bool_decide_eq_true in E. subst x.
    exists slot. split; [lia|]. by apply list_elem_of_In.
  - intros (slot & Hs & Ht). exists slot. split; [apply in_seq; lia|]. apply existsb_exists. exists t.
    split; [by apply list_elem_of_In|by apply bool_decide_eq_true].
Qed.

(** The queues are left alone by a change of tasks that starts none of them. *)
Lemma queues_ok_tasks s T' :
  queues_ok s -> (forall t, queued s t -> status (T' t) <> Running) -> queues_ok (set_tasks s T').
Proof. intros [H1 H2 H3 H4] HT. by split. Qed.

Record enqueued (l : list Z) (s s' : Sched) : Prop := {
  eq_ok : queues_ok s';
  eq_rest : deferred s' = deferred s /\ current s' = current s /\ idle_saved s' = idle_saved s;
  eq_stay : forall t, queued s t -> queued s' t;
  eq_added : forall t, t ∈ l -> schedulable (status (tasks s t)) = true -> queued s' t;
  eq_old : forall t, queued s' t -> queued s t \/ t ∈ l;
  eq_status : forall t, status (tasks s' t) = status (tasks s t) \/
                        (t ∈ l /\ schedulable (status (tasks s t)) = true /\ status (tasks s' t) = Ready)
}.

Lemma enqueue_ok t cpu s : queues_ok s -> enqueued [t] s (enqueue_on_cpu t cpu s).
Proof.
  intros Hok. unfold enqueue_on_cpu. rewrite mark_cases. destruct (schedulable (status (tasks s t))) eqn:Hsch; cbn [negb].
  2:{ split; try done; [|by left|by left]. intros x Hx Hs. apply list_elem_of_singleton in Hx as ->. congruence. }
  set (s1 := set_tasks s _).
  assert (Hst : forall x, status (tasks s1 x) = if decide (x = t) then Ready else status (tasks s x))
    by (intros x; unfold s1, update_task; cbn; by case_decide).
  assert (Hok1 : queues_ok s1).
  { apply queues_ok_tasks; [done|]. intros x Hx. change (status (tasks s1 x) <> Running). rewrite Hst. case_decide; [done|].
    by apply (qo_not_running s Hok). }
  assert (Hst' : forall x, status (tasks s1 x) = status (tasks s x) \/
    (x ∈ [t] /\ schedulable (status (tasks s x)) = true /\ status (tasks s1 x) = Ready)).
  { intros x. rewrite Hst. case_decide as E; [|by left]. subst. right. split; [set_solver|done]. }
  destruct (contains_task_anywhere t s1) eqn:Hc.
  - apply (contains_queued t s1 Hok1) in Hc. split; try done; [|by left]. intros x Hx _. by apply list_elem_of_singleton in Hx as ->.
  - rewrite mark_cases, Hst, decide_True by done. cbn [schedulable].
    set (s2 := set_tasks s1 _). set (slot := runqueue_slot_index cpu).
    assert (Hst2 : forall x, status (tasks s2 x) = status (tasks s1 x)).
    { intros x. rewrite Hst. unfold s2, s1, update_task. cbn. by repeat case_decide. }
    assert (Hok2 : queues_ok s2).
    { apply queues_ok_tasks; [done|]. intros x Hx. change (status (tasks s2 x) <> Running). rewrite Hst2. by apply (qo_not_running s1 Hok1). }
    assert (Hnew : ~ queued s2 t) by (intros Hq; rewrite <- not_true_iff_false in Hc; apply Hc; by apply contains_queued).
    pose proof (slot_index_active cpu) as Hs. fold slot in Hs. pose proof (queue_lookup s2 slot Hok2 Hs) as Hq.
    pose proof slots_bounds as Hb. pose proof (qo_length s2 Hok2) as Hlen.
    assert (Hcat : concat (<[slot := queue s2 slot ++ [t]]> (queues s2)) ≡ₚ t :: concat (queues s2)).
    { rewrite (concat_insert _ _ _ _ Hq), (concat_at (queues s2) slot _ Hq) at 1.
      rewrite <- app_assoc. cbn. by rewrite <- Permutation_middle. }
    assert (Hmem : forall x, queued (put_queue slot (queue s2 slot ++ [t]) s2) x <-> x = t \/ queued s2 x).
    { intros x. unfold queued. cbn [put_queue set_queues queues]. rewrite Hcat. apply elem_of_cons. }
    split.
    + split; cbn [put_queue set_queues queues tasks].
      * by rewrite length_insert.
      * intros slot' Hs'. rewrite queue_put by lia. rewrite decide_False by lia. by apply (qo_inactive s2 Hok2).
      * rewrite Hcat. constructor; [exact Hnew|]. apply (qo_once s2 Hok2).
      * intros x Hx. apply Hmem in Hx as [->|Hx]; [|by apply (qo_not_running s2 Hok2)].
        rewrite Hst2, Hst. by rewrite decide_True.
    + done.
    + intros x Hx. apply Hmem. by right.
    + intros x Hx _. apply Hmem. left. set_solver.
    + intros x Hx. apply Hmem in Hx as [->|Hx]; [right; set_solver|by left].
    + intros x. change (tasks (put_queue slot (queue s2 slot ++ [t]) s2)) with (tasks s2). rewrite Hst2. apply Hst'.
Qed.

Lemma push_all_ok cpu l s : queues_ok s -> enqueued l s (foldl (fun s t => push_back cpu t s) s l).
Proof.
  revert s. induction l as [|t l IH]; intros s Hok; cbn [foldl].
  - split; try done; [|by left|by left]. intros t Ht. by apply elem_of_nil in Ht.
  - destruct (enqueue_ok t cpu s Hok) as [A1 A2 A3 A4 A5 A6]. unfold push_back at 2.
    destruct (IH _ A1) as [B1 B2 B3 B4 B5 B6]. set (s1 := enqueue_on_cpu t cpu s) in *. split; [done| | | | |].
    + destruct A2 as (? & ? & ?), B2 as (? & ? & ?). repeat split; congruence.
    + auto.
    + intros x Hx Hs. apply elem_of_cons in Hx as [->|Hx]; [apply B3, A4; [set_solver|done]|].
      apply B4; [done|]. destruct (A6 x) as [->|(_ & _ & ->)]; done.
    + intros x Hx. apply B5 in Hx as [Hx|Hx]; [|right; set_solver]. apply A5 in Hx as [Hx|Hx]; [by left|right; set_solver].
    + intros x. destruct (B6 x) as [E|(Hx & Hs & E)]; rewrite E.
      * destruct (A6 x) as [E'|(Hx & Hs & E')]; [by left|right; split; [set_solver|done]].
      * right. split; [set_solver|]. split; [|done]. destruct (A6 x) as [<-|(_ & ? & _)]; done.
Qed.

(** ** [schedule] *)
Definition accounted (s : Sched) (t : Z) : Prop := queued s t \/ is_deferred s t \/ on_cpu s t.

Lemma enqueued_running l s s' t : enqueued l s s' -> status (tasks s' t) = Running -> status (tasks s t) = Running.
Proof. intros H E. destruct (eq_status _ _ _ H t) as [E'|(_ & _ & E')]; congruence. Qed.

Lemma on_cpu_same s s' t : current s' = current s -> on_cpu s' t <-> on_cpu s t.
Proof. unfold on_cpu. by intros ->. Qed.

Lemma sched_ok_enqueued l s s' : sched_ok s -> enqueued l s s' -> sched_ok s'.
Proof.
  intros [_ Hp Hr] He. pose proof He as [H1 (_ & Hc & _) _ _ _ _]. split; [done|by rewrite Hc|].
  intros t Ht. apply (on_cpu_same s s'); [done|]. apply Hr. by eapply enqueued_running.
Qed.

Lemma flush_ok cpu s :
  sched_ok s ->
  let s' := flush_deferred_requeue_for_current_cpu cpu s in
  sched_ok s' /\ current s' = current s /\
  (forall t, accounted s t -> status (tasks s t) <> Exited -> accounted s' t) /\
  (forall t, status (tasks s' t) = status (tasks s t) \/ status (tasks s' t) = Ready).
Proof.
  intros Hok. unfold flush_deferred_requeue_for_current_cpu.
  set (l := map snd _). set (s0 := set_deferred s _).
  assert (Hok0 : sched_ok s0) by (by destruct Hok as [[? ? ? ?] ? ?]; split; [split|..]).
  pose proof (push_all_ok cpu l s0 (so_queues _ Hok0)) as He. set (s' := foldl _ s0 l) in *.
  pose proof He as [_ (Hd & Hc & _) Hstay Hadd _ Hst]. split; [by apply (sched_ok_enqueued l s0)|]. split; [done|]. split.
  - intros t [Ht|[[c Ht]|Ht]] Hne; [left; by apply Hstay| |right; right; by apply (on_cpu_same s0)].
    destruct (decide (c = cpu)) as [->|Hn].
    + destruct (decide (status (tasks s t) = Running)) as [Hr|Hr].
      * right; right. apply (on_cpu_same s0); [done|]. by apply (so_running _ Hok).
      * left. apply Hadd; [|change (tasks s0) with (tasks s); by destruct (status (tasks s t))].
        apply list_elem_of_fmap. exists (cpu, t). split; [done|]. by apply list_elem_of_filter.
    + right; left. exists c. rewrite Hd. cbn. by apply list_elem_of_filter.
  - intros t. destruct (Hst t) as [E|(_ & _ & E)]; [by left|by right].
Qed.

(** The outgoing task: it is no longer running, and unless it is blocked or has exited it is
    among the deferred tasks. *)
Lemma switch_out_ok cpu now p s :
  queues_ok s ->
  let s' := switch_out cpu now p s in
  queues_ok s' /\ current s' = current s /\ status (tasks s' p) <> Running /\
  (forall t, t <> p -> tasks s' t = tasks s t) /\
  (forall t, queued s' t <-> queued s t) /\ (forall t, is_deferred s t -> is_deferred s' t) /\
  (status (tasks s p) <> Exited -> status (tasks s p) <> Blocked -> is_deferred s' p).
Proof.
  intros Hok. unfold switch_out. set (s1 := set_tasks s _).
  assert (Hst : status (tasks s1 p) = status (tasks s p)) by (unfold s1, update_task; cbn; by rewrite decide_True).
  assert (Hoth : forall t, t <> p -> tasks s1 t = tasks s t) by (intros t Ht; unfold s1, update_task; cbn; by rewrite decide_False).
  assert (Hok1 : queues_ok s1).
  { apply queues_ok_tasks; [done|]. intros t Ht. change (status (tasks s1 t) <> Running).
    destruct (decide (t = p)) as [->|Hn]; [rewrite Hst|rewrite Hoth by done]; by apply (qo_not_running s Hok). }
  rewrite Hst. destruct (status (tasks s p)) eqn:E.
  4, 5: split; [done|]; split; [done|]; split; [by rewrite Hst|]; split; [done|]; split; [done|]; by split.
  all: (split; [|split; [done|split; [|split; [|split; [done|split]]]]]).
  all: try (intros t Ht; unfold enqueue_deferred_requeue, update_task; cbn; by rewrite decide_False, <- Hoth).
  all: try (unfold enqueue_deferred_requeue, update_task; cbn; rewrite decide_True by done; done).
  all: try (intros t [c Hc]; exists c; cbn; apply elem_of_app; by left).
  all: try (intros _ _; exists cpu; cbn; apply elem_of_app; right; set_solver).
  all: apply (queues_ok_tasks s1) with (T' := update_task p (set_status Switching) (tasks s1)) in Hok1 as [? ? ? ?]; [by split|].
  all: intros t Ht; unfold update_task; case_decide; [done|]; by apply (qo_not_running s1 Hok1).
Qed.

Lemma processor_slot_bound cpu : (processor_slot cpu < RUNQUEUE_SLOT_COUNT)%nat.
Proof. unfold processor_slot. destruct (Nat.ltb_spec cpu RUNQUEUE_SLOT_COUNT); [done|]. unfold RUNQUEUE_SLOT_COUNT. lia. Qed.

(** Who is on a CPU after the current task of one processor has been replaced. *)
Lemma on_cpu_replaced s k x t :
  (k < length (current s))%nat ->
  on_cpu (set_current s (<[k := x]> (current s))) t <-> x = Some t \/ exists q, q <> k /\ current s !! q = Some (Some t).
Proof.
  intros Hk. unfold on_cpu. cbn [set_current current]. split.
  - intros [q Hq]. destruct (decide (q = k)) as [->|Hn].
    + rewrite list_lookup_insert_eq in Hq by done. left. by injection Hq.
    + rewrite list_lookup_insert_ne in Hq by done. right. by exists q.
  - intros [->|(q & Hn & Hq)]; [exists k; by rewrite list_lookup_insert_eq|exists q; by rewrite list_lookup_insert_ne].
Qed.

(** Replacing the current task [p] of a processor by [x] and switching [p] out. *)
Lemma replace_ok cpu now s x p :
  queues_ok s -> length (current s) = RUNQUEUE_SLOT_COUNT ->
  current s !! processor_slot cpu = Some (Some p) ->
  (forall t, status (tasks s t) = Running -> on_cpu s t \/ x = Some t) ->
  let s' := switch_out cpu now p (set_current s (<[processor_slot cpu := x]> (current s))) in
  sched_ok s' /\
  (forall t, accounted s t \/ x = Some t -> status (tasks s t) <> Exited -> status (tasks s t) <> Blocked -> accounted s' t).
Proof.
  intros Hok Hlen Hp Hrun. set (s1 := set_current s _). pose proof (processor_slot_bound cpu) as Hb.
  assert (Hok1 : queues_ok s1) by (by destruct Hok; split).
  destruct (switch_out_ok cpu now p s1 Hok1) as (A1 & A2 & A3 & A4 & A5 & A6 & A7). set (s' := switch_out cpu now p s1) in *.
  assert (Hon : forall t, t <> p -> on_cpu s t \/ x = Some t -> on_cpu s' t).
  { intros t Hn Ht. apply (on_cpu_same s1 s' t A2). apply on_cpu_replaced; [lia|]. destruct Ht as [[q Hq]| ->]; [|by left].
    right. exists q. split; [|done]. intros ->. congruence. }
  split.
  - split; [done| |].
    + rewrite A2. cbn. by rewrite length_insert.
    + intros t Ht. destruct (decide (t = p)) as [->|Hn]; [done|]. rewrite A4 in Ht by done. apply (Hon t Hn). by apply Hrun.
  - intros t Ht He Hbl. destruct (decide (t = p)) as [->|Hn]; [right; left; by apply A7|].
    destruct Ht as [[Ht|[Ht|Ht]]|Ht]; [left; by apply A5|right; left; by apply A6| |]; right; right; apply (Hon t Hn); tauto.
Qed.

(** What [pick_next] leaves, in the terms of [schedule]'s two branches: [s2] is the state
    after a pick from [s1] that took [r]. *)
Lemma picked_accounted s1 r s2 t :
  pass_ok s1 r s2 -> accounted s1 t -> status (tasks s1 t) <> Exited -> accounted s2 t \/ r = Some t.
Proof.
  intros [_ (Hd & Hc & _) Hstay _ _] Ht He. destruct Ht as [Ht|[[c Ht]|Ht]].
  - destruct (Hstay t Ht He) as [|]; [left; by left|by right].
  - left. right; left. exists c. by rewrite Hd.
  - left. right; right. by apply (on_cpu_same s1).
Qed.

Lemma picked_running s1 r s2 t :
  sched_ok s1 -> pass_ok s1 r s2 -> status (tasks s2 t) = Running -> on_cpu s2 t \/ r = Some t.
Proof.
  intros Hok [_ (_ & Hc & _) _ _ Ht] Hr. destruct r as [n|].
  - destruct Ht as (_ & _ & _ & now & HT). destruct (decide (t = n)) as [->|Hn]; [by right|]. left.
    apply (on_cpu_same s1); [done|]. apply (so_running _ Hok). by rewrite HT, started_other in Hr.
  - left. rewrite Ht in Hr. apply (on_cpu_same s1); [done|]. by apply (so_running _ Hok).
Qed.

Lemma picked_live s1 r s2 t :
  pass_ok s1 r s2 -> status (tasks s1 t) <> Exited -> status (tasks s1 t) <> Blocked ->
  status (tasks s2 t) <> Exited /\ status (tasks s2 t) <> Blocked.
Proof.
  intros [_ _ _ _ Ht] H1 H2. destruct r as [n|]; [|by rewrite Ht]. destruct Ht as (_ & _ & _ & now & ->).
  unfold started, update_task. by case_decide.
Qed.

(** The incoming task takes the processor. *)
Lemma dispatch_ok cpu now s1 n s2 :
  sched_ok s1 -> pass_ok s1 (Some n) s2 ->
  let '(prev, s3) := replace_current_task cpu n s2 in
  let s' := match prev with
            | Some p => switch_out cpu now p s3
            | None => set_idle s3 (<[processor_slot cpu := true]> (idle_saved s3))
            end in
  sched_ok s' /\ current s' !! processor_slot cpu = Some (Some n) /\
  (forall t, accounted s1 t -> status (tasks s1 t) <> Exited -> status (tasks s1 t) <> Blocked -> accounted s' t).
Proof.
  intros Hok Hp. pose proof Hp as [B1 (B2 & B3 & B4) _ _ _]. pose proof (processor_slot_bound cpu) as Hb.
  assert (Hlen : length (current s2) = RUNQUEUE_SLOT_COUNT) by (rewrite B3; apply (so_processors _ Hok)).
  destruct (lookup_lt_is_Some_2 (current s2) (processor_slot cpu) ltac:(lia)) as [cur Hcur].
  assert (Hslot : <[processor_slot cpu := Some n]> (current s2) !! processor_slot cpu = Some (Some n))
    by (rewrite list_lookup_insert_eq; [done|lia]).
  unfold replace_current_task. rewrite Hcur. cbn [mjoin option_join]. destruct cur as [p|].
  - destruct (replace_ok cpu now s2 (Some n) p B1 Hlen Hcur (fun t => picked_running s1 _ s2 t Hok Hp)) as [C1 C2].
    split; [done|]. split.
    + destruct (switch_out_ok cpu now p (set_current s2 (<[processor_slot cpu:=Some n]> (current s2))) ltac:(by destruct B1; split)) as (_ & -> & _).
      apply Hslot.
    + intros t Ht He Hbl. destruct (picked_live s1 _ s2 t Hp He Hbl). apply C2; [by apply (picked_accounted s1)|done|done].
  - assert (Hon : forall t, on_cpu s2 t \/ Some n = Some t -> on_cpu (set_current s2 (<[processor_slot cpu:=Some n]> (current s2))) t).
    { intros t Ht. apply on_cpu_replaced; [lia|]. destruct Ht as [[q Hq]|Ht]; [right; exists q|by left]. split; [intros ->; congruence|done]. }
    split; [split; [by destruct B1; split| |]|split; [done|]].
    + cbn. by rewrite length_insert.
    + intros t Ht. by apply Hon, (picked_running s1 _ s2 t Hok Hp).
    + intros t Ht He _. destruct (picked_accounted s1 _ s2 t Hp Ht He) as [[H1|[H1|H1]]|H1]; [by left|by right; left| |]; right; right; apply Hon; tauto.
Qed.

(** No task is ready: the processor goes back to its idle context, if it has one. *)
Lemma go_idle_ok cpu now s :
  sched_ok s ->
  let '(prev, s1) := take_current_task cpu s in
  let s' := match prev with Some p => switch_out cpu now p s1 | None => s1 end in
  sched_ok s' /\ current s' !! processor_slot cpu = Some None /\
  (forall t, accounted s t -> status (tasks s t) <> Exited -> status (tasks s t) <> Blocked -> accounted s' t).
Proof.
  intros Hok. pose proof (processor_slot_bound cpu) as Hb. pose proof Hok as [B1 Hlen Hrun].
  destruct (lookup_lt_is_Some_2 (current s) (processor_slot cpu) ltac:(lia)) as [cur Hcur].
  unfold take_current_task. rewrite Hcur. cbn [mjoin option_join]. destruct cur as [p|].
  - destruct (replace_ok cpu now s None p B1 Hlen Hcur ltac:(intros t Ht; left; by apply Hrun)) as [C1 C2].
    split; [done|]. split; [|intros t Ht He Hbl; by apply C2; [left|..]].
    destruct (switch_out_ok cpu now p (set_current s (<[processor_slot cpu:=None]> (current s))) ltac:(by destruct B1; split)) as (_ & -> & _).
    cbn. rewrite list_lookup_insert_eq; [done|lia].
  - assert (Hsame : set_current s (<[processor_slot cpu:=None]> (current s)) = s)
      by (unfold set_current; rewrite list_insert_id by done; by destruct s).
    rewrite Hsame. split; [done|]. split; [done|]. by intros.
Qed.

Lemma schedule_ok cpu now now_out s :
  sched_ok s -> exists sw s', schedule cpu now now_out s = (sw, s') /\ sched_ok s' /\
  (forall t, accounted s t -> status (tasks s t) <> Exited -> status (tasks s t) <> Blocked -> accounted s' t) /\
  match sw with
  | ToTask _ n => current s' !! processor_slot cpu = Some (Some n)
  | ToIdle _ => current s' !! processor_slot cpu = Some None
  | NoSwitch => current s' = current s \/ current s' !! processor_slot cpu = Some None
  end.
Proof.
  intros Hok. unfold schedule. destruct (flush_ok cpu s Hok) as (Hok1 & Hc1 & Hacc1 & Hst1).
  set (s1 := flush_deferred_requeue_for_current_cpu cpu s) in *.
  assert (Hlive : forall t, status (tasks s t) <> Exited -> status (tasks s t) <> Blocked ->
    status (tasks s1 t) <> Exited /\ status (tasks s1 t) <> Blocked) by (intros t; destruct (Hst1 t) as [E|E]; rewrite E; by split).
  destruct (pick_next_ok cpu now s1 (so_queues _ Hok1)) as (r & s2 & -> & Hp & _). destruct r as [n|].
  - pose proof (dispatch_ok cpu now_out s1 n s2 Hok1 Hp) as H. destruct (replace_current_task cpu n s2) as [[p|] s3];
      destruct H as (H1 & H2 & H3); (eexists _, _; split; [reflexivity|]; split; [done|]; split; [|done]);
      intros t Ht He Hbl; destruct (Hlive t He Hbl); by apply H3; [apply Hacc1|..].
  - pose proof Hp as [B1 (B2 & B3 & B4) _ _ B7]. set (s3 := set_stats s2 _).
    assert (Hok3 : sched_ok s3).
    { split; [by destruct B1; split|cbn; rewrite B3; apply (so_processors _ Hok1)|].
      intros t Ht. destruct (picked_running s1 _ s2 t Hok1 Hp Ht) as [|[=]]. done. }
    assert (Hacc : forall t, accounted s t -> status (tasks s t) <> Exited -> accounted s3 t).
    { intros t Ht He. destruct (decide (status (tasks s1 t) = Exited)) as [E|E]; [destruct (Hst1 t); congruence|].
      destruct (picked_accounted s1 _ s2 t Hp (Hacc1 t Ht He) E) as [|[=]]. done. }
    destruct (default false (idle_saved s3 !! processor_slot cpu)).
    2:{ exists NoSwitch, s3. split; [done|]. split; [done|]. split; [by intros; apply Hacc|]. left. cbn. congruence. }
    pose proof (go_idle_ok cpu now_out s3 Hok3) as H. destruct (take_current_task cpu s3) as [[p|] s4];
      destruct H as (H1 & H2 & H3); (eexists _, _; split; [reflexivity|]; split; [done|]; split; [|by try right]);
      intros t Ht He Hbl; destruct (Hlive t He Hbl) as [E1 E2]; (apply H3; [by apply Hacc|..]); change (tasks s3) with (tasks s2); by rewrite B7.
Qed.

(** ** Removal by process, and the changes other code makes *)
Lemma put_filter_ok (P : Z -> Prop) `{!forall t, Decision (P t)} slot s :
  queues_ok s -> (slot < active_cpu_slots)%nat ->
  let s' := put_queue slot (filter P (queue s slot)) s in
  queues_ok s' /\ forall t, queued s' t <-> queued s t /\ (t ∈ queue s slot -> P t).
Proof.
  intros Hok Hs. pose proof Hok as [H1 H2 H3 H4]. pose proof (queue_lookup s slot Hok Hs) as Hq. pose proof slots_bounds as Hb.
  pose proof (concat_at _ _ _ Hq) as Hold. pose proof (concat_insert _ _ _ (filter P (queue s slot)) Hq) as Hnew.
  rewrite Hold in H3. apply NoDup_app in H3 as (N1 & N2 & N3).
  assert (Hmem : forall t, queued (put_queue slot (filter P (queue s slot)) s) t <-> queued s t /\ (t ∈ queue s slot -> P t)).
  { intros t. unfold queued. cbn [put_queue set_queues queues]. rewrite Hnew, Hold. rewrite !elem_of_app, list_elem_of_filter.
    specialize (N2 t). destruct (decide (t ∈ queue s slot)); naive_solver. }
  split; [|done]. split; cbn [put_queue set_queues queues tasks].
  - by rewrite length_insert.
  - intros slot' Hs'. rewrite queue_put by lia. rewrite decide_False by lia. by apply H2.
  - rewrite Hnew. apply NoDup_app. split; [by apply NoDup_filter|]. split; [|done].
    intros t Ht. apply list_elem_of_filter in Ht as [_ Ht]. by apply N2.
  - intros t Ht. apply H4. by apply Hmem in Ht as [? _].
Qed.

Lemma remove_by_pid_loop_ok p slots removed s :
  queues_ok s -> Forall (fun slot => (slot < active_cpu_slots)%nat) slots ->
  let s' := snd (remove_loop p slots removed s) in
  queues_ok s' /\ tasks s' = tasks s /\ deferred s' = deferred s /\ current s' = current s /\
  forall t, queued s' t <-> queued s t /\ (forall slot, slot ∈ slots -> t ∈ queue s slot -> pid (tasks s t) <> p).
Proof.
  intros Hok Hs. revert removed s Hok. induction Hs as [|slot slots Hs Hslots IH]; intros removed s Hok; cbn [remove_loop].
  - cbn. do 4 (split; [done|]). intros t. split; [|by intros [? _]]. intros Ht. split; [done|]. intros slot Hsl. by apply elem_of_nil in Hsl.
  - destruct (put_filter_ok (fun t => pid (tasks s t) <> p) slot s Hok Hs) as [Hok1 Hmem1].
    set (s1 := put_queue slot _ s) in *.
    set (removed' := saturating_add64 _ _). destruct (IH removed' s1 Hok1) as (A1 & A2 & A3 & A4 & A5).
    split; [done|]. split; [done|]. split; [done|]. split; [done|]. intros t. rewrite A5, Hmem1. change (tasks s1) with (tasks s).
    pose proof (qo_length s Hok). pose proof slots_bounds.
    assert (Hq1 : forall slot', t ∈ queue s1 slot' <-> t ∈ queue s slot' /\ (slot' = slot -> pid (tasks s t) <> p)).
    { intros slot'. unfold s1. rewrite queue_put by lia. case_decide as E; [subst slot'; rewrite list_elem_of_filter; naive_solver|naive_solver]. }
    split.
    + intros [[H1 H2] H3]. split; [done|]. intros slot' Hin Ht. destruct (decide (slot' = slot)) as [->|Hn]; [auto|].
      apply elem_of_cons in Hin as [?|Hin]; [done|]. apply (H3 slot' Hin), Hq1. by split.
    + intros [H1 H2]. split; [split; [done|]|].
      * intros Ht. apply (H2 slot); [by apply elem_of_cons; left|done].
      * intros slot' Hin Ht. apply Hq1 in Ht as [Ht _]. apply (H2 slot'); [by apply elem_of_cons; right|done].
Qed.

Lemma remove_by_pid_ok p s :
  queues_ok s ->
  let s' := snd (remove_tasks_by_pid p s) in
  queues_ok s' /\ tasks s' = tasks s /\ deferred s' = deferred s /\ current s' = current s /\
  forall t, queued s' t <-> queued s t /\ pid (tasks s t) <> p.
Proof.
  intros Hok. destruct (remove_by_pid_loop_ok p (seq 0 active_cpu_slots) 0 s Hok) as (A1 & A2 & A3 & A4 & A5).
  { apply Forall_forall. intros slot Hs. apply elem_of_seq in Hs. lia. }
  split; [done|]. split; [done|]. split; [done|]. split; [done|]. intros t. rewrite A5. split; intros [H1 H2]; split; try done.
  apply (queued_slot s t Hok) in H1 as (slot & Hs & Ht). apply (H2 slot); [apply elem_of_seq; lia|done].
Qed.

(** A task ends ([exit_current_task], a fatal signal); a task is stopped or waits for input
    ([SIGSTOP], [enqueue_current_stdin_waiter]); a waiting task is woken ([SIGCONT],
    [wake_stdin_waiters_if_ready]). *)
Definition exit_task (t : Z) (s : Sched) : Sched := set_tasks s (update_task t (set_status Exited) (tasks s)).
Definition block_task (t : Z) (s : Sched) : Sched :=
  if bool_decide (status (tasks s t) = Exited) then s else set_tasks s (update_task t (set_status Blocked) (tasks s)).
Definition wake_task (cpu : nat) (t : Z) (s : Sched) : Sched :=
  if bool_decide (status (tasks s t) = Blocked)
  then add_task cpu t (set_tasks s (update_task t (set_status Ready) (tasks s))) else s.

Inductive op := OpAdd (t : Z) | OpSchedule (now now_out : Z) | OpRemove (p : Z) | OpExit (t : Z) | OpBlock (t : Z) | OpWake (t : Z).

Definition apply_op (cpu : nat) (o : op) (s : Sched) : Sched :=
  match o with
  | OpAdd t => add_task cpu t s
  | OpSchedule now now_out => snd (schedule cpu now now_out s)
  | OpRemove p => snd (remove_tasks_by_pid p s)
  | OpExit t => exit_task t s
  | OpBlock t => block_task t s
  | OpWake t => wake_task cpu t s
  end.

Inductive reachable : Sched -> Prop :=
| reachable_init T : (forall t, status (T t) <> Running) ->
    reachable (mkSched T (replicate RUNQUEUE_SLOT_COUNT []) [] (replicate RUNQUEUE_SLOT_COUNT None)
                 (replicate RUNQUEUE_SLOT_COUNT false) (mkStats 0 0 0 0))
| reachable_op s cpu o : reachable s -> reachable (apply_op cpu o s).

Lemma sched_ok_status s t st :
  sched_ok s -> st <> Running -> sched_ok (set_tasks s (update_task t (set_status st) (tasks s))).
Proof.
  intros [Hq Hp Hr] Hst. split; [|done|].
  - apply queues_ok_tasks; [done|]. intros x Hx. unfold update_task. case_decide; [done|]. by apply (qo_not_running s Hq).
  - intros x. cbn. unfold update_task. case_decide; [done|]. apply Hr.
Qed.

Lemma apply_op_ok cpu o s : sched_ok s -> sched_ok (apply_op cpu o s).
Proof.
  intros Hok. destruct o as [t|now now_out|p|t|t|t]; cbn [apply_op].
  - eapply sched_ok_enqueued; [done|]. apply enqueue_ok. by apply so_queues.
  - destruct (schedule_ok cpu now now_out s Hok) as (sw & s' & -> & H & _). exact H.
  - destruct (remove_by_pid_ok p s (so_queues _ Hok)) as (A1 & A2 & _ & A4 & _). destruct Hok as [_ Hp Hr].
    split; [done|by rewrite A4|]. intros t. rewrite A2. intros Ht. apply (on_cpu_same s); [done|]. by apply Hr.
  - by apply sched_ok_status.
  - unfold block_task. case_bool_decide; [done|]. by apply sched_ok_status.
  - unfold wake_task. case_bool_decide; [|done]. eapply sched_ok_enqueued; [by apply (sched_ok_status s t Ready)|].
    apply enqueue_ok. by apply so_queues, sched_ok_status.
Qed.

Lemma reachable_ok s : reachable s -> sched_ok s.
Proof.
  induction 1 as [T HT|s cpu o _ IH]; [|by apply apply_op_ok]. split; cbn; [|done|by intros t Ht; apply HT in Ht].
  split; cbn [queues tasks].
  - done.
  - intros slot _. change (default [] (replicate RUNQUEUE_SLOT_COUNT (@nil Z) !! slot) = []).
    destruct (lookup_replicate_None RUNQUEUE_SLOT_COUNT (@nil Z) slot) as [Hnone _].
    destruct (decide (slot < RUNQUEUE_SLOT_COUNT)%nat); [by rewrite lookup_replicate_2|by rewrite Hnone by lia].
  - unfold RUNQUEUE_SLOT_COUNT. cbn. constructor.
  - intros t Ht. unfold queued in Ht. cbn [queues] in Ht. unfold RUNQUEUE_SLOT_COUNT in Ht. cbn in Ht. by apply elem_of_nil in Ht.
Qed.

(** ** The choice [pick_next] makes *)
Definition first_ready (T : Z -> Task) (q : list Z) (t : Z) (rest : list Z) : Prop :=
  exists l1 l2, q = l1 ++ t :: l2 /\ ready T t /\ Forall (fun x => ~ ready T x) l1 /\ rest = l2 ++ keep T l1.
Definition last_ready (T : Z -> Task) (q : list Z) (t : Z) (rest : list Z) : Prop :=
  exists l1 l2, q = l1 ++ t :: l2 /\ ready T t /\ Forall (fun x => ~ ready T x) l2 /\ rest = keep T l2 ++ l1.

Lemma steal_round_choice local offsets now s t s' :
  queues_ok s -> steal_round local offsets now s = (Some t, s') ->
  exists before off after, offsets = before ++ off :: after /\
    Forall (fun o => idle_slot (tasks s) s ((local + o) mod active_cpu_slots)%nat) before /\
    let v := ((local + off) mod active_cpu_slots)%nat in
    last_ready (tasks s) (queue s v) t (queue s' v) /\ tasks s' = started now t (tasks s).
Proof.
  revert s. induction offsets as [|off offsets IH]; intros s Hok; cbn [steal_round]; [done|]. pose proof slots_bounds as Hb.
  assert (Hv : ((local + off) mod active_cpu_slots < active_cpu_slots)%nat) by (apply Nat.mod_upper_bound; lia).
  set (v := ((local + off) mod active_cpu_slots)%nat) in *. set (s0 := set_stats s _).
  assert (Hok0 : queues_ok s0) by (by destruct Hok; split). pose proof (qo_length s0 Hok0) as Hlen.
  destruct (steal_from_slot_passed v now s0) as (r & T' & q' & -> & Hp & Hl). destruct r as [u|].
  - intros [= <- <-]. exists [], off, offsets. split; [done|]. split; [done|]. destruct (Hl u eq_refl) as (l1 & l2 & H1 & H2 & H3).
    destruct Hp as (HT & Hr & _). split; [|done]. exists l1, l2. split; [done|]. split; [done|]. split; [done|].
    fold v. set (s1 := put_queue v q' (set_tasks s0 T')). change (queue s1 v = keep (tasks s) l2 ++ l1). unfold s1. rewrite queue_put by (change (v < length (queues s0))%nat; lia). by rewrite decide_True.
  - pose proof Hp as (HT & Hnone & Hq'). pose proof (passed_ok v now s0 _ T' q' Hok0 Hv Hp) as Hpass.
    set (s1 := put_queue v q' (set_tasks s0 T')) in *. intros E.
    destruct (IH s1 (po_ok _ _ _ Hpass) E) as (before & off' & after & -> & Hbefore & Hlast & HT').
    assert (Htk : tasks s1 = tasks s) by exact HT. rewrite Htk in *. exists (off :: before), off', after. split; [done|]. split.
    + constructor; [exact Hnone|]. eapply Forall_impl; [exact Hbefore|]. intros o Ho.
      exact (passed_idle_slots v now s0 T' q' _ Hok0 Hv Hp Ho).
    + split; [|done]. set (v' := ((local + off') mod active_cpu_slots)%nat) in *. unfold s1 in Hlast at 1. rewrite queue_put in Hlast by (change (v < length (queues s0))%nat; lia).
      case_decide as Ev; [|done]. exfalso. destruct Hlast as (l1 & l2 & Hsplit & Hr & _).
      assert (Hin : t ∈ keep (tasks s0) (queue s0 v)) by (rewrite <- Hq', Hsplit; set_solver).
      apply list_elem_of_filter in Hin as [_ Hin]. by apply (proj1 (Forall_forall _ _) Hnone t Hin).
Qed.

(** The tasks of a queue are visited in order, with the last visited first in [steal_loop]. *)
Lemma pick_next_local cpu now s t s' :
  queues_ok s -> pick_next cpu now s = (Some t, s') ->
  let local := runqueue_slot_index cpu in
  (first_ready (tasks s) (queue s local) t (queue s' local) /\ tasks s' = started now t (tasks s)) \/
  (idle_slot (tasks s) s local /\ exists before off after, seq 1 (active_cpu_slots - 1) = before ++ off :: after /\
     Forall (fun o => idle_slot (tasks s) s ((local + o) mod active_cpu_slots)%nat) before /\
     let v := ((local + off) mod active_cpu_slots)%nat in
     last_ready (tasks s) (queue s v) t (queue s' v) /\ tasks s' = started now t (tasks s)).
Proof.
  intros Hok. unfold pick_next. pose proof (slot_index_active cpu) as Hl. set (local := runqueue_slot_index cpu) in *.
  pose proof (qo_length s Hok) as Hlen. pose proof slots_bounds as Hb.
  destruct (pick_from_slot_passed local now s) as (r & T' & q' & -> & Hp & Hfirst). destruct r as [u|].
  - intros [= <- <-]. left. destruct Hp as (HT & Hr & _). split; [|done]. destruct (Hfirst u eq_refl) as (l1 & l2 & H1 & H2 & H3).
    exists l1, l2. split; [done|]. split; [done|]. split; [done|]. set (s1 := put_queue local q' (set_tasks s T')).
    change (queue s1 local = l2 ++ keep (tasks s) l1). unfold s1. rewrite queue_put by (cbn; lia). by rewrite decide_True.
  - intros E. right. pose proof Hp as (HT & Hnone & Hq'). split; [done|].
    pose proof (passed_ok local now s _ T' q' Hok Hl Hp) as Hpass. set (s1 := put_queue local q' (set_tasks s T')) in *.
    destruct (steal_round_choice _ _ _ _ _ _ (po_ok _ _ _ Hpass) E) as (before & off & after & Hs & Hbefore & Hlast & HT').
    assert (Htk : tasks s1 = tasks s) by exact HT. rewrite Htk in *. exists before, off, after. split; [done|]. split.
    + eapply Forall_impl; [exact Hbefore|]. intros o Ho. exact (passed_idle_slots local now s T' q' _ Hok Hl Hp Ho).
    + split; [|done]. set (v := ((local + off) mod active_cpu_slots)%nat) in *. unfold s1 in Hlast at 1. rewrite queue_put in Hlast by (cbn; lia).
      case_decide as Ev; [|done]. exfalso. destruct Hlast as (l1 & l2 & Hsplit & Hr & _).
      assert (Hin : t ∈ keep (tasks s) (queue s local)) by (rewrite <- Hq', Hsplit; set_solver).
      apply list_elem_of_filter in Hin as [_ Hin]. by apply (proj1 (Forall_forall _ _) Hnone t Hin).
Qed.

(** ** Progress of a waiting task *)
Lemma enqueue_appends t cpu s :
  queues_ok s ->
  (exists extra, queue (enqueue_on_cpu t cpu s) (runqueue_slot_index cpu) = queue s (runqueue_slot_index cpu) ++ extra) /\
  (forall x, ready (tasks s) x -> ready (tasks (enqueue_on_cpu t cpu s)) x).
Proof.
  intros Hok. split.
  - unfold enqueue_on_cpu. rewrite mark_cases. destruct (schedulable _); cbn [negb]; [|exists []; by rewrite app_nil_r].
    destruct (contains_task_anywhere _ _); [exists []; by rewrite app_nil_r|]. rewrite mark_cases. destruct (schedulable _); [|exists []; by rewrite app_nil_r].
    exists [t]. pose proof (qo_length s Hok). pose proof slots_bounds. pose proof (slot_index_active cpu).
    rewrite queue_put by (cbn [set_tasks queues]; lia). by rewrite decide_True.
  - intros x Hx. unfold ready in *. destruct (eq_status _ _ _ (enqueue_ok t cpu s Hok) x) as [E|(_ & _ & E)]; congruence.
Qed.

Lemma flush_appends cpu s :
  queues_ok s ->
  let s' := flush_deferred_requeue_for_current_cpu cpu s in
  (exists extra, queue s' (runqueue_slot_index cpu) = queue s (runqueue_slot_index cpu) ++ extra) /\
  (forall x, ready (tasks s) x -> ready (tasks s') x).
Proof.
  intros Hok. unfold flush_deferred_requeue_for_current_cpu. set (l := map snd _). set (s0 := set_deferred s _).
  change (queue s) with (queue s0). change (tasks s) with (tasks s0). assert (Hok0 : queues_ok s0) by (by destruct Hok; split).
  clearbody s0 l. clear Hok s. cbn zeta. revert s0 Hok0. induction l as [|t l IH]; intros s Hok; cbn [foldl]; [split; [exists []; by rewrite app_nil_r|done]|].
  destruct (enqueue_appends t cpu s Hok) as [[e1 H1] H2]. pose proof (eq_ok _ _ _ (enqueue_ok t cpu s Hok)) as Hok1.
  unfold push_back at 2 4. destruct (IH _ Hok1) as [[e2 H3] H4]. split; [|auto]. exists (e1 ++ e2). by rewrite H3, H1, app_assoc.
Qed.

(** The first ready task of a queue that holds the ready task [t] at position [j]: it is [t],
    or [t] moves forward. *)
Lemma first_ready_progress T q t n rest j :
  first_ready T q n rest -> q !! j = Some t -> ready T t ->
  n = t \/ exists j', (j' < j)%nat /\ rest !! j' = Some t.
Proof.
  intros (l1 & l2 & -> & Hn & Hl1 & ->) Hj Ht. destruct (decide (j < length l1)%nat) as [Hlt|Hge].
  - exfalso. rewrite lookup_app_l in Hj by done. exact (Forall_lookup_1 _ _ _ _ Hl1 Hj Ht).
  - rewrite lookup_app_r in Hj by lia. destruct (j - length l1)%nat as [|k] eqn:E; cbn in Hj; [left; congruence|].
    right. exists k. split; [lia|]. by apply lookup_app_l_Some.
Qed.

Lemma lookup_app_weak {A} (l extra : list A) j x : l !! j = Some x -> (l ++ extra) !! j = Some x.
Proof. apply lookup_app_l_Some. Qed.

Lemma switch_out_queue cpu now p s slot : queue (switch_out cpu now p s) slot = queue s slot.
Proof. unfold switch_out. by destruct (status _). Qed.

Definition dispatched (sw : Switch) : option Z := match sw with ToTask _ n => Some n | _ => None end.

(** One call of [schedule]: the waiting task [t] is dispatched, or is nearer to the head. *)
Lemma schedule_progress cpu now now_out s t j :
  sched_ok s -> queue s (runqueue_slot_index cpu) !! j = Some t -> ready (tasks s) t ->
  current s !! processor_slot cpu <> Some (Some t) ->
  let '(sw, s') := schedule cpu now now_out s in
  dispatched sw = Some t \/
  exists j', (j' < j)%nat /\ queue s' (runqueue_slot_index cpu) !! j' = Some t /\ ready (tasks s') t /\
    current s' !! processor_slot cpu <> Some (Some t).
Proof.
  intros Hok Hj Ht Hcur. unfold schedule. destruct (flush_ok cpu s Hok) as (Hok1 & Hc1 & _).
  destruct (flush_appends cpu s (so_queues _ Hok)) as [[extra Hq1] Hr1]. set (s1 := flush_deferred_requeue_for_current_cpu cpu s) in *.
  apply (lookup_app_weak _ extra) in Hj. rewrite <- Hq1 in Hj. apply Hr1 in Ht. rewrite <- Hc1 in Hcur. clearbody s1. clear Hq1 Hr1 Hc1 s Hok.
  set (local := runqueue_slot_index cpu) in *. pose proof (slot_index_active cpu) as Hl.
  destruct (pick_next_ok cpu now s1 (so_queues _ Hok1)) as (r & s2 & E & Hp & Hnone). rewrite E. destruct r as [n|].
  2:{ exfalso. apply (Hnone eq_refl t); [|done]. apply (queued_slot s1 t (so_queues _ Hok1)). exists local. split; [done|]. by eapply list_elem_of_lookup_2. }
  destruct (pick_next_local cpu now s1 n s2 (so_queues _ Hok1) E) as [[Hfirst HT]|[Hidle _]].
  2:{ exfalso. exact (Forall_lookup_1 _ _ _ _ Hidle Hj Ht). }
  fold local in Hfirst. pose proof Hp as [_ (_ & Hc2 & _) _ _ _].
  destruct (first_ready_progress _ _ t n _ j Hfirst Hj Ht) as [->|(j' & Hj' & Hlook)]; [unfold replace_current_task; destruct (mjoin _); by left|].
  destruct (decide (n = t)) as [->|Hnt]; [unfold replace_current_task; destruct (mjoin _); by left|].
  pose proof (processor_slot_bound cpu) as Hb. pose proof (so_processors _ Hok1) as Hlen. unfold replace_current_task.
  assert (Hcur' : <[processor_slot cpu := Some n]> (current s2) !! processor_slot cpu <> Some (Some t))
    by (rewrite list_lookup_insert_eq by (rewrite Hc2; lia); congruence).
  assert (Ht2 : ready (tasks s2) t) by (unfold ready; rewrite HT, started_other by done; exact Ht).
  destruct (mjoin (current s2 !! processor_slot cpu)) as [p|] eqn:Ep; right; exists j'; (split; [done|]); [|done].
  assert (Hpt : t <> p).
  { intros ->. apply Hcur. rewrite <- Hc2. destruct (current s2 !! processor_slot cpu) as [[x|]|]; cbn in Ep; congruence. }
  rewrite switch_out_queue. split; [done|].
  destruct (switch_out_ok cpu now_out p (set_current s2 (<[processor_slot cpu := Some n]> (current s2)))
    ltac:(by destruct (po_ok _ _ _ Hp); split)) as (_ & -> & _ & Hsame & _). split; [|done]. unfold ready. by rewrite Hsame.
Qed.

(** Successive calls of [schedule] on one CPU; the times are those of its timer reads. *)
Fixpoint schedules (cpu : nat) (times : list (Z * Z)) (s : Sched) : list Switch :=
  match times with
  | [] => []
  | (now, now_out) :: times' => let '(sw, s') := schedule cpu now now_out s in sw :: schedules cpu times' s'
  end.

(** ** The properties *)

(** C33. Whatever sequence of operations the CPUs perform (adding tasks, scheduling, removing a
    process, ending, stopping and waking tasks), starting from empty queues: no task is in the
    run queues twice, the queues beyond the active CPUs stay empty, no queued task is Running,
    and every Running task is the current task of some CPU. *)
Theorem reachable_runqueues_sound s :
  reachable s ->
  NoDup (concat (queues s)) /\
  (forall slot, (active_cpu_slots <= slot)%nat -> queue s slot = []) /\
  (forall t, t ∈ concat (queues s) -> status (tasks s t) <> Running) /\
  (forall t, status (tasks s t) = Running -> exists p, current s !! p = Some (Some t)).
Proof. intros H. apply reachable_ok in H as [[? ? ? ?] ? ?]. done. Qed.

(** [pick_next] takes the first Ready task of the CPU's own queue; if it has none, the last
    Ready task of the first other queue, in cyclic order, that has one; and it gives up only
    when no queued task is Ready.  The task taken becomes Running, leaves the queues, and no
    other task changes; every other task that has not exited stays queued, exited tasks that
    were passed over are dropped and the rest keep their order. *)
Theorem pick_next_chooses cpu now s :
  queues_ok s ->
  let local := runqueue_slot_index cpu in
  let victim off := ((local + off) mod active_cpu_slots)%nat in
  let '(r, s') := pick_next cpu now s in
  queues_ok s' /\ (forall t, queued s t -> status (tasks s t) <> Exited -> queued s' t \/ r = Some t) /\
  (forall t, queued s' t -> queued s t) /\
  match r with
  | None => tasks s' = tasks s /\ forall t, queued s t -> status (tasks s t) <> Ready
  | Some t =>
      tasks s' = started now t (tasks s) /\ ~ queued s' t /\
      (first_ready (tasks s) (queue s local) t (queue s' local) \/
       (idle_slot (tasks s) s local /\ exists before off after, seq 1 (active_cpu_slots - 1) = before ++ off :: after /\
          Forall (fun o => idle_slot (tasks s) s (victim o)) before /\
          last_ready (tasks s) (queue s (victim off)) t (queue s' (victim off))))
  end.
Proof.
  intros Hok. destruct (pick_next_ok cpu now s Hok) as (r & s' & E & [A1 A2 A3 A4 A5] & Hnone). rewrite E.
  split; [done|]. split; [done|]. split; [done|]. destruct r as [t|]; [|by split; [|apply Hnone]].
  pose proof (pick_next_local cpu now s t s' Hok E) as Hl. cbn zeta in Hl. destruct A5 as (_ & _ & Hnq & _).
  destruct Hl as [[H1 H2]|(H1 & b & o & a & H2 & H3 & H4 & H5)]; (split; [done|]); (split; [done|]); [by left|right].
  split; [done|]. by exists b, o, a.
Qed.

(** C34. [schedule] loses no task: a task that was queued, deferred or current and has neither
    exited nor blocked is still queued, deferred or current afterwards; the invariant of the
    queues is kept; and the CPU's current task is the one switched to, or none when it switches
    to its idle context. *)
Theorem schedule_keeps_every_task cpu now now_out s :
  sched_ok s ->
  let '(sw, s') := schedule cpu now now_out s in
  sched_ok s' /\
  (forall t, accounted s t -> status (tasks s t) <> Exited -> status (tasks s t) <> Blocked -> accounted s' t) /\
  match sw with
  | ToTask _ n => current s' !! processor_slot cpu = Some (Some n)
  | ToIdle _ => current s' !! processor_slot cpu = Some None
  | NoSwitch => current s' = current s \/ current s' !! processor_slot cpu = Some None
  end.
Proof. intros Hok. by destruct (schedule_ok cpu now now_out s Hok) as (sw & s' & -> & H). Qed.

(** C35. No starvation on a CPU's own queue: a Ready task that waits behind [j] others, and is not
    the task running there, is dispatched within the next [j + 1] calls of [schedule] by that
    CPU, although each call may put the outgoing task and deferred tasks into the queue. *)
Theorem waiting_task_is_dispatched cpu times s t j :
  sched_ok s -> queue s (runqueue_slot_index cpu) !! j = Some t -> status (tasks s t) = Ready ->
  current s !! processor_slot cpu <> Some (Some t) -> length times = S j ->
  Exists (fun sw => dispatched sw = Some t) (schedules cpu times s).
Proof.
  revert times s. induction j as [j IH] using (well_founded_induction Nat.lt_wf_0). intros [|[now now_out] times] s Hok Hj Ht Hc Hlen; [done|].
  cbn [schedules]. pose proof (schedule_progress cpu now now_out s t j Hok Hj Ht Hc) as Hp.
  destruct (schedule_ok cpu now now_out s Hok) as (sw & s' & E & Hok' & _). rewrite E in *.
  destruct Hp as [Hp|(j' & Hlt & Hj' & Ht' & Hc')]; [by left|]. right. cbn in Hlen. injection Hlen as Hlen.
  rewrite <- (take_drop (S j') times). assert (Hs : forall ts us s0, exists rest, schedules cpu (ts ++ us) s0 = schedules cpu ts s0 ++ rest).
  { clear. induction ts as [|[a b] ts IHts]; intros us s0; [by eexists|]. cbn [app schedules]. destruct (schedule cpu a b s0) as [sw s'].
    destruct (IHts us s') as [rest ->]. by exists rest. }
  destruct (Hs (take (S j') times) (drop (S j') times) s') as [rest ->]. apply Exists_app. left.
  apply (IH j' Hlt); [done|done|done|done|]. rewrite length_take. lia.
Qed.
End Scheduler.

(** ** Concrete runs: three CPUs, tasks 1 to 4, of processes 10 and 20 *)
Module Runs.
Definition fresh (t : Z) : Task := mkTask (if Z.leb t 2 then 10 else 20) Ready 0 None 0 0.
Definition boot : Sched :=
  mkSched fresh (replicate RUNQUEUE_SLOT_COUNT []) [] (replicate RUNQUEUE_SLOT_COUNT None)
    (replicate RUNQUEUE_SLOT_COUNT false) (mkStats 0 0 0 0).
Definition ops (l : list (nat * op)) : Sched := foldl (fun s '(cpu, o) => apply_op 3 cpu o s) boot l.

Lemma ops_reachable l : reachable 3 (ops l).
Proof.
  unfold ops. assert (H : reachable 3 boot) by (apply reachable_init; intros t; done). revert H. generalize boot.
  induction l as [|[cpu o] l IH]; intros s H; [done|]. cbn [foldl]. apply IH. by constructor.
Qed.

Definition four : list (nat * op) := [(0%nat, OpAdd 1); (0%nat, OpAdd 2); (0%nat, OpAdd 3); (1%nat, OpAdd 4)].
Definition currents (s : Sched) : list (option Z) := take 3 (current s).

(** Round robin on one CPU, stealing on an idle one. *)
Example round_robin :
  let s := ops (four ++ [(0%nat, OpSchedule 5 5); (2%nat, OpSchedule 6 6); (0%nat, OpSchedule 7 7); (0%nat, OpSchedule 8 8)]) in
  currents s = [Some 1; None; Some 3] /\ queue s 0 = [] /\ queue s 1 = [4] /\ deferred s = [(0%nat, 2)] /\
  runtime_ticks (tasks s 1) = 2.
Proof. by vm_compute. Qed.

(** A task stopped while its requeueing is deferred is made Ready again by the flush, although
    no [SIGCONT] arrived. *)
Example stop_is_lost_while_deferred :
  let s := ops [(0%nat, OpAdd 1); (0%nat, OpAdd 2); (0%nat, OpSchedule 5 5); (0%nat, OpSchedule 6 6); (1%nat, OpBlock 1);
                (1%nat, OpRemove 10); (0%nat, OpSchedule 7 7)] in
  status (tasks s 1) = Running /\ currents s = [Some 1; None; None].
Proof. by vm_compute. Qed.

(** A task that is woken between becoming Blocked and giving up its CPU is taken by another CPU
    while it is still current on the first. *)
Example woken_before_it_switched_out :
  let s := ops [(0%nat, OpAdd 1); (0%nat, OpSchedule 5 5); (0%nat, OpBlock 1); (1%nat, OpWake 1); (1%nat, OpSchedule 6 6)] in
  currents s = [Some 1; Some 1; None].
Proof. by vm_compute. Qed.
End Runs.

Lemma reachable_runqueues_sound_witness : NoDup (concat (queues (Runs.ops Runs.four))).
Proof. exact (proj1 (reachable_runqueues_sound 3 (Runs.ops Runs.four) (Runs.ops_reachable _))). Defined.

Lemma pick_next_chooses_witness : queues_ok 3 (snd (pick_next 3 2 9 (Runs.ops Runs.four))) /\ fst (pick_next 3 2 9 (Runs.ops Runs.four)) = Some 3.
Proof.
  pose proof (pick_next_chooses 3 2 9 (Runs.ops Runs.four) (so_queues _ _ (reachable_ok 3 _ (Runs.ops_reachable _)))) as H.
  cbn zeta in H. destruct (pick_next 3 2 9 (Runs.ops Runs.four)) as [r s'] eqn:E. split; [exact (proj1 H)|].
  change (fst (r, s') = Some 3). rewrite <- E. vm_compute. reflexivity.
Defined.

Lemma schedule_keeps_every_task_witness : accounted (snd (schedule 3 0 5 5 (Runs.ops Runs.four))) 4.
Proof.
  pose proof (schedule_keeps_every_task 3 0 5 5 (Runs.ops Runs.four) (reachable_ok 3 _ (Runs.ops_reachable _))) as H.
  destruct (schedule 3 0 5 5 (Runs.ops Runs.four)) as [sw s'] eqn:E. destruct H as (_ & H & _). apply (H 4); [left; apply list_elem_of_In; vm_compute; tauto|done|done].
Defined.

Lemma waiting_task_is_dispatched_witness :
  Exists (fun sw => dispatched sw = Some 3) (schedules 3 0 [(5, 5); (6, 6); (7, 7)] (Runs.ops Runs.four)).
Proof.
  apply (waiting_task_is_dispatched 3 0 _ (Runs.ops Runs.four) 3 2 (reachable_ok 3 _ (Runs.ops_reachable _))); vm_compute; congruence.
Defined.
