(* ===== verification/FsPath.v ===== *)
(** * Paths: kernel/src/fs/vfs/path.rs, fs/api/types.rs and the paths of fs/runtime/manager.rs

    Strings are lists of bytes.  The kernel normalises paths in two places; the two
    routines agree.  A canonical path is a list of names, written with slashes. *)

From stdpp Require Import strings.
From S2P Require Import Prelude Errno.
#[local] Open Scope Z_scope.

(** ** Strings *)
Abbreviation str := (list Z).
Definition lit (s : string) : str := (fun c => Z.of_N (Ascii.N_of_ascii c)) <$> String.list_ascii_of_string s.
Definition SLASH : Z := 47.

(** [str::split] by one character: there is always at least one piece. *)
Fixpoint split (c : Z) (s : str) : list str :=
  match s with
  | [] => [[]]
  | x :: s' =>
      if x =? c then [] :: split c s'
      else match split c s' with p :: ps => (x :: p) :: ps | [] => [[x]] end
  end.

Fixpoint strip_prefix (p s : str) : option str :=
  match p, s with
  | [], _ => Some s
  | _, [] => None
  | x :: p', y :: s' => if x =? y then strip_prefix p' s' else None
  end.
Definition starts_with (s p : str) : bool := match strip_prefix p s with Some _ => true | None => false end.

(** [trim_end_matches], [trim_start_matches] and [rfind] of one character. *)
Fixpoint trim_start (c : Z) (s : str) : str :=
  match s with [] => [] | x :: s' => if x =? c then trim_start c s' else s end.
Definition trim_end (c : Z) (s : str) : str := reverse (trim_start c (reverse s)).
Fixpoint rfind (c : Z) (s : str) : option nat :=
  match s with
  | [] => None
  | x :: s' => match rfind c s' with Some i => Some (S i) | None => if x =? c then Some O else None end
  end.

(** ** Errors and file types *)
Inductive FileType := Regular | Directory | CharDevice | Fifo | Unknown.
#[export] Instance FileType_eq_dec : EqDecision FileType.
Proof. solve_decision. Defined.

Inductive FsError :=
| NotFound | NotDirectory | IsDirectory | InvalidInput | PermissionDenied | AlreadyExists | Busy | NotSupported | Io.
#[export] Instance FsError_eq_dec : EqDecision FsError.
Proof. solve_decision. Defined.

Definition errno (e : FsError) : Z :=
  match e with
  | NotFound => ENOENT
  | NotDirectory => ENOTDIR
  | IsDirectory => EISDIR
  | InvalidInput => EINVAL
  | PermissionDenied => EPERM
  | AlreadyExists => EBUSY
  | Busy => EBUSY
  | NotSupported => ENOSYS
  | Io => EINVAL
  end.

Record Metadata := mkMetadata { md_ino : Z; md_file_type : FileType; md_mode : Z; md_size : Z; md_nlink : Z }.
Record DirEntry := mkDirEntry { de_ino : Z; de_file_type : FileType; de_name : str }.

(** ** Normalisation *)
(** One round of the loops over the components. *)
Definition push_component (parts : list str) (comp : str) : list str :=
  if bool_decide (comp = []) || bool_decide (comp = lit ".") then parts
  else if bool_decide (comp = lit "..") then removelast parts
  else parts ++ [comp].

(** The loop that writes the components. *)
Fixpoint write_parts (idx : nat) (out : str) (parts : list str) : str :=
  match parts with
  | [] => out
  | comp :: parts' =>
      let out := if negb (Nat.eqb idx 0) then out ++ [SLASH] else out in
      write_parts (S idx) (out ++ comp) parts'
  end.

Definition normalize_path (cwd input : str) : Result str FsError :=
  if bool_decide (input = []) then Err NotFound
  else
    let parts := if negb (starts_with input (lit "/")) then foldl push_component [] (split SLASH cwd) else [] in
    let parts := foldl push_component parts (split SLASH input) in
    if bool_decide (parts = []) then Ok (lit "/")
    else Ok (write_parts 0 (lit "/") parts).

(** The routine of the same name in manager.rs, with loops of its own. *)
Fixpoint manager_components (parts : list str) (comps : list str) : list str :=
  match comps with
  | [] => parts
  | comp :: comps' =>
      if bool_decide (comp = []) || bool_decide (comp = lit ".") then manager_components parts comps'
      else if bool_decide (comp = lit "..") then manager_components (removelast parts) comps'
      else manager_components (parts ++ [comp]) comps'
  end.
Fixpoint manager_write (idx : nat) (out : str) (parts : list str) : str :=
  match parts with
  | [] => out
  | comp :: parts' => manager_write (S idx) ((if Nat.eqb idx 0 then out else out ++ [SLASH]) ++ comp) parts'
  end.
Definition manager_normalize_path (base input : str) : Result str Z :=
  if bool_decide (input = []) then Err ENOENT
  else
    let seed := if negb (starts_with base (lit "/")) then SLASH :: base else base in
    let parts := if negb (starts_with input (lit "/")) then manager_components [] (split SLASH seed) else [] in
    let parts := manager_components parts (split SLASH input) in
    if bool_decide (parts = []) then Ok (lit "/")
    else Ok (manager_write 0 (lit "/") parts).

Definition split_parent (path : str) : str * str :=
  if bool_decide (path = lit "/") then (lit "/", [])
  else
    let trimmed := trim_end SLASH path in
    match rfind SLASH trimmed with
    | Some idx => if Nat.eqb idx 0 then (lit "/", drop 1 trimmed) else (take idx trimmed, drop (idx + 1) trimmed)
    | None => (lit "/", trimmed)
    end.

(** ** Canonical paths *)
Definition name (comp : str) : Prop := comp <> [] /\ (SLASH ∉ comp) /\ comp <> lit "." /\ comp <> lit "..".
Fixpoint slashed (parts : list str) : str := match parts with [] => [] | comp :: parts' => SLASH :: comp ++ slashed parts' end.
Definition render (parts : list str) : str := match parts with [] => lit "/" | _ => slashed parts end.
Definition canonical (p : str) : Prop := exists parts, Forall name parts /\ p = render parts.

(** ** Where a path leads

    A directory is the list of names on the way to it from the root.  Following a path from
    a directory, byte by byte: slashes and a dot stay, a double dot leads to the parent (from
    the root to the root), and a name leads down.  The dots and names end at a slash or at the
    end of the path. *)
Definition piece_ends (s : str) : Prop := s = [] \/ exists s', s = SLASH :: s'.
Inductive leads : list str -> str -> list str -> Prop :=
| leads_end d : leads d [] d
| leads_slash d s e : leads d s e -> leads d (SLASH :: s) e
| leads_dot d s e : piece_ends s -> leads d s e -> leads d (lit "." ++ s) e
| leads_up d n s e : piece_ends s -> leads d s e -> leads (d ++ [n]) (lit ".." ++ s) e
| leads_top s e : piece_ends s -> leads [] s e -> leads [] (lit ".." ++ s) e
| leads_down d n s e : name n -> piece_ends s -> leads (d ++ [n]) s e -> leads d (n ++ s) e.

(** ** Splitting and joining *)
Lemma split_nonempty c s : split c s <> [].
Proof. destruct s as [|x s]; cbn; [done|]. destruct (x =? c); [done|]. by destruct (split c s). Qed.
Lemma split_cons_sep c s : split c (c :: s) = [] :: split c s.
Proof. cbn. by rewrite Z.eqb_refl. Qed.
Lemma split_whole c s : c ∉ s -> split c s = [s].
Proof.
  induction s as [|x s IH]; intros H; [done|]. cbn. destruct (Z.eqb_spec x c) as [->|]; [set_solver|]. by rewrite IH by set_solver.
Qed.
Lemma split_app c a b : split c (a ++ c :: b) = split c a ++ split c b.
Proof.
  induction a as [|x a IH]; [apply split_cons_sep|]. cbn [app split]. destruct (x =? c); [by rewrite IH|]. rewrite IH.
  by destruct (split c a) eqn:E; [destruct (split_nonempty c a)|].
Qed.
Lemma split_slashed parts : Forall (fun comp => SLASH ∉ comp) parts -> parts <> [] -> split SLASH (slashed parts) = [] :: parts.
Proof.
  intros H Hne. destruct parts as [|p ps]; [done|]. cbn [slashed]. rewrite split_cons_sep. f_equal. clear Hne.
  revert p H. induction ps as [|q ps IH]; intros p [Hp H]%Forall_cons; cbn [slashed].
  - rewrite app_nil_r. by apply split_whole.
  - by rewrite split_app, (split_whole SLASH p), IH.
Qed.
Lemma split_pieces c s : Forall (fun p => c ∉ p) (split c s).
Proof.
  induction s as [|x s IH]; cbn; [repeat constructor; set_solver|]. destruct (Z.eqb_spec x c); [constructor; [set_solver|done]|].
  destruct (split c s) as [|p ps]; [repeat constructor; set_solver|]. apply Forall_cons in IH as [? ?]. constructor; [set_solver|done].
Qed.

Lemma strip_prefix_app p s s' : strip_prefix p s = Some s' <-> s = p ++ s'.
Proof.
  revert s. induction p as [|x p IH]; intros s; cbn; [split; congruence|]. destruct s as [|y s]; [done|].
  destruct (Z.eqb_spec x y) as [->|Hne]; [|split; [done|intros [=]; congruence]]. rewrite IH. split; [by intros ->|by intros [= ->]].
Qed.
Lemma starts_with_app s p : starts_with s p = true <-> exists s', s = p ++ s'.
Proof.
  unfold starts_with. destruct (strip_prefix p s) as [s'|] eqn:E.
  - apply strip_prefix_app in E. split; [intros _; by exists s'|done].
  - split; [done|]. intros [s' Hs]. apply strip_prefix_app in Hs. congruence.
Qed.

Lemma starts_with_slash x s : starts_with (x :: s) (lit "/") = (SLASH =? x).
Proof. change (lit "/") with [SLASH]. unfold starts_with. cbn [strip_prefix]. by destruct (_ =? _). Qed.

(** ** What the loops build *)
Lemma push_name parts comp : name comp -> push_component parts comp = parts ++ [comp].
Proof. intros (H1 & _ & H2 & H3). unfold push_component. by rewrite !bool_decide_eq_false_2. Qed.
Lemma push_names parts comps : Forall name comps -> foldl push_component parts comps = parts ++ comps.
Proof.
  revert parts. induction comps as [|c comps IH]; intros parts H; cbn [foldl]; [by rewrite app_nil_r|]. apply Forall_cons in H as [Hc H].
  rewrite IH, push_name by done. by rewrite <- app_assoc.
Qed.
Lemma push_empty parts : push_component parts [] = parts.
Proof. done. Qed.

Lemma removelast_Forall {A} (P : A -> Prop) l : Forall P l -> Forall P (removelast l).
Proof.
  intros H. destruct (decide (l = [])) as [->|Hne]; [done|]. destruct (exists_last Hne) as (l' & x & ->).
  rewrite removelast_last. by apply Forall_app in H as [? _].
Qed.
Lemma push_keeps_names parts comp : Forall name parts -> SLASH ∉ comp -> Forall name (push_component parts comp).
Proof.
  intros H Hs. unfold push_component. repeat case_bool_decide; cbn [orb]; try done.
  - by apply removelast_Forall.
  - apply Forall_app. split; [done|]. by repeat constructor.
Qed.
Lemma pushes_keep_names parts comps :
  Forall name parts -> Forall (fun comp => SLASH ∉ comp) comps -> Forall name (foldl push_component parts comps).
Proof.
  revert parts. induction comps as [|c comps IH]; intros parts H Hs; cbn [foldl]; [done|]. apply Forall_cons in Hs as [? ?].
  apply IH; [by apply push_keeps_names|done].
Qed.

Lemma write_parts_later idx out parts : (0 < idx)%nat -> write_parts idx out parts = out ++ slashed parts.
Proof.
  revert idx out. induction parts as [|c parts IH]; intros idx out Hi; cbn [write_parts]; [by rewrite app_nil_r|].
  destruct idx; [lia|]. cbn [Nat.eqb negb]. rewrite IH by lia. cbn [slashed]. by rewrite <- !app_assoc.
Qed.
Lemma write_parts_render parts : parts <> [] -> write_parts 0 (lit "/") parts = render parts.
Proof. intros Hne. destruct parts as [|c parts]; [done|]. cbn [write_parts Nat.eqb negb]. rewrite write_parts_later by lia. done. Qed.

(** The components that a path adds to a directory. *)
Definition go (dir : list str) (path : str) : list str := foldl push_component dir (split SLASH path).

Lemma go_app dir a b : go dir (a ++ SLASH :: b) = go (go dir a) b.
Proof. unfold go. by rewrite split_app, foldl_app. Qed.
Lemma go_dotdot dir : go dir (lit "..") = removelast dir.
Proof. reflexivity. Qed.
Lemma go_names dir path : Forall name dir -> Forall name (go dir path).
Proof. intros H. apply pushes_keep_names; [done|apply split_pieces]. Qed.
Lemma names_no_slash parts : Forall name parts -> Forall (fun comp => SLASH ∉ comp) parts.
Proof. intros H. apply (Forall_impl _ _ _ H). by intros ? (_ & ? & _). Qed.
Lemma go_render dir parts : Forall name parts -> go dir (render parts) = dir ++ parts.
Proof.
  intros H. unfold go. destruct (decide (parts = [])) as [->|Hne]; [cbn; by rewrite app_nil_r|].
  destruct parts as [|p ps]; [done|]. unfold render. rewrite split_slashed by (try apply names_no_slash; done). change (foldl push_component dir ([] :: p :: ps)) with (foldl push_component dir (p :: ps)).
  by apply push_names.
Qed.

(** Where a path leads from a directory, and what the two routines answer. *)
Definition dir_of (cwd : str) (input : str) : list str := if starts_with input (lit "/") then [] else go [] cwd.

Lemma dir_of_names cwd input : Forall name (dir_of cwd input).
Proof. unfold dir_of. destruct (starts_with _ _); [constructor|]. by apply go_names. Qed.
Lemma normalize_path_eq cwd input :
  input <> [] -> normalize_path cwd input = Ok (render (go (dir_of cwd input) input)).
Proof.
  intros Hne. unfold normalize_path, dir_of. rewrite bool_decide_eq_false_2 by done. fold (go [] cwd).
  set (d := if starts_with input (lit "/") then [] else go [] cwd). replace (if negb _ then _ else _) with d by (unfold d; by destruct (starts_with _ _)).
  fold (go d input). case_bool_decide as H; [by rewrite H|]. by rewrite write_parts_render.
Qed.
(** The loops of the two routines agree. *)
Lemma manager_components_eq comps : forall parts, manager_components parts comps = foldl push_component parts comps.
Proof.
  induction comps as [|c comps IH]; intros parts; cbn [manager_components foldl]; [done|]. rewrite !IH. unfold push_component.
  by repeat case_bool_decide.
Qed.
Lemma manager_write_eq parts : forall idx out, manager_write idx out parts = write_parts idx out parts.
Proof. induction parts as [|c parts IH]; intros idx out; cbn [manager_write write_parts]; [done|]. rewrite IH. by destruct (Nat.eqb idx 0). Qed.
Lemma manager_normalize_path_eq base input :
  manager_normalize_path base input = match normalize_path base input with Ok p => Ok p | Err e => Err (errno e) end.
Proof.
  unfold manager_normalize_path, normalize_path. case_bool_decide; [done|]. cbv zeta. rewrite !manager_components_eq, manager_write_eq.
  assert (E : split SLASH (SLASH :: base) = [] :: split SLASH base) by apply split_cons_sep.
  destruct (negb (starts_with base (lit "/"))); [rewrite E; cbn [foldl]; rewrite push_empty|]; by case_bool_decide.
Qed.

(** Following a path piece by piece is what the loops do. *)
Lemma go_nil d : go d [] = d.
Proof. done. Qed.
Lemma go_slash d s : go d (SLASH :: s) = go d s.
Proof. unfold go. rewrite split_cons_sep. cbn [foldl]. by rewrite push_empty. Qed.
Lemma go_piece d p s : SLASH ∉ p -> piece_ends s -> go d (p ++ s) = go (push_component d p) s.
Proof.
  intros Hp [->|[s' ->]].
  - rewrite app_nil_r. unfold go. by rewrite split_whole.
  - rewrite go_app, go_slash. f_equal. unfold go. by rewrite split_whole.
Qed.
Lemma dots_no_slash : (SLASH ∉ lit ".") /\ (SLASH ∉ lit "..").
Proof. split; apply (bool_decide_unpack _); vm_compute; exact I. Qed.
Lemma leads_unique d s e : leads d s e -> e = go d s.
Proof.
  induction 1 as [d|d s e _ IH|d s e Hs _ IH|d n s e Hs _ IH|s e Hs _ IH|d n s e Hn Hs _ IH]; [done|by rewrite go_slash|..];
    (rewrite go_piece; [|first [apply dots_no_slash|apply Hn]|done]).
  - exact IH.
  - assert (push_component (d ++ [n]) (lit "..") = d) as -> by (change (push_component (d ++ [n]) (lit "..")) with (removelast (d ++ [n])); apply removelast_last). exact IH.
  - exact IH.
  - by rewrite push_name.
Qed.
(** The first piece of a path. *)
Lemma first_piece (s : str) : exists p s', s = p ++ s' /\ (SLASH ∉ p) /\ piece_ends s'.
Proof.
  induction s as [|x s (p & s' & -> & Hp & Hs)]; [by exists [], []; split; [done|]; split; [set_solver|left]|].
  destruct (decide (x = SLASH)) as [->|Hx]; [exists [], (SLASH :: p ++ s'); split; [done|]; split; [set_solver|right; by eexists]|].
  exists (x :: p), s'. split; [done|]. split; [set_solver|done].
Qed.
Lemma leads_go s : forall d, leads d s (go d s).
Proof.
  induction s as [s IH] using (induction_ltof1 _ (@length Z)). unfold ltof in IH. intros d. destruct (first_piece s) as (p & s' & -> & Hp & Hs).
  destruct (decide (p = [])) as [->|Hne].
  { destruct Hs as [->|[t ->]]; [rewrite go_nil; constructor|]. cbn [app] in *. rewrite go_slash. apply leads_slash, IH. cbn. lia. }
  assert (Hlt : (length s' < length (p ++ s'))%nat) by (rewrite length_app; destruct p; [done|]; cbn; lia).
  rewrite go_piece by done. destruct (decide (p = lit ".")) as [->|H1]; [apply leads_dot; [done|]; by apply IH|].
  destruct (decide (p = lit "..")) as [->|H2].
  - change (push_component d (lit "..")) with (removelast d). destruct (decide (d = [])) as [->|Hd]; [apply leads_top; [done|]; by apply IH|].
    destruct (exists_last Hd) as (d' & n & ->). rewrite removelast_last. apply leads_up; [done|]. by apply IH.
  - assert (Hn : name p) by done. rewrite push_name by done. apply leads_down; [done|done|]. by apply IH.
Qed.
Lemma absolute_render parts : starts_with (render parts) (lit "/") = true.
Proof. by destruct parts. Qed.
Lemma render_nonempty parts : render parts <> [].
Proof. by destruct parts. Qed.
Lemma normalize_render cwd parts : Forall name parts -> normalize_path cwd (render parts) = Ok (render parts).
Proof.
  intros H. rewrite normalize_path_eq by apply render_nonempty. unfold dir_of. by rewrite absolute_render, go_render.
Qed.

(** ** Parents *)
Lemma trim_start_none c s : match s with x :: _ => x <> c | [] => True end -> trim_start c s = s.
Proof. destruct s as [|x s]; [done|]. cbn. by destruct (Z.eqb_spec x c). Qed.
Lemma rfind_none c s : c ∉ s -> rfind c s = None.
Proof. induction s as [|x s IH]; intros H; [done|]. cbn. rewrite IH by set_solver. destruct (Z.eqb_spec x c); [set_solver|done]. Qed.
Lemma rfind_last c a b : c ∉ b -> rfind c (a ++ c :: b) = Some (length a).
Proof.
  intros H. induction a as [|x a IH]; cbn; [by rewrite rfind_none, Z.eqb_refl|]. by rewrite IH.
Qed.
Lemma slashed_app a b : slashed (a ++ b) = slashed a ++ slashed b.
Proof. induction a as [|x a IH]; cbn; [done|]. by rewrite IH, <- app_assoc. Qed.
Lemma render_snoc parts n : render (parts ++ [n]) = slashed parts ++ SLASH :: n.
Proof. destruct parts; unfold render; cbn [app slashed]; rewrite ?slashed_app; cbn [slashed]; by rewrite app_nil_r, <- ?app_assoc. Qed.
Lemma trim_end_name s n : name n -> trim_end SLASH (s ++ SLASH :: n) = s ++ SLASH :: n.
Proof.
  intros (Hne & Hs & _). unfold trim_end. rewrite trim_start_none; [apply reverse_involutive|].
  destruct (exists_last Hne) as (n' & x & ->). replace (s ++ SLASH :: n' ++ [x]) with ((s ++ SLASH :: n') ++ [x]) by (by rewrite <- app_assoc).
  rewrite reverse_snoc. set_solver.
Qed.
Lemma split_parent_snoc parts n : Forall name parts -> name n -> split_parent (render (parts ++ [n])) = (render parts, n).
Proof.
  intros Hp Hn. pose proof Hn as (Hne & Hs & _). rewrite render_snoc. unfold split_parent. rewrite bool_decide_eq_false_2.
  2: { intros E. apply (f_equal length) in E. rewrite length_app in E. cbn in E. destruct n; [done|]. cbn in E. lia. }
  rewrite trim_end_name, rfind_last by done. destruct parts as [|p ps]; [done|].
  destruct (Nat.eqb_spec (length (slashed (p :: ps))) 0) as [H0|_]; [done|]. unfold render. f_equal; [by rewrite take_app_length|].
  rewrite <- drop_drop, drop_app_length. done.
Qed.

(** ** The properties of paths *)
(** C25. Where paths lead.  Both routines that normalise paths refuse an empty path, and give the
    same answer for every other: following the path from the root, if it begins with a slash,
    or else from where the current directory leads from the root ([..] going to the parent, at
    the root to the root), arrives at exactly one directory, and the answer is its absolute
    path, written with its names alone.  That answer is its own normal form wherever one
    starts, and the answer for an absolute path does not depend on the current directory. *)
Theorem paths_are_normalized cwd input :
  normalize_path cwd [] = Err NotFound /\ manager_normalize_path cwd [] = Err (errno NotFound) /\
  (input <> [] -> exists dir e,
     (if starts_with input (lit "/") then dir = [] else leads [] cwd dir) /\
     leads dir input e /\ (forall e', leads dir input e' -> e' = e) /\ Forall name e /\
     normalize_path cwd input = Ok (render e) /\ manager_normalize_path cwd input = Ok (render e) /\
     (forall cwd', normalize_path cwd' (render e) = Ok (render e)) /\
     (starts_with input (lit "/") = true -> forall cwd', normalize_path cwd' input = Ok (render e))).
Proof.
  split; [done|]. split; [done|]. intros Hne. exists (dir_of cwd input), (go (dir_of cwd input) input).
  assert (Hn : Forall name (go (dir_of cwd input) input)) by (apply go_names, dir_of_names).
  split; [unfold dir_of; destruct (starts_with _ _); [done|apply leads_go]|]. split; [apply leads_go|]. split; [intros e'; apply leads_unique|]. split; [done|].
  split; [by apply normalize_path_eq|]. split; [by rewrite manager_normalize_path_eq, normalize_path_eq|]. split; [intros; by apply normalize_render|].
  intros Habs cwd'. rewrite normalize_path_eq by done. unfold dir_of. by rewrite Habs.
Qed.
Lemma paths_are_normalized_witness :
  exists e, leads [lit "usr"; lit "lib"] (lit "../bin//./sh") e /\ normalize_path (lit "/usr/lib") (lit "../bin//./sh") = Ok (render e) /\ render e = lit "/usr/bin/sh".
Proof.
  destruct (paths_are_normalized (lit "/usr/lib") (lit "../bin//./sh")) as (_ & _ & H). destruct (H ltac:(discriminate)) as (dir & e & Hd & Hl & _ & _ & Hp & _).
  change (starts_with (lit "../bin//./sh") (lit "/")) with false in Hd. cbv iota in Hd. apply leads_unique in Hd. change (go [] (lit "/usr/lib")) with [lit "usr"; lit "lib"] in Hd. subst dir.
  exists e. split; [exact Hl|]. split; [exact Hp|]. assert (E : normalize_path (lit "/usr/lib") (lit "../bin//./sh") = Ok (lit "/usr/bin/sh")) by reflexivity.
  rewrite Hp in E. injection E as E. exact E.
Defined.

(** Paths compose: following [a/b] is following [a] and then [b] from there.  In
    particular [..] leads to the directory [split_parent] names, and its name leads back. *)
Theorem paths_compose cwd a b :
  a <> [] -> b <> [] -> starts_with b (lit "/") = false ->
  normalize_path cwd (a ++ SLASH :: b) = match normalize_path cwd a with Ok p => normalize_path p b | Err e => Err e end /\
  (forall parts n, Forall name parts -> name n ->
     let p := render (parts ++ [n]) in
     normalize_path p (lit "..") = Ok (split_parent p).1 /\ normalize_path (split_parent p).1 (split_parent p).2 = Ok p).
Proof.
  intros Ha Hb Hrel. split.
  - rewrite !normalize_path_eq by (done || by destruct a). rewrite go_app.
    assert (dir_of cwd (a ++ SLASH :: b) = dir_of cwd a) as ->.
    { unfold dir_of. destruct a as [|x a]; [done|]. cbn [app]. by rewrite !starts_with_slash. }
    set (d := go (dir_of cwd a) a). assert (Hd : Forall name d) by apply go_names, dir_of_names.
    unfold dir_of at 1. by rewrite Hrel, (go_render [] d).
  - intros parts n Hp Hn. cbv zeta. rewrite split_parent_snoc by done. cbn [fst snd].
    rewrite !normalize_path_eq by (done || by destruct Hn). unfold dir_of. split.
    + cbn [starts_with strip_prefix]. replace (starts_with (lit "..") (lit "/")) with false by done.
      rewrite go_render by (apply Forall_app; split; [done|by apply Forall_singleton]). by rewrite go_dotdot, app_nil_l, removelast_last.
    + assert (starts_with n (lit "/") = false) as ->.
      { destruct (starts_with n _) eqn:E; [|done]. apply starts_with_app in E as [s' ->]. destruct Hn as (_ & Hs & _). set_solver. }
      rewrite go_render by done. unfold go. rewrite split_whole by apply Hn. cbn [foldl app]. by rewrite push_name.
Qed.
Lemma paths_compose_witness :
  normalize_path (lit "/") (lit "usr/../etc" ++ SLASH :: lit "./passwd") = Ok (lit "/etc/passwd").
Proof.
  destruct (paths_compose (lit "/") (lit "usr/../etc") (lit "./passwd") ltac:(discriminate) ltac:(discriminate) eq_refl) as [E _].
  rewrite E. reflexivity.
Defined.
