(* ===== verification/FsMount.v ===== *)
(** * The virtual file system: kernel/src/fs/vfs/{mod,mount,inode,filesystem}.rs

    The traits [FileSystem] and [Inode] are the class [Vfs] on the types of their objects.
    The mount table maps canonical paths to file systems; a path belongs to the mount whose
    target is its longest prefix, counted in names, and is then walked name by name. *)

From stdpp Require Import strings sorting.
From S2P Require Import Prelude Errno FsPath.
#[local] Open Scope Z_scope.

Record FsStatFs := mkStatFs {
  f_type : Z; f_bsize : Z; f_blocks : Z; f_bfree : Z; f_bavail : Z; f_files : Z; f_ffree : Z; f_namelen : Z; f_frsize : Z; f_flags : Z
}.

(** [read_at inode offset len] gives the bytes that are copied into a buffer of [len]
    bytes; their number is the result of the code. *)
Class Vfs (FileSystem Inode : Type) := {
  fs_name : FileSystem -> str;
  root : FileSystem -> Inode;
  statfs : FileSystem -> Result FsStatFs FsError;
  metadata : Inode -> Result Metadata FsError;
  lookup_child : Inode -> str -> Result Inode FsError;
  readdir : Inode -> Result (list DirEntry) FsError;
  read_at : Inode -> Z -> Z -> Result (list Z) FsError
}.

Section Mounts.
Context {FileSystem Inode : Type} `{Vfs FileSystem Inode}.

Record MountEntry := mkMountEntry { me_target : str; me_fs_name : str; me_source : option str }.
Record MountRecord := mkMountRecord { mr_fs : FileSystem; mr_source : option str }.
Record MountTable := mkTable { mounts : gmap str MountRecord }.

Definition mount_root (fs : FileSystem) (self : MountTable) : MountTable := mkTable (<[lit "/" := mkMountRecord fs None]> (mounts self)).

Definition mount (target : str) (fs : FileSystem) (source : option str) (self : MountTable) : Result unit FsError * MountTable :=
  match normalize_path (lit "/") target with
  | Err e => (Err e, self)
  | Ok normalized =>
      if bool_decide (normalized = lit "/") then (Ok tt, mount_root fs self)
      else match mounts self !! normalized with
      | Some _ => (Err Busy, self)
      | None => (Ok tt, mkTable (<[normalized := mkMountRecord fs source]> (mounts self)))
      end
  end.

Definition umount (target : str) (self : MountTable) : Result unit FsError * MountTable :=
  match normalize_path (lit "/") target with
  | Err e => (Err e, self)
  | Ok normalized =>
      if bool_decide (normalized = lit "/") then (Err Busy, self)
      else match mounts self !! normalized with
      | Some _ => (Ok tt, mkTable (delete normalized (mounts self)))
      | None => (Err NotFound, self)
      end
  end.

(** The order of a [BTreeMap] with string keys. *)
Fixpoint str_le (a b : str) : bool :=
  match a, b with
  | [], _ => true
  | _, [] => false
  | x :: a', y :: b' => (x <? y) || ((x =? y) && str_le a' b')
  end.
Definition key_le (a b : str * MountRecord) : Prop := str_le a.1 b.1 = true.
#[export] Instance key_le_dec a b : Decision (key_le a b).
Proof. unfold key_le. apply _. Defined.
Definition entries (self : MountTable) : list (str * MountRecord) :=
  merge_sort key_le (map_to_list (mounts self)).

(** Whether the normalised path lies on or below the target. *)
Definition covers (target normalized : str) : bool :=
  bool_decide (target = lit "/") || bool_decide (normalized = target) ||
  (starts_with normalized target && match normalized !! length target with Some b => b =? SLASH | None => false end).

Fixpoint resolve_loop (normalized : str) (l : list (str * MountRecord)) (best : option (str * FileSystem)) : option (str * FileSystem) :=
  match l with
  | [] => best
  | (target, record) :: l' =>
      resolve_loop normalized l'
        (if covers target normalized then
           match best with
           | Some (old, fs) => if Nat.leb (length target) (length old) then best else Some (target, mr_fs record)
           | None => Some (target, mr_fs record)
           end
         else best)
  end.

Definition resolve (path : str) (self : MountTable) : option (str * FileSystem) :=
  match normalize_path (lit "/") path with
  | Err _ => None
  | Ok normalized => resolve_loop normalized (entries self) None
  end.

Definition snapshot (self : MountTable) : list MountEntry :=
  (fun '(target, record) => mkMountEntry target (fs_name (mr_fs record)) (mr_source record)) <$> entries self.

(** ** Looking up a path *)
Fixpoint walk (inode : Inode) (comps : list str) : Result Inode FsError :=
  match comps with
  | [] => Ok inode
  | comp :: comps' =>
      if bool_decide (comp = []) || bool_decide (comp = lit ".") then walk inode comps'
      else match lookup_child inode comp with Ok inode' => walk inode' comps' | Err e => Err e end
  end.

Definition strip_slash (rel : str) : str := match strip_prefix (lit "/") rel with Some r => r | None => rel end.

Definition lookup_path (table : MountTable) (path : str) : Result Inode FsError :=
  match resolve path table with
  | None => Err NotFound
  | Some (mount_target, fs) =>
      let inode := root fs in
      if negb (bool_decide (mount_target = lit "/")) then
        match strip_prefix mount_target path with
        | None => Err NotFound
        | Some rel => walk inode (split SLASH (strip_slash rel))
        end
      else walk inode (split SLASH (strip_slash path))
  end.

(** ** Targets as lists of names *)
Definition table_ok (self : MountTable) : Prop := map_Forall (fun target _ => canonical target) (mounts self).
(** The file system mounted on a directory. *)
Definition mounted (self : MountTable) (dir : list str) : option FileSystem := mr_fs <$> mounts self !! render dir.

Lemma render_inj a b : Forall name a -> Forall name b -> render a = render b -> a = b.
Proof. intros Ha Hb E. apply (f_equal (go [])) in E. by rewrite !go_render in E. Qed.
Lemma go_root path : go (dir_of (lit "/") path) path = go [] path.
Proof. unfold dir_of. by destruct (starts_with _ _). Qed.

Lemma slashed_nil parts : slashed parts = [] -> parts = [].
Proof. by destruct parts. Qed.
Lemma render_slashed parts : parts <> [] -> render parts = slashed parts.
Proof. by destruct parts. Qed.
Lemma slashed_prefix ts ps : Forall name ts -> Forall name ps ->
  (exists s, slashed ps = slashed ts ++ s /\ (s = [] \/ exists s', s = SLASH :: s')) <-> ts `prefix_of` ps.
Proof.
  intros Ht Hp. split.
  - revert ps Hp. induction Ht as [|t ts Hn Ht IH]; intros ps Hp (s & E & Hs); [apply prefix_nil|]. destruct Hp as [|p ps Hn' Hp]; [done|].
    cbn [slashed] in E. injection E as E. rewrite <- app_assoc in E.
    assert (Hcut : forall q (r : str), r = [] \/ (exists r', r = SLASH :: r') -> SLASH ∉ q -> exists rest, split SLASH (q ++ r) = q :: rest).
    { intros q r [->|[r' ->]] Hq; [exists []; rewrite app_nil_r; by apply split_whole|]. rewrite split_app, split_whole by done. by exists (split SLASH r'). }
    assert (Hr : forall l : list str, slashed l = [] \/ exists s', slashed l = SLASH :: s') by (intros [|x l]; [by left|right; by eexists]).
    assert (Hr2 : slashed ts ++ s = [] \/ exists s', slashed ts ++ s = SLASH :: s') by (destruct (Hr ts) as [->|[s' ->]]; [done|right; by eexists]).
    destruct (Hcut p (slashed ps) (Hr ps) ltac:(apply Hn')) as [r1 E1]. destruct (Hcut t (slashed ts ++ s) Hr2 ltac:(apply Hn)) as [r2 E2].
    rewrite E, E2 in E1. injection E1 as -> _. apply app_inv_head in E. apply prefix_cons, IH; [done|]. by exists s.
  - intros [l ->]. exists (slashed l). split; [apply slashed_app|]. destruct l; [by left|right]. by eexists.
Qed.
Lemma slashed_length_lt ts ps : Forall name ps -> ts <> ps -> ts `prefix_of` ps -> (length (render ts) < length (render ps))%nat.
Proof.
  intros Hp Hne [l ->]. destruct l as [|x l]; [by rewrite app_nil_r in Hne|]. apply Forall_app in Hp as [_ Hx]. apply Forall_cons in Hx as [Hx _].
  destruct Hx as [Hx _]. destruct x as [|c x]; [done|].
  destruct ts as [|t ts]; [cbn; lia|]. unfold render. cbn [app slashed length]. rewrite slashed_app, !length_app. cbn [slashed length]. lia.
Qed.
Lemma covers_prefix ts ps : Forall name ts -> Forall name ps -> covers (render ts) (render ps) = true <-> ts `prefix_of` ps.
Proof.
  intros Ht Hp. unfold covers. destruct (decide (ts = [])) as [->|Hne].
  { rewrite bool_decide_eq_true_2 by done. split; [intros _; apply prefix_nil|done]. }
  rewrite (bool_decide_eq_false_2 (render ts = lit "/")) by (intros E; by apply (render_inj ts []) in E). cbn [orb].
  rewrite orb_true_iff, bool_decide_eq_true, andb_true_iff, starts_with_app.
  destruct (decide (ps = [])) as [->|Hne'].
  { split.
    - intros [E|[[s' E] _]]; [by apply (render_inj [] ts) in E; subst|]. apply (f_equal length) in E. rewrite length_app in E.
      pose proof (slashed_length_lt [] ts Ht (not_eq_sym Hne) (prefix_nil ts)). lia.
    - by intros ->%prefix_nil_inv. }
  rewrite <- (slashed_prefix ts ps) by done. rewrite !render_slashed by done. split.
  - intros [E|[[s E] Hb]]; [exists []; rewrite app_nil_r; split; [done|by left]|]. exists s. split; [done|]. rewrite E in Hb.
    rewrite lookup_app_r in Hb by lia. rewrite Nat.sub_diag in Hb. destruct s as [|b s]; [done|]. cbn in Hb. apply Z.eqb_eq in Hb as ->. right. by eexists.
  - intros (s & E & [->|[s' ->]]); [left; by rewrite E, app_nil_r|]. right. split; [by eexists|]. rewrite E, lookup_app_r, Nat.sub_diag by lia. done.
Qed.

(** What the scan keeps: a target that covers the path, none that does is longer. *)
Lemma resolve_loop_spec normalized l best :
  match resolve_loop normalized l best with
  | None => best = None /\ forall t rec, (t, rec) ∈ l -> covers t normalized = false
  | Some (t, fs) =>
      (best = Some (t, fs) \/ exists rec, (t, rec) ∈ l /\ covers t normalized = true /\ fs = mr_fs rec) /\
      (forall t' rec', (t', rec') ∈ l -> covers t' normalized = true -> (length t' <= length t)%nat) /\
      (forall b, best = Some b -> (length b.1 <= length t)%nat)
  end.
Proof.
  revert best. induction l as [|[t rec] l IH]; intros best; cbn [resolve_loop].
  { destruct best as [[t fs]|]; [|split; [done|by intros ? ? []%elem_of_nil]]. split; [by left|]. split; [by intros ? ? []%elem_of_nil|]. by intros ? [= <-]. }
  set (best' := if covers t normalized then _ else best). specialize (IH best'). destruct (resolve_loop _ l best') as [[u fs]|] eqn:Hr.
  - destruct IH as (H1 & H2 & H3).
    assert (Hb : (covers t normalized = true -> (length t <= length u)%nat) /\ (forall b, best = Some b -> (length b.1 <= length u)%nat)).
    { unfold best' in H3. destruct (covers t normalized); [|split; [done|exact H3]]. destruct best as [[old ofs]|].
      - destruct (Nat.leb_spec (length t) (length old)); specialize (H3 _ eq_refl); cbn in H3; (split; [lia|]; intros ? [= <-]; cbn; lia).
      - specialize (H3 _ eq_refl). cbn in H3. split; [done|done]. }
    split; [|split; [|apply Hb]].
    + destruct H1 as [H1|(r & Hin & Hc & ->)]; [|right; exists r; split; [set_solver|done]]. unfold best' in H1.
      destruct (covers t normalized) eqn:Hc; [|by left]. destruct best as [[old ofs]|]; [destruct (Nat.leb _ _); [by left|]|];
        injection H1 as <- <-; right; exists rec; (split; [set_solver|done]).
    + intros t' rec' [[= -> ->]|Hin]%elem_of_cons Hc; [by apply Hb|by eapply H2].
  - destruct IH as [H1 H2]. unfold best' in H1. destruct (covers t normalized) eqn:Hc.
    + destruct best as [[old ofs]|]; [by destruct (Nat.leb _ _)|done].
    + split; [done|]. intros t' rec' [[= -> ->]|Hin]%elem_of_cons; [done|by eapply H2].
Qed.

Lemma elem_of_entries t rec self : (t, rec) ∈ entries self <-> mounts self !! t = Some rec.
Proof. unfold entries. rewrite merge_sort_Permutation. apply elem_of_map_to_list. Qed.

(** The directory of the longest mounted prefix of a directory. *)
Definition longest_mount (self : MountTable) (ps ts : list str) : Prop :=
  ts `prefix_of` ps /\ forall ts', ts' `prefix_of` ps -> is_Some (mounted self ts') -> ts' `prefix_of` ts.

Lemma resolve_names self ps :
  table_ok self -> Forall name ps ->
  match resolve_loop (render ps) (entries self) None with
  | Some (target, fs) => exists ts, target = render ts /\ mounted self ts = Some fs /\ longest_mount self ps ts
  | None => forall ts, ts `prefix_of` ps -> mounted self ts = None
  end.
Proof.
  intros Hok Hps. pose proof (resolve_loop_spec (render ps) (entries self) None) as Hr. destruct (resolve_loop _ _ _) as [[t fs]|].
  - destruct Hr as ([Hbad|(rec & Hin & Hc & ->)] & Hmax & _); [done|]. apply elem_of_entries in Hin. destruct (Hok t rec Hin) as (ts & Hts & ->).
    apply covers_prefix in Hc; [|done|done]. exists ts. split; [done|]. split; [unfold mounted; by rewrite Hin|]. split; [done|].
    intros ts' Hpre [fs' Hm]. unfold mounted in Hm. apply fmap_Some in Hm as (rec' & Hm & ->).
    assert (Hts' : Forall name ts') by (destruct Hpre as [l ->]; by apply Forall_app in Hps as [? _]).
    assert (Hle : (length (render ts') <= length (render ts))%nat) by (eapply Hmax; [by apply elem_of_entries|by apply covers_prefix]).
    destruct (prefix_weak_total _ _ _ Hpre Hc) as [?|Hpre']; [done|]. destruct (decide (ts = ts')) as [->|Hne]; [done|].
    pose proof (slashed_length_lt ts ts' Hts' Hne Hpre'). lia.
  - destruct Hr as [_ Hnone]. intros ts Hpre. unfold mounted. destruct (mounts self !! render ts) as [rec|] eqn:E; [|done]. exfalso.
    assert (Hts : Forall name ts) by (destruct Hpre as [l ->]; by apply Forall_app in Hps as [? _]).
    assert (covers (render ts) (render ps) = true) as Hc by (by apply covers_prefix). rewrite (Hnone (render ts) rec) in Hc; [done|by apply elem_of_entries].
Qed.

Lemma canonical_go path : canonical (render (go [] path)).
Proof. exists (go [] path). split; [by apply go_names|done]. Qed.
Lemma normalize_root path : path <> [] -> normalize_path (lit "/") path = Ok (render (go [] path)).
Proof. intros Hne. by rewrite normalize_path_eq, go_root. Qed.
Lemma mounted_insert self dir rec d :
  Forall name dir -> Forall name d -> mounted (mkTable (<[render dir := rec]> (mounts self))) d = if decide (d = dir) then Some (mr_fs rec) else mounted self d.
Proof.
  intros Hdir Hd. unfold mounted. cbn [mounts]. case_decide as Heq; [subst; by rewrite lookup_insert_eq|]. rewrite lookup_insert_ne; [done|].
  intros E. apply Heq. by apply render_inj.
Qed.
Lemma mounted_delete self dir d :
  Forall name dir -> Forall name d -> mounted (mkTable (delete (render dir) (mounts self))) d = if decide (d = dir) then None else mounted self d.
Proof.
  intros Hdir Hd. unfold mounted. cbn [mounts]. case_decide as Heq; [subst; by rewrite lookup_delete_eq|]. rewrite lookup_delete_ne; [done|].
  intros E. apply Heq. by apply render_inj.
Qed.
Lemma mounted_lookup self dir : mounted self dir = None <-> mounts self !! render dir = None.
Proof. unfold mounted. by rewrite fmap_None. Qed.

(** Mounting and unmounting act on the map from directories to file systems: one directory
    gets or loses its file system, and a refused call changes nothing. *)
Lemma mount_ok self target fs source :
  table_ok self -> target <> [] ->
  let dir := go [] target in
  let (r, self') := mount target fs source self in
  table_ok self' /\
  (r = Ok tt /\ (dir = [] \/ mounted self dir = None) /\
     (forall d, Forall name d -> mounted self' d = if decide (d = dir) then Some fs else mounted self d) \/
   r = Err Busy /\ dir <> [] /\ is_Some (mounted self dir) /\ self' = self).
Proof.
  intros Hok Hne. cbv zeta. set (dir := go [] target). assert (Hd : Forall name dir) by (by apply go_names).
  unfold mount. rewrite normalize_root by done. fold dir. case_bool_decide as Hr.
  { apply (render_inj dir []) in Hr; [|done|done]. unfold mount_root. split.
    - apply map_Forall_insert_2; [by exists []|done].
    - left. split; [done|]. split; [by left|]. intros d Hn. rewrite Hr. apply (mounted_insert self []); done. }
  assert (Hdne : dir <> []) by (intros E; apply Hr; by rewrite E). destruct (mounts self !! render dir) as [rec|] eqn:E.
  - split; [done|]. right. split; [done|]. split; [done|]. split; [|done]. unfold mounted. by rewrite E.
  - split; [apply map_Forall_insert_2; [by exists dir|done]|]. left. split; [done|]. split; [right; by apply mounted_lookup|].
    intros d Hn. by apply mounted_insert.
Qed.
Lemma umount_ok self target :
  table_ok self -> target <> [] ->
  let dir := go [] target in
  let (r, self') := umount target self in
  table_ok self' /\
  (r = Ok tt /\ dir <> [] /\ is_Some (mounted self dir) /\
     (forall d, Forall name d -> mounted self' d = if decide (d = dir) then None else mounted self d) \/
   r = Err Busy /\ dir = [] /\ self' = self \/
   r = Err NotFound /\ dir <> [] /\ mounted self dir = None /\ self' = self).
Proof.
  intros Hok Hne. cbv zeta. set (dir := go [] target). assert (Hd : Forall name dir) by (by apply go_names).
  unfold umount. rewrite normalize_root by done. fold dir. case_bool_decide as Hr.
  { apply (render_inj dir []) in Hr; [|done|done]. split; [done|]. right. by left. }
  assert (Hdne : dir <> []) by (intros E; apply Hr; by rewrite E). destruct (mounts self !! render dir) as [rec|] eqn:E.
  - split; [by apply map_Forall_delete|]. left. split; [done|]. split; [done|]. split; [unfold mounted; by rewrite E|].
    intros d Hn. by apply mounted_delete.
  - split; [done|]. right. right. split; [done|]. split; [done|]. split; [by apply mounted_lookup|done].
Qed.

(** ** Looking up *)
Lemma walk_names inode comps : walk inode ([] :: comps) = walk inode comps.
Proof. done. Qed.
Lemma strip_slash_slashed parts : parts <> [] -> Forall name parts -> split SLASH (strip_slash (slashed parts)) = parts.
Proof.
  intros Hne Hn. pose proof (split_slashed parts (names_no_slash _ Hn) Hne) as E. destruct parts as [|p ps]; [done|].
  cbn [slashed] in *. rewrite split_cons_sep in E. injection E as E. unfold strip_slash. change (lit "/") with [SLASH]. cbn [strip_prefix].
  by rewrite Z.eqb_refl.
Qed.
Lemma walk_below inode rest : Forall name rest -> walk inode (split SLASH (strip_slash (slashed rest))) = walk inode rest.
Proof. intros Hn. destruct (decide (rest = [])) as [->|Hne]; [done|]. by rewrite strip_slash_slashed. Qed.

Lemma lookup_path_ok self ps :
  table_ok self -> Forall name ps ->
  (forall ts, ts `prefix_of` ps -> mounted self ts = None) /\ lookup_path self (render ps) = Err NotFound \/
  exists ts fs rest, ps = ts ++ rest /\ mounted self ts = Some fs /\ longest_mount self ps ts /\ lookup_path self (render ps) = walk (root fs) rest.
Proof.
  intros Hok Hn. unfold lookup_path, resolve. rewrite normalize_render by done. pose proof (resolve_names self ps Hok Hn) as Hr.
  destruct (resolve_loop _ _ _) as [[target fs]|]; [|by left]. right. destruct Hr as (ts & -> & Hm & Hl). pose proof Hl as [[rest ->] _].
  exists ts, fs, rest. split; [done|]. split; [done|]. split; [done|]. apply Forall_app in Hn as [Hts Hrest].
  case_bool_decide as Hroot; cbn [negb].
  - apply (render_inj ts []) in Hroot as ->; [|done|done]. cbn [app]. destruct (decide (rest = [])) as [->|Hne]; [done|].
    rewrite render_slashed by done. by apply walk_below.
  - assert (Hne : ts <> []) by (intros ->; done). rewrite (render_slashed ts), render_slashed, slashed_app by (try done; by destruct ts).
    assert (strip_prefix (slashed ts) (slashed ts ++ slashed rest) = Some (slashed rest)) as -> by (by apply strip_prefix_app). by apply walk_below.
Qed.

(** C24. The virtual file system finds the file a path names.  Mounting puts a file system on
    exactly one directory, the root may be replaced and any other directory is refused with
    [Busy] when it has one; unmounting removes it, but never from the root; refused calls
    change nothing.  A canonical path is looked up in the file system mounted on its longest
    prefix, name by name from that file system's root, and is not found when nothing is
    mounted on its way. *)
Theorem lookup_follows_the_longest_mount self ps target fs source :
  table_ok self -> Forall name ps -> target <> [] ->
  ((forall ts, ts `prefix_of` ps -> mounted self ts = None) /\ lookup_path self (render ps) = Err NotFound \/
   exists ts g rest, ps = ts ++ rest /\ mounted self ts = Some g /\ longest_mount self ps ts /\ lookup_path self (render ps) = walk (root g) rest) /\
  (let (r, self') := mount target fs source self in
   table_ok self' /\
   (r = Ok tt /\ (go [] target = [] \/ mounted self (go [] target) = None) /\
      (forall d, Forall name d -> mounted self' d = if decide (d = go [] target) then Some fs else mounted self d) \/
    r = Err Busy /\ go [] target <> [] /\ is_Some (mounted self (go [] target)) /\ self' = self)) /\
  (let (r, self') := umount target self in
   table_ok self' /\
   (r = Ok tt /\ go [] target <> [] /\ is_Some (mounted self (go [] target)) /\
      (forall d, Forall name d -> mounted self' d = if decide (d = go [] target) then None else mounted self d) \/
    r = Err Busy /\ go [] target = [] /\ self' = self \/
    r = Err NotFound /\ go [] target <> [] /\ mounted self (go [] target) = None /\ self' = self)).
Proof.
  intros Hok Hn Hne. split; [by apply lookup_path_ok|]. split; [by apply mount_ok|by apply umount_ok].
Qed.
End Mounts.

(** ** Three mounts *)
(** A file system whose inodes are the names walked from its root. *)
#[local] Instance trace_vfs : Vfs str (str * list str) := {|
  fs_name := id;
  root fs := (fs, []);
  statfs _ := Err NotSupported;
  metadata _ := Err NotSupported;
  lookup_child i n := Ok (i.1, i.2 ++ [n]);
  readdir _ := Err NotSupported;
  read_at _ _ _ := Err NotSupported
|}.
Definition ex_mounts : MountTable :=
  mkTable {[ lit "/" := mkMountRecord (lit "rootfs") None; lit "/mnt" := mkMountRecord (lit "fat32") None;
             lit "/mnt/a" := mkMountRecord (lit "ext4") None ]}.
Lemma ex_mounts_ok : table_ok ex_mounts.
Proof.
  intros t rec Ht. unfold ex_mounts in Ht. cbn [mounts] in Ht. repeat (apply lookup_insert_Some in Ht as [[<- _]|[_ Ht]]); [| |apply lookup_singleton_Some in Ht as [<- _]].
  - exists []. by split.
  - exists [lit "mnt"]. split; [|reflexivity]. repeat constructor; by apply (bool_decide_unpack _).
  - exists [lit "mnt"; lit "a"]. split; [|reflexivity]. repeat constructor; by apply (bool_decide_unpack _).
Qed.

Lemma lookup_follows_the_longest_mount_witness :
  exists g rest, lookup_path ex_mounts (lit "/mnt/ab/c") = walk (root g) rest /\ g = lit "fat32" /\ rest = [lit "ab"; lit "c"].
Proof.
  assert (Hn : Forall name [lit "mnt"; lit "ab"; lit "c"]) by (repeat constructor; by apply (bool_decide_unpack _)).
  destruct (lookup_follows_the_longest_mount ex_mounts [lit "mnt"; lit "ab"; lit "c"] (lit "/dev") (lit "devfs") None ex_mounts_ok Hn ltac:(discriminate)) as [[[_ Hbad]|Hl] _].
  - exfalso. vm_compute in Hbad. discriminate.
  - destruct Hl as (ts & g & rest & Hps & Hm & _ & Hl). change (render [lit "mnt"; lit "ab"; lit "c"]) with (lit "/mnt/ab/c") in Hl.
    assert (E : lookup_path ex_mounts (lit "/mnt/ab/c") = Ok (lit "fat32", [lit "ab"; lit "c"])) by (vm_compute; reflexivity).
    assert (Hw : forall i comps, Forall name comps -> walk i comps = Ok (i.1, i.2 ++ comps)).
    { intros [f l] comps Hc. revert l. induction Hc as [|c comps (H1 & _ & H2 & _) _ IH]; intros l; cbn; [by rewrite app_nil_r|].
      rewrite !bool_decide_eq_false_2 by done. cbn. rewrite IH. cbn. by rewrite <- app_assoc. }
    assert (Hrest : Forall name rest) by (rewrite Hps in Hn; by apply Forall_app in Hn as [_ ?]).
    rewrite Hl, Hw in E by exact Hrest. cbn in E. injection E as E1 E2. exists g, rest. split; [exact Hl|]. split; [exact E1|exact E2].
Defined.
