(* ===== verification/FsTable.v ===== *)
(** * Open files and pipes: kernel/src/fs/runtime/manager.rs

    The state of the file-system runtime: the descriptor table of every process, the pipes,
    the working directories and the files behind memory mappings.  All operations run under
    one lock; each is a function on the state that returns a result or an error number.  The
    search for a free descriptor is the only loop that may not end, so the operations that
    allocate one return [exec].  The mount table, the files of the boot archive and what the
    kernel knows of processes and of the terminal are arguments.

    A buffer that an operation fills is given by its length, and the result is the list of
    bytes copied into it.  The discovery and mounting of
    partitions are in FsBoot.v. *)

From stdpp Require Import strings.
From S2P Require Import Prelude Errno FsPath FsMount.
#[local] Open Scope Z_scope.

Definition FIRST_USER_FD : Z := 3.
Definition O_CLOEXEC : Z := 524288.
Definition O_NONBLOCK : Z := 2048.
Definition O_DIRECTORY : Z := 65536.
Definition O_ACCMODE : Z := 3.
Definition O_RDONLY : Z := 0.
Definition O_WRONLY : Z := 1.
Definition S_IFIFO : Z := 4096.
Definition S_IFCHR : Z := 8192.
Definition POLLIN : Z := 1.
Definition POLLOUT : Z := 4.
Definition POLLERR : Z := 8.
Definition POLLHUP : Z := 16.
Definition POLLNVAL : Z := 32.
Definition DT_UNKNOWN : Z := 0.
Definition DT_DIR : Z := 4.
Definition DT_REG : Z := 8.

(** [i32] and [i64]: saturation, the cast [as i64] and checked addition. *)
Definition I32_MAX : Z := 2147483647.
Definition saturating_add_i32 (a b : Z) : Z := Z.max (- 2147483648) (Z.min I32_MAX (a + b)).
Definition as_i64 (a : Z) : Z := (a + 9223372036854775808) mod u64_size - 9223372036854775808.
Definition saturating_add_i64 (a b : Z) : Z := Z.max (- 9223372036854775808) (Z.min 9223372036854775807 (a + b)).
Definition checked_add_i64 (a b : Z) : option Z :=
  if (- 9223372036854775808 <=? a + b) && (a + b <=? 9223372036854775807) then Some (a + b) else None.
Definition not32 (a : Z) : Z := Z.lxor a 4294967295.
Definition has (flags flag : Z) : bool := negb (Z.land flags flag =? 0).

(** Decimal numbers, as [format!] writes them; twenty digits are enough for 64 bits. *)
Fixpoint decimal_loop (fuel : nat) (n : Z) (out : str) : str :=
  match fuel with
  | O => out
  | S fuel' => let out := (48 + n mod 10) :: out in if n <? 10 then out else decimal_loop fuel' (n / 10) out
  end.
Definition decimal (n : Z) : str := decimal_loop 20 n [].

Record FsStat := mkStat { st_dev : Z; st_ino : Z; st_mode : Z; st_nlink : Z; st_rdev : Z; st_size : Z; st_blksize : Z; st_blocks : Z }.

Section Fs.
Context {FileSystem Inode : Type} `{Vfs FileSystem Inode}.

(** ** State *)
Record DirOpenFile := mkDir {
  dir_cursor : Z; dir_cloexec : bool; dir_fs : FileSystem; dir_path : str; dir_inode : Inode; dir_ino : Z; dir_mode : Z
}.
Record VfsOpenFile := mkVfs {
  vfs_fs : FileSystem; vfs_inode : Inode; vfs_ino : Z; vfs_mode : Z; static_data : option (list Z); offset : Z; vfs_cloexec : bool
}.
Record VfsOpenHint := mkHint { hint_fs : FileSystem; hint_inode : Inode; hint_meta : Metadata; hint_static_data : option (list Z) }.

Inductive OpenFile :=
| OpenVfs (file : VfsOpenFile)
| OpenDir (dir : DirOpenFile)
| PipeRead (pipe_id : Z) (nonblocking cloexec : bool)
| PipeWrite (pipe_id : Z) (nonblocking cloexec : bool).

Record PipeState := mkPipe { data : list Z; readers : Z; writers : Z }.
Definition pipe_new : PipeState := mkPipe [] 1 1.
Record MmapBacking := mkBacking { mb_inode : Inode; mb_static_data : option (list Z); mb_refs : Z }.

Record FsState := mkFs {
  open_files : gmap Z (gmap Z OpenFile);
  next_fd : gmap Z Z;
  cwd : gmap Z str;
  next_pipe_id : Z;
  pipes : gmap Z PipeState;
  next_mmap_backing_id : Z;
  mmap_backings : gmap Z MmapBacking
}.
Definition fs_new : FsState := mkFs ∅ ∅ ∅ 1 ∅ 1 ∅.

Definition set_open_files (x : gmap Z (gmap Z OpenFile)) (s : FsState) : FsState :=
  mkFs x (next_fd s) (cwd s) (next_pipe_id s) (pipes s) (next_mmap_backing_id s) (mmap_backings s).
Definition set_next_fd (x : gmap Z Z) (s : FsState) : FsState :=
  mkFs (open_files s) x (cwd s) (next_pipe_id s) (pipes s) (next_mmap_backing_id s) (mmap_backings s).
Definition set_cwd (x : gmap Z str) (s : FsState) : FsState :=
  mkFs (open_files s) (next_fd s) x (next_pipe_id s) (pipes s) (next_mmap_backing_id s) (mmap_backings s).
Definition set_next_pipe_id (x : Z) (s : FsState) : FsState :=
  mkFs (open_files s) (next_fd s) (cwd s) x (pipes s) (next_mmap_backing_id s) (mmap_backings s).
Definition set_pipes (x : gmap Z PipeState) (s : FsState) : FsState :=
  mkFs (open_files s) (next_fd s) (cwd s) (next_pipe_id s) x (next_mmap_backing_id s) (mmap_backings s).
Definition set_backings (n : Z) (x : gmap Z MmapBacking) (s : FsState) : FsState :=
  mkFs (open_files s) (next_fd s) (cwd s) (next_pipe_id s) (pipes s) n x.

(** The descriptor [fd] of the process [pid]; its entry in the table, with
    [or_insert_with] for the table. *)
Definition file_of (pid fd : Z) (s : FsState) : option OpenFile := table ← open_files s !! pid; table !! fd.
Definition table_of (pid : Z) (s : FsState) : gmap Z OpenFile := default ∅ (open_files s !! pid).
Definition insert_file (pid fd : Z) (f : OpenFile) (s : FsState) : FsState :=
  set_open_files (<[pid := <[fd := f]> (table_of pid s)]> (open_files s)) s.

(** ** Descriptors *)
Fixpoint free_fd_loop (fuel : nat) (table : gmap Z OpenFile) (fd : Z) : exec Z :=
  match fuel with
  | O => OutOfFuel
  | S fuel' => match table !! fd with Some _ => free_fd_loop fuel' table (saturating_add_i32 fd 1) | None => Ret fd end
  end.

Definition alloc_fd_from (pid min_fd : Z) (s : FsState) : exec (Z * FsState) :=
  let start := Z.max min_fd FIRST_USER_FD in
  let next := default start (next_fd s !! pid) in
  let next := if next <? start then start else next in
  let table := table_of pid s in
  fd ← free_fd_loop (S (size table)) table next;
  Ret (fd, set_next_fd (<[pid := saturating_add_i32 fd 1]> (next_fd s)) (set_open_files (<[pid := table]> (open_files s)) s)).

Definition alloc_fd (pid : Z) (s : FsState) : exec (Z * FsState) := alloc_fd_from pid FIRST_USER_FD s.

(** ** Paths of a process *)
Definition ensure_cwd (pid : Z) (s : FsState) : FsState :=
  match cwd s !! pid with Some _ => s | None => set_cwd (<[pid := lit "/"]> (cwd s)) s end.
Definition cwd_for_pid (pid : Z) (s : FsState) : str * FsState :=
  let s := ensure_cwd pid s in (default (lit "/") (cwd s !! pid), s).
Definition getcwd_for_pid (pid : Z) (s : FsState) : str * FsState := cwd_for_pid pid s.

(** [proc_self_target_pid] looks the process up in the process table. *)
Definition rewrite_proc_self_path (target_pid : option Z) (path : str) : str :=
  match target_pid with
  | None => path
  | Some p =>
      if bool_decide (path = lit "/proc/self") then lit "/proc/" ++ decimal p
      else match strip_prefix (lit "/proc/self/") path with
      | Some rest => lit "/proc/" ++ decimal p ++ lit "/" ++ rest
      | None => path
      end
  end.

Definition resolve_path_for_pid (proc_self_target_pid : Z -> option Z) (pid : Z) (input : str) (s : FsState) : Result str Z * FsState :=
  let (dir, s) := cwd_for_pid pid s in
  match manager_normalize_path dir input with
  | Err e => (Err e, s)
  | Ok normalized => (Ok (rewrite_proc_self_path (proc_self_target_pid pid) normalized), s)
  end.

(** ** Opening *)
Definition open_for_pid (proc_self_target_pid : Z -> option Z) (pid : Z) (path : str) (flags : Z) (hint : VfsOpenHint) (s : FsState) :
    exec (Result Z Z * FsState) :=
  let (r, s) := resolve_path_for_pid proc_self_target_pid pid path s in
  match r with
  | Err e => Ret (Err e, s)
  | Ok _ =>
      let allowed := Z.lor (Z.lor O_ACCMODE O_CLOEXEC) O_DIRECTORY in
      if has flags (not32 allowed) then Ret (Err EINVAL, s)
      else
        let cloexec := has flags O_CLOEXEC in
        let wants_dir := has flags O_DIRECTORY in
        let accmode := Z.land flags O_ACCMODE in
        if negb (accmode =? O_RDONLY) then Ret (Err EROFS, s)
        else
          let open_file :=
            match md_file_type (hint_meta hint) with
            | Directory => Ok (OpenDir (mkDir 0 cloexec (hint_fs hint) path (hint_inode hint) (md_ino (hint_meta hint)) (md_mode (hint_meta hint))))
            | Regular =>
                if wants_dir then Err ENOTDIR
                else Ok (OpenVfs (mkVfs (hint_fs hint) (hint_inode hint) (md_ino (hint_meta hint)) (md_mode (hint_meta hint))
                                    (hint_static_data hint) 0 cloexec))
            | _ => Err ENOENT
            end in
          match open_file with
          | Err e => Ret (Err e, s)
          | Ok f => '(fd, s) ← alloc_fd pid s; Ret (Ok fd, insert_file pid fd f s)
          end
  end.

Definition pipe2_for_pid (pid flags : Z) (s : FsState) : exec (Result (Z * Z) Z * FsState) :=
  let allowed := Z.lor O_NONBLOCK O_CLOEXEC in
  if has flags (not32 allowed) then Ret (Err EINVAL, s)
  else
    let nonblocking := has flags O_NONBLOCK in
    let cloexec := has flags O_CLOEXEC in
    let pipe_id := next_pipe_id s in
    let s := set_next_pipe_id (saturating_add64 (next_pipe_id s) 1) s in
    '(read_fd, s) ← alloc_fd pid s;
    '(write_fd, s) ← alloc_fd pid s;
    let s := insert_file pid read_fd (PipeRead pipe_id nonblocking cloexec) s in
    let s := insert_file pid write_fd (PipeWrite pipe_id nonblocking cloexec) s in
    Ret (Ok (read_fd, write_fd), set_pipes (<[pipe_id := pipe_new]> (pipes s)) s).

(** ** Reading and writing *)
(** The loop over a byte slice from [offset]. *)
Definition slice (d : list Z) (off len : Z) : list Z :=
  if Z.of_nat (length d) <=? off then [] else take (Z.to_nat (Z.min len (Z.of_nat (length d) - off))) (drop (Z.to_nat off) d).

Definition map_err {T} (r : Result T FsError) : Result T Z := match r with Ok t => Ok t | Err e => Err (errno e) end.

(** The bytes that the loop of [pop_front] moves into a buffer of [n] bytes. *)
Fixpoint pop_bytes (n : nat) (d : list Z) : list Z * list Z :=
  match n, d with
  | S n', b :: d' => let (out, rest) := pop_bytes n' d' in (b :: out, rest)
  | _, _ => ([], d)
  end.

Definition with_offset (x : Z) (f : VfsOpenFile) : VfsOpenFile :=
  mkVfs (vfs_fs f) (vfs_inode f) (vfs_ino f) (vfs_mode f) (static_data f) x (vfs_cloexec f).
Definition with_data (d : list Z) (p : PipeState) : PipeState := mkPipe d (readers p) (writers p).

Definition read_for_pid (pid fd out_len : Z) (s : FsState) : Result (list Z) Z * FsState :=
  match file_of pid fd s with
  | None => (Err EBADF, s)
  | Some open_file =>
      if out_len =? 0 then (Ok [], s)
      else match open_file with
      | OpenVfs f =>
          let r := match static_data f with
                   | Some d => Ok (slice d (offset f) out_len)
                   | None => map_err (read_at (vfs_inode f) (offset f) out_len)
                   end in
          match r with
          | Err e => (Err e, s)
          | Ok bytes => (Ok bytes, insert_file pid fd (OpenVfs (with_offset (saturating_add64 (offset f) (Z.of_nat (length bytes))) f)) s)
          end
      | PipeRead pipe_id nonblocking _ =>
          match pipes s !! pipe_id with
          | None => (Err EBADF, s)
          | Some pipe =>
              let (bytes, rest) := pop_bytes (Z.to_nat out_len) (data pipe) in
              let s := set_pipes (<[pipe_id := with_data rest pipe]> (pipes s)) s in
              if Nat.ltb 0 (length bytes) then (Ok bytes, s)
              else if writers pipe =? 0 then (Ok [], s)
              else (Err EAGAIN, s)
          end
      | OpenDir _ => (Err EISDIR, s)
      | PipeWrite _ _ _ => (Err EBADF, s)
      end
  end.

Definition write_for_pid (pid fd : Z) (bytes : list Z) (s : FsState) : Result Z Z * FsState :=
  match file_of pid fd s with
  | None => (Err EBADF, s)
  | Some open_file =>
      if bool_decide (bytes = []) then (Ok 0, s)
      else match open_file with
      | PipeWrite pipe_id _ _ =>
          match pipes s !! pipe_id with
          | None => (Err EBADF, s)
          | Some pipe =>
              if readers pipe =? 0 then (Err EPIPE, s)
              else (Ok (Z.of_nat (length bytes)), set_pipes (<[pipe_id := with_data (data pipe ++ bytes) pipe]> (pipes s)) s)
          end
      | OpenDir _ => (Err EISDIR, s)
      | _ => (Err EBADF, s)
      end
  end.

Definition read_at_for_pid (pid fd off out_len : Z) (s : FsState) : Result (list Z) Z :=
  match file_of pid fd s with
  | None => Err EBADF
  | Some open_file =>
      if out_len =? 0 then Ok []
      else match open_file with
      | OpenVfs f =>
          match static_data f with
          | Some d => Ok (slice d off out_len)
          | None => map_err (read_at (vfs_inode f) off out_len)
          end
      | OpenDir _ => Err EISDIR
      | _ => Err EBADF
      end
  end.

(** ** Closing *)
(** What the loss of a descriptor does to the pipes. *)
Definition release_pipe_end (f : OpenFile) (pipes : gmap Z PipeState) : gmap Z PipeState :=
  let drop_end pipe_id pipe' :=
    if (readers pipe' =? 0) && (writers pipe' =? 0) then delete pipe_id pipes else <[pipe_id := pipe']> pipes in
  match f with
  | PipeRead pipe_id _ _ =>
      match pipes !! pipe_id with
      | Some pipe => drop_end pipe_id (mkPipe (data pipe) (saturating_sub32 (readers pipe) 1) (writers pipe))
      | None => pipes
      end
  | PipeWrite pipe_id _ _ =>
      match pipes !! pipe_id with
      | Some pipe => drop_end pipe_id (mkPipe (data pipe) (readers pipe) (saturating_sub32 (writers pipe) 1))
      | None => pipes
      end
  | OpenDir _ | OpenVfs _ => pipes
  end.

Definition close_for_pid (pid fd : Z) (s : FsState) : Result unit Z * FsState :=
  match open_files s !! pid with
  | None => (Err EBADF, s)
  | Some table =>
      match table !! fd with
      | None => (Err EBADF, s)
      | Some open_file =>
          let s := set_open_files (<[pid := delete fd table]> (open_files s)) s in
          (Ok tt, set_pipes (release_pipe_end open_file (pipes s)) s)
      end
  end.

Definition drop_process_fds (pid : Z) (s : FsState) : FsState :=
  let s := match open_files s !! pid with
           | None => s
           | Some table =>
               set_pipes (foldl (fun p e => release_pipe_end e.2 p) (pipes s) (map_to_list table))
                 (set_open_files (delete pid (open_files s)) s)
           end in
  set_cwd (delete pid (cwd s)) (set_next_fd (delete pid (next_fd s)) s).

(** ** Duplicating *)
Definition duplicate_open_file (f : OpenFile) (s : FsState) : FsState :=
  match f with
  | PipeRead pipe_id _ _ =>
      match pipes s !! pipe_id with
      | Some pipe => set_pipes (<[pipe_id := mkPipe (data pipe) (saturating_add32 (readers pipe) 1) (writers pipe)]> (pipes s)) s
      | None => s
      end
  | PipeWrite pipe_id _ _ =>
      match pipes s !! pipe_id with
      | Some pipe => set_pipes (<[pipe_id := mkPipe (data pipe) (readers pipe) (saturating_add32 (writers pipe) 1)]> (pipes s)) s
      | None => s
      end
  | OpenVfs _ | OpenDir _ => s
  end.

Definition with_cloexec (c : bool) (f : OpenFile) : OpenFile :=
  match f with
  | OpenVfs f => OpenVfs (mkVfs (vfs_fs f) (vfs_inode f) (vfs_ino f) (vfs_mode f) (static_data f) (offset f) c)
  | OpenDir d => OpenDir (mkDir (dir_cursor d) c (dir_fs d) (dir_path d) (dir_inode d) (dir_ino d) (dir_mode d))
  | PipeRead pipe_id n _ => PipeRead pipe_id n c
  | PipeWrite pipe_id n _ => PipeWrite pipe_id n c
  end.

Definition dup_for_pid (pid oldfd min_newfd : Z) (cloexec : bool) (s : FsState) : exec (Result Z Z * FsState) :=
  match file_of pid oldfd s with
  | None => Ret (Err EBADF, s)
  | Some old_file =>
      let new_file := with_cloexec cloexec old_file in
      let s := duplicate_open_file new_file s in
      '(new_fd, s) ← alloc_fd_from pid min_newfd s;
      Ret (Ok new_fd, insert_file pid new_fd new_file s)
  end.

Definition dup2_for_pid (pid oldfd newfd : Z) (cloexec : bool) (s : FsState) : Result Z Z * FsState :=
  if newfd <? 0 then (Err EBADF, s)
  else if oldfd =? newfd then
    match file_of pid oldfd s with None => (Err EBADF, s) | Some _ => (Ok newfd, s) end
  else
    match file_of pid oldfd s with
    | None => (Err EBADF, s)
    | Some old_file =>
        let (_, s) := close_for_pid pid newfd s in
        let new_file := with_cloexec cloexec old_file in
        let s := duplicate_open_file new_file s in
        let s := insert_file pid newfd new_file s in
        let next := default FIRST_USER_FD (next_fd s !! pid) in
        let next := if next <=? newfd then saturating_add_i32 newfd 1 else next in
        (Ok newfd, set_next_fd (<[pid := next]> (next_fd s)) s)
    end.

(** ** Positions and flags *)
Definition lseek_for_pid (pid fd off whence : Z) (s : FsState) : Result Z Z * FsState :=
  match file_of pid fd s with
  | None => (Err EBADF, s)
  | Some (OpenVfs f) =>
      let size := match static_data f with
                  | Some d => as_i64 (Z.of_nat (length d))
                  | None => match metadata (vfs_inode f) with Ok md => as_i64 (md_size md) | Err _ => 0 end
                  end in
      let base := if whence =? 0 then Some 0 else if whence =? 1 then Some (as_i64 (offset f)) else if whence =? 2 then Some size else None in
      match base with
      | None => (Err EINVAL, s)
      | Some base =>
          match checked_add_i64 base off with
          | None => (Err EINVAL, s)
          | Some next =>
              if next <? 0 then (Err EINVAL, s)
              else (Ok next, insert_file pid fd (OpenVfs (with_offset next f)) s)
          end
      end
  | Some (OpenDir d) =>
      if negb (whence =? 0) || (off <? 0) then (Err EINVAL, s)
      else (Ok off, insert_file pid fd (OpenDir (mkDir off (dir_cloexec d) (dir_fs d) (dir_path d) (dir_inode d) (dir_ino d) (dir_mode d))) s)
  | Some (PipeRead _ _ _) | Some (PipeWrite _ _ _) => (Err ESPIPE, s)
  end.

Definition fd_is_nonblocking_for_pid (pid fd : Z) (s : FsState) : Result bool Z :=
  match file_of pid fd s with
  | None => Err EBADF
  | Some (OpenVfs _) | Some (OpenDir _) => Ok false
  | Some (PipeRead _ n _) | Some (PipeWrite _ n _) => Ok n
  end.

Definition fcntl_getfl_for_pid (pid fd : Z) (s : FsState) : Result Z Z :=
  match file_of pid fd s with
  | None => Err EBADF
  | Some (OpenVfs _) | Some (OpenDir _) => Ok O_RDONLY
  | Some (PipeRead _ n _) => Ok (if n then Z.lor O_RDONLY O_NONBLOCK else O_RDONLY)
  | Some (PipeWrite _ n _) => Ok (if n then Z.lor O_WRONLY O_NONBLOCK else O_WRONLY)
  end.
Definition fcntl_setfl_for_pid (pid fd flags : Z) (s : FsState) : Result unit Z * FsState :=
  match file_of pid fd s with
  | None => (Err EBADF, s)
  | Some (PipeRead pipe_id _ c) => (Ok tt, insert_file pid fd (PipeRead pipe_id (has flags O_NONBLOCK) c) s)
  | Some (PipeWrite pipe_id _ c) => (Ok tt, insert_file pid fd (PipeWrite pipe_id (has flags O_NONBLOCK) c) s)
  | Some (OpenVfs _) | Some (OpenDir _) => (Ok tt, s)
  end.
Definition fcntl_getfd_for_pid (pid fd : Z) (s : FsState) : Result Z Z :=
  match file_of pid fd s with
  | None => Err EBADF
  | Some f =>
      let c := match f with
               | OpenVfs f => vfs_cloexec f
               | OpenDir d => dir_cloexec d
               | PipeRead _ _ c | PipeWrite _ _ c => c
               end in
      Ok (if c then 1 else 0)
  end.
Definition fcntl_setfd_for_pid (pid fd : Z) (cloexec : bool) (s : FsState) : Result unit Z * FsState :=
  match file_of pid fd s with
  | None => (Err EBADF, s)
  | Some f => (Ok tt, insert_file pid fd (with_cloexec cloexec f) s)
  end.

(** ** Directories *)
Definition peek_dir_entry_for_pid (pid fd : Z) (s : FsState) : Result (option (Z * Z * str)) Z :=
  match file_of pid fd s with
  | None => Err EBADF
  | Some (OpenDir d) =>
      match readdir (dir_inode d) with
      | Err e => Err (errno e)
      | Ok entries =>
          match entries !! Z.to_nat (dir_cursor d) with
          | None => Ok None
          | Some e =>
              let file_type := match de_file_type e with Directory => DT_DIR | Regular => DT_REG | _ => DT_UNKNOWN end in
              Ok (Some (de_ino e, file_type, de_name e))
          end
      end
  | Some _ => Err ENOTDIR
  end.
Definition advance_dir_cursor_for_pid (pid fd count : Z) (s : FsState) : Result unit Z * FsState :=
  match file_of pid fd s with
  | None => (Err EBADF, s)
  | Some (OpenDir d) =>
      let d' := mkDir (saturating_add64 (dir_cursor d) count) (dir_cloexec d) (dir_fs d) (dir_path d) (dir_inode d) (dir_ino d) (dir_mode d) in
      (Ok tt, insert_file pid fd (OpenDir d') s)
  | Some _ => (Err ENOTDIR, s)
  end.
Definition fchdir_for_pid (pid fd : Z) (s : FsState) : Result unit Z * FsState :=
  match file_of pid fd s with
  | None => (Err EBADF, s)
  | Some (OpenDir d) => (Ok tt, set_cwd (<[pid := dir_path d]> (cwd (ensure_cwd pid s))) (ensure_cwd pid s))
  | Some _ => (Err ENOTDIR, s)
  end.

(** ** Polling *)
Definition poll_revents_for_pid (serial_has_input : bool) (pid fd events : Z) (s : FsState) : Result Z Z :=
  if fd <? 0 then Ok POLLNVAL
  else if fd <=? 2 then
    Ok (Z.lor (if has events POLLIN && (fd =? 0) && serial_has_input then POLLIN else 0)
              (if has events POLLOUT && ((fd =? 1) || (fd =? 2)) then POLLOUT else 0))
  else match file_of pid fd s with
  | None => Err EBADF
  | Some (OpenVfs f) =>
      Ok (if has events POLLIN then
            match static_data f with
            | Some d => if negb (bool_decide (d = [])) || (Z.of_nat (length d) <=? offset f) then POLLIN else 0
            | None =>
                match metadata (vfs_inode f) with
                | Ok md => if (0 <? md_size md) || (md_size md <=? offset f) then POLLIN else 0
                | Err _ => 0
                end
            end
          else 0)
  | Some (OpenDir _) => Ok (if has events POLLIN then POLLIN else 0)
  | Some (PipeRead pipe_id _ _) =>
      Ok match pipes s !! pipe_id with
         | Some pipe =>
             Z.lor (if has events POLLIN && (negb (bool_decide (data pipe = [])) || (writers pipe =? 0)) then POLLIN else 0)
                   (if writers pipe =? 0 then POLLHUP else 0)
         | None => POLLHUP
         end
  | Some (PipeWrite pipe_id _ _) =>
      Ok match pipes s !! pipe_id with
         | Some pipe =>
             if readers pipe =? 0 then Z.lor POLLERR POLLHUP else if has events POLLOUT then POLLOUT else 0
         | None => Z.lor POLLERR POLLHUP
         end
  end.

(** ** Status *)
Definition stat_from_meta (md : Metadata) : FsStat :=
  let size := as_i64 (md_size md) in
  mkStat 1 (md_ino md) (md_mode md) (md_nlink md) 0 size 4096 (Z.quot (saturating_add_i64 size 511) 512).
Definition make_pipe_stat (pipe_id size : Z) : FsStat :=
  let bytes := as_i64 size in
  mkStat 2 pipe_id (Z.lor S_IFIFO 384) 1 0 bytes 4096 (Z.quot (saturating_add_i64 bytes 511) 512).
Definition make_tty_stat : FsStat := mkStat 3 1 (Z.lor S_IFCHR 400) 1 0 0 4096 0.

Definition stat_fd (pid fd : Z) (s : FsState) : Result FsStat Z :=
  if (0 <=? fd) && (fd <=? 2) then Ok make_tty_stat
  else match file_of pid fd s with
  | None => Err EBADF
  | Some (OpenVfs f) =>
      match static_data f with
      | Some d =>
          let size := as_i64 (Z.of_nat (length d)) in
          Ok (mkStat 1 (vfs_ino f) (vfs_mode f) 1 0 size 4096 (Z.quot (saturating_add_i64 size 511) 512))
      | None => match metadata (vfs_inode f) with Ok md => Ok (stat_from_meta md) | Err e => Err (errno e) end
      end
  | Some (OpenDir d) => Ok (mkStat 1 (dir_ino d) (dir_mode d) 2 0 0 4096 0)
  | Some (PipeRead pipe_id _ _) | Some (PipeWrite pipe_id _ _) =>
      Ok (make_pipe_stat pipe_id (match pipes s !! pipe_id with Some pipe => Z.of_nat (length (data pipe)) | None => 0 end))
  end.
Definition statfs_fd (pid fd : Z) (s : FsState) : Result FsStatFs Z :=
  if (0 <=? fd) && (fd <=? 2) then Ok (mkStatFs 0x1cd1 4096 0 0 0 1 0 255 4096 0)
  else match file_of pid fd s with
  | None => Err EBADF
  | Some (OpenVfs f) => map_err (statfs (vfs_fs f))
  | Some (OpenDir d) => map_err (statfs (dir_fs d))
  | Some (PipeRead _ _ _) | Some (PipeWrite _ _ _) => Ok (mkStatFs 0x50495045 4096 0 0 0 1 0 255 4096 0)
  end.

(** ** Files behind mappings *)
Definition create_mmap_backing_for_pid (pid fd : Z) (s : FsState) : Result Z Z * FsState :=
  match file_of pid fd s with
  | None => (Err EBADF, s)
  | Some (OpenVfs f) =>
      let backing_id := next_mmap_backing_id s in
      (Ok backing_id, set_backings (saturating_add64 backing_id 1) (<[backing_id := mkBacking (vfs_inode f) (static_data f) 1]> (mmap_backings s)) s)
  | Some (OpenDir _) => (Err EISDIR, s)
  | Some _ => (Err EBADF, s)
  end.
Definition retain_mmap_backing (backing_id : Z) (s : FsState) : Result unit Z * FsState :=
  match mmap_backings s !! backing_id with
  | None => (Err EBADF, s)
  | Some b =>
      (Ok tt, set_backings (next_mmap_backing_id s)
                (<[backing_id := mkBacking (mb_inode b) (mb_static_data b) (saturating_add64 (mb_refs b) 1)]> (mmap_backings s)) s)
  end.
Definition release_mmap_backing (backing_id : Z) (s : FsState) : FsState :=
  match mmap_backings s !! backing_id with
  | None => s
  | Some b =>
      set_backings (next_mmap_backing_id s)
        (if 1 <? mb_refs b then <[backing_id := mkBacking (mb_inode b) (mb_static_data b) (mb_refs b - 1)]> (mmap_backings s)
         else delete backing_id (mmap_backings s)) s
  end.
Definition copy_mmap_page (backing_id file_offset out_len : Z) (s : FsState) : Result (list Z) Z :=
  match mmap_backings s !! backing_id with
  | None => Err EBADF
  | Some b =>
      match mb_static_data b with
      | Some d => Ok (slice d file_offset out_len)
      | None => map_err (read_at (mb_inode b) file_offset out_len)
      end
  end.

(** ** Operations on paths *)
Section Vfs.
Context (mount_table : @MountTable FileSystem) (proc_self_target_pid : Z -> option Z) (initramfs_read_file : str -> option (list Z)).

Definition meta_of (path : str) : Result Metadata Z :=
  match lookup_path mount_table path with
  | Err e => Err (errno e)
  | Ok inode => map_err (metadata inode)
  end.

(** The function [open_for_pid] that the system call uses. *)
Definition open_path_for_pid (pid : Z) (path : str) (flags : Z) (s : FsState) : exec (Result Z Z * FsState) :=
  let (r, s) := resolve_path_for_pid proc_self_target_pid pid path s in
  match r with
  | Err e => Ret (Err e, s)
  | Ok resolved =>
      match resolve resolved mount_table with
      | None => Ret (Err ENOENT, s)
      | Some (_, fs) =>
          match lookup_path mount_table resolved with
          | Err e => Ret (Err (errno e), s)
          | Ok inode =>
              match metadata inode with
              | Err e => Ret (Err (errno e), s)
              | Ok meta => open_for_pid proc_self_target_pid pid resolved flags (mkHint fs inode meta (initramfs_read_file resolved)) s
              end
          end
      end
  end.

Definition chdir_for_pid (pid : Z) (path : str) (s : FsState) : Result unit Z * FsState :=
  let (r, s) := resolve_path_for_pid proc_self_target_pid pid path s in
  match r with
  | Err e => (Err e, s)
  | Ok resolved =>
      match meta_of resolved with
      | Err e => (Err e, s)
      | Ok meta =>
          if negb (bool_decide (md_file_type meta = Directory)) then (Err ENOTDIR, s)
          else (Ok tt, set_cwd (<[pid := resolved]> (cwd (ensure_cwd pid s))) (ensure_cwd pid s))
      end
  end.

Definition access_path_for_pid (pid : Z) (path : str) (mode : Z) (s : FsState) : Result unit Z * FsState :=
  let (r, s) := resolve_path_for_pid proc_self_target_pid pid path s in
  match r with
  | Err e => (Err e, s)
  | Ok resolved =>
      match meta_of resolved with
      | Err e => (Err e, s)
      | Ok meta =>
          let perm_bits := Z.land (md_mode meta) 511 in
          let check := Z.land mode 7 in
          if has check 2 then (Err EROFS, s)
          else if has check 4 && (Z.land perm_bits 292 =? 0) then (Err EACCES, s)
          else if has check 1 && negb (bool_decide (md_file_type meta = Directory) || has perm_bits 73) then (Err EACCES, s)
          else (Ok tt, s)
      end
  end.

Definition stat_path (path : str) : Result FsStat Z :=
  match meta_of path with Ok md => Ok (stat_from_meta md) | Err e => Err e end.
Definition statfs_path (path : str) : Result FsStatFs Z :=
  match resolve path mount_table with None => Err ENOENT | Some (_, fs) => map_err (statfs fs) end.
Definition stat_path_for_pid (pid : Z) (path : str) (s : FsState) : Result FsStat Z * FsState :=
  let (r, s) := resolve_path_for_pid proc_self_target_pid pid path s in
  (match r with Err e => Err e | Ok resolved => stat_path resolved end, s).

(** The loop of [read_all_path]; every round but the last reads a byte. *)
Fixpoint read_all_loop (fuel : nat) (inode : Inode) (size : Z) (out : list Z) : exec (Result (list Z) Z) :=
  match fuel with
  | O => OutOfFuel
  | S fuel' =>
      if Z.of_nat (length out) <? size then
        match read_at inode (Z.of_nat (length out)) (size - Z.of_nat (length out)) with
        | Err e => Ret (Err (errno e))
        | Ok [] => Ret (Ok out)
        | Ok bytes => read_all_loop fuel' inode size (out ++ bytes)
        end
      else Ret (Ok out)
  end.
Definition read_all_path (path : str) : exec (Result (list Z) Z) :=
  match lookup_path mount_table path with
  | Err e => Ret (Err (errno e))
  | Ok inode =>
      match metadata inode with
      | Err e => Ret (Err (errno e))
      | Ok meta =>
          if negb (bool_decide (md_file_type meta = Regular)) then Ret (Err ENOENT)
          else match initramfs_read_file path with
          | Some d => Ret (Ok d)
          | None => if md_size meta =? 0 then Ret (Ok []) else read_all_loop (S (Z.to_nat (md_size meta))) inode (md_size meta) []
          end
      end
  end.
End Vfs.
End Fs.
