(* ===== verification/FsDesc.v ===== *)
(** * Descriptors and the ends of pipes

    The descriptor tables of all processes as one map, how many descriptors refer to each
    end of a pipe, and the invariant that the counters of the pipes agree with it. *)

From stdpp Require Import strings.
From S2P Require Import Prelude Errno FsPath FsMount FsTable.
#[local] Open Scope Z_scope.

(** ** Counting the entries of a map *)
Section Count.
Context {K A : Type} `{Countable K}.

Definition count (P : A -> bool) (d : gmap K A) : Z := Z.of_nat (size (filter (fun kv => P kv.2 = true) d)).

Lemma count_empty P : count P ∅ = 0.
Proof. unfold count. by rewrite map_filter_empty, map_size_empty. Qed.
Lemma count_nonneg P d : 0 <= count P d.
Proof. unfold count. lia. Qed.
Lemma count_insert_new P d k x : d !! k = None -> count P (<[k := x]> d) = Z.b2z (P x) + count P d.
Proof.
  intros Hk. unfold count. destruct (P x) eqn:E; cbn [Z.b2z].
  - rewrite map_filter_insert_True, map_size_insert_None by (done || by apply map_lookup_filter_None; left). lia.
  - by rewrite map_filter_insert_False, delete_id by (done || cbn; congruence).
Qed.
Lemma count_delete P d k x : d !! k = Some x -> count P (delete k d) = count P d - Z.b2z (P x).
Proof.
  intros Hk. rewrite <- (insert_delete_id d k x) at 2 by done. rewrite count_insert_new by apply lookup_delete_eq. lia.
Qed.
Lemma count_insert P d k x :
  count P (<[k := x]> d) = Z.b2z (P x) + count P d - match d !! k with Some y => Z.b2z (P y) | None => 0 end.
Proof.
  rewrite <- insert_delete_eq, count_insert_new by apply lookup_delete_eq. destruct (d !! k) as [y|] eqn:E.
  - rewrite (count_delete P d k y) by done. lia.
  - rewrite delete_id by done. lia.
Qed.
Lemma count_pos P d k x : d !! k = Some x -> P x = true -> 0 < count P d.
Proof. intros Hk HP. pose proof (count_nonneg P (delete k d)) as Hn. rewrite (count_delete P d k x), HP in Hn by done. cbn in Hn. lia. Qed.
Lemma count_zero P d : count P d = 0 <-> forall k x, d !! k = Some x -> P x = false.
Proof.
  split.
  - intros H0 k x Hk. destruct (P x) eqn:E; [|done]. pose proof (count_pos P d k x Hk E). lia.
  - intros Hn. unfold count. assert (filter (fun kv => P kv.2 = true) d = ∅) as ->; [|by rewrite map_size_empty].
    apply map_empty. intros k. apply map_lookup_filter_None. right. intros x Hk. cbn. by rewrite (Hn k x).
Qed.
End Count.

Section Fs.
Context {FileSystem Inode : Type} `{Vfs FileSystem Inode}.
Abbreviation OpenFile := (@OpenFile FileSystem Inode).
Abbreviation FsState := (@FsState FileSystem Inode).

(** ** All descriptors *)
Definition desc (s : FsState) : gmap (Z * Z) OpenFile :=
  map_uncurry (M1 := gmap Z) (M2 := gmap Z) (M12 := gmap (Z * Z)) (open_files s).

Lemma lookup_desc s pid fd : desc s !! (pid, fd) = file_of pid fd s.
Proof. unfold desc. by rewrite lookup_map_uncurry. Qed.
Lemma table_lookup pid fd (s : FsState) : table_of pid s !! fd = file_of pid fd s.
Proof. unfold table_of, file_of. by destruct (open_files s !! pid). Qed.
Lemma desc_set_table pid (table : gmap Z OpenFile) (s s' : FsState) (f : Z -> option OpenFile) :
  open_files s' = <[pid := table]> (open_files s) -> (forall fd, table !! fd = f fd) ->
  forall k, desc s' !! k = if decide (k.1 = pid) then f k.2 else desc s !! k.
Proof.
  intros E Hf [p fd]. unfold desc. rewrite !lookup_map_uncurry, E. cbn [fst snd]. case_decide as Hp.
  - subst. rewrite lookup_insert_eq. cbn. apply Hf.
  - by rewrite lookup_insert_ne by done.
Qed.
Lemma desc_insert_file pid fd f s : desc (insert_file pid fd f s) = <[(pid, fd) := f]> (desc s).
Proof.
  apply map_eq. intros [p g]. rewrite (desc_set_table pid (<[fd := f]> (table_of pid s)) s _ (fun x => <[fd := f]> (table_of pid s) !! x)) by done.
  cbn [fst snd]. case_decide as Hp.
  - subst. destruct (decide (g = fd)) as [->|Hne]; [by rewrite !lookup_insert_eq|].
    by rewrite !lookup_insert_ne, table_lookup, lookup_desc by congruence.
  - by rewrite lookup_insert_ne by congruence.
Qed.
Lemma desc_same (s s' : FsState) : open_files s' = open_files s -> desc s' = desc s.
Proof. unfold desc. by intros ->. Qed.
Lemma desc_touch pid (s s' : FsState) : open_files s' = <[pid := table_of pid s]> (open_files s) -> desc s' = desc s.
Proof.
  intros E. apply map_eq. intros [p fd]. rewrite (desc_set_table pid (table_of pid s) s s' (fun x => file_of pid x s)) by (done || intros; apply table_lookup).
  cbn [fst snd]. case_decide; [|done]. subst. by rewrite lookup_desc.
Qed.

(** ** Ends of pipes *)
Definition read_end (id : Z) (f : OpenFile) : bool := match f with PipeRead i _ _ => i =? id | _ => false end.
Definition write_end (id : Z) (f : OpenFile) : bool := match f with PipeWrite i _ _ => i =? id | _ => false end.
Definition on_pipe (id : Z) (f : OpenFile) : bool := read_end id f || write_end id f.
Definition same_end (f g : OpenFile) : Prop := forall id, read_end id f = read_end id g /\ write_end id f = write_end id g.

Record pipes_ok (d : gmap (Z * Z) OpenFile) (ps : gmap Z PipeState) : Prop := {
  po_count id p : ps !! id = Some p -> readers p = count (read_end id) d /\ writers p = count (write_end id) d;
  po_used id p : ps !! id = Some p -> 0 < readers p + writers p;
  po_pipe k f id : d !! k = Some f -> on_pipe id f = true -> is_Some (ps !! id)
}.

Lemma same_end_refl f : same_end f f.
Proof. done. Qed.
Lemma with_cloexec_end c f : same_end (with_cloexec c f) f.
Proof. by destruct f. Qed.

(** The counts of the ends when one descriptor is added or removed. *)
Lemma pipes_ok_retag d ps k f g : d !! k = Some g -> same_end f g -> pipes_ok d ps -> pipes_ok (<[k := f]> d) ps.
Proof.
  intros Hk Hs [Hc Hu Hp].
  assert (E : forall id, count (read_end id) (<[k := f]> d) = count (read_end id) d /\ count (write_end id) (<[k := f]> d) = count (write_end id) d).
  { intros id. destruct (Hs id) as [E1 E2]. rewrite !count_insert, Hk, E1, E2. lia. }
  split; [intros id p Hid; destruct (E id) as [-> ->]; by apply Hc|done|].
  intros k' f' id Hk' Hon. destruct (decide (k = k')) as [<-|Hne].
  - rewrite lookup_insert_eq in Hk'. injection Hk' as <-. apply (Hp k g id Hk). destruct (Hs id) as [E1 E2]. unfold on_pipe in *. by rewrite <- E1, <- E2.
  - rewrite lookup_insert_ne in Hk' by done. by eapply Hp.
Qed.

Lemma pipes_ok_other d ps id p q :
  pipes_ok d ps -> ps !! id = Some p -> readers q = readers p -> writers q = writers p -> pipes_ok d (<[id := q]> ps).
Proof.
  intros [Hc Hu Hp] Hid Hr Hw. split.
  - intros i x Hx. destruct (decide (id = i)) as [<-|Hne]; [rewrite lookup_insert_eq in Hx; injection Hx as <-; rewrite Hr, Hw; by apply Hc|].
    rewrite lookup_insert_ne in Hx by done. by apply Hc.
  - intros i x Hx. destruct (decide (id = i)) as [<-|Hne]; [rewrite lookup_insert_eq in Hx; injection Hx as <-; rewrite Hr, Hw; by eapply Hu|].
    rewrite lookup_insert_ne in Hx by done. by eapply Hu.
  - intros k f i Hk Hon. apply lookup_insert_is_Some'. right. by eapply Hp.
Qed.

Lemma off_pipe id f : on_pipe id f = false -> read_end id f = false /\ write_end id f = false.
Proof. apply orb_false_elim. Qed.

(** A descriptor that has nothing to do with pipes. *)
Lemma pipes_ok_plain_add d ps k f : d !! k = None -> (forall id, on_pipe id f = false) -> pipes_ok d ps -> pipes_ok (<[k := f]> d) ps.
Proof.
  intros Hk Hoff [Hc Hu Hp]. split; [|done|].
  - intros id p Hid. destruct (off_pipe id f (Hoff id)) as [E1 E2]. rewrite !count_insert_new, E1, E2 by done. cbn. by apply Hc.
  - intros k' f' id Hk' Hon. apply lookup_insert_Some in Hk' as [[_ <-]|[_ Hk']]; [by rewrite Hoff in Hon|by eapply Hp].
Qed.
Lemma pipes_ok_plain_drop d ps k f : d !! k = Some f -> (forall id, on_pipe id f = false) -> pipes_ok d ps -> pipes_ok (delete k d) ps.
Proof.
  intros Hk Hoff [Hc Hu Hp]. split; [|done|].
  - intros id p Hid. destruct (off_pipe id f (Hoff id)) as [E1 E2]. rewrite !(count_delete _ _ _ _ Hk), E1, E2. cbn. rewrite !Z.sub_0_r. by apply Hc.
  - intros k' f' id [_ Hk']%lookup_delete_Some Hon. by eapply Hp.
Qed.
(** A descriptor of the pipe [id], whose counters become those of [q]. *)
Lemma pipes_ok_add d ps k f id q :
  d !! k = None -> (forall i, i <> id -> on_pipe i f = false) ->
  readers q = count (read_end id) (<[k := f]> d) -> writers q = count (write_end id) (<[k := f]> d) -> 0 < readers q + writers q ->
  pipes_ok d ps -> pipes_ok (<[k := f]> d) (<[id := q]> ps).
Proof.
  intros Hk Hoff Hr Hw Hu0 [Hc Hu Hp]. split.
  - intros i p [[-> ->]|[Hne Hi]]%lookup_insert_Some; [done|]. destruct (off_pipe i f (Hoff i (not_eq_sym Hne))) as [E1 E2].
    rewrite !count_insert_new, E1, E2 by done. by apply Hc.
  - intros i p [[-> ->]|[Hne Hi]]%lookup_insert_Some; [done|by eapply Hu].
  - intros k' f' i Hk' Hon. destruct (decide (i = id)) as [->|Hne]; [rewrite lookup_insert_eq; by eexists|]. rewrite lookup_insert_ne by done.
    apply lookup_insert_Some in Hk' as [[_ <-]|[_ Hk']]; [by rewrite Hoff in Hon|by eapply Hp].
Qed.
Lemma pipes_ok_drop d ps k f id q :
  d !! k = Some f -> (forall i, i <> id -> on_pipe i f = false) ->
  readers q = count (read_end id) (delete k d) -> writers q = count (write_end id) (delete k d) ->
  pipes_ok d ps -> pipes_ok (delete k d) (if (readers q =? 0) && (writers q =? 0) then delete id ps else <[id := q]> ps).
Proof.
  intros Hk Hoff Hr Hw [Hc Hu Hp].
  assert (Hother : forall i p, i <> id -> ps !! i = Some p -> readers p = count (read_end i) (delete k d) /\ writers p = count (write_end i) (delete k d)).
  { intros i p Hne Hi. destruct (off_pipe i f (Hoff i Hne)) as [E1 E2]. rewrite !(count_delete _ _ _ _ Hk), E1, E2. cbn. rewrite !Z.sub_0_r. by apply Hc. }
  destruct (Z.eqb_spec (readers q) 0) as [R0|R0]; [destruct (Z.eqb_spec (writers q) 0) as [W0|W0]|]; cbn [andb]; split.
  - intros i p [Hne Hi]%lookup_delete_Some. by apply Hother.
  - intros i p [Hne Hi]%lookup_delete_Some. by eapply Hu.
  - intros k' f' i Hk' Hon. destruct (decide (i = id)) as [->|Hne].
    + rewrite Hr in R0. rewrite Hw in W0. unfold on_pipe in Hon. rewrite (proj1 (count_zero _ _) R0 _ _ Hk'), (proj1 (count_zero _ _) W0 _ _ Hk') in Hon. done.
    + rewrite lookup_delete_ne by done. apply lookup_delete_Some in Hk' as [_ Hk']. by eapply Hp.
  - intros i p [[-> ->]|[Hne Hi]]%lookup_insert_Some; [done|by apply Hother].
  - intros i p [[-> ->]|[Hne Hi]]%lookup_insert_Some; [pose proof (count_nonneg (write_end i) (delete k d)); lia|by eapply Hu].
  - intros k' f' i [_ Hk']%lookup_delete_Some Hon. apply lookup_insert_is_Some'. right. by eapply Hp.
  - intros i p [[-> ->]|[Hne Hi]]%lookup_insert_Some; [done|by apply Hother].
  - intros i p [[-> ->]|[Hne Hi]]%lookup_insert_Some; [pose proof (count_nonneg (read_end i) (delete k d)); pose proof (count_nonneg (write_end i) (delete k d)); lia|by eapply Hu].
  - intros k' f' i [_ Hk']%lookup_delete_Some Hon. apply lookup_insert_is_Some'. right. by eapply Hp.
Qed.

Lemma end_elsewhere id i n c : i <> id -> on_pipe i (PipeRead id n c) = false /\ on_pipe i (PipeWrite id n c) = false.
Proof. intros Hne. unfold on_pipe. cbn. destruct (Z.eqb_spec id i); [congruence|done]. Qed.

(** Losing a descriptor, and gaining one that names an existing pipe. *)
Lemma release_pipe_end_ok d ps k f : d !! k = Some f -> pipes_ok d ps -> pipes_ok (delete k d) (release_pipe_end f ps).
Proof.
  intros Hk Hok. pose proof Hok as [Hc _ Hp]. destruct f as [v|v|id n c|id n c]; cbn [release_pipe_end];
    [by apply (pipes_ok_plain_drop _ _ _ _ Hk)|by apply (pipes_ok_plain_drop _ _ _ _ Hk)| |].
  all: destruct (Hp k _ id Hk) as [p Hid]; [unfold on_pipe; cbn; rewrite Z.eqb_refl; done|]; rewrite Hid; destruct (Hc id p Hid) as [Hr Hw].
  - assert (0 < count (read_end id) d) by (apply (count_pos _ _ k _ Hk); cbn; by rewrite Z.eqb_refl).
    apply (pipes_ok_drop d ps k (PipeRead id n c) id (mkPipe _ _ _)); try done; cbn [readers writers]; rewrite ?(count_delete _ _ _ _ Hk).
    + intros i Hi. by apply end_elsewhere.
    + unfold saturating_sub32. cbn. rewrite Z.eqb_refl. cbn. lia.
    + cbn. lia.
  - assert (0 < count (write_end id) d) by (apply (count_pos _ _ k _ Hk); cbn; by rewrite Z.eqb_refl).
    apply (pipes_ok_drop d ps k (PipeWrite id n c) id (mkPipe _ _ _)); try done; cbn [readers writers]; rewrite ?(count_delete _ _ _ _ Hk).
    + intros i Hi. by apply end_elsewhere.
    + cbn. lia.
    + unfold saturating_sub32. cbn. rewrite Z.eqb_refl. cbn. lia.
Qed.

(** The counters have room for another descriptor. *)
Definition roomy (ps : gmap Z PipeState) : Prop := map_Forall (fun _ p => readers p < 4294967295 /\ writers p < 4294967295) ps.

Lemma duplicate_ok (s : FsState) d k f :
  pipes_ok d (pipes s) -> roomy (pipes s) -> d !! k = None -> (forall id, on_pipe id f = true -> is_Some (pipes s !! id)) ->
  pipes_ok (<[k := f]> d) (pipes (duplicate_open_file f s)).
Proof.
  intros Hok Hroom Hk Hp. pose proof Hok as [Hc Hu _]. destruct f as [v|v|id n c|id n c]; cbn [duplicate_open_file];
    [by apply pipes_ok_plain_add|by apply pipes_ok_plain_add| |].
  all: destruct (Hp id) as [p Hid]; [unfold on_pipe; cbn; rewrite Z.eqb_refl; done|]; rewrite Hid; destruct (Hc id p Hid) as [Hr Hw];
    pose proof (Hu id p Hid); destruct (Hroom id p Hid); cbn [pipes set_pipes];
    assert (0 <= readers p) by (rewrite Hr; apply count_nonneg); assert (0 <= writers p) by (rewrite Hw; apply count_nonneg).
  all: apply pipes_ok_add; try done; [intros i Hi; by apply end_elsewhere|..]; cbn [readers writers]; rewrite ?count_insert_new by done;
    cbn; rewrite ?Z.eqb_refl; cbn; unfold saturating_add32; lia.
Qed.
End Fs.
