(* ===== verification/FsRun.v ===== *)
(** * Runs of the file-system runtime

    Every operation of the runtime is a step; a run records the bytes that go into pipes and
    come out of them.  The invariant of the reachable states: the counters of a pipe are the
    numbers of descriptors of its two ends, over all processes, and descriptor numbers stay
    in the range of their type. *)

From stdpp Require Import strings.
From S2P Require Import Prelude Errno FsPath FsMount FsTable FsDesc.
#[local] Open Scope Z_scope.

(** ** The search for a free descriptor *)
Section Search.
Context {FileSystem Inode : Type}.
Abbreviation table := (gmap Z (@OpenFile FileSystem Inode)).

Lemma free_fd_loop_spec fuel (t : table) fd x :
  fd <= I32_MAX -> 0 <= fd -> free_fd_loop fuel t fd = Ret x ->
  t !! x = None /\ fd <= x <= I32_MAX /\ forall y, fd <= y < x -> is_Some (t !! y).
Proof.
  revert fd. induction fuel as [|fuel IH]; intros fd Hmax H0; cbn [free_fd_loop]; [done|]. destruct (t !! fd) as [f|] eqn:E.
  - intros Hr. unfold saturating_add_i32 in *. destruct (decide (fd = I32_MAX)) as [->|Hne].
    + apply IH in Hr as (H1 & H2 & H3); [|unfold I32_MAX; lia|unfold I32_MAX; lia]. split; [done|]. unfold I32_MAX in *. split; [lia|].
      intros y Hy. lia.
    + apply IH in Hr as (H1 & H2 & H3); [|lia|lia]. split; [done|]. split; [lia|]. intros y Hy.
      destruct (decide (y = fd)) as [->|]; [by eexists|]. apply H3. lia.
  - intros [= <-]. split; [done|]. split; [lia|]. intros y Hy. lia.
Qed.

(** The keys from [a] up to the first one that is missing are fewer than the entries. *)
Lemma filled_size (t : table) a x : (forall y, a <= y < x -> is_Some (t !! y)) -> x - a <= Z.of_nat (size t).
Proof.
  intros Hall. assert (Hsub : list_to_set (zrange a x) ⊆ dom t).
  { intros y. rewrite elem_of_list_to_set, elem_of_zrange, elem_of_dom. apply Hall. }
  apply subseteq_size in Hsub. rewrite size_dom, size_list_to_set, length_zrange in Hsub by apply NoDup_seqZ. lia.
Qed.
Lemma free_fd_loop_reaches fuel (t : table) a x :
  0 <= a -> x <= I32_MAX -> t !! x = None -> (forall y, a <= y < x -> is_Some (t !! y)) -> a <= x -> x - a < Z.of_nat fuel ->
  free_fd_loop fuel t a = Ret x.
Proof.
  intros H0 Hmax Hx. revert a H0. induction fuel as [|fuel IH]; intros a H0 Hall Hle Hf; [lia|]. cbn [free_fd_loop].
  destruct (decide (a = x)) as [->|Hne]; [by rewrite Hx|]. destruct (Hall a ltac:(lia)) as [f Hf']. rewrite Hf'.
  unfold saturating_add_i32, I32_MAX in *. replace (Z.max (-2147483648) (Z.min 2147483647 (a + 1))) with (a + 1) by lia.
  apply IH; [lia| |lia|lia]. intros y Hy. apply Hall. lia.
Qed.
(** The least free number from [a] on, when there is one up to [b]. *)
Lemma least_free (t : table) a b : a <= b -> t !! b = None -> exists x, a <= x <= b /\ t !! x = None /\ forall y, a <= y < x -> is_Some (t !! y).
Proof.
  intros Hle Hb. remember (Z.to_nat (b - a)) as n eqn:Hn. revert a Hle Hn. induction n as [|n IH]; intros a Hle Hn.
  - assert (a = b) as -> by lia. exists b. split; [lia|]. split; [done|]. intros y Hy. lia.
  - destruct (t !! a) as [f|] eqn:E; [|exists a; split; [lia|]; split; [done|]; intros y Hy; lia].
    destruct (IH (a + 1) ltac:(lia) ltac:(lia)) as (x & Hx & Hnone & Hall). exists x. split; [lia|]. split; [done|].
    intros y Hy. destruct (decide (y = a)) as [->|]; [by eexists|]. apply Hall. lia.
Qed.
(** With every number in use, the search goes on forever. *)
Lemma free_fd_loop_stuck fuel (t : table) a :
  0 <= a <= I32_MAX -> (forall y, a <= y <= I32_MAX -> is_Some (t !! y)) -> free_fd_loop fuel t a = OutOfFuel.
Proof.
  revert a. induction fuel as [|fuel IH]; intros a Ha Hall; [done|]. cbn [free_fd_loop]. destruct (Hall a ltac:(lia)) as [f ->].
  apply IH; unfold saturating_add_i32, I32_MAX in *; [lia|]. intros y Hy. apply Hall. lia.
Qed.
End Search.

Section Fs.
Context {FileSystem Inode : Type} `{Vfs FileSystem Inode}.
Abbreviation OpenFile := (@OpenFile FileSystem Inode).
Abbreviation FsState := (@FsState FileSystem Inode).
Implicit Types s : FsState.

(** ** The invariant *)
Record fs_ok (s : FsState) : Prop := {
  fo_pipes : pipes_ok (desc s) (pipes s);
  fo_ids id : is_Some (pipes s !! id) -> 1 <= id < next_pipe_id s;
  fo_next : 1 <= next_pipe_id s <= U64_MAX;
  fo_fds k f : desc s !! k = Some f -> 0 <= k.2 <= I32_MAX;
  fo_next_fd pid n : next_fd s !! pid = Some n -> FIRST_USER_FD <= n <= I32_MAX
}.

Lemma fs_new_ok : fs_ok fs_new.
Proof.
  assert (E : desc (fs_new : FsState) = ∅) by (apply map_empty; intros [pid fd]; by rewrite lookup_desc).
  split; rewrite ?E.
  - split; done.
  - intros id [p Hp]. done.
  - cbn. lia.
  - done.
  - done.
Qed.

(** States that agree on all the invariant speaks of. *)
Lemma fs_ok_same s s' :
  desc s' = desc s -> pipes s' = pipes s -> next_pipe_id s' = next_pipe_id s -> next_fd s' = next_fd s -> fs_ok s -> fs_ok s'.
Proof. intros E1 E2 E3 E4 [H1 H2 H3 H4 H5]. split; rewrite ?E1, ?E2, ?E3, ?E4; done. Qed.
Lemma fs_ok_retag s pid fd f g : file_of pid fd s = Some g -> same_end f g -> fs_ok s -> fs_ok (insert_file pid fd f s).
Proof.
  intros Hf Hs [H1 H2 H3 H4 H5]. rewrite <- lookup_desc in Hf. split; rewrite ?desc_insert_file; try done.
  - by apply (pipes_ok_retag _ _ _ _ g).
  - intros k x [[<- _]|[_ Hk]]%lookup_insert_Some; by eapply H4.
Qed.
Lemma fs_ok_pipe_data s id p d : pipes s !! id = Some p -> fs_ok s -> fs_ok (set_pipes (<[id := with_data d p]> (pipes s)) s).
Proof.
  intros Hid [H1 H2 H3 H4 H5]. split; try done; cbn [pipes set_pipes].
  - by apply (pipes_ok_other _ _ _ p).
  - intros i [->|[_ Hi]]%lookup_insert_is_Some; apply H2; [by eexists|done].
Qed.

(** ** Allocating a number *)
Record allocated (pid min_fd fd : Z) (s s' : FsState) : Prop := {
  al_free : file_of pid fd s = None;
  al_range : Z.max min_fd FIRST_USER_FD <= fd <= I32_MAX;
  al_least y : Z.max (Z.max min_fd FIRST_USER_FD) (default 0 (next_fd s !! pid)) <= y < fd -> is_Some (file_of pid y s);
  al_desc : desc s' = desc s;
  al_pipes : pipes s' = pipes s;
  al_next_pipe : next_pipe_id s' = next_pipe_id s;
  al_cwd : cwd s' = cwd s;
  al_backings : mmap_backings s' = mmap_backings s;
  al_next_fd : next_fd s' = <[pid := saturating_add_i32 fd 1]> (next_fd s)
}.

Lemma alloc_fd_from_ok pid min_fd s fd s' :
  fs_ok s -> min_fd <= I32_MAX -> alloc_fd_from pid min_fd s = Ret (fd, s') -> allocated pid min_fd fd s s'.
Proof.
  intros Hok Hmin. unfold alloc_fd_from. set (start := Z.max min_fd FIRST_USER_FD).
  assert (Hs : FIRST_USER_FD <= start <= I32_MAX) by (unfold start, FIRST_USER_FD, I32_MAX in *; lia).
  set (next := if default start (next_fd s !! pid) <? start then start else default start (next_fd s !! pid)).
  assert (Hnext : start <= next <= I32_MAX /\ next <= Z.max start (default 0 (next_fd s !! pid))).
  { unfold next. destruct (next_fd s !! pid) as [n|] eqn:E; cbn [from_option id].
    - pose proof (fo_next_fd s Hok pid n E). destruct (Z.ltb_spec n start); cbn; lia.
    - destruct (Z.ltb_spec start start); lia. }
  destruct (free_fd_loop _ _ _) as [x| |] eqn:Hl; cbn [mbind exec_bind]; [|done|done]. intros [= <- <-].
  apply free_fd_loop_spec in Hl as (H1 & H2 & H3); [|lia|unfold FIRST_USER_FD in *; lia]. split; try done.
  - by rewrite table_lookup in H1.
  - lia.
  - intros y Hy. rewrite <- table_lookup. apply H3. fold start in Hy. lia.
  - apply (desc_touch pid). done.
Qed.
Lemma allocated_ok pid min_fd fd s s' : allocated pid min_fd fd s s' -> fs_ok s -> fs_ok s'.
Proof.
  intros [A1 A2 _ A3 A4 A5 _ _ A6] [H1 H2 H3 H4 H5]. split; rewrite ?A3, ?A4, ?A5; try done.
  intros p n. rewrite A6. intros [[<- <-]|[_ Hn]]%lookup_insert_Some; [|by eapply H5]. unfold saturating_add_i32, FIRST_USER_FD, I32_MAX in *. lia.
Qed.
(** A new descriptor at a free number. *)
Lemma fs_ok_new_fd s pid fd f ps :
  fs_ok s -> file_of pid fd s = None -> 0 <= fd <= I32_MAX -> pipes_ok (<[(pid, fd) := f]> (desc s)) ps ->
  (forall id, is_Some (ps !! id) -> 1 <= id < next_pipe_id s) -> fs_ok (set_pipes ps (insert_file pid fd f s)).
Proof.
  intros [H1 H2 H3 H4 H5] Hf Hr Hps Hids. assert (E : desc (set_pipes ps (insert_file pid fd f s)) = <[(pid, fd) := f]> (desc s)).
  { rewrite (desc_same (insert_file pid fd f s)) by done. apply desc_insert_file. }
  split; rewrite ?E; try done. intros k x [[<- _]|[_ Hk]]%lookup_insert_Some; [done|by eapply H4].
Qed.

(** ** Pipes that keep their bytes *)
(** No pipe appears and those that stay keep what they hold. *)
Definition keeps (ps ps' : gmap Z PipeState) : Prop := forall id p', ps' !! id = Some p' -> exists p, ps !! id = Some p /\ data p' = data p.
#[export] Instance keeps_preorder : PreOrder keeps.
Proof.
  split.
  - intros ps id p Hp. by exists p.
  - intros p1 p2 p3 H12 H23 id p Hp. destruct (H23 id p Hp) as (q & Hq & ->). by apply H12.
Qed.
Lemma keeps_insert ps id p q : ps !! id = Some p -> data q = data p -> keeps ps (<[id := q]> ps).
Proof. intros Hp Hd i x [[<- <-]|[_ Hx]]%lookup_insert_Some; [by exists p|by exists x]. Qed.
Lemma keeps_delete ps id : keeps ps (delete id ps).
Proof. intros i x [_ Hx]%lookup_delete_Some. by exists x. Qed.
Lemma keeps_ids ps ps' id : keeps ps ps' -> is_Some (ps' !! id) -> is_Some (ps !! id).
Proof. intros Hk [p Hp]. destruct (Hk id p Hp) as (q & Hq & _). by exists q. Qed.
Lemma release_keeps (f : OpenFile) ps : keeps ps (release_pipe_end f ps).
Proof.
  destruct f as [v|v|id n c|id n c]; cbn [release_pipe_end]; try done.
  all: destruct (ps !! id) as [p|] eqn:E; [|done]; destruct (_ && _); [apply keeps_delete|by apply (keeps_insert _ _ p)].
Qed.
Lemma duplicate_keeps (f : OpenFile) (s : FsState) : keeps (pipes s) (pipes (duplicate_open_file f s)).
Proof.
  destruct f as [v|v|id n c|id n c]; cbn [duplicate_open_file]; try done.
  all: destruct (pipes s !! id) as [p|] eqn:E; [by apply (keeps_insert _ _ p)|done].
Qed.
Lemma duplicate_frame (f : OpenFile) (s : FsState) :
  open_files (duplicate_open_file f s) = open_files s /\ next_fd (duplicate_open_file f s) = next_fd s /\
  next_pipe_id (duplicate_open_file f s) = next_pipe_id s /\ cwd (duplicate_open_file f s) = cwd s.
Proof. destruct f as [v|v|id n c|id n c]; cbn [duplicate_open_file]; try done; by destruct (pipes s !! id). Qed.
Lemma duplicate_is_some (f : OpenFile) (s : FsState) id : is_Some (pipes s !! id) -> is_Some (pipes (duplicate_open_file f s) !! id).
Proof.
  intros Hid. destruct f as [v|v|i n c|i n c]; cbn [duplicate_open_file]; try done.
  all: destruct (pipes s !! i) as [p|]; [|done]; cbn; apply lookup_insert_is_Some'; by right.
Qed.

(** ** Closing *)
Lemma close_ok pid fd (s : FsState) f :
  file_of pid fd s = Some f ->
  exists s', close_for_pid pid fd s = (Ok tt, s') /\ desc s' = delete (pid, fd) (desc s) /\ pipes s' = release_pipe_end f (pipes s) /\
    next_pipe_id s' = next_pipe_id s /\ next_fd s' = next_fd s /\ cwd s' = cwd s.
Proof.
  intros Hf. unfold close_for_pid. unfold file_of in Hf. destruct (open_files s !! pid) as [t|] eqn:Ht; [|done]. cbn in Hf. rewrite Hf.
  eexists. split; [done|]. split; [|done]. apply map_eq. intros [p g].
  rewrite (desc_set_table pid (delete fd t) s _ (fun x => delete fd t !! x)) by done. cbn [fst snd]. case_decide as Hp.
  - subst. destruct (decide (g = fd)) as [->|Hne]; [by rewrite !lookup_delete_eq|]. rewrite !lookup_delete_ne by congruence.
    rewrite lookup_desc. unfold file_of. by rewrite Ht.
  - by rewrite lookup_delete_ne by congruence.
Qed.
Lemma close_none pid fd (s : FsState) : file_of pid fd s = None -> close_for_pid pid fd s = (Err EBADF, s).
Proof. unfold close_for_pid, file_of. destruct (open_files s !! pid) as [t|]; [|done]. cbn. by intros ->. Qed.
Lemma close_fs_ok pid fd s s' r : close_for_pid pid fd s = (r, s') -> fs_ok s -> fs_ok s' /\ keeps (pipes s) (pipes s').
Proof.
  intros Hr Hok. destruct (file_of pid fd s) as [f|] eqn:Hf.
  2: { rewrite (close_none _ _ _ Hf) in Hr. injection Hr as _ <-. done. }
  destruct (close_ok _ _ _ _ Hf) as (s1 & R & E1 & E2 & E3 & E4 & _). rewrite R in Hr. injection Hr as _ <-.
  pose proof Hok as [H1 H2 H3 H4 H5]. pose proof (release_keeps f (pipes s)) as Hk. rewrite <- lookup_desc in Hf.
  split; [|by rewrite E2]. split; rewrite ?E1, ?E2, ?E3, ?E4; try done.
  - by apply release_pipe_end_ok.
  - intros id Hid. apply H2. by apply (keeps_ids _ _ _ Hk).
  - intros k x [_ Hx]%lookup_delete_Some. by eapply H4.
Qed.

Definition drop_keys (pid : Z) (l : list (Z * OpenFile)) (d : gmap (Z * Z) OpenFile) : gmap (Z * Z) OpenFile :=
  foldl (fun d e => delete (pid, e.1) d) d l.
Lemma drop_keys_lookup pid l d k : drop_keys pid l d !! k = if decide (k.1 = pid /\ k.2 ∈ l.*1) then None else d !! k.
Proof.
  revert d. induction l as [|[fd f] l IH]; intros d; [rewrite decide_False; [done|]; by intros [_ []%elem_of_nil]|].
  change (drop_keys pid ((fd, f) :: l) d) with (drop_keys pid l (delete (pid, fd) d)). rewrite IH. destruct k as [p g]. cbn [fst snd fmap list_fmap].
  destruct (decide (p = pid /\ g ∈ l.*1)) as [[-> Hg]|Hn]; [rewrite decide_True; [done|]; split; [done|by right]|].
  destruct (decide (p = pid /\ g ∈ fd :: l.*1)) as [[-> Hg]|Hn'].
  - apply elem_of_cons in Hg as [->|Hg]; [by rewrite lookup_delete_eq|]. exfalso. by apply Hn.
  - rewrite lookup_delete_ne; [done|]. intros [= -> ->]. apply Hn'. split; [done|by left].
Qed.
Lemma release_all_ok pid l d ps :
  NoDup l.*1 -> (forall fd f, (fd, f) ∈ l -> d !! (pid, fd) = Some f) -> pipes_ok d ps ->
  pipes_ok (drop_keys pid l d) (foldl (fun p e => release_pipe_end e.2 p) ps l) /\ keeps ps (foldl (fun p e => release_pipe_end e.2 p) ps l).
Proof.
  revert d ps. induction l as [|[fd f] l IH]; intros d ps Hnd Hin Hok; [done|]. cbn [foldl snd].
  change (drop_keys pid ((fd, f) :: l) d) with (drop_keys pid l (delete (pid, fd) d)).
  apply NoDup_cons in Hnd as [Hnot Hnd]. destruct (IH (delete (pid, fd) d) (release_pipe_end f ps)) as [H1 H2]; [done| | |].
  - intros g x Hx. rewrite lookup_delete_ne; [apply Hin; by right|]. intros [= ->]. apply Hnot. apply list_elem_of_fmap. by exists (g, x).
  - apply release_pipe_end_ok; [apply Hin; by left|done].
  - split; [done|]. transitivity (release_pipe_end f ps); [apply release_keeps|done].
Qed.
Lemma drop_process_ok pid s :
  fs_ok s ->
  fs_ok (drop_process_fds pid s) /\ keeps (pipes s) (pipes (drop_process_fds pid s)) /\ next_pipe_id (drop_process_fds pid s) = next_pipe_id s /\
  (forall k, desc (drop_process_fds pid s) !! k = if decide (k.1 = pid) then None else desc s !! k).
Proof.
  intros Hok. pose proof Hok as [H1 H2 H3 H4 H5]. unfold drop_process_fds.
  assert (Hnf : forall p n, delete pid (next_fd s) !! p = Some n -> FIRST_USER_FD <= n <= I32_MAX) by (intros p n [_ Hn]%lookup_delete_Some; by eapply H5).
  destruct (open_files s !! pid) as [t|] eqn:Ht.
  2: { assert (Hd : forall fd, desc s !! (pid, fd) = None) by (intros fd; rewrite lookup_desc; unfold file_of; by rewrite Ht).
       split; [split; done|]. split; [done|]. split; [done|]. intros [p fd]. cbn. case_decide; [subst; apply Hd|done]. }
  set (s1 := set_pipes _ _). set (l := map_to_list t) in *.
  assert (Hin : forall fd f, (fd, f) ∈ l -> desc s !! (pid, fd) = Some f).
  { intros fd f Hf%elem_of_map_to_list. rewrite lookup_desc. unfold file_of. by rewrite Ht. }
  destruct (release_all_ok pid l (desc s) (pipes s) (NoDup_fst_map_to_list t) Hin H1) as [Hp Hk].
  assert (Hlook : forall k, desc s1 !! k = if decide (k.1 = pid) then None else desc s !! k).
  { intros [p fd]. unfold desc, s1. rewrite !lookup_map_uncurry. cbn [open_files set_pipes set_open_files fst snd].
    case_decide; [subst; by rewrite lookup_delete_eq|by rewrite lookup_delete_ne by done]. }
  assert (Ed : desc s1 = drop_keys pid l (desc s)).
  { apply map_eq. intros [p fd]. rewrite Hlook, drop_keys_lookup. cbn [fst snd].
    destruct (decide (p = pid)) as [->|Hne]; [|rewrite decide_False; [done|by intros [? _]]].
    case_decide as Hc; [done|]. rewrite lookup_desc. unfold file_of. rewrite Ht. cbn. destruct (t !! fd) as [f|] eqn:Hf; [|done].
    exfalso. apply Hc. split; [done|]. apply list_elem_of_fmap. exists (fd, f). split; [done|]. by apply elem_of_map_to_list. }
  split; [|split; [done|split; [done|]]].
  - split; cbn [pipes set_cwd set_next_fd next_pipe_id next_fd]; try done.
    + rewrite (desc_same s1) by done. rewrite Ed. done.
    + intros id Hid. apply H2. by apply (keeps_ids _ _ _ Hk).
    + intros k f. rewrite (desc_same s1) by done. rewrite Hlook. case_decide; [done|]. apply H4.
  - intros k. rewrite (desc_same s1) by done. apply Hlook.
Qed.

(** ** Operations that neither make pipes nor move bytes *)
Definition harmless (s s' : FsState) : Prop :=
  fs_ok s -> fs_ok s' /\ keeps (pipes s) (pipes s') /\ next_pipe_id s' = next_pipe_id s.

Lemma harmless_same s s' :
  open_files s' = open_files s -> pipes s' = pipes s -> next_pipe_id s' = next_pipe_id s -> next_fd s' = next_fd s -> harmless s s'.
Proof. intros E1 E2 E3 E4 Hok. rewrite E2. split; [apply (fs_ok_same s); [by apply desc_same|done..]|done]. Qed.
Lemma harmless_refl s : harmless s s.
Proof. by intros Hok. Qed.
Lemma harmless_trans s1 s2 s3 : harmless s1 s2 -> harmless s2 s3 -> harmless s1 s3.
Proof. intros H12 H23 Hok. destruct (H12 Hok) as (H2 & K12 & E12). destruct (H23 H2) as (H3 & K23 & E23). split; [done|]. split; [by transitivity (pipes s2)|congruence]. Qed.
Lemma harmless_retag pid fd f g s : file_of pid fd s = Some g -> same_end f g -> harmless s (insert_file pid fd f s).
Proof. intros Hf Hs Hok. split; [by apply (fs_ok_retag s pid fd f g)|done]. Qed.
Lemma harmless_cwd pid s : harmless s (ensure_cwd pid s).
Proof. unfold ensure_cwd. destruct (cwd s !! pid); [apply harmless_refl|by apply harmless_same]. Qed.
Lemma resolve_state T pid input s : (resolve_path_for_pid T pid input s).2 = ensure_cwd pid s.
Proof. unfold resolve_path_for_pid, cwd_for_pid. by destruct (manager_normalize_path _ _). Qed.

Lemma setfl_harmless pid fd flags s r s' : fcntl_setfl_for_pid pid fd flags s = (r, s') -> harmless s s'.
Proof.
  unfold fcntl_setfl_for_pid. destruct (file_of pid fd s) as [[v|v|id n c|id n c]|] eqn:Hf; intros [= <- <-]; try apply harmless_refl.
  all: by apply (harmless_retag _ _ _ _ _ Hf).
Qed.
Lemma setfd_harmless pid fd c s r s' : fcntl_setfd_for_pid pid fd c s = (r, s') -> harmless s s'.
Proof.
  unfold fcntl_setfd_for_pid. destruct (file_of pid fd s) as [f|] eqn:Hf; intros [= <- <-]; [|apply harmless_refl].
  apply (harmless_retag _ _ _ _ _ Hf), with_cloexec_end.
Qed.
Lemma lseek_harmless pid fd off whence s r s' : lseek_for_pid pid fd off whence s = (r, s') -> harmless s s'.
Proof.
  unfold lseek_for_pid. destruct (file_of pid fd s) as [[v|v|id n c|id n c]|] eqn:Hf; try (intros [= <- <-]; apply harmless_refl).
  - cbv zeta. destruct (if whence =? 0 then _ else _) as [b|]; [|intros [= <- <-]; apply harmless_refl].
    destruct (checked_add_i64 _ _) as [x|]; [|intros [= <- <-]; apply harmless_refl]. destruct (x <? 0); intros [= <- <-]; [apply harmless_refl|].
    by apply (harmless_retag _ _ _ _ _ Hf).
  - destruct (_ || _); intros [= <- <-]; [apply harmless_refl|]. by apply (harmless_retag _ _ _ _ _ Hf).
Qed.
Lemma advance_harmless pid fd n s r s' : advance_dir_cursor_for_pid pid fd n s = (r, s') -> harmless s s'.
Proof.
  unfold advance_dir_cursor_for_pid. destruct (file_of pid fd s) as [[v|v|id m c|id m c]|] eqn:Hf; intros [= <- <-]; try apply harmless_refl.
  by apply (harmless_retag _ _ _ _ _ Hf).
Qed.
Lemma set_cwd_harmless pid x s : harmless s (set_cwd x (ensure_cwd pid s)).
Proof. apply (harmless_trans _ (ensure_cwd pid s)); [apply harmless_cwd|by apply harmless_same]. Qed.
Lemma fchdir_harmless pid fd s r s' : fchdir_for_pid pid fd s = (r, s') -> harmless s s'.
Proof.
  unfold fchdir_for_pid. destruct (file_of pid fd s) as [[v|v|id m c|id m c]|] eqn:Hf; intros [= <- <-]; try apply harmless_refl. apply set_cwd_harmless.
Qed.
Lemma create_backing_harmless pid fd s r s' : create_mmap_backing_for_pid pid fd s = (r, s') -> harmless s s'.
Proof.
  unfold create_mmap_backing_for_pid. destruct (file_of pid fd s) as [[v|v|id m c|id m c]|] eqn:Hf; intros [= <- <-]; try apply harmless_refl.
  by apply harmless_same.
Qed.
Lemma retain_backing_harmless id s r s' : retain_mmap_backing id s = (r, s') -> harmless s s'.
Proof. unfold retain_mmap_backing. destruct (mmap_backings s !! id); intros [= <- <-]; [by apply harmless_same|apply harmless_refl]. Qed.
Lemma release_backing_harmless id s : harmless s (release_mmap_backing id s).
Proof. unfold release_mmap_backing. destruct (mmap_backings s !! id); [by apply harmless_same|apply harmless_refl]. Qed.
Lemma close_harmless pid fd s r s' : close_for_pid pid fd s = (r, s') -> harmless s s'.
Proof.
  intros R Hok. destruct (close_fs_ok _ _ _ _ _ R Hok). split; [done|]. split; [done|]. destruct (file_of pid fd s) as [f|] eqn:Hf.
  - destruct (close_ok _ _ _ _ Hf) as (s1 & R1 & _ & _ & E & _). rewrite R1 in R. by injection R as _ <-.
  - rewrite (close_none _ _ _ Hf) in R. by injection R as _ <-.
Qed.
Lemma drop_harmless pid s : harmless s (drop_process_fds pid s).
Proof. intros Hok. destruct (drop_process_ok pid s Hok) as (H1 & H2 & H3 & _). done. Qed.

(** ** New descriptors *)
Lemma plain_fd_harmless pid fd f s s' min_fd :
  allocated pid min_fd fd s s' -> (forall id, on_pipe id f = false) -> harmless s (insert_file pid fd f s').
Proof.
  intros Ha Hoff Hok. pose proof (allocated_ok _ _ _ _ _ Ha Hok) as Hok'. pose proof Ha as [A1 A2 _ A3 A4 A5 _ _ _].
  rewrite <- lookup_desc, <- A3, lookup_desc in A1. split; [|cbn; rewrite A4, A5; done].
  apply (fs_ok_same (set_pipes (pipes s') (insert_file pid fd f s'))); try done. apply fs_ok_new_fd; try done.
  - unfold FIRST_USER_FD in A2. lia.
  - apply pipes_ok_plain_add; [by rewrite lookup_desc|done|apply Hok'].
  - apply Hok'.
Qed.
Lemma open_harmless T pid path flags hint s r s' : open_for_pid T pid path flags hint s = Ret (r, s') -> harmless s s'.
Proof.
  unfold open_for_pid. pose proof (resolve_state T pid path s) as Es. destruct (resolve_path_for_pid T pid path s) as [q s1]. cbn in Es. subst s1.
  pose proof (harmless_cwd pid s) as Hc. destruct q as [q|e]; [|intros [= <- <-]; done]. cbv zeta.
  destruct (has flags _); [intros [= <- <-]; done|]. destruct (negb _); [intros [= <- <-]; done|].
  match goal with |- context [match ?q with Ok _ => _ | Err _ => _ end = _] => destruct q as [f|e] eqn:Ef end; [|intros [= <- <-]; done].
  assert (Hoff : forall id, on_pipe id f = false).
  { intros id. destruct (md_file_type _); try discriminate; [destruct (has flags O_DIRECTORY); [discriminate|]|]; by injection Ef as <-. }
  destruct (alloc_fd pid _) as [[fd s2]| |] eqn:Ea; cbn [mbind exec_bind]; [|done|done]. intros [= <- <-] Hok.
  destruct (Hc Hok) as (Hok1 & K1 & E1). apply alloc_fd_from_ok in Ea; [|done|done].
  destruct (plain_fd_harmless _ _ f _ _ _ Ea Hoff Hok1) as (Hok2 & K2 & E2). split; [done|]. split; [by transitivity (pipes (ensure_cwd pid s))|congruence].
Qed.

Lemma dup_harmless pid oldfd min_fd c s r s' :
  min_fd <= I32_MAX -> roomy (pipes s) -> dup_for_pid pid oldfd min_fd c s = Ret (r, s') -> harmless s s'.
Proof.
  intros Hmin Hroom. unfold dup_for_pid. destruct (file_of pid oldfd s) as [g|] eqn:Hf; [|intros [= <- <-]; apply harmless_refl].
  set (f := with_cloexec c g). set (s1 := duplicate_open_file f s). destruct (alloc_fd_from pid min_fd s1) as [[fd s2]| |] eqn:Ea; cbn [mbind exec_bind]; [|done|done].
  intros [= <- <-] Hok. destruct (duplicate_frame f s) as (F1 & F2 & F3 & _).
  (* the search only looks at what duplicating leaves alone *)
  assert (Ea' : alloc_fd_from pid min_fd s = Ret (fd, set_pipes (pipes s) s2)).
  { unfold alloc_fd_from, table_of in *. fold s1 in F1, F2, F3. rewrite F1, F2 in Ea. destruct (free_fd_loop _ _ _) as [x| |]; cbn [mbind exec_bind] in *; [|done|done].
    injection Ea as <- <-. f_equal. f_equal. unfold set_pipes, set_next_fd, set_open_files, s1. destruct f as [v|v|id n b|id n b]; cbn; try done; by destruct (pipes s !! id). }
  apply alloc_fd_from_ok in Ea'; [|done|done]. pose proof Ea' as [A1 A2 _ A3 _ A5 _ _ A6]. pose proof (allocated_ok _ _ _ _ _ Ea' Hok) as Hok'.
  pose proof (with_cloexec_end c g) as Hsame.
  assert (Hps : pipes s2 = pipes s1).
  { unfold alloc_fd_from in Ea. destruct (free_fd_loop _ _ _); cbn [mbind exec_bind] in Ea; [|done|done]. by injection Ea as _ <-. }
  assert (Hpipe : pipes_ok (<[(pid, fd) := f]> (desc s)) (pipes s1)).
  { apply duplicate_ok; [apply Hok|done|by rewrite lookup_desc|]. intros id Hon. apply (po_pipe _ _ (fo_pipes _ Hok) (pid, oldfd) g id); [by rewrite lookup_desc|].
    destruct (Hsame id) as [E1 E2]. unfold on_pipe in *. by rewrite <- E1, <- E2. }
  pose proof (duplicate_keeps f s) as Hk. fold s1 in Hk.
  split; [|split; [cbn; by rewrite Hps|cbn; cbn in A5; congruence]].
  apply (fs_ok_same (set_pipes (pipes s1) (insert_file pid fd f (set_pipes (pipes s) s2)))); try done.
  apply fs_ok_new_fd; try done.
  - rewrite <- lookup_desc, A3. by rewrite lookup_desc.
  - unfold FIRST_USER_FD in A2. lia.
  - by rewrite A3.
  - intros id Hid. rewrite A5. apply Hok. by apply (keeps_ids _ _ _ Hk).
Qed.

Lemma release_roomy (f : OpenFile) ps : roomy ps -> roomy (release_pipe_end f ps).
Proof.
  intros Hr. destruct f as [v|v|id n c|id n c]; cbn [release_pipe_end]; try done.
  all: destruct (ps !! id) as [p|] eqn:E; [|done]; destruct (Hr id p E); destruct (_ && _);
    [by apply map_Forall_delete|apply map_Forall_insert_2; [cbn; unfold saturating_sub32; lia|done]].
Qed.
Lemma close_any pid fd s :
  exists r s', close_for_pid pid fd s = (r, s') /\ desc s' = delete (pid, fd) (desc s) /\ (roomy (pipes s) -> roomy (pipes s')) /\ next_fd s' = next_fd s.
Proof.
  destruct (file_of pid fd s) as [f|] eqn:Hf.
  - destruct (close_ok _ _ _ _ Hf) as (s' & R & E1 & E2 & _ & E4 & _). exists (Ok tt), s'. split; [done|]. split; [done|].
    split; [rewrite E2; apply release_roomy|done].
  - exists (Err EBADF), s. rewrite (close_none _ _ _ Hf). split; [done|]. split; [|done]. symmetry. apply delete_id. by rewrite lookup_desc.
Qed.

Lemma dup2_harmless pid oldfd newfd c s r s' :
  newfd <= I32_MAX -> roomy (pipes s) -> dup2_for_pid pid oldfd newfd c s = (r, s') -> harmless s s'.
Proof.
  intros Hmax Hroom. unfold dup2_for_pid. destruct (Z.ltb_spec newfd 0) as [|H0]; [intros [= <- <-]; apply harmless_refl|].
  destruct (Z.eqb_spec oldfd newfd) as [_|Hne]; [destruct (file_of pid oldfd s); intros [= <- <-]; apply harmless_refl|].
  destruct (file_of pid oldfd s) as [g|] eqn:Hf; [|intros [= <- <-]; apply harmless_refl].
  destruct (close_any pid newfd s) as (rc & s1 & R1 & D1 & Hr1 & N1). rewrite R1. specialize (Hr1 Hroom). intros [= <- <-] Hok.
  destruct (close_harmless _ _ _ _ _ R1 Hok) as (Hok1 & K1 & E1). set (f := with_cloexec c g). destruct (duplicate_frame f s1) as (F1 & F2 & F3 & _).
  set (s2 := duplicate_open_file f s1) in *. pose proof (with_cloexec_end c g) as Hsame. pose proof (duplicate_keeps f s1) as K2. fold s2 in K2.
  assert (Hold : desc s1 !! (pid, oldfd) = Some g) by (rewrite D1, lookup_delete_ne, lookup_desc by congruence; done).
  assert (Hfree : desc s1 !! (pid, newfd) = None) by (rewrite D1; apply lookup_delete_eq).
  assert (Hpipe : pipes_ok (<[(pid, newfd) := f]> (desc s1)) (pipes s2)).
  { apply duplicate_ok; [apply Hok1|done|done|]. intros id Hon. apply (po_pipe _ _ (fo_pipes _ Hok1) _ g id Hold).
    destruct (Hsame id) as [A B]. unfold on_pipe in *. by rewrite <- A, <- B. }
  assert (Hok2 : fs_ok (set_pipes (pipes s2) (insert_file pid newfd f s1))).
  { apply fs_ok_new_fd; try done; [by rewrite <- lookup_desc|]. intros id Hid. apply Hok1. by apply (keeps_ids _ _ _ K2). }
  assert (Hd : desc (insert_file pid newfd f s2) = desc (insert_file pid newfd f s1)).
  { apply desc_same. unfold insert_file, table_of. cbn. by rewrite F1. }
  split; [|split; [cbn; by transitivity (pipes s1)|cbn; congruence]].
  pose proof Hok2 as [O1 O2 O3 O4 O5]. rewrite (desc_same (insert_file pid newfd f s1)) in O1, O4 by done.
  split; cbn [pipes set_next_fd next_pipe_id next_fd insert_file set_open_files].
  - by rewrite (desc_same (insert_file pid newfd f s2)), Hd by done.
  - intros id Hid. rewrite F3. by apply O2.
  - rewrite F3. apply O3.
  - rewrite (desc_same (insert_file pid newfd f s2)), Hd by done. done.
  - intros p n. rewrite F2, N1. intros [[<- <-]|[_ Hn]]%lookup_insert_Some; [|by apply (fo_next_fd _ Hok p)].
    unfold saturating_add_i32, FIRST_USER_FD, I32_MAX in *. destruct (next_fd s !! pid) as [x|] eqn:Ex; cbn [from_option id].
    + pose proof (fo_next_fd _ Hok pid x Ex). unfold FIRST_USER_FD, I32_MAX in *. destruct (Z.leb_spec x newfd); lia.
    + destruct (Z.leb_spec 3 newfd); lia.
Qed.

(** ** Making a pipe *)
Lemma count_no_end (id : Z) (d : gmap (Z * Z) OpenFile) ps : pipes_ok d ps -> ps !! id = None -> count (read_end id) d = 0 /\ count (write_end id) d = 0.
Proof.
  intros [_ _ Hp] Hid. assert (Hoff : forall k f, d !! k = Some f -> on_pipe id f = false).
  { intros k f Hk. destruct (on_pipe id f) eqn:E; [|done]. destruct (Hp k f id Hk E). congruence. }
  split; apply count_zero; intros k f Hk; by apply (off_pipe id f), (Hoff k).
Qed.
Lemma pipe2_ok pid flags s r s' :
  fs_ok s -> next_pipe_id s < U64_MAX -> (forall a b, r = Ok (a, b) -> a <> b) -> pipe2_for_pid pid flags s = Ret (r, s') ->
  fs_ok s' /\ (r = Err EINVAL /\ s' = s \/
    exists a b n c, r = Ok (a, b) /\ file_of pid a s = None /\ file_of pid b s = None /\
      desc s' = <[(pid, b) := PipeWrite (next_pipe_id s) n c]> (<[(pid, a) := PipeRead (next_pipe_id s) n c]> (desc s)) /\
      pipes s' = <[next_pipe_id s := pipe_new]> (pipes s) /\ next_pipe_id s' = next_pipe_id s + 1).
Proof.
  intros Hok Hid Hdiff. unfold pipe2_for_pid. destruct (has flags _); [intros [= <- <-]; split; [done|by left]|]. cbv zeta.
  set (id := next_pipe_id s) in *. set (s0 := set_next_pipe_id (saturating_add64 id 1) s). set (n := has flags O_NONBLOCK). set (c := has flags O_CLOEXEC).
  assert (Enext : saturating_add64 id 1 = id + 1) by (unfold saturating_add64; lia).
  assert (Hfresh : pipes s !! id = None).
  { destruct (pipes s !! id) as [p|] eqn:E; [|done]. assert (1 <= id < next_pipe_id s) by (apply Hok; rewrite E; by eexists). unfold id in *. lia. }
  assert (Hok0 : fs_ok s0).
  { pose proof Hok as [H1 H2 H3 H4 H5]. split; try done; cbn [next_pipe_id s0 set_next_pipe_id pipes]; rewrite ?Enext; unfold id in *.
    - intros i Hi. specialize (H2 i Hi). lia.
    - lia. }
  destruct (alloc_fd pid s0) as [[a s1]| |] eqn:Ha; cbn [mbind exec_bind]; [|done|done]. apply alloc_fd_from_ok in Ha; [|done|done].
  pose proof (allocated_ok _ _ _ _ _ Ha Hok0) as Hok1. destruct (alloc_fd pid s1) as [[b s2]| |] eqn:Hb; cbn [mbind exec_bind]; [|done|done].
  apply alloc_fd_from_ok in Hb; [|done|done]. pose proof (allocated_ok _ _ _ _ _ Hb Hok1) as Hok2. intros [= <- <-].
  assert (Hab : a <> b) by (by apply Hdiff). clear Hdiff. destruct Ha as [A1 A2 _ A3 A4 A5 _ _ _]. destruct Hb as [B1 B2 _ B3 B4 B5 _ _ _].
  change (desc s0) with (desc s) in A3. change (pipes s0) with (pipes s) in A4. change (next_pipe_id s0) with (saturating_add64 id 1) in A5. rewrite Enext in A5.
  assert (Ed2 : desc s2 = desc s) by congruence. assert (Ep2 : pipes s2 = pipes s) by congruence.
  assert (A1' : desc s !! (pid, a) = None) by (rewrite lookup_desc; exact A1).
  assert (B1' : desc s !! (pid, b) = None) by (rewrite <- A3, lookup_desc; exact B1).
  set (fr := PipeRead id n c : OpenFile). set (fw := PipeWrite id n c : OpenFile).
  destruct (count_no_end id (desc s) (pipes s) (fo_pipes _ Hok) Hfresh) as [R0 W0].
  assert (Hp : pipes_ok (<[(pid, b) := fw]> (<[(pid, a) := fr]> (desc s))) (<[id := pipe_new]> (pipes s))).
  { assert (Hb' : <[(pid, a) := fr]> (desc s) !! (pid, b) = None) by (by rewrite lookup_insert_ne by congruence).
    replace (<[id := pipe_new]> (pipes s)) with (<[id := pipe_new]> (<[id := mkPipe [] 1 0]> (pipes s))) by apply insert_insert_eq.
    apply pipes_ok_add; try done; [intros i Hi; by apply end_elsewhere|..]; [rewrite !count_insert_new, R0 by done|rewrite !count_insert_new, W0 by done|];
      [cbn; by rewrite Z.eqb_refl|cbn; by rewrite Z.eqb_refl|].
    apply pipes_ok_add; try done; [intros i Hi; by apply end_elsewhere|..]; [rewrite count_insert_new, R0 by done|rewrite count_insert_new, W0 by done|apply Hok];
      cbn; by rewrite ?Z.eqb_refl. }
  assert (Ed : desc (set_pipes (<[id := pipe_new]> (pipes s2)) (insert_file pid b fw (insert_file pid a fr s2))) = <[(pid, b) := fw]> (<[(pid, a) := fr]> (desc s))).
  { rewrite (desc_same (insert_file pid b fw (insert_file pid a fr s2))) by done. by rewrite !desc_insert_file, Ed2. }
  split; [|right; exists a, b, n, c; split; [done|]; split; [exact A1|]; split; [by rewrite <- lookup_desc|]; split; [exact Ed|]; split; [cbn; by rewrite Ep2|cbn; congruence]].
  split; rewrite ?Ed; cbn [pipes set_pipes next_pipe_id insert_file set_open_files next_fd]; rewrite ?Ep2, ?B5, ?A5; try done.
  - intros i [<-|[_ Hi]]%lookup_insert_is_Some; [unfold id; pose proof (fo_next _ Hok); lia|]. pose proof (fo_ids _ Hok i Hi). unfold id. lia.
  - pose proof (fo_next _ Hok). unfold id. lia.
  - unfold FIRST_USER_FD in *. intros k f [[<- _]|[_ [[<- _]|[_ Hk]]%lookup_insert_Some]]%lookup_insert_Some; cbn; [lia|lia|by apply (fo_fds _ Hok k f)].
  - apply Hok2.
Qed.
End Fs.
