(* ===== verification/FsTrace.v ===== *)
(** * What descriptors and pipes promise

    The runs of the runtime, with the bytes that pass through pipes, and the theorems: the
    counters of pipes, the order of bytes, what the two ends see of each other, and what the
    operations do to descriptors. *)

From stdpp Require Import strings.
From S2P Require Import Prelude Errno FsPath FsMount FsTable FsDesc FsRun.
#[local] Open Scope Z_scope.

Inductive event := Quiet | Sent (id : Z) (bytes : list Z) | Received (id : Z) (bytes : list Z).
Definition sent_by (id : Z) (e : event) : list Z := match e with Sent i b => if i =? id then b else [] | _ => [] end.
Definition received_by (id : Z) (e : event) : list Z := match e with Received i b => if i =? id then b else [] | _ => [] end.
Definition sent (id : Z) (log : list event) : list Z := mjoin (sent_by id <$> log).
Definition received (id : Z) (log : list event) : list Z := mjoin (received_by id <$> log).

Lemma sent_snoc id log e : sent id (log ++ [e]) = sent id log ++ sent_by id e.
Proof. unfold sent. rewrite fmap_app, join_app. cbn. by rewrite app_nil_r. Qed.
Lemma received_snoc id log e : received id (log ++ [e]) = received id log ++ received_by id e.
Proof. unfold received. rewrite fmap_app, join_app. cbn. by rewrite app_nil_r. Qed.

Lemma pop_bytes_eq n d : pop_bytes n d = (take n d, drop n d).
Proof. revert n. induction d as [|b d IH]; intros [|n]; cbn; try done. by rewrite IH. Qed.

Section Runs.
Context {FileSystem Inode : Type} `{Vfs FileSystem Inode}.
Abbreviation OpenFile := (@OpenFile FileSystem Inode).
Abbreviation FsState := (@FsState FileSystem Inode).
Implicit Types s : FsState.
Context (mount_table : @MountTable FileSystem) (target_pid : Z -> option Z) (archive : str -> option (list Z)).

(** ** Steps *)
Definition read_event (pid fd : Z) (r : Result (list Z) Z) s : event :=
  match file_of pid fd s, r with Some (PipeRead id _ _), Ok bytes => Received id bytes | _, _ => Quiet end.
Definition write_event (pid fd : Z) (bytes : list Z) (r : Result Z Z) s : event :=
  match file_of pid fd s, r with Some (PipeWrite id _ _), Ok n => Sent id (take (Z.to_nat n) bytes) | _, _ => Quiet end.

(** One call.  A process opens fewer than 2^64 pipes and shares an end fewer than 2^32
    times, and the two ends of a pipe get different numbers, which fails only when the
    numbers run out. *)
Inductive step : FsState -> event -> FsState -> Prop :=
| step_open s pid path flags r s' : open_path_for_pid mount_table target_pid archive pid path flags s = Ret (r, s') -> step s Quiet s'
| step_pipe s pid flags r s' :
    pipe2_for_pid pid flags s = Ret (r, s') -> next_pipe_id s < U64_MAX -> (forall a b, r = Ok (a, b) -> a <> b) -> step s Quiet s'
| step_read s pid fd n r s' : read_for_pid pid fd n s = (r, s') -> step s (read_event pid fd r s) s'
| step_write s pid fd bytes r s' : write_for_pid pid fd bytes s = (r, s') -> step s (write_event pid fd bytes r s) s'
| step_close s pid fd r s' : close_for_pid pid fd s = (r, s') -> step s Quiet s'
| step_dup s pid oldfd min_fd c r s' : min_fd <= I32_MAX -> roomy (pipes s) -> dup_for_pid pid oldfd min_fd c s = Ret (r, s') -> step s Quiet s'
| step_dup2 s pid oldfd newfd c r s' : newfd <= I32_MAX -> roomy (pipes s) -> dup2_for_pid pid oldfd newfd c s = (r, s') -> step s Quiet s'
| step_seek s pid fd off whence r s' : lseek_for_pid pid fd off whence s = (r, s') -> step s Quiet s'
| step_setfl s pid fd flags r s' : fcntl_setfl_for_pid pid fd flags s = (r, s') -> step s Quiet s'
| step_setfd s pid fd c r s' : fcntl_setfd_for_pid pid fd c s = (r, s') -> step s Quiet s'
| step_advance s pid fd n r s' : advance_dir_cursor_for_pid pid fd n s = (r, s') -> step s Quiet s'
| step_chdir s pid path r s' : chdir_for_pid mount_table target_pid pid path s = (r, s') -> step s Quiet s'
| step_fchdir s pid fd r s' : fchdir_for_pid pid fd s = (r, s') -> step s Quiet s'
| step_access s pid path mode r s' : access_path_for_pid mount_table target_pid pid path mode s = (r, s') -> step s Quiet s'
| step_getcwd s pid r s' : getcwd_for_pid pid s = (r, s') -> step s Quiet s'
| step_exit s pid : step s Quiet (drop_process_fds pid s)
| step_map s pid fd r s' : create_mmap_backing_for_pid pid fd s = (r, s') -> step s Quiet s'
| step_retain s id r s' : retain_mmap_backing id s = (r, s') -> step s Quiet s'
| step_release s id : step s Quiet (release_mmap_backing id s).

Inductive run : list event -> FsState -> Prop :=
| run_start : run [] fs_new
| run_step log s e s' : run log s -> step s e s' -> run (log ++ [e]) s'.

(** ** Bytes in pipes *)
Definition log_ok (log : list event) s : Prop :=
  (forall id p, pipes s !! id = Some p -> sent id log = received id log ++ data p) /\
  (forall id, received id log `prefix_of` sent id log) /\
  (forall id, next_pipe_id s <= id -> sent id log = [] /\ received id log = []).

(** An event without bytes. *)
Definition silent (e : event) : Prop := forall id, sent_by id e = [] /\ received_by id e = [].
Lemma silent_quiet : silent Quiet.
Proof. done. Qed.
Lemma silent_received id : silent (Received id []).
Proof. intros i. cbn. by destruct (_ =? _). Qed.
Lemma silent_sent id : silent (Sent id []).
Proof. intros i. cbn. by destruct (_ =? _). Qed.

Lemma log_ok_silent log s e s' :
  silent e -> (forall id p', pipes s' !! id = Some p' -> (exists p, pipes s !! id = Some p /\ data p' = data p) \/ next_pipe_id s <= id /\ data p' = []) ->
  next_pipe_id s <= next_pipe_id s' -> log_ok log s -> log_ok (log ++ [e]) s'.
Proof.
  intros Hs Hp Hn (H1 & H2 & H3).
  assert (E : forall id, sent id (log ++ [e]) = sent id log /\ received id (log ++ [e]) = received id log).
  { intros id. destruct (Hs id) as [E1 E2]. by rewrite sent_snoc, received_snoc, E1, E2, !app_nil_r. }
  split; [|split].
  - intros id p' Hid. destruct (E id) as [-> ->]. destruct (Hp id p' Hid) as [(p & Ep & ->)|[Hnew ->]]; [by apply H1|].
    destruct (H3 id Hnew) as [-> ->]. done.
  - intros id. destruct (E id) as [-> ->]. apply H2.
  - intros id Hid. destruct (E id) as [-> ->]. apply H3. lia.
Qed.
Lemma log_ok_harmless log s e s' : silent e -> harmless s s' -> fs_ok s -> log_ok log s -> fs_ok s' /\ log_ok (log ++ [e]) s'.
Proof.
  intros He Hh Hok Hlog. destruct (Hh Hok) as (Hok' & Hk & E). split; [done|]. apply (log_ok_silent log s); [done| |lia|done]. intros id p' Hp. left. by apply Hk.
Qed.

(** Reading and writing, on every kind of file. *)
Lemma read_step pid fd n s r s' :
  read_for_pid pid fd n s = (r, s') ->
  harmless s s' /\ silent (read_event pid fd r s) \/
  exists id a c p, file_of pid fd s = Some (PipeRead id a c) /\ pipes s !! id = Some p /\
    s' = set_pipes (<[id := with_data (drop (Z.to_nat n) (data p)) p]> (pipes s)) s /\ read_event pid fd r s = Received id (take (Z.to_nat n) (data p)).
Proof.
  unfold read_for_pid, read_event. destruct (file_of pid fd s) as [f|] eqn:Hf; [|intros [= <- <-]; left; split; [apply harmless_refl|done]].
  destruct (Z.eqb_spec n 0) as [->|Hn].
  { intros [= <- <-]. left. split; [apply harmless_refl|]. destruct f; try done. apply silent_received. }
  destruct f as [v|v|id a c|id a c]; try (intros [= <- <-]; left; split; [apply harmless_refl|done]).
  - destruct (match static_data v with Some d => _ | None => _ end) as [bytes|e]; intros [= <- <-]; [|left; split; [apply harmless_refl|done]].
    left. split; [|done]. by apply (harmless_retag _ _ _ _ _ Hf).
  - destruct (pipes s !! id) as [p|] eqn:Hp; [|intros [= <- <-]; left; split; [apply harmless_refl|done]].
    rewrite pop_bytes_eq. destruct (Nat.ltb_spec 0 (length (take (Z.to_nat n) (data p)))) as [Hl|Hl].
    + intros [= <- <-]. right. by exists id, a, c, p.
    + assert (E : data p = [] \/ Z.to_nat n = O) by (rewrite length_take in Hl; destruct (data p); [by left|right; cbn in Hl; lia]).
      assert (Hh : harmless s (set_pipes (<[id := with_data (drop (Z.to_nat n) (data p)) p]> (pipes s)) s)).
      { assert (with_data (drop (Z.to_nat n) (data p)) p = p) as ->.
        { destruct p as [d x y]. cbn in *. destruct E as [->| ->]; [by rewrite drop_nil|done]. }
        rewrite insert_id by done. by apply harmless_same. }
      destruct (writers p =? 0); intros [= <- <-]; left; (split; [done|]); [apply silent_received|done].
Qed.
Lemma write_step pid fd bytes s r s' :
  write_for_pid pid fd bytes s = (r, s') ->
  harmless s s' /\ silent (write_event pid fd bytes r s) \/
  exists id a c p, file_of pid fd s = Some (PipeWrite id a c) /\ pipes s !! id = Some p /\
    s' = set_pipes (<[id := with_data (data p ++ bytes) p]> (pipes s)) s /\ write_event pid fd bytes r s = Sent id bytes.
Proof.
  unfold write_for_pid, write_event. destruct (file_of pid fd s) as [f|] eqn:Hf; [|intros [= <- <-]; left; split; [apply harmless_refl|done]].
  case_bool_decide as Hb.
  { subst. intros [= <- <-]. left. split; [apply harmless_refl|]. destruct f; try done. apply silent_sent. }
  destruct f as [v|v|id a c|id a c]; try (intros [= <- <-]; left; split; [apply harmless_refl|done]).
  destruct (pipes s !! id) as [p|] eqn:Hp; [|intros [= <- <-]; left; split; [apply harmless_refl|done]].
  destruct (readers p =? 0); intros [= <- <-]; [left; split; [apply harmless_refl|done]|]. right. exists id, a, c, p. rewrite Nat2Z.id, firstn_all. done.
Qed.

(** Every call keeps the invariant and the account of the bytes. *)
Lemma move_bytes log s id p d e :
  fs_ok s -> log_ok log s -> pipes s !! id = Some p ->
  (sent_by id e = [] /\ data p = received_by id e ++ d \/ received_by id e = [] /\ d = data p ++ sent_by id e) ->
  (forall i, i <> id -> sent_by i e = [] /\ received_by i e = []) ->
  log_ok (log ++ [e]) (set_pipes (<[id := with_data d p]> (pipes s)) s).
Proof.
  intros Hok (H1 & H2 & H3) Hp Hd Hother. pose proof (fo_ids _ Hok id ltac:(by eexists)) as Hid. pose proof (H1 id p Hp) as Hs.
  assert (Hnow : sent id (log ++ [e]) = received id (log ++ [e]) ++ d).
  { rewrite sent_snoc, received_snoc, Hs. destruct Hd as [[-> ->]|[-> ->]]; by rewrite ?app_nil_r, <- ?app_assoc. }
  split; [|split].
  - intros i q Hq. cbn [pipes set_pipes] in Hq. apply lookup_insert_Some in Hq as [[<- <-]|[Hne Hi]]; [exact Hnow|]. destruct (Hother i ltac:(congruence)) as [E1 E2].
    rewrite sent_snoc, received_snoc, E1, E2, !app_nil_r. by apply H1.
  - intros i. destruct (decide (i = id)) as [->|Hne]; [exists d; exact Hnow|]. destruct (Hother i Hne) as [E1 E2].
    rewrite sent_snoc, received_snoc, E1, E2, !app_nil_r. apply H2.
  - intros i Hi. cbn in Hi. destruct (Hother i ltac:(lia)) as [E1 E2]. rewrite sent_snoc, received_snoc, E1, E2, !app_nil_r. by apply H3.
Qed.
Lemma open_path_harmless pid path flags s r s' : open_path_for_pid mount_table target_pid archive pid path flags s = Ret (r, s') -> harmless s s'.
Proof.
  unfold open_path_for_pid. pose proof (resolve_state target_pid pid path s) as Es. destruct (resolve_path_for_pid _ pid path s) as [q s1]. cbn in Es. subst s1.
  pose proof (harmless_cwd pid s) as Hc. destruct q as [q|e]; [|intros [= <- <-]; done]. destruct (resolve q mount_table) as [[t fs]|]; [|intros [= <- <-]; done].
  destruct (lookup_path _ _) as [i|e]; [|intros [= <- <-]; done]. destruct (metadata i) as [md|e]; [|intros [= <- <-]; done].
  intros R. apply open_harmless in R. by apply (harmless_trans _ (ensure_cwd pid s)).
Qed.
Lemma chdir_harmless pid path s r s' : chdir_for_pid mount_table target_pid pid path s = (r, s') -> harmless s s'.
Proof.
  unfold chdir_for_pid. pose proof (resolve_state target_pid pid path s) as Es. destruct (resolve_path_for_pid _ pid path s) as [q s1]. cbn in Es. subst s1.
  pose proof (harmless_cwd pid s) as Hc. destruct q as [q|e]; [|intros [= <- <-]; done]. destruct (meta_of _ _) as [md|e]; [|intros [= <- <-]; done].
  destruct (negb _); intros [= <- <-]; [done|]. apply (harmless_trans _ (ensure_cwd pid s)); [done|apply set_cwd_harmless].
Qed.
Lemma access_harmless pid path mode s r s' : access_path_for_pid mount_table target_pid pid path mode s = (r, s') -> harmless s s'.
Proof.
  unfold access_path_for_pid. pose proof (resolve_state target_pid pid path s) as Es. destruct (resolve_path_for_pid _ pid path s) as [q s1]. cbn in Es. subst s1.
  pose proof (harmless_cwd pid s) as Hc. destruct q as [q|e]; [|intros [= <- <-]; done]. destruct (meta_of _ _) as [md|e]; [|intros [= <- <-]; done].
  destruct (has _ 2); [intros [= <- <-]; done|]. destruct (_ && _); [intros [= <- <-]; done|]. destruct (_ && _); intros [= <- <-]; done.
Qed.

Lemma step_ok log s e s' : step s e s' -> fs_ok s -> log_ok log s -> fs_ok s' /\ log_ok (log ++ [e]) s'.
Proof.
  intros Hst Hok Hlog. destruct Hst as [s pid path fl r s' R|s pid fl r s' R Hid Hd|s pid fd n r s' R|s pid fd b r s' R|s pid fd r s' R|s pid o m c r s' Hm Hr R
    |s pid o m c r s' Hm Hr R|s pid fd o w r s' R|s pid fd fl r s' R|s pid fd c r s' R|s pid fd n r s' R|s pid path r s' R|s pid fd r s' R|s pid path md r s' R
    |s pid r s' R|s pid|s pid fd r s' R|s id r s' R|s id].
  2: { destruct (pipe2_ok _ _ _ _ _ Hok Hid Hd R) as [Hok' [[-> ->]|(a & b & n & c & -> & _ & _ & _ & Ep & En)]];
         (split; [done|]); apply (log_ok_silent log s); try done; [intros id p' Hp; left; by exists p'| |lia].
       intros id p' Hp. rewrite Ep in Hp. apply lookup_insert_Some in Hp as [[<- <-]|[_ Hp]]; [right; split; [lia|done]|left; by exists p']. }
  2: { destruct (read_step _ _ _ _ _ _ R) as [[Hh Hs]|(id & a & c & p & Hf & Hp & -> & ->)]; [by apply (log_ok_harmless log s)|].
       split; [by apply fs_ok_pipe_data|]. apply move_bytes; try done.
       - left. cbn. rewrite Z.eqb_refl. split; [done|]. by rewrite take_drop.
       - intros i Hne. cbn. destruct (Z.eqb_spec id i); [congruence|done]. }
  2: { destruct (write_step _ _ _ _ _ _ R) as [[Hh Hs]|(id & a & c & p & Hf & Hp & -> & ->)]; [by apply (log_ok_harmless log s)|].
       split; [by apply fs_ok_pipe_data|]. apply move_bytes; try done.
       - right. cbn. by rewrite Z.eqb_refl.
       - intros i Hne. cbn. destruct (Z.eqb_spec id i); [congruence|done]. }
  all: apply (log_ok_harmless log s); try done;
    eauto using open_path_harmless, close_harmless, dup_harmless, dup2_harmless, lseek_harmless, setfl_harmless, setfd_harmless, advance_harmless,
      chdir_harmless, fchdir_harmless, access_harmless, drop_harmless, create_backing_harmless, retain_backing_harmless, release_backing_harmless.
  injection R as _ <-. apply harmless_cwd.
Qed.
Lemma run_ok log s : run log s -> fs_ok s /\ log_ok log s.
Proof.
  induction 1 as [|log s e s' _ [Hok Hlog] Hst]; [|by eapply step_ok]. split; [apply fs_new_ok|]. split; [|split].
  - intros id p Hp. done.
  - intros id. done.
  - done.
Qed.


(** C22. In every state that calls can reach, the counters of a pipe are the numbers of
    descriptors that refer to its reading and its writing end, over all processes; a pipe
    lives exactly as long as such a descriptor, and every descriptor of a pipe finds it.
    Descriptor numbers are never negative.  The calls are limited in three ways: a new pipe
    gets two different numbers (it gets one and loses its reading end when only the largest
    number is left), fewer than 2^64 pipes are opened, and no end is shared 2^32 times. *)
Theorem reachable_pipe_counts log s :
  run log s ->
  (forall id p, pipes s !! id = Some p ->
     readers p = count (read_end id) (desc s) /\ writers p = count (write_end id) (desc s) /\ 0 < readers p + writers p) /\
  (forall k f id, desc s !! k = Some f -> on_pipe id f = true -> is_Some (pipes s !! id)) /\
  (forall pid fd, is_Some (file_of pid fd s) -> 0 <= fd <= I32_MAX).
Proof.
  intros Hr. destruct (run_ok _ _ Hr) as [[H1 _ _ H4 _] _]. split; [|split].
  - intros id p Hp. destruct (po_count _ _ H1 id p Hp). by pose proof (po_used _ _ H1 id p Hp).
  - apply H1.
  - intros pid fd [f Hf]. rewrite <- lookup_desc in Hf. by apply (H4 (pid, fd) f).
Qed.

(** C21. A pipe delivers the bytes that were written to it, once, in order, and nothing else:
    whatever calls come between, what has been read is a prefix of what has been written,
    and what is missing is what the pipe still holds. *)
Theorem pipe_delivers_in_order log s id :
  run log s ->
  received id log `prefix_of` sent id log /\
  (forall p, pipes s !! id = Some p -> sent id log = received id log ++ data p).
Proof. intros Hr. destruct (run_ok _ _ Hr) as [_ (H1 & H2 & _)]. split; [apply H2|apply H1]. Qed.

(** ** The two ends *)
Definition no_end (P : OpenFile -> bool) s : Prop := forall k f, desc s !! k = Some f -> P f = false.

Lemma no_end_count P s : count P (desc s) = 0 <-> no_end P s.
Proof. apply count_zero. Qed.

(** Reading takes as many bytes as there are and fit, and reports the end of the data
    exactly when the pipe is empty and no process has its writing end open any more, and
    [EAGAIN] when it is empty and one has; writing appends everything, and fails with
    [EPIPE] exactly when no process has the reading end open.  Polling says beforehand which
    of these it will be. *)
Theorem pipe_ends_see_each_other s pid fd id nb c tty :
  fs_ok s -> 2 < fd ->
  (file_of pid fd s = Some (PipeRead id nb c) -> exists p, pipes s !! id = Some p /\
     (forall n, 0 < n -> exists r, read_for_pid pid fd n s = (r, set_pipes (<[id := with_data (drop (Z.to_nat n) (data p)) p]> (pipes s)) s) /\
        (data p <> [] -> r = Ok (take (Z.to_nat n) (data p))) /\
        (data p = [] -> no_end (write_end id) s -> r = Ok []) /\ (data p = [] -> ~ no_end (write_end id) s -> r = Err EAGAIN)) /\
     exists v, poll_revents_for_pid tty pid fd POLLIN s = Ok v /\
       (has v POLLIN = true <-> (read_for_pid pid fd 1 s).1 <> Err EAGAIN) /\ (has v POLLHUP = true <-> no_end (write_end id) s)) /\
  (file_of pid fd s = Some (PipeWrite id nb c) -> exists p, pipes s !! id = Some p /\
     (forall bytes, bytes <> [] ->
        (no_end (read_end id) s -> write_for_pid pid fd bytes s = (Err EPIPE, s)) /\
        (~ no_end (read_end id) s -> write_for_pid pid fd bytes s =
           (Ok (Z.of_nat (length bytes)), set_pipes (<[id := with_data (data p ++ bytes) p]> (pipes s)) s))) /\
     exists v, poll_revents_for_pid tty pid fd POLLOUT s = Ok v /\ (has v POLLOUT = true <-> ~ no_end (read_end id) s) /\
       (has v POLLERR = true <-> no_end (read_end id) s)).
Proof.
  intros Hok Hfd. split; intros Hf.
  - destruct (po_pipe _ _ (fo_pipes _ Hok) (pid, fd) _ id ltac:(by rewrite lookup_desc)) as [p Hp]; [unfold on_pipe; cbn; by rewrite Z.eqb_refl|].
    destruct (po_count _ _ (fo_pipes _ Hok) id p Hp) as [_ Hw]. exists p. split; [done|].
    assert (Hread : forall n, 0 < n -> exists r, read_for_pid pid fd n s = (r, set_pipes (<[id := with_data (drop (Z.to_nat n) (data p)) p]> (pipes s)) s) /\
      r = if decide (data p = []) then if writers p =? 0 then Ok [] else Err EAGAIN else Ok (take (Z.to_nat n) (data p))).
    { intros n Hn. unfold read_for_pid. rewrite Hf, Hp, pop_bytes_eq. destruct (Z.eqb_spec n 0); [lia|].
      destruct (Nat.ltb_spec 0 (length (take (Z.to_nat n) (data p)))) as [Hl|Hl]; rewrite length_take in Hl.
      - eexists. split; [done|]. rewrite decide_False; [done|]. intros E. rewrite E in Hl. cbn in Hl. lia.
      - rewrite decide_True; [|destruct (data p); [done|cbn in Hl; lia]]. destruct (writers p =? 0); by eexists. }
    split.
    + intros n Hn. destruct (Hread n Hn) as (r & R & Er). exists r. split; [done|]. rewrite <- no_end_count, <- Hw. subst r. split; [|split].
      * intros Hd. by rewrite decide_False.
      * intros Hd ->. by rewrite decide_True.
      * intros Hd Hne. rewrite decide_True by done. by destruct (Z.eqb_spec (writers p) 0).
    + destruct (Hread 1 ltac:(lia)) as (r & R & Er). rewrite R. cbn [fst]. unfold poll_revents_for_pid.
      destruct (Z.ltb_spec fd 0); [lia|]. destruct (Z.leb_spec fd 2); [lia|]. rewrite Hf, Hp. eexists. split; [done|]. subst r.
      rewrite <- no_end_count, <- Hw.
      change (has POLLIN POLLIN) with true. cbn [andb]. destruct (Z.eqb_spec (writers p) 0) as [W0|W0]; rewrite ?orb_true_r, ?orb_false_r.
      * change (Z.lor POLLIN POLLHUP) with 17. split; [split; [intros _; case_decide; congruence|done]|done].
      * case_bool_decide as Hd; [rewrite decide_True by done; split; split; done|rewrite decide_False by done; split; split; done].
  - destruct (po_pipe _ _ (fo_pipes _ Hok) (pid, fd) _ id ltac:(by rewrite lookup_desc)) as [p Hp]; [unfold on_pipe; cbn; by rewrite Z.eqb_refl|].
    destruct (po_count _ _ (fo_pipes _ Hok) id p Hp) as [Hr _]. exists p. split; [done|]. split.
    + intros bytes Hb. rewrite <- no_end_count, <- Hr. unfold write_for_pid. rewrite Hf, Hp, bool_decide_eq_false_2 by done. destruct (Z.eqb_spec (readers p) 0); split; done.
    + unfold poll_revents_for_pid. destruct (Z.ltb_spec fd 0); [lia|]. destruct (Z.leb_spec fd 2); [lia|]. rewrite Hf, Hp. eexists. split; [done|].
      rewrite <- no_end_count, <- Hr. destruct (Z.eqb_spec (readers p) 0); split; split; done.
Qed.

End Runs.
