(* ===== verification/FsFiles.v ===== *)
(** * What the calls do to descriptors, and the defects of their numbers

    Closing, duplicating and leaving as changes of the map of descriptors; when the search
    for a number ends; reading and seeking; concrete runs. *)

From stdpp Require Import strings.
From S2P Require Import Prelude Errno FsPath FsMount FsTable FsDesc FsRun FsTrace.
#[local] Open Scope Z_scope.

Section Files.
Context {FileSystem Inode : Type} `{Vfs FileSystem Inode}.
Abbreviation OpenFile := (@OpenFile FileSystem Inode).
Abbreviation FsState := (@FsState FileSystem Inode).
Implicit Types s : FsState.

Lemma duplicate_desc (f : OpenFile) s : desc (duplicate_open_file f s) = desc s.
Proof. apply desc_same, duplicate_frame. Qed.

(** ** Numbers *)
(** Where the search starts. *)
Definition search_start (pid min_fd : Z) s : Z := Z.max (Z.max min_fd FIRST_USER_FD) (default 0 (next_fd s !! pid)).

Lemma search_start_bounds s pid min_fd :
  fs_ok s -> min_fd <= I32_MAX -> 3 <= Z.max min_fd FIRST_USER_FD <= I32_MAX /\ 0 <= default 0 (next_fd s !! pid) <= I32_MAX.
Proof.
  intros Hok Hmin. split; [unfold FIRST_USER_FD, I32_MAX in *; lia|]. destruct (next_fd s !! pid) as [n|] eqn:E; cbn; [|unfold I32_MAX; lia].
  pose proof (fo_next_fd _ Hok pid n E). unfold FIRST_USER_FD in *. lia.
Qed.
Lemma alloc_fd_from_finds s pid min_fd y :
  fs_ok s -> min_fd <= I32_MAX -> search_start pid min_fd s <= y <= I32_MAX -> file_of pid y s = None ->
  exists fd s', alloc_fd_from pid min_fd s = Ret (fd, s') /\ file_of pid fd s = None /\ search_start pid min_fd s <= fd <= I32_MAX /\
    forall y, search_start pid min_fd s <= y < fd -> is_Some (file_of pid y s).
Proof.
  intros Hok Hmin Hy Hfree. destruct (search_start_bounds s pid min_fd Hok Hmin) as [Hs Hd]. unfold search_start in *. set (start := Z.max min_fd FIRST_USER_FD) in *.
  rewrite <- table_lookup in Hfree. destruct (least_free _ _ _ (proj1 Hy) Hfree) as (x & Hx & Hnone & Hall).
  pose proof (filled_size _ _ _ Hall) as Hsize. rewrite table_lookup in Hnone. setoid_rewrite table_lookup in Hall.
  assert (El : alloc_fd_from pid min_fd s = Ret (x, set_next_fd (<[pid := saturating_add_i32 x 1]> (next_fd s)) (set_open_files (<[pid := table_of pid s]> (open_files s)) s))).
  { unfold alloc_fd_from. fold start.
    assert ((if default start (next_fd s !! pid) <? start then start else default start (next_fd s !! pid)) = Z.max start (default 0 (next_fd s !! pid))) as ->.
    { destruct (next_fd s !! pid) as [n|]; cbn [from_option id]; [destruct (Z.ltb_spec n start); lia|destruct (Z.ltb_spec start start); lia]. }
    rewrite (free_fd_loop_reaches _ _ _ x); [done|lia|lia|by rewrite table_lookup|intros z Hz; rewrite table_lookup; by apply Hall|lia|lia]. }
  eexists x, _. split; [exact El|]. split; [done|]. split; [lia|]. intros z Hz. apply Hall. lia.
Qed.

(** The first free number at or above the place where the search starts. *)
Definition first_free (pid min_fd fd : Z) s : Prop :=
  file_of pid fd s = None /\ search_start pid min_fd s <= fd <= I32_MAX /\
  forall y, search_start pid min_fd s <= y < fd -> is_Some (file_of pid y s).
(** There is one. *)
Definition number_left (pid min_fd : Z) s : Prop := exists y, search_start pid min_fd s <= y <= I32_MAX /\ file_of pid y s = None.

(** The search looks at the tables and the next numbers only. *)
Lemma alloc_fd_from_same s pid min_fd :
  fs_ok s -> min_fd <= I32_MAX -> number_left pid min_fd s ->
  exists fd, first_free pid min_fd fd s /\ forall s1, open_files s1 = open_files s -> next_fd s1 = next_fd s ->
    exists s2, alloc_fd_from pid min_fd s1 = Ret (fd, s2) /\ open_files s2 = <[pid := table_of pid s1]> (open_files s1) /\
      pipes s2 = pipes s1 /\ next_pipe_id s2 = next_pipe_id s1 /\ next_fd s2 = <[pid := saturating_add_i32 fd 1]> (next_fd s1).
Proof.
  intros Hok Hmin (y & Hy & Hfree). destruct (alloc_fd_from_finds s pid min_fd y Hok Hmin Hy Hfree) as (fd & s' & R & H1 & H2 & H3).
  exists fd. split; [done|]. intros s1 E1 E2. unfold alloc_fd_from, table_of in R |- *. rewrite E1, E2 in *.
  destruct (free_fd_loop _ _ _) as [x| |]; cbn [mbind exec_bind] in *; [|done|done]. injection R as -> _. eexists. split; [done|]. cbn. by rewrite ?E1, ?E2.
Qed.

Lemma dup_result s pid fd min_fd c f :
  fs_ok s -> min_fd <= I32_MAX -> file_of pid fd s = Some f -> number_left pid min_fd s ->
  exists new s', dup_for_pid pid fd min_fd c s = Ret (Ok new, s') /\ first_free pid min_fd new s /\
    desc s' = <[(pid, new) := with_cloexec c f]> (desc s).
Proof.
  intros Hok Hmin Hf Hleft. destruct (alloc_fd_from_same s pid min_fd Hok Hmin Hleft) as (new & Hnew & Hall). unfold dup_for_pid. rewrite Hf.
  set (g := with_cloexec c f). destruct (duplicate_frame g s) as (F1 & F2 & _). destruct (Hall _ F1 F2) as (s2 & R & E & _). rewrite R. cbn [mbind exec_bind].
  eexists new, _. split; [done|]. split; [done|]. rewrite desc_insert_file. f_equal. rewrite (desc_touch pid (duplicate_open_file g s)) by done. apply duplicate_desc.
Qed.

Lemma file_of_desc s1 s2 pid fd : desc s1 = desc s2 -> file_of pid fd s1 = file_of pid fd s2.
Proof. intros E. by rewrite <- !lookup_desc, E. Qed.

Lemma pipe2_result s pid flags y1 y2 :
  fs_ok s -> has flags (not32 (Z.lor O_NONBLOCK O_CLOEXEC)) = false ->
  search_start pid FIRST_USER_FD s <= y1 < y2 -> y2 <= I32_MAX -> file_of pid y1 s = None -> file_of pid y2 s = None ->
  exists a b s', pipe2_for_pid pid flags s = Ret (Ok (a, b), s') /\ first_free pid FIRST_USER_FD a s /\
    a < b <= I32_MAX /\ file_of pid b s = None /\ (forall y, a < y < b -> is_Some (file_of pid y s)) /\
    let n := has flags O_NONBLOCK in let c := has flags O_CLOEXEC in let id := next_pipe_id s in
    desc s' = <[(pid, b) := PipeWrite id n c]> (<[(pid, a) := PipeRead id n c]> (desc s)) /\
    pipes s' = <[id := pipe_new]> (pipes s).
Proof.
  intros Hok Hfl Hy Hmax F1 F2. destruct (alloc_fd_from_same s pid FIRST_USER_FD Hok ltac:(done)) as (a & Ha & Halla); [exists y1; split; [lia|done]|].
  pose proof Ha as (A1 & A2 & A3). assert (Hay : a <= y1). { destruct (Z.le_gt_cases a y1); [done|]. destruct (A3 y1 ltac:(lia)) as [f Hf]. congruence. }
  assert (Ha0 : 0 <= a) by (destruct (search_start_bounds s pid FIRST_USER_FD Hok ltac:(done)); unfold search_start in A2; lia).
  (* the state after the first number was taken *)
  set (s0 := set_next_pipe_id (saturating_add64 (next_pipe_id s) 1) s). destruct (Halla s0 eq_refl eq_refl) as (s1 & R1 & E1 & P1 & I1 & N1).
  change (table_of pid s0) with (table_of pid s) in E1. change (open_files s0) with (open_files s) in E1. change (next_fd s0) with (next_fd s) in N1.
  assert (Ed1 : desc s1 = desc s) by (by apply (desc_touch pid s)).
  assert (Hsat : saturating_add_i32 a 1 = a + 1) by (unfold saturating_add_i32, I32_MAX in *; lia).
  destruct (Halla s eq_refl eq_refl) as (t1 & Rt & Et & Pt & It & Nt).
  pose proof (allocated_ok _ _ _ _ _ (alloc_fd_from_ok pid FIRST_USER_FD s a t1 Hok ltac:(done) Rt) Hok) as Hok1.
  assert (Edt : desc t1 = desc s) by (by apply (desc_touch pid s)).
  assert (Hst : search_start pid FIRST_USER_FD t1 = a + 1).
  { unfold search_start. rewrite Nt, lookup_insert_eq, Hsat. cbn [from_option id]. unfold search_start in A2. rewrite Z.max_id in *. lia. }
  destruct (alloc_fd_from_same t1 pid FIRST_USER_FD Hok1 ltac:(done)) as (b & Hb & Hallb).
  { exists y2. rewrite Hst, (file_of_desc t1 s) by done. split; [lia|done]. }
  destruct Hb as (B1 & B2 & B3). rewrite Hst in B2, B3. rewrite (file_of_desc t1 s) in B1 by done.
  destruct (Hallb s1 ltac:(by rewrite E1, Et) ltac:(by rewrite N1, Nt)) as (s2 & R2 & E2 & P2 & I2 & N2).
  unfold pipe2_for_pid. rewrite Hfl. cbv zeta. fold s0. unfold alloc_fd. rewrite R1. cbn [mbind exec_bind]. rewrite R2. cbn [mbind exec_bind].
  eexists a, b, _. split; [done|]. split; [done|]. split; [lia|]. split; [done|].
  split; [intros y Hyab; rewrite <- (file_of_desc t1 s) by done; apply B3; lia|].
  assert (Ed2 : desc s2 = desc s) by (rewrite (desc_touch pid s1) by done; done). split.
  - rewrite (desc_same (insert_file pid b (PipeWrite (next_pipe_id s) (has flags O_NONBLOCK) (has flags O_CLOEXEC))
      (insert_file pid a (PipeRead (next_pipe_id s) (has flags O_NONBLOCK) (has flags O_CLOEXEC)) s2))) by done. by rewrite !desc_insert_file, Ed2.
  - cbn. by rewrite P2, P1.
Qed.

Section Open.
Context (mount_table : @MountTable FileSystem) (target_pid : Z -> option Z) (archive : str -> option (list Z)).

Lemma open_result s pid path flags :
  fs_ok s -> number_left pid FIRST_USER_FD s ->
  exists r s', open_path_for_pid mount_table target_pid archive pid path flags s = Ret (r, s') /\ pipes s' = pipes s /\
    match r with
    | Err _ => desc s' = desc s
    | Ok new => first_free pid FIRST_USER_FD new s /\ exists f, (forall id, on_pipe id f = false) /\ desc s' = <[(pid, new) := f]> (desc s)
    end.
Proof.
  intros Hok Hleft. destruct (alloc_fd_from_same s pid FIRST_USER_FD Hok ltac:(done) Hleft) as (new & Hnew & Hall).
  assert (Hc : forall t : FsState, open_files (ensure_cwd pid t) = open_files t /\ next_fd (ensure_cwd pid t) = next_fd t /\ pipes (ensure_cwd pid t) = pipes t)
    by (intros t; unfold ensure_cwd; by destruct (cwd t !! pid)).
  set (s1 := ensure_cwd pid s). destruct (Hc s) as (C1 & C2 & C3). fold s1 in C1, C2, C3. pose proof (desc_same s s1 C1) as Cd.
  unfold open_path_for_pid. pose proof (resolve_state target_pid pid path s) as Es. destruct (resolve_path_for_pid _ pid path s) as [q s1']. cbn in Es. subst s1'. fold s1.
  destruct q as [q|e]; [|by eexists _, s1]. destruct (resolve q mount_table) as [[t fs]|]; [|by eexists _, s1].
  destruct (lookup_path _ _) as [i|e]; [|by eexists _, s1]. destruct (metadata i) as [md|e]; [|by eexists _, s1].
  unfold open_for_pid. pose proof (resolve_state target_pid pid q s1) as Es. destruct (resolve_path_for_pid _ pid q s1) as [q' s2']. cbn in Es. subst s2'.
  set (s2 := ensure_cwd pid s1). destruct (Hc s1) as (D1 & D2 & D3). fold s2 in D1, D2, D3. rewrite C1 in D1. rewrite C2 in D2. rewrite C3 in D3. pose proof (desc_same s s2 D1) as Dd.
  destruct q' as [q'|e]; [|by eexists _, s2]. cbv zeta. destruct (has flags _); [by eexists _, s2|]. destruct (negb _); [by eexists _, s2|].
  match goal with |- context [match ?x with Ok f => _ | Err e => Ret (Err e, s2) end] => destruct x as [f|e] eqn:Ef end; [|by eexists _, s2].
  destruct (Hall s2 D1 D2) as (s3 & R & E3 & P3 & _). unfold alloc_fd. rewrite R. cbn [mbind exec_bind]. eexists (Ok new), _. split; [done|]. split; [cbn; congruence|].
  split; [done|]. exists f. split.
  - intros id. destruct (md_file_type _); try discriminate; [destruct (has flags O_DIRECTORY); [discriminate|]|]; by injection Ef as <-.
  - rewrite desc_insert_file. f_equal. rewrite (desc_touch pid s2) by done. exact Dd.
Qed.

(** C23. The calls change the descriptors they name and no other, and leave the descriptors as
    they were when they fail.  [close] removes one descriptor.  [dup] puts the file at the
    first free number at or above where its search starts (the limit asked for, the first
    user number and the next number of the process); [open] puts a file or directory there,
    and [pipe2] the two ends of a new pipe at the first two free numbers.  These three return
    when such numbers are left up to the largest, which is a condition here: else their search
    does not end ([dup2_to_the_limit_blocks_allocation]).
    [dup2] refuses a negative number, and else puts the file at the number asked for, closing
    what was there, and does nothing when both numbers are the same.  The end of a process
    removes its descriptors and those of no other process. *)
Theorem descriptors_change_as_asked s pid fd :
  fs_ok s ->
  (let (r, s') := close_for_pid pid fd s in
   match file_of pid fd s with
   | None => r = Err EBADF /\ s' = s
   | Some _ => r = Ok tt /\ desc s' = delete (pid, fd) (desc s)
   end) /\
  (forall min_fd c, min_fd <= I32_MAX ->
   match file_of pid fd s with
   | None => dup_for_pid pid fd min_fd c s = Ret (Err EBADF, s)
   | Some f => number_left pid min_fd s ->
       exists new s', dup_for_pid pid fd min_fd c s = Ret (Ok new, s') /\ first_free pid min_fd new s /\
         desc s' = <[(pid, new) := with_cloexec c f]> (desc s)
   end) /\
  (forall path flags, number_left pid FIRST_USER_FD s ->
   exists r s', open_path_for_pid mount_table target_pid archive pid path flags s = Ret (r, s') /\ pipes s' = pipes s /\
     match r with
     | Err _ => desc s' = desc s
     | Ok new => first_free pid FIRST_USER_FD new s /\ exists f, (forall id, on_pipe id f = false) /\ desc s' = <[(pid, new) := f]> (desc s)
     end) /\
  (forall flags y1 y2, search_start pid FIRST_USER_FD s <= y1 < y2 -> y2 <= I32_MAX -> file_of pid y1 s = None -> file_of pid y2 s = None ->
   if has flags (not32 (Z.lor O_NONBLOCK O_CLOEXEC)) then pipe2_for_pid pid flags s = Ret (Err EINVAL, s)
   else exists a b s', pipe2_for_pid pid flags s = Ret (Ok (a, b), s') /\ first_free pid FIRST_USER_FD a s /\
     a < b <= I32_MAX /\ file_of pid b s = None /\ (forall y, a < y < b -> is_Some (file_of pid y s)) /\
     let n := has flags O_NONBLOCK in let c := has flags O_CLOEXEC in let id := next_pipe_id s in
     desc s' = <[(pid, b) := PipeWrite id n c]> (<[(pid, a) := PipeRead id n c]> (desc s)) /\
     pipes s' = <[id := pipe_new]> (pipes s)) /\
  (forall new c, let (r, s') := dup2_for_pid pid fd new c s in
   if new <? 0 then r = Err EBADF /\ s' = s
   else match file_of pid fd s with
   | None => r = Err EBADF /\ s' = s
   | Some f => r = Ok new /\ (new = fd -> s' = s) /\ (new <> fd -> desc s' = <[(pid, new) := with_cloexec c f]> (desc s))
   end) /\
  (forall k, desc (drop_process_fds pid s) !! k = if decide (k.1 = pid) then None else desc s !! k).
Proof.
  intros Hok. split; [|split; [|split; [|split; [|split]]]].
  - destruct (close_for_pid pid fd s) as [r s'] eqn:R. destruct (file_of pid fd s) as [f|] eqn:Hf.
    + destruct (close_ok _ _ _ _ Hf) as (s1 & R1 & E & _). rewrite R1 in R. by injection R as <- <-.
    + rewrite (close_none _ _ _ Hf) in R. by injection R as <- <-.
  - intros min_fd c Hmin. destruct (file_of pid fd s) as [f|] eqn:Hf; [by apply dup_result|]. unfold dup_for_pid. by rewrite Hf.
  - intros path flags. by apply open_result.
  - intros flags y1 y2 Hy Hmax F1 F2. destruct (has flags (not32 _)) eqn:Hfl; [|by apply (pipe2_result s pid flags y1 y2)]. unfold pipe2_for_pid. by rewrite Hfl.
  - intros new c. unfold dup2_for_pid. destruct (Z.ltb_spec new 0); [done|]. destruct (Z.eqb_spec fd new) as [->|Hne].
    { destruct (file_of pid new s) as [f|]; done. }
    destruct (file_of pid fd s) as [f|] eqn:Hf; [|done]. destruct (close_any pid new s) as (rc & s1 & R1 & D1 & _). rewrite R1.
    split; [done|]. split; [congruence|]. intros _. rewrite (desc_same (insert_file pid new (with_cloexec c f) (duplicate_open_file (with_cloexec c f) s1))) by done.
    by rewrite desc_insert_file, duplicate_desc, D1, insert_delete_eq.
  - by apply drop_process_ok.
Qed.
End Open.

(** The search for a descriptor number ends exactly when a number is free between the
    place where it starts and the largest [i32]; it then returns the first such number.
    Otherwise it never ends, whatever the number of rounds. *)
Theorem alloc_fd_ends_iff_a_number_is_free s pid min_fd :
  fs_ok s -> min_fd <= I32_MAX ->
  ((exists y, search_start pid min_fd s <= y <= I32_MAX /\ file_of pid y s = None) ->
   exists fd s', alloc_fd_from pid min_fd s = Ret (fd, s') /\ file_of pid fd s = None /\ search_start pid min_fd s <= fd <= I32_MAX /\
     forall y, search_start pid min_fd s <= y < fd -> is_Some (file_of pid y s)) /\
  ((forall y, search_start pid min_fd s <= y <= I32_MAX -> is_Some (file_of pid y s)) ->
   forall fuel, free_fd_loop fuel (table_of pid s) (search_start pid min_fd s) = OutOfFuel).
Proof.
  intros Hok Hmin. split; [intros (y & Hy & Hfree); by apply (alloc_fd_from_finds s pid min_fd y)|].
  intros Hall fuel. destruct (search_start_bounds s pid min_fd Hok Hmin). apply free_fd_loop_stuck; [unfold search_start; lia|].
  intros y Hy. rewrite table_lookup. by apply Hall.
Qed.

(** ** Reading files *)
Lemma slice_app d off a b :
  0 <= off -> 0 <= a -> 0 <= b ->
  slice d off (a + b) = slice d off a ++ slice d (off + Z.of_nat (length (slice d off a))) b.
Proof.
  intros Ho Ha Hb. unfold slice. destruct (Z.leb_spec (Z.of_nat (length d)) off) as [Hge|Hlt].
  { cbn [app length]. rewrite Z.add_0_r. destruct (Z.leb_spec (Z.of_nat (length d)) off); [done|lia]. }
  set (k := Z.min a (Z.of_nat (length d) - off)). assert (El : Z.of_nat (length (take (Z.to_nat k) (drop (Z.to_nat off) d))) = k).
  { rewrite length_take, length_drop. lia. }
  rewrite El. destruct (Z.leb_spec (Z.of_nat (length d)) (off + k)) as [He|He].
  - rewrite app_nil_r. rewrite !take_ge by (rewrite length_drop; lia). done.
  - assert (k = a) as -> by lia. replace (Z.to_nat (off + a)) with (Z.to_nat off + Z.to_nat a)%nat by lia. rewrite <- drop_drop.
    replace (Z.to_nat (Z.min (a + b) (Z.of_nat (length d) - off))) with (Z.to_nat a + Z.to_nat (Z.min b (Z.of_nat (length d) - (off + a))))%nat by lia.
    by rewrite take_take_drop.
Qed.

(** A file is read from its offset: a read returns the bytes there, as many as are left
    and fit, and moves the offset behind them, so that two reads give what one of their
    joint length gives; reading at a position does not move it.  Seeking sets the offset
    relative to the start, the offset or the end, and fails, changing nothing, when the
    result would be negative or too large; pipes cannot be sought. *)
Theorem reads_follow_the_offset s pid fd f d n m :
  file_of pid fd s = Some (OpenVfs f) -> static_data f = Some d -> 0 <= offset f -> 0 < n -> 0 < m -> Z.of_nat (length d) < 2 ^ 62 -> offset f < 2 ^ 62 ->
  (let (r1, s1) := read_for_pid pid fd n s in
   let (r2, s2) := read_for_pid pid fd m s1 in
   exists b1 b2, r1 = Ok b1 /\ r2 = Ok b2 /\ b1 ++ b2 = slice d (offset f) (n + m) /\ (read_for_pid pid fd (n + m) s).1 = Ok (b1 ++ b2) /\
     read_at_for_pid pid fd (offset f) (n + m) s = Ok (b1 ++ b2) /\
     (b1 = [] <-> Z.of_nat (length d) <= offset f)) /\
  (forall off whence base, base = (if whence =? 0 then Some 0 else if whence =? 1 then Some (offset f) else if whence =? 2 then Some (Z.of_nat (length d)) else None) ->
   - 2 ^ 63 <= off < 2 ^ 63 ->
   match base with
   | Some b => if decide (0 <= b + off < 2 ^ 63)
               then lseek_for_pid pid fd off whence s = (Ok (b + off), insert_file pid fd (OpenVfs (with_offset (b + off) f)) s)
               else lseek_for_pid pid fd off whence s = (Err EINVAL, s)
   | None => lseek_for_pid pid fd off whence s = (Err EINVAL, s)
   end).
Proof.
  intros Hf Hd H0 Hn Hm Hlen Hoff.
  assert (Hread : forall k s' g, 0 < k -> file_of pid fd s' = Some (OpenVfs g) -> static_data g = Some d ->
    read_for_pid pid fd k s' = (Ok (slice d (offset g) k), insert_file pid fd (OpenVfs (with_offset (saturating_add64 (offset g) (Z.of_nat (length (slice d (offset g) k)))) g)) s')).
  { intros k s' g Hk Hg Hs. unfold read_for_pid. rewrite Hg, Hs. destruct (Z.eqb_spec k 0); [lia|done]. }
  split.
  - rewrite (Hread n s f) by done. set (g := with_offset _ f).
    assert (Hl : Z.of_nat (length (slice d (offset f) n)) <= Z.of_nat (length d)).
    { unfold slice. destruct (_ <=? _); [cbn; lia|]. rewrite length_take, length_drop. lia. }
    assert (Eo : offset g = offset f + Z.of_nat (length (slice d (offset f) n))) by (cbn; unfold saturating_add64; lia).
    rewrite (Hread m _ g); [|done|rewrite <- lookup_desc, desc_insert_file; apply lookup_insert_eq|done].
    exists (slice d (offset f) n), (slice d (offset g) m). rewrite (Hread (n + m) s f) by (done || lia). rewrite Eo. cbn [fst].
    rewrite <- slice_app by lia. split; [done|]. split; [done|]. split; [done|]. split; [done|]. split.
    + unfold read_at_for_pid. rewrite Hf, Hd. destruct (Z.eqb_spec (n + m) 0); [lia|done].
    + unfold slice. destruct (Z.leb_spec (Z.of_nat (length d)) (offset f)) as [He|He]; [done|]. split; [|lia]. intros E. apply (f_equal length) in E.
      rewrite length_take, length_drop in E. cbn in E. lia.
  - intros off whence base -> Hoff'. unfold lseek_for_pid. rewrite Hf, Hd.
    assert (as_i64 (Z.of_nat (length d)) = Z.of_nat (length d)) as -> by (unfold as_i64; rewrite Z.mod_small; lia).
    assert (as_i64 (offset f) = offset f) as -> by (unfold as_i64; rewrite Z.mod_small; lia).
    assert (Hend : forall b, 0 <= b < 2 ^ 62 -> (match checked_add_i64 b off with
      | Some next => if next <? 0 then (Err EINVAL, s) else (Ok next, insert_file pid fd (OpenVfs (with_offset next f)) s) | None => (Err EINVAL, s) end) =
      if decide (0 <= b + off < 2 ^ 63) then (Ok (b + off), insert_file pid fd (OpenVfs (with_offset (b + off) f)) s) else (Err EINVAL, s)).
    { intros b Hb. unfold checked_add_i64. destruct (Z.leb_spec (- 9223372036854775808) (b + off)); [|rewrite decide_False by lia; done].
      destruct (Z.leb_spec (b + off) 9223372036854775807); cbn [andb]; [|rewrite decide_False by lia; done].
      destruct (Z.ltb_spec (b + off) 0); [by rewrite decide_False by lia|by rewrite decide_True by lia]. }
    destruct (whence =? 0); [|destruct (whence =? 1); [|destruct (whence =? 2); [|done]]]; (rewrite Hend by lia; by case_decide).
Qed.
End Files.

(** ** A process with a pipe *)
#[local] Existing Instance trace_vfs.
Abbreviation State := (@FsState str (str * list str)).
Definition no_mounts : @MountTable str := mkTable ∅.
Definition nobody (_ : Z) : option Z := None.
Definition no_archive (_ : str) : option (list Z) := None.
Abbreviation ex_run := (run no_mounts nobody no_archive).

Definition ex_piped : State := match pipe2_for_pid 1 0 fs_new with Ret (_, s) => s | _ => fs_new end.
Definition ex_written : State := (write_for_pid 1 4 [10; 20; 30] ex_piped).2.
Definition ex_read : State := (read_for_pid 1 3 2 ex_written).2.
Definition ex_log : list event := [Quiet; Sent 1 [10; 20; 30]; Received 1 [10; 20]].

Lemma ex_piped_run : ex_run [Quiet] ex_piped.
Proof.
  apply (run_step _ _ _ [] fs_new); [constructor|]. apply (step_pipe _ _ _ fs_new 1 0 (Ok (3, 4))); [vm_compute; reflexivity|vm_compute; reflexivity|].
  intros a b [= <- <-]. lia.
Qed.
Lemma ex_read_run : ex_run ex_log ex_read.
Proof.
  apply (run_step _ _ _ [Quiet; Sent 1 [10; 20; 30]] ex_written).
  - apply (run_step _ _ _ [Quiet] ex_piped); [apply ex_piped_run|].
    apply (step_write _ _ _ ex_piped 1 4 [10; 20; 30] (Ok 3)). vm_compute. reflexivity.
  - apply (step_read _ _ _ ex_written 1 3 2 (Ok [10; 20])). vm_compute. reflexivity.
Qed.

Lemma reachable_pipe_counts_witness :
  exists p, pipes ex_read !! 1 = Some p /\ readers p = count (read_end 1) (desc ex_read) /\ writers p = count (write_end 1) (desc ex_read).
Proof.
  destruct (reachable_pipe_counts no_mounts nobody no_archive ex_log ex_read ex_read_run) as [Hc _].
  exists (mkPipe [30] 1 1). assert (E : pipes ex_read !! 1 = Some (mkPipe [30] 1 1)) by (vm_compute; reflexivity).
  split; [exact E|]. destruct (Hc 1 _ E) as (H1 & H2 & _). split; [exact H1|exact H2].
Defined.
Lemma pipe_delivers_in_order_witness : received 1 ex_log `prefix_of` sent 1 ex_log /\ received 1 ex_log = [10; 20].
Proof.
  destruct (pipe_delivers_in_order no_mounts nobody no_archive ex_log ex_read 1 ex_read_run) as [Hp _]. split; [exact Hp|]. vm_compute. reflexivity.
Defined.

Lemma ex_written_ok : fs_ok ex_written.
Proof.
  apply (run_ok no_mounts nobody no_archive [Quiet; Sent 1 [10; 20; 30]]). apply (run_step _ _ _ [Quiet] ex_piped); [apply ex_piped_run|].
  apply (step_write _ _ _ ex_piped 1 4 [10; 20; 30] (Ok 3)). vm_compute. reflexivity.
Qed.
Lemma pipe_ends_see_each_other_witness :
  exists p, pipes ex_written !! 1 = Some p /\ (data p <> [] -> (read_for_pid 1 3 2 ex_written).1 = Ok (take 2 (data p))).
Proof.
  destruct (pipe_ends_see_each_other ex_written 1 3 1 false false false ex_written_ok ltac:(lia)) as [Hr _].
  destruct (Hr ltac:(vm_compute; reflexivity)) as (p & Hp & Hread & _). exists p. split; [exact Hp|]. intros Hd.
  destruct (Hread 2 ltac:(lia)) as (r & R & H1 & _). rewrite R. exact (H1 Hd).
Defined.

Lemma descriptors_change_as_asked_witness :
  (exists s', dup2_for_pid 1 4 9 true ex_written = (Ok 9, s') /\ desc s' = <[(1, 9) := PipeWrite 1 false true]> (desc ex_written)) /\
  exists a b s', pipe2_for_pid 1 0 ex_written = Ret (Ok (a, b), s') /\ a < b.
Proof.
  destruct (descriptors_change_as_asked no_mounts nobody no_archive ex_written 1 4 ex_written_ok) as (_ & _ & _ & Hp & Hd & _). split.
  - specialize (Hd 9 true).
    destruct (dup2_for_pid 1 4 9 true ex_written) as [r s']. assert (E : file_of 1 4 ex_written = Some (PipeWrite 1 false false)) by (vm_compute; reflexivity).
    rewrite E in Hd. destruct Hd as (-> & _ & Hd). exists s'. split; [reflexivity|]. apply Hd. lia.
  - destruct (Hp 0 100 101) as (a & b & s' & R & _ & Hab & _); [vm_compute; split; [discriminate|reflexivity]|vm_compute; discriminate|vm_compute; reflexivity..|].
    exists a, b, s'. split; [exact R|apply Hab].
Defined.

Lemma alloc_fd_ends_iff_a_number_is_free_witness : exists fd s', alloc_fd_from 1 7 ex_written = Ret (fd, s') /\ file_of 1 fd ex_written = None.
Proof.
  destruct (alloc_fd_ends_iff_a_number_is_free ex_written 1 7 ex_written_ok ltac:(unfold I32_MAX; lia)) as [Hend _].
  destruct Hend as (fd & s' & R & Hn & _).
  - exists 100. split; [vm_compute; split; discriminate|vm_compute; reflexivity].
  - exists fd, s'. split; [exact R|exact Hn].
Defined.

Definition ex_file : @VfsOpenFile str (str * list str) := mkVfs [] ([], []) 7 33188 (Some [1; 2; 3; 4; 5]) 1 false.
Definition ex_opened : State := insert_file 1 5 (OpenVfs ex_file) fs_new.
Lemma reads_follow_the_offset_witness :
  exists b1 b2, (read_for_pid 1 5 2 ex_opened).1 = Ok b1 /\ b1 ++ b2 = slice [1; 2; 3; 4; 5] 1 5.
Proof.
  destruct (reads_follow_the_offset ex_opened 1 5 ex_file [1; 2; 3; 4; 5] 2 3 ltac:(vm_compute; reflexivity) eq_refl
    ltac:(cbn; lia) ltac:(lia) ltac:(lia) ltac:(cbn; lia) ltac:(cbn; lia)) as [Hr _].
  destruct (read_for_pid 1 5 2 ex_opened) as [r1 s1]. destruct (read_for_pid 1 5 3 s1) as [r2 s2].
  destruct Hr as (b1 & b2 & -> & _ & E & _). exists b1, b2. split; [reflexivity|exact E].
Defined.

(** ** Defects *)
(** The largest number in use: once [dup2] has placed a descriptor there, the next
    allocation of the process starts at that number and never ends. *)
Definition at_the_limit : State := (dup2_for_pid 1 3 I32_MAX false ex_piped).2.
Lemma dup2_to_the_limit_blocks_allocation fuel : free_fd_loop fuel (table_of 1 at_the_limit) (search_start 1 FIRST_USER_FD at_the_limit) = OutOfFuel.
Proof.
  apply free_fd_loop_stuck; [vm_compute; split; discriminate|]. intros y Hy.
  assert (y = I32_MAX) as -> by (change (search_start 1 FIRST_USER_FD at_the_limit) with I32_MAX in Hy; lia). vm_compute. by eexists.
Qed.
(** When the numbers have reached the limit, both ends of a new pipe get the same number and
    the reading end is lost, although the pipe still counts it. *)
Example pipe_ends_share_the_last_number :
  match pipe2_for_pid 1 0 (close_for_pid 1 I32_MAX at_the_limit).2 with
  | Ret (Ok (a, b), s) => (a =? b) && (count (read_end 2) (desc s) =? 0) && match pipes s !! 2 with Some p => readers p =? 1 | None => false end
  | _ => false
  end = true.
Proof. vm_compute. reflexivity. Qed.
(** Duplicated descriptors do not share their offset: reading through one leaves the other
    where it was. *)
Example dup_does_not_share_the_offset :
  match dup_for_pid 1 5 0 false ex_opened with
  | Ret (Ok new, s) => let s1 := (read_for_pid 1 5 2 s).2 in ((read_for_pid 1 5 1 s1).1, (read_for_pid 1 new 1 s1).1)
  | _ => (Err 0, Err 0)
  end = (Ok [4], Ok [2]).
Proof. vm_compute. reflexivity. Qed.
