(* ===== verification/FsMmap.v ===== *)
(** * Files behind memory mappings

    The memory system calls count the references to mapped files in a map of numbers and ask
    whether a descriptor can be mapped.  Here both are found in the state of the file-system
    runtime: its operations on backings simulate those the system calls are proved against. *)

From stdpp Require Import strings.
From S2P Require Import Prelude Errno OrdMap BTree MapleTree Vma MmTxn MmPlan MmSyscall.
From S2P Require Import FsPath FsMount FsTable FsDesc FsRun FsTrace FsFiles.
#[local] Open Scope Z_scope.

Section Mmap.
Context {FileSystem Inode : Type} `{Vfs FileSystem Inode}.
Abbreviation FsState := (@FsState FileSystem Inode).
Context {M PT : Type}.

(** What the descriptor says about mapping it. *)
Definition mappable (s : FsState) (pid fd : Z) : Result unit Z :=
  match file_of pid fd s with
  | Some (OpenVfs _) => Ok tt
  | Some (OpenDir _) => Err EISDIR
  | _ => Err EBADF
  end.
Definition references (s : FsState) : Backings := mb_refs <$> mmap_backings s.
(** The process's view of the backings agrees with the runtime. *)
Definition shows (s : FsState) (p : @Proc M PT) : Prop := p_backings p = references s /\ p_next_id p = next_mmap_backing_id s.

Lemma references_insert (s : FsState) id b n :
  references (FsTable.set_backings n (<[id := b]> (mmap_backings s)) s) = <[id := mb_refs b]> (references s).
Proof. unfold references. cbn. by rewrite fmap_insert. Qed.

(** The file-system runtime does for mapped files what the memory system calls assume:
    creating a backing succeeds for exactly the descriptors that can be mapped, with the
    same errors, and gives the same new identifier; retaining and releasing count alike.  A
    page is copied from the file the descriptor had when it was mapped, also after it has
    been closed. *)
Theorem runtime_provides_backings (s : FsState) (p : @Proc M PT) pid fd id :
  shows s p -> map_Forall (fun _ n => 1 <= n <= U64_MAX) (references s) ->
  (let (r, s') := FsTable.create_mmap_backing_for_pid pid fd s in
   let (r', p') := MmSyscall.create_mmap_backing_for_pid (mappable s) p pid fd in
   r = r' /\ shows s' p' /\ desc s' = desc s /\ pipes s' = pipes s /\
   (forall off n, r = Ok (next_mmap_backing_id s) -> n <> 0 ->
      copy_mmap_page (next_mmap_backing_id s) off n s' = read_at_for_pid pid fd off n s /\
      copy_mmap_page (next_mmap_backing_id s) off n (close_for_pid pid fd s').2 = read_at_for_pid pid fd off n s)) /\
  (let (r, s') := FsTable.retain_mmap_backing id s in
   MmTxn.retain_mmap_backing id (references s) = (r, references s')) /\
  references (FsTable.release_mmap_backing id s) = MmTxn.release_mmap_backing id (references s).
Proof.
  intros [Eb En] Hpos. split; [|split].
  - unfold FsTable.create_mmap_backing_for_pid, MmSyscall.create_mmap_backing_for_pid, mappable.
    destruct (file_of pid fd s) as [[f|d|i n c|i n c]|] eqn:Hf; try done. rewrite En. split; [done|]. split; [split; [|done]|split; [done|split; [done|]]].
    + cbn [p_backings]. rewrite references_insert, Eb. done.
    + intros off n _ Hn. assert (Hc : forall s' : FsState, mmap_backings s' !! next_mmap_backing_id s = Some (mkBacking (vfs_inode f) (static_data f) 1) ->
        copy_mmap_page (next_mmap_backing_id s) off n s' = read_at_for_pid pid fd off n s).
      { intros s' Hs. unfold copy_mmap_page, read_at_for_pid. rewrite Hs, Hf. cbn. destruct (Z.eqb_spec n 0); [done|]. by destruct (static_data f). }
      set (s' := FsTable.set_backings _ _ s). assert (Hs' : mmap_backings s' !! next_mmap_backing_id s = Some (mkBacking (vfs_inode f) (static_data f) 1)) by apply lookup_insert_eq.
      split; [by apply Hc|]. apply Hc. unfold close_for_pid. destruct (open_files s' !! pid) as [t|]; [|done]. by destruct (t !! fd).
  - unfold FsTable.retain_mmap_backing, MmTxn.retain_mmap_backing. unfold references at 1. rewrite lookup_fmap.
    destruct (mmap_backings s !! id) as [b|] eqn:Hb; cbn [fmap option_fmap option_map]; [|done]. by rewrite references_insert.
  - unfold FsTable.release_mmap_backing, MmTxn.release_mmap_backing. unfold references at 2. rewrite lookup_fmap.
    destruct (mmap_backings s !! id) as [b|] eqn:Hb; cbn [fmap option_fmap option_map]; [|done]. destruct (Z.ltb_spec 1 (mb_refs b)) as [H1|H1].
    + rewrite references_insert. cbn. f_equal. rewrite sub64_small; [done|]. pose proof (Hpos id (mb_refs b)) as Hp. unfold references in Hp. rewrite lookup_fmap, Hb in Hp. specialize (Hp eq_refl). lia.
    + unfold references. cbn. by rewrite fmap_delete.
Qed.
End Mmap.

#[local] Existing Instance trace_vfs.
Definition ex_proc : Proc (BTree area) FlatTable := mkProc file_mm ∅ 1 (file_pages 4).
Lemma runtime_provides_backings_witness :
  exists s', FsTable.create_mmap_backing_for_pid 1 5 ex_opened = (Ok 1, s') /\ copy_mmap_page 1 2 9 (close_for_pid 1 5 s').2 = Ok [3; 4; 5].
Proof.
  assert (Hs : shows ex_opened ex_proc) by (split; vm_compute; reflexivity).
  assert (Hp : map_Forall (fun _ n => 1 <= n <= U64_MAX) (references ex_opened)) by (intros i n Hn; vm_compute in Hn; discriminate).
  destruct (runtime_provides_backings ex_opened ex_proc 1 5 1 Hs Hp) as [Hc _].
  destruct (FsTable.create_mmap_backing_for_pid 1 5 ex_opened) as [r s'] eqn:R. destruct (MmSyscall.create_mmap_backing_for_pid _ _ _ _) as [r' p'].
  destruct Hc as (_ & _ & _ & _ & Hcopy). assert (r = Ok 1) as -> by (vm_compute in R; injection R as <- _; reflexivity).
  exists s'. split; [reflexivity|]. change (next_mmap_backing_id ex_opened) with 1 in Hcopy. destruct (Hcopy 2 9 eq_refl ltac:(lia)) as [_ E]. rewrite E. vm_compute. reflexivity.
Defined.
