(* ===== verification/Utf8.v ===== *)
(** * Text encodings of the standard library

    What file systems use of Rust's strings: the check that bytes are UTF-8
    ([core::str::from_utf8]), the encoding of a character ([String::push]) and the decoding
    of UTF-16 ([char::decode_utf16]).  A string is the list of its bytes. *)

From S2P Require Import Prelude.

Definition within (lo hi b : Z) : bool := (lo <=? b) && (b <=? hi).
Definition continuation (b : Z) : bool := within 128 191 b.

(** The second byte that may follow the first of three or four. *)
Definition second_of_three (a b : Z) : bool :=
  if a =? 224 then within 160 191 b else if a =? 237 then within 128 159 b else continuation b.
Definition second_of_four (a b : Z) : bool :=
  if a =? 240 then within 144 191 b else if a =? 244 then within 128 143 b else continuation b.

Fixpoint valid_utf8 (l : list Z) : bool :=
  match l with
  | [] => true
  | a :: l1 =>
      if within 0 127 a then valid_utf8 l1
      else match l1 with
      | [] => false
      | b :: l2 =>
          if within 194 223 a then continuation b && valid_utf8 l2
          else match l2 with
          | [] => false
          | c :: l3 =>
              if within 224 239 a then second_of_three a b && continuation c && valid_utf8 l3
              else match l3 with
              | [] => false
              | d :: l4 => within 240 244 a && second_of_four a b && continuation c && continuation d && valid_utf8 l4
              end
          end
      end
  end.

(** A Unicode scalar value: a code point that is not a surrogate. *)
Definition scalar (c : Z) : Prop := 0 <= c < 0xD800 \/ 0xE000 <= c < 0x110000.

Definition encode_char (c : Z) : list Z :=
  if c <? 0x80 then [c]
  else if c <? 0x800 then [192 + c / 64; 128 + c mod 64]
  else if c <? 0x10000 then [224 + c / 4096; 128 + c / 64 mod 64; 128 + c mod 64]
  else [240 + c / 262144; 128 + c / 4096 mod 64; 128 + c / 64 mod 64; 128 + c mod 64].

(** Pairs of surrogates become one character; a surrogate on its own is an error. *)
Fixpoint decode_utf16 (units : list Z) : option (list Z) :=
  match units with
  | [] => Some []
  | u :: rest =>
      if within 0xD800 0xDFFF u then
        match rest with
        | v :: rest' =>
            if within 0xD800 0xDBFF u && within 0xDC00 0xDFFF v then
              cs ← decode_utf16 rest'; Some (0x10000 + (u - 0xD800) * 1024 + (v - 0xDC00) :: cs)
            else None
        | [] => None
        end
      else cs ← decode_utf16 rest; Some (u :: cs)
  end.

Lemma within_true lo hi b : lo <= b <= hi -> within lo hi b = true.
Proof. intros. unfold within. apply andb_true_intro. rewrite !Z.leb_le. lia. Qed.
Lemma within_false lo hi b : b < lo \/ hi < b -> within lo hi b = false.
Proof. intros Hb. unfold within. apply andb_false_iff. rewrite !Z.leb_gt. lia. Qed.
Lemma within_iff lo hi b : within lo hi b = true <-> lo <= b <= hi.
Proof. unfold within. rewrite andb_true_iff, !Z.leb_le. lia. Qed.
Lemma continuation_mod c : continuation (128 + c mod 64) = true.
Proof. apply within_true. pose proof (Z.mod_pos_bound c 64). lia. Qed.

(** Characters are encoded as UTF-8. *)
Lemma valid_encode c l : scalar c -> valid_utf8 (encode_char c ++ l) = valid_utf8 l.
Proof.
  intros Hc. unfold encode_char.
  assert (H64 : 0 <= c mod 64 < 64) by (apply Z.mod_pos_bound; lia). pose proof (Z.div_mod c 64 ltac:(lia)) as D64.
  assert (Hmid : 0 <= c / 64 mod 64 < 64) by (apply Z.mod_pos_bound; lia). pose proof (Z.div_mod (c / 64) 64 ltac:(lia)) as Dmid.
  assert (E2 : c / 64 / 64 = c / 4096) by (by rewrite Z.div_div by lia). rewrite E2 in Dmid.
  assert (Htop : 0 <= c / 4096 mod 64 < 64) by (apply Z.mod_pos_bound; lia). pose proof (Z.div_mod (c / 4096) 64 ltac:(lia)) as Dtop.
  assert (E3 : c / 4096 / 64 = c / 262144) by (by rewrite Z.div_div by lia). rewrite E3 in Dtop.
  destruct (Z.ltb_spec c 0x80) as [H1|H1]; [|destruct (Z.ltb_spec c 0x800) as [H2|H2]; [|destruct (Z.ltb_spec c 0x10000) as [H3|H3]]]; cbn [app valid_utf8].
  - rewrite within_true; [done|]. unfold scalar in Hc. lia.
  - rewrite (within_false 0 127), (within_true 194 223), continuation_mod by lia. done.
  - rewrite (within_false 0 127), (within_false 194 223), (within_true 224 239), continuation_mod by (unfold scalar in Hc; lia).
    unfold second_of_three, continuation. destruct (Z.eqb_spec (224 + c / 4096) 224); [rewrite within_true by lia; done|].
    destruct (Z.eqb_spec (224 + c / 4096) 237); rewrite within_true by (unfold scalar in Hc; lia); done.
  - rewrite (within_false 0 127), (within_false 194 223), (within_false 224 239), (within_true 240 244), !continuation_mod by (unfold scalar in Hc; lia).
    unfold second_of_four, continuation. destruct (Z.eqb_spec (240 + c / 262144) 240); [rewrite within_true by lia; done|].
    destruct (Z.eqb_spec (240 + c / 262144) 244); rewrite within_true by (unfold scalar in Hc; lia); done.
Qed.
Lemma valid_encode_all cs : Forall scalar cs -> valid_utf8 (mjoin (encode_char <$> cs)) = true.
Proof. induction 1 as [|c cs Hc _ IH]; [done|]. cbn [fmap list_fmap mjoin list_join]. by rewrite valid_encode. Qed.

Lemma decode_utf16_scalar units cs : Forall (fun u => 0 <= u < 0x10000) units -> decode_utf16 units = Some cs -> Forall scalar cs.
Proof.
  remember (length units) as n eqn:Hn. revert units cs Hn. induction (lt_wf n) as [n _ IH]. intros units cs Hn Hu.
  destruct Hu as [|u rest Hu Hrest]; cbn [decode_utf16]; [by intros [= <-]|]. cbn in Hn.
  destruct (within 0xD800 0xDFFF u) eqn:Es.
  - destruct Hrest as [|v rest' Hv Hrest]; [done|]. destruct (within 0xD800 0xDBFF u && within 0xDC00 0xDFFF v) eqn:Ep; [|done].
    apply andb_true_iff in Ep as [E1 E2]. apply within_iff in E1. apply within_iff in E2. destruct (decode_utf16 rest') as [cs'|] eqn:Er; [|done].
    intros [= <-]. constructor; [right; lia|]. apply (IH (length rest')) with rest'; [cbn in Hn; lia|done|done|done].
  - destruct (decode_utf16 rest) as [cs'|] eqn:Er; [|done]. intros [= <-]. constructor.
    + assert (~ (0xD800 <= u <= 0xDFFF)) by (rewrite <- within_iff; congruence). unfold scalar. lia.
    + apply (IH (length rest)) with rest; [lia|done|done|done].
Qed.

(** Validity of a concatenation, and of the part before a byte below 128. *)
Lemma valid_app l1 l2 : valid_utf8 l1 = true -> valid_utf8 (l1 ++ l2) = valid_utf8 l2.
Proof.
  remember (length l1) as n eqn:Hn. revert l1 Hn. induction (lt_wf n) as [n _ IH]. intros l1 Hn.
  destruct l1 as [|a l1]; [done|]. cbn [valid_utf8 app length] in *. destruct (within 0 127 a); [apply (IH (length l1)); [lia|done]|].
  destruct l1 as [|b l1]; [done|]. cbn [app length] in *. destruct (within 194 223 a).
  { intros [-> Hv]%andb_true_iff. cbn [andb]. apply (IH (length l1)); [lia|done|done]. }
  destruct l1 as [|c l1]; [done|]. cbn [app length] in *. destruct (within 224 239 a).
  { intros [-> Hv]%andb_true_iff. cbn [andb]. apply (IH (length l1)); [lia|done|done]. }
  destruct l1 as [|d l1]; [done|]. cbn [app length] in *. intros [-> Hv]%andb_true_iff. cbn [andb]. apply (IH (length l1)); [lia|done|done].
Qed.
Lemma valid_ascii l : Forall (fun b => 0 <= b < 128) l -> valid_utf8 l = true.
Proof. induction 1 as [|b l Hb _ IH]; [done|]. cbn [valid_utf8]. by rewrite within_true by lia. Qed.
