(* ===== verification/Block.v ===== *)
(** * Block devices and partitions: kernel/src/drivers/block/{mod,partition,mbr,gpt,file_backed}.rs

    A block device is a record of its reads; a partition and a file are devices of their own.
    The parsers of the two kinds of partition tables read the device through that record.
    The messages of errors are left out. *)

From stdpp Require Import strings.
From S2P Require Import Prelude Errno FsPath FsMount.
#[local] Open Scope Z_scope.

Inductive BlockError := InvalidAddress | InvalidBufferSize | NotReady | IoError | WriteProtected | Timeout | Unsupported.

(** [read_block lba] fills a buffer of the device's block size. *)
Record BlockDevice := mkDevice {
  block_size : Z; block_count : Z; dev_name : str; read_block : Z -> Result (list Z) BlockError; is_read_only : bool
}.

(** What the trait promises: a read that succeeds fills the buffer with bytes. *)
Definition byte (b : Z) : Prop := 0 <= b < 256.
Definition fills (d : BlockDevice) : Prop :=
  forall lba buf, read_block d lba = Ok buf -> Z.of_nat (length buf) = block_size d /\ Forall byte buf.

Inductive PartitionTableKind := Mbr | Gpt.
Inductive PartitionType := MbrType (ty : Z) | GptType (guid : list Z).
Record Partition := mkPartition { index : Z; start_lba : Z; part_blocks : Z; part_type : PartitionType }.
Inductive PartitionError :=
| NoPartitionTable | NoPartitions | InvalidMbr | InvalidGpt | UnsupportedTable | OutOfRange | PartIo (e : BlockError).

(** ** Devices on devices *)
Definition translate_lba (p : Partition) (lba : Z) : Result Z BlockError :=
  if part_blocks p <=? lba then Err InvalidAddress
  else match checked_add64 (start_lba p) lba with Some x => Ok x | None => Err InvalidAddress end.

Definition partition_device (d : BlockDevice) (part_name : str) (p : Partition) : BlockDevice :=
  mkDevice (block_size d) (part_blocks p) part_name
    (fun lba => match translate_lba p lba with Err e => Err e | Ok parent_lba => read_block d parent_lba end)
    (is_read_only d).

Section FileBacked.
Context {FileSystem Inode : Type} `{Vfs FileSystem Inode}.

Inductive FileBacking := Static (data : list Z) | InVfs (inode : Inode) (size : Z).
Record ReadonlyFileBlockDevice := mkFileDevice { file_name : str; file_block_size : Z; backing : FileBacking }.

Definition from_initramfs (name : str) (data : list Z) (bs : Z) : Result ReadonlyFileBlockDevice BlockError :=
  if (bs =? 0) || bool_decide (data = []) then Err InvalidBufferSize
  else if negb (Z.of_nat (length data) mod bs =? 0) then Err InvalidBufferSize
  else Ok (mkFileDevice name bs (Static data)).
Definition from_inode (name : str) (inode : Inode) (size bs : Z) : Result ReadonlyFileBlockDevice BlockError :=
  if (bs =? 0) || (size =? 0) then Err InvalidBufferSize
  else if negb (size mod bs =? 0) then Err InvalidBufferSize
  else match metadata inode with
  | Err _ => Err IoError
  | Ok meta => if negb (bool_decide (md_file_type meta = Regular)) then Err InvalidAddress else Ok (mkFileDevice name bs (InVfs inode size))
  end.

Definition checked_mul64 (a b : Z) : option Z := if a * b <? u64_size then Some (a * b) else None.

Definition file_read_block (self : ReadonlyFileBlockDevice) (lba : Z) : Result (list Z) BlockError :=
  match checked_mul64 lba (file_block_size self) with
  | None => Err InvalidAddress
  | Some start =>
      match checked_add64 start (file_block_size self) with
      | None => Err InvalidAddress
      | Some end_ =>
          match backing self with
          | Static data =>
              if Z.of_nat (length data) <? end_ then Err InvalidAddress
              else Ok (take (Z.to_nat (file_block_size self)) (drop (Z.to_nat start) data))
          | InVfs inode size =>
              if size <? end_ then Err InvalidAddress
              else match read_at inode start (file_block_size self) with
              | Err _ => Err IoError
              | Ok bytes => if negb (Z.of_nat (length bytes) =? file_block_size self) then Err IoError else Ok bytes
              end
          end
      end
  end.
Definition file_block_count (self : ReadonlyFileBlockDevice) : Z :=
  match backing self with
  | Static data => Z.of_nat (length data) / file_block_size self
  | InVfs _ size => size / file_block_size self
  end.
Definition file_device (self : ReadonlyFileBlockDevice) : BlockDevice :=
  mkDevice (file_block_size self) (file_block_count self) (file_name self) (file_read_block self) true.
End FileBacked.

(** ** Little-endian numbers *)
(** The byte at an index that the code has checked. *)
Definition byte_at (d : list Z) (i : Z) : Z := default 0 (d !! Z.to_nat i).
Definition bytes_at (d : list Z) (i n : Z) : list Z := take (Z.to_nat n) (drop (Z.to_nat i) d).
Fixpoint le (bytes : list Z) : Z := match bytes with [] => 0 | b :: bytes' => b + 256 * le bytes' end.
Definition read_le_u16 (d : list Z) (i : Z) : Z := le (bytes_at d i 2).
Definition read_le_u32 (d : list Z) (i : Z) : Z := le (bytes_at d i 4).
Definition read_le_u64 (d : list Z) (i : Z) : Z := le (bytes_at d i 8).

(** ** Partition tables of the master boot record *)
Definition MBR_SIGNATURE_OFF : Z := 510.
Definition MBR_SIGNATURE0 : Z := 0x55.
Definition MBR_SIGNATURE1 : Z := 0xAA.
Definition MBR_PARTITION_TABLE_OFF : Z := 446.
Definition MBR_PARTITION_COUNT : Z := 4.
Definition MBR_ENTRY_SIZE : Z := 16.
Definition MBR_MIN_LEN : Z := 512.

Definition is_extended_type (ty : Z) : bool := (ty =? 0x05) || (ty =? 0x0F) || (ty =? 0x85).

Fixpoint mbr_slots (sector0 : list Z) (total_blocks : Z) (slots : list Z) (partitions : list Partition) (saw_extended : bool) :
    Result (list Partition * bool) PartitionError :=
  match slots with
  | [] => Ok (partitions, saw_extended)
  | slot :: slots' =>
      let base := MBR_PARTITION_TABLE_OFF + slot * MBR_ENTRY_SIZE in
      let ptype := byte_at sector0 (base + 4) in
      let first_lba := read_le_u32 sector0 (base + 8) in
      let sector_count := read_le_u32 sector0 (base + 12) in
      if (ptype =? 0) || (sector_count =? 0) then mbr_slots sector0 total_blocks slots' partitions saw_extended
      else if is_extended_type ptype then mbr_slots sector0 total_blocks slots' partitions true
      else if first_lba =? 0 then Err InvalidMbr
      else match checked_add64 first_lba sector_count with
      | None => Err OutOfRange
      | Some end_ =>
          if total_blocks <? end_ then Err OutOfRange
          else mbr_slots sector0 total_blocks slots' (partitions ++ [mkPartition (slot + 1) first_lba sector_count (MbrType ptype)]) saw_extended
      end
  end.

Definition parse_mbr_partitions (device : BlockDevice) : Result (option (list Partition)) PartitionError :=
  if block_size device <? MBR_MIN_LEN then Err InvalidMbr
  else match read_block device 0 with
  | Err e => Err (PartIo e)
  | Ok sector0 =>
      if negb (byte_at sector0 MBR_SIGNATURE_OFF =? MBR_SIGNATURE0) || negb (byte_at sector0 (MBR_SIGNATURE_OFF + 1) =? MBR_SIGNATURE1) then Ok None
      else match mbr_slots sector0 (block_count device) (zrange 0 MBR_PARTITION_COUNT) [] false with
      | Err e => Err e
      | Ok (partitions, saw_extended) =>
          if bool_decide (partitions = []) then Err (if saw_extended : bool then UnsupportedTable else NoPartitions) else Ok (Some partitions)
      end
  end.

(** ** GUID partition tables *)
Definition GPT_SIGNATURE : list Z := lit "EFI PART".
Definition GPT_HEADER_MIN_SIZE : Z := 92.
Definition GPT_ENTRY_MIN_SIZE : Z := 128.
Definition GPT_MAX_ENTRIES_BYTES : Z := 16 * 1024 * 1024.

(** One bit of the checksum, and one byte. *)
Definition crc_round (crc : Z) : Z :=
  let shifted := Z.shiftr crc 1 in if negb (Z.land crc 1 =? 0) then Z.lxor shifted 0xEDB88320 else shifted.
Definition crc_byte (crc b : Z) : Z := Nat.iter 8 crc_round (Z.lxor crc b).
Definition crc32 (bytes : list Z) : Z := Z.lxor (foldl crc_byte 0xFFFFFFFF bytes) 0xFFFFFFFF.

Definition is_zero_guid (raw : list Z) : bool := forallb (fun b => b =? 0) raw.
Definition normalize_gpt_guid (raw : list Z) : list Z :=
  (fun i => byte_at raw i) <$> [3; 2; 1; 0; 5; 4; 7; 6; 8; 9; 10; 11; 12; 13; 14; 15].

Fixpoint read_blocks (device : BlockDevice) (start_lba : Z) (idxs : list Z) : Result (list Z) PartitionError :=
  match idxs with
  | [] => Ok []
  | i :: idxs' =>
      match checked_add64 start_lba i with
      | None => Err OutOfRange
      | Some lba =>
          match read_block device lba with
          | Err e => Err (PartIo e)
          | Ok block => match read_blocks device start_lba idxs' with Err e => Err e | Ok rest => Ok (block ++ rest) end
          end
      end
  end.

Fixpoint gpt_entries (entries : list Z) (entry_size first_usable last_usable : Z) (idxs : list Z) (partitions : list Partition) :
    Result (list Partition) PartitionError :=
  match idxs with
  | [] => Ok partitions
  | i :: idxs' =>
      let base := i * entry_size in
      let type_guid_raw := bytes_at entries base 16 in
      if is_zero_guid type_guid_raw then gpt_entries entries entry_size first_usable last_usable idxs' partitions
      else
        let first_lba := read_le_u64 entries (base + 32) in
        let last_lba := read_le_u64 entries (base + 40) in
        if (first_lba =? 0) || (last_lba <? first_lba) then Err InvalidGpt
        else if (first_lba <? first_usable) || (last_usable <? last_lba) then Err OutOfRange
        else match checked_add64 (last_lba - first_lba) 1 with
        | None => Err OutOfRange
        | Some blocks =>
            gpt_entries entries entry_size first_usable last_usable idxs'
              (partitions ++ [mkPartition (i + 1) first_lba blocks (GptType (normalize_gpt_guid type_guid_raw))])
        end
  end.

(** The header with its checksum field cleared. *)
Definition crc_buf (header_block : list Z) (header_size : Z) : list Z :=
  let h := take (Z.to_nat header_size) header_block in take 16 h ++ [0; 0; 0; 0] ++ drop 20 h.

Definition parse_gpt_partitions (device : BlockDevice) : Result (option (list Partition)) PartitionError :=
  let bs := block_size device in
  if bs <? GPT_HEADER_MIN_SIZE then Err InvalidGpt
  else if block_count device <? 2 then Err InvalidGpt
  else match read_block device 1 with
  | Err e => Err (PartIo e)
  | Ok header_block =>
      if negb (bool_decide (bytes_at header_block 0 8 = GPT_SIGNATURE)) then Ok None
      else
        let header_size := read_le_u32 header_block 12 in
        if negb ((GPT_HEADER_MIN_SIZE <=? header_size) && (header_size <=? bs)) then Err InvalidGpt
        else if negb (crc32 (crc_buf header_block header_size) =? read_le_u32 header_block 16) then Err InvalidGpt
        else if negb (read_le_u64 header_block 24 =? 1) then Err InvalidGpt
        else
          let first_usable_lba := read_le_u64 header_block 40 in
          let last_usable_lba := read_le_u64 header_block 48 in
          if (last_usable_lba <? first_usable_lba) || (block_count device <=? last_usable_lba) then Err OutOfRange
          else
            let entries_lba := read_le_u64 header_block 72 in
            let entry_count := read_le_u32 header_block 80 in
            let entry_size := read_le_u32 header_block 84 in
            if entry_count =? 0 then Err NoPartitions
            else if entry_size <? GPT_ENTRY_MIN_SIZE then Err InvalidGpt
            else
              let entries_bytes := entry_count * entry_size in
              if GPT_MAX_ENTRIES_BYTES <? entries_bytes then Err UnsupportedTable
              else
                let blocks_needed := (entries_bytes + (bs - 1)) / bs in
                match checked_add64 entries_lba blocks_needed with
                | None => Err OutOfRange
                | Some entries_end =>
                    if (entries_lba =? 0) || (block_count device <? entries_end) then Err OutOfRange
                    else match read_blocks device entries_lba (zrange 0 blocks_needed) with
                    | Err e => Err e
                    | Ok raw =>
                        let entries := take (Z.to_nat entries_bytes) raw in
                        if negb (crc32 entries =? read_le_u32 header_block 88) then Err InvalidGpt
                        else match gpt_entries entries entry_size first_usable_lba last_usable_lba (zrange 0 entry_count) [] with
                        | Err e => Err e
                        | Ok partitions => if bool_decide (partitions = []) then Err NoPartitions else Ok (Some partitions)
                        end
                    end
                end
  end.

(** ** The table of a device *)
Record PartitionedDevice := mkPartitioned { pd_device : BlockDevice; table_kind : PartitionTableKind; partitions : list Partition }.

Definition discover_partitions (device : BlockDevice) : Result PartitionedDevice PartitionError :=
  match parse_gpt_partitions device with
  | Err e => Err e
  | Ok (Some ps) => Ok (mkPartitioned device Gpt ps)
  | Ok None =>
      match parse_mbr_partitions device with
      | Err e => Err e
      | Ok (Some ps) => Ok (mkPartitioned device Mbr ps)
      | Ok None => Err NoPartitionTable
      end
  end.
Definition partition_of (self : PartitionedDevice) (idx : Z) : option Partition := head (filter (fun p => index p = idx) (partitions self)).
Definition open_partition (part_name : str) (self : PartitionedDevice) (idx : Z) : Result BlockDevice PartitionError :=
  match partition_of self idx with
  | None => Err OutOfRange
  | Some p => Ok (partition_device (pd_device self) part_name p)
  end.
