(* ===== verification/BlockTheorems.v ===== *)
(** * Partitions stay inside their device, and damage to their table is noticed *)

From stdpp Require Import strings.
From S2P Require Import Prelude Errno FsPath FsMount Block.
#[local] Open Scope Z_scope.

(** ** Numbers read from a device *)
(** Numbers as little-endian bytes. *)
Fixpoint le_bytes (n : nat) (x : Z) : list Z := match n with O => [] | S n' => x mod 256 :: le_bytes n' (x / 256) end.
Lemma le_le_bytes n x : le (le_bytes n x) = x mod 256 ^ Z.of_nat n.
Proof.
  revert x. induction n as [|n IH]; intros x; [cbn; by rewrite Z.mod_1_r|]. cbn [le_bytes le]. rewrite IH, Nat2Z.inj_succ, Z.pow_succ_r by lia.
  rewrite Z.rem_mul_r by (try lia; apply Z.pow_nonzero; lia). lia.
Qed.
Lemma length_le_bytes n x : length (le_bytes n x) = n.
Proof. revert x. induction n; intros x; cbn; auto. Qed.
Lemma le_bound bytes : Forall byte bytes -> 0 <= le bytes < 256 ^ Z.of_nat (length bytes).
Proof.
  induction 1 as [|b bytes Hb _ IH]; [done|]. cbn [le length]. rewrite Nat2Z.inj_succ, Z.pow_succ_r by lia. unfold byte in Hb. nia.
Qed.
Lemma le_at_bound d i n : Forall byte d -> 0 <= n -> 0 <= le (bytes_at d i n) < 256 ^ n.
Proof.
  intros Hd Hn. unfold bytes_at. set (l := take _ _). assert (Hl : Forall byte l) by (by apply Forall_take, Forall_drop).
  pose proof (le_bound l Hl) as Hb. split; [lia|]. eapply Z.lt_le_trans; [apply Hb|]. apply Z.pow_le_mono_r; [lia|]. unfold l. rewrite length_take. lia.
Qed.

(** ** Tables *)
(** A partition that lies inside the device and does not contain the first block. *)
Definition inside (total : Z) (p : Partition) : Prop := 1 <= start_lba p /\ 1 <= part_blocks p /\ start_lba p + part_blocks p <= total.

Lemma mbr_slots_inside sector0 total slots : forall ps ext ps' ext',
  Forall byte sector0 -> Forall (inside total) ps -> mbr_slots sector0 total slots ps ext = Ok (ps', ext') ->
  Forall (inside total) ps' /\ (index <$> ps') `sublist_of` (index <$> ps) ++ (Z.succ <$> slots).
Proof.
  induction slots as [|slot slots IH]; intros ps ext ps' ext' Hb Hps; cbn [mbr_slots].
  { intros [= -> _]. split; [done|]. cbn. by rewrite app_nil_r. }
  set (base := MBR_PARTITION_TABLE_OFF + slot * MBR_ENTRY_SIZE).
  assert (Hskip : forall l, l `sublist_of` (index <$> ps) ++ (Z.succ <$> slots) -> l `sublist_of` (index <$> ps) ++ (Z.succ <$> (slot :: slots))).
  { intros l Hl. etransitivity; [exact Hl|]. apply sublist_app; [done|]. cbn. by apply sublist_cons. }
  destruct ((byte_at sector0 (base + 4) =? 0) || _) eqn:E0; [intros R; destruct (IH _ _ _ _ Hb Hps R); split; [done|by apply Hskip]|].
  destruct (is_extended_type _); [intros R; destruct (IH _ _ _ _ Hb Hps R); split; [done|by apply Hskip]|].
  destruct (Z.eqb_spec (read_le_u32 sector0 (base + 8)) 0) as [|Hf]; [done|]. apply orb_false_iff in E0 as [_ E0]. apply Z.eqb_neq in E0.
  pose proof (le_at_bound sector0 (base + 8) 4 Hb ltac:(lia)) as Bf. pose proof (le_at_bound sector0 (base + 12) 4 Hb ltac:(lia)) as Bc.
  fold (read_le_u32 sector0 (base + 8)) in Bf. fold (read_le_u32 sector0 (base + 12)) in Bc. unfold checked_add64.
  destruct (Z.ltb_spec (read_le_u32 sector0 (base + 8) + read_le_u32 sector0 (base + 12)) u64_size); [|done].
  destruct (Z.ltb_spec total (read_le_u32 sector0 (base + 8) + read_le_u32 sector0 (base + 12))); [done|].
  intros R. apply IH in R as [H1 H2]; [|done|apply Forall_app; split; [done|]; repeat constructor; cbn; lia]. split; [done|].
  rewrite fmap_app in H2. cbn [fmap list_fmap index] in H2. by rewrite <- app_assoc in H2.
Qed.
Lemma gpt_entries_inside entries size first last total idxs : forall ps ps',
  Forall byte entries -> last < total -> total <= u64_size -> Forall (inside total) ps -> gpt_entries entries size first last idxs ps = Ok ps' ->
  Forall (inside total) ps' /\ (index <$> ps') `sublist_of` (index <$> ps) ++ (Z.succ <$> idxs).
Proof.
  induction idxs as [|i idxs IH]; intros ps ps' Hb Hl Ht Hps; cbn [gpt_entries].
  { intros [= ->]. split; [done|]. cbn. by rewrite app_nil_r. }
  destruct (is_zero_guid _).
  { intros R. destruct (IH _ _ Hb Hl Ht Hps R) as [H1 H2]. split; [done|]. etransitivity; [exact H2|]. apply sublist_app; [done|]. cbn. by apply sublist_cons. }
  pose proof (le_at_bound entries (i * size + 32) 8 Hb ltac:(lia)) as Bf. pose proof (le_at_bound entries (i * size + 40) 8 Hb ltac:(lia)) as Bl.
  fold (read_le_u64 entries (i * size + 32)) in Bf. fold (read_le_u64 entries (i * size + 40)) in Bl.
  destruct (Z.eqb_spec (read_le_u64 entries (i * size + 32)) 0); cbn [orb]; [done|].
  destruct (Z.ltb_spec (read_le_u64 entries (i * size + 40)) (read_le_u64 entries (i * size + 32))); cbn [orb]; [done|].
  destruct (Z.ltb_spec (read_le_u64 entries (i * size + 32)) first); cbn [orb]; [done|].
  destruct (Z.ltb_spec last (read_le_u64 entries (i * size + 40))); cbn [orb]; [done|]. unfold checked_add64.
  destruct (Z.ltb_spec (read_le_u64 entries (i * size + 40) - read_le_u64 entries (i * size + 32) + 1) u64_size); [|done].
  intros R. apply IH in R as [Hin Hsub]; [|done|done|done|apply Forall_app; split; [done|]; repeat constructor; cbn; lia]. split; [done|].
  rewrite fmap_app in Hsub. cbn [fmap list_fmap index] in Hsub. by rewrite <- app_assoc in Hsub.
Qed.
Lemma read_blocks_bytes d lba idxs : forall raw, fills d -> read_blocks d lba idxs = Ok raw -> Forall byte raw.
Proof.
  induction idxs as [|i idxs IH]; intros raw Hd; cbn [read_blocks]; [intros [= <-]; constructor|]. destruct (checked_add64 lba i); [|done].
  destruct (read_block d z) as [block|] eqn:Eb; [|done]. destruct (read_blocks d lba idxs) as [rest|]; [|done]. intros [= <-].
  apply Forall_app. split; [apply (Hd _ _ Eb)|by apply IH].
Qed.

Lemma succ_zrange_NoDup a b : NoDup (Z.succ <$> zrange a b).
Proof. apply NoDup_fmap_2; [intros x y; lia|apply NoDup_seqZ]. Qed.
Lemma mbr_inside d ps : fills d -> parse_mbr_partitions d = Ok (Some ps) -> Forall (inside (block_count d)) ps /\ NoDup (index <$> ps).
Proof.
  intros Hd. unfold parse_mbr_partitions. destruct (_ <? _); [done|]. destruct (read_block d 0) as [s0|] eqn:E0; [|done]. destruct (_ || _); [done|].
  destruct (mbr_slots _ _ _ _ _) as [[ps' ext]|] eqn:Em; [|done]. case_bool_decide; [done|]. intros [= <-].
  apply mbr_slots_inside in Em as [H1 H2]; [|apply (Hd _ _ E0)|constructor]. split; [done|]. eapply sublist_NoDup; [apply succ_zrange_NoDup|exact H2].
Qed.
Lemma gpt_inside d ps : fills d -> block_count d <= u64_size -> parse_gpt_partitions d = Ok (Some ps) -> Forall (inside (block_count d)) ps /\ NoDup (index <$> ps).
Proof.
  intros Hd Ht. unfold parse_gpt_partitions. cbv zeta. destruct (_ <? GPT_HEADER_MIN_SIZE); [done|]. destruct (block_count d <? 2); [done|].
  destruct (read_block d 1) as [h|] eqn:Eh; [|done]. destruct (negb (bool_decide _)); [done|]. do 3 (destruct (negb _); [done|]).
  destruct (_ || (block_count d <=? _)) eqn:Eu; [done|]. apply orb_false_iff in Eu as [_ Eu]. apply Z.leb_gt in Eu. destruct (_ =? 0); [done|].
  destruct (_ <? GPT_ENTRY_MIN_SIZE); [done|]. destruct (GPT_MAX_ENTRIES_BYTES <? _); [done|]. destruct (checked_add64 _ _); [|done]. destruct (_ || _); [done|].
  destruct (read_blocks _ _ _) as [raw|] eqn:Er; [|done]. destruct (negb _); [done|]. destruct (gpt_entries _ _ _ _ _ _) as [ps'|] eqn:Eg; [|done].
  case_bool_decide; [done|]. intros [= <-]. eapply gpt_entries_inside in Eg as [H1 H2]; [|by apply Forall_take, (read_blocks_bytes _ _ _ _ Hd Er)|exact Eu|done|constructor].
  split; [done|]. eapply sublist_NoDup; [apply succ_zrange_NoDup|exact H2].
Qed.

(** C29. Whatever is on the disk, a partition that is found lies inside the device and leaves
    out its first block, partitions have different numbers, and a partition's device reads
    exactly its own blocks: block [lba] of the partition is block [start + lba] of the disk,
    and nothing at or beyond its end can be read. *)
Theorem partitions_stay_inside d pd name idx p :
  fills d -> block_count d < u64_size -> discover_partitions d = Ok pd -> partition_of pd idx = Some p ->
  Forall (inside (block_count d)) (partitions pd) /\ NoDup (index <$> partitions pd) /\ index p = idx /\
  exists part, open_partition name pd idx = Ok part /\ fills part /\ block_count part = part_blocks p /\
    forall lba, 0 <= lba ->
      (lba < block_count part -> 1 <= start_lba p + lba < block_count d /\ read_block part lba = read_block d (start_lba p + lba)) /\
      (block_count part <= lba -> read_block part lba = Err InvalidAddress).
Proof.
  intros Hd Ht Hpd Hp.
  assert (Hall : pd_device pd = d /\ Forall (inside (block_count d)) (partitions pd) /\ NoDup (index <$> partitions pd)).
  { unfold discover_partitions in Hpd. destruct (parse_gpt_partitions d) as [[ps|]|] eqn:Eg; [| |done].
    - injection Hpd as <-. split; [done|]. apply gpt_inside; [done|lia|done].
    - destruct (parse_mbr_partitions d) as [[ps|]|] eqn:Em; [|done|done]. injection Hpd as <-. split; [done|]. by apply mbr_inside. }
  destruct Hall as (Edev & Hin & Hnd). split; [done|]. split; [done|]. unfold partition_of in Hp.
  assert (Hpin : p ∈ filter (fun p => index p = idx) (partitions pd)) by (destruct (filter _ _); [done|]; injection Hp as <-; by left).
  apply list_elem_of_filter in Hpin as [Hidx Hpin]. split; [done|]. rewrite Forall_forall in Hin. destruct (Hin p Hpin) as (H1 & H2 & H3).
  exists (partition_device d name p). unfold open_partition, partition_of. rewrite Hp, Edev. split; [done|].
  assert (Htr : forall lba, 0 <= lba < part_blocks p -> translate_lba p lba = Ok (start_lba p + lba)).
  { intros lba Hl. unfold translate_lba, checked_add64. destruct (Z.leb_spec (part_blocks p) lba); [lia|]. destruct (Z.ltb_spec (start_lba p + lba) u64_size); [done|lia]. }
  split; [|split; [done|]].
  - intros lba buf Hr. cbn in Hr. destruct (translate_lba p lba); [|done]. apply (Hd _ _ Hr).
  - intros lba Hl. cbn. split; intros Hlt; [rewrite Htr by lia; split; [lia|done]|]. unfold translate_lba. by destruct (Z.leb_spec (part_blocks p) lba); [|lia].
Qed.

(** ** The checksum *)
Definition word (x : Z) : Prop := 0 <= x < 2 ^ 32.
Lemma word_bits x : word x <-> 0 <= x /\ forall j, 32 <= j -> Z.testbit x j = false.
Proof.
  unfold word. split.
  - intros Hx. split; [lia|]. intros j Hj. destruct (decide (x = 0)) as [->|]; [apply Z.bits_0|]. apply Z.bits_above_log2; [lia|].
    assert (Z.log2 x < 32) by (apply Z.log2_lt_pow2; lia). lia.
  - intros [H0 Hb]. split; [done|]. destruct (decide (x = 0)) as [->|]; [done|]. apply Z.log2_lt_pow2; [lia|].
    destruct (Z.lt_ge_cases (Z.log2 x) 32) as [|Hge]; [done|]. pose proof (Z.bit_log2 x ltac:(lia)) as Ht. by rewrite Hb in Ht.
Qed.
Lemma word_lxor a b : word a -> word b -> word (Z.lxor a b).
Proof.
  rewrite !word_bits. intros [Ha Hab] [Hb Hbb]. split; [by apply Z.lxor_nonneg|]. intros j Hj. by rewrite Z.lxor_spec, Hab, Hbb.
Qed.
Lemma lxor_cancel a b c : Z.lxor a c = Z.lxor b c -> a = b.
Proof. intros E. apply (f_equal (fun x => Z.lxor x c)) in E. by rewrite !Z.lxor_assoc, Z.lxor_nilpotent, !Z.lxor_0_r in E. Qed.

(** The highest bit of the result tells the lowest of the argument. *)
Definition crc_unround (r : Z) : Z := if Z.testbit r 31 then 2 * Z.lxor r 0xEDB88320 + 1 else 2 * r.
Lemma crc_round_ok c : word c -> word (crc_round c) /\ crc_unround (crc_round c) = c.
Proof.
  intros Hc. assert (Hl : Z.land c 1 = c mod 2) by (change 1 with (Z.ones 1); by rewrite Z.land_ones by lia).
  unfold crc_round. rewrite Hl, !Z.shiftr_div_pow2 by lia. change (2 ^ 1) with 2.
  set (q := c / 2). pose proof (Z.div_mod c 2 ltac:(lia)) as Hdm. pose proof (Z.mod_pos_bound c 2 ltac:(lia)) as Hm. fold q in Hdm.
  assert (Hq : 0 <= q < 2 ^ 31) by (unfold word in Hc; lia). assert (Hqb : Z.testbit q 31 = false).
  { destruct (decide (q = 0)) as [->|]; [done|]. apply Z.bits_above_log2; [lia|]. apply Z.log2_lt_pow2; [lia|apply Hq]. }
  assert (Hqw : word q) by (unfold word; lia). assert (Hp : word 0xEDB88320) by done.
  destruct (Z.eqb_spec (c mod 2) 0) as [E|E]; cbn [negb]; unfold crc_unround.
  - split; [done|]. rewrite Hqb. lia.
  - split; [by apply word_lxor|]. rewrite Z.lxor_spec, Hqb. change (xorb false (Z.testbit 0xEDB88320 31)) with true. cbv iota.
    rewrite Z.lxor_assoc, Z.lxor_nilpotent, Z.lxor_0_r. lia.
Qed.
Lemma crc_rounds_word n c : word c -> word (Nat.iter n crc_round c).
Proof. intros Hc. induction n; [done|]. by apply crc_round_ok. Qed.
Lemma crc_rounds_inj n c c' : word c -> word c' -> Nat.iter n crc_round c = Nat.iter n crc_round c' -> c = c'.
Proof.
  intros Hc Hc'. induction n as [|n IH]; [done|]. rewrite !Nat.iter_succ. intros E. apply IH.
  apply (f_equal crc_unround) in E. by rewrite !(fun c Hc => proj2 (crc_round_ok c Hc)) in E by (by apply crc_rounds_word).
Qed.
Lemma word_byte b : byte b -> word b.
Proof. unfold byte, word. lia. Qed.
Lemma crc_byte_ok c b : word c -> byte b -> word (crc_byte c b).
Proof. intros Hc Hb. by apply crc_rounds_word, word_lxor, word_byte. Qed.
Lemma crc_byte_inj c c' b b' : word c -> word c' -> byte b -> byte b' -> crc_byte c b = crc_byte c' b' -> Z.lxor c b = Z.lxor c' b'.
Proof. intros Hc Hc' Hb Hb'. apply (crc_rounds_inj 8); by apply word_lxor, word_byte. Qed.
Lemma crc_fold_word l c : word c -> Forall byte l -> word (foldl crc_byte c l).
Proof. intros Hc Hl. revert c Hc. induction Hl as [|b l Hb _ IH]; intros c Hc; [done|]. cbn. by apply IH, crc_byte_ok. Qed.
Lemma crc_fold_inj l c c' : word c -> word c' -> Forall byte l -> foldl crc_byte c l = foldl crc_byte c' l -> c = c'.
Proof.
  intros Hc Hc' Hl. revert c c' Hc Hc'. induction Hl as [|b l Hb _ IH]; intros c c' Hc Hc'; [done|]. cbn. intros E.
  apply IH in E; [|by apply crc_byte_ok|by apply crc_byte_ok]. apply crc_byte_inj in E; [|done..]. by apply lxor_cancel in E.
Qed.
(** Sequences that differ in one byte have different checksums. *)
Lemma crc32_one_byte a x y b :
  Forall byte a -> Forall byte b -> byte x -> byte y -> x <> y -> crc32 (a ++ x :: b) <> crc32 (a ++ y :: b).
Proof.
  intros Ha Hb Hx Hy Hne E. unfold crc32 in E. apply lxor_cancel in E. rewrite !foldl_app in E. cbn [foldl] in E.
  set (c := foldl crc_byte 4294967295 a) in *. assert (Hc : word c) by (by apply crc_fold_word).
  apply crc_fold_inj in E; [|by apply crc_byte_ok|by apply crc_byte_ok|done]. apply crc_byte_inj in E; [|done..].
  rewrite !(Z.lxor_comm c) in E. by apply lxor_cancel in E.
Qed.

(** ** Damaged tables *)
(** The device on which byte [i] of block [lba] reads as [x]. *)
Definition damage (d : BlockDevice) (lba i x : Z) : BlockDevice :=
  mkDevice (block_size d) (block_count d) (dev_name d)
    (fun l => match read_block d l with Ok buf => Ok (if l =? lba then <[Z.to_nat i := x]> buf else buf) | Err e => Err e end) (is_read_only d).

Lemma bytes_at_insert_out h i x a n : 0 <= i -> 0 <= a -> 0 <= n -> i < a \/ a + n <= i -> bytes_at (<[Z.to_nat i := x]> h) a n = bytes_at h a n.
Proof.
  intros Hi Ha Hn Ho. unfold bytes_at. rewrite drop_insert. case_decide; [|done]. apply take_insert_ge. lia.
Qed.
Lemma crc32_insert l k x y : Forall byte l -> byte x -> l !! k = Some y -> x <> y -> crc32 (<[k := x]> l) <> crc32 l.
Proof.
  intros Hl Hx Hk Hne. rewrite insert_take_drop by (by apply lookup_lt_Some in Hk). rewrite <- (take_drop_middle l k y Hk) at 3.
  pose proof (proj1 (Forall_lookup _ _) Hl k y Hk). apply crc32_one_byte; [by apply Forall_take|by apply Forall_drop|done..].
Qed.
(** The checksum of the header looks at every byte but those of its own field. *)
Lemma crc_buf_insert h hs i x : 20 <= hs <= Z.of_nat (length h) -> 0 <= i < hs ->
  crc_buf (<[Z.to_nat i := x]> h) hs = if decide (16 <= i < 20) then crc_buf h hs else <[Z.to_nat i := x]> (crc_buf h hs).
Proof.
  intros Hhs Hi. unfold crc_buf. rewrite take_insert_lt by lia. set (t := take (Z.to_nat hs) h). cbv zeta.
  assert (Ht : length t = Z.to_nat hs) by (unfold t; rewrite length_take; lia).
  rewrite take_insert, drop_insert. destruct (decide (16 <= i < 20)).
  - by rewrite !decide_False by lia.
  - destruct (Z.lt_ge_cases i 16).
    + rewrite decide_True, decide_False by lia. by rewrite insert_app_l by (rewrite length_take; lia).
    + rewrite decide_False, decide_True by lia. rewrite insert_app_r_alt by (rewrite length_take; lia).
      rewrite length_take, Ht, Nat.min_l by lia. rewrite insert_app_r_alt by (cbn; lia). do 3 f_equal. cbn [length]. lia.
Qed.
Lemma le_insert_ne l k x y : l !! k = Some y -> x <> y -> le (<[k := x]> l) <> le l.
Proof.
  revert k. induction l as [|b l IH]; intros [|k]; cbn [lookup list_lookup insert list_insert le]; [done..| |].
  - intros [= ->] Hne. lia.
  - intros Hk Hne E. apply (IH k Hk Hne), (Z.mul_reg_l _ _ 256); [done|]. by apply (Z.add_reg_l b).
Qed.
Lemma crc_buf_bytes h hs : Forall byte h -> Forall byte (crc_buf h hs).
Proof.
  intros Hh. unfold crc_buf. cbv zeta. apply Forall_app. split; [by apply Forall_take, Forall_take|]. apply Forall_app.
  split; [by repeat constructor|by apply Forall_drop, Forall_take].
Qed.

Lemma lookup_byte_at l i y : 0 <= i < Z.of_nat (length l) -> byte_at l i = y -> l !! Z.to_nat i = Some y.
Proof. intros Hi <-. unfold byte_at. destruct (lookup_lt_is_Some_2 l (Z.to_nat i)) as [z ->]; [lia|done]. Qed.
Lemma lookup_crc_buf h hs i : 20 <= hs <= Z.of_nat (length h) -> 0 <= i < hs -> ~ 16 <= i < 20 -> crc_buf h hs !! Z.to_nat i = h !! Z.to_nat i.
Proof.
  intros Hhs Hi Ho. unfold crc_buf. cbv zeta. set (t := take (Z.to_nat hs) h). assert (Ht : length t = Z.to_nat hs) by (unfold t; rewrite length_take; lia).
  assert (Hg : t !! Z.to_nat i = h !! Z.to_nat i) by (apply lookup_take_lt; lia). rewrite <- Hg. destruct (Z.lt_ge_cases i 16).
  - rewrite lookup_app_l by (rewrite length_take; lia). apply lookup_take_lt. lia.
  - rewrite lookup_app_r by (rewrite length_take; lia). rewrite length_take, Ht, Nat.min_l by lia.
    rewrite lookup_app_r by (cbn; lia). rewrite lookup_drop. f_equal. cbn [length]. lia.
Qed.
(** Any other byte of the header than those of its signature and of its size. *)
Lemma damaged_header d h i x :
  fills d -> read_block d 1 = Ok h -> GPT_HEADER_MIN_SIZE <= block_size d -> 2 <= block_count d -> bytes_at h 0 8 = GPT_SIGNATURE ->
  GPT_HEADER_MIN_SIZE <= read_le_u32 h 12 <= block_size d -> crc32 (crc_buf h (read_le_u32 h 12)) = read_le_u32 h 16 ->
  8 <= i < read_le_u32 h 12 -> ~ 12 <= i < 16 -> byte x -> x <> byte_at h i -> parse_gpt_partitions (damage d 1 i x) = Err InvalidGpt.
Proof.
  intros Hd Hh Hbs Hbc Hsig Hhs Hcrc Hi Hout Hx Hne. destruct (Hd 1 h Hh) as [Hlen Hby]. unfold parse_gpt_partitions. cbn [damage block_size block_count read_block].
  destruct (Z.ltb_spec (block_size d) GPT_HEADER_MIN_SIZE); [lia|]. destruct (Z.ltb_spec (block_count d) 2); [lia|]. rewrite Hh, Z.eqb_refl.
  unfold GPT_HEADER_MIN_SIZE in Hhs. rewrite bytes_at_insert_out, Hsig by lia. rewrite bool_decide_eq_true_2 by done. cbn [negb].
  assert (E12 : read_le_u32 (<[Z.to_nat i := x]> h) 12 = read_le_u32 h 12) by (unfold read_le_u32; rewrite bytes_at_insert_out by lia; done).
  rewrite E12. destruct (negb (_ && _)); [done|].
  destruct (Z.eqb_spec (crc32 (crc_buf (<[Z.to_nat i:=x]> h) (read_le_u32 h 12))) (read_le_u32 (<[Z.to_nat i:=x]> h) 16)) as [E|]; [|done].
  exfalso. pose proof (lookup_byte_at h i _ ltac:(lia) eq_refl) as Hy. rewrite crc_buf_insert in E by lia. destruct (decide (16 <= i < 20)) as [Hf|Hf].
  - rewrite Hcrc in E. revert E. unfold read_le_u32, bytes_at. rewrite drop_insert, decide_True by lia. rewrite take_insert_lt by lia. intros E.
    symmetry in E. apply le_insert_ne with (y := byte_at h i) in E; [done| |done]. rewrite lookup_take_lt by lia. rewrite lookup_drop, <- Hy. f_equal. lia.
  - assert (E16 : read_le_u32 (<[Z.to_nat i := x]> h) 16 = read_le_u32 h 16) by (unfold read_le_u32; rewrite bytes_at_insert_out by lia; done).
    rewrite E16, <- Hcrc in E. revert E. apply crc32_insert with (y := byte_at h i); [by apply crc_buf_bytes|done| |done].
    rewrite lookup_crc_buf by lia. done.
Qed.
(** Reading several blocks of the damaged device. *)
Lemma read_blocks_damage d s lba i x n : forall a raw,
  fills d -> 0 <= i < block_size d -> read_blocks d s (seqZ a (Z.of_nat n)) = Ok raw ->
  Z.of_nat (length raw) = Z.of_nat n * block_size d /\
  (lba < s + a -> read_blocks (damage d lba i x) s (seqZ a (Z.of_nat n)) = Ok raw) /\
  (s + a <= lba < s + a + Z.of_nat n -> let k := (lba - s - a) * block_size d + i in
    read_blocks (damage d lba i x) s (seqZ a (Z.of_nat n)) = Ok (<[Z.to_nat k := x]> raw) /\
    exists buf, read_block d lba = Ok buf /\ raw !! Z.to_nat k = buf !! Z.to_nat i).
Proof.
  induction n as [|n IH]; intros a raw Hd Hi.
  { intros [= <-]. split; [done|]. split; [done|lia]. }
  rewrite seqZ_cons by lia. replace (Z.pred (Z.of_nat (S n))) with (Z.of_nat n) by lia. cbn [read_blocks].
  unfold checked_add64. destruct (s + a <? u64_size); [|done]. cbn [damage read_block]. destruct (read_block d (s + a)) as [buf|] eqn:Eb; [|done].
  destruct (read_blocks d s (seqZ (Z.succ a) (Z.of_nat n))) as [rest|] eqn:Er; [|done]. intros [= <-].
  destruct (Hd _ _ Eb) as [Hlen _]. destruct (IH (Z.succ a) rest Hd Hi Er) as (Hl & Hbefore & Hin).
  split; [rewrite length_app; lia|]. split.
  - intros Hlt. rewrite (proj2 (Z.eqb_neq (s + a) lba)) by lia. fold (damage d lba i x). by rewrite Hbefore by lia.
  - intros Hr. cbv zeta. fold (damage d lba i x). destruct (Z.eqb_spec (s + a) lba) as [<-|Hne].
    + rewrite Hbefore by lia. replace ((s + a - s - a) * block_size d + i) with i by lia. rewrite insert_app_l by lia. split; [done|]. exists buf. split; [done|]. apply lookup_app_l. lia.
    + destruct Hin as (-> & buf' & Hb' & Hk); [lia|].
      replace (Z.to_nat ((lba - s - a) * block_size d + i)) with (length buf + Z.to_nat ((lba - s - Z.succ a) * block_size d + i))%nat by nia.
      rewrite insert_app_r. split; [done|]. exists buf'. split; [done|]. rewrite <- Hk. rewrite lookup_app_r by lia. f_equal. lia.
Qed.
(** The bytes of the table's entries, and the blocks they fill. *)
Definition entries_bytes_of (h : list Z) : Z := read_le_u32 h 80 * read_le_u32 h 84.
Definition entries_blocks_of (d : BlockDevice) (h : list Z) : Z := (entries_bytes_of h + (block_size d - 1)) / block_size d.

Lemma gpt_accepted d ps : parse_gpt_partitions d = Ok (Some ps) ->
  exists h raw, read_block d 1 = Ok h /\ read_blocks d (read_le_u64 h 72) (zrange 0 (entries_blocks_of d h)) = Ok raw /\
    (GPT_HEADER_MIN_SIZE <= block_size d /\ 2 <= block_count d /\ bytes_at h 0 8 = GPT_SIGNATURE /\
     GPT_HEADER_MIN_SIZE <= read_le_u32 h 12 <= block_size d /\ crc32 (crc_buf h (read_le_u32 h 12)) = read_le_u32 h 16) /\
    crc32 (take (Z.to_nat (entries_bytes_of h)) raw) = read_le_u32 h 88.
Proof.
  unfold parse_gpt_partitions. cbv zeta. destruct (Z.ltb_spec (block_size d) GPT_HEADER_MIN_SIZE); [done|]. destruct (Z.ltb_spec (block_count d) 2); [done|].
  destruct (read_block d 1) as [h|]; [|done]. destruct (bool_decide (bytes_at h 0 8 = GPT_SIGNATURE)) eqn:Es; [|done]. apply bool_decide_eq_true in Es. cbn [negb].
  destruct ((GPT_HEADER_MIN_SIZE <=? read_le_u32 h 12) && (read_le_u32 h 12 <=? block_size d)) eqn:Ehs; [|done]. cbn [negb]. apply andb_true_iff in Ehs as [Eh1 Eh2].
  destruct (Z.eqb_spec (crc32 (crc_buf h (read_le_u32 h 12))) (read_le_u32 h 16)); [|done]. cbn [negb]. destruct (negb _); [done|].
  destruct (_ || _); [done|]. destruct (_ =? 0); [done|]. destruct (_ <? GPT_ENTRY_MIN_SIZE); [done|]. destruct (GPT_MAX_ENTRIES_BYTES <? _); [done|].
  destruct (checked_add64 _ _); [|done]. destruct (_ || _); [done|]. fold (entries_bytes_of h). fold (entries_blocks_of d h).
  destruct (read_blocks d _ _) as [raw|] eqn:Er; [|done]. destruct (Z.eqb_spec (crc32 (take (Z.to_nat (entries_bytes_of h)) raw)) (read_le_u32 h 88)); [|done].
  intros _. exists h, raw. apply Z.leb_le in Eh1, Eh2. done.
Qed.
(** Any byte of the entries. *)
Lemma damaged_entries d ps h lba buf i x :
  fills d -> parse_gpt_partitions d = Ok (Some ps) -> read_block d 1 = Ok h -> lba <> 1 -> read_block d lba = Ok buf -> 0 <= i < block_size d ->
  read_le_u64 h 72 <= lba -> (lba - read_le_u64 h 72) * block_size d + i < entries_bytes_of h -> byte x -> x <> byte_at buf i ->
  parse_gpt_partitions (damage d lba i x) = Err InvalidGpt.
Proof.
  intros Hd Hok Hh Hlba Hbuf Hi Hge Hlt Hx Hne. destruct (gpt_accepted d ps Hok) as (h' & raw & Hh' & Hraw & _ & Hcrc).
  assert (h' = h) as -> by congruence. unfold zrange in Hraw. rewrite Z.sub_0_r in Hraw.
  set (nb := entries_blocks_of d h) in *. assert (Hnb : entries_bytes_of h <= nb * block_size d).
  { unfold nb, entries_blocks_of. pose proof (Z.mul_succ_div_gt (entries_bytes_of h + (block_size d - 1)) (block_size d) ltac:(lia)). lia. }
  assert (Hn : nb = Z.of_nat (Z.to_nat nb)) by nia. rewrite Hn in Hraw.
  destruct (read_blocks_damage d (read_le_u64 h 72) lba i x (Z.to_nat nb) 0 raw Hd Hi Hraw) as (Hlen & _ & Hin). rewrite <- Hn in Hin, Hlen, Hraw.
  destruct Hin as (Hdam & buf' & Hb' & Hk); [nia|]. assert (buf' = buf) as -> by congruence. rewrite Z.sub_0_r in Hdam, Hk.
  set (k := (lba - read_le_u64 h 72) * block_size d + i) in *. revert Hok. unfold parse_gpt_partitions. cbv zeta.
  cbn [damage block_size block_count read_block]. fold (damage d lba i x). rewrite Hh, (proj2 (Z.eqb_neq 1 lba)) by done.
  destruct (_ <? GPT_HEADER_MIN_SIZE); [done|]. destruct (block_count d <? 2); [done|]. do 4 (destruct (negb _); [done|]). destruct (_ || _); [done|]. destruct (_ =? 0); [done|].
  destruct (_ <? GPT_ENTRY_MIN_SIZE); [done|]. destruct (GPT_MAX_ENTRIES_BYTES <? _); [done|]. destruct (checked_add64 _ _); [|done]. destruct (_ || _); [done|].
  fold (entries_bytes_of h). fold (entries_blocks_of d h). fold nb. unfold zrange. rewrite Z.sub_0_r, Hdam. intros _.
  assert (Hk0 : 0 <= k) by (unfold k; nia). rewrite take_insert_lt by lia. rewrite <- Hcrc.
  destruct (Z.eqb_spec (crc32 (<[Z.to_nat k:=x]> (take (Z.to_nat (entries_bytes_of h)) raw))) (crc32 (take (Z.to_nat (entries_bytes_of h)) raw))) as [E|]; [|done].
  exfalso. revert E. destruct (Hd _ _ Hbuf) as [Hbl _]. apply crc32_insert with (y := byte_at buf i); [|done| |done].
  - apply Forall_take. by apply (read_blocks_bytes _ _ _ _ Hd Hraw).
  - rewrite lookup_take_lt by lia. rewrite Hk. by apply lookup_byte_at; [lia|].
Qed.

(** C30. A table of partitions of the GUID kind that has been damaged is noticed. When a device
    has such a table, and one byte of it changes - any byte of the header besides its
    signature and its size field, or any byte of the entries - discovery reports an invalid
    table, whatever the byte changes to, and never returns partitions read from the
    damaged table. *)
Theorem damaged_tables_are_refused d ps h :
  fills d -> parse_gpt_partitions d = Ok (Some ps) -> read_block d 1 = Ok h ->
  (forall i x, 8 <= i < read_le_u32 h 12 -> ~ 12 <= i < 16 -> byte x -> x <> byte_at h i -> discover_partitions (damage d 1 i x) = Err InvalidGpt) /\
  (forall lba buf i x, lba <> 1 -> read_block d lba = Ok buf -> 0 <= i < block_size d -> read_le_u64 h 72 <= lba ->
     (lba - read_le_u64 h 72) * block_size d + i < read_le_u32 h 80 * read_le_u32 h 84 -> byte x -> x <> byte_at buf i ->
     discover_partitions (damage d lba i x) = Err InvalidGpt).
Proof.
  intros Hd Hok Hh. unfold discover_partitions. split.
  - intros i x Hi Ho Hx Hne. destruct (gpt_accepted d ps Hok) as (h' & raw & Hh' & _ & (H1 & H2 & H3 & H4 & H5) & _).
    assert (h' = h) as -> by congruence. by rewrite (damaged_header d h i x) by done.
  - intros lba buf i x H1 H2 H3 H4 H5 H6 H7. by rewrite (damaged_entries d ps h lba buf i x) by done.
Qed.

(** ** A disk of eight blocks, with one partition of three *)
Lemma static_fills {FileSystem Inode : Type} `{Vfs FileSystem Inode} name bs data :
  0 < bs <= Z.of_nat (length data) -> Forall byte data -> fills (file_device (mkFileDevice name bs (Static data))).
Proof.
  intros Hbs Hdata lba buf. cbn. unfold file_read_block, checked_mul64, checked_add64. cbn. destruct (_ <? u64_size); [|done].
  destruct (_ <? u64_size); [|done]. destruct (Z.ltb_spec (Z.of_nat (length data)) (lba * bs + bs)); [done|]. intros [= <-]. split.
  - rewrite length_take, length_drop. destruct (Z.le_gt_cases 0 lba); nia.
  - by apply Forall_take, Forall_drop.
Qed.
Definition ex_header : list Z :=
  GPT_SIGNATURE ++ [0; 0; 1; 0; 92; 0; 0; 0; 183; 26; 175; 194; 0; 0; 0; 0; 1; 0; 0; 0; 0; 0; 0; 0; 7; 0; 0; 0; 0; 0; 0; 0;
    3; 0; 0; 0; 0; 0; 0; 0; 6; 0; 0; 0; 0; 0; 0; 0] ++ replicate 16 9 ++ [2; 0; 0; 0; 0; 0; 0; 0; 1; 0; 0; 0; 128; 0; 0; 0; 106; 204; 32; 219].
Definition ex_entry : list Z :=
  replicate 16 1 ++ replicate 16 2 ++ [4; 0; 0; 0; 0; 0; 0; 0; 6; 0; 0; 0; 0; 0; 0; 0] ++ replicate 80 0.
Definition ex_data : list Z := replicate 128 0 ++ (ex_header ++ replicate 36 0) ++ ex_entry ++ replicate (5 * 128) 7.
#[local] Instance no_vfs : Vfs unit unit := {|
  fs_name _ := []; root _ := (); statfs _ := Err NotFound; metadata _ := Err NotFound; lookup_child _ _ := Err NotFound; readdir _ := Err NotFound;
  read_at _ _ _ := Err NotFound |}.
Definition ex_disk : BlockDevice := file_device (mkFileDevice (lit "disk") 128 (Static ex_data)).
Lemma ex_disk_fills : fills ex_disk.
Proof.
  apply static_fills; [vm_compute; done|]. assert (Hb : forallb (fun b => (0 <=? b) && (b <? 256)) ex_data = true) by (vm_compute; reflexivity).
  apply Is_true_true, forallb_True in Hb. eapply Forall_impl; [exact Hb|]. intros b [H1 H2]%Is_true_true%andb_true_iff. unfold byte. lia.
Qed.

Definition ex_partition : Partition := mkPartition 1 4 3 (GptType (replicate 16 1)).
Lemma ex_disk_table : parse_gpt_partitions ex_disk = Ok (Some [ex_partition]).
Proof. vm_compute. reflexivity. Qed.

Lemma partitions_stay_inside_witness :
  exists part, open_partition (lit "disk1") (mkPartitioned ex_disk Gpt [ex_partition]) 1 = Ok part /\
    fills part /\ block_count part = 3 /\ read_block part 2 = read_block ex_disk 6 /\ read_block part 3 = Err InvalidAddress.
Proof.
  assert (Ht : discover_partitions ex_disk = Ok (mkPartitioned ex_disk Gpt [ex_partition])) by (unfold discover_partitions; rewrite ex_disk_table; reflexivity).
  assert (Hc : block_count ex_disk < u64_size) by (vm_compute; reflexivity).
  destruct (partitions_stay_inside ex_disk _ (lit "disk1") 1 ex_partition ex_disk_fills Hc Ht eq_refl) as (_ & _ & _ & part & Ho & Hf & Hb & Hr).
  exists part. split; [exact Ho|]. split; [exact Hf|]. split; [exact Hb|]. rewrite Hb in Hr. change (part_blocks ex_partition) with 3 in Hr.
  split; [apply (Hr 2); lia|apply Hr; lia].
Defined.
Lemma damaged_tables_are_refused_witness : discover_partitions (damage ex_disk 1 40 4) = Err InvalidGpt /\ discover_partitions (damage ex_disk 2 40 7) = Err InvalidGpt.
Proof.
  destruct (damaged_tables_are_refused ex_disk [ex_partition] (ex_header ++ replicate 36 0) ex_disk_fills ex_disk_table) as [H1 H2];
    [vm_compute; reflexivity|].
  split; [apply H1|apply (H2 2 ex_entry)]; (vm_compute; first [reflexivity|intuition discriminate]).
Defined.
