(* ===== verification/Fat32.v ===== *)
(** * The FAT32 file system: kernel/src/fs/backing/fat/mod.rs

    A read-only file system on a block device: the boot sector, the table of clusters, the
    chains of clusters of files and directories, the records of a directory with their short
    and long names, and the operations of the trait the rest of the file system uses. *)

From stdpp Require Import strings.
From S2P Require Import Prelude Errno FsPath FsMount Utf8 Block.
#[local] Open Scope Z_scope.

Definition FAT32_SIGNATURE0 : Z := 0x55.
Definition FAT32_SIGNATURE1 : Z := 0xAA.
Definition FAT32_ATTR_DIRECTORY : Z := 0x10.
Definition FAT32_ATTR_VOLUME_ID : Z := 0x08.
Definition FAT32_ATTR_LFN : Z := 0x0F.
Definition FAT32_EOC : Z := 0x0FFFFFF8.

Record BiosParameterBlock := mkBpb {
  bytes_per_sector : Z; sectors_per_cluster : Z; reserved_sectors : Z; num_fats : Z; total_sectors : Z; fat_size_sectors : Z; root_cluster : Z
}.
Definition cluster_size (self : BiosParameterBlock) : Z := bytes_per_sector self * sectors_per_cluster self.

Record Fat32FileSystem := mkFat { device : BlockDevice; bpb : BiosParameterBlock; fat : list Z; first_data_sector : Z; cluster_count : Z }.
Record Fat32Node := mkNode { node_ino : Z; node_cluster : Z; node_size : Z; node_is_dir : bool }.
Record Fat32Inode := mkInode { inode_fs : Fat32FileSystem; inode_node : Fat32Node }.
Record FatDirRecord := mkRecord { rec_ino : Z; rec_name : str; rec_cluster : Z; rec_size : Z; rec_is_dir : bool }.

(** ** Mounting *)
Definition parse_bpb (dev : BlockDevice) : Result BiosParameterBlock FsError :=
  if block_size dev <? 512 then Err InvalidInput
  else match read_block dev 0 with
  | Err _ => Err Io
  | Ok boot =>
      if negb (byte_at boot 510 =? FAT32_SIGNATURE0) || negb (byte_at boot 511 =? FAT32_SIGNATURE1) then Err InvalidInput
      else
        let bytes_per_sector := read_le_u16 boot 11 in
        let sectors_per_cluster := byte_at boot 13 in
        let reserved_sectors := read_le_u16 boot 14 in
        let num_fats := byte_at boot 16 in
        let root_entry_count := read_le_u16 boot 17 in
        let total16 := read_le_u16 boot 19 in
        let fat_size16 := read_le_u16 boot 22 in
        let total32 := read_le_u32 boot 32 in
        let fat_size32 := read_le_u32 boot 36 in
        let root_cluster := read_le_u32 boot 44 in
        if negb (bytes_per_sector =? block_size dev) || (sectors_per_cluster =? 0) || (reserved_sectors =? 0) || (num_fats =? 0)
           || negb (root_entry_count =? 0) || negb (fat_size16 =? 0) || (fat_size32 =? 0) then Err InvalidInput
        else
          let total_sectors := if negb (total16 =? 0) then total16 else total32 in
          if total_sectors =? 0 then Err InvalidInput
          else Ok (mkBpb bytes_per_sector sectors_per_cluster reserved_sectors num_fats total_sectors fat_size32 root_cluster)
  end.

(** The loops that read consecutive sectors into a buffer. *)
Fixpoint read_sectors (dev : BlockDevice) (lba : Z) (idxs : list Z) : Result (list Z) FsError :=
  match idxs with
  | [] => Ok []
  | idx :: idxs' =>
      match read_block dev (lba + idx) with
      | Err _ => Err Io
      | Ok sector => match read_sectors dev lba idxs' with Err e => Err e | Ok rest => Ok (sector ++ rest) end
      end
  end.
Definition read_fat (dev : BlockDevice) (b : BiosParameterBlock) : Result (list Z) FsError :=
  match read_sectors dev (reserved_sectors b) (zrange 0 (fat_size_sectors b)) with
  | Err e => Err e
  | Ok fat_bytes =>
      Ok ((fun i => Z.land (read_le_u32 fat_bytes (4 * i)) 0x0FFFFFFF) <$> zrange 0 (Z.of_nat (length fat_bytes) / 4))
  end.

Definition fat_mount (dev : BlockDevice) : Result Fat32FileSystem FsError :=
  match parse_bpb dev with
  | Err e => Err e
  | Ok b =>
      match read_fat dev b with
      | Err e => Err e
      | Ok table =>
          let first_data := reserved_sectors b + num_fats b * fat_size_sectors b in
          let truncated := first_data mod 4294967296 in
          if total_sectors b <? truncated then Err InvalidInput
          else
            let count := (total_sectors b - truncated) / sectors_per_cluster b in
            if (root_cluster b <? 2) || (count <? 2) then Err InvalidInput
            else Ok (mkFat dev b table first_data count)
      end
  end.

(** ** Clusters *)
Definition cluster_to_lba (self : Fat32FileSystem) (cluster : Z) : Result Z FsError :=
  if (cluster <? 2) || (add32 (cluster_count self) 2 <=? cluster) then Err InvalidInput
  else Ok (first_data_sector self + (cluster - 2) * sectors_per_cluster (bpb self)).

Definition read_cluster (self : Fat32FileSystem) (cluster : Z) : Result (list Z) FsError :=
  match cluster_to_lba self cluster with
  | Err e => Err e
  | Ok lba => read_sectors (device self) lba (zrange 0 (sectors_per_cluster (bpb self)))
  end.

Definition next_cluster (self : Fat32FileSystem) (cluster : Z) : Result (option Z) FsError :=
  match fat self !! Z.to_nat cluster with
  | None => Err InvalidInput
  | Some value => if FAT32_EOC <=? value then Ok None else if value =? 0 then Ok None else Ok (Some value)
  end.

(** The loop of [collect_chain], whose [remaining] is the fuel of the code itself. *)
Fixpoint collect_loop (self : Fat32FileSystem) (remaining : nat) (chain : list Z) (current : Z) : Result (list Z) FsError :=
  match remaining with
  | O => Err Io
  | S remaining' =>
      let chain := chain ++ [current] in
      match next_cluster self current with
      | Err e => Err e
      | Ok (Some next) => collect_loop self remaining' chain next
      | Ok None => Ok chain
      end
  end.
Definition collect_chain (self : Fat32FileSystem) (start_cluster : Z) : Result (list Z) FsError :=
  if start_cluster =? 0 then Ok [] else collect_loop self (Z.to_nat (saturating_add32 (cluster_count self) 2)) [] start_cluster.

(** ** Files *)
(** The loop over the chain; [written] is what has been copied into the buffer. *)
Fixpoint copy_loop (self : Fat32FileSystem) (offset to_copy : Z) (chain : list Z) (file_offset : Z) (written : list Z) : Result (list Z) FsError :=
  match chain with
  | [] => Ok written
  | cluster :: chain' =>
      if to_copy <=? Z.of_nat (length written) then Ok written
      else match read_cluster self cluster with
      | Err e => Err e
      | Ok data =>
          let size := cluster_size (bpb self) in
          let cluster_end := saturating_add64 file_offset size in
          if cluster_end <=? offset then copy_loop self offset to_copy chain' cluster_end written
          else
            let start := saturating_sub64 offset file_offset in
            let end_ := Z.min (start + (to_copy - Z.of_nat (length written))) size in
            let count := saturating_sub64 end_ start in
            copy_loop self offset to_copy chain' cluster_end (written ++ bytes_at data start count)
      end
  end.
Definition read_file (self : Fat32FileSystem) (node : Fat32Node) (offset len : Z) : Result (list Z) FsError :=
  if node_is_dir node then Err IsDirectory
  else if (len =? 0) || (node_size node <=? offset) then Ok []
  else if node_cluster node =? 0 then Ok []
  else match collect_chain self (node_cluster node) with
  | Err e => Err e
  | Ok chain => copy_loop self offset (Z.min len (node_size node - offset)) chain 0 []
  end.

(** ** Names *)
Definition SPACE : Z := 32.
(** [rposition] of a byte that is not a space bounds what is kept. *)
Definition trim_ascii_spaces (raw : list Z) : str := let t := trim_end SPACE raw in if valid_utf8 t then t else [].
Definition parse_short_name (raw : list Z) : option str :=
  if negb (Z.of_nat (length raw) =? 11) then None
  else
    let base := trim_ascii_spaces (bytes_at raw 0 8) in
    if bool_decide (base = []) then None
    else
      let ext := trim_ascii_spaces (bytes_at raw 8 3) in
      if bool_decide (ext = []) then Some base else Some (base ++ lit "." ++ ext).

Fixpoint collect_lfn_units (raw : list Z) : list Z :=
  match raw with
  | lo :: hi :: raw' => let unit := lo + 256 * hi in if (unit =? 0) || (unit =? 0xFFFF) then [] else unit :: collect_lfn_units raw'
  | _ => []
  end.
Definition parse_lfn_segment (entry : list Z) : Result str FsError :=
  if negb (Z.of_nat (length entry) =? 32) then Err InvalidInput
  else
    let units := collect_lfn_units (bytes_at entry 1 10) ++ collect_lfn_units (bytes_at entry 14 12) ++ collect_lfn_units (bytes_at entry 28 4) in
    match decode_utf16 units with
    | None => Err InvalidInput
    | Some chars => Ok (mjoin (encode_char <$> chars))
    end.

(** ** Directories *)
Record Scan := mkScan { out : list FatDirRecord; logical_index : Z; done_ : bool; pending_lfn : str }.

(** One 32-byte record of a directory. *)
Definition scan_entry (cluster : Z) (entry : list Z) (s : Scan) : Result Scan FsError :=
  let first := byte_at entry 0 in
  let attr := byte_at entry 11 in
  if first =? 0 then Ok (mkScan (out s) (logical_index s) true (pending_lfn s))
  else if first =? 0xE5 then Ok (mkScan (out s) (logical_index s + 1) false [])
  else if attr =? FAT32_ATTR_LFN then
    match parse_lfn_segment entry with
    | Err e => Err e
    | Ok segment =>
        let pending := if negb (Z.land first 0x40 =? 0) then [] else pending_lfn s in
        Ok (mkScan (out s) (logical_index s + 1) false (segment ++ pending))
    end
  else if negb (Z.land attr FAT32_ATTR_VOLUME_ID =? 0) then Ok (mkScan (out s) (logical_index s + 1) false [])
  else match parse_short_name (bytes_at entry 0 11) with
  | None => Err InvalidInput
  | Some short =>
      let name := if bool_decide (pending_lfn s = []) then short else pending_lfn s in
      let child_cluster := Z.lor (Z.shiftl (read_le_u16 entry 20) 16) (read_le_u16 entry 26) in
      let size := read_le_u32 entry 28 in
      let is_dir := negb (Z.land attr FAT32_ATTR_DIRECTORY =? 0) in
      Ok (mkScan (out s ++ [mkRecord (Z.lor (Z.shiftl cluster 32) (logical_index s)) name child_cluster size is_dir]) (logical_index s + 1) false [])
  end.
(** The records of one cluster, at the multiples of 32 that leave room for one. *)
Fixpoint scan_cluster (cluster : Z) (data : list Z) (slots : list Z) (s : Scan) : Result Scan FsError :=
  match slots with
  | [] => Ok s
  | slot :: slots' =>
      match scan_entry cluster (bytes_at data (32 * slot) 32) s with
      | Err e => Err e
      | Ok s' => if done_ s' then Ok s' else scan_cluster cluster data slots' s'
      end
  end.
Fixpoint scan_chain (self : Fat32FileSystem) (chain : list Z) (s : Scan) : Result Scan FsError :=
  match chain with
  | [] => Ok s
  | cluster :: chain' =>
      if done_ s then Ok s
      else match read_cluster self cluster with
      | Err e => Err e
      | Ok data =>
          match scan_cluster cluster data (zrange 0 (Z.of_nat (length data) / 32)) s with
          | Err e => Err e
          | Ok s' => scan_chain self chain' s'
          end
      end
  end.
Definition read_directory (self : Fat32FileSystem) (cluster : Z) : Result (list FatDirRecord) FsError :=
  match collect_chain self cluster with
  | Err e => Err e
  | Ok chain => match scan_chain self chain (mkScan [] 0 false []) with Err e => Err e | Ok s => Ok (out s) end
  end.

Definition to_ascii_lowercase (b : Z) : Z := if (65 <=? b) && (b <=? 90) then b + 32 else b.
Definition eq_ignore_ascii_case (a b : str) : bool := bool_decide (to_ascii_lowercase <$> a = to_ascii_lowercase <$> b).

Definition fat_lookup_child (self : Fat32FileSystem) (dir : Fat32Node) (name : str) : Result Fat32Node FsError :=
  if negb (node_is_dir dir) then Err NotDirectory
  else if bool_decide (name = lit ".") then Ok dir
  else match read_directory self (node_cluster dir) with
  | Err e => Err e
  | Ok entries =>
      match filter (fun entry => eq_ignore_ascii_case (rec_name entry) name = true) entries with
      | entry :: _ => Ok (mkNode (rec_ino entry) (rec_cluster entry) (rec_size entry) (rec_is_dir entry))
      | [] => Err NotFound
      end
  end.

(** ** The operations of the traits *)
Definition fat_root (self : Fat32FileSystem) : Fat32Inode := mkInode self (mkNode 1 (root_cluster (bpb self)) 0 true).
Definition fat_statfs (self : Fat32FileSystem) : Result FsStatFs FsError :=
  let total_clusters := cluster_count self in
  let free_clusters := Z.of_nat (length (filter (fun entry => entry = 0) (take (Z.to_nat (cluster_count self)) (drop 2 (fat self))))) in
  let size := cluster_size (bpb self) in
  Ok (mkStatFs 0x4d44 size total_clusters free_clusters free_clusters total_clusters free_clusters 255 size
        (if is_read_only (device self) then 1 else 0)).
Definition fat_metadata (self : Fat32Inode) : Result Metadata FsError :=
  let node := inode_node self in
  Ok (mkMetadata (node_ino node) (if node_is_dir node then Directory else Regular) (if node_is_dir node then 0x416D else 0x8124)
        (node_size node) (if node_is_dir node then 2 else 1)).
Definition fat_lookup (self : Fat32Inode) (name : str) : Result Fat32Inode FsError :=
  match fat_lookup_child (inode_fs self) (inode_node self) name with Err e => Err e | Ok node => Ok (mkInode (inode_fs self) node) end.
Definition fat_readdir (self : Fat32Inode) : Result (list DirEntry) FsError :=
  if negb (node_is_dir (inode_node self)) then Err NotDirectory
  else match read_directory (inode_fs self) (node_cluster (inode_node self)) with
  | Err e => Err e
  | Ok entries => Ok ((fun entry => mkDirEntry (rec_ino entry) (if rec_is_dir entry then Directory else Regular) (rec_name entry)) <$> entries)
  end.
#[export] Instance fat_vfs : Vfs Fat32FileSystem Fat32Inode := {|
  fs_name _ := lit "fat32"; root := fat_root; statfs := fat_statfs; metadata := fat_metadata; lookup_child := fat_lookup; readdir := fat_readdir;
  read_at self offset len := read_file (inode_fs self) (inode_node self) offset len |}.
