(* ===== verification/Fat32Chains.v ===== *)
(** * FAT32: chains of clusters, and the bytes of files *)

From stdpp Require Import strings.
From S2P Require Import Prelude Errno FsPath FsMount Utf8 Block BlockTheorems Fat32.
#[local] Open Scope Z_scope.
Implicit Types fs : Fat32FileSystem.

(** ** Chains *)
(** What a chain is: the clusters met by following the table from the first to one that ends it. *)
Inductive chain_from fs : Z -> list Z -> Prop :=
| chain_last c : next_cluster fs c = Ok None -> chain_from fs c [c]
| chain_next c c' l : next_cluster fs c = Ok (Some c') -> chain_from fs c' l -> chain_from fs c (c :: l).
#[local] Hint Constructors chain_from : core.
Definition linked fs (c c' : Z) : Prop := next_cluster fs c = Ok (Some c').
(** A cluster that exists in the volume. *)
Definition valid_cluster fs (c : Z) : Prop := 2 <= c < cluster_count fs + 2.

Lemma chain_from_det fs c l : chain_from fs c l -> forall l', chain_from fs c l' -> l = l'.
Proof. induction 1 as [c E|c c' l E _ IH]; intros l' H; inversion H; subst; try congruence. f_equal. apply IH. congruence. Qed.
Lemma chain_from_suffix fs c l a c' l' : chain_from fs c l -> l = a ++ c' :: l' -> chain_from fs c' (c' :: l').
Proof.
  intros H. revert a. induction H as [c E|c c1 l E H IH]; intros [|x a] He; cbn in He; simplify_eq; eauto. by destruct a.
Qed.
Lemma chain_from_NoDup fs c l : chain_from fs c l -> NoDup l.
Proof.
  induction 1 as [c E|c c' l E H IH]; [apply NoDup_singleton|]. constructor; [|done]. intros (a & b & Hab)%list_elem_of_split.
  pose proof (chain_from_suffix _ _ _ _ _ _ H Hab) as Hs. assert (Hw : chain_from fs c (c :: l)) by eauto.
  pose proof (chain_from_det _ _ _ Hw _ Hs) as Heq. apply (f_equal length) in Heq. rewrite Hab in Heq. cbn in Heq. rewrite length_app in Heq. cbn in Heq. lia.
Qed.
Lemma collect_loop_iff fs n : forall acc c r,
  collect_loop fs n acc c = Ok r <-> exists l, chain_from fs c l /\ (length l <= n)%nat /\ r = acc ++ l.
Proof.
  induction n as [|n IH]; intros acc c r; cbn [collect_loop].
  { split; [done|]. intros (l & H & Hl & _). destruct H; cbn in Hl; lia. }
  destruct (next_cluster fs c) as [[c'|]|e] eqn:E.
  - rewrite IH. split.
    + intros (l & H & Hl & ->). exists (c :: l). split; [eauto|]. cbn. split; [lia|by rewrite <- app_assoc].
    + intros (l & H & Hl & ->). inversion H; subst; [congruence|]. exists l0. split; [congruence|]. cbn in Hl. split; [lia|]. by rewrite <- app_assoc.
  - split; [intros [= <-]; exists [c]; cbn; auto with lia|]. intros (l & H & Hl & ->). inversion H; subst; [done|congruence].
  - split; [done|]. intros (l & H & _). inversion H; congruence.
Qed.
Lemma collect_chain_length fs start chain : collect_chain fs start = Ok chain -> Z.of_nat (length chain) <= 4294967295.
Proof.
  unfold collect_chain, saturating_add32. destruct (start =? 0); [intros [= <-]; done|]. intros (l & _ & Hl & ->)%collect_loop_iff. cbn [app]. lia.
Qed.
(** A set of clusters each of which leads to another of the set has no chain. *)
Lemma collect_loop_cycle fs (S : Z -> Prop) n : forall acc c, (forall x, S x -> exists y, linked fs x y /\ S y) -> S c -> collect_loop fs n acc c = Err Io.
Proof.
  induction n as [|n IH]; intros acc c Hcl Hc; cbn [collect_loop]; [done|]. destruct (Hcl c Hc) as (y & Hy & HS). unfold linked in Hy. rewrite Hy. by apply IH.
Qed.
Lemma NoDup_range_length (l : list Z) a n : NoDup l -> Forall (fun x => a <= x < a + n) l -> (length l <= Z.to_nat n)%nat.
Proof.
  intros Hnd Hf. rewrite <- (length_seqZ a n). apply submseteq_length, NoDup_submseteq; [done|]. intros x Hx. apply elem_of_seqZ. rewrite Forall_forall in Hf. auto.
Qed.

(** C28. Following a chain of clusters always ends. It yields exactly the clusters the table
    links from the first one, no cluster twice; every chain that stays inside the volume and
    ends is found, whatever its length; and a chain that runs into a cycle is reported as an
    input/output error instead of being followed forever. *)
Theorem chains_end fs start :
  start <> 0 -> 0 <= cluster_count fs < 4294967294 ->
  (forall chain, collect_chain fs start = Ok chain -> chain_from fs start chain /\ NoDup chain) /\
  (forall chain, chain_from fs start chain -> Forall (valid_cluster fs) chain -> collect_chain fs start = Ok chain) /\
  (forall c, rtc (linked fs) start c -> tc (linked fs) c c -> collect_chain fs start = Err Io).
Proof.
  intros Hs Hc. unfold collect_chain, saturating_add32. rewrite (proj2 (Z.eqb_neq start 0)) by done. split; [|split].
  - intros chain (l & Hl & _ & ->)%collect_loop_iff. split; [done|by eapply chain_from_NoDup].
  - intros chain Hch Hv. apply collect_loop_iff. exists chain. split; [done|]. split; [|done].
    pose proof (NoDup_range_length chain 2 (cluster_count fs) (chain_from_NoDup _ _ _ Hch)) as Hlen.
    assert (length chain <= Z.to_nat (cluster_count fs))%nat; [|lia]. apply Hlen. eapply Forall_impl; [exact Hv|]. unfold valid_cluster. intros; lia.
  - intros c Hr Hcyc. apply collect_loop_cycle with (S := fun x => rtc (linked fs) x c); [|done]. intros x Hx.
    inversion Hx as [|? y ? Hxy Hy]; subst; [|by exists y]. inversion Hcyc as [? ? H|? y ? Hxy Hy]; subst; [by exists c|]. exists y. split; [done|by apply tc_rtc].
Qed.

(** ** Volumes *)
Lemma read_le_u16_bound d i : Forall byte d -> 0 <= read_le_u16 d i < 65536.
Proof. intros Hd. exact (le_at_bound d i 2 Hd ltac:(lia)). Qed.
Lemma read_le_u32_bound d i : Forall byte d -> 0 <= read_le_u32 d i < 4294967296.
Proof. intros Hd. exact (le_at_bound d i 4 Hd ltac:(lia)). Qed.
Lemma byte_at_bound d i : Forall byte d -> 0 <= byte_at d i < 256.
Proof. intros Hd. unfold byte_at. destruct (d !! Z.to_nat i) as [b|] eqn:E; [|done]. cbn. by apply (proj1 (Forall_lookup _ _) Hd _ _ E). Qed.

(** What mounting establishes. *)
Record volume_ok fs : Prop := {
  vol_fills : fills (device fs);
  vol_bps : bytes_per_sector (bpb fs) = block_size (device fs);
  vol_sector : 512 <= bytes_per_sector (bpb fs) < 65536;
  vol_spc : 1 <= sectors_per_cluster (bpb fs) < 256;
  vol_total : 1 <= total_sectors (bpb fs) < 4294967296;
  vol_first : first_data_sector fs = reserved_sectors (bpb fs) + num_fats (bpb fs) * fat_size_sectors (bpb fs);
  vol_before : 2 <= first_data_sector fs;
  vol_count : 2 <= cluster_count fs;
  vol_data : first_data_sector fs mod 4294967296 + cluster_count fs * sectors_per_cluster (bpb fs) <= total_sectors (bpb fs)
}.
Lemma parse_bpb_ok dev b : fills dev -> parse_bpb dev = Ok b ->
  bytes_per_sector b = block_size dev /\ 512 <= bytes_per_sector b < 65536 /\ 1 <= sectors_per_cluster b < 256 /\ 1 <= total_sectors b < 4294967296 /\
  1 <= reserved_sectors b /\ 1 <= num_fats b /\ 1 <= fat_size_sectors b.
Proof.
  intros Hd. unfold parse_bpb. destruct (Z.ltb_spec (block_size dev) 512); [done|]. destruct (read_block dev 0) as [boot|] eqn:Eb; [|done].
  destruct (Hd _ _ Eb) as [_ Hb]. destruct (_ || _); [done|]. cbv zeta. destruct (_ || (read_le_u32 boot 36 =? 0)) eqn:Ec; [done|].
  repeat match goal with H : (_ || _) = false |- _ => apply orb_false_iff in H as [? ?] end.
  repeat match goal with H : negb _ = false |- _ => apply negb_false_iff, Z.eqb_eq in H end.
  repeat match goal with H : (_ =? _) = false |- _ => apply Z.eqb_neq in H end.
  destruct (Z.eqb_spec (if negb (read_le_u16 boot 19 =? 0) then read_le_u16 boot 19 else read_le_u32 boot 32) 0) as [|Ht]; [done|]. intros [= <-]. cbn.
  pose proof (read_le_u16_bound boot 11 Hb). pose proof (read_le_u16_bound boot 14 Hb). pose proof (read_le_u16_bound boot 19 Hb).
  pose proof (byte_at_bound boot 13 Hb). pose proof (byte_at_bound boot 16 Hb). pose proof (read_le_u32_bound boot 32 Hb). pose proof (read_le_u32_bound boot 36 Hb).
  destruct (negb (read_le_u16 boot 19 =? 0)); lia.
Qed.
Lemma fat_mount_ok dev fs : fills dev -> fat_mount dev = Ok fs -> volume_ok fs /\ device fs = dev.
Proof.
  intros Hd. unfold fat_mount. destruct (parse_bpb dev) as [b|] eqn:Eb; [|done]. apply (parse_bpb_ok _ _ Hd) in Eb as (H1 & H2 & H3 & H4 & H5 & H6 & H7).
  destruct (read_fat dev b) as [table|]; [|done]. cbv zeta. set (first := reserved_sectors b + num_fats b * fat_size_sectors b).
  destruct (Z.ltb_spec (total_sectors b) (first mod 4294967296)); [done|]. destruct (_ || _) eqn:Ec; [done|]. apply orb_false_iff in Ec as [_ Ec]. apply Z.ltb_ge in Ec.
  intros [= <-]. split; [|done]. split; cbn; try done; [unfold first; nia|].
  pose proof (Z.mul_div_le (total_sectors b - first mod 4294967296) (sectors_per_cluster b) ltac:(lia)). lia.
Qed.

(** On a volume that was mounted, whose reserved sectors and tables take fewer than 2^32
    sectors, the sectors of every cluster that can be read lie inside the volume's data area,
    behind the boot sector and the tables and before the volume's end, and different
    clusters share no sector. *)
Theorem clusters_stay_inside dev fs c lba :
  fills dev -> fat_mount dev = Ok fs -> first_data_sector fs < 4294967296 -> cluster_to_lba fs c = Ok lba ->
  first_data_sector fs <= lba /\ lba + sectors_per_cluster (bpb fs) <= total_sectors (bpb fs) /\
  forall c' lba', cluster_to_lba fs c' = Ok lba' -> c <> c' ->
    lba + sectors_per_cluster (bpb fs) <= lba' \/ lba' + sectors_per_cluster (bpb fs) <= lba.
Proof.
  intros Hd Hm Hf Hl. destruct (fat_mount_ok _ _ Hd Hm) as [[] _].
  assert (Hc : cluster_count fs * 1 <= cluster_count fs * sectors_per_cluster (bpb fs)) by (apply Z.mul_le_mono_nonneg_l; lia).
  rewrite Z.mod_small in vol_data0 by lia.
  assert (Hin : forall x l, cluster_to_lba fs x = Ok l -> 2 <= x < cluster_count fs + 2 /\ l = first_data_sector fs + (x - 2) * sectors_per_cluster (bpb fs)).
  { intros x l. unfold cluster_to_lba, add32. rewrite Z.mod_small by lia. destruct (_ || _) eqn:E; [done|]. intros [= <-]. apply orb_false_iff in E as [E1 E2]. lia. }
  destruct (Hin _ _ Hl) as [H1 ->]. split; [nia|]. split; [nia|]. intros c' lba' [H2 ->]%Hin Hne. nia.
Qed.

(** ** Files *)
Lemma read_sectors_length dev lba idxs : forall r, fills dev -> read_sectors dev lba idxs = Ok r ->
  Z.of_nat (length r) = Z.of_nat (length idxs) * block_size dev /\ Forall byte r.
Proof.
  induction idxs as [|i idxs IH]; intros r Hd; cbn [read_sectors]; [intros [= <-]; done|]. destruct (read_block dev (lba + i)) as [sec|] eqn:E; [|done].
  destruct (read_sectors dev lba idxs) as [rest|]; [|done]. intros [= <-]. destruct (Hd _ _ E). destruct (IH _ Hd eq_refl). rewrite length_app. cbn [length].
  split; [lia|by apply Forall_app].
Qed.
Lemma read_cluster_length fs c data : volume_ok fs -> read_cluster fs c = Ok data -> Z.of_nat (length data) = cluster_size (bpb fs) /\ Forall byte data.
Proof.
  intros []. unfold read_cluster, cluster_size. destruct (cluster_to_lba fs c); [|done]. intros [H Hb]%read_sectors_length; [|done].
  split; [|done]. rewrite H, <- vol_bps0. unfold zrange. rewrite length_seqZ. nia.
Qed.

(** The bytes of a file: those of the clusters of its chain, cut at its size. *)
Fixpoint clusters_data fs (chain : list Z) : Result (list Z) FsError :=
  match chain with
  | [] => Ok []
  | c :: chain' =>
      match read_cluster fs c with
      | Err e => Err e
      | Ok data => match clusters_data fs chain' with Err e => Err e | Ok rest => Ok (data ++ rest) end
      end
  end.
Definition file_bytes fs (node : Fat32Node) : Result (list Z) FsError :=
  match collect_chain fs (node_cluster node) with
  | Err e => Err e
  | Ok chain => match clusters_data fs chain with Err e => Err e | Ok data => Ok (take (Z.to_nat (node_size node)) data) end
  end.

Lemma copy_loop_ok fs offset to_copy chain : forall rest file_offset written,
  volume_ok fs -> clusters_data fs chain = Ok rest -> 0 <= file_offset ->
  file_offset + Z.of_nat (length chain) * cluster_size (bpb fs) <= U64_MAX -> Z.of_nat (length written) <= to_copy ->
  copy_loop fs offset to_copy chain file_offset written =
    Ok (written ++ take (Z.to_nat to_copy - length written) (drop (Z.to_nat (offset - file_offset)) rest)).
Proof.
  induction chain as [|c chain IH]; intros rest f w Hv Hr Hf Hmax Hw; cbn [clusters_data copy_loop] in *.
  { injection Hr as <-. by rewrite drop_nil, take_nil, app_nil_r. }
  destruct (read_cluster fs c) as [data|] eqn:Ec; [|done]. destruct (clusters_data fs chain) as [rest'|] eqn:Er; [|done]. injection Hr as <-.
  destruct (Z.leb_spec to_copy (Z.of_nat (length w))) as [Hdone|Hgo]; [replace (Z.to_nat to_copy - length w)%nat with O by lia; by rewrite take_0, app_nil_r|].
  destruct (read_cluster_length _ _ _ Hv Ec) as [Hlen _]. set (cs := cluster_size (bpb fs)) in *. cbn [length] in Hmax. cbv zeta.
  assert (Hcs : 0 <= cs) by lia. unfold saturating_add64. rewrite Z.min_r by nia.
  destruct (Z.leb_spec (f + cs) offset) as [Hskip|Hin].
  - rewrite (IH rest') by (first [done|nia]). rewrite drop_app_ge by lia. do 4 f_equal. lia.
  - unfold saturating_sub64. set (st := Z.max 0 (offset - f)). assert (Hst : Z.to_nat (offset - f) = Z.to_nat st) by lia. assert (0 <= st < cs \/ st = 0) by lia.
    rewrite Hst. set (m := (Z.to_nat to_copy - length w)%nat). assert (Hm : Z.of_nat m = to_copy - Z.of_nat (length w)) by lia.
    assert (Hpiece : bytes_at data st (Z.max 0 (Z.min (st + (to_copy - Z.of_nat (length w))) cs - st)) = take m (drop (Z.to_nat st) data)).
    { unfold bytes_at. destruct (Z.le_ge_cases (Z.of_nat m) (cs - st)); [f_equal; lia|]. rewrite !take_ge by (rewrite length_drop; lia). done. }
    rewrite Hpiece. assert (Hpl : length (take m (drop (Z.to_nat st) data)) = Nat.min m (length data - Z.to_nat st)) by (by rewrite length_take, length_drop).
    rewrite (IH rest') by (first [done|rewrite ?length_app, ?Hpl; nia]). rewrite <- app_assoc. rewrite drop_app_le by lia. rewrite take_app, length_app, Hpl, length_drop.
    replace (Z.to_nat (offset - (f + cs))) with O by lia. rewrite drop_0. do 4 f_equal. lia.
Qed.

Lemma read_file_slice fs node content offset len :
  volume_ok fs -> node_is_dir node = false -> file_bytes fs node = Ok content -> 0 <= offset -> 0 <= len ->
  read_file fs node offset len = Ok (take (Z.to_nat len) (drop (Z.to_nat offset) content)).
Proof.
  intros Hv Hdir. unfold file_bytes. destruct (collect_chain fs (node_cluster node)) as [chain|] eqn:Ec; [|done].
  destruct (clusters_data fs chain) as [data|] eqn:Ed; [|done]. intros [= <-] Ho Hl. unfold read_file. rewrite Hdir.
  destruct (Z.eqb_spec len 0) as [->|]; cbn [orb]; [by rewrite take_0|]. destruct (Z.leb_spec (node_size node) offset); [rewrite drop_ge by (rewrite length_take; lia); by rewrite take_nil|].
  destruct (Z.eqb_spec (node_cluster node) 0) as [E0|].
  { rewrite E0 in Ec. injection Ec as <-. injection Ed as <-. by rewrite take_nil, drop_nil, take_nil. }
  assert (Hmax : 0 + Z.of_nat (length chain) * cluster_size (bpb fs) <= U64_MAX).
  { pose proof (collect_chain_length _ _ _ Ec). destruct Hv. unfold cluster_size.
    transitivity (4294967295 * (65535 * 255)); [|done]. apply Z.mul_le_mono_nonneg; [lia|lia|nia|]. apply Z.mul_le_mono_nonneg; lia. }
  rewrite Ec, (copy_loop_ok _ _ _ _ data) by (first [done|cbn [length]; lia]).
  cbn [length app]. rewrite Z.sub_0_r, Nat.sub_0_r. f_equal. rewrite !take_drop_commute, take_take. do 2 f_equal. lia.
Qed.

(** C26. Reading a file yields its bytes: for a file whose clusters can be read, a read of
    [len] bytes at [offset] gives exactly that part of the file's contents, cut at its end,
    as if the whole file were one sequence of bytes; reads past the end give nothing. *)
Theorem reads_are_slices dev fs node content offset len :
  fills dev -> fat_mount dev = Ok fs -> node_is_dir node = false -> file_bytes fs node = Ok content -> 0 <= offset -> 0 <= len ->
  read_at (mkInode fs node) offset len = Ok (take (Z.to_nat len) (drop (Z.to_nat offset) content)).
Proof.
  intros Hd Hm Hdir Hb Ho Hl. destruct (fat_mount_ok _ _ Hd Hm) as [Hv _]. exact (read_file_slice fs node content offset len Hv Hdir Hb Ho Hl).
Qed.
