(* ===== verification/Fat32Dirs.v ===== *)
(** * FAT32: directories and their names *)

From stdpp Require Import strings.
From S2P Require Import Prelude Errno FsPath FsMount Utf8 Block BlockTheorems Fat32 Fat32Chains.
#[local] Open Scope Z_scope.
Implicit Types fs : Fat32FileSystem.

(** ** Names are strings *)
Definition good_name (n : str) : Prop := valid_utf8 n = true /\ n <> [].

Lemma bytes_at_bytes d i n : Forall byte d -> Forall byte (bytes_at d i n).
Proof. intros Hd. by apply Forall_take, Forall_drop. Qed.
Lemma trim_ascii_spaces_valid raw : valid_utf8 (trim_ascii_spaces raw) = true.
Proof. unfold trim_ascii_spaces. cbv zeta. by destruct (valid_utf8 (trim_end SPACE raw)) eqn:E. Qed.
Lemma parse_short_name_good raw n : parse_short_name raw = Some n -> good_name n.
Proof.
  unfold parse_short_name. destruct (negb _); [done|]. cbv zeta. set (base := trim_ascii_spaces (bytes_at raw 0 8)). set (ext := trim_ascii_spaces (bytes_at raw 8 3)).
  case_bool_decide as Hb; [done|]. pose proof (trim_ascii_spaces_valid (bytes_at raw 0 8)). pose proof (trim_ascii_spaces_valid (bytes_at raw 8 3)).
  case_bool_decide; intros [= <-]; [done|]. split; [by rewrite valid_app|]. intros [E _]%app_eq_nil. done.
Qed.
Lemma collect_lfn_units_bound raw : Forall byte raw -> Forall (fun u => 0 <= u < 0x10000) (collect_lfn_units raw).
Proof.
  remember (length raw) as n eqn:Hn. revert raw Hn. induction (lt_wf n) as [n _ IH]. intros [|lo [|hi raw]] Hn H; cbn [collect_lfn_units]; [constructor..|].
  apply Forall_cons in H as [Hlo H]. apply Forall_cons in H as [Hhi H]. cbv zeta. destruct (_ || _); [constructor|]. constructor; [unfold byte in *; lia|].
  apply (IH (length raw)); [cbn in Hn; lia|done|done].
Qed.
Lemma parse_lfn_segment_valid entry seg : Forall byte entry -> parse_lfn_segment entry = Ok seg -> valid_utf8 seg = true.
Proof.
  intros Hb. unfold parse_lfn_segment. destruct (negb _); [done|]. cbv zeta. destruct (decode_utf16 _) as [cs|] eqn:E; [|done]. intros [= <-].
  apply valid_encode_all. eapply decode_utf16_scalar; [|exact E]. repeat (apply Forall_app; split); apply collect_lfn_units_bound; by apply bytes_at_bytes.
Qed.

Definition scan_ok (s : Scan) : Prop := Forall (fun r => good_name (rec_name r)) (out s) /\ valid_utf8 (pending_lfn s) = true.
Lemma scan_entry_ok c e s s' : Forall byte e -> scan_ok s -> scan_entry c e s = Ok s' -> scan_ok s'.
Proof.
  intros He [Ho Hp]. unfold scan_entry. cbv zeta. destruct (_ =? 0); [by intros [= <-]|]. destruct (_ =? 0xE5); [by intros [= <-]|].
  destruct (_ =? FAT32_ATTR_LFN).
  { destruct (parse_lfn_segment e) as [seg|] eqn:Es; [|done]. intros [= <-]. split; [done|]. cbn. rewrite valid_app by (by eapply parse_lfn_segment_valid). by destruct (negb _). }
  destruct (negb _); [by intros [= <-]|]. destruct (parse_short_name _) as [n|] eqn:En; [|done]. intros [= <-]. split; [|done]. cbn.
  apply Forall_app. split; [done|]. repeat constructor; case_bool_decide; try (by apply (parse_short_name_good _ _ En)); done.
Qed.

(** ** Directories as sequences of records *)
(** The 32-byte records of some bytes. *)
Definition slots (data : list Z) : list (list Z) := (fun slot => bytes_at data (32 * slot) 32) <$> zrange 0 (Z.of_nat (length data) / 32).
(** Scanning records that are labelled with the cluster they are in. *)
Fixpoint scan_list (items : list (Z * list Z)) (s : Scan) : Result Scan FsError :=
  match items with
  | [] => Ok s
  | (c, e) :: items' => if done_ s then Ok s else match scan_entry c e s with Err err => Err err | Ok s' => scan_list items' s' end
  end.
Lemma scan_list_done items s : done_ s = true -> scan_list items s = Ok s.
Proof. destruct items as [|[c e] items]; [done|]. cbn. by intros ->. Qed.
Lemma scan_list_app a b s : scan_list (a ++ b) s = match scan_list a s with Err err => Err err | Ok s' => scan_list b s' end.
Proof.
  revert s. induction a as [|[c e] a IH]; intros s; [done|]. cbn [app scan_list]. destruct (done_ s) eqn:Ed; [by rewrite scan_list_done|].
  destruct (scan_entry c e s); [apply IH|done].
Qed.
Lemma scan_cluster_list c data idxs s : done_ s = false ->
  scan_cluster c data idxs s = scan_list ((fun slot => (c, bytes_at data (32 * slot) 32)) <$> idxs) s.
Proof.
  revert s. induction idxs as [|i idxs IH]; intros s Hs; cbn [scan_cluster fmap list_fmap scan_list]; [done|]. rewrite Hs.
  destruct (scan_entry c _ s) as [s'|]; [|done]. destruct (done_ s') eqn:Ed; [by rewrite scan_list_done|]. by apply IH.
Qed.
(** The records of a chain of clusters. *)
Fixpoint chain_items fs (chain : list Z) : Result (list (Z * list Z)) FsError :=
  match chain with
  | [] => Ok []
  | c :: chain' =>
      match read_cluster fs c with
      | Err e => Err e
      | Ok data => match chain_items fs chain' with Err e => Err e | Ok rest => Ok ((pair c <$> slots data) ++ rest) end
      end
  end.
Lemma scan_chain_list fs chain : forall items s, chain_items fs chain = Ok items -> scan_chain fs chain s = scan_list items s.
Proof.
  induction chain as [|c chain IH]; intros items s; cbn [chain_items scan_chain]; [by intros [= <-]|]. destruct (read_cluster fs c) as [data|]; [|done].
  destruct (chain_items fs chain) as [rest|] eqn:Er; [|done]. intros [= <-]. destruct (done_ s) eqn:Ed; [by rewrite scan_list_done|].
  rewrite scan_cluster_list, scan_list_app by done. unfold slots. rewrite <- list_fmap_compose. unfold compose. destruct (scan_list _ s); [by apply IH|done].
Qed.
Lemma scan_cluster_ok c data idxs : forall s s', Forall byte data -> scan_ok s -> scan_cluster c data idxs s = Ok s' -> scan_ok s'.
Proof.
  induction idxs as [|i idxs IH]; intros s s' Hd Hs; cbn [scan_cluster]; [by intros [= <-]|]. destruct (scan_entry c _ s) as [s1|] eqn:E; [|done].
  apply scan_entry_ok in E; [|by apply bytes_at_bytes|done]. destruct (done_ s1); [by intros [= <-]|by apply IH].
Qed.
Lemma scan_chain_ok fs chain : forall s s', volume_ok fs -> scan_ok s -> scan_chain fs chain s = Ok s' -> scan_ok s'.
Proof.
  induction chain as [|c chain IH]; intros s s' Hv Hs; cbn [scan_chain]; [by intros [= <-]|]. destruct (done_ s); [by intros [= <-]|].
  destruct (read_cluster fs c) as [data|] eqn:Ec; [|done]. destruct (scan_cluster c data _ s) as [s1|] eqn:E; [|done]. apply scan_cluster_ok in E; [by apply IH| |done].
  by apply (read_cluster_length _ _ _ Hv Ec).
Qed.

(** Whatever the directory holds, every name that listing it yields is a string: valid
    UTF-8 and not empty, although names are assembled from records of the disk in two
    encodings and from several pieces. *)
Theorem listed_names_are_strings dev fs node entries :
  fills dev -> fat_mount dev = Ok fs -> readdir (mkInode fs node) = Ok entries ->
  Forall (fun e => valid_utf8 (de_name e) = true /\ de_name e <> []) entries.
Proof.
  intros Hd Hm. destruct (fat_mount_ok _ _ Hd Hm) as [Hv _]. cbn [readdir fat_vfs]. unfold fat_readdir, read_directory. cbn [inode_fs inode_node].
  destruct (negb _); [done|]. destruct (collect_chain _ _) as [chain|]; [|done]. destruct (scan_chain fs chain _) as [s|] eqn:E; [|done]. intros [= <-].
  apply scan_chain_ok in E as [Ho _]; [|done|done]. apply Forall_fmap. by eapply Forall_impl; [exact Ho|].
Qed.
