(* ===== verification/Fat32Format.v ===== *)
(** * FAT32: what is written to a directory is what listing it finds *)

From stdpp Require Import strings.
From S2P Require Import Prelude Errno FsPath FsMount Utf8 Block BlockTheorems Fat32 Fat32Chains Fat32Dirs.
#[local] Open Scope Z_scope.
Implicit Types fs : Fat32FileSystem.

(** ** The format of records *)
Definition encode_utf16 (c : Z) : list Z := if c <? 0x10000 then [c] else [0xD800 + (c - 0x10000) / 1024; 0xDC00 + (c - 0x10000) mod 1024].
Definition utf16 (chars : list Z) : list Z := mjoin (encode_utf16 <$> chars).
Definition unit_bytes (units : list Z) : list Z := mjoin ((fun u => [u mod 256; u / 256]) <$> units).
(** A name shorter than the 13 units of a record ends with a zero and is filled up. *)
Definition padding (n : nat) : list Z := match n with O => [] | S n' => 0 :: replicate n' 0xFFFF end.
(** What the kernel does not look at, or only at a bit of: the attributes of a file, the bytes
    of its times and dates, and the type, checksum and cluster of the records of its long name. *)
Record Fill := mkFill { fi_attr : Z; fi_created : list Z; fi_written : list Z; fi_type : Z; fi_sum : Z; fi_lo : Z; fi_hi : Z }.
Definition lfn_entry (fi : Fill) (ord : Z) (chars : list Z) : list Z :=
  let u := utf16 chars in
  let p := u ++ padding (13 - length u) in
  [ord] ++ unit_bytes (take 5 p) ++ [FAT32_ATTR_LFN; fi_type fi; fi_sum fi] ++ unit_bytes (take 6 (drop 5 p)) ++ [fi_lo fi; fi_hi fi] ++ unit_bytes (drop 11 p).
(** The records of a long name: its last piece comes first, and is marked. *)
Fixpoint lfn_entries (fi : Fill) (k : Z) (segs : list (list Z)) : list (list Z) :=
  match segs with
  | [] => []
  | seg :: segs' => lfn_entries fi (k + 1) segs' ++ [lfn_entry fi (if bool_decide (segs' = []) then 64 + k else k) seg]
  end.
Definition pad_to (n : nat) (l : list Z) : list Z := l ++ replicate (n - length l) SPACE.

(** A file or directory as it is written: its long name in pieces of at most 13 units (or
    none), its short name, its first cluster, its size, its kind and the rest. *)
Record Entry := mkEntry { e_long : list (list Z); e_base : str; e_ext : str; e_cluster : Z; e_size : Z; e_dir : bool; e_fill : Fill }.
Definition short_entry (e : Entry) : list Z :=
  pad_to 8 (e_base e) ++ pad_to 3 (e_ext e) ++ [fi_attr (e_fill e)] ++ fi_created (e_fill e) ++
  le_bytes 2 (e_cluster e / 65536) ++ fi_written (e_fill e) ++ le_bytes 2 (e_cluster e mod 65536) ++ le_bytes 4 (e_size e).
Definition entry_records (e : Entry) : list (list Z) := lfn_entries (e_fill e) 1 (e_long e) ++ [short_entry e].
Definition entry_name (e : Entry) : str :=
  if bool_decide (e_long e = []) then e_base e ++ (if bool_decide (e_ext e = []) then [] else lit "." ++ e_ext e)
  else mjoin (encode_char <$> mjoin (e_long e)).

(** What can be written: pieces of characters other than the two the format reserves, short
    names that do not end in spaces, and attributes with the directory bit exactly for a
    directory and without the bit of a volume label. *)
Definition seg_ok (seg : list Z) : Prop :=
  Forall (fun c => scalar c /\ c <> 0 /\ c <> 0xFFFF) seg /\ seg <> [] /\ (length (utf16 seg) <= 13)%nat.
Definition part_ok (n : nat) (p : str) : Prop := (length p <= n)%nat /\ valid_utf8 p = true /\ last p <> Some SPACE.
Record entry_ok (e : Entry) : Prop := {
  ok_long : Forall seg_ok (e_long e); ok_pieces : (length (e_long e) < 64)%nat;
  ok_base : part_ok 8 (e_base e); ok_first : exists b, head (e_base e) = Some b /\ b <> 0 /\ b <> 0xE5; ok_ext : part_ok 3 (e_ext e);
  ok_attr : Z.land (fi_attr (e_fill e)) FAT32_ATTR_VOLUME_ID = 0 /\ negb (Z.land (fi_attr (e_fill e)) FAT32_ATTR_DIRECTORY =? 0) = e_dir e;
  ok_times : length (fi_created (e_fill e)) = 8%nat /\ length (fi_written (e_fill e)) = 4%nat;
  ok_cluster : 0 <= e_cluster e < 4294967296; ok_size : 0 <= e_size e < 4294967296
}.

(** A directory also has records that do not count: those of deleted files, and the volume
    label. *)
Inductive Slot := File (e : Entry) | Unused (r : list Z).
Definition slot_records (x : Slot) : list (list Z) := match x with File e => entry_records e | Unused r => [r] end.
Definition unused_ok (r : list Z) : Prop :=
  length r = 32%nat /\ (byte_at r 0 = 0xE5 \/
    byte_at r 0 <> 0 /\ byte_at r 11 <> FAT32_ATTR_LFN /\ Z.land (byte_at r 11) FAT32_ATTR_VOLUME_ID <> 0).
Definition slot_ok (x : Slot) : Prop := match x with File e => entry_ok e | Unused r => unused_ok r end.
Definition live (xs : list Slot) : list Entry := omap (fun x => match x with File e => Some e | Unused _ => None end) xs.

(** ** Reading back *)
Lemma utf16_cons c cs : utf16 (c :: cs) = encode_utf16 c ++ utf16 cs.
Proof. done. Qed.
Lemma decode_encode_utf16 cs : Forall scalar cs -> decode_utf16 (utf16 cs) = Some cs.
Proof.
  induction 1 as [|c cs Hc _ IH]; [done|]. rewrite utf16_cons. unfold encode_utf16.
  destruct (Z.ltb_spec c 0x10000) as [Hs|Hl].
  - cbn [app decode_utf16]. rewrite within_false by (unfold scalar in Hc; lia). by rewrite IH.
  - cbn [app decode_utf16]. pose proof (Z.mod_pos_bound (c - 0x10000) 1024 ltac:(lia)). pose proof (Z.div_mod (c - 0x10000) 1024 ltac:(lia)).
    assert (0 <= (c - 0x10000) / 1024 < 1024) by (unfold scalar in Hc; lia). rewrite !within_true by lia. cbn [andb]. rewrite IH. cbn. do 2 f_equal. lia.
Qed.
Definition stop (u : Z) : Prop := u = 0 \/ u = 0xFFFF.
Lemma unit_bytes_cons u l : unit_bytes (u :: l) = u mod 256 :: u / 256 :: unit_bytes l.
Proof. done. Qed.
Lemma collect_units u t : Forall (fun u => ~ stop u) u -> Forall stop t -> collect_lfn_units (unit_bytes (u ++ t)) = u.
Proof.
  intros Hu Ht. induction Hu as [|x u Hx _ IH]; cbn [app].
  - destruct Ht as [|x t Hx _]; [done|]. rewrite unit_bytes_cons. cbn [collect_lfn_units]. by destruct Hx as [-> | ->].
  - rewrite unit_bytes_cons. cbn [collect_lfn_units]. assert (Ex : x mod 256 + 256 * (x / 256) = x) by (pose proof (Z.div_mod x 256); lia).
    rewrite Ex, IH. unfold stop in Hx. by rewrite (proj2 (Z.eqb_neq x 0)), (proj2 (Z.eqb_neq x 0xFFFF)) by tauto.
Qed.
Lemma collect_part u t a n : Forall (fun u => ~ stop u) u -> Forall stop t ->
  collect_lfn_units (unit_bytes (take n (drop a (u ++ t)))) = take n (drop a u).
Proof.
  intros Hu Ht. rewrite drop_app, take_app. apply collect_units; [by apply Forall_take, Forall_drop|by apply Forall_take, Forall_drop].
Qed.
Lemma padding_stop n : Forall stop (padding n).
Proof. destruct n; constructor; [by left|]. apply Forall_replicate. by right. Qed.
Lemma length_padding n : length (padding n) = n.
Proof. destruct n; [done|]. cbn. by rewrite length_replicate. Qed.
Lemma length_unit_bytes l : length (unit_bytes l) = (2 * length l)%nat.
Proof. induction l; [done|]. rewrite unit_bytes_cons. cbn [length]. lia. Qed.
Lemma utf16_units cs : Forall (fun c => scalar c /\ c <> 0 /\ c <> 0xFFFF) cs -> Forall (fun u => ~ stop u) (utf16 cs).
Proof.
  induction 1 as [|c cs (Hc & H0 & HF) _ IH]; [constructor|]. rewrite utf16_cons. apply Forall_app. split; [|done].
  unfold encode_utf16, stop. destruct (Z.ltb_spec c 0x10000); [repeat constructor; tauto|]. pose proof (Z.mod_pos_bound (c - 0x10000) 1024 ltac:(lia)).
  assert (0 <= (c - 0x10000) / 1024 < 1024) by (unfold scalar in Hc; split; [apply Z.div_pos; lia|apply Z.div_lt_upper_bound; lia]). repeat constructor; lia.
Qed.

(** Cutting a part out of a concatenation. *)
Lemma bytes_at_skip a b i n : Z.of_nat (length a) <= i -> bytes_at (a ++ b) i n = bytes_at b (i - Z.of_nat (length a)) n.
Proof. intros Hi. unfold bytes_at. rewrite drop_app_ge by lia. do 2 f_equal. lia. Qed.
Lemma bytes_at_here a b n : n = Z.of_nat (length a) -> bytes_at (a ++ b) 0 n = a.
Proof. intros ->. unfold bytes_at. rewrite Nat2Z.id. change (drop (Z.to_nat 0) (a ++ b)) with (a ++ b). apply take_app_length. Qed.
Lemma byte_at_mid a x b i : i = Z.of_nat (length a) -> byte_at (a ++ x :: b) i = x.
Proof. intros ->. unfold byte_at. rewrite Nat2Z.id. by rewrite list_lookup_middle. Qed.

(** A record of a long name gives its piece back. *)
Lemma lfn_entry_ok fi ord seg : seg_ok seg ->
  length (lfn_entry fi ord seg) = 32%nat /\ byte_at (lfn_entry fi ord seg) 0 = ord /\ byte_at (lfn_entry fi ord seg) 11 = FAT32_ATTR_LFN /\
  parse_lfn_segment (lfn_entry fi ord seg) = Ok (mjoin (encode_char <$> seg)).
Proof.
  intros (Hseg & _ & Hlen). set (u := utf16 seg) in *. set (p := u ++ padding (13 - length u)).
  assert (Hp : length p = 13%nat) by (unfold p; rewrite length_app, length_padding; lia).
  set (p1 := unit_bytes (take 5 p)). set (p2 := unit_bytes (take 6 (drop 5 p))). set (p3 := unit_bytes (drop 11 p)).
  assert (H1 : length p1 = 10%nat) by (unfold p1; rewrite length_unit_bytes, length_take; lia).
  assert (H2 : length p2 = 12%nat) by (unfold p2; rewrite length_unit_bytes, length_take, length_drop; lia).
  assert (H3 : length p3 = 4%nat) by (unfold p3; rewrite length_unit_bytes, length_drop; lia).
  assert (He : lfn_entry fi ord seg = [ord] ++ p1 ++ [FAT32_ATTR_LFN; fi_type fi; fi_sum fi] ++ p2 ++ [fi_lo fi; fi_hi fi] ++ p3) by done. rewrite He.
  assert (Hl : length ([ord] ++ p1 ++ [FAT32_ATTR_LFN; fi_type fi; fi_sum fi] ++ p2 ++ [fi_lo fi; fi_hi fi] ++ p3) = 32%nat) by (rewrite !length_app, H1, H2, H3; done).
  split; [done|]. split; [done|]. split.
  { apply (byte_at_mid (ord :: p1)). cbn. lia. }
  unfold parse_lfn_segment. rewrite Hl. cbn [negb]. cbv zeta.
  rewrite (bytes_at_skip [ord] _ 1), (bytes_at_skip [ord] _ 14), (bytes_at_skip [ord] _ 28) by (cbn; lia). cbn [length].
  rewrite (bytes_at_here p1) by lia. rewrite (bytes_at_skip p1 _ (14 - _)), (bytes_at_skip p1 _ (28 - _)) by lia. rewrite H1.
  rewrite (bytes_at_skip [_; _; _] _ (14 - _ - _)), (bytes_at_skip [_; _; _] _ (28 - _ - _)) by (cbn; lia). cbn [length].
  rewrite (bytes_at_here p2) by lia. rewrite (bytes_at_skip p2) by lia. rewrite (bytes_at_skip [_; _]) by (cbn; lia). rewrite H2. cbn [length].
  rewrite <- (app_nil_r p3), (bytes_at_here p3) by lia.
  pose proof (utf16_units seg Hseg) as Hu. pose proof (padding_stop (13 - length u)) as Hpad.
  assert (E1 : collect_lfn_units p1 = take 5 u) by (exact (collect_part u _ 0 5 Hu Hpad)).
  assert (E2 : collect_lfn_units p2 = take 6 (drop 5 u)) by (exact (collect_part u _ 5 6 Hu Hpad)).
  assert (E3 : collect_lfn_units p3 = drop 11 u).
  { pose proof (collect_part u _ 11 2 Hu Hpad) as E. fold p in E. rewrite !take_ge in E by (rewrite length_drop; lia). exact E. }
  rewrite E1, E2, E3. assert (Hall : take 5 u ++ take 6 (drop 5 u) ++ drop 11 u = u).
  { rewrite app_assoc, take_take_drop. apply take_drop. }
  rewrite Hall. unfold u. rewrite decode_encode_utf16; [done|]. eapply Forall_impl; [exact Hseg|]. by intros c [H _].
Qed.

(** So does the record of a short name. *)
Lemma trim_start_skip k l : head l <> Some SPACE -> trim_start SPACE (replicate k SPACE ++ l) = l.
Proof.
  intros Hl. induction k as [|k IH]; cbn [replicate app trim_start]; [|by rewrite Z.eqb_refl].
  destruct l as [|x l]; [done|]. cbn [trim_start]. destruct (Z.eqb_spec x SPACE) as [->|]; done.
Qed.
Lemma trim_padded n p : part_ok n p -> trim_ascii_spaces (pad_to n p) = p.
Proof.
  intros (Hl & Hv & Hlast). unfold trim_ascii_spaces, trim_end, pad_to. rewrite reverse_app, reverse_replicate, trim_start_skip, reverse_involutive by (by rewrite head_reverse).
  by rewrite Hv.
Qed.
Lemma length_pad_to n p : (length p <= n)%nat -> length (pad_to n p) = n.
Proof. intros. unfold pad_to. rewrite length_app, length_replicate. lia. Qed.
Lemma parse_short_padded base ext : part_ok 8 base -> part_ok 3 ext -> base <> [] ->
  parse_short_name (pad_to 8 base ++ pad_to 3 ext) = Some (base ++ (if bool_decide (ext = []) then [] else lit "." ++ ext)).
Proof.
  intros Hb He Hne. assert (Lb := length_pad_to 8 base (proj1 Hb)). assert (Le := length_pad_to 3 ext (proj1 He)).
  unfold parse_short_name. rewrite length_app, Lb, Le. cbn [negb]. cbv zeta. rewrite bytes_at_here by lia. rewrite trim_padded by done.
  rewrite bool_decide_eq_false_2 by done. rewrite bytes_at_skip by lia. rewrite Lb. change (8 - Z.of_nat 8) with 0.
  rewrite <- (app_nil_r (pad_to 3 ext)), bytes_at_here, trim_padded by (done || lia). case_bool_decide; [by rewrite app_nil_r|done].
Qed.
Lemma short_entry_ok e : entry_ok e ->
  let r := short_entry e in
  length r = 32%nat /\ byte_at r 0 <> 0 /\ byte_at r 0 <> 0xE5 /\ byte_at r 11 = fi_attr (e_fill e) /\
  parse_short_name (bytes_at r 0 11) = Some (e_base e ++ (if bool_decide (e_ext e = []) then [] else lit "." ++ e_ext e)) /\
  Z.lor (Z.shiftl (read_le_u16 r 20) 16) (read_le_u16 r 26) = e_cluster e /\ read_le_u32 r 28 = e_size e.
Proof.
  intros [_ _ Hb (b & Hfirst & Hb0 & HbE) He _ [Lcr Lwr] Hc Hs] r.
  assert (Hq : 0 <= e_cluster e / 65536 < 2 ^ 16) by (split; [apply Z.div_pos; lia|apply Z.div_lt_upper_bound; lia]). assert (Lb := length_pad_to 8 _ (proj1 Hb)). assert (Le := length_pad_to 3 _ (proj1 He)).
  set (pb := pad_to 8 (e_base e)) in *. set (pe := pad_to 3 (e_ext e)) in *. set (at_ := fi_attr (e_fill e)). set (cr := fi_created (e_fill e)) in *. set (wr := fi_written (e_fill e)) in *.
  set (hi := le_bytes 2 (e_cluster e / 65536)). set (lo := le_bytes 2 (e_cluster e mod 65536)). set (sz := le_bytes 4 (e_size e)).
  assert (Lh : length hi = 2%nat) by done. assert (Ll : length lo = 2%nat) by done. assert (Ls : length sz = 4%nat) by done.
  set (pre := (pb ++ pe) ++ at_ :: cr). assert (Lp : length pre = 20%nat) by (unfold pre; rewrite !length_app, Lb, Le; cbn [length]; rewrite Lcr; done).
  assert (Hr : r = pre ++ hi ++ wr ++ lo ++ sz).
  { unfold r, short_entry, pre. fold pb pe at_ hi lo sz cr wr. by rewrite <- !app_assoc. }
  assert (Hpos : byte_at r 0 = b).
  { unfold r, short_entry, pad_to. destruct (e_base e); [done|]. by injection Hfirst as ->. }
  split; [rewrite Hr, !length_app, Lp, Lh, Ll, Ls, Lwr; done|]. rewrite Hpos. split; [done|]. split; [done|]. split; [|split; [|split]].
  - rewrite Hr. unfold pre. rewrite <- app_assoc. apply byte_at_mid. rewrite length_app. lia.
  - rewrite Hr. unfold pre. rewrite <- app_assoc. rewrite bytes_at_here by (rewrite length_app; lia). apply parse_short_padded; [done..|]. intros E. by rewrite E in Hfirst.
  - rewrite Hr. unfold read_le_u16. rewrite (bytes_at_skip pre _ 20), (bytes_at_skip pre _ 26), Lp by lia. change (20 - Z.of_nat 20) with 0. rewrite (bytes_at_here hi) by lia.
    rewrite (bytes_at_skip hi), Lh by lia. rewrite (bytes_at_skip wr) by lia. rewrite Lwr. change (26 - Z.of_nat 20 - Z.of_nat 2 - Z.of_nat 4) with 0.
    rewrite (bytes_at_here lo) by lia. unfold hi, lo. rewrite !le_le_bytes. change (256 ^ Z.of_nat 2) with (2 ^ 16). rewrite (Z.mod_small (e_cluster e / 65536)) by exact Hq.
    change 65536 with (2 ^ 16). rewrite Z.mod_mod by lia. rewrite <- Z.land_ones, <- Z.shiftr_div_pow2 by lia. apply Z.bits_inj'. intros i Hi.
    rewrite Z.lor_spec, Z.land_spec, Z.shiftl_spec, Z.testbit_ones_nonneg by lia. destruct (Z.ltb_spec i 16).
    + rewrite Z.testbit_neg_r by lia. by rewrite andb_true_r.
    + rewrite Z.shiftr_spec by lia. rewrite andb_false_r, orb_false_r. f_equal. lia.
  - rewrite Hr. unfold read_le_u32. do 3 (rewrite bytes_at_skip by (rewrite ?Lp, ?Lh, ?Lwr; lia)). rewrite bytes_at_skip by (rewrite ?Lp, ?Lh, ?Lwr; lia).
    rewrite Lp, Lh, Ll, Lwr. change (28 - Z.of_nat 20 - Z.of_nat 2 - Z.of_nat 4 - Z.of_nat 2) with 0. rewrite <- (app_nil_r sz), bytes_at_here by lia.
    unfold sz. rewrite le_le_bytes. apply Z.mod_small. change (256 ^ Z.of_nat 4) with 4294967296. lia.
Qed.

(** ** Directories *)
Lemma slots_app a b : (32 | Z.of_nat (length a)) -> slots (a ++ b) = slots a ++ slots b.
Proof.
  intros [k Hk]. unfold slots. rewrite length_app, Nat2Z.inj_add, Hk. assert (Ha : k * 32 / 32 = k) by (apply Z.div_mul; lia). rewrite Ha.
  replace (k * 32 + Z.of_nat (length b)) with (Z.of_nat (length b) + k * 32) by lia. rewrite Z.div_add by lia.
  set (m := Z.of_nat (length b) / 32). assert (0 <= m) by (apply Z.div_pos; lia). rewrite (zrange_app 0 k (m + k)) by lia. rewrite fmap_app. f_equal.
  - apply list_fmap_ext. intros i j Hj. apply list_elem_of_lookup_2 in Hj. apply elem_of_zrange in Hj. unfold bytes_at. rewrite drop_app_le by lia.
    rewrite take_app_le; [done|]. rewrite length_drop. lia.
  - replace (zrange k (m + k)) with (Z.add k <$> zrange 0 m) by (unfold zrange; rewrite fmap_add_seqZ; f_equal; lia). rewrite <- list_fmap_compose.
    apply list_fmap_ext. intros i j Hj. apply list_elem_of_lookup_2 in Hj. apply elem_of_zrange in Hj. unfold compose. rewrite bytes_at_skip by lia. f_equal. lia.
Qed.
Lemma slots_one e : length e = 32%nat -> slots e = [e].
Proof. intros He. unfold slots. rewrite He. unfold bytes_at.
  change ([take 32 e] = [e]). by rewrite take_ge by lia. Qed.
Lemma slots_records rs tail : Forall (fun r => length r = 32%nat) rs -> slots (mjoin rs ++ tail) = rs ++ slots tail.
Proof.
  induction 1 as [|r rs Hr _ IH]; [done|]. change (mjoin (r :: rs)) with (r ++ mjoin rs). rewrite <- app_assoc, slots_app by (rewrite Hr; by exists 1).
  by rewrite slots_one, IH.
Qed.
Lemma chain_items_data fs chain : forall data, volume_ok fs -> (32 | bytes_per_sector (bpb fs)) -> clusters_data fs chain = Ok data ->
  exists items, chain_items fs chain = Ok items /\ items.*2 = slots data.
Proof.
  induction chain as [|c chain IH]; intros data Hv H32; cbn [clusters_data chain_items].
  { intros [= <-]. by exists []. }
  destruct (read_cluster fs c) as [d|] eqn:Ec; [|done]. destruct (clusters_data fs chain) as [rest|] eqn:Er; [|done]. intros [= <-].
  destruct (IH rest Hv H32 eq_refl) as (items & -> & Hi). eexists. split; [done|]. rewrite fmap_app, Hi, slots_app; [|].
  - f_equal. rewrite <- list_fmap_compose. unfold compose. cbn. apply list_fmap_id.
  - rewrite (proj1 (read_cluster_length _ _ _ Hv Ec)). by apply Z.divide_mul_l.
Qed.

(** What of a record does not depend on where it is. *)
Definition view (r : FatDirRecord) : str * Z * Z * bool := (rec_name r, rec_cluster r, rec_size r, rec_is_dir r).
Definition entry_view (e : Entry) : str * Z * Z * bool := (entry_name e, e_cluster e, e_size e, e_dir e).
Definition waiting (s : Scan) (views : list (str * Z * Z * bool)) (pending : str) : Prop :=
  view <$> out s = views /\ done_ s = false /\ pending_lfn s = pending.

Definition seg_text (segs : list (list Z)) : str := mjoin (encode_char <$> mjoin segs).
Lemma seg_text_cons seg segs : seg_text (seg :: segs) = mjoin (encode_char <$> seg) ++ seg_text segs.
Proof. unfold seg_text. change (mjoin (seg :: segs)) with (seg ++ mjoin segs). by rewrite fmap_app, join_app. Qed.
Lemma lfn_entries_length fi k segs : Forall seg_ok segs -> Forall (fun r => length r = 32%nat) (lfn_entries fi k segs).
Proof.
  intros H. revert k. induction H as [|seg segs Hs _ IH]; intros k; cbn [lfn_entries]; [constructor|]. apply Forall_app. split; [apply IH|].
  repeat constructor. by apply lfn_entry_ok.
Qed.
Lemma scan_lfn fi segs : forall k items s views,
  Forall seg_ok segs -> 1 <= k -> k + Z.of_nat (length segs) <= 64 -> waiting s views [] -> items.*2 = lfn_entries fi k segs ->
  exists s', scan_list items s = Ok s' /\ waiting s' views (seg_text segs).
Proof.
  induction segs as [|seg segs IH]; intros k items s views Hok Hk Hlen Hw Hi; cbn [lfn_entries] in Hi.
  { apply fmap_nil_inv in Hi as ->. by exists s. }
  apply Forall_cons in Hok as [Hseg Hok]. apply fmap_app_inv in Hi as (i1 & i2 & Hi1 & Hi2 & ->). symmetry in Hi1, Hi2. apply fmap_cons_inv in Hi2 as ([c r] & i3 & Hr & Hi3 & ->).
  symmetry in Hi3. apply fmap_nil_inv in Hi3 as ->. cbn [length] in Hlen. destruct (IH (k + 1) i1 s views Hok ltac:(lia) ltac:(lia) Hw Hi1) as (s1 & E1 & H1 & H2 & H3).
  rewrite scan_list_app, E1. cbn [scan_list]. rewrite H2. cbn [snd] in Hr. subst r. set (ord := if bool_decide (segs = []) then 64 + k else k).
  destruct (lfn_entry_ok fi ord seg Hseg) as (_ & Hord & Hattr & Hparse). unfold scan_entry. cbv zeta. rewrite Hord, Hattr.
  assert (Hor : 1 <= ord < 128) by (unfold ord; case_bool_decide; lia). destruct (Z.eqb_spec ord 0); [lia|]. destruct (Z.eqb_spec ord 0xE5); [lia|].
  rewrite Z.eqb_refl, Hparse. eexists. split; [done|]. split; [done|]. split; [done|]. cbn [pending_lfn]. rewrite seg_text_cons, H3. f_equal.
  unfold ord. case_bool_decide as Es; [subst segs; by destruct (negb _)|]. assert (Hz : Z.land k 64 = 0); [|by rewrite Hz].
  assert (k < 64) by (destruct segs; [done|]; cbn in Hlen; lia). apply Z.bits_inj'. intros i Hi0. rewrite Z.land_spec, Z.bits_0. change 64 with (2 ^ 6). rewrite Z.pow2_bits_eqb by lia.
  destruct (Z.eqb_spec 6 i) as [<-|]; [|apply andb_false_r]. rewrite andb_true_r. apply Z.bits_above_log2; [lia|]. apply Z.log2_lt_pow2; lia.
Qed.
Lemma encode_char_cons c : exists b l, encode_char c = b :: l.
Proof. unfold encode_char. repeat (destruct (_ <? _); [eauto|]). eauto. Qed.
(** A long name is used when there is one. *)
Lemma entry_name_pick e : entry_ok e ->
  (if bool_decide (seg_text (e_long e) = []) then e_base e ++ (if bool_decide (e_ext e = []) then [] else lit "." ++ e_ext e) else seg_text (e_long e)) = entry_name e.
Proof.
  intros Hok. unfold entry_name. pose proof (ok_long _ Hok) as Hl. destruct (e_long e) as [|seg segs]; [done|].
  apply Forall_cons in Hl as [(_ & Hne & _) _]. rewrite !bool_decide_eq_false_2; [done|done|]. destruct seg as [|c seg]; [done|].
  rewrite seg_text_cons. cbn [fmap list_fmap]. destruct (encode_char_cons c) as (b & l & Ec). change (mjoin (encode_char c :: ?x)) with (encode_char c ++ mjoin x).
  intros [E _]%app_eq_nil. change (mjoin (?a :: ?x)) with (a ++ mjoin x) in E. by rewrite Ec in E.
Qed.
Lemma scan_one e items s views : entry_ok e -> waiting s views [] -> items.*2 = entry_records e ->
  exists s', scan_list items s = Ok s' /\ waiting s' (views ++ [entry_view e]) [].
Proof.
  intros Hok Hw Hi. apply fmap_app_inv in Hi as (i1 & i2 & Hi1 & Hi2 & ->). symmetry in Hi1, Hi2. apply fmap_cons_inv in Hi2 as ([c r] & i3 & Hr & Hi3 & ->).
  symmetry in Hi3. apply fmap_nil_inv in Hi3 as ->. cbn [snd] in Hr. subst r. pose proof (ok_pieces _ Hok).
  destruct (scan_lfn (e_fill e) (e_long e) 1 i1 s views (ok_long _ Hok) ltac:(lia) ltac:(lia) Hw Hi1) as (s1 & E1 & H1 & H2 & H3).
  rewrite scan_list_app, E1. cbn [scan_list]. rewrite H2. destruct (short_entry_ok e Hok) as (_ & Hn0 & HnE & Hattr & Hname & Hcl & Hsz).
  unfold scan_entry. cbv zeta. rewrite (proj2 (Z.eqb_neq _ _) Hn0), (proj2 (Z.eqb_neq _ _) HnE), Hattr, Hname, Hcl, Hsz, H3.
  rewrite entry_name_pick by done. destruct (ok_attr _ Hok) as [Hvol Hdir]. rewrite Hvol, Hdir. cbn [negb Z.eqb].
  destruct (Z.eqb_spec (fi_attr (e_fill e)) FAT32_ATTR_LFN) as [Ea|_]; [by rewrite Ea in Hvol|].
  eexists. split; [done|]. split; [|done]. cbn [out]. by rewrite fmap_app, H1.
Qed.
Lemma scan_unused c r s views : unused_ok r -> waiting s views [] -> exists s', scan_list [(c, r)] s = Ok s' /\ waiting s' views [].
Proof.
  intros [_ Hr] (H1 & H2 & H3). cbn [scan_list]. rewrite H2. unfold scan_entry. cbv zeta. destruct Hr as [-> |(Hn0 & Hl & Hv)]; [by eexists|].
  rewrite (proj2 (Z.eqb_neq _ _) Hn0). destruct (Z.eqb_spec (byte_at r 0) 0xE5); [by eexists|]. rewrite (proj2 (Z.eqb_neq _ _) Hl), (proj2 (Z.eqb_neq _ _) Hv). by eexists.
Qed.
Lemma scan_entries xs : forall items s views, Forall slot_ok xs -> waiting s views [] -> items.*2 = mjoin (slot_records <$> xs) ->
  exists s', scan_list items s = Ok s' /\ waiting s' (views ++ (entry_view <$> live xs)) [].
Proof.
  induction xs as [|x xs IH]; intros items s views Hok Hw Hi.
  { apply fmap_nil_inv in Hi as ->. exists s. cbn. by rewrite app_nil_r. }
  apply Forall_cons in Hok as [He Hok]. change (mjoin (slot_records <$> x :: xs)) with (slot_records x ++ mjoin (slot_records <$> xs)) in Hi.
  apply fmap_app_inv in Hi as (i1 & i2 & Hi1 & Hi2 & ->). symmetry in Hi1, Hi2. destruct x as [e|r]; cbn [slot_ok slot_records] in *.
  - destruct (scan_one e i1 s views He Hw Hi1) as (s1 & E1 & Hw1). destruct (IH i2 s1 _ Hok Hw1 Hi2) as (s2 & E2 & Hw2). exists s2. rewrite scan_list_app, E1. split; [done|].
    by rewrite <- app_assoc in Hw2.
  - apply fmap_cons_inv in Hi1 as ([c r'] & i3 & Hr & Hi3 & ->). symmetry in Hi3. apply fmap_nil_inv in Hi3 as ->. cbn [snd] in Hr. subst r'.
    destruct (scan_unused c r s views He Hw) as (s1 & E1 & Hw1). destruct (IH i2 s1 _ Hok Hw1 Hi2) as (s2 & E2 & Hw2). exists s2. rewrite scan_list_app, E1. done.
Qed.
Lemma scan_tail items s views tail : waiting s views [] -> items.*2 = slots tail -> tail = [] \/ head tail = Some 0 ->
  exists s', scan_list items s = Ok s' /\ view <$> out s' = views.
Proof.
  intros (H1 & H2 & H3) Hi Ht. destruct items as [|[c r] items]; [by exists s|]. cbn [scan_list]. rewrite H2. destruct Ht as [-> | Ht]; [done|].
  assert (Hr : byte_at r 0 = 0).
  { destruct tail as [|b tail]; [done|]. injection Ht as ->. revert Hi. unfold slots. destruct (Z.le_gt_cases (Z.of_nat (length (0 :: tail)) / 32) 0) as [Hle|Hgt].
    - rewrite zrange_empty by done. done.
    - rewrite zrange_cons by done. cbn [fmap list_fmap]. intros [= -> _]. done. }
  unfold scan_entry. cbv zeta. rewrite Hr. cbn [Z.eqb]. rewrite scan_list_done by done. by eexists.
Qed.
Lemma entry_records_length e : entry_ok e -> Forall (fun r => length r = 32%nat) (entry_records e).
Proof. intros Hok. apply Forall_app. split; [apply lfn_entries_length, (ok_long _ Hok)|]. repeat constructor. by apply short_entry_ok. Qed.
Lemma slot_records_length x : slot_ok x -> Forall (fun r => length r = 32%nat) (slot_records x).
Proof. destruct x as [e|r]; [apply entry_records_length|]. intros [Hl _]. by repeat constructor. Qed.
Lemma read_directory_ok fs c chain data xs tail :
  volume_ok fs -> (32 | bytes_per_sector (bpb fs)) -> Forall slot_ok xs -> collect_chain fs c = Ok chain -> clusters_data fs chain = Ok data ->
  data = mjoin (mjoin (slot_records <$> xs)) ++ tail -> tail = [] \/ head tail = Some 0 ->
  exists recs, read_directory fs c = Ok recs /\ view <$> recs = entry_view <$> live xs.
Proof.
  intros Hv H32 Hok Hc Hd Hdata Ht. destruct (chain_items_data fs chain data Hv H32 Hd) as (items & Hi & Hs). rewrite Hdata, slots_records in Hs.
  2:{ clear -Hok. induction Hok as [|x xs Hx _ IH]; [constructor|]. change (mjoin (slot_records <$> x :: xs)) with (slot_records x ++ mjoin (slot_records <$> xs)).
      apply Forall_app. split; [by apply slot_records_length|done]. }
  apply fmap_app_inv in Hs as (i1 & i2 & Hi1 & Hi2 & ->). symmetry in Hi1, Hi2.
  destruct (scan_entries xs i1 (mkScan [] 0 false []) [] Hok) as (s1 & E1 & Hw1); [done|done|]. cbn [app] in Hw1.
  destruct (scan_tail i2 s1 _ tail Hw1 Hi2 Ht) as (s2 & E2 & Hview). unfold read_directory. rewrite Hc, (scan_chain_list _ _ _ _ Hi), scan_list_app, E1, E2. by eexists.
Qed.

(** C27. Directories are read back: when the clusters of a directory hold the records of some
    files and directories - each with its short name and, before it, the pieces of its long
    name - between them records of deleted files or a volume label, and after them nothing or
    the end mark, listing the directory yields exactly those files and directories, in order,
    with their names, first clusters, sizes and kinds. Looking up a name finds the first whose
    name is the same up to the case of ASCII letters. The times and dates, the checksums of
    the long names and the attribute bits other than those of a directory and of a label are
    arbitrary. The names are written in Unicode: short names in UTF-8 (ASCII), and no pair of
    surrogates split between two records of a long name.  The device answers every read
    inside it, and its blocks hold whole records. *)
Theorem directories_read_back dev fs node chain data xs tail :
  fills dev -> fat_mount dev = Ok fs -> (32 | block_size dev) -> node_is_dir node = true -> Forall slot_ok xs ->
  collect_chain fs (node_cluster node) = Ok chain -> clusters_data fs chain = Ok data ->
  data = mjoin (mjoin (slot_records <$> xs)) ++ tail -> tail = [] \/ head tail = Some 0 ->
  (exists recs, read_directory fs (node_cluster node) = Ok recs /\ view <$> recs = entry_view <$> live xs) /\
  (forall pre e post name, live xs = pre ++ e :: post -> name <> lit "." -> eq_ignore_ascii_case (entry_name e) name = true ->
     Forall (fun e' => eq_ignore_ascii_case (entry_name e') name = false) pre ->
     exists ino, lookup_child (mkInode fs node) name = Ok (mkInode fs (mkNode ino (e_cluster e) (e_size e) (e_dir e)))).
Proof.
  intros Hd Hm H32 Hdir Hok Hc Hdata Heq Ht. destruct (fat_mount_ok _ _ Hd Hm) as [Hv Hdev].
  assert (H32' : (32 | bytes_per_sector (bpb fs))) by (rewrite (vol_bps _ Hv), Hdev; done).
  destruct (read_directory_ok fs _ chain data xs tail Hv H32' Hok Hc Hdata Heq Ht) as (recs & Hr & Hview). split; [by exists recs|].
  intros pre e post name Hens Hn He Hpre. cbn [lookup_child fat_vfs]. unfold fat_lookup, fat_lookup_child. cbn [inode_fs inode_node]. rewrite Hdir, Hr. cbn [negb].
  rewrite bool_decide_eq_false_2 by done. rewrite Hens, fmap_app, fmap_cons in Hview. apply fmap_app_inv in Hview as (r1 & r2 & Hr1 & Hr2 & ->).
  symmetry in Hr2. apply fmap_cons_inv in Hr2 as (r & r3 & Hr0 & Hr3 & ->). rewrite filter_app.
  assert (Hnone : filter (fun entry => eq_ignore_ascii_case (rec_name entry) name = true) r1 = []).
  { clear -Hpre Hr1. revert r1 Hr1. induction Hpre as [|e' pre He' _ IH]; intros [|r r1] Hr1; cbn in Hr1; try done. injection Hr1 as E1 _ _ _ E2.
    rewrite filter_cons_False by (rewrite <- E1, He'; done). by apply IH. }
  rewrite Hnone. cbn [app]. unfold view, entry_view in Hr0. injection Hr0 as E1 E2 E3 E4. rewrite filter_cons_True by (by rewrite <- E1).
  exists (rec_ino r). by rewrite E2, E3, E4.
Qed.
