(* ===== verification/Fat32Example.v ===== *)
(** * FAT32: a small volume

    A volume of eight sectors of 512 bytes, one sector per cluster: the boot sector, one sector
    of table, and six clusters. The theorems are applied to it, and it shows what the
    directory parser does with some records that other systems write. *)

From stdpp Require Import strings.
From S2P Require Import Prelude Errno FsPath FsMount Utf8 Block BlockTheorems Fat32 Fat32Chains Fat32Dirs Fat32Format.
#[local] Open Scope Z_scope.

Definition pad0 (n : nat) (l : list Z) : list Z := l ++ replicate (n - length l) 0.
Definition ex_boot : list Z :=
  replicate 11 0 ++ le_bytes 2 512 ++ [1] ++ le_bytes 2 1 ++ [1] ++ replicate 15 0 ++ le_bytes 4 8 ++ le_bytes 4 1 ++ replicate 4 0 ++ le_bytes 4 2 ++
  replicate 462 0 ++ [FAT32_SIGNATURE0; FAT32_SIGNATURE1].
(** The directory is cluster 2, a file is in clusters 3 and 5, and clusters 6 and 7 form a cycle. *)
Definition ex_fat : list Z := pad0 512 (mjoin (le_bytes 4 <$> [0x0FFFFFF8; 0x0FFFFFFF; 0x0FFFFFFF; 5; 0; 0x0FFFFFFF; 7; 6])).
Definition ex_image (dir : list Z) : list Z :=
  ex_boot ++ ex_fat ++ pad0 512 dir ++ replicate 512 65 ++ replicate 512 0 ++ replicate 512 66 ++ replicate 1024 0.
Definition ex_device (dir : list Z) : BlockDevice := file_device (mkFileDevice (lit "fat") 512 (Static (ex_image dir))).
Definition ex_bpb : BiosParameterBlock := mkBpb 512 1 1 1 8 1 2.
Definition ex_table : list Z := [0x0FFFFFF8; 0x0FFFFFFF; 0x0FFFFFFF; 5; 0; 0x0FFFFFFF; 7; 6] ++ replicate 120 0.
Definition ex_fs (dir : list Z) : Fat32FileSystem := mkFat (ex_device dir) ex_bpb ex_table 2 6.

(** A hidden file with times and a checksum, and a directory that is marked to be archived. *)
Definition ex_file_fill : Fill := mkFill 0x22 [0x18; 42; 0x5A; 0x73; 0x21; 0x58; 0x21; 0x58] [0x5A; 0x73; 0x21; 0x58] 0 0xB3 0 0.
Definition ex_dir_fill : Fill := mkFill 0x30 (replicate 8 0) (replicate 4 0) 0 0 0 0.
Definition ex_file_entry : Entry := mkEntry [lit "A long name, "; lit "with an end"] (lit "ALONGN~1") (lit "TXT") 3 600 false ex_file_fill.
Definition ex_sub_entry : Entry := mkEntry [] (lit "SUB") [] 4 0 true ex_dir_fill.
(** The label of the volume, and the record of a file that was deleted. *)
Definition ex_label : list Z := lit "VOLUME     " ++ [8] ++ replicate 20 0.
Definition ex_deleted : list Z := 0xE5 :: lit "LD     TXT" ++ [0x20] ++ replicate 20 7.
Definition ex_slots : list Slot := [Unused ex_label; File ex_file_entry; Unused ex_deleted; File ex_sub_entry].
Definition ex_dir : list Z := mjoin (mjoin (slot_records <$> ex_slots)).

Definition bytes_ok (l : list Z) : bool := forallb (fun b => (0 <=? b) && (b <? 256)) l.
Lemma bytes_ok_spec l : bytes_ok l = true -> Forall byte l.
Proof.
  intros Hb. apply Is_true_true, forallb_True in Hb. eapply Forall_impl; [exact Hb|]. intros b [H1 H2]%Is_true_true%andb_true_iff. unfold byte. lia.
Qed.
Lemma ex_device_fills : fills (ex_device ex_dir).
Proof. apply static_fills; [split; [done|vm_compute; discriminate]|]. apply bytes_ok_spec. vm_compute. reflexivity. Qed.
Lemma ex_mounts_fat : parse_bpb (ex_device ex_dir) = Ok ex_bpb /\ read_fat (ex_device ex_dir) ex_bpb = Ok ex_table.
Proof. split; vm_compute; reflexivity. Qed.
Lemma ex_mounted : fat_mount (ex_device ex_dir) = Ok (ex_fs ex_dir).
Proof. unfold fat_mount. rewrite (proj1 ex_mounts_fat), (proj2 ex_mounts_fat). reflexivity. Qed.

Lemma chains_end_witness : collect_chain (ex_fs ex_dir) 3 = Ok [3; 5] /\ collect_chain (ex_fs ex_dir) 6 = Err Io.
Proof.
  split.
  - apply (chains_end (ex_fs ex_dir) 3); [done|done|..].
    + apply chain_next with 5; [vm_compute; reflexivity|]. apply chain_last. vm_compute. reflexivity.
    + repeat constructor; done.
  - apply (chains_end (ex_fs ex_dir) 6) with 6; [done|done|apply rtc_refl|]. apply tc_l with 7; [vm_compute; reflexivity|]. apply tc_once. vm_compute. reflexivity.
Defined.
Lemma clusters_stay_inside_witness : 2 <= 7 /\ 7 + 1 <= 8.
Proof.
  destruct (clusters_stay_inside (ex_device ex_dir) (ex_fs ex_dir) 7 7 ex_device_fills ex_mounted) as (H1 & H2 & _); [done|vm_compute; reflexivity|]. split; [exact H1|exact H2].
Defined.
Lemma reads_are_slices_witness : read_at (mkInode (ex_fs ex_dir) (mkNode 9 3 600 false)) 510 100 = Ok ([65; 65] ++ replicate 88 66).
Proof.
  rewrite (reads_are_slices (ex_device ex_dir) (ex_fs ex_dir) (mkNode 9 3 600 false) (replicate 512 65 ++ replicate 88 66) 510 100 ex_device_fills ex_mounted);
    [vm_compute; reflexivity|reflexivity|vm_compute; reflexivity|done|done].
Defined.
Lemma listed_names_are_strings_witness : exists entries, readdir (fat_root (ex_fs ex_dir)) = Ok entries /\ Forall (fun e => valid_utf8 (de_name e) = true /\ de_name e <> []) entries.
Proof.
  destruct (readdir (fat_root (ex_fs ex_dir))) as [entries|] eqn:E; [|vm_compute in E; discriminate]. exists entries. split; [reflexivity|].
  exact (listed_names_are_strings _ _ _ _ ex_device_fills ex_mounted E).
Defined.
Lemma ex_entries_ok : entry_ok ex_file_entry /\ entry_ok ex_sub_entry.
Proof.
  assert (Hseg : forall seg, forallb (fun c => (0 <? c) && (c <? 128)) seg && (0 <? Z.of_nat (length seg)) && (Z.of_nat (length (utf16 seg)) <? 14) = true -> seg_ok seg).
  { intros seg H. apply andb_true_iff in H as [[H Hn]%andb_true_iff Hl]. apply Z.ltb_lt in Hn, Hl. split; [|split; [by destruct seg|lia]].
    apply Is_true_true, forallb_True in H. eapply Forall_impl; [exact H|]. intros c Hc. apply Is_true_true, andb_true_iff in Hc as [Hc1%Z.ltb_lt Hc2%Z.ltb_lt]. unfold scalar. lia. }
  assert (Hpart : forall n p, (Z.of_nat (length p) <=? Z.of_nat n) && valid_utf8 p && negb (bool_decide (last p = Some SPACE)) = true -> part_ok n p).
  { intros n p H. apply andb_true_iff in H as [[H1%Z.leb_le H2]%andb_true_iff H3]. split; [lia|]. split; [done|]. intros E. by rewrite bool_decide_eq_true_2 in H3. }
  split; split; cbn [e_long e_base e_ext e_cluster e_size e_fill e_dir ex_file_entry ex_sub_entry].
  - repeat (apply Forall_cons; split); [apply Hseg; vm_compute; reflexivity..|by apply Forall_nil].
  - cbn. lia.
  - apply Hpart. vm_compute. reflexivity.
  - exists 65. split; [reflexivity|split; discriminate].
  - apply Hpart. vm_compute. reflexivity.
  - split; reflexivity.
  - split; reflexivity.
  - lia.
  - lia.
  - by apply Forall_nil.
  - cbn. lia.
  - apply Hpart. vm_compute. reflexivity.
  - exists 83. split; [reflexivity|split; discriminate].
  - apply Hpart. vm_compute. reflexivity.
  - split; reflexivity.
  - split; reflexivity.
  - lia.
  - lia.
Qed.
Lemma ex_slots_ok : Forall slot_ok ex_slots.
Proof.
  constructor; [split; [reflexivity|right; split_and!; vm_compute; discriminate]|]. constructor; [apply ex_entries_ok|].
  constructor; [split; [reflexivity|left; reflexivity]|]. constructor; [apply ex_entries_ok|constructor].
Qed.
Lemma directories_read_back_witness :
  (exists recs, read_directory (ex_fs ex_dir) 2 = Ok recs /\ view <$> recs = [(lit "A long name, with an end", 3, 600, false); (lit "SUB", 4, 0, true)]) /\
  exists ino, lookup_child (fat_root (ex_fs ex_dir)) (lit "sub") = Ok (mkInode (ex_fs ex_dir) (mkNode ino 4 0 true)).
Proof.
  destruct (directories_read_back (ex_device ex_dir) (ex_fs ex_dir) (mkNode 1 2 0 true) [2] (pad0 512 ex_dir) ex_slots (replicate 320 0) ex_device_fills ex_mounted) as [H1 H2].
  - exists 16. reflexivity.
  - reflexivity.
  - exact ex_slots_ok.
  - vm_compute. reflexivity.
  - vm_compute. reflexivity.
  - vm_compute. reflexivity.
  - right. reflexivity.
  - split; [exact H1|].
    apply (H2 [ex_file_entry] ex_sub_entry []);
      [reflexivity|discriminate|vm_compute; reflexivity|repeat constructor; vm_compute; reflexivity].
Defined.

(** A long name of twelve letters and a character outside the basic plane takes fourteen units,
    so that its surrogates are in different records, as the format prescribes. Each record
    is decoded on its own: the directory cannot be listed, nor anything in it looked up. *)
Definition split_pair : list Z := replicate 12 97 ++ [0x1F600].
Definition split_records : list (list Z) :=
  [lfn_entry ex_file_fill 0x42 (drop 13 (utf16 split_pair)); lfn_entry ex_file_fill 1 (take 13 (utf16 split_pair)); short_entry (mkEntry [] (lit "AAAAAA~1") [] 3 600 false ex_file_fill)].
Example split_surrogates_hide_a_directory :
  let dir := mjoin (entry_records ex_sub_entry ++ split_records) in
  read_directory (ex_fs dir) 2 = Err InvalidInput /\ fat_lookup_child (ex_fs dir) (mkNode 1 2 0 true) (lit "SUB") = Err InvalidInput.
Proof. split; vm_compute; reflexivity. Qed.

(** Short names are in the code page of the system that wrote them. One with a byte above 127
    also makes its directory unreadable, even when the file has a long name. *)
Example code_page_names_hide_a_directory :
  let dir := mjoin [lfn_entry ex_file_fill 0x41 [0xC9; 116; 0xE9]; short_entry (mkEntry [] [0x90; 84; 0x90] [] 3 600 false ex_file_fill)] in
  read_directory (ex_fs dir) 2 = Err InvalidInput.
Proof. vm_compute. reflexivity. Qed.

(** In the format the parent of a directory of the root is written as cluster 0. The record is
    taken as it is: looking up the parent gives a directory in which nothing is found. *)
Example parent_of_a_top_directory_is_empty :
  let dir := mjoin [short_entry (mkEntry [] (lit ".") [] 4 0 true ex_dir_fill); short_entry (mkEntry [] (lit "..") [] 0 0 true ex_dir_fill)] in
  fat_lookup_child (ex_fs dir) (mkNode 9 2 0 true) (lit "..") = Ok (mkNode 0x200000001 0 0 true) /\ read_directory (ex_fs dir) 0 = Ok [].
Proof. split; vm_compute; reflexivity. Qed.
