(* ===== verification/Initramfs.v ===== *)
(** * The boot archive: kernel/src/fs/backing/initramfs.rs

    The kernel starts with an archive in the new ASCII cpio format.  The parser runs in
    [exec]: a slice out of bounds would panic.  The store of parsed entries is global in the
    code and set once; here an inode carries it. *)

From stdpp Require Import strings sorting.
From S2P Require Import Prelude Errno FsPath FsMount Utf8 Block.
#[local] Open Scope Z_scope.

Definition CPIO_HEADER_LEN : Z := 110.
Definition CPIO_NEWC_MAGIC : list Z := lit "070701".
Definition CPIO_CRC_MAGIC : list Z := lit "070702".
Definition CPIO_TRAILER : str := lit "TRAILER!!!".

Record InitramfsEntry := mkEnt { ent_path : str; ent_ino : Z; ent_mode : Z; ent_kind : FileType; ent_data : option (list Z) }.
Record InitramfsStore := mkStore { store_entries : list InitramfsEntry }.

Definition find_entry (self : InitramfsStore) (path : str) : option InitramfsEntry :=
  head (filter (fun entry => ent_path entry = path) (store_entries self)).

(** [prefix] with a slash at its end. *)
Definition ends_with_slash (s : str) : bool := bool_decide (last s = Some SLASH).
Definition with_slash (s : str) : str := if negb (ends_with_slash s) then s ++ [SLASH] else s.

Definition store_is_dir (self : InitramfsStore) (path : str) : bool :=
  if bool_decide (path = lit "/") then true
  else if match find_entry self path with Some entry => bool_decide (ent_kind entry = Directory) | None => false end then true
  else existsb (fun entry => starts_with (ent_path entry) (with_slash path)) (store_entries self).

Definition initramfs_read_file (self : InitramfsStore) (path : str) : option (list Z) :=
  match find_entry self path with
  | Some entry => if bool_decide (ent_kind entry = Regular) then ent_data entry else None
  | None => None
  end.
Definition directory_mode (self : InitramfsStore) (path : str) : Z :=
  match find_entry self path with
  | Some entry => if bool_decide (ent_kind entry = Directory) then ent_mode entry else 0x41ED
  | None => 0x41ED
  end.

(** ** Fields *)
Definition align4 (value : Z) : Z := Z.land (add64 value 3) (not64 3).

(** [u32::from_str_radix] with radix 16, which takes a plus sign. *)
Definition to_digit (c : Z) : option Z :=
  if within 48 57 c then Some (c - 48) else if within 97 102 c then Some (c - 87) else if within 65 70 c then Some (c - 55) else None.
Fixpoint hex_digits (acc : Z) (s : str) : option Z :=
  match s with
  | [] => Some acc
  | c :: s' => d ← to_digit c; if 16 * acc + d <? 4294967296 then hex_digits (16 * acc + d) s' else None
  end.
Definition from_str_radix (s : str) : option Z :=
  match s with
  | [] => None
  | c :: s' => if (c =? 43) && negb (bool_decide (s' = [])) then hex_digits 0 s' else hex_digits 0 s
  end.
Definition parse_hex_field (field : list Z) : Result Z FsError :=
  if valid_utf8 field then match from_str_radix field with Some v => Ok v | None => Err InvalidInput end else Err InvalidInput.

Definition hash_path (path : str) : Z := foldl (fun h b => mul64 (Z.lxor h b) 0x100000001b3) 0xcbf29ce484222325 path.

(** ** Paths *)
Fixpoint archive_loop (out : str) (comps : list str) : Result str FsError :=
  match comps with
  | [] => Ok out
  | comp :: comps' =>
      if bool_decide (comp = []) || bool_decide (comp = lit ".") then archive_loop out comps'
      else if bool_decide (comp = lit "..") then Err InvalidInput
      else archive_loop (out ++ SLASH :: comp) comps'
  end.
Definition normalize_archive_path (raw : str) : Result (option str) FsError :=
  if bool_decide (raw = CPIO_TRAILER) then Ok None
  else
    let trimmed := trim_end SLASH raw in
    if bool_decide (trimmed = []) || bool_decide (trimmed = lit ".") then Ok (Some (lit "/"))
    else match archive_loop [] (split SLASH trimmed) with
    | Err e => Err e
    | Ok out => if bool_decide (out = []) then Ok (Some (lit "/")) else Ok (Some out)
    end.

(** ** The archive *)
(** [&bytes[a..b]]. *)
Definition sub_slice (bytes : list Z) (a b : Z) : exec (list Z) :=
  if (0 <=? a) && (a <=? b) && (b <=? Z.of_nat (length bytes)) then Ret (bytes_at bytes a (b - a)) else Panic.
Fixpoint until_nul (s : list Z) : list Z := match s with [] => [] | b :: s' => if b =? 0 then [] else b :: until_nul s' end.

(** One round of the loop: the end of the archive, or the next position and perhaps an entry. *)
Inductive Round := Stop | Next (cursor : Z) (entry : option InitramfsEntry).

Definition make_entry (path : str) (ino mode : Z) (kind : FileType) (data : list Z) : InitramfsEntry :=
  mkEnt path (if negb (ino =? 0) then ino else hash_path path)
    (if negb (mode =? 0) then mode else match kind with Directory => 0x41ED | Regular => 0x81A4 | _ => 0 end)
    kind (if bool_decide (kind = Regular) then Some data else None).

(** What follows the header. *)
Definition parse_body (bytes : list Z) (cursor ino mode file_size name_size : Z) : exec (Result Round FsError) :=
  let len := Z.of_nat (length bytes) in
  let cursor := saturating_add64 cursor CPIO_HEADER_LEN in
  if len <? saturating_add64 cursor name_size then Ret (Err InvalidInput)
  else
    name_raw ← sub_slice bytes cursor (cursor + name_size);
    let name := until_nul name_raw in
    if negb (valid_utf8 name) then Ret (Err InvalidInput)
    else
      let cursor := align4 (saturating_add64 cursor name_size) in
      if len <? saturating_add64 cursor file_size then Ret (Err InvalidInput)
      else if bool_decide (name = CPIO_TRAILER) then Ret (Ok Stop)
      else
        data ← sub_slice bytes cursor (cursor + file_size);
        let cursor := align4 (saturating_add64 cursor file_size) in
        match normalize_archive_path name with
        | Err e => Ret (Err e)
        | Ok None => Ret (Ok (Next cursor None))
        | Ok (Some path) =>
            if bool_decide (path = lit "/") then Ret (Ok (Next cursor None))
            else
              let ty := Z.land mode 0xF000 in
              if ty =? 0x4000 then Ret (Ok (Next cursor (Some (make_entry path ino mode Directory data))))
              else if ty =? 0x8000 then Ret (Ok (Next cursor (Some (make_entry path ino mode Regular data))))
              else Ret (Ok (Next cursor None))
        end.
Definition parse_record (bytes : list Z) (cursor : Z) : exec (Result Round FsError) :=
  header ← sub_slice bytes cursor (cursor + CPIO_HEADER_LEN);
  let magic := bytes_at header 0 6 in
  if negb (bool_decide (magic = CPIO_NEWC_MAGIC)) && negb (bool_decide (magic = CPIO_CRC_MAGIC)) then Ret (Err InvalidInput)
  else match parse_hex_field (bytes_at header 6 8), parse_hex_field (bytes_at header 14 8), parse_hex_field (bytes_at header 54 8), parse_hex_field (bytes_at header 94 8) with
  | Ok ino, Ok mode, Ok file_size, Ok name_size =>
      if name_size =? 0 then Ret (Err InvalidInput) else parse_body bytes cursor ino mode file_size name_size
  | _, _, _, _ => Ret (Err InvalidInput)
  end.

Fixpoint parse_loop (fuel : nat) (bytes : list Z) (cursor : Z) (by_path : gmap str InitramfsEntry) : exec (Result (gmap str InitramfsEntry) FsError) :=
  match fuel with
  | O => OutOfFuel
  | S fuel' =>
      if saturating_add64 cursor CPIO_HEADER_LEN <=? Z.of_nat (length bytes) then
        r ← parse_record bytes cursor;
        match r with
        | Err e => Ret (Err e)
        | Ok Stop => Ret (Ok by_path)
        | Ok (Next cursor None) => parse_loop fuel' bytes cursor by_path
        | Ok (Next cursor (Some entry)) => parse_loop fuel' bytes cursor (<[ent_path entry := entry]> by_path)
        end
      else Ret (Ok by_path)
  end.

(** The pairs of a [BTreeMap], in its order. *)
Section Sorted.
Context {V : Type}.
Definition pair_le (a b : str * V) : Prop := str_le a.1 b.1 = true.
#[export] Instance pair_le_dec a b : Decision (pair_le a b).
Proof. unfold pair_le. apply _. Defined.
Definition sorted_pairs (m : gmap str V) : list (str * V) := merge_sort pair_le (map_to_list m).
End Sorted.

Definition parse_archive (bytes : list Z) : exec (Result (list InitramfsEntry) FsError) :=
  r ← parse_loop (S (length bytes)) bytes 0 ∅;
  Ret (match r with Err e => Err e | Ok by_path => Ok ((sorted_pairs by_path).*2) end).

(** ** Directories *)
Definition split_once (s : str) : str * str :=
  match split SLASH s with a :: _ :: _ => (a, drop (S (length a)) s) | _ => (s, []) end.

(** One entry of the archive, seen from a directory. *)
Definition add_child (dir_path : str) (names : gmap str (FileType * Z)) (entry : InitramfsEntry) : gmap str (FileType * Z) :=
  let prefix := with_slash dir_path in
  let rest := if bool_decide (dir_path = lit "/") then Some (trim_start SLASH (ent_path entry)) else strip_prefix prefix (ent_path entry) in
  match rest with
  | None => names
  | Some rest =>
      if bool_decide (rest = []) then names
      else
        let (nm, tail) := split_once rest in
        if bool_decide (nm = []) then names
        else
          let child_kind := if bool_decide (tail = []) then ent_kind entry else Directory in
          let child_ino := if bool_decide (tail = []) then ent_ino entry else hash_path (prefix ++ nm) in
          match names !! nm with
          | Some slot => if negb (bool_decide (slot.1 = Directory)) && bool_decide (child_kind = Directory) then <[nm := (child_kind, child_ino)]> names else names
          | None => <[nm := (child_kind, child_ino)]> names
          end
  end.
Definition collect_dir_entries (self : InitramfsStore) (dir_path : str) : list DirEntry :=
  let names := {[ lit "." := (Directory, hash_path dir_path) ]} in
  let parent := if bool_decide (dir_path = lit "/") then lit "/" else (split_parent dir_path).1 in
  let names := <[lit ".." := (Directory, hash_path parent)]> names in
  let names := foldl (add_child dir_path) names (store_entries self) in
  (fun '(nm, (file_type, ino)) => mkDirEntry ino file_type nm) <$> sorted_pairs names.

(** ** The operations of the traits *)
Record InitramfsInode := mkRam { ram_store : InitramfsStore; ram_path : str }.

Definition join_child (self : InitramfsInode) (nm : str) : str :=
  if bool_decide (ram_path self = lit "/") then lit "/" ++ nm else with_slash (ram_path self) ++ nm.

Definition initramfs_statfs (self : InitramfsStore) : Result FsStatFs FsError :=
  let files := Z.of_nat (length (store_entries self)) in
  let sum := foldl (fun acc entry => acc + match ent_data entry with Some d => Z.of_nat (length d) | None => 0 end) 0 (store_entries self) in
  let blocks := saturating_add64 sum 4095 / 4096 in
  Ok (mkStatFs 0x858458f6 4096 blocks 0 0 files 0 255 4096 1).

Definition ram_metadata (self : InitramfsInode) : Result Metadata FsError :=
  match find_entry (ram_store self) (ram_path self) with
  | Some entry =>
      Ok (mkMetadata (ent_ino entry) (ent_kind entry) (ent_mode entry) (match ent_data entry with Some d => Z.of_nat (length d) | None => 0 end)
            (if bool_decide (ent_kind entry = Directory) then 2 else 1))
  | None =>
      if store_is_dir (ram_store self) (ram_path self) then
        Ok (mkMetadata (hash_path (ram_path self)) Directory (directory_mode (ram_store self) (ram_path self)) 0 2)
      else Err NotFound
  end.
Definition ram_lookup (self : InitramfsInode) (nm : str) : Result InitramfsInode FsError :=
  if negb (store_is_dir (ram_store self) (ram_path self)) then Err NotDirectory
  else if bool_decide (nm = []) || bool_decide (nm = lit ".") then Ok self
  else if bool_decide (nm = lit "..") then
    Ok (mkRam (ram_store self) (if bool_decide (ram_path self = lit "/") then lit "/" else (split_parent (ram_path self)).1))
  else
    let child := join_child self nm in
    if bool_decide (is_Some (find_entry (ram_store self) child)) || store_is_dir (ram_store self) child then Ok (mkRam (ram_store self) child)
    else Err NotFound.
Definition ram_readdir (self : InitramfsInode) : Result (list DirEntry) FsError :=
  if negb (store_is_dir (ram_store self) (ram_path self)) then Err NotDirectory
  else Ok (collect_dir_entries (ram_store self) (ram_path self)).
Definition ram_read_at (self : InitramfsInode) (offset len : Z) : Result (list Z) FsError :=
  match initramfs_read_file (ram_store self) (ram_path self) with
  | None => Err IsDirectory
  | Some data =>
      if (Z.of_nat (length data) <=? offset) || (len =? 0) then Ok []
      else Ok (bytes_at data offset (Z.min len (Z.of_nat (length data) - offset)))
  end.
#[export] Instance ram_vfs : Vfs InitramfsStore InitramfsInode := {|
  fs_name _ := lit "initramfs"; root self := mkRam self (lit "/"); statfs := initramfs_statfs; metadata := ram_metadata; lookup_child := ram_lookup;
  readdir := ram_readdir; read_at := ram_read_at |}.
