(* ===== verification/InitramfsTheorems.v ===== *)
(** * The boot archive: parsing always ends, and directories agree with lookups *)

From stdpp Require Import strings sorting.
From S2P Require Import Prelude Errno FsPath FsMount Utf8 Block BlockTheorems Fat32Format Initramfs.
#[local] Open Scope Z_scope.

(** ** Positions *)
Lemma align4_eq v : 0 <= v < 2 ^ 63 -> align4 v = 4 * ((v + 3) / 4).
Proof.
  intros Hv. unfold align4, add64, not64. rewrite Z.mod_small by lia. set (w := v + 3). change (Z.lxor 3 U64_MAX) with (Z.shiftl (Z.ones 62) 2).
  pose proof (Z.div_mod w 4 ltac:(lia)) as Hw. rewrite Z.mul_comm. change 4 with (2 ^ 2). rewrite <- Z.shiftr_div_pow2, <- Z.shiftl_mul_pow2 by lia.
  apply Z.bits_inj'. intros i Hi. rewrite Z.land_spec, !Z.shiftl_spec by lia. destruct (Z.lt_ge_cases i 2) as [Hl|Hl].
  { rewrite !(Z.testbit_neg_r _ (i - 2)) by lia. apply andb_false_r. }
  rewrite Z.shiftr_spec by lia. replace (i - 2 + 2) with i by lia. destruct (Z.lt_ge_cases (i - 2) 62) as [Hs|Hs].
  - rewrite Z.ones_spec_low by lia. apply andb_true_r.
  - rewrite Z.ones_spec_high by lia. rewrite andb_false_r. symmetry. destruct (decide (w = 0)) as [->|]; [apply Z.bits_0|]. apply Z.bits_above_log2; [lia|].
    assert (Z.log2 w < 64) by (apply Z.log2_lt_pow2; lia). lia.
Qed.
Lemma align4_bounds v : 0 <= v < 2 ^ 63 -> v <= align4 v < v + 4.
Proof. intros Hv. rewrite align4_eq by done. pose proof (Z.div_mod (v + 3) 4 ltac:(lia)). pose proof (Z.mod_pos_bound (v + 3) 4 ltac:(lia)). lia. Qed.

Lemma hex_digits_bound s : forall acc v, 0 <= acc < 4294967296 -> hex_digits acc s = Some v -> 0 <= v < 4294967296.
Proof.
  induction s as [|c s IH]; intros acc v Ha; cbn [hex_digits]; [by intros [= <-]|]. destruct (to_digit c) as [d|] eqn:Ed; [|done].
  assert (Hd : 0 <= d).
  { unfold to_digit in Ed. destruct (within 48 57 c) eqn:E1; [|destruct (within 97 102 c) eqn:E2; [|destruct (within 65 70 c) eqn:E3; [|done]]]; injection Ed as <-;
      repeat match goal with H : within _ _ _ = true |- _ => apply within_iff in H end; lia. }
  cbn [mbind option_bind]. destruct (Z.ltb_spec (16 * acc + d) 4294967296); [|done]. apply IH. lia.
Qed.
Lemma parse_hex_field_bound f v : parse_hex_field f = Ok v -> 0 <= v < 4294967296.
Proof.
  unfold parse_hex_field, from_str_radix. destruct (valid_utf8 f); [|done]. destruct f as [|c f]; [done|].
  destruct (_ && _); destruct (hex_digits 0 _) as [w|] eqn:E; try done; intros [= <-]; by apply (hex_digits_bound _ 0 _ ltac:(lia) E).
Qed.

(** ** Parsing *)
Lemma sub_slice_in bytes a b : 0 <= a <= b -> b <= Z.of_nat (length bytes) -> sub_slice bytes a b = Ret (bytes_at bytes a (b - a)).
Proof.
  intros Ha Hb. unfold sub_slice. rewrite (proj2 (Z.leb_le 0 a)), (proj2 (Z.leb_le a b)), (proj2 (Z.leb_le b _)) by lia. done.
Qed.
(** A path of the archive: at least one name. *)
Definition entry_path (p : str) : Prop := exists comps, Forall name comps /\ comps <> [] /\ p = slashed comps.
Definition entry_wf (e : InitramfsEntry) : Prop :=
  entry_path (ent_path e) /\ (ent_kind e = Directory /\ ent_data e = None \/ ent_kind e = Regular /\ exists d, ent_data e = Some d).
Lemma make_entry_wf path ino mode kind d : entry_path path -> kind = Directory \/ kind = Regular -> entry_wf (make_entry path ino mode kind d).
Proof. intros Hp [-> | ->]; (split; [done|]); cbn; [left|right]; eauto. Qed.

Lemma archive_loop_ok comps : forall parts out, Forall name parts -> Forall (fun c => SLASH ∉ c) comps -> archive_loop (slashed parts) comps = Ok out ->
  exists parts', Forall name parts' /\ out = slashed parts'.
Proof.
  induction comps as [|c comps IH]; intros parts out Hp Hs; cbn [archive_loop]; [intros [= <-]; by exists parts|]. apply Forall_cons in Hs as [Hc Hs].
  case_bool_decide; cbn [orb]; [by apply IH|]. case_bool_decide; [by apply IH|]. case_bool_decide; [done|].
  replace (slashed parts ++ SLASH :: c) with (slashed (parts ++ [c])) by (rewrite slashed_app; cbn [slashed]; by rewrite app_nil_r).
  apply IH; [|done]. apply Forall_app. split; [done|]. by repeat constructor.
Qed.
Lemma normalize_archive_path_ok raw p : normalize_archive_path raw = Ok (Some p) -> p = lit "/" \/ entry_path p.
Proof.
  unfold normalize_archive_path. case_bool_decide; [done|]. cbv zeta. destruct (_ || _); [intros [= <-]; by left|].
  destruct (archive_loop [] _) as [out|] eqn:E; [|done]. apply (archive_loop_ok _ []) in E as (parts & Hp & ->); [|done|apply split_pieces].
  case_bool_decide as Hn; intros [= <-]; [by left|]. right. exists parts. split; [done|]. split; [|done]. by intros ->.
Qed.

(** One round neither panics nor stays where it is. *)
Lemma parse_record_ok bytes cursor :
  0 <= cursor -> cursor + CPIO_HEADER_LEN <= Z.of_nat (length bytes) < 2 ^ 62 ->
  exists r, parse_record bytes cursor = Ret r /\
    match r with Ok (Next c e) => cursor + CPIO_HEADER_LEN <= c < 2 ^ 63 /\ match e with Some e => entry_wf e | None => True end | _ => True end.
Proof.
  intros Hc Hl. unfold parse_record. unfold CPIO_HEADER_LEN in *. rewrite sub_slice_in by lia. mstep. cbv zeta. destruct (_ && _); [by eexists|].
  destruct (parse_hex_field (bytes_at _ 6 8)) as [ino|]; [|by eexists]. destruct (parse_hex_field (bytes_at _ 14 8)) as [mode|]; [|by eexists].
  destruct (parse_hex_field (bytes_at _ 54 8)) as [fsize|] eqn:Ef; [|by eexists]. destruct (parse_hex_field (bytes_at _ 94 8)) as [nsize|] eqn:En; [|by eexists].
  apply parse_hex_field_bound in Ef, En. destruct (nsize =? 0); [by eexists|]. unfold parse_body, saturating_add64, CPIO_HEADER_LEN. cbv zeta.
  rewrite (Z.min_r U64_MAX (cursor + 110)) by lia. rewrite (Z.min_r U64_MAX (cursor + 110 + nsize)) by lia.
  destruct (Z.ltb_spec (Z.of_nat (length bytes)) (cursor + 110 + nsize)); [by eexists|]. rewrite (sub_slice_in bytes (cursor + 110)) by lia. mstep.
  destruct (negb (valid_utf8 _)); [by eexists|]. pose proof (align4_bounds (cursor + 110 + nsize) ltac:(lia)) as Ha. set (c1 := align4 (cursor + 110 + nsize)) in *.
  rewrite (Z.min_r U64_MAX (c1 + fsize)) by lia. destruct (Z.ltb_spec (Z.of_nat (length bytes)) (c1 + fsize)); [by eexists|]. case_bool_decide; [by eexists|].
  rewrite sub_slice_in by lia. mstep. pose proof (align4_bounds (c1 + fsize) ltac:(lia)) as Ha2. set (c2 := align4 (c1 + fsize)) in *.
  assert (Hc2 : cursor + 110 <= c2 < 2 ^ 63) by lia. destruct (normalize_archive_path _) as [[p|]|] eqn:Ep; [|by eexists|by eexists]. apply normalize_archive_path_ok in Ep.
  case_bool_decide as Hr; [by eexists|]. destruct Ep as [|Ep]; [done|].
  destruct (_ =? 0x4000); [eexists; split; [done|]; split; [done|]; apply make_entry_wf; auto|].
  destruct (_ =? 0x8000); [eexists; split; [done|]; split; [done|]; apply make_entry_wf; auto|]. by eexists.
Qed.
Definition by_path_ok (m : gmap str InitramfsEntry) : Prop := map_Forall (fun k e => ent_path e = k /\ entry_wf e) m.
Lemma parse_loop_ok bytes fuel : forall cursor m,
  0 <= cursor -> Z.of_nat (length bytes) < 2 ^ 62 -> (Z.to_nat (Z.of_nat (length bytes) - cursor) < fuel)%nat -> by_path_ok m -> cursor < 2 ^ 63 ->
  exists r, parse_loop fuel bytes cursor m = Ret r /\ match r with Ok m' => by_path_ok m' | Err _ => True end.
Proof.
  induction fuel as [|fuel IH]; intros cursor m Hc Hl Hf Hm Hcm; [lia|]. cbn [parse_loop]. unfold saturating_add64, CPIO_HEADER_LEN. rewrite Z.min_r by lia.
  destruct (Z.leb_spec (cursor + 110) (Z.of_nat (length bytes))) as [Hle|]; [|by eexists].
  destruct (parse_record_ok bytes cursor Hc) as (r & -> & Hr); [unfold CPIO_HEADER_LEN; lia|]. unfold CPIO_HEADER_LEN in Hr. mstep.
  destruct r as [[|c [e|]]|]; [by eexists| | |by eexists].
  - destruct Hr as [Hc' He]. apply IH; [lia|done|lia| |lia]. apply map_Forall_insert_2; [|done]. by split.
  - destruct Hr as [Hc' _]. apply IH; [lia|done|lia|done|lia].
Qed.

(** ** Stores *)
Definition store_ok (self : InitramfsStore) : Prop :=
  exists m, by_path_ok m /\ Permutation (store_entries self) ((map_to_list m).*2).
Lemma sorted_pairs_perm {V} (m : gmap str V) : Permutation (sorted_pairs m) (map_to_list m).
Proof. apply merge_sort_Permutation. Qed.
Lemma parse_archive_ok bytes : Z.of_nat (length bytes) < 2 ^ 62 ->
  exists r, parse_archive bytes = Ret r /\ match r with Ok l => store_ok (mkStore l) | Err _ => True end.
Proof.
  intros Hl. unfold parse_archive. destruct (parse_loop_ok bytes (S (length bytes)) 0 ∅) as (r & -> & Hr); [lia|done|lia|apply map_Forall_empty|lia|].
  mstep. eexists. split; [done|]. destruct r as [m|]; [|done]. exists m. split; [done|]. apply fmap_Permutation, sorted_pairs_perm.
Qed.
Lemma store_elem self m e : by_path_ok m -> Permutation (store_entries self) ((map_to_list m).*2) -> e ∈ store_entries self <-> m !! ent_path e = Some e.
Proof.
  intros Hm Hp. rewrite Hp, list_elem_of_fmap. split.
  - intros ([k e'] & -> & Hk%elem_of_map_to_list). cbn. by destruct (Hm _ _ Hk) as [-> _].
  - intros He. exists (ent_path e, e). by rewrite elem_of_map_to_list.
Qed.
Lemma find_entry_elem self p : store_ok self -> (forall e, find_entry self p = Some e <-> e ∈ store_entries self /\ ent_path e = p).
Proof.
  intros (m & Hm & Hp) e. unfold find_entry. set (l := filter _ _). assert (Hl : forall x, x ∈ l <-> ent_path x = p /\ x ∈ store_entries self) by (intros; apply (list_elem_of_filter (fun entry => ent_path entry = p))).
  split.
  - intros Hh. assert (He : e ∈ l) by (destruct l; [done|]; injection Hh as ->; by left). by apply Hl in He as [? ?].
  - intros [He Hpath]. assert (Hin : e ∈ l) by (by apply Hl). destruct l as [|x l'] eqn:El; [by apply elem_of_nil in Hin|]. cbn.
    destruct (proj1 (Hl x) ltac:(by left)) as [Hx Hxs]. rewrite (store_elem self m) in He, Hxs by done. congruence.
Qed.

(** ** Entries as lists of names *)
Definition comps_of (e : InitramfsEntry) : list str := tail (split SLASH (ent_path e)).
Lemma comps_of_wf e : entry_wf e -> Forall name (comps_of e) /\ comps_of e <> [] /\ ent_path e = slashed (comps_of e).
Proof.
  intros [(comps & Hn & Hne & Hp) _]. assert (Hc : comps_of e = comps); [|by rewrite Hc].
  unfold comps_of. rewrite Hp, split_slashed by (try done; by apply names_no_slash). done.
Qed.
(** The name by which an entry appears in a directory, and what follows it. *)
Fixpoint child_of (d comps : list str) : option (str * list str) :=
  match d, comps with
  | [], n :: r => Some (n, r)
  | x :: d', y :: comps' => if decide (x = y) then child_of d' comps' else None
  | _, [] => None
  end.
Lemma child_of_Some d comps n r : child_of d comps = Some (n, r) <-> comps = d ++ n :: r.
Proof.
  revert comps. induction d as [|x d IH]; intros [|y comps]; cbn [child_of app]; try done; [split; congruence|].
  case_decide as E; [subst; rewrite IH; split; congruence|split; congruence].
Qed.
Lemma strip_below d comps : Forall name d -> Forall name comps -> d <> [] -> comps <> [] ->
  strip_prefix (slashed d ++ [SLASH]) (slashed comps) = match child_of d comps with Some (n, r) => Some (n ++ slashed r) | None => None end.
Proof.
  intros Hd Hc Hdn Hcn. destruct (strip_prefix _ _) as [s|] eqn:Es.
  - apply strip_prefix_app in Es. assert (Hs : split SLASH (slashed comps) = split SLASH (slashed d ++ SLASH :: s)) by (rewrite Es, <- app_assoc; done).
    rewrite split_app, !split_slashed in Hs by (try done; by apply names_no_slash). injection Hs as Hs. destruct (split SLASH s) as [|n r] eqn:En; [by destruct (split_nonempty SLASH s)|].
    rewrite (proj2 (child_of_Some d comps n r) Hs). rewrite Hs, slashed_app in Es. cbn [slashed] in Es. rewrite <- app_assoc in Es. apply app_inv_head in Es. by injection Es as <-.
  - destruct (child_of d comps) as [[n r]|] eqn:Ec; [|done]. apply child_of_Some in Ec. subst comps. exfalso.
    rewrite slashed_app in Es. cbn [slashed] in Es. assert (strip_prefix (slashed d ++ [SLASH]) (slashed d ++ SLASH :: n ++ slashed r) = Some (n ++ slashed r)); [|congruence].
    apply strip_prefix_app. by rewrite <- app_assoc.
Qed.
Lemma slashed_last d : Forall name d -> last (slashed d) <> Some SLASH.
Proof.
  intros Hd. destruct d as [|x d _] using rev_ind; [done|]. apply Forall_app in Hd as [_ Hx]. apply Forall_cons in Hx as [(Hne & Hs & _) _].
  rewrite slashed_app. cbn [slashed]. rewrite app_nil_r. destruct (exists_last Hne) as (x' & c & ->).
  replace (slashed d ++ SLASH :: x' ++ [c]) with ((slashed d ++ SLASH :: x') ++ [c]) by (by rewrite <- app_assoc). rewrite last_snoc. set_solver.
Qed.
Lemma with_slash_render d : Forall name d -> d <> [] -> with_slash (render d) = slashed d ++ [SLASH].
Proof.
  intros Hd Hne. unfold with_slash, ends_with_slash. destruct d; [done|]. unfold render. rewrite bool_decide_eq_false_2 by (by apply slashed_last). done.
Qed.
Lemma render_root d : Forall name d -> render d = lit "/" <-> d = [].
Proof. intros Hd. split; [|by intros ->]. intros E. by apply (render_inj d []) in E. Qed.
Lemma split_once_name n r : name n -> Forall name r -> split_once (n ++ slashed r) = (n, drop 1 (slashed r)).
Proof.
  intros (Hne & Hs & _) Hr. unfold split_once. destruct r as [|x r]; cbn [slashed].
  - rewrite app_nil_r, split_whole by done. done.
  - rewrite split_app, (split_whole SLASH n) by done. cbn [app]. destruct (split SLASH (x ++ slashed r)) eqn:E; [by destruct (split_nonempty SLASH (x ++ slashed r))|].
    f_equal. replace (S (length n)) with (length n + 1)%nat by lia. rewrite <- drop_drop, drop_app_length. done.
Qed.
Lemma trim_start_slashed comps : Forall name comps -> comps <> [] -> trim_start SLASH (slashed comps) = drop 1 (slashed comps).
Proof.
  intros Hc Hne. destruct comps as [|x comps]; [done|]. apply Forall_cons in Hc as [(Hx & Hs & _) _]. destruct x as [|b x]; [done|].
  cbn [slashed app trim_start drop]. rewrite Z.eqb_refl. destruct (Z.eqb_spec b SLASH) as [->|]; [set_solver|done].
Qed.

(** ** Directories *)
Definition seen_as (e : InitramfsEntry) (r : list str) : FileType := if bool_decide (r = []) then ent_kind e else Directory.
Lemma drop1_slashed r : Forall name r -> drop 1 (slashed r) = [] <-> r = [].
Proof.
  intros Hr. split; [|by intros ->]. destruct r as [|x r]; [done|]. apply Forall_cons in Hr as [(Hne & _) _]. destruct x; done.
Qed.
Lemma add_child_eq d names e : Forall name d -> entry_wf e ->
  match child_of d (comps_of e) with
  | None => add_child (render d) names e = names
  | Some (n, r) =>
      exists ino, add_child (render d) names e =
        match names !! n with
        | Some slot => if negb (bool_decide (slot.1 = Directory)) && bool_decide (seen_as e r = Directory) then <[n := (seen_as e r, ino)]> names else names
        | None => <[n := (seen_as e r, ino)]> names
        end
  end.
Proof.
  intros Hd He. destruct (comps_of_wf e He) as (Hc & Hne & Hp). unfold add_child. cbv zeta.
  assert (Hrest : (if bool_decide (render d = lit "/") then Some (trim_start SLASH (ent_path e)) else strip_prefix (with_slash (render d)) (ent_path e)) =
    match child_of d (comps_of e) with Some (n, r) => Some (n ++ slashed r) | None => None end).
  { rewrite Hp. destruct (decide (d = [])) as [->|Hdn].
    - rewrite bool_decide_eq_true_2 by done. rewrite trim_start_slashed by done. destruct (comps_of e); done.
    - rewrite bool_decide_eq_false_2 by (by rewrite render_root). rewrite with_slash_render by done. by apply strip_below. }
  rewrite Hrest. destruct (child_of d (comps_of e)) as [[n r]|] eqn:Ec; [|done]. apply child_of_Some in Ec. rewrite Ec in Hc.
  apply Forall_app in Hc as [_ Hnr]. apply Forall_cons in Hnr as [Hn Hr]. pose proof Hn as (Hnn & _).
  rewrite (bool_decide_eq_false_2 (n ++ slashed r = [])) by (by intros [? _]%app_eq_nil). rewrite split_once_name by done.
  rewrite (bool_decide_eq_false_2 (n = [])) by done. rewrite !(bool_decide_ext _ _ (drop1_slashed r Hr)). fold (seen_as e r). by eexists.
Qed.

(** What the directory shows for one name. *)
Definition merge_kind (acc : option FileType) (k : FileType) : option FileType :=
  match acc with Some x => if bool_decide (x <> Directory) && bool_decide (k = Directory) then Some k else Some x | None => Some k end.
Definition show_kind (d : list str) (n : str) (acc : option FileType) (e : InitramfsEntry) : option FileType :=
  match child_of d (comps_of e) with Some (n', r) => if decide (n' = n) then merge_kind acc (seen_as e r) else acc | None => acc end.
Lemma fold_add_child d n l : forall names, Forall name d -> Forall entry_wf l ->
  fst <$> foldl (add_child (render d)) names l !! n = foldl (show_kind d n) (fst <$> names !! n) l.
Proof.
  induction l as [|e l IH]; intros names Hd Hl; cbn [foldl]; [done|]. apply Forall_cons in Hl as [He Hl]. rewrite IH by done. f_equal.
  pose proof (add_child_eq d names e Hd He) as Ha. unfold show_kind. destruct (child_of d (comps_of e)) as [[n' r]|]; [|by rewrite Ha].
  destruct Ha as [ino ->]. unfold merge_kind. destruct (decide (n' = n)) as [->|Hne].
  - destruct (names !! n) as [[k i]|] eqn:En; cbn [fmap option_fmap option_map fst]; [|by rewrite lookup_insert_eq]. rewrite (bool_decide_not (k = Directory)).
    destruct (_ && _); [by rewrite lookup_insert_eq|by rewrite En].
  - destruct (names !! n') as [[k i]|]; [|by rewrite lookup_insert_ne]. destruct (_ && _); [by rewrite lookup_insert_ne|done].
Qed.
Lemma show_kinds d n l : forall acc,
  (is_Some (foldl (show_kind d n) acc l) <-> is_Some acc \/ exists e r, e ∈ l /\ child_of d (comps_of e) = Some (n, r)) /\
  (foldl (show_kind d n) acc l = Some Directory <-> acc = Some Directory \/ exists e r, e ∈ l /\ child_of d (comps_of e) = Some (n, r) /\ seen_as e r = Directory).
Proof.
  induction l as [|e l IH]; intros acc; cbn [foldl].
  { split; (split; [by left|]); intros [?|(e & r & He & _)]; try done; by apply elem_of_nil in He. }
  destruct (IH (show_kind d n acc e)) as [IH1 IH2]. rewrite IH1, IH2. clear IH IH1 IH2.
  assert (Hx : forall P : InitramfsEntry -> list str -> Prop, (exists e' r, e' ∈ e :: l /\ P e' r) <-> (exists r, P e r) \/ exists e' r, e' ∈ l /\ P e' r).
  { intros P. split.
    - intros (e' & r & He & HP). apply elem_of_cons in He as [->|He]; [left|right]; eauto.
    - intros [[r HP]|(e' & r & He & HP)]; [exists e, r|exists e', r]; split; try done; by constructor. }
  rewrite (Hx (fun e r => child_of d (comps_of e) = Some (n, r))), (Hx (fun e r => child_of d (comps_of e) = Some (n, r) /\ seen_as e r = Directory)).
  rewrite !(assoc or). unfold show_kind, merge_kind. destruct (child_of d (comps_of e)) as [[n' r]|]; [|split; naive_solver].
  destruct (decide (n' = n)) as [->|Hne].
  - destruct acc as [k|]; split.
    + split; [intros _; left; left; by eexists|]. intros _. left. destruct (_ && _); by eexists.
    + destruct (decide (k = Directory)) as [->|Hk]; [rewrite bool_decide_eq_false_2 by tauto; cbn [andb]; naive_solver|].
      rewrite bool_decide_eq_true_2 by done. cbn [andb]. case_bool_decide as Hs.
      * split; [intros _; left; right; by exists r|]. intros _. left. congruence.
      * split; [intros [?|?]; [congruence|by right]|]. intros [[?|(r0 & Hr0 & ?)]|?]; [congruence|congruence|by right].
    + split; [intros _; left; right; by eexists|]. intros _. left. by eexists.
    + split; [intros [[= Hs]|?]; [left; right; by exists r|by right]|]. intros [[?|(r0 & Hr0 & ?)]|?]; [done|left; congruence|by right].
  - split; split.
    + intros [?|?]; [left; by left|by right].
    + intros [[?|(r0 & ?)]|?]; [by left|congruence|by right].
    + intros [?|?]; [left; by left|by right].
    + intros [[?|(r0 & ? & _)]|?]; [by left|congruence|by right].
Qed.

Lemma store_wf self e : store_ok self -> e ∈ store_entries self -> entry_wf e.
Proof. intros (m & Hm & Hp) He. apply (store_elem self m e Hm Hp) in He. by destruct (Hm _ _ He). Qed.
Lemma render_slashed_snoc d n : render (d ++ [n]) = slashed (d ++ [n]).
Proof. by destruct d. Qed.
Lemma slashed_comps e comps : entry_wf e -> Forall name comps -> comps <> [] -> ent_path e = slashed comps <-> comps_of e = comps.
Proof.
  intros He Hc Hne. destruct (comps_of_wf e He) as (H1 & H2 & H3). rewrite H3. split; [|by intros ->]. intros E.
  apply (f_equal (split SLASH)) in E. rewrite !split_slashed in E by (try done; by apply names_no_slash). by injection E.
Qed.
Lemma names_snoc d n : Forall name d -> name n -> Forall name (d ++ [n]).
Proof. intros. apply Forall_app. split; [done|]. by apply Forall_singleton. Qed.
(** An entry of that name exists. *)
Lemma find_child self d n : store_ok self -> Forall name d -> name n ->
  is_Some (find_entry self (render (d ++ [n]))) <-> exists e, e ∈ store_entries self /\ child_of d (comps_of e) = Some (n, []).
Proof.
  intros Hs Hd Hn. assert (Hdn : Forall name (d ++ [n])) by (by apply names_snoc). assert (d ++ [n] <> []) by (by destruct d).
  rewrite render_slashed_snoc. split.
  - intros [e He%find_entry_elem]; [|done]. destruct He as [He Hp]. exists e. split; [done|]. apply child_of_Some. apply slashed_comps; [by eapply store_wf|done..].
  - intros (e & He & Hc%child_of_Some). exists e. apply find_entry_elem; [done|]. split; [done|]. apply slashed_comps; [by eapply store_wf|done..].
Qed.
Lemma is_dir_child self d n : store_ok self -> Forall name d -> name n ->
  store_is_dir self (render (d ++ [n])) = true <-> exists e r, e ∈ store_entries self /\ child_of d (comps_of e) = Some (n, r) /\ seen_as e r = Directory.
Proof.
  intros Hs Hd Hn. assert (Hdn : Forall name (d ++ [n])) by (by apply names_snoc). assert (Hne : d ++ [n] <> []) by (by destruct d).
  unfold store_is_dir. rewrite bool_decide_eq_false_2 by (by rewrite render_root). rewrite with_slash_render by done.
  assert (Hbelow : forall e, e ∈ store_entries self -> starts_with (ent_path e) (slashed (d ++ [n]) ++ [SLASH]) = true <-> exists m r, child_of d (comps_of e) = Some (n, m :: r)).
  { intros e He. destruct (comps_of_wf e (store_wf _ _ Hs He)) as (H1 & H2 & H3). unfold starts_with. rewrite H3, strip_below by done.
    destruct (child_of (d ++ [n]) (comps_of e)) as [[m r]|] eqn:Ec.
    - split; [|done]. intros _. exists m, r. apply child_of_Some in Ec. apply child_of_Some. by rewrite Ec, <- app_assoc.
    - split; [done|]. intros (m & r & E%child_of_Some). assert (child_of (d ++ [n]) (comps_of e) = Some (m, r)); [|congruence]. apply child_of_Some. by rewrite E, <- app_assoc. }
  assert (Hex : existsb (fun e => starts_with (ent_path e) (slashed (d ++ [n]) ++ [SLASH])) (store_entries self) = true <->
    exists e m r, e ∈ store_entries self /\ child_of d (comps_of e) = Some (n, m :: r)).
  { rewrite existsb_exists. split.
    - intros (e & He%list_elem_of_In & Hst). apply Hbelow in Hst as (m & r & Hc); [|done]. by exists e, m, r.
    - intros (e & m & r & He & Hc). exists e. split; [by apply list_elem_of_In|]. apply Hbelow; [done|]. by exists m, r. }
  split.
  - destruct (find_entry self (render (d ++ [n]))) as [e|] eqn:Ef.
    + apply find_entry_elem in Ef as [He Hp]; [|done]. rewrite render_slashed_snoc in Hp. apply slashed_comps in Hp; [|by eapply store_wf|done|done].
      case_bool_decide as Hk; [intros _; exists e, []; split; [done|]; split; [by apply child_of_Some|done]|]. intros (e' & m & r & He' & Hc)%Hex. by exists e', (m :: r).
    + intros (e' & m & r & He' & Hc)%Hex. by exists e', (m :: r).
  - intros (e & [|m r] & He & Hc & Hk).
    + assert (Hf : find_entry self (render (d ++ [n])) = Some e).
      { apply find_entry_elem; [done|]. split; [done|]. rewrite render_slashed_snoc. apply slashed_comps; [by eapply store_wf|done..|]. by apply child_of_Some in Hc. }
      rewrite Hf. unfold seen_as in Hk. rewrite bool_decide_eq_true_2 in Hk by done. by rewrite bool_decide_eq_true_2.
    + match goal with |- (if ?b then _ else _) = _ => destruct b; [done|] end. apply Hex. by exists e, m, r.
Qed.
Lemma join_render d n self : Forall name d -> join_child (mkRam self (render d)) n = render (d ++ [n]).
Proof.
  intros Hd. unfold join_child. cbn [ram_path]. rewrite render_snoc. destruct (decide (d = [])) as [->|Hne]; [by rewrite bool_decide_eq_true_2|].
  rewrite bool_decide_eq_false_2 by (by rewrite render_root). rewrite with_slash_render by done. by rewrite <- app_assoc.
Qed.
Lemma lookup_child_ok self d n : store_ok self -> Forall name d -> name n -> store_is_dir self (render d) = true ->
  match ram_lookup (mkRam self (render d)) n with
  | Ok i => i = mkRam self (render (d ++ [n])) /\ exists e r, e ∈ store_entries self /\ child_of d (comps_of e) = Some (n, r)
  | Err err => err = NotFound /\ ~ exists e r, e ∈ store_entries self /\ child_of d (comps_of e) = Some (n, r)
  end.
Proof.
  intros Hs Hd Hn Hdir. pose proof Hn as (H1 & _ & H2 & H3). unfold ram_lookup. cbn [ram_store ram_path]. rewrite Hdir. cbn [negb].
  rewrite !bool_decide_eq_false_2 by done. cbn [orb]. rewrite join_render by done. pose proof (find_child self d n Hs Hd Hn) as Hf. pose proof (is_dir_child self d n Hs Hd Hn) as Hi.
  destruct (bool_decide _ || _) eqn:E.
  - split; [done|]. apply orb_true_iff in E as [E%bool_decide_eq_true%Hf|E%Hi]; naive_solver.
  - split; [done|]. apply orb_false_iff in E as [E1%bool_decide_eq_false E2]. intros (e & [|m r] & He & Hc); [apply E1, Hf; by exists e|].
    assert (store_is_dir self (render (d ++ [n])) = true); [|congruence]. apply Hi. by exists e, (m :: r).
Qed.
Lemma listed_names self d n : store_ok self -> Forall name d -> name n ->
  exists k, k = foldl (show_kind d n) None (store_entries self) /\
    (forall t, (exists e, e ∈ collect_dir_entries self (render d) /\ de_name e = n /\ de_file_type e = t) <-> k = Some t).
Proof.
  intros Hs Hd Hn. eexists. split; [done|]. intros t. pose proof Hn as (_ & _ & H2 & H3). unfold collect_dir_entries. cbv zeta. set (names0 := <[lit "..":=_]> _).
  assert (H0 : names0 !! n = None) by (unfold names0; rewrite lookup_insert_ne, lookup_singleton_ne by done; done).
  assert (Hwf : Forall entry_wf (store_entries self)) by (apply Forall_forall; intros e He; by eapply store_wf).
  pose proof (fold_add_child d n (store_entries self) names0 Hd Hwf) as Hf. rewrite H0 in Hf. cbn [fmap option_fmap option_map] in Hf. rewrite <- Hf.
  set (m := foldl (add_child (render d)) names0 (store_entries self)). split.
  - intros (e & ([nm [ft ino]] & -> & Hin)%list_elem_of_fmap & <- & <-). cbn. rewrite sorted_pairs_perm, elem_of_map_to_list in Hin. by rewrite Hin.
  - intros Hm. destruct (m !! n) as [[ft ino]|] eqn:Em; [|done]. cbn in Hm. injection Hm as ->. exists (mkDirEntry ino t n). split; [|done].
    apply list_elem_of_fmap. exists (n, (t, ino)). split; [done|]. by rewrite sorted_pairs_perm, elem_of_map_to_list.
Qed.

(** C20. Whatever bytes the boot loader hands over, parsing them as an archive ends, with a
    result or with an error, and never indexes out of bounds. In the file system that
    results, listing a directory and looking up in it agree: a name is listed exactly when it
    can be looked up, and is listed as a directory exactly when what is looked up can be
    listed in turn - also for directories that the archive mentions only as part of the
    paths of files. *)
Theorem archives_parse_to_directories bytes :
  Z.of_nat (length bytes) < 2 ^ 62 ->
  exists r, parse_archive bytes = Ret r /\
    forall l d n, r = Ok l -> Forall name d -> name n -> store_is_dir (mkStore l) (render d) = true ->
      let dir := mkRam (mkStore l) (render d) in
      exists entries, readdir dir = Ok entries /\
        ((exists e, e ∈ entries /\ de_name e = n) <-> exists i, lookup_child dir n = Ok i) /\
        (forall e i, e ∈ entries -> de_name e = n -> lookup_child dir n = Ok i -> de_file_type e = Directory <-> exists below, readdir i = Ok below).
Proof.
  intros Hb. destruct (parse_archive_ok bytes Hb) as (r & Hr & Hok). exists r. split; [done|]. intros l d n -> Hd Hn Hdir dir.
  set (self := mkStore l) in *. cbn [readdir ram_vfs lookup_child]. unfold ram_readdir, dir. cbn [ram_store ram_path]. rewrite Hdir. cbn [negb].
  eexists. split; [done|]. pose proof (lookup_child_ok self d n Hok Hd Hn Hdir) as Hl. destruct (listed_names self d n Hok Hd Hn) as (k & Hk & Hlist).
  destruct (show_kinds d n (store_entries self) None) as [Hs1 Hs2]. rewrite <- Hk in Hs1, Hs2. split.
  - transitivity (is_Some k).
    + split; [intros (e & He & Hen); exists (de_file_type e); apply Hlist; by exists e|]. intros [t Ht]. apply Hlist in Ht as (e & He & Hen & _). by exists e.
    + rewrite Hs1. destruct (ram_lookup _ n) as [i|err]; [destruct Hl as [_ Hl]; split; [by eexists|by right]|]. destruct Hl as [_ Hl].
      split; [intros [[? ?]|?]; done|]. by intros [i ?].
  - intros e i He Hen Hi. rewrite Hi in Hl. destruct Hl as [-> _]. cbn [ram_store ram_path]. assert (Hke : k = Some (de_file_type e)) by (apply Hlist; by exists e).
    transitivity (k = Some Directory); [rewrite Hke; split; congruence|]. rewrite Hs2. pose proof (is_dir_child self d n Hok Hd Hn) as Hch.
    destruct (store_is_dir self (render (d ++ [n]))); cbn [negb].
    + split; [by eexists|]. intros _. right. by apply Hch.
    + split; [|by intros [? ?]]. intros [?|?]; [done|]. by assert (false = true) by (by apply Hch).
Qed.
