(* ===== verification/InitramfsFormat.v ===== *)
(** * The boot archive: what is packed is what is found *)

From stdpp Require Import strings sorting.
From S2P Require Import Prelude Errno FsPath FsMount Utf8 Block BlockTheorems Fat32Format Initramfs InitramfsTheorems.
#[local] Open Scope Z_scope.

(** ** The format *)
(** Hexadecimal digits, with small or capital letters. *)
Definition hex_digit (up : bool) (n : Z) : Z := if n <? 10 then 48 + n else (if up then 55 else 87) + n.
Fixpoint hex (up : bool) (k : nat) (n : Z) : list Z := match k with O => [] | S k' => hex up k' (n / 16) ++ [hex_digit up (n mod 16)] end.
Definition pad4 (n : nat) : list Z := replicate (Z.to_nat (- Z.of_nat n mod 4)) 0.

(** What a packer is free to choose: the magic number of the two variants, the case of the
    digits, and the fields the kernel does not look at (user, group, links and time; the four
    device numbers; the checksum). *)
Record Fields := mkFields { f_crc : bool; f_upper : bool; f_owner : list Z; f_device : list Z; f_check : list Z }.
Record fields_ok (x : Fields) : Prop := { fo_owner : length (f_owner x) = 32%nat; fo_device : length (f_device x) = 32%nat; fo_check : length (f_check x) = 8%nat }.
Definition cpio_magic (x : Fields) : list Z := if f_crc x then CPIO_CRC_MAGIC else CPIO_NEWC_MAGIC.
Definition cpio_header (x : Fields) (ino mode file_size name_size : Z) : list Z :=
  let h := hex (f_upper x) 8 in
  cpio_magic x ++ h ino ++ h mode ++ f_owner x ++ h file_size ++ f_device x ++ h name_size ++ f_check x.
(** A header, the name with a zero after it, and the contents, each filled up to a multiple of four. *)
Definition cpio_record (x : Fields) (nm : str) (ino mode : Z) (d : list Z) : list Z :=
  cpio_header x ino mode (Z.of_nat (length d)) (Z.of_nat (length nm) + 1) ++ (nm ++ [0]) ++ pad4 (110 + length nm + 1) ++ d ++ pad4 (length d).
Definition cpio_end (x : Fields) (ino mode : Z) : list Z := cpio_record x CPIO_TRAILER ino mode [].

(** A file or directory to be packed, by the names on its path. *)
Record Packed := mkPacked { p_fields : Fields; p_comps : list str; p_ino : Z; p_mode : Z; p_data : list Z }.
Definition packed_name (f : Packed) : str := drop 1 (slashed (p_comps f)).
Definition pack (f : Packed) : list Z := cpio_record (p_fields f) (packed_name f) (p_ino f) (p_mode f) (p_data f).
(** The end of an archive, with its own fields, number and mode. *)
Record Trailer := mkTrailer { t_fields : Fields; t_ino : Z; t_mode : Z }.
Record trailer_ok (t : Trailer) : Prop := { to_fields : fields_ok (t_fields t); to_ino : 0 <= t_ino t < 4294967296; to_mode : 0 <= t_mode t < 4294967296 }.
Definition trailer_bytes (t : Trailer) : list Z := cpio_end (t_fields t) (t_ino t) (t_mode t).
Definition pack_all (fs : list Packed) (t : Trailer) : list Z := mjoin (pack <$> fs) ++ trailer_bytes t.
Definition packed_kind (f : Packed) : option FileType :=
  if Z.land (p_mode f) 0xF000 =? 0x4000 then Some Directory else if Z.land (p_mode f) 0xF000 =? 0x8000 then Some Regular else None.
Record packed_ok (f : Packed) : Prop := {
  pk_fields : fields_ok (p_fields f);
  pk_names : Forall name (p_comps f); pk_some : p_comps f <> []; pk_utf8 : valid_utf8 (packed_name f) = true; pk_nul : 0 ∉ packed_name f;
  pk_end : packed_name f <> CPIO_TRAILER; pk_ino : 0 <= p_ino f < 4294967296; pk_mode : 0 <= p_mode f < 4294967296;
  pk_kind : is_Some (packed_kind f); pk_size : Z.of_nat (length (p_data f)) < 4294967296; pk_len : Z.of_nat (length (packed_name f)) < 4294967295
}.

(** ** Fields read back *)
Lemma length_hex up k n : length (hex up k n) = k.
Proof. revert n. induction k as [|k IH]; intros n; cbn [hex]; [done|]. rewrite length_app, IH. cbn. lia. Qed.
Lemma hex_digit_ok up d : 0 <= d < 16 -> to_digit (hex_digit up d) = Some d /\ 48 <= hex_digit up d < 128.
Proof.
  intros Hd. unfold hex_digit, to_digit. destruct (Z.ltb_spec d 10).
  - rewrite within_true by lia. split; [f_equal; lia|lia].
  - destruct up; [rewrite within_false, within_false, within_true by lia|rewrite within_false, within_true by lia]; (split; [f_equal; lia|lia]).
Qed.
Lemma hex_ascii up k n : Forall (fun b => 48 <= b < 128) (hex up k n).
Proof.
  revert n. induction k as [|k IH]; intros n; cbn [hex]; [constructor|]. apply Forall_app. split; [apply IH|]. apply Forall_singleton. apply hex_digit_ok. apply Z.mod_pos_bound. lia.
Qed.
Lemma hex_digits_app a b acc : hex_digits acc (a ++ b) = match hex_digits acc a with Some v => hex_digits v b | None => None end.
Proof.
  revert acc. induction a as [|c a IH]; intros acc; cbn [app hex_digits]; [done|]. destruct (to_digit c) as [d|]; [|done]. cbn [mbind option_bind].
  destruct (_ <? _); [apply IH|done].
Qed.
Lemma hex_digits_hex up k : forall n, 0 <= n < 16 ^ Z.of_nat k -> (k <= 8)%nat -> hex_digits 0 (hex up k n) = Some n.
Proof.
  induction k as [|k IH]; intros n Hn Hk; cbn [hex]; [cbn in *; f_equal; lia|]. rewrite Nat2Z.inj_succ, Z.pow_succ_r in Hn by lia.
  rewrite hex_digits_app, IH by (first [lia|split; [apply Z.div_pos; lia|apply Z.div_lt_upper_bound; lia]]). cbn [hex_digits].
  destruct (hex_digit_ok up (n mod 16)) as [-> _]; [apply Z.mod_pos_bound; lia|]. cbn [mbind option_bind]. rewrite <- (Z.div_mod n 16) by lia.
  destruct (Z.ltb_spec n 4294967296) as [|Hge]; [done|]. exfalso. assert (16 ^ Z.of_nat k <= 16 ^ 7) by (apply Z.pow_le_mono_r; lia). change (16 ^ 7) with 268435456 in *. lia.
Qed.
Lemma parse_hex up n : 0 <= n < 4294967296 -> parse_hex_field (hex up 8 n) = Ok n.
Proof.
  intros Hn. unfold parse_hex_field. rewrite valid_ascii by (eapply Forall_impl; [apply hex_ascii|]; cbn; intros; lia).
  unfold from_str_radix. pose proof (hex_digits_hex up 8 n Hn ltac:(lia)) as E. pose proof (hex_ascii up 8 n) as Ha. pose proof (length_hex up 8 n) as Hl.
  destruct (hex up 8 n) as [|c s]; [done|]. apply Forall_cons in Ha as [Hc _]. rewrite (proj2 (Z.eqb_neq c 43)) by lia. cbn [andb]. by rewrite E.
Qed.

Lemma length_pad4 n : Z.of_nat (n + length (pad4 n)) = 4 * ((Z.of_nat n + 3) / 4).
Proof.
  unfold pad4. rewrite length_replicate. pose proof (Z.mod_pos_bound (- Z.of_nat n) 4 ltac:(lia)). pose proof (Z.div_mod (- Z.of_nat n) 4 ltac:(lia)).
  pose proof (Z.mod_pos_bound (Z.of_nat n + 3) 4 ltac:(lia)). pose proof (Z.div_mod (Z.of_nat n + 3) 4 ltac:(lia)). lia.
Qed.
Lemma align4_pad pre n : (4 | pre) -> 0 <= pre -> pre + Z.of_nat n < 2 ^ 63 -> align4 (pre + Z.of_nat n) = pre + Z.of_nat (n + length (pad4 n)).
Proof.
  intros [k ->] Hp Hb. rewrite align4_eq by lia. rewrite length_pad4. replace (k * 4 + Z.of_nat n + 3) with (Z.of_nat n + 3 + k * 4) by lia. rewrite Z.div_add by lia. lia.
Qed.
Lemma length_cpio_magic x : length (cpio_magic x) = 6%nat.
Proof. unfold cpio_magic. by destruct (f_crc x). Qed.
Lemma length_cpio_header x ino mode a b : fields_ok x -> length (cpio_header x ino mode a b) = 110%nat.
Proof. intros []. unfold cpio_header. rewrite !length_app, !length_hex, length_cpio_magic. lia. Qed.
Lemma length_cpio x nm ino mode d : fields_ok x -> Z.of_nat (length (cpio_record x nm ino mode d)) = 4 * ((110 + Z.of_nat (length nm) + 1 + 3) / 4) + 4 * ((Z.of_nat (length d) + 3) / 4).
Proof.
  intros Hx. unfold cpio_record. rewrite !length_app, length_cpio_header by done. pose proof (length_pad4 (110 + length nm + 1)). pose proof (length_pad4 (length d)). cbn [length]. lia.
Qed.
Lemma until_nul_name nm : 0 ∉ nm -> until_nul (nm ++ [0]) = nm.
Proof.
  induction nm as [|b nm IH]; intros Hn; [done|]. cbn [app until_nul]. destruct (Z.eqb_spec b 0) as [->|]; [set_solver|]. by rewrite IH by set_solver.
Qed.
(** The header is parsed into its fields. *)
Lemma parse_header x pre ino mode a b rest : fields_ok x -> 0 <= ino < 4294967296 -> 0 <= mode < 4294967296 -> 0 <= a < 4294967296 -> 0 < b < 4294967296 ->
  let bytes := pre ++ cpio_header x ino mode a b ++ rest in
  parse_record bytes (Z.of_nat (length pre)) = parse_body bytes (Z.of_nat (length pre)) ino mode a b.
Proof.
  intros Hx Hi Hm Ha Hb bytes. unfold parse_record, CPIO_HEADER_LEN. rewrite sub_slice_in by (unfold bytes; rewrite ?length_app, ?length_cpio_header; (done || lia)). mstep.
  replace (Z.of_nat (length pre) + 110 - Z.of_nat (length pre)) with 110 by lia.
  assert (Hh : bytes_at bytes (Z.of_nat (length pre)) 110 = cpio_header x ino mode a b).
  { unfold bytes. rewrite bytes_at_skip, Z.sub_diag by lia. apply bytes_at_here. by rewrite length_cpio_header. }
  rewrite Hh. unfold cpio_header. clearbody bytes. destruct Hx as [Lo Ld Lc]. set (h := hex (f_upper x) 8).
  cbv zeta. assert (Lm : Z.of_nat (length (cpio_magic x)) = 6) by (by rewrite length_cpio_magic). rewrite (bytes_at_here (cpio_magic x)) by done.
  assert (Hmag : negb (bool_decide (cpio_magic x = CPIO_NEWC_MAGIC)) && negb (bool_decide (cpio_magic x = CPIO_CRC_MAGIC)) = false)
    by (unfold cpio_magic; destruct (f_crc x); by rewrite ?(bool_decide_eq_true_2 (CPIO_CRC_MAGIC = CPIO_CRC_MAGIC)), ?(bool_decide_eq_true_2 (CPIO_NEWC_MAGIC = CPIO_NEWC_MAGIC)), ?andb_false_r by done).
  rewrite Hmag. assert (L : forall y, Z.of_nat (length (h y)) = 8) by (intros; unfold h; by rewrite length_hex).
  assert (P : forall y, 0 <= y < 4294967296 -> parse_hex_field (h y) = Ok y) by (intros; by apply parse_hex).
  rewrite !(bytes_at_skip (cpio_magic x)) by (rewrite Lm; done). rewrite Lm.
  rewrite (bytes_at_here (h ino)) by (by rewrite L). rewrite P by done. rewrite !(bytes_at_skip (h ino)) by (rewrite L; done). rewrite L.
  rewrite (bytes_at_here (h mode)) by (by rewrite L). rewrite P by done. rewrite !(bytes_at_skip (h mode)) by (rewrite L; done). rewrite L.
  rewrite !(bytes_at_skip (f_owner x)) by (rewrite Lo; done). rewrite Lo. change (54 - 6 - 8 - 8 - Z.of_nat 32) with 0.
  rewrite (bytes_at_here (h a)) by (by rewrite L). rewrite P by done.
  rewrite !(bytes_at_skip (h a)) by (rewrite L; done). rewrite L. rewrite !(bytes_at_skip (f_device x)) by (rewrite Ld; done). rewrite Ld.
  change (94 - 6 - 8 - 8 - Z.of_nat 32 - 8 - Z.of_nat 32) with 0.
  rewrite (bytes_at_here (h b)) by (by rewrite L). rewrite P by lia. by rewrite (proj2 (Z.eqb_neq b 0)) by lia.
Qed.

(** ** Records read back *)
Lemma parse_cpio x pre nm ino mode d rest :
  fields_ok x -> (4 | Z.of_nat (length pre)) -> 0 <= ino < 4294967296 -> 0 <= mode < 4294967296 -> Z.of_nat (length d) < 4294967296 -> Z.of_nat (length nm) < 4294967295 ->
  valid_utf8 nm = true -> 0 ∉ nm ->
  let bytes := pre ++ cpio_record x nm ino mode d ++ rest in
  Z.of_nat (length bytes) < 2 ^ 62 ->
  let next := Z.of_nat (length (pre ++ cpio_record x nm ino mode d)) in
  parse_record bytes (Z.of_nat (length pre)) =
    if bool_decide (nm = CPIO_TRAILER) then Ret (Ok Stop)
    else match normalize_archive_path nm with
    | Err e => Ret (Err e)
    | Ok None => Ret (Ok (Next next None))
    | Ok (Some path) =>
        if bool_decide (path = lit "/") then Ret (Ok (Next next None))
        else if Z.land mode 0xF000 =? 0x4000 then Ret (Ok (Next next (Some (make_entry path ino mode Directory d))))
        else if Z.land mode 0xF000 =? 0x8000 then Ret (Ok (Next next (Some (make_entry path ino mode Regular d))))
        else Ret (Ok (Next next None))
    end.
Proof.
  intros Hx H4 Hi Hm Hd Hn Hv Hnul bytes Hlen next. set (hd := cpio_header x ino mode (Z.of_nat (length d)) (Z.of_nat (length nm) + 1)).
  set (p1 := pad4 (110 + length nm + 1)). set (p2 := pad4 (length d)).
  assert (Hb : bytes = pre ++ hd ++ (nm ++ [0]) ++ p1 ++ d ++ p2 ++ rest) by (unfold bytes, cpio_record; fold hd p1 p2; by rewrite <- !app_assoc).
  assert (Lh : length hd = 110%nat) by (by apply length_cpio_header). assert (Hl : length bytes = (length pre + 110 + (length nm + 1) + length p1 + length d + length p2 + length rest)%nat).
  { rewrite Hb, !length_app, Lh. cbn [length]. lia. }
  assert (Hnext : next = Z.of_nat (length pre) + 110 + (Z.of_nat (length nm) + 1) + Z.of_nat (length p1) + Z.of_nat (length d) + Z.of_nat (length p2)).
  { unfold next, cpio_record. fold hd p1 p2. rewrite !length_app, Lh. cbn [length]. lia. }
  rewrite Hb. unfold hd at 1. rewrite parse_header by (done || lia). fold hd. rewrite <- Hb. unfold parse_body, saturating_add64, CPIO_HEADER_LEN. cbv zeta.
  set (np := Z.of_nat (length pre)) in *. set (nn := Z.of_nat (length nm)) in *. set (nd := Z.of_nat (length d)) in *.
  assert (Hnp : 0 <= np) by lia. assert (Hnn : 0 <= nn) by lia. assert (Hnd : 0 <= nd) by lia.
  rewrite (Z.min_r U64_MAX (np + 110)), (Z.min_r U64_MAX (np + 110 + (nn + 1))) by lia. destruct (Z.ltb_spec (Z.of_nat (length bytes)) (np + 110 + (nn + 1))); [lia|].
  rewrite (sub_slice_in bytes (np + 110)) by lia. mstep.
  assert (E1 : bytes_at bytes (np + 110) (np + 110 + (nn + 1) - (np + 110)) = nm ++ [0]).
  { rewrite Hb, (bytes_at_skip pre), (bytes_at_skip hd) by lia. fold np. rewrite Lh. replace (np + 110 - np - Z.of_nat 110) with 0 by lia. apply bytes_at_here. rewrite length_app. cbn [length]. lia. }
  rewrite E1, until_nul_name, Hv by done. cbn [negb].
  assert (Ea : align4 (np + 110 + (nn + 1)) = np + 110 + (nn + 1) + Z.of_nat (length p1)).
  { replace (np + 110 + (nn + 1)) with (np + Z.of_nat (110 + length nm + 1)) by lia. rewrite align4_pad by (try done; lia). fold p1. lia. }
  rewrite Ea. set (c1 := np + 110 + (nn + 1) + Z.of_nat (length p1)) in *. rewrite (Z.min_r U64_MAX (c1 + nd)) by lia.
  destruct (Z.ltb_spec (Z.of_nat (length bytes)) (c1 + nd)); [lia|]. case_bool_decide; [done|]. rewrite sub_slice_in by lia. mstep.
  assert (E2 : bytes_at bytes c1 (c1 + nd - c1) = d).
  { rewrite Hb, (bytes_at_skip pre), (bytes_at_skip hd), (bytes_at_skip (nm ++ [0])), (bytes_at_skip p1) by (rewrite ?length_app; cbn [length]; lia).
    fold np. rewrite Lh, length_app. cbn [length]. replace (c1 - np - Z.of_nat 110 - Z.of_nat (length nm + 1) - Z.of_nat (length p1)) with 0 by lia. apply bytes_at_here. lia. }
  assert (H4' : (4 | c1)).
  { unfold c1. replace (np + 110 + (nn + 1) + Z.of_nat (length p1)) with (np + Z.of_nat (110 + length nm + 1 + length p1)) by lia.
    apply Z.divide_add_r; [done|]. unfold p1. rewrite length_pad4. by exists ((Z.of_nat (110 + length nm + 1) + 3) / 4); lia. }
  rewrite E2. assert (Ec : align4 (c1 + nd) = next) by (unfold nd; rewrite align4_pad by (try done; lia); fold p2; lia). by rewrite Ec.
Qed.
Lemma cpio_length_4 x nm ino mode d : fields_ok x -> (4 | Z.of_nat (length (cpio_record x nm ino mode d))).
Proof. intros Hx. rewrite length_cpio by done. apply Z.divide_add_r; by eexists; rewrite Z.mul_comm. Qed.

Definition packed_entry (f : Packed) : InitramfsEntry :=
  make_entry (slashed (p_comps f)) (p_ino f) (p_mode f) (default Unknown (packed_kind f)) (p_data f).
Lemma archive_loop_names comps : forall parts, Forall name comps -> archive_loop (slashed parts) comps = Ok (slashed (parts ++ comps)).
Proof.
  induction comps as [|c comps IH]; intros parts Hc; cbn [archive_loop]; [by rewrite app_nil_r|]. apply Forall_cons in Hc as [(H1 & H2 & H3 & H4) Hc].
  rewrite !bool_decide_eq_false_2 by done. cbn [orb]. replace (slashed parts ++ SLASH :: c) with (slashed (parts ++ [c])) by (rewrite slashed_app; cbn [slashed]; by rewrite app_nil_r).
  rewrite IH by done. by rewrite <- app_assoc.
Qed.
Lemma normalize_packed comps : Forall name comps -> comps <> [] -> drop 1 (slashed comps) <> CPIO_TRAILER ->
  normalize_archive_path (drop 1 (slashed comps)) = Ok (Some (slashed comps)).
Proof.
  intros Hc Hne Ht. unfold normalize_archive_path. rewrite bool_decide_eq_false_2 by done. cbv zeta.
  assert (Htrim : trim_end SLASH (drop 1 (slashed comps)) = drop 1 (slashed comps)).
  { unfold trim_end. rewrite trim_start_none; [apply reverse_involutive|]. pose proof (slashed_last comps Hc) as Hlast. destruct comps as [|x comps]; [done|].
    change (drop 1 (slashed (x :: comps))) with (x ++ slashed comps). change (slashed (x :: comps)) with (SLASH :: x ++ slashed comps) in Hlast.
    destruct (exists_last (l := x ++ slashed comps)) as (s & b & E); [|rewrite E in Hlast |- *; rewrite reverse_snoc; intros ->; by rewrite app_comm_cons, last_snoc in Hlast].
    apply Forall_cons in Hc as [(Hx & _) _]. by intros [? _]%app_eq_nil. }
  rewrite Htrim. pose proof Hc as Hc'. destruct comps as [|x comps]; [done|]. apply Forall_cons in Hc' as [(H1 & H2 & H3 & H4) Hc']. change (drop 1 (slashed (x :: comps))) with (x ++ slashed comps) in *.
  rewrite bool_decide_eq_false_2 by (by intros [? _]%app_eq_nil). rewrite bool_decide_eq_false_2.
  2:{ intros E. destruct comps as [|y comps]; [by rewrite app_nil_r in E|]. cbn [slashed] in E. assert (Hin : SLASH ∈ lit ".") by (rewrite <- E; set_solver).
      revert Hin. apply (bool_decide_unpack (SLASH ∉ lit ".")). vm_compute. exact I. }
  cbn [orb]. assert (Hs : split SLASH (x ++ slashed comps) = x :: comps).
  { pose proof (split_slashed (x :: comps) (names_no_slash _ Hc) Hne) as E. cbn [slashed] in E. rewrite split_cons_sep in E. by injection E. }
  rewrite Hs. change (archive_loop [] (x :: comps)) with (archive_loop (slashed []) (x :: comps)). rewrite archive_loop_names by done. done.
Qed.

Lemma parse_packed pre f rest : packed_ok f -> (4 | Z.of_nat (length pre)) -> Z.of_nat (length (pre ++ pack f ++ rest)) < 2 ^ 62 ->
  parse_record (pre ++ pack f ++ rest) (Z.of_nat (length pre)) = Ret (Ok (Next (Z.of_nat (length (pre ++ pack f))) (Some (packed_entry f)))).
Proof.
  intros [] H4 Hl. unfold pack in *. rewrite parse_cpio by done. rewrite bool_decide_eq_false_2 by done. unfold packed_name. rewrite normalize_packed by done.
  rewrite bool_decide_eq_false_2.
  2:{ intros E. destruct (p_comps f) as [|x comps]; [done|]. apply Forall_cons in pk_names0 as [(Hx & _) _]. cbn [slashed] in E. injection E as E. by apply app_eq_nil in E as [? _]. }
  unfold packed_entry. destruct pk_kind0 as [k Hk]. rewrite Hk. unfold packed_kind in Hk.
  destruct (_ =? 0x4000); [by injection Hk as <-|]. destruct (_ =? 0x8000); [by injection Hk as <-|done].
Qed.
Lemma parse_end pre t rest : trailer_ok t -> (4 | Z.of_nat (length pre)) -> Z.of_nat (length (pre ++ trailer_bytes t ++ rest)) < 2 ^ 62 ->
  parse_record (pre ++ trailer_bytes t ++ rest) (Z.of_nat (length pre)) = Ret (Ok Stop).
Proof.
  intros [] H4 Hl. unfold trailer_bytes, cpio_end in *. rewrite parse_cpio; [by rewrite bool_decide_eq_true_2|try done..].
  apply (bool_decide_unpack (0 ∉ CPIO_TRAILER)). vm_compute. exact I.
Qed.
Lemma length_trailer t : trailer_ok t -> length (trailer_bytes t) = 124%nat.
Proof. intros [H _ _]. apply Nat2Z.inj. unfold trailer_bytes, cpio_end. by rewrite length_cpio. Qed.

Lemma packed_path f : ent_path (packed_entry f) = slashed (p_comps f).
Proof. done. Qed.
Lemma length_pack f : packed_ok f -> (110 <= length (pack f))%nat.
Proof. intros []. unfold pack, cpio_record. rewrite length_app, length_cpio_header by done. lia. Qed.
Lemma parse_all fs t : trailer_ok t -> forall pre m rest fuel,
  Forall packed_ok fs -> (4 | Z.of_nat (length pre)) -> Z.of_nat (length (pre ++ pack_all fs t ++ rest)) < 2 ^ 62 -> (length fs < fuel)%nat ->
  parse_loop fuel (pre ++ pack_all fs t ++ rest) (Z.of_nat (length pre)) m = Ret (Ok (foldl (fun m f => <[slashed (p_comps f) := packed_entry f]> m) m fs)).
Proof.
  intros Ht. induction fs as [|f fs IH]; intros pre m rest fuel Hok H4 Hl Hf; (destruct fuel as [|fuel]; [cbn in Hf; lia|]); cbn [parse_loop].
  - change (pack_all [] t) with (trailer_bytes t) in *. pose proof (length_trailer t Ht) as He. pose proof Hl as Hl'. unfold saturating_add64, CPIO_HEADER_LEN. rewrite !length_app, He in Hl' |- *.
    rewrite Z.min_r by lia. destruct (Z.leb_spec (Z.of_nat (length pre) + 110) (Z.of_nat (length pre + (124 + length rest)))); [|lia].
    by rewrite parse_end.
  - apply Forall_cons in Hok as [Hfk Hok]. assert (Hall : pre ++ pack_all (f :: fs) t ++ rest = pre ++ pack f ++ pack_all fs t ++ rest).
    { unfold pack_all. change (mjoin (pack <$> f :: fs)) with (pack f ++ mjoin (pack <$> fs)). by rewrite <- !app_assoc. }
    rewrite Hall in Hl |- *. pose proof (length_pack f Hfk) as Hge.
    unfold saturating_add64, CPIO_HEADER_LEN. assert (Hl' := Hl). rewrite !length_app in Hl'. rewrite Z.min_r by lia.
    destruct (Z.leb_spec (Z.of_nat (length pre) + 110) (Z.of_nat (length (pre ++ pack f ++ pack_all fs t ++ rest)))); [|rewrite !length_app in *; lia].
    rewrite parse_packed by done. mstep. rewrite packed_path, (app_assoc pre). cbn [foldl]. apply IH; [done| | |cbn in Hf; lia].
    + rewrite length_app, Nat2Z.inj_add. apply Z.divide_add_r; [exact H4|unfold pack; apply cpio_length_4, Hfk].
    + by rewrite <- app_assoc.
Qed.

(** ** Finding what was packed *)
(** Of several files with one path the last counts. *)
Definition latest (comps : list str) (fs : list Packed) : option Packed := last (filter (fun f => p_comps f = comps) fs).
Definition packed_map (fs : list Packed) : gmap str InitramfsEntry := foldl (fun m f => <[slashed (p_comps f) := packed_entry f]> m) ∅ fs.
Lemma packed_wf f : packed_ok f -> entry_wf (packed_entry f).
Proof.
  intros []. unfold packed_entry. apply make_entry_wf; [by exists (p_comps f)|]. destruct pk_kind0 as [k Hk]. rewrite Hk. cbn. unfold packed_kind in Hk.
  destruct (_ =? 0x4000); [left; congruence|]. destruct (_ =? 0x8000); [right; congruence|done].
Qed.
Lemma packed_map_ok fs : Forall packed_ok fs -> by_path_ok (packed_map fs).
Proof.
  intros Hok. unfold packed_map. assert (Hm : by_path_ok ∅) by apply map_Forall_empty. revert Hm. generalize (∅ : gmap str InitramfsEntry) as m.
  induction Hok as [|f fs Hf _ IH]; intros m Hm; cbn [foldl]; [done|]. apply IH. apply map_Forall_insert_2; [split; [done|by apply packed_wf]|done].
Qed.
Lemma packed_map_lookup fs comps : Forall packed_ok fs -> Forall name comps -> comps <> [] -> packed_map fs !! slashed comps = packed_entry <$> latest comps fs.
Proof.
  intros Hok Hc Hne. induction fs as [|f fs IH] using rev_ind; [done|]. apply Forall_app in Hok as [Hok Hf]. rewrite Forall_singleton in Hf.
  unfold packed_map, latest. rewrite foldl_app, filter_app. cbn [foldl]. fold (packed_map fs). destruct (decide (p_comps f = comps)) as [E|E].
  - rewrite filter_cons_True, filter_nil by done. rewrite last_snoc, <- E. by rewrite lookup_insert_eq.
  - rewrite filter_cons_False, filter_nil, app_nil_r by done. rewrite lookup_insert_ne; [by apply IH|]. intros Es. apply E. apply (f_equal (split SLASH)) in Es.
    destruct Hf as [_ Hfn Hfs _ _ _ _ _ _ _ _]. rewrite (split_slashed (p_comps f) (names_no_slash _ Hfn) Hfs), (split_slashed comps (names_no_slash _ Hc) Hne) in Es. by injection Es.
Qed.
(** A path of the archive can be walked to its end. *)
Lemma walk_entry self e rest : forall d, store_ok self -> e ∈ store_entries self -> comps_of e = d ++ rest -> store_is_dir self (render d) = true \/ rest = [] ->
  walk (mkRam self (render d)) rest = Ok (mkRam self (render (d ++ rest))).
Proof.
  induction rest as [|n rest IH]; intros d Hs He Hc Hdir; cbn [walk]; [by rewrite app_nil_r|]. destruct Hdir as [Hdir|]; [|done].
  destruct (comps_of_wf e (store_wf _ _ Hs He)) as (Hn & _). rewrite Hc in Hn. apply Forall_app in Hn as [Hd Hnr]. apply Forall_cons in Hnr as [Hnn Hr]. pose proof Hnn as (H1 & _ & H2 & _).
  rewrite !bool_decide_eq_false_2 by done. cbn [orb]. pose proof (lookup_child_ok self d n Hs Hd Hnn Hdir) as Hl. cbn [lookup_child ram_vfs].
  assert (Hch : child_of d (comps_of e) = Some (n, rest)) by (by apply child_of_Some). destruct (ram_lookup _ n) as [i|err]; [|destruct Hl as [_ Hl]; exfalso; apply Hl; by exists e, rest].
  destruct Hl as [-> _]. assert (Ha : d ++ n :: rest = (d ++ [n]) ++ rest) by (by rewrite <- app_assoc). rewrite Ha. apply IH; [done|done|by rewrite Hc|].
  destruct rest as [|x rest]; [by right|]. left. apply is_dir_child; [done..|]. exists e, (x :: rest). done.
Qed.

Definition packed_meta (i : InitramfsInode) (comps : list str) (f : Packed) : Prop :=
  metadata i = Ok (mkMetadata (if p_ino f =? 0 then hash_path (slashed comps) else p_ino f) (default Unknown (packed_kind f)) (p_mode f)
                     (if decide (packed_kind f = Some Regular) then Z.of_nat (length (p_data f)) else 0) (if decide (packed_kind f = Some Directory) then 2 else 1)).

Lemma read_back fs t rest :
  Forall packed_ok fs -> trailer_ok t -> Z.of_nat (length (pack_all fs t ++ rest)) < 2 ^ 62 ->
  exists l, parse_archive (pack_all fs t ++ rest) = Ret (Ok l) /\
    forall comps f, latest comps fs = Some f -> exists i,
      walk (root (mkStore l)) comps = Ok i /\ packed_meta i comps f /\
      (packed_kind f = Some Regular -> forall off len, 0 <= off -> 0 <= len ->
         read_at i off len = Ok (take (Z.to_nat len) (drop (Z.to_nat off) (p_data f)))).
Proof.
  intros Hok Ht Hl. unfold parse_archive.
  pose proof (parse_all fs t Ht [] ∅ rest (S (length (pack_all fs t ++ rest))) Hok) as Hp. cbn [app length] in Hp. change (Z.of_nat 0) with 0 in Hp. rewrite Hp; [|by exists 0|exact Hl|].
  2:{ unfold pack_all. rewrite !length_app. assert (length fs <= length (mjoin (pack <$> fs)))%nat; [|lia]. clear -Hok. induction Hok as [|f fs Hf _ IH]; [done|].
      change (mjoin (pack <$> f :: fs)) with (pack f ++ mjoin (pack <$> fs)). rewrite length_app. pose proof (length_pack f Hf). cbn [length]. lia. }
  mstep. fold (packed_map fs). eexists. split; [done|]. set (self := mkStore _). pose proof (packed_map_ok fs Hok) as Hm.
  assert (Hperm : Permutation (store_entries self) ((map_to_list (packed_map fs)).*2)) by apply fmap_Permutation, sorted_pairs_perm.
  assert (Hs : store_ok self) by (by exists (packed_map fs)). intros comps f Hf.
  assert (Hfs : f ∈ fs /\ p_comps f = comps).
  { unfold latest in Hf. apply last_Some_elem_of in Hf. apply list_elem_of_filter in Hf as [? ?]. done. }
  destruct Hfs as [Hin Hcomps]. rewrite Forall_forall in Hok. destruct (Hok f Hin) as [_ Hn Hne _ _ _ Hino Hmode Hkind _ _]. rewrite Hcomps in Hn, Hne. rewrite <- Forall_forall in Hok.
  pose proof (packed_map_lookup fs comps Hok Hn Hne) as Hlk. rewrite Hf in Hlk. cbn in Hlk.
  assert (He : packed_entry f ∈ store_entries self) by (apply (store_elem self _ _ Hm Hperm); by rewrite packed_path, Hcomps).
  assert (Hce : comps_of (packed_entry f) = comps) by (apply slashed_comps; [by apply (store_wf self)|done|done|]; by rewrite packed_path, Hcomps).
  exists (mkRam self (render comps)). split; [apply (walk_entry self (packed_entry f) comps [] Hs He Hce); by left|].
  assert (Hfe : find_entry self (render comps) = Some (packed_entry f)).
  { apply find_entry_elem; [done|]. split; [done|]. rewrite packed_path, Hcomps. by destruct comps. }
  destruct Hkind as [k Hk]. assert (Hmz : p_mode f <> 0) by (unfold packed_kind in Hk; intros E; by rewrite E in Hk).
  split.
  - unfold packed_meta. cbn [metadata ram_vfs]. unfold ram_metadata. cbn [ram_store ram_path]. rewrite Hfe. unfold packed_entry, make_entry. rewrite Hcomps, Hk. cbn [ent_ino ent_kind ent_mode ent_data default from_option id].
    rewrite (proj2 (Z.eqb_neq _ _) Hmz). cbn [negb]. f_equal. f_equal.
    + by destruct (p_ino f =? 0).
    + destruct (decide (k = Regular)) as [->|Hk']; [by rewrite bool_decide_eq_true_2, decide_True|]. by rewrite bool_decide_eq_false_2, decide_False by congruence.
    + destruct (decide (k = Directory)) as [->|Hk']; [by rewrite bool_decide_eq_true_2, decide_True|]. by rewrite bool_decide_eq_false_2, decide_False by congruence.
  - intros Hreg off len Ho Hlen. cbn [read_at ram_vfs]. unfold ram_read_at, initramfs_read_file. cbn [ram_store ram_path]. rewrite Hfe. unfold packed_entry, make_entry. rewrite Hreg.
    cbn [ent_kind ent_data default from_option id]. rewrite bool_decide_eq_true_2 by done. destruct (Z.leb_spec (Z.of_nat (length (p_data f))) off); cbn [orb].
    + rewrite drop_ge by lia. by rewrite take_nil.
    + destruct (Z.eqb_spec len 0) as [->|]; [by rewrite take_0|]. f_equal. unfold bytes_at. destruct (Z.le_gt_cases len (Z.of_nat (length (p_data f)) - off)); [f_equal; lia|].
      rewrite !take_ge by (rewrite length_drop; lia). done.
Qed.

(** C18. The boot archive is read back: of the files and directories packed in the cpio format
    each is found under its path by walking from the root (the last one, when several have
    the same path), with the number, kind, mode and size it was packed with; and reading a
    file gives its contents, whatever follows the end of the archive.  The packer is free in
    the fields that the kernel ignores: user, group, links, time, device numbers and
    checksum are any bytes, the digits of the others have small or capital letters, and the
    record may be of either variant of the format.  The paths are made of names ([.] and
    [..] are none), in UTF-8 and without zero bytes, none is that of the end record, the modes
    say file or directory, and numbers, modes and lengths fit the 32 bits of their fields. *)
Theorem archives_read_back fs t rest :
  Forall packed_ok fs -> trailer_ok t -> Z.of_nat (length (pack_all fs t ++ rest)) < 2 ^ 62 ->
  exists l, parse_archive (pack_all fs t ++ rest) = Ret (Ok l) /\
    forall comps f, latest comps fs = Some f -> exists i,
      walk (root (mkStore l)) comps = Ok i /\ packed_meta i comps f /\
      (packed_kind f = Some Regular -> forall off len, 0 <= off -> 0 <= len ->
         read_at i off len = Ok (take (Z.to_nat len) (drop (Z.to_nat off) (p_data f)))).
Proof. apply read_back. Qed.

(** ** An archive of two files, one of them in a directory it does not list *)
Definition ex_fields : Fields := mkFields true true (hex true 8 1000 ++ hex true 8 100 ++ hex true 8 1 ++ hex true 8 0x6553F100) (replicate 32 48) (replicate 8 48).
Definition ex_packed : list Packed :=
  [mkPacked ex_fields [lit "etc"; lit "motd"] 7 0x81A4 (lit "old"); mkPacked ex_fields [lit "bin"] 0 0x41ED [];
   mkPacked ex_fields [lit "etc"; lit "motd"] 8 0x81A4 (lit "hello")].
Definition ex_trailer : Trailer := mkTrailer ex_fields 9 0.
Definition ex_archive : list Z := pack_all ex_packed ex_trailer ++ replicate 512 0.
Lemma ex_trailer_ok : trailer_ok ex_trailer.
Proof. by repeat split. Qed.
Lemma ex_packed_ok : Forall packed_ok ex_packed.
Proof.
  repeat (apply Forall_cons; split); [..|apply Forall_nil; done]; split; cbn [p_fields p_comps p_ino p_mode p_data]; try (by split);
    try (vm_compute; first [reflexivity|discriminate|split; [discriminate|reflexivity]]); try (apply (bool_decide_unpack _); vm_compute; exact I);
    try (by eexists); repeat (apply Forall_cons; split); try (apply Forall_nil; done); by apply (bool_decide_unpack _).
Qed.
Lemma archives_read_back_witness : exists l i, parse_archive ex_archive = Ret (Ok l) /\
  walk (root (mkStore l)) [lit "etc"; lit "motd"] = Ok i /\ read_at i 1 10 = Ok (lit "ello").
Proof.
  destruct (archives_read_back ex_packed ex_trailer (replicate 512 0) ex_packed_ok ex_trailer_ok) as (l & Hl & H); [vm_compute; reflexivity|].
  destruct (H [lit "etc"; lit "motd"] (mkPacked ex_fields [lit "etc"; lit "motd"] 8 0x81A4 (lit "hello"))) as (i & Hi & _ & Hr); [vm_compute; reflexivity|].
  exists l, i. split; [exact Hl|]. split; [exact Hi|]. rewrite (Hr eq_refl 1 10) by lia. vm_compute. reflexivity.
Defined.
Definition ex_list : list InitramfsEntry := match parse_archive ex_archive with Ret (Ok l) => l | _ => [] end.
Lemma ex_parsed : parse_archive ex_archive = Ret (Ok ex_list).
Proof. vm_compute. reflexivity. Qed.
Lemma archives_parse_to_directories_witness : exists entries,
  readdir (mkRam (mkStore ex_list) (lit "/")) = Ok entries /\ exists e, e ∈ entries /\ de_name e = lit "etc".
Proof.
  destruct (archives_parse_to_directories ex_archive) as (r & Hr & H); [vm_compute; reflexivity|]. assert (E : r = Ok ex_list) by (pose proof ex_parsed; congruence).
  destruct (H ex_list [] (lit "etc") E) as (entries & He & Hiff & _); [constructor|by apply (bool_decide_unpack _)|reflexivity|].
  exists entries. split; [exact He|]. apply Hiff. vm_compute. eexists. reflexivity.
Defined.

(** ** The packer of the repository: tools/mkinitramfs

    [src] of a node is modelled by the bytes that reading it gives; the lengths are written as
    [u32].  Collecting the nodes from a directory or from the command line is left out. *)
Record ArchiveNode := mkArchiveNode { nd_src : list Z; nd_dest : str; nd_mode : Z; nd_is_dir : bool }.

Definition write_header (out : list Z) (ino mode file_size name_size : Z) : list Z :=
  out ++ CPIO_NEWC_MAGIC ++ hex false 8 ino ++ hex false 8 mode ++
    lit "00000000" ++ lit "00000000" ++ lit "00000001" ++ lit "00000000" ++
    hex false 8 file_size ++
    lit "00000000" ++ lit "00000000" ++ lit "00000000" ++ lit "00000000" ++
    hex false 8 name_size ++ lit "00000000".

(** [while out.len() % 4 != 0 { out.push(0) }]: at most three rounds. *)
Fixpoint push_zeros (n : nat) (out : list Z) : list Z :=
  match n with
  | O => out
  | S n' => if negb (Z.of_nat (length out) mod 4 =? 0) then push_zeros n' (out ++ [0]) else out
  end.

Definition write_entry (out : list Z) (ino mode : Z) (dest : str) (data : list Z) : list Z :=
  let name_size := Z.of_nat (length dest) + 1 in
  let out := write_header out ino mode (Z.of_nat (length data) mod 4294967296) (name_size mod 4294967296) in
  let out := (out ++ dest) ++ [0] in
  let out := push_zeros 3 out in
  let out := out ++ data in
  push_zeros 3 out.

(** The two loops of [main] and the record at the end. *)
Fixpoint write_nodes (archive : list Z) (ino : Z) (nodes : list ArchiveNode) : list Z * Z :=
  match nodes with
  | [] => (archive, ino)
  | node :: nodes' =>
      let data := if nd_is_dir node then [] else nd_src node in
      write_nodes (write_entry archive ino (nd_mode node) (trim_start SLASH (nd_dest node)) data) (saturating_add32 ino 1) nodes'
  end.
Definition mkinitramfs (nodes : list ArchiveNode) : list Z :=
  let '(archive, ino) := write_nodes [] 1 (filter (fun node => nd_is_dir node = true) nodes) in
  let '(archive, ino) := write_nodes archive ino (filter (fun node => nd_is_dir node = false) nodes) in
  write_entry archive ino 0 CPIO_TRAILER [].

(** The nodes that [normalize_dest] and [mode_from_metadata] make: a path of names after a
    slash, and the mode with the kind of the node. *)
Record node_ok (node : ArchiveNode) : Prop := {
  no_dest : exists comps, Forall name comps /\ comps <> [] /\ nd_dest node = slashed comps;
  no_utf8 : valid_utf8 (nd_dest node) = true; no_nul : 0 ∉ nd_dest node; no_end : nd_dest node <> SLASH :: CPIO_TRAILER;
  no_mode : 0 <= nd_mode node < 4294967296 /\ Z.land (nd_mode node) 0xF000 = if nd_is_dir node then 0x4000 else 0x8000;
  no_size : Z.of_nat (length (nd_src node)) < 4294967296; no_len : Z.of_nat (length (nd_dest node)) < 4294967295
}.

Definition packer_fields : Fields :=
  mkFields false false (lit "00000000" ++ lit "00000000" ++ lit "00000001" ++ lit "00000000")
    (lit "00000000" ++ lit "00000000" ++ lit "00000000" ++ lit "00000000") (lit "00000000").
Lemma packer_fields_ok : fields_ok packer_fields.
Proof. by split. Qed.

Lemma push_zeros_pad out : push_zeros 3 out = out ++ pad4 (length out).
Proof.
  assert (Hn : forall k o, Z.of_nat (length o) mod 4 = (4 - Z.of_nat k) mod 4 -> (k <= 3)%nat -> push_zeros k o = o ++ replicate k 0).
  { induction k as [|k IH]; intros o Ho Hk; cbn [push_zeros replicate]; [by rewrite app_nil_r|].
    destruct (Z.eqb_spec (Z.of_nat (length o) mod 4) 0) as [E|E]; [exfalso; rewrite E in Ho; pose proof (Z.mod_small (4 - Z.of_nat (S k)) 4 ltac:(lia)); lia|].
    cbn [negb]. rewrite IH; [by rewrite <- app_assoc| |lia]. rewrite length_app, Nat2Z.inj_add. cbn [length].
    rewrite <- Zplus_mod_idemp_l, Ho, Zplus_mod_idemp_l. f_equal. lia. }
  assert (Hlt : forall k j o, Z.of_nat (length o) mod 4 = (4 - Z.of_nat k) mod 4 -> (k <= j)%nat -> (k <= 3)%nat -> push_zeros j o = push_zeros k o).
  { induction k as [|k IH]; intros j o Ho Hj Hk.
    - destruct j as [|j]; [done|]. cbn [push_zeros]. by rewrite Ho.
    - destruct j as [|j]; [lia|]. cbn [push_zeros]. destruct (negb _); [|done]. apply IH; [|lia|lia].
      rewrite length_app, Nat2Z.inj_add. cbn [length]. rewrite <- Zplus_mod_idemp_l, Ho, Zplus_mod_idemp_l. f_equal. lia. }
  set (k := Z.to_nat (- Z.of_nat (length out) mod 4)). pose proof (Z.mod_pos_bound (- Z.of_nat (length out)) 4 ltac:(lia)) as Hb.
  assert (Hk : Z.of_nat (length out) mod 4 = (4 - Z.of_nat k) mod 4).
  { unfold k. rewrite Z2Nat.id by lia. rewrite Zminus_mod_idemp_r. rewrite <- (Z_mod_plus_full (Z.of_nat (length out)) 1 4). f_equal. lia. }
  rewrite (Hlt k 3%nat out Hk) by lia. rewrite (Hn k out Hk) by lia. done.
Qed.

Lemma write_entry_record out ino mode nm d :
  (4 | Z.of_nat (length out)) -> Z.of_nat (length d) < 4294967296 -> Z.of_nat (length nm) < 4294967295 ->
  write_entry out ino mode nm d = out ++ cpio_record packer_fields nm ino mode d.
Proof.
  intros [k Hk] Hd Hn. unfold write_entry. rewrite !Z.mod_small by lia. cbv zeta. set (fs := Z.of_nat (length d)). set (ns := Z.of_nat (length nm) + 1).
  assert (Hh : write_header out ino mode fs ns = out ++ cpio_header packer_fields ino mode fs ns).
  { unfold write_header, cpio_header, packer_fields. cbn [cpio_magic f_crc f_upper f_owner f_device f_check]. by rewrite <- !app_assoc. }
  rewrite Hh. assert (Hp : forall a n, (4 | Z.of_nat a) -> pad4 (a + n) = pad4 n).
  { intros a n [j Hj]. unfold pad4. do 2 f_equal. rewrite Nat2Z.inj_add, Hj. replace (- (j * 4 + Z.of_nat n)) with (- Z.of_nat n + (- j) * 4) by lia. apply Z_mod_plus_full. }
  set (o := ((out ++ cpio_header packer_fields ino mode fs ns) ++ nm) ++ [0]). rewrite (push_zeros_pad o).
  assert (Lo : length o = (length out + (110 + length nm + 1))%nat) by (unfold o; rewrite !length_app, length_cpio_header by apply packer_fields_ok; cbn [length]; lia).
  rewrite Lo, Hp by (by exists k). rewrite push_zeros_pad. rewrite !length_app, Lo.
  replace (length out + (110 + length nm + 1) + length (pad4 (110 + length nm + 1)) + length d)%nat
    with (length out + (110 + length nm + 1 + length (pad4 (110 + length nm + 1))) + length d)%nat by lia.
  rewrite (Hp _ (length d)).
  2:{ rewrite Nat2Z.inj_add. apply Z.divide_add_r; [by exists k|]. rewrite length_pad4. by eexists; rewrite Z.mul_comm. }
  unfold o, cpio_record. by rewrite <- !app_assoc.
Qed.

(** The nodes as packed files, numbered from [ino] on. *)
Definition node_path (node : ArchiveNode) : list str := split SLASH (trim_start SLASH (nd_dest node)).
Fixpoint numbered (ino : Z) (nodes : list ArchiveNode) : list Packed :=
  match nodes with
  | [] => []
  | node :: nodes' =>
      mkPacked packer_fields (node_path node) ino (nd_mode node) (if nd_is_dir node then [] else nd_src node) :: numbered (saturating_add32 ino 1) nodes'
  end.

Lemma node_path_ok node : node_ok node ->
  Forall name (node_path node) /\ node_path node <> [] /\ nd_dest node = slashed (node_path node) /\ trim_start SLASH (nd_dest node) = drop 1 (slashed (node_path node)).
Proof.
  intros [(comps & Hc & Hne & Hd) _ _ _ _ _ _]. destruct comps as [|x comps]; [done|]. pose proof Hc as Hc'. apply Forall_cons in Hc' as [(Hx & Hsl & _) _].
  assert (Ht : trim_start SLASH (nd_dest node) = x ++ slashed comps).
  { rewrite Hd. cbn [slashed trim_start]. rewrite Z.eqb_refl. apply trim_start_none. destruct x as [|b x]; [done|]. cbn. intros ->. by apply Hsl; left. }
  assert (Hp : node_path node = x :: comps).
  { unfold node_path. rewrite Ht. pose proof (split_slashed (x :: comps) (names_no_slash _ Hc) Hne) as E. cbn [slashed] in E. rewrite split_cons_sep in E. by injection E. }
  rewrite Hp. split; [done|]. split; [done|]. split; [done|]. by rewrite Ht.
Qed.

Lemma numbered_ok node ino : node_ok node -> 0 <= ino < 4294967296 ->
  packed_ok (mkPacked packer_fields (node_path node) ino (nd_mode node) (if nd_is_dir node then [] else nd_src node)).
Proof.
  intros Hok Hi. destruct (node_path_ok node Hok) as (H1 & H2 & H3 & H4). pose proof Hok as [_ Hu Hz He [Hm Hk] Hs Hl].
  assert (Hd : nd_dest node = SLASH :: drop 1 (slashed (node_path node))) by (rewrite H3 at 1; destruct (node_path node); done).
  split; unfold packed_name; cbn [p_fields p_comps p_ino p_mode p_data]; try done.

  - rewrite Hd in Hu. unfold valid_utf8 in *. exact Hu.
  - rewrite Hd in Hz. set_solver.
  - intros E. apply He. by rewrite Hd, E.
  - unfold packed_kind. cbn [p_mode]. rewrite Hk. by destruct (nd_is_dir node).
  - destruct (nd_is_dir node); [cbn; lia|done].
  - rewrite Hd in Hl. cbn [length] in Hl. lia.
Qed.

Lemma next_number ino : 0 < ino < 4294967296 -> 0 < saturating_add32 ino 1 < 4294967296.
Proof. unfold saturating_add32. lia. Qed.
Lemma write_nodes_numbered nodes : forall out ino, Forall node_ok nodes -> (4 | Z.of_nat (length out)) -> 0 < ino < 4294967296 ->
  exists ino', write_nodes out ino nodes = (out ++ mjoin (pack <$> numbered ino nodes), ino') /\ 0 < ino' < 4294967296 /\
    (4 | Z.of_nat (length (out ++ mjoin (pack <$> numbered ino nodes)))) /\ Forall packed_ok (numbered ino nodes).
Proof.
  induction nodes as [|node nodes IH]; intros out ino Hok H4 Hi; cbn [write_nodes numbered]; [exists ino; change (mjoin (pack <$> [])) with (@nil Z); by rewrite app_nil_r|].
  apply Forall_cons in Hok as [Hn Hok]. pose proof (numbered_ok node ino Hn ltac:(lia)) as Hp. set (f := mkPacked _ _ _ _ _) in *.
  destruct (node_path_ok node Hn) as (_ & _ & _ & Ht). pose proof Hp as [_ _ _ _ _ _ _ _ _ Hs Hl]. unfold f, packed_name in Hs, Hl. cbn [p_comps p_data] in Hs, Hl.
  rewrite write_entry_record, Ht by (try done; rewrite ?Ht; done).
  change (cpio_record packer_fields (drop 1 (slashed (node_path node))) ino (nd_mode node) (if nd_is_dir node then [] else nd_src node)) with (pack f).
  destruct (IH (out ++ pack f) (saturating_add32 ino 1) Hok) as (ino' & E & Hi' & H4' & Hf).
  { rewrite length_app, Nat2Z.inj_add. apply Z.divide_add_r; [done|]. unfold pack. apply cpio_length_4, Hp. } { by apply next_number. }
  exists ino'. change (mjoin (pack <$> f :: numbered (saturating_add32 ino 1) nodes)) with (pack f ++ mjoin (pack <$> numbered (saturating_add32 ino 1) nodes)).
  rewrite <- app_assoc in E, H4'. split; [done|]. split; [done|]. split; [done|]. by constructor.
Qed.
Lemma numbered_elem nodes node : forall ino, 0 < ino < 4294967296 -> node ∈ nodes -> exists n, 0 < n < 4294967296 /\
  mkPacked packer_fields (node_path node) n (nd_mode node) (if nd_is_dir node then [] else nd_src node) ∈ numbered ino nodes.
Proof.
  induction nodes as [|x nodes IH]; intros ino Hi; [by intros ?%elem_of_nil|]. cbn [numbered]. intros [->|Hin]%elem_of_cons; [exists ino; split; [done|by left]|].
  destruct (IH _ (next_number _ Hi) Hin) as (n & Hn & Hf). exists n. split; [done|]. by right.
Qed.
Lemma numbered_comps nodes : forall ino, p_comps <$> numbered ino nodes = node_path <$> nodes.
Proof. induction nodes as [|x nodes IH]; intros ino; [done|]. cbn [numbered]. rewrite !fmap_cons, IH. done. Qed.
Lemma latest_unique fs f : NoDup (p_comps <$> fs) -> f ∈ fs -> latest (p_comps f) fs = Some f.
Proof.
  intros Hnd Hin. apply list_elem_of_split in Hin as (l1 & l2 & ->). rewrite fmap_app, fmap_cons in Hnd. apply NoDup_app in Hnd as (_ & H1 & H2). apply NoDup_cons in H2 as [H2 _].
  unfold latest. rewrite filter_app, filter_cons_True by done.
  assert (Hout : forall l, p_comps f ∉ p_comps <$> l -> filter (fun g => p_comps g = p_comps f) l = []).
  { intros l Hl. apply filter_none. apply Forall_forall. intros g Hg E. apply Hl. rewrite <- E. by apply list_elem_of_fmap_2. }
  rewrite (Hout l1), (Hout l2); [done|done|]. intros Hl. apply (H1 _ Hl). by left.
Qed.

(** C19. What the repository's packer writes the kernel reads back: in the archive that
    [mkinitramfs] makes of a set of files and directories with different paths, every one of
    them is found under its path, with its kind and mode and a number that is not zero, and
    reading a file gives its contents; whatever follows the archive.  The paths are made of
    names, in UTF-8 and without zero bytes, none is that of the end record, the modes carry
    the kind, and files are smaller than 4 GiB, the largest size the format can say. *)
Theorem packed_images_are_read nodes rest :
  Forall node_ok nodes -> NoDup (nd_dest <$> nodes) -> Z.of_nat (length (mkinitramfs nodes ++ rest)) < 2 ^ 62 ->
  exists l, parse_archive (mkinitramfs nodes ++ rest) = Ret (Ok l) /\
    forall node comps, node ∈ nodes -> Forall name comps -> nd_dest node = slashed comps -> exists i ino,
      walk (root (mkStore l)) comps = Ok i /\ 0 < ino /\
      metadata i = Ok (if nd_is_dir node then mkMetadata ino Directory (nd_mode node) 0 2
                       else mkMetadata ino Regular (nd_mode node) (Z.of_nat (length (nd_src node))) 1) /\
      (nd_is_dir node = false -> forall off len, 0 <= off -> 0 <= len ->
         read_at i off len = Ok (take (Z.to_nat len) (drop (Z.to_nat off) (nd_src node)))).
Proof.
  intros Hok Hnd Hl. set (dirs := filter (fun node => nd_is_dir node = true) nodes). set (files := filter (fun node => nd_is_dir node = false) nodes).
  assert (Hsub : forall (P : ArchiveNode -> Prop) `{forall x, Decision (P x)}, Forall node_ok (filter P nodes)).
  { intros P ?. apply Forall_forall. intros x [_ Hx]%list_elem_of_filter. by eapply Forall_forall in Hok. }
  pose proof (Hsub (fun node => nd_is_dir node = true) _ : Forall node_ok dirs) as Hd. pose proof (Hsub (fun node => nd_is_dir node = false) _ : Forall node_ok files) as Hf. clear Hsub.
  destruct (write_nodes_numbered dirs [] 1 Hd) as (i2 & E1 & Hi2 & H41 & P1); [by exists 0|lia|].
  destruct (write_nodes_numbered files _ i2 Hf H41 Hi2) as (i3 & E2 & Hi3 & H42 & P2). cbn [app] in E1, E2, H41, H42.
  set (fs := numbered 1 dirs ++ numbered i2 files).
  assert (Eall : mkinitramfs nodes = pack_all fs (mkTrailer packer_fields i3 0)).
  { unfold mkinitramfs. fold dirs files. rewrite E1, E2. rewrite write_entry_record by done. unfold pack_all, trailer_bytes, cpio_end, fs. cbn [t_fields t_ino t_mode].
    by rewrite fmap_app, join_app, <- app_assoc. }
  rewrite Eall in Hl |- *. assert (Hfs : Forall packed_ok fs) by (by apply Forall_app).
  destruct (read_back fs (mkTrailer packer_fields i3 0) rest Hfs) as (l & Hp & Hall); [split; [apply packer_fields_ok|cbn; lia..]|done|].
  exists l. split; [done|]. intros node comps Hin Hc Hdest. rewrite Forall_forall in Hok. pose proof (Hok node Hin) as Hn. destruct (node_path_ok node Hn) as (Hpn & Hpne & Hpd & _).
  assert (comps = node_path node) as ->.
  { rewrite Hpd in Hdest. destruct comps as [|x comps]; [by destruct (node_path node)|]. apply (f_equal (split SLASH)) in Hdest.
    rewrite (split_slashed (node_path node) (names_no_slash _ Hpn) Hpne), (split_slashed (x :: comps) (names_no_slash _ Hc)) in Hdest by done. by injection Hdest as <-. }
  assert (Hnum : exists n, 0 < n < 4294967296 /\ mkPacked packer_fields (node_path node) n (nd_mode node) (if nd_is_dir node then [] else nd_src node) ∈ fs).
  { unfold fs. destruct (nd_is_dir node) eqn:Ed.
    - destruct (numbered_elem dirs node 1) as (n & ? & Hn1); [lia|apply list_elem_of_filter; done|]. rewrite Ed in Hn1. exists n. split; [done|]. apply elem_of_app. by left.
    - destruct (numbered_elem files node i2) as (n & ? & Hn1); [lia|apply list_elem_of_filter; done|]. rewrite Ed in Hn1. exists n. split; [done|]. apply elem_of_app. by right. }
  destruct Hnum as (n & Hn0 & Hfin). set (f := mkPacked _ _ _ _ _) in Hfin.
  assert (Hcomps : NoDup (p_comps <$> fs)).
  { unfold fs. rewrite fmap_app, !numbered_comps, <- fmap_app. assert (Hperm : dirs ++ files ≡ₚ nodes).
    { unfold dirs, files. clear. induction nodes as [|x nodes IH]; [done|]. rewrite !filter_cons. destruct (nd_is_dir x) eqn:E; [rewrite decide_True, decide_False by done|rewrite decide_False, decide_True by done].
      - cbn [app]. by rewrite IH.
      - by rewrite <- Permutation_middle, IH. }
    rewrite Hperm. apply (NoDup_fmap_1 slashed). rewrite <- list_fmap_compose.
    replace (slashed ∘ node_path <$> nodes) with (nd_dest <$> nodes); [done|]. apply list_fmap_ext. intros k x Hx. apply list_elem_of_lookup_2 in Hx. by apply node_path_ok, Hok. }
  destruct (Hall (node_path node) f (latest_unique fs f Hcomps Hfin)) as (i & Hw & Hm & Hr). exists i, n. split; [done|]. split; [lia|].
  destruct (no_mode _ Hn) as [_ Hk]. assert (Hkind : packed_kind f = Some (if nd_is_dir node then Directory else Regular)).
  { unfold packed_kind. cbn [p_mode f]. rewrite Hk. by destruct (nd_is_dir node). }
  unfold packed_meta in Hm. rewrite Hkind in Hm, Hr. cbn [p_ino p_mode p_data f] in Hm, Hr. rewrite (proj2 (Z.eqb_neq n 0)) in Hm by lia.
  split; [rewrite Hm; by destruct (nd_is_dir node)|]. intros Ed. rewrite Ed in Hr. by apply Hr.
Qed.

Definition ex_nodes : list ArchiveNode :=
  [mkArchiveNode [] (lit "/bin") 0x41ED true; mkArchiveNode (lit "#!echo") (lit "/bin/hello") 0x81ED false].
Lemma ex_nodes_ok : Forall node_ok ex_nodes.
Proof.
  repeat (apply Forall_cons; split); [..|apply Forall_nil; done]; split; cbn [nd_src nd_dest nd_mode nd_is_dir];
    try (vm_compute; first [reflexivity|discriminate|split; [split; [discriminate|reflexivity]|reflexivity]]); try (apply (bool_decide_unpack _); vm_compute; exact I);
    [exists [lit "bin"]|exists [lit "bin"; lit "hello"]]; split_and!; try done; repeat (apply Forall_cons; split); try (apply Forall_nil; done); by apply (bool_decide_unpack _).
Qed.
Lemma packed_images_are_read_witness : exists l i, parse_archive (mkinitramfs ex_nodes) = Ret (Ok l) /\
  walk (root (mkStore l)) [lit "bin"; lit "hello"] = Ok i /\ read_at i 2 100 = Ok (lit "echo").
Proof.
  destruct (packed_images_are_read ex_nodes [] ex_nodes_ok) as (l & Hl & H); [apply (bool_decide_unpack _); vm_compute; exact I|vm_compute; reflexivity|].
  destruct (H (mkArchiveNode (lit "#!echo") (lit "/bin/hello") 0x81ED false) [lit "bin"; lit "hello"]) as (i & ino & Hi & _ & _ & Hr);
    [right; left|apply (bool_decide_unpack _); vm_compute; exact I|reflexivity|].
  exists l, i. rewrite app_nil_r in Hl. split; [exact Hl|]. split; [exact Hi|]. rewrite (Hr eq_refl 2 100) by lia. vm_compute. reflexivity.
Defined.
