(* ===== verification/FsBoot.v ===== *)
(** * Mounting: the rest of kernel/src/fs/runtime/manager.rs

    The file systems of the kernel behind one interface, and what puts them together: the
    initialisation from the boot archive and the boot disk, and the calls that mount
    partitions and disk images.  The boot archive and FAT32 are the modelled ones; ext4 and
    procfs are known here by the interface [Vfs] only. *)

From stdpp Require Import strings sorting.
From S2P Require Import Prelude Errno FsPath FsMount FsTable Utf8 Block Fat32 Initramfs.
#[local] Open Scope Z_scope.

Section Boot.
Context {Ext4 Ext4Inode : Type} {ext4_vfs : Vfs Ext4 Ext4Inode} (ext4_mount : BlockDevice -> Result Ext4 FsError).
Context {Proc ProcInode : Type} {proc_vfs : Vfs Proc ProcInode} (procfs : Proc).
(** [block::boot_device], and the process table as paths see it. *)
Context (boot_device : option BlockDevice) (proc_self_target_pid : Z -> option Z).

(** ** One type of file systems: [Arc<dyn FileSystem>] *)
Inductive AnyFs := RamFs (fs : InitramfsStore) | FatFs (fs : Fat32FileSystem) | ExtFs (fs : Ext4) | ProcFs (fs : Proc).
Inductive AnyInode := RamIn (i : InitramfsInode) | FatIn (i : Fat32Inode) | ExtIn (i : Ext4Inode) | ProcIn (i : ProcInode).
Definition in_ok {I} (wrap : I -> AnyInode) (r : Result I FsError) : Result AnyInode FsError := match r with Ok i => Ok (wrap i) | Err e => Err e end.
#[export] Instance any_vfs : Vfs AnyFs AnyInode := {|
  fs_name f := match f with RamFs f => fs_name f | FatFs f => fs_name f | ExtFs f => fs_name f | ProcFs f => fs_name f end;
  root f := match f with RamFs f => RamIn (root f) | FatFs f => FatIn (root f) | ExtFs f => ExtIn (root f) | ProcFs f => ProcIn (root f) end;
  statfs f := match f with RamFs f => statfs f | FatFs f => statfs f | ExtFs f => statfs f | ProcFs f => statfs f end;
  metadata i := match i with RamIn i => metadata i | FatIn i => metadata i | ExtIn i => metadata i | ProcIn i => metadata i end;
  lookup_child i n :=
    match i with
    | RamIn i => in_ok RamIn (lookup_child i n) | FatIn i => in_ok FatIn (lookup_child i n)
    | ExtIn i => in_ok ExtIn (lookup_child i n) | ProcIn i => in_ok ProcIn (lookup_child i n)
    end;
  readdir i := match i with RamIn i => readdir i | FatIn i => readdir i | ExtIn i => readdir i | ProcIn i => readdir i end;
  read_at i off len := match i with RamIn i => read_at i off len | FatIn i => read_at i off len | ExtIn i => read_at i off len | ProcIn i => read_at i off len end |}.

(** ** State *)
Record MountSourceRecord := mkSource { ms_source : str; ms_fs_type : str; ms_partition : Partition }.
Record FsMountSource := mkFsSource { so_source : str; so_fs_type : str; so_start_lba : Z; so_block_count : Z }.
Record FsMountEntry := mkFsMountEntry { fm_target : str; fm_fs_type : str; fm_source : option str }.
(** The boot archive, the mount table, the field [mount_sources] of the runtime and its other
    fields are separate globals or one locked record in the code. *)
Record Runtime := mkRuntime { store : InitramfsStore; table : @MountTable AnyFs; mount_sources : list MountSourceRecord; fs_state : @FsState AnyFs AnyInode }.
Definition set_store (x : InitramfsStore) (rt : Runtime) : Runtime := mkRuntime x (table rt) (mount_sources rt) (fs_state rt).
Definition set_table (x : MountTable) (rt : Runtime) : Runtime := mkRuntime (store rt) x (mount_sources rt) (fs_state rt).
Definition set_sources (x : list MountSourceRecord) (rt : Runtime) : Runtime := mkRuntime (store rt) (table rt) x (fs_state rt).
Definition set_fs_state (x : FsState) (rt : Runtime) : Runtime := mkRuntime (store rt) (table rt) (mount_sources rt) x.

(** ** Start-up *)
Definition init_from_phys (archive : list Z) (rt : Runtime) : exec (Result unit FsError * Runtime) :=
  if bool_decide (archive = []) then Ret (Ok tt, set_store (mkStore []) rt)
  else
    r ← parse_archive archive;
    match r with
    | Err e => Ret (Err e, rt)
    | Ok entries => Ret (Ok tt, set_store (mkStore entries) rt)
    end.

(** Which file systems a partition can be mounted as. *)
Definition probe_partition (partitioned : PartitionedDevice) (part : Partition) : list MountSourceRecord :=
  let source := dev_name (pd_device partitioned) ++ lit "p" ++ decimal (index part) in
  match open_partition source partitioned (index part) with
  | Err _ => []
  | Ok part_dev =>
      (if is_ok (fat_mount part_dev) then [mkSource source (lit "fat32") part] else []) ++
      (if is_ok (ext4_mount part_dev) then [mkSource source (lit "ext4") part] else [])
  end.
Definition discover_disk_mount_sources (rt : Runtime) : Runtime :=
  match boot_device with
  | None => set_sources [] rt
  | Some block_dev =>
      match discover_partitions block_dev with
      | Err _ => set_sources [] rt
      | Ok partitioned => set_sources (partitions partitioned ≫= probe_partition partitioned) rt
      end
  end.

Record FsInitReport := mkReport { initramfs_present : bool; rootfs : str; disk_mount : option str }.
Definition init_runtime (initramfs : option (list Z)) (rt : Runtime) : exec (FsInitReport * Runtime) :=
  rt ← match initramfs with
       | Some archive =>
           '(r, rt') ← init_from_phys archive rt;
           match r with Ok _ => Ret rt' | Err _ => '(_, rt'') ← init_from_phys [] rt'; Ret rt'' end
       | None => '(_, rt') ← init_from_phys [] rt; Ret rt'
       end;
  let rt := set_table (mount_root (RamFs (store rt)) (table rt)) rt in
  let rt := set_table (mount (lit "/proc") (ProcFs procfs) (Some (lit "proc")) (table rt)).2 rt in
  Ret (mkReport (bool_decide (is_Some initramfs)) (lit "initramfs") None, discover_disk_mount_sources rt).

Definition list_available_mount_sources (rt : Runtime) : list FsMountSource :=
  (fun entry => mkFsSource (ms_source entry) (ms_fs_type entry) (start_lba (ms_partition entry)) (part_blocks (ms_partition entry))) <$> mount_sources rt.
Definition list_mounts (rt : Runtime) : list FsMountEntry := (fun entry => mkFsMountEntry (me_target entry) (me_fs_name entry) (me_source entry)) <$> snapshot (table rt).

(** ** Mounting *)
(** The target of a mount must be a directory. *)
Definition check_target (rt : Runtime) (target : str) : Result unit FsError :=
  match lookup_path (table rt) target with
  | Err e => Err e
  | Ok inode =>
      match metadata inode with
      | Err e => Err e
      | Ok meta => if negb (bool_decide (md_file_type meta = Directory)) then Err NotDirectory else Ok tt
      end
  end.
Definition mount_in (target : str) (fs : AnyFs) (source : str) (rt : Runtime) : Result unit FsError * Runtime :=
  let (r, table') := mount target fs (Some source) (table rt) in (r, set_table table' rt).

Definition mount_partition_source (source target fs_type : str) (rt : Runtime) : Result unit FsError * Runtime :=
  match filter (fun entry => ms_source entry = source /\ ms_fs_type entry = fs_type) (mount_sources rt) with
  | [] => (Err NotFound, rt)
  | record :: _ =>
      match check_target rt target with
      | Err e => (Err e, rt)
      | Ok _ =>
          match boot_device with
          | None => (Err NotFound, rt)
          | Some block_dev =>
              match discover_partitions block_dev with
              | Err _ => (Err Io, rt)
              | Ok partitioned =>
                  match open_partition source partitioned (index (ms_partition record)) with
                  | Err _ => (Err NotFound, rt)
                  | Ok part_dev =>
                      if bool_decide (fs_type = lit "fat32") then
                        match fat_mount part_dev with Err _ => (Err InvalidInput, rt) | Ok fs => mount_in target (FatFs fs) source rt end
                      else if bool_decide (fs_type = lit "ext4") then
                        match ext4_mount part_dev with Err _ => (Err InvalidInput, rt) | Ok fs => mount_in target (ExtFs fs) source rt end
                      else if bool_decide (fs_type = lit "procfs") then mount_in target (ProcFs procfs) source rt
                      else (Err NotSupported, rt)
                  end
              end
          end
      end
  end.

(** The device on a file, of the boot archive or of another file system. *)
Definition image_device (source : str) (inode : AnyInode) (size : Z) (rt : Runtime) : Result BlockDevice FsError :=
  let r := match initramfs_read_file (store rt) source with
           | Some data => from_initramfs source data 512
           | None => from_inode source inode size 512
           end in
  match r with Ok dev => Ok (file_device dev) | Err _ => Err InvalidInput end.
Definition mount_file_source (source target fs_type : str) (rt : Runtime) : Result unit FsError * Runtime :=
  match lookup_path (table rt) source with
  | Err e => (Err e, rt)
  | Ok source_inode =>
      match metadata source_inode with
      | Err e => (Err e, rt)
      | Ok source_meta =>
          if negb (bool_decide (md_file_type source_meta = Regular)) then (Err NotFound, rt)
          else match image_device source source_inode (md_size source_meta) rt with
          | Err e => (Err e, rt)
          | Ok block_dev =>
              match check_target rt target with
              | Err e => (Err e, rt)
              | Ok _ =>
                  if bool_decide (fs_type = lit "fat32") then
                    match fat_mount block_dev with Err _ => (Err InvalidInput, rt) | Ok fs => mount_in target (FatFs fs) source rt end
                  else if bool_decide (fs_type = lit "ext4") then
                    match ext4_mount block_dev with Err _ => (Err InvalidInput, rt) | Ok fs => mount_in target (ExtFs fs) source rt end
                  else (Err NotSupported, rt)
              end
          end
      end
  end.

Definition in_errno {A} (r : Result unit FsError * A) : Result unit Z * A := (map_err r.1, r.2).
Definition resolve_in (pid : Z) (path : str) (rt : Runtime) : Result str Z * Runtime :=
  let (r, s) := resolve_path_for_pid proc_self_target_pid pid path (fs_state rt) in (r, set_fs_state s rt).
Definition contains_slash (s : str) : bool := bool_decide (SLASH ∈ s).

Definition mount_source_for_pid (pid : Z) (source target fs_type : str) (rt : Runtime) : Result unit Z * Runtime :=
  if bool_decide (fs_type = lit "procfs") then
    let (r, rt) := resolve_in pid target rt in
    match r with
    | Err e => (Err e, rt)
    | Ok target =>
        match check_target rt target with
        | Err e => (Err (errno e), rt)
        | Ok _ => in_errno (mount_in target (ProcFs procfs) (if bool_decide (source = []) then lit "proc" else source) rt)
        end
    end
  else if contains_slash source then
    let (r, rt) := resolve_in pid source rt in
    match r with
    | Err e => (Err e, rt)
    | Ok resolved => in_errno (mount_file_source resolved target fs_type rt)
    end
  else in_errno (mount_partition_source source target fs_type rt).

Definition umount_target (target : str) (rt : Runtime) : Result unit Z * Runtime :=
  let (r, table') := umount target (table rt) in (map_err r, set_table table' rt).

Definition remount_target (target : str) (rt : Runtime) : Result unit Z * Runtime :=
  match normalize_path (lit "/") target with
  | Err e => (Err (errno e), rt)
  | Ok target_norm =>
      match filter (fun entry => fm_target entry = target_norm) (list_mounts rt) with
      | [] => (Err ENOENT, rt)
      | entry :: _ =>
          match fm_source entry with
          | None => (Err EINVAL, rt)
          | Some source =>
              let (r, rt) := umount_target target_norm rt in
              match r with
              | Err e => (Err e, rt)
              | Ok _ =>
                  if contains_slash source then in_errno (mount_file_source source target_norm (fm_fs_type entry) rt)
                  else if bool_decide (fm_fs_type entry = lit "procfs") then in_errno (mount_in target_norm (ProcFs procfs) source rt)
                  else in_errno (mount_partition_source source target_norm (fm_fs_type entry) rt)
              end
          end
      end
  end.

(** ** Calls that take paths, in this system *)
Definition open_in (pid : Z) (path : str) (flags : Z) (rt : Runtime) : exec (Result Z Z * Runtime) :=
  '(r, s) ← open_path_for_pid (table rt) proc_self_target_pid (initramfs_read_file (store rt)) pid path flags (fs_state rt);
  Ret (r, set_fs_state s rt).
Definition read_in (pid fd len : Z) (rt : Runtime) : Result (list Z) Z * Runtime :=
  let (r, s) := read_for_pid pid fd len (fs_state rt) in (r, set_fs_state s rt).
End Boot.
