(* ===== verification/FsBootTheorems.v ===== *)
(** * From a partition to the bytes a process reads *)

From stdpp Require Import strings sorting.
From S2P Require Import Prelude Errno FsPath FsMount FsTable FsDesc FsRun FsFiles Utf8 Block BlockTheorems Fat32 Fat32Chains Initramfs FsBoot.
#[local] Open Scope Z_scope.

(** ** Partitions *)
Lemma discovered_inside d pd : fills d -> block_count d < u64_size -> discover_partitions d = Ok pd -> pd_device pd = d /\ Forall (inside (block_count d)) (partitions pd).
Proof.
  intros Hd Ht. unfold discover_partitions. destruct (parse_gpt_partitions d) as [[ps|]|] eqn:Eg; [| |done].
  - intros [= <-]. split; [done|]. apply gpt_inside; [done|lia|done].
  - destruct (parse_mbr_partitions d) as [[ps|]|] eqn:Em; [|done|done]. intros [= <-]. split; [done|]. by apply mbr_inside.
Qed.
Lemma partition_fills d nm p : fills d -> fills (partition_device d nm p).
Proof. intros Hd lba buf. cbn. destruct (translate_lba p lba); [|done]. apply Hd. Qed.

(** ** Volumes *)
Lemma clusters_data_length fs chain data : volume_ok fs -> clusters_data fs chain = Ok data -> Z.of_nat (length data) = Z.of_nat (length chain) * cluster_size (bpb fs).
Proof.
  intros Hv. revert data. induction chain as [|c chain IH]; intros data; cbn [clusters_data]; [by intros [= <-]|].
  destruct (read_cluster fs c) as [d|] eqn:Ec; [|done]. destruct (clusters_data fs chain) as [rest|]; [|done]. intros [= <-].
  rewrite length_app. destruct (read_cluster_length _ _ _ Hv Ec) as [Hl _]. specialize (IH rest eq_refl). cbn [length]. lia.
Qed.
Lemma file_bytes_small fs node content : volume_ok fs -> file_bytes fs node = Ok content -> Z.of_nat (length content) < 2 ^ 62.
Proof.
  intros Hv. unfold file_bytes. destruct (collect_chain fs _) as [chain|] eqn:Ec; [|done]. destruct (clusters_data fs chain) as [data|] eqn:Ed; [|done]. intros [= <-].
  pose proof (collect_chain_length _ _ _ Ec). pose proof (clusters_data_length _ _ _ Hv Ed) as Hl. destruct Hv. unfold cluster_size in Hl. rewrite length_take.
  assert (bytes_per_sector (bpb fs) * sectors_per_cluster (bpb fs) <= 65535 * 255) by (apply Z.mul_le_mono_nonneg; lia).
  assert (0 <= bytes_per_sector (bpb fs) * sectors_per_cluster (bpb fs)) by (apply Z.mul_nonneg_nonneg; lia).
  assert (Z.of_nat (length data) <= 4294967295 * (65535 * 255)) by (rewrite Hl; apply Z.mul_le_mono_nonneg; lia). lia.
Qed.

Section Boot.
Context {Ext4 Ext4Inode : Type} {ext4_vfs : Vfs Ext4 Ext4Inode} (ext4_mount : BlockDevice -> Result Ext4 FsError).
Context {Proc ProcInode : Type} {proc_vfs : Vfs Proc ProcInode} (procfs : Proc).
Context (boot_device : option BlockDevice) (proc_self_target_pid : Z -> option Z).
Abbreviation Rt := (@Runtime Ext4 Ext4Inode Proc ProcInode).
Abbreviation AnyInode := (@AnyInode Ext4Inode ProcInode).
Abbreviation AnyFs := (@AnyFs Ext4 Proc).
Implicit Types rt : Rt.

Lemma walk_fat (i : Fat32Inode) comps : walk (FatIn i : AnyInode) comps = in_ok FatIn (walk i comps).
Proof.
  revert i. induction comps as [|c comps IH]; intros i; cbn [walk]; [done|]. destruct (_ || _); [apply IH|]. cbn [lookup_child any_vfs].
  destruct (lookup_child i c) as [i'|]; cbn [in_ok]; [apply IH|done].
Qed.

(** ** Mounting *)
Lemma mount_in_ok target (fs : AnyFs) source rt r rt' : table_ok (table rt) -> target <> [] -> mount_in target fs source rt = (r, rt') ->
  table_ok (table rt') /\ store rt' = store rt /\ fs_state rt' = fs_state rt /\
  (r = Ok tt -> forall d, Forall name d -> mounted (table rt') d = if decide (d = go [] target) then Some fs else mounted (table rt) d).
Proof.
  intros Ht Hne. unfold mount_in. pose proof (mount_ok (table rt) target fs (Some source) Ht Hne) as Hm. cbv zeta in Hm.
  destruct (mount target fs (Some source) (table rt)) as [r' t']. intros [= <- <-]. cbn. destruct Hm as [Hok Hm]. split; [done|]. split; [done|]. split; [done|].
  intros ->. destruct Hm as [(_ & _ & Hm)|(? & _)]; done.
Qed.
Lemma mount_partition_fat disk source target rt rt' :
  boot_device = Some disk -> fills disk -> block_count disk < u64_size -> table_ok (table rt) -> target <> [] ->
  mount_partition_source ext4_mount procfs boot_device source target (lit "fat32") rt = (Ok tt, rt') ->
  exists p vol, inside (block_count disk) p /\ fat_mount (partition_device disk source p) = Ok vol /\ table_ok (table rt') /\ store rt' = store rt /\ fs_state rt' = fs_state rt /\
    (forall d, Forall name d -> mounted (table rt') d = if decide (d = go [] target) then Some (FatFs vol) else mounted (table rt) d).
Proof.
  intros Hb Hd Ht Htab Hne. unfold mount_partition_source. destruct (filter _ _) as [|record records]; [done|]. destruct (check_target rt target); [|done]. rewrite Hb.
  destruct (discover_partitions disk) as [pd|] eqn:Epd; [|done]. apply discovered_inside in Epd as [Edev Hin]; [|done|done].
  unfold open_partition. destruct (partition_of pd _) as [p|] eqn:Ep; [|done]. rewrite Edev, bool_decide_eq_true_2 by done.
  destruct (fat_mount _) as [vol|] eqn:Ev; [|done]. intros Hm. apply mount_in_ok in Hm as (H1 & H2 & H3 & H4); [|done|done].
  exists p, vol. split; [|naive_solver]. unfold partition_of in Ep. rewrite Forall_forall in Hin. apply Hin.
  assert (Hpin : p ∈ filter (fun p => index p = index (ms_partition record)) (partitions pd)) by (destruct (filter _ _); [done|]; injection Ep as <-; by left).
  by apply list_elem_of_filter in Hpin as [_ ?].
Qed.

(** ** Opening and reading *)
Lemma lookup_mounted (t : @MountTable AnyFs) dir comps (vol : Fat32FileSystem) :
  table_ok t -> Forall name dir -> Forall name comps -> mounted t dir = Some (FatFs vol) -> longest_mount t (dir ++ comps) dir ->
  lookup_path t (render (dir ++ comps)) = in_ok FatIn (walk (root vol) comps) /\ exists target, resolve (render (dir ++ comps)) t = Some (target, FatFs vol).
Proof.
  intros Ht Hd Hc Hm Hl. assert (Hn : Forall name (dir ++ comps)) by (by apply Forall_app).
  assert (Hsame : forall ts fs, mounted t ts = Some fs -> longest_mount t (dir ++ comps) ts -> ts = dir /\ fs = FatFs vol).
  { intros ts fs Hts [Hp Hmax]. assert (ts = dir); [|split; congruence]. destruct Hl as [Hpd Hmaxd]. apply (anti_symm prefix); [apply Hmaxd; [done|by eexists]|apply Hmax; [done|by eexists]]. }
  split.
  - destruct (lookup_path_ok t (dir ++ comps) Ht Hn) as [[Hno _]|(ts & fs & rest & Hps & Hts & Hlm & ->)].
    + rewrite Hno in Hm by (by exists comps). done.
    + destruct (Hsame ts fs Hts Hlm) as [-> ->]. apply app_inv_head in Hps as <-. apply walk_fat.
  - unfold resolve. rewrite normalize_render by done. pose proof (resolve_names t (dir ++ comps) Ht Hn) as Hr. destruct (resolve_loop _ _ _) as [[target fs]|].
    + destruct Hr as (ts & _ & Hts & Hlm). destruct (Hsame ts fs Hts Hlm) as [_ ->]. by eexists.
    + rewrite Hr in Hm by (by exists comps). done.
Qed.
Lemma resolve_canonical pid ps (s : @FsState AnyFs AnyInode) : Forall name ps -> rewrite_proc_self_path (proc_self_target_pid pid) (render ps) = render ps ->
  resolve_path_for_pid proc_self_target_pid pid (render ps) s = (Ok (render ps), ensure_cwd pid s).
Proof.
  intros Hn Hr. unfold resolve_path_for_pid, cwd_for_pid. cbv zeta. rewrite manager_normalize_path_eq, normalize_render by done. by rewrite Hr.
Qed.
Lemma open_mounted pid dir comps vol node rt y :
  let path := render (dir ++ comps) in
  table_ok (table rt) -> fs_ok (fs_state rt) -> Forall name dir -> Forall name comps -> mounted (table rt) dir = Some (FatFs vol) -> longest_mount (table rt) (dir ++ comps) dir ->
  walk (root vol) comps = Ok (mkInode vol node) -> node_is_dir node = false -> initramfs_read_file (store rt) path = None ->
  rewrite_proc_self_path (proc_self_target_pid pid) path = path ->
  search_start pid FIRST_USER_FD (fs_state rt) <= y <= I32_MAX -> file_of pid y (fs_state rt) = None ->
  exists fd rt' f, open_in proc_self_target_pid pid path O_RDONLY rt = Ret (Ok fd, rt') /\ file_of pid fd (fs_state rt') = Some (OpenVfs f) /\
    vfs_inode f = FatIn (mkInode vol node) /\ static_data f = None /\ offset f = 0.
Proof.
  intros path Htab Hok Hd Hc Hm Hl Hw Hreg Hno Hself Hy Hfree. subst path. assert (Hn : Forall name (dir ++ comps)) by (by apply Forall_app).
  destruct (lookup_mounted (table rt) dir comps vol Htab Hd Hc Hm Hl) as (Hlook & target & Hres). unfold open_in, open_path_for_pid.
  rewrite resolve_canonical by done. rewrite Hres, Hlook, Hw. cbn [in_ok metadata any_vfs fat_vfs]. unfold fat_metadata. cbn [inode_node]. rewrite Hreg, Hno.
  unfold open_for_pid. rewrite resolve_canonical by done. cbn [hint_meta md_file_type hint_static_data hint_inode hint_fs].
  set (s := ensure_cwd pid (ensure_cwd pid (fs_state rt))).
  assert (Hs : forall (s : @FsState AnyFs AnyInode), desc (ensure_cwd pid s) = desc s /\ next_fd (ensure_cwd pid s) = next_fd s /\ open_files (ensure_cwd pid s) = open_files s).
  { intros s0. unfold ensure_cwd. by destruct (cwd s0 !! pid). }
  assert (Hok' : fs_ok s) by (do 2 apply (harmless_cwd pid); done).
  destruct (Hs (fs_state rt)) as (_ & Hnf & Hof). destruct (Hs (ensure_cwd pid (fs_state rt))) as (_ & Hnf' & Hof').
  assert (Hy' : search_start pid FIRST_USER_FD s <= y <= I32_MAX) by (unfold search_start, s; rewrite Hnf', Hnf; exact Hy).
  assert (Hfree' : file_of pid y s = None) by (unfold file_of, s; rewrite Hof', Hof; exact Hfree).
  destruct (alloc_fd_from_finds s pid FIRST_USER_FD y Hok' ltac:(done) Hy' Hfree') as (fd & s' & Ha & _).
  change (has O_RDONLY (not32 (Z.lor (Z.lor O_ACCMODE O_CLOEXEC) O_DIRECTORY))) with false. change (negb (Z.land O_RDONLY O_ACCMODE =? O_RDONLY)) with false.
  change (has O_RDONLY O_DIRECTORY) with false. change (has O_RDONLY O_CLOEXEC) with false. cbv iota zeta. unfold alloc_fd. rewrite Ha. mstep.
  eexists fd, _, _. split; [done|]. cbn [set_fs_state fs_state]. split; [rewrite <- lookup_desc, desc_insert_file; apply lookup_insert_eq|]. done.
Qed.
Lemma read_mounted pid fd f vol node content n rt :
  (forall off len, 0 <= off -> 0 <= len -> read_at (mkInode vol node) off len = Ok (take (Z.to_nat len) (drop (Z.to_nat off) content))) ->
  file_of pid fd (fs_state rt) = Some (OpenVfs f) -> vfs_inode f = FatIn (mkInode vol node) -> static_data f = None -> 0 <= offset f -> 0 < n ->
  offset f + Z.of_nat (length content) <= U64_MAX ->
  let b := take (Z.to_nat n) (drop (Z.to_nat (offset f)) content) in
  exists rt' f', read_in pid fd n rt = (Ok b, rt') /\ file_of pid fd (fs_state rt') = Some (OpenVfs f') /\ vfs_inode f' = vfs_inode f /\ static_data f' = None /\
    offset f' = offset f + Z.of_nat (length b).
Proof.
  intros Hr Hf Hi Hs Ho Hn Hmax b. unfold read_in, read_for_pid. rewrite Hf, Hs, Hi. destruct (Z.eqb_spec n 0); [lia|]. cbn [read_at any_vfs].
  rewrite Hr by lia. cbn [map_err]. fold b. eexists _, _. split; [done|]. cbn [set_fs_state fs_state]. split; [rewrite <- lookup_desc, desc_insert_file; apply lookup_insert_eq|].
  split; [done|]. split; [done|]. cbn. unfold saturating_add64. rewrite Z.min_r; [done|]. assert (length b <= length content)%nat by (unfold b; rewrite length_take, length_drop; lia). lia.
Qed.

(** C17. From the disk to a process: when mounting a partition (named without a slash) as FAT32
    succeeds, it has mounted a volume that lies on a partition of the boot disk, on exactly
    the target directory.  A process can then open a file of that volume for reading by its
    path below the target, and its reads return the bytes of the file, one after the other,
    up to its end, under these conditions: no other mount lies in between, the boot archive
    holds no file of the same path, the path is not one that is rewritten for [/proc/self],
    the file's clusters can be read, and the process has a free descriptor number at or above
    the one where its search begins (without one the search does not end).  The disk answers
    every read inside it with a block. *)
Theorem files_on_partitions_are_read disk rt rt1 pid source target :
  boot_device = Some disk -> fills disk -> block_count disk < u64_size -> table_ok (table rt) -> fs_ok (fs_state rt) -> target <> [] -> SLASH ∉ source ->
  mount_source_for_pid ext4_mount procfs boot_device proc_self_target_pid pid source target (lit "fat32") rt = (Ok tt, rt1) ->
  let dir := go [] target in
  exists p vol, inside (block_count disk) p /\ fat_mount (partition_device disk source p) = Ok vol /\
    (forall d, Forall name d -> mounted (table rt1) d = if decide (d = dir) then Some (FatFs vol) else mounted (table rt) d) /\
    forall comps node content reader y,
      let path := render (dir ++ comps) in
      Forall name comps -> longest_mount (table rt1) (dir ++ comps) dir -> walk (root vol) comps = Ok (mkInode vol node) -> node_is_dir node = false ->
      file_bytes vol node = Ok content -> initramfs_read_file (store rt) path = None -> rewrite_proc_self_path (proc_self_target_pid reader) path = path ->
      search_start reader FIRST_USER_FD (fs_state rt) <= y <= I32_MAX -> file_of reader y (fs_state rt) = None ->
      exists fd rt2, open_in proc_self_target_pid reader path O_RDONLY rt1 = Ret (Ok fd, rt2) /\
        forall n m, 0 < n -> 0 < m -> exists rt3 rt4 b1 b2,
          read_in reader fd n rt2 = (Ok b1, rt3) /\ read_in reader fd m rt3 = (Ok b2, rt4) /\ b1 ++ b2 = take (Z.to_nat (n + m)) content.
Proof.
  intros Hb Hd Hc Ht Hok Hne Hsl Hm dir. unfold mount_source_for_pid in Hm. rewrite bool_decide_eq_false_2 in Hm by done. unfold contains_slash in Hm. rewrite bool_decide_eq_false_2 in Hm by done.
  destruct (mount_partition_source _ _ _ _ _ _ _) as [r rt'] eqn:Em. unfold in_errno in Hm. cbn [fst snd] in Hm. destruct r as [[]|]; [|done]. injection Hm as <-.
  destruct (mount_partition_fat disk source target rt rt' Hb Hd Hc Ht Hne Em) as (p & vol & Hin & Hvol & Htab & Hst & Hfs & Hmnt). exists p, vol.
  split; [done|]. split; [done|]. split; [done|]. intros comps node content reader y path Hcn Hl Hw Hreg Hbytes Hno Hself Hy Hfree.
  destruct (fat_mount_ok _ _ (partition_fills disk source p Hd) Hvol) as [Hv _]. assert (Hdir : Forall name dir) by (by apply go_names).
  rewrite <- Hst in Hno. rewrite <- Hfs in Hy, Hfree, Hok.
  destruct (open_mounted reader dir comps vol node rt' y Htab Hok Hdir Hcn) as (fd & rt2 & f & Ho & Hf & Hi & Hsd & Hoff); [rewrite Hmnt, decide_True by done; done|done..|].
  exists fd, rt2. split; [done|]. intros n m Hn Hm0. pose proof (file_bytes_small _ _ _ Hv Hbytes) as Hsmall.
  assert (Hr : forall off len, 0 <= off -> 0 <= len -> read_at (mkInode vol node) off len = Ok (take (Z.to_nat len) (drop (Z.to_nat off) content))) by (intros; by apply read_file_slice).
  destruct (read_mounted reader fd f vol node content n rt2 Hr Hf Hi Hsd ltac:(lia) Hn ltac:(lia)) as (rt3 & f3 & H3 & Hf3 & Hi3 & Hs3 & Ho3).
  rewrite Hoff in H3, Ho3. set (b1 := take (Z.to_nat n) (drop (Z.to_nat 0) content)) in *. assert (Hb1 : length b1 = Nat.min (Z.to_nat n) (length content)) by (unfold b1; by rewrite length_take).
  destruct (read_mounted reader fd f3 vol node content m rt3 Hr Hf3 ltac:(congruence) Hs3 ltac:(lia) Hm0 ltac:(lia)) as (rt4 & f4 & H4 & _).
  eexists rt3, rt4, b1, _. split; [done|]. split; [done|]. rewrite Ho3, Z.add_0_l, Nat2Z.id, Hb1. change (drop (Z.to_nat 0) content) with content in b1.
  destruct (Nat.le_gt_cases (Z.to_nat n) (length content)).
  - rewrite Nat.min_l by lia. unfold b1. rewrite take_take_drop. f_equal. lia.
  - rewrite Nat.min_r by lia. rewrite drop_all, take_nil, app_nil_r. unfold b1. rewrite !take_ge by lia. done.
Qed.
End Boot.
