(* ===== verification/FsBootExample.v ===== *)
(** * A disk with one partition, mounted and read

    The disk has a master boot record and, behind it, the volume of Fat32Example.v.  The
    theorem about mounted partitions is applied to it, and it shows defects of the calls that
    mount and open. *)

From stdpp Require Import strings sorting.
From S2P Require Import Prelude Errno FsPath FsMount FsTable FsDesc FsRun FsFiles Utf8 Block BlockTheorems Fat32 Fat32Chains Fat32Dirs Fat32Format Fat32Example Initramfs FsBoot FsBootTheorems.
#[local] Open Scope Z_scope.

(** ** The system *)
#[local] Instance unit_vfs : Vfs unit unit := {|
  fs_name _ := lit "procfs"; root _ := (); statfs _ := Err NotSupported; metadata _ := Err NotSupported; lookup_child _ _ := Err NotFound; readdir _ := Err NotSupported;
  read_at _ _ _ := Err NotSupported |}.
Definition no_ext4 (_ : BlockDevice) : Result unit FsError := Err InvalidInput.
Definition no_self (_ : Z) : option Z := None.

Definition mbr_sector : list Z :=
  replicate 446 0 ++ [0; 0; 0; 0; 0x0C; 0; 0; 0] ++ le_bytes 4 1 ++ le_bytes 4 8 ++ replicate 48 0 ++ [MBR_SIGNATURE0; MBR_SIGNATURE1].
Definition disk_bytes : list Z := mbr_sector ++ ex_image ex_dir.
Definition boot_disk : BlockDevice := file_device (FileSystem := unit) (mkFileDevice (lit "vda") 512 (Static disk_bytes)).
Definition boot_part : Partition := mkPartition 1 1 8 (MbrType 0x0C).
Definition part_dev : BlockDevice := partition_device boot_disk (lit "vdap1") boot_part.
Definition vol : Fat32FileSystem := mkFat part_dev ex_bpb ex_table 2 6.
(** The boot archive has two directories and, in one of them, a file. *)
Definition boot_store : InitramfsStore :=
  mkStore [mkEnt (lit "/data") 5 0x41ED Directory None; mkEnt (lit "/mnt") 6 0x41ED Directory None; mkEnt (lit "/mnt/A long name, with an end") 7 0x81A4 Regular (Some (lit "boot"))].
Abbreviation Sys := (@Runtime unit unit unit unit).
Definition sources : list MountSourceRecord := [mkSource (lit "vdap1") (lit "fat32") boot_part].
Definition booted : Sys := mkRuntime boot_store (mkTable {[ lit "/" := mkMountRecord (RamFs boot_store) None ]}) sources fs_new.
Abbreviation sys_mount := (mount_source_for_pid no_ext4 () (Some boot_disk) no_self).

Lemma boot_disk_fills : fills boot_disk.
Proof. apply static_fills; [split; [done|vm_compute; discriminate]|]. apply bytes_ok_spec. vm_compute. reflexivity. Qed.
Lemma disk_partitions : discover_partitions boot_disk = Ok (mkPartitioned boot_disk Mbr [boot_part]).
Proof.
  unfold discover_partitions. assert (E1 : parse_gpt_partitions boot_disk = Ok None) by (vm_compute; reflexivity).
  assert (E2 : parse_mbr_partitions boot_disk = Ok (Some [boot_part])) by (vm_compute; reflexivity). by rewrite E1, E2.
Qed.
Lemma vol_mounts : fat_mount part_dev = Ok vol.
Proof.
  unfold fat_mount. assert (E1 : parse_bpb part_dev = Ok ex_bpb) by (vm_compute; reflexivity). assert (E2 : read_fat part_dev ex_bpb = Ok ex_table) by (vm_compute; reflexivity).
  rewrite E1, E2. reflexivity.
Qed.
Lemma booted_ok : table_ok (table booted).
Proof. intros t rec Ht. cbn [booted table mounts] in Ht. apply lookup_singleton_Some in Ht as [<- _]. by exists []. Qed.

(** Mounting the partition on a directory. *)
Definition mounted_on (target : str) : Sys :=
  mkRuntime boot_store (mkTable (<[target := mkMountRecord (FatFs vol) (Some (lit "vdap1"))]> (mounts (table booted)))) sources fs_new.
Lemma mount_data : sys_mount 1 (lit "vdap1") (lit "/data") (lit "fat32") booted = (Ok tt, mounted_on (lit "/data")).
Proof.
  unfold mount_source_for_pid. change (bool_decide (lit "fat32" = lit "procfs")) with false. change (contains_slash (lit "vdap1")) with false. cbv iota.
  unfold mount_partition_source. change (mount_sources booted) with sources. assert (Ef : filter (fun e => ms_source e = lit "vdap1" /\ ms_fs_type e = lit "fat32") sources = sources) by reflexivity.
  rewrite Ef. cbv iota. unfold sources at 1. cbv iota. assert (Ec : check_target booted (lit "/data") = Ok tt) by reflexivity. rewrite Ec, disk_partitions.
  assert (Eo : open_partition (lit "vdap1") (mkPartitioned boot_disk Mbr [boot_part]) (index boot_part) = Ok part_dev) by reflexivity.
  cbn [ms_partition]. rewrite Eo. change (bool_decide (lit "fat32" = lit "fat32")) with true. cbv iota. rewrite vol_mounts. reflexivity.
Qed.

(** ** Reading from the partition *)
Definition long_name : str := lit "A long name, with an end".
Definition long_node : Fat32Node := mkNode 0x200000003 3 600 false.
Lemma long_walk : walk (root vol) [long_name] = Ok (mkInode vol long_node).
Proof.
  cbn [walk]. change (bool_decide (long_name = []) || bool_decide (long_name = lit ".")) with false. cbv iota. cbn [lookup_child fat_vfs root]. unfold fat_lookup.
  assert (E : fat_lookup_child vol (mkNode 1 2 0 true) long_name = Ok long_node) by (vm_compute; reflexivity).
  change (inode_fs (fat_root vol)) with vol. change (inode_node (fat_root vol)) with (mkNode 1 2 0 true). by rewrite E.
Qed.
Lemma files_on_partitions_are_read_witness :
  exists fd rt2 rt3 rt4 b1 b2, open_in no_self 1 (lit "/data/A long name, with an end") O_RDONLY (mounted_on (lit "/data")) = Ret (Ok fd, rt2) /\
    read_in 1 fd 510 rt2 = (Ok b1, rt3) /\ read_in 1 fd 4 rt3 = (Ok b2, rt4) /\ b1 ++ b2 = replicate 512 65 ++ [66; 66].
Proof.
  destruct (files_on_partitions_are_read no_ext4 () (Some boot_disk) no_self boot_disk booted (mounted_on (lit "/data")) 1 (lit "vdap1") (lit "/data"))
    as (p & v & Hin & Hv & Hm & Hread); [reflexivity|exact boot_disk_fills|vm_compute; reflexivity|exact booted_ok|exact fs_new_ok|discriminate| |exact mount_data|].
  { apply (bool_decide_unpack (SLASH ∉ lit "vdap1")). vm_compute. exact I. }
  change (go [] (lit "/data")) with [lit "data"] in Hm, Hread.
  assert (Hn : Forall name [lit "data"]) by (apply Forall_singleton; by apply (bool_decide_unpack _)).
  assert (Hl : name long_name) by (by apply (bool_decide_unpack _)).
  assert (v = vol) as ->.
  { pose proof (Hm [lit "data"] Hn) as E. rewrite decide_True in E by reflexivity. unfold mounted in E. change (render [lit "data"]) with (lit "/data") in E.
    unfold mounted_on in E. cbn [table mounts] in E. rewrite lookup_insert_eq in E. by injection E. }
  destruct (Hread [long_name] long_node (replicate 512 65 ++ replicate 88 66) 1 3) as (fd & rt2 & Ho & Hr).
  - by apply Forall_singleton.
  - split; [by exists [long_name]|]. intros ts Hts His. assert (Hcase : ts = [lit "data"; long_name] \/ ts `prefix_of` [lit "data"]).
    { destruct Hts as [k E]. destruct k as [|x k _] using rev_ind; [left; by rewrite app_nil_r in E|]. right. rewrite app_assoc in E.
      apply app_inj_tail in E as [E _]. by exists k. }
    destruct Hcase as [->|]; [|done]. rewrite Hm in His by (repeat (apply Forall_cons; split); try done; by apply (bool_decide_unpack _)).
    rewrite decide_False in His by discriminate. vm_compute in His. by destruct His.
  - exact long_walk.
  - reflexivity.
  - vm_compute. reflexivity.
  - vm_compute. reflexivity.
  - reflexivity.
  - split; vm_compute; discriminate.
  - vm_compute. reflexivity.
  - destruct (Hr 510 4 ltac:(lia) ltac:(lia)) as (rt3 & rt4 & b1 & b2 & H1 & H2 & H3). exists fd, rt2, rt3, rt4, b1, b2.
    split; [exact Ho|]. split; [exact H1|]. split; [exact H2|]. rewrite H3. vm_compute. reflexivity.
Defined.

(** ** Defects *)
(** The partition is mounted on a directory in which the boot archive has a file of the same
    name. The path leads to the file on the partition, of 600 bytes, and this is what [stat]
    describes; but opening it takes the contents from the archive. *)
Example archive_hides_mounted_files :
  let path := lit "/mnt/A long name, with an end" in
  let rt := mounted_on (lit "/mnt") in
  (st_size <$> match stat_path (table rt) path with Ok st => Some st | Err _ => None end) = Some 600 /\
  match open_in no_self 1 path O_RDONLY rt with Ret (Ok fd, rt') => (read_in 1 fd 10 rt').1 | _ => Err 0 end = Ok (lit "boot").
Proof. split; vm_compute; reflexivity. Qed.

(** A target that is not absolute is taken from the root, whatever the working directory of
    the process, except when procfs is mounted. *)
Example targets_ignore_the_working_directory :
  let rt := mkRuntime boot_store (table booted) sources (set_cwd {[ 1 := lit "/mnt" ]} fs_new) in
  let (r, rt') := sys_mount 1 (lit "vdap1") (lit "data") (lit "fat32") rt in
  (r, bool_decide (is_Some (mounts (table rt') !! lit "/data")), bool_decide (is_Some (mounts (table rt') !! lit "/mnt/data"))) = (Ok tt, true, false).
Proof. vm_compute. reflexivity. Qed.

(** Remounting unmounts first: when mounting then fails, here because the disk is gone, the
    file system is no longer mounted, although an error is returned. *)
Example failed_remount_unmounts :
  let (r, rt') := remount_target no_ext4 () None (lit "/data") (mounted_on (lit "/data")) in
  (r, bool_decide (is_Some (mounts (table rt') !! lit "/data"))) = (Err ENOENT, false).
Proof. vm_compute. reflexivity. Qed.
