(* ===== verification/Elf.v ===== *)
(** * Executable files: kernel/src/task/proc/exec.rs

    Reading an ELF file: the checks of [build_elf_load_plan] and the plan it makes of the
    loadable segments, the auxiliary vector and the preview.  The theorem says what a plan
    that passed the checks guarantees to the code that maps it. *)

From stdpp Require Import sorting.
From S2P Require Import Prelude Errno Vma MmSyscall Page Zone PageEntry Block BlockTheorems.
#[local] Open Scope Z_scope.

(** The operator [?] on results. *)
Notation "'let?' x := r 'in' k" := (match r with Ok x => k | Err err => Err err end)
  (at level 10, x pattern, r at level 100, k at level 200).
Definition ok_or {A} (o : option A) (err : Z) : Result A Z := match o with Some a => Ok a | None => Err err end.
Definition checked_mul64 (a b : Z) : option Z := if a * b <? u64_size then Some (a * b) else None.
Definition checked_sub64 (a b : Z) : option Z := if b <=? a then Some (a - b) else None.

Definition ELF_MAGIC : list Z := [0x7f; 69; 76; 70].
Definition ELF_CLASS_64 : Z := 2.
Definition ELF_DATA_LSB : Z := 1.
Definition ELF_VERSION_CURRENT : Z := 1.
Definition PT_LOAD : Z := 1.
Definition PF_X : Z := 1.
Definition PF_W : Z := 2.
(** [config::USER_STACK_INIT_PAGES] as os_cfg.toml sets it. *)
Definition DEFAULT_USER_STACK_PAGES : Z := 8.
Definition supported_elf_machine : Z := 62.

(** ** Headers *)
Record Elf64Header := mkElfHeader {
  ident : list Z; e_type : Z; e_machine : Z; e_version : Z; e_entry : Z; e_phoff : Z; e_shoff : Z; e_flags : Z;
  e_ehsize : Z; e_phentsize : Z; e_phnum : Z; e_shentsize : Z; e_shnum : Z; e_shstrndx : Z
}.
Definition ELF_HEADER_SIZE : Z := 64.

Record Elf64ProgramHeader := mkProgramHeader {
  p_type : Z; p_flags : Z; p_offset : Z; p_vaddr : Z; p_paddr : Z; p_filesz : Z; p_memsz : Z; p_align : Z
}.
Definition PROGRAM_HEADER_SIZE : Z := 56.

(** [read_struct_unaligned] at the two types: the fields at their [repr(C)] offsets. *)
Definition struct_fits (buf : list Z) (offset size : Z) : bool :=
  match checked_add64 offset size with Some end_ => end_ <=? Z.of_nat (length buf) | None => false end.

Definition read_elf_header (buf : list Z) (o : Z) : option Elf64Header :=
  if struct_fits buf o ELF_HEADER_SIZE then
    Some (mkElfHeader (bytes_at buf o 16) (read_le_u16 buf (o + 16)) (read_le_u16 buf (o + 18)) (read_le_u32 buf (o + 20))
      (read_le_u64 buf (o + 24)) (read_le_u64 buf (o + 32)) (read_le_u64 buf (o + 40)) (read_le_u32 buf (o + 48))
      (read_le_u16 buf (o + 52)) (read_le_u16 buf (o + 54)) (read_le_u16 buf (o + 56)) (read_le_u16 buf (o + 58))
      (read_le_u16 buf (o + 60)) (read_le_u16 buf (o + 62)))
  else None.

Definition read_program_header (buf : list Z) (o : Z) : option Elf64ProgramHeader :=
  if struct_fits buf o PROGRAM_HEADER_SIZE then
    Some (mkProgramHeader (read_le_u32 buf o) (read_le_u32 buf (o + 4)) (read_le_u64 buf (o + 8)) (read_le_u64 buf (o + 16))
      (read_le_u64 buf (o + 24)) (read_le_u64 buf (o + 32)) (read_le_u64 buf (o + 40)) (read_le_u64 buf (o + 48)))
  else None.

(** ** Plans *)
Record ExecLoadSegmentPlan := mkSegment {
  vaddr : Z; mem_size : Z; file_offset : Z; file_size : Z; align : Z;
  page_start : Z; page_end : Z; page_count : Z; map_flags : Z; executable : bool; writable : bool
}.

Record ExecLoadPlan := mkExecPlan {
  plan_entry : Z; image_len : Z; phdr_addr : Z; phentsize : Z; phnum : Z;
  segments : list ExecLoadSegmentPlan; segment_pages : Z; stack_top : Z; plan_stack_pages : Z
}.

Definition is_power_of_two (value : Z) : bool := negb (value =? 0) && (Z.land value (sub64 value 1) =? 0).
Definition page_align_down (addr : Z) : Z := Z.land addr (not64 (PAGE_SIZE - 1)).

Definition segment_contains_entry (segment : ExecLoadSegmentPlan) (entry : Z) : bool :=
  match checked_add64 (vaddr segment) (mem_size segment) with
  | Some end_ => (vaddr segment <=? entry) && (entry <? end_)
  | None => false
  end.

Definition segment_map_flags (w x : bool) : Z :=
  let fl := Z.lor PTE_PRESENT PTE_USER in
  let fl := if w then Z.lor fl PTE_WRITABLE else fl in
  if negb x then Z.lor fl PTE_NO_EXECUTE else fl.

(** What the loop over the program headers accumulates. *)
Record PlanAcc := mkAcc { acc_segments : list ExecLoadSegmentPlan; acc_pages : Z; acc_phdr : option Z }.

(** One round of the loop. *)
Definition plan_segment (len phoff : Z) (ph : Elf64ProgramHeader) (acc : PlanAcc) : Result PlanAcc Z :=
  if negb (p_type ph =? PT_LOAD) then Ok acc
  else if p_memsz ph =? 0 then Ok acc
  else if p_memsz ph <? p_filesz ph then Err EINVAL
  else
    let? file_end := ok_or (checked_add64 (p_offset ph) (p_filesz ph)) E2BIG in
    if len <? file_end then Err EINVAL
    else
      let seg_start := p_vaddr ph in
      let? seg_end := ok_or (checked_add64 (p_vaddr ph) (p_memsz ph)) E2BIG in
      if seg_start <? USER_SPACE_START then Err EINVAL
      else if seg_end <=? seg_start then Err EINVAL
      else if negb (is_user_addr seg_start) || negb (is_user_addr (sub64 seg_end 1)) then Err EINVAL
      else if negb (p_align ph =? 0) && negb (is_power_of_two (p_align ph)) then Err EINVAL
      else
        let page_start := page_align_down seg_start in
        let page_end := page_align_up seg_end in
        let page_count := sub64 page_end page_start / PAGE_SIZE in
        let phdr_addr :=
          if (p_offset ph <=? phoff) && (phoff <? file_end) then checked_add64 (p_vaddr ph) (sub64 phoff (p_offset ph))
          else acc_phdr acc in
        let writable := negb (Z.land (p_flags ph) PF_W =? 0) in
        let executable := negb (Z.land (p_flags ph) PF_X =? 0) in
        let? segment_pages := ok_or (checked_add64 (acc_pages acc) page_count) E2BIG in
        Ok (mkAcc (acc_segments acc ++ [mkSegment seg_start (p_memsz ph) (p_offset ph) (p_filesz ph) (p_align ph)
                     page_start page_end page_count (segment_map_flags writable executable) executable writable])
              segment_pages phdr_addr).

Fixpoint plan_loop (image : list Z) (phoff phentsize : Z) (idxs : list Z) (acc : PlanAcc) : Result PlanAcc Z :=
  match idxs with
  | [] => Ok acc
  | index :: idxs' =>
      let? rel := ok_or (checked_mul64 index phentsize) E2BIG in
      let? ph_offset := ok_or (checked_add64 phoff rel) E2BIG in
      let? ph := ok_or (read_program_header image ph_offset) EINVAL in
      let? acc' := plan_segment (Z.of_nat (length image)) phoff ph acc in
      plan_loop image phoff phentsize idxs' acc'
  end.

(** The stable sort of [sort_by_key]. *)
Fixpoint insert_by_page (s : ExecLoadSegmentPlan) (l : list ExecLoadSegmentPlan) : list ExecLoadSegmentPlan :=
  match l with
  | [] => [s]
  | t :: l' => if page_start s <=? page_start t then s :: l else t :: insert_by_page s l'
  end.
Definition sort_by_page (l : list ExecLoadSegmentPlan) : list ExecLoadSegmentPlan := foldr insert_by_page [] l.

Fixpoint segments_disjoint (l : list ExecLoadSegmentPlan) : bool :=
  match l with
  | previous :: ((current :: _) as l') => (page_end previous <=? page_start current) && segments_disjoint l'
  | _ => true
  end.

Definition build_elf_load_plan (image : list Z) : Result ExecLoadPlan Z :=
  let? header := ok_or (read_elf_header image 0) EINVAL in
  if negb (bool_decide (bytes_at (ident header) 0 4 = ELF_MAGIC)) then Err EINVAL
  else if negb (byte_at (ident header) 4 =? ELF_CLASS_64) then Err EINVAL
  else if negb (byte_at (ident header) 5 =? ELF_DATA_LSB) then Err EINVAL
  else if negb (byte_at (ident header) 6 =? ELF_VERSION_CURRENT) then Err EINVAL
  else if negb (e_version header =? ELF_VERSION_CURRENT) then Err EINVAL
  else if negb (e_machine header =? supported_elf_machine) then Err EINVAL
  else if negb (e_phentsize header =? PROGRAM_HEADER_SIZE) then Err EINVAL
  else if e_phnum header =? 0 then Err ENOENT
  else
    let phoff := e_phoff header in
    let? ph_table_size := ok_or (checked_mul64 (e_phentsize header) (e_phnum header)) E2BIG in
    let? ph_table_end := ok_or (checked_add64 phoff ph_table_size) E2BIG in
    if Z.of_nat (length image) <? ph_table_end then Err EINVAL
    else
      let? acc := plan_loop image phoff (e_phentsize header) (zrange 0 (e_phnum header)) (mkAcc [] 0 None) in
      if bool_decide (acc_segments acc = []) then Err ENOENT
      else
        let segments := sort_by_page (acc_segments acc) in
        if negb (segments_disjoint segments) then Err EINVAL
        else
          let entry := e_entry header in
          if (entry <? USER_SPACE_START) || negb (is_user_addr entry) then Err EINVAL
          else if negb (existsb (fun segment => segment_contains_entry segment entry) segments) then Err EINVAL
          else
            Ok (mkExecPlan entry (Z.of_nat (length image)) (default 0 (acc_phdr acc)) (e_phentsize header) (e_phnum header)
                  segments (acc_pages acc) USER_STACK_TOP DEFAULT_USER_STACK_PAGES).

(** ** The preview and the auxiliary vector *)
Record ExecMapPreview := mkPreview {
  segment_count : Z; executable_segments : Z; writable_segments : Z; prev_segment_pages : Z; prev_stack_pages : Z; total_pages : Z
}.
Definition count_if (f : ExecLoadSegmentPlan -> bool) (l : list ExecLoadSegmentPlan) : Z :=
  foldl (fun n s => if f s then saturating_add64 n 1 else n) 0 l.
Definition preview_pt_load_mapping (plan : ExecLoadPlan) : ExecMapPreview :=
  mkPreview (Z.of_nat (length (segments plan))) (count_if executable (segments plan)) (count_if writable (segments plan))
    (segment_pages plan) (plan_stack_pages plan) (saturating_add64 (segment_pages plan) (plan_stack_pages plan)).

Record ExecAuxEntry := mkAux { aux_key : Z; aux_value : Z }.
Definition AT_PHDR : Z := 3.
Definition AT_PHENT : Z := 4.
Definition AT_PHNUM : Z := 5.
Definition AT_PAGESZ : Z := 6.
Definition AT_ENTRY : Z := 9.
Definition minimal_auxv (plan : ExecLoadPlan) : list ExecAuxEntry :=
  [mkAux AT_PAGESZ PAGE_SIZE; mkAux AT_PHDR (phdr_addr plan); mkAux AT_PHENT (phentsize plan);
   mkAux AT_PHNUM (phnum plan); mkAux AT_ENTRY (plan_entry plan)].

(** ** What a plan guarantees *)
(** The program headers of the file and the segment one of them asks for. *)
Definition program_headers (image : list Z) (h : Elf64Header) : list Elf64ProgramHeader :=
  omap (fun i => read_program_header image (e_phoff h + i * PROGRAM_HEADER_SIZE)) (zrange 0 (e_phnum h)).
Definition loadable (ph : Elf64ProgramHeader) : Prop := p_type ph = PT_LOAD /\ p_memsz ph <> 0.
#[export] Instance loadable_dec ph : Decision (loadable ph).
Proof. unfold loadable. apply _. Defined.
Definition segment_of (ph : Elf64ProgramHeader) : ExecLoadSegmentPlan :=
  let first := p_vaddr ph / PAGE_SIZE in
  let last := (p_vaddr ph + p_memsz ph + PAGE_SIZE - 1) / PAGE_SIZE in
  let w := negb (Z.land (p_flags ph) PF_W =? 0) in
  let x := negb (Z.land (p_flags ph) PF_X =? 0) in
  mkSegment (p_vaddr ph) (p_memsz ph) (p_offset ph) (p_filesz ph) (p_align ph)
    (first * PAGE_SIZE) (last * PAGE_SIZE) (last - first) (segment_map_flags w x) x w.

(** Memory of the user, bytes of the file, and whole pages around the memory. *)
Record segment_ok (len : Z) (s : ExecLoadSegmentPlan) : Prop := {
  sg_memory : USER_SPACE_START <= vaddr s /\ 0 < mem_size s /\ vaddr s + mem_size s <= USER_SPACE_END;
  sg_file : 0 <= file_offset s /\ 0 <= file_size s <= mem_size s /\ file_offset s + file_size s <= len;
  sg_aligned : (PAGE_SIZE | page_start s) /\ page_end s = page_start s + page_count s * PAGE_SIZE;
  sg_pages : page_start s <= vaddr s < page_start s + PAGE_SIZE /\ page_end s - PAGE_SIZE < vaddr s + mem_size s <= page_end s;
  sg_user : USER_SPACE_START <= page_start s /\ page_end s <= USER_SPACE_END;
  sg_flags : map_flags s = segment_map_flags (writable s) (executable s)
}.

Definition before (s t : ExecLoadSegmentPlan) : Prop := page_end s <= page_start t.
Definition sum_pages (l : list ExecLoadSegmentPlan) : Z := foldr (fun s n => page_count s + n) 0 l.

Record header_range (ph : Elf64ProgramHeader) : Prop := {
  hr_offset : in_u64 (p_offset ph); hr_vaddr : in_u64 (p_vaddr ph);
  hr_filesz : in_u64 (p_filesz ph); hr_memsz : in_u64 (p_memsz ph)
}.

Lemma read_program_header_range image o ph : Forall byte image -> read_program_header image o = Some ph -> header_range ph.
Proof.
  intros Hb. unfold read_program_header. destruct (struct_fits _ _ _); [|done]. intros [= <-].
  assert (H : forall i, in_u64 (read_le_u64 image i)) by (intros i; apply (le_at_bound image i 8 Hb); lia). split; apply H.
Qed.

Lemma page_align_down_spec a : in_u64 a -> page_align_down a = a / PAGE_SIZE * PAGE_SIZE.
Proof.
  intros Ha. unfold page_align_down. change (PAGE_SIZE - 1) with (2 ^ 12 - 1). rewrite land_not_mask by (done || lia). apply Z.mul_comm.
Qed.
Lemma page_align_up_div a : 0 <= a -> a + PAGE_SIZE <= u64_size -> page_align_up a = (a + PAGE_SIZE - 1) / PAGE_SIZE * PAGE_SIZE.
Proof.
  intros Ha Hu. destruct (page_align_up_spec a Ha Hu) as [[k Hk] Hr]. change Vma.PAGE_SIZE with PAGE_SIZE in *. rewrite Hk in *. f_equal.
  unfold PAGE_SIZE in *. apply (Z.div_unique_pos _ _ k (a + 4096 - 1 - 4096 * k)); lia.
Qed.

(** One round of the loop: a header that is not loadable changes nothing, a loadable one
    adds its segment. *)
Lemma plan_segment_ok len phoff ph acc acc' :
  header_range ph -> 0 <= phoff -> plan_segment len phoff ph acc = Ok acc' ->
  if decide (loadable ph) then
    let s := segment_of ph in
    segment_ok len s /\ acc_segments acc' = acc_segments acc ++ [s] /\ acc_pages acc' = acc_pages acc + page_count s /\ acc_pages acc' < u64_size /\
    (acc_phdr acc' = acc_phdr acc \/ file_offset s <= phoff < file_offset s + file_size s /\ acc_phdr acc' = Some (vaddr s + (phoff - file_offset s)))
  else acc' = acc.
Proof.
  intros [Ho Hv Hf Hm] Hphoff. unfold plan_segment, loadable, in_u64 in *. destruct (Z.eqb_spec (p_type ph) PT_LOAD); cbn [negb];
    [|rewrite decide_False by tauto; by intros [= ->]].
  destruct (Z.eqb_spec (p_memsz ph) 0); [rewrite decide_False by tauto; by intros [= ->]|]. rewrite decide_True by done.
  destruct (Z.ltb_spec (p_memsz ph) (p_filesz ph)); [done|].
  destruct (checked_add64 (p_offset ph) _) as [fe|] eqn:E1; [|done]. apply checked_add_Some in E1 as [-> _]. cbn [ok_or].
  destruct (Z.ltb_spec len (p_offset ph + p_filesz ph)); [done|].
  destruct (checked_add64 (p_vaddr ph) (p_memsz ph)) as [se|] eqn:E2; [|done]. apply checked_add_Some in E2 as [-> Hse]. cbn [ok_or].
  destruct (Z.ltb_spec (p_vaddr ph) USER_SPACE_START); [done|]. destruct (Z.leb_spec (p_vaddr ph + p_memsz ph) (p_vaddr ph)); [done|].
  unfold is_user_addr. rewrite sub64_small by lia. destruct (Z.ltb_spec (p_vaddr ph) USER_SPACE_END); cbn [negb orb]; [|done].
  destruct (Z.ltb_spec (p_vaddr ph + p_memsz ph - 1) USER_SPACE_END); cbn [negb]; [|done]. destruct (negb (p_align ph =? 0) && _); [done|].
  assert (Hup : p_vaddr ph + p_memsz ph + PAGE_SIZE <= u64_size) by (unfold USER_SPACE_END, PAGE_SIZE in *; lia).
  rewrite page_align_down_spec, page_align_up_div by (unfold in_u64; lia).
  set (first := p_vaddr ph / PAGE_SIZE). set (last := (p_vaddr ph + p_memsz ph + PAGE_SIZE - 1) / PAGE_SIZE).
  assert (Hfirst : first * PAGE_SIZE <= p_vaddr ph < first * PAGE_SIZE + PAGE_SIZE) by (unfold first, PAGE_SIZE; pose proof (Z.div_mod (p_vaddr ph) 4096); pose proof (Z.mod_pos_bound (p_vaddr ph) 4096); lia).
  assert (Hlast : last * PAGE_SIZE - PAGE_SIZE < p_vaddr ph + p_memsz ph <= last * PAGE_SIZE).
  { unfold last, PAGE_SIZE. set (y := p_vaddr ph + p_memsz ph). pose proof (Z.div_mod (y + 4096 - 1) 4096). pose proof (Z.mod_pos_bound (y + 4096 - 1) 4096). lia. }
  assert (Hfl : 0 <= first < last) by (unfold PAGE_SIZE in *; lia). assert (Hle : last * PAGE_SIZE < u64_size) by (unfold PAGE_SIZE in *; lia).
  rewrite (sub64_small (last * PAGE_SIZE)) by (unfold PAGE_SIZE in *; lia). rewrite <- Z.mul_sub_distr_r, Z.div_mul by done.
  destruct (checked_add64 (acc_pages acc) (last - first)) as [np|] eqn:E3; [|done]. apply checked_add_Some in E3 as [-> Hn]. cbn [ok_or]. intros [= <-].
  cbn zeta. split; [|cbn [acc_segments acc_pages acc_phdr]; split; [done|split; [done|split; [done|]]]].
  - unfold USER_SPACE_START, USER_SPACE_END, PAGE_SIZE in *. split; cbn; fold first last; unfold USER_SPACE_START, USER_SPACE_END, PAGE_SIZE in *; try lia.
    + split; [by exists first|lia].
  - cbn. destruct (Z.leb_spec (p_offset ph) phoff), (Z.ltb_spec phoff (p_offset ph + p_filesz ph)); cbn [andb]; auto. right. split; [lia|].
    rewrite sub64_small by lia. unfold checked_add64. destruct (Z.ltb_spec (p_vaddr ph + (phoff - p_offset ph)) u64_size); [done|lia].
Qed.

(** The loop over all headers. *)
Record loop_done (len phoff : Z) (phs : list Elf64ProgramHeader) (acc acc' : PlanAcc) : Prop := {
  ld_segments : acc_segments acc' = acc_segments acc ++ (segment_of <$> filter loadable phs);
  ld_ok : Forall (segment_ok len) (segment_of <$> filter loadable phs);
  ld_pages : acc_pages acc' = acc_pages acc + sum_pages (segment_of <$> filter loadable phs);
  ld_phdr : acc_phdr acc' = acc_phdr acc \/ exists s, s ∈ acc_segments acc' /\ file_offset s <= phoff < file_offset s + file_size s /\
    acc_phdr acc' = Some (vaddr s + (phoff - file_offset s))
}.

Lemma plan_loop_ok image phoff idxs acc acc' :
  Forall byte image -> 0 <= phoff -> plan_loop image phoff PROGRAM_HEADER_SIZE idxs acc = Ok acc' ->
  loop_done (Z.of_nat (length image)) phoff (omap (fun i => read_program_header image (phoff + i * PROGRAM_HEADER_SIZE)) idxs) acc acc'.
Proof.
  intros Hb Hphoff. revert acc. induction idxs as [|i idxs IH]; intros acc; cbn [plan_loop omap list_omap].
  - intros [= ->]. split; cbn; [by rewrite app_nil_r|done|lia|by left].
  - unfold checked_mul64. destruct (Z.ltb_spec (i * PROGRAM_HEADER_SIZE) u64_size); [|done]. cbn [ok_or].
    destruct (checked_add64 phoff _) as [o|] eqn:E; [|done]. apply checked_add_Some in E as [-> _]. cbn [ok_or].
    destruct (read_program_header image _) as [ph|] eqn:Hph; [|done]. cbn [ok_or].
    destruct (plan_segment _ _ _ _) as [acc1|] eqn:E1; [|done]. intros Hrun. destruct (IH acc1 Hrun) as [a b c d].
    set (phs := omap _ idxs) in *. pose proof (plan_segment_ok _ _ _ _ _ (read_program_header_range _ _ _ Hb Hph) Hphoff E1) as H1.
    destruct (decide (loadable ph)) as [Hld|Hld]; [|subst acc1; by split; rewrite ?filter_cons_False].
    destruct H1 as (H1 & H2 & H3 & _ & H5).
    assert (Hf : segment_of <$> filter loadable (ph :: phs) = segment_of ph :: (segment_of <$> filter loadable phs)) by (by rewrite filter_cons_True).
    split; rewrite ?Hf.
    + by rewrite a, H2, <- app_assoc.
    + by constructor.
    + rewrite c, H3. unfold sum_pages. cbn [foldr]. lia.
    + destruct d as [->|?]; [|by right]. destruct H5 as [->|[? ?]]; [by left|right]. exists (segment_of ph). split; [|done].
      rewrite a, H2, !elem_of_app. left. right. by apply list_elem_of_singleton.
Qed.

Lemma insert_by_page_perm s l : insert_by_page s l ≡ₚ s :: l.
Proof. induction l as [|t l IH]; cbn; [done|]. destruct (page_start s <=? page_start t); [done|]. rewrite IH. apply Permutation_swap. Qed.
Lemma sort_by_page_perm l : sort_by_page l ≡ₚ l.
Proof. induction l as [|s l IH]; cbn; [done|]. by rewrite insert_by_page_perm, IH. Qed.

Lemma segments_disjoint_sorted len l : Forall (segment_ok len) l -> segments_disjoint l = true -> StronglySorted before l.
Proof.
  induction l as [|s l IH]; intros Hok Hd; [constructor|]. inversion Hok as [|? ? Hs Hl]; subst. destruct l as [|t l]; [by repeat constructor|].
  cbn [segments_disjoint] in Hd. apply andb_prop in Hd as [H1 H2]. apply Z.leb_le in H1. pose proof (IH Hl H2) as Hsort. constructor; [done|].
  constructor; [done|]. inversion Hl as [|? ? Ht Hl']; subst. apply StronglySorted_inv in Hsort as [_ Hall].
  apply (Forall_impl _ _ _ Hall). intros u Hu. unfold before in *. pose proof (sg_pages _ _ Ht). pose proof (sg_memory _ _ Ht). lia.
Qed.

Lemma build_elf_load_plan_ok image plan :
  Forall byte image -> build_elf_load_plan image = Ok plan ->
  exists h, read_elf_header image 0 = Some h /\
    segments plan ≡ₚ segment_of <$> filter loadable (program_headers image h) /\ segments plan <> [] /\
    Forall (segment_ok (Z.of_nat (length image))) (segments plan) /\ StronglySorted before (segments plan) /\
    plan_entry plan = e_entry h /\ (exists s, s ∈ segments plan /\ vaddr s <= plan_entry plan < vaddr s + mem_size s) /\
    segment_pages plan = sum_pages (segments plan) /\
    (phdr_addr plan = 0 \/ exists s, s ∈ segments plan /\ file_offset s <= e_phoff h < file_offset s + file_size s /\
       phdr_addr plan = vaddr s + (e_phoff h - file_offset s)) /\
    stack_top plan = USER_STACK_TOP /\ plan_stack_pages plan = DEFAULT_USER_STACK_PAGES.
Proof.
  intros Hb. unfold build_elf_load_plan. destruct (read_elf_header image 0) as [h|] eqn:Hh; [|done]. cbn [ok_or].
  do 6 (match goal with |- (if negb ?b then _ else _) = _ -> _ => destruct b; cbn [negb]; [|done] end).
  destruct (Z.eqb_spec (e_phentsize h) PROGRAM_HEADER_SIZE) as [Hps|]; cbn [negb]; [|done]. destruct (e_phnum h =? 0); [done|].
  destruct (checked_mul64 _ _); [|done]. cbn [ok_or]. destruct (checked_add64 _ _); [|done]. cbn [ok_or]. destruct (_ <? _); [done|].
  rewrite Hps. destruct (plan_loop _ _ _ _ _) as [acc|] eqn:Hrun; [|done].
  assert (Hphoff : 0 <= e_phoff h).
  { unfold read_elf_header in Hh. destruct (struct_fits _ _ _); [|done]. injection Hh as <-. apply (le_at_bound image _ 8 Hb). lia. }
  destruct (plan_loop_ok image (e_phoff h) _ _ _ Hb Hphoff Hrun) as [a b c d]. cbn in a, c, d. fold (program_headers image h) in a, b, c.
  destruct (bool_decide _) eqn:Hne; [done|]. apply bool_decide_eq_false in Hne. destruct (segments_disjoint _) eqn:Hdis; cbn [negb]; [|done].
  destruct (_ || _); [done|]. destruct (existsb _ _) eqn:Hex; cbn [negb]; [|done]. intros [= <-]. exists h. cbn [segments plan_entry segment_pages phdr_addr].
  pose proof (sort_by_page_perm (acc_segments acc)) as Hperm. rewrite <- a in b, c.
  assert (Hok : Forall (segment_ok (Z.of_nat (length image))) (sort_by_page (acc_segments acc))) by (by rewrite Hperm).
  split; [done|]. split; [by rewrite Hperm, a|]. split; [intros E; rewrite E in Hperm; by apply Permutation_nil_l in Hperm|].
  split; [done|]. split; [by eapply segments_disjoint_sorted|]. split; [done|]. split; [|split; [|split; [|done]]].
  - apply existsb_exists in Hex as (s & Hs & Hc). rewrite <- list_elem_of_In in Hs. exists s. split; [done|]. unfold segment_contains_entry in Hc.
    destruct (checked_add64 _ _) as [t|] eqn:E; [|done]. apply checked_add_Some in E as [-> _]. apply andb_prop in Hc as [?%Z.leb_le ?%Z.ltb_lt]. lia.
  - rewrite c. assert (Hsum : forall l l1, l ≡ₚ l1 -> sum_pages l = sum_pages l1) by (intros l l1 H; unfold sum_pages; induction H; cbn [foldr]; lia). by rewrite (Hsum _ _ Hperm).
  - destruct d as [->|(s & Hs & Hr & ->)]; [by left|right]. exists s. by rewrite Hperm.
Qed.

(** C16. A file is accepted only when its plan is safe to carry out, and the plan describes the
    file.  The segments are the loadable headers of the file, in the order of their addresses
    and without common pages; each lies in user space, takes its bytes from inside the file and
    covers its memory with whole pages; it is writable and executable as its header asks.  The
    entry point lies in a segment, the number of pages is the sum over the segments, and a
    program-header address is the place where a segment loads the headers. *)
Theorem elf_plans_describe_the_file image plan :
  Forall byte image -> build_elf_load_plan image = Ok plan ->
  exists h, read_elf_header image 0 = Some h /\
    segments plan ≡ₚ segment_of <$> filter loadable (program_headers image h) /\ segments plan <> [] /\
    Forall (segment_ok (Z.of_nat (length image))) (segments plan) /\ StronglySorted before (segments plan) /\
    plan_entry plan = e_entry h /\ (exists s, s ∈ segments plan /\ vaddr s <= plan_entry plan < vaddr s + mem_size s) /\
    segment_pages plan = sum_pages (segments plan) /\
    (phdr_addr plan = 0 \/ exists s, s ∈ segments plan /\ file_offset s <= e_phoff h < file_offset s + file_size s /\
       phdr_addr plan = vaddr s + (e_phoff h - file_offset s)).
Proof.
  intros Hb Hrun. destruct (build_elf_load_plan_ok image plan Hb Hrun) as (h & H1 & H2 & H3 & H4 & H5 & H6 & H7 & H8 & H9 & _). by exists h.
Qed.
