(* ===== verification/ExecStack.v ===== *)
(** * The first stack of a program: kernel/src/task/proc/exec.rs, userland/runtime/src/lib.rs

    [setup_initial_user_stack] writes the arguments, the environment and the auxiliary vector
    of a program onto its stack, through the page table of the current address space; the
    runtime of the user programs reads the arguments back.  A store or load at an address that
    is not mapped would fault; the fault handler is not modelled, so it is [Panic] here, and
    the theorem says that none happens. *)

From S2P Require Import Prelude Errno Vma MmSyscall Page Zone Pcp Buddy PageEntry Paging PageWalk PagingMap Block BlockTheorems Utf8 Elf.
#[local] Open Scope Z_scope.

(** ** Memory as the processor sees it *)
Section Memory.
Context (self : PageTableManager).

Definition store_byte (v b : Z) : Kern unit := fun m =>
  match translate_addr self v m with
  | Some pa => Ret (tt, set_phys m (fun x => if x =? pa then b else phys m x))
  | None => Panic
  end.
Fixpoint store_bytes (v : Z) (bytes : list Z) : Kern unit :=
  match bytes with
  | [] => mret tt
  | b :: bytes' => store_byte v b;; store_bytes (v + 1) bytes'
  end.
Definition load_byte (m : Mem) (v : Z) : exec Z :=
  match translate_addr self v m with Some pa => Ret (phys m pa mod 256) | None => Panic end.
Fixpoint load_bytes (n : nat) (m : Mem) (v : Z) : exec (list Z) :=
  match n with
  | O => Ret []
  | S n' => b ← load_byte m v; bs ← load_bytes n' m (v + 1); Ret (b :: bs)
  end.
Definition load_usize (m : Mem) (v : Z) : exec Z := bs ← load_bytes 8 m v; Ret (le bs).

(** ** Writing *)
Definition write_user_bytes (dst : Z) (src : list Z) : Kern (Result unit Z) :=
  if bool_decide (src = []) then mret (Ok tt)
  else
    match checked_add64 dst (Z.of_nat (length src)) with
    | None => mret (Err E2BIG)
    | Some end_ =>
        if negb (is_user_addr dst) || negb (is_user_addr (sub64 end_ 1)) then mret (Err EFAULT)
        else store_bytes dst src;; mret (Ok tt)
    end.

Definition write_user_usize (dst value : Z) : Kern (Result unit Z) :=
  match checked_add64 dst 8 with
  | None => mret (Err E2BIG)
  | Some end_ =>
      if negb (is_user_addr dst) || negb (is_user_addr (sub64 end_ 1)) then mret (Err EFAULT)
      else store_bytes dst (le_bytes 8 value);; mret (Ok tt)
  end.

(** The loops over the strings, given in the order in which they are written. *)
Fixpoint push_strings (stack_bottom : Z) (values : list (list Z)) (sp : Z) (ptrs : list Z) : Kern (Result (Z * list Z) Z) :=
  match values with
  | [] => mret (Ok (sp, ptrs))
  | bytes :: values' =>
      let reserve := saturating_add64 (Z.of_nat (length bytes)) 1 in
      match checked_sub64 sp reserve with
      | None => mret (Err E2BIG)
      | Some sp =>
          if sp <? stack_bottom then mret (Err E2BIG)
          else
            r ← write_user_bytes sp bytes;
            match r with
            | Err err => mret (Err err)
            | Ok _ =>
                r ← write_user_bytes (add64 sp (Z.of_nat (length bytes))) [0];
                match r with
                | Err err => mret (Err err)
                | Ok _ => push_strings stack_bottom values' sp (ptrs ++ [sp])
                end
            end
      end
  end.

(** The closure [push] over the words, last word first. *)
Fixpoint push_words (stack_bottom : Z) (words : list Z) (sp : Z) : Kern (Result Z Z) :=
  match words with
  | [] => mret (Ok sp)
  | value :: words' =>
      match checked_sub64 sp 8 with
      | None => mret (Err E2BIG)
      | Some sp =>
          if sp <? stack_bottom then mret (Err E2BIG)
          else
            r ← write_user_usize sp value;
            match r with
            | Err err => mret (Err err)
            | Ok _ => push_words stack_bottom words' sp
            end
      end
  end.

(** What the stack pointer is and where the strings lie; the caller's address space records
    the bounds. *)
Record StackInfo := mkStackInfo { user_rsp : Z; arg_start : Z; arg_end : Z; env_start : Z; env_end : Z }.
Definition strings_start (ptrs : list Z) : Z := default 0 (head ptrs).
Definition strings_end (ptrs : list Z) (values : list (list Z)) : Z :=
  match last (zip ptrs values) with
  | Some (ptr, text) => saturating_add64 ptr (Z.of_nat (length text) + 1)
  | None => 0
  end.

Definition stack_words (argc : Z) (argv_ptrs envp_ptrs : list Z) (auxv : list ExecAuxEntry) : list Z :=
  [argc] ++ argv_ptrs ++ [0] ++ envp_ptrs ++ [0] ++ (auxv ≫= fun e => [aux_key e; aux_value e]) ++ [0; 0].

Definition setup_initial_user_stack (stack_top stack_pages : Z) (argv envp : list (list Z)) (auxv : list ExecAuxEntry)
    : Kern (Result StackInfo Z) :=
  if stack_pages =? 0 then mret (Err EINVAL)
  else
    match checked_mul64 stack_pages PAGE_SIZE with
    | None => mret (Err E2BIG)
    | Some stack_span =>
        match checked_sub64 stack_top stack_span with
        | None => mret (Err E2BIG)
        | Some stack_bottom =>
            r ← push_strings stack_bottom (reverse envp) stack_top [];
            match r with
            | Err err => mret (Err err)
            | Ok (sp, envp_ptrs) =>
                let envp_ptrs := reverse envp_ptrs in
                r ← push_strings stack_bottom (reverse argv) sp [];
                match r with
                | Err err => mret (Err err)
                | Ok (sp, argv_ptrs) =>
                    let argv_ptrs := reverse argv_ptrs in
                    let sp := Z.land sp (not64 15) in
                    let words := stack_words (Z.of_nat (length argv)) argv_ptrs envp_ptrs auxv in
                    let padded :=
                      if Z.of_nat (length words) mod 2 =? 0 then
                        let? sp := ok_or (checked_sub64 sp 8) E2BIG in
                        if sp <? stack_bottom then Err E2BIG else Ok sp
                      else Ok sp in
                    match padded with
                    | Err err => mret (Err err)
                    | Ok sp =>
                        r ← push_words stack_bottom (reverse words) sp;
                        match r with
                        | Err err => mret (Err err)
                        | Ok sp =>
                            mret (Ok (mkStackInfo sp (strings_start argv_ptrs) (strings_end argv_ptrs argv)
                                        (strings_start envp_ptrs) (strings_end envp_ptrs envp)))
                        end
                    end
                end
            end
        end
    end.

(** ** Reading: the runtime of the user programs *)
(** The loop of [cstr_to_str], with the number of bytes it may still look at. *)
Fixpoint cstr_scan (n : nat) (m : Mem) (ptr : Z) : exec (list Z) :=
  match n with
  | O => Ret []
  | S n' => b ← load_byte m ptr; if b =? 0 then Ret [] else bs ← cstr_scan n' m (ptr + 1); Ret (b :: bs)
  end.
Definition cstr_to_str (m : Mem) (ptr : Z) : exec (option (list Z)) :=
  bytes ← cstr_scan 4096 m ptr;
  Ret (if valid_utf8 bytes then Some bytes else None).
Definition argv_at (m : Mem) (argv index : Z) : exec (option (list Z)) :=
  ptr ← load_usize m (argv + 8 * index);
  if ptr =? 0 then Ret None else cstr_to_str m ptr.

(** ** Memory that belongs to a range of addresses *)
(** Every address of the range is mapped, each to a place of its own, none of them in a
    table. *)
Record user_ram (lo hi : Z) (m : Mem) : Prop := {
  ur_mapped v : lo <= v < hi -> exists pa, translate_addr self v m = Some pa /\
    forall k w t, tbl (levels self) (root_phys self) m k w = Some t -> ~ (t <= pa < t + PAGE_SIZE);
  ur_inj v w pa : lo <= v < hi -> lo <= w < hi -> translate_addr self v m = Some pa -> translate_addr self w m = Some pa -> v = w
}.

(** Only the memory of the range changes. *)
Definition wrote (lo hi : Z) (m m' : Mem) : Prop :=
  exists f, m' = set_phys m f /\ forall x, (forall v, lo <= v < hi -> translate_addr self v m <> Some x) -> f x = phys m x.

Lemma user_ram_sub lo hi lo' hi' m : lo <= lo' -> hi' <= hi -> user_ram lo hi m -> user_ram lo' hi' m.
Proof.
  intros Hl Hh [H1 H2]. split; [intros v Hv; apply H1; lia|]. intros v w pa Hv Hw. apply H2; lia.
Qed.
Lemma wrote_sub lo hi lo' hi' m m' : lo' <= lo -> hi <= hi' -> wrote lo hi m m' -> wrote lo' hi' m m'.
Proof. intros Hl Hh (f & -> & Hf). exists f. split; [done|]. intros x Hx. apply Hf. intros v Hv. apply Hx. lia. Qed.
Lemma wrote_refl lo hi m : wrote lo hi m m.
Proof. exists (phys m). split; [by destruct m|done]. Qed.

Lemma wrote_tables lo hi m m' : user_ram lo hi m -> wrote lo hi m m' -> same_tables (levels self) (root_phys self) m m'.
Proof.
  intros Hram (f & -> & Hf) k w t i Ht Hi. apply read64_ext. intros j Hj. cbn. apply Hf. intros v Hv Hpa.
  destruct (ur_mapped _ _ _ Hram v Hv) as (pa & Hpa' & Hout). rewrite Hpa in Hpa'. injection Hpa' as <-. apply (Hout k w t Ht). unfold PAGE_SIZE. lia.
Qed.
Lemma wrote_translate lo hi m m' w : user_ram lo hi m -> wrote lo hi m m' -> translate_addr self w m' = translate_addr self w m.
Proof.
  intros Hram Hw. unfold translate_addr, translate. rewrite (translate_ext _ _ m m'); [done|]. intros k t l Ht _.
  apply (wrote_tables lo hi m m' Hram Hw k w t); [done|apply level_index_range].
Qed.
Lemma wrote_ram lo hi lo' hi' m m' : user_ram lo hi m -> wrote lo hi m m' -> user_ram lo' hi' m -> user_ram lo' hi' m'.
Proof.
  intros Hram Hw [H1 H2]. split.
  - intros v Hv. rewrite (wrote_translate lo hi m m') by done. destruct (H1 v Hv) as (pa & Hpa & Hout). exists pa. split; [done|].
    intros k w t. rewrite (same_tables_tbl _ _ m m' (wrote_tables lo hi m m' Hram Hw)). apply Hout.
  - intros v w pa Hv Hw'. rewrite !(wrote_translate lo hi m m') by done. by apply H2.
Qed.
Lemma wrote_trans lo hi m1 m2 m3 : user_ram lo hi m1 -> wrote lo hi m1 m2 -> wrote lo hi m2 m3 -> wrote lo hi m1 m3.
Proof.
  intros Hram Hw1 (g & -> & Hg). pose proof Hw1 as (f & -> & Hf). exists g. split; [done|]. intros x Hx. rewrite Hg; [by apply Hf|].
  intros v Hv. rewrite (wrote_translate lo hi m1 (set_phys m1 f) v Hram Hw1). by apply Hx.
Qed.
(** What lies outside the part that is written stays. *)
Lemma wrote_load lo hi a b m m' w :
  user_ram lo hi m -> lo <= a -> b <= hi -> wrote a b m m' -> lo <= w < hi -> ~ (a <= w < b) -> load_byte m' w = load_byte m w.
Proof.
  intros Hram Ha Hb Hw Hrange Hout. unfold load_byte.
  rewrite (wrote_translate lo hi m m') by (done || by eapply wrote_sub). destruct (translate_addr self w m) as [pa|] eqn:Hpa; [|done].
  destruct Hw as (f & -> & Hf). cbn. rewrite Hf; [done|]. intros v Hv Hpv. apply Hout.
  assert (v = w) as -> by (apply (ur_inj _ _ _ Hram v w pa); try done; lia). done.
Qed.

Lemma store_bytes_ok lo hi m v bs :
  user_ram lo hi m -> lo <= v -> v + Z.of_nat (length bs) <= hi ->
  exists m', store_bytes v bs m = Ret (tt, m') /\ wrote v (v + Z.of_nat (length bs)) m m' /\
    forall i b, bs !! i = Some b -> load_byte m' (v + Z.of_nat i) = Ret (b mod 256).
Proof.
  revert m v. induction bs as [|b bs IH]; intros m v Hram Hv Hh; cbn [store_bytes length].
  - exists m. split; [done|]. split; [apply wrote_refl|done].
  - cbn [length] in Hh. destruct (ur_mapped _ _ _ Hram v ltac:(lia)) as (pa & Hpa & Hout).
    set (m1 := set_phys m (fun x => if x =? pa then b else phys m x)).
    assert (W1 : wrote v (v + 1) m m1).
    { eexists. split; [done|]. intros x Hx. cbn. destruct (Z.eqb_spec x pa) as [->|]; [|done]. by destruct (Hx v ltac:(lia)). }
    rewrite (kbind_ret (store_byte v b) _ m tt m1) by (unfold store_byte; by rewrite Hpa).
    assert (W1' : wrote lo hi m m1) by (eapply wrote_sub; [| |exact W1]; lia).
    pose proof (wrote_ram lo hi lo hi m m1 Hram W1' Hram) as Hram1.
    destruct (IH m1 (v + 1) Hram1 ltac:(lia) ltac:(lia)) as (m' & R & W & Hl). exists m'. split; [done|].
    assert (Hsub : user_ram v (v + Z.of_nat (S (length bs))) m) by (eapply user_ram_sub; [| |exact Hram]; lia).
    split.
    + apply (wrote_trans _ _ m m1 m'); [done|eapply wrote_sub; [| |exact W1]; lia|eapply wrote_sub; [| |exact W]; lia].
    + intros [|i] x Hx.
      * injection Hx as <-. rewrite Z.add_0_r. rewrite (wrote_load lo hi (v + 1) (v + 1 + Z.of_nat (length bs)) m1 m') by (done || lia).
        unfold load_byte. rewrite (wrote_translate lo hi m m1 v Hram W1'), Hpa. unfold m1. cbn. by rewrite Z.eqb_refl.
      * replace (v + Z.of_nat (S i)) with (v + 1 + Z.of_nat i) by lia. by apply Hl.
Qed.

(** ** Bytes and words in memory *)
Definition holds (m : Mem) (v : Z) (bs : list Z) : Prop := forall i b, bs !! i = Some b -> load_byte m (v + Z.of_nat i) = Ret b.
Definition cstring (m : Mem) (p : Z) (s : list Z) : Prop := holds m p (s ++ [0]).
Definition holds_words (m : Mem) (v : Z) (ws : list Z) : Prop := forall i w, ws !! i = Some w -> load_usize m (v + 8 * Z.of_nat i) = Ret w.

Lemma holds_app m v bs cs : holds m v bs -> holds m (v + Z.of_nat (length bs)) cs -> holds m v (bs ++ cs).
Proof.
  intros H1 H2 i b [Hb|[Hi Hb]]%lookup_app_Some; [by apply H1|]. replace (v + Z.of_nat i) with (v + Z.of_nat (length bs) + Z.of_nat (i - length bs)) by lia.
  by apply H2.
Qed.
Lemma holds_load m v bs : holds m v bs -> load_bytes (length bs) m v = Ret bs.
Proof.
  revert v. induction bs as [|b bs IH]; intros v H; [done|]. cbn [length load_bytes].
  pose proof (H O b eq_refl) as H0. rewrite Z.add_0_r in H0. rewrite H0. mstep. rewrite IH; [done|]. intros i c Hc.
  replace (v + 1 + Z.of_nat i) with (v + Z.of_nat (S i)) by lia. by apply H.
Qed.
Lemma holds_word m v x : in_u64 x -> holds m v (le_bytes 8 x) -> load_usize m v = Ret x.
Proof.
  intros Hx H. unfold load_usize. pose proof (holds_load m v _ H) as Hl. rewrite length_le_bytes in Hl. rewrite Hl. mstep. rewrite le_le_bytes.
  f_equal. by apply Z.mod_small.
Qed.
Lemma byte_le_bytes n x : Forall byte (le_bytes n x).
Proof. revert x. induction n as [|n IH]; intros x; cbn; constructor; [apply Z.mod_pos_bound; lia|apply IH]. Qed.

(** What is written elsewhere in the range does not matter. *)
Lemma holds_kept lo hi a b m m' v bs :
  user_ram lo hi m -> lo <= a -> b <= hi -> wrote a b m m' -> lo <= v -> v + Z.of_nat (length bs) <= hi ->
  v + Z.of_nat (length bs) <= a \/ b <= v -> holds m v bs -> holds m' v bs.
Proof.
  intros Hram Ha Hb Hw Hv Hh Hout H i x Hx. pose proof (lookup_lt_Some _ _ _ Hx). rewrite (wrote_load lo hi a b m m') by (done || lia). by apply H.
Qed.
Lemma store_holds lo hi m v bs :
  user_ram lo hi m -> lo <= v -> v + Z.of_nat (length bs) <= hi -> Forall byte bs ->
  exists m', store_bytes v bs m = Ret (tt, m') /\ wrote v (v + Z.of_nat (length bs)) m m' /\ holds m' v bs.
Proof.
  intros Hram Hv Hh Hb. destruct (store_bytes_ok lo hi m v bs Hram Hv Hh) as (m' & R & W & H). exists m'. split; [done|]. split; [done|].
  intros i b Hi. rewrite (H i b Hi). f_equal. apply Z.mod_small. rewrite Forall_lookup in Hb. by apply (Hb i).
Qed.

(** ** The writes *)
Section Writes.
Context (lo hi : Z).
Hypothesis Hlo : 0 < lo.
Hypothesis Hhi : hi <= USER_SPACE_END.

Lemma user_checks dst n :
  lo <= dst -> 0 < n -> dst + n <= hi -> checked_add64 dst n = Some (dst + n) /\
  negb (is_user_addr dst) || negb (is_user_addr (sub64 (dst + n) 1)) = false.
Proof.
  intros H1 H2 H3. unfold checked_add64, is_user_addr, USER_SPACE_END in *. rewrite sub64_small by lia.
  destruct (Z.ltb_spec (dst + n) u64_size), (Z.ltb_spec dst 0x800000000000), (Z.ltb_spec (dst + n - 1) 0x800000000000); try lia. done.
Qed.
Lemma write_user_bytes_ok m dst src :
  user_ram lo hi m -> lo <= dst -> dst + Z.of_nat (length src) <= hi -> Forall byte src ->
  exists m', write_user_bytes dst src m = Ret (Ok tt, m') /\ wrote dst (dst + Z.of_nat (length src)) m m' /\ holds m' dst src.
Proof.
  intros Hram H1 H2 Hb. unfold write_user_bytes. case_bool_decide as He; [subst src; exists m; split; [done|split; [apply wrote_refl|done]]|].
  assert (0 < Z.of_nat (length src)) by (destruct src; [done|cbn; lia]). destruct (user_checks dst _ H1 ltac:(done) H2) as [-> ->].
  destruct (store_holds lo hi m dst src Hram H1 H2 Hb) as (m' & R & W & H'). rewrite (kbind_ret _ _ _ _ _ R). by exists m'.
Qed.
Lemma write_user_usize_ok m dst value :
  user_ram lo hi m -> lo <= dst -> dst + 8 <= hi -> in_u64 value ->
  exists m', write_user_usize dst value m = Ret (Ok tt, m') /\ wrote dst (dst + 8) m m' /\ load_usize m' dst = Ret value.
Proof.
  intros Hram H1 H2 Hv. unfold write_user_usize. destruct (user_checks dst 8 H1 ltac:(lia) H2) as [-> ->].
  destruct (store_holds lo hi m dst (le_bytes 8 value) Hram H1) as (m' & R & W & H'); [by rewrite length_le_bytes|apply byte_le_bytes|].
  rewrite (kbind_ret _ _ _ _ _ R). exists m'. rewrite length_le_bytes in W. split; [done|]. split; [done|]. by apply holds_word.
Qed.

(** The room that strings take with their terminators. *)
Definition strings_size (values : list (list Z)) : Z := foldr (fun s n => Z.of_nat (length s) + 1 + n) 0 values.
Lemma strings_size_nonneg values : 0 <= strings_size values.
Proof. unfold strings_size. induction values; cbn [foldr]; lia. Qed.

(** One string. *)
Lemma push_string_ok m sp bytes :
  user_ram lo hi m -> sp <= hi -> lo <= sp - Z.of_nat (length bytes) - 1 -> Forall byte bytes ->
  let sp' := sp - Z.of_nat (length bytes) - 1 in
  exists m1 m', write_user_bytes sp' bytes m = Ret (Ok tt, m1) /\ write_user_bytes (add64 sp' (Z.of_nat (length bytes))) [0] m1 = Ret (Ok tt, m') /\
    wrote sp' sp m m' /\ cstring m' sp' bytes.
Proof.
  intros Hram Hsp Hlow Hb sp'. destruct (write_user_bytes_ok m sp' bytes Hram Hlow ltac:(unfold sp'; lia) Hb) as (m1 & R1 & W1 & H1).
  assert (W1' : wrote lo hi m m1) by (eapply wrote_sub; [| |exact W1]; unfold sp'; lia). pose proof (wrote_ram lo hi lo hi m m1 Hram W1' Hram) as Hram1.
  destruct (write_user_bytes_ok m1 (sp' + Z.of_nat (length bytes)) [0] Hram1) as (m' & R2 & W2 & H2);
    [unfold sp'; lia|cbn; unfold sp'; lia|by repeat constructor|].
  exists m1, m'. split; [done|]. split; [rewrite add64_small; [done|unfold sp', USER_SPACE_END in *; lia]|]. split.
  - apply (wrote_trans _ _ m m1 m'); [eapply user_ram_sub; [| |exact Hram]; lia|eapply wrote_sub; [| |exact W1]; unfold sp'; lia|].
    eapply wrote_sub; [| |exact W2]; cbn; unfold sp'; lia.
  - apply holds_app; [|done]. eapply (holds_kept lo hi); [exact Hram1| | |exact W2| | | |exact H1]; unfold sp'; cbn; lia.
Qed.

Lemma push_strings_ok values : forall m sp ptrs,
  user_ram lo hi m -> lo <= sp <= hi -> Forall (Forall byte) values ->
  exists r m', push_strings lo values sp ptrs m = Ret (r, m') /\ wrote lo sp m m' /\
    if sp - strings_size values <? lo then r = Err E2BIG
    else exists ps, r = Ok (sp - strings_size values, ptrs ++ ps) /\ wrote (sp - strings_size values) sp m m' /\
      Forall2 (fun p s => cstring m' p s /\ sp - strings_size values <= p /\ p + Z.of_nat (length s) + 1 <= sp) ps values.
Proof.
  induction values as [|bytes values IH]; intros m sp ptrs Hram Hsp Hb.
  - exists (Ok (sp, ptrs)), m. cbn. rewrite Z.sub_0_r. split; [done|]. split; [apply wrote_refl|]. destruct (Z.ltb_spec sp lo); [lia|].
    exists []. rewrite app_nil_r. split; [done|]. split; [apply wrote_refl|constructor].
  - inversion Hb as [|? ? Hb1 Hb2]; subst. unfold strings_size. cbn [push_strings foldr]. fold (strings_size values).
    pose proof (strings_size_nonneg values) as Hn. unfold saturating_add64, checked_sub64.
    destruct (Z.leb_spec (Z.min U64_MAX (Z.of_nat (length bytes) + 1)) sp) as [Hle|Hgt].
    2: { exists (Err E2BIG), m. split; [done|]. split; [apply wrote_refl|]. by rewrite (proj2 (Z.ltb_lt _ _)) by lia. }
    assert (Hmin : Z.min U64_MAX (Z.of_nat (length bytes) + 1) = Z.of_nat (length bytes) + 1) by (unfold USER_SPACE_END in *; lia). rewrite Hmin in *.
    replace (sp - (Z.of_nat (length bytes) + 1)) with (sp - Z.of_nat (length bytes) - 1) by lia. set (sp1 := sp - Z.of_nat (length bytes) - 1).
    destruct (Z.ltb_spec sp1 lo) as [Hlt|Hge].
    { exists (Err E2BIG), m. split; [done|]. split; [apply wrote_refl|]. rewrite (proj2 (Z.ltb_lt _ _)) by (unfold sp1 in *; lia). done. }
    destruct (push_string_ok m sp bytes Hram (proj2 Hsp) Hge Hb1) as (m1 & m2 & R1 & R2 & W & Hc). fold sp1 in R1, R2, W, Hc.
    rewrite (kbind_ret _ _ _ _ _ R1), (kbind_ret _ _ _ _ _ R2).
    assert (W' : wrote lo hi m m2) by (eapply wrote_sub; [| |exact W]; lia). pose proof (wrote_ram lo hi lo hi m m2 Hram W' Hram) as Hram2.
    destruct (IH m2 sp1 (ptrs ++ [sp1]) Hram2 ltac:(unfold sp1 in *; lia) Hb2) as (r & m' & R & W2 & Hr). exists r, m'. split; [exact R|].
    assert (Hsub : forall a, lo <= a -> a <= sp1 -> user_ram a sp m) by (intros a Ha1 Ha2; eapply user_ram_sub; [| |exact Hram]; lia).
    assert (Hle1 : sp1 <= sp) by (unfold sp1; lia).
    split; [apply (wrote_trans _ _ m m2 m'); [by apply Hsub|eapply wrote_sub; [| |exact W]; lia|eapply wrote_sub; [| |exact W2]; lia]|].
    replace (sp - (Z.of_nat (length bytes) + 1 + strings_size values)) with (sp1 - strings_size values) by (unfold sp1; lia).
    destruct (Z.ltb_spec (sp1 - strings_size values) lo) as [|Hfit]; [done|]. destruct Hr as (ps & -> & W3 & HF). exists (sp1 :: ps).
    split; [by rewrite <- app_assoc|]. split.
    + apply (wrote_trans _ _ m m2 m'); [apply Hsub; lia|eapply wrote_sub; [| |exact W]; lia|eapply wrote_sub; [| |exact W3]; lia].
    + constructor.
      * split; [|unfold sp1; lia]. eapply (holds_kept lo hi); [exact Hram2| | |exact W3| | | |exact Hc]; rewrite ?length_app; cbn; unfold sp1 in *; lia.
      * eapply Forall2_impl; [exact HF|]. intros p s0 (? & ? & ?). split; [done|]. lia.
Qed.

Lemma load_usize_kept a b m m' v w :
  user_ram lo hi m -> lo <= a -> b <= hi -> wrote a b m m' -> lo <= v -> v + 8 <= hi -> v + 8 <= a \/ b <= v ->
  load_usize m v = Ret w -> load_usize m' v = Ret w.
Proof.
  intros Hram Ha Hb Hw Hv Hh Hout H. unfold load_usize in *. cbn [load_bytes] in *.
  rewrite !(wrote_load lo hi a b m m') by (done || lia). exact H.
Qed.

Lemma push_words_ok words : forall m sp,
  user_ram lo hi m -> lo <= sp <= hi -> Forall in_u64 words ->
  exists r m', push_words lo words sp m = Ret (r, m') /\ wrote lo sp m m' /\
    if sp - 8 * Z.of_nat (length words) <? lo then r = Err E2BIG
    else r = Ok (sp - 8 * Z.of_nat (length words)) /\ wrote (sp - 8 * Z.of_nat (length words)) sp m m' /\
      holds_words m' (sp - 8 * Z.of_nat (length words)) (reverse words).
Proof.
  induction words as [|x words IH]; intros m sp Hram Hsp Hw; cbn [push_words length].
  - exists (Ok sp), m. split; [done|]. split; [apply wrote_refl|]. replace (sp - 8 * Z.of_nat 0) with sp by lia. destruct (Z.ltb_spec sp lo); [lia|].
    split; [done|]. split; [apply wrote_refl|]. intros i w Hi. by rewrite reverse_nil in Hi.
  - inversion Hw as [|? ? Hx Hw']; subst. unfold checked_sub64. replace (sp - 8 * Z.of_nat (S (length words))) with (sp - 8 - 8 * Z.of_nat (length words)) by lia.
    destruct (Z.leb_spec 8 sp) as [H8|].
    2: { exists (Err E2BIG), m. split; [done|]. split; [apply wrote_refl|]. by rewrite (proj2 (Z.ltb_lt _ _)) by lia. }
    destruct (Z.ltb_spec (sp - 8) lo) as [Hlt|Hge].
    { exists (Err E2BIG), m. split; [done|]. split; [apply wrote_refl|]. by rewrite (proj2 (Z.ltb_lt _ _)) by lia. }
    destruct (write_user_usize_ok m (sp - 8) x Hram Hge ltac:(lia) Hx) as (m1 & R1 & W1 & L1). rewrite (kbind_ret _ _ _ _ _ R1).
    replace (sp - 8 + 8) with sp in W1 by lia.
    assert (W1' : wrote lo hi m m1) by (eapply wrote_sub; [| |exact W1]; lia). pose proof (wrote_ram lo hi lo hi m m1 Hram W1' Hram) as Hram1.
    destruct (IH m1 (sp - 8) Hram1 ltac:(lia) Hw') as (r & m' & R & W2 & Hr). exists r, m'. split; [exact R|].
    assert (Hsub : forall a, lo <= a -> a <= sp - 8 -> user_ram a sp m) by (intros a Ha1 Ha2; eapply user_ram_sub; [| |exact Hram]; lia).
    split; [apply (wrote_trans _ _ m m1 m'); [apply Hsub; lia|eapply wrote_sub; [| |exact W1]; lia|eapply wrote_sub; [| |exact W2]; lia]|].
    destruct (Z.ltb_spec (sp - 8 - 8 * Z.of_nat (length words)) lo) as [|Hfit]; [done|]. destruct Hr as (-> & W3 & Hh). split; [done|]. split.
    + apply (wrote_trans _ _ m m1 m'); [apply Hsub; lia|eapply wrote_sub; [| |exact W1]; lia|eapply wrote_sub; [| |exact W3]; lia].
    + rewrite reverse_cons. intros i w [Hi|[Hi Hx']]%lookup_app_Some; [by apply Hh|]. rewrite length_reverse in Hi, Hx'.
      destruct (i - length words)%nat as [|j] eqn:Ej; [|done]. injection Hx' as <-. replace (sp - 8 - 8 * Z.of_nat (length words) + 8 * Z.of_nat i) with (sp - 8) by lia.
      eapply load_usize_kept; [exact Hram1| | |exact W3| | | |exact L1]; lia.
Qed.

(** ** The whole stack *)
Lemma strings_size_reverse values : strings_size (reverse values) = strings_size values.
Proof.
  assert (H : forall l l1, l ≡ₚ l1 -> strings_size l = strings_size l1) by (intros l l1 H; unfold strings_size; induction H; cbn [foldr]; lia).
  apply H, reverse_Permutation.
Qed.
Lemma length_stack_words argc ps es auxv :
  length (stack_words argc ps es auxv) = (5 + length ps + length es + 2 * length auxv)%nat.
Proof.
  assert (H : length (auxv ≫= fun e => [aux_key e; aux_value e]) = (2 * length auxv)%nat).
  { induction auxv as [|e auxv IH]; [done|]. cbn in IH |- *. lia. }
  unfold stack_words. rewrite !length_app, H. cbn. lia.
Qed.
End Writes.
End Memory.

(** Where the stack pointer ends up: below the strings, aligned, below the words. *)
Definition first_rsp (stack_top : Z) (argv envp : list (list Z)) (auxv : list ExecAuxEntry) : Z :=
  let n := 5 + Z.of_nat (length argv) + Z.of_nat (length envp) + 2 * Z.of_nat (length auxv) in
  let sp := (stack_top - strings_size envp - strings_size argv) / 16 * 16 in
  (if n mod 2 =? 0 then sp - 8 else sp) - 8 * n.

Lemma first_rsp_alignment stack_top argv envp auxv : first_rsp stack_top argv envp auxv mod 16 = 8.
Proof.
  unfold first_rsp. set (n := 5 + _ + _ + _). set (q := (stack_top - _ - _) / 16). pose proof (Z.div_mod n 2 ltac:(lia)) as Hd. set (h := n / 2) in *.
  symmetry. destruct (Z.eqb_spec (n mod 2) 0) as [H0|H0].
  - apply (Z.mod_unique_pos _ 16 (q - h - 1)); lia.
  - assert (n mod 2 = 1) by (pose proof (Z.mod_pos_bound n 2); lia). apply (Z.mod_unique_pos _ 16 (q - h - 1)); lia.
Qed.

(** What a stack contains. *)
Record stack_ready self (m : Mem) (rsp : Z) (argv envp : list (list Z)) (auxv : list ExecAuxEntry) (argv_ptrs envp_ptrs : list Z) : Prop := {
  sr_words : holds_words self m rsp (stack_words (Z.of_nat (length argv)) argv_ptrs envp_ptrs auxv);
  sr_argv : Forall2 (fun p s => cstring self m p s /\ 0 < p) argv_ptrs argv;
  sr_envp : Forall2 (fun p s => cstring self m p s /\ 0 < p) envp_ptrs envp
}.

(** Strings on the stack, with their pointers. *)
Definition strings_at self (m : Mem) (a b : Z) (ps : list Z) (values : list (list Z)) : Prop :=
  Forall2 (fun p s => cstring self m p s /\ a <= p /\ p + Z.of_nat (length s) + 1 <= b) ps values.

Lemma strings_at_kept self lo hi a b c d m m' ps values :
  user_ram self lo hi m -> lo <= a -> b <= hi -> lo <= c -> wrote self c d m m' -> d <= a -> strings_at self m a b ps values -> strings_at self m' a b ps values.
Proof.
  intros Hram Ha Hb Hc Hw Hd. unfold strings_at. destruct (decide (a <= b)) as [Hab|Hab].
  - intros HF. eapply Forall2_impl; [exact HF|]. intros p s (Hs & H1 & H2). split; [|done].
    eapply (holds_kept self lo hi); [exact Hram| | |exact Hw| | | |exact Hs]; rewrite ?length_app; cbn; lia.
  - intros HF. eapply Forall2_impl; [exact HF|]. intros p s (_ & ? & ?). lia.
Qed.
Lemma strings_at_words self m a b ps values : 0 <= a -> b <= USER_SPACE_END -> strings_at self m a b ps values -> Forall in_u64 ps.
Proof.
  intros Ha Hb HF. eapply Forall2_Forall_l; [exact HF|]. apply Forall_forall. intros s _ p (_ & ? & ?). unfold in_u64, USER_SPACE_END in *. lia.
Qed.
Lemma strings_at_ptrs self m a b ps values : 0 < a -> strings_at self m a b ps values -> Forall2 (fun p s => cstring self m p s /\ 0 < p) ps values.
Proof. intros Ha HF. eapply Forall2_impl; [exact HF|]. intros p s (? & ? & ?). split; [done|lia]. Qed.
Lemma length_strings_size values : Z.of_nat (length values) <= strings_size values.
Proof. unfold strings_size. induction values; cbn [foldr length]; lia. Qed.

Section Setup.
Context (self : PageTableManager) (lo top : Z).
Hypothesis Hlo : 0 < lo.
Hypothesis Htop : top <= USER_SPACE_END.

(** The words below the strings, from an aligned stack pointer on. *)
Lemma push_frame_ok m sp argv envp auxv ps es :
  user_ram self lo top m -> (16 | lo) -> lo <= sp <= top ->
  strings_at self m sp top ps argv -> strings_at self m sp top es envp ->
  Z.of_nat (length argv) < u64_size -> Forall (fun e => in_u64 (aux_key e) /\ in_u64 (aux_value e)) auxv ->
  let words := stack_words (Z.of_nat (length argv)) ps es auxv in
  let N := Z.of_nat (length words) in
  let sp4 := if N mod 2 =? 0 then sp / 16 * 16 - 8 else sp / 16 * 16 in
  (if N mod 2 =? 0 then (let? sp := ok_or (checked_sub64 (Z.land sp (not64 15)) 8) E2BIG in if sp <? lo then Err E2BIG else Ok sp) else Ok (Z.land sp (not64 15))) =
    (if sp4 <? lo then Err E2BIG else Ok sp4) /\
  (lo <= sp4 -> exists r m', push_words self lo (reverse words) sp4 m = Ret (r, m') /\ wrote self lo top m m' /\
    if sp4 - 8 * N <? lo then r = Err E2BIG
    else r = Ok (sp4 - 8 * N) /\ stack_ready self m' (sp4 - 8 * N) argv envp auxv ps es).
Proof.
  intros Hram Hal Hsp HA HE Hlen Hx words N sp4.
  change 15 with (2 ^ 4 - 1). rewrite land_not_mask by (unfold in_u64, USER_SPACE_END in *; lia). change (2 ^ 4) with 16. rewrite (Z.mul_comm 16).
  set (sp3 := sp / 16 * 16) in *. assert (Hsp3 : lo <= sp3 <= sp).
  { unfold sp3. pose proof (Z.mul_div_le sp 16 ltac:(lia)). split; [|lia]. destruct Hal as [k Hk]. rewrite Hk in *. pose proof (Z.div_le_lower_bound sp 16 k). lia. }
  split.
  { unfold sp4. destruct (N mod 2 =? 0); [|destruct (Z.ltb_spec sp3 lo); [lia|done]]. unfold checked_sub64. destruct (Z.leb_spec 8 sp3); [done|].
    cbn. by rewrite (proj2 (Z.ltb_lt _ _)) by lia. }
  intros Hge. assert (Hle : sp4 <= sp) by (unfold sp4; destruct (N mod 2 =? 0); lia).
  destruct (push_words_ok self lo top Hlo Htop (reverse words) m sp4 Hram ltac:(lia)) as (r & m' & R & W & H).
  { apply Forall_reverse. unfold words, stack_words. rewrite !Forall_app. unfold in_u64. split_and!; try (repeat constructor; lia).
    - eapply strings_at_words; [| |exact HA]; lia.
    - eapply strings_at_words; [| |exact HE]; lia.
    - apply Forall_bind. eapply Forall_impl; [exact Hx|]. intros e [? ?]. constructor; [done|]. constructor; [done|constructor]. }
  rewrite length_reverse, reverse_involutive in H. fold N in H. exists r, m'. split; [done|].
  assert (W' : wrote self lo top m m') by (eapply wrote_sub; [| |exact W]; lia). split; [done|]. destruct (sp4 - 8 * N <? lo); [done|].
  destruct H as (-> & _ & Hw). split; [done|]. split; [done|..]; apply (strings_at_ptrs self m' sp top); try lia;
    eapply (strings_at_kept self lo top); [exact Hram| | | |exact W| |done| exact Hram| | | |exact W| |done]; lia.
Qed.

Lemma setup_initial_user_stack_ok m n argv envp auxv :
  lo = top - n * PAGE_SIZE -> user_ram self lo top m -> 0 < n -> (16 | lo) ->
  Forall (Forall byte) argv -> Forall (Forall byte) envp -> Forall (fun e => in_u64 (aux_key e) /\ in_u64 (aux_value e)) auxv ->
  exists r m', setup_initial_user_stack self top n argv envp auxv m = Ret (r, m') /\ wrote self lo top m m' /\
    if first_rsp top argv envp auxv <? lo then r = Err E2BIG
    else exists info ps es, r = Ok info /\ user_rsp info = first_rsp top argv envp auxv /\ stack_ready self m' (user_rsp info) argv envp auxv ps es.
Proof.
  intros Elo Hram Hn Hal Ha He Hx. unfold setup_initial_user_stack. destruct (Z.eqb_spec n 0); [lia|].
  unfold checked_mul64. rewrite (proj2 (Z.ltb_lt _ _)) by (unfold PAGE_SIZE, USER_SPACE_END in *; lia). unfold checked_sub64 at 1.
  rewrite (proj2 (Z.leb_le _ _)) by lia. rewrite <- Elo. set (N := 5 + Z.of_nat (length argv) + Z.of_nat (length envp) + 2 * Z.of_nat (length auxv)).
  pose proof (strings_size_nonneg argv) as Hsa. pose proof (strings_size_nonneg envp) as Hse. pose proof (length_strings_size argv) as Hla.
  destruct (push_strings_ok self lo top Hlo Htop (reverse envp) m top [] Hram ltac:(unfold PAGE_SIZE in *; lia)) as (r1 & m1 & R1 & W1 & H1); [by apply Forall_reverse|].
  rewrite (kbind_ret _ _ _ _ _ R1). rewrite strings_size_reverse in H1. set (sp1 := top - strings_size envp) in *.
  assert (Hbot : sp1 < lo \/ sp1 - strings_size argv < lo -> (first_rsp top argv envp auxv <? lo) = true).
  { intros Hor. apply Z.ltb_lt. unfold first_rsp. fold N sp1. pose proof (Z.mul_div_le (sp1 - strings_size argv) 16 ltac:(lia)). destruct (N mod 2 =? 0); lia. }
  destruct (Z.ltb_spec sp1 lo) as [Hlt|Hge]; [subst r1; exists (Err E2BIG), m1; split; [done|]; split; [done|]; by rewrite Hbot by auto|].
  destruct H1 as (es & -> & W1' & HF1). cbn [app] in *.
  pose proof (wrote_ram self lo top lo top m m1 Hram W1 Hram) as Hram1.
  destruct (push_strings_ok self lo top Hlo Htop (reverse argv) m1 sp1 [] Hram1 ltac:(unfold sp1 in *; lia)) as (r2 & m2 & R2 & W2 & H2); [by apply Forall_reverse|].
  rewrite (kbind_ret _ _ _ _ _ R2). rewrite strings_size_reverse in H2. set (sp2 := sp1 - strings_size argv) in *.
  assert (W2t : wrote self lo top m1 m2) by (eapply wrote_sub; [| |exact W2]; unfold sp1; lia).
  pose proof (wrote_ram self lo top lo top m1 m2 Hram1 W2t Hram1) as Hram2. pose proof (wrote_trans self lo top m m1 m2 Hram W1 W2t) as W12.
  destruct (Z.ltb_spec sp2 lo) as [Hlt2|Hge2]; [subst r2; exists (Err E2BIG), m2; split; [done|]; split; [done|]; by rewrite Hbot by auto|].
  destruct H2 as (ps & -> & W2' & HF2). cbn [app] in *. clear Hbot.
  assert (Hsp2 : sp2 <= sp1 <= top) by (unfold sp2, sp1; lia).
  assert (HE : strings_at self m2 sp2 top (reverse es) envp).
  { apply (strings_at_kept self lo top sp1 top lo sp1 m1 m2) in HF1; [|done|lia|lia|lia|done|lia]. apply Forall2_reverse in HF1. rewrite reverse_involutive in HF1.
    eapply Forall2_impl; [exact HF1|]. intros p s0 (? & ? & ?). split; [done|lia]. }
  assert (HA : strings_at self m2 sp2 top (reverse ps) argv).
  { apply Forall2_reverse in HF2. rewrite reverse_involutive in HF2. eapply Forall2_impl; [exact HF2|]. intros p s0 (? & ? & ?). split; [done|lia]. }
  destruct (push_frame_ok m2 sp2 argv envp auxv _ _ Hram2 Hal ltac:(lia) HA HE ltac:(unfold USER_SPACE_END, sp2, sp1 in *; lia) Hx) as [Hpad Hrun].
  pose proof (Forall2_length _ _ _ HE) as L1. pose proof (Forall2_length _ _ _ HA) as L2. rewrite length_stack_words, L1, L2 in Hpad, Hrun |- *.
  replace (Z.of_nat (5 + length argv + length envp + 2 * length auxv)) with N in Hpad, Hrun |- * by (unfold N; lia).
  rewrite Hpad. set (sp4 := if N mod 2 =? 0 then sp2 / 16 * 16 - 8 else sp2 / 16 * 16) in *.
  assert (Hrsp : first_rsp top argv envp auxv = sp4 - 8 * N) by done. rewrite Hrsp.
  destruct (Z.ltb_spec sp4 lo) as [Hlt4|Hge4].
  { exists (Err E2BIG), m2. split; [done|]. split; [done|]. by rewrite (proj2 (Z.ltb_lt _ _)) by lia. }
  destruct (Hrun Hge4) as (r & m' & R & W & H). rewrite (kbind_ret _ _ _ _ _ R). pose proof (wrote_trans self lo top m m2 m' Hram W12 W) as W'.
  destruct (sp4 - 8 * N <? lo); [subst r; by exists (Err E2BIG), m'|]. destruct H as [-> Hready].
  eexists (Ok _), m'. split; [done|]. split; [done|]. eexists _, _, _. by split; [done|].
Qed.
End Setup.

(** ** Reading the arguments back *)
Lemma cstr_scan_ok self m p s n :
  cstring self m p s -> Forall (fun b => b <> 0) s -> (length s < n)%nat -> cstr_scan self n m p = Ret s.
Proof.
  revert p n. induction s as [|b s IH]; intros p n Hc Hz Hn; (destruct n as [|n]; [cbn in Hn; lia|]); cbn [cstr_scan].
  - pose proof (Hc O 0 eq_refl) as H0. rewrite Z.add_0_r in H0. by rewrite H0.
  - inversion Hz as [|? ? Hb Hz']; subst. pose proof (Hc O b eq_refl) as H0. rewrite Z.add_0_r in H0. rewrite H0. mstep.
    destruct (Z.eqb_spec b 0); [done|]. cbn in Hn. rewrite (IH (p + 1) n); [done| |done|lia].
    intros i c Hi. replace (p + 1 + Z.of_nat i) with (p + Z.of_nat (S i)) by lia. by apply Hc.
Qed.

(** The stack that the System V interface promises a program at its entry: from the stack
    pointer on the number of arguments, their pointers and a null pointer, the pointers of the
    environment and a null pointer, and the pairs of the auxiliary vector with a null pair at
    the end; the pointers lead to the strings, each with a zero byte after it. *)
Record abi_stack self (m : Mem) (rsp : Z) (argv envp : list (list Z)) (auxv : list ExecAuxEntry) : Prop := {
  ab_argc : load_usize self m rsp = Ret (Z.of_nat (length argv));
  ab_argv i s : argv !! i = Some s ->
    exists p, p <> 0 /\ load_usize self m (rsp + 8 * Z.of_nat (1 + i)) = Ret p /\ cstring self m p s;
  ab_argv_end : load_usize self m (rsp + 8 * Z.of_nat (1 + length argv)) = Ret 0;
  ab_envp i s : envp !! i = Some s ->
    exists p, p <> 0 /\ load_usize self m (rsp + 8 * Z.of_nat (2 + length argv + i)) = Ret p /\ cstring self m p s;
  ab_envp_end : load_usize self m (rsp + 8 * Z.of_nat (2 + length argv + length envp)) = Ret 0;
  ab_auxv i e : auxv !! i = Some e ->
    load_usize self m (rsp + 8 * Z.of_nat (3 + length argv + length envp + 2 * i)) = Ret (aux_key e) /\
    load_usize self m (rsp + 8 * Z.of_nat (4 + length argv + length envp + 2 * i)) = Ret (aux_value e);
  ab_auxv_end :
    load_usize self m (rsp + 8 * Z.of_nat (3 + length argv + length envp + 2 * length auxv)) = Ret 0 /\
    load_usize self m (rsp + 8 * Z.of_nat (4 + length argv + length envp + 2 * length auxv)) = Ret 0
}.

Lemma aux_words_lookup (auxv : list ExecAuxEntry) i e tail :
  auxv !! i = Some e ->
  ((auxv ≫= fun e => [aux_key e; aux_value e]) ++ tail) !! (2 * i)%nat = Some (aux_key e) /\
  ((auxv ≫= fun e => [aux_key e; aux_value e]) ++ tail) !! S (2 * i) = Some (aux_value e).
Proof.
  revert i. induction auxv as [|x auxv IH]; intros i Hi; [done|]. destruct i as [|i]; [injection Hi as ->; done|].
  replace (2 * S i)%nat with (S (S (2 * i))) by lia. by apply IH.
Qed.
Lemma length_aux_words (auxv : list ExecAuxEntry) : length (auxv ≫= fun e => [aux_key e; aux_value e]) = (2 * length auxv)%nat.
Proof. induction auxv as [|x auxv IH]; [done|]. rewrite bind_cons, length_app, IH. cbn [length]. lia. Qed.

Lemma lookup_behind {A} (x : A) (l1 l2 : list A) j : (x :: l1 ++ l2) !! S (length l1 + j) = l2 !! j.
Proof. change ((l1 ++ l2) !! (length l1 + j)%nat = l2 !! j). rewrite lookup_app_r by lia. f_equal. lia. Qed.

Lemma stack_ready_abi self m rsp argv envp auxv ps es :
  stack_ready self m rsp argv envp auxv ps es -> abi_stack self m rsp argv envp auxv.
Proof.
  intros [Hw HA HE]. pose proof (Forall2_length _ _ _ HA) as La. pose proof (Forall2_length _ _ _ HE) as Le.
  assert (Hat : forall j w, stack_words (Z.of_nat (length argv)) ps es auxv !! j = Some w -> load_usize self m (rsp + 8 * Z.of_nat j) = Ret w) by exact Hw.
  unfold stack_words in Hat. cbn [app] in Hat.
  assert (Htail : forall j w, (es ++ [0] ++ (auxv ≫= fun e => [aux_key e; aux_value e]) ++ [0; 0]) !! j = Some w ->
    load_usize self m (rsp + 8 * Z.of_nat (2 + length argv + j)) = Ret w).
  { intros j w Hj. replace (2 + length argv + j)%nat with (S (length ps + S j)) by lia. apply Hat. rewrite lookup_behind. exact Hj. }
  assert (Haux : forall j w, ((auxv ≫= fun e => [aux_key e; aux_value e]) ++ [0; 0]) !! j = Some w ->
    load_usize self m (rsp + 8 * Z.of_nat (3 + length argv + length envp + j)) = Ret w).
  { intros j w Hj. replace (3 + length argv + length envp + j)%nat with (2 + length argv + (S (length es) + j))%nat by lia. apply Htail.
    change ((0 :: es ++ [0] ++ (auxv ≫= fun e => [aux_key e; aux_value e]) ++ [0; 0]) !! S (S (length es) + j) = Some w).
    replace (S (S (length es) + j)) with (S (length es + S j)) by lia. rewrite lookup_behind. exact Hj. }
  split.
  - pose proof (Hat O _ eq_refl) as H0. by rewrite Z.add_0_r in H0.
  - intros i s0 Hs. destruct (Forall2_lookup_r _ _ _ _ _ HA Hs) as (q & Hq & Hc & Hpos). exists q. split; [lia|]. split; [|done].
    apply Hat. cbn. by apply lookup_app_l_Some.
  - apply Hat. cbn. rewrite <- La. by apply list_lookup_middle.
  - intros i s0 Hs. destruct (Forall2_lookup_r _ _ _ _ _ HE Hs) as (q & Hq & Hc & Hpos). exists q. split; [lia|]. split; [|done].
    apply Htail. by apply lookup_app_l_Some.
  - apply Htail. by apply list_lookup_middle.
  - intros i e He. destruct (aux_words_lookup auxv i e [0; 0] He) as [H1 H2]. split; [by apply Haux|].
    replace (4 + length argv + length envp + 2 * i)%nat with (3 + length argv + length envp + S (2 * i))%nat by lia. by apply Haux.
  - split; [|replace (4 + length argv + length envp + 2 * length auxv)%nat with (3 + length argv + length envp + S (2 * length auxv))%nat by lia];
      apply Haux; rewrite lookup_app_r by (rewrite length_aux_words; lia); rewrite length_aux_words; [by rewrite Nat.sub_diag|].
    by replace (S (2 * length auxv) - 2 * length auxv)%nat with 1%nat by lia.
Qed.

(** What [argv_at] of the runtime reads, given the address of the argument pointers. *)
Lemma abi_stack_args self m rsp argv envp auxv :
  abi_stack self m rsp argv envp auxv ->
  (forall i s, argv !! i = Some s -> Forall (fun b => b <> 0) s -> (length s < 4096)%nat ->
     argv_at self m (rsp + 8) (Z.of_nat i) = Ret (if valid_utf8 s then Some s else None)) /\
  argv_at self m (rsp + 8) (Z.of_nat (length argv)) = Ret None.
Proof.
  intros [_ HA Hend _ _ _ _]. split.
  - intros i s Hs Hz Hl. destruct (HA i s Hs) as (p & Hp & Hld & Hc). unfold argv_at.
    replace (rsp + 8 + 8 * Z.of_nat i) with (rsp + 8 * Z.of_nat (1 + i)) by lia. rewrite Hld. mstep.
    destruct (Z.eqb_spec p 0); [lia|]. unfold cstr_to_str. by rewrite (cstr_scan_ok self m p s 4096 Hc Hz Hl).
  - unfold argv_at. replace (rsp + 8 + 8 * Z.of_nat (length argv)) with (rsp + 8 * Z.of_nat (1 + length argv)) by lia. by rewrite Hend.
Qed.

(** C15. The stack of a new program.  The strings, the words and nothing else are written, inside
    the stack; [E2BIG] is returned exactly when they do not fit.  Otherwise the stack pointer
    handed to the program is eight bytes off a multiple of sixteen, as after a call, and from it
    on lies what the System V interface promises: the number of arguments, their pointers, the
    environment and the auxiliary vector, each closed by a null, the pointers leading to the
    strings with their final zero byte.  Given the address of the argument pointers, [argv_at] of
    the programs' runtime returns each argument that is UTF-8, without zero bytes and shorter
    than the 4096 bytes it looks at, and nothing after the last.  (How a program finds that
    address from its stack pointer is not part of this: the runtime reads the register in a
    compiled function.) *)
Theorem programs_receive_their_arguments self m top n argv envp auxv :
  let lo := top - n * PAGE_SIZE in
  0 < lo -> top <= USER_SPACE_END -> user_ram self lo top m -> 0 < n -> (16 | lo) ->
  Forall (Forall byte) argv -> Forall (Forall byte) envp -> Forall (fun e => in_u64 (aux_key e) /\ in_u64 (aux_value e)) auxv ->
  exists r m', setup_initial_user_stack self top n argv envp auxv m = Ret (r, m') /\ wrote self lo top m m' /\
    if first_rsp top argv envp auxv <? lo then r = Err E2BIG
    else exists info, r = Ok info /\ user_rsp info = first_rsp top argv envp auxv /\ lo <= user_rsp info /\ user_rsp info mod 16 = 8 /\
      abi_stack self m' (user_rsp info) argv envp auxv /\
      let argv_addr := user_rsp info + 8 in
      (forall i s, argv !! i = Some s -> Forall (fun b => b <> 0) s -> (length s < 4096)%nat ->
         argv_at self m' argv_addr (Z.of_nat i) = Ret (if valid_utf8 s then Some s else None)) /\
      argv_at self m' argv_addr (Z.of_nat (length argv)) = Ret None.
Proof.
  intros lo Hlo Htop Hram Hn Hal Ha He Hx.
  destruct (setup_initial_user_stack_ok self lo top Hlo Htop m n argv envp auxv eq_refl Hram Hn Hal Ha He Hx) as (r & m' & R & W & H).
  exists r, m'. split; [done|]. split; [done|]. destruct (Z.ltb_spec (first_rsp top argv envp auxv) lo) as [|Hge]; [done|].
  destruct H as (info & ps & es & -> & Hrsp & Hready). exists info. pose proof (stack_ready_abi _ _ _ _ _ _ _ _ Hready) as Habi.
  destruct (abi_stack_args _ _ _ _ _ _ Habi) as [H1 H2].
  split; [done|]. split; [done|]. split; [by rewrite Hrsp|]. split; [rewrite Hrsp; apply first_rsp_alignment|]. done.
Qed.
