(* ===== verification/ExecLoad.v ===== *)
(** * Loading a program: kernel/src/task/proc/exec.rs

    Mapping the pages of a load plan into the current address space, filling them from the
    file, and taking everything back when something fails.  The operations run on the state of
    the page allocators, like those of [Paging]; [self] is the page-table manager that
    [current_page_table_manager] makes.  The pages mapped so far are threaded through as the
    code threads its vector, since the way back needs them.  Diagnostic output is left out. *)

From S2P Require Import Prelude Errno Vma MmSyscall Page Zone Pcp Buddy PageEntry Paging PageWalk PagingMap PagingUnmap Block Elf.
#[local] Open Scope Z_scope.

Inductive ExecMappedPageKind := Segment | Stack.
Record ExecMappedPage := mkMapped { mp_virt : Z; mp_phys : Z; mp_flags : Z; mp_kind : ExecMappedPageKind }.

Definition GFP_F_USER : Z := 2048.
(** [GFP_USER] with [ZERO]. *)
Definition user_zero_gfp : Z := Z.lor (Z.lor GFP_F_USER GFP_F_NORMAL) GFP_F_ZERO.
Definition STACK_FLAGS : Z := Z.lor (Z.lor (Z.lor PTE_PRESENT PTE_USER) PTE_WRITABLE) PTE_NO_EXECUTE.

Definition ranges_overlap (start_a end_a start_b end_b : Z) : bool := (start_a <? end_b) && (start_b <? end_a).

Section Load.
Context (apic_id : Z) (self : PageTableManager).

(** The address of page number [idx] of a range. *)
Definition page_addr (start idx : Z) : Result Z Z :=
  let? page_offset := ok_or (checked_mul64 idx PAGE_SIZE) E2BIG in
  ok_or (checked_add64 start page_offset) E2BIG.

(** ** Checks *)
Fixpoint pages_unmapped (m : Mem) (start : Z) (idxs : list Z) : Result unit Z :=
  match idxs with
  | [] => Ok tt
  | idx :: idxs' =>
      let? virt := page_addr start idx in
      if bool_decide (is_Some (translate_addr self virt m)) then Err EBUSY else pages_unmapped m start idxs'
  end.
Fixpoint segments_unmapped (m : Mem) (segs : list ExecLoadSegmentPlan) : Result unit Z :=
  match segs with
  | [] => Ok tt
  | segment :: segs' =>
      let? _ := pages_unmapped m (page_start segment) (zrange 0 (page_count segment)) in
      segments_unmapped m segs'
  end.
Definition validate_target_unmapped (m : Mem) (plan : ExecLoadPlan) (stack_bottom : Z) : Result unit Z :=
  let? _ := segments_unmapped m (segments plan) in
  pages_unmapped m stack_bottom (zrange 0 (plan_stack_pages plan)).

(** ** One page *)
Definition map_zero_page (virt flags : Z) (kind : ExecMappedPageKind) (mapped : list ExecMappedPage)
    : Kern (Result Z Z * list ExecMappedPage) :=
  r ← alloc_page apic_id user_zero_gfp;
  match r with
  | None => mret (Err ENOMEM, mapped)
  | Some page =>
      pfn ← gets (fun m => page_to_pfn m page);
      max ← gets max_pfn;
      if max <=? pfn then mret (Err E2BIG, mapped)
      else
        match checked_mul64 pfn PAGE_SIZE with
        | None => mret (Err E2BIG, mapped)
        | Some phys =>
            '(mapped_ok, _) ← map_page apic_id self virt phys flags;
            if negb mapped_ok then free_page apic_id page;; mret (Err ENOMEM, mapped)
            else
              inc_mapcount page;;
              mret (Ok phys, mapped ++ [mkMapped virt phys flags kind])
        end
  end.

(** [copy_nonoverlapping] from the file to the direct mapping. *)
Definition copy_from_image (image : list Z) (src dst len : Z) : Kern unit :=
  modify (fun m => set_phys m (fun x => if (dst <=? x) && (x <? dst + len) then byte_at image (src + (x - dst)) else phys m x)).

Definition copy_segment_page_data (image : list Z) (segment : ExecLoadSegmentPlan) (virt_page_start phys_page_start : Z) : Kern (Result unit Z) :=
  match checked_add64 (vaddr segment) (file_size segment) with
  | None => mret (Err E2BIG)
  | Some segment_file_end =>
      if file_size segment =? 0 then mret (Ok tt)
      else
        match checked_add64 virt_page_start PAGE_SIZE with
        | None => mret (Err E2BIG)
        | Some page_end =>
            let copy_start := Z.max virt_page_start (vaddr segment) in
            let copy_end := Z.min page_end segment_file_end in
            if copy_end <=? copy_start then mret (Ok tt)
            else
              let range :=
                let? src_delta := ok_or (checked_sub64 copy_start (vaddr segment)) EINVAL in
                let? src_offset := ok_or (checked_add64 (file_offset segment) src_delta) E2BIG in
                let copy_len := sub64 copy_end copy_start in
                let? src_end := ok_or (checked_add64 src_offset copy_len) E2BIG in
                if Z.of_nat (length image) <? src_end then Err EINVAL
                else
                  let? page_offset := ok_or (checked_sub64 copy_start virt_page_start) EINVAL in
                  let? _ := ok_or (checked_add64 (saturating_add64 phys_page_start (direct_map_offset self)) page_offset) E2BIG in
                  Ok (src_offset, page_offset, copy_len) in
              match range with
              | Err err => mret (Err err)
              | Ok (src_offset, page_offset, copy_len) =>
                  copy_from_image image src_offset (phys_page_start + page_offset) copy_len;; mret (Ok tt)
              end
        end
  end.

(** ** The way back *)
Definition release_mapped_phys_page (phys : Z) : Kern unit :=
  let pfn := phys / PAGE_SIZE in
  max ← gets max_pfn;
  if max <=? pfn then mret tt
  else
    page ← gets (fun m => pfn_to_page m pfn);
    pg ← get_page page;
    when (0 <=? mapcount pg) (try_dec_mapcount page;; mret tt);;
    pg ← get_page page;
    if refcount pg =? 0 then mret tt else free_page apic_id page.

Fixpoint rollback_loop (l : list ExecMappedPage) : Kern unit :=
  match l with
  | [] => mret tt
  | page :: l' => unmap_page apic_id self (mp_virt page);; release_mapped_phys_page (mp_phys page);; rollback_loop l'
  end.
Definition rollback_exec_mappings (mapped : list ExecMappedPage) : Kern unit := rollback_loop (reverse mapped).

Fixpoint unmap_each (l : list ExecMappedPage) : Kern unit :=
  match l with
  | [] => mret tt
  | page :: l' => unmap_page apic_id self (mp_virt page);; unmap_each l'
  end.
Definition unmap_exec_mappings (mapped : list ExecMappedPage) : Kern unit := unmap_each (reverse mapped).

(** The loop over the pages; [done_] is the part that is mapped again. *)
Fixpoint remap_loop (l done_ : list ExecMappedPage) : Kern (Result unit Z) :=
  match l with
  | [] => mret (Ok tt)
  | page :: l' =>
      '(mapped_ok, _) ← map_page apic_id self (mp_virt page) (mp_phys page) (mp_flags page);
      if negb mapped_ok then unmap_each (reverse done_);; mret (Err ENOMEM)
      else remap_loop l' (done_ ++ [page])
  end.
Definition remap_exec_mappings (mapped : list ExecMappedPage) : Kern (Result unit Z) := remap_loop mapped [].

(** ** The plan *)
Fixpoint map_segment_pages (image : list Z) (segment : ExecLoadSegmentPlan) (idxs : list Z) (mapped : list ExecMappedPage)
    : Kern (Result unit Z * list ExecMappedPage) :=
  match idxs with
  | [] => mret (Ok tt, mapped)
  | idx :: idxs' =>
      match page_addr (page_start segment) idx with
      | Err err => mret (Err err, mapped)
      | Ok virt =>
          '(r, mapped) ← map_zero_page virt (map_flags segment) Segment mapped;
          match r with
          | Err err => mret (Err err, mapped)
          | Ok phys =>
              r ← copy_segment_page_data image segment virt phys;
              match r with
              | Err err => mret (Err err, mapped)
              | Ok _ => map_segment_pages image segment idxs' mapped
              end
          end
      end
  end.
Fixpoint map_segments (image : list Z) (segs : list ExecLoadSegmentPlan) (mapped : list ExecMappedPage)
    : Kern (Result unit Z * list ExecMappedPage) :=
  match segs with
  | [] => mret (Ok tt, mapped)
  | segment :: segs' =>
      '(r, mapped) ← map_segment_pages image segment (zrange 0 (page_count segment)) mapped;
      match r with
      | Err err => mret (Err err, mapped)
      | Ok _ => map_segments image segs' mapped
      end
  end.
Fixpoint map_stack_pages (stack_bottom : Z) (idxs : list Z) (mapped : list ExecMappedPage)
    : Kern (Result unit Z * list ExecMappedPage) :=
  match idxs with
  | [] => mret (Ok tt, mapped)
  | idx :: idxs' =>
      match page_addr stack_bottom idx with
      | Err err => mret (Err err, mapped)
      | Ok virt =>
          '(r, mapped) ← map_zero_page virt STACK_FLAGS Stack mapped;
          match r with
          | Err err => mret (Err err, mapped)
          | Ok _ => map_stack_pages stack_bottom idxs' mapped
          end
      end
  end.

(** The checks of the plan before anything is mapped; the result is the lower end of the
    stack. *)
Definition check_plan (plan : ExecLoadPlan) : Result Z Z :=
  let? stack_bytes := ok_or (checked_mul64 (plan_stack_pages plan) PAGE_SIZE) E2BIG in
  let? stack_bottom := ok_or (checked_sub64 (stack_top plan) stack_bytes) EINVAL in
  if stack_bottom <? USER_SPACE_START then Err EINVAL
  else if stack_top plan <=? stack_bottom then Err EINVAL
  else if negb (is_user_addr stack_bottom) || negb (is_user_addr (sub64 (stack_top plan) 1)) then Err EINVAL
  else if existsb (fun s => ranges_overlap (page_start s) (page_end s) stack_bottom (stack_top plan)) (segments plan) then Err EINVAL
  else Ok stack_bottom.

(** The closure whose result decides about the way back. *)
Definition stage_body (image : list Z) (plan : ExecLoadPlan) : Kern (Result unit Z * list ExecMappedPage) :=
  match check_plan plan with
  | Err err => mret (Err err, [])
  | Ok stack_bottom =>
      valid ← gets (fun m => validate_target_unmapped m plan stack_bottom);
      match valid with
      | Err err => mret (Err err, [])
      | Ok _ =>
          '(r, mapped) ← map_segments image (segments plan) [];
          match r with
          | Err err => mret (Err err, mapped)
          | Ok _ => map_stack_pages stack_bottom (zrange 0 (plan_stack_pages plan)) mapped
          end
      end
  end.

Definition stage_pt_load_mappings (image : list Z) (plan : ExecLoadPlan) : Kern (Result (list ExecMappedPage) Z) :=
  '(r, mapped) ← stage_body image plan;
  match r with
  | Err err => rollback_exec_mappings mapped;; mret (Err err)
  | Ok _ => mret (Ok mapped)
  end.
End Load.
