(* ===== verification/ExecPages.v ===== *)
(** * Pages of a program: what one step of loading does

    [map_zero_page] and [copy_segment_page_data] against the invariants of the address space
    and of the page allocators: one page more is mapped, with the contents it should have, and
    all other pages in use keep their contents. *)

From S2P Require Import Prelude Errno Vma MmSyscall Page Zone Pcp Buddy PageEntry Paging PageWalk PagingMap PagingUnmap Block BlockTheorems Elf ExecLoad.
#[local] Open Scope Z_scope.

Section Pages.
Context (apic : Z) (self : PageTableManager).
Hypothesis Ha : 0 <= apic.

Abbreviation tbl := (tbl (levels self) (root_phys self)).
Abbreviation in_use := (in_use (levels self) (root_phys self)).
Abbreviation same_data := (same_data (levels self) (root_phys self)).
Abbreviation own_way := (own_way (levels self) (root_phys self)).
Abbreviation extends := (extends (levels self) (root_phys self)).
Abbreviation same_tables := (same_tables (levels self) (root_phys self)).

Abbreviation preserves := (preserves (levels self) (root_phys self)).

Lemma inc_mapcount_ok m B q pg :
  mem_ok m B -> B !! q = Some (mkBlock InUse 0) -> pages m !! pfn_to_page m q = Some pg ->
  let f := with_mapcount (wrap_i32 (mapcount pg + 1)) in
  exists m', inc_mapcount (pfn_to_page m q) m = Ret (wrap_i32 (mapcount pg + 1), m') /\ prepared m B q m' /\ pages m' !! pfn_to_page m q = Some (f pg).
Proof.
  intros Hok Hb Hpg f. destruct (step_page m B q 0 Hb m pg f) as (m' & R & P & _ & G); try done.
  exists m'. split; [|done]. unfold inc_mapcount. rewrite (kbind_ret _ _ _ _ _ (get_page_ok _ _ _ Hpg)). by rewrite (kbind_ret _ _ _ _ _ R).
Qed.

(** ** One page of the program *)
(** The outcome of mapping a page for [virt]. *)
Record page_mapped (m : Mem) (B : gmap Z Block) (virt fl q : Z) (m' : Mem) (B' : gmap Z Block) : Prop := {
  pm_bound : 0 <= q < max_pfn m;
  pm_use : in_use m' B' q;
  pm_new r : in_use m B r -> r <> q;
  pm_page : exists pg, pages m' !! pfn_to_page m q = Some pg /\ refcount pg = 1;
  pm_mapping w : mapping self m' w = if decide (on_page self virt w) then Some (q * PAGE_SIZE + w mod PAGE_SIZE, fl) else mapping self m w
}.

Lemma map_zero_page_ok m B virt fl kind mapped :
  manager_ok self m B -> page_flags fl -> mapping self m virt = None ->
  exists r mapped' m' B', map_zero_page apic self virt fl kind mapped m = Ret ((r, mapped'), m') /\ manager_ok self m' B' /\ preserves m B m' B' /\
    (has_bit fl PTE_USER = true -> own_way m B virt -> extends m B m' B') /\
    match r with
    | Ok ph => exists q, ph = q * PAGE_SIZE /\ mapped' = mapped ++ [mkMapped virt ph fl kind] /\ page_mapped m B virt fl q m' B' /\
        forall x, 0 <= x < PAGE_SIZE -> phys m' (q * PAGE_SIZE + x) = 0
    | Err e => e = ENOMEM /\ mapped' = mapped /\ forall w, mapping self m' w = mapping self m w
    end.
Proof.
  intros Hok Hfl Hnone. unfold map_zero_page.
  destruct (alloc_page_fine self apic Ha user_zero_gfp m B Hok) as (r & m1 & B1 & R1 & Hfine1 & H1). rewrite (kbind_ret _ _ _ _ _ R1). destruct r as [page|].
  2: { destruct (advance_space self m B m1 B1 Hok H1 Hfine1) as (A1 & A2 & _ & A4 & A5). exists (Err ENOMEM), mapped, m1, B1. done. }
  destruct H1 as (q & -> & Htk & (pg & Hpg & Hrc & _) & Hze). pose proof (tk_frame _ _ _ _ _ _ Htk) as F1. pose proof (tk_new _ _ _ _ _ _ Htk) as Hnew.
  destruct (takes_space self m B m1 B1 q Hok Htk Hfine1) as (Hok1 & Hm1 & Ht1 & P1 & E1 & Hu1 & Hn1).
  { intros a Hout. rewrite Hze. destruct (Z.leb_spec (q * PAGE_SIZE) a), (Z.ltb_spec a (q * PAGE_SIZE + PAGE_SIZE)); try done. lia. }
  pose proof (cached_bounds m1 B1 q _ (tk_ok _ _ _ _ _ _ Htk) Hnew) as Hb. rewrite (fr_max _ _ F1) in Hb. pose proof (mem_ok_layout _ _ (so_mem _ _ _ _ (proj2 Hok))) as Hl.
  rewrite (kbind_ret (gets _) _ m1 q m1) by (unfold gets; rewrite (frame_page_to_pfn m m1), page_to_pfn_ok by (done || apply Hl); done).
  rewrite (kbind_ret (gets _) _ m1 (max_pfn m) m1) by (unfold gets; by rewrite (fr_max _ _ F1)). destruct (Z.leb_spec (max_pfn m) q); [lia|].
  pose proof (so_max _ _ _ _ (proj2 Hok)) as Hmax. assert (Hfa : frame_addr (q * PAGE_SIZE)) by (split; [by exists q|unfold PAGE_SIZE in *; lia]).
  unfold checked_mul64. destruct (Z.ltb_spec (q * PAGE_SIZE) u64_size); [|unfold PAGE_SIZE in *; lia].
  destruct (map_page_ok apic self m1 B1 virt (q * PAGE_SIZE) fl Hok1 Ha Hfa Hfl) as (ok & fsh & m2 & B2 & R2 & Hok2 & F2 & Htab & Hkeep & Hext & Hres).
  { intros pa f Hpa. by rewrite Hm1, Hnone in Hpa. }
  rewrite (kbind_ret _ _ _ _ _ R2).
  pose proof (keeps_preserves self m1 B1 m2 B2 Hok1 F2 Htab (Hkeep ltac:(by rewrite Hm1))) as P2.
  pose proof (pv_use _ _ _ _ _ _ P2 q Hu1) as Hu2.
  assert (Hpg2 : pages m2 !! pfn_to_page m1 q = Some pg) by (by rewrite (pv_pages _ _ _ _ _ _ P2)).
  destruct ok; cbn [negb].
  - destruct Hres as [Hmap _]. rewrite (frame_pfn_to_page m m1) in Hpg2 by done.
    assert (F12 : frame m m2) by (by transitivity m1). rewrite <- (frame_pfn_to_page m m2) in Hpg2 |- * by done.
    destruct (inc_mapcount_ok m2 B2 q pg (so_mem _ _ _ _ (proj2 Hok2)) (proj1 Hu2) Hpg2) as (m3 & R3 & P3 & G3). rewrite (kbind_ret _ _ _ _ _ R3).
    rewrite (frame_pfn_to_page m m2) in G3 by done.
    destruct (prepared_space self m2 B2 q m3 Hok2 Hu2 P3) as (Hok3 & Hm3 & _ & Hph3 & F3 & E3 & Hu3 & Hp3).
    eexists (Ok _), _, m3, B2. split; [done|]. split; [done|]. pose proof (preserves_trans _ _ _ _ _ _ _ _ P1 P2) as P12.
    assert (E2 : has_bit fl PTE_USER = true -> own_way m B virt -> extends m1 B1 m2 B2) by (intros _ Hway; apply Hext; [by rewrite Hm1|by apply E1]).
    split; [|split; [intros Hus Hway w Hw; by apply E3, E2, E1|]].
    + split; [by transitivity m2| | |].
      * intros r Hr. apply Hu3. by apply P12.
      * intros r Hr. rewrite <- (pv_pages _ _ _ _ _ _ P12) by done. rewrite <- (frame_pfn_to_page m m2) by done. apply Hp3; [by apply Hn1|by apply P12].
      * intros r x Hr Hx. rewrite Hph3. by apply (pv_data _ _ _ _ _ _ P12).
    + exists q. split; [done|]. split; [done|]. split.
      * split; [done|by apply Hu3|done|by eexists|]. intros w. rewrite Hm3, Hmap. by rewrite Hm1.
      * intros x Hx. rewrite Hph3, (pv_data _ _ _ _ _ _ P2), Hze by done.
        by rewrite (proj2 (Z.leb_le _ _)), (proj2 (Z.ltb_lt _ _)) by lia.
  - destruct Hres as (Hmap & _). rewrite (frame_pfn_to_page m m1) in Hpg2 by done.
    assert (F12 : frame m m2) by (by transitivity m1). rewrite <- (frame_pfn_to_page m m2) in Hpg2 |- * by done.
    destruct (free_page_ok apic m2 B2 q pg (so_mem _ _ _ _ (proj2 Hok2)) (so_pcp _ _ _ _ (proj2 Hok2)) Ha (proj1 Hu2) Hpg2 ltac:(lia)) as (m3 & B3 & R3 & Hret).
    rewrite (kbind_ret _ _ _ _ _ R3). destruct (returned_preserves self m2 B2 q m3 B3 Hok2 Hret (proj2 Hu2)) as (Hok3 & Hm3 & _ & E3 & Hr3).
    exists (Err ENOMEM), mapped, m3, B3. split; [done|]. split; [done|]. pose proof (preserves_trans _ _ _ _ _ _ _ _ P1 P2) as P12.
    split; [|split; [intros Hus Hway w Hw; apply E3, Hext; [by rewrite Hm1|by apply E1|by apply E1]|]].
    + split; [transitivity m2; [done|apply Hret]| | |].
      * intros r Hr. apply Hr3; [by apply Hn1|by apply P12].
      * intros r Hr. rewrite <- (pv_pages _ _ _ _ _ _ P12) by done. rewrite <- (frame_pfn_to_page m m2) by done. apply Hr3; [by apply Hn1|by apply P12].
      * intros r x Hr Hx. rewrite (rt_phys _ _ _ _ _ Hret). by apply (pv_data _ _ _ _ _ _ P12).
    + split; [done|]. split; [done|]. intros w. by rewrite Hm3, Hmap, Hm1.
Qed.

(** ** The bytes of a segment *)
(** What a program finds at an address of a segment. *)
Definition segment_byte (image : list Z) (s : ExecLoadSegmentPlan) (v : Z) : Z :=
  if (vaddr s <=? v) && (v <? vaddr s + file_size s) then byte_at image (file_offset s + (v - vaddr s)) else 0.

Lemma copy_segment_page_data_ok image s virt q m B :
  segment_ok (Z.of_nat (length image)) s -> page_start s <= virt -> virt + PAGE_SIZE <= page_end s ->
  manager_ok self m B -> in_use m B q -> (forall x, 0 <= x < PAGE_SIZE -> phys m (q * PAGE_SIZE + x) = 0) ->
  0 <= q < max_pfn m -> 0 <= direct_map_offset self -> max_pfn m * PAGE_SIZE + direct_map_offset self <= U64_MAX ->
  Z.of_nat (length image) < u64_size ->
  exists m', copy_segment_page_data self image s virt (q * PAGE_SIZE) m = Ret (Ok tt, m') /\
    (exists f, m' = set_phys m f) /\ (forall a, ~ (q * PAGE_SIZE <= a < q * PAGE_SIZE + PAGE_SIZE) -> phys m' a = phys m a) /\
    forall x, 0 <= x < PAGE_SIZE -> phys m' (q * PAGE_SIZE + x) = segment_byte image s (virt + x).
Proof.
  intros [(s1 & s2 & s3) (f1 & f2 & f3) _ (g1 & g2) (u1 & u2) _] Hv1 Hv2 Hok Hu Hz Hq Hd0 Hd Hlen. unfold copy_segment_page_data, USER_SPACE_END in *.
  unfold checked_add64 at 1. rewrite (proj2 (Z.ltb_lt _ _)) by lia.
  assert (Hnil : (forall x, 0 <= x < PAGE_SIZE -> segment_byte image s (virt + x) = 0) -> exists m', (mret (Ok tt) : Kern (Result unit Z)) m = Ret (Ok tt, m') /\
    (exists f, m' = set_phys m f) /\ (forall a, ~ (q * PAGE_SIZE <= a < q * PAGE_SIZE + PAGE_SIZE) -> phys m' a = phys m a) /\
    forall x, 0 <= x < PAGE_SIZE -> phys m' (q * PAGE_SIZE + x) = segment_byte image s (virt + x)).
  { intros H0. exists m. split; [done|]. split; [exists (phys m); by destruct m|]. split; [done|]. intros x Hx. by rewrite H0, Hz. }
  destruct (Z.eqb_spec (file_size s) 0) as [Hf0|Hf0].
  { apply Hnil. intros x Hx. unfold segment_byte. destruct (Z.leb_spec (vaddr s) (virt + x)), (Z.ltb_spec (virt + x) (vaddr s + file_size s)); try done. lia. }
  unfold checked_add64 at 1. rewrite (proj2 (Z.ltb_lt _ _)) by (unfold PAGE_SIZE in *; lia).
  set (cs := Z.max virt (vaddr s)). set (ce := Z.min (virt + PAGE_SIZE) (vaddr s + file_size s)). destruct (Z.leb_spec ce cs) as [Hle|Hlt].
  { apply Hnil. intros x Hx. unfold segment_byte. destruct (Z.leb_spec (vaddr s) (virt + x)), (Z.ltb_spec (virt + x) (vaddr s + file_size s)); try done. lia. }
  unfold checked_sub64. rewrite (proj2 (Z.leb_le _ _)) by lia. cbn [ok_or]. unfold checked_add64. rewrite (proj2 (Z.ltb_lt _ _)) by lia. cbn [ok_or].
  rewrite sub64_small by lia. rewrite (proj2 (Z.ltb_lt (file_offset s + (cs - vaddr s) + (ce - cs)) _)) by lia. cbn [ok_or].
  rewrite (proj2 (Z.ltb_ge _ _)) by lia. rewrite (proj2 (Z.leb_le _ _)) by lia. cbn [ok_or].
  assert (Hsat : saturating_add64 (q * PAGE_SIZE) (direct_map_offset self) = q * PAGE_SIZE + direct_map_offset self) by (unfold saturating_add64, PAGE_SIZE in *; lia).
  rewrite Hsat. rewrite (proj2 (Z.ltb_lt _ _)) by (unfold PAGE_SIZE in *; lia). cbn [ok_or]. unfold copy_from_image.
  set (dst := q * PAGE_SIZE + (cs - virt)). set (f := fun x : Z => if (dst <=? x) && (x <? dst + (ce - cs)) then byte_at image (file_offset s + (cs - vaddr s) + (x - dst)) else phys m x). rewrite (kbind_ret (modify _) _ m tt (set_phys m f)) by done.
  exists (set_phys m f). split; [done|]. split; [by exists f|]. cbn. split.
  - intros a Hout. unfold f. destruct (Z.leb_spec dst a), (Z.ltb_spec a (dst + (ce - cs))); try done. lia.
  - intros x Hx. unfold f, segment_byte. destruct (Z.leb_spec dst (q * PAGE_SIZE + x)), (Z.ltb_spec (q * PAGE_SIZE + x) (dst + (ce - cs))),
      (Z.leb_spec (vaddr s) (virt + x)), (Z.ltb_spec (virt + x) (vaddr s + file_size s)); cbn [andb]; try lia; try (by apply Hz).
    f_equal. lia.
Qed.
End Pages.
