(* ===== verification/ExecStage.v ===== *)
(** * Loading as a sequence of pages

    The pages of a plan are added one by one ([progress]) and taken back one by one.  From
    these two steps follow the loops of [stage_pt_load_mappings] and of
    [rollback_exec_mappings]. *)

From S2P Require Import Prelude Errno Vma MmSyscall Page Zone Pcp Buddy PageEntry Paging PageWalk PagingMap PagingUnmap Block BlockTheorems Elf ExecLoad ExecPages.
#[local] Open Scope Z_scope.

Lemma snoc_of {A} (l : list A) : (0 < length l)%nat -> exists l1 x, l = l1 ++ [x].
Proof. destruct l as [|x l _] using rev_ind; [cbn; lia|]. intros _. by exists l, x. Qed.

Section Stage.
Context (self : PageTableManager).

Abbreviation tbl := (tbl (levels self) (root_phys self)).
Abbreviation in_use := (in_use (levels self) (root_phys self)).
Abbreviation preserves := (preserves (levels self) (root_phys self)).
Abbreviation own_way := (own_way (levels self) (root_phys self)).
Abbreviation extends := (extends (levels self) (root_phys self)).

(** Addresses of user programs lie on one page exactly when they have the same page number. *)
Lemma on_page_user v w :
  page_levels self = 4 \/ page_levels self = 5 -> 0 <= v < USER_SPACE_END -> 0 <= w < USER_SPACE_END ->
  on_page self v w <-> v / PAGE_SIZE = w / PAGE_SIZE.
Proof. intros Hlv Hv Hw. unfold USER_SPACE_END in *. apply on_page_block; [done|]. by rewrite !Z.div_small by lia. Qed.

(** ** Pages that have been loaded *)
(** The address of the page, the flags of its mapping, and the bytes by address. *)
Record LoadedPage := mkLoaded { lp_virt : Z; lp_flags : Z; lp_bytes : Z -> Z }.
Definition user_page (d : LoadedPage) : Prop :=
  (PAGE_SIZE | lp_virt d) /\ 0 <= lp_virt d < USER_SPACE_END /\ page_flags (lp_flags d) /\ has_bit (lp_flags d) PTE_USER = true.

Lemma on_page_eq (d d' : LoadedPage) :
  page_levels self = 4 \/ page_levels self = 5 -> user_page d -> user_page d' -> on_page self (lp_virt d) (lp_virt d') -> lp_virt d = lp_virt d'.
Proof.
  intros Hlv ([k Hk] & Hr & _) ([k' Hk'] & Hr' & _) H. apply (on_page_user _ _ Hlv Hr Hr') in H. rewrite Hk, Hk', !page_of_table in *. congruence.
Qed.

Section Progress.
Context (m0 : Mem) (B0 : gmap Z Block).

Record page_is (m : Mem) (B : gmap Z Block) (d : LoadedPage) (mp : ExecMappedPage) (q : Z) : Prop := {
  pi_virt : mp_virt mp = lp_virt d;
  pi_phys : mp_phys mp = q * PAGE_SIZE;
  pi_flags : mp_flags mp = lp_flags d;
  pi_use : in_use m B q;
  pi_new : ~ in_use m0 B0 q;
  pi_page : exists pg, pages m !! pfn_to_page m q = Some pg /\ refcount pg = 1;
  pi_mapping w : on_page self (lp_virt d) w -> mapping self m w = Some (q * PAGE_SIZE + w mod PAGE_SIZE, lp_flags d);
  pi_before w : on_page self (lp_virt d) w -> mapping self m0 w = None;
  pi_bytes x : 0 <= x < PAGE_SIZE -> phys m (q * PAGE_SIZE + x) = lp_bytes d (lp_virt d + x)
}.

Record progress (D : list LoadedPage) (m : Mem) (B : gmap Z Block) (mapped : list ExecMappedPage) : Prop := {
  pg_ok : manager_ok self m B;
  pg_keep : preserves m0 B0 m B;
  pg_ext : extends m0 B0 m B;
  pg_pages : exists qs, NoDup qs /\ length qs = length D /\ length mapped = length D /\
    forall i d mp q, D !! i = Some d -> mapped !! i = Some mp -> qs !! i = Some q -> page_is m B d mp q;
  pg_virt : NoDup (lp_virt <$> D);
  pg_user : Forall user_page D;
  pg_other w : (forall d, d ∈ D -> ~ on_page self (lp_virt d) w) -> mapping self m w = mapping self m0 w
}.

(** A page that is loaded stays when another step preserves it. *)
Lemma page_is_kept m B m' B' d mp q :
  preserves m B m' B' -> (forall w, on_page self (lp_virt d) w -> mapping self m' w = mapping self m w) -> page_is m B d mp q -> page_is m' B' d mp q.
Proof.
  intros [F U P Dt] Hm [a b c e f (pg & Hpg & Hrc) g h i]. split; try done.
  - by apply U.
  - exists pg. rewrite (frame_pfn_to_page m m') by done. by rewrite P.
  - intros w Hw. rewrite Hm by done. by apply g.
  - intros x Hx. rewrite Dt by done. by apply i.
Qed.

(** ** One page more *)
Lemma progress_add D m B mapped d q m' B' kind :
  progress D m B mapped -> user_page d -> lp_virt d ∉ lp_virt <$> D -> mapping self m0 (lp_virt d) = None ->
  manager_ok self m' B' -> preserves m B m' B' -> extends m B m' B' -> page_mapped self m B (lp_virt d) (lp_flags d) q m' B' ->
  (forall x, 0 <= x < PAGE_SIZE -> phys m' (q * PAGE_SIZE + x) = lp_bytes d (lp_virt d + x)) ->
  progress (D ++ [d]) m' B' (mapped ++ [mkMapped (lp_virt d) (q * PAGE_SIZE) (lp_flags d) kind]).
Proof.
  intros [Hok Hkeep Hext (qs & Hnd & Hlq & Hlm & Hpages) Hvirt Huser Hother] Hd Hfresh Hnone Hok' Hkeep' Hext' [b u n g p] Hbytes.
  pose proof (proj1 Hok) as Hlv.
  assert (Hoff : forall d' w, d' ∈ D -> on_page self (lp_virt d') w -> ~ on_page self (lp_virt d) w).
  { intros d' w Hd' H1 H2. apply Hfresh. apply list_elem_of_fmap. exists d'. split; [|done]. apply on_page_eq; [done|done|by rewrite Forall_forall in Huser; apply Huser|].
    eapply on_page_trans; [exact H2|by apply on_page_sym]. }
  assert (Hold : forall i d' mp q', D !! i = Some d' -> mapped !! i = Some mp -> qs !! i = Some q' -> page_is m' B' d' mp q').
  { intros i d' mp q' H1 H2 H3. apply (page_is_kept m B); [done| |by eapply Hpages]. intros w Hw. rewrite p. rewrite decide_False; [done|].
    apply (Hoff d'); [by eapply list_elem_of_lookup_2|done]. }
  split; [done|by eapply preserves_trans|intros w Hw; by apply Hext', Hext| | | |].
  - exists (qs ++ [q]). rewrite !length_app. cbn. split; [|split; [lia|split; [lia|]]].
    + apply NoDup_app. split; [done|]. split; [|by repeat constructor; set_solver]. intros q' Hq' ->%list_elem_of_singleton.
      apply list_elem_of_lookup in Hq' as [i Hi]. destruct (lookup_lt_is_Some_2 D i) as [d' Hd']; [rewrite <- Hlq; by eapply lookup_lt_Some|].
      destruct (lookup_lt_is_Some_2 mapped i) as [mp Hmp]; [rewrite Hlm; by eapply lookup_lt_Some|].
      by apply (n q (pi_use _ _ _ _ _ (Hpages i d' mp q Hd' Hmp Hi))).
    + intros i d' mp q' H1 H2 H3. apply lookup_snoc_Some in H1 as [[Hi H1]|[-> <-]].
      * rewrite lookup_app_l in H2 by lia. rewrite lookup_app_l in H3 by lia. by eapply Hold.
      * rewrite lookup_app_r in H2 by lia. rewrite lookup_app_r in H3 by lia. rewrite Hlm, Hlq, Nat.sub_diag in *. injection H2 as <-. injection H3 as <-. split; cbn; try done.
        -- intros H0. by apply (n q); [apply Hkeep|].
        -- rewrite (frame_pfn_to_page m m') by apply Hkeep'. done.
        -- intros w Hw. by rewrite p, decide_True.
        -- intros w Hw. by apply (unmapped_page self (lp_virt d)).
  - rewrite fmap_app. apply NoDup_app. split; [done|]. split; [|by repeat constructor; set_solver]. intros x Hx ->%list_elem_of_singleton. done.
  - apply Forall_app. split; [done|]. by constructor.
  - intros w Hw. rewrite p, decide_False by (apply Hw; set_solver). apply Hother. intros d' Hd'. apply Hw. set_solver.
Qed.

Lemma progress_nil : manager_ok self m0 B0 -> progress [] m0 B0 [].
Proof.
  intros Hok. split; try done; [apply extends_refl| |constructor]. exists []. split; [constructor|]. done.
Qed.

(** ** One page less *)
Context (apic : Z).
Hypothesis Ha : 0 <= apic.

Lemma release_mapped_phys_page_ok m B q pg :
  manager_ok self m B -> in_use m B q -> pages m !! pfn_to_page m q = Some pg -> refcount pg = 1 ->
  exists m' B', release_mapped_phys_page apic (q * PAGE_SIZE) m = Ret (tt, m') /\ returned m B q m' B'.
Proof.
  intros [_ Hsp] Hu Hpg Hrc. pose proof (so_mem _ _ _ _ Hsp) as Hok. pose proof (cached_bounds m B q _ Hok (proj1 Hu)) as Hq.
  unfold release_mapped_phys_page. rewrite page_of_table. rewrite (kbind_ret (gets _) _ m (max_pfn m) m) by done. destruct (Z.leb_spec (max_pfn m) q); [lia|].
  rewrite (kbind_ret (gets _) _ m (pfn_to_page m q) m) by done. rewrite (kbind_ret _ _ _ _ _ (get_page_ok _ _ _ Hpg)).
  assert (Hdec : exists m1 pg1, when (0 <=? mapcount pg) (try_dec_mapcount (pfn_to_page m q);; mret tt) m = Ret (tt, m1) /\ prepared m B q m1 /\
    pages m1 !! pfn_to_page m q = Some pg1 /\ refcount pg1 = 1).
  { destruct (Z.leb_spec 0 (mapcount pg)); cbn [when]; [|exists m, pg; split; [done|]; split; [split; [done|apply only_refl|done]|done]].
    destruct (step_page m B q 0 (proj1 Hu) m pg (with_mapcount (mapcount pg - 1))) as (m1 & R1 & P1 & _ & G1); try done.
    eexists m1, _. split; [|by split]. unfold try_dec_mapcount. rewrite (kbind_ret _ _ m (Ok (mapcount pg - 1)) m1); [done|].
    rewrite (kbind_ret _ _ _ _ _ (get_page_ok _ _ _ Hpg)). destruct (Z.leb_spec (mapcount pg) (-1)); [lia|]. by rewrite (kbind_ret _ _ _ _ _ R1). }
  destruct Hdec as (m1 & pg1 & R1 & P1 & G1 & Hr1). rewrite (bind_when _ _ _ m m1 R1). rewrite (kbind_ret _ _ _ _ _ (get_page_ok _ _ _ G1)), Hr1.
  destruct (Z.eqb_spec 1 0); [lia|]. pose proof (on_frame _ _ _ (pr_only _ _ _ _ P1)) as F1. rewrite <- (frame_pfn_to_page m m1) in G1 |- * by done.
  destruct (free_page_ok apic m1 B q pg1 (pr_ok _ _ _ _ P1) (pcp_fine_same m m1 F1 (pr_pcps _ _ _ _ P1) (so_pcp _ _ _ _ Hsp)) Ha (proj1 Hu) G1 ltac:(lia)) as (m' & B' & R & Hret).
  exists m', B'. split; [exact R|]. by apply (returned_prepared m B q m1).
Qed.

Lemma progress_undo D d m B mapped mp :
  progress (D ++ [d]) m B (mapped ++ [mp]) -> own_way m0 B0 (lp_virt d) ->
  exists r m1 m2 B', unmap_page apic self (mp_virt mp) m = Ret (r, m1) /\ release_mapped_phys_page apic (mp_phys mp) m1 = Ret (tt, m2) /\
    progress D m2 B' mapped.
Proof.
  intros [Hok Hkeep Hext (qs & Hnd & Hlq & Hlm & Hpages) Hvirt Huser Hother] Hway. rewrite !length_app in Hlm. rewrite !length_app in Hlq. cbn in Hlm, Hlq.
  destruct (snoc_of qs) as (qs1 & q & ->); [lia|]. rewrite length_app in Hlq. cbn in Hlq.
  assert (Hlast : page_is m B d mp q) by (apply (Hpages (length D)); apply list_lookup_middle; lia).
  pose proof Hlast as [a b c u nw (pg & Hpg & Hrc) gm gb _]. rewrite a, b.
  pose proof (Hext _ Hway) as Hway1.
  destruct (unmap_page_ok apic self m B (lp_virt d) Hok Ha (own_way_tables self _ _ _ Hway1)) as (ok & fsh & m1 & B1 & R1 & Hok1 & F1 & Hpv & Hres).
  destruct (Hpv Hway1) as (Hpv1 & Hext1 & _). destruct ok.
  2: { destruct Hres as (Hbad & _). by rewrite (gm _ (on_page_refl self _)) in Hbad. }
  destruct Hres as (_ & _ & Hmap & Hleaf & _). pose proof (own_way_leaf self m B (lp_virt d) Hway1 Hleaf) as Hpage.
  assert (Hpg1 : pages m1 !! pfn_to_page m1 q = Some pg) by (rewrite (frame_pfn_to_page m m1) by done; by rewrite (pv_pages _ _ _ _ _ _ Hpv1)).
  destruct (release_mapped_phys_page_ok m1 B1 q pg Hok1 (pv_use _ _ _ _ _ _ Hpv1 q u) Hpg1 Hrc) as (m2 & B2 & R2 & Hret).
  destruct (returned_preserves self m1 B1 q m2 B2 Hok1 Hret (proj2 (pv_use _ _ _ _ _ _ Hpv1 q u))) as (Hok2 & Hm2 & _ & Hext2 & Hr2).
  exists (true, fsh), m1, m2, B2. split; [done|]. split; [done|]. apply Forall_app in Huser as [Huser Hd]. inversion Hd as [|? ? Hd' _]; subst.
  rewrite fmap_app in Hvirt. apply NoDup_app in Hvirt as (Hv1 & Hv2 & _). apply NoDup_app in Hnd as (Hq1 & Hq2 & _).
  assert (Hoff : forall d' w, d' ∈ D -> on_page self (lp_virt d') w -> ~ on_page self (lp_virt d) w).
  { intros d' w Hd0 H1 H2. apply (Hv2 (lp_virt d')); [by apply list_elem_of_fmap_2|]. apply list_elem_of_singleton. symmetry.
    apply on_page_eq; [apply Hok|done|by rewrite Forall_forall in Huser; apply Huser|]. eapply on_page_trans; [exact H2|by apply on_page_sym]. }
  assert (Hpv2 : forall m' (B' : gmap Z Block), preserves m' B' m B -> ~ in_use m' B' q -> preserves m' B' m2 B2).
  { intros m' B' [F U P Dt] Hn. assert (Hne : forall r, in_use m' B' r -> r <> q) by (intros r Hr ->; done).
    assert (Fr : frame m' m1) by (by transitivity m). split; [transitivity m1; [done|apply Hret]| | |].
    - intros r Hr. apply Hr2; [by apply Hne|]. by apply (pv_use _ _ _ _ _ _ Hpv1), U.
    - intros r Hr. rewrite <- P by done. rewrite <- (frame_pfn_to_page m' m) by done. rewrite <- (pv_pages _ _ _ _ _ _ Hpv1) by (by apply U).
      rewrite <- (frame_pfn_to_page m m1) by done. apply Hr2; [by apply Hne|by apply (pv_use _ _ _ _ _ _ Hpv1), U].
    - intros r x Hr Hx. rewrite (rt_phys _ _ _ _ _ Hret), (pv_data _ _ _ _ _ _ Hpv1) by (done || by apply U). by apply Dt. }
  split; [done|by apply Hpv2|intros w Hw; by apply Hext2, Hext1, Hext| |done|done|].
  - exists qs1. split; [done|]. split; [lia|]. split; [lia|]. intros i d' mp' q' H1 H2 H3.
    assert (Hi : (i < length D)%nat) by (by eapply lookup_lt_Some).
    assert (Hp : page_is m B d' mp' q') by (apply (Hpages i); by apply lookup_app_l_Some).
    assert (Hne : q' <> q) by (intros ->; apply (Hq2 q); [by eapply list_elem_of_lookup_2|by apply list_elem_of_singleton]).
    destruct Hp as [a' b' c' u' nw' (pg' & Hpg' & Hrc') gm' gb' by']. assert (Hu1 := pv_use _ _ _ _ _ _ Hpv1 q' u'). split; try done.
    + by apply Hr2.
    + exists pg'. split; [|done]. rewrite (frame_pfn_to_page m1 m2) by apply Hret. rewrite (proj2 (Hr2 q' Hne Hu1)).
      rewrite (frame_pfn_to_page m m1) by done. by rewrite (pv_pages _ _ _ _ _ _ Hpv1).
    + intros w Hw. rewrite Hm2, Hmap, decide_False; [by apply gm'|]. rewrite Hpage. apply (Hoff d'); [by eapply list_elem_of_lookup_2|done].
    + intros x Hx. rewrite (rt_phys _ _ _ _ _ Hret), (pv_data _ _ _ _ _ _ Hpv1) by done. by apply by'.
  - intros w Hw. rewrite Hm2, Hmap. case_decide as Hl.
    + apply Hpage in Hl. by rewrite gb.
    + apply Hother. intros d' [Hd0| ->%list_elem_of_singleton]%elem_of_app; [by apply Hw|]. intros Hp. by apply Hl, Hpage.
Qed.

(** All pages back. *)
Lemma rollback_loop_ok D m B mapped :
  progress D m B mapped -> Forall (fun d => own_way m0 B0 (lp_virt d)) D ->
  exists m' B', rollback_exec_mappings apic self mapped m = Ret (tt, m') /\ progress [] m' B' [].
Proof.
  unfold rollback_exec_mappings. revert m B mapped. induction D as [|d D IH] using rev_ind; intros m B mapped Hpr Hway.
  - destruct (pg_pages _ _ _ _ Hpr) as (_ & _ & _ & Hlm & _). destruct mapped; [|done]. exists m, B. done.
  - assert (Hmp : exists mapped1 mp, mapped = mapped1 ++ [mp]).
    { destruct (pg_pages _ _ _ _ Hpr) as (_ & _ & _ & Hlm & _). rewrite length_app in Hlm. cbn in Hlm. apply snoc_of. lia. }
    destruct Hmp as (mapped1 & mp & ->). apply Forall_app in Hway as [HwD Hwd]. inversion Hwd as [|? ? Hwd' _]; subst.
    destruct (progress_undo D d m B mapped1 mp Hpr Hwd') as (r & m1 & m2 & B2 & R1 & R2 & Hpr2). rewrite reverse_snoc. cbn [rollback_loop].
    rewrite (kbind_ret _ _ _ _ _ R1), (kbind_ret _ _ _ _ _ R2). by eapply IH.
Qed.
End Progress.
End Stage.
