(* ===== verification/ExecRun.v ===== *)
(** * Loading a program: what the whole of it does

    The loops of [stage_pt_load_mappings] on a plan that passed the checks, and the theorem:
    either the program is in memory, or nothing has changed. *)

From stdpp Require Import sorting.
From S2P Require Import Prelude Errno Vma MmSyscall Page Zone Pcp Buddy PageEntry Paging PageWalk PagingMap PagingUnmap Block BlockTheorems Elf ExecStack ExecLoad ExecPages ExecStage.
#[local] Open Scope Z_scope.

(** ** The hardware's view of an address *)
Lemma huge_offset_bound w size : 0 < size -> (exists k, 0 <= k /\ size = 2 ^ k) -> 0 <= Z.land w (size - 1) < size.
Proof. intros Hs (k & Hk & ->). rewrite land_low by done. by apply Z.mod_pos_bound. Qed.
Lemma translate_sizes ls w t m e level size : translate_loop ls w t m = Some (e, level, size) -> 0 < size <= 1024 * 1024 * 1024 /\ exists k, 0 <= k /\ size = 2 ^ k.
Proof.
  revert t. induction ls as [|l ls IH]; intros t; cbn [translate_loop].
  - destruct (negb _); [done|]. intros [= _ _ <-]. split; [done|]. by exists 12.
  - destruct (negb _); [done|]. destruct ((l =? 3) && _); [intros [= _ _ <-]; split; [done|by exists 30]|].
    destruct ((l =? 2) && _); [intros [= _ _ <-]; split; [done|by exists 21]|]. apply IH.
Qed.
Lemma mapping_translate self m w :
  translate_addr self w m = fst <$> mapping self m w.
Proof.
  unfold translate_addr, mapping, view, translate. destruct (translate_loop _ w _ m) as [[[e level] size]|] eqn:Ht; [|done]. cbn.
  destruct (translate_sizes _ _ _ _ _ _ _ Ht) as [Hs Hk]. pose proof (huge_offset_bound w size (proj1 Hs) Hk). pose proof (frame_addr_phys e) as [_ Hb].
  rewrite add64_small; [done|]. lia.
Qed.

Section Run.
Context (apic : Z) (self : PageTableManager) (image : list Z).
Hypothesis Ha : 0 <= apic.
Hypothesis Hd0 : 0 <= direct_map_offset self.
Hypothesis Hlen : Z.of_nat (length image) < u64_size.

Abbreviation in_use := (in_use (levels self) (root_phys self)).
Abbreviation preserves := (preserves (levels self) (root_phys self)).
Abbreviation own_way := (own_way (levels self) (root_phys self)).
Abbreviation extends := (extends (levels self) (root_phys self)).

(** ** The pages a plan asks for *)
Definition segment_pages_of (s : ExecLoadSegmentPlan) (idxs : list Z) : list LoadedPage :=
  (fun i => mkLoaded (page_start s + i * PAGE_SIZE) (map_flags s) (segment_byte image s)) <$> idxs.
Definition stack_pages_of (bottom : Z) (idxs : list Z) : list LoadedPage :=
  (fun i => mkLoaded (bottom + i * PAGE_SIZE) STACK_FLAGS (fun _ => 0)) <$> idxs.

Section From.
Context (m0 : Mem) (B0 : gmap Z Block).
Hypothesis Hd : max_pfn m0 * PAGE_SIZE + direct_map_offset self <= U64_MAX.

Abbreviation progress := (progress self m0 B0).

(** A page that may be added. *)
Record ready (d : LoadedPage) : Prop := {
  rd_user : user_page d;
  rd_free : mapping self m0 (lp_virt d) = None;
  rd_way : own_way m0 B0 (lp_virt d)
}.

Lemma progress_kept D m B mapped m' B' :
  progress D m B mapped -> manager_ok self m' B' -> preserves m B m' B' -> extends m B m' B' -> (forall w, mapping self m' w = mapping self m w) ->
  progress D m' B' mapped.
Proof.
  intros [Hok Hkeep Hext (qs & Hnd & Hlq & Hlm & Hpages) Hvirt Huser Hother] Hok' Hpv Hex Hm.
  split; [done|by eapply preserves_trans|intros w Hw; by apply Hex, Hext| |done|done|intros w Hw; rewrite Hm; by apply Hother].
  exists qs. split; [done|]. split; [done|]. split; [done|]. intros i d mp q H1 H2 H3. apply (page_is_kept self m0 B0 m B); [done|done|by eapply Hpages].
Qed.

(** One page, zeroed. *)
Lemma add_zero_page D m B mapped d kind :
  progress D m B mapped -> ready d -> lp_virt d ∉ lp_virt <$> D ->
  exists r mapped' m' B', map_zero_page apic self (lp_virt d) (lp_flags d) kind mapped m = Ret ((r, mapped'), m') /\
    match r with
    | Ok ph => exists q, ph = q * PAGE_SIZE /\ mapped' = mapped ++ [mkMapped (lp_virt d) ph (lp_flags d) kind] /\
        page_mapped self m B (lp_virt d) (lp_flags d) q m' B' /\ manager_ok self m' B' /\ preserves m B m' B' /\ extends m B m' B' /\
        forall x, 0 <= x < PAGE_SIZE -> phys m' (q * PAGE_SIZE + x) = 0
    | Err e => e = ENOMEM /\ mapped' = mapped /\ progress D m' B' mapped
    end.
Proof.
  intros Hpr [Hu Hfree Hway] Hfresh. pose proof (pg_ok _ _ _ _ _ _ _ Hpr) as Hok. pose proof Hu as (_ & _ & Hfl & Hus).
  assert (Hnone : mapping self m (lp_virt d) = None).
  { rewrite (pg_other _ _ _ _ _ _ _ Hpr); [done|]. intros d' Hd' Hp. apply Hfresh. apply list_elem_of_fmap. exists d'. split; [|done]. symmetry.
    apply (on_page_eq self); [apply Hok| |done|done]. pose proof (pg_user _ _ _ _ _ _ _ Hpr) as Hall. rewrite Forall_forall in Hall. by apply Hall. }
  destruct (map_zero_page_ok apic self Ha m B (lp_virt d) (lp_flags d) kind mapped Hok Hfl Hnone) as (r & mapped' & m' & B' & R & Hok' & Hpv & Hex & Hr).
  specialize (Hex Hus (pg_ext _ _ _ _ _ _ _ Hpr _ Hway)). exists r, mapped', m', B'. split; [done|]. destruct r as [ph|e].
  - destruct Hr as (q & -> & -> & Hpm & Hz). by exists q.
  - destruct Hr as (-> & -> & Hm). split; [done|]. split; [done|]. by apply (progress_kept D m B).
Qed.

(** The bytes of a new page are filled in. *)
Lemma fill_page m B virt fl q m1 B1 m2 f :
  manager_ok self m B -> manager_ok self m1 B1 -> preserves m B m1 B1 -> extends m B m1 B1 -> page_mapped self m B virt fl q m1 B1 -> m2 = set_phys m1 f ->
  (forall a, ~ (q * PAGE_SIZE <= a < q * PAGE_SIZE + PAGE_SIZE) -> phys m2 a = phys m1 a) ->
  manager_ok self m2 B1 /\ preserves m B m2 B1 /\ extends m B m2 B1 /\ page_mapped self m B virt fl q m2 B1.
Proof.
  intros Hok Hok1 [F U P Dt] Hex [b u n g p] E Hph. pose proof Hok1 as [_ [Hmem Hfine _ Htree Hheld]].
  pose proof (one_page_tables self m1 m2 q Htree (proj2 u) Hph) as Hs.
  destruct (step_space self m1 B1 m2 B1 Hok1) as (H1 & H2 & H3); [subst m2; by apply mem_ok_phys|subst m2; by split|by subst m2|done|done|].
  assert (Hu : forall r, in_use m1 B1 r -> in_use m2 B1 r) by (intros r [Hr Hn]; split; [done|]; intros k w; rewrite H3; apply Hn).
  split; [done|]. split; [|split].
  - split; [transitivity m1; [done|subst m2; by split]|auto|intros r Hr; subst m2; by apply P|].
    intros r x Hr Hx. rewrite Hph; [by apply Dt|]. apply pages_apart; [by exists q|by exists r| |done]. intros Heq. apply (n r Hr). unfold PAGE_SIZE in *. lia.
  - intros w Hw. apply (step_extends self m1 B1 m2 B1); [done| |by apply Hex]. intros k w' t _ Ho. by subst m2.
  - split; [done|by apply Hu|done|by subst m2|]. intros w. by rewrite H2.
Qed.

Lemma page_addr_ok start i : 0 <= start -> 0 <= i -> start + i * PAGE_SIZE < u64_size -> page_addr start i = Ok (start + i * PAGE_SIZE).
Proof.
  intros Hs Hi Hb. unfold page_addr, checked_mul64, checked_add64. rewrite (proj2 (Z.ltb_lt (i * PAGE_SIZE) _)) by lia. cbn [ok_or].
  by rewrite (proj2 (Z.ltb_lt _ _)) by lia.
Qed.

(** ** The loops *)
(** What the loops leave: the pages of [E] added, or a part of them and an error. *)
Definition added (D E : list LoadedPage) (r : Result unit Z) (m' : Mem) (B' : gmap Z Block) (mapped' : list ExecMappedPage) : Prop :=
  exists D', progress D' m' B' mapped' /\ D' `prefix_of` D ++ E /\ (r = Ok tt /\ D' = D ++ E \/ r = Err ENOMEM).

Lemma fresh_head (D E : list LoadedPage) d : NoDup (lp_virt <$> D ++ d :: E) -> (lp_virt d ∉ (lp_virt <$> D)) /\ NoDup (lp_virt <$> ((D ++ [d]) ++ E)).
Proof.
  intros H. split; [|by rewrite <- app_assoc]. rewrite fmap_app in H. apply NoDup_app in H as (_ & H & _). intros Hd'. apply (H _ Hd'). rewrite fmap_cons. set_solver.
Qed.

Lemma map_segment_pages_ok s idxs : forall D m B mapped,
  segment_ok (Z.of_nat (length image)) s -> Forall (fun i => 0 <= i < page_count s) idxs -> progress D m B mapped ->
  NoDup (lp_virt <$> D ++ segment_pages_of s idxs) -> Forall ready (segment_pages_of s idxs) ->
  exists r mapped' m' B', map_segment_pages apic self image s idxs mapped m = Ret ((r, mapped'), m') /\ added D (segment_pages_of s idxs) r m' B' mapped'.
Proof.
  induction idxs as [|i idxs IH]; intros D m B mapped Hs Hi Hpr Hnd Hrd.
  - exists (Ok tt), mapped, m, B. split; [done|]. exists D. split; [done|]. cbn. rewrite app_nil_r. auto.
  - inversion Hi as [|? ? Hi1 Hi2]; subst. cbn [segment_pages_of fmap list_fmap] in *. set (d := mkLoaded _ _ _) in *. fold (segment_pages_of s idxs) in *.
    inversion Hrd as [|? ? Hrd1 Hrd2]; subst. destruct (fresh_head D _ d Hnd) as [Hfresh Hnd'].
    pose proof Hs as [_ _ [Hal Hpe] _ [Hu1 Hu2] _]. cbn [map_segment_pages].
    rewrite page_addr_ok by (unfold USER_SPACE_START, USER_SPACE_END, PAGE_SIZE in *; lia).
    destruct (add_zero_page D m B mapped d Segment Hpr Hrd1 Hfresh) as (r & mapped1 & m1 & B1 & R1 & H1). cbn [lp_virt lp_flags d] in R1, H1.
    rewrite (kbind_ret _ _ _ _ _ R1). destruct r as [ph|e].
    2: { destruct H1 as (-> & -> & Hpr1). exists (Err ENOMEM), mapped, m1, B1. split; [done|]. exists D. split; [done|]. split; [by apply prefix_app_r|by right]. }
    destruct H1 as (q & -> & -> & Hpm & Hok1 & Hpv & Hex & Hz). pose proof (pg_ok _ _ _ _ _ _ _ Hpr) as Hok.
    assert (Hmax : max_pfn m1 = max_pfn m0) by (rewrite (fr_max _ _ (pv_frame _ _ _ _ _ _ Hpv)); apply (fr_max _ _ (pv_frame _ _ _ _ _ _ (pg_keep _ _ _ _ _ _ _ Hpr)))).
    destruct (copy_segment_page_data_ok self image s (page_start s + i * PAGE_SIZE) q m1 B1 Hs ltac:(unfold PAGE_SIZE; lia) ltac:(unfold PAGE_SIZE in *; lia) Hok1 (pm_use _ _ _ _ _ _ _ _ Hpm) Hz)
      as (m2 & R2 & [f Ef] & Hph & Hb); [rewrite Hmax, <- (fr_max _ _ (pv_frame _ _ _ _ _ _ (pg_keep _ _ _ _ _ _ _ Hpr))); apply (pm_bound _ _ _ _ _ _ _ _ Hpm)|done|by rewrite Hmax|done|].
    rewrite (kbind_ret _ _ _ _ _ R2). destruct (fill_page m B _ _ q m1 B1 m2 f Hok Hok1 Hpv Hex Hpm Ef Hph) as (Hok2 & Hpv2 & Hex2 & Hpm2).
    assert (Hpr2 : progress (D ++ [d]) m2 B1 (mapped ++ [mkMapped (lp_virt d) (q * PAGE_SIZE) (lp_flags d) Segment])).
    { apply (progress_add self m0 B0 D m B); try done; apply Hrd1. }
    destruct (IH (D ++ [d]) m2 B1 _ Hs Hi2 Hpr2 Hnd' Hrd2) as (r & mapped' & m' & B' & R & HD). exists r, mapped', m', B'. split; [exact R|].
    unfold added in *. by rewrite <- app_assoc in HD.
Qed.

Lemma map_stack_pages_ok bottom idxs : forall D m B mapped,
  0 <= bottom -> Forall (fun i => 0 <= i /\ bottom + i * PAGE_SIZE < u64_size) idxs -> progress D m B mapped ->
  NoDup (lp_virt <$> D ++ stack_pages_of bottom idxs) -> Forall ready (stack_pages_of bottom idxs) ->
  exists r mapped' m' B', map_stack_pages apic self bottom idxs mapped m = Ret ((r, mapped'), m') /\ added D (stack_pages_of bottom idxs) r m' B' mapped'.
Proof.
  induction idxs as [|i idxs IH]; intros D m B mapped Hb Hi Hpr Hnd Hrd.
  - exists (Ok tt), mapped, m, B. split; [done|]. exists D. split; [done|]. cbn. rewrite app_nil_r. auto.
  - inversion Hi as [|? ? Hi1 Hi2]; subst. cbn [stack_pages_of fmap list_fmap] in *. set (d := mkLoaded _ _ _) in *. fold (stack_pages_of bottom idxs) in *.
    inversion Hrd as [|? ? Hrd1 Hrd2]; subst. destruct (fresh_head D _ d Hnd) as [Hfresh Hnd']. cbn [map_stack_pages]. rewrite page_addr_ok by lia.
    destruct (add_zero_page D m B mapped d Stack Hpr Hrd1 Hfresh) as (r & mapped1 & m1 & B1 & R1 & H1). cbn [lp_virt lp_flags d] in R1, H1.
    rewrite (kbind_ret _ _ _ _ _ R1). destruct r as [ph|e].
    2: { destruct H1 as (-> & -> & Hpr1). exists (Err ENOMEM), mapped, m1, B1. split; [done|]. exists D. split; [done|]. split; [by apply prefix_app_r|by right]. }
    destruct H1 as (q & -> & -> & Hpm & Hok1 & Hpv & Hex & Hz).
    assert (Hpr2 : progress (D ++ [d]) m1 B1 (mapped ++ [mkMapped (lp_virt d) (q * PAGE_SIZE) (lp_flags d) Stack])).
    { apply (progress_add self m0 B0 D m B); try done; apply Hrd1. }
    destruct (IH (D ++ [d]) m1 B1 _ Hb Hi2 Hpr2 Hnd' Hrd2) as (r & mapped' & m' & B' & R & HD). exists r, mapped', m', B'. split; [exact R|].
    unfold added in *. by rewrite <- app_assoc in HD.
Qed.

Definition all_segment_pages (segs : list ExecLoadSegmentPlan) : list LoadedPage :=
  segs ≫= fun s => segment_pages_of s (zrange 0 (page_count s)).

Lemma map_segments_ok segs : forall D m B mapped,
  Forall (segment_ok (Z.of_nat (length image))) segs -> progress D m B mapped ->
  NoDup (lp_virt <$> D ++ all_segment_pages segs) -> Forall ready (all_segment_pages segs) ->
  exists r mapped' m' B', map_segments apic self image segs mapped m = Ret ((r, mapped'), m') /\ added D (all_segment_pages segs) r m' B' mapped'.
Proof.
  induction segs as [|s segs IH]; intros D m B mapped Hs Hpr Hnd Hrd.
  - exists (Ok tt), mapped, m, B. split; [done|]. exists D. split; [done|]. cbn. rewrite app_nil_r. auto.
  - inversion Hs as [|? ? Hs1 Hs2]; subst. cbn [all_segment_pages mbind list_bind] in *. fold (all_segment_pages segs) in *. set (E := segment_pages_of s _) in *.
    apply Forall_app in Hrd as [Hrd1 Hrd2]. cbn [map_segments].
    destruct (map_segment_pages_ok s (zrange 0 (page_count s)) D m B mapped Hs1) as (r & mapped1 & m1 & B1 & R1 & D1 & Hpr1 & Hpre & Hr); try done.
    { apply Forall_forall. by intros i ?%elem_of_zrange. }
    { rewrite app_assoc, fmap_app in Hnd. by apply NoDup_app in Hnd as (H & _ & _). }
    rewrite (kbind_ret _ _ _ _ _ R1). fold E in Hpre, Hr. destruct Hr as [[-> ->]| ->].
    + destruct (IH (D ++ E) m1 B1 mapped1 Hs2 Hpr1) as (r & mapped' & m' & B' & R & HD); [by rewrite <- app_assoc|done|]. exists r, mapped', m', B'. split; [exact R|].
      unfold added in *. by rewrite <- app_assoc in HD.
    + exists (Err ENOMEM), mapped1, m1, B1. split; [done|]. exists D1. split; [done|]. split; [|by right]. rewrite app_assoc. by apply prefix_app_r.
Qed.
End From.
End Run.
