(* ===== verification/ExecTheorems.v ===== *)
(** * A program is loaded completely or not at all *)

From stdpp Require Import sorting.
From S2P Require Import Prelude Errno Vma MmSyscall Page Zone Pcp Buddy PageEntry Paging PageWalk PagingMap PagingUnmap Block BlockTheorems Elf ExecStack ExecLoad ExecPages ExecStage ExecRun.
#[local] Open Scope Z_scope.

(** What a program sees at an address: the byte and the flags of the mapping. *)
Definition user_view (self : PageTableManager) (m : Mem) (w : Z) : option (Z * Z) :=
  (fun '(pa, fl) => (phys m pa, fl)) <$> mapping self m w.

(** ** The pages of a plan *)
Lemma in_segment_pages image s idxs d :
  d ∈ segment_pages_of image s idxs <-> exists i, i ∈ idxs /\ d = mkLoaded (page_start s + i * PAGE_SIZE) (map_flags s) (segment_byte image s).
Proof. unfold segment_pages_of. rewrite list_elem_of_fmap. naive_solver. Qed.
Lemma in_stack_pages bottom idxs d :
  d ∈ stack_pages_of bottom idxs <-> exists i, i ∈ idxs /\ d = mkLoaded (bottom + i * PAGE_SIZE) STACK_FLAGS (fun _ => 0).
Proof. unfold stack_pages_of. rewrite list_elem_of_fmap. naive_solver. Qed.
Lemma in_all_pages image segs d :
  d ∈ all_segment_pages image segs <-> exists s, s ∈ segs /\ d ∈ segment_pages_of image s (zrange 0 (page_count s)).
Proof. unfold all_segment_pages. rewrite list_elem_of_bind. naive_solver. Qed.

(** Every address of an aligned range lies on one of its pages. *)
Lemma page_index start n w :
  (PAGE_SIZE | start) -> start <= w < start + n * PAGE_SIZE ->
  exists i, 0 <= i < n /\ start + i * PAGE_SIZE <= w < start + i * PAGE_SIZE + PAGE_SIZE /\ w / PAGE_SIZE = (start + i * PAGE_SIZE) / PAGE_SIZE.
Proof.
  intros [k Hk] Hw. exists ((w - start) / PAGE_SIZE). unfold PAGE_SIZE in *. pose proof (Z.div_mod (w - start) 4096 ltac:(lia)) as Hd.
  pose proof (Z.mod_pos_bound (w - start) 4096 ltac:(lia)). set (i := (w - start) / 4096) in *. split; [lia|]. split; [lia|].
  rewrite Hk in *. rewrite <- Z.mul_add_distr_r, Z.div_mul by lia. symmetry. apply (Z.div_unique_pos _ 4096 _ (w - (k + i) * 4096)); lia.
Qed.

Lemma segment_flags_ok w x : page_flags (segment_map_flags w x) /\ has_bit (segment_map_flags w x) PTE_USER = true.
Proof. destruct w, x; (split; [split; [unfold in_u64; vm_compute; split; [discriminate|reflexivity]|split; reflexivity]|reflexivity]). Qed.
Lemma stack_flags_ok : page_flags STACK_FLAGS /\ has_bit STACK_FLAGS PTE_USER = true.
Proof. split; [split; [unfold in_u64; vm_compute; split; [discriminate|reflexivity]|split; reflexivity]|reflexivity]. Qed.

Lemma segment_page_user image len s d : segment_ok len s -> d ∈ segment_pages_of image s (zrange 0 (page_count s)) ->
  user_page d /\ page_start s <= lp_virt d /\ lp_virt d + PAGE_SIZE <= page_end s.
Proof.
  intros [_ _ [[k Hk] Hpe] _ [Hu1 Hu2] Hfl] (i & Hi & ->)%in_segment_pages. apply elem_of_zrange in Hi. cbn. unfold user_page. cbn. rewrite Hfl.
  pose proof (segment_flags_ok (writable s) (executable s)) as [Hf1 Hf2]. unfold USER_SPACE_START in *. unfold PAGE_SIZE in *.
  split; [|lia]. split; [exists (k + i); lia|]. split; [lia|done].
Qed.

Lemma NoDup_pages {A} (f : Z -> A) (g : A -> Z) start n : (forall i, g (f i) = start + i * PAGE_SIZE) -> NoDup (g <$> (f <$> zrange 0 n)).
Proof.
  intros H. rewrite <- list_fmap_compose. apply NoDup_fmap_2_strong; [|apply NoDup_seqZ]. intros i j _ _ Heq. cbn in Heq. rewrite !H in Heq. unfold PAGE_SIZE in Heq. lia.
Qed.

Lemma all_pages_distinct image len segs :
  Forall (segment_ok len) segs -> StronglySorted before segs -> NoDup (lp_virt <$> all_segment_pages image segs).
Proof.
  induction segs as [|s segs IH]; intros Hok Hsort; [constructor|]. inversion Hok as [|? ? Hs Hok']; subst. apply StronglySorted_inv in Hsort as [Hsort Hb].
  unfold all_segment_pages. cbn [mbind list_bind]. fold (all_segment_pages image segs). rewrite fmap_app. apply NoDup_app. split; [|split; [|by apply IH]].
  - by apply (NoDup_pages _ lp_virt (page_start s)).
  - intros v (d & -> & Hd)%list_elem_of_fmap (d' & Hv & Hd')%list_elem_of_fmap. apply in_all_pages in Hd' as (s' & Hs' & Hd').
    rewrite Forall_forall in Hb, Hok'. destruct (segment_page_user image len s d Hs Hd) as (_ & _ & H1). destruct (segment_page_user image len s' d' (Hok' _ Hs') Hd') as (_ & H2 & _).
    specialize (Hb s' Hs'). unfold before in Hb. unfold PAGE_SIZE in *. lia.
Qed.

Section Theorems.
Context (apic : Z) (self : PageTableManager) (image : list Z).

(** The checks before anything is mapped. *)
Lemma pages_unmapped_ok m start idxs :
  Forall (fun i => 0 <= start /\ 0 <= i /\ start + i * PAGE_SIZE < u64_size) idxs -> 
  (pages_unmapped self m start idxs = Ok tt /\ Forall (fun i => mapping self m (start + i * PAGE_SIZE) = None) idxs) \/ pages_unmapped self m start idxs = Err EBUSY.
Proof.
  induction 1 as [|i idxs (H1 & H2 & H3) _ IH]; [by left|]. cbn [pages_unmapped]. rewrite page_addr_ok by done. rewrite mapping_translate.
  destruct (mapping self m (start + i * PAGE_SIZE)) as [[pa fl]|] eqn:Hm; cbn.
  - right. done.
  - destruct IH as [[-> Hall]| ->]; [left|by right]. split; [done|]. by constructor.
Qed.

Lemma validate_load_ok m plan bottom len :
  Forall (segment_ok len) (segments plan) -> 0 <= bottom -> bottom + plan_stack_pages plan * PAGE_SIZE < u64_size ->
  (validate_target_unmapped self m plan bottom = Ok tt /\
   forall d, d ∈ all_segment_pages image (segments plan) ++ stack_pages_of bottom (zrange 0 (plan_stack_pages plan)) -> mapping self m (lp_virt d) = None) \/
  validate_target_unmapped self m plan bottom = Err EBUSY.
Proof.
  intros Hok Hb Hs. unfold validate_target_unmapped.
  assert (Hsegs : (segments_unmapped self m (segments plan) = Ok tt /\ forall d, d ∈ all_segment_pages image (segments plan) -> mapping self m (lp_virt d) = None) \/
    segments_unmapped self m (segments plan) = Err EBUSY).
  { induction Hok as [|s segs Hs1 _ IH]; [left; split; [done|]; by intros d ?%elem_of_nil|]. cbn [segments_unmapped].
    pose proof Hs1 as [_ _ [_ Hpe] _ [Hu1 Hu2] _]. destruct (pages_unmapped_ok m (page_start s) (zrange 0 (page_count s))) as [[-> Hall]| ->]; [| |by right].
    { apply Forall_forall. intros i Hi%elem_of_zrange. unfold USER_SPACE_START, USER_SPACE_END, PAGE_SIZE in *. lia. }
    destruct IH as [[-> IH]| ->]; [left|by right]. split; [done|]. intros d Hd. apply in_all_pages in Hd as (s' & [->|Hs']%elem_of_cons & Hd).
    - apply in_segment_pages in Hd as (i & Hi & ->). rewrite Forall_forall in Hall. by apply Hall.
    - apply IH, in_all_pages. by exists s'. }
  destruct Hsegs as [[-> Hseg]| ->]; [|by right].
  destruct (pages_unmapped_ok m bottom (zrange 0 (plan_stack_pages plan))) as [[-> Hall]| ->]; [| |by right].
  { apply Forall_forall. intros i Hi%elem_of_zrange. unfold PAGE_SIZE in *. lia. }
  left. split; [done|]. intros d [Hd|Hd]%elem_of_app; [by apply Hseg|]. apply in_stack_pages in Hd as (i & Hi & ->). rewrite Forall_forall in Hall. by apply Hall.
Qed.

(** The lower end of the stack of a plan. *)
Definition stack_bottom_of (plan : ExecLoadPlan) : Z := stack_top plan - plan_stack_pages plan * PAGE_SIZE.

Lemma check_plan_ok plan :
  stack_top plan = USER_STACK_TOP -> plan_stack_pages plan = DEFAULT_USER_STACK_PAGES ->
  (check_plan plan = Ok (stack_bottom_of plan) /\ Forall (fun s => page_end s <= stack_bottom_of plan \/ stack_top plan <= page_start s) (segments plan)) \/
  check_plan plan = Err EINVAL.
Proof.
  intros Ht Hp. unfold check_plan, stack_bottom_of. rewrite Ht, Hp. change (checked_mul64 DEFAULT_USER_STACK_PAGES PAGE_SIZE) with (Some 32768). cbn [ok_or].
  change (checked_sub64 USER_STACK_TOP 32768) with (Some 0x7FFFFFFF7000). cbn [ok_or].
  change (0x7FFFFFFF7000 <? USER_SPACE_START) with false. change (USER_STACK_TOP <=? 0x7FFFFFFF7000) with false.
  change (negb (is_user_addr 0x7FFFFFFF7000) || negb (is_user_addr (sub64 USER_STACK_TOP 1))) with false. cbv iota.
  change (USER_STACK_TOP - DEFAULT_USER_STACK_PAGES * PAGE_SIZE) with 0x7FFFFFFF7000. destruct (existsb _ _) eqn:He; [by right|left]. split; [done|].
  apply Forall_forall. intros s Hs. assert (Hf : ranges_overlap (page_start s) (page_end s) 0x7FFFFFFF7000 USER_STACK_TOP = false).
  { destruct (ranges_overlap _ _ _ _) eqn:Ho; [|done]. exfalso. assert (Hex : existsb (fun s => ranges_overlap (page_start s) (page_end s) 0x7FFFFFFF7000 USER_STACK_TOP) (segments plan) = true); [|congruence].
    apply existsb_exists. exists s. split; [by apply list_elem_of_In|done]. }
  unfold ranges_overlap in Hf. apply andb_false_iff in Hf as [H%Z.ltb_ge|H%Z.ltb_ge]; auto.
Qed.

(** ** Reading what has been loaded *)
Abbreviation own_way := (own_way (levels self) (root_phys self)).
Abbreviation preserves := (preserves (levels self) (root_phys self)).

Section Loaded.
Context (m0 : Mem) (B0 : gmap Z Block) (D : list LoadedPage) (m : Mem) (B : gmap Z Block) (mapped : list ExecMappedPage).
Hypothesis Hpr : progress self m0 B0 D m B mapped.

(** An address of a loaded page, with the page behind it. *)
Lemma loaded_at d w : d ∈ D -> on_page self (lp_virt d) w ->
  exists i mp q, D !! i = Some d /\ mapped !! i = Some mp /\ page_is self m0 B0 m B d mp q /\ mapping self m w = Some (q * PAGE_SIZE + w mod PAGE_SIZE, lp_flags d) /\
    forall j d' mp', D !! j = Some d' -> mapped !! j = Some mp' -> page_is self m0 B0 m B d' mp' q -> i = j.
Proof.
  intros [i Hi]%list_elem_of_lookup Hw. destruct (pg_pages _ _ _ _ _ _ _ Hpr) as (qs & Hnd & Hlq & Hlm & Hp).
  assert (Hlt : (i < length D)%nat) by (by eapply lookup_lt_Some).
  destruct (lookup_lt_is_Some_2 mapped i ltac:(lia)) as [mp Hmp]. destruct (lookup_lt_is_Some_2 qs i ltac:(lia)) as [q Hq].
  pose proof (Hp i d mp q Hi Hmp Hq) as Hpi. exists i, mp, q. do 3 (split; [done|]). split; [by apply Hpi|]. intros j d' mp' H1 H2 H3.
  destruct (lookup_lt_is_Some_2 qs j) as [q' Hq']; [apply lookup_lt_Some in H1; lia|]. pose proof (Hp j d' mp' q' H1 H2 Hq') as Hpj.
  assert (q' = q) as -> by (pose proof (pi_phys _ _ _ _ _ _ _ _ H3) as E1; rewrite (pi_phys _ _ _ _ _ _ _ _ Hpj) in E1; unfold PAGE_SIZE in E1; lia).
  by eapply NoDup_lookup.
Qed.

Lemma page_offset d w : user_page d -> 0 <= w < USER_SPACE_END -> on_page self (lp_virt d) w -> w = lp_virt d + w mod PAGE_SIZE.
Proof.
  intros ([k Hk] & Hr & _) Hw Hp. apply (on_page_user self _ _ (proj1 (pg_ok _ _ _ _ _ _ _ Hpr)) Hr Hw) in Hp. rewrite Hk, page_of_table in Hp.
  pose proof (Z.div_mod w PAGE_SIZE ltac:(done)). rewrite Hk. lia.
Qed.
Lemma loaded_user d : d ∈ D -> user_page d.
Proof. intros Hd. pose proof (pg_user _ _ _ _ _ _ _ Hpr) as H. rewrite Forall_forall in H. by apply H. Qed.

Lemma loaded_view d w : d ∈ D -> 0 <= w < USER_SPACE_END -> on_page self (lp_virt d) w -> user_view self m w = Some (lp_bytes d w, lp_flags d).
Proof.
  intros Hd Hw Hp. destruct (loaded_at d w Hd Hp) as (i & mp & q & _ & _ & Hpi & Hm & _). unfold user_view. rewrite Hm. cbn. do 2 f_equal.
  rewrite (pi_bytes _ _ _ _ _ _ _ _ Hpi) by (apply Z.mod_pos_bound; done). f_equal. symmetry. apply page_offset; [by apply loaded_user|done|done].
Qed.

(** Addresses of the program are backed by places of their own. *)
Lemma loaded_inj d d' v w pa :
  d ∈ D -> d' ∈ D -> on_page self (lp_virt d) v -> on_page self (lp_virt d') w -> 0 <= v < USER_SPACE_END -> 0 <= w < USER_SPACE_END ->
  translate_addr self v m = Some pa -> translate_addr self w m = Some pa -> v = w.
Proof.
  intros Hd Hd' Hp Hp' Hv Hw. destruct (loaded_at d v Hd Hp) as (i & mp & q & Hi & Hmp & Hpi & Hm & Hinj). destruct (loaded_at d' w Hd' Hp') as (j & mp' & q' & Hj & Hmp' & Hpj & Hm' & _).
  rewrite !mapping_translate, Hm, Hm'. intros [= <-] [= Heq]. pose proof (Z.mod_pos_bound v PAGE_SIZE ltac:(done)). pose proof (Z.mod_pos_bound w PAGE_SIZE ltac:(done)).
  assert (q' = q /\ v mod PAGE_SIZE = w mod PAGE_SIZE) as [-> Hmod] by (unfold PAGE_SIZE in *; lia).
  pose proof (Hinj j d' mp' Hj Hmp' Hpj) as <-. rewrite Hi in Hj. injection Hj as <-.
  rewrite (page_offset d v (loaded_user d Hd) Hv Hp), (page_offset d w (loaded_user d Hd) Hw Hp'). by rewrite Hmod.
Qed.

Lemma loaded_ram lo hi :
  0 <= lo -> hi <= USER_SPACE_END -> (forall v, lo <= v < hi -> exists d, d ∈ D /\ on_page self (lp_virt d) v) -> user_ram self lo hi m.
Proof.
  intros Hlo Hhi Hall. split.
  - intros v Hv. destruct (Hall v Hv) as (d & Hd & Hp). destruct (loaded_at d v Hd Hp) as (i & mp & q & _ & _ & Hpi & Hm & _).
    exists (q * PAGE_SIZE + v mod PAGE_SIZE). rewrite mapping_translate, Hm. split; [done|]. intros k w t Ht. apply pages_apart.
    + by eapply (tr_table _ _ _ (so_tree _ _ _ _ (proj2 (pg_ok _ _ _ _ _ _ _ Hpr)))).
    + by exists q.
    + intros ->. by apply (proj2 (pi_use _ _ _ _ _ _ _ _ Hpi)) in Ht.
    + by apply Z.mod_pos_bound.
  - intros v w pa Hv Hw. destruct (Hall v Hv) as (d & Hd & Hp). destruct (Hall w Hw) as (d' & Hd' & Hp'). apply (loaded_inj d d'); try done; lia.
Qed.
End Loaded.

(** Addresses of the kernel share no page with a program. *)
Lemma kernel_off_page v w :
  page_levels self = 4 \/ page_levels self = 5 -> 0 <= v < USER_SPACE_END -> KERNEL_BASE <= w < u64_size -> ~ on_page self v w.
Proof.
  intros Hlv Hv Hw Hp. assert (Hk : exists k, (k < S (length (levels self)))%nat /\ level_at (levels self) k = Some 4).
  { unfold levels. destruct Hlv as [-> | ->]; [exists O|exists 1%nat]; (split; [apply Nat.ltb_lt; reflexivity|reflexivity]). }
  destruct Hk as (k & Hk & Hl). specialize (Hp k 4 Hk Hl). rewrite !level_index_eq in Hp by (unfold is_level; lia). change (12 + (4 - 1) * 9) with 39 in Hp.
  unfold USER_SPACE_END, KERNEL_BASE in *. change (2 ^ 39) with 549755813888 in Hp.
  assert (Hv' : 0 <= v / 549755813888 < 256) by (split; [apply Z.div_pos; lia|apply Z.div_lt_upper_bound; lia]).
  assert (Hw' : 0x1FFFF00 <= w / 549755813888 < 0x2000000) by (split; [apply Z.div_le_lower_bound; lia|apply Z.div_lt_upper_bound; lia]).
  rewrite (Z.mod_small (v / _)) in Hp by lia. set (x := w / 549755813888) in *.
  rewrite <- (Z.mod_unique_pos x 512 0xFFFF (x - 0xFFFF * 512)) in Hp by lia. lia.
Qed.

(** ** Staging a plan *)
Record loadable_plan (plan : ExecLoadPlan) : Prop := {
  lq_segments : Forall (segment_ok (Z.of_nat (length image))) (segments plan);
  lq_sorted : StronglySorted before (segments plan);
  lq_top : stack_top plan = USER_STACK_TOP;
  lq_stack : plan_stack_pages plan = DEFAULT_USER_STACK_PAGES
}.
Definition plan_pages (plan : ExecLoadPlan) : list LoadedPage :=
  all_segment_pages image (segments plan) ++ stack_pages_of (stack_bottom_of plan) (zrange 0 (plan_stack_pages plan)).

Lemma length_plan_pages plan : loadable_plan plan -> Z.of_nat (length (plan_pages plan)) = sum_pages (segments plan) + DEFAULT_USER_STACK_PAGES.
Proof.
  intros [Hok _ _ Hn]. unfold plan_pages. rewrite length_app, Nat2Z.inj_add, Hn. f_equal.
  induction Hok as [|s segs Hs _ IH]; [done|]. cbn [sum_pages foldr]. fold (sum_pages segs). unfold all_segment_pages in *. cbn [mbind list_bind]. rewrite length_app, Nat2Z.inj_add, IH.
  f_equal. unfold segment_pages_of, zrange. rewrite length_fmap, length_seqZ. destruct Hs as [(? & ? & ?) _ [_ He] Hp _ _]. unfold PAGE_SIZE in *. lia.
Qed.

Lemma stack_bounds plan : loadable_plan plan ->
  stack_bottom_of plan = 0x7FFFFFFF7 * PAGE_SIZE /\ stack_top plan = stack_bottom_of plan + plan_stack_pages plan * PAGE_SIZE /\
  plan_stack_pages plan = 8 /\ stack_top plan < USER_SPACE_END.
Proof. intros [_ _ Ht Hp]. unfold stack_bottom_of. rewrite Ht, Hp. done. Qed.

Lemma plan_pages_user plan d : loadable_plan plan -> d ∈ plan_pages plan -> user_page d.
Proof.
  intros Hpl [Hd|Hd]%elem_of_app.
  - apply in_all_pages in Hd as (s & Hs & Hd). pose proof (lq_segments _ Hpl) as Hok. rewrite Forall_forall in Hok. by apply (segment_page_user image _ s d (Hok s Hs)).
  - apply in_stack_pages in Hd as (i & Hi%elem_of_zrange & ->). destruct (stack_bounds plan Hpl) as (Hb & Ht & Hn & He). unfold user_page. cbn.
    split; [exists (0x7FFFFFFF7 + i); lia|]. split; [unfold PAGE_SIZE, USER_SPACE_END in *; lia|]. apply stack_flags_ok.
Qed.

Lemma plan_pages_distinct plan :
  loadable_plan plan -> Forall (fun s => page_end s <= stack_bottom_of plan \/ stack_top plan <= page_start s) (segments plan) -> NoDup (lp_virt <$> plan_pages plan).
Proof.
  intros Hpl Hoff. pose proof Hpl as [Hok Hsort _ _]. destruct (stack_bounds plan Hpl) as (_ & Ht & _ & _). unfold plan_pages. rewrite fmap_app. apply NoDup_app.
  split; [by eapply all_pages_distinct|]. split; [|by apply (NoDup_pages _ lp_virt (stack_bottom_of plan))].
  intros v (d & -> & Hd)%list_elem_of_fmap (d' & Hv & Hd')%list_elem_of_fmap. apply in_all_pages in Hd as (s & Hs & Hd). apply in_stack_pages in Hd' as (i & Hi%elem_of_zrange & ->). cbn in Hv.
  rewrite Forall_forall in Hok, Hoff. destruct (segment_page_user image _ s d (Hok s Hs) Hd) as (_ & H1 & H2). specialize (Hoff s Hs). unfold PAGE_SIZE in *. lia.
Qed.

(** Every address of a segment or of the stack lies on a page of the plan. *)
Lemma segment_address plan s w : loadable_plan plan -> s ∈ segments plan -> page_start s <= w < page_end s ->
  exists d, d ∈ plan_pages plan /\ lp_virt d / PAGE_SIZE = w / PAGE_SIZE /\ lp_bytes d = segment_byte image s /\ lp_flags d = map_flags s.
Proof.
  intros Hpl Hs Hw. pose proof (lq_segments _ Hpl) as Hok. rewrite Forall_forall in Hok. destruct (sg_aligned _ _ (Hok s Hs)) as [Hal He].
  destruct (page_index (page_start s) (page_count s) w Hal ltac:(lia)) as (i & Hi & _ & Hpg). exists (mkLoaded (page_start s + i * PAGE_SIZE) (map_flags s) (segment_byte image s)).
  split; [|done]. apply elem_of_app. left. apply in_all_pages. exists s. split; [done|]. apply in_segment_pages. exists i. by rewrite elem_of_zrange.
Qed.
Lemma stack_address plan w : loadable_plan plan -> stack_bottom_of plan <= w < stack_top plan ->
  exists d, d ∈ plan_pages plan /\ lp_virt d / PAGE_SIZE = w / PAGE_SIZE /\ lp_bytes d w = 0 /\ lp_flags d = STACK_FLAGS.
Proof.
  intros Hpl Hw. destruct (stack_bounds plan Hpl) as (Hb & Ht & _ & _).
  destruct (page_index (stack_bottom_of plan) (plan_stack_pages plan) w ltac:(by exists 0x7FFFFFFF7) ltac:(lia)) as (i & Hi & _ & Hpg).
  exists (mkLoaded (stack_bottom_of plan + i * PAGE_SIZE) STACK_FLAGS (fun _ => 0)).
  split; [|done]. apply elem_of_app. right. apply in_stack_pages. exists i. by rewrite elem_of_zrange.
Qed.
(** The other way: a page of the plan holds addresses of a segment or of the stack only. *)
Lemma plan_address plan d w : loadable_plan plan -> d ∈ plan_pages plan -> lp_virt d / PAGE_SIZE = w / PAGE_SIZE ->
  (exists s, s ∈ segments plan /\ page_start s <= w < page_end s) \/ stack_bottom_of plan <= w < stack_top plan.
Proof.
  intros Hpl Hd Hpg. destruct (plan_pages_user plan d Hpl Hd) as ([k Hk] & _). assert (Hw : lp_virt d <= w < lp_virt d + PAGE_SIZE).
  { rewrite Hk, page_of_table in Hpg. rewrite Hk, Hpg. pose proof (Z.div_mod w PAGE_SIZE ltac:(done)). pose proof (Z.mod_pos_bound w PAGE_SIZE ltac:(done)). lia. }
  apply elem_of_app in Hd as [Hd|Hd].
  - left. apply in_all_pages in Hd as (s & Hs & Hd). exists s. split; [done|]. pose proof (lq_segments _ Hpl) as Hok. rewrite Forall_forall in Hok.
    destruct (segment_page_user image _ s d (Hok s Hs) Hd) as (_ & H1 & H2). lia.
  - right. apply in_stack_pages in Hd as (i & Hi%elem_of_zrange & ->). cbn in Hw. destruct (stack_bounds plan Hpl) as (_ & Ht & _ & _). unfold PAGE_SIZE in *. lia.
Qed.

(** An address space whose user half has tables of its own only, as [fork] and the creation of
    a process leave it. *)
Definition own_space (m : Mem) (B : gmap Z Block) : Prop := forall v, 0 <= v < USER_SPACE_END -> own_way m B v.

Section Stage.
Context (m : Mem) (B : gmap Z Block) (plan : ExecLoadPlan).
Hypothesis Hpl : loadable_plan plan.
Hypothesis Hok : manager_ok self m B.
Hypothesis Hown : own_space m B.
Hypothesis Hlen : Z.of_nat (length image) < u64_size.
Hypothesis Ha : 0 <= apic.
Hypothesis Hd0 : 0 <= direct_map_offset self.
Hypothesis Hd : max_pfn m * PAGE_SIZE + direct_map_offset self <= U64_MAX.

Lemma stage_body_ok :
  exists r D mapped m' B', stage_body apic self image plan m = Ret ((r, mapped), m') /\ progress self m B D m' B' mapped /\
    D `prefix_of` plan_pages plan /\ (r = Ok tt /\ D = plan_pages plan \/ exists e, r = Err e /\ e ∈ [EINVAL; EBUSY; ENOMEM]).
Proof using Hpl Hok Hown Hlen Ha Hd0 Hd.
  assert (Hnothing : forall e, e ∈ [EINVAL; EBUSY; ENOMEM] -> exists r D mapped m' B', (mret (Err e, []) : Kern (Result unit Z * list ExecMappedPage)) m = Ret ((r, mapped), m') /\
    progress self m B D m' B' mapped /\ D `prefix_of` plan_pages plan /\ (r = Ok tt /\ D = plan_pages plan \/ exists e, r = Err e /\ e ∈ [EINVAL; EBUSY; ENOMEM])).
  { intros e He. exists (Err e), [], [], m, B. split; [done|]. split; [by apply progress_nil|]. split; [apply prefix_nil|]. right. by exists e. }
  unfold stage_body. pose proof Hpl as [Hsok _ Ht Hp]. destruct (stack_bounds plan Hpl) as (Hbot & Htop & Hn & Hend).
  destruct (check_plan_ok plan Ht Hp) as [[-> Hoff]| ->]; [|apply Hnothing; set_solver].
  rewrite (kbind_ret (gets _) _ m (validate_target_unmapped self m plan (stack_bottom_of plan)) m) by done.
  destruct (validate_load_ok m plan (stack_bottom_of plan) _ Hsok) as [[-> Hfree]| ->]; [unfold PAGE_SIZE in *; lia|unfold PAGE_SIZE, USER_SPACE_END in *; lia| |apply Hnothing; set_solver].
  pose proof (plan_pages_distinct plan Hpl Hoff) as Hnd. fold (plan_pages plan) in Hfree.
  assert (Hready : forall d, d ∈ plan_pages plan -> ready self m B d).
  { intros d Hin. pose proof (plan_pages_user plan d Hpl Hin) as Hu. split; [done|by apply Hfree|apply Hown, Hu]. }
  unfold plan_pages in Hnd, Hready. set (E1 := all_segment_pages image (segments plan)) in *. set (E2 := stack_pages_of _ _) in *.
  destruct (map_segments_ok apic self image Ha Hd0 Hlen m B Hd (segments plan) [] m B [] Hsok (progress_nil self m B Hok)) as (r1 & mp1 & m1 & B1 & R1 & D1 & P1 & Q1 & C1).
  { cbn [app]. rewrite fmap_app in Hnd. apply NoDup_app in Hnd. apply Hnd. }
  { apply Forall_forall. intros d Hin. apply Hready, elem_of_app. by left. }
  rewrite (kbind_ret _ _ _ _ _ R1). cbn in Q1, C1. fold E1 in Q1, C1. destruct C1 as [[-> ->]| ->].
  - destruct (map_stack_pages_ok apic self image Ha Hd0 Hlen m B Hd (stack_bottom_of plan) (zrange 0 (plan_stack_pages plan)) E1 m1 B1 mp1) as (r2 & mp2 & m2 & B2 & R2 & D2 & P2 & Q2 & C2);
      [unfold PAGE_SIZE in *; lia| |done|done| |].
    { apply Forall_forall. intros i Hi%elem_of_zrange. unfold PAGE_SIZE, USER_SPACE_END in *. lia. }
    { apply Forall_forall. intros d Hin. apply Hready, elem_of_app. by right. }
    exists r2, D2, mp2, m2, B2. split; [done|]. split; [done|]. split; [done|]. destruct C2 as [C2| ->]; [by left|right]. exists ENOMEM. split; [done|set_solver].
  - exists (Err ENOMEM), D1, mp1, m1, B1. split; [done|]. split; [done|]. split; [by apply prefix_app_r|]. right. exists ENOMEM. split; [done|set_solver].
Qed.

Lemma stage_ok :
  exists r D mapped m' B', stage_pt_load_mappings apic self image plan m = Ret (r, m') /\ progress self m B D m' B' mapped /\
    (r = Ok mapped /\ D = plan_pages plan \/ exists e, r = Err e /\ e ∈ [EINVAL; EBUSY; ENOMEM] /\ D = []).
Proof using Hpl Hok Hown Hlen Ha Hd0 Hd.
  destruct stage_body_ok as (r & D & mapped & m1 & B1 & R & P & Q & C). unfold stage_pt_load_mappings. rewrite (kbind_ret _ _ _ _ _ R).
  destruct C as [[-> ->]|(e & -> & He)]; [exists (Ok mapped), (plan_pages plan), mapped, m1, B1; auto|].
  destruct (rollback_loop_ok self m B apic Ha D m1 B1 mapped P) as (m2 & B2 & R2 & P2).
  { apply Forall_forall. intros d Hin. destruct Q as [l Hl]. apply Hown, (plan_pages_user plan d Hpl). rewrite Hl. apply elem_of_app. by left. }
  rewrite (kbind_ret _ _ _ _ _ R2). exists (Err e), [], [], m2, B2. split; [done|]. split; [done|]. right. by exists e.
Qed.
End Stage.

(** What loading leaves for the program: the bytes of the file and zeros in the segments, zeros
    in the stack, and nothing new at other addresses. *)
Record loaded (plan : ExecLoadPlan) (m m' : Mem) : Prop := {
  ld_segment s w : s ∈ segments plan -> page_start s <= w < page_end s -> user_view self m' w = Some (segment_byte image s w, map_flags s);
  ld_stack w : stack_bottom_of plan <= w < stack_top plan -> user_view self m' w = Some (0, STACK_FLAGS);
  ld_other w : 0 <= w < USER_SPACE_END -> (forall s, s ∈ segments plan -> ~ page_start s <= w < page_end s) ->
    ~ stack_bottom_of plan <= w < stack_top plan -> mapping self m' w = mapping self m w;
  ld_ram : user_ram self (stack_bottom_of plan) (stack_top plan) m'
}.

Lemma progress_loaded plan m B m' B' mapped :
  loadable_plan plan -> progress self m B (plan_pages plan) m' B' mapped -> loaded plan m m'.
Proof.
  intros Hpl Hpr. pose proof (proj1 (pg_ok _ _ _ _ _ _ _ Hpr)) as Hlv. destruct (stack_bounds plan Hpl) as (Hb & Ht & Hn & He).
  assert (Hstk : forall w, stack_bottom_of plan <= w < stack_top plan -> 0 <= w < USER_SPACE_END) by (unfold PAGE_SIZE in *; lia).
  assert (Hpage : forall d w, d ∈ plan_pages plan -> 0 <= w < USER_SPACE_END -> on_page self (lp_virt d) w <-> lp_virt d / PAGE_SIZE = w / PAGE_SIZE).
  { intros d w Hin Hw. apply on_page_user; [done|apply (plan_pages_user plan d Hpl Hin)|done]. }
  split.
  - intros s w Hs Hw. pose proof (lq_segments _ Hpl) as Hsok. rewrite Forall_forall in Hsok. pose proof (sg_user _ _ (Hsok s Hs)).
    assert (Hu : 0 <= w < USER_SPACE_END) by (unfold USER_SPACE_START in *; lia). destruct (segment_address plan s w Hpl Hs Hw) as (d & Hd & Hpg & <- & <-).
    apply (loaded_view _ _ _ _ _ _ Hpr); [done|done|]. by apply Hpage.
  - intros w Hw. destruct (stack_address plan w Hpl Hw) as (d & Hd & Hpg & Hz & Hf). rewrite <- Hz, <- Hf.
    apply (loaded_view _ _ _ _ _ _ Hpr); [done|by apply Hstk|]. apply Hpage; auto.
  - intros w Hw Hseg Hst. apply (pg_other _ _ _ _ _ _ _ Hpr). intros d Hd Hp. apply Hpage in Hp; [|done|done].
    destruct (plan_address plan d w Hpl Hd Hp) as [(s & Hs & Hsw)|?]; [by apply (Hseg s)|done].
  - apply (loaded_ram _ _ _ _ _ _ Hpr); [unfold PAGE_SIZE in *; lia|lia|]. intros v Hv.
    destruct (stack_address plan v Hpl Hv) as (d & Hd & Hpg & _). exists d. split; [done|]. apply Hpage; auto.
Qed.

Lemma plan_loadable plan : Forall byte image -> build_elf_load_plan image = Ok plan -> loadable_plan plan.
Proof. intros Hb Hr. destruct (build_elf_load_plan_ok image plan Hb Hr) as (h & _ & _ & _ & H1 & H2 & _ & _ & _ & _ & H3 & H4). by split. Qed.

(** C14. A program is loaded completely or not at all.  Staging the plan of an accepted file
    always returns.  Either every address of a segment then shows the byte of the file that
    belongs there, or zero behind the end of the file's part, with the protection of the
    segment; the stack is mapped, zeroed and writable; and all other addresses are as before.
    Or nothing was mapped after all: the error is one of three and every address translates as
    before.  In both cases the page tables and the allocators are in order, the pages in use
    keep their contents, and the kernel's addresses are untouched. *)
Theorem programs_load_completely_or_not_at_all plan m B :
  Forall byte image -> Z.of_nat (length image) < u64_size -> build_elf_load_plan image = Ok plan ->
  0 <= apic -> manager_ok self m B -> own_space m B ->
  0 <= direct_map_offset self -> max_pfn m * PAGE_SIZE + direct_map_offset self <= U64_MAX ->
  exists r m' B', stage_pt_load_mappings apic self image plan m = Ret (r, m') /\
    manager_ok self m' B' /\ own_space m' B' /\ preserves m B m' B' /\
    (forall w, KERNEL_BASE <= w < u64_size -> mapping self m' w = mapping self m w) /\
    match r with
    | Ok mapped => loaded plan m m' /\ Z.of_nat (length mapped) = segment_pages plan + DEFAULT_USER_STACK_PAGES
    | Err e => e ∈ [EINVAL; EBUSY; ENOMEM] /\ forall w, mapping self m' w = mapping self m w
    end.
Proof.
  intros Hb Hlen Hplan Ha Hok Hown Hd0 Hd. pose proof (plan_loadable plan Hb Hplan) as Hpl.
  destruct (stage_ok m B plan Hpl Hok Hown Hlen Ha Hd0 Hd) as (r & D & mapped & m' & B' & R & P & C). exists r, m', B'. pose proof P as [Hok' Hkeep Hext Hpages _ Huser Hother].
  split; [done|]. split; [done|]. split; [intros v Hv; by apply Hext, Hown|]. split; [done|]. split.
  - intros w Hw. apply Hother. intros d Hin. rewrite Forall_forall in Huser. apply kernel_off_page; [apply Hok|apply (Huser d Hin)|done].
  - destruct C as [[-> ->]|(e & -> & He & ->)]; [|split; [done|]; intros w; apply Hother; by intros d ?%elem_of_nil].
    split; [by eapply progress_loaded|]. destruct Hpages as (_ & _ & _ & -> & _).
    destruct (build_elf_load_plan_ok image plan Hb Hplan) as (h & _ & _ & _ & _ & _ & _ & _ & -> & _). by apply length_plan_pages.
Qed.
End Theorems.
