(* ===== verification/ExecExample.v ===== *)
(** * A small program, loaded on the small machine

    An ELF file with a segment of code and one of data, its plan, and the theorems on loading
    at this file in the empty address space of [PagingShare]. *)

From stdpp Require Import sorting.
From S2P Require Import Prelude Errno Vma MmSyscall Page Zone Pcp Buddy PageEntry Paging PageWalk PagingMap PagingUnmap PagingShare Block BlockTheorems Elf ExecStack ExecLoad ExecPages ExecStage ExecRun ExecTheorems.
#[local] Open Scope Z_scope.

Definition elf_header (entry phnum : Z) : list Z :=
  [0x7F; 0x45; 0x4C; 0x46; 2; 1; 1; 0; 0; 0; 0; 0; 0; 0; 0; 0] ++ le_bytes 2 2 ++ le_bytes 2 62 ++ le_bytes 4 1 ++ le_bytes 8 entry ++ le_bytes 8 64 ++
  le_bytes 8 0 ++ le_bytes 4 0 ++ le_bytes 2 64 ++ le_bytes 2 56 ++ le_bytes 2 phnum ++ le_bytes 2 0 ++ le_bytes 2 0 ++ le_bytes 2 0.
Definition program_header (ty fl offset vaddr filesz memsz : Z) : list Z :=
  le_bytes 4 ty ++ le_bytes 4 fl ++ le_bytes 8 offset ++ le_bytes 8 vaddr ++ le_bytes 8 vaddr ++ le_bytes 8 filesz ++ le_bytes 8 memsz ++ le_bytes 8 4096.

(** The headers, five bytes of code and three of data; the data come first in the table. *)
Definition ex_program : list Z :=
  elf_header 0x4000E8 3 ++ program_header 1 6 0xED 0x4020ED 3 0x20 ++ program_header 4 4 0 0 0 0 ++ program_header 1 5 0 0x400000 0xED 0xED ++
  [0x31; 0xC0; 0xEB; 0xFE; 0xC3] ++ [7; 8; 9].
Definition ex_segments : list ExecLoadSegmentPlan :=
  [mkSegment 0x400000 0xED 0 0xED 4096 0x400000 0x401000 1 5 true false;
   mkSegment 0x4020ED 0x20 0xED 3 4096 0x402000 0x403000 1 (2 ^ 63 + 7) false true].
Definition ex_plan : ExecLoadPlan := mkExecPlan 0x4000E8 240 0x400040 56 3 ex_segments 2 USER_STACK_TOP DEFAULT_USER_STACK_PAGES.

Lemma ex_program_bytes : Forall byte ex_program.
Proof. unfold byte. apply (bool_decide_unpack _). vm_compute. exact I. Qed.
Lemma ex_program_plan : build_elf_load_plan ex_program = Ok ex_plan.
Proof. vm_compute. reflexivity. Qed.

Lemma elf_plans_describe_the_file_witness :
  exists h, read_elf_header ex_program 0 = Some h /\ segments ex_plan ≡ₚ segment_of <$> filter loadable (program_headers ex_program h) /\
    StronglySorted before (segments ex_plan).
Proof.
  destruct (elf_plans_describe_the_file ex_program ex_plan ex_program_bytes ex_program_plan) as (h & H1 & H2 & _ & _ & H3 & _). exists h. auto.
Defined.

(** ** The empty address space *)
Lemma fresh_space_own p m B m' B' : new_table m B p m' B' -> own_space (new_with_layout (p * PAGE_SIZE) 0 4 48) m' B'.
Proof. intros Hnt v _. exact (fresh_space_way p m B m' B' v Hnt). Qed.
Lemma ex_own_space : exists B, manager_ok ex_self ex_space B /\ own_space ex_self ex_space B.
Proof.
  destruct ex_start_ok as (p & B & Hnt & E). exists B. unfold ex_self. rewrite E. split; [|exact (fresh_space_own p _ _ _ _ Hnt)].
  apply (fresh_space_ok p ex_mem ex_blocks); [done|apply ex_fine|]. vm_compute. discriminate.
Qed.

Lemma ex_direct_map : 0 <= direct_map_offset ex_self /\ max_pfn ex_space * PAGE_SIZE + direct_map_offset ex_self <= U64_MAX.
Proof. split; vm_compute; discriminate. Qed.

Lemma ex_program_length : Z.of_nat (length ex_program) < u64_size.
Proof. vm_compute. reflexivity. Qed.
Lemma ex_loads r m' : stage_pt_load_mappings 0 ex_self ex_program ex_plan ex_space = Ret (r, m') -> exists mapped, r = Ok mapped.
Proof.
  intros R. assert (Hc : match stage_pt_load_mappings 0 ex_self ex_program ex_plan ex_space with Ret (Ok mapped, _) => (length mapped =? 10)%nat | _ => false end = true) by (vm_compute; reflexivity).
  rewrite R in Hc. destruct r as [mapped|e]; [by exists mapped|done].
Qed.

(** The code, the data with zeros behind them, and the stack are there. *)
Lemma ex_view m' :
  loaded ex_self ex_program ex_plan ex_space m' ->
  user_view ex_self m' 0x4000E8 = Some (0x31, 5) /\ user_view ex_self m' 0x4020EF = Some (9, 2 ^ 63 + 7) /\ user_view ex_self m' 0x4020F0 = Some (0, 2 ^ 63 + 7) /\
  user_view ex_self m' (USER_STACK_TOP - 1) = Some (0, STACK_FLAGS) /\ mapping ex_self m' 0x401000 = None.
Proof.
  intros [Hseg Hst Hoth _]. set (no := mkSegment 0 0 0 0 0 0 0 0 0 false false). split; [|split; [|split; [|split]]].
  - rewrite (Hseg (nth 0 ex_segments no)) by first [by left|split; [discriminate|reflexivity]]. by vm_compute.
  - rewrite (Hseg (nth 1 ex_segments no)) by first [by right; left|split; [discriminate|reflexivity]]. by vm_compute.
  - rewrite (Hseg (nth 1 ex_segments no)) by first [by right; left|split; [discriminate|reflexivity]]. by vm_compute.
  - apply Hst. split; [by vm_compute|reflexivity].
  - refine (eq_trans (Hoth 0x401000 _ _ _) (ex_unmapped _)); [split; [discriminate|reflexivity]| |].
    + intros s [->|[->|[]%elem_of_nil]%elem_of_cons]%elem_of_cons; cbn; lia.
    + intros [H _]. vm_compute in H. by apply H.
Qed.
Lemma programs_load_completely_or_not_at_all_witness :
  exists mapped m', stage_pt_load_mappings 0 ex_self ex_program ex_plan ex_space = Ret (Ok mapped, m') /\
    user_view ex_self m' 0x4000E8 = Some (0x31, 5) /\ user_view ex_self m' 0x4020EF = Some (9, 2 ^ 63 + 7) /\ user_view ex_self m' 0x4020F0 = Some (0, 2 ^ 63 + 7) /\
    user_view ex_self m' (USER_STACK_TOP - 1) = Some (0, STACK_FLAGS) /\ mapping ex_self m' 0x401000 = None.
Proof.
  destruct ex_own_space as (B & Hok & Hown).
  destruct (programs_load_completely_or_not_at_all 0 ex_self ex_program ex_plan ex_space B ex_program_bytes ex_program_length ex_program_plan
    (Z.le_refl 0) Hok Hown (proj1 ex_direct_map) (proj2 ex_direct_map)) as (r & m' & B' & R & _ & _ & _ & _ & Hr).
  pose proof (ex_loads r m' R) as (mapped & ->). exists mapped, m'. split; [exact R|]. exact (ex_view m' (proj1 Hr)).
Defined.

(** The memory after loading, and what the program reads from its stack. *)
Definition ex_argv : list (list Z) := [[0x2F; 0x61]; [0x78; 0x79; 0x7A]].
Lemma ex_stack : exists r m', stage_pt_load_mappings 0 ex_self ex_program ex_plan ex_space = Ret (r, m') /\ user_ram ex_self (USER_STACK_TOP - 8 * PAGE_SIZE) USER_STACK_TOP m'.
Proof.
  destruct ex_own_space as (B & Hok & Hown). pose proof (plan_loadable ex_program ex_plan ex_program_bytes ex_program_plan) as Hpl.
  destruct (stage_ok 0 ex_self ex_program ex_space B ex_plan Hpl Hok Hown ex_program_length (Z.le_refl 0) (proj1 ex_direct_map) (proj2 ex_direct_map))
    as (r & D & mapped & m' & B' & R & P & C).
  destruct (ex_loads r m' R) as (l & ->). destruct C as [[[= ->] ->]|(e & ? & _)]; [|done]. exists (Ok mapped), m'. split; [done|].
  apply (ld_ram _ _ _ _ _ (progress_loaded ex_self ex_program ex_plan _ _ _ _ _ Hpl P)).
Qed.

Lemma programs_receive_their_arguments_witness :
  exists m rsp m', setup_initial_user_stack ex_self USER_STACK_TOP 8 ex_argv [] (minimal_auxv ex_plan) m = Ret (Ok rsp, m') /\
    load_usize ex_self m' (user_rsp rsp) = Ret 2 /\ argv_at ex_self m' (user_rsp rsp + 8) 1 = Ret (Some [0x78; 0x79; 0x7A]) /\
    argv_at ex_self m' (user_rsp rsp + 8) 2 = Ret None.
Proof.
  destruct ex_stack as (r0 & m & _ & Hram). exists m.
  destruct (programs_receive_their_arguments ex_self m USER_STACK_TOP 8 ex_argv [] (minimal_auxv ex_plan) eq_refl ltac:(vm_compute; discriminate) Hram eq_refl
    ltac:(by exists 0x7FFFFFFF700)) as (r & m' & R & _ & Hr).
  - repeat constructor; vm_compute; try discriminate; reflexivity.
  - constructor.
  - repeat constructor; vm_compute; try discriminate; reflexivity.
  - change (first_rsp _ _ _ _ <? _) with false in Hr. cbv iota in Hr. destruct Hr as (info & -> & _ & _ & _ & Habi & Harg & Hend). exists info, m'.
    split; [exact R|]. split; [exact (ab_argc _ _ _ _ _ _ Habi)|]. split; [|exact Hend]. apply (Harg 1%nat [0x78; 0x79; 0x7A] eq_refl); [repeat constructor; discriminate|cbn; lia].
Defined.
