(* ===== verification/ExecVma.v ===== *)
(** * The areas of a new program: kernel/src/task/proc/exec.rs

    Replacing the user areas of an address space by those of a load plan, and putting the old
    ones back.  The fields of [Mm] that only [execve] writes are kept beside the address space
    of [Vma]; [current_mm_ptr] is the argument, [None] for the null pointer. *)

From stdpp Require Import sorting.
From S2P Require Import Prelude Errno OrdMap MapleTree Vma Elf.
#[local] Open Scope Z_scope.

Section ExecVma.
Context {M : Type} `{Hops : OrdMapOps M (RangeEntry VmaInfo)}.

Record ExecMm := mkExecMm {
  em_mm : Mm M;
  start_code : Z; end_code : Z; start_data : Z; end_data : Z;
  mm_arg_start : Z; mm_arg_end : Z; mm_env_start : Z; mm_env_end : Z
}.
Definition with_mm (mm : ExecMm) (v : Mm M) : ExecMm :=
  mkExecMm v (start_code mm) (end_code mm) (start_data mm) (end_data mm) (mm_arg_start mm) (mm_arg_end mm) (mm_env_start mm) (mm_env_end mm).

Record ExecVmaPlan := mkVmaPlan { ev_start : Z; ev_end : Z; ev_info : VmaInfo }.

Definition segment_vm_flags (segment : ExecLoadSegmentPlan) : Z :=
  let flags := flags_set (flags_set 0 READ) ANONYMOUS in
  let flags := if executable segment then flags_set (flags_set flags EXEC) CODE else flags in
  if writable segment then flags_set (flags_set (flags_set flags WRITE) MAYWRITE) DATA else flags.
Definition stack_vm_flags : Z := flags_set (flags_set (flags_set (flags_set (flags_set 0 READ) WRITE) MAYWRITE) ANONYMOUS) GROWSDOWN.

Definition build_exec_vma_plan (plan : ExecLoadPlan) : list ExecVmaPlan :=
  let vmas := (fun segment => mkVmaPlan (page_start segment) (page_end segment) (VmaInfo_new (segment_vm_flags segment))) <$> segments plan in
  let stack_bytes := saturating_mul64 (plan_stack_pages plan) PAGE_SIZE in
  let stack_bottom := saturating_sub64 (stack_top plan) stack_bytes in
  vmas ++ [mkVmaPlan stack_bottom (stack_top plan) (VmaInfo_new stack_vm_flags)].

(** ** The layout *)
Record ExecMmLayoutSnapshot := mkLayout {
  ly_start_code : Z; ly_end_code : Z; ly_start_data : Z; ly_end_data : Z; ly_start_brk : Z; ly_brk : Z; ly_start_stack : Z;
  ly_arg_start : Z; ly_arg_end : Z; ly_env_start : Z; ly_env_end : Z; ly_mmap_base : Z; ly_mmap_legacy_base : Z
}.
Definition snapshot_mm_layout (mm : ExecMm) : ExecMmLayoutSnapshot :=
  mkLayout (start_code mm) (end_code mm) (start_data mm) (end_data mm) (start_brk (em_mm mm)) (brk (em_mm mm)) (start_stack (em_mm mm))
    (mm_arg_start mm) (mm_arg_end mm) (mm_env_start mm) (mm_env_end mm) (mmap_base (em_mm mm)) (mmap_legacy_base (em_mm mm)).
Definition restore_mm_layout (mm : ExecMm) (s : ExecMmLayoutSnapshot) : ExecMm :=
  let v := em_mm mm in
  mkExecMm (mkMm (vma_tree v) (vma_count v) (pgd v) (ly_start_brk s) (ly_brk s) (ly_start_stack s) (ly_mmap_base s) (ly_mmap_legacy_base s)
              (total_vm v) (exec_vm v) (stack_vm v))
    (ly_start_code s) (ly_end_code s) (ly_start_data s) (ly_end_data s) (ly_arg_start s) (ly_arg_end s) (ly_env_start s) (ly_env_end s).

Record ExecVmaRestorePoint := mkRestore { rp_layout : ExecMmLayoutSnapshot; rp_user_vmas : list ExecVmaPlan }.

(** ** The areas *)
(** The areas that reach into user space. *)
Definition in_user_space (t : Z * Z * VmaInfo) : bool := let '(start, end_, _) := t in (USER_SPACE_START <? end_) && (start <? USER_SPACE_END).
Definition vma_plan_of (t : Z * Z * VmaInfo) : ExecVmaPlan := let '(start, end_, info) := t in mkVmaPlan start end_ info.
Definition user_vmas (mm : Mm M) : exec (list ExecVmaPlan) :=
  l ← iter (vma_tree mm);
  Ret (map vma_plan_of (List.filter in_user_space l)).

Fixpoint remove_each (mm : Mm M) (vmas : list ExecVmaPlan) : exec (Mm M) :=
  match vmas with
  | [] => Ret mm
  | vma :: vmas' => '(_, mm) ← remove_vma mm (ev_start vma); remove_each mm vmas'
  end.
Fixpoint insert_each (mm : Mm M) (vmas : list ExecVmaPlan) : exec (Mm M) :=
  match vmas with
  | [] => Ret mm
  | vma :: vmas' => '(_, mm) ← insert_vma mm (ev_start vma) (ev_end vma) (ev_info vma); insert_each mm vmas'
  end.

(** The loop that inserts the new areas; [false] when one does not fit, with everything taken
    back. *)
Fixpoint install_loop (mm : Mm M) (old_user_vmas vmas inserted : list ExecVmaPlan) : exec (bool * Mm M) :=
  match vmas with
  | [] => Ret (true, mm)
  | vma :: vmas' =>
      '(ok, mm) ← insert_vma mm (ev_start vma) (ev_end vma) (ev_info vma);
      if (ok : bool) then install_loop mm old_user_vmas vmas' (inserted ++ [vma])
      else
        mm ← remove_each mm (reverse inserted);
        mm ← insert_each mm old_user_vmas;
        Ret (false, mm)
  end.

(** The bounds of code, data and heap. *)
Record ExecBounds := mkBounds { b_start_code : Z; b_end_code : Z; b_start_data : Z; b_end_data : Z; b_brk_base : Z }.
Definition add_bounds (b : ExecBounds) (segment : ExecLoadSegmentPlan) : ExecBounds :=
  let b :=
    if executable segment then
      mkBounds (if (b_start_code b =? 0) || (page_start segment <? b_start_code b) then page_start segment else b_start_code b)
        (Z.max (b_end_code b) (page_end segment)) (b_start_data b) (b_end_data b) (b_brk_base b)
    else b in
  if writable segment then
    mkBounds (b_start_code b) (b_end_code b)
      (if (b_start_data b =? 0) || (page_start segment <? b_start_data b) then page_start segment else b_start_data b)
      (Z.max (b_end_data b) (page_end segment)) (Z.max (b_brk_base b) (page_end segment))
  else b.
Definition exec_bounds (plan : ExecLoadPlan) : ExecBounds := foldl add_bounds (mkBounds 0 0 0 0 0) (segments plan).

Definition install_exec_vmas (mm_state : ExecMm) (plan : ExecLoadPlan) : exec (Result ExecVmaRestorePoint Z * ExecMm) :=
  let new_vmas := build_exec_vma_plan plan in
  let old_layout := snapshot_mm_layout mm_state in
  old_user_vmas ← user_vmas (em_mm mm_state);
  mm ← remove_each (em_mm mm_state) old_user_vmas;
  '(ok, mm) ← install_loop mm old_user_vmas new_vmas [];
  if negb ok then Ret (Err EBUSY, restore_mm_layout (with_mm mm_state mm) old_layout)
  else
    let b := exec_bounds plan in
    Ret (Ok (mkRestore old_layout old_user_vmas),
         restore_mm_layout (with_mm mm_state mm)
           (mkLayout (b_start_code b) (b_end_code b) (b_start_data b) (b_end_data b) (b_brk_base b) (b_brk_base b) (stack_top plan)
              0 0 0 0 USER_MMAP_BASE USER_MMAP_BASE)).
Definition install_current_exec_vmas (current : option ExecMm) (plan : ExecLoadPlan) : exec (Result ExecVmaRestorePoint Z * option ExecMm) :=
  match current with
  | None => Ret (Err ESRCH, None)
  | Some mm_state => '(r, mm) ← install_exec_vmas mm_state plan; Ret (r, Some mm)
  end.

Definition restore_exec_vmas (mm_state : ExecMm) (restore : ExecVmaRestorePoint) : exec ExecMm :=
  current_user_vmas ← user_vmas (em_mm mm_state);
  mm ← remove_each (em_mm mm_state) current_user_vmas;
  mm ← insert_each mm (rp_user_vmas restore);
  Ret (restore_mm_layout (with_mm mm_state mm) (rp_layout restore)).
Definition restore_current_exec_vmas (current : option ExecMm) (restore : ExecVmaRestorePoint) : exec (option ExecMm) :=
  match current with
  | None => Ret None
  | Some mm_state => mm ← restore_exec_vmas mm_state restore; Ret (Some mm)
  end.
End ExecVma.
Arguments ExecMm M : clear implicits.

(** ** Removing and inserting lists of areas *)
Section Lists.
Context {M : Type} `{HM : OrdMap M (RangeEntry VmaInfo)}.
Implicit Types (mm : Mm M) (l : list (Z * area)).

Definition area_of (v : ExecVmaPlan) : Z * area := (ev_start v, mkRange (ev_start v) (ev_end v) (ev_info v)).
Record good_vma (v : ExecVmaPlan) : Prop := {
  gv_range : 0 <= ev_start v < ev_end v /\ ev_end v < u64_size;
  gv_aligned : (PAGE_SIZE | ev_start v) /\ (PAGE_SIZE | ev_end v)
}.
Definition vma_apart (v w : ExecVmaPlan) : Prop := ev_end v <= ev_start w \/ ev_end w <= ev_start v.

(** What changes with the areas only. *)
Record layout_kept mm mm' : Prop := {
  lk_pgd : pgd mm' = pgd mm;
  lk_heap : start_brk mm' = start_brk mm /\ brk mm' = brk mm;
  lk_rest : start_stack mm' = start_stack mm /\ mmap_base mm' = mmap_base mm /\ mmap_legacy_base mm' = mmap_legacy_base mm
}.
Lemma layout_kept_trans mm1 mm2 mm3 : layout_kept mm1 mm2 -> layout_kept mm2 mm3 -> layout_kept mm1 mm3.
Proof. intros [? [] (? & ? & ?)] [? [] (? & ? & ?)]. split; [congruence|split; congruence|split_and!; congruence]. Qed.
Lemma remove_vma_layout mm s r mm' : remove_vma mm s = Ret (r, mm') -> layout_kept mm mm'.
Proof. unfold remove_vma. destruct (remove _ s) as [[[[end_ info]|] t]| |]; cbn; intros [= <- <-]; by split. Qed.
Lemma insert_vma_layout mm s e i r mm' : insert_vma mm s e i = Ret (r, mm') -> layout_kept mm mm'.
Proof. unfold insert_vma. destruct (insert _ s e i) as [[[o|x] t]| |]; cbn; intros [= <- <-]; by split. Qed.

Lemma remove_plans_ok vmas : forall mm l, areas_ok mm l ->
  exists mm' l', remove_each mm vmas = Ret mm' /\ areas_ok mm' l' /\ layout_kept mm mm' /\ forall kv, kv ∈ l' <-> kv ∈ l /\ kv.1 ∉ (ev_start <$> vmas).
Proof.
  induction vmas as [|v vmas IH]; intros mm l Hok.
  - exists mm, l. split; [done|]. split; [done|]. split; [done|]. set_solver.
  - destruct (remove_vma_ok mm l (ev_start v) Hok) as (mm1 & R & Hok1 & _). destruct (IH mm1 _ Hok1) as (mm' & l' & R' & Hok' & Hk & Hin). exists mm', l'.
    cbn [remove_each]. rewrite R. mstep. split; [done|]. split; [done|]. split; [eapply layout_kept_trans; [by eapply remove_vma_layout|done]|].
    intros kv. rewrite Hin, al_remove_elem. set_solver.
Qed.

Lemma insert_each_ok vmas : forall mm l,
  areas_ok mm l -> Forall good_vma vmas -> StronglySorted vma_apart vmas -> Forall (fun v => no_overlap l (ev_start v) (ev_end v)) vmas ->
  (length l + length vmas <= om_cap)%nat -> Z.of_nat (length l + length vmas) < 4294967295 ->
  exists mm' l', insert_each mm vmas = Ret mm' /\ (forall old ins, install_loop mm old vmas ins = Ret (true, mm')) /\
    areas_ok mm' l' /\ layout_kept mm mm' /\ forall kv, kv ∈ l' <-> kv ∈ l \/ kv ∈ area_of <$> vmas.
Proof.
  induction vmas as [|v vmas IH]; intros mm l Hok Hgood Hap Hno Hcap Hsm.
  - exists mm, l. split; [done|]. split; [done|]. split; [done|]. split; [done|]. set_solver.
  - inversion Hgood as [|? ? [Hr [Ha1 Ha2]] Hgood']; subst. apply StronglySorted_inv in Hap as [Hap' Hv]. inversion Hno as [|? ? Hno1 Hno2]; subst. cbn [length] in Hcap, Hsm.
    destruct (insert_vma_ok mm l (ev_start v) (ev_end v) (ev_info v) Hok ltac:(lia) ltac:(lia) ltac:(lia) ltac:(lia) Ha1 Ha2) as [(_ & mm1 & R & Hok1 & _)|[Hbad _]]; [|done].
    destruct (IH mm1 _ Hok1 Hgood' Hap') as (mm' & l' & R1 & R2 & Hok' & Hk & Hin).
    + apply Forall_forall. intros w Hw. rewrite Forall_forall in Hno2, Hv. apply Forall_forall. intros kv [->|Hkv]%al_insert_elem.
      * destruct (Hv w Hw); [right|left]; cbn; lia.
      * specialize (Hno2 w Hw). unfold no_overlap in Hno2. rewrite Forall_forall in Hno2. by apply Hno2.
    + rewrite length_al_insert. lia.
    + rewrite length_al_insert. lia.
    + exists mm', l'. cbn [insert_each install_loop]. rewrite R. mstep. split; [done|]. split; [intros old ins; by apply R2|]. split; [done|].
      split; [eapply layout_kept_trans; [by eapply insert_vma_layout|done]|]. intros kv. rewrite Hin, al_insert_elem, fmap_cons, elem_of_cons. unfold area_of at 2. naive_solver.
Qed.

(** The areas of an address space are determined by what they are, not by the order of the calls. *)
Lemma ranges_wf_StronglySorted lo l : ranges_wf lo l -> StronglySorted (fun a b : Z * area => a.1 < b.1 /\ rend a.2 <= rstart b.2) l.
Proof.
  revert lo. induction l as [|[k e] l IH]; intros lo Hwf; [constructor|]. destruct Hwf as (-> & Hb & Hwf). constructor; [by eapply IH|].
  apply Forall_forall. intros [k' e'] Hin. destruct (ranges_wf_elem _ _ _ _ Hwf Hin) as [-> Hb']. cbn. lia.
Qed.
Lemma areas_NoDup lo l : ranges_wf lo l -> NoDup l.
Proof.
  intros Hwf. pose proof (ranges_wf_StronglySorted _ _ Hwf) as Hs. clear Hwf. induction Hs as [|x l _ IH Hf]; constructor; [|done].
  intros Hx. rewrite Forall_forall in Hf. destruct (Hf x Hx). lia.
Qed.
Lemma areas_unique lo lo' l l' : ranges_wf lo l -> ranges_wf lo' l' -> (forall kv, kv ∈ l <-> kv ∈ l') -> l = l'.
Proof.
  intros Hwf Hwf' Hin. pose proof (ranges_wf_StronglySorted _ _ Hwf) as H1. pose proof (ranges_wf_StronglySorted _ _ Hwf') as H2.
  apply (StronglySorted_unique_strong (fun a b : Z * area => a.1 < b.1 /\ rend a.2 <= rstart b.2)); [|done|done|].
  - intros x y _ _ [? _] [? _]. lia.
  - apply NoDup_Permutation; [by eapply areas_NoDup|by eapply areas_NoDup|done].
Qed.
End Lists.

(** ** The user areas *)
Section User.
Context {M : Type} `{HM : OrdMap M (RangeEntry VmaInfo)}.
Implicit Types (mm : Mm M) (l : list (Z * area)).

Definition is_user (kv : Z * area) : bool := in_user_space (triple kv.2).
Definition user_areas l : list (Z * area) := filter (fun kv => is_user kv = true) l.
Definition plans_of l : list ExecVmaPlan := (fun kv => vma_plan_of (triple kv.2)) <$> user_areas l.

Lemma user_vmas_ok mm l : areas_ok mm l -> user_vmas mm = Ret (plans_of l).
Proof.
  intros Hok. unfold user_vmas, iter. rewrite (om_iter_ok _ l (proj1 (ok_tree _ _ Hok))). mstep. f_equal. unfold plans_of, user_areas. clear Hok.
  induction l as [|kv l IH]; [done|]. cbn [map List.filter]. rewrite filter_cons. change (in_user_space (triple kv.2)) with (is_user kv).
  destruct (is_user kv) eqn:Hu; [rewrite decide_True by done; exact (f_equal (cons _) IH)|]. by rewrite decide_False by congruence.
Qed.
Lemma area_of_plan e : area_of (vma_plan_of (triple e)) = (rstart e, e).
Proof. by destruct e. Qed.
Lemma areas_of_plans lo l : ranges_wf lo l -> area_of <$> plans_of l = user_areas l.
Proof.
  intros Hwf. unfold plans_of. rewrite <- list_fmap_compose. rewrite <- (list_fmap_id (user_areas l)) at 2. apply list_fmap_ext. intros i [k e] Hi. change (area_of (vma_plan_of (triple e)) = (k, e)). rewrite area_of_plan.
  apply list_elem_of_lookup_2, list_elem_of_filter in Hi as [_ Hi]. by destruct (ranges_wf_elem _ _ _ _ Hwf Hi) as [-> _].
Qed.

Lemma take_user_ok mm l : areas_ok mm l ->
  exists mm' l', remove_each mm (plans_of l) = Ret mm' /\ areas_ok mm' l' /\ layout_kept mm mm' /\ forall kv, kv ∈ l' <-> kv ∈ l /\ is_user kv = false.
Proof.
  intros Hok. pose proof (proj2 (ok_tree _ _ Hok)) as Hwf. destruct (remove_plans_ok (plans_of l) mm l Hok) as (mm' & l' & R & Hok' & Hk & Hin). exists mm', l'.
  split; [done|]. split; [done|]. split; [done|]. intros [k e]. rewrite Hin.
  assert (Hs : (k, e) ∈ l -> k ∈ (ev_start <$> plans_of l) <-> is_user (k, e) = true); [|cbn [fst]; destruct (is_user (k, e)); naive_solver].
  intros Hkv. destruct (ranges_wf_elem _ _ _ _ Hwf Hkv) as [-> _].
  replace (ev_start <$> plans_of l) with (fst <$> (area_of <$> plans_of l)) by (by rewrite <- list_fmap_compose). rewrite (areas_of_plans 0 l Hwf), list_elem_of_fmap. split.
  - intros ([k' e'] & Hk' & [Hu Hin']%list_elem_of_filter). cbn in Hk'. destruct (ranges_wf_elem _ _ _ _ Hwf Hin') as [-> _].
    destruct (ranges_wf_disjoint _ _ _ _ _ _ Hwf Hkv Hin') as [[= _ ->]|Hd]; [done|].
    pose proof (ranges_wf_elem _ _ _ _ Hwf Hin'). pose proof (ranges_wf_elem _ _ _ _ Hwf Hkv). lia.
  - intros Hu. exists (rstart e, e). split; [done|]. by apply list_elem_of_filter.
Qed.
End User.

(** ** The areas of a plan *)
(** A plan whose segments and stack lie apart in user space, on whole pages. *)
Record placed (plan : ExecLoadPlan) : Prop := {
  pp_segments : Forall (fun s => (PAGE_SIZE | page_start s) /\ (PAGE_SIZE | page_end s) /\ USER_SPACE_START <= page_start s < page_end s /\ page_end s <= USER_SPACE_END) (segments plan);
  pp_sorted : StronglySorted before (segments plan);
  pp_stack : stack_top plan = USER_STACK_TOP /\ plan_stack_pages plan = DEFAULT_USER_STACK_PAGES;
  pp_apart : Forall (fun s => page_end s <= USER_STACK_TOP - DEFAULT_USER_STACK_PAGES * PAGE_SIZE \/ USER_STACK_TOP <= page_start s) (segments plan)
}.

Definition segment_vma (s : ExecLoadSegmentPlan) : ExecVmaPlan := mkVmaPlan (page_start s) (page_end s) (VmaInfo_new (segment_vm_flags s)).
Definition stack_vma : ExecVmaPlan := mkVmaPlan (USER_STACK_TOP - DEFAULT_USER_STACK_PAGES * PAGE_SIZE) USER_STACK_TOP (VmaInfo_new stack_vm_flags).
Lemma build_exec_vma_plan_eq plan : placed plan -> build_exec_vma_plan plan = (segment_vma <$> segments plan) ++ [stack_vma].
Proof. intros [_ _ [Ht Hn] _]. unfold build_exec_vma_plan. by rewrite Ht, Hn. Qed.

Lemma StronglySorted_snoc {A} (R : A -> A -> Prop) l x : StronglySorted R l -> Forall (fun y => R y x) l -> StronglySorted R (l ++ [x]).
Proof.
  induction 1 as [|y l Hs IH Hy]; intros Hx; [repeat constructor|]. inversion Hx as [|? ? H1 H2]; subst. cbn. constructor; [by apply IH|]. apply Forall_app. split; [done|]. by repeat constructor.
Qed.

Lemma plan_vmas_good plan : placed plan ->
  Forall good_vma (build_exec_vma_plan plan) /\ StronglySorted vma_apart (build_exec_vma_plan plan) /\
  Forall (fun v => USER_SPACE_START <= ev_start v /\ ev_end v <= USER_SPACE_END) (build_exec_vma_plan plan).
Proof.
  intros Hpl. rewrite (build_exec_vma_plan_eq plan Hpl). destruct Hpl as [Hs Hsort _ Hap]. split; [|split].
  - apply Forall_app. split; [|constructor; [|constructor]; split; [vm_compute; done|split; by apply Z.mod_divide]].
    apply Forall_fmap, (Forall_impl _ _ _ Hs). intros s (H1 & H2 & H3 & H4). unfold USER_SPACE_START, USER_SPACE_END in *. split; cbn; [lia|done].
  - apply StronglySorted_snoc.
    + clear -Hsort. induction Hsort as [|s l _ IH Hf]; [constructor|]. cbn. constructor; [done|]. apply Forall_fmap, (Forall_impl _ _ _ Hf). intros t Ht. left. exact Ht.
    + apply Forall_fmap, (Forall_impl _ _ _ Hap). intros s [H|H]; [by left|by right].
  - apply Forall_app. split; [|constructor; [|constructor]; vm_compute; split; discriminate]. apply Forall_fmap, (Forall_impl _ _ _ Hs). cbn. intros s (_ & _ & H & H'). lia.
Qed.

Lemma exec_bounds_brk plan : placed plan -> (PAGE_SIZE | b_brk_base (exec_bounds plan)) /\ 0 <= b_brk_base (exec_bounds plan) < u64_size.
Proof.
  intros [Hs _ _ _]. unfold exec_bounds. set (b := mkBounds 0 0 0 0 0). assert (Hb : (PAGE_SIZE | b_brk_base b) /\ 0 <= b_brk_base b < u64_size) by (split; [by exists 0|done]).
  clearbody b. revert b Hb. induction Hs as [|s l (H1 & H2 & H3 & H4) _ IH]; intros b Hb; [done|]. cbn [foldl]. apply IH. unfold add_bounds.
  assert (Hm : forall z, (PAGE_SIZE | z) /\ 0 <= z < u64_size -> (PAGE_SIZE | Z.max z (page_end s)) /\ 0 <= Z.max z (page_end s) < u64_size).
  { intros z [Hz Hz']. unfold USER_SPACE_START, USER_SPACE_END in *. split; [|lia]. by destruct (Z.max_spec z (page_end s)) as [[_ ->]|[_ ->]]. }
  destruct (executable s), (writable s); cbn; auto.
Qed.

(** The protection of an area is the protection with which its pages are mapped. *)
Lemma segment_vm_flags_pte s : to_user_pte_flags (segment_vm_flags s) = segment_map_flags (writable s) (executable s).
Proof. unfold segment_vm_flags. by destruct (executable s), (writable s). Qed.

(** ** Installing and restoring *)
Section Install.
Context {M : Type} `{HM : OrdMap M (RangeEntry VmaInfo)}.
Implicit Types (x : ExecMm M) (l : list (Z * area)).

Definition layout_of (plan : ExecLoadPlan) : ExecMmLayoutSnapshot :=
  let b := exec_bounds plan in
  mkLayout (b_start_code b) (b_end_code b) (b_start_data b) (b_end_data b) (b_brk_base b) (b_brk_base b) (stack_top plan) 0 0 0 0 USER_MMAP_BASE USER_MMAP_BASE.

Lemma areas_ok_layout x s l : areas_ok (em_mm x) l -> areas_ok (em_mm (restore_mm_layout x s)) l.
Proof. intros [a b c d e f g]. by split. Qed.
Lemma snapshot_restored x s : snapshot_mm_layout (restore_mm_layout x s) = s.
Proof. by destruct s. Qed.

Lemma install_ok x l plan :
  areas_ok (em_mm x) l -> placed plan -> (length l + length (segments plan) < om_cap)%nat -> Z.of_nat (length l + length (segments plan)) + 1 < 4294967295 ->
  exists x' l', install_exec_vmas x plan = Ret (Ok (mkRestore (snapshot_mm_layout x) (plans_of l)), x') /\ areas_ok (em_mm x') l' /\
    pgd (em_mm x') = pgd (em_mm x) /\ snapshot_mm_layout x' = layout_of plan /\
    forall kv, kv ∈ l' <-> kv ∈ l /\ is_user kv = false \/ kv ∈ area_of <$> build_exec_vma_plan plan.
Proof.
  intros Hok Hpl Hcap Hsm. unfold install_exec_vmas. rewrite (user_vmas_ok _ l Hok). mstep. destruct (take_user_ok _ l Hok) as (mm1 & l1 & -> & Hok1 & Hk1 & Hin1). mstep.
  destruct (plan_vmas_good plan Hpl) as (Hg & Hap & Hu). assert (Hlen : length (build_exec_vma_plan plan) = S (length (segments plan))).
  { rewrite (build_exec_vma_plan_eq plan Hpl), length_app, length_fmap. cbn. lia. }
  assert (Hl1 : (length l1 <= length l)%nat).
  { apply submseteq_length, NoDup_submseteq; [|intros kv; by rewrite Hin1; intros []]. apply (areas_NoDup 0), (ok_tree _ _ Hok1). }
  destruct (insert_each_ok (build_exec_vma_plan plan) mm1 l1 Hok1 Hg Hap) as (mm2 & l2 & _ & R & Hok2 & Hk2 & Hin2); [|lia|lia|].
  - apply (Forall_impl _ _ _ Hu). intros v [Hv1 Hv2]. apply Forall_forall. intros [k e] [Hin Hnu]%Hin1. unfold is_user, in_user_space, triple in Hnu. cbn in Hnu.
    apply andb_false_iff in Hnu as [Hc%Z.ltb_ge|Hc%Z.ltb_ge]; [right|left]; cbn; lia.
  - rewrite R. mstep. eexists _, l2. split; [done|]. split; [by apply areas_ok_layout|]. split; [cbn; by rewrite (lk_pgd _ _ Hk2), (lk_pgd _ _ Hk1)|]. split; [apply snapshot_restored|].
    intros kv. by rewrite Hin2, Hin1.
Qed.

Lemma length_user_split (p : Z * area -> bool) l : (length (filter (fun kv => p kv = true) l) + length (filter (fun kv => p kv = false) l) = length l)%nat.
Proof.
  induction l as [|kv l IH]; [done|]. rewrite !filter_cons. destruct (p kv) eqn:Hp.
  - rewrite decide_True, decide_False by congruence. cbn. lia.
  - rewrite decide_False, decide_True by congruence. cbn. lia.
Qed.
Lemma plans_of_good mm l : areas_ok mm l -> Forall good_vma (plans_of l) /\ StronglySorted vma_apart (plans_of l).
Proof.
  intros [Ht _ _ _ _ _ Hal]. pose proof (proj2 Ht) as Hwf. unfold plans_of. split.
  - apply Forall_fmap, Forall_forall. intros [k e] [_ Hin]%list_elem_of_filter. destruct (ranges_wf_elem _ _ _ _ Hwf Hin) as [_ Hb].
    unfold page_aligned in Hal. rewrite Forall_forall in Hal. destruct (Hal _ Hin). split; cbn; [lia|done].
  - pose proof (ranges_wf_StronglySorted _ _ Hwf) as Hs. clear -Hs. unfold user_areas. induction Hs as [|kv l _ IH Hf]; [constructor|].
    rewrite filter_cons. destruct (decide _); [|done]. cbn. constructor; [done|]. apply Forall_fmap, Forall_forall. intros kv' [_ Hin]%list_elem_of_filter.
    rewrite Forall_forall in Hf. left. apply (Hf _ Hin).
Qed.

Lemma restore_ok x l mm0 l0 ly :
  areas_ok (em_mm x) l -> areas_ok mm0 l0 -> (forall kv, is_user kv = false -> kv ∈ l <-> kv ∈ l0) ->
  exists x', restore_exec_vmas x (mkRestore ly (plans_of l0)) = Ret x' /\ areas_ok (em_mm x') l0 /\ pgd (em_mm x') = pgd (em_mm x) /\ snapshot_mm_layout x' = ly.
Proof.
  intros Hok Hok0 Hsame. unfold restore_exec_vmas. rewrite (user_vmas_ok _ l Hok). mstep. destruct (take_user_ok _ l Hok) as (mm1 & l1 & -> & Hok1 & Hk1 & Hin1). mstep.
  pose proof (proj2 (ok_tree _ _ Hok0)) as Hwf0. destruct (plans_of_good mm0 l0 Hok0) as [Hg Hap].
  assert (Hmem : forall kv, kv ∈ l1 <-> kv ∈ filter (fun kv => is_user kv = false) l0) by (intros kv; rewrite Hin1, list_elem_of_filter; naive_solver).
  assert (Hlen : (length l1 + length (plans_of l0) = length l0)%nat).
  { rewrite <- (length_user_split is_user l0). unfold plans_of. rewrite length_fmap. fold (user_areas l0). rewrite Nat.add_comm. f_equal. apply Permutation_length, NoDup_Permutation; [|apply NoDup_filter; by eapply areas_NoDup|done].
    eapply areas_NoDup, (ok_tree _ _ Hok1). }
  destruct (insert_each_ok (plans_of l0) mm1 l1 Hok1 Hg Hap) as (mm2 & l2 & R & _ & Hok2 & Hk2 & Hin2); [|rewrite Hlen; apply (ok_cap _ _ Hok0)|rewrite Hlen; apply (ok_small _ _ Hok0)|].
  - unfold plans_of. apply Forall_fmap, Forall_forall. intros [k e] [Hu Hin]%list_elem_of_filter. apply Forall_forall. intros [k' e'] [Hnu Hin']%Hmem%list_elem_of_filter.
    destruct (ranges_wf_disjoint _ _ _ _ _ _ Hwf0 Hin Hin') as [[= -> ->]|[Hd|Hd]]; [congruence|left; exact Hd|right; exact Hd].
  - cbn [rp_user_vmas rp_layout]. rewrite R. mstep. eexists. split; [done|]. split; [|split; [cbn; by rewrite (lk_pgd _ _ Hk2), (lk_pgd _ _ Hk1)|apply snapshot_restored]].
    apply areas_ok_layout. replace l0 with l2; [done|]. apply (areas_unique 0 0); [apply (ok_tree _ _ Hok2)|done|]. intros kv.
    rewrite Hin2, Hmem, (areas_of_plans 0 l0 Hwf0). unfold user_areas. rewrite !list_elem_of_filter. destruct (is_user kv); naive_solver.
Qed.
End Install.
