(* ===== verification/ExecRemap.v ===== *)
(** * Taking a program's pages out of its page table and putting them back

    [execve] unmaps the pages of the running program before it maps the new one, and maps them
    again when the call fails (kernel/src/task/proc/exec.rs, [unmap_exec_mappings] and
    [remap_exec_mappings]). *)

From S2P Require Import Prelude Errno Vma Page Zone Pcp Buddy PageEntry Paging PageWalk PagingMap PagingUnmap Elf ExecLoad ExecPages ExecStage ExecRun.
#[local] Open Scope Z_scope.

Section Remap.
Context (apic : Z) (self : PageTableManager) (m0 : Mem) (B0 : gmap Z Block).

Abbreviation in_use := (in_use (levels self) (root_phys self)).
Abbreviation preserves := (preserves (levels self) (root_phys self)).
Abbreviation own_way := (own_way (levels self) (root_phys self)).
Abbreviation extends := (extends (levels self) (root_phys self)).

(** A page of the running program, mapped as it is recorded. *)
Record program_page (mp : ExecMappedPage) : Prop := {
  gp_virt : (PAGE_SIZE | mp_virt mp) /\ 0 <= mp_virt mp < USER_SPACE_END;
  gp_flags : page_flags (mp_flags mp) /\ has_bit (mp_flags mp) PTE_USER = true;
  gp_phys : frame_addr (mp_phys mp) /\ in_use m0 B0 (mp_phys mp / PAGE_SIZE);
  gp_way : own_way m0 B0 (mp_virt mp);
  gp_mapping w : on_page self (mp_virt mp) w -> mapping self m0 w = Some (mp_phys mp + w mod PAGE_SIZE, mp_flags mp)
}.
Definition program_pages (mapped : list ExecMappedPage) : Prop := Forall program_page mapped /\ NoDup (mp_virt <$> mapped).

(** The address space with some pages of the program taken out. *)
Definition on_pages (U : list ExecMappedPage) (w : Z) : Prop := Exists (fun mp => on_page self (mp_virt mp) w) U.
Record without (U : list ExecMappedPage) (m : Mem) (B : gmap Z Block) : Prop := {
  wo_ok : manager_ok self m B;
  wo_keep : preserves m0 B0 m B;
  wo_ext : extends m0 B0 m B;
  wo_out w : on_pages U w -> mapping self m w = None;
  wo_rest w : ~ on_pages U w -> mapping self m w = mapping self m0 w
}.

Lemma without_nil : manager_ok self m0 B0 -> without [] m0 B0.
Proof. intros Hok. split; [done|apply preserves_refl|apply extends_refl|by intros w ?%Exists_nil|done]. Qed.
Lemma without_kept U m B m' B' :
  without U m B -> manager_ok self m' B' -> preserves m B m' B' -> extends m B m' B' -> (forall w, mapping self m' w = mapping self m w) -> without U m' B'.
Proof.
  intros [a b c d e] Hok Hp He Hm. split; [done|by eapply preserves_trans|intros w Hw; by apply He, c|intros w Hw; rewrite Hm; by apply d|intros w Hw; rewrite Hm; by apply e].
Qed.
Lemma without_perm U V m B : (forall mp, mp ∈ U <-> mp ∈ V) -> without U m B -> without V m B.
Proof.
  intros HUV [a b c d e]. assert (H : forall w, on_pages V w <-> on_pages U w) by (intros w; unfold on_pages; rewrite !Exists_exists; naive_solver).
  split; [done|done|done|intros w Hw; by apply d, H|intros w Hw; apply e; by rewrite <- H].
Qed.

Hypothesis Ha : 0 <= apic.
Hypothesis Hok0 : manager_ok self m0 B0.

Lemma distinct_pages mapped mp mp' w :
  program_pages mapped -> mp ∈ mapped -> mp' ∈ mapped -> on_page self (mp_virt mp) w -> on_page self (mp_virt mp') w -> mp = mp'.
Proof.
  intros [Hall Hnd] [i Hi]%list_elem_of_lookup [j Hj]%list_elem_of_lookup H1 H2. rewrite Forall_lookup in Hall.
  destruct (gp_virt _ (Hall i _ Hi)) as [[k Hk] Hr]. destruct (gp_virt _ (Hall j _ Hj)) as [[k' Hk'] Hr'].
  assert (Hv : mp_virt mp = mp_virt mp').
  { assert (Hp : on_page self (mp_virt mp) (mp_virt mp')) by (eapply on_page_trans; [exact H1|by apply on_page_sym]).
    apply (on_page_user self _ _ (proj1 Hok0) Hr Hr') in Hp. rewrite Hk, Hk', !page_of_table in *. congruence. }
  assert (i = j) as -> by (eapply (NoDup_lookup (mp_virt <$> mapped)); [done|rewrite list_lookup_fmap, Hi; done|rewrite list_lookup_fmap, Hj; by rewrite Hv]). congruence.
Qed.

(** One page out. *)
Lemma take_out mapped U mp m B :
  program_pages mapped -> mp ∈ mapped -> (forall x, x ∈ U -> x ∈ mapped) -> mp ∉ U -> without U m B ->
  exists r m' B', unmap_page apic self (mp_virt mp) m = Ret (r, m') /\ without (mp :: U) m' B'.
Proof using Ha Hok0.
  intros Hpp Hmp HU Hni [a b c d e]. pose proof (proj1 Hpp) as Hall. rewrite Forall_forall in Hall. destruct (Hall mp Hmp) as [_ _ _ Hway Hmap].
  pose proof (c _ Hway) as Hway'. destruct (unmap_page_ok apic self m B (mp_virt mp) a Ha (own_way_tables self m B _ Hway')) as (ok & fsh & m' & B' & R & Hok' & _ & Hpv & Hres).
  destruct (Hpv Hway') as (Hpv1 & Hext1 & _).
  assert (Hoff : forall w, on_page self (mp_virt mp) w -> ~ on_pages U w).
  { intros w Hw (x & Hx & Hxw)%Exists_exists. apply Hni. by rewrite (distinct_pages mapped mp x w Hpp Hmp (HU x Hx) Hw Hxw). }
  destruct ok; [|destruct Hres as (Hbad & _); by rewrite e, Hmap in Hbad by (apply on_page_refl || apply Hoff, on_page_refl)].
  destruct Hres as (_ & _ & Hm & Hleaf & _). pose proof (own_way_leaf self m B _ Hway' Hleaf) as Hpage.
  exists (true, fsh), m', B'. split; [done|]. split; [done|by eapply preserves_trans|intros w Hw; by apply Hext1, c| |].
  - intros w Hw. rewrite Hm. case_decide as Hl; [done|]. apply Exists_cons in Hw as [Hw|Hw]; [by apply Hpage in Hw|by apply d].
  - intros w Hw. rewrite Hm, decide_False; [|rewrite Hpage; intros Hp; by apply Hw, Exists_cons_hd]. apply e. intros HUw. by apply Hw, Exists_cons_tl.
Qed.

Lemma unmap_each_ok mapped l : forall U m B,
  program_pages mapped -> NoDup l -> (forall x, x ∈ l -> x ∈ mapped) -> (forall x, x ∈ U -> x ∈ mapped) -> (forall x, x ∈ l -> x ∉ U) -> without U m B ->
  exists m' B', unmap_each apic self l m = Ret (tt, m') /\ without (l ++ U) m' B'.
Proof using Ha Hok0.
  induction l as [|mp l IH]; intros U m B Hpp Hnd Hl HU Hdis Hw; [exists m, B; done|]. apply NoDup_cons in Hnd as [Hni Hnd]. cbn [unmap_each].
  destruct (take_out mapped U mp m B Hpp (Hl mp ltac:(by left)) HU (Hdis mp ltac:(by left)) Hw) as (r & m1 & B1 & R1 & Hw1). rewrite (kbind_ret _ _ _ _ _ R1).
  destruct (IH (mp :: U) m1 B1 Hpp Hnd) as (m2 & B2 & R2 & Hw2); [set_solver|set_solver|set_solver|done|]. exists m2, B2. split; [done|]. eapply without_perm; [|exact Hw2]. set_solver.
Qed.

(** One page in; it may fail for want of a page for a table. *)
Lemma put_in mapped U mp m B :
  program_pages mapped -> mp ∈ mapped -> (forall x, x ∈ U -> x ∈ mapped) -> mp ∉ U -> without (mp :: U) m B ->
  exists (ok : bool) fsh m' B', map_page apic self (mp_virt mp) (mp_phys mp) (mp_flags mp) m = Ret ((ok, fsh), m') /\ without (if ok then U else mp :: U) m' B'.
Proof using Ha Hok0.
  intros Hpp Hmp HU Hni [a b c d e]. pose proof (proj1 Hpp) as Hall. rewrite Forall_forall in Hall. destruct (Hall mp Hmp) as [_ [Hf Huser] [Hph _] Hway Hmap].
  assert (Hnone : mapping self m (mp_virt mp) = None) by (apply d; left; apply on_page_refl).
  destruct (map_page_ok apic self m B (mp_virt mp) (mp_phys mp) (mp_flags mp) a Ha Hph Hf) as (ok & fsh & m' & B' & R & Hok' & F & Htab & Hkeep & Hext & Hres).
  { intros pa f Hbad. by rewrite Hnone in Hbad. }
  specialize (Hext Hnone (c _ Hway)). pose proof (keeps_preserves self m B m' B' a F Htab (Hkeep Hnone)) as Hpv.
  assert (Hoff : forall w, on_page self (mp_virt mp) w -> ~ on_pages U w).
  { intros w Hw (x & Hx & Hxw)%Exists_exists. apply Hni. by rewrite (distinct_pages mapped mp x w Hpp Hmp (HU x Hx) Hw Hxw). }
  exists ok, fsh, m', B'. split; [done|]. destruct ok.
  - destruct Hres as [Hm _]. split; [done|by eapply preserves_trans|intros w Hw; by apply Hext, c| |].
    + intros w Hw. rewrite Hm, decide_False; [by apply d, Exists_cons_tl|]. intros Hp. by apply (Hoff w Hp).
    + intros w Hw. rewrite Hm. case_decide as Hp; [by rewrite Hmap|]. apply e. intros [H|H]%Exists_cons; [by apply Hp|by apply Hw].
  - destruct Hres as [Hm _]. by apply (without_kept (mp :: U) m B).
Qed.

Lemma program_NoDup mapped : program_pages mapped -> NoDup mapped.
Proof. intros [_ Hnd]. by eapply NoDup_fmap_1. Qed.

Lemma NoDup_reversed {A} (l : list A) : NoDup l -> NoDup (reverse l).
Proof. by rewrite reverse_Permutation. Qed.
Lemma remap_loop_ok mapped l : forall done_ m B,
  program_pages mapped -> mapped = done_ ++ l -> without l m B ->
  exists r m' B', remap_loop apic self l done_ m = Ret (r, m') /\ (r = Ok tt /\ without [] m' B' \/ r = Err ENOMEM /\ without mapped m' B').
Proof using Ha Hok0.
  induction l as [|mp l IH]; intros done_ m B Hpp E Hw; [exists (Ok tt), m, B; auto|]. pose proof (program_NoDup mapped Hpp) as Hnd. rewrite E in Hnd. cbn [remap_loop].
  apply NoDup_app in Hnd as (Hnd1 & Hdis & Hnd2). apply NoDup_cons in Hnd2 as [Hni Hnd2].
  destruct (put_in mapped l mp m B Hpp) as (ok & fsh & m1 & B1 & R1 & Hw1); [rewrite E; set_solver|rewrite E; set_solver|done|done|].
  rewrite (kbind_ret _ _ _ _ _ R1). cbn beta iota. destruct ok; cbn [negb].
  - apply (IH (done_ ++ [mp]) m1 B1 Hpp); [by rewrite <- app_assoc|done].
  - destruct (unmap_each_ok mapped (reverse done_) (mp :: l) m1 B1 Hpp) as (m2 & B2 & R2 & Hw2); [by apply NoDup_reversed|rewrite E; intros x; rewrite elem_of_reverse; set_solver|rewrite E; set_solver|intros x; rewrite elem_of_reverse; by apply Hdis|done|].
    rewrite (kbind_ret _ _ _ _ _ R2). exists (Err ENOMEM), m2, B2. split; [done|]. right. split; [done|]. eapply without_perm; [|exact Hw2].
    rewrite E. intros x. rewrite !elem_of_app, elem_of_reverse. done.
Qed.

Lemma unmap_exec_mappings_ok mapped : program_pages mapped -> exists m' B', unmap_exec_mappings apic self mapped m0 = Ret (tt, m') /\ without mapped m' B'.
Proof using Ha Hok0.
  intros Hpp. pose proof (program_NoDup mapped Hpp) as Hnd.
  destruct (unmap_each_ok mapped (reverse mapped) [] m0 B0 Hpp) as (m' & B' & R & Hw); [by apply NoDup_reversed|intros x; by rewrite elem_of_reverse|by intros x ?%elem_of_nil|by intros x _ ?%elem_of_nil|by apply without_nil|].
  exists m', B'. split; [done|]. eapply without_perm; [|exact Hw]. intros x. by rewrite app_nil_r, elem_of_reverse.
Qed.
Lemma remap_exec_mappings_ok mapped m B : program_pages mapped -> without mapped m B ->
  exists r m' B', remap_exec_mappings apic self mapped m = Ret (r, m') /\ (r = Ok tt /\ without [] m' B' \/ r = Err ENOMEM /\ without mapped m' B').
Proof using Ha Hok0. intros Hpp. by apply (remap_loop_ok mapped mapped []). Qed.
End Remap.
