(* ===== verification/ExecArgs.v ===== *)
(** * The arguments of execve: kernel/src/task/syscall/exec_args.rs, kernel/src/common/uaccess.rs

    The call copies the path, the arguments and the environment out of the memory of the
    calling program before anything else happens.  Reads go through the page table of the
    caller; as in [ExecStack], one at an address that is not mapped is [Panic]. *)

From S2P Require Import Prelude Errno Vma MmSyscall Page Zone Pcp Buddy PageEntry Paging PageWalk PagingMap Block BlockTheorems Utf8 Elf ExecStack.
#[local] Open Scope Z_scope.

Definition ENAMETOOLONG : Z := 36.
Definition EXEC_PATH_MAX : Z := 4096.
Definition EXEC_ARG_STR_MAX : Z := 4096.
Definition EXEC_ARG_LIST_MAX : Z := 256.
Definition EXEC_ENV_LIST_MAX : Z := 256.
Definition EXEC_TOTAL_BYTES_MAX : Z := 128 * 1024.

Definition validate_user_range (ptr size : Z) : Result unit Z :=
  if size =? 0 then Ok tt
  else
    let? last := ok_or (checked_add64 ptr (saturating_sub64 size 1)) EFAULT in
    if (ptr <? USER_SPACE_START) || (last <? USER_SPACE_START) then Err EFAULT
    else if negb (is_user_addr ptr) || negb (is_user_addr last) then Err EFAULT
    else Ok tt.

Section Args.
Context (self : PageTableManager) (m : Mem).

Definition read_user_u8 (ptr : Z) : exec (Result Z Z) :=
  match validate_user_range ptr 1 with
  | Err err => Ret (Err err)
  | Ok _ => b ← load_byte self m ptr; Ret (Ok b)
  end.
Definition read_user_usize (ptr : Z) : exec (Result Z Z) :=
  match validate_user_range ptr 8 with
  | Err err => Ret (Err err)
  | Ok _ => w ← load_usize self m ptr; Ret (Ok w)
  end.

(** The loop over the offsets. *)
Fixpoint cstring_loop (ptr : Z) (offsets : list Z) (bytes : list Z) : exec (Result (list Z) Z) :=
  match offsets with
  | [] => Ret (Err ENAMETOOLONG)
  | offset :: offsets' =>
      match checked_add64 ptr offset with
      | None => Ret (Err EFAULT)
      | Some addr =>
          r ← read_user_u8 addr;
          match r with
          | Err err => Ret (Err err)
          | Ok value =>
              if value =? 0 then Ret (if valid_utf8 bytes then Ok bytes else Err EINVAL)
              else cstring_loop ptr offsets' (bytes ++ [value])
          end
      end
  end.
Definition read_user_cstring (ptr max_len : Z) : exec (Result (list Z) Z) :=
  if ptr =? 0 then Ret (Err EFAULT) else cstring_loop ptr (zrange 0 max_len) [].

Fixpoint array_loop (list_ptr item_len_limit : Z) (indexes : list Z) (result : list (list Z)) (used_bytes : Z) : exec (Result (list (list Z) * Z) Z) :=
  match indexes with
  | [] => Ret (Err E2BIG)
  | index :: indexes' =>
      match checked_mul64 index 8 with
      | None => Ret (Err E2BIG)
      | Some index_offset =>
          match checked_add64 list_ptr index_offset with
          | None => Ret (Err EFAULT)
          | Some entry_ptr =>
              r ← read_user_usize entry_ptr;
              match r with
              | Err err => Ret (Err err)
              | Ok value_ptr =>
                  if value_ptr =? 0 then Ret (Ok (result, used_bytes))
                  else
                    r ← read_user_cstring value_ptr item_len_limit;
                    match r with
                    | Err err => Ret (Err err)
                    | Ok value =>
                        match checked_add64 used_bytes (saturating_add64 (Z.of_nat (length value)) 1) with
                        | None => Ret (Err E2BIG)
                        | Some used_bytes =>
                            if EXEC_TOTAL_BYTES_MAX <? used_bytes then Ret (Err E2BIG)
                            else array_loop list_ptr item_len_limit indexes' (result ++ [value]) used_bytes
                        end
                    end
              end
          end
      end
  end.
Definition read_user_string_array (list_ptr max_items item_len_limit : Z) : exec (Result (list (list Z) * Z) Z) :=
  if list_ptr =? 0 then Ret (Ok ([], 0)) else array_loop list_ptr item_len_limit (zrange 0 max_items) [] 0.

Definition parse_execve_payload (path_ptr argv_ptr envp_ptr : Z) : exec (Result (list Z * list (list Z) * list (list Z)) Z) :=
  path ← read_user_cstring path_ptr EXEC_PATH_MAX;
  match path with
  | Err err => Ret (Err err)
  | Ok path =>
      argv ← read_user_string_array argv_ptr EXEC_ARG_LIST_MAX EXEC_ARG_STR_MAX;
      match argv with
      | Err err => Ret (Err err)
      | Ok (argv, argv_bytes) =>
          envp ← read_user_string_array envp_ptr EXEC_ENV_LIST_MAX EXEC_ARG_STR_MAX;
          match envp with
          | Err err => Ret (Err err)
          | Ok (envp, envp_bytes) =>
              let total_bytes := saturating_add64 (saturating_add64 (saturating_add64 (Z.of_nat (length path)) 1) argv_bytes) envp_bytes in
              if EXEC_TOTAL_BYTES_MAX <? total_bytes then Ret (Err E2BIG) else Ret (Ok (path, argv, envp))
          end
      end
  end.
End Args.

(** ** What is read *)
Section Read.
Context (self : PageTableManager) (m : Mem).

(** A string in user memory: no zero in it, a zero behind it. *)
Record user_string (p : Z) (s : list Z) : Prop := {
  us_range : USER_SPACE_START <= p /\ p + Z.of_nat (length s) < USER_SPACE_END;
  us_bytes : cstring self m p s;
  us_nonzero : Forall (fun b => b <> 0) s
}.
(** A table of strings that ends with a null pointer. *)
Record user_strings (p : Z) (ss : list (list Z)) : Prop := {
  ut_range : USER_SPACE_START <= p /\ p + 8 * (Z.of_nat (length ss) + 1) <= USER_SPACE_END;
  ut_table : exists ps, holds_words self m p (ps ++ [0]) /\ Forall2 user_string ps ss
}.

Lemma validate_user_range_ok p n : USER_SPACE_START <= p -> 0 < n -> p + n <= USER_SPACE_END -> validate_user_range p n = Ok tt.
Proof.
  intros Hp Hn He. unfold validate_user_range. unfold USER_SPACE_START, USER_SPACE_END, PAGE_SIZE in *. destruct (Z.eqb_spec n 0); [lia|]. unfold saturating_sub64, checked_add64.
  rewrite Z.max_r by lia. rewrite (proj2 (Z.ltb_lt _ _)) by lia. cbn [ok_or]. rewrite !(proj2 (Z.ltb_ge _ _)) by lia. unfold is_user_addr, USER_SPACE_END.
  by rewrite !(proj2 (Z.ltb_lt _ _)) by lia.
Qed.

Lemma cstring_loop_ok p s : forall n k done_,
  user_string p s -> (k + n = length s)%nat -> done_ = take k s -> forall max, (length s < max)%nat ->
  cstring_loop self m p (zrange (Z.of_nat k) (Z.of_nat max)) done_ = Ret (if valid_utf8 s then Ok s else Err EINVAL).
Proof.
  induction n as [|n IH]; intros k done_ Hs Hk -> max Hmax; rewrite zrange_cons by lia; cbn [cstring_loop]; destruct Hs as [[Hr1 Hr2] Hb Hz];
    unfold checked_add64; rewrite (proj2 (Z.ltb_lt _ _)) by (unfold USER_SPACE_END in *; lia); unfold read_user_u8; rewrite validate_user_range_ok by lia.
  - rewrite (Hb k 0) by (rewrite lookup_app_r by lia; by replace (k - length s)%nat with O by lia). mstep. cbn. by rewrite take_ge by lia.
  - destruct (lookup_lt_is_Some_2 s k ltac:(lia)) as [b Hbk]. rewrite (Hb k b) by (by apply lookup_app_l_Some). mstep.
    rewrite Forall_lookup in Hz. destruct (Z.eqb_spec b 0) as [->|_]; [by destruct (Hz _ _ Hbk)|].
    replace (Z.of_nat k + 1) with (Z.of_nat (S k)) by lia. apply IH; [by split; [|done|apply Forall_lookup]|lia|by rewrite (take_S_r _ _ b)|done].
Qed.
Lemma read_user_cstring_ok p s max : user_string p s -> Z.of_nat (length s) < max -> read_user_cstring self m p max = Ret (if valid_utf8 s then Ok s else Err EINVAL).
Proof.
  intros Hs Hmax. unfold read_user_cstring. destruct (Z.eqb_spec p 0); [pose proof (us_range _ _ Hs); unfold USER_SPACE_START in *; lia|].
  pose proof (cstring_loop_ok p s (length s) 0 [] Hs eq_refl eq_refl (Z.to_nat max) ltac:(lia)) as H. by rewrite Z2Nat.id in H by lia.
Qed.

Lemma strings_size_app l1 l2 : strings_size (l1 ++ l2) = strings_size l1 + strings_size l2.
Proof. unfold strings_size. induction l1 as [|s l1 IH]; cbn; lia. Qed.

(** Strings that the call accepts. *)
Definition acceptable (ss : list (list Z)) : Prop :=
  Forall (fun s => valid_utf8 s = true /\ Z.of_nat (length s) < EXEC_ARG_STR_MAX) ss /\ strings_size ss <= EXEC_TOTAL_BYTES_MAX.

Lemma array_loop_ok p ps ss : forall n k,
  USER_SPACE_START <= p -> p + 8 * (Z.of_nat (length ss) + 1) <= USER_SPACE_END -> holds_words self m p (ps ++ [0]) -> Forall2 user_string ps ss -> acceptable ss ->
  (k + n = length ss)%nat -> forall max, (length ss < max)%nat ->
  array_loop self m p EXEC_ARG_STR_MAX (zrange (Z.of_nat k) (Z.of_nat max)) (take k ss) (strings_size (take k ss)) = Ret (Ok (ss, strings_size ss)).
Proof.
  induction n as [|n IH]; intros k Hp He Hw H2 Hacc Hk max Hmax; pose proof Hacc as [Hall Hsize]; rewrite zrange_cons by lia; cbn [array_loop]; pose proof (Forall2_length _ _ _ H2) as Hlen;
    assert (Hmul : checked_mul64 (Z.of_nat k) 8 = Some (8 * Z.of_nat k)) by (unfold checked_mul64; rewrite Z.mul_comm, (proj2 (Z.ltb_lt _ _)); [done|unfold USER_SPACE_START, USER_SPACE_END in *; lia]);
    assert (Hadd : checked_add64 p (8 * Z.of_nat k) = Some (p + 8 * Z.of_nat k)) by (unfold checked_add64; rewrite (proj2 (Z.ltb_lt _ _)); [done|unfold USER_SPACE_END in *; lia]);
    rewrite Hmul, Hadd; unfold read_user_usize; rewrite validate_user_range_ok by lia.
  - rewrite (Hw k 0) by (rewrite lookup_app_r by lia; by replace (k - length ps)%nat with O by lia). mstep. cbn. by rewrite take_ge by lia.
  - destruct (lookup_lt_is_Some_2 ss k ltac:(lia)) as [s Hs]. destruct (Forall2_lookup_r _ _ _ _ _ H2 Hs) as (q & Hq & Hus).
    rewrite (Hw k q) by (by apply lookup_app_l_Some). mstep. pose proof (us_range _ _ Hus). destruct (Z.eqb_spec q 0); [unfold USER_SPACE_START in *; lia|].
    rewrite Forall_lookup in Hall. destruct (Hall _ _ Hs) as [Hv Hl]. rewrite (read_user_cstring_ok q s _ Hus Hl), Hv. mstep.
    assert (Hstep : strings_size (take (S k) ss) = strings_size (take k ss) + (Z.of_nat (length s) + 1)).
    { rewrite (take_S_r _ _ s Hs), strings_size_app. unfold strings_size at 2. cbn. lia. }
    assert (Hle : strings_size (take (S k) ss) <= strings_size ss).
    { rewrite <- (take_drop (S k) ss) at 2. rewrite strings_size_app. pose proof (strings_size_nonneg (drop (S k) ss)). lia. }
    pose proof (strings_size_nonneg (take k ss)). unfold EXEC_ARG_STR_MAX, EXEC_TOTAL_BYTES_MAX in *. unfold saturating_add64, checked_add64. rewrite (Z.min_r _ (Z.of_nat (length s) + 1)) by lia.
    rewrite <- Hstep. rewrite (proj2 (Z.ltb_lt _ _)) by lia. rewrite (proj2 (Z.ltb_ge _ _)) by lia.
    replace (Z.of_nat k + 1) with (Z.of_nat (S k)) by lia. rewrite <- (take_S_r _ _ s Hs). apply IH; try done; lia.
Qed.

(** A table, or no table. *)
Definition user_list (p : Z) (ss : list (list Z)) : Prop := p = 0 /\ ss = [] \/ user_strings p ss.
Lemma read_user_string_array_ok p ss max :
  user_list p ss -> acceptable ss -> Z.of_nat (length ss) < max -> read_user_string_array self m p max EXEC_ARG_STR_MAX = Ret (Ok (ss, strings_size ss)).
Proof.
  intros [[-> ->]|[[Hp He] (ps & Hw & H2)]] Hacc Hmax; [done|]. unfold read_user_string_array. destruct (Z.eqb_spec p 0); [unfold USER_SPACE_START in *; lia|].
  pose proof (array_loop_ok p ps ss (length ss) 0 Hp He Hw H2 Hacc eq_refl (Z.to_nat max) ltac:(lia)) as H. by rewrite Z2Nat.id in H by lia.
Qed.

Lemma parse_execve_payload_ok path_ptr argv_ptr envp_ptr path argv envp :
  user_string path_ptr path -> valid_utf8 path = true -> Z.of_nat (length path) < EXEC_PATH_MAX -> user_list argv_ptr argv -> user_list envp_ptr envp ->
  acceptable argv -> acceptable envp -> Z.of_nat (length argv) < EXEC_ARG_LIST_MAX -> Z.of_nat (length envp) < EXEC_ENV_LIST_MAX ->
  parse_execve_payload self m path_ptr argv_ptr envp_ptr =
    Ret (if EXEC_TOTAL_BYTES_MAX <? Z.of_nat (length path) + 1 + strings_size argv + strings_size envp then Err E2BIG else Ok (path, argv, envp)).
Proof.
  intros Hp Hv Hl Ha He HA HE Hla Hle. unfold parse_execve_payload. rewrite (read_user_cstring_ok _ _ _ Hp Hl), Hv. mstep. rewrite (read_user_string_array_ok _ _ _ Ha HA Hla). mstep.
  rewrite (read_user_string_array_ok _ _ _ He HE Hle). mstep. destruct HA as [_ HA], HE as [_ HE]. pose proof (strings_size_nonneg argv). pose proof (strings_size_nonneg envp).
  unfold EXEC_PATH_MAX, EXEC_TOTAL_BYTES_MAX in *. unfold saturating_add64. rewrite !Z.min_r by lia. by destruct (_ <? _).
Qed.
End Read.
