(* ===== verification/ExecCall.v ===== *)
(** * The call execve: kernel/src/task/syscall/exec.rs

    The call puts the parts together: it copies its arguments from the calling program, reads
    the file, makes the plan, takes the old program out of the page table, maps the new one,
    replaces the areas, fills the stack and enters the program; on every error after the old
    program was unmapped it is put back.  The state is the memory with its allocators, the
    address space, and what the current task and its process record (task/runtime/manager.rs,
    task/proc/process.rs).  [self] is the page-table manager that [current_page_table_manager]
    makes from the root of the address space, which the call does not change.  The file system
    is an argument: [read_all_for_pid] of fs/runtime.  Diagnostic output is left out. *)

From S2P Require Import Prelude Errno OrdMap MapleTree Vma MmSyscall Page Zone Pcp Buddy PageEntry Paging PageWalk PagingMap Block BlockTheorems Utf8 Elf ExecStack ExecArgs ExecLoad ExecVma.
#[local] Open Scope Z_scope.

Inductive ProcessStatus := Running | Stopped | Exiting | Zombie.
(** The fields of [Process] that the call reads or writes. *)
Record Process := mkProcess {
  proc_name : list Z; last_exec_path : list Z; last_exec_argc : Z; last_exec_envc : Z; exec_request_seq : Z; status : ProcessStatus;
  wait_stop_signal : option Z; wait_stop_reported : bool; wait_continued_pending : bool; exec_mappings : list ExecMappedPage
}.
Definition replace_exec_mappings (mappings : list ExecMappedPage) (p : Process) : list ExecMappedPage * Process :=
  (exec_mappings p, mkProcess (proc_name p) (last_exec_path p) (last_exec_argc p) (last_exec_envc p) (exec_request_seq p) (status p)
                      (wait_stop_signal p) (wait_stop_reported p) (wait_continued_pending p) mappings).
Definition take_exec_mappings (p : Process) : list ExecMappedPage * Process := replace_exec_mappings [] p.
Definition record_exec_request (path : list Z) (argc envc : Z) (p : Process) : Process :=
  mkProcess path path argc envc (saturating_add64 (exec_request_seq p) 1) Running None false false (exec_mappings p).

Record Task := mkTask { task_pid : Z; task_name : list Z }.

Record UserEnterFrame := mkFrame { rip : Z; rsp : Z; rflags : Z; cs : Z; ss : Z }.
Definition USER_CODE_SELECTOR : Z := Z.lor 0x18 3.
Definition USER_DATA_SELECTOR : Z := Z.lor 0x20 3.
Definition build_user_enter_frame (entry stack_top : Z) : UserEnterFrame := mkFrame entry stack_top 0x202 USER_CODE_SELECTOR USER_DATA_SELECTOR.

(** The call returns an error number to the old program, or enters the new one. *)
Inductive ExecOutcome := Returned (errno : Z) | Entered (frame : UserEnterFrame).

Section Call.
Context {M : Type} `{Hops : OrdMapOps M (RangeEntry VmaInfo)}.
Context (apic_id : Z) (self : PageTableManager) (read_all_for_pid : Z -> list Z -> exec (Result (list Z) Z)).

(** The current task, and its process when there is one with the task's number. *)
Record ExecState := mkState { st_mem : Mem; st_mm : option (ExecMm M); st_task : option Task; st_process : option Process }.
Definition with_mem (st : ExecState) (m : Mem) : ExecState := mkState m (st_mm st) (st_task st) (st_process st).
Definition with_current_mm (st : ExecState) (mm : option (ExecMm M)) : ExecState := mkState (st_mem st) mm (st_task st) (st_process st).
Definition with_process (st : ExecState) (p : Process) : ExecState := mkState (st_mem st) (st_mm st) (st_task st) (Some p).

Definition on_mem {A} (k : Kern A) (st : ExecState) : exec (A * ExecState) := '(a, m) ← k (st_mem st); Ret (a, with_mem st m).

(** ** The current process *)
Definition current_process (st : ExecState) : option Process := match st_task st with Some _ => st_process st | None => None end.
Definition take_current_exec_mappings (st : ExecState) : option (list ExecMappedPage) * ExecState :=
  match current_process st with
  | None => (None, st)
  | Some p => let '(l, p) := take_exec_mappings p in (Some l, with_process st p)
  end.
Definition set_current_exec_mappings (mappings : list ExecMappedPage) (st : ExecState) : exec (option Z * ExecState) :=
  match current_process st with
  | None => '(_, st) ← on_mem (rollback_exec_mappings apic_id self mappings) st; Ret (None, st)
  | Some p =>
      let '(replaced, p) := replace_exec_mappings mappings p in
      let st := with_process st p in
      if bool_decide (replaced = []) then Ret (Some 0, st)
      else '(_, st) ← on_mem (rollback_exec_mappings apic_id self replaced) st; Ret (Some (Z.of_nat (length replaced)), st)
  end.
Definition record_current_exec_request (path : list Z) (argc envc : Z) (st : ExecState) : option Z * ExecState :=
  match st_task st with
  | None => (None, st)
  | Some task =>
      let st := mkState (st_mem st) (st_mm st) (Some (mkTask (task_pid task) path)) (st_process st) in
      match st_process st with
      | None => (None, st)
      | Some p => (Some (task_pid task), with_process st (record_exec_request path argc envc p))
      end
  end.

(** ** Putting the old program back *)
Definition restore_previous_exec_state (previous_mappings : list ExecMappedPage) (vma_restore : option ExecVmaRestorePoint) (st : ExecState)
    : exec (Result unit Z * ExecState) :=
  mm ← match vma_restore with Some restore => restore_current_exec_vmas (st_mm st) restore | None => Ret (st_mm st) end;
  let st := with_current_mm st mm in
  '(r, st) ← on_mem (remap_exec_mappings apic_id self previous_mappings) st;
  match r with
  | Err err => Ret (Err err, st)
  | Ok _ =>
      '(set, st) ← set_current_exec_mappings previous_mappings st;
      Ret (match set with None => Err ESRCH | Some _ => Ok tt end, st)
  end.
(** The end of an error path: the error of the way back comes first. *)
Definition give_back (previous_mappings : list ExecMappedPage) (vma_restore : option ExecVmaRestorePoint) (errno : Z) (st : ExecState)
    : exec (ExecOutcome * ExecState) :=
  '(r, st) ← restore_previous_exec_state previous_mappings vma_restore st;
  Ret (Returned (match r with Err restore_errno => restore_errno | Ok _ => errno end), st).
(** ... when the new program's pages are recorded already. *)
Definition roll_back (previous_mappings : list ExecMappedPage) (vma_restore : ExecVmaRestorePoint) (errno : Z) (st : ExecState)
    : exec (ExecOutcome * ExecState) :=
  let '(installed, st) := take_current_exec_mappings st in
  '(_, st) ← on_mem (rollback_exec_mappings apic_id self (default [] installed)) st;
  give_back previous_mappings (Some vma_restore) errno st.

(** The bounds of the strings go into the address space. *)
Definition set_strings (info : StackInfo) (st : ExecState) : ExecState :=
  match st_mm st with
  | None => st
  | Some x =>
      with_current_mm st (Some (mkExecMm (em_mm x) (start_code x) (end_code x) (start_data x) (end_data x)
                                  (arg_start info) (arg_end info) (env_start info) (env_end info)))
  end.

(** ** The call, from the point where the old program is unmapped *)
Definition start_program (path : list Z) (argv envp : list (list Z)) (load_plan : ExecLoadPlan) (previous_mappings : list ExecMappedPage)
    (vma_restore : ExecVmaRestorePoint) (st : ExecState) : exec (ExecOutcome * ExecState) :=
  let argv_refs := if bool_decide (argv = []) then [path] else argv in
  '(r, st) ← on_mem (setup_initial_user_stack self (stack_top load_plan) (plan_stack_pages load_plan) argv_refs envp (minimal_auxv load_plan)) st;
  match r with
  | Err errno => roll_back previous_mappings vma_restore errno st
  | Ok info =>
      let st := set_strings info st in
      let '(recorded, st) := record_current_exec_request path (Z.of_nat (length argv)) (Z.of_nat (length envp)) st in
      match recorded with
      | None => roll_back previous_mappings vma_restore ESRCH st
      | Some _ => Ret (Entered (build_user_enter_frame (plan_entry load_plan) (user_rsp info)), st)
      end
  end.

Definition replace_program (path : list Z) (argv envp : list (list Z)) (image : list Z) (load_plan : ExecLoadPlan) (previous_mappings : list ExecMappedPage)
    (st : ExecState) : exec (ExecOutcome * ExecState) :=
  '(staged, st) ← on_mem (stage_pt_load_mappings apic_id self image load_plan) st;
  match staged with
  | Err errno => give_back previous_mappings None errno st
  | Ok staged_mappings =>
      '(r, mm) ← install_current_exec_vmas (st_mm st) load_plan;
      let st := with_current_mm st mm in
      match r with
      | Err errno =>
          '(_, st) ← on_mem (rollback_exec_mappings apic_id self staged_mappings) st;
          give_back previous_mappings None errno st
      | Ok vma_restore =>
          '(set, st) ← set_current_exec_mappings staged_mappings st;
          match set with
          | None => give_back previous_mappings (Some vma_restore) ESRCH st
          | Some _ => start_program path argv envp load_plan previous_mappings vma_restore st
          end
      end
  end.

Definition sys_execve (path_ptr argv_ptr envp_ptr : Z) (st : ExecState) : exec (ExecOutcome * ExecState) :=
  payload ← parse_execve_payload self (st_mem st) path_ptr argv_ptr envp_ptr;
  match payload with
  | Err errno => Ret (Returned errno, st)
  | Ok (path, argv, envp) =>
      match st_task st with
      | None => Ret (Returned ESRCH, st)
      | Some task =>
          image ← read_all_for_pid (task_pid task) path;
          match image with
          | Err errno => Ret (Returned errno, st)
          | Ok image =>
              match build_elf_load_plan image with
              | Err errno => Ret (Returned errno, st)
              | Ok load_plan =>
                  let '(previous, st) := take_current_exec_mappings st in
                  match previous with
                  | None => Ret (Returned ESRCH, st)
                  | Some previous_mappings =>
                      '(_, st) ← on_mem (unmap_exec_mappings apic_id self previous_mappings) st;
                      replace_program path argv envp image load_plan previous_mappings st
                  end
              end
          end
      end
  end.
End Call.
Arguments ExecState M : clear implicits.
