(* ===== verification/ExecCallSteps.v ===== *)
(** * The steps of execve: what the later ones need from the earlier *)

From stdpp Require Import sorting.
From S2P Require Import Prelude Errno OrdMap MapleTree Vma MmSyscall Page Zone Pcp Buddy PageEntry Paging PageWalk PagingMap PagingUnmap Block BlockTheorems Utf8 Elf ExecStack ExecArgs ExecLoad ExecPages ExecStage ExecRun ExecTheorems ExecVma ExecRemap ExecCall.
#[local] Open Scope Z_scope.

(** ** Strings are bytes *)
Section Bytes.
Context (self : PageTableManager) (m : Mem).

Lemma load_byte_byte v b : load_byte self m v = Ret b -> byte b.
Proof. unfold load_byte. destruct (translate_addr self v m); [|done]. intros [= <-]. by apply Z.mod_pos_bound. Qed.

(** A string as the call accepts it. *)
Record text (s : list Z) : Prop := {
  tx_bytes : Forall byte s;
  tx_nonzero : Forall (fun b => b <> 0) s;
  tx_short : (length s < 4096)%nat;
  tx_utf8 : valid_utf8 s = true
}.

Lemma cstring_loop_text p offs : forall bs s, Forall byte bs -> Forall (fun b => b <> 0) bs -> (length bs + length offs <= 4096)%nat ->
  cstring_loop self m p offs bs = Ret (Ok s) -> text s.
Proof.
  induction offs as [|o offs IH]; intros bs s Hb Hz Hl; cbn [cstring_loop]; [done|]. cbn [length] in Hl. destruct (checked_add64 p o) as [a|]; [|done]. unfold read_user_u8.
  destruct (validate_user_range a 1); [|done]. destruct (load_byte self m a) as [b| |] eqn:Hbyte; cbn; [|done..]. destruct (Z.eqb_spec b 0).
  - destruct (valid_utf8 bs) eqn:Hv; [|done]. intros [= <-]. split; [done|done|lia|done].
  - apply IH; [|apply Forall_app; split; [done|by repeat constructor]|rewrite length_app; cbn; lia]. apply Forall_app. split; [done|]. constructor; [|constructor]. by eapply load_byte_byte.
Qed.
Lemma read_user_cstring_text p s : read_user_cstring self m p 4096 = Ret (Ok s) -> text s.
Proof. unfold read_user_cstring. destruct (p =? 0); [done|]. apply cstring_loop_text; [constructor|constructor|]. unfold zrange. rewrite length_seqZ. cbn. lia. Qed.

Lemma array_loop_text p idxs : forall acc used ss n, Forall text acc -> array_loop self m p 4096 idxs acc used = Ret (Ok (ss, n)) -> Forall text ss.
Proof.
  induction idxs as [|i idxs IH]; intros acc used ss n Hacc; cbn [array_loop]; [done|]. destruct (checked_mul64 i 8); [|done]. destruct (checked_add64 p _); [|done].
  destruct (read_user_usize self m _) as [[q|]| |]; cbn; [|done..]. destruct (q =? 0); [by intros [= <- _]|].
  destruct (read_user_cstring self m q 4096) as [[s|]| |] eqn:Hs; cbn; [|done..]. destruct (checked_add64 used _); [|done]. destruct (_ <? _); [done|].
  apply IH. apply Forall_app. split; [done|]. constructor; [|constructor]. by eapply read_user_cstring_text.
Qed.
Lemma parse_execve_payload_text pp ap ep path argv envp :
  parse_execve_payload self m pp ap ep = Ret (Ok (path, argv, envp)) -> text path /\ Forall text argv /\ Forall text envp.
Proof.
  unfold parse_execve_payload. change EXEC_PATH_MAX with 4096. change EXEC_ARG_STR_MAX with 4096. destruct (read_user_cstring self m pp _) as [[s|]| |] eqn:Hs; cbn; [|done..].
  assert (Harr : forall q max l n, read_user_string_array self m q max 4096 = Ret (Ok (l, n)) -> Forall text l).
  { intros q max l n. unfold read_user_string_array. destruct (q =? 0); [intros [= <- _]; constructor|]. apply array_loop_text. constructor. }
  destruct (read_user_string_array self m ap _ _) as [[[av an]|]| |] eqn:Hav; cbn; [|done..]. destruct (read_user_string_array self m ep _ _) as [[[ev en]|]| |] eqn:Hev; cbn; [|done..].
  destruct (_ <? _); [done|]. intros [= <- <- <-]. split; [by eapply read_user_cstring_text|]. split; eapply Harr; done.
Qed.
Lemma texts_bytes ss : Forall text ss -> Forall (Forall byte) ss.
Proof. intros H. eapply Forall_impl; [exact H|]. by intros s []. Qed.
End Bytes.

(** The auxiliary vector holds words. *)
Lemma build_elf_load_plan_table image plan :
  build_elf_load_plan image = Ok plan -> exists h, read_elf_header image 0 = Some h /\ phentsize plan = 56 /\ phnum plan = e_phnum h.
Proof.
  unfold build_elf_load_plan. destruct (read_elf_header image 0) as [h|] eqn:Hh; [|done]. cbn [ok_or].
  do 6 (match goal with |- (if negb ?b then _ else _) = _ -> _ => destruct b; cbn [negb]; [|done] end).
  destruct (Z.eqb_spec (e_phentsize h) PROGRAM_HEADER_SIZE) as [Hps|]; cbn [negb]; [|done]. destruct (e_phnum h =? 0); [done|].
  destruct (checked_mul64 _ _); [|done]. cbn [ok_or]. destruct (checked_add64 _ _); [|done]. cbn [ok_or]. destruct (_ <? _); [done|].
  destruct (plan_loop _ _ _ _ _) as [acc|]; [|done]. cbn. destruct (bool_decide _); [done|]. destruct (negb _); [done|]. destruct (_ || _); [done|]. destruct (negb _); [done|].
  intros [= <-]. by exists h.
Qed.
Lemma minimal_auxv_words image plan :
  Forall byte image -> build_elf_load_plan image = Ok plan -> Forall (fun e => in_u64 (aux_key e) /\ in_u64 (aux_value e)) (minimal_auxv plan).
Proof.
  intros Hb Hr. destruct (build_elf_load_plan_ok image plan Hb Hr) as (h & Hh & _ & _ & Hok & _ & _ & (s & Hs & He) & _ & Hph & _).
  destruct (build_elf_load_plan_table image plan Hr) as (h' & Hh' & Hpe & Hpn). assert (h' = h) as -> by congruence.
  rewrite Forall_forall in Hok. assert (Hseg : forall t, t ∈ segments plan -> 0 <= vaddr t /\ vaddr t + mem_size t <= USER_SPACE_END /\ file_size t <= mem_size t).
  { intros t Ht. destruct (Hok t Ht) as [? [? ?] _ _ _ _]. unfold USER_SPACE_START in *. lia. }
  assert (Hnum : in_u64 (phnum plan)).
  { rewrite Hpn. unfold read_elf_header in Hh. destruct (struct_fits _ _ _); [|done]. injection Hh as <-. cbn [e_phnum].
    pose proof (le_at_bound image (0 + 56) 2 Hb ltac:(lia)) as H. unfold in_u64, read_le_u16. change (256 ^ 2) with 65536 in H. lia. }
  assert (Hentry : in_u64 (plan_entry plan)) by (pose proof (Hseg s Hs); unfold in_u64, USER_SPACE_END in *; lia).
  assert (Hphdr : in_u64 (phdr_addr plan)).
  { destruct Hph as [->|(t & Ht & Hr1 & ->)]; [done|]. pose proof (Hseg t Ht). unfold in_u64, USER_SPACE_END in *. lia. }
  unfold minimal_auxv. rewrite Hpe. repeat (apply Forall_cons; split; [split; [by unfold in_u64|first [done|by unfold in_u64]]|]). constructor.
Qed.

Lemma first_rsp_below top argv envp auxv : first_rsp top argv envp auxv < top.
Proof.
  unfold first_rsp. set (n := 5 + _ + _ + _). pose proof (strings_size_nonneg argv). pose proof (strings_size_nonneg envp). set (y := top - strings_size envp - strings_size argv).
  pose proof (Z.mul_div_le y 16 ltac:(lia)). destruct (n mod 2 =? 0); lia.
Qed.

(** The addresses of the stack and of the segments lie on pages of the plan. *)
Lemma stack_on_plan self image plan v :
  page_levels self = 4 \/ page_levels self = 5 -> loadable_plan image plan -> stack_bottom_of plan <= v < stack_top plan ->
  0 <= v < USER_SPACE_END /\ exists d, d ∈ plan_pages image plan /\ on_page self (lp_virt d) v.
Proof.
  intros Hlv Hpl Hv. destruct (stack_bounds image plan Hpl) as (Hb & Ht & Hn & He). assert (Hr : 0 <= v < USER_SPACE_END) by (unfold PAGE_SIZE in *; lia). split; [done|].
  destruct (stack_address image plan v Hpl Hv) as (d & Hd & Hpg & _). exists d. split; [done|]. apply on_page_user; [done|apply (plan_pages_user image plan d Hpl Hd)|done|done].
Qed.
Lemma segment_on_plan self image plan s w :
  page_levels self = 4 \/ page_levels self = 5 -> loadable_plan image plan -> s ∈ segments plan -> page_start s <= w < page_end s ->
  0 <= w < USER_SPACE_END /\ exists d, d ∈ plan_pages image plan /\ on_page self (lp_virt d) w.
Proof.
  intros Hlv Hpl Hs Hw. pose proof (lq_segments _ _ Hpl) as Hok. rewrite Forall_forall in Hok. pose proof (sg_user _ _ (Hok s Hs)).
  assert (Hr : 0 <= w < USER_SPACE_END) by (unfold USER_SPACE_START in *; lia). split; [done|]. destruct (segment_address image plan s w Hpl Hs Hw) as (d & Hd & Hpg & _). exists d. split; [done|].
  apply on_page_user; [done|apply (plan_pages_user image plan d Hpl Hd)|done|done].
Qed.

(** ** Writing to the stack of a program that has been loaded *)
Section Stack.
Context (self : PageTableManager) (m0 : Mem) (B0 : gmap Z Block) (D : list LoadedPage) (m : Mem) (B : gmap Z Block) (mapped : list ExecMappedPage).
Hypothesis Hpr : progress self m0 B0 D m B mapped.
Context (lo hi : Z) (m' : Mem).
Hypothesis Hram : user_ram self lo hi m.
Hypothesis Hon : forall v, lo <= v < hi -> 0 <= v < USER_SPACE_END /\ exists d, d ∈ D /\ on_page self (lp_virt d) v.
Hypothesis Hwrote : wrote self lo hi m m'.

Lemma wrote_space : manager_ok self m' B /\ (forall w, mapping self m' w = mapping self m w) /\ forall k w, tbl (levels self) (root_phys self) m' k w = tbl (levels self) (root_phys self) m k w.
Proof using Hpr Hram Hwrote.
  pose proof (wrote_tables self lo hi m m' Hram Hwrote) as Hs. destruct Hwrote as (f & E & _). pose proof (pg_ok _ _ _ _ _ _ _ Hpr) as Hok. pose proof Hok as [_ [Hmem Hfine _ _ Hheld]].
  apply (step_space self m B m' B Hok); [subst m'; by apply mem_ok_phys|subst m'; by split|by subst m'|done|done].
Qed.
(** Pages that were in use before loading are not written. *)
Lemma wrote_old q x : in_use (levels self) (root_phys self) m0 B0 q -> 0 <= x < PAGE_SIZE -> phys m' (q * PAGE_SIZE + x) = phys m (q * PAGE_SIZE + x).
Proof using Hpr Hon Hwrote.
  intros Hq Hx. destruct Hwrote as (f & -> & Hf). cbn. apply Hf. intros v Hv Hpa. destruct (Hon v Hv) as (_ & d & Hd & Hp).
  destruct (loaded_at self m0 B0 D m B mapped Hpr d v Hd Hp) as (i & mp & q' & _ & _ & Hpi & Hm & _). rewrite mapping_translate, Hm in Hpa. injection Hpa as Heq.
  pose proof (Z.mod_pos_bound v PAGE_SIZE ltac:(done)). assert (q' = q) as -> by (unfold PAGE_SIZE in *; lia). by apply (pi_new _ _ _ _ _ _ _ _ Hpi).
Qed.

Definition refresh (d : LoadedPage) : LoadedPage :=
  mkLoaded (lp_virt d) (lp_flags d) (fun a => match translate_addr self a m' with Some pa => phys m' pa | None => 0 end).

Lemma refresh_virt : lp_virt <$> (refresh <$> D) = lp_virt <$> D.
Proof. rewrite <- list_fmap_compose. by apply list_fmap_ext. Qed.

Lemma progress_wrote : progress self m0 B0 (refresh <$> D) m' B mapped.
Proof using Hpr Hram Hon Hwrote.
  destruct wrote_space as (Hok' & Hm & Ht). destruct Hwrote as (f & E & _). pose proof Hpr as [Hok [F U P Dt] Hext (qs & Hnd & Hlq & Hlm & Hpages) Hvirt Huser Hother].
  assert (Hu : forall r, in_use (levels self) (root_phys self) m B r -> in_use (levels self) (root_phys self) m' B r) by (intros r [Hr Hn]; split; [done|]; intros k w; rewrite Ht; apply Hn).
  split; [done| | | |by rewrite refresh_virt| |].
  - split; [transitivity m; [done|subst m'; by split]|auto|intros r Hr; subst m'; by apply P|]. intros r x Hr Hx. rewrite (wrote_old r x Hr Hx). by apply Dt.
  - intros w Hw. apply (step_extends self m B m' B); [by apply (wrote_tables self lo hi)| |by apply Hext]. intros k w' t _ Ho. by subst m'.
  - exists qs. rewrite length_fmap. split; [done|]. split; [done|]. split; [done|]. intros i d mp q Hd Hmp Hq. rewrite list_lookup_fmap in Hd. destruct (D !! i) as [d0|] eqn:Hd0; [|done].
    injection Hd as <-. destruct (Hpages i d0 mp q Hd0 Hmp Hq) as [a b c u nw pg gm gb _].
    assert (Hd0u : user_page d0) by (rewrite Forall_lookup in Huser; by eapply Huser).
    split; try done; [by apply Hu|by subst m'|intros w Hw; rewrite Hm; by apply gm|]. intros x Hx. cbn. destruct Hd0u as ([k Hk] & Hr & _).
    assert (Hdiv : (lp_virt d0 + x) / PAGE_SIZE = k /\ (lp_virt d0 + x) mod PAGE_SIZE = x).
    { rewrite Hk. split; [symmetry; apply (Z.div_unique_pos _ _ k x); unfold PAGE_SIZE in *; lia|symmetry; apply (Z.mod_unique_pos _ _ k x); unfold PAGE_SIZE in *; lia]. }
    rewrite mapping_translate, Hm, gm; [cbn; by rewrite (proj2 Hdiv)|].
    apply on_page_user; [apply Hok|done|unfold PAGE_SIZE, USER_SPACE_END in *; lia|]. rewrite (proj1 Hdiv), Hk. apply page_of_table.
  - apply Forall_fmap. eapply Forall_impl; [exact Huser|]. by intros d.
  - intros w Hw. rewrite Hm. apply Hother. intros d Hd. apply (Hw (refresh d)). by apply list_elem_of_fmap_2.
Qed.

(** The other addresses of the program show the same. *)
Lemma wrote_view d w : d ∈ D -> on_page self (lp_virt d) w -> 0 <= w < USER_SPACE_END -> ~ lo <= w < hi -> user_view self m' w = user_view self m w.
Proof using Hpr Hram Hon Hwrote.
  intros Hd Hp Hw Hout. unfold user_view. rewrite (proj1 (proj2 wrote_space)). destruct (mapping self m w) as [[pa fl]|] eqn:Hm; [|done]. cbn. do 2 f_equal.
  destruct Hwrote as (f & -> & Hf). cbn. apply Hf. intros v Hv Hpa. destruct (Hon v Hv) as (Hvr & d' & Hd' & Hp'). apply Hout.
  assert (w = v) as ->; [|done]. apply (loaded_inj self m0 B0 D m B mapped Hpr d d' w v pa); try done. by rewrite mapping_translate, Hm.
Qed.
End Stack.

(** ** What has been loaded is a program *)
Lemma progress_program self m0 B0 D m B mapped :
  progress self m0 B0 D m B mapped -> own_space self m B -> program_pages self m B mapped.
Proof.
  intros Hpr Hown. pose proof Hpr as [Hok _ _ (qs & Hnd & Hlq & Hlm & Hpages) Hvirt Huser _].
  assert (Hget : forall i mp, mapped !! i = Some mp -> exists d q, D !! i = Some d /\ page_is self m0 B0 m B d mp q).
  { intros i mp Hmp. pose proof (lookup_lt_Some _ _ _ Hmp). destruct (lookup_lt_is_Some_2 D i ltac:(lia)) as [d Hd]. destruct (lookup_lt_is_Some_2 qs i ltac:(lia)) as [q Hq].
    exists d, q. split; [done|]. by apply (Hpages i). }
  split.
  - apply Forall_lookup. intros i mp Hmp. destruct (Hget i mp Hmp) as (d & q & Hd & [a b c u _ _ gm _ _]). rewrite Forall_lookup in Huser. destruct (Huser i d Hd) as (Hal & Hr & Hf & Hus).
    pose proof (cached_bounds m B q _ (so_mem _ _ _ _ (proj2 Hok)) (proj1 u)) as Hq. pose proof (so_max _ _ _ _ (proj2 Hok)) as Hmax.
    split; rewrite ?a, ?b, ?c; [done|done| |by apply Hown|done].
    split; [split; [by exists q|unfold PAGE_SIZE in *; lia]|by rewrite page_of_table].
  - replace (mp_virt <$> mapped) with (lp_virt <$> D); [done|]. apply list_eq_same_length with (length D); rewrite ?length_fmap; [done|done|].
    intros i x y Hi Hx Hy. rewrite list_lookup_fmap in Hx. rewrite list_lookup_fmap in Hy. destruct (mapped !! i) as [mp|] eqn:Hmp; [|done]. destruct (Hget i mp Hmp) as (d & q & Hd & Hpi).
    rewrite Hd in Hx. injection Hx as <-. injection Hy as <-. symmetry. apply Hpi.
Qed.
