(* ===== verification/ExecCallTheorems.v ===== *)
(** * execve starts the program or leaves the caller as it was *)

From stdpp Require Import sorting.
From S2P Require Import Prelude Errno OrdMap MapleTree Vma MmSyscall Page Zone Pcp Buddy PageEntry Paging PageWalk PagingMap PagingUnmap Block BlockTheorems Utf8 Elf ExecStack ExecArgs ExecLoad ExecPages ExecStage ExecRun ExecTheorems ExecVma ExecRemap ExecCall ExecCallSteps.
#[local] Open Scope Z_scope.

Section Call.
Context {M : Type} `{HM : OrdMap M (RangeEntry VmaInfo)}.
Context (apic : Z) (self : PageTableManager).
Implicit Types (st : ExecState M) (x : ExecMm M) (l : list (Z * area)).

(** ** States of a running program *)
Definition with_mappings (p : Process) (mappings : list ExecMappedPage) : Process := snd (replace_exec_mappings mappings p).

Record exec_ok st (B : gmap Z Block) x l (t : Task) (p : Process) : Prop := {
  xo_mem : manager_ok self (st_mem st) B;
  xo_own : own_space self (st_mem st) B;
  xo_direct : max_pfn (st_mem st) * PAGE_SIZE + direct_map_offset self <= U64_MAX;
  xo_mm : st_mm st = Some x;
  xo_areas : areas_ok (em_mm x) l;
  xo_task : st_task st = Some t;
  xo_process : st_process st = Some p;
  xo_program : program_pages self (st_mem st) B (exec_mappings p)
}.

(** ** The accessors *)
Lemma on_mem_ret {A} (k : Kern A) st a m : k (st_mem st) = Ret (a, m) -> on_mem k st = Ret (a, with_mem st m).
Proof. intros R. unfold on_mem. by rewrite R. Qed.
Lemma take_current_ok st t p : st_task st = Some t -> st_process st = Some p ->
  take_current_exec_mappings st = (Some (exec_mappings p), with_process st (with_mappings p [])).
Proof. intros Ht Hp. unfold take_current_exec_mappings, current_process. by rewrite Ht, Hp. Qed.
Lemma set_current_ok mappings st t p : st_task st = Some t -> st_process st = Some p -> exec_mappings p = [] ->
  set_current_exec_mappings apic self mappings st = Ret (Some 0, with_process st (with_mappings p mappings)).
Proof. intros Ht Hp He. unfold set_current_exec_mappings, current_process. rewrite Ht, Hp. cbn [replace_exec_mappings]. by rewrite He. Qed.
Lemma with_mappings_twice p a b : with_mappings (with_mappings p a) b = with_mappings p b.
Proof. done. Qed.

Lemma with_mappings_self p : with_mappings p (exec_mappings p) = p.
Proof. by destruct p. Qed.

Section From.
Context (st0 : ExecState M) (B0 : gmap Z Block) (x0 : ExecMm M) (l0 : list (Z * area)) (t0 : Task) (p0 : Process).
Hypothesis Hst : exec_ok st0 B0 x0 l0 t0 p0.
Hypothesis Ha : 0 <= apic.
Hypothesis Hd0 : 0 <= direct_map_offset self.

Abbreviation m0 := (st_mem st0).
Abbreviation prev := (exec_mappings p0).

(** The caller's state again, but for the pages [U] of its program, which are unmapped, and
    with [mappings] recorded. *)
Definition back (U mappings : list ExecMappedPage) st : Prop :=
  exists B x, without self m0 B0 U (st_mem st) B /\ st_mm st = Some x /\ areas_ok (em_mm x) l0 /\ snapshot_mm_layout x = snapshot_mm_layout x0 /\
    pgd (em_mm x) = pgd (em_mm x0) /\ st_task st = Some t0 /\ st_process st = Some (with_mappings p0 mappings).

Lemma back_refl : back [] prev st0.
Proof using Hst.
  destruct Hst as [a b c d e f g h]. exists B0, x0. rewrite with_mappings_self. split; [by apply without_nil|]. done.
Qed.

(** The address space can be given back: it is the old one, or the restore point leads there. *)
Definition can_restore (vr : option ExecVmaRestorePoint) x l : Prop :=
  match vr with
  | None => l = l0 /\ snapshot_mm_layout x = snapshot_mm_layout x0
  | Some r => r = mkRestore (snapshot_mm_layout x0) (plans_of l0) /\ forall kv, is_user kv = false -> kv ∈ l <-> kv ∈ l0
  end.

Lemma restore_areas vr x l :
  areas_ok (em_mm x) l -> can_restore vr x l ->
  exists x', match vr with Some restore => restore_current_exec_vmas (Some x) restore | None => Ret (Some x) end = Ret (Some x') /\
    areas_ok (em_mm x') l0 /\ snapshot_mm_layout x' = snapshot_mm_layout x0 /\ pgd (em_mm x') = pgd (em_mm x).
Proof using Hst.
  intros Hok Hr. destruct vr as [r|]; cbn in Hr; [|destruct Hr as [-> Hs]; by exists x]. destruct Hr as [-> Hsame].
  destruct (restore_ok x l (em_mm x0) l0 (snapshot_mm_layout x0) Hok (xo_areas _ _ _ _ _ _ Hst) Hsame) as (x' & R & H1 & H2 & H3). exists x'. unfold restore_current_exec_vmas. rewrite R. done.
Qed.

Lemma give_back_ok st B vr e x l :
  without self m0 B0 prev (st_mem st) B -> st_mm st = Some x -> areas_ok (em_mm x) l -> pgd (em_mm x) = pgd (em_mm x0) -> can_restore vr x l ->
  st_task st = Some t0 -> st_process st = Some (with_mappings p0 []) ->
  exists e' st', give_back apic self prev vr e st = Ret (Returned e', st') /\ (e' = e /\ back [] prev st' \/ e' = ENOMEM /\ back prev [] st').
Proof using Hst Ha.
  intros Hw Hmm Hok Hpgd Hr Htask Hproc. destruct (restore_areas vr x l Hok Hr) as (x' & R1 & Hok' & Hsn & Hpgd'). unfold give_back, restore_previous_exec_state.
  rewrite Hmm, R1. mstep. unfold on_mem. cbn [st_mem with_current_mm].
  destruct (remap_exec_mappings_ok apic self m0 B0 Ha (xo_mem _ _ _ _ _ _ Hst) prev (st_mem st) B (xo_program _ _ _ _ _ _ Hst) Hw) as (r & m' & B' & R2 & Hres).
  rewrite R2. mstep. destruct Hres as [[-> Hw']|[-> Hw']].
  - unfold set_current_exec_mappings, current_process. cbn [with_mem with_current_mm st_task st_process]. rewrite Htask, Hproc. cbn. eexists e, _. split; [done|]. left. split; [done|].
    exists B', x'. cbn. split; [done|]. split; [done|]. split; [done|]. split; [done|]. split; [congruence|done].
  - eexists ENOMEM, _. split; [done|]. right. split; [done|]. exists B', x'. cbn. split; [done|]. split; [done|]. split; [done|]. split; [done|]. split; [congruence|done].
Qed.

(** ** After the old program was unmapped *)
Section Replace.
Context (path : list Z) (argv envp : list (list Z)) (image : list Z) (plan : ExecLoadPlan).
Hypothesis Hpath : text path.
Hypothesis Hargv : Forall text argv.
Hypothesis Henvp : Forall text envp.
Hypothesis Hbytes : Forall byte image.
Hypothesis Hlen : Z.of_nat (length image) < u64_size.
Hypothesis Hplan : build_elf_load_plan image = Ok plan.

Definition exec_args : list (list Z) := if bool_decide (argv = []) then [path] else argv.
Lemma exec_args_text : Forall text exec_args.
Proof using Hpath Hargv. unfold exec_args. destruct (bool_decide _); [constructor; [done|constructor]|done]. Qed.

(** Nothing of the new program is left: the old one can come back. *)
Lemma without_loaded m1 B1 m2 B2 :
  without self m0 B0 prev m1 B1 -> progress self m1 B1 [] m2 B2 [] -> without self m0 B0 prev m2 B2.
Proof.
  intros Hw [Hok Hk He _ _ _ Ho]. apply (without_kept self m0 B0 prev m1 B1); [done|done|done|done|]. intros w. apply Ho. by intros d ?%elem_of_nil.
Qed.
Lemma own_after m1 B1 : without self m0 B0 prev m1 B1 -> own_space self m1 B1.
Proof using Hst. intros Hw v Hv. apply (wo_ext _ _ _ _ _ _ Hw). by apply (xo_own _ _ _ _ _ _ Hst). Qed.

(** The plan passed the checks when staging succeeds. *)
Lemma staged_checked mapped m m' : stage_pt_load_mappings apic self image plan m = Ret (Ok mapped, m') -> exists b, check_plan plan = Ok b.
Proof.
  unfold stage_pt_load_mappings, stage_body. destruct (check_plan plan) as [b|e]; [by exists b|]. cbn. done.
Qed.
Lemma plan_placed b : check_plan plan = Ok b -> placed plan.
Proof using Hbytes Hplan.
  intros Hc. pose proof (plan_loadable image plan Hbytes Hplan) as Hpl. pose proof Hpl as [Hs Hsort Ht Hn].
  destruct (check_plan_ok plan Ht Hn) as [[_ Hoff]|Hbad]; [|congruence]. split; [|done|done|].
  - eapply Forall_impl; [exact Hs|]. intros s [(? & ? & ?) _ [Hal He] Hp Hu _]. split; [done|]. split; [rewrite He; apply Z.divide_add_r; [done|by exists (page_count s)]|]. lia.
  - unfold stack_bottom_of in Hoff. rewrite Ht, Hn in Hoff. done.
Qed.

(** The program has been loaded and its areas are installed. *)
Record in_place m1 B1 m2 B2 mapped x l : Prop := {
  ip_without : without self m0 B0 prev m1 B1;
  ip_progress : progress self m1 B1 (plan_pages image plan) m2 B2 mapped;
  ip_areas : areas_ok (em_mm x) l;
  ip_pgd : pgd (em_mm x) = pgd (em_mm x0);
  ip_layout : snapshot_mm_layout x = layout_of plan;
  ip_which kv : kv ∈ l <-> kv ∈ l0 /\ is_user kv = false \/ kv ∈ area_of <$> build_exec_vma_plan plan
}.
Abbreviation restore_point := (mkRestore (snapshot_mm_layout x0) (plans_of l0)).

Lemma installed_restores m1 B1 m2 B2 mapped x l : placed plan -> in_place m1 B1 m2 B2 mapped x l -> can_restore (Some restore_point) x l.
Proof.
  intros Hp [_ _ _ _ _ Hin]. split; [done|]. intros kv Hu. rewrite Hin. split; [|auto]. intros [[? _]|Hkv]; [done|]. exfalso.
  apply list_elem_of_fmap in Hkv as (v & -> & Hv). destruct (plan_vmas_good plan Hp) as (Hg & _ & Hus). rewrite Forall_forall in Hg, Hus. destruct (Hus v Hv), (gv_range _ (Hg v Hv)).
  unfold is_user, in_user_space in Hu. cbn in Hu. apply andb_false_iff in Hu as [Hc%Z.ltb_ge|Hc%Z.ltb_ge]; unfold USER_SPACE_START, USER_SPACE_END in *; lia.
Qed.

Lemma roll_back_ok st m1 B1 D m2 B2 mapped x l e :
  without self m0 B0 prev m1 B1 -> progress self m1 B1 D m2 B2 mapped -> st_mem st = m2 -> st_mm st = Some x -> areas_ok (em_mm x) l -> pgd (em_mm x) = pgd (em_mm x0) ->
  can_restore (Some restore_point) x l -> st_task st = Some t0 -> st_process st = Some (with_mappings p0 mapped) ->
  exists e' st', roll_back apic self prev restore_point e st = Ret (Returned e', st') /\ (e' = e /\ back [] prev st' \/ e' = ENOMEM /\ back prev [] st').
Proof using Hst Ha.
  intros Hw Hp Hm Hmm Hok Hpgd Hr Htask Hproc. unfold roll_back. rewrite (take_current_ok _ _ _ Htask Hproc).
  destruct (rollback_loop_ok self m1 B1 apic Ha D m2 B2 mapped Hp) as (m3 & B3 & R & Hp').
  { apply Forall_forall. intros d Hd. apply (own_after m1 B1 Hw). pose proof (pg_user _ _ _ _ _ _ _ Hp) as Hu. rewrite Forall_forall in Hu. apply (Hu d Hd). }
  rewrite <- Hm in R. cbv beta iota. change (default [] (Some (exec_mappings (with_mappings p0 mapped)))) with mapped.
  rewrite (on_mem_ret (rollback_exec_mappings apic self mapped) (with_process st (with_mappings (with_mappings p0 mapped) [])) tt m3 R). mstep. eapply (give_back_ok _ B3 _ _ x l); [by eapply without_loaded|done|done|done|done|done|done].
Qed.

(** ** The program runs *)
Record started (frame : UserEnterFrame) st : Prop := {
  sd_frame : frame = build_user_enter_frame (plan_entry plan) (rsp frame) /\ stack_bottom_of plan <= rsp frame < stack_top plan /\ rsp frame mod 16 = 8;
  sd_segments s w : s ∈ segments plan -> page_start s <= w < page_end s -> user_view self (st_mem st) w = Some (segment_byte image s w, map_flags s);
  sd_stack : abi_stack self (st_mem st) (rsp frame) exec_args envp (minimal_auxv plan);
  sd_argv i s : exec_args !! i = Some s -> argv_at self (st_mem st) (rsp frame + 8) (Z.of_nat i) = Ret (Some s);
  sd_other w : 0 <= w < USER_SPACE_END -> (forall s, s ∈ segments plan -> ~ page_start s <= w < page_end s) -> ~ stack_bottom_of plan <= w < stack_top plan ->
    (on_pages self prev w -> mapping self (st_mem st) w = None) /\ (~ on_pages self prev w -> mapping self (st_mem st) w = mapping self m0 w);
  sd_again : exists B x l p, exec_ok st B x l (mkTask (task_pid t0) path) p /\ preserves (levels self) (root_phys self) m0 B0 (st_mem st) B /\
    (forall kv, kv ∈ l <-> kv ∈ l0 /\ is_user kv = false \/ kv ∈ area_of <$> build_exec_vma_plan plan) /\ last_exec_path p = path
}.

Lemma stack_on_pages v : stack_bottom_of plan <= v < stack_top plan -> 0 <= v < USER_SPACE_END /\ exists d, d ∈ plan_pages image plan /\ on_page self (lp_virt d) v.
Proof using Hbytes Hplan Hst. apply stack_on_plan; [apply (xo_mem _ _ _ _ _ _ Hst)|by apply plan_loadable]. Qed.

(** What holds in the memory [m3] with the stack filled. *)
Lemma entered m1 B1 m2 B2 mapped x l m3 sp ps es (info : StackInfo) :
  placed plan -> in_place m1 B1 m2 B2 mapped x l -> wrote self (stack_bottom_of plan) (stack_top plan) m2 m3 ->
  sp = first_rsp (stack_top plan) exec_args envp (minimal_auxv plan) -> stack_bottom_of plan <= first_rsp (stack_top plan) exec_args envp (minimal_auxv plan) ->
  stack_ready self m3 sp exec_args envp (minimal_auxv plan) ps es ->
  started (build_user_enter_frame (plan_entry plan) sp)
    (mkState m3 (Some (mkExecMm (em_mm x) (start_code x) (end_code x) (start_data x) (end_data x) (arg_start info) (arg_end info) (env_start info) (env_end info)))
       (Some (mkTask (task_pid t0) path)) (Some (record_exec_request path (Z.of_nat (length argv)) (Z.of_nat (length envp)) (with_mappings p0 mapped)))).
Proof using Hst Hpath Hargv Hbytes Hplan.
  intros Hplaced [Hw Hp Hareas Hpgd Hly Hwhich] Hwr Hsp Hfit Hready. pose proof (plan_loadable image plan Hbytes Hplan) as Hpl. pose proof (progress_loaded self image plan m1 B1 m2 B2 mapped Hpl Hp) as Hld.
  pose proof (progress_wrote self m1 B1 _ m2 B2 mapped Hp _ _ m3 (ld_ram _ _ _ _ _ Hld) stack_on_pages Hwr) as Hp3. pose proof (stack_ready_abi _ _ _ _ _ _ _ _ Hready) as Habi. destruct (abi_stack_args _ _ _ _ _ _ Habi) as [Hargs _].
  split; cbn [rsp build_user_enter_frame st_mem].
  - split; [done|]. split; [|rewrite Hsp; apply first_rsp_alignment]. rewrite Hsp. split; [done|]. apply first_rsp_below.
  - intros s w Hs Hsw. destruct (segment_on_plan self image plan s w (proj1 (xo_mem _ _ _ _ _ _ Hst)) Hpl Hs Hsw) as (Hr & d & Hd & Hon).
    rewrite (wrote_view self m1 B1 _ m2 B2 mapped Hp _ _ m3 (ld_ram _ _ _ _ _ Hld) stack_on_pages Hwr d w Hd Hon Hr); [by apply (ld_segment _ _ _ _ _ Hld)|].
    pose proof (pp_apart _ Hplaced) as Hap. rewrite Forall_forall in Hap. destruct (pp_stack _ Hplaced) as [Et En]. unfold stack_bottom_of. rewrite Et, En. specialize (Hap s Hs). change Vma.PAGE_SIZE with PAGE_SIZE in Hap. lia.
  - done.
  - intros i s Hs. pose proof exec_args_text as Htx. rewrite Forall_lookup in Htx. destruct (Htx i s Hs) as [_ Hz Hl Hu]. by rewrite (Hargs i s Hs Hz Hl), Hu.
  - intros w Hr Hseg Hstk. assert (Hm : mapping self m3 w = mapping self m1 w).
    { apply (pg_other _ _ _ _ _ _ _ Hp3). intros d' (d & -> & Hd)%list_elem_of_fmap Hon. cbn in Hon.
      apply on_page_user in Hon; [|apply (xo_mem _ _ _ _ _ _ Hst)|apply (plan_pages_user image plan d Hpl Hd)|done].
      destruct (plan_address image plan d w Hpl Hd Hon) as [(s & Hs & Hsw)|?]; [by apply (Hseg s)|done]. }
    rewrite Hm. split; [apply (wo_out _ _ _ _ _ _ Hw)|apply (wo_rest _ _ _ _ _ _ Hw)].
  - pose proof (preserves_trans _ _ _ _ _ _ _ _ (wo_keep _ _ _ _ _ _ Hw) (pg_keep _ _ _ _ _ _ _ Hp3)) as Hkeep.
    assert (Hown : own_space self m3 B2) by (intros v Hv; apply (pg_ext _ _ _ _ _ _ _ Hp3); by apply (own_after m1 B1 Hw)).
    eexists B2, _, l, (record_exec_request path (Z.of_nat (length argv)) (Z.of_nat (length envp)) (with_mappings p0 mapped)). split; [|done].
    split; cbn [st_mem st_mm st_task st_process em_mm exec_mappings record_exec_request]; [apply Hp3|done| |done|done|done|done|by eapply progress_program].
    rewrite (fr_max _ _ (pv_frame _ _ _ _ _ _ Hkeep)). apply (xo_direct _ _ _ _ _ _ Hst).
Qed.

Lemma start_ok st m1 B1 B2 mapped x l :
  placed plan -> in_place m1 B1 (st_mem st) B2 mapped x l -> st_mm st = Some x -> st_task st = Some t0 -> st_process st = Some (with_mappings p0 mapped) ->
  exists out st', start_program apic self path argv envp plan prev restore_point st = Ret (out, st') /\
    match out with
    | Returned e => e = E2BIG /\ back [] prev st' \/ e = ENOMEM /\ back prev [] st'
    | Entered frame => started frame st'
    end.
Proof using Hst Ha Hpath Hargv Henvp Hbytes Hplan.
  intros Hplaced Hin Hmm Htask Hproc. pose proof Hin as [Hw Hp Hareas Hpgd Hly Hwhich]. set (m2 := st_mem st) in *. pose proof (plan_loadable image plan Hbytes Hplan) as Hpl.
  destruct (stack_bounds image plan Hpl) as (Hb & Ht & Hn & He). pose proof (progress_loaded self image plan m1 B1 m2 B2 mapped Hpl Hp) as Hld.
  set (lo := stack_bottom_of plan) in *. set (top := stack_top plan) in *. unfold start_program. fold exec_args. fold top.
  destruct (setup_initial_user_stack_ok self lo top ltac:(unfold PAGE_SIZE in *; lia) ltac:(lia) m2 (plan_stack_pages plan) exec_args envp (minimal_auxv plan)) as (r & m3 & R & Hwr & Hres);
    [done|apply (ld_ram _ _ _ _ _ Hld)|lia|exists (0x7FFFFFFF7 * 256); unfold PAGE_SIZE in *; lia|apply texts_bytes, exec_args_text|by apply texts_bytes|by eapply minimal_auxv_words|].
  rewrite (on_mem_ret _ st _ m3 R). mstep. pose proof (progress_wrote self m1 B1 _ m2 B2 mapped Hp lo top m3 (ld_ram _ _ _ _ _ Hld) stack_on_pages Hwr) as Hp3.
  destruct (first_rsp top exec_args envp (minimal_auxv plan) <? lo) eqn:Hfit.
  - subst r. destruct (roll_back_ok (with_mem st m3) m1 B1 _ m3 B2 mapped x l E2BIG Hw Hp3 eq_refl Hmm Hareas Hpgd (installed_restores _ _ _ _ _ _ _ Hplaced Hin) Htask Hproc) as (e' & st' & R' & Hback).
    exists (Returned e'), st'. split; [exact R'|exact Hback].
  - destruct Hres as (info & ps & es & -> & Hrsp & Hready). cbn [set_strings with_mem st_mm]. unfold set_strings, record_current_exec_request. cbn [with_mem st_mm st_task]. rewrite Hmm.
    cbn [with_current_mm st_task with_mem st_process]. rewrite Htask, Hproc. cbn [st_process]. eexists (Entered _), _. split; [done|]. cbn [st_mem with_process].
    apply Z.ltb_ge in Hfit. by apply (entered m1 B1 m2 B2 mapped x l m3 (user_rsp info) ps es info).
Qed.

Hypothesis Hcap : (length l0 + length (segments plan) < om_cap)%nat /\ Z.of_nat (length l0 + length (segments plan)) + 1 < 4294967295.

(** The errors that the later steps can have. *)
Definition late_error (e : Z) : Prop := e ∈ [EINVAL; EBUSY; ENOMEM; E2BIG].

Lemma call_replace_ok st B1 :
  without self m0 B0 prev (st_mem st) B1 -> st_mm st = Some x0 -> st_task st = Some t0 -> st_process st = Some (with_mappings p0 []) ->
  exists out st', replace_program apic self path argv envp image plan prev st = Ret (out, st') /\
    match out with
    | Returned e => late_error e /\ back [] prev st' \/ e = ENOMEM /\ back prev [] st'
    | Entered frame => started frame st'
    end.
Proof using Hst Ha Hd0 Hpath Hargv Henvp Hbytes Hlen Hplan Hcap.
  intros Hw Hmm Htask Hproc. pose proof (plan_loadable image plan Hbytes Hplan) as Hpl. pose proof (xo_areas _ _ _ _ _ _ Hst) as Hareas.
  assert (Hdir : max_pfn (st_mem st) * PAGE_SIZE + direct_map_offset self <= U64_MAX) by (rewrite (fr_max _ _ (pv_frame _ _ _ _ _ _ (wo_keep _ _ _ _ _ _ Hw))); apply (xo_direct _ _ _ _ _ _ Hst)).
  destruct (stage_ok apic self image (st_mem st) B1 plan Hpl (wo_ok _ _ _ _ _ _ Hw) (own_after _ _ Hw) Hlen Ha Hd0 Hdir) as (r & D & mapped & m2 & B2 & R & Hp & C).
  unfold replace_program. rewrite (on_mem_ret _ st _ m2 R). mstep. destruct C as [[-> ->]|(e & -> & He & ->)].
  - destruct (staged_checked _ _ _ R) as [b Hchk]. pose proof (plan_placed b Hchk) as Hplaced. destruct Hcap as [Hc1 Hc2].
    destruct (install_ok x0 l0 plan Hareas Hplaced Hc1 Hc2) as (x & l & Ri & Hok & Hpgd & Hly & Hin). unfold install_current_exec_vmas. cbn [with_mem st_mm]. rewrite Hmm, Ri. mstep.
    rewrite (set_current_ok mapped _ t0 (with_mappings p0 [])) by done. mstep. rewrite with_mappings_twice.
    destruct (start_ok (with_process (with_current_mm (with_mem st m2) (Some x)) (with_mappings p0 mapped)) (st_mem st) B1 B2 mapped x l Hplaced) as (out & st' & Rs & Hout); try done.
    exists out, st'. split; [exact Rs|]. destruct out as [e|frame]; [|done]. destruct Hout as [[-> Hb]|[-> Hb]]; [left|right; done]. split; [unfold late_error; set_solver|done].
  - destruct Hp as [Hok2 Hk2 He2 Hpg2 Hv2 Hu2 Ho2]. assert (Hp : progress self (st_mem st) B1 [] m2 B2 []).
    { split; try done. exists []. split; [constructor|]. done. }
    destruct (give_back_ok (with_mem st m2) B2 None e x0 l0) as (e' & st' & Rg & Hb); [by eapply without_loaded|done|done|done|done|done|done|].
    exists (Returned e'), st'. split; [exact Rg|]. destruct Hb as [[-> Hb]|[-> Hb]]; [left|right; done]. split; [unfold late_error; set_solver|done].
Qed.
End Replace.
End From.

(** ** The call *)
Context (read_all_for_pid : Z -> list Z -> exec (Result (list Z) Z)).

(** The file system always answers, with bytes, and the areas of the program fit. *)
Definition file_system_ok l (t : Task) : Prop :=
  forall path, exists r, read_all_for_pid (task_pid t) path = Ret r /\
    forall image, r = Ok image -> Forall byte image /\ Z.of_nat (length image) < u64_size /\
      forall plan, build_elf_load_plan image = Ok plan ->
        (length l + length (segments plan) < om_cap)%nat /\ Z.of_nat (length l + length (segments plan)) + 1 < 4294967295.

Lemma sys_execve_ok st B x l t p path_ptr argv_ptr envp_ptr payload :
  exec_ok st B x l t p -> 0 <= apic -> 0 <= direct_map_offset self -> file_system_ok l t ->
  parse_execve_payload self (st_mem st) path_ptr argv_ptr envp_ptr = Ret payload ->
  exists out st', sys_execve apic self read_all_for_pid path_ptr argv_ptr envp_ptr st = Ret (out, st') /\
    match out with
    | Returned e => back st B x l t p [] (exec_mappings p) st' \/ e = ENOMEM /\ back st B x l t p (exec_mappings p) [] st'
    | Entered frame => exists path argv envp image plan, payload = Ok (path, argv, envp) /\ read_all_for_pid (task_pid t) path = Ret (Ok image) /\
        Forall byte image /\ build_elf_load_plan image = Ok plan /\ started st B l t p path argv envp image plan frame st'
    end.
Proof.
  intros Hst Ha Hd0 Hfs Hparse. unfold sys_execve. rewrite Hparse. mstep. pose proof (back_refl st B x l t p Hst) as Hback. pose proof Hst as [Hmem _ _ Hmm _ Htask Hproc Hprog].
  destruct payload as [[[path argv] envp]|e]; [|by exists (Returned e), st; auto]. rewrite Htask. destruct (Hfs path) as (r & Hr & Himg). rewrite Hr. mstep.
  destruct r as [image|e]; [|by exists (Returned e), st; auto]. destruct (Himg image eq_refl) as (Hb & Hlen & Hcap).
  destruct (build_elf_load_plan image) as [plan|e] eqn:Hplan; [|by exists (Returned e), st; auto]. destruct (parse_execve_payload_text _ _ _ _ _ _ _ _ Hparse) as (Tp & Ta & Te).
  rewrite (take_current_ok st t p Htask Hproc).
  destruct (unmap_exec_mappings_ok apic self (st_mem st) B Ha Hmem (exec_mappings p) Hprog) as (m1 & B1 & R1 & Hw).
  rewrite (on_mem_ret (unmap_exec_mappings apic self (exec_mappings p)) (with_process st (with_mappings p [])) tt m1 R1). mstep.
  destruct (call_replace_ok st B x l t p Hst Ha Hd0 path argv envp image plan Tp Ta Te Hb Hlen Hplan (Hcap plan eq_refl) (with_mem (with_process st (with_mappings p [])) m1) B1 Hw Hmm Htask eq_refl)
    as (out & st' & R & Hout).
  exists out, st'. split; [exact R|]. destruct out as [e|frame]; [naive_solver|]. by exists path, argv, envp, image, plan.
Qed.

(** The area at an address of a segment. *)
Lemma segment_area x l l0 plan s w :
  areas_ok (em_mm x) l -> (forall kv, kv ∈ l <-> kv ∈ l0 /\ is_user kv = false \/ kv ∈ area_of <$> build_exec_vma_plan plan) -> s ∈ segments plan -> page_start s <= w < page_end s ->
  find_vma_flags (em_mm x) w = Ret (Some (segment_vm_flags s)).
Proof.
  intros Hok Hin Hs Hw. rewrite (find_vma_flags_ok _ l _ Hok). unfold flags_at. set (e := mkRange (page_start s) (page_end s) (VmaInfo_new (segment_vm_flags s))).
  assert (Hat : at_point l w = Some e); [|by rewrite Hat]. apply (at_point_spec 0); [apply (ok_tree _ _ Hok)|]. split; [|done].
  apply Hin. right. apply list_elem_of_fmap. exists (segment_vma s). split; [done|]. unfold build_exec_vma_plan. apply elem_of_app. left. by apply list_elem_of_fmap_2.
Qed.

(** C12. What a program that calls [execve] sets in motion.  The call reads the path, the
    arguments and the environment from the caller's memory.  When it enters the new program,
    the file system delivered a file that was accepted; execution starts at the file's entry
    point with the stack pointer in the new stack; every address of a segment shows the byte
    of the file with the protection of the area that the kernel has recorded there; from the
    stack pointer on lies what the System V interface promises, with the caller's arguments
    (the path, when there were none) and environment and the auxiliary vector of the file, and
    [argv_at] of the runtime reads each argument back from there; and the state is again one
    in which the call can be made.  The caller's strings and lists are readable, within the
    limits of the call and UTF-8; [exec_ok] says that the recorded mappings of the caller are
    the live ones and that its user half shares no tables; the file system always answers, and
    the areas of the program fit into the area map. *)
Theorem execve_starts_the_program st B x l t p path_ptr argv_ptr envp_ptr path argv envp frame st' :
  exec_ok st B x l t p -> 0 <= apic -> 0 <= direct_map_offset self -> file_system_ok l t ->
  user_string self (st_mem st) path_ptr path -> valid_utf8 path = true -> Z.of_nat (length path) < EXEC_PATH_MAX ->
  user_list self (st_mem st) argv_ptr argv -> user_list self (st_mem st) envp_ptr envp -> acceptable argv -> acceptable envp ->
  Z.of_nat (length argv) < EXEC_ARG_LIST_MAX -> Z.of_nat (length envp) < EXEC_ENV_LIST_MAX ->
  sys_execve apic self read_all_for_pid path_ptr argv_ptr envp_ptr st = Ret (Entered frame, st') ->
  exists image plan B' x' l' t' p', read_all_for_pid (task_pid t) path = Ret (Ok image) /\ build_elf_load_plan image = Ok plan /\
    rip frame = plan_entry plan /\ stack_bottom_of plan <= rsp frame < stack_top plan /\
    (forall s w, s ∈ segments plan -> page_start s <= w < page_end s ->
       exists fl, find_vma_flags (em_mm x') w = Ret (Some fl) /\ user_view self (st_mem st') w = Some (segment_byte image s w, to_user_pte_flags fl)) /\
    (let args := if bool_decide (argv = []) then [path] else argv in
     abi_stack self (st_mem st') (rsp frame) args envp (minimal_auxv plan) /\
     forall i s, args !! i = Some s -> argv_at self (st_mem st') (rsp frame + 8) (Z.of_nat i) = Ret (Some s)) /\
    exec_ok st' B' x' l' t' p' /\ last_exec_path p' = path.
Proof.
  intros Hst Ha Hd0 Hfs Hp Hpu Hpl Hav Hev Haa Hea Hal Hel Hrun.
  pose proof (parse_execve_payload_ok self (st_mem st) path_ptr argv_ptr envp_ptr path argv envp Hp Hpu Hpl Hav Hev Haa Hea Hal Hel) as Hparse.
  destruct (sys_execve_ok st B x l t p path_ptr argv_ptr envp_ptr _ Hst Ha Hd0 Hfs Hparse) as (out & st1 & R & Hout). rewrite Hrun in R. injection R as <- <-.
  destruct Hout as (path1 & argv1 & envp1 & image & plan & E & Hr & Hb & Hplan & [[Hf [Hsp _]] Hseg Hargc Hargv _ (B' & x' & l' & p' & Hok & _ & Hin & Hlast)]).
  destruct (_ <? _); [done|]. injection E as <- <- <-. exists image, plan, B', x', l', (mkTask (task_pid t) path), p'.
  split; [done|]. split; [done|]. split; [by rewrite Hf|]. split; [done|]. split; [|done].
  intros s w Hs Hw. exists (segment_vm_flags s). split; [by eapply segment_area; [apply Hok|..]|]. rewrite (Hseg s w Hs Hw), segment_vm_flags_pte. do 2 f_equal.
  destruct (build_elf_load_plan_ok image plan Hb Hplan) as (h & _ & _ & _ & Hsok & _). rewrite Forall_forall in Hsok. apply (sg_flags _ _ (Hsok s Hs)).
Qed.

(** C13. A call of [execve] that fails leaves the caller as it was, provided that the page table
    still holds, for every page the process has recorded for its program, exactly the recorded
    frame and flags (no page was replaced or protected anew since), that the caller's path and
    lists can be read, that the file system answers and that the areas of the program fit into
    the area map.  Then the call returns or enters the new program.  When it returns,
    whatever failed (the arguments, the file, its format, memory for the pages, room on the
    stack), all addresses translate as before the call and the pages in use have their
    contents; the areas, the layout of the address space and the record of the program's pages
    are the old ones.  The one exception under these conditions: when putting the old pages
    back runs out of memory for page tables, the call returns [ENOMEM] with the pages of the
    program unmapped and no longer recorded.  (A path or list that is not mapped makes the call
    fault in the kernel; a recorded page that was replaced comes back as recorded.) *)
Theorem failed_execve_keeps_the_program st B x l t p path_ptr argv_ptr envp_ptr payload :
  exec_ok st B x l t p -> 0 <= apic -> 0 <= direct_map_offset self -> file_system_ok l t ->
  parse_execve_payload self (st_mem st) path_ptr argv_ptr envp_ptr = Ret payload ->
  exists out st', sys_execve apic self read_all_for_pid path_ptr argv_ptr envp_ptr st = Ret (out, st') /\
    forall e, out = Returned e ->
      exists B' x', manager_ok self (st_mem st') B' /\ preserves (levels self) (root_phys self) (st_mem st) B (st_mem st') B' /\ own_space self (st_mem st') B' /\
        st_mm st' = Some x' /\ areas_ok (em_mm x') l /\ snapshot_mm_layout x' = snapshot_mm_layout x /\ pgd (em_mm x') = pgd (em_mm x) /\ st_task st' = Some t /\
        ((forall w, mapping self (st_mem st') w = mapping self (st_mem st) w) /\ st_process st' = Some p \/
         e = ENOMEM /\ st_process st' = Some (with_mappings p []) /\
         forall w, if decide (Exists (fun mp => on_page self (mp_virt mp) w) (exec_mappings p)) then mapping self (st_mem st') w = None
                   else mapping self (st_mem st') w = mapping self (st_mem st) w).
Proof.
  intros Hst Ha Hd0 Hfs Hparse. destruct (sys_execve_ok st B x l t p path_ptr argv_ptr envp_ptr payload Hst Ha Hd0 Hfs Hparse) as (out & st' & R & Hout).
  exists out, st'. split; [done|]. intros e ->. assert (Hown : forall B' U, without self (st_mem st) B U (st_mem st') B' -> own_space self (st_mem st') B').
  { intros B' U Hw v Hv. apply (wo_ext _ _ _ _ _ _ Hw). by apply (xo_own _ _ _ _ _ _ Hst). }
  destruct Hout as [(B' & x' & Hw & Hmm & Har & Hsn & Hpg & Ht & Hp)|[-> (B' & x' & Hw & Hmm & Har & Hsn & Hpg & Ht & Hp)]]; exists B', x'.
  - rewrite with_mappings_self in Hp. pose proof Hw as [H1 H2 _ _ H3]. do 2 (split; [done|]). split; [by eapply Hown|]. do 5 (split; [done|]). left. split; [|done].
    intros w. apply H3. by intros ?%Exists_nil.
  - pose proof Hw as [H1 H2 _ H3 H4]. do 2 (split; [done|]). split; [by eapply Hown|]. do 5 (split; [done|]). right. split; [done|]. split; [done|].
    intros w. case_decide; [by apply H3|by apply H4].
Qed.
End Call.
