(* ===== verification/ExecCallExample.v ===== *)
(** * A program that calls execve, on the small machine

    A program with a table of the arguments ["/a"] and ["xyz"] among its data is loaded; it
    calls [execve] with this table, for the file of [ExecExample], for one whose data would lie
    in the stack, and for one that needs too much memory. *)

From stdpp Require Import sorting.
From S2P Require Import Prelude Errno OrdMap BTree MapleTree Vma MmSyscall Page Zone Pcp Buddy PageEntry Paging PageWalk PagingMap PagingUnmap PagingShare Block BlockTheorems Utf8 Elf ExecStack ExecArgs ExecLoad ExecPages ExecStage ExecRun ExecTheorems ExecExample ExecVma ExecRemap ExecCall ExecCallSteps ExecCallTheorems.
#[local] Open Scope Z_scope.

(** The calling program: five bytes of code, then the table and the strings. *)
Definition ex_argv_ptr : Z := 0x402000.
Definition ex_path_ptr : Z := 0x402018.
Definition ex_caller : list Z :=
  elf_header 0x4000B0 2 ++ program_header 1 5 0 0x400000 0xB5 0xB5 ++ program_header 1 6 0xB5 ex_argv_ptr 31 31 ++
  [0x31; 0xC0; 0xEB; 0xFE; 0xC3] ++ le_bytes 8 ex_path_ptr ++ le_bytes 8 (ex_path_ptr + 3) ++ le_bytes 8 0 ++ [0x2F; 0x61; 0] ++ [0x78; 0x79; 0x7A; 0].
Definition ex_caller_plan : ExecLoadPlan :=
  mkExecPlan 0x4000B0 212 0x400040 56 2
    [mkSegment 0x400000 0xB5 0 0xB5 4096 0x400000 0x401000 1 5 true false; mkSegment ex_argv_ptr 31 0xB5 31 4096 0x402000 0x403000 1 (2 ^ 63 + 7) false true]
    2 USER_STACK_TOP DEFAULT_USER_STACK_PAGES.
Lemma ex_caller_bytes : Forall byte ex_caller.
Proof. unfold byte. apply (bool_decide_unpack _). vm_compute. exact I. Qed.
Lemma ex_caller_plan_ok : build_elf_load_plan ex_caller = Ok ex_caller_plan.
Proof. vm_compute. reflexivity. Qed.

(** The state with the program loaded. *)
Definition ex_staged : list ExecMappedPage * Mem :=
  match stage_pt_load_mappings 0 ex_self ex_caller ex_caller_plan ex_space with Ret (Ok mapped, m) => (mapped, m) | _ => ([], ex_space) end.
Definition ex_running : Mem := snd ex_staged.
Definition ex_task : Task := mkTask 7 [].
Definition ex_process : Process := mkProcess [] [] 0 0 0 Running None false false (fst ex_staged).
Definition ex_exec_mm : ExecMm (BTree area) := mkExecMm ex_mm 0 0 0 0 0 0 0 0.
Definition ex_state : ExecState (BTree area) := mkState ex_running (Some ex_exec_mm) (Some ex_task) (Some ex_process).

Lemma ex_caller_loads r m' : stage_pt_load_mappings 0 ex_self ex_caller ex_caller_plan ex_space = Ret (r, m') -> exists mapped, r = Ok mapped.
Proof.
  intros R. assert (Hc : match stage_pt_load_mappings 0 ex_self ex_caller ex_caller_plan ex_space with Ret (Ok _, _) => true | _ => false end = true) by (vm_compute; reflexivity).
  rewrite R in Hc. destruct r as [mapped|e]; [by exists mapped|done].
Qed.
Lemma ex_state_ok : exists B, exec_ok ex_self ex_state B ex_exec_mm ex_areas ex_task ex_process.
Proof.
  destruct ex_own_space as (B0 & Hok & Hown). pose proof (plan_loadable ex_caller ex_caller_plan ex_caller_bytes ex_caller_plan_ok) as Hpl.
  destruct (stage_ok 0 ex_self ex_caller ex_space B0 ex_caller_plan Hpl Hok Hown ltac:(vm_compute; reflexivity) (Z.le_refl 0) (proj1 ex_direct_map) (proj2 ex_direct_map))
    as (r & D & mapped & m1 & B1 & R & P & C).
  destruct (ex_caller_loads r m1 R) as (l & ->). destruct C as [[[= ->] ->]|(e & ? & _)]; [|done]. assert (E : ex_staged = (mapped, m1)) by (unfold ex_staged; by rewrite R).
  assert (Hown1 : own_space ex_self m1 B1) by (intros v Hv; apply (pg_ext _ _ _ _ _ _ _ P), Hown, Hv).
  exists B1. unfold ex_state, ex_process, ex_running. rewrite E. split; cbn [st_mem st_mm st_task st_process ex_exec_mm em_mm fst snd exec_mappings]; [apply P|done| |done|apply ex_areas_ok|done|done|].
  - rewrite (fr_max _ _ (pv_frame _ _ _ _ _ _ (pg_keep _ _ _ _ _ _ _ P))). apply ex_direct_map.
  - by eapply progress_program.
Qed.

(** ** The calls *)
Definition ex_files (file : list Z) : Z -> list Z -> exec (Result (list Z) Z) := fun _ _ => Ret (Ok file).
Abbreviation ex_call file := (sys_execve 0 ex_self (ex_files file) ex_path_ptr ex_argv_ptr 0 ex_state).

(** A file whose data would lie in the stack, and one with eleven pages of data. *)
Definition ex_overlap : list Z := elf_header 0x4000B0 2 ++ program_header 1 5 0 0x400000 0xB0 0xB1 ++ program_header 1 6 0 (USER_STACK_TOP - 4096) 0 8.
Definition ex_big : list Z := elf_header 0x4000B0 2 ++ program_header 1 5 0 0x400000 0xB0 0xB1 ++ program_header 1 6 0 0x600000 0 0xB000.

Lemma ex_enters : match ex_call ex_program with Ret (Entered _, _) => true | _ => false end = true.
Proof. vm_cast_no_check (eq_refl true). Qed.
Lemma ex_refused : match ex_call ex_overlap with Ret (Returned e, _) => e =? EINVAL | _ => false end = true.
Proof. vm_cast_no_check (eq_refl true). Qed.

(** A program that asks for one that does not fit into memory is lost: the pages of the failed
    attempt went to the cache of the CPU, where the page tables for the way back are not taken
    from. *)
Example failed_execve_loses_the_program :
  match ex_call ex_big with
  | Ret (Returned e, st) =>
      (e =? ENOMEM) && match st_process st with Some p => (length (exec_mappings p) =? 0)%nat | None => false end && bool_decide (translate_addr ex_self 0x4000B0 (st_mem st) = None) &&
      bool_decide (is_Some (translate_addr ex_self 0x4000B0 ex_running))
  | _ => false
  end = true.
Proof. vm_cast_no_check (eq_refl true). Qed.

(** ** The strings of the caller *)
Definition loads (p : Z) (bs : list Z) : bool := forallb (fun ib => match load_byte ex_self ex_running (p + Z.of_nat ib.1) with Ret b => b =? ib.2 | _ => false end) (zip (seq 0 (length bs)) bs).
Lemma loads_holds p bs : loads p bs = true -> holds ex_self ex_running p bs.
Proof.
  unfold loads. rewrite forallb_forall. intros Hall i b Hi. assert (Hin : In (i, b) (zip (seq 0 (length bs)) bs)).
  { apply list_elem_of_In, (list_elem_of_lookup_2 _ i). rewrite lookup_zip_with, Hi. rewrite (lookup_seq_lt 0); [done|]. by eapply lookup_lt_Some. }
  specialize (Hall _ Hin). cbn in Hall. destruct (load_byte _ _ _) as [c| |]; [|done..]. by apply Z.eqb_eq in Hall as ->.
Qed.
Lemma ex_strings : loads ex_path_ptr [0x2F; 0x61; 0] = true /\ loads (ex_path_ptr + 3) [0x78; 0x79; 0x7A; 0] = true /\
  match load_usize ex_self ex_running ex_argv_ptr, load_usize ex_self ex_running (ex_argv_ptr + 8), load_usize ex_self ex_running (ex_argv_ptr + 16) with
  | Ret a, Ret b, Ret c => (a =? ex_path_ptr) && (b =? ex_path_ptr + 3) && (c =? 0) | _, _, _ => false end = true.
Proof. split; [|split]; vm_compute; reflexivity. Qed.

#[local] Opaque ex_running ex_self.
Lemma ex_holds_words p a b c :
  load_usize ex_self ex_running p = Ret a -> load_usize ex_self ex_running (p + 8) = Ret b -> load_usize ex_self ex_running (p + 16) = Ret c -> holds_words ex_self ex_running p [a; b; c].
Proof. intros Ha Hb Hc [|[|[|i]]] w Hw; [|injection Hw as <-; exact Hb|injection Hw as <-; exact Hc|done]. injection Hw as <-. rewrite Z.add_0_r. exact Ha. Qed.
Lemma ex_user_strings : user_string ex_self ex_running ex_path_ptr [0x2F; 0x61] /\ user_list ex_self ex_running ex_argv_ptr ex_argv.
Proof.
  destruct ex_strings as (H1 & H2 & H3). assert (Hs : user_string ex_self ex_running ex_path_ptr [0x2F; 0x61]).
  { split; [split; [discriminate|reflexivity]|exact (loads_holds ex_path_ptr [0x2F; 0x61; 0] H1)|by repeat constructor]. }
  split; [exact Hs|]. right. split; [split; [discriminate|by vm_compute]|]. exists [ex_path_ptr; ex_path_ptr + 3]. split.
  - destruct (load_usize ex_self ex_running ex_argv_ptr) as [a| |] eqn:Ea; [|discriminate..]. destruct (load_usize ex_self ex_running (ex_argv_ptr + 8)) as [b| |] eqn:Eb; [|discriminate..].
    destruct (load_usize ex_self ex_running (ex_argv_ptr + 16)) as [c| |] eqn:Ec; [|discriminate..]. apply andb_prop in H3 as [[Qa%Z.eqb_eq Qb%Z.eqb_eq]%andb_prop Qc%Z.eqb_eq]. subst a b c.
    exact (ex_holds_words _ _ _ _ Ea Eb Ec).
  - constructor; [exact Hs|]. constructor; [|constructor]. split; [split; [discriminate|reflexivity]|exact (loads_holds (ex_path_ptr + 3) [0x78; 0x79; 0x7A; 0] H2)|by repeat constructor].
Qed.
Lemma ex_caller_strings : user_string ex_self (st_mem ex_state) ex_path_ptr [0x2F; 0x61] /\ user_list ex_self (st_mem ex_state) ex_argv_ptr ex_argv.
Proof. change (st_mem ex_state) with ex_running. exact ex_user_strings. Qed.
Lemma ex_file_system file : Forall byte file -> Z.of_nat (length file) < u64_size -> (forall plan, build_elf_load_plan file = Ok plan -> (length (segments plan) < 100)%nat) ->
  file_system_ok (M := BTree area) (ex_files file) ex_areas ex_task.
Proof.
  intros Hb Hl Hp path. exists (Ok file). split; [done|]. intros image [= <-]. split; [done|]. split; [done|]. intros plan Hplan. specialize (Hp plan Hplan).
  change (length ex_areas) with 3%nat. change om_cap with 127%nat. lia.
Qed.

Lemma execve_starts_the_program_witness :
  exists frame st', ex_call ex_program = Ret (Entered frame, st') /\ rip frame = 0x4000E8 /\ load_usize ex_self (st_mem st') (rsp frame) = Ret 2 /\
    argv_at ex_self (st_mem st') (rsp frame + 8) 1 = Ret (Some [0x78; 0x79; 0x7A]).
Proof.
  destruct ex_state_ok as [B Hst]. destruct ex_caller_strings as [Hp Ha]. pose proof ex_enters as Hc.
  destruct (ex_call ex_program) as [[[e|frame] st']| |] eqn:Hrun; [discriminate| |discriminate|discriminate]. exists frame, st'.
  destruct (execve_starts_the_program 0 ex_self (ex_files ex_program) ex_state B ex_exec_mm ex_areas ex_task ex_process ex_path_ptr ex_argv_ptr 0 [0x2F; 0x61] ex_argv [] frame st'
    Hst (Z.le_refl 0) (proj1 ex_direct_map)) as (image & plan & B' & x' & l' & t' & p' & E & Hplan & Hrip & _ & _ & [Habi Hargv] & _).
  - apply ex_file_system; [apply ex_program_bytes|apply ex_program_length|]. intros plan Hplan. rewrite ex_program_plan in Hplan. injection Hplan as <-. cbn. lia.
  - exact Hp.
  - reflexivity.
  - reflexivity.
  - exact Ha.
  - left. split; reflexivity.
  - split; [repeat constructor|]. vm_compute. discriminate.
  - split; [constructor|]. vm_compute. discriminate.
  - reflexivity.
  - reflexivity.
  - exact Hrun.
  - injection E as <-. rewrite ex_program_plan in Hplan. injection Hplan as <-. split; [reflexivity|]. split; [exact Hrip|]. split; [exact (ab_argc _ _ _ _ _ _ Habi)|]. exact (Hargv 1%nat [0x78; 0x79; 0x7A] eq_refl).
Defined.

(** The file that overlaps the stack is refused after the caller was unmapped, and the caller
    is back. *)
Lemma failed_execve_keeps_the_program_witness :
  exists st', ex_call ex_overlap = Ret (Returned EINVAL, st') /\ st_process st' = Some ex_process /\ forall w, mapping ex_self (st_mem st') w = mapping ex_self (st_mem ex_state) w.
Proof.
  destruct ex_state_ok as [B Hst]. destruct ex_caller_strings as [Hp Ha].
  assert (Hparse : parse_execve_payload ex_self (st_mem ex_state) ex_path_ptr ex_argv_ptr 0 = Ret (Ok ([0x2F; 0x61], ex_argv, []))).
  { apply (parse_execve_payload_ok ex_self (st_mem ex_state) ex_path_ptr ex_argv_ptr 0 [0x2F; 0x61] ex_argv [] Hp eq_refl eq_refl Ha);
      [left; split; reflexivity|split; [repeat constructor|vm_compute; discriminate]|split; [constructor|vm_compute; discriminate]|reflexivity|reflexivity]. }
  destruct (failed_execve_keeps_the_program 0 ex_self (ex_files ex_overlap) ex_state B ex_exec_mm ex_areas ex_task ex_process ex_path_ptr ex_argv_ptr 0 _
    Hst (Z.le_refl 0) (proj1 ex_direct_map) (ex_file_system ex_overlap ltac:(unfold byte; apply (bool_decide_unpack _); vm_compute; exact I) eq_refl ltac:(intros plan Hplan; vm_compute in Hplan; injection Hplan as <-; cbn; lia)) Hparse)
    as (out & st' & R & Hout).
  pose proof ex_refused as Hc. rewrite R in Hc |- *. destruct out as [e|]; [|discriminate]. apply Z.eqb_eq in Hc. subst e. exists st'.
  destruct (Hout EINVAL eq_refl) as (B' & x' & _ & _ & _ & _ & _ & _ & _ & _ & [[Hm Hpr]|[Hbad _]]); [|discriminate]. split; [reflexivity|]. split; [exact Hpr|exact Hm].
Defined.
